(* ===== verification/_CoqProject ===== *)
-Q . S2P
Prelude.v
CString.v
SeHash.v
BiHash.v
Avc.v
ContextFile.v
Schema.v
Labels.v
Ctype.v
NestedSql.v
Authorizer.v
Init.v
RowLevel.v
Auth.v
Bits.v
Numbers.v
Utf.v
Pattern.v
Varint.v
RowSet.v
Bitvec.v
Serial.v
Record.v
RecordCompare.v
Buffer.v
BtPage.v
BtLayout.v
BtFree.v
BtCell.v
BtAlloc.v
BtCells.v
BtSpec.v
BtCorrupt.v
PgFile.v
PgImage.v
Pager.v
PgTxn.v
PgHot.v
PgJournal.v
PgRecover.v
PgInv.v
PgFault.v
PgWriting.v
PgCache.v
PgChange.v
PgCommit.v
PgAtomic.v
OsKernel.v
OsLock.v
OsLockSafe.v
OsShm.v
OsShmSafe.v
WalIndex.v
WalFrame.v
Wal.v
WalTxn.v
WalDurable.v
WalCrash.v
WalReaders.v
WalUndo.v
WalHeader.v
WalSort.v
WalIter.v
WalCkpt.v
WalBackfill.v
