(* ===== verification/Prelude.v ===== *)
(** * SeSQLite: a verification library

    SeSQLite is SQLite with mandatory access control.  Every database object
    (database, table, column, and every row through the column
    security_context) has an SELinux label.  The extension under
    ext/security/sesqlite keeps the labels in memory and in two tables, asks
    the SELinux policy for a decision whenever SQLite compiles an access, and
    changes the statements SQLite compiles so that rows are checked one by
    one.  This library models the extension as a whole, the places where
    SQLite was changed to call it, and the parts of SQLite under it that
    store and compare what the extension protects: numbers, texts, records,
    the pages of B-trees, the rollback journal, the write-ahead log and the
    locks on files.  Code becomes functions on explicit states, and the theorems say what it promises.

    ** The parts and the files

    - Prelude: machine integers as [Z] with their conversions ([u8], [u32],
      [i32]); C code that can go wrong ([outcome], whose [Undef] is an access
      through NULL or to freed memory, an access out of bounds, an overflow of
      a signed integer, the use of an uninitialized value, a failed assertion,
      or a loop that used up its fuel); C code with state ([sm]); arrays ([zlookup], [zinsert]); the
      tactics and the hint database [sesq].
    - CString: sqlite3_stricmp, sqlite3_strnicmp and sqlite3Dequote of
      src/util.c and the C library functions on strings that are called.
    - SeHash: hash/sqlite/sesqlite_hash_impl.c with its heap of linked elements,
      buckets, rehashing and failing allocations.  The class [Store] is what
      the other files use of a table; the hash table is an instance.
    - BiHash: sesqlite_hash.c, two tables that are inverse to each other,
      written against [Store].
    - Avc: the classes and permissions of sesqlite.h and the packed cache keys
      of sesqlite_authorizer.h.
    - ContextFile: the configuration file (sesqlite_contexts.c): parsing,
      sorted insertion, and the choice of a label (compute_sql_context of
      sesqlite_compute_label.c).
    - Schema: the tables of the connections and sqlite3FindTable.
    - Labels: the state of the extension ([sestate]: the maps from keys to
      label numbers and between numbers and labels, the cache, the
      configuration, the rows of selinux_id and selinux_context) and the
      functions that label objects (make_key, insert_id, getContext and
      others).
    - Authorizer: sesqlite_authorizer.c: checkAccess with its cache, the
      authorizer callback selinuxAuthorizer ([check_action] is its switch),
      the SQL functions, the extra column of new tables, and the callbacks
      on schema changes, commit and rollback.
    - Init: sesqlite_init.c: opening a fresh or a labelled database, reloading,
      the pragmas.
    - RowLevel: the code added to src/select.c, update.c, delete.c, insert.c
      and build.c: conditions in WHERE clauses, the label of inserted rows, the
      text of CREATE TABLE.
    - Auth: src/auth.c, how the compiler calls the authorizer.
    - Varint: the variable-length and four-byte integers of src/util.c.
    - RowSet: src/rowset.c, sets of rowids.
    - Bitvec: src/bitvec.c, sets of page numbers.
    - Bits: a decision procedure for equations of shifts and masks, by
      reflection; Ctype: the character classes of src/global.c.
    - Numbers: checked 64-bit arithmetic and the text of integers (src/util.c).
    - Utf: src/utf.c, characters of UTF-8 and UTF-16 and their translation.
    - Pattern: LIKE and GLOB (patternCompare of src/func.c).
    - Serial: cells of the virtual machine ([Mem]) and their stored form
      (sqlite3VdbeSerialType, Put and Get of src/vdbeaux.c).
    - Record: building records (OP_MakeRecord of src/vdbe.c) and unpacking them
      (sqlite3VdbeRecordUnpack); RecordCompare: the comparisons of records and
      sqlite3MemCompare.
    - Buffer, BtPage: the pages of B-trees (src/btree.c).  Buffer has byte
      buffers, BtPage the page in memory ([MemPage]) and the functions that
      read, insert and remove cells and keep the list of free blocks
      (btreeParseCellPtr, allocateSpace, freeSpace, defragmentPage, insertCell,
      dropCell and others).  What they do is proved in layers: BtLayout (which
      bytes belong to which cell, free block or gap), BtFree (releasing space),
      BtCell (sizes of cells), BtAlloc (finding space), BtCells (cells in
      order), BtSpec (a page is a list of cells) and BtCorrupt (pages with
      arbitrary bytes).
    - PgFile, Pager, PgTxn, PgHot: src/pager.c with a rollback journal, and the
      part of src/pcache.c it needs.  PgFile has the pager ([Pager]), the files
      with the contents a power failure can bring back, and the calls of the
      operating system; Pager the locks, the header of the journal and the
      sub-journal; PgTxn reading, changing and spilling pages and the two phases
      of a commit; PgHot playing back a journal and opening a database with
      sqlite3PagerSharedLock.  The theorems come in layers: PgImage (files after
      a power failure), PgJournal and PgRecover (any image with a readable
      journal is restored), PgInv (which files are safe), PgWriting (the journal
      of a running transaction), PgCache (its pages), PgChange (changing pages),
      PgCommit, and PgAtomic for transactions as a whole.  PgFault has a
      journal that is ignored.
    - OsKernel: processes that share files.  C code with system calls is a
      program ([prog]); the machine interleaves the calls of all processes under
      the rules of POSIX advisory locks (a lock belongs to a process, and closing
      any descriptor of a file drops all of the process).  [wp] is the logic the
      safety proofs use, the class [Sound] its link with the machine.
    - OsLock, OsLockSafe: the locks on the database file (unixLock, posixUnlock,
      unixClose, unixOpen and others of src/os_unix.c) and that they exclude each
      other across threads and processes; OsShm, OsShmSafe: the same for the
      locks of the shared memory (unixShmLock, unixOpenSharedMemory with its
      dead-man switch, unixShmUnmap).
    - WalIndex, WalFrame, Wal, WalTxn: src/wal.c.  WalIndex has the pages of
      the wal-index with their hash tables, WalFrame the frames of the log and
      their checksums, Wal the connection ([Wal]) with its files, locks and
      shared memory and the recovery, WalTxn the transactions.  Their theorems
      are in WalDurable (commit and recovery), WalCrash (failures while
      writing), WalReaders (beginning to read), WalUndo (rolling back) and
      WalHeader (concurrent access to the header of the wal-index, as a step
      relation).
    - WalSort, WalIter, WalCkpt: the checkpoints of src/wal.c, from the merge
      sort of the frames of an index page and the iterator over the pages of the
      log to walCheckpoint, and the opening and closing of a log; [Db] adds the
      database file to the connection.  WalBackfill has their theorems.

    The files of the extension follow its calls: Auth calls the callback of
    Authorizer, which calls getContext of Labels and the policy; getContext
    reads the configuration of ContextFile and registers labels with the
    tables of BiHash; Init establishes the state all of them work on.
    The files on storage follow theirs: RecordCompare uses Record, which uses
    the serial types of Serial and the integers of Varint; WalTxn uses Wal,
    which uses the frames and the index.

    ** What is outside

    libselinux (selinux_check_access, getcon, security_compute_create_raw), the
    return codes of prepared statements, and the success of allocations are
    parameters of the sections that use them.  A prepared statement of the
    extension is the change it makes to the rows of its table.  Expressions
    of the user are opaque, with any evaluation.
    For the write-ahead log the operating system is a list of events, one for
    each call, with the result code and how much of a write was done before
    it failed; a theorem for all lists is a theorem for all failures.  Other
    processes appear as the answers of locks and, in WalHeader, as steps.
    For the rollback journal the answers of the operating system and of the
    allocator, random numbers and the pages the cache gives up are lists of the
    world ([env]).  After a power failure each aligned word of four bytes has a value
    it had since the last sync of its file, the length is one the file had,
    and a directory entry that was not synced may be the old one.  Nothing is
    assumed on the order in which writes reach the disk.
    For the locks of OsLock and OsShm the kernel's table of locks is part of the
    machine and every call may fail; assumed to succeed are fstat on a file just
    opened and the release of the PENDING and RESERVED bytes on the way to a
    SHARED lock.  Nobody deletes the file of the shared memory.
    For pages of B-trees the answer of sqlite3PagerWrite and the content of the
    temporary buffer of the pager are arguments.
    The byte order of the machine is a parameter ([be]); a log written with
    one order is read with the other.

    ** What the theorems show

    - Decisions.  [selinuxAuthorizer_decision]: the callback answers SQLITE_OK
      exactly when the policy grants every permission the action requires on
      the labels of the objects.  [checkAccess_is_policy] and
      [clearavc_transparent]: the cache never changes a decision.
      [sqlite3AuthCheck_selinux] and [sqlite3AuthCheck_fails_closed]: the
      compiler rejects what is not allowed.
    - Rows.  [select_where_filters], [modify_where_filters],
      [insert_inject_labels], [end_table_text_column].
    - Labels.  [getContext_label], [insert_id_registers], [make_key_injective],
      [create_security_context_column_labels], [getcon_id_label],
      [selinux_chcon_pragma_relabels]; opening a fresh database establishes the
      invariant all these assume ([sqlite3SelinuxInit_fresh]).
    - Configuration.  [read_sesqlite_context_sorted] and [_terminates],
      [compute_sql_context_most_specific].
    - Data structures.  The pointer structure of SeHash refines a finite map
      ([sqliteHashFind_refines], [sqliteHashInsert_refines],
      [sqliteHash_remove_clear_refine]); BiHash keeps a bijection; row sets and
      bit vectors are sets; varints decode as the file format says and round-trip.
    - Values.  [sqlite3Int64_overflow], [sqlite3Atoi64_value]; translation of
      texts ([sqlite3VdbeMemTranslate_round_trip]) and pattern matching
      ([patternCompare_matches]) against definitions on characters; values
      survive being stored ([sqlite3VdbeSerial_round_trip],
      [OP_MakeRecord_unpack]) and what is read is well-formed
      ([sqlite3VdbeSerialGet_typed]); the optimised comparisons of records
      agree with the order of values ([sqlite3VdbeFindCompare_equivalent]).
    - Pages of B-trees.  [insertCell_dropCell_refine] and [page_history]: a page
      is a list of cells, whatever happens to its bytes; [cellSizePtr_parse]:
      the two functions that compute sizes of cells agree;
      [btreeInitPage_total]: arbitrary bytes are read safely.
    - Rollback journal.  [transaction_atomic]: whatever calls fail and whatever
      a power failure leaves, the next connection finds the old database or
      the new one; [session_reads]: a transaction reads what it has written
      however pages are spilled.  Both assume a synced journal that is deleted or
      truncated (fullSync, modes DELETE and TRUNCATE), pages at least as large as a
      sector, a database of at most 2^40 bytes, and [transaction_atomic] a new
      connection whose sectors are no larger than those of the journal
      ([short_hot_journal_lost] shows that this is needed) and a journal that
      does not end like one with the name of a master journal.
    - Write-ahead log.  The index: [walIndexAppend_records],
      [sqlite3WalFindFrame_linear].  Frames: [walDecodeFrame_walEncodeFrame],
      [walDecodeFrame_change].  Durability and atomicity:
      [walIndexRecover_cut], [sqlite3WalFrames_durable],
      [sqlite3WalFrames_atomic].  Rolling back:
      [sqlite3WalUndo_restores], [sqlite3WalSavepointUndo_restores].
      Concurrency: [walIndexTryHdr_not_torn],
      [sqlite3WalBeginReadTransaction_returns].  Checkpoints: the sort
      ([walMergesort_latest]), what readers see while pages are copied
      ([sqlite3WalCheckpoint_safe], [sqlite3WalCheckpoint_complete]) and the end
      of a log ([sqlite3WalClose_keeps]).
    - Locks.  [unixLock_exclusion]: in every interleaving of system calls of any
      number of processes and connections, an EXCLUSIVE lock on a database file
      excludes every other lock, no two connections have RESERVED, and no two have
      PENDING or more.  [unixShmLock_exclusion]: the
      same for each lock of the shared memory.
    - What goes wrong.  [decompress_compress], [compress_collision],
      [SESQLITE_BIHASH_INSERT_known], [sqliteHashInsert_oom],
      [sqlite3SelinuxInit_reopen], [insert_id_after_rollback],
      [selinuxCheckAccessFunction_unknown], [select_where_faults],
      [OP_MakeRecord_zeros], [sqlite3VdbeRecordUnpack_negative],
      [coalesce_loop_endless], [defragmentPage_overreads],
      [short_hot_journal_lost] and [unix_excl_loses_lock] state faults of the code.

    ** Bounds and fuel

    The theorems on decisions assume that label numbers stay below 4096, the
    width of the cache key ([compress_collision] shows that this is needed),
    names without colons ([make_key_injective]), and labels that do not begin
    with a quote (sqlite3Dequote would change them).  Loops whose recursion is
    not structural have fuel: the loops over the hash table as many rounds as
    there are elements, the reader of the configuration file one per
    character, the varint loops ten for at most nine rounds, the loops of the
    bit vectors 124 slots and a nesting of four (enough for any 32-bit size,
    [zeroed_ok]), the tree builder of the row sets the length of its list.
    Where a loop could run out of it the theorems show that it does not.
    Row sets have fewer than 2^40 entries, the capacity of the forty buckets
    of their sort.  The matcher of patterns has the length of both texts;
    recovery of a log file has one round for each frame that fits in the file;
    beginning to read has the 101 attempts after which the code gives up; the
    padding of a transaction has one round for each byte up to the next sector;
    walks through the free blocks of a page have its size, joining them twice
    that; waiting for a lock has one round for each answer of the operating system;
    playing back a journal has one round for each byte of it, and the checksum of a
    page one for every 200 bytes;
    a checkpoint has one round for each frame.

    ** What is not modelled

    The virtual table sesqlite_vtab.c, functions that only release memory or
    print, and SQLite itself apart from the parts above: balancing and cursors of
    B-trees (insertCell is modelled without the entry in the pointer map), the
    instructions of the virtual machine other than MakeRecord, parser and code
    generator.  Of the operating system interface, reading and writing files
    and mapping shared memory (unixShmMap) and the locking styles other than
    POSIX locks are left out.  The memory model of the write-ahead
    log is sequential except in WalHeader.
    Of the pager, journals in memory, memory-mapped and temporary files, rolling back
    and releasing savepoints, deleting master journals (pager_delmaster) and backups
    are left out; PERSIST journals and sectors larger than pages are
    modelled but not covered by [transaction_atomic].
    Natural extensions are cursors and balancing (src/btree.c) and the tokenizer
    src/tokenize.c. *)

From Stdlib Require Export ZArith Lia.
From stdpp Require Export base tactics list gmap strings option numbers.

(** ** Machine integers

    Every C integer is a [Z]; an operation that can leave the range of
    its C type is followed by the conversion to that type. *)

#[local] Open Scope Z_scope.

Declare Scope c_scope.
Delimit Scope c_scope with c.

(** [uw w z] is the conversion of [z] to an unsigned [w]-bit type and
    [sw w z] the conversion to a two's complement [w]-bit type. *)
Definition uw (w : Z) (z : Z) : Z := z `mod` 2 ^ w.
Definition sw (w : Z) (z : Z) : Z := (z + 2 ^ (w - 1)) `mod` 2 ^ w - 2 ^ (w - 1).

Abbreviation u8 := (uw 8).
Abbreviation u16 := (uw 16).
Abbreviation u32 := (uw 32).
Abbreviation u64 := (uw 64).
Abbreviation i32 := (sw 32).
Abbreviation i64 := (sw 64).

Infix ".<<" := Z.shiftl (at level 36, left associativity) : c_scope.
Infix ".>>" := Z.shiftr (at level 36, left associativity) : c_scope.
Infix ".&" := Z.land (at level 41, left associativity) : c_scope.
Infix ".^" := Z.lxor (at level 42, left associativity) : c_scope.
Infix ".|" := Z.lor (at level 43, left associativity) : c_scope.

Definition in_uw (w z : Z) : Prop := 0 ≤ z < 2 ^ w.
Definition in_sw (w z : Z) : Prop := - 2 ^ (w - 1) ≤ z < 2 ^ (w - 1).

#[global] Instance in_uw_dec w z : Decision (in_uw w z).
Proof. unfold in_uw. apply _. Defined.
#[global] Instance in_sw_dec w z : Decision (in_sw w z).
Proof. unfold in_sw. apply _. Defined.

Lemma uw_small w z : in_uw w z → uw w z = z.
Proof. unfold in_uw, uw. apply Z.mod_small. Qed.

Lemma uw_range w z : 0 ≤ w → in_uw w (uw w z).
Proof. intros. apply Z.mod_pos_bound. by apply Z.pow_pos_nonneg. Qed.

Lemma sw_small w z : 1 ≤ w → in_sw w z → sw w z = z.
Proof.
  unfold in_sw, sw. intros Hw [Hl Hu].
  assert (2 ^ w = 2 * 2 ^ (w - 1)) as E.
  { rewrite <- Z.pow_succ_r by lia. f_equal. lia. }
  rewrite Z.mod_small; lia.
Qed.

Lemma sw_range w z : 1 ≤ w → in_sw w (sw w z).
Proof.
  unfold in_sw, sw. intros Hw.
  assert (2 ^ w = 2 * 2 ^ (w - 1)) as E.
  { rewrite <- Z.pow_succ_r by lia. f_equal. lia. }
  pose proof (Z.mod_pos_bound (z + 2 ^ (w - 1)) (2 ^ w)). lia.
Qed.

(** Masking with [2^k - 1], the way the hash tables index their bucket
    arrays, is reduction modulo [2^k] whatever the sign. *)
Lemma land_pred_pow2 x k : 0 ≤ k → Z.land x (2 ^ k - 1) = x `mod` 2 ^ k.
Proof.
  intros Hk. replace (2 ^ k - 1) with (Z.ones k).
  - by apply Z.land_ones.
  - rewrite Z.ones_equiv. lia.
Qed.

Lemma land_mask_range x n k :
  0 ≤ k → n = 2 ^ k → 0 ≤ Z.land x (n - 1) < n.
Proof.
  intros Hk ->. rewrite land_pred_pow2 by done.
  apply Z.mod_pos_bound. by apply Z.pow_pos_nonneg.
Qed.

(** ** Outcomes of C code

    A function whose C body can run into undefined behaviour or a failed
    [assert] returns [Undef] with the kind of fault, otherwise [Ret]. *)
Inductive fault : Set :=
  | NullDeref
  | UseAfterFree
  | OutOfBounds
  | AssertFail
  | SignedOverflow
  | Uninitialized
  | OutOfFuel.

#[global] Instance fault_eq_dec : EqDecision fault.
Proof. solve_decision. Defined.

Inductive outcome (A : Type) : Type :=
  | Ret (a : A)
  | Undef (f : fault).
Arguments Ret {A} a.
Arguments Undef {A} f.

#[global] Instance outcome_ret : MRet outcome := @Ret.
#[global] Instance outcome_bind : MBind outcome := λ A B k m,
  match m with Ret a => k a | Undef f => Undef f end.
#[global] Instance outcome_fmap : FMap outcome := λ A B g m,
  match m with Ret a => Ret (g a) | Undef f => Undef f end.

(** [assert(b)] of the C code. *)
Definition c_assert (b : bool) : outcome () :=
  if b then Ret () else Undef AssertFail.

(** Reading through a pointer that may be NULL. *)
Definition deref {A} (o : option A) : outcome A :=
  match o with Some a => Ret a | None => Undef NullDeref end.

Lemma outcome_bind_Ret {A B} (m : outcome A) (k : A → outcome B) b :
  m ≫= k = Ret b ↔ ∃ a, m = Ret a ∧ k a = Ret b.
Proof. destruct m; naive_solver. Qed.

Lemma outcome_bind_assoc {A B C} (m : outcome A) (k : A → outcome B) (l : B → outcome C) :
  (m ≫= k) ≫= l = m ≫= (λ a, k a ≫= l).
Proof. by destruct m. Qed.

(** ** Code with state

    [sm S A] is C code that reads and writes a state [S]. *)
Definition sm (S A : Type) : Type := S → outcome (A * S).

#[global] Instance sm_ret S : MRet (sm S) := λ A a s, Ret (a, s).
#[global] Instance sm_bind S : MBind (sm S) := λ A B k m s,
  match m s with Ret (a, s') => k a s' | Undef f => Undef f end.

Definition sm_get {S A} (f : S → A) : sm S A := λ s, Ret (f s, s).
Definition sm_gets {S A} (f : S → outcome A) : sm S A := λ s,
  match f s with Ret a => Ret (a, s) | Undef e => Undef e end.
Definition sm_mod {S} (f : S → S) : sm S () := λ s, Ret ((), f s).
Definition sm_lift {S A} (m : outcome A) : sm S A := sm_gets (λ _, m).

(** Running a sequence whose first part has been run. *)
Lemma sm_bind_run {S A B} (m : sm S A) (k : A → sm S B) s a s' :
  m s = Ret (a, s') → (m ≫= k) s = k a s'.
Proof. intros E. unfold mbind, sm_bind. by rewrite E. Qed.

Lemma sm_bind_undef {S A B} (m : sm S A) (k : A → sm S B) s f :
  m s = Undef f → (m ≫= k) s = Undef f.
Proof. intros E. unfold mbind, sm_bind. by rewrite E. Qed.

Lemma sm_bind_Ret {S A B} (m : sm S A) (k : A → sm S B) s r :
  (m ≫= k) s = Ret r ↔ ∃ a s', m s = Ret (a, s') ∧ k a s' = Ret r.
Proof. unfold mbind, sm_bind. destruct (m s) as [[]|]; naive_solver. Qed.

(** ** Runs that return *)

(** From a state with [P] the operation returns, with [Q]: total correctness. *)
Definition total {S A} (P : S → Prop) (m : sm S A) (Q : A → S → Prop) : Prop :=
  ∀ w, P w → ∃ a w', m w = Ret (a, w') ∧ Q a w'.

Lemma total_bind {S A B} (P : S → Prop) (m : sm S A) R (k : A → sm S B) Q :
  total P m R → (∀ a, total (R a) (k a) Q) → total P (m ≫= k) Q.
Proof.
  intros Hm Hk w Hw. destruct (Hm w Hw) as (a & w1 & E & Hr). destruct (Hk a w1 Hr) as (b & w2 & E2 & Hq).
  exists b, w2. split; [|done]. by erewrite sm_bind_run.
Qed.

Lemma total_ret {S A} (P : S → Prop) (a : A) (Q : A → S → Prop) : (∀ w, P w → Q a w) → total P (mret a) Q.
Proof. intros H w Hw. exists a, w. auto. Qed.

Lemma total_get {S A} (P : S → Prop) (f : S → A) : total P (sm_get f) (λ a w, P w ∧ a = f w).
Proof. intros w Hw. by exists (f w), w. Qed.

Lemma total_mod {S} (P : S → Prop) f (Q : () → S → Prop) : (∀ w, P w → Q () (f w)) → total P (sm_mod f) Q.
Proof. intros H w Hw. exists (), (f w). auto. Qed.

Lemma total_gets {S A} (P : S → Prop) (f : S → outcome A) (Q : A → S → Prop) :
  (∀ w, P w → ∃ a, f w = Ret a ∧ Q a w) → total P (sm_gets f) Q.
Proof. intros H w Hw. destruct (H w Hw) as (a & E & Hq). exists a, w. unfold sm_gets. by rewrite E. Qed.

Lemma total_assert {S} (P : S → Prop) (f : S → bool) : (∀ w, P w → f w = true) → total P (sm_gets (λ w, c_assert (f w))) (λ _ w, P w).
Proof. intros H. apply total_gets. intros w Hw. exists (). by rewrite (H w Hw). Qed.

Lemma total_conseq {S A} (P P' : S → Prop) (m : sm S A) (Q Q' : A → S → Prop) :
  total P m Q → (∀ w, P' w → P w) → (∀ a w, Q a w → Q' a w) → total P' m Q'.
Proof. intros H H1 H2 w Hw. destruct (H w (H1 w Hw)) as (a & w' & E & Hq). exists a, w'. auto. Qed.

Lemma total_pre {S A} (P P' : S → Prop) (m : sm S A) (Q : A → S → Prop) :
  total P m Q → (∀ w, P' w → P w) → total P' m Q.
Proof. intros H H1 w Hw. by apply H, H1. Qed.

(** Facts that do not depend on the state. *)
Lemma total_pure {S A} (φ : Prop) (P : S → Prop) (m : sm S A) Q : (φ → total P m Q) → total (λ w, P w ∧ φ) m Q.
Proof. intros H w [Hw Hφ]. by apply H. Qed.

(** ** Automation *)

(** Run the first operation of a sequence with the equation [E]. *)
Tactic Notation "run" uconstr(E) := erewrite sm_bind_run by (eapply E; eauto).

Create HintDb sesq.
Create Rewrite HintDb sesq.
#[export] Hint Resolve uw_range sw_range : sesq.
#[export] Hint Rewrite @outcome_bind_assoc : sesq.

(** Destruct the scrutinee of the first [match] or [if] of the goal or a
    hypothesis, keeping the equation. *)
Ltac case_step :=
  match goal with
  | H : context [ match ?x with _ => _ end ] |- _ =>
      lazymatch x with context [ match _ with _ => _ end ] => fail | _ => destruct x eqn:? end
  | |- context [ match ?x with _ => _ end ] =>
      lazymatch x with context [ match _ with _ => _ end ] => fail | _ => destruct x eqn:? end
  end.
Ltac cases := repeat (case_step; simplify_eq/=).

(** Turn boolean comparisons of the code into propositions. *)
Ltac b2p :=
  repeat match goal with
  | H : (_ && _)%bool = true |- _ => apply andb_prop in H as [? ?]
  | H : (_ || _)%bool = false |- _ => apply orb_false_elim in H as [? ?]
  | H : negb _ = true |- _ => apply negb_true_iff in H
  | H : negb _ = false |- _ => apply negb_false_iff in H
  | H : (_ =? _)%Z = true |- _ => apply Z.eqb_eq in H
  | H : (_ =? _)%Z = false |- _ => apply Z.eqb_neq in H
  | H : (_ <? _)%Z = true |- _ => apply Z.ltb_lt in H
  | H : (_ <? _)%Z = false |- _ => apply Z.ltb_ge in H
  | H : (_ <=? _)%Z = true |- _ => apply Z.leb_le in H
  | H : (_ <=? _)%Z = false |- _ => apply Z.leb_gt in H
  | H : bool_decide _ = true |- _ => apply bool_decide_eq_true in H
  | H : bool_decide _ = false |- _ => apply bool_decide_eq_false in H
  end.

(** ** Lists *)

(** [Z]-indexed access to an array of the C code. *)
Definition zlookup {A} (l : list A) (i : Z) : option A :=
  if (i <? 0)%Z then None else l !! Z.to_nat i.

Definition zinsert {A} (l : list A) (i : Z) (x : A) : list A :=
  if (i <? 0)%Z then l else <[Z.to_nat i := x]> l.

Lemma zlookup_nil {A} i : zlookup (@nil A) i = None.
Proof. unfold zlookup. case_match; [done|]. apply lookup_nil. Qed.

Lemma zinsert_length {A} (l : list A) i x : length (zinsert l i x) = length l.
Proof. unfold zinsert. case_match; [done|]. apply length_insert. Qed.

Lemma zlookup_zinsert {A} (l : list A) i j x :
  (0 ≤ i < Z.of_nat (length l))%Z →
  zlookup (zinsert l i x) j = if decide (i = j) then Some x else zlookup l j.
Proof.
  intros [H1 H2]. unfold zlookup, zinsert. destruct (Z.ltb_spec i 0); [lia|].
  destruct (Z.ltb_spec j 0); [case_decide; [lia|done]|].
  case_decide as E; subst.
  - apply list_lookup_insert_eq. lia.
  - apply list_lookup_insert_ne. lia.
Qed.

Lemma zlookup_Some {A} (l : list A) i x :
  zlookup l i = Some x → (0 ≤ i < Z.of_nat (length l))%Z.
Proof.
  unfold zlookup. case_match eqn:E; [done|]. b2p.
  intros ?%lookup_lt_Some. lia.
Qed.

Lemma zlookup_is_Some {A} (l : list A) i :
  (0 ≤ i < Z.of_nat (length l))%Z → is_Some (zlookup l i).
Proof.
  intros. unfold zlookup. destruct (Z.ltb_spec i 0); [lia|].
  apply lookup_lt_is_Some. lia.
Qed.

(** The [n] entries of an array from [off] on, and writing entries there. *)
Definition get_slice {A} (a : list A) (off n : Z) : outcome (list A) :=
  if (0 <=? off)%Z && (0 <=? n)%Z && (off + n <=? Z.of_nat (length a))%Z
  then Ret (take (Z.to_nat n) (drop (Z.to_nat off) a)) else Undef OutOfBounds.

Definition put_slice {A} (a : list A) (off : Z) (l : list A) : outcome (list A) :=
  if (0 <=? off)%Z && (off + Z.of_nat (length l) <=? Z.of_nat (length a))%Z
  then Ret (take (Z.to_nat off) a ++ l ++ drop (Z.to_nat off + length l) a) else Undef OutOfBounds.

(** The content of a file after a write; a gap is filled with zeros. *)
Definition write_at (f : list Z) (off : nat) (a : list Z) : list Z :=
  match a with
  | [] => f
  | _ => take off (f ++ replicate (off - length f) 0) ++ a ++ drop (off + length a) f
  end.

(** Insertion and removal at a position of a list. *)
Definition insert_at {A} (k : nat) (x : A) (l : list A) : list A := take k l ++ x :: drop k l.
Definition remove_at {A} (k : nat) (l : list A) : list A := take k l ++ drop (S k) l.

Lemma lookup_insert_at {A} k (x : A) l j :
  (k ≤ length l)%nat →
  insert_at k x l !! j =
    if decide (j < k)%nat then l !! j else if decide (j = k) then Some x else l !! pred j.
Proof.
  intros Hk. unfold insert_at. repeat case_decide; subst.
  - rewrite lookup_app_l by (rewrite length_take; lia). by rewrite lookup_take_lt by lia.
  - rewrite lookup_app_r by (rewrite length_take; lia).
    rewrite length_take, Nat.min_l, Nat.sub_diag by lia. done.
  - rewrite lookup_app_r by (rewrite length_take; lia).
    rewrite length_take, Nat.min_l by lia.
    destruct (j - k)%nat as [|m] eqn:E; [lia|]. simpl. rewrite lookup_drop. f_equal. lia.
Qed.

Lemma length_insert_at {A} k (x : A) l : length (insert_at k x l) = S (length l).
Proof. unfold insert_at. rewrite length_app. simpl. rewrite length_take, length_drop. lia. Qed.

Lemma insert_at_perm {A} k (x : A) l : insert_at k x l ≡ₚ x :: l.
Proof. unfold insert_at. rewrite <- Permutation_middle. by rewrite take_drop. Qed.

Lemma lookup_remove_at {A} k (l : list A) j :
  (k < length l)%nat →
  remove_at k l !! j = if decide (j < k)%nat then l !! j else l !! S j.
Proof.
  intros Hk. unfold remove_at. case_decide.
  - rewrite lookup_app_l by (rewrite length_take; lia). by rewrite lookup_take_lt by lia.
  - rewrite lookup_app_r by (rewrite length_take; lia).
    rewrite length_take, Nat.min_l, lookup_drop by lia. f_equal. lia.
Qed.

Lemma length_remove_at {A} k (l : list A) :
  (k < length l)%nat → length (remove_at k l) = pred (length l).
Proof. intros. unfold remove_at. rewrite length_app, length_take, length_drop. lia. Qed.

Lemma remove_at_perm {A} k (x : A) l : l !! k = Some x → l ≡ₚ x :: remove_at k l.
Proof.
  intros H. unfold remove_at. rewrite <- (take_drop_middle l k x H) at 1.
  by rewrite <- Permutation_middle.
Qed.

(** A check of every element of a table with its index, and what it gives. *)
Fixpoint all_idx {A} (f : Z → A → bool) (i : Z) (l : list A) : bool :=
  match l with
  | [] => true
  | x :: l' => f i x && all_idx f (i + 1) l'
  end.

Lemma all_idx_lookup {A} (f : Z → A → bool) i l j x :
  all_idx f i l = true → zlookup l j = Some x → f (i + j) x = true.
Proof.
  intros H Hj. pose proof (zlookup_Some _ _ _ Hj) as Hr. unfold zlookup in Hj.
  destruct (Z.ltb_spec j 0); [done|]. remember (Z.to_nat j) as n eqn:En.
  assert (j = Z.of_nat n) as -> by lia. clear En Hr. revert i n Hj H H0.
  induction l as [|y l IH]; intros i n Hj H H0; [by rewrite lookup_nil in Hj|].
  simpl in H. apply andb_prop in H as [H1 H2]. destruct n as [|n]; simpl in Hj.
  - simplify_eq. by rewrite Z.add_0_r.
  - replace (i + Z.of_nat (S n)) with (i + 1 + Z.of_nat n) by lia. apply IH; [done..|lia].
Qed.

(** A property of all bytes, by trying each. *)
Lemma byte_cases (f : Z → bool) b :
  forallb (λ n, f (Z.of_nat n)) (seq 0 256) = true → (0 ≤ b < 256)%Z → f b = true.
Proof.
  intros Hf Hb. rewrite forallb_forall in Hf. specialize (Hf (Z.to_nat b)).
  rewrite Z2Nat.id in Hf by lia. apply Hf, in_seq. lia.
Qed.
