(* ===== verification/CString.v ===== *)
(** * C strings

    A C string is the sequence of the characters before its terminator, a
    [string].  The case-insensitive comparisons and [sqlite3Dequote] are
    those of src/util.c (with the table [sqlite3UpperToLower] of
    src/global.c); [strcasecmp], [strcmp], [strtok_r], [strcspn] and
    [isspace] are the C library functions the sources call, in the "C"
    locale. *)

From S2P Require Import Prelude.
From Stdlib Require Import Ascii.
#[local] Open Scope string_scope.
#[local] Open Scope Z_scope.

(** The value of a character read through an [unsigned char] pointer. *)
Definition code (c : ascii) : Z := Z.of_N (N_of_ascii c).
Definition chr (z : Z) : ascii := ascii_of_N (Z.to_N (u8 z)).

(** The character at the front of a C string, 0 at its terminator. *)
Definition hd0 (s : string) : Z :=
  match s with EmptyString => 0 | String c _ => code c end.

Definition sqlite3UpperToLower (c : Z) : Z :=
  if (65 <=? c) && (c <=? 90) then c + 32 else c.

Fixpoint sqlite3_stricmp (a b : string) : Z :=
  match a, b with
  | String x a', String y b' =>
      if sqlite3UpperToLower (code x) =? sqlite3UpperToLower (code y)
      then sqlite3_stricmp a' b'
      else sqlite3UpperToLower (code x) - sqlite3UpperToLower (code y)
  | _, _ => sqlite3UpperToLower (hd0 a) - sqlite3UpperToLower (hd0 b)
  end.

Fixpoint strnicmp_loop (n : nat) (a b : string) : Z :=
  match n with
  | O => 0
  | S n' =>
      match a, b with
      | String x a', String y b' =>
          if sqlite3UpperToLower (code x) =? sqlite3UpperToLower (code y)
          then strnicmp_loop n' a' b'
          else sqlite3UpperToLower (code x) - sqlite3UpperToLower (code y)
      | _, _ => sqlite3UpperToLower (hd0 a) - sqlite3UpperToLower (hd0 b)
      end
  end.

Definition sqlite3_strnicmp (a b : string) (N : Z) : Z :=
  strnicmp_loop (Z.to_nat N) a b.

(** The loop of [sqlite3Dequote] after the opening quote. *)
Fixpoint dequote_loop (quote : ascii) (z : string) : outcome string :=
  match z with
  | EmptyString => Undef AssertFail
  | String c z' =>
      if Ascii.eqb c quote then
        match z' with
        | String c' z'' =>
            if Ascii.eqb c' quote
            then String quote <$> dequote_loop quote z''
            else Ret ""
        | EmptyString => Ret ""
        end
      else String c <$> dequote_loop quote z'
  end.

(** The closing character that matches an opening one, if it is a quote. *)
Definition dequote_close (c : ascii) : option ascii :=
  if Ascii.eqb c "'"%char then Some c
  else if Ascii.eqb c (ascii_of_nat 34) then Some c
  else if Ascii.eqb c "`"%char then Some c
  else if Ascii.eqb c "["%char then Some "]"%char
  else None.

(** [sqlite3Dequote]: the return value and the new contents of the buffer. *)
Definition sqlite3Dequote (z : option string) : outcome (Z * option string) :=
  match z with
  | None => Ret (-1, None)
  | Some "" => Ret (-1, z)
  | Some (String c rest) =>
      match dequote_close c with
      | None => Ret (-1, z)
      | Some quote =>
          r ← dequote_loop quote rest;
          Ret (Z.of_nat (String.length r), Some r)
      end
  end.

(** C library. *)

Definition tolower (c : Z) : Z := if (65 <=? c) && (c <=? 90) then c + 32 else c.

Fixpoint strcasecmp (a b : string) : Z :=
  match a, b with
  | String x a', String y b' =>
      if tolower (code x) =? tolower (code y) then strcasecmp a' b'
      else tolower (code x) - tolower (code y)
  | _, _ => tolower (hd0 a) - tolower (hd0 b)
  end.

Definition strcmp_eq (a b : string) : bool := String.eqb a b.

Definition isspace (c : ascii) : bool :=
  let z := code c in (z =? 32) || ((9 <=? z) && (z <=? 13)).

Fixpoint skip_space (s : string) : string :=
  match s with
  | String c s' => if isspace c then skip_space s' else s
  | EmptyString => ""
  end.

Fixpoint str_mem (c : ascii) (set : string) : bool :=
  match set with
  | EmptyString => false
  | String d set' => Ascii.eqb c d || str_mem c set'
  end.

(** [strcspn]: the length of the prefix without a character of [reject]. *)
Fixpoint strcspn (s reject : string) : Z :=
  match s with
  | EmptyString => 0
  | String c s' => if str_mem c reject then 0 else 1 + strcspn s' reject
  end.

Fixpoint skip_delim (delim s : string) : string :=
  match s with
  | String c s' => if str_mem c delim then skip_delim delim s' else s
  | EmptyString => ""
  end.

(** The token at the front of [s] and what follows its delimiter. *)
Fixpoint take_token (delim s : string) : string * string :=
  match s with
  | EmptyString => ("", "")
  | String c s' =>
      if str_mem c delim then ("", s')
      else let '(t, r) := take_token delim s' in (String c t, r)
  end.

(** [strtok_r]: the token ([None] is NULL) and the saved rest. *)
Definition strtok_r (s delim : string) : option string * string :=
  match skip_delim delim s with
  | EmptyString => (None, "")
  | s' => let '(t, r) := take_token delim s' in (Some t, r)
  end.

(** [sqlite3_mprintf("%s", p)] prints a NULL pointer as the empty string. *)
Definition fmt_s (p : option string) : string := default "" p.

(** ** Lemmas *)

Lemma code_range c : 0 ≤ code c < 256.
Proof.
  unfold code. pose proof (N_ascii_bounded c). lia.
Qed.

Lemma code_inj c d : code c = code d → c = d.
Proof.
  unfold code. intros E%N2Z.inj.
  by rewrite <- (ascii_N_embedding c), <- (ascii_N_embedding d), E.
Qed.

Lemma upper_to_lower_tolower c : sqlite3UpperToLower c = tolower c.
Proof. done. Qed.

(** The library comparison and the one of the C library agree. *)
Lemma stricmp_strcasecmp a b : sqlite3_stricmp a b = strcasecmp a b.
Proof. revert b. induction a; destruct b; simpl; auto. Qed.

Lemma tolower_pos x : 0 < code x → 0 < tolower (code x).
Proof. unfold tolower. case_match; lia. Qed.

Lemma tolower_nonneg x : 0 ≤ tolower (code x).
Proof. unfold tolower. pose proof (code_range x). case_match; lia. Qed.

Lemma strcasecmp_refl a : strcasecmp a a = 0.
Proof. induction a; simpl; [done|]. by rewrite Z.eqb_refl. Qed.

Lemma strcasecmp_opp a b : strcasecmp b a = - strcasecmp a b.
Proof.
  revert b. induction a as [|x a IH]; destruct b as [|y b]; simpl; try lia.
  rewrite Z.eqb_sym. case_match; [by apply IH|lia].
Qed.

(** A C string has no NUL character before its terminator. *)
Fixpoint no_nul (s : string) : bool :=
  match s with
  | EmptyString => true
  | String c s' => (0 <? code c) && no_nul s'
  end.

Fixpoint lower (s : string) : list Z :=
  match s with
  | EmptyString => []
  | String c s' => tolower (code c) :: lower s'
  end.

Lemma strcasecmp_eq a b :
  no_nul a = true → no_nul b = true → strcasecmp a b = 0 ↔ lower a = lower b.
Proof.
  revert b. induction a as [|x a IH]; intros [|y b] Ha Hb; simpl in *; b2p.
  - done.
  - pose proof (tolower_pos y). unfold tolower at 1. simpl. split; [lia|done].
  - pose proof (tolower_pos x). unfold tolower at 2. simpl. split; [lia|done].
  - destruct (Z.eqb_spec (tolower (code x)) (tolower (code y))) as [E|E].
    + rewrite E, IH by done. split; [by intros ->|by intros [= ->]].
    + split; [lia|congruence].
Qed.

(** The order is transitive on C strings. *)
Lemma strcasecmp_trans a b c :
  no_nul a = true → no_nul b = true → no_nul c = true →
  strcasecmp a b ≤ 0 → strcasecmp b c ≤ 0 → strcasecmp a c ≤ 0.
Proof.
  revert b c. induction a as [|x a IH]; intros [|y b] [|z c]; simpl; intros; b2p;
    repeat match goal with H : 0 < code ?v |- _ => apply tolower_pos in H end;
    change (tolower 0) with 0 in *; try lia.
  repeat match goal with
  | |- context [(?u =? ?v)%Z] => destruct (Z.eqb_spec u v)
  | H : context [(?u =? ?v)%Z] |- _ => destruct (Z.eqb_spec u v)
  end; try lia. eauto.
Qed.
