(* ===== verification/SeHash.v ===== *)
(** * The hash table of the extension

    Models ext/security/sesqlite/hash/sqlite/sesqlite_hash_impl.c (and the
    data types of its header) at the level of its pointers: the elements are
    heap cells linked into one doubly linked list, and every bucket holds the
    number of its elements and a pointer to the first of them, which are
    consecutive in the list.  [xMalloc] may fail: each allocation of
    [sqliteHashInsert] has a flag in [mallocs].  The theorems relate the
    table to a finite map. *)

From S2P Require Import Prelude CString.
#[local] Open Scope string_scope.
#[local] Open Scope Z_scope.

(** ** Keys *)

(** The pair (pKey, nKey) as the three key classes read it: [nKey] itself, a
    string with its terminator, or [nKey] bytes. *)
Inductive hkey : Set :=
  | KInt (n : Z)
  | KStr (s : string)
  | KBin (b : list Z).

#[global] Instance hkey_eq_dec : EqDecision hkey.
Proof. solve_decision. Defined.

#[global] Instance hkey_countable : Countable hkey.
Proof.
  refine (inj_countable'
    (λ k, match k with KInt n => inl n | KStr s => inr (inl s) | KBin b => inr (inr b) end)
    (λ x, match x with inl n => KInt n | inr (inl s) => KStr s | inr (inr b) => KBin b end) _).
  by intros [].
Defined.

Inductive keyclass : Set := SQLITE_HASH_INT | SQLITE_HASH_STRING | SQLITE_HASH_BINARY.

Definition sqliteIntHash (nKey : Z) : Z :=
  (Z.lxor (Z.lxor nKey (i32 (Z.shiftl nKey 8))) (Z.shiftr nKey 8)).

Definition sqliteIntCompare (n1 n2 : Z) : Z := i32 (n2 - n1).

(** One round [h = (h << 3) ^ h ^ *z++] with [char] signed. *)
Definition hash_round (h c : Z) : Z :=
  Z.lxor (Z.lxor (i32 (Z.shiftl h 3)) h) (sw 8 c).

Definition bytes_of (s : string) : list Z := code <$> String.list_ascii_of_string s.

(** [nKey] is [1 + strlen] here, so the terminator is hashed too. *)
Definition sqliteStrHash (s : string) : Z :=
  Z.land (foldl hash_round 0 (bytes_of s ++ [0])) 2147483647.

Fixpoint strncmp (a b : string) : Z :=
  match a, b with
  | String x a', String y b' => if code x =? code y then strncmp a' b' else code x - code y
  | _, _ => hd0 a - hd0 b
  end.

Definition sqliteStrCompare (s1 s2 : string) : Z :=
  if (String.length s1 =? String.length s2)%nat then strncmp s1 s2 else 1.

Definition sqliteBinHash (b : list Z) : Z :=
  Z.land (foldl hash_round 0 b) 2147483647.

Fixpoint memcmp (a b : list Z) : Z :=
  match a, b with
  | x :: a', y :: b' => if x =? y then memcmp a' b' else x - y
  | _, _ => 0
  end.

Definition sqliteBinCompare (b1 b2 : list Z) : Z :=
  if (length b1 =? length b2)%nat then memcmp b1 b2 else 1.

Definition sqliteHashFunction (k : hkey) : Z :=
  match k with
  | KInt n => sqliteIntHash n
  | KStr s => sqliteStrHash s
  | KBin b => sqliteBinHash b
  end.

(** Whether [xCompare] returns 0; keys of one table have one class. *)
Definition sqliteCompareFunction (k1 k2 : hkey) : bool :=
  match k1, k2 with
  | KInt n1, KInt n2 => sqliteIntCompare n1 n2 =? 0
  | KStr s1, KStr s2 => sqliteStrCompare s1 s2 =? 0
  | KBin b1, KBin b2 => sqliteBinCompare b1 b2 =? 0
  | _, _ => false
  end.

(** ** The table *)

Abbreviation ptr := positive.

Section hash.
Context {D : Type}.

Record sqliteHashElem := Elem {
  e_next : option ptr;
  e_prev : option ptr;
  e_data : D;
  e_ndata : Z;
  e_key : hkey;
}.

(** A bucket: [struct sqlite_ht]. *)
Record sqlite_ht := Ht { ht_count : Z; ht_chain : option ptr }.

Record sqliteHash := Hash {
  h_keyClass : keyclass;
  h_copyKey : bool;
  h_copyValue : bool;
  h_count : Z;
  h_first : option ptr;
  h_htsize : Z;
  h_ht : list sqlite_ht;            (* [] is the NULL pointer *)
  h_heap : gmap ptr sqliteHashElem; (* the allocated elements *)
  h_brk : ptr;                      (* the next address [xMalloc] returns *)
}.

Definition set_heap (h : sqliteHash) hp :=
  Hash (h_keyClass h) (h_copyKey h) (h_copyValue h) (h_count h) (h_first h)
       (h_htsize h) (h_ht h) hp (h_brk h).
Definition set_first (h : sqliteHash) f :=
  Hash (h_keyClass h) (h_copyKey h) (h_copyValue h) (h_count h) f
       (h_htsize h) (h_ht h) (h_heap h) (h_brk h).
Definition set_table (h : sqliteHash) n t :=
  Hash (h_keyClass h) (h_copyKey h) (h_copyValue h) (h_count h) (h_first h)
       n t (h_heap h) (h_brk h).
Definition set_count (h : sqliteHash) c :=
  Hash (h_keyClass h) (h_copyKey h) (h_copyValue h) c (h_first h)
       (h_htsize h) (h_ht h) (h_heap h) (h_brk h).
Definition set_brk (h : sqliteHash) b :=
  Hash (h_keyClass h) (h_copyKey h) (h_copyValue h) (h_count h) (h_first h)
       (h_htsize h) (h_ht h) (h_heap h) b.

Definition with_next (n : option ptr) (e : sqliteHashElem) :=
  Elem n (e_prev e) (e_data e) (e_ndata e) (e_key e).
Definition with_prev (p : option ptr) (e : sqliteHashElem) :=
  Elem (e_next e) p (e_data e) (e_ndata e) (e_key e).
Definition with_data (d : D) (e : sqliteHashElem) :=
  Elem (e_next e) (e_prev e) d (e_ndata e) (e_key e).

Definition sqliteHashInit (keyClass : keyclass) (copyKey copyValue : bool) : sqliteHash :=
  let copyKey := match keyClass with SQLITE_HASH_INT => false | _ => copyKey end in
  Hash keyClass copyKey copyValue 0 None 0 [] ∅ 1%positive.

(** The loop of [sqliteHashClear] that frees the elements. *)
Fixpoint clear_loop (fuel : nat) (hp : gmap ptr sqliteHashElem) (elem : option ptr)
    : gmap ptr sqliteHashElem :=
  match fuel, elem with
  | S fuel', Some p =>
      match hp !! p with
      | Some e => clear_loop fuel' (delete p hp) (e_next e)
      | None => hp
      end
  | _, _ => hp
  end.

Definition sqliteHashClear (h : sqliteHash) : sqliteHash :=
  let elem := h_first h in
  let h := set_first h None in
  let h := set_table h 0 [] in
  let h := set_heap h (clear_loop (S (size (h_heap h))) (h_heap h) elem) in
  set_count h 0.

(** Link [pNew] into the list and into bucket [i]. *)
Definition link_elem (hp : gmap ptr sqliteHashElem) (first : option ptr) (b : sqlite_ht)
    (pNew : ptr) : gmap ptr sqliteHashElem * option ptr * sqlite_ht :=
  let b' := Ht (ht_count b + 1) (Some pNew) in
  match ht_chain b with
  | Some pHead =>
      let pHead_prev := hp !! pHead ≫= e_prev in
      let hp := alter (λ e, with_prev pHead_prev (with_next (Some pHead) e)) pNew hp in
      let '(hp, first) :=
        match pHead_prev with
        | Some q => (alter (with_next (Some pNew)) q hp, first)
        | None => (hp, Some pNew)
        end in
      (alter (with_prev (Some pNew)) pHead hp, first, b')
  | None =>
      let hp := alter (with_next first) pNew hp in
      let hp := match first with
                | Some f => alter (with_prev (Some pNew)) f hp
                | None => hp
                end in
      (alter (with_prev None) pNew hp, Some pNew, b')
  end.

Definition sqliteInsertElement (h : sqliteHash) (i : Z) (pNew : ptr) : sqliteHash :=
  match zlookup (h_ht h) i with
  | Some b =>
      let '(hp, first, b') := link_elem (h_heap h) (h_first h) b pNew in
      set_table (set_first (set_heap h hp) first) (h_htsize h) (zinsert (h_ht h) i b')
  | None => h
  end.

(** The bucket of a key in a table of [n] buckets. *)
Definition bucket (n : Z) (k : hkey) : Z := Z.land (sqliteHashFunction k) (n - 1).

Fixpoint rehash_loop (fuel : nat) (h : sqliteHash) (elem : option ptr) : sqliteHash :=
  match fuel, elem with
  | S fuel', Some p =>
      match h_heap h !! p with
      | Some e =>
          let next_elem := e_next e in
          rehash_loop fuel' (sqliteInsertElement h (bucket (h_htsize h) (e_key e)) p) next_elem
      | None => h
      end
  | _, _ => h
  end.

(** [ok] tells whether the new bucket array could be allocated. *)
Definition sqliteRehash (ok : bool) (h : sqliteHash) (new_size : Z) : sqliteHash :=
  if ok then
    let elem := h_first h in
    let h := set_table h new_size (replicate (Z.to_nat new_size) (Ht 0 None)) in
    rehash_loop (S (size (h_heap h))) (set_first h None) elem
  else h.

Fixpoint find_loop (hp : gmap ptr sqliteHashElem) (count : nat) (elem : option ptr)
    (k : hkey) : option ptr :=
  match count, elem with
  | S count', Some p =>
      match hp !! p with
      | Some e =>
          if sqliteCompareFunction (e_key e) k then Some p
          else find_loop hp count' (e_next e) k
      | None => None
      end
  | _, _ => None
  end.

Definition sqliteFindElementGivenHash (h : sqliteHash) (k : hkey) (i : Z) : option ptr :=
  match zlookup (h_ht h) i with
  | Some b => find_loop (h_heap h) (Z.to_nat (ht_count b)) (ht_chain b) k
  | None => None
  end.

(** Unlink the element [p] of bucket [b] and free it. *)
Definition unlink_elem (hp : gmap ptr sqliteHashElem) (first : option ptr) (b : sqlite_ht)
    (p : ptr) (e : sqliteHashElem) : gmap ptr sqliteHashElem * option ptr * sqlite_ht :=
  let '(hp, first) :=
    match e_prev e with
    | Some q => (alter (with_next (e_next e)) q hp, first)
    | None => (hp, e_next e)
    end in
  let hp := match e_next e with
            | Some q => alter (with_prev (e_prev e)) q hp
            | None => hp
            end in
  let chain := if decide (ht_chain b = Some p) then e_next e else ht_chain b in
  let count := ht_count b - 1 in
  let chain := if count <=? 0 then None else chain in
  (delete p hp, first, Ht count chain).

Definition sqliteRemoveElementGivenHash (h : sqliteHash) (p : ptr) (i : Z) : sqliteHash :=
  match h_heap h !! p, zlookup (h_ht h) i with
  | Some e, Some b =>
      let '(hp, first, b') := unlink_elem (h_heap h) (h_first h) b p e in
      let h := set_table (set_first (set_heap h hp) first) (h_htsize h) (zinsert (h_ht h) i b') in
      let h := set_count h (h_count h - 1) in
      if h_count h <=? 0 then sqliteHashClear h else h
  | _, _ => h
  end.

(** [sqliteHashFind]: the pair stored through [pRes] and [nRes]. *)
Definition sqliteHashFind (h : sqliteHash) (k : hkey) : option (D * Z) :=
  match h_ht h with
  | [] => None
  | _ =>
      let i := bucket (h_htsize h) k in
      p ← sqliteFindElementGivenHash h k i;
      e ← h_heap h !! p;
      Some (e_data e, e_ndata e)
  end.

(** Which allocations of one [sqliteHashInsert] succeed: the copy of the new
    data of an existing element, the element, the copy of the key, the copy
    of the data, the first bucket array, the doubled bucket array. *)
Record mallocs := Mallocs {
  m_update : bool; m_elem : bool; m_key : bool; m_data : bool; m_ht : bool; m_grow : bool
}.
Definition mallocs_ok := Mallocs true true true true true true.

(** The first bucket array, when there is none. *)
Definition first_table (m : mallocs) (h : sqliteHash) : sqliteHash :=
  if h_htsize h =? 0 then sqliteRehash (m_ht m) h 8 else h.

(** Twice as many buckets, when there are more elements than buckets. *)
Definition grow_table (m : mallocs) (h : sqliteHash) : sqliteHash :=
  if h_htsize h <? h_count h then sqliteRehash (m_grow m) h (h_htsize h * 2) else h.

(** The cell [p] of the new element, linked into its bucket. *)
Definition link_new (h : sqliteHash) (p : ptr) (k : hkey) (d : D) (nData : Z) : sqliteHash :=
  let h := set_brk (set_heap h (<[p := Elem None None d nData k]> (h_heap h))) (Pos.succ p) in
  sqliteInsertElement h (bucket (h_htsize h) k) p.

(** The new element is allocated, then the table is given room for it. *)
Definition insert_new (m : mallocs) (h : sqliteHash) (k : hkey) (d : D) (nData : Z) : sqliteHash :=
  if negb (m_elem m) then h
  else if h_copyKey h && negb (m_key m) then h
  else if h_copyValue h && negb (m_data m) then h
  else
    let p := h_brk h in
    let h := first_table m (set_count h (h_count h + 1)) in
    if h_htsize h =? 0 then set_count h 0
    else link_new (grow_table m h) p k d nData.

(** [sqliteHashInsert]; [pData = None] is the NULL that asks for a removal.
    When the copy of the data of an existing element cannot be allocated the
    element is freed while it is still linked. *)
Definition sqliteHashInsert (m : mallocs) (h : sqliteHash) (k : hkey)
    (pData : option D) (nData : Z) : outcome sqliteHash :=
  let i := bucket (h_htsize h) k in
  let elem := sqliteFindElementGivenHash h k i in
  match elem, pData with
  | Some p, None => Ret (sqliteRemoveElementGivenHash h p i)
  | Some p, Some d =>
      if h_copyValue h && negb (m_update m) then Undef UseAfterFree
      else Ret (set_heap h (alter (with_data d) p (h_heap h)))
  | None, None => Ret h
  | None, Some d => Ret (insert_new m h k d nData)
  end.

End hash.
Arguments sqliteHashElem : clear implicits.
Arguments sqliteHash : clear implicits.

(** ** The list and the buckets *)

Section proofs.
Context {D : Type}.
Implicit Types (hp : gmap ptr (sqliteHashElem D)) (h : sqliteHash D) (l : list ptr).

Definition pred_at l (i : nat) : option ptr := match i with O => None | S j => l !! j end.

(** The cells of [l] are linked in this order and [first] is the head. *)
Record links hp (first : option ptr) l : Prop := {
  lk_first : first = l !! 0%nat;
  lk_nodup : NoDup l;
  lk_elem i p : l !! i = Some p →
    ∃ e, hp !! p = Some e ∧ e_next e = l !! S i ∧ e_prev e = pred_at l i;
}.

(** Bucket [i] is a segment of [l] that holds exactly its elements. *)
Definition segment (idx : ptr → Z) l (i : Z) (b : sqlite_ht) (k n : nat) : Prop :=
  ht_count b = Z.of_nat n ∧ (k + n ≤ length l)%nat ∧
  ht_chain b = (if decide (n = 0%nat) then None else l !! k) ∧
  ∀ j p, l !! j = Some p → idx p = i ↔ (k ≤ j < k + n)%nat.

Definition buckets (idx : ptr → Z) (ht : list sqlite_ht) l : Prop :=
  (∀ i b, zlookup ht i = Some b → ∃ k n, segment idx l i b k n) ∧
  (∀ p, p ∈ l → 0 ≤ idx p < Z.of_nat (length ht)).

(** What a cell holds besides its links. *)
Definition payload (e : sqliteHashElem D) : hkey * (D * Z) := (e_key e, (e_data e, e_ndata e)).

Lemma payload_alter hp p f :
  (∀ e, payload (f e) = payload e) → payload <$> alter f p hp = payload <$> hp.
Proof.
  intros Hf. apply map_eq. intros q. rewrite !lookup_fmap, lookup_alter.
  case_decide; [|done]. destruct (hp !! p) eqn:E; subst; rewrite E; simpl; [|done].
  by rewrite Hf.
Qed.

(** The cell heap after linking [p] in front of position [k]. *)
Lemma links_insert hp hp' first l k p :
  links hp first l → p ∉ l → (k ≤ length l)%nat →
  (∃ e, hp' !! p = Some e ∧ e_next e = l !! k ∧ e_prev e = pred_at l k) →
  (∀ q j e, l !! j = Some q → hp !! q = Some e →
     ∃ e', hp' !! q = Some e' ∧
       e_next e' = (if decide (S j = k) then Some p else e_next e) ∧
       e_prev e' = (if decide (j = k) then Some p else e_prev e)) →
  links hp' (if decide (k = 0%nat) then Some p else first) (insert_at k p l).
Proof.
  intros [Hf Hnd Hl] Hp Hk (ep & Hep & Hn & Hpr) Hcells. split.
  - rewrite lookup_insert_at by done. repeat case_decide; subst; try lia; done.
  - rewrite insert_at_perm. by constructor.
  - intros i q. rewrite lookup_insert_at by done. intros Hq.
    rewrite lookup_insert_at by done.
    assert (pred_at (insert_at k p l) i =
      if decide (i ≤ k)%nat then pred_at l i
      else if decide (i = S k) then Some p else pred_at l (pred i)) as ->.
    { destruct i as [|j]; simpl; [done|]. rewrite lookup_insert_at by done.
      repeat case_decide; try lia; try done; destruct j; simpl; try lia; done. }
    destruct (decide (i = k)) as [->|Hik].
    { repeat case_decide; try lia. simplify_eq/=. eauto. }
    repeat case_decide; try lia;
      destruct (Hl _ _ Hq) as (e & He & En & Ep);
      destruct (Hcells _ _ _ Hq He) as (e' & He' & En' & Ep'); exists e';
      (destruct i; simpl in *; try lia); repeat case_decide; try lia; split_and!; congruence.
Qed.

Lemma links_lookup hp first l p :
  links hp first l → p ∈ l → ∃ e, hp !! p = Some e.
Proof. intros [_ _ H] [i Hi]%list_elem_of_lookup. destruct (H _ _ Hi) as (e & ? & _). eauto. Qed.

Lemma links_inj hp first l i j p :
  links hp first l → l !! i = Some p → l !! j = Some p → i = j.
Proof. intros [_ H _] ??. by eapply NoDup_lookup. Qed.

(** Where the new element of a bucket goes: in front of the bucket, or of
    the whole list when the bucket is empty. *)
Definition link_pos (k n : nat) : nat := if decide (n = 0%nat) then 0%nat else k.

Lemma link_elem_spec idx hp first l b p e0 i k n :
  links hp first l → p ∉ l → hp !! p = Some e0 → segment idx l i b k n →
  let '(hp', first', b') := link_elem hp first b p in
  links hp' first' (insert_at (link_pos k n) p l) ∧
  payload <$> hp' = payload <$> hp ∧ b' = Ht (ht_count b + 1) (Some p).
Proof.
  intros HL Hp He0 (Hc & Hkn & Hch & Hseg). unfold link_elem, link_pos.
  destruct (decide (n = 0%nat)) as [->|Hn]; rewrite Hch.
  - split_and!; [|by rewrite payload_alter, ?payload_alter; destruct first; rewrite ?payload_alter|done].
    pose proof (lk_first _ _ _ HL) as Hf.
    apply (links_insert hp _ first l 0 p); [done|done|lia| |].
    + destruct first as [f|].
      * assert (f ≠ p) by (intros ->; apply Hp, list_elem_of_lookup; eauto).
        rewrite lookup_alter_eq, lookup_alter_ne, lookup_alter_eq, He0 by done. simpl. eauto.
      * rewrite !lookup_alter_eq, He0. simpl. eauto.
    + intros q j e Hq He. assert (q ≠ p) by (intros ->; apply Hp, list_elem_of_lookup; eauto).
      rewrite lookup_alter_ne by done. destruct j as [|j]; repeat case_decide; try lia.
      * rewrite <- Hf in Hq. rewrite Hq, lookup_alter_eq, lookup_alter_ne, He by done.
        simpl. eauto.
      * assert (first ≠ Some q).
        { intros E. rewrite E in Hf. by pose proof (links_inj _ _ _ _ _ _ HL Hq (eq_sym Hf)). }
        destruct first; [rewrite lookup_alter_ne by congruence|];
          rewrite lookup_alter_ne, He by done; eauto.
  - destruct (l !! k) as [hd|] eqn:Hhd; [|apply lookup_ge_None in Hhd; lia].
    destruct (lk_elem _ _ _ HL _ _ Hhd) as (eh & Heh & Hnh & Hph).
    assert (hd ≠ p) by (intros ->; apply Hp, list_elem_of_lookup; eauto).
    rewrite Heh. simpl. rewrite Hph.
    assert (∀ q j, l !! j = Some q → q ≠ p) as Hne.
    { intros q j Hq ->. apply Hp, list_elem_of_lookup. eauto. }
    destruct k as [|k]; simpl.
    + split_and!; [|by rewrite !payload_alter|done].
      apply (links_insert hp _ first l 0 p); [done|done|lia| |].
      * rewrite lookup_alter_ne, lookup_alter_eq, He0 by done. simpl. eauto.
      * intros q j e Hq He. destruct (decide (S j = 0%nat)); [lia|]. case_decide; subst.
        -- simplify_eq. rewrite lookup_alter_eq, lookup_alter_ne, Heh by done. simpl. eauto.
        -- assert (q ≠ hd) by (intros ->; by pose proof (links_inj _ _ _ _ _ _ HL Hq Hhd)).
           pose proof (Hne _ _ Hq). rewrite !lookup_alter_ne, He by congruence. eauto.
    + destruct (l !! k) as [pv|] eqn:Hpv; [|apply lookup_ge_None in Hpv; apply lookup_lt_Some in Hhd; lia].
      assert (pv ≠ hd) by (intros ->; pose proof (links_inj _ _ _ _ _ _ HL Hpv Hhd); lia).
      assert (pv ≠ p) by eauto.
      split_and!; [|by rewrite !payload_alter|done].
      apply (links_insert hp _ first l (S k) p); [done|done|apply lookup_lt_Some in Hhd; lia| |].
      * rewrite !lookup_alter_ne, lookup_alter_eq, He0 by done. simpl. rewrite Hhd. eauto.
      * intros q j e Hq He. destruct (decide (q = hd)) as [->|Hq1].
        { pose proof (links_inj _ _ _ _ _ _ HL Hq Hhd) as ->. simplify_eq.
          rewrite lookup_alter_eq, !lookup_alter_ne, Heh by done. simpl.
          repeat case_decide; try lia. eauto. }
        destruct (decide (q = pv)) as [->|Hq2].
        { pose proof (links_inj _ _ _ _ _ _ HL Hq Hpv) as ->.
          rewrite lookup_alter_ne, lookup_alter_eq, lookup_alter_ne, He by done. simpl.
          repeat case_decide; try lia. eauto. }
        pose proof (Hne _ _ Hq). rewrite !lookup_alter_ne, He by congruence.
        repeat case_decide; simplify_eq; eauto.
Qed.

(** The buckets after linking [p] into bucket [idx p]. *)
Lemma buckets_insert idx ht l b p k n :
  buckets idx ht l → p ∉ l → zlookup ht (idx p) = Some b → segment idx l (idx p) b k n →
  buckets idx (zinsert ht (idx p) (Ht (ht_count b + 1) (Some p))) (insert_at (link_pos k n) p l).
Proof.
  intros [HB HR] Hp Hb Hseg. pose proof (zlookup_Some _ _ _ Hb) as Hr.
  set (k' := link_pos k n).
  assert (k' ≤ length l)%nat as Hk'.
  { destruct Hseg as (_ & ? & _). subst k'. unfold link_pos. case_decide; lia. }
  split.
  - intros i b0. rewrite zlookup_zinsert by done. case_decide as Hi; [intros [= <-]; subst i|].
    + exists k', (S n). destruct Hseg as (Hc & Hkn & Hch & Hs).
      split_and!; simpl; [lia| | |].
      * rewrite length_insert_at. subst k'. unfold link_pos. case_decide; lia.
      * rewrite lookup_insert_at by done. repeat case_decide; try lia; done.
      * intros j q. rewrite lookup_insert_at by done.
        subst k'. unfold link_pos in *.
        repeat case_decide; subst; intros Hq; simplify_eq;
          try (split; [intros; lia|done]); rewrite ?(Hs _ _ Hq); lia.
    + intros Hb0. destruct (HB _ _ Hb0) as (k1 & n1 & Hc & Hkn & Hch & Hs).
      assert (n1 ≠ 0%nat → k1 < k' → k1 + n1 ≤ k')%nat as Hdis.
      { intros Hn1 Hlt. destruct (decide (k1 + n1 ≤ k')%nat) as [|Hgt]; [done|exfalso].
        destruct Hseg as (_ & Hkn' & _ & Hs'). subst k'. unfold link_pos in *.
        case_decide; [lia|]. destruct (lookup_lt_is_Some_2 l k) as [q Hq]; [lia|].
        pose proof (proj2 (Hs _ _ Hq)). pose proof (proj2 (Hs' _ _ Hq)).
        apply Hi. rewrite <- H0, H1; lia. }
      exists (if decide (k1 < k')%nat then k1 else S k1), n1. split_and!; [done| | |].
      * rewrite length_insert_at. destruct (decide (k1 < k')%nat); lia.
      * rewrite Hch. destruct (decide (n1 = 0%nat)) as [E|E]; [done|]. rewrite lookup_insert_at by done.
        repeat case_decide; try lia; done.
      * intros j q. rewrite lookup_insert_at by done.
        destruct (decide (n1 = 0%nat)) as [->|].
        { repeat case_decide; intros Hq; simplify_eq; rewrite ?(Hs _ _ Hq); try lia;
            (split; [by intros|lia]). }
        repeat case_decide; intros Hq; simplify_eq; rewrite ?(Hs _ _ Hq); try lia;
          (split; [by intros|lia]).
  - intros q. rewrite insert_at_perm, zinsert_length, elem_of_cons. intros [->|]; eauto.
Qed.

(** Cells outside the list are not touched by the linking. *)
Lemma link_elem_frame hp first l b p hp' first' b' q i k n idx :
  links hp first l → segment idx l i b k n →
  link_elem hp first b p = (hp', first', b') → q ∉ l → q ≠ p → hp' !! q = hp !! q.
Proof.
  intros HL (_ & Hkn & Hch & _) Hlink Hq Hqp.
  assert (∀ j r, l !! j = Some r → r ≠ q) as Hne.
  { intros j r Hr ->. apply Hq, list_elem_of_lookup. eauto. }
  assert (∀ r, first = Some r → r ≠ q) as Hfirst.
  { intros r Hr. rewrite (lk_first _ _ _ HL) in Hr. eauto. }
  unfold link_elem in Hlink. destruct (ht_chain b) as [hd|]; simplify_eq/=.
  - assert (l !! k = Some hd) as Hhd by (destruct (decide (n = 0%nat)); congruence).
    destruct (lk_elem _ _ _ HL _ _ Hhd) as (eh & Heh & _ & Hph).
    rewrite Heh in Hlink. simpl in Hlink. rewrite Hph in Hlink.
    pose proof (Hne _ _ Hhd).
    destruct k as [|k]; simpl in Hlink; [|destruct (l !! k) as [pv|] eqn:Hpv; [pose proof (Hne _ _ Hpv)|]];
      simplify_eq; by rewrite !lookup_alter_ne by done.
  - destruct first as [f|]; [pose proof (Hfirst _ eq_refl)|]; by rewrite !lookup_alter_ne by done.
Qed.

(** The bucket of a cell, by the key it holds. *)
Definition cell_bucket (n : Z) (pm : gmap ptr (hkey * (D * Z))) (p : ptr) : Z :=
  match pm !! p with Some (k, _) => bucket n k | None => 0 end.

(** The elements of [l] are linked and spread over the [n] buckets. *)
Record linked (h : sqliteHash D) l : Prop := {
  ld_links : links (h_heap h) (h_first h) l;
  ld_size : ∃ k, 0 ≤ k ∧ h_htsize h = 2 ^ k;
  ld_len : Z.of_nat (length (h_ht h)) = h_htsize h;
  ld_buckets : buckets (cell_bucket (h_htsize h) (payload <$> h_heap h)) (h_ht h) l;
}.

(** Fields that linking an element leaves alone. *)
Definition same_frame (h h' : sqliteHash D) : Prop :=
  h_keyClass h' = h_keyClass h ∧ h_copyKey h' = h_copyKey h ∧ h_copyValue h' = h_copyValue h ∧
  h_count h' = h_count h ∧ h_htsize h' = h_htsize h ∧ h_brk h' = h_brk h ∧
  payload <$> h_heap h' = payload <$> h_heap h.

Lemma same_frame_refl h : same_frame h h.
Proof. by repeat split. Qed.
Lemma same_frame_trans h1 h2 h3 : same_frame h1 h2 → same_frame h2 h3 → same_frame h1 h3.
Proof. unfold same_frame. intuition congruence. Qed.

Lemma bucket_range n k : (∃ j, 0 ≤ j ∧ n = 2 ^ j) → 0 ≤ bucket n k < n.
Proof. intros (j & ? & ?). by apply (land_mask_range _ _ j). Qed.

Lemma payload_lookup hp p e : hp !! p = Some e → (payload <$> hp) !! p = Some (payload e).
Proof. intros H. by rewrite lookup_fmap, H. Qed.

Lemma sqliteInsertElement_linked h l p e :
  linked h l → p ∉ l → h_heap h !! p = Some e →
  let h' := sqliteInsertElement h (bucket (h_htsize h) (e_key e)) p in
  same_frame h h' ∧ (∃ l', l' ≡ₚ p :: l ∧ linked h' l') ∧
  (∀ q, q ∉ l → q ≠ p → h_heap h' !! q = h_heap h !! q).
Proof.
  intros [HL Hn Hlen HB] Hp He. simpl.
  set (i := bucket _ _).
  assert (cell_bucket (h_htsize h) (payload <$> h_heap h) p = i) as Hi.
  { unfold cell_bucket. by rewrite (payload_lookup _ _ _ He). }
  destruct (zlookup_is_Some (h_ht h) i) as [b Hb].
  { rewrite Hlen. by apply bucket_range. }
  unfold sqliteInsertElement. rewrite Hb. destruct (proj1 HB _ _ Hb) as (k & n & Hseg).
  pose proof (link_elem_spec _ _ _ _ _ _ _ _ _ _ HL Hp He Hseg) as Hspec.
  pose proof (λ hp' f' b' q H, link_elem_frame _ _ _ _ p hp' f' b' q _ _ _ _ HL Hseg H) as Hframe.
  destruct (link_elem _ _ b p) as [[hp' first'] b'] eqn:Hlink.
  destruct Hspec as (HL' & Hpay & ->). split_and!.
  - by repeat split.
  - exists (insert_at (link_pos k n) p l). split; [apply insert_at_perm|].
    split; simpl; [done|done|by rewrite zinsert_length|]. rewrite Hpay, <- Hi.
    apply buckets_insert; rewrite ?Hi; done.
  - simpl. intros q ??. by eapply Hframe.
Qed.

(** Following the [next] pointers from [elem] visits [r]. *)
Fixpoint nexts hp (elem : option ptr) (r : list ptr) : Prop :=
  match r with
  | [] => elem = None
  | p :: r' => elem = Some p ∧ ∃ e, hp !! p = Some e ∧ nexts hp (e_next e) r'
  end.

Lemma nexts_ext hp hp' elem r :
  (∀ q, q ∈ r → hp' !! q = hp !! q) → nexts hp elem r → nexts hp' elem r.
Proof.
  revert elem. induction r as [|p r IH]; intros elem Hq; simpl; [done|].
  intros (-> & e & He & Hr). split; [done|]. exists e. split.
  - rewrite Hq; [done|left].
  - apply IH; [|done]. intros. apply Hq. by right.
Qed.

Lemma links_nexts_drop hp first l i :
  links hp first l → nexts hp (l !! i) (drop i l).
Proof.
  intros HL. remember (drop i l) as r eqn:Hr. revert i Hr.
  induction r as [|p r IH]; intros i Hr; simpl.
  - apply lookup_ge_None. pose proof (f_equal length Hr) as E. rewrite length_drop in E.
    simpl in E. lia.
  - assert (l !! i = Some p) as Hi.
    { rewrite <- (Nat.add_0_r i), <- lookup_drop, <- Hr. done. }
    split; [done|]. destruct (lk_elem _ _ _ HL _ _ Hi) as (e & He & Hn & _).
    exists e. split; [done|]. rewrite Hn. apply IH.
    rewrite (drop_S _ _ _ Hi) in Hr. by injection Hr.
Qed.

Lemma links_nexts hp first l : links hp first l → nexts hp first l.
Proof.
  intros HL. rewrite (lk_first _ _ _ HL). exact (links_nexts_drop _ _ _ 0 HL).
Qed.

Lemma rehash_loop_linked fuel r h l elem :
  (length r ≤ fuel)%nat → NoDup (r ++ l) → nexts (h_heap h) elem r → linked h l →
  let h' := rehash_loop fuel h elem in
  same_frame h h' ∧ ∃ l', l' ≡ₚ r ++ l ∧ linked h' l'.
Proof.
  revert r h l elem. induction fuel as [|fuel IH]; intros [|p r] h l elem Hlen Hnd Hr HL;
    simpl in *; try lia.
  - split; [apply same_frame_refl|eauto].
  - subst. split; [apply same_frame_refl|eauto].
  - destruct Hr as (-> & e & He & Hr). rewrite He. apply list.NoDup_cons in Hnd as [Hp Hnd].
    rewrite elem_of_app in Hp.
    destruct (sqliteInsertElement_linked h l p e) as (Hfr & (l1 & Hl1 & HL1) & Hout); [tauto..|].
    edestruct (IH r (sqliteInsertElement h (bucket (h_htsize h) (e_key e)) p) l1) as (Hfr' & l' & Hl' & HL');
      [lia| | |done|].
    + rewrite Hl1. rewrite <- Permutation_middle. constructor; [rewrite elem_of_app; tauto|done].
    + eapply nexts_ext; [|exact Hr]. intros q Hq. apply Hout.
      * intros ?. apply list.NoDup_app in Hnd as (_ & Hd & _). naive_solver.
      * intros ->. tauto.
    + split; [by eapply same_frame_trans|]. exists l'. split; [|done].
      rewrite Hl', Hl1. symmetry. apply Permutation_middle.
Qed.

Lemma buckets_empty idx n : buckets idx (replicate n (Ht 0 None)) [].
Proof.
  split; [|intros p Hp; by apply elem_of_nil in Hp].
  intros i b. unfold zlookup. case_match; [done|].
  intros [-> _]%lookup_replicate. exists 0%nat, 0%nat. unfold segment.
  split_and!; [done|simpl; lia|done|]. intros j p. by rewrite lookup_nil.
Qed.

Lemma length_le_size hp l : NoDup l → (∀ p, p ∈ l → is_Some (hp !! p)) → (length l ≤ size hp)%nat.
Proof.
  intros Hnd Hdom. rewrite <- (size_dom (D := gset ptr)).
  rewrite <- (size_list_to_set (C := gset ptr)) by done.
  apply subseteq_size. intros p. rewrite elem_of_list_to_set, elem_of_dom. auto.
Qed.

Lemma sqliteRehash_linked h l k :
  0 ≤ k → links (h_heap h) (h_first h) l →
  let h' := sqliteRehash true h (2 ^ k) in
  h_keyClass h' = h_keyClass h ∧ h_copyKey h' = h_copyKey h ∧ h_copyValue h' = h_copyValue h ∧
  h_count h' = h_count h ∧ h_brk h' = h_brk h ∧ h_htsize h' = 2 ^ k ∧
  payload <$> h_heap h' = payload <$> h_heap h ∧ ∃ l', l' ≡ₚ l ∧ linked h' l'.
Proof.
  intros Hk HL. unfold sqliteRehash. simpl.
  set (h0 := set_first _ None).
  destruct (rehash_loop_linked (S (size (h_heap h))) l h0 [] (h_first h)) as (Hfr & l' & Hl' & HL').
  - pose proof (length_le_size (h_heap h) l (lk_nodup _ _ _ HL)).
    apply le_S, H. intros p Hp. destruct (links_lookup _ _ _ _ HL Hp) as [e ->]. eauto.
  - rewrite app_nil_r. apply HL.
  - apply links_nexts, HL.
  - split; simpl.
    + split; [done|constructor|done].
    + eauto.
    + rewrite length_replicate. pose proof (Z.pow_pos_nonneg 2 k). lia.
    + apply buckets_empty.
  - destruct Hfr as (?&?&?&?&?&?&?). rewrite app_nil_r in Hl'.
    split_and!; try done. eauto.
Qed.

(** ** Lookup *)

(** An integer key is an [int] of the C code. *)
Definition key_ok (k : hkey) : Prop :=
  match k with KInt n => in_sw 32 n | _ => True end.

Lemma strncmp_eq s1 s2 : String.length s1 = String.length s2 → strncmp s1 s2 = 0 ↔ s1 = s2.
Proof.
  revert s2. induction s1 as [|x s1 IH]; intros [|y s2] Hl; simpl in *; try done; try lia.
  destruct (Z.eqb_spec (code x) (code y)) as [E|E].
  - apply code_inj in E as ->. rewrite IH by lia. split; [by intros ->|congruence].
  - split; [lia|congruence].
Qed.

Lemma memcmp_eq b1 b2 : length b1 = length b2 → memcmp b1 b2 = 0 ↔ b1 = b2.
Proof.
  revert b2. induction b1 as [|x b1 IH]; intros [|y b2] Hl; simpl in *; try done; try lia.
  destruct (Z.eqb_spec x y) as [->|E].
  - rewrite IH by lia. split; congruence.
  - split; [lia|congruence].
Qed.

Lemma sqliteCompareFunction_eq k1 k2 :
  key_ok k1 → key_ok k2 → sqliteCompareFunction k1 k2 = true ↔ k1 = k2.
Proof.
  destruct k1, k2; simpl; intros H1 H2; try (split; [done|congruence]); rewrite Z.eqb_eq.
  - unfold sqliteIntCompare. split; [|intros [= ->]; by rewrite Z.sub_diag].
    unfold sw, in_sw in *. simpl. intros E. f_equal.
    Z.div_mod_to_equations. lia.
  - unfold sqliteStrCompare. destruct (Nat.eqb_spec (String.length s) (String.length s0)).
    + rewrite strncmp_eq by done. split; congruence.
    + split; [done|congruence].
  - unfold sqliteBinCompare. destruct (Nat.eqb_spec (length b) (length b0)).
    + rewrite memcmp_eq by done. split; congruence.
    + split; [done|congruence].
Qed.

Lemma find_loop_spec hp first l n k key :
  links hp first l → (k + n ≤ length l)%nat → key_ok key →
  (∀ p e, hp !! p = Some e → key_ok (e_key e)) →
  match find_loop hp n (if decide (n = 0%nat) then None else l !! k) key with
  | Some p => ∃ e, hp !! p = Some e ∧ e_key e = key ∧ p ∈ l
  | None => ∀ j p e, (k ≤ j < k + n)%nat → l !! j = Some p → hp !! p = Some e → e_key e ≠ key
  end.
Proof.
  intros HL Hkn Hkey Hok. revert k Hkn. induction n as [|n IH]; intros k Hkn; simpl; [lia|].
  destruct (lookup_lt_is_Some_2 l k) as [p Hp]; [lia|]. rewrite Hp.
  destruct (lk_elem _ _ _ HL _ _ Hp) as (e & He & Hn & _). rewrite He.
  destruct (sqliteCompareFunction (e_key e) key) eqn:Hc.
  { apply sqliteCompareFunction_eq in Hc; eauto.
    exists e. split_and!; [done|done|]. apply list_elem_of_lookup. eauto. }
  assert (e_key e ≠ key) as Hne.
  { intros E. apply (sqliteCompareFunction_eq _ key) in E; eauto. congruence. }
  specialize (IH (S k)). rewrite Hn. destruct n as [|n].
  - simpl. intros j q f Hj Hq Hf. assert (j = k) as -> by lia. congruence.
  - case_decide; [lia|]. specialize (IH ltac:(lia)).
    destruct (find_loop hp (S n) (l !! S k) key) as [r|]; [done|].
    intros j q f Hj Hq Hf. destruct (decide (j = k)) as [->|]; [congruence|].
    eapply IH; [|done..]. lia.
Qed.

(** ** The invariant and the abstract map *)

Abbreviation pay h := (payload <$> h_heap h).

Record wf h l : Prop := {
  wf_links : links (h_heap h) (h_first h) l;
  wf_dom p : p ∈ l ↔ is_Some (pay h !! p);
  wf_keys p q k v w : pay h !! p = Some (k, v) → pay h !! q = Some (k, w) → p = q;
  wf_ok p k v : pay h !! p = Some (k, v) → key_ok k;
  wf_brk p : p ∈ l → (p < h_brk h)%positive;
  wf_count : h_count h = Z.of_nat (length l);
  wf_table : (h_htsize h = 0 ∧ h_ht h = [] ∧ l = []) ∨ linked h l;
}.

(** The map that the cells hold. *)
Definition holds (pm : gmap ptr (hkey * (D * Z))) (m : gmap hkey (D * Z)) : Prop :=
  ∀ k v, m !! k = Some v ↔ ∃ p, pm !! p = Some (k, v).

(** The table [h] represents the finite map [m]. *)
Definition represents h (m : gmap hkey (D * Z)) : Prop := ∃ l, wf h l ∧ holds (pay h) m.

Lemma pay_inv h p k v :
  pay h !! p = Some (k, v) ↔ ∃ e, h_heap h !! p = Some e ∧ payload e = (k, v).
Proof. rewrite lookup_fmap, fmap_Some. naive_solver. Qed.

Lemma find_element_spec h l key :
  wf h l → key_ok key →
  match sqliteFindElementGivenHash h key (bucket (h_htsize h) key) with
  | Some p => ∃ e, h_heap h !! p = Some e ∧ e_key e = key
  | None => ∀ p v, pay h !! p ≠ Some (key, v)
  end.
Proof.
  intros Hwf Hkey. unfold sqliteFindElementGivenHash.
  destruct (wf_table _ _ Hwf) as [(-> & -> & ->)|HL].
  - rewrite zlookup_nil. intros p v He.
    assert (p ∈ []) as []%elem_of_nil. apply (wf_dom _ _ Hwf). eauto.
  - set (i := bucket _ _). destruct (zlookup_is_Some (h_ht h) i) as [b Hb].
    { rewrite (ld_len _ _ HL). apply bucket_range, HL. }
    rewrite Hb. destruct (proj1 (ld_buckets _ _ HL) _ _ Hb) as (k & n & Hc & Hkn & Hch & Hseg).
    rewrite Hc, Nat2Z.id, Hch.
    assert (∀ p e, h_heap h !! p = Some e → key_ok (e_key e)) as Hok.
    { intros p e He. eapply (wf_ok _ _ Hwf p). apply payload_lookup, He. }
    pose proof (find_loop_spec _ _ _ _ _ _ (wf_links _ _ Hwf) Hkn Hkey Hok) as Hf.
    destruct (find_loop _ _ _ _) as [p|]; [naive_solver|].
    intros p v (e & He & [= Hk Hv])%pay_inv.
    assert (p ∈ l) as [j Hj]%list_elem_of_lookup.
    { apply (wf_dom _ _ Hwf). rewrite lookup_fmap, He. eauto. }
    refine (Hf j p e _ Hj He Hk). apply (Hseg _ _ Hj).
    unfold cell_bucket. rewrite (payload_lookup _ _ _ He). simpl. by rewrite Hk.
Qed.

Lemma find_lookup h m key :
  represents h m → key_ok key → sqliteHashFind h key = m !! key.
Proof.
  intros (l & Hwf & Hm) Hkey. pose proof (find_element_spec h l key Hwf Hkey) as Hf.
  assert (sqliteHashFind h key =
    (p ← sqliteFindElementGivenHash h key (bucket (h_htsize h) key);
     e ← h_heap h !! p; Some (e_data e, e_ndata e))) as ->.
  { unfold sqliteHashFind. destruct (h_ht h) eqn:E; [|done].
    unfold sqliteFindElementGivenHash. by rewrite E, zlookup_nil. }
  destruct (sqliteFindElementGivenHash _ _ _) as [p|]; simpl.
  - destruct Hf as (e & He & Hk). rewrite He. simpl. symmetry. apply Hm.
    exists p. rewrite (payload_lookup _ _ _ He). unfold payload. by rewrite Hk.
  - destruct (m !! key) as [v|] eqn:E; [|done]. apply Hm in E as [p Hp]. by destruct (Hf p v).
Qed.

(** ** Insertion and removal *)

Lemma buckets_ext idx idx' ht l :
  (∀ p, p ∈ l → idx' p = idx p) → buckets idx ht l → buckets idx' ht l.
Proof.
  intros He [HB HR]. split.
  - intros i b Hb. destruct (HB _ _ Hb) as (k & n & ? & ? & ? & Hs). exists k, n.
    split_and!; [done..|]. intros j p Hj. rewrite He; [eauto|]. apply list_elem_of_lookup; eauto.
  - intros p Hp. rewrite He by done. auto.
Qed.

Lemma links_ext hp hp' first l :
  (∀ p e, p ∈ l → hp !! p = Some e →
     ∃ e', hp' !! p = Some e' ∧ e_next e' = e_next e ∧ e_prev e' = e_prev e) →
  links hp first l → links hp' first l.
Proof.
  intros He [Hf Hnd Hl]. split; [done|done|]. intros i p Hi.
  destruct (Hl _ _ Hi) as (e & Hp & Hn & Hpr).
  destruct (He p e) as (e' & ? & ? & ?); [apply list_elem_of_lookup; eauto|done|].
  exists e'. split_and!; congruence.
Qed.

Lemma holds_insert pm m p k v :
  holds pm m → (∀ q w, q ≠ p → pm !! q ≠ Some (k, w)) →
  (∀ k' w, pm !! p = Some (k', w) → k' = k) →
  holds (<[p := (k, v)]> pm) (<[k := v]> m).
Proof.
  intros Hm Hu Hp k' v'. destruct (decide (k' = k)) as [->|Hk].
  - rewrite lookup_insert_eq. split.
    + intros [= ->]. exists p. by rewrite lookup_insert_eq.
    + intros [q Hq]. destruct (decide (q = p)) as [->|Hqp].
      * rewrite lookup_insert_eq in Hq. congruence.
      * rewrite lookup_insert_ne in Hq by done. by destruct (Hu q v').
  - rewrite lookup_insert_ne by done. etrans; [apply Hm|]. split; intros [q Hq].
    + exists q. destruct (decide (q = p)) as [->|]; [by destruct Hk; eauto|].
      by rewrite lookup_insert_ne by done.
    + exists q. destruct (decide (q = p)) as [->|].
      * rewrite lookup_insert_eq in Hq. congruence.
      * by rewrite lookup_insert_ne in Hq by done.
Qed.

Lemma holds_delete pm m p k v :
  holds pm m → pm !! p = Some (k, v) → (∀ q w, pm !! q = Some (k, w) → q = p) →
  holds (delete p pm) (delete k m).
Proof.
  intros Hm Hp Hu k' v'. destruct (decide (k' = k)) as [->|Hk].
  - rewrite lookup_delete_eq. split; [done|]. intros [q Hq].
    rewrite lookup_delete_Some in Hq. destruct Hq as [Hne Hq]. destruct Hne. symmetry. eauto.
  - rewrite lookup_delete_ne by done. etrans; [apply Hm|]. split; intros [q Hq]; exists q.
    + rewrite lookup_delete_ne; [done|]. intros ->. congruence.
    + rewrite lookup_delete_Some in Hq. tauto.
Qed.

(** Replacing the data of an element in place. *)
Lemma update_represents h m p e key d :
  represents h m → h_heap h !! p = Some e → e_key e = key →
  represents (set_heap h (alter (with_data d) p (h_heap h)))
             (<[key := (d, e_ndata e)]> m).
Proof.
  intros (l & Hwf & Hm) He <-.
  assert (pay (set_heap h (alter (with_data d) p (h_heap h)))
          = <[p := (e_key e, (d, e_ndata e))]> (pay h)) as Hpay.
  { apply map_eq. intros q. simpl. rewrite lookup_fmap, lookup_alter, lookup_insert.
    case_decide; subst; [by rewrite He|by rewrite lookup_fmap]. }
  pose proof (payload_lookup _ _ _ He) as Hp.
  exists l. split; [split|]; rewrite ?Hpay.
  - simpl. eapply links_ext; [|apply Hwf]. intros q f _ Hq. rewrite lookup_alter.
    case_decide; subst; rewrite Hq; simpl; eauto.
  - intros q. rewrite (wf_dom _ _ Hwf q), lookup_insert. case_decide; subst; [|done].
    rewrite Hp. split; eauto.
  - intros q r k v w. rewrite !lookup_insert. pose proof (wf_keys _ _ Hwf) as Hk.
    repeat case_decide; subst; intros; simplify_eq; eauto.
  - intros q k v. rewrite lookup_insert. case_decide; intros; simplify_eq;
      eapply (wf_ok _ _ Hwf); eauto.
  - simpl. apply (wf_brk _ _ Hwf).
  - apply Hwf.
  - destruct (wf_table _ _ Hwf) as [|[HL Hs Hlen HB]]; [by left|right].
    split; [|done..|].
    + simpl. eapply links_ext; [|done]. intros q f _ Hq. rewrite lookup_alter.
      case_decide; subst; rewrite Hq; simpl; eauto.
    + rewrite Hpay. simpl. eapply buckets_ext; [|done]. intros q _. unfold cell_bucket.
      rewrite lookup_insert. case_decide; subst; [|done]. by rewrite Hp.
  - apply holds_insert; [done| |].
    + intros q w Hq Hqw. apply Hq. by eapply (wf_keys _ _ Hwf).
    + intros k' w Hk'. rewrite Hp in Hk'. by injection Hk'.
Qed.

(** Adding a cell that is not linked yet. *)
Lemma linked_alloc h l p e b :
  linked h l → p ∉ l →
  linked (set_brk (set_heap h (<[p := e]> (h_heap h))) b) l.
Proof.
  intros [HL Hs Hlen HB] Hp. split; [|done..|]; simpl.
  - eapply links_ext; [|done]. intros q f Hq Hf.
    rewrite lookup_insert_ne by (by intros ->). eauto.
  - eapply buckets_ext; [|done]. intros q Hq. unfold cell_bucket.
    rewrite !lookup_fmap, lookup_insert_ne by (by intros ->). done.
Qed.

(** The table has room for the new element, or there is no table. *)
Lemma first_table_spec m h l :
  wf h l →
  let h2 := first_table m (set_count h (h_count h + 1)) in
  if h_htsize h2 =? 0 then h2 = set_count h (h_count h + 1) ∧ l = [] ∧ m_ht m = false else
  h_count h2 = h_count h + 1 ∧ h_brk h2 = h_brk h ∧ pay h2 = pay h ∧
  ∃ l', l' ≡ₚ l ∧ linked h2 l'.
Proof.
  intros Hwf. unfold first_table. set (h1 := set_count h (h_count h + 1)).
  destruct (wf_table _ _ Hwf) as [(Hs & Hht & ->)|HL].
  - change (h_htsize h1) with (h_htsize h). rewrite Hs. change (0 =? 0) with true. cbv iota zeta.
    destruct (m_ht m) eqn:Em; [|simpl; by rewrite Hs].
    destruct (sqliteRehash_linked h1 [] 3) as (?&?&?&?&?&Hs'&?&?); [lia|apply Hwf|].
    change (2 ^ 3) with 8 in *. rewrite Hs'. simpl. split_and!; done.
  - destruct (ld_size _ _ HL) as (j & Hj & Hsz).
    assert ((h_htsize h =? 0) = false) as E.
    { apply Z.eqb_neq. rewrite Hsz. pose proof (Z.pow_pos_nonneg 2 j). lia. }
    change (h_htsize h1) with (h_htsize h). rewrite E. cbv zeta iota.
    change (h_htsize h1) with (h_htsize h). rewrite E. split_and!; [done..|].
    exists l. split; [done|]. by destruct HL; split.
Qed.

Lemma grow_table_spec m h l :
  linked h l →
  let h' := grow_table m h in
  h_count h' = h_count h ∧ h_brk h' = h_brk h ∧ pay h' = pay h ∧ ∃ l', l' ≡ₚ l ∧ linked h' l'.
Proof.
  intros HL. unfold grow_table. destruct (h_htsize h <? h_count h); [|simpl; eauto 10].
  destruct (m_grow m); [|simpl; eauto 10].
  destruct (ld_size _ _ HL) as (k & Hk & Hsz).
  destruct (sqliteRehash_linked h l (k + 1)) as (?&?&?&Hc&Hb&Hs&Hp&l3&Hl3&HL3);
    [lia|apply HL|].
  rewrite Hsz. replace (2 ^ k * 2) with (2 ^ (k + 1)) by (rewrite Z.pow_add_r by lia; lia).
  cbv zeta. eauto 10.
Qed.

Lemma link_new_spec h l p k d n :
  linked h l → p ∉ l →
  let h' := link_new h p k d n in
  h_count h' = h_count h ∧ h_brk h' = Pos.succ p ∧
  pay h' = <[p := (k, (d, n))]> (pay h) ∧ ∃ l', l' ≡ₚ p :: l ∧ linked h' l'.
Proof.
  intros HL Hp. unfold link_new. set (e := Elem None None d n k).
  pose proof (linked_alloc h l p e (Pos.succ p) HL Hp) as HL4.
  set (h4 := set_brk _ _) in *.
  destruct (sqliteInsertElement_linked h4 l p e) as (Hfr & Hl' & _);
    [done|done|by apply lookup_insert_eq|].
  destruct Hfr as (_ & _ & _ & Hc & _ & Hb & Hpay). split_and!; [done..| |done].
  etrans; [exact Hpay|]. subst h4. simpl. by rewrite fmap_insert.
Qed.

(** The cells of a table with one more cell, for a key it did not have. *)
Lemma represents_add h h' mm l l' p k d n :
  wf h l → holds (pay h) mm → key_ok k → mm !! k = None → p = h_brk h →
  linked h' l' → l' ≡ₚ p :: l → h_count h' = h_count h + 1 → h_brk h' = Pos.succ p →
  pay h' = <[p := (k, (d, n))]> (pay h) →
  represents h' (<[k := (d, n)]> mm).
Proof.
  intros Hwf Hm Hk Hnone -> HL' Hl' Hc Hb Hpay.
  assert (pay h !! h_brk h = None) as Hnp.
  { apply eq_None_not_Some. rewrite <- (wf_dom _ _ Hwf). intros Hp.
    pose proof (wf_brk _ _ Hwf _ Hp). lia. }
  assert (∀ q w, pay h !! q ≠ Some (k, w)) as Hnk.
  { intros q w Hq. assert (mm !! k = Some w) by (apply Hm; eauto). congruence. }
  exists l'. split; [split|]; rewrite ?Hpay.
  - apply HL'.
  - intros q. rewrite Hl', elem_of_cons, (wf_dom _ _ Hwf), lookup_insert.
    case_decide; subst; naive_solver.
  - intros q r k' v w. rewrite !lookup_insert. pose proof (wf_keys _ _ Hwf) as Hu.
    repeat case_decide; intros; simplify_eq; eauto; naive_solver.
  - intros q k' v. rewrite lookup_insert. case_decide; intros; simplify_eq; [done|].
    by eapply (wf_ok _ _ Hwf).
  - intros q. rewrite Hl', elem_of_cons, Hb.
    intros [->|Hq]; [lia|]. pose proof (wf_brk _ _ Hwf _ Hq). lia.
  - rewrite Hc, Hl', (wf_count _ _ Hwf). simpl. lia.
  - by right.
  - apply holds_insert; naive_solver.
Qed.

(** Whatever allocations fail, a new key is either added or nothing of the
    represented map changes. *)
Lemma insert_new_represents m h mm k d n :
  represents h mm → key_ok k → mm !! k = None →
  represents (insert_new m h k d n) (<[k := (d, n)]> mm) ∨
  (m ≠ mallocs_ok ∧ represents (insert_new m h k d n) mm).
Proof.
  intros (l & Hwf & Hm) Hk Hnone. unfold insert_new.
  destruct (m_elem m) eqn:E1; cbn [negb]; [|right; split; [by intros ->|by exists l]].
  destruct (h_copyKey h && _) eqn:Ek;
    [right; split; [intros ->; by rewrite andb_false_r in Ek|by exists l]|].
  destruct (h_copyValue h && _) eqn:Ev;
    [right; split; [intros ->; by rewrite andb_false_r in Ev|by exists l]|].
  pose proof (first_table_spec m h l Hwf) as H1. cbv zeta in H1.
  destruct (h_htsize (first_table _ _) =? 0) eqn:E.
  { destruct H1 as (-> & -> & Hht). right. split; [by intros ->|].
    exists []. split; [|done]. destruct Hwf as [? ? ? ? ? ? [?|[]]]; split; try done; [by left|right; by split]. }
  destruct H1 as (Hc1 & Hb1 & Hp1 & l1 & Hl1 & HL1).
  destruct (grow_table_spec m _ _ HL1) as (Hc2 & Hb2 & Hp2 & l2 & Hl2 & HL2).
  destruct (link_new_spec _ l2 (h_brk h) k d n HL2) as (Hc3 & Hb3 & Hp3 & l3 & Hl3 & HL3).
  { rewrite Hl2, Hl1. intros Hp. pose proof (wf_brk _ _ Hwf _ Hp). lia. }
  left. eapply (represents_add h _ mm l l3 (h_brk h)); try done; try congruence.
  by rewrite Hl3, Hl2, Hl1.
Qed.

Lemma links_remove hp hp' first l j p :
  links hp first l → l !! j = Some p →
  (∀ q i e, l !! i = Some q → i ≠ j → hp !! q = Some e →
     ∃ e', hp' !! q = Some e' ∧
       e_next e' = (if decide (S i = j) then l !! S j else e_next e) ∧
       e_prev e' = (if decide (i = S j) then pred_at l j else e_prev e)) →
  links hp' (if decide (j = 0%nat) then l !! 1%nat else first) (remove_at j l).
Proof.
  intros [Hf Hnd Hl] Hj Hcells. pose proof (lookup_lt_Some _ _ _ Hj) as Hlt. split.
  - rewrite lookup_remove_at by done. repeat case_decide; subst; try lia; done.
  - rewrite (remove_at_perm _ _ _ Hj) in Hnd. by apply list.NoDup_cons in Hnd as [_ ?].
  - intros i q. rewrite lookup_remove_at by done. intros Hq.
    rewrite lookup_remove_at by done.
    assert (pred_at (remove_at j l) i =
      if decide (i ≤ j)%nat then pred_at l i else pred_at l (S i)) as ->.
    { destruct i as [|m]; simpl; [done|]. rewrite lookup_remove_at by done.
      repeat case_decide; try lia; done. }
    destruct (decide (i < j)%nat).
    + destruct (Hl _ _ Hq) as (e & He & En & Ep).
      destruct (Hcells _ _ _ Hq ltac:(lia) He) as (e' & He' & En' & Ep'). exists e'.
      repeat case_decide; try lia; split_and!; congruence.
    + destruct (Hl _ _ Hq) as (e & He & En & Ep).
      destruct (Hcells _ _ _ Hq ltac:(lia) He) as (e' & He' & En' & Ep'). exists e'.
      repeat case_decide; try lia; split_and!; congruence.
Qed.

Lemma unlink_elem_spec idx hp first l b p e i j k n :
  links hp first l → l !! j = Some p → hp !! p = Some e → segment idx l i b k n →
  (k ≤ j < k + n)%nat →
  let '(hp', first', b') := unlink_elem hp first b p e in
  links hp' first' (remove_at j l) ∧ payload <$> hp' = delete p (payload <$> hp) ∧
  b' = Ht (ht_count b - 1)
    (if ht_count b - 1 <=? 0 then None else if decide (j = k) then l !! S j else l !! k).
Proof.
  intros HL Hj He (Hc & Hkn & Hch & Hseg) Hjk. unfold unlink_elem.
  destruct (lk_elem _ _ _ HL _ _ Hj) as (e0 & He0 & Hn & Hp). simplify_eq.
  assert (ht_chain b = Some p ↔ j = k) as Hchain.
  { rewrite Hch. destruct (decide (n = 0%nat)); [lia|]. split; [|by intros <-].
    intros Hk. by eapply links_inj. }
  assert (∀ nx, (if decide (ht_chain b = Some p) then nx else ht_chain b) =
                (if decide (j = k) then nx else l !! k)) as Hchain'.
  { intros nx. destruct (decide (ht_chain b = Some p)), (decide (j = k)); try tauto.
    rewrite Hch. destruct (decide (n = 0%nat)); [lia|done]. }
  assert (∀ hp1, payload <$> hp1 = payload <$> hp →
    payload <$> delete p hp1 = delete p (payload <$> hp)) as Hdel.
  { intros hp1 H1. by rewrite fmap_delete, H1. }
  assert (∀ q i', l !! i' = Some q → i' ≠ j → q ≠ p) as Hqp.
  { intros q i' Hq Hi ->. by apply Hi, (links_inj _ _ _ _ _ _ HL Hq). }
  assert (∀ q i1 r i2, l !! i1 = Some q → l !! i2 = Some r → i1 ≠ i2 → r ≠ q) as Hqr.
  { intros q i1 r i2 H1 H2 H12 ->. by apply H12, (links_inj _ _ _ _ _ _ HL H1). }
  rewrite Hn, Hp.
  destruct j as [|j]; simpl.
  - split_and!.
    + apply (links_remove hp _ first l 0 p); [done..|]. intros q i' f Hq Hi Hf.
      rewrite lookup_delete_ne by (symmetry; eauto).
      destruct (l !! 1%nat) as [nx|] eqn:Hnx.
      * destruct (decide (i' = 1%nat)) as [->|Hi1].
        { assert (q = nx) as -> by congruence. rewrite lookup_alter_eq, Hf. simpl. eauto. }
        rewrite lookup_alter_ne, Hf by (eapply Hqr; [eassumption..|lia]).
        repeat case_decide; try lia; eauto.
      * rewrite Hf. repeat case_decide; try lia; subst; try congruence; eauto.
    + apply Hdel. destruct (l !! 1%nat); [by rewrite payload_alter|done].
    + by rewrite Hchain'.
  - destruct (l !! j) as [pv|] eqn:Hpv;
      [|apply lookup_ge_None in Hpv; apply lookup_lt_Some in Hj; lia].
    split_and!.
    + apply (links_remove hp _ first l (S j) p); [done..|]. intros q i' f Hq Hi Hf.
      rewrite lookup_delete_ne by (symmetry; eauto). simpl.
      destruct (l !! S (S j)) as [nx|] eqn:Hnx.
      * destruct (decide (i' = S (S j))) as [->|Hi1].
        { assert (q = nx) as -> by congruence.
          rewrite lookup_alter_eq, lookup_alter_ne, Hf by (eapply Hqr; [eassumption..|lia]). simpl.
          destruct (decide (S (S (S j)) = S j)); [lia|]. eauto. }
        rewrite lookup_alter_ne by (eapply Hqr; [eassumption..|lia]). destruct (decide (i' = j)) as [->|Hij].
        { assert (q = pv) as -> by congruence. rewrite lookup_alter_eq, Hf. simpl.
          repeat case_decide; try lia; eauto. }
        rewrite lookup_alter_ne, Hf by (eapply Hqr; [eassumption..|lia]). repeat case_decide; try lia; eauto.
      * destruct (decide (i' = j)) as [->|Hij].
        { assert (q = pv) as -> by congruence. rewrite lookup_alter_eq, Hf. simpl.
          repeat case_decide; try lia; eauto. }
        rewrite lookup_alter_ne, Hf by (eapply Hqr; [eassumption..|lia]).
        repeat case_decide; subst; try lia; try congruence; eauto.
    + apply Hdel. destruct (l !! S (S j)); by rewrite !payload_alter.
    + by rewrite Hchain'.
Qed.

Lemma buckets_remove idx ht l b p j k n :
  buckets idx ht l → l !! j = Some p → zlookup ht (idx p) = Some b →
  segment idx l (idx p) b k n → (k ≤ j < k + n)%nat →
  buckets idx (zinsert ht (idx p) (Ht (ht_count b - 1)
    (if ht_count b - 1 <=? 0 then None else if decide (j = k) then l !! S j else l !! k)))
    (remove_at j l).
Proof.
  intros [HB HR] Hj Hb Hseg Hjk. pose proof (lookup_lt_Some _ _ _ Hj) as Hlt. split.
  - intros i b0. rewrite zlookup_zinsert by by eapply zlookup_Some.
    case_decide as Hi; [intros [= <-]; subst i|].
    + destruct Hseg as (Hc & Hkn & Hch & Hs). exists k, (pred n). split_and!; simpl.
      * lia.
      * rewrite length_remove_at by done. lia.
      * rewrite Hc. destruct (decide (pred n = 0%nat)), (Z.leb_spec (Z.of_nat n - 1) 0); try lia; [done|].
        rewrite lookup_remove_at by done. repeat case_decide; try lia; subst; done.
      * intros m q. rewrite lookup_remove_at by done.
        destruct (decide (m < j)%nat); intros Hq; rewrite (Hs _ _ Hq); lia.
    + intros Hb0. destruct (HB _ _ Hb0) as (k1 & n1 & Hc & Hkn & Hch & Hs).
      assert (¬ (k1 ≤ j < k1 + n1)%nat) as Hnot.
      { intros Hin. apply Hi. by apply (Hs _ _ Hj). }
      exists (if decide (j < k1)%nat then pred k1 else k1), n1. split_and!; [done| | |].
      * rewrite length_remove_at by done. destruct (decide (j < k1)%nat); lia.
      * rewrite Hch. destruct (decide (n1 = 0%nat)); [done|].
        rewrite lookup_remove_at by done.
        repeat case_decide; try lia; try done. f_equal. lia.
      * intros m q. rewrite lookup_remove_at by done.
        repeat case_decide; intros Hq; rewrite (Hs _ _ Hq); lia.
  - intros q Hq. rewrite zinsert_length. apply HR. rewrite (remove_at_perm _ _ _ Hj).
    by right.
Qed.

(** ** Clearing the table *)

Lemma clear_loop_spec fuel r hp elem :
  (length r ≤ fuel)%nat → NoDup r → nexts hp elem r →
  ∀ q, clear_loop fuel hp elem !! q = if decide (q ∈ r) then None else hp !! q.
Proof.
  revert r hp elem. induction fuel as [|fuel IH]; intros [|p r] hp elem Hlen Hnd Hr q;
    simpl in *; try lia; try (by subst).
  destruct Hr as (-> & e & He & Hr). rewrite He. apply list.NoDup_cons in Hnd as [Hp Hnd].
  rewrite (IH r); [|lia|done|].
  - rewrite lookup_delete. destruct (decide (p = q)) as [->|Hpq].
    + rewrite (decide_True (P := q ∈ q :: r)) by left. by destruct (decide (q ∈ r)).
    + destruct (decide (q ∈ r)), (decide (q ∈ p :: r)); set_solver.
  - eapply nexts_ext; [|done]. intros x Hx. rewrite lookup_delete_ne; [done|by intros ->].
Qed.

(** [sqliteHashClear] frees every element: no cell stays allocated. *)
Lemma clear_represents h l :
  links (h_heap h) (h_first h) l → (∀ p, p ∈ l ↔ is_Some (pay h !! p)) →
  h_heap (sqliteHashClear h) = ∅ ∧ represents (sqliteHashClear h) ∅.
Proof.
  intros HL Hdom. assert (h_heap (sqliteHashClear h) = ∅) as Hempty.
  { change (h_heap (sqliteHashClear h))
      with (clear_loop (S (size (h_heap h))) (h_heap h) (h_first h)).
    apply map_eq. intros q. rewrite (clear_loop_spec _ l).
    - rewrite lookup_empty. case_decide as Hq; [done|].
      rewrite Hdom, lookup_fmap, fmap_is_Some in Hq. by apply eq_None_not_Some.
    - apply le_S, length_le_size; [apply HL|]. intros p.
      rewrite Hdom, lookup_fmap, fmap_is_Some. done.
    - apply HL.
    - by apply links_nexts. }
  split; [done|]. exists []. split; [split|]; rewrite ?Hempty, ?fmap_empty.
  - split; [done|constructor|done].
  - intros p. rewrite lookup_empty, elem_of_nil. split; [done|by intros []].
  - intros *. by rewrite lookup_empty.
  - intros *. by rewrite lookup_empty.
  - intros p Hp. by apply elem_of_nil in Hp.
  - done.
  - by left.
  - intros k v. rewrite lookup_empty. split; [done|]. intros [p Hp].
    by rewrite lookup_empty in Hp.
Qed.

Lemma wf_nodup h l : wf h l → NoDup l.
Proof. intros H. apply (lk_nodup _ _ _ (wf_links _ _ H)). Qed.

(** The cells that stay are those of the list without the removed one. *)
Lemma dom_remove h l j p (pm : gmap ptr (hkey * (D * Z))) :
  wf h l → l !! j = Some p → pm = delete p (pay h) →
  ∀ q, q ∈ remove_at j l ↔ is_Some (pm !! q).
Proof.
  intros Hwf Hj -> q. pose proof (wf_dom _ _ Hwf q) as Hq.
  pose proof (wf_nodup _ _ Hwf) as Hnd. rewrite (remove_at_perm _ _ _ Hj) in Hq, Hnd.
  apply list.NoDup_cons in Hnd as [Hpn _]. rewrite elem_of_cons in Hq.
  rewrite lookup_delete. case_decide; subst; [|naive_solver].
  split; [done|by intros []].
Qed.

(** A table without elements represents the empty map. *)
Lemma holds_nil pm m : holds pm m → (∀ q, ¬ is_Some (pm !! q)) → m = ∅.
Proof.
  intros Hm Hq. apply map_empty. intros k. apply eq_None_not_Some.
  intros [v [q Hv]%Hm]. apply (Hq q). eauto.
Qed.

Lemma remove_represents h m p e :
  represents h m → h_heap h !! p = Some e →
  represents (sqliteRemoveElementGivenHash h p (bucket (h_htsize h) (e_key e)))
             (delete (e_key e) m).
Proof.
  intros (l & Hwf & Hm) He. pose proof (payload_lookup _ _ _ He) as Hp.
  assert (p ∈ l) as Hpl by (apply (wf_dom _ _ Hwf); eauto).
  apply list_elem_of_lookup in Hpl as [j Hj].
  destruct (wf_table _ _ Hwf) as [(_ & _ & ->)|[HL Hsz Hlen HB]]; [done|].
  set (i := bucket (h_htsize h) (e_key e)).
  assert (cell_bucket (h_htsize h) (pay h) p = i) as Hi by (unfold cell_bucket; by rewrite Hp).
  unfold sqliteRemoveElementGivenHash. rewrite He.
  destruct (zlookup_is_Some (h_ht h) i) as [b Hb]; [rewrite Hlen; by apply bucket_range|].
  rewrite Hb. destruct (proj1 HB _ _ Hb) as (k & n & Hseg).
  assert (k ≤ j < k + n)%nat as Hjk by by apply (proj2 (proj2 (proj2 Hseg)) _ _ Hj).
  pose proof (unlink_elem_spec _ _ _ _ _ _ _ _ _ _ _ HL Hj He Hseg Hjk) as Hun.
  destruct (unlink_elem _ _ b p e) as [[hp' first'] b']. destruct Hun as (HL' & Hpay & ->).
  set (b' := Ht _ _). set (h' := set_count _ _).
  pose proof (dom_remove h l j p (pay h') Hwf Hj Hpay) as Hdom.
  assert (holds (pay h') (delete (e_key e) m)) as Hm'.
  { simpl. rewrite Hpay. eapply holds_delete; [done..|].
    intros q w Hq. by eapply (wf_keys _ _ Hwf). }
  destruct (h_count h' <=? 0) eqn:Hcnt; b2p.
  { rewrite (holds_nil _ _ Hm'); [by apply (clear_represents h' (remove_at j l))|].
    intros q Hin%Hdom. apply list_elem_of_In, in_split in Hin as (l1 & l2 & Hl12).
    pose proof (length_remove_at j l (lookup_lt_Some _ _ _ Hj)) as Hlen'.
    rewrite Hl12, length_app in Hlen'. simpl in Hcnt, Hlen'. rewrite (wf_count _ _ Hwf) in Hcnt. lia. }
  exists (remove_at j l). split; [split|done]; try done.
  - intros q r k' v w. simpl. rewrite Hpay, !lookup_delete_Some. intros [_ ?] [_ ?].
    by eapply (wf_keys _ _ Hwf).
  - intros q k' v. simpl. rewrite Hpay, lookup_delete_Some. intros [_ ?].
    by eapply (wf_ok _ _ Hwf).
  - intros q Hq. apply (wf_brk _ _ Hwf). rewrite (remove_at_perm _ _ _ Hj). by right.
  - simpl. rewrite length_remove_at by by eapply lookup_lt_Some.
    apply lookup_lt_Some in Hj. rewrite (wf_count _ _ Hwf). lia.
  - right. split; [done|done|simpl; by rewrite zinsert_length|].
    simpl. rewrite <- Hi. eapply (buckets_ext (cell_bucket (h_htsize h) (pay h))).
    + intros q Hq%Hdom. simpl in Hq. rewrite Hpay in Hq. unfold cell_bucket. rewrite Hpay.
      rewrite lookup_delete in *. case_decide; [by destruct Hq|done].
    + subst b'. rewrite <- Hi in Hseg, Hb. by eapply buckets_remove.
Qed.

(** ** The operations against the finite map *)

(** What an insertion does to the map: the data is replaced, and an existing
    entry keeps the length it was created with. *)
Definition put (m : gmap hkey (D * Z)) (k : hkey) (d : D) (n : Z) : gmap hkey (D * Z) :=
  match m !! k with
  | Some (_, n0) => <[k := (d, n0)]> m
  | None => <[k := (d, n)]> m
  end.

Lemma lookup_put_inv m k d n k' d' n' :
  put m k d n !! k' = Some (d', n') → (k' = k ∧ d' = d) ∨ m !! k' = Some (d', n').
Proof. unfold put. destruct (m !! k) as [[]|]; rewrite lookup_insert; case_decide; naive_solver. Qed.

Lemma init_represents c ck cv : represents (sqliteHashInit c ck cv) ∅.
Proof.
  exists []. split; [split|]; simpl; rewrite ?fmap_empty.
  - split; [done|constructor|done].
  - intros p. rewrite lookup_empty, elem_of_nil. split; [done|by intros []].
  - intros *. by rewrite lookup_empty.
  - intros *. by rewrite lookup_empty.
  - intros p Hp. by apply elem_of_nil in Hp.
  - done.
  - by left.
  - intros k v. rewrite lookup_empty. split; [done|]. intros [p Hp].
    by rewrite lookup_empty in Hp.
Qed.

(** The three outcomes of an insertion, by what the table holds. *)
Lemma insert_cases ms h m k d n :
  represents h m → key_ok k →
  match m !! k with
  | Some (_, n0) =>
      if h_copyValue h && negb (m_update ms)
      then sqliteHashInsert ms h k (Some d) n = Undef UseAfterFree
      else ∃ h', sqliteHashInsert ms h k (Some d) n = Ret h' ∧ represents h' (<[k := (d, n0)]> m)
  | None => ∃ h', sqliteHashInsert ms h k (Some d) n = Ret h' ∧
      (represents h' (<[k := (d, n)]> m) ∨ (ms ≠ mallocs_ok ∧ represents h' m))
  end.
Proof.
  intros Hr Hk. pose proof Hr as (l & Hwf & Hm). unfold sqliteHashInsert.
  pose proof (find_element_spec h l k Hwf Hk) as Hf.
  destruct (sqliteFindElementGivenHash _ _ _) as [p|].
  - destruct Hf as (e & He & <-).
    assert (m !! e_key e = Some (e_data e, e_ndata e)) as ->.
    { apply Hm. exists p. by rewrite (payload_lookup _ _ _ He). }
    destruct (_ && _); [done|]. eexists. split; [done|]. by apply update_represents.
  - assert (m !! k = None) as Hnone.
    { apply eq_None_not_Some. intros [v [p Hp]%Hm]. by destruct (Hf p v). }
    rewrite Hnone. eexists. split; [done|]. by apply insert_new_represents.
Qed.

Lemma insert_represents h m k d n :
  represents h m → key_ok k →
  ∃ h', sqliteHashInsert mallocs_ok h k (Some d) n = Ret h' ∧ represents h' (put m k d n).
Proof.
  intros Hr Hk. pose proof (insert_cases mallocs_ok h m k d n Hr Hk) as H. unfold put.
  rewrite andb_false_r in H. destruct (m !! k) as [[]|]; naive_solver.
Qed.

Lemma delete_represents ms h m k n :
  represents h m → key_ok k →
  ∃ h', sqliteHashInsert ms h k None n = Ret h' ∧ represents h' (delete k m).
Proof.
  intros Hr Hk. pose proof Hr as (l & Hwf & Hm). unfold sqliteHashInsert.
  pose proof (find_element_spec h l k Hwf Hk) as Hf.
  destruct (sqliteFindElementGivenHash _ _ _) as [p|]; eexists; (split; [done|]).
  - destruct Hf as (e & He & <-). by apply remove_represents.
  - rewrite delete_id; [done|]. apply eq_None_not_Some. intros [v [p Hp]%Hm].
    by destruct (Hf p v).
Qed.

(** The contents of the data of [k] are overwritten through the pointer that
    [sqliteHashFind] gave. *)
Definition poke h (k : hkey) (d : D) : sqliteHash D :=
  match sqliteFindElementGivenHash h k (bucket (h_htsize h) k) with
  | Some p => set_heap h (alter (with_data d) p (h_heap h))
  | None => h
  end.

Lemma poke_represents h m k d d0 n :
  represents h m → key_ok k → m !! k = Some (d0, n) → represents (poke h k d) (<[k := (d, n)]> m).
Proof.
  intros Hr Hk Hd. pose proof (insert_cases mallocs_ok h m k d 0 Hr Hk) as H.
  rewrite Hd, andb_false_r in H. destruct H as (h' & E & Hh'). unfold poke, sqliteHashInsert in *.
  rewrite andb_false_r in E. destruct (sqliteFindElementGivenHash _ _ _) as [p|] eqn:Ef.
  - by injection E as ->.
  - pose proof Hr as (l & Hwf & Hm). pose proof (find_element_spec h l k Hwf Hk) as Hf.
    rewrite Ef in Hf. apply Hm in Hd as [p Hp]. by destruct (Hf p (d0, n)).
Qed.

End proofs.

(** ** The interface the other components use

    [Store T D] is what a hash table from keys to data of type [D] promises:
    a representation relation to a finite map that every operation respects.
    [st_poke] is a caller's write through the data pointer it has found. *)
Class Store (T D : Type) := {
  st_init : keyclass → bool → bool → T;
  st_find : T → hkey → option (D * Z);
  st_insert : T → hkey → option D → Z → T;
  st_clear : T → T;
  st_poke : T → hkey → D → T;
  st_rep : T → gmap hkey (D * Z) → Prop;
  st_init_rep c ck cv : st_rep (st_init c ck cv) ∅;
  st_find_rep t m k : st_rep t m → key_ok k → st_find t k = m !! k;
  st_put_rep t m k d n : st_rep t m → key_ok k → st_rep (st_insert t k (Some d) n) (put m k d n);
  st_del_rep t m k n : st_rep t m → key_ok k → st_rep (st_insert t k None n) (delete k m);
  st_clear_rep t m : st_rep t m → st_rep (st_clear t) ∅;
  st_poke_rep t m k d d0 n : st_rep t m → key_ok k → m !! k = Some (d0, n) →
    st_rep (st_poke t k d) (<[k := (d, n)]> m);
}.

#[export] Hint Resolve st_init_rep st_put_rep st_del_rep st_clear_rep : sesq.

(** The table of sesqlite_hash_impl.c, with allocations that succeed, is one. *)
#[global] Program Instance sqliteHash_store D : Store (sqliteHash D) D := {|
  st_init := sqliteHashInit;
  st_find := sqliteHashFind;
  st_insert t k d n := match sqliteHashInsert mallocs_ok t k d n with Ret t' => t' | Undef _ => t end;
  st_clear := sqliteHashClear;
  st_poke := poke;
  st_rep := represents;
|}.
Next Obligation. intros. apply init_represents. Qed.
Next Obligation. intros. by apply find_lookup. Qed.
Next Obligation. intros D t m k d n Hr Hk. by destruct (insert_represents t m k d n Hr Hk) as (t' & -> & ?). Qed.
Next Obligation. intros D t m k n Hr Hk. by destruct (delete_represents mallocs_ok t m k n Hr Hk) as (t' & -> & ?). Qed.
Next Obligation. intros D t m (l & Hwf & Hm). by apply (clear_represents t l); apply Hwf. Qed.
Next Obligation. intros. by eapply poke_represents. Qed.

(** ** Theorems *)

Section theorems.
Context {D : Type}.
Implicit Types (h : sqliteHash D) (m : gmap hkey (D * Z)).

(** [sqliteHashFind] on a table that represents a map is the lookup of
    the map: the bucket walk finds exactly the elements with an equal key. *)
Theorem sqliteHashFind_refines h m k :
  represents h m → key_ok k → sqliteHashFind h k = m !! k.
Proof. apply find_lookup. Qed.

(** C25: [sqliteHashInsert] with data, when its allocations succeed, returns a
    table that represents the map with the entry added or replaced (through
    the rehashing of the table), where a replaced entry keeps its length. *)
Theorem sqliteHashInsert_refines h m k d n :
  represents h m → key_ok k →
  ∃ h', sqliteHashInsert mallocs_ok h k (Some d) n = Ret h' ∧ represents h' (put m k d n).
Proof. apply insert_represents. Qed.

(** [sqliteHashInsert] with a NULL data pointer removes the entry, and
    [sqliteHashClear] leaves the empty map and no allocated element. *)
Theorem sqliteHash_remove_clear_refine ms h m k n :
  represents h m → key_ok k →
  (∃ h', sqliteHashInsert ms h k None n = Ret h' ∧ represents h' (delete k m)) ∧
  represents (sqliteHashClear h) ∅ ∧ h_heap (sqliteHashClear h) = ∅.
Proof.
  intros Hr Hk. split; [by apply delete_represents|]. destruct Hr as (l & Hwf & Hm).
  destruct (clear_represents h l); [apply Hwf..|]. done.
Qed.

(** whatever allocations fail, inserting a key the table does not hold
    never has undefined behaviour and keeps the invariant: the entry is added
    or the map is unchanged.  For a key the table holds, a failed copy of the
    data frees an element that is still linked. *)
Theorem sqliteHashInsert_oom ms h m k d n :
  represents h m → key_ok k →
  (m !! k = None → ∃ h', sqliteHashInsert ms h k (Some d) n = Ret h' ∧
     (represents h' (<[k := (d, n)]> m) ∨ represents h' m)) ∧
  (is_Some (m !! k) → h_copyValue h = true → m_update ms = false →
     sqliteHashInsert ms h k (Some d) n = Undef UseAfterFree).
Proof.
  intros Hr Hk. pose proof (insert_cases ms h m k d n Hr Hk) as H. split.
  - intros Hn. rewrite Hn in H. naive_solver.
  - intros [[d0 n0] Hs] Hc Hm. by rewrite Hs, Hc, Hm in H.
Qed.

End theorems.

(** ** Witnesses *)

(** A table built by insertions that make it grow twice. *)
Definition ex_fill (n : Z) : sqliteHash Z :=
  foldl (λ h i, st_insert h (KInt i) (Some (i * i)) 4) (sqliteHashInit SQLITE_HASH_INT false true)
        (seqZ 0 n).
Definition ex_map (n : Z) : gmap hkey (Z * Z) :=
  foldl (λ m i, put m (KInt i) (i * i) 4) ∅ (seqZ 0 n).

Lemma ex_fill_represents n : n < 2 ^ 31 → represents (ex_fill n) (ex_map n).
Proof.
  unfold ex_fill, ex_map. intros Hn.
  assert (∀ l (h : sqliteHash Z) m, Forall (λ i, 0 ≤ i < 2 ^ 31) l → represents h m →
    represents (foldl (λ h i, st_insert h (KInt i) (Some (i * i)) 4) h l)
               (foldl (λ m i, put m (KInt i) (i * i) 4) m l)) as H.
  { induction l as [|i l IH]; intros h m Hl Hr; [done|]. simpl. inversion Hl; subst.
    apply IH; [done|]. apply (@st_put_rep _ _ (sqliteHash_store Z) h m (KInt i) (i * i) 4); [exact Hr|].
    unfold key_ok, in_sw. simpl. lia. }
  apply H, init_represents. apply list.Forall_forall. intros i. rewrite elem_of_seqZ. lia.
Qed.

Lemma sqliteHashFind_refines_witness :
  sqliteHashFind (ex_fill 20) (KInt 13) = ex_map 20 !! KInt 13 ∧
  sqliteHashFind (ex_fill 20) (KInt 13) = Some (169, 4).
Proof.
  split; [|vm_compute; reflexivity].
  apply sqliteHashFind_refines; [apply ex_fill_represents; lia|vm_compute; split; congruence].
Defined.

Lemma sqliteHashInsert_refines_witness :
  ∃ h', sqliteHashInsert mallocs_ok (ex_fill 16) (KInt 16) (Some 5) 4 = Ret h' ∧
        represents h' (put (ex_map 16) (KInt 16) 5 4).
Proof.
  apply (sqliteHashInsert_refines (ex_fill 16) (ex_map 16) (KInt 16) 5 4);
    [apply ex_fill_represents; lia|vm_compute; split; congruence].
Defined.

Lemma sqliteHash_remove_clear_witness :
  (∃ h', sqliteHashInsert mallocs_ok (ex_fill 9) (KInt 3) None 0 = Ret h' ∧
         represents h' (delete (KInt 3) (ex_map 9))) ∧
  represents (sqliteHashClear (ex_fill 9)) ∅ ∧ h_heap (sqliteHashClear (ex_fill 9)) = ∅.
Proof.
  apply (sqliteHash_remove_clear_refine mallocs_ok (ex_fill 9) (ex_map 9) (KInt 3) 0);
    [apply ex_fill_represents; lia|vm_compute; split; congruence].
Defined.

Lemma sqliteHashInsert_oom_witness :
  sqliteHashInsert (Mallocs false true true true true true) (ex_fill 9) (KInt 3) (Some 1) 4
  = Undef UseAfterFree.
Proof.
  apply (sqliteHashInsert_oom (Mallocs false true true true true true) (ex_fill 9) (ex_map 9) (KInt 3) 1 4);
    [apply ex_fill_represents; lia|vm_compute; split; congruence|vm_compute; eauto|reflexivity|reflexivity].
Defined.
