(* ===== verification/BiHash.v ===== *)
(** * The bidirectional hash table

    Models ext/security/sesqlite/sesqlite_hash.c: two tables kept as inverse
    maps.  [SESQLITE_BIHASH_INSERT] looks up the value of the key before it
    replaces it, and reads that value afterwards to remove its association;
    the tables copy their data, so the replacement has freed it. *)

From S2P Require Import Prelude CString SeHash.
#[local] Open Scope string_scope.
#[local] Open Scope Z_scope.

(** The bytes of an [int] in memory, lowest first. *)
Definition int_bytes (z : Z) : list Z :=
  [u8 z; u8 (Z.shiftr z 8); u8 (Z.shiftr z 16); u8 (Z.shiftr z 24)].

(** The keys [(&id, sizeof(int))] and [(label, -1)]. *)
Definition id_key (id : Z) : hkey := KBin (int_bytes id).
Definition label_key (s : string) : hkey := KStr s.

(** [1 + strlen], the length of a string stored with [nData < 0]. *)
Definition str_size (s : string) : Z := 1 + Z.of_nat (String.length s).

Section bihash.
Context {TK TV : Type} `{!Store TK string} `{!Store TV Z}.

Record SESQLITE_BIHASH := BiHash { key2val : TK; val2key : TV }.

(** What the code prints on stderr. *)
Inductive bihash_msg := NoError | NotInjective | NoValueSize.

Definition SESQLITE_BIHASH_INIT (keytype valtype : keyclass) (copyKey copyValue : bool)
    : SESQLITE_BIHASH :=
  BiHash (st_init keytype copyKey copyValue) (st_init valtype copyKey copyValue).

(** The association [id -> label]; both tables copy keys and data. *)
Definition SESQLITE_BIHASH_INSERT (b : SESQLITE_BIHASH) (id : Z) (label : string)
    : outcome (SESQLITE_BIHASH * bihash_msg) :=
  let old := st_find (key2val b) (id_key id) in
  let k2v := st_insert (key2val b) (id_key id) (Some label) (str_size label) in
  match old with
  | Some (_, nOld) =>
      (* the removal reads the data that the insertion has freed *)
      if nOld =? 0 then
        (* the message is printed and the new association is added *)
        match st_find (val2key b) (label_key label) with
        | Some _ => Ret (BiHash k2v (val2key b), NoValueSize)
        | None => Ret (BiHash k2v (st_insert (val2key b) (label_key label) (Some id) 4), NoValueSize)
        end
      else Undef UseAfterFree
  | None =>
      match st_find (val2key b) (label_key label) with
      | Some _ => Ret (BiHash k2v (val2key b), NotInjective)
      | None => Ret (BiHash k2v (st_insert (val2key b) (label_key label) (Some id) 4), NoError)
      end
  end.

Definition SESQLITE_BIHASH_FIND (b : SESQLITE_BIHASH) (id : Z) : option string :=
  fst <$> st_find (key2val b) (id_key id).

Definition SESQLITE_BIHASH_FINDKEY (b : SESQLITE_BIHASH) (label : string) : option Z :=
  fst <$> st_find (val2key b) (label_key label).

Definition SESQLITE_BIHASH_CLEAR (b : SESQLITE_BIHASH) : SESQLITE_BIHASH :=
  BiHash (st_clear (key2val b)) (st_clear (val2key b)).

(** ** The abstract view: a finite map from ids to labels *)

(** The two tables hold the map [ids] and its inverse. *)
Record bihash_rep (b : SESQLITE_BIHASH) (ids : gmap Z string) : Prop := {
  bh_range id l : ids !! id = Some l → in_sw 32 id;
  bh_inj id1 id2 l : ids !! id1 = Some l → ids !! id2 = Some l → id1 = id2;
  bh_k2v : ∃ m, st_rep (key2val b) m ∧
    ∀ id, in_sw 32 id → m !! id_key id = (λ l, (l, str_size l)) <$> ids !! id;
  bh_v2k : ∃ m, st_rep (val2key b) m ∧
    ∀ l id, (∃ n, m !! label_key l = Some (id, n)) ↔ ids !! id = Some l;
}.

Lemma int_bytes_inj z1 z2 :
  in_sw 32 z1 → in_sw 32 z2 → int_bytes z1 = int_bytes z2 → z1 = z2.
Proof.
  unfold in_sw, int_bytes, uw. rewrite !Z.shiftr_div_pow2 by lia. simpl.
  intros H1 H2 [= E0 E1 E2 E3]. Z.div_mod_to_equations. lia.
Qed.

Lemma id_key_inj z1 z2 : in_sw 32 z1 → in_sw 32 z2 → id_key z1 = id_key z2 → z1 = z2.
Proof. intros ?? [= E]. apply int_bytes_inj; [done..|]. unfold int_bytes. congruence. Qed.

Lemma bihash_init_rep kt vt ck cv : bihash_rep (SESQLITE_BIHASH_INIT kt vt ck cv) ∅.
Proof.
  split.
  - intros *. by rewrite lookup_empty.
  - intros *. by rewrite lookup_empty.
  - exists ∅. split; [apply st_init_rep|]. intros. by rewrite !lookup_empty.
  - exists ∅. split; [apply st_init_rep|]. intros. rewrite !lookup_empty.
    split; [by intros []|done].
Qed.

Lemma bihash_find b ids id :
  bihash_rep b ids → in_sw 32 id → SESQLITE_BIHASH_FIND b id = ids !! id.
Proof.
  intros [_ _ (m & Hm & Hids) _] Hid. unfold SESQLITE_BIHASH_FIND.
  rewrite (st_find_rep _ m) by done. rewrite Hids by done. by destruct (ids !! id).
Qed.

Lemma bihash_findkey b ids l :
  bihash_rep b ids →
  match SESQLITE_BIHASH_FINDKEY b l with
  | Some id => ids !! id = Some l
  | None => ∀ id, ids !! id ≠ Some l
  end.
Proof.
  intros [_ _ _ (m & Hm & Hids)]. unfold SESQLITE_BIHASH_FINDKEY.
  rewrite (st_find_rep _ m) by done. destruct (m !! label_key l) as [[id n]|] eqn:E; simpl.
  - apply Hids. eauto.
  - intros id Hid. apply Hids in Hid as [n Hn]. congruence.
Qed.

Lemma bihash_findkey_None b ids l :
  bihash_rep b ids → SESQLITE_BIHASH_FINDKEY b l = None → ∀ id, ids !! id ≠ Some l.
Proof. intros Hb E. pose proof (bihash_findkey b ids l Hb) as H. by rewrite E in H. Qed.

Lemma bihash_findkey_Some b ids l id :
  bihash_rep b ids → SESQLITE_BIHASH_FINDKEY b l = Some id ↔ ids !! id = Some l.
Proof.
  intros Hb. pose proof (bihash_findkey b ids l Hb) as H.
  destruct (SESQLITE_BIHASH_FINDKEY b l) as [id'|]; [|split; [done|by intros ?%H]].
  split; [by intros [= <-]|]. intros Hid. f_equal. by eapply (bh_inj _ _ Hb).
Qed.

Lemma bihash_insert_rep b ids id l :
  bihash_rep b ids → in_sw 32 id → ids !! id = None → (∀ id', ids !! id' ≠ Some l) →
  ∃ b', SESQLITE_BIHASH_INSERT b id l = Ret (b', NoError) ∧ bihash_rep b' (<[id := l]> ids).
Proof.
  intros [Hr Hi (m1 & Hm1 & H1) (m2 & Hm2 & H2)] Hid Hnew Hl.
  unfold SESQLITE_BIHASH_INSERT.
  rewrite (st_find_rep _ m1) by done. rewrite H1, Hnew by done. simpl.
  rewrite (st_find_rep _ m2) by done.
  destruct (m2 !! label_key l) as [[id' n']|] eqn:E.
  { destruct (Hl id'). apply H2. eauto. }
  eexists. split; [done|]. split; simpl.
  - intros i l'. rewrite lookup_insert. case_decide; subst; eauto.
  - intros i1 i2 l'. rewrite !lookup_insert. repeat case_decide; intros; simplify_eq; eauto.
    + by destruct (Hl i2).
    + by destruct (Hl i1).
  - exists (put m1 (id_key id) l (str_size l)). split; [by apply st_put_rep|].
    intros i Hii. unfold put. rewrite H1, Hnew by done. simpl.
    rewrite !lookup_insert. destruct (decide (id = i)) as [->|Hne].
    + by rewrite decide_True.
    + rewrite decide_False by (intros ?; by apply Hne, id_key_inj). by apply H1.
  - exists (put m2 (label_key l) id 4). split; [by apply st_put_rep|].
    intros l' i. unfold put. rewrite E. rewrite !lookup_insert.
    destruct (decide (label_key l = label_key l')) as [Hl'|Hl'].
    + injection Hl' as <-. split.
      * intros [n [= -> _]]. by rewrite decide_True.
      * case_decide; [subst; eauto|]. intros Hc. by destruct (Hl i).
    + rewrite H2. case_decide as Hii; [subst|done]. rewrite Hnew.
      split; [done|]. intros [= ->]. done.
Qed.

(** Replacing the label of a known id reads freed memory. *)
Lemma bihash_insert_known b ids id l l0 :
  bihash_rep b ids → ids !! id = Some l0 → SESQLITE_BIHASH_INSERT b id l = Undef UseAfterFree.
Proof.
  intros [Hr Hi (m1 & Hm1 & H1) _] Hid. pose proof (Hr _ _ Hid) as Hrange.
  unfold SESQLITE_BIHASH_INSERT. rewrite (st_find_rep _ m1) by done.
  rewrite H1, Hid by done. simpl. unfold str_size.
  destruct (Z.eqb_spec (1 + Z.of_nat (String.length l0)) 0); [lia|done].
Qed.

Lemma bihash_clear_rep b ids : bihash_rep b ids → bihash_rep (SESQLITE_BIHASH_CLEAR b) ∅.
Proof.
  intros [_ _ (m1 & Hm1 & _) (m2 & Hm2 & _)]. split.
  - intros *. by rewrite lookup_empty.
  - intros *. by rewrite lookup_empty.
  - exists ∅. split; [by eapply st_clear_rep|]. intros. by rewrite !lookup_empty.
  - exists ∅. split; [by eapply st_clear_rep|]. intros. rewrite !lookup_empty.
    split; [by intros []|done].
Qed.

(** ** Theorems *)

(** the two tables stay inverse of each other: after inserting a new id
    with a new label, the lookups in both directions answer for the new pair
    and are otherwise unchanged. *)
Theorem SESQLITE_BIHASH_INSERT_bijection b ids id l :
  bihash_rep b ids → in_sw 32 id → ids !! id = None → (∀ id', ids !! id' ≠ Some l) →
  ∃ b', SESQLITE_BIHASH_INSERT b id l = Ret (b', NoError) ∧
    SESQLITE_BIHASH_FIND b' id = Some l ∧ SESQLITE_BIHASH_FINDKEY b' l = Some id ∧
    (∀ i, in_sw 32 i → i ≠ id → SESQLITE_BIHASH_FIND b' i = SESQLITE_BIHASH_FIND b i) ∧
    (∀ l', l' ≠ l → SESQLITE_BIHASH_FINDKEY b' l' = SESQLITE_BIHASH_FINDKEY b l').
Proof.
  intros Hb Hid Hnew Hl.
  destruct (bihash_insert_rep b ids id l Hb Hid Hnew Hl) as (b' & -> & Hb').
  exists b'. split_and!; [done|..].
  - rewrite (bihash_find _ _ _ Hb') by done. by rewrite lookup_insert_eq.
  - apply (bihash_findkey_Some _ _ _ _ Hb'). by rewrite lookup_insert_eq.
  - intros i Hi Hne. rewrite (bihash_find _ _ _ Hb'), (bihash_find _ _ _ Hb) by done.
    by rewrite lookup_insert_ne.
  - intros l' Hne. apply option_eq. intros i.
    rewrite (bihash_findkey_Some _ _ _ _ Hb'), (bihash_findkey_Some _ _ _ _ Hb), lookup_insert.
    case_decide; [subst|done]. rewrite Hnew. split; [congruence|done].
Qed.

(** giving a known id another label is undefined: the old label is read
    after the insertion has freed it. *)
Theorem SESQLITE_BIHASH_INSERT_known b ids id l l0 :
  bihash_rep b ids → ids !! id = Some l0 → SESQLITE_BIHASH_INSERT b id l = Undef UseAfterFree.
Proof. apply bihash_insert_known. Qed.

End bihash.
Arguments SESQLITE_BIHASH : clear implicits.

(** ** Witnesses, on the tables of sesqlite_hash_impl.c *)

Definition ex_bihash : SESQLITE_BIHASH (sqliteHash string) (sqliteHash Z) :=
  SESQLITE_BIHASH_INIT SQLITE_HASH_BINARY SQLITE_HASH_STRING true true.

Lemma SESQLITE_BIHASH_INSERT_bijection_witness :
  ∃ b', SESQLITE_BIHASH_INSERT ex_bihash 1 "u:r:t:s0" = Ret (b', NoError) ∧
    SESQLITE_BIHASH_FIND b' 1 = Some "u:r:t:s0" ∧
    SESQLITE_BIHASH_FINDKEY b' "u:r:t:s0" = Some 1 ∧
    (∀ i, in_sw 32 i → i ≠ 1 → SESQLITE_BIHASH_FIND b' i = SESQLITE_BIHASH_FIND ex_bihash i) ∧
    (∀ l', l' ≠ "u:r:t:s0" → SESQLITE_BIHASH_FINDKEY b' l' = SESQLITE_BIHASH_FINDKEY ex_bihash l').
Proof.
  apply (SESQLITE_BIHASH_INSERT_bijection ex_bihash ∅ 1 "u:r:t:s0");
    [apply bihash_init_rep|vm_compute; split; congruence|reflexivity|].
  intros id'. rewrite lookup_empty. congruence.
Defined.

Lemma SESQLITE_BIHASH_INSERT_known_witness :
  ∃ b, SESQLITE_BIHASH_INSERT ex_bihash 1 "a" = Ret (b, NoError) ∧
       SESQLITE_BIHASH_INSERT b 1 "b" = Undef UseAfterFree.
Proof.
  destruct (bihash_insert_rep ex_bihash ∅ 1 "a") as (b & E & Hb);
    [apply bihash_init_rep|vm_compute; split; congruence|reflexivity| |].
  { intros id'. rewrite lookup_empty. congruence. }
  exists b. split; [exact E|].
  apply (SESQLITE_BIHASH_INSERT_known b _ 1 "b" "a" Hb). apply lookup_insert_eq.
Defined.
