(* ===== verification/Avc.v ===== *)
(** * Access vectors and their packed form

    Models the class and permission table of ext/security/sesqlite/sesqlite.h
    and the packing of an access vector into 32 bits of
    sesqlite_authorizer.h, which is the key of the access vector cache. *)

From S2P Require Import Prelude CString.
#[local] Open Scope string_scope.
#[local] Open Scope Z_scope.
#[local] Open Scope c_scope.

(** ** Classes and permissions *)

Definition SELINUX_DB_DATABASE := 0.
Definition SELINUX_DB_TABLE := 1.
Definition SELINUX_DB_COLUMN := 2.
Definition SELINUX_DB_TUPLE := 3.

Definition SELINUX_CREATE := 0.
Definition SELINUX_DROP := 1.
Definition SELINUX_GETATTR := 2.
Definition SELINUX_SETATTR := 3.
Definition SELINUX_RELABEL_FROM := 4.
Definition SELINUX_RELABEL_TO := 5.
Definition SELINUX_SELECT := 6.
Definition SELINUX_UPDATE := 7.
Definition SELINUX_INSERT := 8.
Definition SELINUX_DELETE := 9.
Definition SELINUX_ACCESS := SELINUX_SELECT.

Definition SELINUX_NELEM_CLASS := 3.
Definition SELINUX_NELEM_PERM := 10.

(** One class of [access_vector]; [perm] has 32 slots, those the initializer
    does not list are [{ NULL, 0 }]. *)
Record av_class := AvClass { c_name : string; c_code : Z; perm : list (option string * Z) }.

Definition pad32 (l : list (option string * Z)) : list (option string * Z) :=
  l ++ replicate (32 - length l) (None, 0).

Definition access_vector : list av_class := [
  AvClass "db_database" SELINUX_DB_DATABASE (pad32 [
    (Some "create", SELINUX_CREATE);
    (Some "drop", SELINUX_DROP);
    (Some "getattr", SELINUX_GETATTR);
    (Some "setattr", SELINUX_SETATTR);
    (Some "relabelfrom", SELINUX_RELABEL_FROM);
    (Some "relabelto", SELINUX_RELABEL_TO);
    (Some "access", SELINUX_ACCESS)]);
  AvClass "db_table" SELINUX_DB_TABLE (pad32 [
    (Some "create", SELINUX_CREATE);
    (Some "drop", SELINUX_DROP);
    (Some "getattr", SELINUX_GETATTR);
    (Some "setattr", SELINUX_SETATTR);
    (Some "relabelfrom", SELINUX_RELABEL_FROM);
    (Some "relabelto", SELINUX_RELABEL_TO);
    (Some "select", SELINUX_SELECT);
    (Some "update", SELINUX_UPDATE);
    (Some "insert", SELINUX_INSERT);
    (Some "delete", SELINUX_DELETE)]);
  AvClass "db_column" SELINUX_DB_COLUMN (pad32 [
    (Some "create", SELINUX_CREATE);
    (Some "drop", SELINUX_DROP);
    (Some "getattr", SELINUX_GETATTR);
    (Some "setattr", SELINUX_SETATTR);
    (Some "relabelfrom", SELINUX_RELABEL_FROM);
    (Some "relabelto", SELINUX_RELABEL_TO);
    (Some "select", SELINUX_SELECT);
    (Some "update", SELINUX_UPDATE);
    (Some "insert", SELINUX_INSERT)]);
  AvClass "db_tuple" SELINUX_DB_TUPLE (pad32 [
    (Some "relabelfrom", SELINUX_RELABEL_FROM);
    (Some "relabelto", SELINUX_RELABEL_TO);
    (Some "select", SELINUX_SELECT);
    (Some "update", SELINUX_UPDATE);
    (Some "insert", SELINUX_INSERT);
    (Some "delete", SELINUX_DELETE)])
].

(** [access_vector[tclass]] and [access_vector[tclass].perm[perm]]. *)
Definition av_class_at (tclass : Z) : outcome av_class :=
  match zlookup access_vector tclass with Some c => Ret c | None => Undef OutOfBounds end.
Definition av_perm_at (c : av_class) (p : Z) : outcome (option string * Z) :=
  match zlookup (perm c) p with Some x => Ret x | None => Undef OutOfBounds end.

(** ** Packing *)

Definition SOURCE_MASK := 0xfff00000.
Definition TARGET_MASK := 0xfff00.
Definition CLASS_MASK := 0xe0.
Definition PERM_MASK := 0xf1.
Definition SOURCE_SHIFT := 20.
Definition TARGET_SHIFT := 8.
Definition CLASS_SHIFT := 5.
Definition PERM_SHIFT := 0.

(** The parameters are converted to [unsigned short] and [unsigned char], the
    sum to [unsigned int]. *)
Definition compress (source target tclass perm : Z) : Z :=
  u32 ((u8 perm .<< PERM_SHIFT) + (u8 tclass .<< CLASS_SHIFT)
       + (u16 target .<< TARGET_SHIFT) + (u16 source .<< SOURCE_SHIFT)).

Record av_fields := AvFields { av_source : Z; av_target : Z; av_tclass : Z; av_perm : Z }.

Definition decompress (data : Z) : av_fields :=
  AvFields (u16 ((data .& SOURCE_MASK) .>> SOURCE_SHIFT))
           (u16 ((data .& TARGET_MASK) .>> TARGET_SHIFT))
           (u8 ((data .& CLASS_MASK) .>> CLASS_SHIFT))
           (u8 ((data .& PERM_MASK) .>> PERM_SHIFT)).

(** ** Lemmas *)

(** The fields that fit the layout: 12, 12, 3 and 5 bits. *)
Definition av_fits (source target tclass perm : Z) : Prop :=
  0 ≤ source < 4096 ∧ 0 ≤ target < 4096 ∧ 0 ≤ tclass < 8 ∧ 0 ≤ perm < 32.

Lemma compress_fits s t c p :
  av_fits s t c p → compress s t c p = p + 32 * c + 256 * t + 1048576 * s.
Proof.
  intros (? & ? & ? & ?). unfold compress, SOURCE_SHIFT, TARGET_SHIFT, CLASS_SHIFT, PERM_SHIFT.
  rewrite (uw_small 8 p), (uw_small 8 c), (uw_small 16 t), (uw_small 16 s) by (unfold in_uw; lia).
  rewrite !Z.shiftl_mul_pow2 by lia. change (2 ^ 0) with 1. change (2 ^ 5) with 32.
  change (2 ^ 8) with 256. change (2 ^ 20) with 1048576. rewrite uw_small; [lia|].
  unfold in_uw. change (2 ^ 32) with 4294967296. lia.
Qed.

(** A contiguous mask followed by its shift is a quotient and a remainder. *)
Lemma mask_shift data w k m :
  0 ≤ k → 0 ≤ w → m = Z.shiftl (Z.ones w) k →
  (data .& m) .>> k = (data / 2 ^ k) `mod` 2 ^ w.
Proof.
  intros Hk Hw ->. rewrite Z.shiftr_land, Z.shiftr_shiftl_l, Z.sub_diag, Z.shiftl_0_r by lia.
  by rewrite Z.land_ones, Z.shiftr_div_pow2 by lia.
Qed.

Lemma compress_inj s1 t1 c1 p1 s2 t2 c2 p2 :
  av_fits s1 t1 c1 p1 → av_fits s2 t2 c2 p2 →
  compress s1 t1 c1 p1 = compress s2 t2 c2 p2 → s1 = s2 ∧ t1 = t2 ∧ c1 = c2 ∧ p1 = p2.
Proof.
  intros H1 H2. rewrite !compress_fits by done.
  destruct H1 as (?&?&?&?), H2 as (?&?&?&?). lia.
Qed.

(** The key as the [int] the cache table receives. *)
Lemma compress_key_inj s1 t1 c1 p1 s2 t2 c2 p2 :
  av_fits s1 t1 c1 p1 → av_fits s2 t2 c2 p2 →
  i32 (compress s1 t1 c1 p1) = i32 (compress s2 t2 c2 p2) →
  s1 = s2 ∧ t1 = t2 ∧ c1 = c2 ∧ p1 = p2.
Proof.
  intros H1 H2 E. apply compress_inj; [done..|].
  assert (∀ s t c p, in_uw 32 (compress s t c p)) as Hr.
  { intros. by apply uw_range. }
  pose proof (Hr s1 t1 c1 p1). pose proof (Hr s2 t2 c2 p2). unfold sw, in_uw in *.
  simpl in *. Z.div_mod_to_equations. lia.
Qed.

Lemma av_codes i c j nm code :
  zlookup access_vector i = Some c → zlookup (perm c) j = Some (Some nm, code) →
  c_code c = i ∧ 0 ≤ i < 8 ∧ 0 ≤ code < 32 ∧ (i ≠ SELINUX_DB_TUPLE → code = j).
Proof.
  intros Hc Hp.
  assert (all_idx (λ i c, all_idx (λ j x, match x with (None, _) => true | (Some _, code) =>
    (c_code c =? i) && (0 <=? i) && (i <? 8) && (0 <=? code) && (code <? 32)
    && ((i =? SELINUX_DB_TUPLE) || (code =? j)) end) 0 (perm c)) 0 access_vector = true) as Hall
    by reflexivity.
  pose proof (all_idx_lookup _ _ _ _ _ (all_idx_lookup _ _ _ _ _ Hall Hc) Hp) as Hchk.
  simpl in Hchk. rewrite !Z.add_0_l in Hchk. b2p. split_and!; try done.
  intros Hi. destruct (Z.eqb_spec i SELINUX_DB_TUPLE); [done|]. simpl in *. b2p. done.
Qed.

(** Within a class the code of a permission determines its name. *)
Lemma av_name_unique i c j j' nm nm' code :
  zlookup access_vector i = Some c → zlookup (perm c) j = Some (Some nm, code) →
  zlookup (perm c) j' = Some (Some nm', code) → nm = nm'.
Proof.
  intros Hc Hj Hj'.
  assert (all_idx (λ _ c, all_idx (λ _ x, all_idx (λ _ y,
    match x, y with
    | (Some a, ca), (Some b, cb) => negb (ca =? cb) || String.eqb a b
    | _, _ => true
    end) 0 (perm c)) 0 (perm c)) 0 access_vector = true) as Hall by reflexivity.
  pose proof (all_idx_lookup _ _ _ _ _ (all_idx_lookup _ _ _ _ _ (all_idx_lookup _ _ _ _ _ Hall Hc) Hj) Hj')
    as Hchk. cbn in Hchk. rewrite Z.eqb_refl in Hchk. by apply String.eqb_eq in Hchk.
Qed.

(** ** Theorems *)

(** access vectors whose source and target ids have at most 12 bits, class
    3 bits and permission 5 bits have different cache keys. *)
Theorem compress_injective s1 t1 c1 p1 s2 t2 c2 p2 :
  av_fits s1 t1 c1 p1 → av_fits s2 t2 c2 p2 →
  i32 (compress s1 t1 c1 p1) = i32 (compress s2 t2 c2 p2) →
  s1 = s2 ∧ t1 = t2 ∧ c1 = c2 ∧ p1 = p2.
Proof. apply compress_key_inj. Qed.

(** [decompress] recovers the source, target and class that [compress]
    packed, but the permission it returns is the low byte masked with 0xf1,
    which mixes the class into it and drops three of the five bits. *)
Theorem decompress_compress s t c p :
  av_fits s t c p →
  decompress (compress s t c p) = AvFields s t c (Z.land (p + 32 * c) 0xf1).
Proof.
  intros Hf. rewrite compress_fits by done. destruct Hf as (Hs & Ht & Hc & Hp).
  unfold decompress, SOURCE_SHIFT, TARGET_SHIFT, CLASS_SHIFT, PERM_SHIFT.
  rewrite (mask_shift _ 12 20 SOURCE_MASK) by (lia || reflexivity).
  rewrite (mask_shift _ 12 8 TARGET_MASK) by (lia || reflexivity).
  rewrite (mask_shift _ 3 5 CLASS_MASK) by (lia || reflexivity).
  rewrite Z.shiftr_0_r. f_equal.
  - rewrite uw_small; unfold in_uw; Z.div_mod_to_equations; lia.
  - rewrite uw_small; unfold in_uw; Z.div_mod_to_equations; lia.
  - rewrite uw_small; unfold in_uw; Z.div_mod_to_equations; lia.
  - replace PERM_MASK with (Z.land (Z.ones 8) 0xf1) by reflexivity.
    rewrite Z.land_assoc, Z.land_ones by lia.
    replace ((p + 32 * c + 256 * t + 1048576 * s) `mod` 2 ^ 8) with (p + 32 * c)
      by (Z.div_mod_to_equations; lia).
    apply uw_small. unfold in_uw. split; [apply Z.land_nonneg; lia|].
    apply Z.log2_lt_cancel. eapply Z.le_lt_trans; [apply Z.log2_land; lia|].
    change (Z.log2 (2 ^ 8)) with 8. apply Z.min_lt_iff. right. reflexivity.
Qed.

(** the ids are not limited to 12 bits: a target id of 4096 or more packs
    to the key of another source, so the cache confuses two subjects. *)
Theorem compress_collision s t c p :
  av_fits s t c p → av_fits (s + 1) t c p → compress s (t + 4096) c p = compress (s + 1) t c p.
Proof.
  intros H1 H2. rewrite (compress_fits (s + 1)) by done. destruct H1 as (?&?&?&?), H2 as (?&?&?&?).
  unfold compress, SOURCE_SHIFT, TARGET_SHIFT, CLASS_SHIFT, PERM_SHIFT.
  rewrite (uw_small 8 p), (uw_small 8 c), (uw_small 16 (t + 4096)), (uw_small 16 s)
    by (unfold in_uw; lia).
  rewrite !Z.shiftl_mul_pow2 by lia. change (2 ^ 0) with 1. change (2 ^ 5) with 32.
  change (2 ^ 8) with 256. change (2 ^ 20) with 1048576. rewrite uw_small; [lia|].
  unfold in_uw. change (2 ^ 32) with 4294967296. lia.
Qed.

(** the table is consistent with the packing: class [i] has code [i], the
    codes fit their fields, and for the classes the authorizer uses
    (database, table, column) permission [j] is at index [j]. *)
Theorem access_vector_codes i c j nm code :
  zlookup access_vector i = Some c → zlookup (perm c) j = Some (Some nm, code) →
  c_code c = i ∧ 0 ≤ i < 8 ∧ 0 ≤ code < 32 ∧ (i ≠ SELINUX_DB_TUPLE → code = j).
Proof. apply av_codes. Qed.

(** ** Witnesses *)

Lemma compress_injective_witness :
  i32 (compress 1 2 1 6) = i32 (compress 1 2 1 6) ∧ (1 = 1 ∧ 2 = 2 ∧ 1 = 1 ∧ 6 = 6).
Proof.
  split; [reflexivity|].
  apply (compress_injective 1 2 1 6 1 2 1 6); [unfold av_fits; lia|unfold av_fits; lia|reflexivity].
Defined.

Lemma decompress_compress_witness :
  decompress (compress 3 17 1 6) = AvFields 3 17 1 32.
Proof. apply (decompress_compress 3 17 1 6). unfold av_fits. lia. Defined.

Lemma compress_collision_witness : compress 1 (0 + 4096) 1 0 = compress (1 + 1) 0 1 0.
Proof. apply (compress_collision 1 0 1 0); unfold av_fits; lia. Defined.

Lemma access_vector_codes_witness :
  ∃ c, zlookup access_vector 2 = Some c ∧ zlookup (perm c) 7 = Some (Some "update", 7) ∧
       (c_code c = 2 ∧ 0 ≤ 2 < 8 ∧ 0 ≤ 7 < 32 ∧ (2 ≠ SELINUX_DB_TUPLE → 7 = 7)).
Proof.
  eexists. split; [reflexivity|]. split; [reflexivity|].
  apply (access_vector_codes 2 _ 7 "update" 7); reflexivity.
Defined.
