(* ===== verification/ContextFile.v ===== *)
(** * The sesqlite_contexts file

    Models ext/security/sesqlite/sesqlite_contexts.c up to the scan of the
    schema: the element lists, their sorted insertion, the parser of the
    configuration file and the filter of the reload, and
    [compute_sql_context] of sesqlite_compute_label.c, which picks the label
    of an object.  The SELinux library calls are parameters. *)

From S2P Require Import Prelude CString.
From Stdlib Require Import Ascii Sorted.
#[local] Open Scope string_scope.
#[local] Open Scope Z_scope.
#[local] Open Scope list_scope.

Record sesqlite_context_element := CtxElem {
  origin : string;
  fparam : string;
  sparam : string;
  tparam : option string;
  security_context : string;
}.

Record sesqlite_context := Ctx {
  db_context : list sesqlite_context_element;
  table_context : list sesqlite_context_element;
  view_context : list sesqlite_context_element;
  column_context : list sesqlite_context_element;
  tuple_context : list sesqlite_context_element;
}.

(** The linked list of elements is a list, its head the first element; the
    loop walks while the next origin is greater than the new one. *)
Fixpoint insert_walk (new_node current : sesqlite_context_element)
    (rest : list sesqlite_context_element) : list sesqlite_context_element :=
  match rest with
  | next :: rest' =>
      if 0 <? strcasecmp (origin next) (origin new_node)
      then current :: insert_walk new_node next rest'
      else current :: new_node :: rest
  | [] => [current; new_node]
  end.

Definition sorted_insert (head_ref : list sesqlite_context_element)
    (new_node : sesqlite_context_element) : list sesqlite_context_element :=
  match head_ref with
  | [] => [new_node]
  | head :: rest =>
      if strcasecmp (origin head) (origin new_node) <=? 0 then new_node :: head_ref
      else insert_walk new_node head rest
  end.

(** ** The parser *)

(** [fgets(line, n, fp)]: at most [n - 1] characters, up to a newline. *)
Fixpoint fgets_take (n : nat) (s : string) : string * string :=
  match n, s with
  | S n', String c s' =>
      if Ascii.eqb c (ascii_of_nat 10) then (String c "", s')
      else let '(l, r) := fgets_take n' s' in (String c l, r)
  | _, _ => ("", s)
  end.

Definition line_max : nat := 253.  (* sizeof line - 1, minus the terminator *)

(** The final newline of the line is cut. *)
Fixpoint chomp (s : string) : string :=
  match s with
  | EmptyString => ""
  | String c "" => if Ascii.eqb c (ascii_of_nat 10) then "" else s
  | String c s' => String c (chomp s')
  end.

Definition blank : string := String " " (String (ascii_of_nat 9) "").

(** The parts of a dotted name: [strtok_r(token, ".", &srest)] repeated.  With
    a NULL token the first call reads the saved pointer of another line, or
    NULL. *)
Definition dotted2 (token : option string) : outcome (option string * option string) :=
  match token with
  | None => Undef NullDeref
  | Some t =>
      let '(f, srest) := strtok_r t "." in
      let '(s, _) := strtok_r srest "." in
      Ret (f, s)
  end.

Definition dotted3 (token : option string)
    : outcome (option string * option string * option string) :=
  match token with
  | None => Undef NullDeref
  | Some t =>
      let '(f, srest) := strtok_r t "." in
      let '(s, srest) := strtok_r srest "." in
      let '(th, _) := strtok_r srest "." in
      Ret (f, s, th)
  end.

(** The name and the label that follow the class on a line. *)
Definition name_and_label (rest : string) : option string * option string :=
  let '(token, rest) := strtok_r rest blank in
  let '(con, _) := strtok_r rest blank in
  (token, con).

Definition elem_db (rest : string) : outcome sesqlite_context_element :=
  let '(token, con) := name_and_label rest in
  Ret (CtxElem (fmt_s token) (fmt_s token) (fmt_s token) (Some (fmt_s token)) (fmt_s con)).

Definition elem2 (rest : string) : outcome sesqlite_context_element :=
  let '(token, con) := name_and_label rest in
  '(f, s) ← dotted2 token;
  Ret (CtxElem (fmt_s token) (fmt_s f) (fmt_s s) None (fmt_s con)).

Definition elem3 (rest : string) : outcome sesqlite_context_element :=
  let '(token, con) := name_and_label rest in
  '(f, s, t) ← dotted3 token;
  Ret (CtxElem (fmt_s token) (fmt_s f) (fmt_s s) (Some (fmt_s t)) (fmt_s con)).

(** One line of the file, [None] when it cannot be parsed; an unknown class is
    reported and skipped. *)
Definition parse_line (sc : sesqlite_context) (line : string)
    : outcome (option sesqlite_context) :=
  let p := skip_space (chomp line) in
  match p with
  | EmptyString => Ret (Some sc)
  | String c _ =>
      if Ascii.eqb c "#" then Ret (Some sc)
      else
        let '(token, rest) := strtok_r p blank in
        match token with
        | None => Ret None
        | Some token =>
            if strcasecmp token "db_database" =? 0 then
              e ← elem_db rest;
              Ret (Some (Ctx (sorted_insert (db_context sc) e) (table_context sc)
                             (view_context sc) (column_context sc) (tuple_context sc)))
            else if strcasecmp token "db_table" =? 0 then
              e ← elem2 rest;
              Ret (Some (Ctx (db_context sc) (sorted_insert (table_context sc) e)
                             (view_context sc) (column_context sc) (tuple_context sc)))
            else if strcasecmp token "db_view" =? 0 then
              e ← elem2 rest;
              Ret (Some (Ctx (db_context sc) (table_context sc)
                             (sorted_insert (view_context sc) e) (column_context sc) (tuple_context sc)))
            else if strcasecmp token "db_column" =? 0 then
              e ← elem3 rest;
              Ret (Some (Ctx (db_context sc) (table_context sc) (view_context sc)
                             (sorted_insert (column_context sc) e) (tuple_context sc)))
            else if strcasecmp token "db_tuple" =? 0 then
              e ← elem2 rest;
              Ret (Some (Ctx (db_context sc) (table_context sc) (view_context sc)
                             (column_context sc) (sorted_insert (tuple_context sc) e)))
            else Ret (Some sc)
        end
  end.

(** The loop over the lines; [fuel] bounds the number of [fgets] calls. *)
Fixpoint read_loop (fuel : nat) (sc : sesqlite_context) (file : string)
    : outcome (option sesqlite_context) :=
  match file, fuel with
  | EmptyString, _ | _, O => Ret (Some sc)
  | _, S fuel' =>
      let '(line, rest) := fgets_take line_max file in
      r ← parse_line sc line;
      match r with
      | Some sc => read_loop fuel' sc rest
      | None => Ret None
      end
  end.

(** [read_sesqlite_context]; [None] is a file that cannot be opened, for which
    the result is NULL. *)
Definition read_sesqlite_context (file : option string) : outcome (option sesqlite_context) :=
  match file with
  | None => Ret None
  | Some contents => read_loop (String.length contents) (Ctx [] [] [] [] []) contents
  end.

(** ** The filter of the reload *)

Definition filter_accepts (filter : option string) (name : string) : bool :=
  match filter with
  | None => false
  | Some f =>
      let wildcard := strcspn f "*" in
      if wildcard =? Z.of_nat (String.length f) then sqlite3_stricmp f name =? 0
      else sqlite3_strnicmp f name wildcard =? 0
  end.

(** ** The label of an object *)

(** Whether the element at [p] ends the search of [compute_sql_context]. *)
Definition elem_matches (isColumn : bool) (dbName : string) (tblName colName : option string)
    (p : sesqlite_context_element) : outcome bool :=
  if (strcasecmp dbName (fparam p) =? 0) || strcmp_eq (fparam p) "*" then
    match tblName with
    | None => Ret true
    | Some tbl =>
        if (strcasecmp tbl (sparam p) =? 0) || strcmp_eq (sparam p) "*" then
          if isColumn then
            col ← deref colName;
            t ← deref (tparam p);
            Ret ((strcasecmp col t =? 0) || strcmp_eq t "*")
          else Ret true
        else Ret false
    end
  else Ret false.

Fixpoint first_match (isColumn : bool) (dbName : string) (tblName colName : option string)
    (con : list sesqlite_context_element) : outcome (option sesqlite_context_element) :=
  match con with
  | [] => Ret None
  | p :: con' =>
      b ← elem_matches isColumn dbName tblName colName p;
      if (b : bool) then Ret (Some p) else first_match isColumn dbName tblName colName con'
  end.

Section selinux_default.
(** [getcon] and [security_compute_create_raw] of libselinux. *)
Variable getcon : option string.
Variable security_compute_create_raw : option string → option string → Z → option string.

(** [compute_sql_context]: the string stored through [res], [None] when it is
    left NULL. *)
Definition compute_sql_context (isColumn : bool) (dbName tblName colName : option string)
    (con : list sesqlite_context_element) : outcome (option string) :=
  match con with
  | [] => Ret (security_compute_create_raw getcon getcon 4)
  | _ =>
      db ← deref dbName;
      r ← first_match isColumn db tblName colName con;
      match r with
      | Some p => Ret (Some (security_context p))
      | None => Ret (security_compute_create_raw getcon getcon 4)
      end
  end.
End selinux_default.

(** ** Lemmas *)

(** Origins in decreasing order. *)
Definition origin_ge (a b : sesqlite_context_element) : Prop :=
  strcasecmp (origin b) (origin a) ≤ 0.

Lemma insert_walk_sorted new cur rest :
  0 < strcasecmp (origin cur) (origin new) → Sorted origin_ge (cur :: rest) →
  Sorted origin_ge (insert_walk new cur rest) ∧ ∃ tl, insert_walk new cur rest = cur :: tl.
Proof.
  revert cur. induction rest as [|nx rest IH]; intros cur Hc Hs; simpl.
  - split; [|eauto]. constructor; [by repeat constructor|]. constructor.
    unfold origin_ge. rewrite strcasecmp_opp. lia.
  - inversion_clear Hs as [|? ? Hs' Hr]. inversion_clear Hr as [|? ? Hge].
    destruct (Z.ltb_spec 0 (strcasecmp (origin nx) (origin new))) as [Hlt|Hge'].
    + destruct (IH nx Hlt Hs') as [Hs2 [tl E]]. split; [|eauto].
      constructor; [done|]. rewrite E. by constructor.
    + split; [|eauto]. constructor; [constructor; [done|]|]; constructor; unfold origin_ge in *;
        rewrite ?(strcasecmp_opp (origin cur)); try lia.
Qed.

Lemma sorted_insert_sorted l new :
  Sorted origin_ge l → Sorted origin_ge (sorted_insert l new).
Proof.
  destruct l as [|hd l]; simpl; [by repeat constructor|]. intros Hs.
  destruct (Z.leb_spec (strcasecmp (origin hd) (origin new)) 0).
  - constructor; [done|]. by constructor.
  - by apply insert_walk_sorted.
Qed.

Lemma insert_walk_perm new cur rest : insert_walk new cur rest ≡ₚ new :: cur :: rest.
Proof.
  revert cur. induction rest as [|nx rest IH]; intros cur; simpl; [constructor|].
  case_match; [rewrite IH; constructor|]. constructor.
Qed.

Lemma sorted_insert_perm l new : sorted_insert l new ≡ₚ new :: l.
Proof. destruct l; simpl; [done|]. case_match; [done|]. apply insert_walk_perm. Qed.

Definition ctx_sorted (sc : sesqlite_context) : Prop :=
  Sorted origin_ge (db_context sc) ∧ Sorted origin_ge (table_context sc) ∧
  Sorted origin_ge (view_context sc) ∧ Sorted origin_ge (column_context sc) ∧
  Sorted origin_ge (tuple_context sc).

#[export] Hint Resolve sorted_insert_sorted : sesq.

Lemma parse_line_sorted sc line sc' :
  ctx_sorted sc → parse_line sc line = Ret (Some sc') → ctx_sorted sc'.
Proof.
  intros (H1 & H2 & H3 & H4 & H5). unfold parse_line. intros E.
  repeat case_match; simplify_eq; try done; apply outcome_bind_Ret in E as (e & _ & [= <-]);
    unfold ctx_sorted; simpl; auto 10 with sesq.
Qed.

Lemma read_loop_sorted fuel sc file sc' :
  ctx_sorted sc → read_loop fuel sc file = Ret (Some sc') → ctx_sorted sc'.
Proof.
  revert sc file. induction fuel as [|fuel IH]; intros sc file Hs; cbn [read_loop].
  - by destruct file; intros [= <-].
  - destruct file as [|c f]; [by intros [= <-]|].
    destruct (fgets_take line_max _) as [line rest]. intros E.
    apply outcome_bind_Ret in E as ([sc1|] & E1 & E2); [|done].
    eapply IH; [|done]. by eapply parse_line_sorted.
Qed.

(** Every call of [fgets] consumes a character, so the number of characters
    bounds the number of iterations. *)
Lemma fgets_take_length n s l r :
  fgets_take n s = (l, r) → (String.length l + String.length r = String.length s)%nat.
Proof.
  revert s l r. induction n as [|n IH]; intros s l r; simpl; [by intros [= <- <-]|].
  destruct s as [|c s]; [by intros [= <- <-]|]. case_match; [by intros [= <- <-]|].
  destruct (fgets_take n s) as [l' r'] eqn:E. intros [= <- <-]. simpl. rewrite <- (IH s l' r'); done.
Qed.

Lemma fgets_take_progress n s l r :
  n ≠ 0%nat → s ≠ "" → fgets_take n s = (l, r) → (String.length r < String.length s)%nat.
Proof.
  destruct n as [|n]; [done|]. destruct s as [|c s]; [done|]. intros _ _ E.
  pose proof (fgets_take_length _ _ _ _ E) as Hl. simpl in E. revert E.
  case_match; [intros [= <- <-]; simpl in *; lia|].
  destruct (fgets_take n s). intros [= <- <-]. simpl in *. lia.
Qed.

Lemma read_loop_fuel fuel1 fuel2 sc file :
  (String.length file ≤ fuel1)%nat → (String.length file ≤ fuel2)%nat →
  read_loop fuel1 sc file = read_loop fuel2 sc file.
Proof.
  revert fuel2 sc file. induction fuel1 as [|f1 IH]; intros [|f2] sc [|c file] H1 H2;
    simpl in H1, H2; try lia; try done.
  cbn [read_loop]. destruct (fgets_take line_max (String c file)) as [line rest] eqn:E.
  apply fgets_take_progress in E; [|done..]. simpl in E.
  destruct (parse_line sc line) as [[sc'|]|]; simpl; [|done..]. apply IH; lia.
Qed.

(** ** The order of the origins and the search *)

Lemma lower_app a b : lower (a +:+ b) = lower a ++ lower b.
Proof. induction a as [|c a IH]; simpl; [done|]. by rewrite IH. Qed.

Lemma no_nul_app a b : no_nul (a +:+ b) = no_nul a && no_nul b.
Proof. induction a as [|c a IH]; simpl; [done|]. by rewrite IH, andb_assoc. Qed.

Lemma strcasecmp_app a b x y :
  lower a = lower b → strcasecmp (a +:+ x) (b +:+ y) = strcasecmp x y.
Proof.
  revert b. induction a as [|c a IH]; intros [|d b]; simpl; try done.
  intros [= E1 E2]. rewrite E1, Z.eqb_refl. by apply IH.
Qed.

Lemma append_nil_r s : s +:+ "" = s.
Proof. induction s as [|c s IH]; [done|]. by change (String c (s +:+ "") = String c s); rewrite IH. Qed.

(** A name whose first character is after the wildcard in the order. *)
Definition above_star (s : string) : bool := 42 <? tolower (hd0 s).

Lemma above_star_lower a b : lower a = lower b → above_star a = above_star b.
Proof. destruct a, b; simpl; [done..|]. unfold above_star. simpl. by intros [= -> _]. Qed.

Lemma strcasecmp_star a x y : above_star a = true → 0 < strcasecmp (a +:+ x) ("*" +:+ y).
Proof.
  destruct a as [|c a]; unfold above_star; [done|]. intros H. b2p.
  change (42 < tolower (code c)) in H.
  change (0 < (if tolower (code c) =? 42 then
                 strcasecmp (a +:+ x) y
               else tolower (code c) - 42)).
  destruct (Z.eqb_spec (tolower (code c)) 42); lia.
Qed.

Lemma origin_ge_trans_sorted l :
  Forall (λ e, no_nul (origin e) = true) l → Sorted origin_ge l → StronglySorted origin_ge l.
Proof.
  intros Hn Hs. induction Hs as [|a l Hs IH Hr]; constructor; inversion_clear Hn as [|? ? Ha Hl].
  - by apply IH.
  - destruct l as [|b l]; constructor.
    + by inversion_clear Hr.
    + specialize (IH Hl). inversion_clear IH as [|? ? _ Hb]. inversion_clear Hr as [|? ? Hab].
      inversion_clear Hl as [|? ? Hnb Hnl].
      rewrite list.Forall_forall in Hb, Hnl |- *. intros c Hc.
      unfold origin_ge in *. eapply (strcasecmp_trans _ (origin b)); eauto.
Qed.

Lemma sorted_after l1 p l2 q :
  StronglySorted origin_ge (l1 ++ p :: l2) → q ∈ l2 → origin_ge p q.
Proof.
  induction l1 as [|a l1 IH]; simpl; intros Hs Hq; inversion_clear Hs as [|? ? Hs' Hall].
  - rewrite list.Forall_forall in Hall. auto.
  - auto.
Qed.

(** The element found is the first that matches. *)
Lemma first_match_split isC db tbl col l p :
  first_match isC db tbl col l = Ret (Some p) →
  ∃ l1 l2, l = l1 ++ p :: l2 ∧ elem_matches isC db tbl col p = Ret true ∧
    Forall (λ e, elem_matches isC db tbl col e = Ret false) l1.
Proof.
  induction l as [|e l IH]; simpl; [done|]. intros H.
  apply outcome_bind_Ret in H as ([] & Hm & H).
  - injection H as <-. exists [], l. split_and!; [done..|constructor].
  - destruct (IH H) as (l1 & l2 & -> & Hp & Hl1). exists (e :: l1), l2.
    split_and!; [done..|by constructor].
Qed.

(** The label is that of the element found. *)
Lemma compute_sql_context_found getcon create isC db tbl col con p :
  first_match isC db tbl col con = Ret (Some p) →
  compute_sql_context getcon create isC (Some db) tbl col con = Ret (Some (security_context p)).
Proof.
  intros H. unfold compute_sql_context. destruct con as [|e con]; [done|].
  simpl deref. unfold mbind, outcome_bind at 1. by rewrite H.
Qed.

(** A label comes from the list or from the library. *)
Lemma compute_sql_context_source getcon create isC db tbl col con l :
  compute_sql_context getcon create isC db tbl col con = Ret (Some l) →
  (∃ e, e ∈ con ∧ security_context e = l) ∨ create getcon getcon 4 = Some l.
Proof.
  unfold compute_sql_context. destruct con as [|e con]; [intros [= ->]; by right|].
  destruct db as [db|]; [|done]. simpl deref. unfold mbind, outcome_bind at 1.
  destruct (first_match isC db tbl col (e :: con)) as [[p|]|] eqn:E; simpl; [| |done].
  - intros [= <-]. left. destruct (first_match_split _ _ _ _ _ _ E) as (l1 & l2 & Hl & _).
    exists p. split; [rewrite Hl; set_solver|done].
  - intros [= ->]. by right.
Qed.

(** A search where every element can be examined and one matches succeeds. *)
Lemma first_match_total isC db tbl col l e :
  Forall (λ e, ∃ b, elem_matches isC db tbl col e = Ret b) l →
  e ∈ l → elem_matches isC db tbl col e = Ret true →
  ∃ p, first_match isC db tbl col l = Ret (Some p).
Proof.
  induction 1 as [|e' l [b Hb] Hl IH]; [by intros ?%elem_of_nil|]. intros Hin He. simpl. rewrite Hb.
  destruct b; simpl; [eauto|]. apply IH; [|done].
  apply elem_of_cons in Hin as [->|?]; [congruence|done].
Qed.

Definition is_star (s : string) : bool := strcmp_eq s "*".

(** The lists have an entry for every object. *)
Definition ctx_total (sc : sesqlite_context) : bool :=
  existsb (λ e, is_star (fparam e)) (db_context sc) &&
  existsb (λ e, is_star (fparam e) && is_star (sparam e)) (table_context sc) &&
  existsb (λ e, is_star (fparam e) && is_star (sparam e) && bool_decide (tparam e = Some "*"))
    (column_context sc) &&
  forallb (λ e, bool_decide (is_Some (tparam e))) (column_context sc) &&
  existsb (λ e, is_star (fparam e) && is_star (sparam e)) (tuple_context sc).

Lemma existsb_elem {A} (f : A → bool) l : existsb f l = true → ∃ x, x ∈ l ∧ f x = true.
Proof. intros (x & Hin & Hx)%existsb_exists. exists x. by rewrite list_elem_of_In. Qed.

Lemma elem_matches_noncol db tbl e : ∃ b, elem_matches false db tbl None e = Ret b.
Proof. unfold elem_matches. repeat case_match; eauto. Qed.

Lemma first_match_star2 db tbl l :
  existsb (λ e, is_star (fparam e) && is_star (sparam e)) l = true →
  ∃ p, first_match false db tbl None l = Ret (Some p).
Proof.
  intros (e & Hin & H)%existsb_elem. b2p. eapply first_match_total; [|done|].
  - apply list.Forall_true. intros. apply elem_matches_noncol.
  - unfold elem_matches, is_star in *. destruct tbl; by rewrite H, ?H0, !orb_true_r.
Qed.

Lemma first_match_star1 db l :
  existsb (λ e, is_star (fparam e)) l = true →
  ∃ p, first_match false db None None l = Ret (Some p).
Proof.
  intros (e & Hin & H)%existsb_elem. eapply first_match_total; [|done|].
  - apply list.Forall_true. intros. apply elem_matches_noncol.
  - unfold elem_matches, is_star in *. by rewrite H, !orb_true_r.
Qed.

Lemma first_match_star3 db tbl col l :
  existsb (λ e, is_star (fparam e) && is_star (sparam e) && bool_decide (tparam e = Some "*")) l = true →
  forallb (λ e, bool_decide (is_Some (tparam e))) l = true →
  ∃ p, first_match true db (Some tbl) (Some col) l = Ret (Some p).
Proof.
  intros (e & Hin & H)%existsb_elem Hall. b2p. eapply first_match_total; [|done|].
  - rewrite list.Forall_forall. intros e' He'.
    rewrite forallb_forall in Hall. rewrite list_elem_of_In in He'. specialize (Hall _ He').
    b2p. destruct Hall as [t Ht]. unfold elem_matches. rewrite Ht. simpl. repeat case_match; eauto.
  - unfold elem_matches, is_star in *. rewrite H, H1, H0, !orb_true_r. simpl. by rewrite orb_true_r.
Qed.

(** The parameters of an element of a two-part list. *)
Definition elem2_ok (e : sesqlite_context_element) : Prop :=
  origin e = fparam e +:+ "." +:+ sparam e ∧ no_nul (origin e) = true.

Lemma strcasecmp_zero_lower a b :
  no_nul a = true → no_nul b = true → (strcasecmp a b =? 0) = true → lower b = lower a.
Proof. intros ?? H. b2p. symmetry. by apply strcasecmp_eq. Qed.

(** A parameter that matches a name is the wildcard or the name. *)
Lemma param_cases name f :
  no_nul name = true → no_nul f = true →
  (strcasecmp name f =? 0) || strcmp_eq f "*" = true → f = "*" ∨ lower f = lower name.
Proof.
  intros H1 H2 H. apply orb_prop in H as [H|H]; [right|left].
  - by apply strcasecmp_zero_lower.
  - by apply String.eqb_eq in H.
Qed.

Lemma table_match_cases db tbl e :
  no_nul db = true → no_nul tbl = true → elem2_ok e →
  elem_matches false db (Some tbl) None e = Ret true →
  (fparam e = "*" ∨ lower (fparam e) = lower db) ∧ (sparam e = "*" ∨ lower (sparam e) = lower tbl).
Proof.
  intros Hdb Htbl [Ho Hn] Hm. rewrite Ho, !no_nul_app in Hn. b2p. unfold elem_matches in Hm.
  destruct (_ || _) eqn:E1 in Hm; [|done]. destruct (_ || _) eqn:E2 in Hm; [|done].
  split; by apply param_cases.
Qed.

Lemma origin_specific db tbl p q :
  no_nul db = true → no_nul tbl = true → above_star db = true → above_star tbl = true →
  elem2_ok p → elem2_ok q → origin_ge p q →
  elem_matches false db (Some tbl) None p = Ret true →
  elem_matches false db (Some tbl) None q = Ret true →
  (fparam p = "*" → fparam q = "*") ∧
  (fparam p = "*" ∨ fparam q ≠ "*" → sparam p = "*" → sparam q = "*").
Proof.
  intros Hdb Htbl Adb Atbl Hp Hq Hge Mp Mq.
  destruct (table_match_cases _ _ _ Hdb Htbl Hp Mp) as [Fp Sp].
  destruct (table_match_cases _ _ _ Hdb Htbl Hq Mq) as [Fq Sq].
  destruct Hp as [Op _], Hq as [Oq _]. unfold origin_ge in Hge. rewrite Op, Oq in Hge.
  assert (fparam p = "*" → fparam q = "*") as H1.
  { intros E. destruct Fq as [|Fq]; [done|]. rewrite E in Hge.
    rewrite <- (above_star_lower _ _ Fq) in Adb.
    pose proof (strcasecmp_star (fparam q) ("." +:+ sparam q) ("." +:+ sparam p) Adb). lia. }
  split; [done|]. intros Hf Es. destruct Sq as [|Sq]; [done|]. exfalso.
  assert (lower (fparam q) = lower (fparam p)) as Hl.
  { destruct Hf as [E|E]; [by rewrite E, H1|].
    destruct Fp as [E'|Fp]; [by destruct E; apply H1|]. destruct Fq as [|Fq]; [done|]. congruence. }
  rewrite (strcasecmp_app _ _ _ _ Hl), (strcasecmp_app "." ".") in Hge by done.
  rewrite Es in Hge. rewrite <- (above_star_lower _ _ Sq) in Atbl.
  pose proof (strcasecmp_star (sparam q) "" "" Atbl) as Hs.
  rewrite !append_nil_r in Hs. lia.
Qed.

(** ** Theorems *)

(** C29: the lists [read_sesqlite_context] builds are sorted by decreasing
    origin, whatever the order of the lines of the file. *)
Theorem read_sesqlite_context_sorted file sc :
  read_sesqlite_context file = Ret (Some sc) → ctx_sorted sc.
Proof.
  destruct file as [f|]; simpl; [|done]. apply read_loop_sorted.
  repeat split; constructor.
Qed.

(** reading terminates: the number of characters of the file bounds the
    number of lines, and more iterations would not change the result. *)
Theorem read_sesqlite_context_terminates contents fuel :
  (String.length contents ≤ fuel)%nat →
  read_loop fuel (Ctx [] [] [] [] []) contents = read_sesqlite_context (Some contents).
Proof. intros. by apply read_loop_fuel. Qed.

(** C28: the label computed for a table is that of a most specific entry: no
    matching entry of the sorted list names the database when the chosen one
    has a wildcard there, nor, at the same database part, names the table when
    the chosen one has a wildcard. *)
Theorem compute_sql_context_most_specific getcon create db tbl con p q lbl :
  Sorted origin_ge con → Forall elem2_ok con →
  no_nul db = true → no_nul tbl = true → above_star db = true → above_star tbl = true →
  first_match false db (Some tbl) None con = Ret (Some p) →
  compute_sql_context getcon create false (Some db) (Some tbl) None con = Ret (Some lbl) →
  q ∈ con → elem_matches false db (Some tbl) None q = Ret true →
  lbl = security_context p ∧
  (fparam p = "*" → fparam q = "*") ∧
  (fparam p = "*" ∨ fparam q ≠ "*" → sparam p = "*" → sparam q = "*").
Proof.
  intros Hs Hok Hdb Htbl Adb Atbl Hfm Hc Hq Mq. split.
  { rewrite (compute_sql_context_found _ _ _ _ _ _ _ _ Hfm) in Hc. by injection Hc. }
  destruct (first_match_split _ _ _ _ _ _ Hfm) as (l1 & l2 & -> & Mp & Hl1).
  apply origin_ge_trans_sorted in Hs; [|eapply list.Forall_impl; [exact Hok|by intros ? []]].
  rewrite Forall_app, list.Forall_cons in Hok. destruct Hok as (_ & Hp & Hl2).
  rewrite elem_of_app, elem_of_cons in Hq. destruct Hq as [Hq|[->|Hq]].
  - rewrite list.Forall_forall in Hl1. specialize (Hl1 _ Hq). congruence.
  - eapply (origin_specific db tbl); eauto. unfold origin_ge. by rewrite strcasecmp_refl.
  - apply (origin_specific db tbl); eauto.
    + rewrite list.Forall_forall in Hl2. eauto.
    + by eapply sorted_after.
Qed.

(** ** Witnesses *)

Definition nl : string := String (ascii_of_nat 10) "".

Definition sample_file : string :=
  "# comment" +:+ nl +:+
  "db_table *.* all_t" +:+ nl +:+
  "db_table main.* main_t" +:+ nl +:+
  "db_table main.secret secret_t" +:+ nl +:+
  "db_column main.secret.id id_t" +:+ nl.

Definition sample_tables : list sesqlite_context_element :=
  [CtxElem "main.secret" "main" "secret" None "secret_t";
   CtxElem "main.*" "main" "*" None "main_t"; CtxElem "*.*" "*" "*" None "all_t"].

Definition sample_ctx : sesqlite_context :=
  Ctx [] sample_tables [] [CtxElem "main.secret.id" "main" "secret" (Some "id") "id_t"] [].

Lemma sample_file_read : read_sesqlite_context (Some sample_file) = Ret (Some sample_ctx).
Proof. vm_compute. reflexivity. Qed.

Lemma read_sesqlite_context_sorted_witness :
  read_sesqlite_context (Some sample_file) = Ret (Some sample_ctx) ∧ ctx_sorted sample_ctx.
Proof.
  split; [exact sample_file_read|].
  exact (read_sesqlite_context_sorted (Some sample_file) sample_ctx sample_file_read).
Defined.

Lemma read_sesqlite_context_terminates_witness :
  read_loop 1000 (Ctx [] [] [] [] []) sample_file = read_sesqlite_context (Some sample_file).
Proof. apply (read_sesqlite_context_terminates sample_file 1000). vm_compute. lia. Defined.

Lemma compute_sql_context_most_specific_witness :
  "main_t" = security_context (CtxElem "main.*" "main" "*" None "main_t") ∧
  ("main" = "*" → "*" = "*") ∧ ("main" = "*" ∨ "*" ≠ "*" → "*" = "*" → "*" = "*").
Proof.
  apply (compute_sql_context_most_specific (Some "u") (λ _ _ _, None) "main" "log" sample_tables
    (CtxElem "main.*" "main" "*" None "main_t") (CtxElem "*.*" "*" "*" None "all_t") "main_t");
    try reflexivity.
  - repeat constructor; vm_compute; intros H; discriminate H.
  - repeat constructor.
  - repeat constructor.
Defined.
