(* ===== verification/Schema.v ===== *)
(** * The schema in memory

    The part of the schema structures of SQLite the extension reads: the
    databases of a connection with the tables of their [tblHash] in the order
    of its element list, and the columns of the tables; [sqlite3FindTable] of
    src/build.c and [is_table_sesqlite_enabled] of sesqlite_authorizer.c. *)

From S2P Require Import Prelude CString.
#[local] Open Scope string_scope.
#[local] Open Scope Z_scope.

Record Table := Tab { tab_name : string; aCol : list string; HasRowid : bool }.
Record Db := DbEnt { zName : string; tblHash : list Table }.

(** [db->aDb]: main, temp and the attached databases. *)
Definition schema := list Db.

(** [sqlite3HashFind] compares names without regard to case. *)
Definition tbl_find (ts : list Table) (name : string) : option Table :=
  find (λ t, sqlite3_stricmp (tab_name t) name =? 0) ts.

(** The order in which databases are searched: temp before main. *)
Definition search_order (sch : schema) : list Db :=
  match sch with
  | main :: temp :: rest => temp :: main :: rest
  | _ => sch
  end.

Fixpoint find_table_loop (dbs : list Db) (name : string) (zDatabase : option string) : option Table :=
  match dbs with
  | [] => None
  | d :: dbs' =>
      if match zDatabase with
         | Some z => negb (sqlite3_stricmp z (zName d) =? 0)
         | None => false
         end
      then find_table_loop dbs' name zDatabase
      else match tbl_find (tblHash d) name with
           | Some t => Some t
           | None => find_table_loop dbs' name zDatabase
           end
  end.

Definition sqlite3FindTable (sch : schema) (name zDatabase : option string) : outcome (option Table) :=
  match name with
  | None => Undef AssertFail
  | Some n => Ret (find_table_loop (search_order sch) n zDatabase)
  end.

Definition SECURITY_CONTEXT_COLUMN_NAME : string := "security_context".

(** [is_table_sesqlite_enabled]; the table is read without a check that it
    has been found. *)
Definition is_table_sesqlite_enabled (sch : schema) (zDatabase name : option string) : outcome Z :=
  t ← sqlite3FindTable sch name zDatabase;
  pTab ← deref t;
  match list.last (aCol pTab) with
  | None => Undef OutOfBounds
  | Some c => Ret (if strcasecmp c SECURITY_CONTEXT_COLUMN_NAME =? 0 then 0 else 1)
  end.
