(* ===== verification/Labels.v ===== *)
(** * Labels of database objects

    The state of the extension (the globals of sesqlite_init.c and
    sesqlite_authorizer.c together with the two tables they maintain) and the
    functions that give objects their labels: [make_key] of sesqlite_utils.c,
    [lookup_security_context] and [lookup_security_label] of
    sesqlite_compute_label.c, [insert_context], [get_key] and [insert_key] of
    sesqlite_init.c, [insert_id] and [getContext] of sesqlite_authorizer.c.
    A prepared statement of the extension is the change it makes to its
    table; the SELinux library calls are parameters. *)

From S2P Require Import Prelude CString SeHash BiHash Avc ContextFile.
From Stdlib Require Import Ascii.
#[local] Open Scope string_scope.
#[local] Open Scope Z_scope.
#[local] Open Scope list_scope.

(** [make_key]; a NULL name prints as the empty string. *)
Definition make_key (dbName tblName colName : option string) : string :=
  match tblName, colName with
  | None, _ => fmt_s dbName
  | Some t, None => fmt_s dbName +:+ ":" +:+ t
  | Some t, Some c => fmt_s dbName +:+ ":" +:+ t +:+ ":" +:+ c
  end.

Definition SELINUX_CONTEXT : string := "selinux_context".
Definition SELINUX_ID : string := "selinux_id".

Definition SQLITE_OK : Z := 0.
Definition SQLITE_ERROR : Z := 1.
Definition SQLITE_DENY : Z := 1.
Definition SQLITE_NOMEM : Z := 7.
Definition SQLITE_CONSTRAINT : Z := 19.
Definition SQLITE_DONE : Z := 101.

(** ** The tables *)

(** A row of selinux_id(security_context INT, security_label TEXT UNIQUE). *)
Record id_row := IdRow { r_rowid : Z; r_context : Z; r_label : string }.

(** A row of selinux_context(security_context INT, security_label INT, db TEXT,
    name TEXT, column TEXT, PRIMARY KEY(db, name, column)). *)
Record ctx_row := CtxRow {
  x_rowid : Z; x_context : Z; x_label : Z;
  x_db : option string; x_name : option string; x_column : option string;
}.

(** The rowid of a new row is one more than the largest. *)
Definition new_rowid (rowids : list Z) : Z := 1 + foldr Z.max 0 rowids.

(** [INSERT INTO selinux_id VALUES (?1, ?2)]: the result of the step, the
    table and the rowid of the new row. *)
Definition sql_insert_id (t : list id_row) (con : Z) (label : string)
    : Z * list id_row * option Z :=
  if decide (label ∈ (r_label <$> t)) then (SQLITE_CONSTRAINT, t, None)
  else let id := new_rowid (r_rowid <$> t) in
       (SQLITE_DONE, t ++ [IdRow id con label], Some id).

(** [UPDATE selinux_id SET security_context = ?1] *)
Definition sql_update_id (t : list id_row) (con : Z) : list id_row :=
  (λ r, IdRow (r_rowid r) con (r_label r)) <$> t.

(** Equality of the primary keys: NULL differs from NULL. *)
Definition pk_eq (a b : ctx_row) : bool :=
  match x_db a, x_name a, x_column a, x_db b, x_name b, x_column b with
  | Some d, Some n, Some c, Some d', Some n', Some c' =>
      String.eqb d d' && String.eqb n n' && String.eqb c c'
  | _, _, _, _, _, _ => false
  end.

(** [INSERT OR REPLACE INTO selinux_context VALUES (?1, ..., ?5)] *)
Definition sql_replace_context (t : list ctx_row) (con label : Z)
    (db name column : option string) : list ctx_row * Z :=
  let id := new_rowid (x_rowid <$> t) in
  let r := CtxRow id con label db name column in
  (filter (λ r', negb (pk_eq r' r)) t ++ [r], id).

Section labels.
Context {TH TK TV TA : Type}.
Context `{!Store TH Z} `{!Store TK string} `{!Store TV Z} `{!Store TA bool}.

(** ** The state *)
Record sestate := State {
  hash : TH;                           (* object -> label id *)
  hash_id : SESQLITE_BIHASH TK TV;     (* label id <-> label *)
  avc : TA;                            (* true is avc_allow *)
  contexts : option sesqlite_context;
  scon : option string;
  scon_id : Z;
  vacuum : Z;
  selinux_id : list id_row;
  selinux_context : list ctx_row;
  last_rowid : Z;                      (* sqlite3_last_insert_rowid *)
}.

Definition set_hash h (s : sestate) : sestate :=
  State h (hash_id s) (avc s) (contexts s) (scon s) (scon_id s) (vacuum s)
    (selinux_id s) (selinux_context s) (last_rowid s).
Definition set_hash_id h (s : sestate) : sestate :=
  State (hash s) h (avc s) (contexts s) (scon s) (scon_id s) (vacuum s)
    (selinux_id s) (selinux_context s) (last_rowid s).
Definition set_avc a (s : sestate) : sestate :=
  State (hash s) (hash_id s) a (contexts s) (scon s) (scon_id s) (vacuum s)
    (selinux_id s) (selinux_context s) (last_rowid s).
Definition set_contexts c (s : sestate) : sestate :=
  State (hash s) (hash_id s) (avc s) c (scon s) (scon_id s) (vacuum s)
    (selinux_id s) (selinux_context s) (last_rowid s).
Definition set_scon c i (s : sestate) : sestate :=
  State (hash s) (hash_id s) (avc s) (contexts s) c i (vacuum s)
    (selinux_id s) (selinux_context s) (last_rowid s).
Definition put_vacuum v (s : sestate) : sestate :=
  State (hash s) (hash_id s) (avc s) (contexts s) (scon s) (scon_id s) v
    (selinux_id s) (selinux_context s) (last_rowid s).
Definition set_tables ti tc r (s : sestate) : sestate :=
  State (hash s) (hash_id s) (avc s) (contexts s) (scon s) (scon_id s) (vacuum s) ti tc r.

Abbreviation M := (sm sestate).

(** The steps of [stmt_insert], [stmt_update] and [stmt_con_insert]. *)
Definition step_insert (con : Z) (label : string) : M Z := λ s,
  let '(rc, t, id) := sql_insert_id (selinux_id s) con label in
  Ret (rc, set_tables t (selinux_context s) (default (last_rowid s) id) s).

Definition step_update (con : Z) : M Z := λ s,
  Ret (SQLITE_DONE, set_tables (sql_update_id (selinux_id s) con) (selinux_context s) (last_rowid s) s).

Definition step_con_insert (con label : Z) (db name column : option string) : M Z := λ s,
  let '(t, id) := sql_replace_context (selinux_context s) con label db name column in
  Ret (SQLITE_DONE, set_tables (selinux_id s) t id s).

(** [SESQLITE_BIHASH_FINDKEY] and [_INSERT] on [hash_id], and the lookup and
    insertion of [hash]. *)
Definition find_label_id (label : option string) (s : sestate) : outcome (option Z) :=
  l ← deref label; Ret (SESQLITE_BIHASH_FINDKEY (hash_id s) l).

Definition bihash_insert (id : Z) (label : string) : M () := λ s,
  match SESQLITE_BIHASH_INSERT (hash_id s) id label with
  | Ret (b, _) => Ret ((), set_hash_id b s)
  | Undef f => Undef f
  end.

Definition hash_find (key : string) (s : sestate) : option Z :=
  fst <$> st_find (hash s) (KStr key).

Definition hash_insert (key : string) (id : Z) : M () :=
  sm_mod (λ s, set_hash (st_insert (hash s) (KStr key) (Some id) 4) s).

Section selinux.
Variable getcon : option string.
Variable security_compute_create_raw : option string → option string → Z → option string.

Abbreviation compute := (compute_sql_context getcon security_compute_create_raw).

Definition lookup_security_context (db_name tbl_name : option string) (s : sestate) : outcome Z :=
  sc ← deref (contexts s);
  sec_context ← compute false db_name tbl_name None (tuple_context sc);
  id ← find_label_id sec_context s;
  match id with Some id => Ret id | None => Undef AssertFail end.

(** A new row of selinux_id for [label], and its entry in [hash_id]. *)
Definition new_label (con : Z) (label : string) : M Z :=
  _ ← step_insert con label;
  rowid ← sm_get last_rowid;
  let rowid := i32 rowid in
  _ ← bihash_insert rowid label;
  mret rowid.

Definition insert_id (db_name : option string) (sec_label : option string) : M Z :=
  value ← sm_gets (find_label_id sec_label);
  match value with
  | Some v => mret v
  | None =>
      con ← sm_gets (lookup_security_context db_name (Some SELINUX_ID));
      label ← sm_lift (deref sec_label);
      new_label con label
  end.

(** [lookup_security_label]; [type] tells a column from a table. *)
Definition lookup_security_label (type : bool) (db_name tbl_name col_name : option string) : M Z :=
  sc ← sm_gets (λ s, deref (contexts s));
  context ← sm_lift (compute type db_name tbl_name col_name
                       (if type then column_context sc else table_context sc));
  match context with
  | None => sm_lift (Undef AssertFail)
  | Some label =>
      id ← sm_gets (find_label_id (Some label));
      match id with
      | Some id => mret id
      | None =>
          con ← sm_gets (lookup_security_context db_name (Some SELINUX_ID));
          new_label con label
      end
  end.

Definition insert_context (isColumn : bool) (dbName tblName colName : option string)
    (con tuple_con : list sesqlite_context_element) : M Z :=
  sec_label ← sm_lift (compute isColumn dbName tblName colName con);
  match sec_label with
  | None => sm_lift (Undef AssertFail)
  | Some label =>
      value ← sm_gets (find_label_id (Some label));
      match value with
      | Some v => mret v
      | None =>
          sec_context ← sm_lift (compute false dbName tblName None tuple_con);
          tid ← sm_gets (find_label_id sec_context);
          match tid with
          | None => sm_lift (Undef AssertFail)
          | Some tid => new_label tid label
          end
      end
  end.

Definition get_key (dbName tblName colName : option string) (s : sestate) : Z :=
  default (-1) (hash_find (make_key dbName tblName colName) s).

Definition insert_key (dbName tblName colName : option string) (id : Z) : M () :=
  hash_insert (make_key dbName tblName colName) id.

(** The context [getContext] computes for an object that has no entry. *)
Definition new_context (sc : sesqlite_context) (dbname table column : option string) (tclass : Z)
    : outcome (option string) :=
  if tclass =? SELINUX_DB_DATABASE then compute false dbname None None (db_context sc)
  else if tclass =? SELINUX_DB_TABLE then compute false dbname table None (table_context sc)
  else if tclass =? SELINUX_DB_COLUMN then compute true dbname table column (column_context sc)
  else Ret None.

Definition getContext (dbname table column : option string) (tclass : Z) : M Z :=
  let key := make_key dbname table column in
  res ← sm_get (hash_find key);
  match res with
  | Some id => mret id
  | None =>
      (* with a class the switch does not know, contexts is not read *)
      security_context_new ← sm_gets (λ s,
        if (0 <=? tclass) && (tclass <=? 2)
        then sc ← deref (contexts s); new_context sc dbname table column tclass
        else Ret None);
      id ← insert_id dbname security_context_new;
      _ ← hash_insert key id;
      mret id
  end.

(** ** Objects and their keys *)

Inductive obj := ODb (db : string) | OTbl (db tbl : string) | OCol (db tbl col : string).

Definition o_db (o : obj) : option string :=
  match o with ODb d | OTbl d _ | OCol d _ _ => Some d end.
Definition o_tbl (o : obj) : option string :=
  match o with ODb _ => None | OTbl _ t | OCol _ t _ => Some t end.
Definition o_col (o : obj) : option string :=
  match o with OCol _ _ c => Some c | _ => None end.
Definition o_class (o : obj) : Z :=
  match o with ODb _ => SELINUX_DB_DATABASE | OTbl _ _ => SELINUX_DB_TABLE
             | OCol _ _ _ => SELINUX_DB_COLUMN end.
Definition o_key (o : obj) : string := make_key (o_db o) (o_tbl o) (o_col o).

#[global] Instance obj_eq_dec : EqDecision obj.
Proof. solve_decision. Defined.

Fixpoint colon_free (s : string) : bool :=
  match s with
  | EmptyString => true
  | String c s' => negb (Ascii.eqb c ":") && colon_free s'
  end.
Definition obj_ok (o : obj) : bool :=
  match o with
  | ODb d => colon_free d
  | OTbl d t => colon_free d && colon_free t
  | OCol d t c => colon_free d && colon_free t && colon_free c
  end.

(** The label an object has in a state: that of its entry, or the one the
    configuration gives it. *)
Definition default_label (sc : sesqlite_context) (o : obj) : outcome (option string) :=
  new_context sc (o_db o) (o_tbl o) (o_col o) (o_class o).

Definition label_of (s : sestate) (o : obj) : option string :=
  match hash_find (o_key o) s with
  | Some id => SESQLITE_BIHASH_FIND (hash_id s) id
  | None => match contexts s with
            | Some sc => match default_label sc o with Ret l => l | Undef _ => None end
            | None => None
            end
  end.

(** ** Invariants *)

(** The memory and the selinux_id table hold the same labels [ids], whose
    numbers are at most [n], and objects refer to known labels. *)
Record labels_inv (n : Z) (ids : gmap Z string) (s : sestate) : Prop := {
  li_ids : bihash_rep (hash_id s) ids;
  li_rows id l : ids !! id = Some l ↔ ∃ c, IdRow id c l ∈ selinux_id s;
  li_bound id l : ids !! id = Some l → 1 ≤ id ≤ n;
  li_keys : ∃ m, st_rep (hash s) m ∧ ∀ k id d, m !! k = Some (id, d) → is_Some (ids !! id);
}.

(** The configuration has a label for every object and every internal row. *)
Record ctx_ok (sc : sesqlite_context) : Prop := {
  co_default o : ∃ l, default_label sc o = Ret (Some l);
  co_tuple db tbl : ∃ p, first_match false db tbl None (tuple_context sc) = Ret (Some p);
}.

Lemma ctx_total_ok sc : ctx_total sc = true → ctx_ok sc.
Proof.
  unfold ctx_total. intros Htot. b2p. split; [|by intros; apply first_match_star2].
  intros [db|db tbl|db tbl col]; unfold default_label, new_context; simpl.
  - destruct (first_match_star1 db (db_context sc)) as [p Hp]; [done|].
    rewrite (compute_sql_context_found _ _ _ _ _ _ _ _ Hp). eauto.
  - destruct (first_match_star2 db (Some tbl) (table_context sc)) as [p Hp]; [done|].
    rewrite (compute_sql_context_found _ _ _ _ _ _ _ _ Hp). eauto.
  - destruct (first_match_star3 db tbl col (column_context sc)) as [p Hp]; [done..|].
    rewrite (compute_sql_context_found _ _ _ _ _ _ _ _ Hp). eauto.
Qed.

(** The labels of internal rows have been registered. *)
Definition tuples_known (ids : gmap Z string) (sc : sesqlite_context) : Prop :=
  ∀ e, e ∈ tuple_context sc → ∃ id, ids !! id = Some (security_context e).

(** Everything but the labels is unchanged. *)
Definition same (s s' : sestate) : Prop :=
  hash s' = hash s ∧ avc s' = avc s ∧ contexts s' = contexts s ∧ scon s' = scon s ∧
  scon_id s' = scon_id s ∧ vacuum s' = vacuum s ∧ selinux_context s' = selinux_context s.

Lemma same_refl s : same s s.
Proof. done. Qed.

Lemma labels_inv_mono n n' ids s : labels_inv n ids s → n ≤ n' → labels_inv n' ids s.
Proof.
  intros [Hi Hr Hb Hk] ?. split; [done..| |done]. intros id l Hl. specialize (Hb id l Hl). lia.
Qed.

Lemma tuples_known_mono ids ids' sc : tuples_known ids sc → ids ⊆ ids' → tuples_known ids' sc.
Proof. intros Ht Hs e He. destruct (Ht e He) as [id Hid]. exists id. by eapply lookup_weaken. Qed.

(** ** Keys *)

Lemma colon_split a b x y :
  colon_free a = true → colon_free b = true →
  a +:+ ":" +:+ x = b +:+ ":" +:+ y → a = b ∧ x = y.
Proof.
  revert b. induction a as [|c a IH]; intros [|d b] Ha Hb E; cbn [colon_free] in Ha, Hb.
  - by injection E.
  - by injection E as <- _.
  - by injection E as -> _.
  - injection E as -> E. b2p. by destruct (IH b) as [-> ->].
Qed.

Lemma colon_free_app a x : colon_free (a +:+ ":" +:+ x) = false.
Proof.
  induction a as [|c a IH]; [done|].
  change (negb (Ascii.eqb c ":") && colon_free (a +:+ ":" +:+ x) = false).
  by rewrite IH, andb_false_r.
Qed.

Lemma o_key_inj o1 o2 : obj_ok o1 = true → obj_ok o2 = true → o_key o1 = o_key o2 → o1 = o2.
Proof.
  destruct o1 as [d1|d1 t1|d1 t1 c1], o2 as [d2|d2 t2|d2 t2 c2]; simpl; unfold o_key, make_key, fmt_s;
    simpl; intros H1 H2 E; b2p;
    try (rewrite E, colon_free_app in *; done); try (rewrite <- E, colon_free_app in *; done);
    try (apply colon_split in E as [-> E]; [|done..]);
    try (rewrite E, colon_free_app in *; done); try (rewrite <- E, colon_free_app in *; done);
    try (apply colon_split in E as [-> ->]; [|done..]); congruence.
Qed.

(** ** The rows of selinux_id *)

Lemma new_rowid_gt l id : id ∈ l → id < new_rowid l.
Proof.
  unfold new_rowid. induction 1 as [|x id l Hin IH]; simpl; lia.
Qed.

Lemma new_rowid_bound l n : 0 ≤ n → (∀ id, id ∈ l → id ≤ n) → 1 ≤ new_rowid l ≤ n + 1.
Proof.
  unfold new_rowid. intros Hn. induction l as [|x l IH]; simpl; intros Hl; [lia|].
  specialize (Hl x (list_elem_of_here _ _)) as Hx.
  destruct IH; [|lia]. intros id Hid. apply Hl. by right.
Qed.

Lemma li_rowids n ids s id :
  labels_inv n ids s → id ∈ r_rowid <$> selinux_id s → is_Some (ids !! id).
Proof.
  intros Hinv (r & -> & Hr)%list_elem_of_fmap. exists (r_label r).
  apply (li_rows _ _ _ Hinv). exists (r_context r). by destruct r.
Qed.

(** A label that is not known gets a fresh number, in memory and in the
    table. *)
Lemma new_label_spec n ids s con l :
  0 ≤ n < 2 ^ 31 - 1 → labels_inv n ids s → (∀ id, ids !! id ≠ Some l) →
  ∃ s', let id := new_rowid (r_rowid <$> selinux_id s) in
    new_label con l s = Ret (id, s') ∧ ids !! id = None ∧
    labels_inv (n + 1) (<[id := l]> ids) s' ∧ same s s'.
Proof.
  clear security_compute_create_raw getcon. intros Hn Hinv Hl. pose proof Hinv as [Hb Hrows Hbound Hkeys].
  assert (1 ≤ new_rowid (r_rowid <$> selinux_id s) ≤ n + 1) as Hid.
  { apply new_rowid_bound; [lia|]. intros i Hi. destruct (li_rowids _ _ _ _ Hinv Hi) as [l' Hl'].
    apply Hbound in Hl'. lia. }
  set (id := new_rowid (r_rowid <$> selinux_id s)) in *.
  assert (ids !! id = None) as Hnew.
  { apply eq_None_not_Some. intros [l' [c Hin]%Hrows].
    assert (id ∈ r_rowid <$> selinux_id s) as Hlt%new_rowid_gt by (by apply (list_elem_of_fmap_2 r_rowid) in Hin).
    subst id. lia. }
  assert (in_sw 32 id) as Hr by (unfold in_sw; lia).
  destruct (bihash_insert_rep _ _ _ _ Hb Hr Hnew Hl) as (b' & Eb & Hb').
  assert (l ∉ r_label <$> selinux_id s) as Hin.
  { intros (r & -> & Hin)%list_elem_of_fmap. destruct (Hl (r_rowid r)).
    apply Hrows. exists (r_context r). by destruct r. }
  eexists. split.
  { unfold new_label. erewrite sm_bind_run by (unfold step_insert, sql_insert_id; by rewrite decide_False).
    erewrite sm_bind_run by done. simpl. fold id. rewrite (sw_small 32 id) by (done || lia).
    erewrite sm_bind_run by (unfold bihash_insert; simpl; by rewrite Eb). done. }
  split; [done|]. split; [|done]. split; simpl.
  - done.
  - intros i l'. rewrite lookup_insert. setoid_rewrite elem_of_app. setoid_rewrite list_elem_of_singleton.
    destruct (decide (id = i)) as [<-|Hne].
    + split; [intros [= <-]; eauto|]. intros [c [Hc|[= -> ->]]]; [|done].
      assert (ids !! id = Some l') by (apply Hrows; eauto). congruence.
    + rewrite Hrows. split; [naive_solver|]. intros [c [?|[= -> ? ?]]]; [eauto|done].
  - intros i l'. rewrite lookup_insert. case_decide; [subst; lia|]. intros Hi%Hbound. lia.
  - destruct Hkeys as (m & Hm & Hk). exists m. split; [done|]. intros k i d Hkd%Hk.
    rewrite lookup_insert. case_decide; [done|]. done.
Qed.

(** The label of an internal row is registered. *)
Lemma lookup_security_context_spec n ids s sc db tbl :
  labels_inv n ids s → contexts s = Some sc → ctx_ok sc → tuples_known ids sc →
  ∃ id, lookup_security_context (Some db) (Some tbl) s = Ret id ∧ is_Some (ids !! id).
Proof.
  intros Hinv Hc [_ Ht] Hk. destruct (Ht db (Some tbl)) as [p Hp]. unfold lookup_security_context.
  rewrite Hc. simpl. rewrite (compute_sql_context_found _ _ _ _ _ _ _ _ Hp).
  destruct (first_match_split _ _ _ _ _ _ Hp) as (l1 & l2 & E & _ & _).
  destruct (Hk p) as [id Hid]; [rewrite E; set_solver|]. exists id.
  apply (bihash_findkey_Some _ _ _ _ (li_ids _ _ _ Hinv)) in Hid as Hf. simpl.
  rewrite Hf. simpl. eauto.
Qed.

Section ops.
Variables (n : Z) (ids : gmap Z string) (s : sestate) (sc : sesqlite_context).
Hypothesis Hn : 0 ≤ n < 2 ^ 31 - 1.
Hypothesis Hinv : labels_inv n ids s.
Hypothesis Hc : contexts s = Some sc.
Hypothesis Hsc : ctx_ok sc.
Hypothesis Htk : tuples_known ids sc.

(** What a function that registers the label [l] does. *)
Definition registers (l : string) (r : outcome (Z * sestate)) : Prop :=
  ∃ id s' ids', r = Ret (id, s') ∧ ids ⊆ ids' ∧ ids' !! id = Some l ∧
    labels_inv (n + 1) ids' s' ∧ same s s' ∧
    ∀ i l', ids' !! i = Some l' → ids !! i = Some l' ∨ l' = l.

Lemma registers_known l id : ids !! id = Some l → registers l (Ret (id, s)).
Proof.
  intros Hid. exists id, s, ids. split_and!; [done..| |apply same_refl|eauto].
  eapply labels_inv_mono; [done|lia].
Qed.

Lemma registers_new con l : (∀ id, ids !! id ≠ Some l) → registers l (new_label con l s).
Proof.
  intros Hl. destruct (new_label_spec n ids s con l Hn Hinv Hl) as (s' & E & Hid & Hi & Hs).
  eexists _, s', _. split_and!; [done|by apply insert_subseteq|by rewrite lookup_insert_eq|done..|].
  intros i l'. rewrite lookup_insert. case_decide; naive_solver.
Qed.

Lemma insert_id_spec db l : registers l (insert_id (Some db) (Some l) s).
Proof.
  unfold insert_id. erewrite sm_bind_run by done.
  pose proof (bihash_findkey _ _ l (li_ids _ _ _ Hinv)) as Hf. simpl.
  destruct (SESQLITE_BIHASH_FINDKEY (hash_id s) l) as [id|]; [by apply registers_known|].
  destruct (lookup_security_context_spec n ids s sc db SELINUX_ID) as (con & Econ & _); [done..|].
  erewrite sm_bind_run by (unfold sm_gets; by rewrite Econ). erewrite sm_bind_run by done.
  by apply registers_new.
Qed.

Lemma lookup_security_label_spec isC db tbl col l :
  compute_sql_context getcon security_compute_create_raw isC (Some db) tbl col
    (if isC then column_context sc else table_context sc) = Ret (Some l) →
  registers l (lookup_security_label isC (Some db) tbl col s).
Proof.
  intros El. unfold lookup_security_label. erewrite sm_bind_run by (unfold sm_gets; by rewrite Hc).
  erewrite sm_bind_run by (unfold sm_lift, sm_gets; by rewrite El). simpl.
  erewrite sm_bind_run by done.
  pose proof (bihash_findkey _ _ l (li_ids _ _ _ Hinv)) as Hf.
  destruct (SESQLITE_BIHASH_FINDKEY (hash_id s) l) as [id|]; [by apply registers_known|].
  destruct (lookup_security_context_spec n ids s sc db SELINUX_ID) as (con & Econ & _); [done..|].
  erewrite sm_bind_run by (unfold sm_gets; by rewrite Econ). by apply registers_new.
Qed.

Lemma insert_context_spec isC db tbl col con l t :
  compute_sql_context getcon security_compute_create_raw isC (Some db) tbl col con = Ret (Some l) →
  compute_sql_context getcon security_compute_create_raw false (Some db) tbl None (tuple_context sc)
    = Ret (Some t) → (∃ id, ids !! id = Some t) →
  registers l (insert_context isC (Some db) tbl col con (tuple_context sc) s).
Proof.
  intros El Et [tid Htid]. unfold insert_context.
  erewrite sm_bind_run by (unfold sm_lift, sm_gets; by rewrite El). simpl.
  erewrite sm_bind_run by done.
  pose proof (bihash_findkey _ _ l (li_ids _ _ _ Hinv)) as Hf.
  destruct (SESQLITE_BIHASH_FINDKEY (hash_id s) l) as [id|]; [by apply registers_known|].
  erewrite sm_bind_run by (unfold sm_lift, sm_gets; by rewrite Et).
  apply (bihash_findkey_Some _ _ _ _ (li_ids _ _ _ Hinv)) in Htid.
  erewrite sm_bind_run by (unfold sm_gets; simpl; by rewrite Htid). by apply registers_new.
Qed.

(** Adding labels does not change the label of an object. *)
Lemma label_of_same s' ids' n' o :
  labels_inv n' ids' s' → ids ⊆ ids' → same s s' → label_of s' o = label_of s o.
Proof.
  intros Hinv' Hsub (Hh & _ & Hc' & _). unfold label_of, hash_find. rewrite Hh, Hc'.
  destruct (li_keys _ _ _ Hinv) as (m & Hm & Hk).
  rewrite (st_find_rep _ m) by done. destruct (m !! KStr (o_key o)) as [[id d]|] eqn:E; simpl; [|done].
  destruct (Hk _ _ _ E) as [l Hl]. pose proof (bh_range _ _ (li_ids _ _ _ Hinv) _ _ Hl) as Hr.
  rewrite (bihash_find _ _ _ (li_ids _ _ _ Hinv')), (bihash_find _ _ _ (li_ids _ _ _ Hinv)) by done.
  rewrite Hl. by eapply lookup_weaken.
Qed.

(** An object with an entry has a registered label. *)
Lemma hash_find_known key id :
  hash_find key s = Some id →
  ∃ l, ids !! id = Some l ∧ SESQLITE_BIHASH_FIND (hash_id s) id = Some l.
Proof.
  destruct (li_keys _ _ _ Hinv) as (m & Hm & Hk). unfold hash_find.
  rewrite (st_find_rep _ m) by done. destruct (m !! KStr key) as [[id' d]|] eqn:E; simpl; [|done].
  intros [= ->]. destruct (Hk _ _ _ E) as [l Hl]. exists l. split; [done|].
  rewrite (bihash_find _ _ _ (li_ids _ _ _ Hinv)); [done|].
  by eapply (bh_range _ _ (li_ids _ _ _ Hinv)).
Qed.

End ops.

(** Everything but the labels and the entries of objects is unchanged. *)
Definition frame (s s' : sestate) : Prop :=
  avc s' = avc s ∧ contexts s' = contexts s ∧ scon s' = scon s ∧
  scon_id s' = scon_id s ∧ vacuum s' = vacuum s ∧ selinux_context s' = selinux_context s.

Lemma frame_trans s1 s2 s3 : frame s1 s2 → frame s2 s3 → frame s1 s3.
Proof. unfold frame. intuition congruence. Qed.

(** Giving an object an entry. *)
Lemma hash_insert_spec n ids s o id :
  labels_inv n ids s → is_Some (ids !! id) →
  let s' := set_hash (st_insert (hash s) (KStr (o_key o)) (Some id) 4) s in
  labels_inv n ids s' ∧ hash_find (o_key o) s' = Some id ∧
  (∀ key, key ≠ o_key o → hash_find key s' = hash_find key s).
Proof.
  clear security_compute_create_raw getcon. intros [Hb Hr Hbd (m & Hm & Hk)] Hid s'.
  assert (st_rep (hash s') (put m (KStr (o_key o)) id 4)) as Hp by by apply st_put_rep.
  assert (∀ key, hash_find key s' =
            if decide (key = o_key o) then Some id else hash_find key s) as Hf.
  { intros key. unfold hash_find. rewrite (st_find_rep _ _ _ Hp), (st_find_rep _ _ _ Hm) by done.
    unfold put. destruct (m !! KStr (o_key o)) as [[]|]; rewrite lookup_insert;
      repeat case_decide; naive_solver. }
  split_and!.
  - split; [done..|]. eexists. split; [exact Hp|]. intros k i d. unfold put.
    destruct (m !! KStr (o_key o)) as [[]|]; rewrite lookup_insert; case_decide; naive_solver.
  - by rewrite Hf, decide_True.
  - intros key Hne. by rewrite Hf, decide_False.
Qed.

Lemma getContext_spec n ids s sc o :
  0 ≤ n < 2 ^ 31 - 1 → labels_inv n ids s → contexts s = Some sc → ctx_ok sc →
  tuples_known ids sc → obj_ok o = true →
  ∃ id l s' ids', getContext (o_db o) (o_tbl o) (o_col o) (o_class o) s = Ret (id, s') ∧
    label_of s o = Some l ∧ ids' !! id = Some l ∧ ids ⊆ ids' ∧ labels_inv (n + 1) ids' s' ∧
    frame s s' ∧ (∀ o', obj_ok o' = true → label_of s' o' = label_of s o') ∧
    (∀ i l', ids' !! i = Some l' → ids !! i = Some l' ∨ default_label sc o = Ret (Some l')).
Proof.
  intros Hn Hinv Hc Hsc Htk Ho. unfold getContext. fold (o_key o). erewrite sm_bind_run by done.
  destruct (hash_find (o_key o) s) as [id|] eqn:Ef.
  { destruct (hash_find_known n ids s Hinv _ _ Ef) as (l & Hl & Hf).
    exists id, l, s, ids. unfold label_of at 1. rewrite Ef. split_and!; try done.
    - eapply labels_inv_mono; [done|lia].
    - eauto. }
  destruct (co_default _ Hsc o) as [l Hl].
  assert (label_of s o = Some l) as Hlab by (unfold label_of; by rewrite Ef, Hc, Hl).
  erewrite sm_bind_run.
  2: { unfold sm_gets. rewrite Hc. simpl. assert ((0 <=? o_class o) && (o_class o <=? 2) = true) as ->
         by (by destruct o). fold (default_label sc o). by rewrite Hl. }
  assert (∃ d, o_db o = Some d) as [d Hd] by (destruct o; eauto). rewrite Hd.
  destruct (insert_id_spec n ids s sc Hn Hinv Hc Hsc Htk d l)
    as (id & s1 & ids' & E & Hsub & Hid & Hinv1 & Hsame & Hnew).
  rewrite (sm_bind_run _ _ _ _ _ E). erewrite sm_bind_run by done.
  destruct (hash_insert_spec (n + 1) ids' s1 o id Hinv1) as (Hinv2 & Hf1 & Hf2); [eauto|].
  do 4 eexists. split; [done|]. split; [done|]. split; [done|]. split; [done|]. split; [done|].
  split; [by repeat split; apply Hsame|]. split.
  2: { intros i l' [Hi|Hi]%Hnew; [by left|right; congruence]. }
  intros o' Ho'.
  destruct (decide (o' = o)) as [->|Hne].
  - unfold label_of at 1. rewrite Hf1, Hlab. simpl.
    rewrite (bihash_find _ _ _ (li_ids _ _ _ Hinv1)); [done|].
    by eapply (bh_range _ _ (li_ids _ _ _ Hinv1)).
  - rewrite <- (label_of_same n ids s Hinv s1 ids' _ o' Hinv1 Hsub Hsame).
    unfold label_of. rewrite Hf2; [done|]. intros E'. by apply Hne, o_key_inj.
Qed.

(** ** Theorems *)

(** distinct objects whose names have no colon get distinct keys; a colon
    in a name makes two objects share one. *)
Theorem make_key_injective o1 o2 :
  obj_ok o1 = true → obj_ok o2 = true →
  (make_key (o_db o1) (o_tbl o1) (o_col o1) = make_key (o_db o2) (o_tbl o2) (o_col o2) ↔ o1 = o2) ∧
  ∀ d t c, make_key (Some d) (Some (t +:+ ":" +:+ c)) None = make_key (Some d) (Some t) (Some c).
Proof. intros. split; [split; [by apply o_key_inj|by intros ->]|done]. Qed.

(** [insert_id] returns the number of the label, which both directions of
    the mapping and the selinux_id table then know; it keeps the numbers of
    all other labels, and asking again changes nothing. *)
Theorem insert_id_registers n ids s sc db l :
  0 ≤ n < 2 ^ 31 - 1 → labels_inv n ids s → contexts s = Some sc → ctx_ok sc → tuples_known ids sc →
  ∃ id s', insert_id (Some db) (Some l) s = Ret (id, s') ∧
    SESQLITE_BIHASH_FIND (hash_id s') id = Some l ∧
    SESQLITE_BIHASH_FINDKEY (hash_id s') l = Some id ∧
    (∃ c, IdRow id c l ∈ selinux_id s') ∧
    (∀ l' id', SESQLITE_BIHASH_FINDKEY (hash_id s) l' = Some id' →
               SESQLITE_BIHASH_FINDKEY (hash_id s') l' = Some id') ∧
    (∀ db', insert_id (Some db') (Some l) s' = Ret (id, s')).
Proof.
  intros Hn Hinv Hc Hsc Htk.
  destruct (insert_id_spec n ids s sc Hn Hinv Hc Hsc Htk db l)
    as (id & s' & ids' & E & Hsub & Hid & Hinv' & Hsame & _). exists id, s'.
  pose proof (bihash_findkey_Some _ _ l id (li_ids _ _ _ Hinv')) as Hk.
  split_and!; [done|..].
  - rewrite (bihash_find _ _ _ (li_ids _ _ _ Hinv')); [done|].
    by eapply (bh_range _ _ (li_ids _ _ _ Hinv')).
  - by apply Hk.
  - by apply (li_rows _ _ _ Hinv').
  - intros l' id'. rewrite (bihash_findkey_Some _ _ _ _ (li_ids _ _ _ Hinv)),
      (bihash_findkey_Some _ _ _ _ (li_ids _ _ _ Hinv')). intros Hl'. by eapply lookup_weaken.
  - intros db'. unfold insert_id. erewrite sm_bind_run by done. simpl.
    by rewrite (proj2 Hk Hid).
Qed.

(** C6: [getContext] returns the number of the label the object has, by its
    entry or by the configuration, and does not change the label of any
    object. *)
Theorem getContext_label n ids s sc o :
  0 ≤ n < 2 ^ 31 - 1 → labels_inv n ids s → contexts s = Some sc → ctx_ok sc →
  tuples_known ids sc → obj_ok o = true →
  ∃ id s', getContext (o_db o) (o_tbl o) (o_col o) (o_class o) s = Ret (id, s') ∧ 1 ≤ id ≤ n + 1 ∧
    is_Some (label_of s o) ∧ SESQLITE_BIHASH_FIND (hash_id s') id = label_of s o ∧
    ∀ o', obj_ok o' = true → label_of s' o' = label_of s o'.
Proof.
  intros Hn Hinv Hc Hsc Htk Ho.
  destruct (getContext_spec n ids s sc o) as (id & l & s' & ids' & E & Hl & Hid & _ & Hinv' & _ & Hs & _);
    [done..|]. pose proof (li_bound _ _ _ Hinv' _ _ Hid).
  exists id, s'. split_and!; [done|lia|lia|rewrite Hl; eauto| |done].
  rewrite Hl, (bihash_find _ _ _ (li_ids _ _ _ Hinv')); [done|].
  by eapply (bh_range _ _ (li_ids _ _ _ Hinv')).
Qed.

End selinux.
End labels.
Arguments sestate : clear implicits.

(** ** Witnesses *)

Abbreviation cstate :=
  (sestate (sqliteHash Z) (sqliteHash string) (sqliteHash Z) (sqliteHash bool)).

Definition ex_sc : sesqlite_context :=
  Ctx [CtxElem "*" "*" "*" (Some "*") "db_t"]
      [CtxElem "main.t" "main" "t" None "t_t"; CtxElem "*.*" "*" "*" None "tbl_t"] []
      [CtxElem "*.*.*" "*" "*" (Some "*") "col_t"] [CtxElem "*.*" "*" "*" None "sys_t"].

Definition ex_ids : gmap Z string := {[1 := "sys_t"]}.

(** The state once the labels of internal rows have been registered. *)
Definition ex_state : cstate :=
  let b := match SESQLITE_BIHASH_INSERT ex_bihash 1 "sys_t" with Ret (b, _) => b | _ => ex_bihash end in
  State (st_init SQLITE_HASH_STRING true true) b (st_init SQLITE_HASH_INT false false)
    (Some ex_sc) (Some "user_t") 2 0 [IdRow 1 1 "sys_t"] [] 1.

Lemma ex_inv : labels_inv 1 ex_ids ex_state.
Proof.
  destruct (bihash_insert_rep ex_bihash ∅ 1 "sys_t") as (b & E & Hb);
    [apply bihash_init_rep|by vm_compute|done|by intros ?; rewrite lookup_empty|].
  split.
  - cbn [hash_id ex_state]. rewrite E. exact Hb.
  - intros id l. unfold ex_ids. rewrite lookup_singleton_Some. simpl.
    setoid_rewrite list_elem_of_singleton. naive_solver.
  - intros id l. unfold ex_ids. rewrite lookup_singleton_Some. lia.
  - exists ∅. split; [apply st_init_rep|]. intros *. by rewrite lookup_empty.
Qed.

Lemma ex_sc_ok gc cr : ctx_ok gc cr ex_sc.
Proof. apply ctx_total_ok. by vm_compute. Qed.

Lemma ex_tuples : tuples_known ex_ids ex_sc.
Proof. intros e He. apply list_elem_of_singleton in He as ->. exists 1. by vm_compute. Qed.

Lemma make_key_injective_witness :
  (make_key (Some "main") (Some "t") None = make_key (Some "main") (Some "t") (Some "c") ↔
    OTbl "main" "t" = OCol "main" "t" "c") ∧
  ∀ d t c, make_key (Some d) (Some (t +:+ ":" +:+ c)) None = make_key (Some d) (Some t) (Some c).
Proof. apply (make_key_injective (OTbl "main" "t") (OCol "main" "t" "c")); reflexivity. Defined.

Lemma insert_id_registers_witness :
  ∃ id s', insert_id None (λ _ _ _, None) (Some "main") (Some "user_t") ex_state = Ret (id, s') ∧
    SESQLITE_BIHASH_FIND (hash_id s') id = Some "user_t" ∧
    SESQLITE_BIHASH_FINDKEY (hash_id s') "user_t" = Some id.
Proof.
  destruct (insert_id_registers None (λ _ _ _, None) 1 ex_ids ex_state ex_sc "main" "user_t")
    as (id & s' & E & H1 & H2 & _);
    [lia|exact ex_inv|reflexivity|apply ex_sc_ok|exact ex_tuples|].
  exists id, s'. split; [exact E|split; [exact H1|exact H2]].
Defined.

Lemma getContext_label_witness :
  ∃ id s', getContext None (λ _ _ _, None) (Some "main") (Some "t") None SELINUX_DB_TABLE ex_state
             = Ret (id, s') ∧ SESQLITE_BIHASH_FIND (hash_id s') id = Some "t_t".
Proof.
  destruct (getContext_label None (λ _ _ _, None) 1 ex_ids ex_state ex_sc (OTbl "main" "t"))
    as (id & s' & E & _ & _ & Hf & _);
    [lia|exact ex_inv|reflexivity|apply ex_sc_ok|exact ex_tuples|reflexivity|].
  exists id, s'. split; [exact E|exact Hf].
Defined.
