(* ===== verification/Ctype.v ===== *)
(** * Character classes

    The table [sqlite3CtypeMap] of src/global.c and the macros of
    src/sqliteInt.h that read it. *)

From S2P Require Import Prelude.
#[local] Open Scope Z_scope.
#[local] Open Scope c_scope.
#[local] Open Scope list_scope.

(** The runs of equal entries of the table. *)
Definition sqlite3CtypeMap : list Z :=
  replicate 9 0x00 ++ replicate 5 0x01 ++ replicate 18 0x00 ++ [0x01] ++ replicate 3 0x00 ++ [0x40] ++
  replicate 11 0x00 ++ replicate 10 0x0c ++ replicate 7 0x00 ++ replicate 6 0x0a ++ replicate 20 0x02 ++
  replicate 4 0x00 ++ [0x40] ++ [0x00] ++ replicate 6 0x2a ++ replicate 20 0x22 ++ replicate 5 0x00 ++
  replicate 128 0x40.

(** [sqlite3CtypeMap[(unsigned char)x] & mask] *)
Definition ctype (x mask : Z) : bool :=
  negb (nth (Z.to_nat (u8 x)) sqlite3CtypeMap 0 .& mask =? 0).

Definition sqlite3Isspace (x : Z) : bool := ctype x 0x01.
Definition sqlite3Isalnum (x : Z) : bool := ctype x 0x06.
Definition sqlite3Isalpha (x : Z) : bool := ctype x 0x02.
Definition sqlite3Isdigit (x : Z) : bool := ctype x 0x04.
Definition sqlite3Isxdigit (x : Z) : bool := ctype x 0x08.
(** [IdChar] of src/tokenize.c *)
Definition IdChar (x : Z) : bool := ctype x 0x46.

Definition is_digit (c : Z) : bool := (48 <=? c) && (c <=? 57).

(** The table agrees with the character classes of the "C" locale. *)
Lemma isdigit_range c : 0 ≤ c < 256 → sqlite3Isdigit c = is_digit c.
Proof.
  intros Hc. apply Bool.eqb_prop, (byte_cases (λ c, Bool.eqb (sqlite3Isdigit c) (is_digit c))); [reflexivity|done].
Qed.

Lemma isspace_range c :
  0 ≤ c < 256 → sqlite3Isspace c = (c =? 32) || ((9 <=? c) && (c <=? 13)).
Proof.
  intros Hc. apply Bool.eqb_prop,
    (byte_cases (λ c, Bool.eqb (sqlite3Isspace c) ((c =? 32) || ((9 <=? c) && (c <=? 13))))); [reflexivity|done].
Qed.

Lemma isalpha_range c :
  0 ≤ c < 256 → sqlite3Isalpha c = ((65 <=? c) && (c <=? 90)) || ((97 <=? c) && (c <=? 122)).
Proof.
  intros Hc. apply Bool.eqb_prop,
    (byte_cases (λ c, Bool.eqb (sqlite3Isalpha c) (((65 <=? c) && (c <=? 90)) || ((97 <=? c) && (c <=? 122)))));
    [reflexivity|done].
Qed.
