(* ===== verification/NestedSql.v ===== *)
(** * SQL texts of the extension and how they are read

    Models the texts that ext/security/sesqlite/sesqlite_authorizer.c gives
    to sqlite3NestedParse (src/build.c): the conversions %d, %s and %Q of
    src/printf.c print the numbers and the names into them.  Models the
    tokenizer (src/tokenize.c) that splits such a text and the form of the
    INSERT statements it can be (src/parse.y).  The table of keywords,
    which the build generates, is a parameter. *)

From S2P Require Import Prelude CString Ctype Labels.
From Stdlib Require Import Ascii.
#[local] Open Scope string_scope.
#[local] Open Scope Z_scope.
#[local] Open Scope list_scope.

#[local] Abbreviation list_ascii_of_string := Stdlib.Strings.String.list_ascii_of_string.
#[local] Abbreviation string_of_list_ascii := Stdlib.Strings.String.string_of_list_ascii.

(** ** Printing *)

Definition quote : ascii := "'"%char.
Definition tab : string := String (chr 9) "".

(** The digits of [v], which has at most [n] of them, least significant last. *)
Fixpoint radix_digits (n : nat) (v : Z) : list ascii :=
  match n with
  | O => []
  | S n' =>
      if v / 10 =? 0 then [chr (48 + v)] else radix_digits n' (v / 10) ++ [chr (48 + v mod 10)]
  end.

(** The conversion %d of an [int]. *)
Definition printf_d (v : Z) : string :=
  string_of_list_ascii ((if v <? 0 then ["-"%char] else []) ++ radix_digits 20 (Z.abs v)).

(** The characters of the conversion %q: every quote is doubled. *)
Fixpoint printf_q (s : string) : string :=
  match s with
  | EmptyString => ""
  | String c s' => if Ascii.eqb c quote then String c (String c (printf_q s')) else String c (printf_q s')
  end.

(** The conversion %Q of a pointer that is not NULL. *)
Definition printf_Q (s : string) : string := String quote (printf_q s +:+ String quote "").

(** '%s' in the source: the name is not changed between the quotes. *)
Definition quoted_s (s : string) : string := String quote (s +:+ String quote "").

(** The end of a row: names between quotes, separated by commas and [sep]. *)
Fixpoint names_text (sep : string) (names : list string) : string :=
  match names with
  | [] => ")"
  | [n] => quoted_s n +:+ ")"
  | n :: names' => quoted_s n +:+ "," +:+ sep +:+ names_text sep names'
  end.

(** The text that records the label of a table: the tabs are those of the
    continued lines of the source. *)
Definition insert_table_text (db : string) (con id : Z) (name : string) : string :=
  "INSERT INTO " +:+ printf_Q db +:+ "." +:+ SELINUX_CONTEXT +:+
  " (security_context, security_label, db, name) VALUES(" +:+ tab +:+ tab +:+ printf_d con +:+ ", " +:+
  printf_d id +:+ "," +:+ tab +:+ tab +:+ names_text (tab +:+ tab) [db; name].

(** The text that records the label of a column. *)
Definition insert_column_text (db : string) (con id : Z) (name column : string) : string :=
  "INSERT INTO " +:+ printf_Q db +:+ "." +:+ SELINUX_CONTEXT +:+
  "(security_context, security_label, db, name, column) VALUES(" +:+ tab +:+ tab +:+ tab +:+ printf_d con +:+
  ", " +:+ printf_d id +:+ "," +:+ tab +:+ tab +:+ tab +:+ names_text (tab +:+ tab +:+ tab) [db; name; column].

(** ** Tokens *)

Inductive token : Set :=
  | TK_SPACE | TK_MINUS | TK_LP | TK_RP | TK_SEMI | TK_PLUS | TK_STAR | TK_SLASH | TK_REM | TK_EQ | TK_LE
  | TK_NE | TK_LSHIFT | TK_LT | TK_GE | TK_RSHIFT | TK_GT | TK_BITOR | TK_CONCAT | TK_COMMA | TK_BITAND
  | TK_BITNOT | TK_STRING | TK_ID | TK_ILLEGAL | TK_DOT | TK_INTEGER | TK_FLOAT | TK_VARIABLE | TK_BLOB
  | TK_INSERT | TK_INTO | TK_VALUES | TK_COLUMNKW | TK_OTHER_KEYWORD.

#[global] Instance token_eq_dec : EqDecision token.
Proof. solve_decision. Defined.

(** [z[i]], 0 at the terminator. *)
Definition zat (z : list ascii) (i : nat) : Z := code (nth i z zero).

(** The loops [for(i=0; p(z[i]); i++)]: how many characters they pass. *)
Fixpoint span (p : Z → bool) (z : list ascii) : nat :=
  match z with
  | [] => 0
  | c :: z' => if p (code c) then S (span p z') else 0
  end.

(** The loop of a quoted token after its opening quote: the number of
    characters passed, the closing quote included, and whether it was found. *)
Fixpoint quoted_loop (delim : ascii) (z : list ascii) : nat * bool :=
  match z with
  | [] => (0%nat, false)
  | c :: z' =>
      if Ascii.eqb c delim then
        match z' with
        | c' :: z'' =>
            if Ascii.eqb c' delim then let '(n, b) := quoted_loop delim z'' in (S (S n), b) else (1%nat, true)
        | [] => (1%nat, true)
        end
      else let '(n, b) := quoted_loop delim z' in (S n, b)
  end.

(** The loop of a comment after its two opening characters. *)
Fixpoint comment_loop (z : list ascii) : nat :=
  match z with
  | [] => 0
  | c :: z' =>
      match z' with
      | [] => 1
      | c' :: _ => if (Ascii.eqb c "*" && Ascii.eqb c' "/")%char then 2 else S (comment_loop z')
      end
  end.

(** The loop of a variable after its first character; [n] tells whether an
    identifier character was read.  The second component is false when the
    token is illegal. *)
Fixpoint variable_loop (n : bool) (z : list ascii) : nat * bool :=
  match z with
  | [] => (0%nat, n)
  | c :: z' =>
      if IdChar (code c) then let '(i, b) := variable_loop true z' in (S i, b)
      else if Ascii.eqb c "("%char && n then
        let k := span (λ c, negb (sqlite3Isspace c) && negb (c =? code ")"%char)) z' in
        if zat z' k =? code ")"%char then (S (S k), true) else (S k, false)
      else if Ascii.eqb c ":"%char then
        match z' with
        | c' :: z'' => if Ascii.eqb c' ":"%char then let '(i, b) := variable_loop n z'' in (S (S i), b) else (0%nat, n)
        | [] => (0%nat, n)
        end
      else (0%nat, n)
  end.

(** A number that starts at [z]. *)
Definition number_token (z : list ascii) : token * nat :=
  let i := span sqlite3Isdigit z in
  let '(tk, i) :=
    if zat z i =? code "."%char then (TK_FLOAT, (i + 1 + span sqlite3Isdigit (drop (i + 1) z))%nat) else (TK_INTEGER, i) in
  let '(tk, i) :=
    if ((zat z i =? code "e"%char) || (zat z i =? code "E"%char)) &&
       (sqlite3Isdigit (zat z (i + 1)) ||
        ((zat z (i + 1) =? code "+"%char) || (zat z (i + 1) =? code "-"%char)) && sqlite3Isdigit (zat z (i + 2)))
    then (TK_FLOAT, (i + 2 + span sqlite3Isdigit (drop (i + 2) z))%nat) else (tk, i) in
  let k := span IdChar (drop i z) in
  (if (k =? 0)%nat then tk else TK_ILLEGAL, (i + k)%nat).

(** A blob literal whose first two characters are x and a quote. *)
Definition blob_token (z : list ascii) : token * nat :=
  let i := (2 + span sqlite3Isxdigit (drop 2 z))%nat in
  let '(tk, i) :=
    if negb (zat z i =? code quote) || negb (Nat.even i)
    then (TK_ILLEGAL, (i + span (λ c, negb (c =? code quote)%Z) (drop i z))%nat) else (TK_BLOB, i) in
  (tk, if zat z i =? 0 then i else S i).

Section tokenizer.
Variable keywordCode : string → token.

Definition id_token (z : list ascii) : token * nat :=
  if IdChar (zat z 0) then
    let i := S (span IdChar (tl z)) in (keywordCode (string_of_list_ascii (take i z)), i)
  else (TK_ILLEGAL, 1%nat).

Definition sqlite3GetToken (z : list ascii) : token * nat :=
  let c0 := zat z 0 in
  let c1 := zat z 1 in
  let at0 (c : ascii) := c0 =? code c in
  if at0 " "%char || (c0 =? 9) || (c0 =? 10) || (c0 =? 12) || (c0 =? 13) then (TK_SPACE, S (span sqlite3Isspace (tl z)))
  else if at0 "-"%char then
    if c1 =? code "-"%char then (TK_SPACE, (2 + span (λ c, negb (c =? 10)%Z) (drop 2 z))%nat) else (TK_MINUS, 1%nat)
  else if at0 "("%char then (TK_LP, 1%nat)
  else if at0 ")"%char then (TK_RP, 1%nat)
  else if at0 ";"%char then (TK_SEMI, 1%nat)
  else if at0 "+"%char then (TK_PLUS, 1%nat)
  else if at0 "*"%char then (TK_STAR, 1%nat)
  else if at0 "/"%char then
    if negb (c1 =? code "*"%char) || (zat z 2 =? 0) then (TK_SLASH, 1%nat)
    else (TK_SPACE, (2 + comment_loop (drop 2 z))%nat)
  else if at0 "%"%char then (TK_REM, 1%nat)
  else if at0 "="%char then (TK_EQ, if c1 =? code "="%char then 2%nat else 1%nat)
  else if at0 "<"%char then
    if c1 =? code "="%char then (TK_LE, 2%nat) else if c1 =? code ">"%char then (TK_NE, 2%nat)
    else if c1 =? code "<"%char then (TK_LSHIFT, 2%nat) else (TK_LT, 1%nat)
  else if at0 ">"%char then
    if c1 =? code "="%char then (TK_GE, 2%nat) else if c1 =? code ">"%char then (TK_RSHIFT, 2%nat) else (TK_GT, 1%nat)
  else if at0 "!"%char then (if c1 =? code "="%char then TK_NE else TK_ILLEGAL, 2%nat)
  else if at0 "|"%char then if c1 =? code "|"%char then (TK_CONCAT, 2%nat) else (TK_BITOR, 1%nat)
  else if at0 ","%char then (TK_COMMA, 1%nat)
  else if at0 "&"%char then (TK_BITAND, 1%nat)
  else if at0 "~"%char then (TK_BITNOT, 1%nat)
  else if at0 "`"%char || at0 "'"%char || (c0 =? 34) then
    let delim := chr c0 in
    let '(n, closed) := quoted_loop delim (tl z) in
    (if closed then if Ascii.eqb delim quote then TK_STRING else TK_ID else TK_ILLEGAL, S n)
  else if (at0 "."%char && sqlite3Isdigit c1) || sqlite3Isdigit c0 then number_token z
  else if at0 "."%char then (TK_DOT, 1%nat)
  else if at0 "["%char then
    let n := span (λ c, negb (c =? code "]"%char)%Z) (tl z) in
    if zat (tl z) n =? code "]"%char then (TK_ID, (2 + n)%nat) else (TK_ILLEGAL, S n)
  else if at0 "?"%char then (TK_VARIABLE, S (span sqlite3Isdigit (tl z)))
  else if at0 "$"%char || at0 "@"%char || at0 "#"%char || at0 ":"%char then
    let '(i, legal) := variable_loop false (tl z) in (if legal then TK_VARIABLE else TK_ILLEGAL, S i)
  else if (at0 "x"%char || at0 "X"%char) && (c1 =? code quote) then blob_token z
  else id_token z.

(** The loop of sqlite3RunParser: the tokens it gives to the parser for the
    text [z], of which it may still read [room] characters; [None] when a
    token is illegal or the text is too long.  [fuel] bounds the tokens. *)
Fixpoint parser_tokens (fuel : nat) (room : Z) (z : list ascii) : option (list (token * list ascii)) :=
  match fuel, z with
  | _, [] => Some []
  | O, _ => None
  | S fuel', _ =>
      let '(tk, n) := sqlite3GetToken z in
      let room := room - Z.of_nat n in
      if room <? 0 then None
      else match tk with
           | TK_ILLEGAL => None
           | TK_SPACE => parser_tokens fuel' room (drop n z)
           | _ => ((tk, take n z) ::.) <$> parser_tokens fuel' room (drop n z)
           end
  end.

(** ** Statements *)

(** The value of an expression of an inserted row. *)
Inductive sql_value := VInt (v : Z) | VStr (s : string).

#[global] Instance sql_value_eq_dec : EqDecision sql_value.
Proof. solve_decision. Defined.

(** INSERT INTO schema.table (columns) VALUES (row) *)
Record sql_insert := SqlInsert {
  ins_schema : string;
  ins_table : string;
  ins_columns : list string;
  ins_row : list sql_value;
}.

(** The name a token stands for (sqlite3NameFromToken): a quoted name loses
    its quotes. *)
Definition dequoted (raw : list ascii) : option string :=
  match sqlite3Dequote (Some (string_of_list_ascii raw)) with Ret (_, z) => z | Undef _ => None end.

(** nm: an identifier, a string, or the keyword COLUMN, which the grammar
    accepts as an identifier. *)
Definition read_nm (t : token * list ascii) : option string :=
  match fst t with
  | TK_ID | TK_STRING | TK_COLUMNKW => dequoted (snd t)
  | _ => None
  end.

Definition decimal_value (raw : list ascii) : Z := fold_left (λ a c, 10 * a + (code c - 48)) raw 0.

(** The list [item, item, ... )] with the reader [item] of its items. *)
Fixpoint read_list {A} (item : list (token * list ascii) → option (A * list (token * list ascii)))
    (fuel : nat) (ts : list (token * list ascii)) : option (list A * list (token * list ascii)) :=
  match fuel with
  | O => None
  | S fuel' =>
      '(a, ts) ← item ts;
      match ts with
      | (TK_COMMA, _) :: ts' => '(l, ts) ← read_list item fuel' ts'; Some (a :: l, ts)
      | (TK_RP, _) :: ts' => Some ([a], ts')
      | _ => None
      end
  end.

Definition read_column (ts : list (token * list ascii)) : option (string * list (token * list ascii)) :=
  match ts with t :: ts' => n ← read_nm t; Some (n, ts') | [] => None end.

(** An integer, with or without a sign, or a string. *)
Definition read_value (ts : list (token * list ascii)) : option (sql_value * list (token * list ascii)) :=
  match ts with
  | (TK_INTEGER, raw) :: ts' => Some (VInt (decimal_value raw), ts')
  | (TK_MINUS, _) :: (TK_INTEGER, raw) :: ts' => Some (VInt (- decimal_value raw), ts')
  | (TK_STRING, raw) :: ts' => s ← dequoted raw; Some (VStr s, ts')
  | _ => None
  end.

(** The insertion of a row of literals that the tokens are, followed by
    nothing but semicolons; [None] for any other statement. *)
Definition read_insert (ts : list (token * list ascii)) : option sql_insert :=
  match ts with
  | (TK_INSERT, _) :: (TK_INTO, _) :: db :: (TK_DOT, _) :: tbl :: (TK_LP, _) :: ts' =>
      db ← read_nm db;
      tbl ← read_nm tbl;
      '(cols, ts') ← read_list read_column (length ts') ts';
      match ts' with
      | (TK_VALUES, _) :: (TK_LP, _) :: ts' =>
          '(row, ts') ← read_list read_value (length ts') ts';
          if forallb (λ t, bool_decide (fst t = TK_SEMI)) ts' then Some (SqlInsert db tbl cols row) else None
      | _ => None
      end
  | _ => None
  end.

(** What sqlite3NestedParse inserts for a text; [mxSqlLen] is the limit
    SQLITE_LIMIT_SQL_LENGTH of the connection. *)
Definition nested_insert (mxSqlLen : Z) (zSql : string) : option sql_insert :=
  let z := list_ascii_of_string zSql in
  ts ← parser_tokens (length z) mxSqlLen z;
  read_insert ts.

(** ** Lemmas on tokens *)

Definition quotes (z : list ascii) : nat := length (filter (λ c, c = quote) z).

(** No single quote. *)
Definition quote_free (s : string) : bool := negb (str_mem quote s).

Lemma number_token_pos z :
  sqlite3Isdigit (zat z 0) = true ∨ zat z 0 = code "."%char → (1 ≤ snd (number_token z))%nat.
Proof.
  intros H. unfold number_token.
  assert (1 ≤ span sqlite3Isdigit z ∨ span sqlite3Isdigit z = 0%nat ∧ zat z 0 = code "."%char)%nat as Hs.
  { destruct H as [H|H].
    - left. destruct z as [|c z]; [done|]. unfold zat in H. simpl in *. rewrite H. lia.
    - destruct (span sqlite3Isdigit z) eqn:E; [by right|left; lia]. }
  repeat case_match; simplify_eq/=; try lia; destruct Hs as [?|[E E0]]; try lia;
    rewrite E in *; b2p; congruence.
Qed.

Lemma pos_if (b : bool) (x y : token * nat) :
  (b = true → 1 ≤ snd x)%nat → (b = false → 1 ≤ snd y)%nat → (1 ≤ snd (if b then x else y))%nat.
Proof. destruct b; auto. Qed.

Ltac token_branch :=
  match goal with |- (1 ≤ snd (if ?b then ?x else ?y))%nat => refine (pos_if b x y _ _); intros ? end.

Lemma sqlite3GetToken_pos z : (1 ≤ snd (sqlite3GetToken z))%nat.
Proof.
  unfold sqlite3GetToken. cbv zeta.
  repeat token_branch.
  all: try (apply le_n_S, Nat.le_0_l); try (cbn [snd]; case_match; apply le_n_S, Nat.le_0_l).
  - apply number_token_pos.
    match goal with H : _ || sqlite3Isdigit _ = true |- _ => apply orb_true_iff in H as [H|H] end; [right|by left].
    match goal with H : _ && _ = true |- _ => apply andb_true_iff in H as [H _]; by apply Z.eqb_eq end.
  - clear. unfold blob_token. destruct (_ || _); cbn [snd]; case_match; apply le_n_S, Nat.le_0_l.
  - unfold id_token. by destruct (IdChar _); apply le_n_S, Nat.le_0_l.
Qed.

(** As much fuel as there are characters is enough. *)
Lemma parser_tokens_fuel f1 f2 room z :
  (length z ≤ f1)%nat → (length z ≤ f2)%nat → parser_tokens f1 room z = parser_tokens f2 room z.
Proof.
  revert f2 room z. induction f1 as [|f1 IH]; intros f2 room z H1 H2.
  { destruct z; [by destruct f2|simpl in H1; lia]. }
  destruct z as [|c z]; [by destruct f2|]. destruct f2 as [|f2]; [simpl in H2; lia|]. cbn [parser_tokens].
  pose proof (sqlite3GetToken_pos (c :: z)) as Hp. destruct (sqlite3GetToken (c :: z)) as [tk n]. cbn [snd] in Hp.
  destruct (_ <? 0); [done|].
  assert (∀ r, parser_tokens f1 r (drop n (c :: z)) = parser_tokens f2 r (drop n (c :: z))) as E.
  { intros r. apply IH; rewrite length_drop; simpl in *; lia. }
  by rewrite !E.
Qed.

Definition tokens (room : Z) (z : list ascii) : option (list (token * list ascii)) :=
  parser_tokens (length z) room z.

(** One token more. *)
Lemma tokens_step room z :
  z ≠ [] →
  tokens room z =
    let '(tk, n) := sqlite3GetToken z in
    if room <? Z.of_nat n then None
    else match tk with
         | TK_ILLEGAL => None
         | TK_SPACE => tokens (room - Z.of_nat n) (drop n z)
         | _ => ((tk, take n z) ::.) <$> tokens (room - Z.of_nat n) (drop n z)
         end.
Proof.
  intros Hz. unfold tokens at 1. destruct z as [|c z]; [done|]. cbn [length parser_tokens].
  pose proof (sqlite3GetToken_pos (c :: z)) as Hp. destruct (sqlite3GetToken (c :: z)) as [tk n]. cbn [snd] in Hp.
  assert ((room - Z.of_nat n <? 0) = (room <? Z.of_nat n)) as ->
    by (apply Bool.eq_true_iff_eq; rewrite !Z.ltb_lt; lia).
  destruct (room <? Z.of_nat n); [done|].
  assert (∀ r, parser_tokens (length z) r (drop n (c :: z)) = tokens r (drop n (c :: z))) as E.
  { intros r. apply parser_tokens_fuel; rewrite length_drop; simpl in *; lia. }
  by rewrite !E.
Qed.

(** [p], followed by [z'], is read as the tokens [ts]. *)
Definition lexes (p : list ascii) (ts : list (token * list ascii)) (z' : list ascii) : Prop :=
  ∀ room, tokens room (p ++ z') =
    if room <? Z.of_nat (length p) then None else (ts ++.) <$> tokens (room - Z.of_nat (length p)) z'.

Lemma lexes_app p1 p2 t1 t2 z' : lexes p1 t1 (p2 ++ z') → lexes p2 t2 z' → lexes (p1 ++ p2) (t1 ++ t2) z'.
Proof.
  intros H1 H2 room. rewrite <- app_assoc, H1, H2, length_app.
  destruct (Z.ltb_spec room (Z.of_nat (length p1))), (Z.ltb_spec (room - Z.of_nat (length p1)) (Z.of_nat (length p2))),
    (Z.ltb_spec room (Z.of_nat (length p1 + length p2))); try done; try lia.
  replace (room - Z.of_nat (length p1) - Z.of_nat (length p2)) with (room - Z.of_nat (length p1 + length p2)) by lia.
  destruct (tokens _ z'); simpl; [|done]. by rewrite app_assoc.
Qed.

Lemma lexes_token p tk z' :
  p ≠ [] → sqlite3GetToken (p ++ z') = (tk, length p) → tk ≠ TK_ILLEGAL → tk ≠ TK_SPACE → lexes p [(tk, p)] z'.
Proof.
  intros Hp E Hi Hs room. rewrite tokens_step by (by destruct p). rewrite E, drop_app_length, take_app_length.
  destruct (room <? _); [done|]. by destruct tk.
Qed.

Lemma lexes_space p z' : p ≠ [] → sqlite3GetToken (p ++ z') = (TK_SPACE, length p) → lexes p [] z'.
Proof.
  intros Hp E room. rewrite tokens_step by (by destruct p). rewrite E, drop_app_length.
  destruct (room <? _); [done|]. by destruct (tokens _ z').
Qed.

(** ** Quoted texts *)

Lemma list_ascii_app a b : list_ascii_of_string (a +:+ b) = list_ascii_of_string a ++ list_ascii_of_string b.
Proof. induction a as [|c a IH]; [done|]. simpl. by f_equal. Qed.

(** The token of a quoted text. *)
Lemma token_quoted z :
  sqlite3GetToken (quote :: z) =
    let '(n, closed) := quoted_loop quote z in (if closed then TK_STRING else TK_ILLEGAL, S n).
Proof. reflexivity. Qed.

Lemma quoted_loop_q s rest :
  head rest ≠ Some quote →
  quoted_loop quote (list_ascii_of_string (printf_q s) ++ quote :: rest)
    = (S (length (list_ascii_of_string (printf_q s))), true).
Proof.
  intros Hr. induction s as [|c s IH]; cbn [printf_q].
  - cbn. destruct rest as [|c rest]; [done|]. destruct (Ascii.eqb_spec c quote); [naive_solver|done].
  - destruct (Ascii.eqb c quote) eqn:E; cbn [list_ascii_of_string app quoted_loop length]; rewrite !E, IH; done.
Qed.

Lemma lexes_Q s rest :
  head rest ≠ Some quote →
  lexes (list_ascii_of_string (printf_Q s)) [(TK_STRING, list_ascii_of_string (printf_Q s))] rest.
Proof.
  intros Hr. apply lexes_token; [done| |done..]. unfold printf_Q. cbn [list_ascii_of_string].
  rewrite list_ascii_app. cbn [list_ascii_of_string app]. rewrite <- app_assoc. cbn [app].
  rewrite token_quoted, quoted_loop_q by done. cbn [length]. rewrite length_app. simpl. do 2 f_equal. lia.
Qed.

Lemma append_cons c a b : String c a +:+ b = String c (a +:+ b).
Proof. done. Qed.

Lemma dequote_loop_q s : dequote_loop quote (printf_q s +:+ String quote "") = Ret s.
Proof.
  induction s as [|c s IH]; [done|]. cbn [printf_q].
  destruct (Ascii.eqb_spec c quote) as [->|Hne].
  - rewrite !append_cons. simpl. by rewrite IH.
  - apply Ascii.eqb_neq in Hne. rewrite append_cons. cbn [dequote_loop]. by rewrite Hne, IH.
Qed.

Lemma dequoted_Q s : dequoted (list_ascii_of_string (printf_Q s)) = Some s.
Proof.
  unfold dequoted. rewrite Stdlib.Strings.String.string_of_list_ascii_of_string. cbn -[dequote_loop].
  by rewrite dequote_loop_q.
Qed.

(** Printing with %q changes no more than the quotes. *)
Lemma printf_q_free s : quote_free s = true → printf_q s = s.
Proof.
  unfold quote_free. induction s as [|c s IH]; [done|]. cbn [str_mem printf_q]. rewrite negb_orb.
  intros [Hc Hs]%andb_true_iff. rewrite Ascii.eqb_sym in Hc. apply negb_true_iff in Hc. by rewrite Hc, IH.
Qed.

Lemma quotes_app a b : quotes (a ++ b) = (quotes a + quotes b)%nat.
Proof. unfold quotes. by rewrite list.filter_app, length_app. Qed.

Lemma quotes_cons c z : quotes (c :: z) = ((if Ascii.eqb c quote then 1 else 0) + quotes z)%nat.
Proof.
  unfold quotes. rewrite list.filter_cons. destruct (Ascii.eqb_spec c quote); case_decide; try done.
Qed.

Lemma quote_free_quotes s : quote_free s = true ↔ quotes (list_ascii_of_string s) = 0%nat.
Proof.
  unfold quote_free. induction s as [|c s IH]; [done|]. cbn [list_ascii_of_string]. rewrite quotes_cons.
  cbn [str_mem]. rewrite Ascii.eqb_sym. destruct (Ascii.eqb c quote); cbn; [|done]. split; [done|lia].
Qed.

(** The quotes of a token that was read: two for each one of its value, and
    those around it. *)
Lemma quoted_loop_quotes z n s :
  quoted_loop quote z = (n, true) →
  dequote_loop quote (string_of_list_ascii (take n z)) = Ret s →
  quotes (take n z) = S (2 * quotes (list_ascii_of_string s)).
Proof.
  remember (length z) as k eqn:Ek. assert (length z ≤ k)%nat as Hk by lia. clear Ek.
  revert z n s Hk. induction k as [|k IH]; intros z n s Hk; (destruct z as [|c z]; [done|]); [simpl in Hk; lia|].
  cbn [length] in Hk. cbn [quoted_loop]. destruct (Ascii.eqb_spec c quote) as [->|Hne].
  - destruct z as [|c' z].
    { intros [= <-]. cbn. by intros [= <-]. }
    destruct (Ascii.eqb_spec c' quote) as [->|Hne'].
    + destruct (quoted_loop quote z) as [m b] eqn:E. intros [= <- ->]. cbn [take].
      cbn [string_of_list_ascii dequote_loop]. rewrite !Ascii.eqb_refl.
      destruct (dequote_loop quote _) as [s'|] eqn:Ed; [|done]. intros [= <-].
      rewrite !quotes_cons, !Ascii.eqb_refl. cbn [list_ascii_of_string]. rewrite quotes_cons, Ascii.eqb_refl.
      rewrite (IH z m s'); [lia|simpl in Hk; lia|done|done].
    + intros [= <-]. cbn. by intros [= <-].
  - destruct (quoted_loop quote z) as [m b] eqn:E. intros [= <- ->]. cbn [take string_of_list_ascii dequote_loop].
    assert (Ascii.eqb c quote = false) as Hc by by apply Ascii.eqb_neq. rewrite Hc.
    destruct (dequote_loop quote _) as [s'|] eqn:Ed; [|done]. intros [= <-].
    cbn [list_ascii_of_string]. rewrite !quotes_cons, Hc. rewrite (IH z m s'); [lia|lia|done|done].
Qed.

(** A text token has two quotes for each one of its value, and two more. *)
Definition genuine (t : token * list ascii) : Prop :=
  fst t = TK_STRING → ∀ s, dequoted (snd t) = Some s →
    quotes (snd t) = (2 + 2 * quotes (list_ascii_of_string s))%nat.

Lemma branch (b : bool) (x y t : token * nat) (P : Prop) :
  (b = true → x = t → P) → (b = false → y = t → P) → (if b then x else y) = t → P.
Proof. destruct b; auto. Qed.

Ltac token_branches :=
  match goal with |- (if ?b then ?x else ?y) = ?t → ?P => refine (branch b x y t P _ _); intros ? end.

Lemma chr_code c : chr (code c) = c.
Proof.
  unfold chr, u8. pose proof (code_range c) as H. rewrite Z.mod_small by lia. unfold code.
  by rewrite N2Z.id, ascii_N_embedding.
Qed.

Lemma number_not_string z n : number_token z = (TK_STRING, n) → False.
Proof. unfold number_token. repeat case_match; intros; simplify_eq. Qed.

(** Only a quote starts a text token. *)
Lemma string_token z n :
  (∀ s, keywordCode s ≠ TK_STRING) → sqlite3GetToken z = (TK_STRING, n) →
  ∃ z' m, z = quote :: z' ∧ quoted_loop quote z' = (m, true) ∧ n = S m.
Proof.
  intros Hk. unfold sqlite3GetToken. cbv zeta. repeat token_branches.
  all: try discriminate.
  all: try (intros [=]; case_match; discriminate).
  - match goal with H : _ || (zat z 0 =? 34) = true |- _ => revert H end. clear -Hk.
    destruct z as [|c z]; [done|]. intros _. unfold zat. cbn [nth tl]. rewrite chr_code.
    destruct (quoted_loop c z) as [m closed] eqn:E. destruct closed; [|done].
    destruct (Ascii.eqb_spec c quote) as [->|]; [|done]. intros [= <-]. eauto.
  - by intros []%number_not_string.
  - clear. destruct (variable_loop _ _) as [i []]; done.
  - clear. unfold blob_token. by destruct (_ || _).
  - unfold id_token. destruct (IdChar _); [|done]. by intros [= ?%Hk].
Qed.

Lemma string_length_list s : String.length s = length (list_ascii_of_string s).
Proof. induction s as [|c s IH]; [done|]. cbn. by rewrite IH. Qed.

Section counting.
Hypothesis keywords_not_string : ∀ s, keywordCode s ≠ TK_STRING.

Lemma token_genuine z tk n : sqlite3GetToken z = (tk, n) → genuine (tk, take n z).
Proof.
  intros E Hs s Hd. cbn [fst snd] in *. subst tk.
  apply string_token in E as (z' & m & -> & Hq & ->); [|done]. cbn [take] in *.
  rewrite quotes_cons, Ascii.eqb_refl. rewrite (quoted_loop_quotes _ _ s Hq); [lia|].
  unfold dequoted in Hd. cbn [string_of_list_ascii] in Hd. change (sqlite3Dequote _) with
    (r ← dequote_loop quote (string_of_list_ascii (take m z')); Ret (Z.of_nat (String.length r), Some r)) in Hd.
  by destruct (dequote_loop quote _); simplify_eq/=.
Qed.

Definition all_quotes (ts : list (token * list ascii)) : nat := list_sum (quotes <$> ts.*2).

Lemma all_quotes_cons t ts : all_quotes (t :: ts) = (quotes (snd t) + all_quotes ts)%nat.
Proof. done. Qed.

(** The tokens of a text have no more quotes than the text. *)
Lemma tokens_quotes room z ts :
  tokens room z = Some ts →
  Forall genuine ts ∧ (all_quotes ts ≤ quotes z)%nat ∧ Z.of_nat (length z) ≤ Z.max 0 room.
Proof.
  remember (length z) as k eqn:Ek. assert (length z ≤ k)%nat as Hk by lia. rewrite Ek. clear Ek.
  revert room z ts Hk. induction k as [|k IH]; intros room z ts Hk; 
    (destruct z as [|c z]; [intros [= <-]; split_and!; [constructor|done|cbn [length]; lia]|]);
    [simpl in Hk; lia|].
  rewrite tokens_step by done. pose proof (sqlite3GetToken_pos (c :: z)) as Hp.
  destruct (sqlite3GetToken (c :: z)) as [tk n] eqn:Eg. cbn [snd] in Hp.
  destruct (Z.ltb_spec room (Z.of_nat n)); [done|].
  assert (∀ ts', tokens (room - Z.of_nat n) (drop n (c :: z)) = Some ts' →
    Forall genuine ts' ∧ (all_quotes ts' ≤ quotes (drop n (c :: z)))%nat ∧
    Z.of_nat (length (c :: z)) ≤ Z.max 0 room) as IH'.
  { intros ts' Ht. destruct (IH (room - Z.of_nat n) (drop n (c :: z)) ts') as (H1 & H2 & H3);
      [rewrite length_drop; cbn [length] in *; lia|exact Ht|].
    split_and!; [done..|]. rewrite length_drop in H3. lia. }
  assert (quotes (c :: z) = quotes (take n (c :: z)) + quotes (drop n (c :: z)))%nat as Hq
    by by rewrite <- quotes_app, take_drop.
  assert ((tokens (room - Z.of_nat n) (drop n (c :: z)) = Some ts ∨
    ∃ ts', tokens (room - Z.of_nat n) (drop n (c :: z)) = Some ts' ∧ ts = (tk, take n (c :: z)) :: ts') →
    Forall genuine ts ∧ (all_quotes ts ≤ quotes (c :: z))%nat ∧ Z.of_nat (length (c :: z)) ≤ Z.max 0 room) as Hall.
  { intros [Ht|(ts' & Ht & ->)]; apply IH' in Ht as (H1 & H2 & H3).
    - split_and!; [done|lia|done].
    - split_and!; [constructor; [by eapply token_genuine|done]|rewrite all_quotes_cons; cbn [snd]; lia|done]. }
  intros E. apply Hall.
  destruct tk; try done; try (by left); right; apply fmap_Some in E as (ts' & Ht & ->); eauto.
Qed.

(** The quotes that reading the values of a row takes. *)
Definition value_quotes (v : sql_value) : nat :=
  match v with VInt _ => 0 | VStr s => 2 + 2 * quotes (list_ascii_of_string s) end.

Lemma read_value_quotes ts v ts' :
  Forall genuine ts → read_value ts = Some (v, ts') →
  Forall genuine ts' ∧ (value_quotes v + all_quotes ts' ≤ all_quotes ts)%nat.
Proof.
  intros Hg. destruct ts as [|[tk raw] ts]; [done|]. cbn [read_value].
  apply list.Forall_cons in Hg as [Hg Hgs].
  destruct tk; try done.
  - destruct ts as [|[[] raw'] ts]; try done. intros [= <- <-]. apply list.Forall_cons in Hgs as [_ Hgs].
    split; [done|]. rewrite !all_quotes_cons. cbn. lia.
  - destruct (dequoted raw) as [s|] eqn:E; [|done]. intros [= <- <-]. split; [done|].
    rewrite all_quotes_cons. cbn [snd value_quotes]. specialize (Hg eq_refl s E). cbn [snd] in Hg. lia.
  - intros [= <- <-]. split; [done|]. rewrite all_quotes_cons. cbn. lia.
Qed.

Lemma read_values_quotes fuel ts l ts' :
  Forall genuine ts → read_list read_value fuel ts = Some (l, ts') →
  (list_sum (value_quotes <$> l) ≤ all_quotes ts)%nat.
Proof.
  revert ts l ts'. induction fuel as [|fuel IH]; intros ts l ts' Hg; [done|]. cbn [read_list].
  destruct (read_value ts) as [[v ts1]|] eqn:E; [|done]. cbn [mbind option_bind].
  apply read_value_quotes in E as [Hg1 Hq1]; [|done].
  destruct ts1 as [|[tk raw] ts1]; [done|]. apply list.Forall_cons in Hg1 as [_ Hg1]. rewrite all_quotes_cons in Hq1.
  destruct tk; try done.
  - intros [= <- <-]. cbn. lia.
  - destruct (read_list read_value fuel ts1) as [[l1 ts2]|] eqn:E1; [|done]. intros [= <- <-].
    apply IH in E1; [|done]. cbn [fmap list_fmap list_sum foldr] in *. unfold list_sum in *. simpl. lia.
Qed.
End counting.

(** ** Numbers *)

Lemma code_chr x : 0 ≤ x < 256 → code (chr x) = x.
Proof.
  intros Hx. unfold code, chr, u8. rewrite Z.mod_small by lia.
  rewrite N_ascii_embedding by (change 256%N with (Z.to_N 256); lia). lia.
Qed.

Definition is_digits (z : list ascii) : Prop := Forall (λ c, 48 ≤ code c ≤ 57) z.

Lemma radix_digits_spec n v :
  0 ≤ v < 10 ^ Z.of_nat n → (0 < n)%nat →
  is_digits (radix_digits n v) ∧ radix_digits n v ≠ [] ∧ decimal_value (radix_digits n v) = v.
Proof.
  revert v. induction n as [|n IH]; intros v Hv Hn; [lia|]. cbn [radix_digits].
  pose proof (Z.mod_pos_bound v 10 ltac:(lia)) as Hm. pose proof (Z.div_mod v 10 ltac:(lia)) as Hdm.
  destruct (Z.eqb_spec (v / 10) 0) as [E|E].
  - assert (code (chr (48 + v)) = 48 + v) as Ec by (apply code_chr; lia).
    split_and!; [constructor; [lia|constructor]|done|]. unfold decimal_value. cbn [fold_left]. lia.
  - assert (0 < v / 10) as Hpos by (pose proof (Z.div_pos v 10); lia).
    rewrite Nat2Z.inj_succ, Z.pow_succ_r in Hv by lia.
    destruct n as [|n]; [change (10 ^ Z.of_nat 0) with 1 in Hv; lia|].
    destruct (IH (v / 10)) as (H1 & H2 & H3); [split; [lia|apply Z.div_lt_upper_bound; lia]|lia|].
    assert (code (chr (48 + v mod 10)) = 48 + v mod 10) as Ec by (apply code_chr; lia).
    split_and!.
    + apply Forall_app; split; [done|]. constructor; [lia|constructor].
    + by intros [_ [=]]%app_nil.
    + unfold decimal_value in *. rewrite fold_left_app. cbn [fold_left]. rewrite H3. lia.
Qed.

Lemma digit_token c z :
  48 ≤ code c ≤ 57 → sqlite3GetToken (c :: z) = number_token (c :: z).
Proof.
  intros Hc. assert (sqlite3Isdigit (code c) = true) as Hd.
  { rewrite isdigit_range by (pose proof (code_range c); lia). unfold is_digit.
    by rewrite (proj2 (Z.leb_le 48 _)), (proj2 (Z.leb_le _ 57)) by lia. }
  clear Hc. destruct c as [[] [] [] [] [] [] [] []]; vm_compute in Hd; try discriminate; reflexivity.
Qed.

Lemma span_digits ds c z :
  is_digits ds → sqlite3Isdigit (code c) = false → span sqlite3Isdigit (ds ++ c :: z) = length ds.
Proof.
  intros Hds Hc. induction Hds as [|d ds Hd Hds IH]; cbn [app span length]; [by rewrite Hc|].
  rewrite isdigit_range by (pose proof (code_range d); lia). unfold is_digit.
  rewrite (proj2 (Z.leb_le 48 _)), (proj2 (Z.leb_le _ 57)) by lia. cbn [andb]. by rewrite IH.
Qed.

Definition int_ok (v : Z) : Prop := 0 ≤ v < 2 ^ 31.

Lemma printf_d_digits v :
  int_ok v → is_digits (list_ascii_of_string (printf_d v)) ∧ list_ascii_of_string (printf_d v) ≠ [] ∧
  decimal_value (list_ascii_of_string (printf_d v)) = v.
Proof.
  unfold int_ok. intros Hv. unfold printf_d. rewrite Stdlib.Strings.String.list_ascii_of_string_of_list_ascii.
  assert ((v <? 0) = false) as -> by (apply Z.ltb_ge; lia). rewrite Z.abs_eq by lia.
  apply radix_digits_spec; [|lia]. change (10 ^ Z.of_nat 20) with 100000000000000000000. lia.
Qed.

Lemma lexes_d v rest :
  int_ok v → head rest = Some ","%char →
  lexes (list_ascii_of_string (printf_d v)) [(TK_INTEGER, list_ascii_of_string (printf_d v))] rest.
Proof.
  intros Hv Hr. destruct rest as [|c z]; [done|]. injection Hr as ->. destruct (printf_d_digits v Hv) as (Hd & Hne & _). apply lexes_token; [done| |done..].
  set (ds := list_ascii_of_string (printf_d v)) in *. clearbody ds.
  destruct ds as [|d ds]; [done|]. rewrite <- app_comm_cons.
  rewrite digit_token by (by apply list.Forall_cons in Hd as [? _]). rewrite app_comm_cons.
  unfold number_token. rewrite span_digits by done.
  assert (zat ((d :: ds) ++ ","%char :: z) (length (d :: ds)) = 44) as Ez.
  { unfold zat. by rewrite app_nth2, Nat.sub_diag by lia. }
  rewrite Ez. change (44 =? code "."%char) with false. cbn iota. rewrite Ez. cbn iota.
  change (44 =? code "e"%char) with false. change (44 =? code "E"%char) with false. cbn [orb andb].
  rewrite drop_app_length. change (span IdChar (","%char :: z)) with 0%nat. cbn. by rewrite Nat.add_0_r.
Qed.

(** ** The names at the end of a row *)

Fixpoint names_tokens (names : list string) : list (token * list ascii) :=
  match names with
  | [] => [(TK_RP, [")"%char])]
  | [n] => [(TK_STRING, list_ascii_of_string (quoted_s n)); (TK_RP, [")"%char])]
  | n :: names' =>
      (TK_STRING, list_ascii_of_string (quoted_s n)) :: (TK_COMMA, [","%char]) :: names_tokens names'
  end.

Lemma quoted_s_free n : quote_free n = true → quoted_s n = printf_Q n.
Proof. intros Hn. unfold quoted_s, printf_Q. by rewrite printf_q_free. Qed.

Definition is_sep (sep : string) : Prop :=
  sep ≠ "" ∧ quotes (list_ascii_of_string sep) = 0%nat ∧
  ∀ z, sqlite3GetToken (list_ascii_of_string sep ++ quote :: z) = (TK_SPACE, length (list_ascii_of_string sep)).

Lemma names_head sep n names : ∃ z, list_ascii_of_string (names_text sep (n :: names)) = quote :: z.
Proof. destruct names; eexists; reflexivity. Qed.

Lemma lexes_comma z : lexes [","%char] [(TK_COMMA, [","%char])] z.
Proof. by apply lexes_token. Qed.

Lemma names_text_cons sep n n' l :
  names_text sep (n :: n' :: l) = quoted_s n +:+ "," +:+ sep +:+ names_text sep (n' :: l).
Proof. done. Qed.

Lemma names_tokens_cons n n' l :
  names_tokens (n :: n' :: l) =
    (TK_STRING, list_ascii_of_string (quoted_s n)) :: (TK_COMMA, [","%char]) :: names_tokens (n' :: l).
Proof. done. Qed.

Lemma names_lexes sep n names :
  is_sep sep → Forall (λ n, quote_free n = true) (n :: names) →
  lexes (list_ascii_of_string (names_text sep (n :: names))) (names_tokens (n :: names)) [].
Proof.
  intros (Hne & _ & Hsep). revert n. induction names as [|n' names IH]; intros n Hf;
    apply list.Forall_cons in Hf as [Hn Hf]; rewrite ?names_text_cons, ?names_tokens_cons.
  - cbn [names_text names_tokens]. rewrite list_ascii_app, (quoted_s_free n Hn).
    apply (lexes_app _ _ [_] [_]); [by apply lexes_Q|]. by apply lexes_token.
  - rewrite !list_ascii_app, (quoted_s_free n Hn). apply (lexes_app _ _ [_]); [by apply lexes_Q|].
    change (list_ascii_of_string ",") with [","%char]. apply (lexes_app _ _ [_]); [apply lexes_comma|].
    apply (lexes_app _ _ []); [|by apply IH].
    destruct (names_head sep n' names) as [z ->]. apply lexes_space; [by destruct sep|]. apply Hsep.
Qed.

Lemma read_names n names fuel :
  Forall (λ n, quote_free n = true) (n :: names) → (length names < fuel)%nat →
  read_list read_value fuel (names_tokens (n :: names)) = Some (VStr <$> n :: names, []).
Proof.
  revert n fuel. induction names as [|n' names IH]; intros n fuel Hf Hl; (destruct fuel as [|fuel]; [simpl in Hl; lia|]);
    apply list.Forall_cons in Hf as [Hn Hf].
  - cbn [names_tokens read_list read_value]. by rewrite (quoted_s_free n Hn), dequoted_Q.
  - rewrite names_tokens_cons. cbn [read_list read_value]. rewrite (quoted_s_free n Hn), dequoted_Q.
    cbn [mbind option_bind]. rewrite IH; [done|done|simpl in Hl; lia].
Qed.

Lemma quoted_s_quotes n :
  quotes (list_ascii_of_string (quoted_s n)) = (2 + quotes (list_ascii_of_string n))%nat.
Proof.
  unfold quoted_s. cbn [list_ascii_of_string]. rewrite quotes_cons, list_ascii_app, quotes_app, Ascii.eqb_refl.
  change (quotes (list_ascii_of_string (String quote ""))) with 1%nat. lia.
Qed.

Lemma names_quotes sep n names :
  quotes (list_ascii_of_string sep) = 0%nat →
  quotes (list_ascii_of_string (names_text sep (n :: names))) =
    list_sum ((λ n, (2 + quotes (list_ascii_of_string n))%nat) <$> n :: names).
Proof.
  intros Hs. revert n. induction names as [|n' names IH]; intros n; rewrite ?names_text_cons.
  - cbn [names_text]. rewrite list_ascii_app, quotes_app, quoted_s_quotes.
    change (quotes (list_ascii_of_string ")")) with 0%nat. cbn [fmap list_fmap list_sum foldr]. lia.
  - rewrite !list_ascii_app, !quotes_app, quoted_s_quotes, IH, Hs. cbn [fmap list_fmap list_sum foldr].
    change (quotes (list_ascii_of_string ",")) with 0%nat. lia.
Qed.

(** ** The texts *)

Lemma names_free names :
  (list_sum (value_quotes <$> (VStr <$> names)) ≤
   list_sum ((λ n, (2 + quotes (list_ascii_of_string n))%nat) <$> names))%nat →
  Forall (λ n, quote_free n = true) names.
Proof.
  assert (∀ l : list string, (list_sum ((λ n, (2 + quotes (list_ascii_of_string n))%nat) <$> l) ≤
    list_sum (value_quotes <$> (VStr <$> l)))%nat) as Hle.
  { induction l as [|n l IH]; cbn [fmap list_fmap list_sum foldr value_quotes] in *; [done|].
    unfold list_sum in *. simpl in *. lia. }
  induction names as [|n l IH]; intros H; [constructor|]. specialize (Hle l).
  cbn [fmap list_fmap list_sum foldr value_quotes] in *. unfold list_sum in *. simpl in *.
  constructor; [apply quote_free_quotes; lia|apply IH; lia].
Qed.

Lemma names_tokens_length names : (length names ≤ length (names_tokens names))%nat.
Proof.
  induction names as [|n [|n' l] IH]; [simpl; lia..|]. rewrite names_tokens_cons. simpl in *. lia.
Qed.

(** A text of a prefix that is read as an insertion up to its first two
    values, and of names, records exactly these names if and only if it is
    short enough and none of them has a quote. *)
Lemma names_read mxSqlLen P PT sep n names r0 r :
  (∀ s, keywordCode s ≠ TK_STRING) → is_sep sep →
  lexes P PT (list_ascii_of_string (names_text sep (n :: names))) →
  (∀ ts, read_insert (PT ++ ts) =
    '(l, ts') ← read_list read_value (S (S (length ts))) ts;
    if forallb (λ t, bool_decide (fst t = TK_SEMI)) ts' then Some (r0 l) else None) →
  (∀ l, r0 l = r ↔ l = VStr <$> n :: names) →
  (ts ← tokens mxSqlLen (P ++ list_ascii_of_string (names_text sep (n :: names))); read_insert ts) = Some r ↔
  Z.of_nat (length (P ++ list_ascii_of_string (names_text sep (n :: names)))) ≤ mxSqlLen ∧
    Forall (λ n, quote_free n = true) (n :: names).
Proof.
  intros Hk Hsep HP Hread Hr. rewrite HP, length_app. set (N := list_ascii_of_string _) in *.
  destruct (Z.ltb_spec mxSqlLen (Z.of_nat (length P))) as [|Hmx]; [split; [done|lia]|].
  split.
  - destruct (tokens _ N) as [ts|] eqn:Et; [|done]. cbn [fmap option_fmap option_map mbind option_bind].
    rewrite Hread. destruct (read_list _ _ ts) as [[l ts']|] eqn:El; [|done]. cbn [mbind option_bind].
    destruct (forallb _ ts'); [|done]. intros [= ->%Hr].
    apply tokens_quotes in Et as (Hg & Hq & Hlen); [|done].
    apply read_values_quotes in El; [|done..]. destruct Hsep as (_ & Hs & _).
    unfold N in Hq. rewrite names_quotes in Hq by done. split; [lia|].
    apply names_free. by etrans.
  - intros [Hlen Hf]. rewrite <- (app_nil_r N), (names_lexes sep n names Hsep Hf).
    fold N. destruct (Z.ltb_spec (mxSqlLen - Z.of_nat (length P)) (Z.of_nat (length N))); [lia|].
    assert (∀ r, tokens r [] = Some []) as -> by done. cbn [fmap option_fmap option_map mbind option_bind].
    rewrite app_nil_r, Hread.
    rewrite read_names; [|done|pose proof (names_tokens_length (n :: names)); simpl in *; lia].
    cbn [mbind option_bind forallb]. f_equal. by apply Hr.
Qed.

(** What the generated function keywordCode returns on the words of the
    texts: the keywords INSERT, INTO, VALUES and COLUMN, and identifiers. *)
Record keywords_ok : Prop := {
  kw_string s : keywordCode s ≠ TK_STRING;
  kw_insert : keywordCode "INSERT" = TK_INSERT;
  kw_into : keywordCode "INTO" = TK_INTO;
  kw_values : keywordCode "VALUES" = TK_VALUES;
  kw_column : keywordCode "column" = TK_COLUMNKW;
  kw_id s : s ∈ [SELINUX_CONTEXT; "security_context"; "security_label"; "db"; "name"] → keywordCode s = TK_ID;
}.

Section texts.
Hypothesis Hkw : keywords_ok.

Lemma kw_names :
  keywordCode "selinux_context" = TK_ID ∧ keywordCode "security_context" = TK_ID ∧
  keywordCode "security_label" = TK_ID ∧ keywordCode "db" = TK_ID ∧ keywordCode "name" = TK_ID.
Proof. split_and!; apply (kw_id Hkw); set_solver. Qed.

(** The row that is to be recorded: for a table, or for one of its columns. *)
Definition table_insert (db : string) (con id : Z) (name : string) : sql_insert :=
  SqlInsert db SELINUX_CONTEXT ["security_context"; "security_label"; "db"; "name"]
    [VInt con; VInt id; VStr db; VStr name].

Definition column_insert (db : string) (con id : Z) (name column : string) : sql_insert :=
  SqlInsert db SELINUX_CONTEXT ["security_context"; "security_label"; "db"; "name"; "column"]
    [VInt con; VInt id; VStr db; VStr name; VStr column].

Lemma lexes_word p w tk z' :
  keywordCode w = tk → p ≠ [] → tk ≠ TK_ILLEGAL → tk ≠ TK_SPACE →
  sqlite3GetToken (p ++ z') = (keywordCode w, length p) → lexes p [(tk, p)] z'.
Proof. intros K ??? E. apply lexes_token; [done|by rewrite E, K|done..]. Qed.

Lemma span_app p a b :
  Forall (λ c, p (code c) = true) a → match b with c :: _ => p (code c) = false | [] => True end →
  span p (a ++ b) = length a.
Proof.
  intros Ha Hb. induction Ha as [|c a Hc Ha IH]; cbn [app span length]; [destruct b; [done|]; cbn; by rewrite Hb|].
  by rewrite Hc, IH.
Qed.

(** Blanks before a number. *)
Lemma lexes_blank c p v rest :
  c = " "%char ∨ c = chr 9 → Forall (λ c, sqlite3Isspace (code c) = true) p → int_ok v →
  lexes (c :: p) [] (list_ascii_of_string (printf_d v) ++ rest).
Proof.
  intros Hc Hp Hv. destruct (printf_d_digits v Hv) as (Hd & Hne & _).
  destruct (list_ascii_of_string (printf_d v)) as [|d ds]; [done|]. apply list.Forall_cons in Hd as [Hd _].
  apply lexes_space; [done|].
  assert (sqlite3GetToken ((c :: p) ++ (d :: ds) ++ rest)
    = (TK_SPACE, S (span sqlite3Isspace (p ++ (d :: ds) ++ rest)))) as -> by by destruct Hc as [-> | ->].
  rewrite span_app; [done|done|]. cbn [app]. rewrite isspace_range by (pose proof (code_range d); lia).
  apply orb_false_iff. split; [apply Z.eqb_neq; lia|]. apply andb_false_iff. right. apply Z.leb_gt. lia.
Qed.

Ltac lex_token :=
  lazymatch goal with
  | |- lexes (_ (printf_Q _)) _ _ => apply lexes_Q; discriminate
  | |- lexes (_ (printf_d _)) _ _ => apply lexes_d; [assumption|reflexivity]
  | K : keywordCode ?w = _ |- lexes (_ ?w) _ _ =>
      apply (lexes_word _ _ _ _ K); [discriminate..|vm_compute; reflexivity]
  | |- lexes (_ " ") _ ((_ (printf_d _) ++ _) ++ _) =>
      rewrite <- app_assoc; apply (lexes_blank " "%char []); [by left|constructor|assumption]
  | |- lexes (_ (tab +:+ tab)) _ ((_ (printf_d _) ++ _) ++ _) =>
      rewrite <- app_assoc; apply (lexes_blank (chr 9) [chr 9]); [by right|by repeat constructor|assumption]
  | |- lexes (_ (tab +:+ tab +:+ tab)) _ ((_ (printf_d _) ++ _) ++ _) =>
      rewrite <- app_assoc; apply (lexes_blank (chr 9) [chr 9; chr 9]); [by right|by repeat constructor|assumption]
  | |- lexes (_ " ") _ _ => apply lexes_space; [discriminate|vm_compute; reflexivity]
  | |- lexes (_ (tab +:+ _)) _ _ => apply lexes_space; [discriminate|vm_compute; reflexivity]
  | |- _ => apply lexes_token; [discriminate|vm_compute; reflexivity|discriminate..]
  end.

Lemma read_list_comma {A} (item : _ → option (A * _)) f ts a r ts' :
  item ts = Some (a, (TK_COMMA, r) :: ts') →
  read_list item (S f) ts = '(l, ts) ← read_list item f ts'; Some (a :: l, ts).
Proof. intros E. cbn [read_list]. by rewrite E. Qed.

Lemma read_list_last {A} (item : _ → option (A * _)) f ts a r ts' :
  item ts = Some (a, (TK_RP, r) :: ts') → read_list item (S f) ts = Some ([a], ts').
Proof. intros E. cbn [read_list]. by rewrite E. Qed.

Ltac keywords :=
  destruct kw_names as (?&?&?&?&?);
  pose proof (kw_insert Hkw); pose proof (kw_into Hkw); pose proof (kw_values Hkw); pose proof (kw_column Hkw).

#[local] Abbreviation L := list_ascii_of_string.
#[local] Opaque printf_d printf_Q.

Ltac read_prefix con id Hc Hi :=
  intros ts; cbn [app]; unfold read_insert at 1; unfold read_nm; cbn [fst snd]; rewrite dequoted_Q;
  change (dequoted (L "selinux_context")) with (Some "selinux_context"); cbn [mbind option_bind length];
  repeat erewrite read_list_comma by reflexivity; erewrite read_list_last by reflexivity;
  cbn [mbind option_bind length]; do 2 erewrite read_list_comma by reflexivity;
  rewrite (proj2 (proj2 (printf_d_digits con Hc))), (proj2 (proj2 (printf_d_digits id Hi)));
  by destruct (read_list read_value _ ts) as [[]|].

Lemma table_prefix db con id name :
  int_ok con → int_ok id →
  ∃ P PT, list_ascii_of_string (insert_table_text db con id name) =
      P ++ list_ascii_of_string (names_text (tab +:+ tab) [db; name]) ∧
    lexes P PT (list_ascii_of_string (names_text (tab +:+ tab) [db; name])) ∧
    ∀ ts, read_insert (PT ++ ts) =
      '(l, ts') ← read_list read_value (S (S (length ts))) ts;
      if forallb (λ t, bool_decide (fst t = TK_SEMI)) ts'
      then Some (SqlInsert db SELINUX_CONTEXT ["security_context"; "security_label"; "db"; "name"]
                   (VInt con :: VInt id :: l)) else None.
Proof.
  intros Hc Hi. keywords.
  exists (L "INSERT" ++ L " " ++ L "INTO" ++ L " " ++ L (printf_Q db) ++ L "." ++ L "selinux_context" ++ L " " ++
    L "(" ++ L "security_context" ++ L "," ++ L " " ++ L "security_label" ++ L "," ++ L " " ++ L "db" ++ L "," ++ L " " ++
    L "name" ++ L ")" ++ L " " ++ L "VALUES" ++ L "(" ++ L (tab +:+ tab) ++ L (printf_d con) ++ L "," ++ L " " ++
    L (printf_d id) ++ L "," ++ L (tab +:+ tab)).
  eexists. split.
  { unfold insert_table_text. rewrite !list_ascii_app, <- !app_assoc. reflexivity. }
  split.
  { repeat (eapply lexes_app; [lex_token|]). lex_token. }
  read_prefix con id Hc Hi.
Qed.

Lemma column_prefix db con id name column :
  int_ok con → int_ok id →
  ∃ P PT, L (insert_column_text db con id name column) =
      P ++ L (names_text (tab +:+ tab +:+ tab) [db; name; column]) ∧
    lexes P PT (L (names_text (tab +:+ tab +:+ tab) [db; name; column])) ∧
    ∀ ts, read_insert (PT ++ ts) =
      '(l, ts') ← read_list read_value (S (S (length ts))) ts;
      if forallb (λ t, bool_decide (fst t = TK_SEMI)) ts'
      then Some (SqlInsert db SELINUX_CONTEXT
             ["security_context"; "security_label"; "db"; "name"; "column"] (VInt con :: VInt id :: l)) else None.
Proof.
  intros Hc Hi. keywords.
  exists (L "INSERT" ++ L " " ++ L "INTO" ++ L " " ++ L (printf_Q db) ++ L "." ++ L "selinux_context" ++
    L "(" ++ L "security_context" ++ L "," ++ L " " ++ L "security_label" ++ L "," ++ L " " ++ L "db" ++ L "," ++ L " " ++
    L "name" ++ L "," ++ L " " ++ L "column" ++ L ")" ++ L " " ++ L "VALUES" ++ L "(" ++ L (tab +:+ tab +:+ tab) ++
    L (printf_d con) ++ L "," ++ L " " ++ L (printf_d id) ++ L "," ++ L (tab +:+ tab +:+ tab)).
  eexists. split.
  { unfold insert_column_text. rewrite !list_ascii_app, <- !app_assoc. reflexivity. }
  split.
  { repeat (eapply lexes_app; [lex_token|]). lex_token. }
  read_prefix con id Hc Hi.
Qed.

(** When a text is read as the row it is meant to insert: when it is not too
    long and no name has a quote. *)
Lemma insert_table_read mxSqlLen db con id name :
  int_ok con → int_ok id →
  nested_insert mxSqlLen (insert_table_text db con id name) = Some (table_insert db con id name) ↔
  Z.of_nat (String.length (insert_table_text db con id name)) ≤ mxSqlLen ∧
  Forall (λ n, quote_free n = true) [db; name].
Proof.
  intros Hc Hi. destruct (table_prefix db con id name Hc Hi) as (P & PT & E & HP & Hread).
  rewrite string_length_list, E. unfold nested_insert. rewrite E.
  apply (names_read mxSqlLen P PT (tab +:+ tab) db [name]
    (λ l, SqlInsert db SELINUX_CONTEXT ["security_context"; "security_label"; "db"; "name"]
      (VInt con :: VInt id :: l)) (table_insert db con id name) (kw_string Hkw)); [|done|exact Hread|].
  { split_and!; [done|reflexivity|reflexivity]. }
  intros l. unfold table_insert. split; [by intros [= ->]|by intros ->].
Qed.

Lemma insert_column_read mxSqlLen db con id name column :
  int_ok con → int_ok id →
  nested_insert mxSqlLen (insert_column_text db con id name column) = Some (column_insert db con id name column) ↔
  Z.of_nat (String.length (insert_column_text db con id name column)) ≤ mxSqlLen ∧
  Forall (λ n, quote_free n = true) [db; name; column].
Proof.
  intros Hc Hi. destruct (column_prefix db con id name column Hc Hi) as (P & PT & E & HP & Hread).
  rewrite string_length_list, E. unfold nested_insert. rewrite E.
  apply (names_read mxSqlLen P PT (tab +:+ tab +:+ tab) db [name; column]
    (λ l, SqlInsert db SELINUX_CONTEXT ["security_context"; "security_label"; "db"; "name"; "column"]
      (VInt con :: VInt id :: l)) (column_insert db con id name column)
    (kw_string Hkw)); [|done|exact Hread|].
  { split_and!; [done|reflexivity|reflexivity]. }
  intros l. unfold column_insert. split; [by intros [= ->]|by intros ->].
Qed.
End texts.
End tokenizer.

(** ** Two quotes in a name *)

(** The words of the texts, in place of the generated table. *)
Definition ex_keywords (s : string) : token :=
  if String.eqb s "INSERT" then TK_INSERT else if String.eqb s "INTO" then TK_INTO
  else if String.eqb s "VALUES" then TK_VALUES else if String.eqb s "column" then TK_COLUMNKW else TK_ID.

Lemma ex_keywords_ok : keywords_ok ex_keywords.
Proof.
  split; try reflexivity.
  - intros s. unfold ex_keywords. by repeat destruct (String.eqb s _).
  - intros s Hs. repeat (apply list.elem_of_cons in Hs as [->|Hs]; [reflexivity|]). by apply elem_of_nil in Hs.
Qed.

(** A table whose name has a single quote gets no row, and one whose name has
    two adjacent quotes gets the row of another table. *)
Theorem quotes_misread :
  nested_insert ex_keywords 1000000 (insert_table_text "main" 3 4 "it's") = None ∧
  nested_insert ex_keywords 1000000 (insert_table_text "main" 3 4 "it''s") =
    Some (table_insert "main" 3 4 "it's").
Proof. split; reflexivity. Qed.
