(* ===== verification/Authorizer.v ===== *)
(** * The authorizer

    Models ext/security/sesqlite/sesqlite_authorizer.c: the access check with
    its cache, the authorizer callback, the SQL functions, the extra column
    of new tables, and the callbacks on schema changes and transactions.  The
    policy, [selinux_check_access] of libselinux, is a parameter. *)

From S2P Require Import Prelude CString SeHash BiHash Avc ContextFile Schema Labels NestedSql.
From Stdlib Require Import Ascii.
#[local] Open Scope string_scope.
#[local] Open Scope Z_scope.
#[local] Open Scope list_scope.

(** The action codes of sqlite3.h. *)
Inductive action : Set :=
  | SQLITE_COPY | SQLITE_CREATE_INDEX | SQLITE_CREATE_TABLE | SQLITE_CREATE_TEMP_INDEX
  | SQLITE_CREATE_TEMP_TABLE | SQLITE_CREATE_TEMP_TRIGGER | SQLITE_CREATE_TEMP_VIEW
  | SQLITE_CREATE_TRIGGER | SQLITE_CREATE_VIEW | SQLITE_DELETE | SQLITE_DROP_INDEX
  | SQLITE_DROP_TABLE | SQLITE_DROP_TEMP_INDEX | SQLITE_DROP_TEMP_TABLE
  | SQLITE_DROP_TEMP_TRIGGER | SQLITE_DROP_TEMP_VIEW | SQLITE_DROP_TRIGGER
  | SQLITE_DROP_VIEW | SQLITE_INSERT | SQLITE_PRAGMA | SQLITE_READ | SQLITE_SELECT
  | SQLITE_TRANSACTION | SQLITE_UPDATE | SQLITE_ATTACH | SQLITE_DETACH
  | SQLITE_ALTER_TABLE | SQLITE_REINDEX | SQLITE_ANALYZE | SQLITE_CREATE_VTABLE
  | SQLITE_DROP_VTABLE | SQLITE_FUNCTION | SQLITE_SAVEPOINT | SQLITE_RECURSIVE.

(** The codes in numerical order. *)
Definition actions : list action :=
  [SQLITE_COPY; SQLITE_CREATE_INDEX; SQLITE_CREATE_TABLE; SQLITE_CREATE_TEMP_INDEX;
   SQLITE_CREATE_TEMP_TABLE; SQLITE_CREATE_TEMP_TRIGGER; SQLITE_CREATE_TEMP_VIEW;
   SQLITE_CREATE_TRIGGER; SQLITE_CREATE_VIEW; SQLITE_DELETE; SQLITE_DROP_INDEX;
   SQLITE_DROP_TABLE; SQLITE_DROP_TEMP_INDEX; SQLITE_DROP_TEMP_TABLE;
   SQLITE_DROP_TEMP_TRIGGER; SQLITE_DROP_TEMP_VIEW; SQLITE_DROP_TRIGGER;
   SQLITE_DROP_VIEW; SQLITE_INSERT; SQLITE_PRAGMA; SQLITE_READ; SQLITE_SELECT;
   SQLITE_TRANSACTION; SQLITE_UPDATE; SQLITE_ATTACH; SQLITE_DETACH;
   SQLITE_ALTER_TABLE; SQLITE_REINDEX; SQLITE_ANALYZE; SQLITE_CREATE_VTABLE;
   SQLITE_DROP_VTABLE; SQLITE_FUNCTION; SQLITE_SAVEPOINT; SQLITE_RECURSIVE].

(** The result of an SQL function of the extension. *)
Inductive sql_result := ResInt (z : Z) | ResText (s : string) | ResError (msg : string).

Section authorizer.
Context {TH TK TV TA : Type}.
Context `{!Store TH Z} `{!Store TK string} `{!Store TV Z} `{!Store TA bool}.
Abbreviation state := (sestate TH TK TV TA).
Abbreviation M := (sm state).

Section selinux.
Variable getcon : option string.
Variable security_compute_create_raw : option string → option string → Z → option string.
Variable selinux_check_access : option string → option string → string → option string → Z.
Variable security_check_context : string → Z.
Variable sch : schema.

Abbreviation c_insert_id := (insert_id getcon security_compute_create_raw).
Abbreviation c_getContext := (getContext getcon security_compute_create_raw).
Abbreviation c_lookup_security_label := (lookup_security_label getcon security_compute_create_raw).
Abbreviation c_lookup_security_context := (lookup_security_context getcon security_compute_create_raw).

(** ** The access check *)

Definition avc_find (key : Z) (s : state) : option bool := fst <$> st_find (avc s) (KInt key).
Definition avc_insert (key : Z) (res : bool) : M () :=
  sm_mod (λ s, set_avc (st_insert (avc s) (KInt key) (Some res) 0) s).

(** [SESQLITE_BIHASH_FIND] followed by [sqlite3Dequote] of the label in
    place. *)
Definition find_dequoted (id : Z) : M (option string) := λ s,
  match SESQLITE_BIHASH_FIND (hash_id s) id with
  | None => Ret (None, s)
  | Some l =>
      match sqlite3Dequote (Some l) with
      | Ret (_, Some l') =>
          Ret (Some l', set_hash_id (BiHash (st_poke (key2val (hash_id s)) (id_key id) l')
                                            (val2key (hash_id s))) s)
      | Ret (_, None) => Ret (None, s)
      | Undef f => Undef f
      end
  end.

Definition checkAccess (dbname table column : option string) (tclass perm : Z) : M bool :=
  _ ← sm_lift (c_assert ((0 <=? tclass) && (tclass <=? 4)));
  id ← c_getContext dbname table column tclass;
  _ ← sm_lift (c_assert (negb (id =? 0)));
  cls ← sm_lift (av_class_at tclass);
  p ← sm_lift (av_perm_at cls perm);
  sid ← sm_get scon_id;
  let key := i32 (compress sid id (c_code cls) (snd p)) in
  avc_res ← sm_get (avc_find key);
  match avc_res with
  | Some res => mret res
  | None =>
      ttcon ← find_dequoted id;
      scon ← sm_get scon;
      let res := selinux_check_access scon ttcon (c_name cls) (fst p) =? 0 in
      _ ← avc_insert key res;
      mret res
  end.

Fixpoint check_columns (dbName tblName : option string) (type act : Z) (cols : list string) : M Z :=
  match cols with
  | [] => mret SQLITE_OK
  | c :: cols' =>
      ok ← checkAccess dbName tblName (Some c) type act;
      if (ok : bool) then check_columns dbName tblName type act cols' else mret SQLITE_DENY
  end.

Definition checkAllColumns (dbName tblName : option string) (type act : Z) : M Z :=
  pTab ← sm_lift (sqlite3FindTable sch tblName dbName);
  match pTab with
  | Some t => check_columns dbName tblName type act (aCol t)
  | None => mret SQLITE_OK
  end.

(** ** The authorizer callback *)

(** [if( !checkAccess(...) ) rc = SQLITE_DENY;] *)
Definition need (rc : Z) (check : M bool) : M Z :=
  ok ← check; mret (if (ok : bool) then rc else SQLITE_DENY).

(** The same followed by a second check in the [else] branch. *)
Definition need2 (rc : Z) (check : M bool) (also : M bool) : M Z :=
  ok ← check;
  if (ok : bool) then need rc also else mret SQLITE_DENY.

Definition all_columns (dbname table : option string) (perm : Z) : M bool :=
  r ← checkAllColumns dbname table SELINUX_DB_COLUMN perm; mret (r =? 0).

Definition nonempty (arg : option string) : bool :=
  match arg with Some a => negb (String.length a =? 0)%nat | None => false end.

(** The [switch] on the type of the action. *)
Definition check_action (rc type : Z) (arg1 arg2 dbname : option string) : M Z :=
  match zlookup actions type with
  | Some SQLITE_CREATE_TABLE | Some SQLITE_CREATE_TEMP_TABLE
  | Some SQLITE_CREATE_TEMP_VIEW | Some SQLITE_CREATE_VIEW =>
      need rc (checkAccess dbname arg1 None SELINUX_DB_TABLE SELINUX_CREATE)
  | Some SQLITE_CREATE_TRIGGER | Some SQLITE_DROP_INDEX | Some SQLITE_DROP_TRIGGER =>
      need rc (checkAccess dbname arg2 None SELINUX_DB_TABLE SELINUX_SETATTR)
  | Some SQLITE_DELETE =>
      need rc (checkAccess dbname arg1 None SELINUX_DB_TABLE SELINUX_DELETE)
  | Some SQLITE_DROP_TABLE | Some SQLITE_DROP_TEMP_TABLE | Some SQLITE_DROP_VIEW
  | Some SQLITE_DROP_VTABLE =>
      need2 rc (checkAccess dbname arg1 None SELINUX_DB_TABLE SELINUX_DROP)
               (all_columns dbname arg1 SELINUX_DROP)
  | Some SQLITE_DROP_TEMP_VIEW =>
      need rc (checkAccess dbname arg1 None SELINUX_DB_TABLE SELINUX_DROP)
  | Some SQLITE_INSERT =>
      need2 rc (checkAccess dbname arg1 None SELINUX_DB_TABLE SELINUX_INSERT)
               (all_columns dbname arg1 SELINUX_INSERT)
  | Some SQLITE_PRAGMA =>
      a ← sm_lift (deref arg1);
      mret (if sqlite3_stricmp a "writable_schema" =? 0 then SQLITE_DENY else rc)
  | Some SQLITE_READ =>
      need2 rc (checkAccess dbname arg1 None SELINUX_DB_TABLE SELINUX_SELECT)
               (checkAccess dbname arg1 arg2 SELINUX_DB_COLUMN SELINUX_SELECT)
  | Some SQLITE_UPDATE =>
      need rc (checkAccess dbname arg1 arg2 SELINUX_DB_COLUMN SELINUX_UPDATE)
  | Some SQLITE_ATTACH | Some SQLITE_DETACH =>
      mret (if nonempty arg1 then SQLITE_DENY else rc)
  | Some SQLITE_ALTER_TABLE =>
      need rc (checkAccess arg1 arg2 None SELINUX_DB_TABLE SELINUX_GETATTR)
  | _ => mret rc
  end.

Definition selinuxAuthorizer (type : Z) (arg1 arg2 dbname source : option string) : M Z :=
  rc ← match dbname with
       | Some _ => need SQLITE_OK (checkAccess dbname None None SELINUX_DB_DATABASE SELINUX_ACCESS)
       | None => mret SQLITE_OK
       end;
  check_action rc type arg1 arg2 dbname.

Definition set_vacuum (type : Z) : M Z := _ ← sm_mod (put_vacuum type); mret SQLITE_OK.
Definition is_vacuum : M Z := sm_get vacuum.

(** ** The SQL functions *)

(** [strcmp(p, q) == 0] where [p] is a name of the table, which may be NULL. *)
Definition name_eq (p : option string) (q : string) : outcome bool :=
  p ← deref p; Ret (strcmp_eq p q).

Fixpoint scan_perms (ps : list (option string * Z)) (zPerm : string) : outcome (option Z) :=
  match ps with
  | [] => Ret None
  | (nm, code) :: ps' =>
      b ← name_eq nm zPerm;
      if (b : bool) then Ret (Some code) else scan_perms ps' zPerm
  end.

(** The loops over the classes 0 to 3 and the permissions 0 to 10; the names
    after the last permission of a class are NULL. *)
Fixpoint scan_classes (cs : list av_class) (zClass zPerm : string) (acc : Z * Z) : outcome (Z * Z) :=
  match cs with
  | [] => Ret acc
  | c :: cs' =>
      if strcmp_eq (c_name c) zClass then
        r ← scan_perms (take 11 (perm c)) zPerm;
        scan_classes cs' zClass zPerm (match r with Some p => (c_code c, p) | None => acc end)
      else scan_classes cs' zClass zPerm acc
  end.

Definition selinuxCheckAccessFunction (id : Z) (zClass zPerm zTable : string) : M sql_result :=
  _ ← sm_lift (c_assert (negb (id =? 0)));
  cp ← sm_lift (scan_classes (take 4 access_vector) zClass zPerm (0, 0));
  sid ← sm_get scon_id;
  let key := i32 (compress sid id (fst cp) (snd cp)) in
  avc_res ← sm_get (avc_find key);
  match avc_res with
  | Some res => mret (ResInt (Z.b2z res))
  | None =>
      ttcon ← sm_get (λ s, SESQLITE_BIHASH_FIND (hash_id s) id);
      scon ← sm_get scon;
      let res := selinux_check_access scon ttcon zClass (Some zPerm) =? 0 in
      _ ← avc_insert key res;
      mret (ResInt (Z.b2z res))
  end.

Definition selinuxGetconIdFunction (label : string) : M sql_result :=
  if security_check_context label =? 0 then
    id ← c_insert_id (Some "main") (Some label);
    mret (ResInt id)
  else mret (ResError "SeSQLite - The requested label is not a valid selinux context.").

(** [stmt_select_label]: SELECT security_label FROM selinux_id WHERE rowid = ?1 *)
Definition select_label (id : Z) (s : state) : option string :=
  r_label <$> find (λ r, r_rowid r =? id) (selinux_id s).

Definition selinuxGetconLabelFunction (id : Z) : M sql_result :=
  r ← sm_get (select_label id);
  mret match r with
       | Some l => ResText l
       | None => ResError "SeSQLite - The requested id is not registered."
       end.

(** ** The extra column of a new table *)

(** [STRICMP(a, b)] is true when the names are equal. *)
Definition STRICMP (a b : string) : bool := sqlite3_stricmp a b =? 0.

(** The label id of an object, from its entry or from the configuration. *)
Definition object_id (isColumn : bool) (db : string) (tbl col : option string) : M Z :=
  let key := make_key (Some db) tbl col in
  res ← sm_get (hash_find key);
  match res with
  | Some id => mret id
  | None =>
      id ← c_lookup_security_label isColumn (Some db) tbl col;
      _ ← hash_insert key id;
      mret id
  end.

(** The text of the statement that records the label [id] of the table or,
    with [Some c], of its column [c]. *)
Definition object_stmt (db tbl : string) (column : option string) (id : Z) : M string :=
  con ← sm_gets (c_lookup_security_context (Some db) (Some SELINUX_CONTEXT));
  mret match column with
       | None => insert_table_text db con id tbl
       | Some c => insert_column_text db con id tbl c
       end.

Fixpoint column_stmts (db tbl : string) (cols : list string) : M (list string) :=
  match cols with
  | [] => mret []
  | c :: cols' =>
      id ← object_id true db (Some tbl) (Some c);
      st ← object_stmt db tbl (Some c) id;
      rest ← column_stmts db tbl cols';
      mret (st :: rest)
  end.

(** [create_security_context_column] on the new table [p] of database [db]:
    the return code, the table with its new column, the texts given to
    sqlite3NestedParse.
    [realloc_ok] tells whether the column array could grow. *)
Definition create_security_context_column (realloc_ok : bool) (db : string) (p : Table)
    : M (Z * Table * list string) :=
  if existsb (STRICMP SECURITY_CONTEXT_COLUMN_NAME) (drop 1 (aCol p))
  then mret (SQLITE_ERROR, p, [])
  else if (Z.land (Z.of_nat (length (aCol p))) 7 =? 0) && negb realloc_ok
  then mret (SQLITE_ERROR, p, [])
  else
    let p := Tab (tab_name p) (aCol p ++ [SECURITY_CONTEXT_COLUMN_NAME]) (HasRowid p) in
    id ← object_id false db (Some (tab_name p)) None;
    st ← object_stmt db (tab_name p) None id;
    cols ← column_stmts db (tab_name p) (aCol p);
    rid ← (if HasRowid p then column_stmts db (tab_name p) ["ROWID"] else mret []);
    mret (SQLITE_OK, p, st :: cols ++ rid).

(** ** Callbacks *)

Inductive schema_op := SCHEMA_CREATE_TABLE | SCHEMA_DROP_TABLE | SCHEMA_ALTER_RENAME | SCHEMA_ALTER_ADD.

(** The texts given to sqlite3NestedParse: the name of the database is not
    quoted where the statement names its table. *)
Definition selinux_schemachange_callback (op : schema_op) (zDb zTable : string) (arg1 : option string)
    : M (list string) :=
  let target := (zDb +:+ "." +:+ SELINUX_CONTEXT)%string in
  match op with
  | SCHEMA_CREATE_TABLE => mret []
  | SCHEMA_DROP_TABLE =>
      mret [("DELETE FROM " +:+ target +:+ " WHERE db = " +:+ quoted_s zDb +:+ " AND name = " +:+
             quoted_s zTable)%string]
  | SCHEMA_ALTER_RENAME =>
      mret [("UPDATE " +:+ target +:+ " SET name = " +:+ quoted_s zTable +:+ " WHERE db = " +:+ quoted_s zDb +:+
             " AND name = " +:+ quoted_s (fmt_s arg1))%string]
  | SCHEMA_ALTER_ADD =>
      (* the arguments of the call, in one of the orders C allows *)
      id ← c_lookup_security_label true (Some zDb) (Some zTable) arg1;
      con ← sm_gets (c_lookup_security_context (Some zDb) (Some SELINUX_CONTEXT));
      let sep := (tab +:+ "    ")%string in
      mret [("INSERT INTO " +:+ target +:+ "(security_context, security_label, db, name, column) VALUES(" +:+
             sep +:+ printf_d con +:+ ", " +:+ printf_d id +:+ "," +:+ sep +:+
             names_text sep [zDb; zTable; fmt_s arg1])%string]
  end.

Definition sesqlite_clearavc : M () := sm_mod (λ s, set_avc (st_clear (avc s)) s).
Definition selinux_commit_callback : M Z := _ ← sesqlite_clearavc; mret 0.
Definition selinux_rollback_callback : M () := sesqlite_clearavc.

(** A transaction that started in the state [s0] is rolled back: the tables
    are as they were, and the callback runs. *)
Definition rollback (s0 : state) : M () :=
  _ ← sm_mod (λ s, set_tables (selinux_id s0) (selinux_context s0) (last_rowid s) s);
  selinux_rollback_callback.

(** ** What is granted *)

(** The names of a permission in the table, when it has one. *)
Definition av_name (tclass perm_ : Z) : option (string * string) :=
  c ← zlookup access_vector tclass;
  '(nm, _) ← zlookup (perm c) perm_;
  nm ← nm;
  Some (c_name c, nm).

(** The decision of the policy on an object. *)
Definition granted (s : state) (o : obj) (perm_ : Z) : bool :=
  match av_name (o_class o) perm_ with
  | Some (cn, pn) =>
      selinux_check_access (scon s) (label_of getcon security_compute_create_raw s o) cn (Some pn) =? 0
  | None => false
  end.

(** ** Invariants *)

(** A label that [sqlite3Dequote] leaves as it is. *)
Definition plain (l : string) : Prop :=
  match l with EmptyString => True | String c _ => dequote_close c = None end.

(** Every cached decision is that of the policy on a known label. *)
Definition avc_ok (ids : gmap Z string) (s : state) : Prop :=
  ∃ m, st_rep (avc s) m ∧ ∀ k b d, m !! k = Some (b, d) →
    ∃ id l i c j pn code, ids !! id = Some l ∧
      zlookup access_vector i = Some c ∧ zlookup (perm c) j = Some (Some pn, code) ∧
      k = KInt (i32 (compress (scon_id s) id (c_code c) code)) ∧
      b = (selinux_check_access (scon s) (Some l) (c_name c) (Some pn) =? 0).

(** The labels the configuration gives are plain. *)
Definition ctx_plain (sc : sesqlite_context) : Prop :=
  ∀ o l, default_label getcon security_compute_create_raw sc o = Ret (Some l) → plain l.

Lemma ctx_plain_lists sc :
  (∀ e, e ∈ db_context sc ++ table_context sc ++ column_context sc → plain (security_context e)) →
  (∀ l, security_compute_create_raw getcon getcon 4 = Some l → plain l) → ctx_plain sc.
Proof.
  intros He Hr o l Hl.
  assert ((∃ e, e ∈ db_context sc ++ table_context sc ++ column_context sc ∧ security_context e = l) ∨
          security_compute_create_raw getcon getcon 4 = Some l) as [(e & Hin & <-)|?]; [|by eauto..].
  unfold default_label, new_context in Hl.
  destruct o; simpl in Hl; apply compute_sql_context_source in Hl as [(e & Hin & Ee)|Hl]; auto;
    left; exists e; (split; [|done]); rewrite !elem_of_app; auto.
Qed.

(** The invariant of the extension: at most [n] labels, all known to the
    table, no label changed by dequoting, a sound cache. *)
Record auth_inv (n : Z) (ids : gmap Z string) (sc : sesqlite_context) (s : state) : Prop := {
  ai_labels : labels_inv n ids s;
  ai_n : 0 ≤ n;
  ai_contexts : contexts s = Some sc;
  ai_tuples : tuples_known ids sc;
  ai_plain id l : ids !! id = Some l → plain l;
  ai_scon : 0 ≤ scon_id s < 4096;
  ai_avc : avc_ok ids s;
}.

(** What no check changes. *)
Record stable (s s' : state) : Prop := {
  sb_label o : obj_ok o = true → label_of getcon security_compute_create_raw s' o =
                                 label_of getcon security_compute_create_raw s o;
  sb_scon : scon s' = scon s;
  sb_scon_id : scon_id s' = scon_id s;
  sb_ctx : selinux_context s' = selinux_context s;
}.

#[local] Instance stable_preorder : PreOrder stable.
Proof.
  split; [by intros s; split|]. intros s1 s2 s3 [H1 ???] [H2 ???]. split; try congruence.
  intros o Ho. by rewrite H2, H1.
Qed.

Lemma granted_stable s s' o p : stable s s' → obj_ok o = true → granted s' o p = granted s o p.
Proof. intros [Hl Hs _] Ho. unfold granted. by rewrite (Hl o Ho), Hs. Qed.

(** A computation that returns [r], keeps the invariant and is stable. *)
Definition checks {A} (n : Z) (sc : sesqlite_context) (s : state) (r : A) (m : M A) : Prop :=
  ∃ ids' s', m s = Ret (r, s') ∧ auth_inv n ids' sc s' ∧ stable s s'.

Lemma checks_bind {A B} n sc s (a : A) m (k : A → M B) (b : B) n' :
  checks n sc s a m →
  (∀ s' ids', auth_inv n ids' sc s' → stable s s' → checks n' sc s' b (k a)) →
  checks n' sc s b (m ≫= k).
Proof.
  intros (ids' & s' & E & Hi & Hs) Hk. destruct (Hk s' ids' Hi Hs) as (ids2 & s2 & E2 & Hi2 & Hs2).
  exists ids2, s2. split; [by rewrite (sm_bind_run _ _ _ _ _ E)|]. split; [done|]. by etrans.
Qed.

Lemma checks_run {A B} n sc s s' (a : A) m (k : A → M B) b :
  m s = Ret (a, s') → stable s s' → checks n sc s' b (k a) → checks n sc s b (m ≫= k).
Proof.
  intros E Hs (ids & s2 & E2 & Hi & Hs2). exists ids, s2.
  split; [by rewrite (sm_bind_run _ _ _ _ _ E)|]. split; [done|]. by etrans.
Qed.

Lemma checks_ret {A} n ids sc s (r : A) : auth_inv n ids sc s → checks n sc s r (mret r).
Proof. intros. by exists ids, s. Qed.

Lemma auth_inv_mono n n' ids sc s : auth_inv n ids sc s → n ≤ n' → auth_inv n' ids sc s.
Proof. intros [] ?. split; try done; [by eapply labels_inv_mono|lia]. Qed.

Lemma checks_mono {A} n n' sc s (r : A) m : checks n sc s r m → n ≤ n' → checks n' sc s r m.
Proof. intros (ids & s' & E & Hi & Hs) ?. exists ids, s'. eauto using auth_inv_mono. Qed.

(** ** The access check *)

Lemma plain_dequote l : plain l → sqlite3Dequote (Some l) = Ret (-1, Some l).
Proof. destruct l as [|c l]; simpl; [done|]. by intros ->. Qed.

(** Reading a plain label does not change the state of the mapping. *)
Lemma find_dequoted_plain n ids sc s id l :
  auth_inv n ids sc s → ids !! id = Some l →
  ∃ b, find_dequoted id s = Ret (Some l, set_hash_id b s) ∧ bihash_rep b ids.
Proof.
  intros Hinv Hid. pose proof (li_ids _ _ _ (ai_labels _ _ _ _ Hinv)) as Hb.
  pose proof (bh_range _ _ Hb _ _ Hid) as Hr.
  unfold find_dequoted. rewrite (bihash_find _ _ _ Hb), Hid by done.
  rewrite plain_dequote by by eapply ai_plain. eexists. split; [done|].
  destruct Hb as [Hrange Hinj (m & Hm & Hk) Hv]. split; [done..| |done]. simpl.
  exists m. split; [|done]. specialize (Hk id Hr) as Hki. rewrite Hid in Hki.
  rewrite <- (fin_maps.insert_id m (id_key id) (l, str_size l)) by done. eapply st_poke_rep; [exact Hm|done|exact Hki].
Qed.

Lemma labels_inv_set_hash_id n ids (s : state) b :
  labels_inv n ids s → bihash_rep b ids → labels_inv n ids (set_hash_id b s).
Proof. intros [] ?. by split. Qed.

(** A cached decision is the decision. *)
Lemma avc_lookup n ids sc s id l i c j pn code :
  auth_inv n ids sc s → n < 4096 → ids !! id = Some l →
  zlookup access_vector i = Some c → zlookup (perm c) j = Some (Some pn, code) →
  let key := i32 (compress (scon_id s) id (c_code c) code) in
  ∀ b, avc_find key s = Some b →
    b = (selinux_check_access (scon s) (Some l) (c_name c) (Some pn) =? 0).
Proof.
  intros Hinv Hn Hid Hc Hj key b Hb. destruct (ai_avc _ _ _ _ Hinv) as (m & Hm & Hk).
  unfold avc_find in Hb. rewrite (st_find_rep _ m) in Hb by (done || by apply sw_range).
  destruct (m !! KInt key) as [[b' d]|] eqn:E; [|done]. injection Hb as ->.
  destruct (Hk _ _ _ E) as (id' & l' & i' & c' & j' & pn' & code' & Hid' & Hc' & Hj' & [= Hkey] & ->).
  destruct (av_codes _ _ _ _ _ Hc Hj) as (Hi & ? & ? & _).
  destruct (av_codes _ _ _ _ _ Hc' Hj') as (Hi' & ? & ? & _).
  pose proof (li_bound _ _ _ (ai_labels _ _ _ _ Hinv) _ _ Hid).
  pose proof (li_bound _ _ _ (ai_labels _ _ _ _ Hinv) _ _ Hid').
  pose proof (ai_scon _ _ _ _ Hinv).
  apply compress_key_inj in Hkey as (_ & <- & Hcc & <-); [|unfold av_fits; lia..].
  rewrite Hi, Hi' in Hcc. subst i'. rewrite Hc in Hc'. injection Hc' as <-.
  rewrite Hid in Hid'. injection Hid' as <-.
  by rewrite (av_name_unique _ _ _ _ _ _ _ Hc Hj Hj').
Qed.

(** Storing the decision keeps the cache sound. *)
Lemma avc_store ids s id l i c j pn code :
  avc_ok ids s → ids !! id = Some l →
  zlookup access_vector i = Some c → zlookup (perm c) j = Some (Some pn, code) →
  avc_ok ids (set_avc (st_insert (avc s) (KInt (i32 (compress (scon_id s) id (c_code c) code)))
    (Some (selinux_check_access (scon s) (Some l) (c_name c) (Some pn) =? 0)) 0) s).
Proof.
  intros (m & Hm & Hk) Hid Hc Hj. eexists. split; [apply st_put_rep; [exact Hm|by apply sw_range]|].
  intros k b d [[-> ->]|Hm']%lookup_put_inv; [|eauto].
  exists id, l, i, c, j, pn, code. split_and!; done.
Qed.

Lemma avc_ok_weaken ids ids' s s' :
  avc_ok ids s → ids ⊆ ids' → avc s' = avc s → scon s' = scon s → scon_id s' = scon_id s →
  avc_ok ids' s'.
Proof.
  intros (m & Hm & Hk) Hsub Ha Hs Hi. exists m. rewrite Ha. split; [done|]. intros k b d Hkb.
  destruct (Hk k b d Hkb) as (id & l & i & c & j & pn & code & Hid & ? & ? & ? & ?).
  exists id, l, i, c, j, pn, code. rewrite Hs, Hi. split_and!; try done. by eapply lookup_weaken.
Qed.

Lemma av_name_Some i j cn pn :
  av_name i j = Some (cn, pn) →
  ∃ c code, zlookup access_vector i = Some c ∧ zlookup (perm c) j = Some (Some pn, code) ∧ c_name c = cn.
Proof.
  unfold av_name. destruct (zlookup access_vector i) as [c|]; [|done]. simpl.
  destruct (zlookup (perm c) j) as [[[nm|] code]|] eqn:E; simpl; [|done..]. intros [= <- <-]. by exists c, code.
Qed.

(** The label numbered [id] is consulted, and the decision is remembered. *)
Lemma consult_policy n ids sc s id l i c j pn code :
  auth_inv n ids sc s → ids !! id = Some l →
  zlookup access_vector i = Some c → zlookup (perm c) j = Some (Some pn, code) →
  let res := selinux_check_access (scon s) (Some l) (c_name c) (Some pn) =? 0 in
  checks n sc s res (
    ttcon ← find_dequoted id;
    scon ← sm_get scon;
    let res := selinux_check_access scon ttcon (c_name c) (Some pn) =? 0 in
    _ ← avc_insert (i32 (compress (scon_id s) id (c_code c) code)) res;
    mret res).
Proof.
  intros Hinv Hid Hc Hj. destruct (find_dequoted_plain _ _ _ _ _ _ Hinv Hid) as (b & Eb & Hb).
  pose proof (ai_labels _ _ _ _ Hinv) as Hlab.
  exists ids. eexists. split.
  { rewrite (sm_bind_run _ _ _ _ _ Eb). by do 2 erewrite sm_bind_run by done. }
  split.
  - destruct Hinv as [H1 H2 H3 H4 H5 H6 H7]. split; try done.
    + by destruct (labels_inv_set_hash_id _ _ _ _ H1 Hb).
    + by apply (avc_store ids (set_hash_id b s) id l i c j pn code).
  - split; [|done..]. intros o _. unfold label_of.
    change (hash_find (o_key o) _) with (hash_find (o_key o) s) at 1.
    destruct (hash_find (o_key o) s) as [id'|] eqn:Ef; [|done].
    destruct (hash_find_known n ids s Hlab _ _ Ef) as (l' & Hl' & ->). simpl.
    rewrite (bihash_find _ _ _ Hb); [done|]. by eapply bh_range; [exact Hb|].
Qed.

(** [checkAccess] answers as the policy does, cache or not. *)
Lemma checkAccess_spec n ids sc s o perm_ :
  auth_inv n ids sc s → n + 1 < 4096 → ctx_ok getcon security_compute_create_raw sc → ctx_plain sc →
  obj_ok o = true → is_Some (av_name (o_class o) perm_) →
  checks (n + 1) sc s (granted s o perm_)
    (checkAccess (o_db o) (o_tbl o) (o_col o) (o_class o) perm_).
Proof.
  intros Hinv Hn Hok Hpl Ho [[cn pn] Hav]. pose proof Hinv as [H1 H2 H3 H4 H5 H6 H7].
  destruct (getContext_spec getcon security_compute_create_raw n ids s sc o)
    as (id & l & s1 & ids1 & E & Hl & Hid & Hsub & Hinv1 & Hfr & Hst & Hnew); [lia|done..|].
  assert (auth_inv (n + 1) ids1 sc s1) as Hai.
  { destruct Hfr as (Fa & Fc & Fs & Fi & _). split; try (done || lia); try congruence.
    - by eapply tuples_known_mono.
    - intros i l' [Hi|Hi]%Hnew; eauto.
    - by eapply avc_ok_weaken. }
  assert (stable s s1) as Hs1 by (split; [done|apply Hfr..]).
  destruct (av_name_Some _ _ _ _ Hav) as (c & code & Hc & Hj & Hcn).
  assert (granted s o perm_ =
          (selinux_check_access (scon s1) (Some l) (c_name c) (Some pn) =? 0)) as ->.
  { unfold granted. rewrite Hav, Hl, Hcn. by rewrite (sb_scon _ _ Hs1). }
  unfold checkAccess. assert ((0 <=? o_class o) && (o_class o <=? 4) = true) as -> by (by destruct o).
  eapply checks_run; [done..|]. eapply checks_run; [exact E|done|].
  pose proof (li_bound _ _ _ Hinv1 _ _ Hid) as Hid1.
  assert (negb (id =? 0) = true) as -> by (apply negb_true_iff, Z.eqb_neq; lia).
  unfold av_class_at. rewrite Hc. unfold av_perm_at.
  do 2 (eapply checks_run; [done..|]). rewrite Hj. do 2 (eapply checks_run; [done..|]). simpl.
  eapply checks_run; [done..|].
  destruct (avc_find _ s1) as [b|] eqn:Ef; [|by eapply (consult_policy (n + 1))].
  rewrite <- (avc_lookup _ _ _ _ _ _ _ _ _ _ _ Hai Hn Hid Hc Hj b Ef). by eapply checks_ret.
Qed.

(** ** The decision table *)

Definition table_cols (db tbl : string) : list string :=
  match find_table_loop (search_order sch) tbl (Some db) with Some t => aCol t | None => [] end.

(** The permissions an action needs besides access to the database. *)
Definition required (a : action) (arg1 arg2 dbname : option string) : list (obj * Z) :=
  let db := fmt_s dbname in let a1 := fmt_s arg1 in let a2 := fmt_s arg2 in
  let cols p := (λ c, (OCol db a1 c, p)) <$> table_cols db a1 in
  match a with
  | SQLITE_CREATE_TABLE | SQLITE_CREATE_TEMP_TABLE | SQLITE_CREATE_TEMP_VIEW | SQLITE_CREATE_VIEW =>
      [(OTbl db a1, SELINUX_CREATE)]
  | SQLITE_CREATE_TRIGGER | SQLITE_DROP_INDEX | SQLITE_DROP_TRIGGER => [(OTbl db a2, SELINUX_SETATTR)]
  | SQLITE_DELETE => [(OTbl db a1, SELINUX_DELETE)]
  | SQLITE_DROP_TABLE | SQLITE_DROP_TEMP_TABLE | SQLITE_DROP_VIEW | SQLITE_DROP_VTABLE =>
      (OTbl db a1, SELINUX_DROP) :: cols SELINUX_DROP
  | SQLITE_DROP_TEMP_VIEW => [(OTbl db a1, SELINUX_DROP)]
  | SQLITE_INSERT => (OTbl db a1, SELINUX_INSERT) :: cols SELINUX_INSERT
  | SQLITE_READ => [(OTbl db a1, SELINUX_SELECT); (OCol db a1 a2, SELINUX_SELECT)]
  | SQLITE_UPDATE => [(OCol db a1 a2, SELINUX_UPDATE)]
  | SQLITE_ALTER_TABLE => [(OTbl a1 a2, SELINUX_GETATTR)]
  | _ => []
  end.

(** What is denied whatever the policy says. *)
Definition forbidden (a : action) (arg1 : option string) : bool :=
  match a with
  | SQLITE_PRAGMA => sqlite3_stricmp (fmt_s arg1) "writable_schema" =? 0
  | SQLITE_ATTACH | SQLITE_DETACH => nonempty arg1
  | _ => false
  end.

(** The arguments an action comes with. *)
Definition args_ok (a : action) (arg1 arg2 dbname : option string) : Prop :=
  match a with
  | SQLITE_CREATE_TRIGGER | SQLITE_DROP_INDEX | SQLITE_DROP_TRIGGER => is_Some dbname ∧ is_Some arg2
  | SQLITE_READ | SQLITE_UPDATE => is_Some dbname ∧ is_Some arg1 ∧ is_Some arg2
  | SQLITE_PRAGMA => is_Some arg1
  | SQLITE_ALTER_TABLE => is_Some arg1 ∧ is_Some arg2
  | SQLITE_CREATE_TABLE | SQLITE_CREATE_TEMP_TABLE | SQLITE_CREATE_TEMP_VIEW | SQLITE_CREATE_VIEW
  | SQLITE_DELETE | SQLITE_DROP_TABLE | SQLITE_DROP_TEMP_TABLE | SQLITE_DROP_VIEW
  | SQLITE_DROP_VTABLE | SQLITE_DROP_TEMP_VIEW | SQLITE_INSERT => is_Some dbname ∧ is_Some arg1
  | _ => True
  end.

Definition decide_rc (b : bool) : Z := if b then SQLITE_OK else SQLITE_DENY.

Definition db_granted (s : state) (dbname : option string) : bool :=
  match dbname with Some d => granted s (ODb d) SELINUX_ACCESS | None => true end.

Definition allowed (s : state) (a : action) (arg1 arg2 dbname : option string) : bool :=
  db_granted s dbname && negb (forbidden a arg1) &&
  forallb (λ r, granted s r.1 r.2) (required a arg1 arg2 dbname).

Definition all_granted (s : state) (l : list (obj * Z)) : bool := forallb (λ r, granted s r.1 r.2) l.
Definition all_ok (l : list (obj * Z)) : bool := forallb (λ r, obj_ok r.1) l.

Lemma all_granted_stable s s' l : stable s s' → all_ok l = true → all_granted s' l = all_granted s l.
Proof.
  intros Hs. unfold all_granted, all_ok. induction l as [|[o p] l IH]; simpl; [done|]. intros Ho. b2p.
  by rewrite IH, (granted_stable s s') by done.
Qed.

Lemma need_spec n sc s rc (b : bool) (m : M bool) :
  checks n sc s b m → checks n sc s (if b then rc else SQLITE_DENY) (need rc m).
Proof. intros Hm. eapply checks_bind; [done|]. intros s' ids' Hi Hs. by eapply checks_ret. Qed.

Section decision.
Variable sc : sesqlite_context.
Hypothesis Hok : ctx_ok getcon security_compute_create_raw sc.
Hypothesis Hpl : ctx_plain sc.

Lemma check_columns_spec n ids s db tbl p cols :
  let req := (λ c, (OCol db tbl c, p)) <$> cols in
  auth_inv n ids sc s → n + Z.of_nat (length cols) < 4096 →
  all_ok req = true → is_Some (av_name SELINUX_DB_COLUMN p) →
  checks (n + Z.of_nat (length cols)) sc s (decide_rc (all_granted s req))
    (check_columns (Some db) (Some tbl) SELINUX_DB_COLUMN p cols).
Proof.
  intros req Hinv Hn Hc Hav. subst req. revert n ids s Hinv Hn Hc.
  induction cols as [|c cols IH]; intros n ids s Hinv Hn Hc.
  { simpl. rewrite Z.add_0_r. by eapply checks_ret. }
  cbn [check_columns]. rewrite fmap_cons in *. cbn [length] in *.
  unfold all_ok in Hc. cbn [forallb] in Hc. b2p.
  unfold all_granted. cbn [forallb fst snd].
  eapply checks_bind; [apply (checkAccess_spec n ids sc s (OCol db tbl c)); try done; lia|].
  intros s1 ids1 Hinv1 Hs1. destruct (granted s (OCol db tbl c) p); simpl andb.
  - replace (n + Z.of_nat (S (length cols))) with (n + 1 + Z.of_nat (length cols)) by lia.
    fold (all_granted s ((λ c, (OCol db tbl c, p)) <$> cols)).
    rewrite <- (all_granted_stable s s1) by done. eapply IH; [done|lia|done].
  - eapply checks_mono; [by eapply checks_ret|lia].
Qed.

Lemma checkAllColumns_spec n ids s db tbl p :
  let req := (λ c, (OCol db tbl c, p)) <$> table_cols db tbl in
  auth_inv n ids sc s → n + Z.of_nat (length req) < 4096 →
  all_ok req = true → is_Some (av_name SELINUX_DB_COLUMN p) →
  checks (n + Z.of_nat (length req)) sc s (decide_rc (all_granted s req))
    (checkAllColumns (Some db) (Some tbl) SELINUX_DB_COLUMN p).
Proof.
  intros req. subst req. rewrite length_fmap. unfold checkAllColumns, table_cols. intros Hinv Hn Ho Hav.
  eapply checks_run; [done..|]. destruct (find_table_loop _ tbl (Some db)) as [t|].
  - by eapply check_columns_spec.
  - simpl. rewrite Z.add_0_r. by eapply checks_ret.
Qed.

Lemma all_columns_spec n ids s db tbl p :
  let req := (λ c, (OCol db tbl c, p)) <$> table_cols db tbl in
  auth_inv n ids sc s → n + Z.of_nat (length req) < 4096 →
  all_ok req = true → is_Some (av_name SELINUX_DB_COLUMN p) →
  checks (n + Z.of_nat (length req)) sc s (all_granted s req) (all_columns (Some db) (Some tbl) p).
Proof.
  intros req Hinv Hn Ho Hav. eapply checks_bind; [by eapply checkAllColumns_spec|].
  intros s1 ids1 Hi1 Hs1. fold req. destruct (all_granted s req); by eapply checks_ret.
Qed.

(** A check of a table followed by a check that depends on it. *)
Lemma need2_spec n n1 n' s rc (b1 b2 : bool) (m1 m2 : M bool) :
  checks n1 sc s b1 m1 → n1 ≤ n' → n = n' →
  (∀ s' ids', auth_inv n1 ids' sc s' → stable s s' → checks n' sc s' b2 m2) →
  checks n sc s (if b1 && b2 then rc else SQLITE_DENY) (need2 rc m1 m2).
Proof.
  intros H1 Hle -> H2. unfold need2. eapply checks_bind; [done|]. intros s1 ids1 Hi1 Hs1.
  destruct b1; simpl.
  - apply need_spec. eauto.
  - eapply checks_mono; [by eapply checks_ret|lia].
Qed.
Lemma need_obj n ids s rc o p :
  let req := [(o, p)] in
  auth_inv n ids sc s → n + Z.of_nat (length req) < 4096 → all_ok req = true →
  is_Some (av_name (o_class o) p) →
  checks (n + Z.of_nat (length req)) sc s (if all_granted s req then rc else SQLITE_DENY)
    (need rc (checkAccess (o_db o) (o_tbl o) (o_col o) (o_class o) p)).
Proof.
  intros req Hinv Hn Ho Hav. subst req. unfold all_ok, all_granted in *. simpl in *.
  rewrite andb_true_r in *. apply need_spec.
  eapply checks_mono; [eapply checkAccess_spec|]; try done; lia.
Qed.

Lemma need_table_column n ids s rc db tbl col p :
  let req := [(OTbl db tbl, p); (OCol db tbl col, p)] in
  auth_inv n ids sc s → n + Z.of_nat (length req) < 4096 → all_ok req = true →
  is_Some (av_name SELINUX_DB_TABLE p) → is_Some (av_name SELINUX_DB_COLUMN p) →
  checks (n + Z.of_nat (length req)) sc s (if all_granted s req then rc else SQLITE_DENY)
    (need2 rc (checkAccess (Some db) (Some tbl) None SELINUX_DB_TABLE p)
              (checkAccess (Some db) (Some tbl) (Some col) SELINUX_DB_COLUMN p)).
Proof.
  intros req Hinv Hn Ho Hav1 Hav2. subst req. unfold all_ok, all_granted in *.
  cbn [forallb length fst snd] in *. b2p. rewrite andb_true_r.
  apply (need2_spec _ (n + 1) (n + 2)); [apply (checkAccess_spec n ids sc s (OTbl db tbl)); try done; lia|lia..|].
  intros s1 ids1 Hi1 Hs1. rewrite <- (granted_stable s s1) by done.
  eapply checks_mono; [apply (checkAccess_spec (n + 1) ids1 sc s1 (OCol db tbl col)); try done; lia|lia].
Qed.

Lemma need_table_columns n ids s rc db tbl p :
  let req := (OTbl db tbl, p) :: ((λ c, (OCol db tbl c, p)) <$> table_cols db tbl) in
  auth_inv n ids sc s → n + Z.of_nat (length req) < 4096 → all_ok req = true →
  is_Some (av_name SELINUX_DB_TABLE p) → is_Some (av_name SELINUX_DB_COLUMN p) →
  checks (n + Z.of_nat (length req)) sc s (if all_granted s req then rc else SQLITE_DENY)
    (need2 rc (checkAccess (Some db) (Some tbl) None SELINUX_DB_TABLE p)
              (all_columns (Some db) (Some tbl) p)).
Proof.
  intros req Hinv Hn Ho Hav1 Hav2. subst req. cbn [length] in *. unfold all_ok in Ho. cbn [forallb] in Ho.
  b2p. unfold all_granted. cbn [forallb].
  eapply need2_spec; [apply (checkAccess_spec n ids sc s (OTbl db tbl)); try done; lia| |done|].
  { lia. }
  intros s1 ids1 Hi1 Hs1. fold (all_granted s ((λ c, (OCol db tbl c, p)) <$> table_cols db tbl)).
  rewrite <- (all_granted_stable s s1) by done.
  eapply checks_mono; [eapply all_columns_spec; try done; lia|lia].
Qed.

Lemma check_action_spec n ids s rc type a arg1 arg2 dbname :
  let req := required a arg1 arg2 dbname in
  auth_inv n ids sc s → zlookup actions type = Some a → args_ok a arg1 arg2 dbname →
  n + Z.of_nat (length req) < 4096 → all_ok req = true →
  checks (n + Z.of_nat (length req)) sc s
    (if negb (forbidden a arg1) && all_granted s req then rc else SQLITE_DENY)
    (check_action rc type arg1 arg2 dbname).
Proof.
  intros req Hinv Ha Harg Hn Ho. unfold check_action. rewrite Ha. subst req.
  destruct a; cbn [forbidden negb andb required args_ok] in *;
    try (cbn [length]; rewrite Z.add_0_r; by eapply checks_ret);
    repeat match goal with
    | H : _ ∧ _ |- _ => destruct H
    | H : is_Some _ |- _ => destruct H as [? ->]
    end;
    try first
    [ match goal with |- context [ [(?o, ?p)] ] =>
        by apply (need_obj n ids s rc o p); [..|eexists; vm_compute] end
    | by apply (need_table_columns n ids); [..|eexists; vm_compute|eexists; vm_compute]
    | by apply (need_table_column n ids); [..|eexists; vm_compute|eexists; vm_compute] ];
    cbn [length]; rewrite Z.add_0_r; try (eapply checks_run; [done..|]; cbn [fmt_s from_option default id]);
    match goal with |- context [ if ?b then SQLITE_DENY else rc ] => destruct b end;
    by eapply checks_ret.
Qed.

Lemma db_check_spec n ids s dbname :
  auth_inv n ids sc s → n + 1 < 4096 → (∀ d, dbname = Some d → colon_free d = true) →
  checks (n + 1) sc s (decide_rc (db_granted s dbname))
    match dbname with
    | Some _ => need SQLITE_OK (checkAccess dbname None None SELINUX_DB_DATABASE SELINUX_ACCESS)
    | None => mret SQLITE_OK
    end.
Proof.
  intros Hinv Hn Hd. destruct dbname as [d|].
  - apply need_spec, (checkAccess_spec n ids sc s (ODb d)); try done. by apply Hd.
  - eapply checks_mono; [by eapply checks_ret|lia].
Qed.

Lemma selinuxAuthorizer_spec n ids s type a arg1 arg2 dbname source :
  let req := required a arg1 arg2 dbname in
  auth_inv n ids sc s → zlookup actions type = Some a → args_ok a arg1 arg2 dbname →
  (∀ d, dbname = Some d → colon_free d = true) → all_ok req = true →
  n + 1 + Z.of_nat (length req) < 4096 →
  checks (n + 1 + Z.of_nat (length req)) sc s (decide_rc (allowed s a arg1 arg2 dbname))
    (selinuxAuthorizer type arg1 arg2 dbname source).
Proof.
  intros req Hinv Ha Harg Hd Ho Hn.
  eapply checks_bind; [eapply db_check_spec; [done|lia|done]|]. intros s1 ids1 Hi1 Hs1.
  replace (decide_rc (allowed s a arg1 arg2 dbname)) with
    (if negb (forbidden a arg1) && all_granted s1 req then decide_rc (db_granted s dbname) else SQLITE_DENY).
  - by eapply check_action_spec.
  - rewrite (all_granted_stable s s1) by done. unfold allowed, all_granted. fold req.
    destruct (db_granted s dbname), (forbidden a arg1), (forallb _ req); done.
Qed.

End decision.

(** ** The SQL functions *)

Lemma scan_known i c j pn code :
  zlookup access_vector i = Some c → zlookup (perm c) j = Some (Some pn, code) →
  scan_classes (take 4 access_vector) (c_name c) pn (0, 0) = Ret (c_code c, code).
Proof.
  intros Hc Hj.
  assert (all_idx (λ _ c, all_idx (λ _ x, match x with
    | (Some pn, code) =>
        match scan_classes (take 4 access_vector) (c_name c) pn (0, 0) with
        | Ret (a, b) => (a =? c_code c) && (b =? code)
        | Undef _ => false
        end
    | _ => true end) 0 (perm c)) 0 access_vector = true) as Hall by (vm_compute; reflexivity).
  pose proof (all_idx_lookup _ _ _ _ _ (all_idx_lookup _ _ _ _ _ Hall Hc) Hj) as Hchk.
  cbv beta iota in Hchk. destruct (scan_classes _ _ _ _) as [[a b]|]; [|done]. b2p. by subst.
Qed.

Lemma scan_unknown_class cs zClass zPerm acc :
  (∀ c, c ∈ cs → c_name c ≠ zClass) → scan_classes cs zClass zPerm acc = Ret acc.
Proof.
  revert acc. induction cs as [|c cs IH]; intros acc Hc; cbn [scan_classes]; [done|].
  unfold strcmp_eq. destruct (String.eqb_spec (c_name c) zClass) as [E|E].
  - destruct (Hc c (list_elem_of_here _ _) E).
  - apply IH. intros c' Hc'. apply Hc. by right.
Qed.

Lemma scan_unknown_perm ps pn :
  (∀ nm code, (Some nm, code) ∈ ps → nm ≠ pn) → (∃ code, (None, code) ∈ ps) →
  scan_perms ps pn = Undef NullDeref.
Proof.
  induction ps as [|[nm code] ps IH]; intros Hne [code' Hin]; [by apply elem_of_nil in Hin|].
  cbn [scan_perms]. destruct nm as [nm|]; [|done]. simpl. unfold strcmp_eq.
  destruct (String.eqb_spec nm pn) as [E|E]; [by destruct (Hne nm code (list_elem_of_here _ _))|].
  apply IH.
  - intros nm' c' Hc'. eapply Hne. by right.
  - apply elem_of_cons in Hin as [[=]|Hin]. eauto.
Qed.

Lemma av_in i c : zlookup access_vector i = Some c → c ∈ access_vector.
Proof. unfold zlookup. case_match; [done|]. apply list_elem_of_lookup_2. Qed.

Lemma av_class_unique c c' :
  c ∈ access_vector → c' ∈ access_vector → c_name c = c_name c' → c = c'.
Proof.
  assert (NoDup (c_name <$> access_vector)) as Hnd by (apply (bool_decide_unpack _); vm_compute; exact I).
  intros [i Hi]%list_elem_of_lookup [j Hj]%list_elem_of_lookup E.
  assert (i = j) as ->.
  { eapply (NoDup_lookup (c_name <$> access_vector) _ _ (c_name c')); [done|..]; rewrite list_lookup_fmap.
    - rewrite Hi. simpl. by rewrite E.
    - by rewrite Hj. }
  congruence.
Qed.

(** Every class has a NULL name among its first eleven permissions. *)
Lemma av_null_name c : c ∈ access_vector → ∃ code, (None, code) ∈ take 11 (perm c).
Proof.
  intros Hc. assert (forallb (λ c, existsb (λ x, bool_decide (x.1 = None)) (take 11 (perm c))) access_vector
    = true) as Hall by reflexivity.
  rewrite forallb_forall in Hall. apply list_elem_of_In, Hall, existsb_elem in Hc as ([nm code] & Hin & Hx).
  b2p. simpl in Hx. subst nm. eauto.
Qed.

Lemma scan_undef cs c zPerm f acc :
  c ∈ cs → (∀ c', c' ∈ cs → c_name c' = c_name c → c' = c) →
  scan_perms (take 11 (perm c)) zPerm = Undef f → scan_classes cs (c_name c) zPerm acc = Undef f.
Proof.
  intros Hc Hu Hf. induction cs as [|c' cs IH]; [by apply elem_of_nil in Hc|]. cbn [scan_classes].
  unfold strcmp_eq. destruct (String.eqb_spec (c_name c') (c_name c)) as [E|E].
  - rewrite (Hu c' (list_elem_of_here _ _) E). by rewrite Hf.
  - apply IH; [|intros; apply Hu; [by right|done]].
    apply elem_of_cons in Hc as [->|]; done.
Qed.

Lemma scan_unknown c zPerm :
  c ∈ access_vector → (∀ nm code, (Some nm, code) ∈ perm c → nm ≠ zPerm) →
  scan_classes (take 4 access_vector) (c_name c) zPerm (0, 0) = Undef NullDeref.
Proof.
  intros Hc Hp. change (take 4 access_vector) with access_vector.
  apply scan_undef; [done|intros; by apply av_class_unique|].
  apply scan_unknown_perm; [|by apply av_null_name].
  intros nm code Hin. apply (Hp nm code). rewrite <- (take_drop 11 (perm c)). by apply elem_of_app; left.
Qed.

(** The cached or computed answer of the SQL function on a known label. *)
Lemma selinuxCheckAccessFunction_spec n ids sc s id l i c j pn code zTable :
  auth_inv n ids sc s → n < 4096 → ids !! id = Some l →
  zlookup access_vector i = Some c → zlookup (perm c) j = Some (Some pn, code) →
  checks n sc s (ResInt (Z.b2z (selinux_check_access (scon s) (Some l) (c_name c) (Some pn) =? 0)))
    (selinuxCheckAccessFunction id (c_name c) pn zTable).
Proof.
  intros Hinv Hn Hid Hc Hj. pose proof (ai_labels _ _ _ _ Hinv) as Hlab.
  pose proof (li_bound _ _ _ Hlab _ _ Hid) as Hb.
  unfold selinuxCheckAccessFunction.
  assert (negb (id =? 0) = true) as -> by (apply negb_true_iff, Z.eqb_neq; lia).
  eapply checks_run; [done..|]. rewrite (scan_known _ _ _ _ _ Hc Hj).
  do 3 (eapply checks_run; [done..|]). cbn [fst snd].
  destruct (avc_find _ s) as [b|] eqn:Ef.
  - rewrite <- (avc_lookup _ _ _ _ _ _ _ _ _ _ _ Hinv Hn Hid Hc Hj b Ef). by eapply checks_ret.
  - do 2 (eapply checks_run; [done..|]).
    rewrite (bihash_find _ _ _ (li_ids _ _ _ Hlab)), Hid by by eapply (bh_range _ _ (li_ids _ _ _ Hlab)).
    eexists ids, _. split; [by erewrite sm_bind_run by done|]. split.
    + destruct Hinv as [H1 H2 H3 H4 H5 H6 H7]. split; try done.
      * by destruct H1.
      * by apply (avc_store ids s id l i c j pn code).
    + by split.
Qed.

(** ** Clearing the cache *)

Lemma clearavc_inv n ids sc s :
  auth_inv n ids sc s → auth_inv n ids sc (set_avc (st_clear (avc s)) s).
Proof.
  intros [H1 H2 H3 H4 H5 H6 (m & Hm & _)]. split; try done; [by destruct H1|].
  exists ∅. split; [by eapply st_clear_rep|]. intros k b d. by rewrite lookup_empty.
Qed.

(** ** The labels of a new table *)

(** [lookup_security_label] has no branch for databases. *)
Definition new_obj (isColumn : bool) (o : obj) : Prop :=
  match o with ODb _ => False | OTbl _ _ => isColumn = false | OCol _ _ _ => isColumn = true end.

Lemma object_id_spec n ids s sc isC o db :
  0 ≤ n < 2 ^ 31 - 1 → labels_inv n ids s → contexts s = Some sc →
  ctx_ok getcon security_compute_create_raw sc → tuples_known ids sc → new_obj isC o → o_db o = Some db →
  ∃ id s' ids', object_id isC db (o_tbl o) (o_col o) s = Ret (id, s') ∧
    labels_inv (n + 1) ids' s' ∧ contexts s' = Some sc ∧ ids ⊆ ids' ∧
    selinux_context s' = selinux_context s ∧ hash_find (o_key o) s' = Some id ∧
    ids' !! id = label_of getcon security_compute_create_raw s o ∧
    (obj_ok o = true → ∀ o', obj_ok o' = true →
      label_of getcon security_compute_create_raw s' o' = label_of getcon security_compute_create_raw s o').
Proof.
  clear selinux_check_access security_check_context sch.
  intros Hn Hinv Hc Hok Htk Ho Hdb. unfold object_id. rewrite <- Hdb. fold (o_key o).
  erewrite sm_bind_run by done. destruct (hash_find (o_key o) s) as [id|] eqn:Ef.
  { destruct (hash_find_known n ids s Hinv _ _ Ef) as (l & Hl & Hf).
    exists id, s, ids. split; [done|]. split; [eapply labels_inv_mono; [exact Hinv|lia]|].
    split_and!; [done..| |done]. unfold label_of. by rewrite Ef, Hf. }
  destruct (co_default _ _ _ Hok o) as [l Hl].
  assert (label_of getcon security_compute_create_raw s o = Some l) as Hlab
    by (unfold label_of; by rewrite Ef, Hc, Hl).
  assert (compute_sql_context getcon security_compute_create_raw isC (o_db o) (o_tbl o) (o_col o)
     (if isC then column_context sc else table_context sc) = Ret (Some l)) as Hcomp
    by (destruct o; simpl in Ho; [done|subst isC; exact Hl..]).
  rewrite Hdb in *.
  destruct (lookup_security_label_spec getcon security_compute_create_raw n ids s sc Hn Hinv Hc Hok Htk
    isC db (o_tbl o) (o_col o) l Hcomp) as (id & s1 & ids1 & E & Hsub & Hid & Hinv1 & Hsame & _).
  rewrite (sm_bind_run _ _ _ _ _ E). erewrite sm_bind_run by done.
  destruct (hash_insert_spec (n + 1) ids1 s1 o id Hinv1) as (Hinv2 & Hf1 & Hf2); [eauto|].
  pose proof Hsame as (Eh & Ea & Ec & _ & _ & _ & Ex).
  exists id. eexists _, ids1. split; [done|]. split; [exact Hinv2|].
  split_and!; [simpl; congruence|done|done|done|by rewrite Hlab|].
  intros Ho1 o' Ho'. destruct (decide (o' = o)) as [->|Hne].
  - unfold label_of at 1. rewrite Hf1, Hlab. simpl. rewrite (bihash_find _ _ _ (li_ids _ _ _ Hinv1)); [done|].
    by eapply (bh_range _ _ (li_ids _ _ _ Hinv1)).
  - rewrite <- (label_of_same getcon security_compute_create_raw n ids s Hinv s1 ids1 _ o' Hinv1 Hsub Hsame).
    unfold label_of. rewrite Hf2; [done|]. intros E'. by apply Hne, o_key_inj.
Qed.

(** The object that gets a label: the table or, with [Some c], its column. *)
Definition new_object (db tbl : string) (c : option string) : obj :=
  match c with None => OTbl db tbl | Some c => OCol db tbl c end.

(** The row that is to record it. *)
Definition row_insert (db : string) (con id : Z) (tbl : string) (c : option string) : sql_insert :=
  match c with None => table_insert db con id tbl | Some c => column_insert db con id tbl c end.

Definition row_names (db tbl : string) (c : option string) : list string :=
  match c with None => [db; tbl] | Some c => [db; tbl; c] end.

(** A text that records the label [lab] of an object under its registered
    number: it is read as the row of the object exactly when it is not too
    long and no name in it has a quote. *)
Definition records (keywordCode : string → token) (ids : gmap Z string) (lab : option string → option string)
    (ok : bool) (db tbl : string) (c : option string) (txt : string) : Prop :=
  ∃ con id, is_Some (ids !! con) ∧ is_Some (ids !! id) ∧ (ok = true → ids !! id = lab c) ∧
    ∀ mxSqlLen, nested_insert keywordCode mxSqlLen txt = Some (row_insert db con id tbl c) ↔
      Z.of_nat (String.length txt) ≤ mxSqlLen ∧ Forall (λ n, quote_free n = true) (row_names db tbl c).

Lemma records_mono kc ids ids' lab ok db tbl c st :
  ids ⊆ ids' → records kc ids lab ok db tbl c st → records kc ids' lab ok db tbl c st.
Proof.
  intros Hs (con & id & [l Hl] & [l' Hl'] & Hlab & Hr). exists con, id. split_and!; [| |intros Hk|done].
  - eexists. by eapply lookup_weaken.
  - eexists. by eapply lookup_weaken.
  - rewrite <- Hlab by done. rewrite Hl'. by eapply lookup_weaken.
Qed.

(** What the labelling of new objects keeps. *)
Record labelling (n : Z) (ids : gmap Z string) (sc : sesqlite_context) (s : state) : Prop := {
  lg_inv : labels_inv n ids s;
  lg_n : 0 ≤ n;
  lg_contexts : contexts s = Some sc;
  lg_tuples : tuples_known ids sc;
}.

Section new_table.
Variable sc : sesqlite_context.
Hypothesis Hok : ctx_ok getcon security_compute_create_raw sc.
Variable keywordCode : string → token.
Hypothesis Hkw : keywords_ok keywordCode.
(** The state before the table is created, and whether its names have no colon. *)
Variable s0 : state.
Variable ok : bool.
Variables db tbl : string.

Let lab (c : option string) : option string :=
  label_of getcon security_compute_create_raw s0 (new_object db tbl c).

(** Without colons the labels of objects are those of [s0]. *)
Definition labels_kept (s : state) : Prop :=
  ok = true → ∀ o, obj_ok o = true →
    label_of getcon security_compute_create_raw s o = label_of getcon security_compute_create_raw s0 o.

Lemma insert_read con id c :
  int_ok con → int_ok id →
  ∀ mx, nested_insert keywordCode mx
      (match c with None => insert_table_text db con id tbl | Some c => insert_column_text db con id tbl c end)
    = Some (row_insert db con id tbl c) ↔
    Z.of_nat (String.length (match c with None => insert_table_text db con id tbl
                             | Some c => insert_column_text db con id tbl c end)) ≤ mx ∧
    Forall (λ n, quote_free n = true) (row_names db tbl c).
Proof.
  intros Hc Hi mx. destruct c; [by apply insert_column_read|by apply insert_table_read].
Qed.

Lemma object_stmt_spec n ids s isC c :
  n < 2 ^ 31 - 1 → labelling n ids sc s → labels_kept s → new_obj isC (new_object db tbl c) →
  (ok = true → obj_ok (new_object db tbl c) = true) →
  ∃ st s' ids', (id ← object_id isC db (Some tbl) c; object_stmt db tbl c id) s = Ret (st, s') ∧
    labelling (n + 1) ids' sc s' ∧ labels_kept s' ∧ ids ⊆ ids' ∧ records keywordCode ids' lab ok db tbl c st.
Proof.
  clear selinux_check_access security_check_context sch.
  intros Hn [Hinv H0 Hc Htk] Hkept Ho Hobj. set (o := new_object db tbl c) in *.
  assert (o_db o = Some db ∧ o_tbl o = Some tbl ∧ o_col o = c) as (Hdb & Htbl & Hcol) by (by destruct c).
  destruct (object_id_spec n ids s sc isC o db)
    as (id & s1 & ids1 & E & Hi1 & Hc1 & Hsub & _ & _ & Hid & Hl1); [lia|done..|].
  rewrite Htbl, Hcol in E.
  assert (is_Some (ids1 !! id)) as Hid1.
  { rewrite Hid. unfold label_of. rewrite Hc. destruct (hash_find (o_key o) s) as [i|] eqn:Ef.
    - destruct (hash_find_known n ids s Hinv _ _ Ef) as (l & _ & ->). eauto.
    - destruct (co_default _ _ _ Hok o) as [l ->]. eauto. }
  assert (tuples_known ids1 sc) as Htk1 by by eapply tuples_known_mono.
  destruct (lookup_security_context_spec getcon security_compute_create_raw (n + 1) ids1 s1 sc db SELINUX_CONTEXT)
    as (con & Econ & Hcon); [done..|].
  eexists _, s1, ids1. split.
  { rewrite (sm_bind_run _ _ _ _ _ E). unfold object_stmt.
    erewrite sm_bind_run by (unfold sm_gets; by rewrite Econ). done. }
  split; [split; try done; lia|]. split; [|split; [done|]].
  - intros Hk o' Ho'. rewrite Hl1 by auto. by apply Hkept.
  - exists con, id. split; [done|]. split; [done|]. split.
    + intros Hk. rewrite Hid. by apply Hkept, Hobj.
    + destruct Hcon as [l Hl], Hid1 as [l' Hl'].
      pose proof (li_bound _ _ _ Hi1 _ _ Hl). pose proof (li_bound _ _ _ Hi1 _ _ Hl').
      apply insert_read; unfold int_ok; lia.
Qed.

Lemma column_stmts_spec n ids s cols :
  n + Z.of_nat (length cols) < 2 ^ 31 - 1 → labelling n ids sc s → labels_kept s →
  (ok = true → ∀ c, c ∈ cols → obj_ok (OCol db tbl c) = true) →
  ∃ sts s' ids', column_stmts db tbl cols s = Ret (sts, s') ∧
    labelling (n + Z.of_nat (length cols)) ids' sc s' ∧ labels_kept s' ∧ ids ⊆ ids' ∧
    Forall2 (records keywordCode ids' lab ok db tbl) (Some <$> cols) sts.
Proof.
  clear selinux_check_access security_check_context sch.
  revert n ids s. induction cols as [|c cols IH]; intros n ids s Hn Hl Hk Ho; cbn [column_stmts length] in *.
  { exists [], s, ids. split; [done|]. rewrite Z.add_0_r. split_and!; [done..|constructor]. }
  destruct (object_stmt_spec n ids s true (Some c)) as (st & s1 & ids1 & E & Hl1 & Hk1 & Hs1 & Hr1);
    [lia|done..|intros Hb; apply (Ho Hb); set_solver|].
  destruct (IH (n + 1) ids1 s1) as (sts & s2 & ids2 & E2 & Hl2 & Hk2 & Hs2 & Hr2);
    [lia|done|done|intros Hb c' Hc'; apply (Ho Hb); set_solver|].
  exists (st :: sts), s2, ids2. split.
  { apply sm_bind_Ret in E as (id & s3 & E0 & E1). simpl in E0, E1.
    rewrite (sm_bind_run _ _ _ _ _ E0), (sm_bind_run _ _ _ _ _ E1), (sm_bind_run _ _ _ _ _ E2). done. }
  replace (n + Z.of_nat (S (length cols))) with (n + 1 + Z.of_nat (length cols)) by lia.
  split; [done|]. split; [done|]. split; [by etrans|]. constructor; [by eapply records_mono|done].
Qed.
End new_table.

(** The columns that get a row of selinux_context. *)
Definition labelled (p : Table) : list (option string) :=
  None :: (Some <$> aCol p) ++ (if HasRowid p then [Some "ROWID"] else []).

Definition with_context_column (p : Table) : Table :=
  Tab (tab_name p) (aCol p ++ [SECURITY_CONTEXT_COLUMN_NAME]) (HasRowid p).

(** No name of the objects of the table has a colon. *)
Definition table_ok (db : string) (p : Table) : bool :=
  forallb (λ c, obj_ok (new_object db (tab_name p) c)) (labelled p).

Lemma create_column_spec n ids sc s kc db p :
  ctx_ok getcon security_compute_create_raw sc → keywords_ok kc →
  n + Z.of_nat (length (aCol p)) + 3 < 2 ^ 31 - 1 → labelling n ids sc s →
  existsb (STRICMP SECURITY_CONTEXT_COLUMN_NAME) (drop 1 (aCol p)) = false →
  let p' := with_context_column p in
  ∃ sts s' ids', create_security_context_column true db p s = Ret ((SQLITE_OK, p', sts), s') ∧
    labelling (n + Z.of_nat (length (aCol p)) + 3) ids' sc s' ∧
    Forall2 (records kc ids' (λ c, label_of getcon security_compute_create_raw s (new_object db (tab_name p) c))
      (table_ok db p') db (tab_name p)) (labelled p') sts.
Proof.
  clear selinux_check_access security_check_context sch.
  intros Hok Hkw Hn Hl Hdup p'. unfold create_security_context_column. rewrite Hdup, andb_false_r.
  fold (with_context_column p). fold p'. cbn beta zeta.
  assert (table_ok db p' = true → ∀ c, c ∈ labelled p' → obj_ok (new_object db (tab_name p') c) = true) as Hobj.
  { intros Hb c Hc. unfold table_ok in Hb. rewrite forallb_forall in Hb. apply Hb. by apply list_elem_of_In. }
  destruct (object_stmt_spec sc Hok kc Hkw s (table_ok db p') db (tab_name p') n ids s false None)
    as (st & s1 & ids1 & E & Hl1 & Hk1 & Hs1 & Hr1); [lia|done|done|done|intros Hb; apply (Hobj Hb); by left|].
  assert (Z.of_nat (length (aCol p')) = Z.of_nat (length (aCol p)) + 1) as Hlen
    by (simpl; rewrite length_app; simpl; lia).
  assert (Z.of_nat (length (if HasRowid p' then ["ROWID"] else [])) ≤ 1) as Hlen1
    by (by destruct (HasRowid p')).
  destruct (column_stmts_spec sc Hok kc Hkw s (table_ok db p') db (tab_name p') (n + 1) ids1 s1 (aCol p'))
    as (sts & s2 & ids2 & E2 & Hl2 & Hk2 & Hs2 & Hr2); [lia|done|done| |].
  { intros Hb c Hc. apply (Hobj Hb (Some c)). right. apply elem_of_app. left. by apply list_elem_of_fmap_2. }
  destruct (column_stmts_spec sc Hok kc Hkw s (table_ok db p') db (tab_name p')
    (n + 1 + Z.of_nat (length (aCol p'))) ids2 s2 (if HasRowid p' then ["ROWID"] else []))
    as (rts & s3 & ids3 & E3 & Hl3 & Hk3 & Hs3 & Hr3); [lia|done|done| |].
  { intros Hb c Hc. apply (Hobj Hb (Some c)). right. apply elem_of_app. right.
    destruct (HasRowid p'); [|by apply elem_of_nil in Hc]. apply list_elem_of_singleton in Hc as ->. by left. }
  exists (st :: sts ++ rts), s3, ids3. split.
  { apply sm_bind_Ret in E as (id & s4 & E0 & E1). simpl in E0, E1. unfold p' in *. simpl in *.
    rewrite (sm_bind_run _ _ _ _ _ E0), (sm_bind_run _ _ _ _ _ E1), (sm_bind_run _ _ _ _ _ E2).
    erewrite sm_bind_run by (destruct (HasRowid p); exact E3). done. }
  split.
  - pose proof (lg_n _ _ _ _ Hl). destruct Hl3 as [Hi _ ??]. split; [|lia|done..].
    eapply labels_inv_mono; [exact Hi|lia].
  - constructor; [eapply records_mono, Hr1; by etrans|]. apply Forall2_app.
    + eapply (list.Forall2_impl _ _ _ _ Hr2). intros ??. by apply records_mono.
    + by destruct (HasRowid p').
Qed.

Lemma select_label_spec n ids (s : state) id l :
  labels_inv n ids s → ids !! id = Some l → select_label id s = Some l.
Proof.
  intros Hinv Hid. pose proof (li_rows _ _ _ Hinv) as Hr. unfold select_label.
  destruct (find (λ r, r_rowid r =? id) (selinux_id s)) as [r|] eqn:E.
  - apply find_some in E as [Hin E]. b2p. subst id. simpl. rewrite <- Hid. symmetry.
    apply Hr. exists (r_context r). rewrite list_elem_of_In. by destruct r.
  - apply Hr in Hid as [c Hin]. rewrite list_elem_of_In in Hin.
    pose proof (find_none _ _ E _ Hin) as Hf. simpl in Hf. b2p. done.
Qed.

(** ** Rolling back *)

(** A label whose row would get a number that is still in memory. *)
Lemma new_label_reused ids (s : state) con l l0 :
  let id := new_rowid (r_rowid <$> selinux_id s) in
  bihash_rep (hash_id s) ids → in_sw 32 id → ids !! id = Some l0 → l ∉ r_label <$> selinux_id s →
  new_label con l s = Undef UseAfterFree.
Proof.
  intros id Hb Hr Hid Hl. unfold new_label.
  erewrite sm_bind_run by (unfold step_insert, sql_insert_id; by rewrite decide_False).
  erewrite sm_bind_run by done. simpl. fold id. rewrite (sw_small 32 id) by (done || lia).
  apply sm_bind_undef. unfold bihash_insert. simpl. by rewrite (bihash_insert_known _ _ _ _ _ Hb Hid).
Qed.

Lemma insert_id_unknown ids (s : state) db l con :
  bihash_rep (hash_id s) ids → (∀ id, ids !! id ≠ Some l) →
  c_lookup_security_context (Some db) (Some SELINUX_ID) s = Ret con →
  c_insert_id (Some db) (Some l) s = new_label con l s.
Proof.
  intros Hb Hl Hc. unfold Labels.insert_id. erewrite sm_bind_run by done. simpl.
  destruct (SESQLITE_BIHASH_FINDKEY (hash_id s) l) as [id|] eqn:E.
  { apply (bihash_findkey_Some _ _ _ _ Hb) in E. by destruct (Hl id). }
  erewrite sm_bind_run by (unfold sm_gets; by rewrite Hc). by erewrite sm_bind_run by done.
Qed.

(** ** Theorems *)

(** C5: [checkAccess] answers as the policy does for the label of the object,
    whether or not the answer comes from the cache, as long as the label
    numbers have 12 bits; it keeps the invariant and the label of every
    object. *)
Theorem checkAccess_is_policy n ids sc s o perm_ :
  auth_inv n ids sc s → n + 1 < 4096 → ctx_ok getcon security_compute_create_raw sc → ctx_plain sc →
  obj_ok o = true → is_Some (av_name (o_class o) perm_) →
  ∃ s' ids', checkAccess (o_db o) (o_tbl o) (o_col o) (o_class o) perm_ s = Ret (granted s o perm_, s') ∧
    auth_inv (n + 1) ids' sc s' ∧ stable s s'.
Proof.
  intros. destruct (checkAccess_spec n ids sc s o perm_) as (ids' & s' & E & Hi & Hs); [done..|].
  by exists s', ids'.
Qed.

(** C1: [selinuxAuthorizer] returns [SQLITE_OK] exactly when the policy grants
    access to the database and every permission the action requires on
    tables and columns and the action is not one that is always denied
    (setting writable_schema, attaching or detaching a database); otherwise
    it returns [SQLITE_DENY]. *)
Theorem selinuxAuthorizer_decision n ids sc s type a arg1 arg2 dbname source :
  let req := required a arg1 arg2 dbname in
  auth_inv n ids sc s → ctx_ok getcon security_compute_create_raw sc → ctx_plain sc →
  zlookup actions type = Some a → args_ok a arg1 arg2 dbname →
  (∀ d, dbname = Some d → colon_free d = true) → all_ok req = true →
  n + 1 + Z.of_nat (length req) < 4096 →
  ∃ s' ids', selinuxAuthorizer type arg1 arg2 dbname source s =
      Ret (if db_granted s dbname && negb (forbidden a arg1) && all_granted s req
           then SQLITE_OK else SQLITE_DENY, s') ∧
    auth_inv (n + 1 + Z.of_nat (length req)) ids' sc s' ∧ stable s s'.
Proof.
  intros req Hinv Hok Hpl Ha Harg Hd Ho Hn.
  destruct (selinuxAuthorizer_spec sc Hok Hpl n ids s type a arg1 arg2 dbname source)
    as (ids' & s' & E & Hi & Hs); [done..|]. by exists s', ids'.
Qed.

(** Emptying the cache, as the commit and rollback callbacks do, does not
    change any decision of the authorizer. *)
Theorem clearavc_transparent n ids sc s type a arg1 arg2 dbname source :
  let req := required a arg1 arg2 dbname in
  auth_inv n ids sc s → ctx_ok getcon security_compute_create_raw sc → ctx_plain sc →
  zlookup actions type = Some a → args_ok a arg1 arg2 dbname →
  (∀ d, dbname = Some d → colon_free d = true) → all_ok req = true →
  n + 1 + Z.of_nat (length req) < 4096 →
  ∃ rc s1 s2 s3, selinux_commit_callback s = Ret (0, s1) ∧
    selinuxAuthorizer type arg1 arg2 dbname source s = Ret (rc, s2) ∧
    selinuxAuthorizer type arg1 arg2 dbname source s1 = Ret (rc, s3).
Proof.
  intros req Hinv Hok Hpl Ha Harg Hd Ho Hn.
  destruct (selinuxAuthorizer_spec sc Hok Hpl n ids s type a arg1 arg2 dbname source)
    as (ids2 & s2 & E2 & _); [done..|].
  destruct (selinuxAuthorizer_spec sc Hok Hpl n ids (set_avc (st_clear (avc s)) s) type a arg1 arg2 dbname source)
    as (ids3 & s3 & E3 & _); [by apply clearavc_inv|done..|].
  eexists _, _, s2, s3. split; [done|]. split; [exact E2|]. exact E3.
Qed.

(** the SQL function [selinux_check_access] answers as the policy does
    for a registered label, a class and a permission of the table. *)
Theorem selinuxCheckAccessFunction_known n ids sc s id l i c j pn code zTable :
  auth_inv n ids sc s → n < 4096 → ids !! id = Some l →
  zlookup access_vector i = Some c → zlookup (perm c) j = Some (Some pn, code) →
  ∃ s' ids', selinuxCheckAccessFunction id (c_name c) pn zTable s =
      Ret (ResInt (Z.b2z (selinux_check_access (scon s) (Some l) (c_name c) (Some pn) =? 0)), s') ∧
    auth_inv n ids' sc s' ∧ stable s s'.
Proof.
  intros Hinv Hn Hid Hc Hj.
  destruct (selinuxCheckAccessFunction_spec n ids sc s id l i c j pn code zTable)
    as (ids' & s' & E & Hi & Hs); [done..|]. by exists s', ids'.
Qed.

(** the SQL function [selinux_check_access] with a class of the table and
    a permission that class does not have compares with a NULL name; with an
    unknown class its answer is cached as that of permission create on class
    db_database. *)
Theorem selinuxCheckAccessFunction_unknown s id zClass zPerm t1 t2 :
  id ≠ 0 → (∃ m, st_rep (avc s) m) →
  (∀ c i, zlookup access_vector i = Some c → c_name c = zClass →
     (∀ nm code, (Some nm, code) ∈ perm c → nm ≠ zPerm) →
     selinuxCheckAccessFunction id zClass zPerm t1 s = Undef NullDeref) ∧
  ((∀ c, c ∈ access_vector → c_name c ≠ zClass) →
     avc_find (i32 (compress (scon_id s) id 0 0)) s = None →
     ∃ b s', selinuxCheckAccessFunction id zClass zPerm t1 s = Ret (ResInt (Z.b2z b), s') ∧
       b = (selinux_check_access (scon s) (SESQLITE_BIHASH_FIND (hash_id s) id) zClass (Some zPerm) =? 0) ∧
       selinuxCheckAccessFunction id "db_database" "create" t2 s' = Ret (ResInt (Z.b2z b), s')).
Proof.
  intros Hid0 [m Hm]. assert (negb (id =? 0) = true) as Hid by by apply negb_true_iff, Z.eqb_neq. split.
  - intros c i Hc <- Hp. unfold selinuxCheckAccessFunction. rewrite Hid.
    erewrite sm_bind_run by done. apply sm_bind_undef. unfold sm_lift, sm_gets.
    by rewrite (scan_unknown c zPerm (av_in _ _ Hc) Hp).
  - intros Hc Hf. eexists _, _. split; [|split; [reflexivity|]]; unfold selinuxCheckAccessFunction; rewrite Hid.
    + do 2 (erewrite sm_bind_run by
        (unfold sm_lift, sm_gets; rewrite ?scan_unknown_class by done; done)).
      cbn [fst snd]. do 2 erewrite sm_bind_run by done. rewrite Hf.
      by do 3 erewrite sm_bind_run by done.
    + do 3 erewrite sm_bind_run by done. cbn [fst snd]. erewrite sm_bind_run by done.
      unfold avc_find. cbn [avc set_avc scon_id].
      rewrite (st_find_rep _ (put m (KInt (i32 (compress (scon_id s) id 0 0)))
        (selinux_check_access (scon s) (SESQLITE_BIHASH_FIND (hash_id s) id) zClass (Some zPerm) =? 0) 0)).
      * unfold put. by destruct (m !! _) as [[]|]; rewrite lookup_insert_eq.
      * apply st_put_rep; [done|by apply sw_range].
      * by apply sw_range.
Qed.

(** the SQL functions [getcon_id] and [getcon_label] are inverse: the
    number of a valid label is that of the row that holds it. *)
Theorem getcon_id_label n ids s sc l :
  0 ≤ n < 2 ^ 31 - 1 → labels_inv n ids s → contexts s = Some sc →
  ctx_ok getcon security_compute_create_raw sc → tuples_known ids sc → security_check_context l = 0 →
  ∃ id s', selinuxGetconIdFunction l s = Ret (ResInt id, s') ∧
    selinuxGetconLabelFunction id s' = Ret (ResText l, s').
Proof.
  intros Hn Hinv Hc Hok Htk Hl. unfold selinuxGetconIdFunction. rewrite Hl.
  destruct (insert_id_spec getcon security_compute_create_raw n ids s sc Hn Hinv Hc Hok Htk "main" l)
    as (id & s' & ids' & E & _ & Hid & Hinv' & _).
  exists id, s'. split; [by rewrite Z.eqb_refl, (sm_bind_run _ _ _ _ _ E)|].
  unfold selinuxGetconLabelFunction. erewrite sm_bind_run by done.
  by rewrite (select_label_spec _ _ _ _ _ Hinv' Hid).
Qed.


(** C27: the labels in memory outlive a transaction: when a new label has been
    registered in a transaction that is rolled back, the next new label gets
    the same number and its registration reads freed memory. *)
Theorem insert_id_after_rollback n ids s sc db l1 l2 :
  0 ≤ n < 2 ^ 31 - 1 → labels_inv n ids s → contexts s = Some sc →
  ctx_ok getcon security_compute_create_raw sc → tuples_known ids sc →
  (∀ id, ids !! id ≠ Some l1) → (∀ id, ids !! id ≠ Some l2) → l1 ≠ l2 →
  ∃ id s1 s2, c_insert_id (Some db) (Some l1) s = Ret (id, s1) ∧ rollback s s1 = Ret ((), s2) ∧
    c_insert_id (Some db) (Some l2) s2 = Undef UseAfterFree.
Proof.
  intros Hn Hinv Hc Hok Htk H1 H2 Hne.
  destruct (lookup_security_context_spec getcon security_compute_create_raw n ids s sc db SELINUX_ID)
    as (con & Econ & _); [done..|].
  destruct (new_label_spec n ids s con l1 Hn Hinv H1) as (s1 & E1 & Hnew & Hinv1 & Hsame).
  pose proof (li_ids _ _ _ Hinv1) as Hb1. set (id := new_rowid _) in *.
  exists id, s1. eexists. split.
  { by rewrite (insert_id_unknown ids s db l1 con (li_ids _ _ _ Hinv) H1 Econ). }
  split; [done|]. set (s2 := set_avc _ _).
  assert (tuples_known (<[id := l1]> ids) sc) as Htk2.
  { eapply tuples_known_mono; [done|by apply insert_subseteq]. }
  destruct (lookup_security_context_spec getcon security_compute_create_raw (n + 1) _ s1 sc db SELINUX_ID Hinv1)
    as (con2 & Econ2 & _); [by rewrite (proj1 (proj2 (proj2 Hsame)))|done..|].
  rewrite (insert_id_unknown (<[id := l1]> ids) s2 db l2 con2 Hb1); [|..|exact Econ2].
  - apply (new_label_reused (<[id := l1]> ids) s2 con2 l2 l1 Hb1).
    + eapply (bh_range _ _ Hb1). apply lookup_insert_eq.
    + apply lookup_insert_eq.
    + simpl. intros (r & -> & Hr)%list_elem_of_fmap. apply (H2 (r_rowid r)).
      apply (li_rows _ _ _ Hinv). exists (r_context r). by destruct r.
  - intros i. rewrite lookup_insert. case_decide; [congruence|apply H2].
Qed.

End selinux.
End authorizer.

(** ** Witnesses *)

Definition no_create : option string → option string → Z → option string := λ _ _ _, None.

(** A policy that refuses everything on the label of one table. *)
Definition ex_policy (scon ttcon : option string) (cls : string) (p : option string) : Z :=
  if decide (ttcon = Some "t_t") then -1 else 0.

Definition ex_schema : schema :=
  [DbEnt "main" [Tab "t" ["a"; "security_context"] true; Tab "u" ["b"] true]; DbEnt "temp" []].

Lemma ex_plain : ctx_plain None no_create ex_sc.
Proof.
  apply ctx_plain_lists; [|done]. intros e He. simpl in He.
  repeat (apply elem_of_cons in He as [->|He]; [done|]). by apply elem_of_nil in He.
Qed.

Lemma ex_auth : auth_inv ex_policy 1 ex_ids ex_sc ex_state.
Proof.
  split; [exact ex_inv|lia|done|exact ex_tuples| |simpl; lia|].
  - unfold ex_ids. by intros id l [<- <-]%lookup_singleton_Some.
  - exists ∅. split; [apply st_init_rep|]. intros *. by rewrite lookup_empty.
Qed.

Lemma ex_labelling : labelling 1 ex_ids ex_sc ex_state.
Proof. split; [exact ex_inv|lia|done|exact ex_tuples]. Qed.

Lemma checkAccess_is_policy_witness :
  ∃ s', checkAccess None no_create ex_policy (Some "main") (Some "t") None SELINUX_DB_TABLE SELINUX_SELECT
          ex_state = Ret (false, s').
Proof.
  destruct (checkAccess_is_policy None no_create ex_policy 1 ex_ids ex_sc ex_state (OTbl "main" "t")
    SELINUX_SELECT) as (s' & ids' & E & _);
    [exact ex_auth|lia|apply ex_sc_ok|exact ex_plain|reflexivity|eexists; reflexivity|].
  exists s'. exact E.
Defined.

Lemma selinuxAuthorizer_decision_witness :
  ∃ s', selinuxAuthorizer None no_create ex_policy ex_schema 20 (Some "u") (Some "b") (Some "main") None
          ex_state = Ret (SQLITE_OK, s').
Proof.
  destruct (selinuxAuthorizer_decision None no_create ex_policy ex_schema 1 ex_ids ex_sc ex_state 20
    SQLITE_READ (Some "u") (Some "b") (Some "main") None) as (s' & ids' & E & _);
    [exact ex_auth|apply ex_sc_ok|exact ex_plain|reflexivity|simpl; eauto|intros d [= <-]; reflexivity|reflexivity|simpl; lia|].
  exists s'. exact E.
Defined.

Lemma clearavc_transparent_witness :
  ∃ rc s1 s2 s3, selinux_commit_callback ex_state = Ret (0, s1) ∧
    selinuxAuthorizer None no_create ex_policy ex_schema 18 (Some "t") None (Some "main") None ex_state
      = Ret (rc, s2) ∧
    selinuxAuthorizer None no_create ex_policy ex_schema 18 (Some "t") None (Some "main") None s1
      = Ret (rc, s3).
Proof.
  apply (clearavc_transparent None no_create ex_policy ex_schema 1 ex_ids ex_sc ex_state 18
    SQLITE_INSERT (Some "t") None (Some "main") None);
    [exact ex_auth|apply ex_sc_ok|exact ex_plain|reflexivity|simpl; eauto|intros d [= <-]; reflexivity|reflexivity|simpl; lia].
Defined.

Lemma selinuxCheckAccessFunction_known_witness :
  ∃ s', selinuxCheckAccessFunction ex_policy 1 "db_tuple" "select" "t" ex_state = Ret (ResInt 1, s').
Proof.
  destruct (selinuxCheckAccessFunction_known None no_create ex_policy 1 ex_ids ex_sc ex_state 1 "sys_t" 3
    (AvClass "db_tuple" SELINUX_DB_TUPLE (pad32 [
      (Some "relabelfrom", SELINUX_RELABEL_FROM); (Some "relabelto", SELINUX_RELABEL_TO);
      (Some "select", SELINUX_SELECT); (Some "update", SELINUX_UPDATE);
      (Some "insert", SELINUX_INSERT); (Some "delete", SELINUX_DELETE)])) 2 "select" 6 "t")
    as (s' & ids' & E & _); [exact ex_auth|lia|reflexivity|reflexivity|reflexivity|].
  exists s'. exact E.
Defined.

Lemma selinuxCheckAccessFunction_unknown_witness :
  selinuxCheckAccessFunction ex_policy 1 "db_tuple" "create" "t" ex_state = Undef NullDeref ∧
  ∃ b s', selinuxCheckAccessFunction ex_policy 1 "file" "read" "t" ex_state = Ret (ResInt (Z.b2z b), s') ∧
    b = (ex_policy (scon ex_state) (SESQLITE_BIHASH_FIND (hash_id ex_state) 1) "file" (Some "read") =? 0) ∧
    selinuxCheckAccessFunction ex_policy 1 "db_database" "create" "t" s' = Ret (ResInt (Z.b2z b), s').
Proof.
  split.
  - destruct (selinuxCheckAccessFunction_unknown ex_policy ex_state 1 "db_tuple" "create" "t" "t")
      as [H _]; [lia|exists ∅; apply st_init_rep|].
    eapply (H _ 3); [reflexivity|reflexivity|]. intros nm code Hin. simpl in Hin.
    repeat (apply elem_of_cons in Hin as [[= -> ->]|Hin]; [discriminate|]).
    repeat (apply elem_of_cons in Hin as [[=]|Hin]). by apply elem_of_nil in Hin.
  - destruct (selinuxCheckAccessFunction_unknown ex_policy ex_state 1 "file" "read" "t" "t")
      as [_ H]; [lia|exists ∅; apply st_init_rep|].
    apply H; [|reflexivity]. intros c Hc. simpl in Hc.
    repeat (apply elem_of_cons in Hc as [->|Hc]; [discriminate|]). by apply elem_of_nil in Hc.
Defined.

Lemma getcon_id_label_witness :
  ∃ id s', selinuxGetconIdFunction None no_create (λ _, 0) "user_t" ex_state = Ret (ResInt id, s') ∧
    selinuxGetconLabelFunction id s' = Ret (ResText "user_t", s').
Proof.
  apply (getcon_id_label None no_create (λ _, 0) 1 ex_ids ex_state ex_sc "user_t");
    [lia|exact ex_inv|reflexivity|apply ex_sc_ok|exact ex_tuples|reflexivity].
Defined.


Lemma insert_id_after_rollback_witness :
  ∃ id s1 s2, insert_id None no_create (Some "main") (Some "x_t") ex_state = Ret (id, s1) ∧
    rollback ex_state s1 = Ret ((), s2) ∧
    insert_id None no_create (Some "main") (Some "y_t") s2 = Undef UseAfterFree.
Proof.
  apply (insert_id_after_rollback None no_create 1 ex_ids ex_state ex_sc "main" "x_t" "y_t");
    [lia|exact ex_inv|reflexivity|apply ex_sc_ok|exact ex_tuples|
     unfold ex_ids; intros id [_ [=]]%lookup_singleton_Some|
     unfold ex_ids; intros id [_ [=]]%lookup_singleton_Some|congruence].
Defined.
