(* ===== verification/Init.v ===== *)
(** * Initialisation, reloading and pragmas

    Models ext/security/sesqlite/sesqlite_init.c (opening a database, loading
    labels from the configuration file or from the tables, the pragmas), the
    reload of sesqlite_contexts.c, [initialize_authorizer] of
    sesqlite_authorizer.c, and the attribute functions of src/main.c.  The
    return codes of the SQLite calls and the success of allocations are
    parameters. *)

From S2P Require Import Prelude CString SeHash BiHash Avc ContextFile Schema Labels Authorizer.
From Stdlib Require Import Ascii.
#[local] Open Scope string_scope.
#[local] Open Scope Z_scope.
#[local] Open Scope list_scope.

(** ** Attributes of a connection *)

(** [db->pXattrs] is a hash table of SQLite: keys differing in case are
    equal. *)
Definition xattrs := gmap (list Z) string.

Definition sqlite3_set_xattr (m : xattrs) (key : string) (value : option string) : Z * xattrs :=
  match value with
  | Some v => (SQLITE_OK, <[lower key := v]> m)
  | None => (SQLITE_OK, delete (lower key) m)
  end.

Definition sqlite3_get_xattr (m : xattrs) (key : string) : option string := m !! lower key.

Lemma xattr_get_set m key value :
  sqlite3_get_xattr (snd (sqlite3_set_xattr m key value)) key = value.
Proof.
  unfold sqlite3_get_xattr. destruct value; simpl.
  - apply (lookup_insert_eq (M := gmap (list Z))).
  - apply (lookup_delete_eq (M := gmap (list Z))).
Qed.

(** ** Calls whose results are parameters *)

Inductive api_call : Set :=
  | PrepareCheck | ExecContextTable | ExecIdTable | PrepareInsert | PrepareUpdate
  | PrepareConInsert | PrepareSelectId | PrepareSelectLabel | PrepareLoadId | PrepareLoadContext
  | CreatePragma (name : string) | SetExtraColumn | CreateFunction (name : string) | SetAuthorizer.

Inductive alloc : Set := AllocHash | AllocHashId | AllocAvc | AllocAllow | AllocDeny.

(** What a pragma prints. *)
Inductive pragma_out :=
  | Usage
  | Restored (count : Z)
  | NoContext
  | Changed
  | Con (id : Z) (label : option string)
  | NoDefault
  | DefaultCon (id : Z) (label : string)
  | Cleared.

(** [sqlite_master] rows of which [isReopen] counts those LIKE 'selinux%'. *)
Record master_row := MasterRow { mr_type : string; mr_tbl_name : string }.

Definition like_selinux (name : string) : bool := sqlite3_strnicmp name "selinux" 7 =? 0.

Definition selinux_tables (master : list master_row) : list master_row :=
  filter (λ r, String.eqb (mr_type r) "table" && like_selinux (mr_tbl_name r)) master.

(** [strtok(args, d)], then the three parts of a dotted name, and the rest. *)
Definition dotted_args (s : string) : option string * option string * option string * string :=
  let '(db, r) := strtok_r s ". " in
  let '(tbl, r) := strtok_r r ". " in
  let '(col, r) := strtok_r r ". " in
  (db, tbl, col, r).

(** [MORE_TOKENS] *)
Definition more_tokens (rest : string) : bool := bool_decide (is_Some (fst (strtok_r rest ""))).

Section init.
Context {TH TK TV TA : Type}.
Context `{!Store TH Z} `{!Store TK string} `{!Store TV Z} `{!Store TA bool}.
Abbreviation state := (sestate TH TK TV TA).
Abbreviation M := (sm state).

Section env.
Variable getcon : option string.
Variable security_compute_create_raw : option string → option string → Z → option string.
Variable api : api_call → Z.
Variable alloc_ok : alloc → bool.
Variable sch : schema.
Variable contexts_file : option string.

Abbreviation compute := (compute_sql_context getcon security_compute_create_raw).
Abbreviation m_insert_id := (insert_id getcon security_compute_create_raw).
Abbreviation m_insert_context := (insert_context getcon security_compute_create_raw).
Abbreviation m_getContext := (getContext getcon security_compute_create_raw).

(** [if( SQLITE_OK!=rc ) return rc;] *)
Definition on_ok (rc : M Z) (k : M Z) : M Z :=
  r ← rc; if r =? SQLITE_OK then k else mret r.

(** ** Opening *)

Definition isReopen (master : list master_row) : Z * bool :=
  if api PrepareCheck =? SQLITE_OK then
    match Z.of_nat (length (selinux_tables master)) with
    | 0 => (SQLITE_OK, false)
    | 2 => (SQLITE_OK, true)
    | _ => (SQLITE_ERROR, false)
    end
  else (SQLITE_ERROR, false).

(** The tables keep their rows when they exist. *)
Definition create_internal_table : M Z :=
  if api ExecContextTable =? SQLITE_OK then mret (api ExecIdTable) else mret (api ExecContextTable).

Fixpoint first_error (cs : list api_call) : Z :=
  match cs with
  | [] => SQLITE_OK
  | c :: cs' => if api c =? SQLITE_OK then first_error cs' else api c
  end.

Definition prepare_stmt : M Z :=
  mret (first_error [PrepareInsert; PrepareUpdate; PrepareConInsert; PrepareSelectId; PrepareSelectLabel]).

(** One element of the loop of [initialize_mapping]. *)
Definition map_label (label : string) : M () :=
  value ← sm_gets (find_label_id (Some label));
  match value with
  | Some _ => mret ()
  | None =>
      rc ← step_insert 0 label;
      _ ← sm_lift (c_assert (rc =? SQLITE_DONE));
      rowid ← sm_get last_rowid;
      bihash_insert (i32 rowid) label
  end.

Fixpoint map_labels (l : list sesqlite_context_element) : M () :=
  match l with
  | [] => mret ()
  | pp :: l' => _ ← map_label (security_context pp); map_labels l'
  end.

Definition initialize_mapping : M Z :=
  sc ← sm_gets (λ s, deref (contexts s));
  _ ← map_labels (tuple_context sc);
  result ← sm_lift (compute false (Some "main") (Some SELINUX_ID) None (tuple_context sc));
  value ← sm_gets (find_label_id result);
  match value with
  | None => sm_lift (Undef AssertFail)
  | Some v =>
      rc ← step_update v;
      mret (if rc =? SQLITE_DONE then SQLITE_OK else SQLITE_ERROR)
  end.

(** ** Loading from the tables *)

Fixpoint load_ids (rows : list id_row) : M () :=
  match rows with
  | [] => mret ()
  | r :: rows' => _ ← bihash_insert (i32 (r_rowid r)) (r_label r); load_ids rows'
  end.

(** An empty name is NULL. *)
Definition empty_null (s : option string) : option string :=
  match s with Some "" => None | _ => s end.

Fixpoint load_keys (rows : list ctx_row) : M () :=
  match rows with
  | [] => mret ()
  | r :: rows' =>
      _ ← insert_key (x_db r) (empty_null (x_name r)) (empty_null (x_column r)) (i32 (x_label r));
      load_keys rows'
  end.

Definition load_contexts_from_table : M Z :=
  if negb (api PrepareLoadId =? SQLITE_OK) then mret (api PrepareLoadId) else
  ids ← sm_get selinux_id;
  _ ← load_ids ids;
  if negb (api PrepareLoadContext =? SQLITE_OK) then mret (api PrepareLoadContext) else
  keys ← sm_get selinux_context;
  _ ← load_keys keys;
  mret SQLITE_OK.

(** ** Loading from the configuration *)

(** The body repeated for a database, a table, a column and the rowid: the
    label of the object, its entry and its row. *)
Definition record_object (sc : sesqlite_context) (isColumn : bool) (dbName : string)
    (tblName colName : option string) (con : list sesqlite_context_element) : M () :=
  sec_label_id ← m_insert_context isColumn (Some dbName) tblName colName con (tuple_context sc);
  sec_con_id ← m_insert_context false (Some dbName) (Some SELINUX_CONTEXT) None
                 (tuple_context sc) (tuple_context sc);
  _ ← insert_key (Some dbName) tblName colName sec_label_id;
  rc ← step_con_insert sec_con_id sec_label_id (Some dbName)
         (Some (fmt_s tblName)) (Some (fmt_s colName));
  sm_lift (c_assert (rc =? SQLITE_DONE)).

Fixpoint reload_columns (sc : sesqlite_context) (dbName tblName : string) (colFilter : option string)
    (cols : list string) (count : Z) : M Z :=
  match cols with
  | [] => mret count
  | c :: cols' =>
      if filter_accepts colFilter c then
        _ ← record_object sc true dbName (Some tblName) (Some c) (column_context sc);
        reload_columns sc dbName tblName colFilter cols' (count + 1)
      else reload_columns sc dbName tblName colFilter cols' count
  end.

Fixpoint reload_tables (sc : sesqlite_context) (dbName : string) (tblFilter colFilter : option string)
    (ts : list Table) (count : Z) : M Z :=
  match ts with
  | [] => mret count
  | t :: ts' =>
      if filter_accepts tblFilter (tab_name t) then
        _ ← record_object sc false dbName (Some (tab_name t)) None (table_context sc);
        count ← reload_columns sc dbName (tab_name t) colFilter (aCol t) (count + 1);
        count ← (if HasRowid t && filter_accepts colFilter "ROWID" then
                   _ ← record_object sc true dbName (Some (tab_name t)) (Some "ROWID") (column_context sc);
                   mret (count + 1)
                 else mret count);
        reload_tables sc dbName tblFilter colFilter ts' count
      else reload_tables sc dbName tblFilter colFilter ts' count
  end.

Fixpoint reload_dbs (sc : option sesqlite_context) (dbFilter tblFilter colFilter : option string)
    (dbs : list Db) (count : Z) : M Z :=
  match dbs with
  | [] => mret count
  | d :: dbs' =>
      if filter_accepts dbFilter (zName d) then
        sc' ← sm_lift (deref sc);
        _ ← record_object sc' false (zName d) None None (db_context sc');
        count ← reload_tables sc' (zName d) tblFilter colFilter (tblHash d) count;
        reload_dbs sc dbFilter tblFilter colFilter dbs' count
      else reload_dbs sc dbFilter tblFilter colFilter dbs' count
  end.

(** The databases are scanned from the last to the first. *)
Definition reload_sesqlite_contexts (sc : option sesqlite_context)
    (dbFilter tblFilter colFilter : option string) : M Z :=
  reload_dbs sc dbFilter tblFilter colFilter (rev sch) 0.

Definition load_sesqlite_contexts (sc : option sesqlite_context) : M Z :=
  reload_sesqlite_contexts sc (Some "*") (Some "*") (Some "*").

(** ** Pragmas *)

Definition selinux_restorecon_pragma (args : option string) : M pragma_out :=
  args ← sm_lift (deref args);
  let '(dbName, tblName, colName, rest) := dotted_args args in
  if bool_decide (dbName = None) || more_tokens rest then mret Usage else
  (* free_sesqlite_context reads the old structure *)
  _ ← sm_gets (λ s, deref (contexts s));
  sc ← sm_lift (read_sesqlite_context contexts_file);
  _ ← sm_mod (set_contexts sc);
  count ← reload_sesqlite_contexts sc dbName tblName colName;
  mret (Restored count).

Definition selinux_chcon_pragma (args : option string) : M pragma_out :=
  args ← sm_lift (deref args);
  let '(label, rest) := strtok_r args " " in
  let '(dbName, tblName, colName, rest) := dotted_args rest in
  if bool_decide (label = None) || bool_decide (dbName = None) || more_tokens rest then mret Usage else
  key ← sm_get (get_key dbName tblName colName);
  if key =? -1 then mret NoContext else
  id ← m_insert_id dbName label;
  _ ← insert_key dbName tblName colName id;
  mret Changed.

Definition selinux_getcon_pragma (args : option string) : M pragma_out :=
  args ← sm_lift (deref args);
  let '(dbName, tblName, colName, rest) := dotted_args args in
  if bool_decide (dbName = None) || more_tokens rest then mret Usage else
  let tclass := match tblName, colName with
                | None, _ => SELINUX_DB_DATABASE
                | Some _, None => SELINUX_DB_TABLE
                | Some _, Some _ => SELINUX_DB_COLUMN
                end in
  id ← m_getContext dbName tblName colName tclass;
  l ← sm_get (select_label id);
  mret (Con id l).

Definition selinux_getdefaultcon_pragma (args : option string) : M pragma_out :=
  args ← sm_lift (deref args);
  let '(dbName, tblName, colName, rest) := dotted_args args in
  if bool_decide (dbName = None) || more_tokens rest then mret Usage else
  sc ← sm_gets (λ s, deref (contexts s));
  defaultcon ← sm_lift (compute (bool_decide (is_Some colName)) dbName tblName colName
    (match tblName, colName with
     | Some _, None => table_context sc
     | Some _, Some _ => column_context sc
     | None, _ => db_context sc
     end));
  match defaultcon with
  | None => mret NoDefault
  | Some l => id ← m_insert_id (Some "main") (Some l); mret (DefaultCon id l)
  end.

Definition selinux_clearavc_pragma (args : option string) : M pragma_out :=
  _ ← sesqlite_clearavc; mret Cleared.

Definition register_pragmas : M Z :=
  mret (first_error (CreatePragma <$> ["restorecon"; "chcon"; "getcon"; "getdefaultcon"; "clearavc"])).

(** ** The authorizer and the whole *)

Definition initialize_authorizer : M Z :=
  if negb (alloc_ok AllocAvc && alloc_ok AllocAllow && alloc_ok AllocDeny) then mret SQLITE_NOMEM else
  _ ← sm_mod (set_avc (st_init SQLITE_HASH_INT false false));
  mret (first_error [SetExtraColumn; CreateFunction "selinux_check_access"; CreateFunction "getcon_id";
                     CreateFunction "getcon_label"; SetAuthorizer]).

(** The branch that gives the objects their labels. *)
Definition load_labels (reopen : bool) (k : M Z) : M Z :=
  if reopen then on_ok load_contexts_from_table k
  else
    sc ← sm_lift (read_sesqlite_context contexts_file);
    _ ← sm_mod (set_contexts sc);
    match sc with
    | None => mret SQLITE_ERROR
    | Some _ =>
        on_ok initialize_mapping (
          _ ← load_sesqlite_contexts sc;
          k)
    end.

(** The label of the caller. *)
Definition init_scon (attrs : xattrs) (rc : Z) : M Z :=
  let '(_, attrs) := sqlite3_set_xattr attrs "security.selinux" getcon in
  let scon := sqlite3_get_xattr attrs "security.selinux" in
  _ ← sm_mod (λ s, set_scon scon (scon_id s) s);
  match scon with
  | None => mret SQLITE_ERROR
  | Some _ =>
      id ← m_insert_id (Some "main") scon;
      _ ← sm_mod (set_scon scon id);
      _ ← sm_lift (c_assert (negb (id =? 0)));
      mret rc
  end.

Definition sqlite3SelinuxInit (master : list master_row) (attrs : xattrs) : M Z :=
  if negb (alloc_ok AllocHash && alloc_ok AllocHashId) then mret SQLITE_NOMEM else
  _ ← sm_mod (set_hash (st_init SQLITE_HASH_STRING true true));
  _ ← sm_mod (set_hash_id (SESQLITE_BIHASH_INIT SQLITE_HASH_BINARY SQLITE_HASH_STRING true true));
  let '(rc, reopen) := isReopen master in
  on_ok (mret rc) (
  on_ok create_internal_table (
  on_ok prepare_stmt (
  load_labels reopen (
  on_ok register_pragmas (
  on_ok initialize_authorizer (
  (* getcon gives the return code of the function *)
  init_scon attrs (match getcon with Some _ => 0 | None => -1 end))))))).

(** ** Loading the configuration *)

Definition o_isColumn (o : obj) : bool := match o with OCol _ _ _ => true | _ => false end.
Definition o_list (sc : sesqlite_context) (o : obj) : list sesqlite_context_element :=
  match o with ODb _ => db_context sc | OTbl _ _ => table_context sc | OCol _ _ _ => column_context sc end.

Lemma default_label_compute sc o :
  default_label getcon security_compute_create_raw sc o =
  compute (o_isColumn o) (o_db o) (o_tbl o) (o_col o) (o_list sc o).
Proof. by destruct o. Qed.

Section loading.
Variable sc : sesqlite_context.
Hypothesis Hok : ctx_ok getcon security_compute_create_raw sc.
Hypothesis Hpl : ctx_plain getcon security_compute_create_raw sc.
Hypothesis Htp : ∀ e, e ∈ tuple_context sc → plain (security_context e).

(** The labels are consistent, none is changed by dequoting, and every object
    has the label the configuration gives it. *)
Record loaded (n : Z) (ids : gmap Z string) (s : state) : Prop := {
  ld_labelling : labelling n ids sc s;
  ld_plain id l : ids !! id = Some l → plain l;
  ld_default o : obj_ok o = true →
    default_label getcon security_compute_create_raw sc o =
    Ret (label_of getcon security_compute_create_raw s o);
}.

Lemma compute_tuple ids db tbl :
  tuples_known ids sc →
  ∃ t, compute false (Some db) tbl None (tuple_context sc) = Ret (Some t) ∧ plain t ∧
       ∃ id, ids !! id = Some t.
Proof.
  intros Htk. destruct (co_tuple _ _ _ Hok db tbl) as [p Hp].
  exists (security_context p). split; [by apply compute_sql_context_found|].
  destruct (first_match_split _ _ _ _ _ _ Hp) as (l1 & l2 & E & _ & _).
  assert (p ∈ tuple_context sc) by (rewrite E; set_solver). auto.
Qed.

(** Registering a plain label keeps everything. *)
Lemma loaded_registers n ids s l r :
  loaded n ids s → plain l → registers n ids s l r →
  ∃ id s' ids', r = Ret (id, s') ∧ loaded (n + 1) ids' s' ∧ ids ⊆ ids' ∧ ids' !! id = Some l ∧ same s s'.
Proof.
  intros [[Hinv Hn Hc Htk] Hp Hd] Hl (id & s' & ids' & -> & Hsub & Hid & Hinv' & Hsame & Hnew).
  exists id, s', ids'. split; [done|]. split; [|done]. split.
  - split; [done|lia| |by eapply tuples_known_mono]. by rewrite (proj1 (proj2 (proj2 Hsame))).
  - intros i l' [Hi| ->]%Hnew; eauto.
  - intros o Ho. rewrite (Hd o Ho). f_equal. symmetry. by eapply label_of_same.
Qed.

Lemma loaded_context n ids s isC db tbl col con l :
  n < 2 ^ 31 - 1 → loaded n ids s → compute isC (Some db) tbl col con = Ret (Some l) → plain l →
  ∃ id s' ids', m_insert_context isC (Some db) tbl col con (tuple_context sc) s = Ret (id, s') ∧
    loaded (n + 1) ids' s' ∧ ids ⊆ ids' ∧ ids' !! id = Some l ∧ same s s'.
Proof.
  intros Hn Hld Hc Hl. pose proof Hld as [[Hinv H0 Hcs Htk] _ _].
  destruct (compute_tuple ids db tbl Htk) as (t & Et & _ & Ht).
  eapply loaded_registers; [done..|]. eapply insert_context_spec; try done.
Qed.

(** No name of the object is empty: the rows of named objects have distinct
    keys. *)
Definition named (o : obj) : bool :=
  match o with
  | ODb _ => true
  | OTbl _ t => negb (String.eqb t "")
  | OCol _ t c => negb (String.eqb t "") && negb (String.eqb c "")
  end.

Definition row_of (o : obj) (rowid con id : Z) : ctx_row :=
  CtxRow rowid con id (o_db o) (Some (fmt_s (o_tbl o))) (Some (fmt_s (o_col o))).

Lemma pk_eq_row o o' a b c a' b' c' :
  named o = true → named o' = true → pk_eq (row_of o a b c) (row_of o' a' b' c') = true → o = o'.
Proof.
  intros H H' E. unfold pk_eq in E. destruct o, o'; simpl in *; b2p;
    repeat match goal with H : String.eqb _ _ = true |- _ => apply String.eqb_eq in H
                         | H : String.eqb _ _ = false |- _ => apply String.eqb_neq in H
                         | H : match ?x with "" => _ | String _ _ => _ end = true |- _ => destruct x; [|discriminate]
                         end; congruence.
Qed.

(** The object has a row of selinux_context with the number of the label
    that the configuration gives it. *)
Definition rowed (ids : gmap Z string) (s : state) (o : obj) : Prop :=
  ∃ rowid con id l, row_of o rowid con id ∈ selinux_context s ∧ ids !! id = Some l ∧
    default_label getcon security_compute_create_raw sc o = Ret (Some l).

(** Entries and rows are kept, and the objects [os] have got theirs. *)
Record kept (ids : gmap Z string) (s : state) (os : list obj) (ids' : gmap Z string) (s' : state) : Prop := {
  kp_ids : ids ⊆ ids';
  kp_entry o : is_Some (hash_find (o_key o) s) ∨ o ∈ os → is_Some (hash_find (o_key o) s');
  kp_row o : named o = true → forallb named os = true → rowed ids s o ∨ o ∈ os → rowed ids' s' o;
}.

Lemma kept_refl ids s : kept ids s [] ids s.
Proof. split; [done|intros o|intros o _ _]; by intros [?|?%elem_of_nil]. Qed.

Lemma kept_trans ids s os1 ids1 s1 os2 ids2 s2 :
  kept ids s os1 ids1 s1 → kept ids1 s1 os2 ids2 s2 → kept ids s (os1 ++ os2) ids2 s2.
Proof.
  intros [Hi1 He1 Hr1] [Hi2 He2 Hr2]. split; [by etrans| |]; intros o.
  - rewrite elem_of_app. naive_solver.
  - rewrite elem_of_app, forallb_app, andb_true_iff. naive_solver.
Qed.

Lemma kept_same ids s ids' s' : ids ⊆ ids' → same s s' → kept ids s [] ids' s'.
Proof.
  intros Hs (Eh & _ & _ & _ & _ & _ & Ex). split; [done| |].
  - intros o [He|?%elem_of_nil]; [|done]. unfold hash_find in *. by rewrite Eh.
  - intros o _ _ [(r & c & id & l & Hin & Hid & Hl)|?%elem_of_nil]; [|done]. exists r, c, id, l.
    rewrite Ex. split_and!; [done|by eapply lookup_weaken|done].
Qed.

(** An entry with the label of the configuration, and a row. *)
Lemma loaded_entry n ids s o id con :
  loaded n ids s → obj_ok o = true → default_label getcon security_compute_create_raw sc o = Ret (ids !! id) →
  is_Some (ids !! id) →
  ∃ s', (_ ← insert_key (o_db o) (o_tbl o) (o_col o) id;
         rc ← step_con_insert con id (o_db o) (Some (fmt_s (o_tbl o))) (Some (fmt_s (o_col o)));
         sm_lift (c_assert (rc =? SQLITE_DONE))) s = Ret ((), s') ∧ loaded n ids s' ∧ kept ids s [o] ids s'.
Proof.
  intros [[Hinv Hn Hc Htk] Hp Hd] Ho Hdef Hid.
  destruct (hash_insert_spec n ids s o id Hinv Hid) as (Hinv1 & Hf1 & Hf2).
  unfold insert_key. fold (o_key o). eexists. split; [by do 2 erewrite sm_bind_run by done|].
  split; [split; [split; try done; by destruct Hinv1|done|]|].
  - intros o' Ho'. destruct (decide (o' = o)) as [->|Hne].
    + rewrite Hdef. f_equal. unfold label_of.
      change (hash_find (o_key o) _) with
        (hash_find (o_key o) (set_hash (st_insert (hash s) (KStr (o_key o)) (Some id) 4) s)) at 1.
      rewrite Hf1. simpl. destruct Hid as [l Hl].
      rewrite (bihash_find _ _ _ (li_ids _ _ _ Hinv)); [done|]. by eapply (bh_range _ _ (li_ids _ _ _ Hinv)).
    + rewrite (Hd o' Ho'). f_equal. unfold label_of.
      change (hash_find (o_key o') (set_tables _ _ _ _)) with
        (hash_find (o_key o') (set_hash (st_insert (hash s) (KStr (o_key o)) (Some id) 4) s)).
      rewrite Hf2; [done|]. intros E. by apply Hne, o_key_inj.
  - split; [done| |].
    + intros o' Ho'.
      change (hash_find (o_key o') (set_tables _ _ _ _)) with
        (hash_find (o_key o') (set_hash (st_insert (hash s) (KStr (o_key o)) (Some id) 4) s)).
      destruct (decide (o_key o' = o_key o)) as [->|Hne]; [by rewrite Hf1|].
      rewrite Hf2 by done. destruct Ho' as [?| ->%list_elem_of_singleton]; done.
    + intros o' Hn' Hno Ho'. cbn [forallb] in Hno. rewrite andb_true_r in Hno. unfold rowed. cbn [selinux_context].
      destruct (decide (o' = o)) as [->|Hne].
      * destruct Hid as [l Hl]. eexists _, con, id, l. split; [apply elem_of_app; right; by left|].
        split; [done|]. by rewrite Hdef, Hl.
      * destruct Ho' as [(r & c & i & l & Hin & Hi & Hl)| ->%list_elem_of_singleton]; [|done].
        exists r, c, i, l. split; [|done]. apply elem_of_app. left. apply list_elem_of_filter.
        split; [|done]. apply Is_true_true, negb_true_iff, not_true_iff_false. intros E. apply Hne.
        by eapply pk_eq_row.
Qed.

Lemma record_object_spec n ids s o db :
  n + 1 < 2 ^ 31 - 1 → loaded n ids s → obj_ok o = true → o_db o = Some db →
  ∃ s' ids', record_object sc (o_isColumn o) db (o_tbl o) (o_col o) (o_list sc o) s = Ret ((), s') ∧
    loaded (n + 2) ids' s' ∧ kept ids s [o] ids' s'.
Proof.
  intros Hn Hld Ho Hdb. destruct (co_default _ _ _ Hok o) as [l Hl].
  pose proof (Hpl o l Hl) as Hpll. pose proof Hl as Hl'. rewrite default_label_compute, Hdb in Hl'.
  destruct (loaded_context n ids s (o_isColumn o) db (o_tbl o) (o_col o) (o_list sc o) l)
    as (id & s1 & ids1 & E1 & Hld1 & Hs1 & Hid1 & Hsm1); [lia|done..|].
  unfold record_object. rewrite (sm_bind_run _ _ _ _ _ E1).
  destruct (compute_tuple ids1 db (Some SELINUX_CONTEXT)) as (t & Et & Hpt & _).
  { apply (ld_labelling _ _ _ Hld1). }
  destruct (loaded_context (n + 1) ids1 s1 false db (Some SELINUX_CONTEXT) None (tuple_context sc) t)
    as (con & s2 & ids2 & E2 & Hld2 & Hs2 & _ & Hsm2); [lia|done..|].
  rewrite (sm_bind_run _ _ _ _ _ E2). rewrite <- Hdb.
  assert (ids2 !! id = Some l) as Hid2 by by eapply lookup_weaken.
  destruct (loaded_entry (n + 1 + 1) ids2 s2 o id con) as (s3 & E3 & Hld3 & Hk3);
    [done|done|by rewrite Hid2|by rewrite Hid2|].
  exists s3, ids2. split; [exact E3|]. split; [by replace (n + 2) with (n + 1 + 1) by lia|].
  eapply (kept_trans _ _ [] _ _ [o]), Hk3. by eapply (kept_trans _ _ [] _ _ []); apply kept_same.
Qed.

(** ** The scan of the schema *)

(** Names without a colon, and a bound on the labels a scan registers. *)
Definition table_ok (db : string) (t : Table) : bool :=
  obj_ok (OTbl db (tab_name t)) && forallb (λ c, obj_ok (OCol db (tab_name t) c)) (aCol t).
Definition schema_ok (dbs : list Db) : bool :=
  forallb (λ d, obj_ok (ODb (zName d)) && forallb (table_ok (zName d)) (tblHash d)) dbs.

Definition table_cost (t : Table) : Z := 2 * Z.of_nat (length (aCol t)) + 4.
Definition tables_cost (ts : list Table) : Z := foldr (λ t c, table_cost t + c) 0 ts.
Definition schema_cost (dbs : list Db) : Z := foldr (λ d c, 2 + tables_cost (tblHash d) + c) 0 dbs.

Lemma tables_cost_nonneg ts : 0 ≤ tables_cost ts.
Proof. induction ts as [|t ts IH]; simpl; [lia|]. unfold table_cost. lia. Qed.

Lemma schema_cost_nonneg dbs : 0 ≤ schema_cost dbs.
Proof.
  induction dbs as [|d dbs IH]; simpl; [lia|]. pose proof (tables_cost_nonneg (tblHash d)). lia.
Qed.

(** The objects that the scans visit. *)
Definition column_objects (db tbl : string) (f : option string) (cols : list string) : list obj :=
  OCol db tbl <$> List.filter (filter_accepts f) cols.

Definition table_objects (db : string) (tf cf : option string) (t : Table) : list obj :=
  if filter_accepts tf (tab_name t) then
    [OTbl db (tab_name t)] ++ column_objects db (tab_name t) cf (aCol t) ++
      (if HasRowid t && filter_accepts cf "ROWID" then [OCol db (tab_name t) "ROWID"] else [])
  else [].

Fixpoint db_objects (df tf cf : option string) (dbs : list Db) : list obj :=
  match dbs with
  | [] => []
  | d :: dbs' =>
      (if filter_accepts df (zName d)
       then [ODb (zName d)] ++ concat (table_objects (zName d) tf cf <$> tblHash d) else [])
      ++ db_objects df tf cf dbs'
  end.

(** A computation that ends in a loaded state with at most [k] more labels,
    where the objects [os] have entries and rows. *)
Definition loads {A} (n k : Z) (ids : gmap Z string) (s : state) (os : list obj) (m : M A) : Prop :=
  ∃ r s' ids', m s = Ret (r, s') ∧ loaded (n + k) ids' s' ∧ kept ids s os ids' s'.

Lemma loaded_mono n n' ids s : loaded n ids s → n ≤ n' → loaded n' ids s.
Proof.
  intros [[Hi H0 Hc Ht] Hp Hd] Hle. split; [|done..]. split; [|lia|done..]. by eapply labels_inv_mono.
Qed.

Lemma loads_ret {A} n k ids s (a : A) : 0 ≤ k → loaded n ids s → loads n k ids s [] (mret a).
Proof.
  intros Hk Hld. exists a, s, ids. split; [done|]. split; [eapply loaded_mono; [done|lia]|apply kept_refl].
Qed.

Lemma loads_mono {A} n k k' ids s os (m : M A) : loads n k ids s os m → k ≤ k' → loads n k' ids s os m.
Proof.
  intros (a & s1 & ids1 & E & Hld & Hk) Hle. exists a, s1, ids1. split; [done|].
  split; [eapply loaded_mono; [done|lia]|done].
Qed.

Lemma loads_bind {A B} n k1 k ids s os1 os2 (m : M A) (f : A → M B) :
  loads n k1 ids s os1 m →
  (∀ a s' ids', loaded (n + k1) ids' s' → loads (n + k1) (k - k1) ids' s' os2 (f a)) →
  loads n k ids s (os1 ++ os2) (m ≫= f).
Proof.
  intros (a & s1 & ids1 & E & Hld & Hk) Hf. destruct (Hf a s1 ids1 Hld) as (b & s2 & ids2 & E2 & Hld2 & Hk2).
  exists b, s2, ids2. split; [by rewrite (sm_bind_run _ _ _ _ _ E)|].
  split; [by replace (n + k) with (n + k1 + (k - k1)) by lia|by eapply kept_trans].
Qed.

Lemma loads_run {A B} n k ids s os (a : A) (m : M A) (f : A → M B) :
  m s = Ret (a, s) → loads n k ids s os (f a) → loads n k ids s os (m ≫= f).
Proof.
  intros E (b & s2 & ids2 & E2 & Hld). exists b, s2, ids2. by rewrite (sm_bind_run _ _ _ _ _ E).
Qed.

Lemma record_loads n ids s o db k :
  n + 1 < 2 ^ 31 - 1 → loaded n ids s → obj_ok o = true → o_db o = Some db → k = 2 →
  loads n k ids s [o] (record_object sc (o_isColumn o) db (o_tbl o) (o_col o) (o_list sc o)).
Proof.
  intros Hn Hld Ho Hdb ->. destruct (record_object_spec n ids s o db) as (s' & ids' & E & H'); [done..|].
  by exists (), s', ids'.
Qed.

Lemma reload_columns_loads n ids s db tbl f cols count :
  n + 2 * Z.of_nat (length cols) < 2 ^ 31 - 1 → loaded n ids s →
  forallb (λ c, obj_ok (OCol db tbl c)) cols = true →
  loads n (2 * Z.of_nat (length cols)) ids s (column_objects db tbl f cols) (reload_columns sc db tbl f cols count).
Proof.
  revert n ids s count. induction cols as [|c cols IH]; intros n ids s count Hn Hld Ho.
  { by eapply loads_ret. }
  unfold column_objects in *. cbn [reload_columns length forallb List.filter] in *. b2p.
  destruct (filter_accepts f c).
  - eapply (loads_bind _ _ _ _ _ [OCol db tbl c]);
      [by apply (record_loads n ids s (OCol db tbl c) db 2); try done; lia|].
    intros _ s1 ids1 Hld1. replace (2 * _ - 2) with (2 * Z.of_nat (length cols)) by lia.
    eapply IH; [lia|done..].
  - eapply loads_mono; [eapply IH; [lia|done..]|lia].
Qed.

Lemma reload_tables_loads n ids s db tf cf ts count :
  n + tables_cost ts < 2 ^ 31 - 1 → loaded n ids s → forallb (table_ok db) ts = true →
  loads n (tables_cost ts) ids s (concat (table_objects db tf cf <$> ts)) (reload_tables sc db tf cf ts count).
Proof.
  revert n ids s count. induction ts as [|t ts IH]; intros n ids s count Hn Hld Ho.
  { by eapply loads_ret. }
  cbn [reload_tables tables_cost foldr forallb fmap list_fmap concat] in *. fold (tables_cost ts) in *.
  pose proof (tables_cost_nonneg ts). unfold table_cost, table_ok, table_objects in *. b2p.
  assert (colon_free db && colon_free (tab_name t) = true) as Hrow by done.
  destruct (filter_accepts tf (tab_name t)).
  - rewrite <- !app_assoc. eapply loads_bind; [apply (record_loads n ids s (OTbl db (tab_name t)) db 2); try done; lia|].
    intros _ s1 ids1 Hld1.
    eapply loads_bind; [eapply reload_columns_loads; [|done..]; lia|]. intros c2 s2 ids2 Hld2.
    eapply (loads_bind _ 2).
    + destruct (HasRowid t && filter_accepts cf "ROWID"); [|by eapply loads_ret].
      eapply (loads_bind _ 2 _ _ _ [OCol db (tab_name t) "ROWID"] []);
        [apply (record_loads _ ids2 s2 (OCol db (tab_name t) "ROWID") db 2); try done; [lia|]|].
      { simpl. by rewrite Hrow. }
      intros _ s3 ids3 Hld3. by eapply loads_ret.
    + intros c3 s3 ids3 Hld3. match goal with |- loads _ ?k _ _ _ _ => replace k with (tables_cost ts) by lia end.
      eapply IH; [lia|done..].
  - eapply loads_mono; [eapply IH; [lia|done..]|lia].
Qed.

Lemma reload_dbs_loads n ids s df tf cf dbs count :
  n + schema_cost dbs < 2 ^ 31 - 1 → loaded n ids s → schema_ok dbs = true →
  loads n (schema_cost dbs) ids s (db_objects df tf cf dbs) (reload_dbs (Some sc) df tf cf dbs count).
Proof.
  revert n ids s count. induction dbs as [|d dbs IH]; intros n ids s count Hn Hld Ho.
  { by eapply loads_ret. }
  unfold schema_ok in Ho. cbn [reload_dbs schema_cost foldr forallb db_objects] in *. fold (schema_cost dbs) in *.
  fold (schema_ok dbs) in Ho.
  pose proof (schema_cost_nonneg dbs). pose proof (tables_cost_nonneg (tblHash d)). b2p.
  destruct (filter_accepts df (zName d)).
  - rewrite <- !app_assoc. eapply loads_run; [done|].
    eapply loads_bind; [apply (record_loads n ids s (ODb (zName d)) (zName d) 2); try done; lia|].
    intros _ s1 ids1 Hld1.
    eapply loads_bind; [eapply reload_tables_loads; [|done..]; lia|]. intros c2 s2 ids2 Hld2.
    match goal with |- loads _ ?k _ _ _ _ => replace k with (schema_cost dbs) by lia end.
    eapply IH; [lia|done..].
  - eapply loads_mono; [eapply IH; [lia|done..]|lia].
Qed.

Lemma schema_cost_app l1 l2 : schema_cost (l1 ++ l2) = schema_cost l1 + schema_cost l2.
Proof. induction l1 as [|d l1 IH]; simpl; [done|]. rewrite IH. lia. Qed.

Lemma schema_cost_rev l : schema_cost (rev l) = schema_cost l.
Proof. induction l as [|d l IH]; simpl; [done|]. rewrite schema_cost_app, IH. simpl. lia. Qed.

Lemma schema_ok_rev l : schema_ok (rev l) = schema_ok l.
Proof.
  unfold schema_ok. induction l as [|d l IH]; cbn [rev forallb]; [done|].
  rewrite forallb_app, IH. cbn [forallb]. by rewrite andb_true_r, andb_comm.
Qed.

(** Every database of the schema, every table with its columns, and the rowids. *)
Definition schema_objects (dbs : list Db) : list obj :=
  concat ((λ d, ODb (zName d) :: concat ((λ t,
      OTbl (zName d) (tab_name t) :: (OCol (zName d) (tab_name t) <$> aCol t) ++
      (if HasRowid t then [OCol (zName d) (tab_name t) "ROWID"] else [])) <$> tblHash d)) <$> dbs).

Definition schema_named (dbs : list Db) : bool := forallb named (schema_objects dbs).

Lemma db_objects_all dbs : db_objects (Some "*") (Some "*") (Some "*") dbs = schema_objects dbs.
Proof.
  assert (∀ x, filter_accepts (Some "*") x = true) as Hf by done.
  induction dbs as [|d dbs IH]; [done|]. cbn [db_objects]. rewrite Hf, IH.
  unfold schema_objects. cbn [fmap list_fmap concat app]. do 2 f_equal. f_equal.
  induction (tblHash d) as [|t ts IHt]; [done|]. cbn [fmap list_fmap concat]. rewrite IHt. f_equal.
  unfold table_objects. rewrite !Hf, andb_true_r. cbn [app]. do 2 f_equal. unfold column_objects. f_equal.
  induction (aCol t) as [|c cs IHc]; [done|]. cbn [List.filter]. by rewrite Hf, IHc.
Qed.

Lemma elem_of_concat {A} (x : A) ls : x ∈ concat ls ↔ ∃ l, x ∈ l ∧ l ∈ ls.
Proof.
  rewrite list_elem_of_In, in_concat. split; intros (l & H1 & H2); exists l; rewrite !list_elem_of_In in *; done.
Qed.

Lemma schema_objects_rev dbs o : o ∈ schema_objects (rev dbs) ↔ o ∈ schema_objects dbs.
Proof.
  unfold schema_objects. rewrite !elem_of_concat. split; intros (l & Ho & (d & -> & Hd)%list_elem_of_fmap);
    (eexists; split; [exact Ho|]); apply list_elem_of_fmap; exists d; (split; [done|]);
    rewrite list_elem_of_In in *; [by apply in_rev|by apply in_rev in Hd].
Qed.

Lemma schema_objects_ok dbs o : schema_ok dbs = true → o ∈ schema_objects dbs → obj_ok o = true.
Proof.
  unfold schema_ok, schema_objects. intros Hs (l & Ho & (d & -> & Hd)%list_elem_of_fmap)%elem_of_concat.
  rewrite forallb_forall in Hs. rewrite list_elem_of_In in Hd. specialize (Hs d Hd). b2p.
  apply elem_of_cons in Ho as [->|(l & Ho & (t & -> & Ht)%list_elem_of_fmap)%elem_of_concat]; [done|].
  rewrite list_elem_of_In in Ht. match goal with H : forallb (table_ok _) _ = true |- _ =>
    rewrite forallb_forall in H; specialize (H t Ht) end. unfold table_ok in *. b2p.
  assert (obj_ok (OTbl (zName d) (tab_name t)) = true) as Hrow by done.
  apply elem_of_cons in Ho as [->|[(c & -> & Hc)%list_elem_of_fmap|Ho]%elem_of_app]; [done| |].
  - match goal with H : forallb _ (aCol t) = true |- _ => rewrite forallb_forall in H; apply H end.
    by apply list_elem_of_In in Hc.
  - destruct (HasRowid t); [|by apply elem_of_nil in Ho]. apply list_elem_of_singleton in Ho as ->.
    simpl in *. by rewrite Hrow.
Qed.

(** Every object has its entry and, when no name is empty, its row. *)
Definition all_recorded (ids : gmap Z string) (s : state) : Prop :=
  ∀ o, o ∈ schema_objects sch →
    is_Some (hash_find (o_key o) s) ∧ (schema_named sch = true → rowed ids s o).

Lemma load_sesqlite_contexts_loads n ids s :
  n + schema_cost sch < 2 ^ 31 - 1 → loaded n ids s → schema_ok sch = true →
  ∃ r s' ids', load_sesqlite_contexts (Some sc) s = Ret (r, s') ∧ loaded (n + schema_cost sch) ids' s' ∧
    all_recorded ids' s'.
Proof.
  intros Hn Hld Hs. unfold load_sesqlite_contexts, reload_sesqlite_contexts.
  rewrite <- (schema_cost_rev sch) in *.
  destruct (reload_dbs_loads n ids s (Some "*") (Some "*") (Some "*") (rev sch) 0)
    as (r & s' & ids' & E & Hld' & [_ He Hr]); [done..|by rewrite schema_ok_rev|].
  rewrite db_objects_all in *. exists r, s', ids'. split; [done|]. split; [done|]. intros o Ho.
  apply schema_objects_rev in Ho. split; [apply He; by right|]. intros Hnm.
  assert (∀ o, o ∈ schema_objects (rev sch) → named o = true) as Hall.
  { intros o' Ho'%(schema_objects_rev sch). unfold schema_named in Hnm. rewrite forallb_forall in Hnm.
    by apply Hnm, list_elem_of_In. }
  apply Hr; [by apply Hall| |by right]. apply forallb_forall. intros o' Ho'. by apply Hall, list_elem_of_In.
Qed.

(** ** The labels of internal rows *)

Lemma map_label_spec n ids (s : state) l :
  0 ≤ n < 2 ^ 31 - 1 → labels_inv n ids s →
  ∃ s' ids', map_label l s = Ret ((), s') ∧ labels_inv (n + 1) ids' s' ∧ ids ⊆ ids' ∧ same s s' ∧
    (∃ id, ids' !! id = Some l) ∧ ∀ i l', ids' !! i = Some l' → ids !! i = Some l' ∨ l' = l.
Proof.
  intros Hn Hinv. unfold map_label. erewrite sm_bind_run by done.
  pose proof (bihash_findkey _ _ l (li_ids _ _ _ Hinv)) as Hf.
  destruct (SESQLITE_BIHASH_FINDKEY (hash_id s) l) as [id|].
  { exists s, ids. split; [done|]. split; [eapply labels_inv_mono; [exact Hinv|lia]|].
    split_and!; [done|apply same_refl|eauto..]. }
  destruct (new_label_spec n ids s 0 l Hn Hinv Hf) as (s' & E & Hnew & Hinv' & Hsame).
  eexists s', _. split.
  { revert E. unfold new_label. intros (rc & s1 & E1 & E)%sm_bind_Ret. rewrite (sm_bind_run _ _ _ _ _ E1).
    assert ((rc =? SQLITE_DONE) = true) as ->.
    { revert E1. unfold step_insert, sql_insert_id. rewrite decide_False; [by intros [= <- _]|].
      intros (r & -> & Hr)%list_elem_of_fmap. apply (Hf (r_rowid r)), (li_rows _ _ _ Hinv).
      exists (r_context r). by destruct r. }
    do 2 erewrite sm_bind_run by done. apply sm_bind_Ret in E as (r & s2 & [= <- <-] & E).
    apply sm_bind_Ret in E as ([] & s3 & E & [= _ <-]). exact E. }
  split; [exact Hinv'|]. split; [by apply insert_subseteq|]. split; [done|]. split.
  - eexists. apply lookup_insert_eq.
  - intros i l'. rewrite lookup_insert. case_decide; naive_solver.
Qed.

Lemma map_labels_spec n ids (s : state) l :
  0 ≤ n → n + Z.of_nat (length l) < 2 ^ 31 - 1 → labels_inv n ids s →
  ∃ s' ids', map_labels l s = Ret ((), s') ∧ labels_inv (n + Z.of_nat (length l)) ids' s' ∧
    ids ⊆ ids' ∧ same s s' ∧ (∀ e, e ∈ l → ∃ id, ids' !! id = Some (security_context e)) ∧
    ∀ i l', ids' !! i = Some l' → ids !! i = Some l' ∨ ∃ e, e ∈ l ∧ security_context e = l'.
Proof.
  revert n ids s. induction l as [|e l IH]; intros n ids s H0 Hn Hinv; cbn [map_labels length] in *.
  { exists s, ids. rewrite Z.add_0_r. split_and!; [done..| |eauto]. by intros e ?%elem_of_nil. }
  destruct (map_label_spec n ids s (security_context e)) as (s1 & ids1 & E1 & Hi1 & Hs1 & Hsm1 & Hk1 & Hn1);
    [lia|done|].
  destruct (IH (n + 1) ids1 s1) as (s2 & ids2 & E2 & Hi2 & Hs2 & Hsm2 & Hk2 & Hn2); [lia|lia|done|].
  exists s2, ids2. rewrite (sm_bind_run _ _ _ _ _ E1), E2.
  replace (n + Z.of_nat (S (length l))) with (n + 1 + Z.of_nat (length l)) by lia.
  split; [done|]. split; [done|]. split; [by etrans|].
  split; [unfold same in *; intuition congruence|]. split.
  - intros e' [->|He']%elem_of_cons; [|by apply Hk2]. destruct Hk1 as [id Hid].
    exists id. by eapply lookup_weaken.
  - intros i l' [Hi|(e' & He' & <-)]%Hn2.
    + apply Hn1 in Hi as [?| ->]; [by left|]. right. exists e. split; [by left|done].
    + right. exists e'. split; [by right|done].
Qed.

(** The final update does not change the labels. *)
Lemma step_update_inv n ids (s : state) v :
  labels_inv n ids s →
  labels_inv n ids (set_tables (sql_update_id (selinux_id s) v) (selinux_context s) (last_rowid s) s).
Proof.
  intros [Hb Hr Hbd Hk]. split; [done| |done..]. intros id l. rewrite Hr. simpl. split.
  - intros [c Hin]. exists v. unfold sql_update_id. apply list_elem_of_fmap. by exists (IdRow id c l).
  - intros [c (r & E & Hin)%list_elem_of_fmap]. exists (r_context r). injection E as -> _ ->. by destruct r.
Qed.

(** A state without labels and entries. *)
Record blank_state (s : state) : Prop := {
  bl_inv : labels_inv 0 ∅ s;
  bl_hash k : hash_find k s = None;
}.

Lemma initialize_mapping_spec s :
  blank_state s → contexts s = Some sc → Z.of_nat (length (tuple_context sc)) < 2 ^ 31 - 1 →
  ∃ s' ids', initialize_mapping s = Ret (SQLITE_OK, s') ∧
    loaded (Z.of_nat (length (tuple_context sc))) ids' s'.
Proof.
  intros [Hinv Hh] Hc Hlen. unfold initialize_mapping.
  erewrite sm_bind_run by (unfold sm_gets; by rewrite Hc).
  destruct (map_labels_spec 0 ∅ s (tuple_context sc)) as (s1 & ids1 & E1 & Hi1 & _ & Hsm & Hk1 & Hn1);
    [lia|lia|done|].
  rewrite (sm_bind_run _ _ _ _ _ E1).
  destruct (compute_tuple ids1 "main" (Some SELINUX_ID)) as (t & Et & _ & id & Hid); [done|].
  erewrite sm_bind_run by (unfold sm_lift, sm_gets; by rewrite Et).
  apply (bihash_findkey_Some _ _ _ _ (li_ids _ _ _ Hi1)) in Hid.
  erewrite sm_bind_run by (unfold sm_gets; simpl; by rewrite Hid). simpl.
  eexists _, ids1. split; [by erewrite sm_bind_run by done|].
  destruct Hsm as (Eh & _ & Ec & _). split.
  - split; [by apply step_update_inv|lia|simpl; congruence|done].
  - intros i l [[]%lookup_empty_Some|(e & He & <-)]%Hn1. by apply Htp.
  - intros o Ho. destruct (co_default _ _ _ Hok o) as [l Hl]. rewrite Hl. f_equal. unfold label_of.
    assert (hash_find (o_key o) (set_tables (sql_update_id (selinux_id s1) id) (selinux_context s1)
              (last_rowid s1) s1) = None) as ->.
    { unfold hash_find in *. simpl. rewrite Eh. apply Hh. }
    simpl. by rewrite Ec, Hc, Hl.
Qed.

Lemma loaded_set_avc n ids s a : loaded n ids s → loaded n ids (set_avc a s).
Proof.
  intros [[Hi H0 Hc Ht] Hp Hd]. split; [|done..]. split; [by destruct Hi|done..].
Qed.

(** The label of the caller is registered. *)
Lemma init_scon_spec pol n ids s attrs me :
  n + 1 < 4096 → loaded n ids s → getcon = Some me → plain me → avc s = st_init SQLITE_HASH_INT false false →
  ∃ s' ids', init_scon attrs 0 s = Ret (SQLITE_OK, s') ∧ auth_inv pol (n + 1) ids' sc s' ∧
    scon s' = Some me ∧ ids' !! scon_id s' = Some me ∧ ids ⊆ ids' ∧
    hash s' = hash s ∧ selinux_context s' = selinux_context s ∧
    (∀ o, obj_ok o = true → default_label getcon security_compute_create_raw sc o =
                            Ret (label_of getcon security_compute_create_raw s' o)).
Proof.
  intros Hn Hld Hme Hpm Havc. unfold init_scon.
  pose proof (xattr_get_set attrs "security.selinux" getcon) as Hx.
  destruct (sqlite3_set_xattr _ _ _) as [rc attrs']. simpl in Hx.
  rewrite Hme in Hx. rewrite Hx. clear Hx. cbv zeta.
  erewrite sm_bind_run by done.
  set (s0 := set_scon _ _ _).
  assert (loaded n ids s0) as Hld0.
  { destruct Hld as [[Hi H0 Hc Ht] Hp Hd]. split; [|done..]. split; [by destruct Hi|done..]. }
  destruct Hld0 as [[Hi H0 Hc Ht] Hp Hd].
  destruct (insert_id_spec getcon security_compute_create_raw n ids s0 sc) with (db := "main") (l := me)
    as (id & s1 & ids1 & E & Hs1 & Hid & Hi1 & Hsame & Hnew); [lia|done..|].
  rewrite (sm_bind_run _ _ _ _ _ E). erewrite sm_bind_run by done.
  pose proof (li_bound _ _ _ Hi1 _ _ Hid) as Hbd.
  assert (negb (id =? 0) = true) as -> by (apply negb_true_iff, Z.eqb_neq; lia).
  eexists _, ids1. split; [by erewrite sm_bind_run by done|].
  pose proof Hsame as (Eh & Ea & Ec & _ & _ & _ & Ex).
  split; [|split_and!; [done|done|done|exact Eh|exact Ex|]].
  - split; [by destruct Hi1|lia|simpl; congruence|by eapply tuples_known_mono| |simpl; lia|].
    + intros i l [Hil| ->]%Hnew; eauto.
    + exists ∅. split; [simpl; rewrite Ea; simpl; rewrite Havc; apply st_init_rep|].
      intros *. by rewrite lookup_empty.
  - intros o Ho. rewrite (Hd o Ho). f_equal. symmetry.
    by apply (label_of_same getcon security_compute_create_raw n ids s0 Hi s1 ids1 (n + 1)).
Qed.

End loading.

Lemma on_ok_run m k (s s' : state) : m s = Ret (SQLITE_OK, s') → on_ok m k s = k s'.
Proof. intros E. unfold on_ok. by rewrite (sm_bind_run _ _ _ _ _ E). Qed.

Lemma first_error_ok cs : (∀ c, api c = SQLITE_OK) → first_error cs = SQLITE_OK.
Proof. intros Ha. induction cs as [|c cs IH]; simpl; [done|]. by rewrite Ha. Qed.

Section all_ok.
Hypothesis Hapi : ∀ c, api c = SQLITE_OK.
Hypothesis Halloc : ∀ a, alloc_ok a = true.

(** The steps up to the labels, and those after them. *)
Lemma init_prefix master attrs s reopen :
  isReopen master = (SQLITE_OK, reopen) →
  sqlite3SelinuxInit master attrs s =
  load_labels reopen (on_ok register_pragmas (on_ok initialize_authorizer
      (init_scon attrs (match getcon with Some _ => 0 | None => -1 end))))
    (set_hash_id (SESQLITE_BIHASH_INIT SQLITE_HASH_BINARY SQLITE_HASH_STRING true true)
      (set_hash (st_init SQLITE_HASH_STRING true true) s)).
Proof.
  intros Hr. unfold sqlite3SelinuxInit. rewrite !Halloc. cbn [negb andb]. do 2 erewrite sm_bind_run by done.
  rewrite Hr. erewrite on_ok_run by done.
  erewrite on_ok_run by (unfold create_internal_table; by rewrite !Hapi).
  by erewrite on_ok_run by (unfold prepare_stmt; by rewrite first_error_ok).
Qed.

Lemma init_suffix k (s : state) :
  on_ok register_pragmas (on_ok initialize_authorizer k) s =
  k (set_avc (st_init SQLITE_HASH_INT false false) s).
Proof.
  erewrite on_ok_run by (unfold register_pragmas; by rewrite first_error_ok).
  by erewrite on_ok_run by (unfold initialize_authorizer; rewrite !Halloc; cbn [negb andb];
    erewrite sm_bind_run by done; by rewrite first_error_ok).
Qed.

Lemma hash_find_init (s : state) k : hash_find k (set_hash (st_init SQLITE_HASH_STRING true true) s) = None.
Proof. unfold hash_find. simpl. by rewrite (st_find_rep _ ∅ _ (st_init_rep _ _ _)). Qed.

Lemma blank_init (s : state) :
  selinux_id s = [] →
  blank_state (set_hash_id (SESQLITE_BIHASH_INIT SQLITE_HASH_BINARY SQLITE_HASH_STRING true true)
    (set_hash (st_init SQLITE_HASH_STRING true true) s)).
Proof.
  intros Hs. split; [split; simpl|apply hash_find_init].
  - apply bihash_init_rep.
  - intros id l. rewrite lookup_empty, Hs. split; [done|]. by intros [c ?%elem_of_nil].
  - intros id l. by rewrite lookup_empty.
  - exists ∅. split; [apply st_init_rep|]. intros *. by rewrite lookup_empty.
Qed.

Lemma isReopen_fresh master : selinux_tables master = [] → isReopen master = (SQLITE_OK, false).
Proof. intros E. unfold isReopen. by rewrite Hapi, E. Qed.

Lemma isReopen_reopen master : length (selinux_tables master) = 2%nat → isReopen master = (SQLITE_OK, true).
Proof. intros E. unfold isReopen. by rewrite Hapi, E. Qed.

(** ** Reopening *)

(** The rows of selinux_id as SQLite keeps them. *)
Record rows_ok (rows : list id_row) : Prop := {
  ro_rowids : NoDup (r_rowid <$> rows);
  ro_labels : NoDup (r_label <$> rows);
  ro_range r : r ∈ rows → 1 ≤ r_rowid r < 2 ^ 31;
}.

Lemma load_ids_spec rows ids (s : state) :
  rows_ok rows → bihash_rep (hash_id s) ids →
  (∀ r, r ∈ rows → ids !! r_rowid r = None ∧ ∀ id, ids !! id ≠ Some (r_label r)) →
  ∃ s' ids', load_ids rows s = Ret ((), s') ∧ bihash_rep (hash_id s') ids' ∧
    s' = set_hash_id (hash_id s') s ∧
    ∀ id l, ids' !! id = Some l ↔ ids !! id = Some l ∨ ∃ c, IdRow id c l ∈ rows.
Proof.
  revert ids s. induction rows as [|r rows IH]; intros ids s [Hr Hl Hrg] Hb Hn; cbn [load_ids].
  { exists s, ids. split; [done|]. split; [done|]. split; [by destruct s|]. intros id l.
    split; [by left|]. intros [?|[c ?%elem_of_nil]]; done. }
  rewrite fmap_cons in Hr. rewrite fmap_cons in Hl. apply list.NoDup_cons in Hr as [Hr1 Hr2], Hl as [Hl1 Hl2].
  destruct (Hn r (list_elem_of_here _ _)) as [Hn1 Hn2]. assert (in_sw 32 (r_rowid r)) as Hin
    by (specialize (Hrg r (list_elem_of_here _ _)); unfold in_sw; lia).
  destruct (bihash_insert_rep _ _ _ _ Hb Hin Hn1 Hn2) as (b & Eb & Hb').
  rewrite (sw_small 32) by (lia || done).
  erewrite sm_bind_run by (unfold bihash_insert; by rewrite Eb).
  destruct (IH (<[r_rowid r := r_label r]> ids) (set_hash_id b s)) as (s' & ids' & E & Hb2 & Es & Hids).
  - split; [done..|]. intros r' Hr'. apply Hrg. by right.
  - done.
  - intros r' Hr'. destruct (Hn r') as [H1 H2]; [by right|]. split.
    + rewrite lookup_insert_ne; [done|]. intros E. apply Hr1. rewrite E.
      by apply (list_elem_of_fmap_2 r_rowid).
    + intros id. rewrite lookup_insert. case_decide; [|done]. intros [= E]. apply Hl1. rewrite E.
      by apply (list_elem_of_fmap_2 r_label).
  - exists s', ids'. split; [done|]. split; [done|]. split; [by rewrite Es at 1|]. intros id l.
    rewrite Hids, lookup_insert. setoid_rewrite elem_of_cons. case_decide as Hd.
    + subst id. split; [intros [[= <-]|[c ?]]; right|].
      * exists (r_context r). left. by destruct r.
      * eauto.
      * intros [?|[c [E'|?]]]; [congruence|left; by rewrite <- E'|eauto].
    + split; [intros [?|[c ?]]; eauto|]. intros [?|[c [E'|?]]]; eauto. by rewrite <- E' in Hd.
Qed.

Lemma load_keys_frame rows (s : state) :
  ∃ h, load_keys rows s = Ret ((), set_hash h s).
Proof.
  revert s. induction rows as [|r rows IH]; intros s; cbn [load_keys].
  - exists (hash s). by destruct s.
  - erewrite sm_bind_run by done. destruct (IH (set_hash (st_insert (hash s)
      (KStr (make_key (x_db r) (empty_null (x_name r)) (empty_null (x_column r))))
      (Some (i32 (x_label r))) 4) s)) as [h E]. exists h. by rewrite E.
Qed.

End all_ok.

(** ** Theorems *)

(** An object that has been recorded has an entry with the number of its
    label, and its row has that number too: both are in [ids]. *)
Lemma recorded_entry sc n ids ids' (s s' : state) o :
  loaded sc n ids s → ids ⊆ ids' → hash s' = hash s → selinux_context s' = selinux_context s →
  obj_ok o = true → is_Some (hash_find (o_key o) s) → (schema_named sch = true → rowed sc ids s o) →
  ∃ id l, hash_find (o_key o) s' = Some id ∧ ids' !! id = Some l ∧
    default_label getcon security_compute_create_raw sc o = Ret (Some l) ∧
    (schema_named sch = true → ∃ rowid con,
       CtxRow rowid con id (o_db o) (Some (fmt_s (o_tbl o))) (Some (fmt_s (o_col o))) ∈ selinux_context s').
Proof.
  intros Hld Hsub Eh Ex Ho [id Hid] Hrow.
  destruct (hash_find_known n ids s (lg_inv _ _ _ _ (ld_labelling _ _ _ _ Hld)) _ _ Hid) as (l & Hl & Hf).
  exists id, l. split; [unfold hash_find in *; by rewrite Eh|]. split; [by eapply lookup_weaken|].
  assert (default_label getcon security_compute_create_raw sc o = Ret (Some l)) as Hd.
  { rewrite (ld_default _ _ _ _ Hld o Ho). unfold label_of. by rewrite Hid, Hf. }
  split; [done|]. intros Hn. destruct (Hrow Hn) as (r & c & id' & l' & Hin & Hid' & Hl').
  rewrite Hd in Hl'. injection Hl' as <-. exists r, c. rewrite Ex.
  assert (id' = id) as <-; [|done].
  by eapply (bh_inj _ _ (li_ids _ _ _ (lg_inv _ _ _ _ (ld_labelling _ _ _ _ Hld)))).
Qed.

(** C4: opening a fresh database succeeds and establishes the invariant the
    authorizer needs: the labels in memory and in the selinux_id table agree,
    the cache is empty, the caller has a number, and every object of the
    schema (databases, tables, columns and rowids) has got an entry in memory
    with the number of the label the configuration file gives it and, when no
    name is empty, a row of selinux_context with that number; an object that
    is not in the schema has the label of the configuration file. *)
Theorem sqlite3SelinuxInit_fresh pol master attrs s sc me :
  (∀ c, api c = SQLITE_OK) → (∀ a, alloc_ok a = true) →
  selinux_tables master = [] → selinux_id s = [] →
  read_sesqlite_context contexts_file = Ret (Some sc) →
  ctx_ok getcon security_compute_create_raw sc → ctx_plain getcon security_compute_create_raw sc →
  (∀ e, e ∈ tuple_context sc → plain (security_context e)) →
  getcon = Some me → plain me → schema_ok sch = true →
  let n := Z.of_nat (length (tuple_context sc)) + schema_cost sch in n + 1 < 4096 →
  ∃ s' ids, sqlite3SelinuxInit master attrs s = Ret (SQLITE_OK, s') ∧
    auth_inv pol (n + 1) ids sc s' ∧ scon s' = Some me ∧ ids !! scon_id s' = Some me ∧
    (∀ o, o ∈ schema_objects sch → ∃ id l, hash_find (o_key o) s' = Some id ∧ ids !! id = Some l ∧
       default_label getcon security_compute_create_raw sc o = Ret (Some l) ∧
       (schema_named sch = true → ∃ rowid con,
          CtxRow rowid con id (o_db o) (Some (fmt_s (o_tbl o))) (Some (fmt_s (o_col o))) ∈ selinux_context s')) ∧
    (∀ o, obj_ok o = true → default_label getcon security_compute_create_raw sc o =
                            Ret (label_of getcon security_compute_create_raw s' o)).
Proof.
  intros Hapi Halloc Hm Hid Hf Hok Hpl Htp Hme Hpm Hs n Hn. pose proof (schema_cost_nonneg sch).
  rewrite (init_prefix Hapi Halloc _ _ _ false) by by apply isReopen_fresh.
  unfold load_labels. rewrite Hf. do 2 erewrite sm_bind_run by done.
  set (s1 := set_contexts _ _).
  destruct (initialize_mapping_spec sc Hok Hpl Htp s1) as (s2 & ids2 & E2 & Hld2).
  { destruct (blank_init s Hid) as [Hb Hh]. split; [by destruct Hb|done]. }
  { done. }
  { lia. }
  rewrite (on_ok_run _ _ _ _ E2).
  assert (Z.of_nat (length (tuple_context sc)) + schema_cost sch < 2 ^ 31 - 1) as Hlt by lia.
  destruct (load_sesqlite_contexts_loads sc Hok Hpl Htp _ ids2 s2 Hlt Hld2 Hs)
    as (r & s3 & ids3 & E3 & Hld3 & Hrec).
  rewrite (sm_bind_run _ _ _ _ _ E3), (init_suffix Hapi Halloc).
  replace (match getcon with Some _ => 0 | None => -1 end) with 0 by (by rewrite Hme).
  destruct (init_scon_spec sc Hok pol n ids3 (set_avc (st_init SQLITE_HASH_INT false false) s3) attrs me)
    as (s' & ids & E & Hinv & Hsc & Hme' & Hsub & Eh & Ex & Hlab); [done|by apply loaded_set_avc|done..|].
  exists s', ids. split_and!; [done..| |done]. intros o Ho.
  destruct (Hrec o Ho) as [He Hrow].
  eapply (recorded_entry sc _ ids3 ids s3 s' o); try done. by eapply schema_objects_ok.
Qed.

(** opening a database that already has the tables loads their labels,
    and leaves the configuration unread: it succeeds when the label of the
    caller is in the selinux_id table, and otherwise reads through the NULL
    configuration pointer. *)
Theorem sqlite3SelinuxInit_reopen master attrs s me :
  (∀ c, api c = SQLITE_OK) → (∀ a, alloc_ok a = true) →
  length (selinux_tables master) = 2%nat → rows_ok (selinux_id s) → contexts s = None → getcon = Some me →
  (me ∉ r_label <$> selinux_id s → sqlite3SelinuxInit master attrs s = Undef NullDeref) ∧
  (me ∈ r_label <$> selinux_id s →
   ∃ s', sqlite3SelinuxInit master attrs s = Ret (SQLITE_OK, s') ∧ contexts s' = None ∧
     selinux_id s' = selinux_id s ∧ selinux_context s' = selinux_context s ∧
     SESQLITE_BIHASH_FIND (hash_id s') (scon_id s') = Some me ∧
     ∀ r, r ∈ selinux_id s → SESQLITE_BIHASH_FIND (hash_id s') (r_rowid r) = Some (r_label r) ∧
                             SESQLITE_BIHASH_FINDKEY (hash_id s') (r_label r) = Some (r_rowid r)).
Proof.
  intros Hapi Halloc Hm Hrows Hc Hme.
  rewrite (init_prefix Hapi Halloc _ _ _ true) by by apply isReopen_reopen.
  set (s1 := set_hash_id _ _).
  destruct (load_ids_spec (selinux_id s) ∅ s1) as (s2 & ids & E2 & Hb & Es2 & Hids).
  { done. }
  { apply bihash_init_rep. }
  { intros r Hr. split; [apply lookup_empty|]. intros id. by rewrite lookup_empty. }
  assert (selinux_context s2 = selinux_context s) as Hsc by (by rewrite Es2).
  destruct (load_keys_frame (selinux_context s) s2) as [h E3].
  assert (load_contexts_from_table s1 = Ret (SQLITE_OK, set_hash h s2)) as E.
  { unfold load_contexts_from_table. rewrite !Hapi. cbn [negb Z.eqb SQLITE_OK].
    erewrite sm_bind_run by done. rewrite (sm_bind_run _ _ _ _ _ E2). erewrite sm_bind_run by done.
    rewrite Hsc. by rewrite (sm_bind_run _ _ _ _ _ E3). }
  unfold load_labels. rewrite (on_ok_run _ _ _ _ E), (init_suffix Hapi Halloc).
  replace (match getcon with Some _ => 0 | None => -1 end) with 0 by (by rewrite Hme).
  unfold init_scon. pose proof (xattr_get_set attrs "security.selinux" getcon) as Hx.
  destruct (sqlite3_set_xattr _ _ _) as [rc attrs']. simpl in Hx. rewrite Hme in Hx. rewrite Hx. clear Hx.
  cbv zeta. erewrite sm_bind_run by done. set (s3 := set_scon _ _ _).
  assert (contexts s3 = None) as Hc3 by (subst s3; simpl; rewrite Es2; done).
  assert (∀ r, r ∈ selinux_id s → ids !! r_rowid r = Some (r_label r)) as Hin.
  { intros r Hr. apply Hids. right. exists (r_context r). by destruct r. }
  unfold insert_id. split; intros Hl.
  - apply sm_bind_undef. erewrite sm_bind_run by done. simpl.
    destruct (SESQLITE_BIHASH_FINDKEY (hash_id s2) me) as [id|] eqn:Ef.
    + apply (bihash_findkey_Some _ _ _ _ Hb), Hids in Ef as [[]%lookup_empty_Some|[c Hr]].
      destruct Hl. by apply (list_elem_of_fmap_2 r_label) in Hr.
    + apply sm_bind_undef. unfold sm_gets, lookup_security_context. by rewrite Hc3.
  - apply list_elem_of_fmap in Hl as (r & -> & Hr). pose proof (ro_range _ Hrows r Hr) as Hrg.
    assert (SESQLITE_BIHASH_FINDKEY (hash_id s2) (r_label r) = Some (r_rowid r)) as Ef
      by (by apply (bihash_findkey_Some _ _ _ _ Hb), Hin).
    erewrite sm_bind_run by (erewrite sm_bind_run by done; simpl; rewrite Ef; done).
    erewrite sm_bind_run by done.
    assert (negb (r_rowid r =? 0) = true) as -> by (apply negb_true_iff, Z.eqb_neq; lia).
    eexists. split; [by erewrite sm_bind_run by done|].
    assert (∀ r', r' ∈ selinux_id s → SESQLITE_BIHASH_FIND (hash_id s2) (r_rowid r') = Some (r_label r')) as Hfd.
    { intros r' Hr'. rewrite (bihash_find _ _ _ Hb); [by apply Hin|].
      pose proof (ro_range _ Hrows r' Hr'). unfold in_sw. lia. }
    simpl. split; [done|]. rewrite Es2. split; [done|]. split; [done|]. simpl. split; [by apply Hfd|].
    intros r' Hr'. split; [by apply Hfd|]. by apply (bihash_findkey_Some _ _ _ _ Hb), Hin.
Qed.

(** [PRAGMA chcon] gives an object that has an entry the new label, and
    no other object, and does not record it in the selinux_context table; an
    object without an entry is refused and nothing changes. *)
Theorem selinux_chcon_pragma_relabels n ids s sc args l rest o r :
  0 ≤ n < 2 ^ 31 - 1 → labels_inv n ids s → contexts s = Some sc →
  ctx_ok getcon security_compute_create_raw sc → tuples_known ids sc → obj_ok o = true →
  strtok_r args " " = (Some l, rest) → dotted_args rest = (o_db o, o_tbl o, o_col o, r) →
  more_tokens r = false →
  match hash_find (o_key o) s with
  | None => selinux_chcon_pragma (Some args) s = Ret (NoContext, s)
  | Some _ => ∃ s', selinux_chcon_pragma (Some args) s = Ret (Changed, s') ∧
      label_of getcon security_compute_create_raw s' o = Some l ∧
      (∀ o', obj_ok o' = true → o' ≠ o →
         label_of getcon security_compute_create_raw s' o' =
         label_of getcon security_compute_create_raw s o') ∧
      selinux_context s' = selinux_context s
  end.
Proof.
  intros Hn Hinv Hc Hok Htk Ho Ea Ed Hr. unfold selinux_chcon_pragma.
  erewrite !(sm_bind_run (sm_lift (deref (Some args)))) by done. rewrite Ea, Ed.
  assert (∃ d, o_db o = Some d) as [d Hd] by (destruct o; eauto).
  assert (bool_decide (Some l = None) || bool_decide (o_db o = None) || more_tokens r = false) as ->.
  { rewrite Hr, Hd. done. }
  erewrite !(sm_bind_run (sm_get _)) by done. unfold get_key. fold (o_key o).
  destruct (hash_find (o_key o) s) as [id0|] eqn:Ef; [|done].
  destruct (hash_find_known n ids s Hinv _ _ Ef) as (l0 & Hl0 & _).
  pose proof (li_bound _ _ _ Hinv _ _ Hl0). change (default (-1) (Some id0)) with id0.
  destruct (Z.eqb_spec id0 (-1)); [lia|]. rewrite Hd.
  destruct (insert_id_spec getcon security_compute_create_raw n ids s sc Hn Hinv Hc Hok Htk d l)
    as (id & s1 & ids1 & E & Hsub & Hid & Hinv1 & Hsame & _).
  rewrite (sm_bind_run _ _ _ _ _ E). unfold insert_key. rewrite <- Hd. fold (o_key o).
  erewrite sm_bind_run by done.
  destruct (hash_insert_spec (n + 1) ids1 s1 o id Hinv1) as (Hinv2 & Hf1 & Hf2); [eauto|].
  eexists. split; [done|]. split; [|split; [|apply Hsame]].
  - unfold label_of. rewrite Hf1. simpl. rewrite (bihash_find _ _ _ (li_ids _ _ _ Hinv1)); [done|].
    by eapply (bh_range _ _ (li_ids _ _ _ Hinv1)).
  - intros o' Ho' Hne.
    rewrite <- (label_of_same getcon security_compute_create_raw n ids s Hinv s1 ids1 _ o' Hinv1 Hsub Hsame).
    unfold label_of. rewrite Hf2; [done|]. intros E'. by apply Hne, o_key_inj.
Qed.

End env.
End init.

(** ** Witnesses *)

Definition fresh_state : cstate :=
  State (st_init SQLITE_HASH_STRING true true) ex_bihash (st_init SQLITE_HASH_INT false false)
    None None 0 0 [] [] 0.

Definition config_file : string :=
  "db_database * db_t" +:+ nl +:+ "db_table *.* tbl_t" +:+ nl +:+ "db_table main.t t_t" +:+ nl +:+
  "db_column *.*.* col_t" +:+ nl +:+ "db_tuple *.* sys_t" +:+ nl.

Definition config_sc : sesqlite_context :=
  Ctx [CtxElem "*" "*" "*" (Some "*") "db_t"]
      [CtxElem "main.t" "main" "t" None "t_t"; CtxElem "*.*" "*" "*" None "tbl_t"] []
      [CtxElem "*.*.*" "*" "*" (Some "*") "col_t"] [CtxElem "*.*" "*" "*" None "sys_t"].

Lemma sqlite3SelinuxInit_fresh_witness :
  ∃ s' ids, sqlite3SelinuxInit (Some "user_t") no_create (λ _, 0) (λ _, true) ex_schema (Some config_file)
      [] ∅ fresh_state = Ret (SQLITE_OK, s') ∧
    auth_inv ex_policy 20 ids config_sc s' ∧ scon s' = Some "user_t" ∧
    ids !! scon_id s' = Some "user_t" ∧
    ∃ id, hash_find "main:u:ROWID" s' = Some id ∧ ids !! id = Some "col_t" ∧
      ∃ rowid con, CtxRow rowid con id (Some "main") (Some "u") (Some "ROWID") ∈ selinux_context s'.
Proof.
  destruct (sqlite3SelinuxInit_fresh (Some "user_t") no_create (λ _, 0) (λ _, true) ex_schema
    (Some config_file) ex_policy [] ∅ fresh_state config_sc "user_t") as (s' & ids & E & Hi & Hs & Hid & Ho & _).
  - reflexivity.
  - reflexivity.
  - reflexivity.
  - reflexivity.
  - vm_compute. reflexivity.
  - apply ctx_total_ok. reflexivity.
  - apply ctx_plain_lists; [|intros l; discriminate]. intros e He. simpl in He.
    repeat (apply elem_of_cons in He as [->|He]; [reflexivity|]). by apply elem_of_nil in He.
  - intros e He. apply list_elem_of_singleton in He as ->. reflexivity.
  - reflexivity.
  - reflexivity.
  - reflexivity.
  - vm_compute. reflexivity.
  - exists s', ids. split; [exact E|split; [exact Hi|split; [exact Hs|split; [exact Hid|]]]].
    destruct (Ho (OCol "main" "u" "ROWID")) as (id & l & Hh & Hl & Hd & Hrow);
      [vm_compute; repeat (first [left; reflexivity|right])|].
    exists id. split; [exact Hh|split; [|exact (Hrow eq_refl)]].
    rewrite Hl. f_equal. vm_compute in Hd. by injection Hd.
Defined.

Definition two_tables : list master_row := [MasterRow "table" "selinux_context"; MasterRow "table" "selinux_id"].

Lemma sqlite3SelinuxInit_reopen_witness :
  sqlite3SelinuxInit (Some "user_t") no_create (λ _, 0) (λ _, true) [] None two_tables ∅ fresh_state
    = Undef NullDeref.
Proof.
  destruct (sqlite3SelinuxInit_reopen (Some "user_t") no_create (λ _, 0) (λ _, true) [] None two_tables ∅
    fresh_state "user_t") as [H _].
  - reflexivity.
  - reflexivity.
  - reflexivity.
  - split; [constructor|constructor|]. intros r Hr. by apply elem_of_nil in Hr.
  - reflexivity.
  - reflexivity.
  - apply H. simpl. apply not_elem_of_nil.
Defined.

(** A state where a table has an entry. *)
Definition entry_state : cstate :=
  set_hash (st_insert (hash ex_state) (KStr (o_key (OTbl "main" "t"))) (Some 1) 4) ex_state.

Lemma entry_inv :
  labels_inv 1 ex_ids entry_state ∧ hash_find (o_key (OTbl "main" "t")) entry_state = Some 1.
Proof.
  destruct (hash_insert_spec 1 ex_ids ex_state (OTbl "main" "t") 1 ex_inv) as (H1 & H2 & _); [by eexists|].
  by split.
Qed.

Lemma selinux_chcon_pragma_relabels_witness :
  ∃ s', selinux_chcon_pragma None no_create (Some "new_t main.t") entry_state = Ret (Changed, s') ∧
    label_of None no_create s' (OTbl "main" "t") = Some "new_t" ∧
    selinux_context s' = selinux_context entry_state.
Proof.
  pose proof (selinux_chcon_pragma_relabels None no_create 1 ex_ids entry_state ex_sc "new_t main.t" "new_t"
    "main.t" (OTbl "main" "t") "") as H. rewrite (proj2 entry_inv) in H.
  destruct H as (s' & E & Hl & _ & Hx);
    [lia|exact (proj1 entry_inv)|reflexivity|apply ex_sc_ok|exact ex_tuples|reflexivity|reflexivity|reflexivity
    |reflexivity|].
  exists s'. split; [exact E|split; [exact Hl|exact Hx]].
Defined.
