(* ===== verification/RowLevel.v ===== *)
(** * Row-level checks

    Models what the extension changes in the statements SQLite compiles: the
    conditions added to the WHERE clause of SELECT (sqlite3SelectNew of
    src/select.c), UPDATE (sqlite3Update of src/update.c) and DELETE
    (sqlite3DeleteFrom of src/delete.c), the security_context value added to
    INSERT (sqlite3Insert of src/insert.c), and the text of a CREATE TABLE
    statement (sqlite3EndTable of src/build.c); [sqlite3ExprAnd] of
    src/expr.c.  Expressions written by the user are opaque. *)

From S2P Require Import Prelude CString SeHash BiHash Avc ContextFile Schema Labels Authorizer.
From Stdlib Require Import Ascii.
#[local] Open Scope string_scope.
#[local] Open Scope Z_scope.
#[local] Open Scope list_scope.

(** ** Expressions *)

Section expressions.
Context {U : Type}.

Inductive expr :=
  | EUser (u : U)
  | EInt (z : Z)
  | EStr (s : string)
  | EDot (table column : string)
  | EFunc (name : string) (args : list expr)
  | EAnd (l r : expr).

(** Whether the compiler knows that a user expression is the constant 0. *)
Variable user_zero : U → bool.

Definition exprAlwaysFalse (e : expr) : bool :=
  match e with EInt z => z =? 0 | EUser u => user_zero u | _ => false end.

Definition sqlite3ExprAnd (l r : option expr) : option expr :=
  match l, r with
  | None, r => r
  | l, None => l
  | Some l, Some r =>
      if exprAlwaysFalse l || exprAlwaysFalse r then Some (EInt 0) else Some (EAnd l r)
  end.

(** An entry of a FROM clause; a subquery has no name. *)
Record SrcItem := Src { s_name : option string; s_alias : option string }.
(** [nSrc] is the length of the list of entries. *)
Record SrcList := SrcL { s_items : list SrcItem; s_nAlloc : Z }.

(** [pSrc->a[i]] for [i] from 0 to [nAlloc - 1]; slots from [nSrc] on are not
    initialised. *)
Definition alloc_items (src : SrcList) : outcome (list SrcItem) :=
  if s_nAlloc src <=? Z.of_nat (length (s_items src))
  then Ret (take (Z.to_nat (s_nAlloc src)) (s_items src)) else Undef OutOfBounds.

(** A table that is not internal. *)
Definition user_table (name : string) : bool :=
  negb (sqlite3_strnicmp name "sqlite_" 7 =? 0) && negb (sqlite3_strnicmp name "selinux_" 8 =? 0).

(** [selinux_check_access(table.security_context, 'db_tuple', action, debug)] *)
Definition check_expr (table action_ debug : string) : expr :=
  EFunc "selinux_check_access" [EDot table "security_context"; EStr "db_tuple"; EStr action_; EStr debug].

(** The condition built so far, and one more check in front of it. *)
Definition and_acc (pFName : expr) (acc : option expr) : option expr :=
  match acc with
  | Some w => sqlite3ExprAnd (Some pFName) (Some w)
  | None => Some pFName
  end.

(** ** SELECT *)

Fixpoint any_user_table (items : list SrcItem) : outcome bool :=
  match items with
  | [] => Ret false
  | it :: items' =>
      n ← deref (s_name it);
      rest ← any_user_table items';
      Ret (user_table n || rest)
  end.

(** The text of [pFDebug]: [strlen] of the table name bytes of the name used,
    read past its end when it is an alias shorter by two or more. *)
Definition debug_text (zName name : string) : outcome string :=
  if (String.length name <=? String.length zName + 1)%nat
  then Ret (String.substring 0 (String.length name) zName) else Undef OutOfBounds.

Fixpoint select_checks (items : list SrcItem) (acc : option expr) : outcome (option expr) :=
  match items with
  | [] => Ret acc
  | it :: items' =>
      name ← deref (s_name it);
      let zName := default name (s_alias it) in
      dbg ← debug_text zName name;
      let pFName := check_expr zName "select" dbg in
      select_checks items' (and_acc pFName acc)
  end.

(** The WHERE clause [sqlite3SelectNew] stores. *)
Definition select_where (src : SrcList) (pWhere : option expr) (selFlags : Z) : outcome (option expr) :=
  items ← alloc_items src;
  test ← any_user_table items;
  if (test : bool) && negb (selFlags =? 128) then
    w ← select_checks items None;
    match pWhere with
    | Some _ => Ret (sqlite3ExprAnd pWhere w)
    | None => Ret w
    end
  else Ret pWhere.

(** ** UPDATE and DELETE *)

Fixpoint table_checks (action_ : string) (items : list SrcItem) (acc : option expr) : outcome (option expr) :=
  match items with
  | [] => Ret acc
  | it :: items' =>
      name ← deref (s_name it);
      let pFName := check_expr name action_ name in
      table_checks action_ items' (and_acc pFName acc)
  end.

Definition modify_where (action_ tabName : string) (src : SrcList) (pWhere : option expr)
    : outcome (option expr) :=
  if user_table tabName then
    items ← alloc_items src;
    w ← table_checks action_ items None;
    match pWhere with
    | Some _ => Ret (sqlite3ExprAnd w pWhere)
    | None => Ret w
    end
  else Ret pWhere.

Definition update_where := modify_where "update".
Definition delete_where := modify_where "delete".

(** ** INSERT *)

(** The statement: its column list, the rows of its SELECT (the outermost
    first, then the chain of [pPrior]) or its expression list. *)
Record insert_stmt := Insert {
  i_columns : option (list string);
  i_select : option (list (list expr));
  i_list : list expr;
}.

Definition insert_inject (zTab : string) (lookup : outcome Z) (st : insert_stmt) : outcome insert_stmt :=
  if user_table zTab then
    v ← lookup;
    let add row := row ++ [EInt v] in
    Ret (match i_select st with
         | Some rows => Insert ((λ cs, cs ++ [SECURITY_CONTEXT_COLUMN_NAME]) <$> i_columns st)
                               (Some (add <$> rows)) (i_list st)
         | None => Insert ((λ cs, cs ++ [SECURITY_CONTEXT_COLUMN_NAME]) <$> i_columns st)
                          None (add (i_list st))
         end)
  else Ret st.

(** ** Which rows a condition lets through *)

Variable user : U → bool.
Variable check : Z → string → string → bool.

Fixpoint passes (ctx : string → Z) (e : expr) : bool :=
  match e with
  | EUser u => user u
  | EInt z => negb (z =? 0)
  | EAnd a b => passes ctx a && passes ctx b
  | EFunc f [EDot t _; EStr cls; EStr act; _] => String.eqb f "selinux_check_access" && check (ctx t) cls act
  | _ => false
  end.

Definition passes_opt (ctx : string → Z) (w : option expr) : bool :=
  match w with Some e => passes ctx e | None => true end.

Hypothesis user_zero_false : ∀ u, user_zero u = true → user u = false.

Lemma sqlite3ExprAnd_passes ctx l r :
  passes_opt ctx (sqlite3ExprAnd l r) = passes_opt ctx l && passes_opt ctx r.
Proof.
  destruct l as [l|], r as [r|]; simpl; rewrite ?andb_true_r; [|done..].
  destruct (exprAlwaysFalse l || exprAlwaysFalse r) eqn:E; [|done]. simpl. symmetry.
  assert (∀ e, exprAlwaysFalse e = true → passes ctx e = false) as Hf.
  { intros [] He; simpl in *; try done; [by apply user_zero_false|]. by rewrite He. }
  apply orb_prop in E as [E|E]; rewrite (Hf _ E); [done|by rewrite andb_false_r].
Qed.

Lemma and_acc_passes ctx e acc :
  passes_opt ctx (and_acc e acc) = passes ctx e && passes_opt ctx acc.
Proof. unfold and_acc. destruct acc as [w|]; [by rewrite sqlite3ExprAnd_passes|]. simpl. by rewrite andb_true_r. Qed.

(** An entry whose name can be read, with an alias that is not too short. *)
Definition item_ok (it : SrcItem) : bool :=
  match s_name it with
  | Some n => (String.length n <=? String.length (default n (s_alias it)) + 1)%nat
  | None => false
  end.

(** The name by which a statement refers to an entry. *)
Definition ref_name (it : SrcItem) : string := default (fmt_s (s_name it)) (s_alias it).

Lemma select_checks_spec items acc :
  forallb item_ok items = true →
  ∃ w, select_checks items acc = Ret w ∧
    ∀ ctx, passes_opt ctx w =
      forallb (λ it, check (ctx (ref_name it)) "db_tuple" "select") items && passes_opt ctx acc.
Proof.
  revert acc. induction items as [|it items IH]; intros acc Hok; cbn [select_checks forallb] in *.
  { by exists acc. }
  apply andb_prop in Hok as [H1 H2]. unfold item_ok in H1.
  destruct (s_name it) as [n|] eqn:En; [|done]. simpl mbind. unfold debug_text.
  rewrite H1. simpl mbind. edestruct IH as (w & Ew & Hw); [done|]. exists w. split; [exact Ew|].
  intros ctx. rewrite Hw, and_acc_passes. simpl passes. unfold ref_name. rewrite En.
  change (fmt_s (Some n)) with n. rewrite andb_assoc. f_equal. by rewrite andb_comm.
Qed.

Lemma table_checks_spec action_ items acc :
  forallb (λ it, bool_decide (is_Some (s_name it))) items = true →
  ∃ w, table_checks action_ items acc = Ret w ∧
    ∀ ctx, passes_opt ctx w =
      forallb (λ it, check (ctx (fmt_s (s_name it))) "db_tuple" action_) items && passes_opt ctx acc.
Proof.
  revert acc. induction items as [|it items IH]; intros acc Hok; cbn [table_checks forallb] in *.
  { by exists acc. }
  apply andb_prop in Hok as [H1 H2]. apply bool_decide_eq_true in H1 as [n En]. rewrite En. simpl mbind.
  edestruct IH as (w & Ew & Hw); [done|]. exists w. split; [exact Ew|]. intros ctx.
  rewrite Hw, and_acc_passes. simpl passes. change (fmt_s (Some n)) with n.
  rewrite andb_assoc. f_equal. by rewrite andb_comm.
Qed.

Lemma any_user_table_spec items :
  forallb item_ok items = true →
  any_user_table items = Ret (existsb (λ it, user_table (fmt_s (s_name it))) items).
Proof.
  induction items as [|it items IH]; cbn [any_user_table forallb existsb]; [done|].
  intros [H1 H2]%andb_prop. unfold item_ok in H1. destruct (s_name it) as [n|]; [|done].
  simpl mbind. by rewrite IH.
Qed.

Lemma alloc_items_exact src :
  s_nAlloc src = Z.of_nat (length (s_items src)) → alloc_items src = Ret (s_items src).
Proof.
  intros E. unfold alloc_items. rewrite E, Z.leb_refl, Nat2Z.id, firstn_all. done.
Qed.

(** ** Theorems *)

(** C3: a SELECT with a user table returns exactly the rows of its FROM
    clause that satisfy its own WHERE clause and whose tuples, one per entry,
    the policy lets the caller select; VALUES clauses and selects on internal
    tables are left as they are. *)
Theorem select_where_filters src pWhere selFlags ctx :
  s_nAlloc src = Z.of_nat (length (s_items src)) → forallb item_ok (s_items src) = true →
  ∃ w, select_where src pWhere selFlags = Ret w ∧
    passes_opt ctx w = passes_opt ctx pWhere &&
      (negb (existsb (λ it, user_table (fmt_s (s_name it))) (s_items src)) || (selFlags =? 128) ||
       forallb (λ it, check (ctx (ref_name it)) "db_tuple" "select") (s_items src)).
Proof.
  intros Hn Hok. unfold select_where. rewrite (alloc_items_exact src Hn). simpl mbind.
  rewrite (any_user_table_spec _ Hok). simpl mbind.
  destruct (existsb _ (s_items src)); simpl; [|exists pWhere; by rewrite andb_true_r].
  destruct (selFlags =? 128); simpl; [exists pWhere; by rewrite andb_true_r|].
  destruct (select_checks_spec (s_items src) None Hok) as (w & Ew & Hw). rewrite Ew. simpl mbind.
  specialize (Hw ctx). simpl in Hw. rewrite andb_true_r in Hw.
  destruct pWhere as [e|].
  - eexists. split; [done|]. by rewrite sqlite3ExprAnd_passes, Hw.
  - exists w. by rewrite Hw.
Qed.


(** compiling a SELECT reads through a NULL pointer when an entry of its
    FROM clause is a subquery, and past the entries when more slots were
    allocated than used. *)
Theorem select_where_faults l1 l2 alias pWhere selFlags src :
  (forallb (λ it, bool_decide (is_Some (s_name it))) l1 = true →
   select_where (SrcL (l1 ++ Src None alias :: l2) (Z.of_nat (length (l1 ++ Src None alias :: l2))))
     pWhere selFlags = Undef NullDeref) ∧
  (Z.of_nat (length (s_items src)) < s_nAlloc src →
   select_where src pWhere selFlags = Undef OutOfBounds).
Proof.
  split.
  - intros Hl. unfold select_where. rewrite alloc_items_exact by done. simpl mbind.
    assert (any_user_table (l1 ++ Src None alias :: l2) = Undef NullDeref) as ->; [|done].
    induction l1 as [|it l1 IH]; [done|]. cbn [forallb app any_user_table] in *.
    apply andb_prop in Hl as [[n ->]%bool_decide_eq_true Hl]. simpl. by rewrite IH.
  - intros Hl. unfold select_where, alloc_items. by destruct (Z.leb_spec (s_nAlloc src) (Z.of_nat (length (s_items src)))); [lia|].
Qed.

(** every row an INSERT writes into a user table gets, as its last value,
    the number of the label of new tuples of that table, and the column list
    names the security_context column; the other values and columns are
    unchanged. *)
Theorem insert_inject_labels zTab v st :
  user_table zTab = true →
  ∃ st', insert_inject zTab (Ret v) st = Ret st' ∧
    (∀ cs, i_columns st = Some cs → i_columns st' = Some (cs ++ [SECURITY_CONTEXT_COLUMN_NAME])) ∧
    (i_columns st = None → i_columns st' = None) ∧
    match i_select st with
    | Some rows => ∃ rows', i_select st' = Some rows' ∧ i_list st' = i_list st ∧
        Forall2 (λ row row', row' = row ++ [EInt v]) rows rows'
    | None => i_select st' = None ∧ i_list st' = i_list st ++ [EInt v]
    end.
Proof.
  intros Hu. unfold insert_inject. rewrite Hu. cbn [mbind outcome_bind]. eexists. split; [done|].
  destruct (i_select st) as [rows|]; simpl; (split; [by intros cs ->|split; [by intros ->|]]); [|done].
  eexists. split; [done|]. split; [done|]. induction rows as [|r rows IH]; constructor; done.
Qed.

End expressions.
Arguments expr : clear implicits.

(** ** The text of CREATE TABLE *)

(** What [zColumn] is after the callback: NULL, the column definition, or a
    pointer to memory the callback has freed. *)
Inductive zcolumn := ZNull | ZText (s : string) | ZFreed.

Definition read_zcolumn (z : zcolumn) : outcome string :=
  match z with ZNull => Undef NullDeref | ZText s => Ret s | ZFreed => Undef UseAfterFree end.

Definition column_definition : string := "security_context hidden INT".

(** The result of [create_security_context_column] as [sqlite3EndTable] sees
    it: the error paths free the text they have stored through [zColumn]. *)
Definition callback_column (rc : Z) : zcolumn :=
  if rc =? SQLITE_OK then ZText column_definition else ZFreed.

(** The part of [sqlite3EndTable] that computes the statement text, without a
    SELECT.  [hook] is the result of the callback when there is one; [rest] is
    the SQL input from the table name to its end, [cons] its part from the
    first table constraint or the closing parenthesis on, [plain] what stock
    SQLite would store.  [None] is the early return. *)
Definition end_table_text (is_vac : bool) (hook : option Z) (name zType2 rest cons plain : string)
    : outcome (option string) :=
  let called := match hook with Some rc => if is_vac then None else Some rc | None => None end in
  if match called with Some rc => rc =? -1 | None => false end then Ret None
  else if negb is_vac && user_table name then
    let zColumn := match called with Some rc => callback_column rc | None => ZNull end in
    col ← read_zcolumn zColumn;
    let pStmt := (String.length rest - String.length cons)%nat in
    Ret (Some ("CREATE " +:+ zType2 +:+ " " +:+
               String.substring 0 pStmt rest +:+ ", " +:+ col +:+ cons))
  else Ret (Some ("CREATE " +:+ zType2 +:+ " " +:+ plain)).

(** the text stored for a new user table is the text of the statement
    with the security_context column added after its last column, and with
    all of the SQL input that follows; when the callback refuses the table,
    its freed column text is read. *)
Theorem end_table_text_column rc name zType2 pre cons plain :
  user_table name = true →
  (rc = SQLITE_OK →
   end_table_text false (Some rc) name zType2 (pre +:+ cons) cons plain =
     Ret (Some ("CREATE " +:+ zType2 +:+ " " +:+ pre +:+ ", security_context hidden INT" +:+ cons))) ∧
  (rc = SQLITE_ERROR →
   end_table_text false (Some rc) name zType2 (pre +:+ cons) cons plain = Undef UseAfterFree).
Proof.
  intros Hu. assert (∀ a b, String.length (a +:+ b) = (String.length a + String.length b)%nat) as Hlen.
  { intros a b. induction a as [|c a IH]; [done|]. simpl. by f_equal. }
  assert (∀ a b, String.substring 0 (String.length a) (a +:+ b) = a) as Hsub.
  { intros a b. induction a as [|c a IH]; simpl; [by destruct b|]. by f_equal. }
  split; intros ->; unfold end_table_text; rewrite Hu; [|done]. cbn -[String.append].
  by rewrite Hlen, Nat.add_sub, Hsub.
Qed.

(** ** Witnesses *)

Definition ex_check (id : Z) (cls act : string) : bool := id =? 1.
Definition ex_user (b : bool) : bool := b.
Definition ex_zero (b : bool) : bool := false.

Lemma select_where_filters_witness :
  ∃ w, select_where ex_zero (SrcL [Src (Some "t") None; Src (Some "u") (Some "x")] 2) (Some (EUser true)) 0
         = Ret w ∧
    passes_opt ex_user ex_check (λ n, if String.eqb n "t" then 1 else 2) w = false.
Proof.
  destruct (select_where_filters ex_zero ex_user ex_check ltac:(discriminate)
    (SrcL [Src (Some "t") None; Src (Some "u") (Some "x")] 2) (Some (EUser true)) 0
    (λ n, if String.eqb n "t" then 1 else 2)) as (w & E & H); [reflexivity|reflexivity|].
  exists w. split; [exact E|]. rewrite H. reflexivity.
Defined.


Lemma select_where_faults_witness :
  select_where ex_zero (SrcL [Src (Some "t") None; Src None (Some "sub")] 2) None 0 = Undef NullDeref ∧
  select_where ex_zero (SrcL [Src (Some "t") None] 2) None 0 = Undef OutOfBounds.
Proof.
  destruct (select_where_faults ex_zero [Src (Some "t") None] [] (Some "sub") None 0
    (SrcL [Src (Some "t") None] 2)) as [H1 H2].
  split; [apply H1; reflexivity|apply H2; simpl; lia].
Defined.

Lemma insert_inject_labels_witness :
  ∃ st', insert_inject (U := bool) "t" (Ret 7) (Insert (Some ["a"]) (Some [[EInt 1]; [EInt 2]]) []) = Ret st' ∧
    i_columns st' = Some ["a"; "security_context"].
Proof.
  destruct (insert_inject_labels (U := bool) "t" 7 (Insert (Some ["a"]) (Some [[EInt 1]; [EInt 2]]) []))
    as (st' & E & Hc & _); [reflexivity|].
  exists st'. split; [exact E|]. exact (Hc ["a"] eq_refl).
Defined.

Lemma end_table_text_column_witness :
  end_table_text false (Some SQLITE_OK) "t" "TABLE" ("t(a" +:+ "); SELECT 1") "); SELECT 1" "t(a)" =
    Ret (Some "CREATE TABLE t(a, security_context hidden INT); SELECT 1") ∧
  end_table_text false (Some SQLITE_ERROR) "t" "TABLE" ("t(a" +:+ ")") ")" "t(a)" = Undef UseAfterFree.
Proof.
  split.
  - apply (end_table_text_column SQLITE_OK "t" "TABLE" "t(a" "); SELECT 1" "t(a)"); reflexivity.
  - apply (end_table_text_column SQLITE_ERROR "t" "TABLE" "t(a" ")" "t(a)"); reflexivity.
Defined.
