(* ===== verification/Auth.v ===== *)
(** * The authorization interface of the compiler

    Models src/auth.c: how the compiler calls the authorizer callback and what
    it does with the answer, for any callback, and what follows for the
    authorizer of the extension. *)

From S2P Require Import Prelude CString SeHash BiHash Avc ContextFile Schema Labels Authorizer.
#[local] Open Scope string_scope.
#[local] Open Scope Z_scope.
#[local] Open Scope list_scope.

Definition SQLITE_IGNORE : Z := 2.
Definition SQLITE_AUTH : Z := 23.
Definition SQLITE_READ_code : Z := 20.

(** The fields of the parser context that are read or written. *)
Record Parse := ParseC {
  p_rc : Z;
  p_nErr : Z;
  p_zErrMsg : option string;
  p_zAuthContext : option string;
}.

(** [sqlite3ErrorMsg]: the error count grows and the code is SQLITE_ERROR. *)
Definition sqlite3ErrorMsg (p : Parse) (msg : string) : Parse :=
  ParseC SQLITE_ERROR (p_nErr p + 1) (Some msg) (p_zAuthContext p).
Definition set_rc (rc : Z) (p : Parse) : Parse :=
  ParseC rc (p_nErr p) (p_zErrMsg p) (p_zAuthContext p).
Definition set_auth_context (c : option string) (p : Parse) : Parse :=
  ParseC (p_rc p) (p_nErr p) (p_zErrMsg p) c.

Definition sqliteAuthBadReturnCode (p : Parse) : Parse :=
  set_rc SQLITE_ERROR (sqlite3ErrorMsg p "authorizer malfunction").

(** A saved authorization context. *)
Record AuthContext := AuthC { ac_saved : option string; ac_active : bool }.

Definition sqlite3AuthContextPush (p : Parse) (zContext : option string) : Parse * AuthContext :=
  (set_auth_context zContext p, AuthC (p_zAuthContext p) true).

Definition sqlite3AuthContextPop (p : Parse) (c : AuthContext) : Parse * AuthContext :=
  if ac_active c then (set_auth_context (ac_saved c) p, AuthC (ac_saved c) false) else (p, c).

Section callback.
Context {S : Type}.
(** [db->xAuth], when one is registered: it takes the action code, two
    arguments, the database and the innermost trigger or view. *)
Variable xAuth : option (Z → option string → option string → option string → option string → sm S Z).

(** A column reference, the tables it may refer to by cursor number, and the
    columns of a table with its INTEGER PRIMARY KEY column ([-1] for none). *)
Record auth_table := AuthTab { at_table : Table; at_iPKey : Z }.
Inductive expr_op := TK_COLUMN | TK_TRIGGER | TK_NULL.
Record auth_expr := AuthExpr { ae_op : expr_op; ae_iTable : Z; ae_iColumn : Z }.

Definition prohibited (zDb zTab zCol : string) (nDb iDb : Z) : string :=
  if (2 <? nDb) || negb (iDb =? 0)
  then "access to " +:+ zDb +:+ "." +:+ zTab +:+ "." +:+ zCol +:+ " is prohibited"
  else "access to " +:+ zTab +:+ "." +:+ zCol +:+ " is prohibited".

(** [sqlite3AuthReadCol]; it is called with a registered callback. *)
Definition sqlite3AuthReadCol (sch : schema) (p : Parse) (zTab zCol : string) (iDb : Z) : sm S (Z * Parse) :=
  match zlookup sch iDb, xAuth with
  | Some d, Some auth =>
      rc ← auth SQLITE_READ_code (Some zTab) (Some zCol) (Some (zName d)) (p_zAuthContext p);
      mret (rc,
        if rc =? SQLITE_DENY then
          set_rc SQLITE_AUTH
            (sqlite3ErrorMsg p (prohibited (zName d) zTab zCol (Z.of_nat (length sch)) iDb))
        else if negb (rc =? SQLITE_IGNORE) && negb (rc =? SQLITE_OK) then sqliteAuthBadReturnCode p
        else p)
  | None, _ => sm_lift (Undef OutOfBounds)
  | _, None => sm_lift (Undef NullDeref)
  end.

Definition read_column_name (t : auth_table) (iCol : Z) : outcome string :=
  if 0 <=? iCol then
    match zlookup (aCol (at_table t)) iCol with Some c => Ret c | None => Undef AssertFail end
  else if 0 <=? at_iPKey t then
    match zlookup (aCol (at_table t)) (at_iPKey t) with Some c => Ret c | None => Undef AssertFail end
  else Ret "ROWID".

(** [sqlite3AuthRead]: the parser context and the expression, which a callback
    that says SQLITE_IGNORE turns into NULL.  [iDb] is the result of
    [sqlite3SchemaToIndex]. *)
Definition sqlite3AuthRead (sch : schema) (p : Parse) (e : auth_expr) (iDb : Z)
    (triggerTab : option auth_table) (tabList : list (Z * auth_table)) : sm S (Parse * auth_expr) :=
  match xAuth with
  | None => mret (p, e)
  | Some _ =>
      if iDb <? 0 then mret (p, e)
      else
        let pTab := match ae_op e with
                    | TK_TRIGGER => triggerTab
                    | _ => snd <$> find (λ x, ae_iTable e =? fst x) tabList
                    end in
        match pTab with
        | None => mret (p, e)
        | Some t =>
            zCol ← sm_lift (read_column_name t (ae_iColumn e));
            r ← sqlite3AuthReadCol sch p (tab_name (at_table t)) zCol iDb;
            mret (snd r, if fst r =? SQLITE_IGNORE then AuthExpr TK_NULL (ae_iTable e) (ae_iColumn e) else e)
        end
  end.

Definition sqlite3AuthCheck (p : Parse) (init_busy in_declare_vtab : bool) (code : Z)
    (zArg1 zArg2 zArg3 : option string) : sm S (Z * Parse) :=
  if init_busy || in_declare_vtab then mret (SQLITE_OK, p)
  else
    match xAuth with
    | None => mret (SQLITE_OK, p)
    | Some auth =>
        rc ← auth code zArg1 zArg2 zArg3 (p_zAuthContext p);
        mret (if rc =? SQLITE_DENY then (rc, set_rc SQLITE_AUTH (sqlite3ErrorMsg p "not authorized"))
              else if negb (rc =? SQLITE_OK) && negb (rc =? SQLITE_IGNORE)
              then (SQLITE_DENY, sqliteAuthBadReturnCode p)
              else (rc, p))
    end.

(** [sqlite3AuthCheck] lets a statement through without an error only when
    there is nothing to ask or the callback says SQLITE_OK or SQLITE_IGNORE;
    any other answer becomes SQLITE_DENY with an error in the parser context,
    so a faulty callback fails closed. *)
Theorem sqlite3AuthCheck_fails_closed p busy vtab code a1 a2 a3 s rc p' s' :
  sqlite3AuthCheck p busy vtab code a1 a2 a3 s = Ret ((rc, p'), s') →
  rc ∈ [SQLITE_OK; SQLITE_DENY; SQLITE_IGNORE] ∧
  (rc = SQLITE_DENY ↔ p_nErr p' = p_nErr p + 1) ∧ (rc ≠ SQLITE_DENY → p' = p) ∧
  (rc ≠ SQLITE_DENY → busy = false → vtab = false → ∀ auth, xAuth = Some auth →
     auth code a1 a2 a3 (p_zAuthContext p) s = Ret (rc, s')).
Proof.
  unfold sqlite3AuthCheck. destruct (busy || vtab) eqn:Eb.
  { intros [= <- <- <-]. split; [by left|]. split; [split; [done|lia]|]. split; [done|].
    intros _ -> ->. done. }
  destruct xAuth as [auth|].
  2: { intros [= <- <- <-]. split; [by left|]. split; [split; [done|lia]|]. split; done. }
  intros (r & s1 & E & [= Er <-])%sm_bind_Ret.
  destruct (Z.eqb_spec r SQLITE_DENY) as [->|Hd].
  { injection Er as <- <-. split; [by right; left|]. split; done. }
  destruct (negb (r =? SQLITE_OK) && negb (r =? SQLITE_IGNORE)) eqn:Ei.
  { injection Er as <- <-. split; [by right; left|]. split; done. }
  injection Er as <- <-. apply andb_false_iff in Ei.
  assert (r = SQLITE_OK ∨ r = SQLITE_IGNORE) as Hr
    by (destruct Ei as [Ei|Ei]; apply negb_false_iff, Z.eqb_eq in Ei; auto).
  split; [destruct Hr as [-> | ->]; set_solver|]. split; [split; [done|lia]|]. split; [done|].
  intros _ _ _ auth' [= <-]. exact E.
Qed.

End callback.

(** popping the context pushed restores the innermost trigger or view, and
    popping again changes nothing. *)
Theorem sqlite3AuthContext_push_pop p q zContext :
  let '(p1, c) := sqlite3AuthContextPush p zContext in
  p_zAuthContext p1 = zContext ∧
  let '(p2, c2) := sqlite3AuthContextPop q c in
  p_zAuthContext p2 = p_zAuthContext p ∧ p_nErr p2 = p_nErr q ∧ p_rc p2 = p_rc q ∧
  sqlite3AuthContextPop p2 c2 = (p2, c2).
Proof. done. Qed.

(** ** With the authorizer of the extension *)

Section selinux.
Context {TH TK TV TA : Type}.
Context `{!Store TH Z} `{!Store TK string} `{!Store TV Z} `{!Store TA bool}.
Variable getcon : option string.
Variable security_compute_create_raw : option string → option string → Z → option string.
Variable selinux_check_access : option string → option string → string → option string → Z.
Variable sch : schema.

(** C2: with the authorizer of the extension registered, the compiler rejects
    a statement with SQLITE_AUTH exactly when the policy does not allow the
    action, except while the schema is being read or a virtual table
    declared, when nothing is asked. *)
Theorem sqlite3AuthCheck_selinux n ids sc (s : sestate TH TK TV TA) p busy vtab type a arg1 arg2 dbname :
  let req := required sch a arg1 arg2 dbname in
  let xAuth := Some (selinuxAuthorizer getcon security_compute_create_raw selinux_check_access sch) in
  auth_inv selinux_check_access n ids sc s → ctx_ok getcon security_compute_create_raw sc →
  ctx_plain getcon security_compute_create_raw sc →
  zlookup actions type = Some a → args_ok a arg1 arg2 dbname →
  (∀ d, dbname = Some d → colon_free d = true) → all_ok req = true →
  n + 1 + Z.of_nat (length req) < 4096 →
  ∃ rc p' s', sqlite3AuthCheck xAuth p busy vtab type arg1 arg2 dbname s = Ret ((rc, p'), s') ∧
    (if busy || vtab || allowed getcon security_compute_create_raw selinux_check_access sch s a arg1 arg2 dbname
     then rc = SQLITE_OK ∧ p' = p
     else rc = SQLITE_DENY ∧ p_rc p' = SQLITE_AUTH ∧ p_nErr p' = p_nErr p + 1).
Proof.
  intros req xAuth Hinv Hok Hpl Ha Harg Hd Ho Hn. unfold sqlite3AuthCheck.
  destruct (busy || vtab); simpl; [by do 3 eexists|].
  destruct (selinuxAuthorizer_spec getcon security_compute_create_raw selinux_check_access sch sc Hok Hpl
    n ids s type a arg1 arg2 dbname (p_zAuthContext p)) as (ids' & s' & E & _); [done..|].
  rewrite (sm_bind_run _ _ _ _ _ E).
  destruct (allowed _ _ _ _ s a arg1 arg2 dbname); by do 3 eexists.
Qed.
End selinux.

(** ** Witnesses *)

Lemma sqlite3AuthCheck_fails_closed_witness :
  5 ≠ 0 ∧ SQLITE_DENY ∈ [SQLITE_OK; SQLITE_DENY; SQLITE_IGNORE] ∧
  (SQLITE_DENY = SQLITE_DENY ↔ 1 = 0 + 1).
Proof.
  split; [discriminate|].
  destruct (sqlite3AuthCheck_fails_closed (S := ()) (Some (λ _ _ _ _ _, mret 5)) (ParseC 0 0 None None) false
    false 20 None None None () SQLITE_DENY
    (ParseC SQLITE_ERROR 1 (Some "authorizer malfunction") None) ()) as (H1 & H2 & _); [reflexivity|].
  split; [exact H1|exact H2].
Defined.

Lemma sqlite3AuthCheck_selinux_witness :
  ∃ rc p' s', sqlite3AuthCheck (Some (selinuxAuthorizer None no_create ex_policy ex_schema))
      (ParseC 0 0 None None) false false 9 (Some "t") None (Some "main") ex_state = Ret ((rc, p'), s') ∧
    rc = SQLITE_DENY ∧ p_rc p' = SQLITE_AUTH ∧ p_nErr p' = 0 + 1.
Proof.
  destruct (sqlite3AuthCheck_selinux None no_create ex_policy ex_schema 1 ex_ids ex_sc ex_state
    (ParseC 0 0 None None) false false 9 SQLITE_DELETE (Some "t") None (Some "main"))
    as (rc & p' & s' & E & H);
    [exact ex_auth|apply ex_sc_ok|exact ex_plain|reflexivity|simpl; eauto|intros d [= <-]; reflexivity
    |reflexivity|simpl; lia|].
  exists rc, p', s'. split; [exact E|]. exact H.
Defined.
