(* ===== verification/Bits.v ===== *)
(** * Equations between bit expressions

    An equation between expressions built from numbers of known width by
    masks, shifts and [u32] is decided by computing the source of every
    bit. *)

From S2P Require Import Prelude.
#[local] Open Scope Z_scope.
#[local] Open Scope c_scope.
#[local] Open Scope list_scope.

Inductive bexp :=
  | BVar (i : nat) (w : Z)     (* variable [i], of at most [w] bits *)
  | BConst (c : Z)
  | BOr (a b : bexp)
  | BAnd (a b : bexp)
  | BShl (a : bexp) (k : Z)
  | BShr (a : bexp) (k : Z)
  | BU32 (a : bexp).

Fixpoint bdenote (env : list Z) (e : bexp) : Z :=
  match e with
  | BVar i _ => nth i env 0
  | BConst c => c
  | BOr a b => bdenote env a .| bdenote env b
  | BAnd a b => bdenote env a .& bdenote env b
  | BShl a k => bdenote env a .<< k
  | BShr a k => bdenote env a .>> k
  | BU32 a => u32 (bdenote env a)
  end.

(** Where a bit comes from. *)
Inductive sbit := SFalse | STrue | SBit (i : nat) (k : Z) | SOr (a b : sbit) | SAnd (a b : sbit).

Fixpoint sdenote (env : list Z) (b : sbit) : bool :=
  match b with
  | SFalse => false
  | STrue => true
  | SBit i k => Z.testbit (nth i env 0) k
  | SOr a b => sdenote env a || sdenote env b
  | SAnd a b => sdenote env a && sdenote env b
  end.

Definition sor (a b : sbit) : sbit :=
  match a, b with SFalse, b => b | a, SFalse => a | a, b => SOr a b end.
Definition sand (a b : sbit) : sbit :=
  match a, b with
  | SFalse, _ => SFalse | _, SFalse => SFalse | STrue, b => b | a, STrue => a | a, b => SAnd a b
  end.

Lemma sor_sound env a b : sdenote env (sor a b) = sdenote env a || sdenote env b.
Proof. destruct a, b; simpl; rewrite ?orb_false_r; done. Qed.
Lemma sand_sound env a b : sdenote env (sand a b) = sdenote env a && sdenote env b.
Proof. destruct a, b; simpl; rewrite ?andb_false_r, ?andb_true_r; done. Qed.

Fixpoint bit_of (e : bexp) (n : Z) : sbit :=
  match e with
  | BVar i w => if n <? w then SBit i n else SFalse
  | BConst c => if Z.testbit c n then STrue else SFalse
  | BOr a b => sor (bit_of a n) (bit_of b n)
  | BAnd a b => sand (bit_of a n) (bit_of b n)
  | BShl a k => if n <? k then SFalse else bit_of a (n - k)
  | BShr a k => bit_of a (n + k)
  | BU32 a => if n <? 32 then bit_of a n else SFalse
  end.

(** The bits of a value are below its width. *)
Fixpoint width (e : bexp) : Z :=
  match e with
  | BVar _ w => w
  | BConst c => if c =? 0 then 0 else Z.log2 c + 1
  | BOr a b => Z.max (width a) (width b)
  | BAnd a b => Z.min (width a) (width b)
  | BShl a k => width a + k
  | BShr a k => Z.max 0 (width a - k)
  | BU32 a => Z.min 32 (width a)
  end.

Fixpoint bwf (env : list Z) (e : bexp) : Prop :=
  match e with
  | BVar i w => 0 ≤ w ∧ 0 ≤ nth i env 0 < 2 ^ w
  | BConst c => 0 ≤ c
  | BOr a b | BAnd a b => bwf env a ∧ bwf env b
  | BShl a k | BShr a k => 0 ≤ k ∧ bwf env a
  | BU32 a => bwf env a
  end.

Lemma testbit_high x w n : 0 ≤ x < 2 ^ w → 0 ≤ w ≤ n → Z.testbit x n = false.
Proof.
  intros Hx Hn. apply Z.testbit_false; [lia|]. rewrite Z.div_small; [done|].
  assert (2 ^ w ≤ 2 ^ n) by (apply Z.pow_le_mono_r; lia). lia.
Qed.

Lemma testbit_u32 x n : 0 ≤ n → Z.testbit (u32 x) n = (n <? 32) && Z.testbit x n.
Proof.
  intros Hn. unfold uw. destruct (Z.ltb_spec n 32).
  - by rewrite Z.mod_pow2_bits_low by lia.
  - by rewrite Z.mod_pow2_bits_high by lia.
Qed.

Lemma bit_of_sound env e n :
  bwf env e → 0 ≤ n → Z.testbit (bdenote env e) n = sdenote env (bit_of e n).
Proof.
  revert n. induction e as [i w|c|a IHa b IHb|a IHa b IHb|a IHa k|a IHa k|a IHa]; intros n Hw Hn; simpl in *.
  - destruct (Z.ltb_spec n w); [done|]. apply (testbit_high _ w); [apply Hw|lia].
  - by destruct (Z.testbit c n).
  - rewrite Z.lor_spec, sor_sound, IHa, IHb by (done || apply Hw). done.
  - rewrite Z.land_spec, sand_sound, IHa, IHb by (done || apply Hw). done.
  - rewrite Z.shiftl_spec by done. destruct (Z.ltb_spec n k); [by rewrite Z.testbit_neg_r by lia|].
    apply IHa; [apply Hw|lia].
  - rewrite Z.shiftr_spec by done. apply IHa; [apply Hw|lia].
  - rewrite testbit_u32 by done. destruct (n <? 32); simpl; [by apply IHa|done].
Qed.

Lemma width_sound env e n :
  bwf env e → 0 ≤ n → width e ≤ n → Z.testbit (bdenote env e) n = false.
Proof.
  revert n. induction e as [i w|c|a IHa b IHb|a IHa b IHb|a IHa k|a IHa k|a IHa]; intros n Hw Hn Hle; simpl in *.
  - apply (testbit_high _ w); [apply Hw|lia].
  - destruct (Z.eqb_spec c 0) as [->|]; [apply Z.bits_0|apply Z.bits_above_log2; lia].
  - rewrite Z.lor_spec, IHa, IHb by (done || lia || apply Hw). done.
  - rewrite Z.land_spec. destruct (Z.min_spec (width a) (width b)) as [[? E]|[? E]]; rewrite E in Hle.
    + by rewrite IHa by (done || apply Hw).
    + rewrite (IHb n) by (done || apply Hw). apply andb_false_r.
  - rewrite Z.shiftl_spec by done. destruct (Z.ltb_spec n k); [by rewrite Z.testbit_neg_r by lia|].
    apply IHa; [apply Hw|lia|lia].
  - rewrite Z.shiftr_spec by done. apply IHa; [apply Hw|lia|lia].
  - rewrite testbit_u32 by done. destruct (Z.ltb_spec n 32); simpl; [|done]. apply IHa; [done|done|lia].
Qed.

#[global] Instance sbit_eq_dec : EqDecision sbit.
Proof. solve_decision. Defined.

(** The decision procedure. *)
Definition same_bits (e1 e2 : bexp) : bool :=
  (width e1 <=? 64) && (width e2 <=? 64) &&
  forallb (λ n, bool_decide (bit_of e1 (Z.of_nat n) = bit_of e2 (Z.of_nat n))) (seq 0 64).

Lemma same_bits_sound env e1 e2 :
  same_bits e1 e2 = true → bwf env e1 → bwf env e2 → bdenote env e1 = bdenote env e2.
Proof.
  intros Hs H1 H2. unfold same_bits in Hs. b2p. apply Z.bits_inj'. intros n Hn.
  destruct (Z.ltb_spec n 64).
  - rewrite !bit_of_sound by done. rewrite forallb_forall in H0. specialize (H0 (Z.to_nat n)).
    rewrite in_seq in H0. specialize (H0 ltac:(lia)). b2p. by rewrite !Z2Nat.id in H0 by lia; rewrite H0.
  - rewrite !width_sound; done || lia.
Qed.

Ltac index_of x vars :=
  lazymatch vars with
  | (x, ?w) :: _ => constr:((0%nat, w))
  | _ :: ?vs => let r := index_of x vs in
                lazymatch r with (?i, ?w) => constr:((S i, w)) end
  end.
Ltac reify_bits vars t :=
  lazymatch t with
  | Z.lor ?a ?b => let a := reify_bits vars a in let b := reify_bits vars b in constr:(BOr a b)
  | Z.land ?a ?b => let a := reify_bits vars a in let b := reify_bits vars b in constr:(BAnd a b)
  | Z.shiftl ?a ?k => let a := reify_bits vars a in constr:(BShl a k)
  | Z.shiftr ?a ?k => let a := reify_bits vars a in constr:(BShr a k)
  | uw 32 ?a => let a := reify_bits vars a in constr:(BU32 a)
  | _ => match constr:(()) with
         | _ => let r := index_of t vars in lazymatch r with (?i, ?w) => constr:(BVar i w) end
         | _ => constr:(BConst t)
         end
  end.
(** Prove an equation of the two sides; [vars] lists the variables with their
    widths, whose ranges are hypotheses. *)
Ltac bits_eq vars :=
  lazymatch goal with
  | |- ?x = ?y =>
      let e1 := reify_bits vars x in let e2 := reify_bits vars y in
      let env := eval cbn [fmap list_fmap fst] in (fst <$> vars) in
      apply (same_bits_sound env e1 e2);
      [vm_compute; reflexivity|cbn [bwf nth]; repeat split; (lia || (vm_compute; congruence))..]
  end.
