(* ===== verification/Numbers.v ===== *)
(** * Integer arithmetic and the text of integers

    Models the functions of src/util.c on 64-bit and 32-bit integers: addition,
    subtraction and multiplication with a test for overflow
    ([sqlite3AddInt64], [sqlite3SubInt64], [sqlite3MulInt64]), the absolute
    value, the conversion of text ([sqlite3Atoi64], [compare2pow63],
    [sqlite3GetInt32], [sqlite3Atoi]), and hexadecimal literals
    ([sqlite3HexToInt], [sqlite3HexToBlob]).  A signed operation whose result
    does not fit its type is undefined in C: [Undef SignedOverflow].  Characters
    are their codes as [unsigned char]; the code compares them with ASCII
    characters only, so that the sign of [char] makes no difference. *)

From S2P Require Import Prelude Ctype.
#[local] Open Scope Z_scope.
#[local] Open Scope c_scope.
#[local] Open Scope list_scope.

Definition LARGEST_INT64 : Z := 2 ^ 63 - 1.
Definition SMALLEST_INT64 : Z := - 2 ^ 63.

(** The result of a signed 64-bit operation. *)
Definition chk64 (z : Z) : outcome Z :=
  if (SMALLEST_INT64 <=? z) && (z <=? LARGEST_INT64) then Ret z else Undef SignedOverflow.

(** ** Overflow tests *)

(** The return code and the value of [*pA] afterwards. *)
Definition sqlite3AddInt64 (iA iB : Z) : outcome (Z * Z) :=
  over ← (if 0 <=? iB then
            if 0 <? iA then d ← chk64 (LARGEST_INT64 - iA); Ret (d <? iB) else Ret false
          else
            if iA <? 0 then
              s ← chk64 (iA + LARGEST_INT64); m ← chk64 (- s); b ← chk64 (iB + 1); Ret (b <? m)
            else Ret false);
  if (over : bool) then Ret (1, iA) else r ← chk64 (iA + iB); Ret (0, r).

Definition sqlite3SubInt64 (iA iB : Z) : outcome (Z * Z) :=
  if iB =? SMALLEST_INT64 then
    if 0 <=? iA then Ret (1, iA) else r ← chk64 (iA - iB); Ret (0, r)
  else b ← chk64 (- iB); sqlite3AddInt64 iA b.

Definition TWOPOWER32 : Z := 1 .<< 32.
Definition TWOPOWER31 : Z := 1 .<< 31.

(** The last part of [sqlite3MulInt64], where one high half is zero. *)
Definition mul_cross (iA iA0 iB0 : Z) (r : outcome Z) : outcome (Z * Z) :=
  r ← r;
  if (r <? - TWOPOWER31) || (TWOPOWER31 <=? r) then Ret (1, iA) else
  r ← chk64 (r * TWOPOWER32);
  low ← chk64 (iA0 * iB0);
  '(over, r) ← sqlite3AddInt64 r low;
  Ret (if negb (over =? 0) then (1, iA) else (0, r)).

Definition sqlite3MulInt64 (iA iB : Z) : outcome (Z * Z) :=
  let iA1 := Z.quot iA TWOPOWER32 in
  let iA0 := Z.rem iA TWOPOWER32 in
  let iB1 := Z.quot iB TWOPOWER32 in
  let iB0 := Z.rem iB TWOPOWER32 in
  if iA1 =? 0 then
    if iB1 =? 0 then r ← chk64 (iA * iB); Ret (0, r)
    else mul_cross iA iA0 iB0 (chk64 (iA0 * iB1))
  else if iB1 =? 0 then mul_cross iA iA0 iB0 (chk64 (iA1 * iB0))
  else Ret (1, iA).

Definition sqlite3AbsInt32 (x : Z) : Z :=
  if 0 <=? x then x else if x =? i32 0x80000000 then 0x7fffffff else - x.

(** ** Text to integer *)

Definition SQLITE_UTF8 : Z := 1.
Definition SQLITE_UTF16LE : Z := 2.
Definition SQLITE_UTF16BE : Z := 3.

(** The bytes at even positions. *)
Fixpoint evens (z : list Z) : list Z :=
  match z with
  | [] => []
  | [x] => [x]
  | x :: _ :: z' => x :: evens z'
  end.

(** The number of leading zero bytes of a list. *)
Fixpoint zero_prefix (z : list Z) : nat :=
  match z with 0 :: z' => S (zero_prefix z') | _ => O end.

(** The bytes that the rest of the function visits, those at [zNum],
    [zNum+incr], and so on below [zEnd], and [nonNum].  For UTF-16 the first
    loop runs over the high bytes up to one that is not zero: [k] of them are,
    so that [zEnd] is the [2*k]-th byte.  (A UTF-16 text has an even number
    of bytes.) *)
Definition visible_chars (z : list Z) (enc : Z) : list Z * bool :=
  if enc =? SQLITE_UTF8 then (z, false)
  else
    let high := evens (drop (Z.to_nat (3 - enc)) z) in
    let k := zero_prefix high in
    (evens (drop (Z.to_nat (enc .& 1)) (take (2 * k) z)), bool_decide (k < length high)%nat).

Fixpoint drop_while (f : Z → bool) (z : list Z) : list Z :=
  match z with
  | c :: z' => if f c then drop_while f z' else z
  | [] => []
  end.

(** [neg], and the text after a sign. *)
Definition read_sign (z : list Z) : bool * list Z :=
  match z with
  | c :: z' => if c =? 45 then (true, z') else if c =? 43 then (false, z') else (false, z)
  | [] => (false, z)
  end.

(** The digits at the front and what follows. *)
Fixpoint split_digits (z : list Z) : list Z * list Z :=
  match z with
  | c :: z' => if is_digit c then let '(d, r) := split_digits z' in (c :: d, r) else ([], z)
  | [] => ([], [])
  end.

(** [u = u*10 + c - '0'] on a [u64]. *)
Definition add_digit (u c : Z) : Z := u64 (u * 10 + c - 48).

Definition pow63 : list Z := [57;50;50;51;51;55;50;48;51;54;56;53;52;55;55;53;56;48].

(** [zNum] has at least nineteen characters. *)
Fixpoint compare_prefix (zNum pow : list Z) : Z * list Z :=
  match zNum, pow with
  | z :: zs, p :: ps =>
      let c := (z - p) * 10 in if c =? 0 then compare_prefix zs ps else (c, zs)
  | _, _ => (0, zNum)
  end.
Definition compare2pow63 (zNum : list Z) : Z :=
  let '(c, rest) := compare_prefix zNum pow63 in
  if c =? 0 then match rest with z :: _ => z - 56 | [] => 0 - 56 end else c.

(** The end of [sqlite3Atoi64], from the loop over the digits on: [zStart] is
    the text after the sign and [zNum] the text after the leading zeros. *)
Definition atoi64_finish (neg nonNum : bool) (zStart zNum : list Z) : outcome (Z * Z) :=
  let '(digits, rest) := split_digits zNum in
  let u := foldl add_digit 0 digits in
  let i := Z.of_nat (length digits) in
  let num := if LARGEST_INT64 <? u then if neg then SMALLEST_INT64 else LARGEST_INT64
             else if neg then - u else u in
  if (match rest with c :: _ => negb (c =? 0) | [] => false end)
     || ((i =? 0) && bool_decide (length zStart = length zNum)) || (19 <? i) || nonNum
  then Ret (1, num)
  else if i <? 19 then _ ← c_assert (u <=? LARGEST_INT64); Ret (0, num)
  else
    let c := compare2pow63 zNum in
    if c <? 0 then _ ← c_assert (u <=? LARGEST_INT64); Ret (0, num)
    else if 0 <? c then Ret (1, num)
    else _ ← c_assert (u64 (u - 1) =? LARGEST_INT64); Ret (if neg then 0 else 2, num).

(** The return code and [*pNum]. *)
Definition sqlite3Atoi64 (zNum : list Z) (enc : Z) : outcome (Z * Z) :=
  _ ← c_assert ((enc =? SQLITE_UTF8) || (enc =? SQLITE_UTF16LE) || (enc =? SQLITE_UTF16BE));
  let '(zNum, nonNum) := visible_chars zNum enc in
  let zNum := drop_while sqlite3Isspace zNum in
  let '(neg, zStart) := read_sign zNum in
  atoi64_finish neg nonNum zStart (drop_while (λ c, c =? 48) zStart).

(** [for(i=0; i<11 && ...; i++)]: the digits read, at most eleven. *)
Fixpoint take_digits (n : nat) (z : list Z) : list Z :=
  match n, z with
  | S n', c :: z' => if is_digit c then c :: take_digits n' z' else []
  | _, _ => []
  end.

(** [*pValue] if true is returned. *)
Definition sqlite3GetInt32 (zNum : list Z) : option Z :=
  let '(neg, zNum) := read_sign zNum in
  let digits := take_digits 11 (drop_while (λ c, c =? 48) zNum) in
  let v := foldl (λ v c, v * 10 + (c - 48)) 0 digits in
  if (10 <? Z.of_nat (length digits)) then None
  else if 2147483647 <? v - (if neg then 1 else 0) then None
  else Some (if neg then - v else v).

Definition sqlite3Atoi (z : option (list Z)) : Z :=
  match z with
  | Some z => default 0 (sqlite3GetInt32 z)
  | None => 0
  end.

(** ** Hexadecimal *)

Definition is_hex (h : Z) : bool :=
  ((48 <=? h) && (h <=? 57)) || ((97 <=? h) && (h <=? 102)) || ((65 <=? h) && (h <=? 70)).

Definition sqlite3HexToInt (h : Z) : outcome Z :=
  _ ← c_assert (is_hex h);
  let h := h + 9 * (1 .& (h .>> 6)) in
  Ret (u8 (h .& 0xf)).

(** [for(i=0; i<n; i+=2)] after [n--]: the loop over pairs of characters. *)
Fixpoint hex_pairs (z : list Z) : outcome (list Z) :=
  match z with
  | a :: b :: z' =>
      x ← sqlite3HexToInt a; y ← sqlite3HexToInt b; r ← hex_pairs z'; Ret (u8 ((x .<< 4) .| y) :: r)
  | _ => Ret []
  end.

(** The bytes of the blob before the terminator; [z] are the [n] characters
    before the closing quote.  [None]: out of memory. *)
Definition sqlite3HexToBlob (mem : bool) (z : list Z) : outcome (option (list Z)) :=
  if mem then r ← hex_pairs z; Ret (Some r) else Ret None.

(** ** Overflow tests are exact *)

Definition fits64 (z : Z) : Prop := SMALLEST_INT64 ≤ z ≤ LARGEST_INT64.

#[global] Instance fits64_dec z : Decision (fits64 z).
Proof. unfold fits64. apply _. Defined.

Lemma chk64_ok z : fits64 z → chk64 z = Ret z.
Proof.
  intros [H1 H2]. unfold chk64. by rewrite (proj2 (Z.leb_le _ _) H1), (proj2 (Z.leb_le _ _) H2).
Qed.

Lemma chk64_bad z : ¬ fits64 z → chk64 z = Undef SignedOverflow.
Proof.
  unfold fits64, chk64. intros H. destruct (Z.leb_spec SMALLEST_INT64 z), (Z.leb_spec z LARGEST_INT64); done || lia.
Qed.

(** The exact result, or code 1 and the old value. *)
Definition exact64 (old z : Z) : Z * Z := if decide (fits64 z) then (0, z) else (1, old).

Ltac int64 := unfold exact64, fits64, SMALLEST_INT64, LARGEST_INT64 in *.

(** Run the operation with result [z], which fits. *)
Ltac chk z := rewrite (chk64_ok z) by (int64; lia); cbn [mbind outcome_bind].
(** The exact result, decided by arithmetic. *)
Ltac exact_ok := unfold exact64; (rewrite decide_True by (int64; lia)); done.
Ltac exact_over := unfold exact64; (rewrite decide_False by (int64; lia)); done.

Lemma AddInt64_exact iA iB : fits64 iA → fits64 iB → sqlite3AddInt64 iA iB = Ret (exact64 iA (iA + iB)).
Proof.
  intros HA HB. unfold sqlite3AddInt64. destruct (Z.leb_spec 0 iB).
  - destruct (Z.ltb_spec 0 iA); [|cbn [mbind outcome_bind]; chk (iA + iB); exact_ok].
    chk (LARGEST_INT64 - iA). destruct (Z.ltb_spec (LARGEST_INT64 - iA) iB); [exact_over|].
    chk (iA + iB). exact_ok.
  - destruct (Z.ltb_spec iA 0); [|cbn [mbind outcome_bind]; chk (iA + iB); exact_ok].
    chk (iA + LARGEST_INT64). chk (- (iA + LARGEST_INT64)). chk (iB + 1).
    destruct (Z.ltb_spec (iB + 1) (- (iA + LARGEST_INT64))); [exact_over|]. chk (iA + iB). exact_ok.
Qed.

Lemma SubInt64_exact iA iB : fits64 iA → fits64 iB → sqlite3SubInt64 iA iB = Ret (exact64 iA (iA - iB)).
Proof.
  intros HA HB. unfold sqlite3SubInt64. destruct (Z.eqb_spec iB SMALLEST_INT64) as [->|].
  - destruct (Z.leb_spec 0 iA); [exact_over|]. chk (iA - SMALLEST_INT64). exact_ok.
  - chk (- iB). rewrite AddInt64_exact by (int64; lia). done.
Qed.

(** One of the factors has a zero high half: [r] times [2^32] plus the product
    of the low halves is the product. *)
Lemma mul_cross_exact iA x y r p :
  fits64 iA → fits64 r → (- TWOPOWER31 ≤ r < TWOPOWER31 → fits64 (x * y)) →
  p = r * TWOPOWER32 + x * y → (0 ≤ r → 0 ≤ x * y) → (r ≤ 0 → x * y ≤ 0) →
  mul_cross iA x y (chk64 r) = Ret (exact64 iA p).
Proof.
  intros HA Hr Hxy -> H1 H2. unfold mul_cross. rewrite (chk64_ok r) by done. cbn [mbind outcome_bind].
  change TWOPOWER31 with (2 ^ 31) in *. change TWOPOWER32 with (2 ^ 32) in *.
  destruct (Z.ltb_spec r (- 2 ^ 31)), (Z.leb_spec (2 ^ 31) r); cbn [orb]; [lia|..].
  - exact_over.
  - exact_over.
  - chk (r * 2 ^ 32). rewrite (chk64_ok (x * y)) by (apply Hxy; lia). cbn [mbind outcome_bind].
    rewrite AddInt64_exact by (apply Hxy; lia) || (int64; lia). cbn [mbind outcome_bind].
    unfold exact64. by case_decide.
Qed.

(** Both halves of a number have its sign. *)
Lemma halves a : fits64 a →
  ∃ h l, Z.quot a TWOPOWER32 = h ∧ Z.rem a TWOPOWER32 = l ∧ a = 2 ^ 32 * h + l ∧
    ((0 ≤ h < 2 ^ 31 ∧ 0 ≤ l < 2 ^ 32) ∨ (- 2 ^ 31 ≤ h ≤ 0 ∧ - 2 ^ 32 < l ≤ 0)).
Proof.
  intros Ha. int64. change TWOPOWER32 with (2 ^ 32). eexists _, _. split; [done|]. split; [done|].
  pose proof (Z.quot_rem' a (2 ^ 32)) as E. split; [lia|]. destruct (Z.le_gt_cases 0 a).
  - left. pose proof (Z.rem_bound_pos a (2 ^ 32)). lia.
  - right. pose proof (Z.rem_bound_pos (- a) (2 ^ 32)) as H1. rewrite Z.rem_opp_l' in H1. lia.
Qed.

(** A product of factors at least 1 and below bounds. *)
Lemma cross_bounds x h l :
  - 2 ^ 31 ≤ x * h < 2 ^ 31 → h ≠ 0 →
  (0 ≤ h ∧ 0 ≤ l < 2 ^ 32) ∨ (h ≤ 0 ∧ - 2 ^ 32 < l ≤ 0) → fits64 (x * l).
Proof.
  intros Hr Hh Hl. assert (- 2 ^ 31 ≤ x ≤ 2 ^ 31) by nia. int64. nia.
Qed.

(** C32: Addition and subtraction of 64-bit integers detect overflow exactly:
    the result is stored when it fits and the operand is kept, with code 1,
    otherwise, and no intermediate result overflows. Multiplication does so
    unless both factors are below [2^32] in absolute value, where a product
    that does not fit is not noticed and the signed multiplication
    overflows. *)
Theorem sqlite3Int64_overflow iA iB :
  fits64 iA → fits64 iB →
  sqlite3AddInt64 iA iB = Ret (exact64 iA (iA + iB)) ∧
  sqlite3SubInt64 iA iB = Ret (exact64 iA (iA - iB)) ∧
  sqlite3MulInt64 iA iB =
    if decide (Z.abs iA < 2 ^ 32 ∧ Z.abs iB < 2 ^ 32 ∧ ¬ fits64 (iA * iB))
    then Undef SignedOverflow else Ret (exact64 iA (iA * iB)).
Proof.
  intros HA HB. split; [by apply AddInt64_exact|]. split; [by apply SubInt64_exact|]. unfold sqlite3MulInt64.
  destruct (halves iA HA) as (a1 & a0 & -> & -> & EA & Ha).
  destruct (halves iB HB) as (b1 & b0 & -> & -> & EB & Hb). cbv zeta.
  destruct (Z.eqb_spec a1 0) as [->|Ha1]; [destruct (Z.eqb_spec b1 0) as [->|Hb1]|destruct (Z.eqb_spec b1 0) as [->|Hb1]].
  - destruct (decide (fits64 (iA * iB))) as [Hf|Hf].
    + rewrite decide_False by tauto. rewrite chk64_ok by done. unfold exact64. by rewrite decide_True.
    + rewrite decide_True by (split_and!; [lia|lia|done]). by rewrite chk64_bad.
  - rewrite decide_False by (intros (_ & ? & _); lia).
    apply mul_cross_exact; [done|int64; nia| | |nia|nia].
    { change TWOPOWER31 with (2 ^ 31). intros. by apply (cross_bounds a0 b1); [..|lia]. }
    change TWOPOWER32 with (2 ^ 32). lia.
  - rewrite decide_False by (intros (? & _ & _); lia).
    apply mul_cross_exact; [done|int64; nia| | |nia|nia].
    + change TWOPOWER31 with (2 ^ 31). intros. rewrite Z.mul_comm.
      apply (cross_bounds b0 a1); [lia|done|lia].
    + change TWOPOWER32 with (2 ^ 32). lia.
  - rewrite decide_False by (intros (? & _ & _); lia). unfold exact64. rewrite decide_False; [done|].
    int64. nia.
Qed.

Lemma sqlite3Int64_overflow_witness :
  sqlite3MulInt64 4294967295 4294967295 = Undef SignedOverflow ∧
  sqlite3MulInt64 4294967296 4294967296 = Ret (1, 4294967296) ∧
  sqlite3AddInt64 LARGEST_INT64 1 = Ret (1, LARGEST_INT64).
Proof.
  split_and!; (etransitivity; [apply sqlite3Int64_overflow; int64; lia|reflexivity]).
Defined.

(** ** The value of digits *)

Definition dval (ds : list Z) : Z := foldl (λ v c, v * 10 + (c - 48)) 0 ds.
Definition digits_ok (ds : list Z) : Prop := Forall (λ c, is_digit c = true) ds.

Lemma dval_acc ds : ∀ a, foldl (λ v c, v * 10 + (c - 48)) a ds = a * 10 ^ Z.of_nat (length ds) + dval ds.
Proof.
  unfold dval. induction ds as [|c ds IH]; intros a; cbn [foldl length]; [lia|].
  rewrite IH, (IH (0 * 10 + _)), Nat2Z.inj_succ, Z.pow_succ_r by lia. lia.
Qed.

Lemma dval_cons c ds : dval (c :: ds) = (c - 48) * 10 ^ Z.of_nat (length ds) + dval ds.
Proof. unfold dval at 1. cbn [foldl]. rewrite dval_acc. lia. Qed.

Lemma is_digit_range c : is_digit c = true → 48 ≤ c ≤ 57.
Proof. unfold is_digit. intros H. b2p. lia. Qed.

Lemma dval_bounds ds : digits_ok ds → 0 ≤ dval ds < 10 ^ Z.of_nat (length ds).
Proof.
  induction 1 as [|c ds Hc Hds IH]; [done|]. rewrite dval_cons. cbn [length].
  rewrite Nat2Z.inj_succ, Z.pow_succ_r by lia. apply is_digit_range in Hc. nia.
Qed.

Lemma dval_lower c ds : digits_ok (c :: ds) → c ≠ 48 → 10 ^ Z.of_nat (length ds) ≤ dval (c :: ds).
Proof.
  intros [Hc Hds]%list.Forall_cons Hn. rewrite dval_cons. pose proof (dval_bounds ds Hds).
  apply is_digit_range in Hc. nia.
Qed.

Lemma dval_app a b : dval (a ++ b) = dval a * 10 ^ Z.of_nat (length b) + dval b.
Proof. unfold dval at 1. rewrite foldl_app, dval_acc. done. Qed.

(** The loop computes the value modulo [2^64]. *)
Lemma foldl_add_digit ds : ∀ a v, a = u64 v → foldl add_digit a ds = u64 (foldl (λ v c, v * 10 + (c - 48)) v ds).
Proof.
  induction ds as [|c ds IH]; intros a v ->; cbn [foldl]; [done|]. apply IH. unfold add_digit, uw.
  rewrite <- Z.add_sub_assoc, <- Z.add_mod_idemp_l, Z.mul_mod_idemp_l, Z.add_mod_idemp_l by lia. done.
Qed.

(** ** Comparison with 2^63 *)

Lemma compare_prefix_spec zs : ∀ ps rest c r,
  length zs = length ps → digits_ok zs → digits_ok ps → compare_prefix (zs ++ rest) ps = (c, r) →
  (c = 0 → zs = ps ∧ r = rest) ∧ (c < 0 → dval zs < dval ps) ∧ (0 < c → dval ps < dval zs).
Proof.
  induction zs as [|z zs IH]; intros [|p ps] rest c r Hl Hz Hp E; simplify_eq/=; try done.
  - destruct rest; simplify_eq/=; split_and!; (done || lia).
  - apply list.Forall_cons in Hz as [Hz Hzs], Hp as [Hp Hps]. apply is_digit_range in Hz, Hp.
    rewrite !dval_cons. pose proof (dval_bounds zs Hzs). pose proof (dval_bounds ps Hps).
    rewrite Hl in *. destruct (Z.eqb_spec ((z - p) * 10) 0); simplify_eq.
    + assert (z = p) as -> by lia. destruct (IH ps rest c r) as (H1 & H2 & H3); [done..|].
      split_and!; [intros Hc; destruct (H1 Hc) as [-> ->]; done|lia|lia].
    + split_and!; [lia|nia|nia].
Qed.

Lemma pow63_ok : digits_ok pow63 ∧ dval pow63 = 922337203685477580 ∧ length pow63 = 18%nat.
Proof. split; [repeat constructor|done]. Qed.

(** The sign of the comparison is that of the difference from [2^63]. *)
Lemma compare2pow63_spec ds rest :
  length ds = 19%nat → digits_ok ds →
  let c := compare2pow63 (ds ++ rest) in
  (c < 0 ↔ dval ds < 2 ^ 63) ∧ (0 < c ↔ 2 ^ 63 < dval ds).
Proof.
  intros Hl Hds. destruct (exists_last (l := ds)) as (zs & z & ->); [by intros ->|].
  rewrite length_app in Hl. simpl in Hl. unfold digits_ok in Hds. rewrite Forall_app in Hds.
  destruct Hds as [Hzs Hz]. apply list.Forall_cons in Hz as [Hz _]. apply is_digit_range in Hz.
  destruct pow63_ok as (Hp & Hv & Hpl). unfold compare2pow63. rewrite <- app_assoc.
  destruct (compare_prefix (zs ++ [z] ++ rest) pow63) as [c r] eqn:E.
  destruct (compare_prefix_spec zs pow63 ([z] ++ rest) c r) as (H1 & H2 & H3); [lia|done..|].
  rewrite dval_app. cbn [length]. change (10 ^ Z.of_nat 1) with 10. rewrite (dval_cons z []).
  change (dval []) with 0. change (10 ^ Z.of_nat (length (@nil Z))) with 1.
  destruct (Z.eqb_spec c 0) as [->|Hc].
  - destruct (H1 eq_refl) as [-> ->]. cbn [app]. rewrite Hv. lia.
  - rewrite Hv in *. lia.
Qed.

(** ** Splitting the text *)

Lemma drop_while_all f a b : Forall (λ c, f c = true) a → drop_while f (a ++ b) = drop_while f b.
Proof. induction 1 as [|c a Hc _ IH]; [done|]. cbn [app drop_while]. by rewrite Hc. Qed.

Lemma drop_while_stop f z : match z with c :: _ => f c = false | [] => True end → drop_while f z = z.
Proof. destruct z as [|c z]; [done|]. cbn [drop_while]. by intros ->. Qed.

Definition no_digit (z : list Z) : Prop := match z with c :: _ => is_digit c = false | [] => True end.

Lemma split_digits_app ds rest : digits_ok ds → no_digit rest → split_digits (ds ++ rest) = (ds, rest).
Proof.
  intros Hd Hr. induction Hd as [|c ds Hc _ IH]; cbn [app split_digits].
  - destruct rest as [|c rest]; [done|]. cbn [split_digits]. by rewrite Hr.
  - by rewrite Hc, IH.
Qed.

(** The leading zeros of a number do not count. *)
Lemma skip_zeros ds rest :
  digits_ok ds → no_digit rest →
  ∃ k ds', ds = replicate k 48 ++ ds' ∧ drop_while (λ c, c =? 48) (ds ++ rest) = ds' ++ rest ∧
    dval ds = dval ds' ∧ match ds' with c :: _ => c ≠ 48 | [] => True end.
Proof.
  intros Hd Hr. induction Hd as [|c ds Hc Hds IH].
  - exists 0%nat, []. split_and!; try done. apply drop_while_stop. destruct rest as [|c rest]; [done|].
    apply Z.eqb_neq. intros ->. done.
  - cbn [app drop_while]. destruct (Z.eqb_spec c 48) as [->|Hn].
    + destruct IH as (k & ds' & -> & E & Hv & Hh). exists (S k), ds'. split_and!; done.
    + exists 0%nat, (c :: ds). done.
Qed.

Lemma digit_not_space c : is_digit c = true → sqlite3Isspace c = false.
Proof.
  intros Hc%is_digit_range. rewrite isspace_range by lia.
  destruct (Z.eqb_spec c 32), (Z.leb_spec 9 c), (Z.leb_spec c 13); lia || done.
Qed.

(** The sign at the front of the text. *)
Inductive sign_text : list Z → bool → Prop :=
  | SignNone : sign_text [] false
  | SignPlus : sign_text [43] false
  | SignMinus : sign_text [45] true.

Definition signed (neg : bool) (v : Z) : Z := if neg then - v else v.

(** The nearest 64-bit integer. *)
Definition clamp64 (v : Z) : Z := Z.max SMALLEST_INT64 (Z.min LARGEST_INT64 v).

(** The return code for a number [v] followed by [rest]. *)
Definition atoi64_code (v : Z) (rest : list Z) : Z :=
  if (match rest with c :: _ => negb (c =? 0) | [] => false end) then 1
  else if decide (fits64 v) then 0 else if v =? 2 ^ 63 then 2 else 1.

Lemma u64_small v : 0 ≤ v < 2 ^ 64 → u64 v = v.
Proof. intros. unfold uw. by apply Z.mod_small. Qed.

(** A number that fits twenty digits is accumulated without wrapping. *)
Lemma atoi64_num (neg : bool) v :
  0 ≤ v < 2 ^ 64 →
  (if LARGEST_INT64 <? v then if neg then SMALLEST_INT64 else LARGEST_INT64 else if neg then - v else v)
  = clamp64 (signed neg v).
Proof.
  intros Hs. unfold clamp64, signed. int64. destruct (Z.ltb_spec (2 ^ 63 - 1) v), neg; lia.
Qed.

Lemma atoi64_code_end v rest :
  match rest with c :: _ => negb (c =? 0) | [] => false end = false →
  atoi64_code v rest = if decide (fits64 v) then 0 else if v =? 2 ^ 63 then 2 else 1.
Proof. unfold atoi64_code. by intros ->. Qed.

(** The end of the conversion, for a number that is there. *)
Lemma atoi64_finish_spec neg zStart ds rest :
  digits_ok ds → match ds with c :: _ => c ≠ 48 | [] => True end → no_digit rest →
  (ds = [] → length zStart ≠ length rest) →
  ∃ num, atoi64_finish neg false zStart (ds ++ rest) = Ret (atoi64_code (signed neg (dval ds)) rest, num) ∧
    (dval ds < 2 ^ 64 → num = clamp64 (signed neg (dval ds))).
Proof.
  intros Hd Hh Hr Hz. unfold atoi64_finish. rewrite split_digits_app by done.
  rewrite (foldl_add_digit ds 0 0) by done. fold (dval ds). set (v := dval ds). cbv zeta.
  set (num := if LARGEST_INT64 <? u64 v then _ else _). exists num.
  pose proof (dval_bounds ds Hd) as Hv. fold v in Hv. set (i := Z.of_nat (length ds)) in *.
  assert ((i =? 0) && bool_decide (length zStart = length (ds ++ rest)) = false) as ->.
  { destruct ds as [|c ds]; [|by destruct (Z.eqb_spec i 0); [subst i; simpl in *; lia|]].
    cbn [app]. rewrite bool_decide_false by auto. apply andb_false_r. }
  split; [|intros Hs; subst num; rewrite u64_small by lia; apply atoi64_num; lia].
  destruct (match rest with c :: _ => negb (c =? 0) | [] => false end) eqn:Er.
  { cbn [orb]. unfold atoi64_code. by rewrite Er. }
  cbn [orb]. rewrite orb_false_r, atoi64_code_end by done. destruct (Z.ltb_spec 19 i) as [Hi|Hi].
  { assert (10 ^ 19 ≤ v) as Hlow.
    { destruct ds as [|c ds]; [subst i; simpl in Hi; lia|]. etransitivity; [|by apply dval_lower].
      apply Z.pow_le_mono_r; subst i; simpl in Hi; lia. }
    do 2 f_equal. unfold signed. rewrite decide_False by (int64; destruct neg; lia).
    destruct (Z.eqb_spec (if neg then - v else v) (2 ^ 63)); destruct neg; lia || done. }
  assert (10 ^ i ≤ 10 ^ 19) by (apply Z.pow_le_mono_r; lia).
  subst num. rewrite !u64_small by lia. unfold signed. destruct (Z.ltb_spec i 19) as [Hi'|Hi'].
  { assert (10 ^ i ≤ 10 ^ 18) by (apply Z.pow_le_mono_r; lia).
    rewrite (proj2 (Z.leb_le v LARGEST_INT64)) by (int64; lia). cbn [c_assert mbind outcome_bind].
    do 2 f_equal. rewrite decide_True; [done|]. int64. destruct neg; lia. }
  destruct (compare2pow63_spec ds rest) as [Hc1 Hc2]; [subst i; lia|done|]. fold v in Hc1, Hc2.
  destruct (Z.ltb_spec (compare2pow63 (ds ++ rest)) 0) as [Hc|Hc]; [|destruct (Z.ltb_spec 0 (compare2pow63 (ds ++ rest))) as [Hc'|Hc']].
  - rewrite (proj2 (Z.leb_le v LARGEST_INT64)) by (int64; lia). cbn [c_assert mbind outcome_bind].
    do 2 f_equal. rewrite decide_True; [done|]. int64. destruct neg; lia.
  - do 2 f_equal. rewrite decide_False by (int64; destruct neg; lia).
    destruct (Z.eqb_spec (if neg then - v else v) (2 ^ 63)); destruct neg; lia || done.
  - assert (v = 2 ^ 63) as -> by lia. rewrite u64_small by lia. cbn [c_assert mbind outcome_bind Z.eqb].
    destruct neg; reflexivity.
Qed.

Lemma sign_digits_no_space sgn neg ds rest :
  sign_text sgn neg → digits_ok ds → ds ≠ [] →
  drop_while sqlite3Isspace (sgn ++ ds ++ rest) = sgn ++ ds ++ rest.
Proof.
  intros Hs Hd Hn. apply drop_while_stop. destruct Hs; [|done..].
  destruct Hd as [|c ds Hc Hds]; [done|]. by apply digit_not_space.
Qed.

Lemma read_sign_spec sgn neg ds rest :
  sign_text sgn neg → digits_ok ds → ds ≠ [] → read_sign (sgn ++ ds ++ rest) = (neg, ds ++ rest).
Proof.
  intros Hs Hd Hn. destruct Hs; [|done..]. destruct Hd as [|c ds Hc Hds]; [done|].
  apply is_digit_range in Hc. cbn [app read_sign].
  destruct (Z.eqb_spec c 45), (Z.eqb_spec c 43); lia || done.
Qed.

(** The UTF-16 encodings of a text of 8-bit characters. *)
Definition utf16le (s : list Z) : list Z := s ≫= λ c, [c; 0].
Definition utf16be (s : list Z) : list Z := s ≫= λ c, [0; c].

Lemma evens_le s : evens (utf16le s) = s.
Proof. unfold utf16le. induction s as [|c s IH]; [done|]. cbn. by rewrite IH. Qed.
Lemma evens_be s : evens (utf16be s) = replicate (length s) 0.
Proof. unfold utf16be. induction s as [|c s IH]; [done|]. cbn. by rewrite IH. Qed.
Lemma evens_le_tail s : evens (drop 1 (utf16le s)) = replicate (length s) 0.
Proof.
  unfold utf16le. induction s as [|c s IH]; [done|]. destruct s as [|d s]; [done|].
  cbn in *. by rewrite IH.
Qed.
Lemma evens_be_tail s : evens (drop 1 (utf16be s)) = s.
Proof.
  unfold utf16be. induction s as [|c s IH]; [done|]. destruct s as [|d s]; [done|].
  cbn in *. by rewrite IH.
Qed.
Lemma zero_prefix_replicate n : zero_prefix (replicate n 0) = n.
Proof. induction n as [|n IH]; [done|]. simpl. by rewrite IH. Qed.

Lemma length_utf16 s : length (utf16le s) = (2 * length s)%nat ∧ length (utf16be s) = (2 * length s)%nat.
Proof. unfold utf16le, utf16be. induction s as [|c s [IH1 IH2]]; [done|]. cbn in *. lia. Qed.

Lemma visible_chars_utf16 s :
  visible_chars (utf16le s) SQLITE_UTF16LE = (s, false) ∧ visible_chars (utf16be s) SQLITE_UTF16BE = (s, false).
Proof.
  destruct (length_utf16 s) as [H1 H2]. unfold visible_chars.
  cbn [Z.eqb SQLITE_UTF16LE SQLITE_UTF16BE SQLITE_UTF8 Pos.eqb].
  change (Z.to_nat (3 - 2)) with 1%nat. change (Z.to_nat (3 - 3)) with 0%nat.
  change (Z.to_nat (2 .& 1)) with 0%nat. change (Z.to_nat (3 .& 1)) with 1%nat. rewrite !drop_0.
  rewrite evens_le_tail, evens_be, !zero_prefix_replicate, !length_replicate, !take_ge by lia.
  rewrite evens_le, evens_be_tail, bool_decide_false by lia. done.
Qed.

(** [sqlite3Atoi64] on a text of white space, an optional sign, digits and
    a rest: the code is 0 exactly for a number within 64 bits that ends the
    text (or is followed by a NUL), 2 for [+2^63], and 1 otherwise; the value
    stored is the number, clamped to 64 bits, if it is below [2^64].  No
    assertion fails.  A UTF-16 text is converted like the same UTF-8 text. *)
Theorem sqlite3Atoi64_value sp sgn neg ds rest :
  Forall (λ c, sqlite3Isspace c = true) sp → sign_text sgn neg → digits_ok ds → ds ≠ [] → no_digit rest →
  let z := sp ++ sgn ++ ds ++ rest in
  let v := signed neg (dval ds) in
  ∃ num, sqlite3Atoi64 z SQLITE_UTF8 = Ret (atoi64_code v rest, num) ∧
    (dval ds < 2 ^ 64 → num = clamp64 v) ∧
    sqlite3Atoi64 (utf16le z) SQLITE_UTF16LE = sqlite3Atoi64 z SQLITE_UTF8 ∧
    sqlite3Atoi64 (utf16be z) SQLITE_UTF16BE = sqlite3Atoi64 z SQLITE_UTF8.
Proof.
  intros Hsp Hs Hd Hn Hr z v.
  assert (sqlite3Atoi64 (utf16le z) SQLITE_UTF16LE = sqlite3Atoi64 z SQLITE_UTF8 ∧
          sqlite3Atoi64 (utf16be z) SQLITE_UTF16BE = sqlite3Atoi64 z SQLITE_UTF8) as [-> ->].
  { destruct (visible_chars_utf16 z) as [E1 E2]. unfold sqlite3Atoi64. by rewrite E1, E2. }
  destruct (skip_zeros ds rest Hd Hr) as (k & ds' & E & Ez & Ev & Hh). subst v. rewrite Ev.
  destruct (atoi64_finish_spec neg (ds ++ rest) ds' rest) as (num & En & Hnum); [|done..| |].
  - subst ds. apply Forall_app in Hd. apply Hd.
  - intros ->. rewrite app_nil_r in E. subst ds. rewrite length_app. destruct k; [done|]. simpl. lia.
  - exists num. split; [|done]. rewrite <- En. unfold sqlite3Atoi64, visible_chars. cbn [c_assert mbind outcome_bind Z.eqb SQLITE_UTF8 Pos.eqb orb].
    subst z. rewrite drop_while_all by done. erewrite sign_digits_no_space by done.
    erewrite read_sign_spec by done. by rewrite Ez.
Qed.

Lemma sqlite3Atoi64_value_witness :
  sqlite3Atoi64 [32; 45; 48; 57;50;50;51;51;55;50;48;51;54;56;53;52;55;55;53;56;48;56] SQLITE_UTF8
    = Ret (0, SMALLEST_INT64).
Proof.
  destruct (sqlite3Atoi64_value [32] [45] true [48; 57;50;50;51;51;55;50;48;51;54;56;53;52;55;55;53;56;48;56] [])
    as (num & E & H & _); [repeat constructor..|done|done|].
  etransitivity; [exact E|]. rewrite H; reflexivity.
Defined.

(** ** Short numbers *)

Lemma take_digits_spec n ds rest :
  digits_ok ds → no_digit rest → take_digits n (ds ++ rest) = take n ds.
Proof.
  intros Hd Hr. revert n. induction Hd as [|c ds Hc _ IH]; intros [|n]; try done.
  - destruct rest as [|c rest]; [done|]. cbn. by rewrite Hr.
  - cbn [app take_digits take]. rewrite Hc. by rewrite IH.
Qed.

(** [sqlite3GetInt32] accepts exactly the numbers of 32 bits. *)
Lemma sqlite3GetInt32_value sgn neg ds rest :
  sign_text sgn neg → digits_ok ds → ds ≠ [] → no_digit rest →
  let v := signed neg (dval ds) in
  sqlite3GetInt32 (sgn ++ ds ++ rest) = if decide (- 2 ^ 31 ≤ v < 2 ^ 31) then Some v else None.
Proof.
  intros Hs Hd Hn Hr v. unfold sqlite3GetInt32. erewrite read_sign_spec by done.
  destruct (skip_zeros ds rest Hd Hr) as (k & ds' & E & -> & Ev & Hh). subst v. rewrite Ev.
  assert (digits_ok ds') as Hd' by (subst ds; apply Forall_app in Hd; apply Hd).
  rewrite take_digits_spec by done. pose proof (dval_bounds ds' Hd') as Hb. unfold signed.
  destruct (Z.ltb_spec 10 (Z.of_nat (length (take 11 ds')))) as [Hl|Hl]; rewrite length_take in Hl.
  - assert (10 ^ 10 ≤ dval ds').
    { destruct ds' as [|c ds']; [simpl in Hl; lia|]. etransitivity; [|by apply dval_lower].
      apply Z.pow_le_mono_r; cbn [length] in Hl; lia. }
    rewrite decide_False; [done|]. destruct neg; lia.
  - rewrite take_ge by lia. fold (dval ds').
    destruct (Z.ltb_spec 2147483647 (dval ds' - (if neg then 1 else 0))).
    + rewrite decide_False; [done|]. destruct neg; lia.
    + rewrite decide_True; [done|]. destruct neg; lia.
Qed.

(** ** Hexadecimal *)

(** The value of a hexadecimal digit. *)
Definition hex_value (h : Z) : Z :=
  if h <=? 57 then h - 48 else if h <=? 70 then h - 55 else h - 87.

Lemma sqlite3HexToInt_value h : is_hex h = true → sqlite3HexToInt h = Ret (hex_value h).
Proof.
  intros H. unfold sqlite3HexToInt. rewrite H. cbn [c_assert mbind outcome_bind]. f_equal.
  assert (0 ≤ h < 256) as Hr by (unfold is_hex in H; rewrite !orb_true_iff in H; naive_solver (b2p; lia)).
  apply Z.eqb_eq. assert (negb (is_hex h) || (u8 ((h + 9 * (1 .& (h .>> 6))) .& 0xf) =? hex_value h) = true) as E
    by (apply (byte_cases (λ h, negb (is_hex h) || (u8 ((h + 9 * (1 .& (h .>> 6))) .& 0xf) =? hex_value h)));
        [reflexivity|done]).
  by rewrite H in E.
Qed.
