(* ===== verification/Utf.v ===== *)
(** * Unicode encodings

    Models src/utf.c: reading and writing characters in UTF-8 and UTF-16
    ([READ_UTF8], [sqlite3Utf8Read], [WRITE_UTF8] and the UTF-16 macros), the
    translation of a text between encodings ([sqlite3VdbeMemTranslate]), the
    length in characters ([sqlite3Utf8CharLen]); and the macro
    [SQLITE_SKIP_UTF8] of src/sqliteInt.h. *)

From S2P Require Import Prelude Bits Numbers.
#[local] Open Scope Z_scope.
#[local] Open Scope c_scope.
#[local] Open Scope list_scope.

Definition sqlite3Utf8Trans1 : list Z :=
  [0x00; 0x01; 0x02; 0x03; 0x04; 0x05; 0x06; 0x07; 0x08; 0x09; 0x0a; 0x0b; 0x0c; 0x0d; 0x0e; 0x0f;
   0x10; 0x11; 0x12; 0x13; 0x14; 0x15; 0x16; 0x17; 0x18; 0x19; 0x1a; 0x1b; 0x1c; 0x1d; 0x1e; 0x1f;
   0x00; 0x01; 0x02; 0x03; 0x04; 0x05; 0x06; 0x07; 0x08; 0x09; 0x0a; 0x0b; 0x0c; 0x0d; 0x0e; 0x0f;
   0x00; 0x01; 0x02; 0x03; 0x04; 0x05; 0x06; 0x07; 0x00; 0x01; 0x02; 0x03; 0x00; 0x01; 0x00; 0x00].

(** [(zIn[0] & 0xc0)==0x80] *)
Definition is_cont (b : Z) : bool := b .& 0xc0 =? 0x80.

(** [c = (c<<6) + (0x3f & b)] on an [unsigned int] *)
Definition add_cont (c b : Z) : Z := u32 (u32 (c .<< 6) + (0x3f .& b)).

(** Values that may not be encoded in several bytes. *)
Definition check_char (c : Z) : Z :=
  if (c <? 0x80) || (c .& 0xFFFFF800 =? 0xD800) || (c .& 0xFFFFFFFE =? 0xFFFE) then 0xFFFD else c.

Definition trans1 (c : Z) : Z := nth (Z.to_nat (c - 0xc0)) sqlite3Utf8Trans1 0.

(** ** Reading *)

(** The continuation bytes up to the end of the text. *)
Fixpoint read_conts (c : Z) (z : list Z) : Z * list Z :=
  match z with
  | b :: z' => if is_cont b then read_conts (add_cont c b) z' else (c, z)
  | [] => (c, [])
  end.

(** [READ_UTF8], on the bytes before [zTerm], of which there is one. *)
Definition READ_UTF8 (z : list Z) : option (Z * list Z) :=
  match z with
  | [] => None
  | c :: z' =>
      if 0xc0 <=? c then
        let '(c, z'') := read_conts (trans1 c) z' in Some (check_char c, z'')
      else Some (c, z')
  end.

(** [sqlite3Utf8Read] relies on a terminating zero: running past the bytes of
    the object is [None]. *)
Fixpoint read_conts_term (c : Z) (z : list Z) : option (Z * list Z) :=
  match z with
  | b :: z' => if is_cont b then read_conts_term (add_cont c b) z' else Some (c, z)
  | [] => None
  end.

Definition sqlite3Utf8Read (z : list Z) : option (Z * list Z) :=
  match z with
  | [] => None
  | c :: z' =>
      if 0xc0 <=? c then
        '(c, z'') ← read_conts_term (trans1 c) z'; Some (check_char c, z'')
      else Some (c, z')
  end.

Fixpoint skip_conts (z : list Z) : option (list Z) :=
  match z with
  | b :: z' => if is_cont b then skip_conts z' else Some z
  | [] => None
  end.

Definition SQLITE_SKIP_UTF8 (z : list Z) : option (list Z) :=
  match z with
  | [] => None
  | c :: z' => if 0xc0 <=? c then skip_conts z' else Some z'
  end.

(** The next byte plus the one after it shifted, or the other way around. *)
Definition unit16 (be : bool) (a b : Z) : Z := if be then (a .<< 8) + b else a + (b .<< 8).

(** [READ_UTF16LE] and [READ_UTF16BE] with [TERM] meaning that bytes are left;
    a character is read from at least two bytes, and a second half from two
    more. *)
Definition READ_UTF16 (be : bool) (z : list Z) : option (Z * list Z) :=
  match z with
  | a :: b :: z' =>
      let c := unit16 be a b in
      if (0xD800 <=? c) && (c <? 0xE000) then
        match z' with
        | [] => Some (c, [])
        | a2 :: b2 :: z'' =>
            let c2 := unit16 be a2 b2 in
            Some ((c2 .& 0x03FF) + ((c .& 0x003F) .<< 10) + (((c .& 0x03C0) + 0x0040) .<< 10), z'')
        | _ => None
        end
      else Some (c, z')
  | _ => None
  end.

(** ** Writing *)

Definition WRITE_UTF8 (c : Z) : list Z :=
  if c <? 0x00080 then [u8 (c .& 0xFF)]
  else if c <? 0x00800 then [0xC0 + u8 ((c .>> 6) .& 0x1F); 0x80 + u8 (c .& 0x3F)]
  else if c <? 0x10000 then
    [0xE0 + u8 ((c .>> 12) .& 0x0F); 0x80 + u8 ((c .>> 6) .& 0x3F); 0x80 + u8 (c .& 0x3F)]
  else
    [0xF0 + u8 ((c .>> 18) .& 0x07); 0x80 + u8 ((c .>> 12) .& 0x3F);
     0x80 + u8 ((c .>> 6) .& 0x3F); 0x80 + u8 (c .& 0x3F)].

(** The two bytes of a unit in the order of the encoding. *)
Definition bytes16 (be : bool) (lo hi : Z) : list Z := if be then [hi; lo] else [lo; hi].

Definition WRITE_UTF16 (be : bool) (c : Z) : list Z :=
  if c <=? 0xFFFF then bytes16 be (u8 (c .& 0x00FF)) (u8 ((c .>> 8) .& 0x00FF))
  else
    bytes16 be (u8 (((c .>> 10) .& 0x003F) + (((c - 0x10000) .>> 10) .& 0x00C0)))
               (u8 (0x00D8 + (((c - 0x10000) .>> 18) .& 0x03))) ++
    bytes16 be (u8 (c .& 0x00FF)) (u8 (0x00DC + ((c .>> 8) .& 0x03))).

(** ** Translation *)

(** [while( zIn<zTerm )]: characters are read and written until the input
    ends. *)
Fixpoint translate_loop (read : list Z → option (Z * list Z)) (write : Z → list Z)
    (fuel : nat) (z : list Z) : option (list Z) :=
  match z with
  | [] => Some []
  | _ =>
      match fuel with
      | O => None
      | S fuel' =>
          '(c, z') ← read z;
          out ← translate_loop read write fuel' z';
          Some (write c ++ out)
      end
  end.

Fixpoint swap_bytes (z : list Z) : list Z :=
  match z with
  | a :: b :: z' => b :: a :: swap_bytes z'
  | _ => z
  end.

(** [pMem->n &= ~1] *)
Definition even_length (z : list Z) : list Z := take (2 * (length z / 2))%nat z.

(** [sqlite3VdbeMemTranslate] on the [n] bytes of a text in encoding [enc]; the
    terminators are not part of the result.  The last assertion compares the
    space used with the space allocated. *)
Definition sqlite3VdbeMemTranslate (enc desiredEnc : Z) (z : list Z) : option (list Z) :=
  if enc =? desiredEnc then None
  else if negb (enc =? SQLITE_UTF8) && negb (desiredEnc =? SQLITE_UTF8) then Some (swap_bytes z)
  else
    let z := if desiredEnc =? SQLITE_UTF8 then even_length z else z in
    let len := Z.of_nat (length z) * 2 + (if desiredEnc =? SQLITE_UTF8 then 1 else 2) in
    out ← (if enc =? SQLITE_UTF8
           then translate_loop READ_UTF8 (WRITE_UTF16 (desiredEnc =? SQLITE_UTF16BE)) (length z) z
           else translate_loop (READ_UTF16 (enc =? SQLITE_UTF16BE)) WRITE_UTF8 (length z) z);
    if Z.of_nat (length out) + (if desiredEnc =? SQLITE_UTF8 then 1 else 2) <=? len then Some out else None.

(** [sqlite3Utf8CharLen] with a negative [nByte], on a terminated text. *)
Fixpoint char_len_loop (fuel : nat) (z : list Z) (r : Z) : option Z :=
  match fuel with
  | O => None
  | S fuel' =>
      b ← head z;
      if b =? 0 then Some r else z' ← SQLITE_SKIP_UTF8 z; char_len_loop fuel' z' (r + 1)
  end.
Definition sqlite3Utf8CharLen (z : list Z) : option Z := char_len_loop (length z) z 0.

(** ** Characters *)

(** The characters that every encoding represents. *)
Definition char_ok (c : Z) : Prop :=
  0 ≤ c < 0xD800 ∨ 0xE000 ≤ c < 0xFFFE ∨ 0x10000 ≤ c < 0x110000.

Definition no_cont (z : list Z) : Prop := match z with b :: _ => is_cont b = false | [] => True end.

(** Masks of low bits and shifts as remainders and quotients. *)
Lemma land_low z k m : m = Z.ones k → 0 ≤ k → z .& m = z mod 2 ^ k.
Proof. intros -> Hk. by apply Z.land_ones. Qed.

Ltac to_div :=
  rewrite ?(land_low _ 6 0x3F), ?(land_low _ 5 0x1F), ?(land_low _ 4 0x0F), ?(land_low _ 3 0x07),
    ?(land_low _ 8 0xFF), ?(land_low _ 2 0x03), ?(land_low _ 10 0x3FF), ?Z.shiftr_div_pow2, ?Z.shiftl_mul_pow2 by done;
  unfold uw;
  change (2 ^ 2) with 4 in *; change (2 ^ 3) with 8 in *; change (2 ^ 4) with 16 in *;
  change (2 ^ 5) with 32 in *; change (2 ^ 6) with 64 in *; change (2 ^ 8) with 256 in *;
  change (2 ^ 10) with 1024 in *; change (2 ^ 12) with 4096 in *; change (2 ^ 18) with 262144 in *;
  change (2 ^ 32) with 4294967296 in *.

Lemma is_cont_made x : is_cont (0x80 + x mod 64) = true.
Proof.
  assert (0 ≤ x mod 64 < 64) by (apply Z.mod_pos_bound; lia). generalize dependent (x mod 64). intros b Hb.
  assert ((64 <=? b) || is_cont (0x80 + b) = true) as E
    by (apply (byte_cases (λ b, (64 <=? b) || is_cont (0x80 + b))); [reflexivity|lia]).
  destruct (Z.leb_spec 64 b); [lia|done].
Qed.

Lemma add_cont_made c x : 0 ≤ c < 2 ^ 26 → add_cont c (0x80 + x mod 64) = c * 64 + x mod 64.
Proof.
  intros Hc. unfold add_cont. rewrite Z.land_comm. to_div.
  assert (0 ≤ x mod 64 < 64) by (apply Z.mod_pos_bound; lia). generalize dependent (x mod 64). intros b Hb.
  assert ((0x80 + b) mod 64 = b) as -> by (Z.div_mod_to_equations; lia).
  rewrite (Z.mod_small (c * 64)) by lia. apply Z.mod_small. lia.
Qed.

Lemma trans1_made k x : (k, x) ∈ [(0xC0, 32); (0xE0, 16); (0xF0, 8)] → ∀ y, 0 ≤ y < x → trans1 (k + y) = y.
Proof.
  intros H y Hy. assert (0 ≤ y < 256) as Hb by (rewrite !list.elem_of_cons, list.elem_of_nil in H; naive_solver lia).
  apply Z.eqb_eq.
  assert ((x <=? y) || (trans1 (k + y) =? y) = true) as E.
  { rewrite !list.elem_of_cons, list.elem_of_nil in H. destruct H as [E|[E|[E|[]]]]; inversion E; subst.
    - by apply (byte_cases (λ y, (32 <=? y) || (trans1 (0xC0 + y) =? y))).
    - by apply (byte_cases (λ y, (16 <=? y) || (trans1 (0xE0 + y) =? y))).
    - by apply (byte_cases (λ y, (8 <=? y) || (trans1 (0xF0 + y) =? y))). }
  destruct (Z.leb_spec x y); [lia|done].
Qed.

(** ** UTF-8 round trip *)

Lemma high_mask c : 0 ≤ c < 2 ^ 32 → c .& 0xFFFFF800 = (c / 2048) * 2048 ∧ c .& 0xFFFFFFFE = (c / 2) * 2.
Proof.
  intros Hc. split.
  - replace (c .& 0xFFFFF800) with ((c .>> 11) .<< 11) by bits_eq [(c, 32)].
    by rewrite Z.shiftl_mul_pow2, Z.shiftr_div_pow2 by lia.
  - replace (c .& 0xFFFFFFFE) with ((c .>> 1) .<< 1) by bits_eq [(c, 32)].
    by rewrite Z.shiftl_mul_pow2, Z.shiftr_div_pow2 by lia.
Qed.

Lemma check_char_ok c : char_ok c → 0x80 ≤ c → check_char c = c.
Proof.
  intros Hc Hl. unfold check_char. destruct (high_mask c) as [-> ->]; [unfold char_ok in Hc; lia|].
  destruct (Z.ltb_spec c 0x80); [lia|].
  destruct (Z.eqb_spec (c / 2048 * 2048) 0xD800), (Z.eqb_spec (c / 2 * 2) 0xFFFE); try done;
    unfold char_ok in Hc; Z.div_mod_to_equations; lia.
Qed.

Lemma read_conts_made c x z : 0 ≤ c < 2 ^ 26 → read_conts c ((0x80 + x mod 64) :: z) = read_conts (c * 64 + x mod 64) z.
Proof. intros Hc. cbn [read_conts]. by rewrite is_cont_made, add_cont_made. Qed.

Lemma read_conts_end c z : no_cont z → read_conts c z = (c, z).
Proof. destruct z as [|b z]; [done|]. cbn. by intros ->. Qed.

(** What [WRITE_UTF8] writes, arithmetically. *)
Lemma WRITE_UTF8_div c : 0 ≤ c →
  WRITE_UTF8 c =
    if c <? 0x80 then [c]
    else if c <? 0x800 then [0xC0 + (c / 64) mod 32; 0x80 + c mod 64]
    else if c <? 0x10000 then [0xE0 + (c / 4096) mod 16; 0x80 + (c / 64) mod 64; 0x80 + c mod 64]
    else [0xF0 + (c / 262144) mod 8; 0x80 + (c / 4096) mod 64; 0x80 + (c / 64) mod 64; 0x80 + c mod 64].
Proof.
  intros Hc. unfold WRITE_UTF8. to_div.
  assert (∀ x k, 0 < k ≤ 256 → (x mod k) mod 256 = x mod k) as Hm.
  { intros x k Hk. apply Z.mod_small. pose proof (Z.mod_pos_bound x k). lia. }
  rewrite !Hm by lia. destruct (Z.ltb_spec c 128); [|done]. by rewrite Z.mod_small by lia.
Qed.

Lemma lead_byte k x y : (k, x) ∈ [(0xC0, 32); (0xE0, 16); (0xF0, 8)] → 0 ≤ y < x → (0xc0 <=? k + y) = true.
Proof.
  intros H Hy. rewrite !list.elem_of_cons, list.elem_of_nil in H. apply Z.leb_le. naive_solver lia.
Qed.

Lemma READ_WRITE_UTF8 c rest : char_ok c → no_cont rest → READ_UTF8 (WRITE_UTF8 c ++ rest) = Some (c, rest).
Proof.
  intros Hc Hr. assert (0 ≤ c < 0x110000) as Hb by (unfold char_ok in Hc; lia).
  rewrite WRITE_UTF8_div by lia. destruct (Z.ltb_spec c 0x80).
  { cbn [app READ_UTF8]. destruct (Z.leb_spec 0xc0 c); [lia|done]. }
  destruct (Z.ltb_spec c 0x800); [|destruct (Z.ltb_spec c 0x10000)]; cbn [app READ_UTF8].
  - assert (0 ≤ (c / 64) mod 32 < 32) by (apply Z.mod_pos_bound; lia).
    rewrite (lead_byte 0xC0 32), (trans1_made 0xC0 32) by (done || set_solver).
    rewrite read_conts_made, read_conts_end by (done || lia).
    replace ((c / 64) mod 32 * 64 + c mod 64) with c by (Z.div_mod_to_equations; lia).
    by rewrite check_char_ok.
  - assert (0 ≤ (c / 4096) mod 16 < 16) by (apply Z.mod_pos_bound; lia).
    assert (0 ≤ (c / 64) mod 64 < 64) by (apply Z.mod_pos_bound; lia).
    rewrite (lead_byte 0xE0 16), (trans1_made 0xE0 16) by (done || set_solver).
    rewrite !read_conts_made, read_conts_end by (done || lia).
    replace (((c / 4096) mod 16 * 64 + (c / 64) mod 64) * 64 + c mod 64) with c by (Z.div_mod_to_equations; lia).
    rewrite check_char_ok by (done || lia). done.
  - assert (0 ≤ (c / 262144) mod 8 < 8) by (apply Z.mod_pos_bound; lia).
    assert (0 ≤ (c / 4096) mod 64 < 64) by (apply Z.mod_pos_bound; lia).
    assert (0 ≤ (c / 64) mod 64 < 64) by (apply Z.mod_pos_bound; lia).
    rewrite (lead_byte 0xF0 8), (trans1_made 0xF0 8) by (done || set_solver).
    rewrite !read_conts_made, read_conts_end by (done || lia).
    replace ((((c / 262144) mod 8 * 64 + (c / 4096) mod 64) * 64 + (c / 64) mod 64) * 64 + c mod 64) with c
      by (Z.div_mod_to_equations; lia).
    rewrite check_char_ok by (done || lia). done.
Qed.

(** ** UTF-16 round trip *)

Lemma mask_C0 x : 0 ≤ x < 2 ^ 16 → x .& 0xC0 = (x / 64) mod 4 * 64 ∧ x .& 0x3C0 = (x / 64) mod 16 * 64.
Proof.
  intros Hx. split.
  - replace (x .& 0xC0) with (((x .>> 6) .& 0x03) .<< 6) by bits_eq [(x, 16)]. by to_div.
  - replace (x .& 0x3C0) with (((x .>> 6) .& 0x0F) .<< 6) by bits_eq [(x, 16)]. by to_div.
Qed.

Lemma unit16_bytes be lo hi : ∃ a b, bytes16 be lo hi = [a; b] ∧ unit16 be a b = lo + hi * 256.
Proof.
  destruct be; eexists _, _; (split; [reflexivity|]); unfold unit16; rewrite Z.shiftl_mul_pow2 by lia; lia.
Qed.

(** The values of the units written. *)
Lemma WRITE_UTF16_units be c : 0 ≤ c < 0x110000 →
  if c <=? 0xFFFF then ∃ a b, WRITE_UTF16 be c = [a; b] ∧ unit16 be a b = c
  else ∃ a b a2 b2, WRITE_UTF16 be c = [a; b; a2; b2] ∧
         unit16 be a b = 0xD800 + (c - 0x10000) / 1024 ∧ unit16 be a2 b2 = 0xDC00 + c mod 1024.
Proof.
  intros Hc. unfold WRITE_UTF16. destruct (Z.leb_spec c 0xFFFF).
  - destruct (unit16_bytes be (u8 (c .& 0x00FF)) (u8 ((c .>> 8) .& 0x00FF))) as (a & b & -> & E).
    exists a, b. split; [done|]. rewrite E. to_div. Z.div_mod_to_equations. lia.
  - destruct (unit16_bytes be (u8 (((c .>> 10) .& 0x003F) + (((c - 0x10000) .>> 10) .& 0x00C0)))
               (u8 (0x00D8 + (((c - 0x10000) .>> 18) .& 0x03)))) as (a & b & -> & E1).
    destruct (unit16_bytes be (u8 (c .& 0x00FF)) (u8 (0x00DC + ((c .>> 8) .& 0x03)))) as (a2 & b2 & -> & E2).
    exists a, b, a2, b2. split; [done|]. rewrite E1, E2. split.
    + destruct (mask_C0 ((c - 0x10000) .>> 10)) as [-> _]; [to_div; Z.div_mod_to_equations; lia|].
      to_div. Z.div_mod_to_equations. lia.
    + to_div. Z.div_mod_to_equations. lia.
Qed.

Lemma READ_WRITE_UTF16 be c rest : char_ok c → READ_UTF16 be (WRITE_UTF16 be c ++ rest) = Some (c, rest).
Proof.
  intros Hc. assert (0 ≤ c < 0x110000) as Hb by (unfold char_ok in Hc; lia).
  pose proof (WRITE_UTF16_units be c Hb) as H. destruct (Z.leb_spec c 0xFFFF).
  - destruct H as (a & b & -> & E). cbn [app READ_UTF16]. rewrite E.
    destruct (Z.leb_spec 0xD800 c), (Z.ltb_spec c 0xE000); try done. unfold char_ok in Hc. lia.
  - destruct H as (a & b & a2 & b2 & -> & E1 & E2). cbn [app READ_UTF16]. rewrite E1, E2.
    set (h := 0xD800 + (c - 0x10000) / 1024).
    assert (0xD800 ≤ h < 0xDC00) by (subst h; Z.div_mod_to_equations; lia).
    destruct (Z.leb_spec 0xD800 h), (Z.ltb_spec h 0xE000); try lia. cbn [andb]. do 2 f_equal.
    destruct (mask_C0 h) as [_ ->]; [lia|]. to_div. subst h. Z.div_mod_to_equations. lia.
Qed.

(** ** Translation *)

(** Text is translated character by character. *)
Lemma translate_text read write enc cs fuel :
  (∀ c cs', char_ok c → Forall char_ok cs' → read (enc c ++ (cs' ≫= enc)) = Some (c, cs' ≫= enc)) →
  (∀ c, enc c ≠ []) → Forall char_ok cs → (length (cs ≫= enc) ≤ fuel)%nat →
  translate_loop read write fuel (cs ≫= enc) = Some (cs ≫= write).
Proof.
  intros Hread Hne Hcs. revert fuel. induction Hcs as [|c cs Hc Hcs IH]; intros fuel Hf; [by destruct fuel|].
  cbn [mbind list_bind] in *. rewrite length_app in Hf. pose proof (Hread c cs Hc Hcs) as E.
  destruct (enc c) as [|b z] eqn:Eb; [by destruct (Hne c)|]. destruct fuel as [|fuel]; [simpl in Hf; lia|].
  cbn [app] in *. cbn [translate_loop]. rewrite E. cbn [mbind option_bind].
  rewrite IH by (simpl in Hf; lia). done.
Qed.

Lemma WRITE_UTF8_head c : 0 ≤ c → ∃ b z, WRITE_UTF8 c = b :: z ∧ is_cont b = false.
Proof.
  intros Hc. rewrite WRITE_UTF8_div by done.
  assert (∀ b, 0 ≤ b < 256 → b < 0x80 ∨ 0xC0 ≤ b → is_cont b = false) as Hnc.
  { intros b Hb Hr. assert (((0x80 <=? b) && (b <? 0xC0)) || negb (is_cont b) = true) as E
      by (apply (byte_cases (λ b, ((0x80 <=? b) && (b <? 0xC0)) || negb (is_cont b))); [reflexivity|done]).
    destruct (Z.leb_spec 0x80 b), (Z.ltb_spec b 0xC0); try lia; by destruct (is_cont b). }
  pose proof (Z.mod_pos_bound (c / 64) 32). pose proof (Z.mod_pos_bound (c / 4096) 16).
  pose proof (Z.mod_pos_bound (c / 262144) 8).
  destruct (Z.ltb_spec c 0x80), (Z.ltb_spec c 0x800), (Z.ltb_spec c 0x10000); try lia;
    eexists _, _; (split; [done|]); apply Hnc; lia.
Qed.

Lemma utf8_no_cont cs : Forall char_ok cs → no_cont (cs ≫= WRITE_UTF8).
Proof.
  destruct 1 as [|c cs Hc Hcs]; [done|]. cbn [mbind list_bind].
  destruct (WRITE_UTF8_head c) as (b & z & -> & Hb); [unfold char_ok in Hc; lia|done].
Qed.

(** The number of bytes read and written for a character. *)
Lemma read_conts_length z : ∀ c, (length (read_conts c z).2 ≤ length z)%nat.
Proof.
  induction z as [|b z IH]; intros c; [done|]. cbn [read_conts]. destruct (is_cont b); [|done].
  etransitivity; [apply IH|]. simpl. lia.
Qed.

Lemma trans1_small c : trans1 c < 0x80.
Proof.
  unfold trans1. destruct (nth_in_or_default (Z.to_nat (c - 0xc0)) sqlite3Utf8Trans1 0) as [H| ->]; [|lia].
  assert (Forall (λ x, x < 0x80) sqlite3Utf8Trans1) as F by (repeat constructor).
  by eapply List.Forall_forall in F; [|exact H].
Qed.

Lemma READ_UTF8_total z : z ≠ [] → Forall (λ b, 0 ≤ b < 256) z →
  ∃ c z', READ_UTF8 z = Some (c, z') ∧ (length z' < length z)%nat ∧ Forall (λ b, 0 ≤ b < 256) z' ∧
    (0xFFFF < c → (length z' + 2 ≤ length z)%nat).
Proof.
  intros Hz Hb. destruct Hb as [|c z Hc Hb]; [done|]. cbn [READ_UTF8 length].
  destruct (Z.leb_spec 0xc0 c); [|eexists _, _; split; [done|]; split; [lia|]; split; [done|lia]].
  destruct (read_conts (trans1 c) z) as [d z'] eqn:E. eexists _, _. split; [done|].
  pose proof (read_conts_length z (trans1 c)) as Hl. rewrite E in Hl. simpl in Hl.
  assert (Forall (λ b, 0 ≤ b < 256) z') as Hb'.
  { clear -E Hb. revert E. generalize (trans1 c). induction Hb as [|b z Hb' Hb IH]; intros t E; simplify_eq/=; [done|].
    destruct (is_cont b); [by eapply IH|]. simplify_eq. by constructor. }
  split; [lia|]. split; [done|]. intros Hd. destruct z as [|b z]; [simplify_eq/=|].
  - exfalso. pose proof (trans1_small c). unfold check_char in Hd. destruct (Z.ltb_spec (trans1 c) 0x80); [simpl in Hd|]; lia.
  - cbn [read_conts] in E. destruct (is_cont b).
    + pose proof (read_conts_length z (add_cont (trans1 c) b)) as Hl'. rewrite E in Hl'. simpl in *. lia.
    + simplify_eq. pose proof (trans1_small c). unfold check_char in Hd.
      destruct (Z.ltb_spec (trans1 c) 0x80); [simpl in Hd|]; lia.
Qed.

Lemma length_WRITE_UTF16 be c : length (WRITE_UTF16 be c) = if c <=? 0xFFFF then 2%nat else 4%nat.
Proof. unfold WRITE_UTF16. by destruct (c <=? 0xFFFF), be. Qed.

Lemma length_WRITE_UTF8 c : (1 ≤ length (WRITE_UTF8 c) ≤ 4)%nat.
Proof. unfold WRITE_UTF8. repeat case_match; simpl; lia. Qed.

(** The output is at most twice the input. *)
Lemma translate_8_16 be fuel : ∀ z, Forall (λ b, 0 ≤ b < 256) z → (length z ≤ fuel)%nat →
  ∃ out, translate_loop READ_UTF8 (WRITE_UTF16 be) fuel z = Some out ∧ (length out ≤ 2 * length z)%nat.
Proof.
  induction fuel as [|fuel IH]; intros [|b z] Hb Hl; try (by exists []); [simpl in Hl; lia|].
  destruct (READ_UTF8_total (b :: z)) as (c & z' & E & Hl' & Hb' & Hc); [done..|].
  cbn [translate_loop]. rewrite E. cbn [mbind option_bind].
  destruct (IH z' Hb') as (out & -> & Ho); [lia|]. eexists. split; [done|].
  rewrite length_app, length_WRITE_UTF16. destruct (Z.leb_spec c 0xFFFF); lia.
Qed.

Lemma translate_16_8 be fuel : ∀ z, Nat.Even (length z) → (length z ≤ fuel)%nat →
  ∃ out, translate_loop (READ_UTF16 be) WRITE_UTF8 fuel z = Some out ∧ (length out ≤ 2 * length z)%nat.
Proof.
  induction fuel as [|fuel IH]; intros [|a z] He Hl; try (by exists []); [simpl in Hl; lia|].
  assert (∃ c z', READ_UTF16 be (a :: z) = Some (c, z') ∧ Nat.Even (length z') ∧
            (length z' + 2 ≤ length (a :: z))%nat) as (c & z' & E & He' & Hl').
  { destruct z as [|b z]; [by destruct He as [k ?]; simpl in *; lia|].
    assert (Nat.Even (length z)) by (destruct He as [k ?]; exists (k - 1)%nat; simpl in *; lia).
    cbn [READ_UTF16]. destruct (_ && _); [|eexists _, _; split; [done|]; split; [done|simpl; lia]].
    destruct z as [|a2 [|b2 z]]; [by eexists _, _|by destruct H as [k ?]; simpl in *; lia|].
    eexists _, _. split; [done|]. split; [destruct H as [k ?]; exists (k - 1)%nat; simpl in *; lia|simpl; lia]. }
  cbn [translate_loop]. rewrite E. cbn [mbind option_bind].
  destruct (IH z' He') as (out & -> & Ho); [lia|]. eexists. split; [done|].
  rewrite length_app. pose proof (length_WRITE_UTF8 c). lia.
Qed.

Lemma even_length_even z : Nat.Even (length (even_length z)).
Proof.
  unfold even_length. rewrite length_take. pose proof (Nat.Div0.div_mod (length z) 2).
  pose proof (Nat.mod_upper_bound (length z) 2). exists (length z / 2)%nat. lia.
Qed.

Lemma even_length_id z : Nat.Even (length z) → even_length z = z.
Proof.
  intros [k Hk]. unfold even_length. apply take_ge. rewrite Hk.
  replace (2 * k)%nat with (k * 2)%nat by lia. rewrite Nat.div_mul by lia. lia.
Qed.

Lemma length_utf16_text be cs : Nat.Even (length (cs ≫= WRITE_UTF16 be)).
Proof.
  induction cs as [|c cs [k IH]]; [by exists 0%nat|]. cbn [mbind list_bind]. rewrite length_app, length_WRITE_UTF16.
  change (list_bind _ _ _ cs) with (cs ≫= WRITE_UTF16 be). rewrite IH.
  destruct (c <=? 0xFFFF); [exists (k + 1)%nat|exists (k + 2)%nat]; lia.
Qed.

(** The encoding written for a code. *)
Definition utf16_enc (be : bool) : Z := if be then SQLITE_UTF16BE else SQLITE_UTF16LE.

Lemma utf16_enc_eq be :
  (SQLITE_UTF8 =? utf16_enc be) = false ∧ (utf16_enc be =? SQLITE_UTF8) = false ∧
  (utf16_enc be =? SQLITE_UTF16BE) = be.
Proof. by destruct be. Qed.

Lemma utf8_bytes cs : Forall char_ok cs → Forall (λ b, 0 ≤ b < 256) (cs ≫= WRITE_UTF8).
Proof.
  induction 1 as [|c cs Hc _ IH]; [constructor|]. cbn [mbind list_bind]. apply Forall_app_2; [|done].
  rewrite WRITE_UTF8_div by (unfold char_ok in Hc; lia).
  pose proof (Z.mod_pos_bound c 64). pose proof (Z.mod_pos_bound (c / 64) 32).
  pose proof (Z.mod_pos_bound (c / 64) 64). pose proof (Z.mod_pos_bound (c / 4096) 16).
  pose proof (Z.mod_pos_bound (c / 4096) 64). pose proof (Z.mod_pos_bound (c / 262144) 8).
  unfold char_ok in Hc. repeat case_match; b2p; repeat constructor; lia.
Qed.

(** C33: The translation of a text always fits the buffer that
    [sqlite3VdbeMemTranslate] allocates, whatever the bytes of the text, valid
    or not, and reads no byte past its end; the text of any sequence of
    Unicode characters is translated to the text of the same characters in
    the other encoding, and back. *)
Theorem sqlite3VdbeMemTranslate_round_trip be z cs :
  Forall (λ b, 0 ≤ b < 256) z → Forall char_ok cs →
  let utf8 := cs ≫= WRITE_UTF8 in
  let utf16 := cs ≫= WRITE_UTF16 be in
  is_Some (sqlite3VdbeMemTranslate SQLITE_UTF8 (utf16_enc be) z) ∧
  is_Some (sqlite3VdbeMemTranslate (utf16_enc be) SQLITE_UTF8 z) ∧
  sqlite3VdbeMemTranslate SQLITE_UTF8 (utf16_enc be) utf8 = Some utf16 ∧
  sqlite3VdbeMemTranslate (utf16_enc be) SQLITE_UTF8 utf16 = Some utf8.
Proof.
  intros Hz Hcs utf8 utf16. unfold sqlite3VdbeMemTranslate. destruct (utf16_enc_eq be) as (-> & -> & ->).
  change (SQLITE_UTF8 =? SQLITE_UTF8) with true. cbn [andb negb].
  pose proof (utf8_bytes cs Hcs) as Hb8. fold utf8 in Hb8.
  split; [|split; [|split]].
  - destruct (translate_8_16 be (length z) z) as (out & -> & Ho); [done..|]. cbn [mbind option_bind].
    rewrite (proj2 (Z.leb_le _ _)) by lia. eauto.
  - destruct (translate_16_8 be (length (even_length z)) (even_length z)) as (out & -> & Ho);
      [apply even_length_even|done|]. cbn [mbind option_bind]. rewrite (proj2 (Z.leb_le _ _)) by lia. eauto.
  - destruct (translate_8_16 be (length utf8) utf8) as (out & E & Ho); [done..|].
    assert (out = utf16) as ->.
    { enough (Some out = Some utf16) by congruence. rewrite <- E. subst utf8 utf16. apply translate_text; try done.
      - intros c cs' Hc Hcs'. by apply READ_WRITE_UTF8, utf8_no_cont.
      - intros c Hn. pose proof (length_WRITE_UTF8 c). rewrite Hn in *. simpl in *. lia. }
    rewrite E. cbn [mbind option_bind]. rewrite (proj2 (Z.leb_le _ _)) by lia. done.
  - rewrite even_length_id by apply length_utf16_text.
    destruct (translate_16_8 be (length utf16) utf16) as (out & E & Ho); [apply length_utf16_text|done|].
    assert (out = utf8) as ->.
    { enough (Some out = Some utf8) by congruence. rewrite <- E. subst utf8 utf16. apply translate_text; try done.
      - intros c cs' Hc Hcs'. by apply READ_WRITE_UTF16.
      - intros c Hn. pose proof (length_WRITE_UTF16 be c) as Hl. rewrite Hn in Hl. by destruct (c <=? 0xFFFF). }
    rewrite E. cbn [mbind option_bind]. rewrite (proj2 (Z.leb_le _ _)) by lia. done.
Qed.

Lemma sqlite3VdbeMemTranslate_round_trip_witness :
  sqlite3VdbeMemTranslate SQLITE_UTF8 SQLITE_UTF16LE ([65; 0x20AC; 0x1F600] ≫= WRITE_UTF8)
    = Some [65; 0; 0xAC; 0x20; 0x3D; 0xD8; 0x00; 0xDE].
Proof.
  etransitivity; [apply (sqlite3VdbeMemTranslate_round_trip false [] [65; 0x20AC; 0x1F600])|reflexivity].
  - constructor.
  - repeat constructor; unfold char_ok; lia.
Defined.
