(* ===== verification/Pattern.v ===== *)
(** * LIKE and GLOB

    Models [patternCompare] of src/func.c, the matcher behind the operators
    LIKE and GLOB, with [likeFunc] and [sqlite3_strglob], and relates it to a
    matcher on the characters of the pattern.  Strings are the bytes of a C
    string with its terminator; reading past it gives [None]. *)

From S2P Require Import Prelude CString Bits Numbers Utf.
#[local] Open Scope Z_scope.
#[local] Open Scope c_scope.
#[local] Open Scope list_scope.

Record compareInfo := CompareInfo { matchAll : Z; matchOne : Z; matchSet : Z; noCase : bool }.

Definition globInfo : compareInfo := CompareInfo 42 63 91 false.
Definition likeInfoNorm : compareInfo := CompareInfo 37 95 0 true.
Definition likeInfoAlt : compareInfo := CompareInfo 37 95 0 false.

Definition GlobUpperToLower (A : Z) : Z :=
  if A .& u32 (Z.lnot 0x7f) =? 0 then sqlite3UpperToLower A else A.

(** Equality of characters, up to case if [noCase]. *)
Definition same_char (info : compareInfo) (c c2 : Z) : bool :=
  if noCase info then GlobUpperToLower c =? GlobUpperToLower c2 else c =? c2.

(** [while( c2 && c2!=']' )]: whether [c] is seen in the list of characters, the
    character that ends it, and the pattern after it. *)
Fixpoint glob_set_loop (fuel : nat) (c : Z) (seen : bool) (prior_c c2 : Z) (zPattern : list Z)
    : option (bool * Z * list Z) :=
  if (c2 =? 0) || (c2 =? 93) then Some (seen, c2, zPattern) else
  match fuel with
  | O => None
  | S fuel' =>
      p0 ← head zPattern;
      if (c2 =? 45) && negb (p0 =? 93) && negb (p0 =? 0) && (0 <? prior_c) then
        '(c2, zPattern) ← sqlite3Utf8Read zPattern;
        let seen := seen || ((prior_c <=? c) && (c <=? c2)) in
        '(c2, zPattern) ← sqlite3Utf8Read zPattern;
        glob_set_loop fuel' c seen 0 c2 zPattern
      else
        let seen := seen || (c =? c2) in
        let prior_c := c2 in
        '(c2, zPattern) ← sqlite3Utf8Read zPattern;
        glob_set_loop fuel' c seen prior_c c2 zPattern
  end.

(** The list of characters from its first character [c2], after the [^]:
    whether [c] is accepted, and the pattern after the list. *)
Definition match_set_rest (c : Z) (invert : bool) (c2 : Z) (zPattern : list Z) : option (bool * list Z) :=
  '(seen, c2, zPattern) ← (if c2 =? 93 then '(c3, z) ← sqlite3Utf8Read zPattern; Some (c =? 93, c3, z)
                           else Some (false, c2, zPattern));
  '(seen, c2, zPattern) ← glob_set_loop (length zPattern) c seen 0 c2 zPattern;
  Some (negb (c2 =? 0) && xorb seen invert, zPattern).

(** The case [c==matchSet], after the character [c] of the string was read. *)
Definition match_set (c : Z) (zPattern : list Z) : option (bool * list Z) :=
  '(c2, zPattern) ← sqlite3Utf8Read zPattern;
  if c2 =? 94 then '(c2, zPattern) ← sqlite3Utf8Read zPattern; match_set_rest c true c2 zPattern
  else match_set_rest c false c2 zPattern.

(** The loop over a run of [matchAll] and [matchOne] after a [matchAll].  The
    inner [None] is [return 0]; otherwise the character after the run. *)
Fixpoint star_run (info : compareInfo) (fuel : nat) (zPattern zString : list Z)
    : option (option (Z * list Z * list Z)) :=
  match fuel with
  | O => None
  | S fuel' =>
      '(c, zPattern) ← sqlite3Utf8Read zPattern;
      if c =? matchAll info then star_run info fuel' zPattern zString
      else if c =? matchOne info then
        '(c2, zString) ← sqlite3Utf8Read zString;
        if c2 =? 0 then Some None else star_run info fuel' zPattern zString
      else Some (Some (c, zPattern, zString))
  end.

(** The two nested loops that look for [c] in the string and try the rest of
    the pattern after each occurrence. *)
Fixpoint search (info : compareInfo) (rest : list Z → option bool) (fuel : nat) (c : Z) (zString : list Z)
    : option bool :=
  match fuel with
  | O => None
  | S fuel' =>
      '(c2, zString) ← sqlite3Utf8Read zString;
      if c2 =? 0 then Some false
      else if same_char info c c2 then
        r ← rest zString;
        if (r : bool) then Some true else search info rest fuel' c zString
      else search info rest fuel' c zString
  end.

(** [while( zString[0] && patternCompare(&zPattern[-1],zString,pInfo,esc)==0 )] *)
Fixpoint search_set (rest : list Z → option bool) (fuel : nat) (zString : list Z) : option bool :=
  match fuel with
  | O => None
  | S fuel' =>
      s0 ← head zString;
      if s0 =? 0 then Some false
      else r ← rest zString;
           if (r : bool) then Some true
           else zString ← SQLITE_SKIP_UTF8 zString; search_set rest fuel' zString
  end.

(** The main loop; a call starts it with [prevEscape] false. *)
Fixpoint patternCompare (fuel : nat) (info : compareInfo) (esc : Z) (prevEscape : bool)
    (zPattern zString : list Z) : option bool :=
  match fuel with
  | O => None
  | S fuel' =>
      '(c, zPattern) ← sqlite3Utf8Read zPattern;
      if c =? 0 then s0 ← head zString; Some (s0 =? 0)
      else if (c =? matchAll info) && negb prevEscape then
        o ← star_run info (length zPattern) zPattern zString;
        match o with
        | None => Some false
        | Some (c, zPattern, zString) =>
            if c =? 0 then Some true
            else if c =? esc then
              '(c, zPattern) ← sqlite3Utf8Read zPattern;
              if c =? 0 then Some false
              else search info (patternCompare fuel' info esc false zPattern) (length zString) c zString
            else if c =? matchSet info then
              if negb (esc =? 0) || (0x80 <=? matchSet info) then None
              else search_set (patternCompare fuel' info esc false (c :: zPattern)) (length zString) zString
            else search info (patternCompare fuel' info esc false zPattern) (length zString) c zString
        end
      else if (c =? matchOne info) && negb prevEscape then
        '(c2, zString) ← sqlite3Utf8Read zString;
        if c2 =? 0 then Some false else patternCompare fuel' info esc prevEscape zPattern zString
      else if c =? matchSet info then
        if negb (esc =? 0) then None else
        '(c, zString) ← sqlite3Utf8Read zString;
        if c =? 0 then Some false else
        '(ok, zPattern) ← match_set c zPattern;
        if (ok : bool) then patternCompare fuel' info esc prevEscape zPattern zString else Some false
      else if (c =? esc) && negb prevEscape then patternCompare fuel' info esc true zPattern zString
      else
        '(c2, zString) ← sqlite3Utf8Read zString;
        if same_char info c c2 then patternCompare fuel' info esc false zPattern zString else Some false
  end.

(** The result of the SQL functions like() and glob(): an error, NULL or an
    integer. *)
Inductive sql_result := RError (msg : string) | RNull | RInt (z : Z).

Definition likeFunc (limit : Z) (info : compareInfo) (zB zA : option (list Z)) (zEsc : option (option (list Z)))
    : option sql_result :=
  let nPat := match zB with Some z => Z.of_nat (length z) - 1 | None => 0 end in
  if limit <? nPat then Some (RError "LIKE or GLOB pattern too complex"%string) else
  let compare escape :=
    match zA, zB with
    | Some a, Some b => r ← patternCompare (length b) info escape false b a; Some (RInt (if (r : bool) then 1 else 0))
    | _, _ => Some RNull
    end in
  match zEsc with
  | None => compare 0
  | Some None => Some RNull
  | Some (Some e) =>
      n ← sqlite3Utf8CharLen e;
      if negb (n =? 1) then Some (RError "ESCAPE expression must be a single character"%string)
      else '(escape, _) ← sqlite3Utf8Read e; compare escape
  end.

Definition sqlite3_strglob (zGlobPattern zString : list Z) : option Z :=
  r ← patternCompare (length zGlobPattern) globInfo 0 false zGlobPattern zString;
  Some (if (r : bool) then 0 else 1).

(** ** A matcher on characters *)

(** The characters of a text, as [READ_UTF8] reads them. *)
Fixpoint read_chars (fuel : nat) (z : list Z) : list Z :=
  match fuel with
  | O => []
  | S fuel' => match READ_UTF8 z with Some (c, z') => c :: read_chars fuel' z' | None => [] end
  end.
Definition characters (z : list Z) : list Z := read_chars (length z) z.

(** A pattern as a sequence of tokens.  [TFail] is a list of characters that is
    not closed. *)
Inductive token := TAny | TOne | TSet (invert : bool) (items : list (Z * Z)) | TChar (c : Z) | TFail.

(** The ranges of a list of characters up to its closing bracket, and what
    follows; [prior] is the character before, 0 if it cannot start a range. *)
Fixpoint set_items (prior : Z) (cs : list Z) : option (list (Z * Z) * list Z) :=
  match cs with
  | [] => None
  | c :: cs' =>
      if c =? 93 then Some ([], cs') else
      let single := '(its, r) ← set_items c cs'; Some ((c, c) :: its, r) in
      match cs' with
      | d :: cs'' =>
          if (c =? 45) && negb (d =? 93) && (0 <? prior)
          then '(its, r) ← set_items 0 cs''; Some ((prior, d) :: its, r)
          else single
      | [] => single
      end
  end.

Definition set_list (cs : list Z) : option (list (Z * Z) * list Z) :=
  match cs with
  | c :: cs' => if c =? 93 then '(its, r) ← set_items 0 cs'; Some ((93, 93) :: its, r) else set_items 0 cs
  | [] => None
  end.

Definition set_token (cs : list Z) : option (token * list Z) :=
  let '(invert, cs) := match cs with c :: cs' => if c =? 94 then (true, cs') else (false, cs) | [] => (false, []) end in
  '(its, r) ← set_list cs; Some (TSet invert its, r).

(** The tokens of a pattern; an escape character stands for the character after
    it and is dropped at the end of the pattern. *)
Fixpoint tokens (fuel : nat) (info : compareInfo) (esc : Z) (cs : list Z) : list token :=
  match fuel, cs with
  | S fuel', c :: cs' =>
      if c =? matchAll info then TAny :: tokens fuel' info esc cs'
      else if c =? matchOne info then TOne :: tokens fuel' info esc cs'
      else if c =? matchSet info then
        match set_token cs' with
        | Some (t, r) => t :: tokens fuel' info esc r
        | None => [TFail]
        end
      else if c =? esc then
        match cs' with d :: r => TChar d :: tokens fuel' info esc r | [] => [] end
      else TChar c :: tokens fuel' info esc cs'
  | _, _ => []
  end.

Definition in_items (c : Z) (its : list (Z * Z)) : bool :=
  existsb (λ '(lo, hi), (lo <=? c) && (c <=? hi)) its.

(** Some suffix of [s] is accepted. *)
Fixpoint some_suffix (f : list Z → bool) (s : list Z) : bool :=
  f s || match s with _ :: s' => some_suffix f s' | [] => false end.

Fixpoint matches (info : compareInfo) (ts : list token) (s : list Z) : bool :=
  match ts, s with
  | [], [] => true
  | TAny :: ts', _ => some_suffix (matches info ts') s
  | TOne :: ts', _ :: s' => matches info ts' s'
  | TSet invert its :: ts', c :: s' => xorb (in_items c its) invert && matches info ts' s'
  | TChar d :: ts', c :: s' => same_char info d c && matches info ts' s'
  | _, _ => false
  end.

(** The escape character does not end the pattern. *)
Fixpoint escape_closed (info : compareInfo) (esc : Z) (cs : list Z) : bool :=
  match cs with
  | [] => true
  | c :: cs' =>
      if (c =? esc) && negb (c =? matchAll info) && negb (c =? matchOne info)
      then match cs' with [] => false | _ :: r => escape_closed info esc r end
      else escape_closed info esc cs'
  end.

(** ** Reading terminated texts *)

Definition text (z : list Z) : Prop := Forall (λ b, 0 < b < 256) z.

(** [z] is a terminated string of the characters [cs]. *)
Inductive chars_of : list Z → list Z → Prop :=
| chars_nil : chars_of [0] []
| chars_cons b w z' c cs :
    sqlite3Utf8Read (b :: w) = Some (c, z') → SQLITE_SKIP_UTF8 (b :: w) = Some z' → c ≠ 0 → b ≠ 0 →
    (b =? 93) = (c =? 93) → (length z' ≤ length w)%nat → chars_of z' cs → chars_of (b :: w) (c :: cs).

Lemma read_conts_sentinel z : text z → ∀ c, let '(c', z') := read_conts c z in
  read_conts_term c (z ++ [0]) = Some (c', z' ++ [0]) ∧ skip_conts (z ++ [0]) = Some (z' ++ [0]) ∧
  text z' ∧ (length z' ≤ length z)%nat.
Proof.
  induction 1 as [|b z Hb Hz IH]; intros c; [by cbn; repeat constructor|].
  cbn [read_conts read_conts_term skip_conts app]. destruct (is_cont b).
  - specialize (IH (add_cont c b)). destruct (read_conts _ z). simpl. intuition lia.
  - simpl. repeat split; try done. by constructor.
Qed.

Lemma check_char_large c : 0x80 ≤ check_char c.
Proof. unfold check_char. destruct (Z.ltb_spec c 0x80); cbn [orb]; [lia|]. destruct (_ || _); lia. Qed.

Lemma chars_of_text fuel : ∀ z, text z → (length z ≤ fuel)%nat → chars_of (z ++ [0]) (read_chars fuel z).
Proof.
  induction fuel as [|fuel IH]; intros [|b z] Hz Hl; try apply chars_nil; [simpl in Hl; lia|].
  apply list.Forall_cons in Hz as [Hb Hz]. cbn [read_chars READ_UTF8 app length] in *.
  destruct (Z.leb_spec 0xc0 b).
  - pose proof (read_conts_sentinel z Hz (trans1 b)) as H'. destruct (read_conts _ z) as [c z'].
    destruct H' as (E1 & E2 & Hz' & Hl'). pose proof (check_char_large c).
    apply chars_cons with (z' := z' ++ [0]); cbn [sqlite3Utf8Read SQLITE_SKIP_UTF8];
      rewrite ?(proj2 (Z.leb_le 0xc0 b)) by done; rewrite ?E1; try done; try lia.
    + rewrite !length_app. simpl. lia.
    + apply IH; [done|lia].
  - apply chars_cons with (z' := z ++ [0]); cbn [sqlite3Utf8Read SQLITE_SKIP_UTF8];
      rewrite ?(proj2 (Z.leb_gt 0xc0 b)) by done; try done; try lia.
    apply IH; [done|lia].
Qed.

Lemma chars_of_ascii b z cs : 0 < b < 0x80 → chars_of z cs → chars_of (b :: z) (b :: cs).
Proof.
  intros Hb H. apply chars_cons with (z' := z); cbn [sqlite3Utf8Read SQLITE_SKIP_UTF8];
    rewrite ?(proj2 (Z.leb_gt 0xc0 b)) by lia; try done; lia.
Qed.

(** What reading gives, at the end and before it. *)
Lemma read_end z : chars_of z [] → z = [0] ∧ sqlite3Utf8Read z = Some (0, []) ∧ head z = Some 0.
Proof. by inversion 1. Qed.

Lemma read_char z c cs : chars_of z (c :: cs) → ∃ z', sqlite3Utf8Read z = Some (c, z') ∧ c ≠ 0 ∧ chars_of z' cs ∧
  (length z' < length z)%nat.
Proof. inversion 1; subst. eexists. split; [done|]. repeat split; try done. simpl. lia. Qed.

Lemma head_char z cs : chars_of z cs → ∃ b, head z = Some b ∧
  (b =? 0) = (match cs with [] => true | _ => false end) ∧
  (b =? 93) = (match cs with [] => false | c :: _ => c =? 93 end).
Proof. inversion 1; subst; eexists; (split; [done|]); [done|]. split; [by apply Z.eqb_neq|done]. Qed.

Lemma length_chars_of z cs : chars_of z cs → (length cs < length z)%nat.
Proof. induction 1; simpl in *; lia. Qed.

(** Rewriting the equation of a read in the goal. *)
Ltac read_step H z' Hz :=
  let E := fresh "E" in let Hc := fresh "Hc" in let Hl := fresh "Hl" in
  destruct (read_char _ _ _ H) as (z' & E & Hc & Hz & Hl); rewrite E; cbn [mbind option_bind];
  rewrite ?(proj2 (Z.eqb_neq _ 0) Hc).
Ltac read_stop H :=
  let E := fresh "E" in let Eh := fresh "Eh" in
  destruct (read_end _ H) as (-> & E & Eh); rewrite ?E, ?Eh; cbn [mbind option_bind].

(** ** Lists of characters *)

Lemma set_items_ind (Q : Z → list Z → Prop) :
  (∀ p, Q p []) → (∀ p c cs, (∀ q, Q q cs) → (∀ q, Q q (List.tl cs)) → Q p (c :: cs)) → ∀ cs p, Q p cs.
Proof.
  intros H0 H1 cs. enough ((∀ p, Q p cs) ∧ ∀ p, Q p (List.tl cs)) by tauto.
  induction cs as [|c cs [IH1 IH2]]; [done|]. split; [|done]. intros p. by apply H1.
Qed.

Lemma glob_set_loop_items c : ∀ cs prior fuel seen z, chars_of z cs → (length cs ≤ fuel)%nat →
  ∃ seen' c2 z',
    ('(c2, z2) ← sqlite3Utf8Read z; glob_set_loop fuel c seen prior c2 z2) = Some (seen', c2, z') ∧
    match set_items prior cs with
    | Some (its, r) => c2 = 93 ∧ seen' = seen || in_items c its ∧ chars_of z' r
    | None => c2 = 0
    end.
Proof.
  intros cs prior. revert cs prior. apply (set_items_ind (λ prior cs, ∀ fuel seen z, _ → _ → _)).
  { intros prior fuel seen z H _. read_stop H. destruct fuel; by eexists _, _, _. }
  intros prior d cs IH1 IH2 fuel seen z H Hf. read_step H z1 Hz1. destruct fuel as [|fuel]; [simpl in Hf; lia|].
  cbn [glob_set_loop set_items]. rewrite (proj2 (Z.eqb_neq d 0) Hc). cbn [orb].
  destruct (Z.eqb_spec d 93) as [->|Hd].
  { eexists _, _, _. split; [done|]. cbn [in_items existsb]. by rewrite orb_false_r. }
  destruct (head_char _ _ Hz1) as (b & -> & Eb0 & Eb93). cbn [mbind option_bind]. rewrite Eb0, Eb93.
  assert (∃ seen' c2 z', ('(c2, z2) ← sqlite3Utf8Read z1; glob_set_loop fuel c (seen || (c =? d)) d c2 z2)
      = Some (seen', c2, z') ∧
    match ('(its, r) ← set_items d cs; Some ((d, d) :: its, r)) with
    | Some (its, r) => c2 = 93 ∧ seen' = seen || in_items c its ∧ chars_of z' r
    | None => c2 = 0
    end) as Hsingle.
  { destruct (IH1 d fuel (seen || (c =? d)) z1 Hz1) as (s' & c2 & z' & -> & Hs); [simpl in Hf; lia|].
    eexists _, _, _. split; [done|]. destruct (set_items d cs) as [[its r]|]; [|done]. cbn [mbind option_bind].
    destruct Hs as (-> & -> & Hr). split; [done|]. split; [|done]. cbn [in_items existsb]. rewrite <- orb_assoc. f_equal.
    fold (in_items c its). f_equal. destruct (Z.eqb_spec c d) as [->|]; [by rewrite Z.leb_refl|].
    destruct (Z.leb_spec d c), (Z.leb_spec c d); try done; lia. }
  destruct cs as [|e cs]; cbn [negb andb].
  { rewrite !andb_false_r. cbn [andb]. exact Hsingle. }
  rewrite andb_true_r. destruct ((d =? 45) && negb (e =? 93) && (0 <? prior)); [|exact Hsingle].
  clear Hsingle. read_step Hz1 z2 Hz2. cbn [tl] in IH2.
  destruct (IH2 0 fuel (seen || ((prior <=? c) && (c <=? e))) z2 Hz2) as (s' & c2 & z' & -> & Hs); [simpl in Hf; lia|].
  eexists _, _, _. split; [done|]. destruct (set_items 0 cs) as [[its r]|]; [|done]. cbn [mbind option_bind].
  destruct Hs as (-> & -> & Hr). split; [done|]. split; [|done]. cbn [in_items existsb]. by rewrite orb_assoc.
Qed.

(** A list of characters accepts what its ranges contain. *)
Lemma match_set_rest_items c invert z cs : chars_of z cs →
  ∃ ok z', ('(c2, z1) ← sqlite3Utf8Read z; match_set_rest c invert c2 z1) = Some (ok, z') ∧
    match set_list cs with
    | Some (its, r) => ok = xorb (in_items c its) invert ∧ chars_of z' r
    | None => ok = false
    end.
Proof.
  intros H. unfold match_set_rest, set_list. destruct cs as [|d cs].
  { read_stop H. by eexists _, _. }
  read_step H z1 Hz1. destruct (Z.eqb_spec d 93) as [->|Hd].
  - destruct cs as [|e cs]; [read_stop Hz1; by eexists _, _|].
    destruct (read_char _ _ _ Hz1) as (z2 & E' & He & Hz2 & Hl2).
    destruct (glob_set_loop_items c (e :: cs) 0 (length z2) (c =? 93) z1 Hz1) as (seen & c2 & z' & Eg & Hs).
    { pose proof (length_chars_of _ _ Hz2). simpl. lia. }
    rewrite E' in Eg |- *. cbn [mbind option_bind] in *. rewrite Eg. cbn [mbind option_bind].
    eexists _, _. split; [done|]. destruct (set_items 0 (e :: cs)) as [[its r]|]; [|by rewrite Hs].
    cbn [mbind option_bind]. destruct Hs as (-> & -> & Hr). split; [|done]. cbn [in_items existsb Z.eqb negb andb Pos.eqb].
    do 2 f_equal. destruct (Z.eqb_spec c 93) as [->|]; [done|].
    destruct (Z.leb_spec 93 c), (Z.leb_spec c 93); try done; lia.
  - destruct (glob_set_loop_items c (d :: cs) 0 (length z1) false z H) as (seen & c2 & z' & Eg & Hs);
      [pose proof (length_chars_of _ _ Hz1); simpl; lia|].
    rewrite E in Eg. cbn [mbind option_bind] in *. rewrite Eg. cbn [mbind option_bind].
    eexists _, _. split; [done|]. destruct (set_items 0 (d :: cs)) as [[its r]|]; [|by rewrite Hs].
    by destruct Hs as (-> & -> & Hr).
Qed.

Lemma match_set_token c z cs : chars_of z cs →
  ∃ ok z', match_set c z = Some (ok, z') ∧
    match set_token cs with
    | Some (t, r) => chars_of z' r ∧ ∀ info ts s, matches info (t :: ts) (c :: s) = ok && matches info ts s
    | None => ok = false
    end.
Proof.
  intros H. unfold set_token, match_set. destruct cs as [|d cs]; [read_stop H; by eexists _, _|].
  pose proof (match_set_rest_items c false z _ H) as Hf. read_step H z1 Hz1. rewrite E in Hf. cbn [mbind option_bind] in Hf.
  destruct (Z.eqb_spec d 94) as [->|Hn].
  - destruct (match_set_rest_items c true z1 cs Hz1) as (ok & z' & -> & Hs). eexists _, _. split; [done|].
    destruct (set_list cs) as [[its r]|]; [|done]. cbn [mbind option_bind]. by destruct Hs as [-> Hr].
  - destruct Hf as (ok & z' & -> & Hs). eexists _, _. split; [done|].
    destruct (set_list (d :: cs)) as [[its r]|]; [|done]. cbn [mbind option_bind]. by destruct Hs as [-> Hr].
Qed.

(** Bytes are consumed. *)
Lemma Utf8Read_length z c z' : sqlite3Utf8Read z = Some (c, z') → (length z' < length z)%nat.
Proof.
  destruct z as [|b z]; [done|]. cbn [sqlite3Utf8Read length].
  assert (∀ z c d z', read_conts_term c z = Some (d, z') → (length z' ≤ length z)%nat) as H.
  { clear. intros z. induction z as [|b z IH]; intros c d z' E; [done|]. cbn [read_conts_term length] in *.
    destruct (is_cont b); [apply IH in E; lia|by simplify_eq]. }
  destruct (0xc0 <=? b); intros E; [|simplify_eq; lia].
  destruct (read_conts_term (trans1 b) z) as [[d w]|] eqn:Er; simplify_eq/=. apply H in Er. lia.
Qed.

Lemma glob_set_loop_length c fuel : ∀ seen p c2 z seen' c3 z',
  glob_set_loop fuel c seen p c2 z = Some (seen', c3, z') → (length z' ≤ length z)%nat.
Proof.
  induction fuel as [|fuel IH]; intros * E; cbn [glob_set_loop] in E; destruct (_ || _); simplify_eq; try done.
  destruct (head z) as [b|]; [|done]. cbn [mbind option_bind] in E. destruct (_ && _).
  - destruct (sqlite3Utf8Read z) as [[x1 z1]|] eqn:E1; [|done]. cbn [mbind option_bind] in E.
    destruct (sqlite3Utf8Read z1) as [[x2 z2]|] eqn:E2; [|done]. cbn [mbind option_bind] in E.
    apply IH in E. apply Utf8Read_length in E1, E2. lia.
  - destruct (sqlite3Utf8Read z) as [[x1 z1]|] eqn:E1; [|done]. cbn [mbind option_bind] in E.
    apply IH in E. apply Utf8Read_length in E1. lia.
Qed.

Lemma match_set_length c z ok z' : match_set c z = Some (ok, z') → (length z' ≤ length z)%nat.
Proof.
  assert (∀ invert c2 z, match_set_rest c invert c2 z = Some (ok, z') → (length z' ≤ length z)%nat) as H.
  { clear. intros invert c2 z E. unfold match_set_rest in E. destruct (c2 =? 93).
    - destruct (sqlite3Utf8Read z) as [[x1 z1]|] eqn:E1; [|done]. cbn [mbind option_bind] in E.
      destruct (glob_set_loop _ _ _ _ _ _) as [[[x y] w]|] eqn:E2; simplify_eq/=.
      apply glob_set_loop_length in E2. apply Utf8Read_length in E1. lia.
    - cbn [mbind option_bind] in E. destruct (glob_set_loop _ _ _ _ _ _) as [[[x y] w]|] eqn:E2; simplify_eq/=.
      by apply glob_set_loop_length in E2. }
  unfold match_set. destruct (sqlite3Utf8Read z) as [[x1 z1]|] eqn:E1; [|done]. cbn [mbind option_bind].
  apply Utf8Read_length in E1. destruct (x1 =? 94); [|intros E; apply H in E; lia].
  destruct (sqlite3Utf8Read z1) as [[x2 z2]|] eqn:E2; [|done]. cbn [mbind option_bind].
  apply Utf8Read_length in E2. intros E. apply H in E. lia.
Qed.

(** ** The tokens of a pattern *)

Lemma set_items_length : ∀ cs prior its r, set_items prior cs = Some (its, r) → (length r < length cs)%nat.
Proof.
  intros cs prior. revert cs prior. apply (set_items_ind (λ prior cs, ∀ its r, _ → _)); [done|].
  intros prior c cs IH1 IH2 its r. cbn [set_items]. destruct (c =? 93); [intros; simplify_eq/=; lia|].
  assert (∀ its r, ('(its, r) ← set_items c cs; Some ((c, c) :: its, r)) = Some (its, r) → (length r < length (c :: cs))%nat) as Hs.
  { intros i' r' E. destruct (set_items c cs) as [[? ?]|] eqn:E'; simplify_eq/=. apply IH1 in E'. lia. }
  destruct cs as [|d cs]; [apply Hs|]. destruct (_ && _); [|apply Hs].
  intros E. destruct (set_items 0 cs) as [[? ?]|] eqn:E'; simplify_eq/=. apply IH2 in E'. simpl in *. lia.
Qed.

Lemma set_token_length cs t r : set_token cs = Some (t, r) → (length r < length cs)%nat.
Proof.
  assert (∀ cs its r, set_list cs = Some (its, r) → (length r < length cs)%nat) as Hl.
  { intros [|c cs'] its r'; cbn [set_list]; [done|]. destruct (c =? 93); [|apply set_items_length].
    intros E. destruct (set_items 0 cs') as [[? ?]|] eqn:E'; simplify_eq/=. apply set_items_length in E'. lia. }
  unfold set_token. destruct cs as [|c cs]; [done|]. destruct (c =? 94); intros E.
  - destruct (set_list cs) as [[? ?]|] eqn:E'; simplify_eq/=. apply Hl in E'. lia.
  - specialize (Hl (c :: cs)). destruct (set_list (c :: cs)) as [[its' r']|]; [|done].
    cbn [mbind option_bind] in E. injection E as _ ->. by apply (Hl its').
Qed.

Lemma tokens_fuel info esc f1 : ∀ f2 cs, (length cs ≤ f1)%nat → (length cs ≤ f2)%nat →
  tokens f1 info esc cs = tokens f2 info esc cs.
Proof.
  induction f1 as [|f1 IH]; intros [|f2] [|c cs] H1 H2; simpl in H1, H2; try lia; try done. cbn [tokens].
  destruct (c =? matchAll info), (c =? matchOne info), (c =? matchSet info), (c =? esc);
    rewrite ?(IH f2) by lia; try done.
  all: try (destruct (set_token cs) as [[t r]|] eqn:E; [|done]; apply set_token_length in E; by rewrite (IH f2) by lia).
  destruct cs; [done|]. simpl in *. by rewrite (IH f2) by lia.
Qed.

Definition pattern_tokens (info : compareInfo) (esc : Z) (cs : list Z) : list token :=
  tokens (length cs) info esc cs.

(** One step of the parser. *)
Lemma pattern_tokens_cons info esc c cs :
  pattern_tokens info esc (c :: cs) =
    if c =? matchAll info then TAny :: pattern_tokens info esc cs
    else if c =? matchOne info then TOne :: pattern_tokens info esc cs
    else if c =? matchSet info then
      match set_token cs with Some (t, r) => t :: pattern_tokens info esc r | None => [TFail] end
    else if c =? esc then match cs with d :: r => TChar d :: pattern_tokens info esc r | [] => [] end
    else TChar c :: pattern_tokens info esc cs.
Proof.
  unfold pattern_tokens. cbn [length tokens]. repeat (case_match; try done).
  - f_equal. apply tokens_fuel; [|done]. apply Nat.lt_le_incl. by eapply set_token_length.
  - subst. f_equal. apply tokens_fuel; simpl; lia.
Qed.

(** ** Matching after a wildcard *)

Lemma some_suffix_twice f s : some_suffix (some_suffix f) s = some_suffix f s.
Proof.
  induction s as [|c s IH]; cbn [some_suffix]; [by destruct (f [])|]. rewrite IH.
  by destruct (f (c :: s)), (some_suffix f s).
Qed.

Lemma any_any info ts s : matches info (TAny :: TAny :: ts) s = matches info (TAny :: ts) s.
Proof. apply some_suffix_twice. Qed.

Lemma any_one info ts c s : matches info (TAny :: TOne :: ts) (c :: s) = matches info (TAny :: ts) s.
Proof.
  cbn [matches]. revert c. induction s as [|d s IH]; intros c; [cbn; by rewrite orb_false_r|].
  cbn [some_suffix] in *. by rewrite <- (IH d).
Qed.

Lemma any_nil info s : matches info [TAny] s = true.
Proof. cbn [matches]. induction s as [|c s IH]; [done|]. by cbn [some_suffix]. Qed.

Lemma any_fail info t ts s : t ∈ [TOne; TFail] → s = [] ∨ t = TFail → matches info (TAny :: t :: ts) s = false.
Proof.
  intros Ht Hs. destruct Hs as [->| ->].
  - rewrite !list.elem_of_cons, list.elem_of_nil in Ht. naive_solver.
  - cbn [matches]. induction s as [|c s IH]; [done|]. cbn [some_suffix]. by rewrite IH.
Qed.

Lemma some_suffix_or f s : some_suffix f s = f s || match s with _ :: s' => some_suffix f s' | [] => false end.
Proof. by destruct s. Qed.

(** ** The matcher is [matches] *)

Section Compare.
Context (info : compareInfo) (esc : Z).
Hypothesis all_nz : matchAll info ≠ 0.
Hypothesis one_nz : matchOne info ≠ 0.
Hypothesis set_ascii : 0 ≤ matchSet info < 0x80.
Hypothesis set_or_esc : matchSet info = 0 ∨ esc = 0.

#[local] Abbreviation toks := (pattern_tokens info esc).

Lemma same_char_end c : c ≠ 0 → same_char info c 0 = false.
Proof.
  intros Hc. unfold same_char. destruct (noCase info); [|by apply Z.eqb_neq]. change (GlobUpperToLower 0) with 0.
  apply Z.eqb_neq. unfold GlobUpperToLower, sqlite3UpperToLower. repeat case_match; b2p; lia.
Qed.

(** The pattern is closed: only asked for when there is an escape character. *)
Definition closed (cs : list Z) : Prop := esc = 0 ∨ escape_closed info esc cs = true.

Lemma closed_cons c cs : closed (c :: cs) → c = matchAll info ∨ c = matchOne info ∨ c ≠ esc → closed cs.
Proof.
  intros [He|He] Hc; [by left|]. right. cbn [escape_closed] in He.
  destruct (Z.eqb_spec c esc), (Z.eqb_spec c (matchAll info)), (Z.eqb_spec c (matchOne info)); naive_solver.
Qed.

Lemma closed_escape cs : closed (esc :: cs) → esc ≠ 0 → esc ≠ matchAll info → esc ≠ matchOne info →
  ∃ d r, cs = d :: r ∧ closed r.
Proof.
  intros [He|He] H0 Ha Ho; [done|]. cbn [escape_closed] in He. rewrite Z.eqb_refl in He.
  destruct (Z.eqb_spec esc (matchAll info)), (Z.eqb_spec esc (matchOne info)); try done.
  cbn in He. destruct cs as [|d r]; [done|]. exists d, r. split; [done|by right].
Qed.

(** The run after a [matchAll] leaves the same question. *)
Lemma star_run_matches : ∀ cp fuel zp zs cs, chars_of zp cp → chars_of zs cs → (length cp < fuel)%nat → closed cp →
  (star_run info fuel zp zs = Some None ∧ matches info (TAny :: toks cp) cs = false) ∨
  ∃ c zp' zs' cs', star_run info fuel zp zs = Some (Some (c, zp', zs')) ∧ chars_of zs' cs' ∧
    ((c = 0 ∧ matches info (TAny :: toks cp) cs = true) ∨
     ∃ cp', c ≠ 0 ∧ c ≠ matchAll info ∧ c ≠ matchOne info ∧ chars_of zp' cp' ∧ closed (c :: cp') ∧
       (length zp' < length zp)%nat ∧ matches info (TAny :: toks cp) cs = matches info (TAny :: toks (c :: cp')) cs').
Proof.
  induction cp as [|c cp IH]; intros [|fuel] zp zs cs Hp Hs Hf Hcl; try lia; cbn [star_run].
  { right. read_stop Hp. rewrite (proj2 (Z.eqb_neq 0 _)), (proj2 (Z.eqb_neq 0 _)) by done.
    eexists _, _, _, _. split; [done|]. split; [done|]. left. split; [done|]. apply any_nil. }
  read_step Hp zp1 Hp1. rewrite (pattern_tokens_cons _ _ c cp).
  destruct (Z.eqb_spec c (matchAll info)) as [Ea|Ea]; [|destruct (Z.eqb_spec c (matchOne info)) as [Eo|Eo]].
  - rewrite any_any. destruct (IH fuel zp1 zs cs) as [?|(c' & zp' & zs' & cs' & ? & ? & Hr)]; try done;
      [simpl in Hf; lia|eapply closed_cons; eauto|by left|].
    right. eexists _, _, _, _. split; [done|]. split; [done|]. destruct Hr as [?|(cp' & ? & ? & ? & ? & ? & ? & ?)]; [by left|].
    right. exists cp'. repeat split; try done. lia.
  - destruct cs as [|d cs].
    { left. read_stop Hs. split; [done|]. apply any_fail; [set_solver|by left]. }
    read_step Hs zs1 Hs1. rewrite any_one.
    destruct (IH fuel zp1 zs1 cs) as [?|(c' & zp' & zs' & cs' & ? & ? & Hr)]; try done;
      [simpl in Hf; lia|eapply closed_cons; eauto|by left|].
    right. eexists _, _, _, _. split; [done|]. split; [done|]. destruct Hr as [?|(cp' & ? & ? & ? & ? & ? & ? & ?)]; [by left|].
    right. exists cp'. repeat split; try done. lia.
  - right. eexists _, _, _, _. split; [done|]. split; [done|]. right. exists cp. repeat split; try done.
    rewrite pattern_tokens_cons. by rewrite (proj2 (Z.eqb_neq _ _) Ea), (proj2 (Z.eqb_neq _ _) Eo).
Qed.

(** Trying the rest of the pattern after each occurrence of a character. *)
Lemma search_matches rest ts c : c ≠ 0 → (∀ z cs, chars_of z cs → rest z = Some (matches info ts cs)) →
  ∀ cs fuel z, chars_of z cs → (length cs < fuel)%nat →
  search info rest fuel c z = Some (matches info (TAny :: TChar c :: ts) cs).
Proof.
  intros Hc Hrest. induction cs as [|d cs IH]; intros [|fuel] z Hz Hf; try lia; cbn [search].
  { read_stop Hz. done. }
  read_step Hz z1 Hz1. cbn [matches] in *. cbn [some_suffix].
  destruct (same_char info c d); [|by rewrite IH by (done || simpl in Hf; lia)].
  rewrite (Hrest _ _ Hz1). cbn [mbind option_bind andb orb]. destruct (matches info ts cs); [done|].
  by rewrite IH by (done || simpl in Hf; lia).
Qed.

Lemma search_set_matches rest ts : matches info ts [] = false →
  (∀ z cs, chars_of z cs → rest z = Some (matches info ts cs)) →
  ∀ cs fuel z, chars_of z cs → (length cs < fuel)%nat →
  search_set rest fuel z = Some (matches info (TAny :: ts) cs).
Proof.
  intros Hnil Hrest. induction cs as [|d cs IH]; intros [|fuel] z Hz Hf; try lia; cbn [search_set].
  { read_stop Hz. cbn [matches some_suffix]. by rewrite Hnil. }
  rewrite (Hrest _ _ Hz). cbn [matches] in *. cbn [some_suffix].
  inversion Hz as [|b w z' c' cs' E1 E2 Hn Hb Heq Hl Hz']; subst. cbn [head mbind option_bind].
  rewrite (proj2 (Z.eqb_neq b 0) Hb). destruct (matches info ts (d :: cs)); [done|]. rewrite E2. cbn [mbind option_bind].
  by rewrite IH by (done || simpl in Hf; lia).
Qed.

(** The branch of a [matchAll], given the matcher on shorter patterns. *)
Lemma star_matches fuel cp zp zs cs :
  (∀ zp cp zs cs, chars_of zp cp → chars_of zs cs → (length zp ≤ fuel)%nat → closed cp →
    patternCompare fuel info esc false zp zs = Some (matches info (toks cp) cs)) →
  chars_of zp cp → chars_of zs cs → (length zp ≤ fuel)%nat → closed cp →
  (o ← star_run info (length zp) zp zs;
   match o with
   | None => Some false
   | Some (c, zp, zs) =>
       if c =? 0 then Some true
       else if c =? esc then
         '(c, zp) ← sqlite3Utf8Read zp;
         if c =? 0 then Some false
         else search info (patternCompare fuel info esc false zp) (length zs) c zs
       else if c =? matchSet info then
         if negb (esc =? 0) || (0x80 <=? matchSet info) then None
         else search_set (patternCompare fuel info esc false (c :: zp)) (length zs) zs
       else search info (patternCompare fuel info esc false zp) (length zs) c zs
   end) = Some (matches info (TAny :: toks cp) cs).
Proof.
  intros IH Hp Hs Hf Hcl.
  destruct (star_run_matches cp (length zp) zp zs cs Hp Hs) as [[-> ->]|(c & zp' & zs' & cs' & -> & Hs' & Hr)];
    [by apply length_chars_of|done|done|]. cbn [mbind option_bind].
  destruct Hr as [[-> ->]|(cp' & Hc & Ha & Ho & Hp' & Hcl' & Hl & ->)]; [done|].
  rewrite (proj2 (Z.eqb_neq c 0) Hc). pose proof (length_chars_of _ _ Hs') as Hls. rewrite pattern_tokens_cons.
  rewrite (proj2 (Z.eqb_neq _ _) Ha), (proj2 (Z.eqb_neq _ _) Ho).
  destruct (Z.eqb_spec c esc) as [->|He]; [|destruct (Z.eqb_spec c (matchSet info)) as [->|Hset]].
  - rewrite (proj2 (Z.eqb_neq esc (matchSet info))) by (destruct set_or_esc; congruence).
    destruct (closed_escape cp' Hcl') as (d & r & -> & Hclr); try done. read_step Hp' zp2 Hp2.
    apply search_matches; try done. intros z cs'' Hz. apply IH; try done. lia.
  - assert (esc = 0) as He0 by tauto. assert (closed cp') as Hcl2 by (by left).
    rewrite (proj2 (Z.eqb_eq _ _) He0), (proj2 (Z.leb_gt 0x80 _)) by lia. cbn [negb orb].
    assert (toks (matchSet info :: cp') = match set_token cp' with Some (t, r) => t :: toks r | None => [TFail] end) as Et.
    { rewrite pattern_tokens_cons. by rewrite (proj2 (Z.eqb_neq _ _) Ha), (proj2 (Z.eqb_neq _ _) Ho), Z.eqb_refl. }
    rewrite <- Et. apply search_set_matches; try done.
    + rewrite Et. unfold set_token. repeat case_match; try done; simplify_option_eq; by repeat case_match; simplify_eq/=.
    + intros z cs'' Hz. apply IH; try done; [apply chars_of_ascii; [lia|done]|simpl; lia].
  - apply search_matches; try done. intros z cs'' Hz. apply IH; try done; [lia|].
    eapply closed_cons; [done|]. tauto.
Qed.

Lemma patternCompare_spec fuel : ∀ zp cp zs cs, chars_of zp cp → chars_of zs cs → (length zp ≤ fuel)%nat → closed cp →
  patternCompare fuel info esc false zp zs = Some (matches info (toks cp) cs).
Proof.
  induction fuel as [fuel IH] using lt_wf_ind. intros zp cp zs cs Hp Hs Hf Hcl.
  destruct fuel as [|fuel]; [apply length_chars_of in Hp; lia|]. cbn [patternCompare]. destruct cp as [|c cp].
  { read_stop Hp. destruct (head_char _ _ Hs) as (b & -> & Eb & _). cbn [mbind option_bind Z.eqb]. rewrite Eb. by destruct cs. }
  read_step Hp zp1 Hp1. rewrite pattern_tokens_cons. rewrite !andb_true_r. cbn [negb].
  destruct (Z.eqb_spec c (matchAll info)) as [Ea|Ea]; [|destruct (Z.eqb_spec c (matchOne info)) as [Eo|Eo]].
  - apply star_matches; try done; [intros; apply IH; auto; lia|lia|]. eapply closed_cons; eauto.
  - destruct cs as [|d cs]; [by read_stop Hs|]. read_step Hs zs1 Hs1.
    cbn [matches]. apply IH; auto; try lia. eapply closed_cons; eauto.
  - destruct (Z.eqb_spec c (matchSet info)) as [Eset|Eset].
    + assert (esc = 0) as He0 by (destruct set_or_esc; congruence). rewrite (proj2 (Z.eqb_eq _ _) He0). cbn [negb].
      destruct cs as [|d cs].
      { read_stop Hs. f_equal. unfold set_token. repeat case_match; try done; simplify_option_eq; by repeat case_match; simplify_eq/=. }
      read_step Hs zs1 Hs1. destruct (match_set_token d zp1 cp Hp1) as (ok & zp2 & Em & Ht).
      rewrite Em. cbn [mbind option_bind]. destruct (set_token cp) as [[t r]|]; [|by subst ok].
      destruct Ht as [Hr ->]. destruct ok; [|done]. cbn [andb]. apply IH; try done; [lia| |by left].
      apply match_set_length in Em. lia.
    + destruct (Z.eqb_spec c esc) as [->|He].
      * destruct (closed_escape cp Hcl) as (d & r & -> & Hclr); try done.
        pose proof (length_chars_of _ _ Hp1). destruct fuel as [|fuel]; [simpl in *; lia|].
        cbn [patternCompare]. read_step Hp1 zp2 Hp2. rewrite !andb_false_r. cbn [negb].
        assert (d ≠ matchSet info) as Hds by (destruct set_or_esc; congruence).
        rewrite (proj2 (Z.eqb_neq _ _) Hds). destruct cs as [|e cs].
        { read_stop Hs. by rewrite same_char_end. }
        read_step Hs zs1 Hs1. cbn [matches]. destruct (same_char info d e); [|done]. cbn [andb].
        apply IH; auto; lia.
      * destruct cs as [|d cs].
        { read_stop Hs. by rewrite same_char_end. }
        read_step Hs zs1 Hs1. cbn [matches]. destruct (same_char info c d); [|done]. cbn [andb].
        apply IH; auto; [lia|]. eapply closed_cons; [done|]. tauto.
Qed.
End Compare.

(** C34: LIKE and GLOB: on any pattern and string, valid UTF-8 or not, the
    matcher stops without reading past a terminator and without failing its
    assertions, and its answer is that of [matches], which reads the pattern as
    tokens (any sequence, any character, a list of ranges, an escaped or
    ordinary character) and tries every way to split the string; provided that
    lists are not combined with an escape character, as in both operators, and
    the pattern does not end with the escape character. *)
Theorem patternCompare_matches info esc p s :
  matchAll info ≠ 0 → matchOne info ≠ 0 → 0 ≤ matchSet info < 0x80 → matchSet info = 0 ∨ esc = 0 →
  text p → text s → escape_closed info esc (characters p) = true →
  patternCompare (length (p ++ [0])) info esc false (p ++ [0]) (s ++ [0])
    = Some (matches info (pattern_tokens info esc (characters p)) (characters s)).
Proof.
  intros Ha Ho Hset Hse Hp Hs Hcl. apply patternCompare_spec; try done.
  - by apply chars_of_text.
  - by apply chars_of_text.
  - by right.
Qed.

Lemma patternCompare_matches_witness :
  patternCompare 8 globInfo 0 false [42; 91; 97; 45; 99; 93; 63; 0] [120; 98; 0xC3; 0xA9; 0] = Some true ∧
  patternCompare 5 likeInfoNorm 92 false [37; 92; 37; 65; 0] [120; 37; 97; 0] = Some true.
Proof.
  split.
  - etransitivity; [apply (patternCompare_matches globInfo 0 [42; 91; 97; 45; 99; 93; 63] [120; 98; 0xC3; 0xA9])|reflexivity];
      try (right; reflexivity); try done; repeat constructor; try lia.
  - etransitivity; [apply (patternCompare_matches likeInfoNorm 92 [37; 92; 37; 65] [120; 37; 97])|reflexivity];
      try (left; reflexivity); try done; repeat constructor; try lia.
Defined.
