(* ===== verification/Varint.v ===== *)
(** * Variable-length integers

    Models the integer encodings of src/util.c: [sqlite3PutVarint],
    [sqlite3GetVarint] with its unrolled decoding in 32-bit variables,
    [sqlite3GetVarint32], [sqlite3PutVarint32] (with the macros [getVarint32]
    and [putVarint32] of src/sqliteInt.h), [sqlite3VarintLen],
    [sqlite3Get4byte] and [sqlite3Put4byte], and relates them to a plain
    byte-by-byte reference. *)

From S2P Require Import Prelude Bits.
#[local] Open Scope Z_scope.
#[local] Open Scope c_scope.
#[local] Open Scope list_scope.

(** [p[i]] *)
Definition byte_at (p : list Z) (i : Z) : outcome Z :=
  match zlookup p i with Some b => Ret b | None => Undef OutOfBounds end.

Definition SLOT_2_0 : Z := 0x001fc07f.
Definition SLOT_4_2_0 : Z := 0xf01fc07f.

(** [!(x & 0x80)] *)
Definition no_flag (x : Z) : bool := x .& 0x80 =? 0.

(** ** Writing *)

(** The loop [for(i=7; i>=0; i--)] that fills [p[0..7]], from the last. *)
Fixpoint put_fixed (n : nat) (v : Z) : list Z :=
  match n with
  | O => []
  | S n' => put_fixed n' (v .>> 7) ++ [u8 ((v .& 0x7f) .| 0x80)]
  end.

(** The [do ... while( v!=0 )] loop: the bytes of [buf], first written first. *)
Fixpoint put_loop (fuel : nat) (v : Z) : list Z :=
  match fuel with
  | O => []
  | S fuel' =>
      let b := u8 ((v .& 0x7f) .| 0x80) in
      let v := v .>> 7 in
      b :: (if v =? 0 then [] else put_loop fuel' v)
  end.

(** [sqlite3PutVarint]: the bytes written, whose number is returned.  The
    buffer has ten bytes. *)
Definition sqlite3PutVarint (v : Z) : list Z :=
  if negb (v .& (0xff000000 .<< 32) =? 0) then
    put_fixed 8 (v .>> 8) ++ [u8 v]
  else
    match put_loop 10 v with
    | [] => []
    | b0 :: buf => rev ((b0 .& 0x7f) :: buf)
    end.

(** The one-byte case of [sqlite3PutVarint32] is compiled out: the macro
    [putVarint32] has it. *)
Definition sqlite3PutVarint32 (v : Z) : list Z :=
  if v .& u32 (Z.lnot 0x3fff) =? 0 then [u8 ((v .>> 7) .| 0x80); u8 (v .& 0x7f)]
  else sqlite3PutVarint v.

Definition putVarint32 (v : Z) : list Z :=
  if v <? 0x80 then [u8 v] else sqlite3PutVarint32 v.

(** ** Reading *)

(** [sqlite3GetVarint]: the value and the number of bytes read. *)
Definition sqlite3GetVarint (p : list Z) : outcome (Z * Z) :=
  a ← byte_at p 0;
  if no_flag a then Ret (a, 1) else
  b ← byte_at p 1;
  if no_flag b then
    let a := a .& 0x7f in
    let a := u32 (a .<< 7) in
    let a := a .| b in
    Ret (a, 2) else
  p2 ← byte_at p 2;
  let a := u32 (a .<< 14) in
  let a := a .| p2 in
  if no_flag a then
    let a := a .& SLOT_2_0 in
    let b := b .& 0x7f in
    let b := u32 (b .<< 7) in
    let a := a .| b in
    Ret (a, 3) else
  let a := a .& SLOT_2_0 in
  p3 ← byte_at p 3;
  let b := u32 (b .<< 14) in
  let b := b .| p3 in
  if no_flag b then
    let b := b .& SLOT_2_0 in
    let a := u32 (a .<< 7) in
    let a := a .| b in
    Ret (a, 4) else
  let b := b .& SLOT_2_0 in
  let s := a in
  p4 ← byte_at p 4;
  let a := u32 (a .<< 14) in
  let a := a .| p4 in
  if no_flag a then
    let b := u32 (b .<< 7) in
    let a := a .| b in
    let s := s .>> 18 in
    Ret ((s .<< 32) .| a, 5) else
  let s := u32 (s .<< 7) in
  let s := s .| b in
  p5 ← byte_at p 5;
  let b := u32 (b .<< 14) in
  let b := b .| p5 in
  if no_flag b then
    let a := a .& SLOT_2_0 in
    let a := u32 (a .<< 7) in
    let a := a .| b in
    let s := s .>> 18 in
    Ret ((s .<< 32) .| a, 6) else
  p6 ← byte_at p 6;
  let a := u32 (a .<< 14) in
  let a := a .| p6 in
  if no_flag a then
    let a := a .& SLOT_4_2_0 in
    let b := b .& SLOT_2_0 in
    let b := u32 (b .<< 7) in
    let a := a .| b in
    let s := s .>> 11 in
    Ret ((s .<< 32) .| a, 7) else
  let a := a .& SLOT_2_0 in
  p7 ← byte_at p 7;
  let b := u32 (b .<< 14) in
  let b := b .| p7 in
  if no_flag b then
    let b := b .& SLOT_4_2_0 in
    let a := u32 (a .<< 7) in
    let a := a .| b in
    let s := s .>> 4 in
    Ret ((s .<< 32) .| a, 8) else
  p8 ← byte_at p 8;
  let a := u32 (a .<< 15) in
  let a := a .| p8 in
  let b := b .& SLOT_2_0 in
  let b := u32 (b .<< 8) in
  let a := a .| b in
  let s := u32 (s .<< 4) in
  let b := p4 in
  let b := b .& 0x7f in
  let b := b .>> 3 in
  let s := s .| b in
  Ret ((s .<< 32) .| a, 9).

(** [sqlite3GetVarint32], called when the first byte has its flag set. *)
Definition sqlite3GetVarint32 (p : list Z) : outcome (Z * Z) :=
  a ← byte_at p 0;
  b ← byte_at p 1;
  if no_flag b then
    let a := a .& 0x7f in
    let a := u32 (a .<< 7) in
    Ret (a .| b, 2) else
  p2 ← byte_at p 2;
  let a := u32 (a .<< 14) in
  let a := a .| p2 in
  if no_flag a then
    let a := a .& ((0x7f .<< 14) .| 0x7f) in
    let b := b .& 0x7f in
    let b := u32 (b .<< 7) in
    Ret (a .| b, 3) else
  '(v64, n) ← sqlite3GetVarint p;
  _ ← c_assert ((3 <? n) && (n <=? 9));
  Ret (if negb (v64 .& 0xffffffff =? v64) then 0xffffffff else u32 v64, n).

(** [getVarint32] with its inlined one-byte case. *)
Definition getVarint32 (p : list Z) : outcome (Z * Z) :=
  a ← byte_at p 0;
  if a <? 0x80 then Ret (a, 1) else sqlite3GetVarint32 p.

Fixpoint len_loop (fuel : nat) (i v : Z) : Z :=
  match fuel with
  | O => i
  | S fuel' =>
      let i := i + 1 in
      let v := v .>> 7 in
      if negb (v =? 0) && (i <? 9) then len_loop fuel' i v else i
  end.

Definition sqlite3VarintLen (v : Z) : Z := len_loop 10 0 v.

(** ** Four bytes *)

Definition sqlite3Get4byte (p : list Z) : outcome Z :=
  p0 ← byte_at p 0; p1 ← byte_at p 1; p2 ← byte_at p 2; p3 ← byte_at p 3;
  Ret (u32 (p0 .<< 24) .| (p1 .<< 16) .| (p2 .<< 8) .| p3).

Definition sqlite3Put4byte (v : Z) : list Z :=
  [u8 (v .>> 24); u8 (v .>> 16); u8 (v .>> 8); u8 v].

(** ** The reference *)

(** Seven bits a byte, most significant first, up to a byte without the flag;
    a ninth byte counts whole. *)
Fixpoint ref_get (fuel : nat) (v : Z) (n : Z) (p : list Z) : outcome (Z * Z) :=
  match p with
  | [] => Undef OutOfBounds
  | b :: p' =>
      match fuel with
      | O => Ret (v * 256 + b, n + 1)
      | S fuel' =>
          if b <? 128 then Ret (v * 128 + b, n + 1)
          else ref_get fuel' (v * 128 + (b - 128)) (n + 1) p'
      end
  end.
Definition varint_value (p : list Z) : outcome (Z * Z) := ref_get 8 0 0 p.

Definition bytes_ok (p : list Z) : Prop := Forall (λ b, 0 ≤ b < 256) p.

(** ** The reference with bit operations *)

Fixpoint ref_bits (fuel : nat) (v : Z) (n : Z) (p : list Z) : outcome (Z * Z) :=
  match p with
  | [] => Undef OutOfBounds
  | b :: p' =>
      match fuel with
      | O => Ret ((v .<< 8) .| b, n + 1)
      | S fuel' =>
          if no_flag b then Ret ((v .<< 7) .| b, n + 1)
          else ref_bits fuel' ((v .<< 7) .| (b .& 0x7f)) (n + 1) p'
      end
  end.

Lemma no_flag_lt b : 0 ≤ b < 256 → no_flag b = (b <? 128).
Proof.
  intros Hb. apply Bool.eqb_prop, (byte_cases (λ b, Bool.eqb (no_flag b) (b <? 128))); [reflexivity|done].
Qed.

Lemma low_bits b : 128 ≤ b < 256 → b .& 0x7f = b - 128.
Proof.
  intros Hb. apply Z.eqb_eq.
  assert ((b <? 128) || (b .& 0x7f =? b - 128) = true) as H
    by (apply (byte_cases (λ b, (b <? 128) || (b .& 0x7f =? b - 128))); [reflexivity|lia]).
  destruct (Z.ltb_spec b 128); [lia|done].
Qed.

(** Appending [k] low bits. *)
Lemma append_bits v x k : 0 ≤ k → 0 ≤ x < 2 ^ k → (v .<< k) .| x = v * 2 ^ k + x.
Proof.
  intros Hk Hx. assert ((v .<< k) .& x = 0) as Hd.
  { apply Z.bits_inj'. intros n Hn. rewrite Z.land_spec, Z.bits_0, Z.shiftl_spec by done.
    destruct (Z.ltb_spec n k); [by rewrite Z.testbit_neg_r by lia|].
    rewrite (testbit_high x k) by lia. apply andb_false_r. }
  by rewrite <- Z.lxor_lor, <- Z.add_nocarry_lxor, Z.shiftl_mul_pow2 by done.
Qed.

Lemma ref_get_bits fuel v n p : bytes_ok p → ref_get fuel v n p = ref_bits fuel v n p.
Proof.
  intros Hp. revert fuel v n. induction Hp as [|b p Hb Hp IH]; intros fuel v n; [by destruct fuel|].
  destruct fuel as [|fuel]; simpl.
  - by rewrite append_bits by lia.
  - rewrite no_flag_lt by done. destruct (Z.ltb_spec b 128).
    + by rewrite append_bits by lia.
    + rewrite low_bits by lia. rewrite append_bits by lia. apply IH.
Qed.

Lemma no_flag_range b : 0 ≤ b < 256 → no_flag b = true → 0 ≤ b < 2 ^ 7.
Proof. intros Hb. rewrite no_flag_lt by done. intros ?%Z.ltb_lt. lia. Qed.

(** The flag tested is that of the last byte read. *)
Ltac flag_of p vars :=
  lazymatch goal with
  | |- context [no_flag (Z.lor ?x p)] =>
      replace (no_flag (Z.lor x p)) with (no_flag p)
        by (unfold no_flag; f_equal; bits_eq vars)
  end.

(** Read the next byte of [p]. *)
Ltac next_byte Hp p b H := destruct p as [|b p]; [done|]; apply list.Forall_cons in Hp as [H Hp];
  match goal with |- context [byte_at ?l ?i] => change (byte_at l i) with (Ret b) end;
  cbn [mbind outcome_bind ref_bits].

Lemma sqlite3GetVarint_bits p : bytes_ok p → sqlite3GetVarint p = ref_bits 8 0 0 p.
Proof.
  intros Hp. unfold sqlite3GetVarint.
  next_byte Hp p p0 H0. destruct (no_flag p0) eqn:F0.
  { apply no_flag_range in F0; [|done]. by do 2 f_equal. }
  next_byte Hp p p1 H1. destruct (no_flag p1) eqn:F1.
  { apply no_flag_range in F1; [|done]. do 2 f_equal. bits_eq [(p0, 8); (p1, 7)]. }
  next_byte Hp p p2 H2. cbv zeta. flag_of p2 [(p0, 8); (p2, 8)]. destruct (no_flag p2) eqn:F2.
  { apply no_flag_range in F2; [|done]. do 2 f_equal. bits_eq [(p0, 8); (p1, 8); (p2, 7)]. }
  next_byte Hp p p3 H3. flag_of p3 [(p1, 8); (p3, 8)]. destruct (no_flag p3) eqn:F3.
  { apply no_flag_range in F3; [|done]. do 2 f_equal. bits_eq [(p0, 8); (p1, 8); (p2, 8); (p3, 7)]. }
  next_byte Hp p p4 H4. flag_of p4 [(p0, 8); (p2, 8); (p4, 8)]. destruct (no_flag p4) eqn:F4.
  { apply no_flag_range in F4; [|done]. do 2 f_equal.
    bits_eq [(p0, 8); (p1, 8); (p2, 8); (p3, 8); (p4, 7)]. }
  next_byte Hp p p5 H5. flag_of p5 [(p1, 8); (p3, 8); (p5, 8)]. destruct (no_flag p5) eqn:F5.
  { apply no_flag_range in F5; [|done]. do 2 f_equal.
    bits_eq [(p0, 8); (p1, 8); (p2, 8); (p3, 8); (p4, 8); (p5, 7)]. }
  next_byte Hp p p6 H6. flag_of p6 [(p0, 8); (p2, 8); (p4, 8); (p6, 8)]. destruct (no_flag p6) eqn:F6.
  { apply no_flag_range in F6; [|done]. do 2 f_equal.
    bits_eq [(p0, 8); (p1, 8); (p2, 8); (p3, 8); (p4, 8); (p5, 8); (p6, 7)]. }
  next_byte Hp p p7 H7. flag_of p7 [(p1, 8); (p3, 8); (p5, 8); (p7, 8)]. destruct (no_flag p7) eqn:F7.
  { apply no_flag_range in F7; [|done]. do 2 f_equal.
    bits_eq [(p0, 8); (p1, 8); (p2, 8); (p3, 8); (p4, 8); (p5, 8); (p6, 8); (p7, 7)]. }
  next_byte Hp p p8 H8. do 2 f_equal.
  bits_eq [(p0, 8); (p1, 8); (p2, 8); (p3, 8); (p4, 8); (p5, 8); (p6, 8); (p7, 8); (p8, 8)].
Qed.

(** ** What is written *)

Lemma flagged_byte v : 0 ≤ v → u8 ((v .& 0x7f) .| 0x80) = 128 + v mod 128.
Proof.
  intros Hv. change 0x7f with (Z.ones 7). rewrite Z.land_ones by lia. change (2 ^ 7) with 128.
  assert (0 ≤ v mod 128 < 128) as Hm by (apply Z.mod_pos_bound; lia).
  generalize dependent (v mod 128). intros b Hb. apply Z.eqb_eq.
  assert ((128 <=? b) || (u8 (b .| 0x80) =? 128 + b) = true) as H
    by (apply (byte_cases (λ b, (128 <=? b) || (u8 (b .| 0x80) =? 128 + b))); [reflexivity|lia]).
  destruct (Z.leb_spec 128 b); [lia|done].
Qed.

Lemma shiftr7 v : v .>> 7 = v / 128.
Proof. by rewrite Z.shiftr_div_pow2. Qed.

(** [m] groups of seven bits carry a value below [2 ^ (7 m)]. *)
Lemma ref_get_put_fixed m : ∀ fuel acc n v rest,
  (m ≤ fuel)%nat → 0 ≤ v < 2 ^ (7 * Z.of_nat m) →
  ref_get fuel acc n (put_fixed m v ++ rest) =
  ref_get (fuel - m) (acc * 2 ^ (7 * Z.of_nat m) + v) (n + Z.of_nat m) rest.
Proof.
  induction m as [|m IH]; intros fuel acc n v rest Hm Hv.
  - change (2 ^ (7 * Z.of_nat 0)) with 1 in *. replace (acc * 1 + v) with acc by lia.
    by rewrite Nat.sub_0_r, Z.add_0_r.
  - replace (7 * Z.of_nat (S m)) with (7 * Z.of_nat m + 7) in * by lia.
    rewrite Z.pow_add_r in * by lia. change (2 ^ 7) with 128 in *.
    cbn [put_fixed]. rewrite <- app_assoc, shiftr7, flagged_byte by lia.
    assert (0 ≤ v / 128 < 2 ^ (7 * Z.of_nat m)).
    { split; [apply Z.div_pos; lia|apply Z.div_lt_upper_bound; lia]. }
    assert (0 ≤ v mod 128 < 128) by (apply Z.mod_pos_bound; lia).
    rewrite IH by (done || lia). cbn [app].
    replace (fuel - m)%nat with (S (fuel - S m)) by lia. cbn [ref_get].
    destruct (Z.ltb_spec (128 + v mod 128) 128); [lia|].
    f_equal; [|lia]. pose proof (Z.div_mod v 128). lia.
Qed.

(** The loop writes the fewest groups that hold the value, as many as
    [sqlite3VarintLen] counts. *)
Lemma put_loop_groups k : ∀ fuel v,
  0 ≤ v < 2 ^ (7 * Z.of_nat k) → (0 < k ≤ fuel)%nat →
  ∃ m, (m < k)%nat ∧ 0 ≤ v / 128 < 2 ^ (7 * Z.of_nat m) ∧
       put_loop fuel v = (128 + v mod 128) :: rev (put_fixed m (v / 128)) ∧
       ∀ i, i + Z.of_nat m < 9 → len_loop fuel i v = i + 1 + Z.of_nat m.
Proof.
  induction k as [|k IH]; intros fuel v Hv Hf; [lia|]. destruct fuel as [|fuel]; [lia|].
  cbn [put_loop len_loop]. rewrite flagged_byte, shiftr7 by lia.
  assert (0 ≤ v / 128) by (apply Z.div_pos; lia).
  replace (7 * Z.of_nat (S k)) with (7 + 7 * Z.of_nat k) in Hv by lia.
  rewrite Z.pow_add_r in Hv by lia.
  assert (v / 128 < 2 ^ (7 * Z.of_nat k)) by (apply Z.div_lt_upper_bound; lia).
  destruct (Z.eqb_spec (v / 128) 0) as [E|E].
  - exists 0%nat. rewrite E. repeat split; try (done || lia). intros i Hi. simpl. lia.
  - destruct (IH fuel (v / 128)) as (m & Hm & Hr & Hp & Hl); [done| |].
    { destruct k; [|lia]. change (2 ^ (7 * Z.of_nat 0)) with 1 in *. lia. }
    exists (S m). split_and!; [lia|done| | |].
    + replace (7 * Z.of_nat (S m)) with (7 + 7 * Z.of_nat m) by lia. rewrite Z.pow_add_r by lia.
      pose proof (Z.div_mod (v / 128) 128). pose proof (Z.mod_pos_bound (v / 128) 128). lia.
    + rewrite Hp. cbn [put_fixed]. by rewrite rev_app_distr, flagged_byte, shiftr7 by done.
    + intros i Hi. destruct (Z.ltb_spec (i + 1) 9); [|lia]. simpl. rewrite Hl by lia. lia.
Qed.

Lemma low7 x : 0 ≤ x < 128 → (128 + x) .& 0x7f = x.
Proof. intros Hx. rewrite low_bits; lia. Qed.

(** The test that selects the nine-byte form. *)
Lemma top_byte v : 0 ≤ v < 2 ^ 64 → (v .& (0xff000000 .<< 32) =? 0) = (v <? 2 ^ 56).
Proof.
  intros Hv. replace (v .& (0xff000000 .<< 32)) with ((v .>> 56) .<< 56) by bits_eq [(v, 64)].
  rewrite Z.shiftl_mul_pow2, Z.shiftr_div_pow2 by lia.
  destruct (Z.ltb_spec v (2 ^ 56)) as [H|H].
  - rewrite Z.div_small by lia. done.
  - apply Z.eqb_neq. assert (1 ≤ v / 2 ^ 56) by (apply Z.div_le_lower_bound; lia). lia.
Qed.

(** What [sqlite3PutVarint] writes, in groups of seven bits. *)
Lemma sqlite3PutVarint_groups v :
  0 ≤ v < 2 ^ 56 →
  ∃ m, (m ≤ 7)%nat ∧ 0 ≤ v / 128 < 2 ^ (7 * Z.of_nat m) ∧
       sqlite3PutVarint v = put_fixed m (v / 128) ++ [v mod 128] ∧
       sqlite3VarintLen v = 1 + Z.of_nat m.
Proof.
  intros Hv. unfold sqlite3PutVarint. rewrite top_byte by lia.
  destruct (Z.ltb_spec v (2 ^ 56)); [cbn [negb]|lia].
  destruct (put_loop_groups 8 10 v) as (m & Hm & Hr & Hp & Hl); [done|lia|].
  exists m. rewrite Hp. cbn [rev]. rewrite rev_involutive, low7 by (apply Z.mod_pos_bound; lia).
  split_and!; [lia|lia|lia|done|]. unfold sqlite3VarintLen. rewrite Hl by lia. lia.
Qed.

Lemma length_put_fixed m v : length (put_fixed m v) = m.
Proof. revert v. induction m as [|m IH]; intros v; [done|]. simpl. rewrite length_app, IH. simpl. lia. Qed.

Lemma len_loop_nine k : ∀ fuel i v,
  2 ^ (7 * Z.of_nat k) ≤ v → i + Z.of_nat k = 8 → (k < fuel)%nat → len_loop fuel i v = 9.
Proof.
  induction k as [|k IH]; intros fuel i v Hv Hi Hf; (destruct fuel as [|fuel]; [lia|]); cbn [len_loop].
  - replace i with 8 by lia. by rewrite andb_false_r.
  - rewrite shiftr7. replace (7 * Z.of_nat (S k)) with (7 + 7 * Z.of_nat k) in Hv by lia.
    rewrite Z.pow_add_r in Hv by lia.
    assert (2 ^ (7 * Z.of_nat k) ≤ v / 128) by (apply Z.div_le_lower_bound; lia).
    assert (0 < 2 ^ (7 * Z.of_nat k)) by (apply Z.pow_pos_nonneg; lia).
    destruct (Z.eqb_spec (v / 128) 0); [lia|]. destruct (Z.ltb_spec (i + 1) 9); [|lia].
    apply IH; lia || done.
Qed.

(** The longest varint: the top byte of [v] is in use. *)
Lemma sqlite3PutVarint_nine v :
  2 ^ 56 ≤ v < 2 ^ 64 →
  sqlite3PutVarint v = put_fixed 8 (v / 256) ++ [v mod 256] ∧ sqlite3VarintLen v = 9.
Proof.
  intros Hv. unfold sqlite3PutVarint. rewrite top_byte by lia.
  destruct (Z.ltb_spec v (2 ^ 56)); [lia|]. cbn [negb]. split; [by rewrite Z.shiftr_div_pow2|].
  apply (len_loop_nine 8); lia.
Qed.

Lemma put_fixed_ok m v : 0 ≤ v → bytes_ok (put_fixed m v).
Proof.
  revert v. induction m as [|m IH]; intros v Hv; [constructor|]. cbn [put_fixed].
  apply Forall_app_2; [apply IH; rewrite shiftr7; apply Z.div_pos; lia|].
  rewrite flagged_byte by done. repeat constructor; pose proof (Z.mod_pos_bound v 128); lia.
Qed.

(** A varint is at most nine bytes, as many as [sqlite3VarintLen] says. *)
Lemma sqlite3PutVarint_shape v :
  0 ≤ v < 2 ^ 64 →
  bytes_ok (sqlite3PutVarint v) ∧ 1 ≤ sqlite3VarintLen v ≤ 9 ∧
  Z.of_nat (length (sqlite3PutVarint v)) = sqlite3VarintLen v ∧
  ∀ rest, varint_value (sqlite3PutVarint v ++ rest) = Ret (v, sqlite3VarintLen v).
Proof.
  intros Hv. destruct (Z.ltb_spec v (2 ^ 56)).
  - destruct (sqlite3PutVarint_groups v) as (m & Hm & Hr & -> & ->); [lia|].
    pose proof (Z.mod_pos_bound v 128). pose proof (Z.div_mod v 128). split_and!; try lia.
    + apply Forall_app_2; [apply put_fixed_ok; lia|repeat constructor; lia].
    + rewrite length_app, length_put_fixed. simpl. lia.
    + intros rest. rewrite <- app_assoc. unfold varint_value. rewrite ref_get_put_fixed by (done || lia).
      replace (8 - m)%nat with (S (7 - m)) by lia. cbn [app ref_get].
      destruct (Z.ltb_spec (v mod 128) 128); [|lia]. do 2 f_equal; lia.
  - destruct (sqlite3PutVarint_nine v) as [-> ->]; [lia|].
    pose proof (Z.mod_pos_bound v 256). pose proof (Z.div_mod v 256).
    assert (0 ≤ v / 256) by (apply Z.div_pos; lia). split_and!; try lia.
    + apply Forall_app_2; [apply put_fixed_ok; lia|repeat constructor; lia].
    + rewrite length_app, length_put_fixed. simpl. lia.
    + intros rest. rewrite <- app_assoc. unfold varint_value. rewrite ref_get_put_fixed.
      * cbn [Nat.sub app ref_get]. do 2 f_equal; lia.
      * lia.
      * split; [done|]. apply Z.div_lt_upper_bound; lia.
Qed.

Lemma two_bytes v : 0 ≤ v < 2 ^ 32 → (v .& u32 (Z.lnot 0x3fff) =? 0) = (v <? 0x4000).
Proof.
  intros Hv. replace (v .& u32 (Z.lnot 0x3fff)) with ((v .>> 14) .<< 14)
    by (change (u32 (Z.lnot 0x3fff)) with 0xffffc000; bits_eq [(v, 32)]).
  rewrite Z.shiftl_mul_pow2, Z.shiftr_div_pow2 by lia.
  destruct (Z.ltb_spec v 0x4000) as [H|H].
  - rewrite Z.div_small by lia. done.
  - apply Z.eqb_neq. assert (1 ≤ v / 2 ^ 14) by (apply Z.div_le_lower_bound; lia). lia.
Qed.

(** [putVarint32] abbreviates [sqlite3PutVarint]. *)
Lemma putVarint32_eq v : 0 ≤ v < 2 ^ 32 → putVarint32 v = sqlite3PutVarint v.
Proof.
  intros Hv. unfold putVarint32, sqlite3PutVarint32. rewrite two_bytes by done.
  destruct (Z.ltb_spec v 0x80); [|destruct (Z.ltb_spec v 0x4000); [|done]].
  - unfold sqlite3PutVarint. rewrite top_byte by lia.
    destruct (Z.ltb_spec v (2 ^ 56)); [cbn [negb put_loop]|lia].
    rewrite shiftr7, Z.div_small by lia. cbn [Z.eqb rev app].
    rewrite flagged_byte, Z.mod_small, low7 by lia. unfold uw. by rewrite Z.mod_small by lia.
  - unfold sqlite3PutVarint. rewrite top_byte by lia.
    destruct (Z.ltb_spec v (2 ^ 56)); [cbn [negb put_loop]|lia].
    rewrite !shiftr7, flagged_byte by lia.
    assert (1 ≤ v / 128 < 128) by (split; [apply Z.div_le_lower_bound|apply Z.div_lt_upper_bound]; lia).
    destruct (Z.eqb_spec (v / 128) 0); [lia|]. rewrite (Z.div_small (v / 128)) by lia.
    cbn [Z.eqb rev app]. rewrite flagged_byte, low7 by (lia || apply Z.mod_pos_bound; lia).
    f_equal.
    + rewrite <- flagged_byte by lia. do 2 f_equal. symmetry. change 0x7f with (Z.ones 7).
      rewrite Z.land_ones by lia. apply Z.mod_small. change (2 ^ 7) with 128. lia.
    + f_equal. change 0x7f with (Z.ones 7). rewrite Z.land_ones by lia. unfold uw. apply Z.mod_small.
      change (2 ^ 7) with 128. pose proof (Z.mod_pos_bound v 128). lia.
Qed.

(** ** What is read *)

Lemma ref_get_bounds fuel : ∀ acc n p v k,
  bytes_ok p → 0 ≤ acc → ref_get fuel acc n p = Ret (v, k) → 0 ≤ v ∧ n + 1 ≤ k ≤ n + 1 + Z.of_nat fuel.
Proof.
  induction fuel as [|fuel IH]; intros acc n p v k Hp Ha Hr;
    (destruct Hp as [|b p Hb Hp]; [done|]); cbn [ref_get] in Hr.
  - simplify_eq. lia.
  - destruct (Z.ltb_spec b 128); simplify_eq; [lia|]. apply IH in Hr; [lia|done|lia].
Qed.

Lemma ref_get_more fuel acc n b p :
  128 ≤ b → ref_get (S fuel) acc n (b :: p) = ref_get fuel (acc * 128 + (b - 128)) (n + 1) p.
Proof. intros Hb. cbn [ref_get]. destruct (Z.ltb_spec b 128); [lia|done]. Qed.

(** Three flags announce at least four bytes. *)
Lemma long_varint p0 p1 p2 p v n :
  bytes_ok p → 128 ≤ p0 → 128 ≤ p1 → 128 ≤ p2 →
  Ret (v, n) = varint_value (p0 :: p1 :: p2 :: p) → 0 ≤ v ∧ 4 ≤ n ≤ 9.
Proof.
  intros Hp H0 H1 H2 Hr. unfold varint_value in Hr. rewrite !ref_get_more in Hr by done.
  symmetry in Hr. apply ref_get_bounds in Hr; [lia|done|lia].
Qed.

(** The value a 32-bit reader gives. *)
Definition clip32 (v : Z) : Z := if v <? 2 ^ 32 then v else 2 ^ 32 - 1.

Lemma clip32_mask v :
  0 ≤ v → (if negb (v .& 0xffffffff =? v) then 0xffffffff else u32 v) = clip32 v.
Proof.
  intros Hv. unfold clip32, uw. change 0xffffffff with (Z.ones 32). rewrite Z.land_ones by lia.
  destruct (Z.ltb_spec v (2 ^ 32)).
  - rewrite Z.mod_small by lia. by rewrite Z.eqb_refl.
  - pose proof (Z.mod_pos_bound v (2 ^ 32)). destruct (Z.eqb_spec (v mod 2 ^ 32) v); [lia|done].
Qed.

Lemma clip32_small v : v < 2 ^ 32 → clip32 v = v.
Proof. intros Hv. unfold clip32. destruct (Z.ltb_spec v (2 ^ 32)); [done|lia]. Qed.

Lemma low_range b : 0 ≤ b .& 0x7f < 2 ^ 7.
Proof. change 0x7f with (Z.ones 7). rewrite Z.land_ones by lia. apply Z.mod_pos_bound. lia. Qed.

Lemma varint_value_eq p : bytes_ok p → sqlite3GetVarint p = varint_value p.
Proof. intros Hp. rewrite sqlite3GetVarint_bits by done. symmetry. by apply ref_get_bits. Qed.

(** C26: [sqlite3GetVarint], which decodes up to nine bytes through masks and
    shifts of 32-bit variables, computes the value the file format defines:
    seven bits a byte, most significant first, up to a byte without the
    high bit, a ninth byte counting whole; it returns the number of bytes
    read, and reads out of bounds exactly when the input ends inside the
    integer. *)
Theorem sqlite3GetVarint_reference p : bytes_ok p → sqlite3GetVarint p = varint_value p.
Proof. apply varint_value_eq. Qed.

Lemma sqlite3GetVarint_reference_witness :
  sqlite3GetVarint [0x81; 0x82; 0x83; 0x84; 0x85; 0x86; 0x87; 0x88; 0x89] = Ret (146393653756266633, 9) ∧
  sqlite3GetVarint [0x81; 0x82] = Undef OutOfBounds.
Proof.
  split; (etransitivity; [apply sqlite3GetVarint_reference; repeat constructor; lia|reflexivity]).
Defined.

(** A 64-bit value is written as at most nine bytes, as many as
    [sqlite3VarintLen] announces, and is read back from them, whatever
    follows; a 32-bit value is written in the same way by [putVarint32]. *)
Theorem sqlite3Varint_round_trip v rest :
  0 ≤ v < 2 ^ 64 → bytes_ok rest →
  sqlite3GetVarint (sqlite3PutVarint v ++ rest) = Ret (v, sqlite3VarintLen v) ∧
  Z.of_nat (length (sqlite3PutVarint v)) = sqlite3VarintLen v ∧
  1 ≤ sqlite3VarintLen v ≤ 9 ∧
  (v < 2 ^ 32 → putVarint32 v = sqlite3PutVarint v).
Proof.
  intros Hv Hr. destruct (sqlite3PutVarint_shape v Hv) as (Hb & Hl & Hn & Hg).
  rewrite varint_value_eq by by apply Forall_app_2.
  split_and!; [done..|lia|lia|]. intros ?. apply putVarint32_eq. lia.
Qed.

Lemma sqlite3Varint_round_trip_witness :
  sqlite3GetVarint (sqlite3PutVarint (2 ^ 64 - 2) ++ [7]) = Ret (2 ^ 64 - 2, 9) ∧
  sqlite3GetVarint (sqlite3PutVarint 300 ++ [7]) = Ret (300, 2).
Proof.
  split; [apply (sqlite3Varint_round_trip (2 ^ 64 - 2) [7])|apply (sqlite3Varint_round_trip 300 [7])];
    repeat constructor; lia.
Defined.

(** [getVarint32] reads as many bytes as [sqlite3GetVarint] and gives the
    same value if it fits 32 bits and [0xffffffff] otherwise; its assertion
    that a long varint has 4 to 9 bytes holds. *)
Theorem getVarint32_clips p :
  bytes_ok p → getVarint32 p = ('(v, n) ← sqlite3GetVarint p; Ret (clip32 v, n)).
Proof.
  intros Hp. unfold getVarint32, sqlite3GetVarint32.
  pose proof (varint_value_eq p Hp) as Hv. pose proof (sqlite3GetVarint_bits p Hp) as Hg.
  set (r := sqlite3GetVarint p) in *. clearbody r.
  destruct p as [|p0 p]; [by subst r|]. apply list.Forall_cons in Hp as [H0 Hp].
  change (byte_at (p0 :: p) 0) with (Ret p0). cbn [mbind outcome_bind].
  rewrite <- no_flag_lt by done. destruct (no_flag p0) eqn:F0.
  { rewrite Hg. cbn [ref_bits]. rewrite F0. apply no_flag_range in F0; [|done].
    cbn [mbind outcome_bind]. do 2 f_equal. rewrite clip32_small; rewrite append_bits by lia; lia. }
  destruct p as [|p1 p]; [by rewrite Hg; cbn [ref_bits]; rewrite F0|]. apply list.Forall_cons in Hp as [H1 Hp].
  change (byte_at (p0 :: p1 :: p) 1) with (Ret p1). cbn [mbind outcome_bind].
  destruct (no_flag p1) eqn:F1.
  { rewrite Hg. cbn [ref_bits]. rewrite F0, F1. apply no_flag_range in F1; [|done].
    cbn [mbind outcome_bind]. do 2 f_equal. rewrite clip32_small; [bits_eq [(p0, 8); (p1, 7)]|].
    pose proof (low_range p0). rewrite !append_bits by (lia || apply low_range). lia. }
  destruct p as [|p2 p]; [by rewrite Hg; cbn [ref_bits]; rewrite F0, F1|].
  apply list.Forall_cons in Hp as [H2 Hp].
  change (byte_at (p0 :: p1 :: p2 :: p) 2) with (Ret p2). cbn [mbind outcome_bind]. cbv zeta.
  flag_of p2 [(p0, 8); (p2, 8)]. destruct (no_flag p2) eqn:F2.
  { rewrite Hg. cbn [ref_bits]. rewrite F0, F1, F2. apply no_flag_range in F2; [|done].
    cbn [mbind outcome_bind]. do 2 f_equal. rewrite clip32_small; [bits_eq [(p0, 8); (p1, 8); (p2, 7)]|].
    pose proof (low_range p0). pose proof (low_range p1).
    rewrite !append_bits by (lia || apply low_range). lia. }
  clear Hg. destruct r as [[v n]|]; [|done]. cbn [mbind outcome_bind].
  rewrite no_flag_lt in F0, F1, F2 by done. b2p.
  destruct (long_varint p0 p1 p2 p v n) as [? ?]; [done|lia..|done|].
  unfold c_assert. destruct (Z.ltb_spec 3 n), (Z.leb_spec n 9); try lia.
  cbn [andb mbind outcome_bind]. by rewrite clip32_mask.
Qed.

Lemma getVarint32_clips_witness :
  getVarint32 [0x90; 0x80; 0x80; 0x80; 0x00] = Ret (2 ^ 32 - 1, 5) ∧ getVarint32 [0x81; 0x00] = Ret (128, 2).
Proof.
  split; (etransitivity; [apply getVarint32_clips; repeat constructor; lia|reflexivity]).
Defined.

Lemma byte4 v :
  0 ≤ v < 2 ^ 32 → u32 (u8 (v .>> 24) .<< 24) .| (u8 (v .>> 16) .<< 16) .| (u8 (v .>> 8) .<< 8) .| u8 v = v.
Proof.
  intros Hv. unfold uw at 2 3 4 5. rewrite <- !Z.land_ones by lia.
  change (Z.ones 8) with 255. bits_eq [(v, 32)].
Qed.

(** [sqlite3Put4byte] and [sqlite3Get4byte] are inverse to each other: a
    32-bit value is read back, and the four bytes written for a value read
    are those it was read from. *)
Theorem sqlite3Get4byte_Put4byte v p0 p1 p2 p3 rest :
  0 ≤ v < 2 ^ 32 → bytes_ok [p0; p1; p2; p3] →
  sqlite3Get4byte (sqlite3Put4byte v ++ rest) = Ret v ∧
  (sqlite3Put4byte <$> sqlite3Get4byte (p0 :: p1 :: p2 :: p3 :: rest)) = Ret [p0; p1; p2; p3].
Proof.
  intros Hv Hp. unfold bytes_ok in Hp. rewrite !list.Forall_cons in Hp. destruct Hp as (H0 & H1 & H2 & H3 & _).
  split; [unfold sqlite3Get4byte; simpl; by rewrite byte4|].
  change (sqlite3Get4byte (p0 :: p1 :: p2 :: p3 :: rest))
    with (Ret (u32 (p0 .<< 24) .| (p1 .<< 16) .| (p2 .<< 8) .| p3)).
  cbn [fmap outcome_fmap]. unfold sqlite3Put4byte. unfold uw at 1 3 5 7. rewrite <- !Z.land_ones by lia.
  change (Z.ones 8) with 255.
  f_equal. f_equal; [|f_equal; [|f_equal; [|f_equal]]];
    bits_eq [(p0, 8); (p1, 8); (p2, 8); (p3, 8)].
Qed.

Lemma sqlite3Get4byte_Put4byte_witness :
  sqlite3Get4byte (sqlite3Put4byte 0xfedcba98 ++ []) = Ret 0xfedcba98 ∧
  (sqlite3Put4byte <$> sqlite3Get4byte [0xff; 0; 1; 0x80]) = Ret [0xff; 0; 1; 0x80].
Proof. apply (sqlite3Get4byte_Put4byte 0xfedcba98 0xff 0 1 0x80 []); [lia|repeat constructor; lia]. Defined.
