(* ===== verification/RowSet.v ===== *)
(** * Row sets

    Models src/rowset.c: the collections of rowids that DELETE, UPDATE and the
    OR-optimisation use.  Entries linked by [pRight] are a list of their
    values, entries linked by [pLeft] and [pRight] a tree; no entry is on two
    of them.  The entry [pLast] is the last one of the list [pEntry].  Each
    operation that may allocate has a flag for [sqlite3DbMallocRaw].  The
    theorems show that [sqlite3RowSetNext] enumerates the inserted values in
    increasing order without repetition and that [sqlite3RowSetTest] decides
    membership. *)

From Stdlib Require Import Sorted.
From S2P Require Import Prelude.
#[local] Open Scope Z_scope.
#[local] Open Scope c_scope.
#[local] Open Scope list_scope.

(** An entry of a tree with its subtrees; [Leaf] is NULL. *)
Inductive tree := Leaf | Node (pLeft : tree) (v : Z) (pRight : tree).

Definition ROWSET_SORTED : Z := 0x01.
Definition ROWSET_NEXT : Z := 0x02.
(** [(ROWSET_ALLOCATION_SIZE-8)/sizeof(struct RowSetEntry)] *)
Definition ROWSET_ENTRY_PER_CHUNK : Z := (1024 - 8) / 24.
(** [ROUND8(sizeof(RowSet))] *)
Definition ROWSET_SIZE : Z := 56.

Record RowSet := RowSetC {
  nChunk : Z;             (* length of the list pChunk *)
  pEntry : list Z;
  pForest : list tree;
  nFresh : Z;
  rsFlags : Z;
  iBatch : Z;
}.

(** [p->rsFlags & flag] *)
Definition has_flag (p : RowSet) (flag : Z) : bool := negb (rsFlags p .& flag =? 0).

(** ** Creation and allocation *)

Definition sqlite3RowSetInit (N : Z) : outcome RowSet :=
  _ ← c_assert (ROWSET_SIZE <=? N);
  Ret (RowSetC 0 [] [] (u16 ((N - ROWSET_SIZE) / 24)) ROWSET_SORTED 0).

Definition sqlite3RowSetClear (p : RowSet) : RowSet :=
  RowSetC 0 [] [] 0 ROWSET_SORTED (iBatch p).

(** Whether there is an entry, and the row set after the allocation. *)
Definition rowSetEntryAlloc (mem : bool) (p : RowSet) : bool * RowSet :=
  if nFresh p =? 0 then
    if mem
    then (true, RowSetC (nChunk p + 1) (pEntry p) (pForest p) (ROWSET_ENTRY_PER_CHUNK - 1) (rsFlags p) (iBatch p))
    else (false, p)
  else (true, RowSetC (nChunk p) (pEntry p) (pForest p) (nFresh p - 1) (rsFlags p) (iBatch p)).

Definition sqlite3RowSetInsert (mem : bool) (p : RowSet) (rowid : Z) : outcome RowSet :=
  _ ← c_assert (negb (has_flag p ROWSET_NEXT));
  let '(ok, p) := rowSetEntryAlloc mem p in
  if negb ok then Ret p else
  let flags :=
    match list.last (pEntry p) with
    | Some pLast_v =>
        if has_flag p ROWSET_SORTED && (rowid <=? pLast_v)
        then Z.ldiff (rsFlags p) ROWSET_SORTED else rsFlags p
    | None => rsFlags p
    end in
  Ret (RowSetC (nChunk p) (pEntry p ++ [rowid]) (pForest p) (nFresh p) flags (iBatch p)).

(** ** Sorting *)

(** Merge of two sorted lists; of equal entries the one of [pA] is dropped. *)
Fixpoint rowSetEntryMerge (pA : list Z) : list Z → list Z :=
  fix with_A (pB : list Z) : list Z :=
    match pA, pB with
    | a :: pA', b :: pB' =>
        if a <? b then a :: rowSetEntryMerge pA' pB
        else if b <? a then b :: with_A pB'
        else rowSetEntryMerge pA' pB
    | [], _ => pB
    | _, [] => pA
    end.

(** [for(i=0; aBucket[i]; i++)]: carry a list through the buckets up to the
    first empty one.  Past the array the code reads out of bounds. *)
Fixpoint bucket_carry (aBucket : list (list Z)) (pIn : list Z) : outcome (list (list Z)) :=
  match aBucket with
  | [] => Undef OutOfBounds
  | [] :: bs => Ret (pIn :: bs)
  | b :: bs => bs' ← bucket_carry bs (rowSetEntryMerge b pIn); Ret ([] :: bs')
  end.

Fixpoint sort_entries (pIn : list Z) (aBucket : list (list Z)) : outcome (list (list Z)) :=
  match pIn with
  | [] => Ret aBucket
  | x :: pNext => bs ← bucket_carry aBucket [x]; sort_entries pNext bs
  end.

Definition rowSetEntrySort (pIn : list Z) : outcome (list Z) :=
  bs ← sort_entries pIn (replicate 40 []);
  Ret (foldl rowSetEntryMerge [] bs).

(** ** Trees *)

(** The entries of a tree as a list: the left subtree, the root, the right
    subtree. *)
Fixpoint rowSetTreeToList (pIn : tree) : list Z :=
  match pIn with
  | Leaf => []
  | Node l v r => rowSetTreeToList l ++ v :: rowSetTreeToList r
  end.

(** A tree of depth [iDepth = S k] from the head of the list, and the rest of
    the list. *)
Fixpoint rowSetNDeepTree (k : nat) (ppList : list Z) : tree * list Z :=
  match ppList with
  | [] => (Leaf, [])
  | x :: xs =>
      match k with
      | O => (Node Leaf x Leaf, xs)
      | S k' =>
          let '(pLeft, l1) := rowSetNDeepTree k' ppList in
          match l1 with
          | [] => (pLeft, [])
          | p :: l2 => let '(pRight, l3) := rowSetNDeepTree k' l2 in (Node pLeft p pRight, l3)
          end
      end
  end.

(** The loop of [rowSetListToTree], whose round [iDepth = S k] takes at least
    one entry from the list, so that its length is enough fuel. *)
Fixpoint list_to_tree_loop (fuel k : nat) (t : tree) (pList : list Z) : tree :=
  match pList with
  | [] => t
  | p :: l1 =>
      match fuel with
      | O => t
      | S fuel' =>
          let '(pRight, l2) := rowSetNDeepTree k l1 in
          list_to_tree_loop fuel' (S k) (Node t p pRight) l2
      end
  end.

Definition rowSetListToTree (pList : list Z) : outcome tree :=
  match pList with
  | [] => Undef AssertFail
  | p :: l => Ret (list_to_tree_loop (length l) 0 (Node Leaf p Leaf) l)
  end.

(** ** Enumeration *)

Definition rowSetToList (p : RowSet) : outcome RowSet :=
  _ ← c_assert (negb (has_flag p ROWSET_NEXT));
  l ← (if has_flag p ROWSET_SORTED then Ret (pEntry p) else rowSetEntrySort (pEntry p));
  _ ← c_assert (match pForest p with [] => true | _ => false end);
  Ret (RowSetC (nChunk p) l (pForest p) (nFresh p) (rsFlags p .| ROWSET_NEXT) (iBatch p)).

(** The value written to [*pRowid], if 1 is returned. *)
Definition sqlite3RowSetNext (p : RowSet) : outcome (option Z * RowSet) :=
  p ← (if has_flag p ROWSET_NEXT then Ret p else rowSetToList p);
  match pEntry p with
  | [] => Ret (None, p)
  | v :: rest =>
      let p := RowSetC (nChunk p) rest (pForest p) (nFresh p) (rsFlags p) (iBatch p) in
      Ret (Some v, match rest with [] => sqlite3RowSetClear p | _ => p end)
  end.

(** ** Membership *)

(** [while( p )]: binary search. *)
Fixpoint tree_find (p : tree) (iRowid : Z) : bool :=
  match p with
  | Leaf => false
  | Node l v r =>
      if v <? iRowid then tree_find r iRowid
      else if iRowid <? v then tree_find l iRowid
      else true
  end.

(** The loop over the forest that looks for an empty tree, merging the trees
    it passes into the list; the list is left over if there is none. *)
Fixpoint forest_insert (f : list tree) (p : list Z) : outcome (list tree * option (list Z)) :=
  match f with
  | [] => Ret ([], Some p)
  | Leaf :: f' => t ← rowSetListToTree p; Ret (t :: f', None)
  | t :: f' =>
      '(f'', rest) ← forest_insert f' (rowSetEntryMerge (rowSetTreeToList t) p);
      Ret (Leaf :: f'', rest)
  end.

(** The first test of a batch moves the entries into the forest. *)
Definition new_batch (mem : bool) (p : RowSet) : outcome RowSet :=
  match pEntry p with
  | [] => Ret p
  | _ =>
      l ← (if has_flag p ROWSET_SORTED then Ret (pEntry p) else rowSetEntrySort (pEntry p));
      '(f, rest) ← forest_insert (pForest p) l;
      '(f, p) ← match rest with
                | None => Ret (f, p)
                | Some l =>
                    let '(ok, p) := rowSetEntryAlloc mem p in
                    if (ok : bool) then t ← rowSetListToTree l; Ret (f ++ [t], p) else Ret (f, p)
                end;
      Ret (RowSetC (nChunk p) [] f (nFresh p) (rsFlags p .| ROWSET_SORTED) (iBatch p))
  end.

Definition set_batch (b : Z) (p : RowSet) : RowSet :=
  RowSetC (nChunk p) (pEntry p) (pForest p) (nFresh p) (rsFlags p) b.

Definition sqlite3RowSetTest (mem : bool) (p : RowSet) (batch iRowid : Z) : outcome (bool * RowSet) :=
  _ ← c_assert (negb (has_flag p ROWSET_NEXT));
  p ← (if batch =? iBatch p then Ret p
       else p ← new_batch mem p; Ret (set_batch batch p));
  Ret (existsb (λ t, tree_find t iRowid) (pForest p), p).

(** ** Merging and sorting *)

Abbreviation sorted := (StronglySorted Z.lt).

Lemma merge_nil_l pB : rowSetEntryMerge [] pB = pB.
Proof. by destruct pB. Qed.
Lemma merge_nil_r pA : rowSetEntryMerge pA [] = pA.
Proof. by destruct pA. Qed.
Lemma merge_cons a pA b pB :
  rowSetEntryMerge (a :: pA) (b :: pB) =
    if a <? b then a :: rowSetEntryMerge pA (b :: pB)
    else if b <? a then b :: rowSetEntryMerge (a :: pA) pB
    else rowSetEntryMerge pA (b :: pB).
Proof. done. Qed.

(** The induction both lists of a merge take part in. *)
Lemma merge_ind (P : list Z → list Z → list Z → Prop) :
  (∀ pB, P [] pB pB) → (∀ a pA, P (a :: pA) [] (a :: pA)) →
  (∀ a pA b pB, a < b → P pA (b :: pB) (rowSetEntryMerge pA (b :: pB)) →
    P (a :: pA) (b :: pB) (a :: rowSetEntryMerge pA (b :: pB))) →
  (∀ a pA b pB, b < a → P (a :: pA) pB (rowSetEntryMerge (a :: pA) pB) →
    P (a :: pA) (b :: pB) (b :: rowSetEntryMerge (a :: pA) pB)) →
  (∀ a pA pB, P pA (a :: pB) (rowSetEntryMerge pA (a :: pB)) →
    P (a :: pA) (a :: pB) (rowSetEntryMerge pA (a :: pB))) →
  ∀ pA pB, P pA pB (rowSetEntryMerge pA pB).
Proof.
  intros H1 H2 H3 H4 H5. induction pA as [|a pA IHA]; intros pB; [rewrite merge_nil_l; apply H1|].
  induction pB as [|b pB IHB]; [apply H2|]. rewrite merge_cons.
  destruct (Z.ltb_spec a b); [auto|]. destruct (Z.ltb_spec b a); [auto|].
  assert (a = b) as -> by lia. auto.
Qed.

Lemma merge_elem pA pB x : x ∈ rowSetEntryMerge pA pB ↔ x ∈ pA ∨ x ∈ pB.
Proof. revert pA pB. apply (merge_ind (λ pA pB m, x ∈ m ↔ x ∈ pA ∨ x ∈ pB)); intros; set_solver. Qed.

Lemma sorted_cons_iff a l : sorted (a :: l) ↔ sorted l ∧ ∀ x, x ∈ l → a < x.
Proof.
  split.
  - intros H. apply StronglySorted_inv in H as [H1 H2]. split; [done|]. by rewrite list.Forall_forall in H2.
  - intros [H1 H2]. constructor; [done|]. by rewrite list.Forall_forall.
Qed.

Lemma merge_sorted pA pB : sorted pA → sorted pB → sorted (rowSetEntryMerge pA pB).
Proof.
  revert pA pB. apply (merge_ind (λ pA pB m, sorted pA → sorted pB → sorted m)); try done.
  - intros a pA b pB Hab IH [HA1 HA2]%sorted_cons_iff HB. apply sorted_cons_iff. split; [auto|].
    intros x [Hx|Hx]%merge_elem; [auto|]. apply sorted_cons_iff in HB as [HB1 HB2].
    apply list.elem_of_cons in Hx as [->|Hx]; [done|]. specialize (HB2 x Hx). lia.
  - intros a pA b pB Hab IH HA [HB1 HB2]%sorted_cons_iff. apply sorted_cons_iff. split; [auto|].
    intros x [Hx|Hx]%merge_elem; [|auto]. apply sorted_cons_iff in HA as [HA1 HA2].
    apply list.elem_of_cons in Hx as [->|Hx]; [done|]. specialize (HA2 x Hx). lia.
  - intros a pA pB IH [HA1 HA2]%sorted_cons_iff HB. auto.
Qed.

Definition in_buckets (y : Z) (bs : list (list Z)) : Prop := Exists (λ b, y ∈ b) bs.

Lemma in_buckets_cons y b bs : in_buckets y (b :: bs) ↔ y ∈ b ∨ in_buckets y bs.
Proof. apply List.Exists_cons. Qed.

(** The buckets count the entries in binary. *)
Fixpoint bucket_count (bs : list (list Z)) : Z :=
  match bs with
  | [] => 0
  | b :: bs' => (match b with [] => 0 | _ => 1 end) + 2 * bucket_count bs'
  end.

Lemma bucket_count_range bs : 0 ≤ bucket_count bs < 2 ^ Z.of_nat (length bs).
Proof.
  induction bs as [|b bs IH]; [done|]. cbn [bucket_count length].
  rewrite Nat2Z.inj_succ, Z.pow_succ_r by lia. destruct b; lia.
Qed.

Lemma merge_nonempty a pA pB : ∃ c l, rowSetEntryMerge (a :: pA) pB = c :: l.
Proof.
  destruct (rowSetEntryMerge (a :: pA) pB) as [|c l] eqn:E; [|eauto].
  assert (a ∈ rowSetEntryMerge (a :: pA) pB) as H by (apply merge_elem; set_solver). rewrite E in H. set_solver.
Qed.

Lemma bucket_carry_spec bs : ∀ x l,
  bucket_count bs + 1 < 2 ^ Z.of_nat (length bs) →
  Forall sorted bs → sorted (x :: l) →
  ∃ bs', bucket_carry bs (x :: l) = Ret bs' ∧ length bs' = length bs ∧
    bucket_count bs' = bucket_count bs + 1 ∧ Forall sorted bs' ∧
    ∀ y, in_buckets y bs' ↔ y ∈ x :: l ∨ in_buckets y bs.
Proof.
  induction bs as [|b bs IH]; intros x l Hc Hs Hx; [simpl in Hc; lia|].
  apply list.Forall_cons in Hs as [Hb Hs]. cbn [bucket_count length] in *.
  rewrite Nat2Z.inj_succ, Z.pow_succ_r in Hc by lia. destruct b as [|a b].
  - exists ((x :: l) :: bs). split; [done|]. split; [done|]. split; [simpl; lia|].
    split; [by constructor|]. intros y. rewrite !in_buckets_cons. set_solver.
  - destruct (merge_nonempty a b (x :: l)) as (c & m & E).
    destruct (IH c m) as (bs' & Ec & Hl & Hn & Hs' & He).
    + lia.
    + done.
    + rewrite <- E. by apply merge_sorted.
    + exists ([] :: bs'). cbn [bucket_carry]. rewrite E, Ec.
      split; [done|]. split; [simpl; lia|]. split; [cbn [bucket_count]; lia|]. split; [by repeat constructor|].
      intros y. rewrite !in_buckets_cons, He, <- E, merge_elem. set_solver.
Qed.

Lemma sort_entries_spec pIn : ∀ bs,
  bucket_count bs + Z.of_nat (length pIn) < 2 ^ Z.of_nat (length bs) → Forall sorted bs →
  ∃ bs', sort_entries pIn bs = Ret bs' ∧ Forall sorted bs' ∧
    ∀ y, in_buckets y bs' ↔ y ∈ pIn ∨ in_buckets y bs.
Proof.
  induction pIn as [|x pIn IH]; intros bs Hc Hs.
  - exists bs. split; [done|]. split; [done|]. intros y. set_solver.
  - cbn [length] in Hc. destruct (bucket_carry_spec bs x []) as (bs1 & E & Hl & Hn & Hs1 & He);
      [lia|done|repeat constructor|].
    destruct (IH bs1) as (bs2 & E2 & Hs2 & He2); [rewrite Hl; lia|done|].
    exists bs2. cbn [sort_entries]. rewrite E. cbn [mbind outcome_bind]. split; [done|]. split; [done|].
    intros y. rewrite He2, He. set_solver.
Qed.

Lemma foldl_merge_spec bs : ∀ acc,
  Forall sorted bs → sorted acc →
  sorted (foldl rowSetEntryMerge acc bs) ∧
  ∀ y, y ∈ foldl rowSetEntryMerge acc bs ↔ y ∈ acc ∨ in_buckets y bs.
Proof.
  induction bs as [|b bs IH]; intros acc Hs Ha; cbn [foldl].
  { split; [done|]. intros y. unfold in_buckets. rewrite List.Exists_nil. tauto. }
  apply list.Forall_cons in Hs as [Hb Hs].
  destruct (IH (rowSetEntryMerge acc b)) as [H1 H2]; [done|by apply merge_sorted|].
  split; [done|]. intros y. rewrite H2, merge_elem, in_buckets_cons. tauto.
Qed.

(** The forty buckets are enough for fewer than [2 ^ 40] entries. *)
Lemma rowSetEntrySort_spec l :
  Z.of_nat (length l) < 2 ^ 40 →
  ∃ l', rowSetEntrySort l = Ret l' ∧ sorted l' ∧ ∀ x, x ∈ l' ↔ x ∈ l.
Proof.
  intros Hl. unfold rowSetEntrySort.
  destruct (sort_entries_spec l (replicate 40 [])) as (bs & E & Hs & He).
  - exact Hl.
  - apply Forall_replicate. constructor.
  - rewrite E. cbn [mbind outcome_bind]. destruct (foldl_merge_spec bs []) as [H1 H2]; [done|constructor|].
    eexists. split; [done|]. split; [done|]. intros x. rewrite H2, He.
    split; [|tauto]. intros [Hx|[Hx|Hx]]; [set_solver|done|].
    apply list.Exists_exists in Hx as (b & Hb & Hx). apply elem_of_replicate in Hb as [-> _]. set_solver.
Qed.

(** ** Trees and lists *)

Lemma rowSetNDeepTree_spec k : ∀ l t l',
  rowSetNDeepTree k l = (t, l') → l = rowSetTreeToList t ++ l'.
Proof.
  induction k as [|k IH]; intros [|x xs] t l' E; simpl in E; simplify_eq; try done.
  destruct (rowSetNDeepTree k (x :: xs)) as [tl l1] eqn:E1. apply IH in E1.
  destruct l1 as [|p l2]; simplify_eq; [done|].
  destruct (rowSetNDeepTree k l2) as [tr l3] eqn:E2. apply IH in E2. simplify_eq/=.
  by rewrite E1, <- app_assoc.
Qed.

Fixpoint height (t : tree) : Z :=
  match t with Leaf => 0 | Node l _ r => 1 + Z.max (height l) (height r) end.

Definition size (t : tree) : Z := Z.of_nat (length (rowSetTreeToList t)).

Lemma size_Node l v r : size (Node l v r) = size l + 1 + size r.
Proof. unfold size. simpl. rewrite length_app. simpl. lia. Qed.

(** A tree of depth [S k] is full if entries are left. *)
Lemma rowSetNDeepTree_full k : ∀ l t l',
  rowSetNDeepTree k l = (t, l') →
  0 ≤ height t ≤ Z.of_nat k + 1 ∧ (l' ≠ [] → size t = 2 ^ (Z.of_nat k + 1) - 1).
Proof.
  induction k as [|k IH]; intros [|x xs] t l' E; simpl in E; simplify_eq/=; try (split; [lia|done]).
  destruct (rowSetNDeepTree k (x :: xs)) as [tl l1] eqn:E1. apply IH in E1 as [H1 H2].
  destruct l1 as [|p l2]; simplify_eq; [split; [lia|done]|].
  destruct (rowSetNDeepTree k l2) as [tr l3] eqn:E2. apply IH in E2 as [H3 H4]. simplify_eq/=.
  split; [lia|]. intros Hl. rewrite size_Node, H2, H4 by done.
  replace (Z.of_nat (S k) + 1) with (Z.succ (Z.of_nat k + 1)) by lia. rewrite Z.pow_succ_r by lia. lia.
Qed.

Lemma list_to_tree_loop_spec fuel : ∀ k t l,
  (length l ≤ fuel)%nat →
  rowSetTreeToList (list_to_tree_loop fuel k t l) = rowSetTreeToList t ++ l.
Proof.
  induction fuel as [|fuel IH]; intros k t [|p l] Hl; simpl in *; try (lia || by rewrite app_nil_r).
  destruct (rowSetNDeepTree k l) as [r l2] eqn:E. apply rowSetNDeepTree_spec in E. subst l.
  rewrite length_app in Hl. rewrite IH by lia. simpl. by rewrite <- app_assoc.
Qed.

(** The depth grows only when the tree is full. *)
Lemma list_to_tree_loop_height fuel : ∀ k t l,
  height t ≤ Z.of_nat k + 1 → size t = 2 ^ (Z.of_nat k + 1) - 1 →
  2 ^ (height (list_to_tree_loop fuel k t l) - 1) ≤ size (list_to_tree_loop fuel k t l).
Proof.
  assert (∀ k t, height t ≤ Z.of_nat k + 1 → 2 ^ Z.of_nat k ≤ size t → 2 ^ (height t - 1) ≤ size t) as Hdone.
  { intros k t Hh Hs. transitivity (2 ^ Z.of_nat k); [apply Z.pow_le_mono_r|]; lia. }
  induction fuel as [|fuel IH]; intros k t [|p l] Hh Hs; simpl;
    try (apply (Hdone k); [done|]; replace (Z.of_nat k + 1) with (Z.succ (Z.of_nat k)) in Hs by lia;
         rewrite Z.pow_succ_r in Hs by lia; assert (0 < 2 ^ Z.of_nat k) by (apply Z.pow_pos_nonneg; lia); lia).
  destruct (rowSetNDeepTree k l) as [r l2] eqn:E. apply rowSetNDeepTree_full in E as [H1 H2].
  assert (height (Node t p r) ≤ Z.of_nat (S k) + 1) by (simpl; lia). destruct l2 as [|q l2].
  - replace (list_to_tree_loop fuel (S k) (Node t p r) []) with (Node t p r) by by destruct fuel.
    apply (Hdone (S k)); [done|]. rewrite size_Node, Hs. replace (Z.of_nat (S k)) with (Z.of_nat k + 1) by lia.
    assert (0 ≤ size r) by (unfold size; lia). lia.
  - apply IH; [done|]. rewrite size_Node, Hs, H2 by done.
    replace (Z.of_nat (S k) + 1) with (Z.succ (Z.of_nat k + 1)) by lia. rewrite Z.pow_succ_r by lia. lia.
Qed.

(** The tree has the entries of the list, in order, and logarithmic height. *)
Lemma rowSetListToTree_spec l :
  l ≠ [] →
  ∃ t, rowSetListToTree l = Ret t ∧ rowSetTreeToList t = l ∧ 2 ^ (height t - 1) ≤ Z.of_nat (length l).
Proof.
  intros Hl. destruct l as [|p l]; [done|].
  assert (rowSetTreeToList (list_to_tree_loop (length l) 0 (Node Leaf p Leaf) l) = p :: l) as E
    by by rewrite list_to_tree_loop_spec.
  eexists. split; [done|]. split; [done|]. etransitivity; [by apply list_to_tree_loop_height|].
  unfold size. by rewrite E.
Qed.

Lemma sorted_middle l1 v l2 :
  sorted (l1 ++ v :: l2) ↔
  sorted l1 ∧ sorted l2 ∧ (∀ a, a ∈ l1 → a < v) ∧ (∀ b, b ∈ l2 → v < b).
Proof.
  induction l1 as [|a l1 IH]; cbn [app].
  - rewrite sorted_cons_iff. split; [intros [? ?]; split_and!; [constructor|done|set_solver|done]|tauto].
  - rewrite !sorted_cons_iff, IH. split.
    + intros [(H1 & H2 & H3 & H4) H5]. split_and!; [done|intros; apply H5; set_solver|done| |done].
      intros x [->|Hx]%list.elem_of_cons; [apply H5; set_solver|auto].
    + intros ((H1 & H2) & H3 & H4 & H5). split_and!; [done..|intros; apply H4; set_solver|done|].
      intros x Hx. apply list.elem_of_app in Hx as [Hx|Hx]; [auto|].
      assert (a < v) by (apply H4; set_solver).
      apply list.elem_of_cons in Hx as [->|Hx]; [done|]. specialize (H5 x Hx). lia.
Qed.

(** Binary search finds exactly the entries of a search tree. *)
Lemma tree_find_spec t x :
  sorted (rowSetTreeToList t) → tree_find t x = true ↔ x ∈ rowSetTreeToList t.
Proof.
  induction t as [|l IHl v r IHr]; intros Hs; cbn [tree_find rowSetTreeToList] in *; [set_solver|].
  apply sorted_middle in Hs as (H1 & H2 & H3 & H4). rewrite list.elem_of_app, list.elem_of_cons.
  destruct (Z.ltb_spec v x); [|destruct (Z.ltb_spec x v)].
  - rewrite IHr by done. split; [tauto|]. intros [Hx|[->|Hx]]; [specialize (H3 x Hx)| |done]; lia.
  - rewrite IHl by done. split; [tauto|]. intros [Hx|[->|Hx]]; [done| |specialize (H4 x Hx)]; lia.
  - assert (x = v) as -> by lia. tauto.
Qed.

(** ** Invariant *)

Definition in_forest (y : Z) (f : list tree) : Prop := Exists (λ t, y ∈ rowSetTreeToList t) f.
Definition search_trees (f : list tree) : Prop := Forall (λ t, sorted (rowSetTreeToList t)) f.

(** A row set that [sqlite3RowSetNext] has not been called on. *)
Record rs_ok (p : RowSet) : Prop := {
  rs_flags : rsFlags p = 0 ∨ rsFlags p = ROWSET_SORTED;
  rs_sorted : rsFlags p = ROWSET_SORTED → sorted (pEntry p);
  rs_forest : search_trees (pForest p);
}.

Lemma in_forest_cons y t f : in_forest y (t :: f) ↔ y ∈ rowSetTreeToList t ∨ in_forest y f.
Proof. apply List.Exists_cons. Qed.

Lemma in_forest_snoc y t f : in_forest y (f ++ [t]) ↔ in_forest y f ∨ y ∈ rowSetTreeToList t.
Proof. unfold in_forest. rewrite list.Exists_app, List.Exists_cons, List.Exists_nil. tauto. Qed.

Lemma rs_ok_next p : rs_ok p → has_flag p ROWSET_NEXT = false.
Proof. intros [[H|H] _ _]; unfold has_flag; by rewrite H. Qed.

Lemma rs_ok_sorted p : rs_ok p → has_flag p ROWSET_SORTED = (rsFlags p =? ROWSET_SORTED).
Proof. intros [[H|H] _ _]; unfold has_flag; by rewrite H. Qed.

Lemma sorted_snoc l x : sorted l → (∀ y, list.last l = Some y → y < x) → sorted (l ++ [x]).
Proof.
  intros Hs Hl. apply sorted_middle. split_and!; [done|constructor| |set_solver].
  intros a Ha. destruct (list.last l) as [y|] eqn:E.
  - apply last_Some in E as [l' ->]. specialize (Hl y eq_refl).
    apply sorted_middle in Hs as (_ & _ & Hs & _). apply list.elem_of_app in Ha as [Ha|Ha]; [|set_solver].
    specialize (Hs a Ha). lia.
  - apply last_None in E as ->. set_solver.
Qed.

(** Whether an entry is available. *)
Definition can_alloc (mem : bool) (p : RowSet) : bool := mem || negb (nFresh p =? 0).

Lemma rowSetEntryAlloc_spec mem p :
  ∃ c n, rowSetEntryAlloc mem p =
    (can_alloc mem p, RowSetC c (pEntry p) (pForest p) n (rsFlags p) (iBatch p)).
Proof.
  unfold rowSetEntryAlloc, can_alloc. destruct (nFresh p =? 0), mem, p; eexists _, _; done.
Qed.

Lemma sqlite3RowSetInsert_spec mem p x :
  rs_ok p →
  ∃ p', sqlite3RowSetInsert mem p x = Ret p' ∧ rs_ok p' ∧
    pEntry p' = pEntry p ++ (if can_alloc mem p then [x] else []) ∧
    pForest p' = pForest p ∧ iBatch p' = iBatch p.
Proof.
  intros Hok. unfold sqlite3RowSetInsert. rewrite (rs_ok_next _ Hok). cbn [negb c_assert mbind outcome_bind].
  destruct (rowSetEntryAlloc_spec mem p) as (c & n & ->). destruct (can_alloc mem p); cbn [negb].
  2: { eexists. split; [done|]. rewrite app_nil_r. destruct Hok. by repeat split. }
  eexists. split; [done|]. cbn [pEntry pForest iBatch]. split; [|done].
  pose proof (rs_ok_sorted _ Hok) as Hf. unfold has_flag in *. cbn [rsFlags]. rewrite Hf.
  destruct Hok as [Hfl Hso Hfo]. split; cbn [rsFlags pEntry pForest]; [| |done].
  - destruct (list.last (pEntry p)); [|done]. destruct (_ && _) eqn:E; [|done]. b2p. rewrite H. by left.
  - intros Hr. destruct (list.last (pEntry p)) as [y|] eqn:E.
    + destruct (Z.eqb_spec (rsFlags p) ROWSET_SORTED) as [E1|E1].
      * apply sorted_snoc; [auto|]. intros z Hz. rewrite E in Hz. simplify_eq.
        destruct (Z.leb_spec x z); [|lia]. cbn [andb] in Hr. rewrite E1 in Hr. done.
      * simpl in Hr. done.
    + apply sorted_snoc; [auto|]. intros z Hz. by rewrite E in Hz.
Qed.

(** The entries in order, sorted first if need be. *)
Lemma sorted_entries p :
  rs_ok p → Z.of_nat (length (pEntry p)) < 2 ^ 40 →
  ∃ l, (if has_flag p ROWSET_SORTED then Ret (pEntry p) else rowSetEntrySort (pEntry p)) = Ret l ∧
       sorted l ∧ ∀ x, x ∈ l ↔ x ∈ pEntry p.
Proof.
  intros Hok Hl. rewrite (rs_ok_sorted _ Hok). destruct (Z.eqb_spec (rsFlags p) ROWSET_SORTED) as [E|E].
  - exists (pEntry p). split; [done|]. split; [by apply Hok|done].
  - by apply rowSetEntrySort_spec.
Qed.

(** Insertion of a list of values, and calls of [sqlite3RowSetNext] until it
    returns 0. *)
Fixpoint inserts (p : RowSet) (xs : list Z) : outcome RowSet :=
  match xs with
  | [] => Ret p
  | x :: xs' => p ← sqlite3RowSetInsert true p x; inserts p xs'
  end.

Fixpoint drain (fuel : nat) (p : RowSet) : outcome (option (list Z)) :=
  match fuel with
  | O => Ret None
  | S fuel' =>
      '(v, p) ← sqlite3RowSetNext p;
      match v with
      | None => Ret (Some [])
      | Some v => l ← drain fuel' p; Ret (option_map (cons v) l)
      end
  end.

Lemma inserts_spec xs : ∀ p,
  rs_ok p →
  ∃ p', inserts p xs = Ret p' ∧ rs_ok p' ∧ pEntry p' = pEntry p ++ xs ∧ pForest p' = pForest p.
Proof.
  induction xs as [|x xs IH]; intros p Hok.
  - exists p. by rewrite app_nil_r.
  - destruct (sqlite3RowSetInsert_spec true p x Hok) as (p1 & E & Hok1 & He & Hf & _).
    destruct (IH p1 Hok1) as (p2 & E2 & Hok2 & He2 & Hf2). exists p2. cbn [inserts]. rewrite E.
    split; [done|]. split; [done|]. split; [|congruence]. by rewrite He2, He, <- app_assoc.
Qed.

Lemma drain_cleared fuel b : drain (S fuel) (RowSetC 0 [] [] 0 ROWSET_SORTED b) = Ret (Some []).
Proof. done. Qed.

Lemma drain_list l : ∀ fuel c n b,
  (length l < fuel)%nat → ∀ fl, fl .& ROWSET_NEXT ≠ 0 →
  drain fuel (RowSetC c l [] n fl b) = Ret (Some l).
Proof.
  induction l as [|v l IH]; intros fuel c n b Hf fl Hfl; (destruct fuel as [|fuel]; [simpl in Hf; lia|]).
  - cbn [drain]. unfold sqlite3RowSetNext, has_flag. cbn [rsFlags].
    by rewrite (proj2 (Z.eqb_neq _ _) Hfl).
  - cbn [drain length] in *. unfold sqlite3RowSetNext, has_flag. cbn [rsFlags].
    rewrite (proj2 (Z.eqb_neq _ _) Hfl). cbn [negb mbind outcome_bind pEntry].
    destruct l as [|w l].
    + destruct fuel as [|fuel]; [lia|]. unfold sqlite3RowSetClear. by rewrite drain_cleared.
    + cbn [nChunk pForest nFresh rsFlags iBatch]. rewrite IH by (done || simpl in *; lia). done.
Qed.

Lemma sorted_NoDup l : sorted l → NoDup l.
Proof.
  induction 1 as [|a l Hs IH Ha]; constructor; [|done]. intros Hin.
  rewrite list.Forall_forall in Ha. specialize (Ha a Hin). lia.
Qed.

(** C30: A row set enumerates what was inserted: for fewer than [2 ^ 40]
    values, inserted in any order and with repetitions into a new row set,
    the calls of [sqlite3RowSetNext] return exactly those values in
    increasing order, each once, and then 0; the sort never uses a bucket
    past its array of forty. *)
Theorem sqlite3RowSetNext_sorted N xs :
  ROWSET_SIZE ≤ N → Z.of_nat (length xs) < 2 ^ 40 →
  ∃ p l, (p ← sqlite3RowSetInit N; inserts p xs) = Ret p ∧
    drain (S (length xs)) p = Ret (Some l) ∧ sorted l ∧ ∀ x, x ∈ l ↔ x ∈ xs.
Proof.
  intros HN Hxs. unfold sqlite3RowSetInit, c_assert. rewrite (proj2 (Z.leb_le _ _) HN).
  cbn [mbind outcome_bind]. set (p0 := RowSetC _ _ _ _ _ _).
  assert (rs_ok p0) as Hok0 by (split; [by right|intros; constructor|constructor]).
  destruct (inserts_spec xs p0 Hok0) as (p & E & Hok & He & Hf). cbn [app pEntry pForest p0] in He, Hf.
  destruct (sorted_entries p Hok) as (l & El & Hs & Hin); [by rewrite He|].
  rewrite He in Hin. exists p, l. split; [done|]. split; [|done].
  assert (length l ≤ length xs)%nat as Hlen.
  { apply submseteq_length, NoDup_submseteq; [by apply sorted_NoDup|]. intros x. apply Hin. }
  cut (drain (S (length xs)) (RowSetC (nChunk p) l [] (nFresh p) (rsFlags p .| ROWSET_NEXT) (iBatch p))
       = Ret (Some l)).
  { intros <-. cbn [drain]. unfold sqlite3RowSetNext at 1. rewrite (rs_ok_next _ Hok).
    unfold rowSetToList. rewrite (rs_ok_next _ Hok), El, Hf. cbn [negb c_assert mbind outcome_bind pEntry].
    unfold sqlite3RowSetNext, has_flag. cbn [rsFlags]. destruct (rs_flags _ Hok) as [-> | ->]; done. }
  apply drain_list; [lia|]. destruct (rs_flags _ Hok) as [-> | ->]; done.
Qed.

Lemma sqlite3RowSetNext_sorted_witness :
  ∃ p l, (p ← sqlite3RowSetInit 100; inserts p [5; 3; 9; 3; 1]) = Ret p ∧
    drain 6 p = Ret (Some l) ∧ sorted l ∧ ∀ x, x ∈ l ↔ x ∈ [5; 3; 9; 3; 1].
Proof. apply (sqlite3RowSetNext_sorted 100 [5; 3; 9; 3; 1]); [done|simpl; lia]. Defined.

(** ** Membership *)

Lemma forest_insert_spec f : ∀ l,
  search_trees f → sorted l → l ≠ [] →
  ∃ f' rest, forest_insert f l = Ret (f', rest) ∧ search_trees f' ∧
    (∀ l', rest = Some l' → sorted l' ∧ l' ≠ []) ∧
    ∀ y, (in_forest y f' ∨ y ∈ default [] rest) ↔ in_forest y f ∨ y ∈ l.
Proof.
  induction f as [|t f IH]; intros l Hf Hs Hl; cbn [forest_insert].
  - exists [], (Some l). split; [done|]. split; [done|]. split; [intros; by simplify_eq|done].
  - apply list.Forall_cons in Hf as [Ht Hf]. destruct t as [|tl v tr].
    + destruct (rowSetListToTree_spec l Hl) as (t & -> & Et & _).
      exists (t :: f), None. split; [done|]. split; [constructor; [by rewrite Et|done]|].
      split; [done|]. intros y. rewrite !in_forest_cons, Et. cbn [default rowSetTreeToList].
      rewrite list.elem_of_nil. tauto.
    + set (t := Node tl v tr) in *.
      destruct (IH (rowSetEntryMerge (rowSetTreeToList t) l)) as (f' & rest & E & Hf' & Hr & Hy).
      * done.
      * by apply merge_sorted.
      * intros Hn. assert (v ∈ rowSetEntryMerge (rowSetTreeToList t) l) as Hv
          by (apply merge_elem; left; cbn; set_solver). rewrite Hn in Hv. set_solver.
      * exists (Leaf :: f'), rest. rewrite E. split; [done|]. split; [constructor; [constructor|done]|].
        split; [done|]. intros y. rewrite !in_forest_cons. cbn [rowSetTreeToList].
        specialize (Hy y). rewrite merge_elem in Hy. rewrite list.elem_of_nil. tauto.
Qed.

Lemma or_sorted fl : fl = 0 ∨ fl = ROWSET_SORTED → fl .| ROWSET_SORTED = ROWSET_SORTED.
Proof. by intros [-> | ->]. Qed.

(** Moving the entries into the forest loses none unless memory runs out. *)
Lemma new_batch_spec mem p :
  rs_ok p → Z.of_nat (length (pEntry p)) < 2 ^ 40 →
  ∃ p', new_batch mem p = Ret p' ∧ rs_ok p' ∧ pEntry p' = [] ∧
    (∀ y, in_forest y (pForest p') → in_forest y (pForest p) ∨ y ∈ pEntry p) ∧
    (mem = true → ∀ y, in_forest y (pForest p) ∨ y ∈ pEntry p → in_forest y (pForest p')).
Proof.
  intros Hok Hl. unfold new_batch. destruct (pEntry p) as [|e es] eqn:Ep.
  { exists p. split; [done|]. split; [done|]. split; [done|]. split; [tauto|]. set_solver. }
  rewrite <- Ep in *. destruct (sorted_entries p Hok Hl) as (l & -> & Hs & Hin). cbn [mbind outcome_bind].
  assert (l ≠ []) as Hne.
  { intros ->. assert (e ∈ @nil Z) as H by (apply Hin; rewrite Ep; set_solver). set_solver. }
  destruct (forest_insert_spec (pForest p) l) as (f & rest & -> & Hf & Hr & Hy); [apply Hok|done..|].
  cbn [mbind outcome_bind]. destruct rest as [l'|].
  - destruct (Hr l' eq_refl) as [Hs' Hne']. destruct (rowSetEntryAlloc_spec mem p) as (c & n & ->).
    destruct (can_alloc mem p) eqn:Ec.
    + destruct (rowSetListToTree_spec l' Hne') as (t & -> & Et & _). cbn [mbind outcome_bind].
      eexists. split; [done|]. cbn [pEntry pForest rsFlags].
      assert (∀ y, in_forest y (f ++ [t]) ↔ in_forest y (pForest p) ∨ y ∈ pEntry p) as Hff.
      { intros y. rewrite in_forest_snoc, Et, <- Hin. apply Hy. }
      split; [|split; [done|split; [intros y; apply Hff|intros _ y; apply Hff]]].
      split; [right; apply or_sorted, Hok|intros; constructor|].
      apply Forall_app_2; [done|]. repeat constructor. by rewrite Et.
    + cbn [mbind outcome_bind]. eexists. split; [done|]. cbn [pEntry pForest rsFlags].
      split; [split; [right; apply or_sorted, Hok|intros; constructor|done]|].
      split; [done|]. split; [intros y; rewrite <- Hin, <- Hy; tauto|].
      intros ->. done.
  - cbn [mbind outcome_bind]. eexists. split; [done|]. cbn [pEntry pForest rsFlags].
    assert (∀ y, in_forest y f ↔ in_forest y (pForest p) ∨ y ∈ pEntry p) as Hff.
    { intros y. rewrite <- Hin, <- Hy. cbn [default]. rewrite list.elem_of_nil. tauto. }
    split; [|split; [done|split; [intros y; apply Hff|intros _ y; apply Hff]]].
    split; [right; apply or_sorted, Hok|intros; constructor|done].
Qed.

Lemma forest_find_spec f x : search_trees f → existsb (λ t, tree_find t x) f = true ↔ in_forest x f.
Proof.
  induction 1 as [|t f Ht Hf IH]; [unfold in_forest; rewrite List.Exists_nil; done|].
  cbn [existsb]. rewrite orb_true_iff, in_forest_cons, IH, tree_find_spec by done. done.
Qed.

(** What a test for a batch may see: the forest, and the entries if the batch
    is a new one. *)
Definition visible (p : RowSet) (batch x : Z) : Prop :=
  in_forest x (pForest p) ∨ (batch ≠ iBatch p ∧ x ∈ pEntry p).

(** [sqlite3RowSetTest] decides membership: 1 is returned exactly for the
    values inserted before the batch began (those moved into the forest, and
    the pending ones when the batch number is new), and afterwards the forest
    holds exactly these values in search trees.  When memory runs out the
    values may be lost, but no value is found that was not inserted. *)
Theorem sqlite3RowSetTest_member mem p batch x :
  rs_ok p → Z.of_nat (length (pEntry p)) < 2 ^ 40 →
  ∃ r p', sqlite3RowSetTest mem p batch x = Ret (r, p') ∧ rs_ok p' ∧ iBatch p' = batch ∧
    (r = true → visible p batch x) ∧
    (mem = true → (r = true ↔ visible p batch x) ∧
       ∀ y, in_forest y (pForest p') ↔ visible p batch y).
Proof.
  intros Hok Hl. unfold sqlite3RowSetTest. rewrite (rs_ok_next _ Hok). cbn [negb c_assert mbind outcome_bind].
  unfold visible. destruct (Z.eqb_spec batch (iBatch p)) as [E|E].
  - cbn [mbind outcome_bind]. eexists _, p. split; [done|]. split; [done|]. split; [done|].
    rewrite forest_find_spec by apply Hok. split; [tauto|]. intros _. split; [tauto|]. intros y. tauto.
  - destruct (new_batch_spec mem p Hok Hl) as (p' & -> & Hok' & He & H1 & H2). cbn [mbind outcome_bind].
    eexists _, (set_batch batch p'). split; [done|]. split; [by destruct Hok'|]. split; [done|].
    cbn [set_batch pForest]. rewrite forest_find_spec by apply Hok'. split.
    + intros Hx. apply H1 in Hx. tauto.
    + intros Hm. specialize (H2 Hm). split; [split; [intros Hx%H1; tauto|intros Hx; apply H2; tauto]|].
      intros y. split; [intros Hy%H1; tauto|intros Hy; apply H2; tauto].
Qed.

Lemma sqlite3RowSetTest_member_witness :
  ∃ r p', sqlite3RowSetTest true (RowSetC 0 [7; 2] [Node Leaf 4 Leaf] 1 0 0) 1 2 = Ret (r, p') ∧ r = true.
Proof.
  destruct (sqlite3RowSetTest_member true (RowSetC 0 [7; 2] [Node Leaf 4 Leaf] 1 0 0) 1 2)
    as (r & p' & E & _ & _ & _ & H).
  - split; [by left|done|repeat constructor].
  - simpl. lia.
  - exists r, p'. split; [done|]. apply (H eq_refl). right. simpl. split; [done|set_solver].
Defined.
