(* ===== verification/Bitvec.v ===== *)
(** * Bit vectors

    Models src/bitvec.c: sets of page numbers between 1 and [iSize], kept as a
    bitmap, as an open-addressing hash table, or as sub-bitvecs.  The sizes are
    those of a machine with 8-byte pointers.  A result [None] stands for a
    failed assertion, an access out of bounds or an endless loop; the theorems
    show that there is always a result.  Every allocation takes a flag from
    [mem] and succeeds when there is none left. *)

From S2P Require Import Prelude.
#[local] Open Scope Z_scope.
#[local] Open Scope c_scope.
#[local] Open Scope list_scope.

Definition BITVEC_SZ : Z := 512.
Definition BITVEC_USIZE : Z := (BITVEC_SZ - 3 * 4) / 8 * 8.
Definition BITVEC_SZELEM : Z := 8.
Definition BITVEC_NELEM : Z := BITVEC_USIZE / 1.
Definition BITVEC_NBIT : Z := BITVEC_NELEM * BITVEC_SZELEM.
Definition BITVEC_NINT : Z := BITVEC_USIZE / 4.
Definition BITVEC_MXHASH : Z := BITVEC_NINT / 2.
Definition BITVEC_HASH (X : Z) : Z := (X * 1) mod BITVEC_NINT.
Definition BITVEC_NPTR : Z := BITVEC_USIZE / 8.

Definition SQLITE_OK : Z := 0.
Definition SQLITE_NOMEM : Z := 7.

(** [Bitvec], with the member of the union [u] that is in use. *)
Inductive Bitvec :=
  | BV (iSize nSet iDivisor : Z) (u : Bitvec_u)
with Bitvec_u :=
  | aBitmap (l : list Z)
  | aHash (l : list Z)
  | apSub (l : list (option Bitvec)).

Definition iSize (p : Bitvec) : Z := let 'BV s _ _ _ := p in s.
Definition as_bitmap (u : Bitvec_u) : list Z := match u with aBitmap l => l | _ => [] end.
Definition as_hash (u : Bitvec_u) : list Z := match u with aHash l => l | _ => [] end.
Definition as_sub (u : Bitvec_u) : list (option Bitvec) := match u with apSub l => l | _ => [] end.

Definition take_mem (mem : list bool) : bool * list bool :=
  match mem with [] => (true, []) | b :: mem' => (b, mem') end.

(** The zeroed object, seen as the member the operations read. *)
Definition zeroed (size : Z) : Bitvec :=
  BV size 0 0 (if size <=? BITVEC_NBIT then aBitmap (replicate (Z.to_nat BITVEC_NELEM) 0)
               else aHash (replicate (Z.to_nat BITVEC_NINT) 0)).

Definition sqlite3BitvecCreate (mem : list bool) (size : Z) : option Bitvec * list bool :=
  let '(ok, mem) := take_mem mem in (if (ok : bool) then Some (zeroed size) else None, mem).

(** ** Test *)

(** The first slot from [h] on that is free ([false]) or holds [i] ([true]);
    [next] is how the loop steps to the next slot. *)
Fixpoint hash_scan (next : Z → Z) (fuel : nat) (l : list Z) (h i : Z) : option (bool * Z) :=
  match fuel with
  | O => None
  | S fuel' =>
      v ← zlookup l h;
      if v =? 0 then Some (false, h)
      else if v =? i then Some (true, h)
      else hash_scan next fuel' l (next h) i
  end.
Definition next_mod (h : Z) : Z := (h + 1) mod BITVEC_NINT.
Definition next_wrap (h : Z) : Z := let h := h + 1 in if BITVEC_NINT <=? h then 0 else h.

Definition bitmap_test (l : list Z) (i : Z) : option bool :=
  b ← zlookup l (i / BITVEC_SZELEM);
  Some (negb (b .& (1 .<< (i .& (BITVEC_SZELEM - 1))) =? 0)).

Fixpoint test_loop (fuel : nat) (p : Bitvec) (i : Z) : option bool :=
  match fuel with
  | O => None
  | S fuel' =>
      let 'BV size nSet iDivisor u := p in
      if negb (iDivisor =? 0) then
        o ← zlookup (as_sub u) (i / iDivisor);
        match o with
        | Some q => test_loop fuel' q (i mod iDivisor)
        | None => Some false
        end
      else if size <=? BITVEC_NBIT then bitmap_test (as_bitmap u) i
      else '(found, _) ← hash_scan next_mod (Z.to_nat BITVEC_NINT) (as_hash u) (BITVEC_HASH i) (i + 1);
           Some found
  end.

(** The nesting of sub-bitvecs below a 32-bit size is at most four. *)
Definition MAX_DEPTH : nat := 4.

Definition sqlite3BitvecTest (p : option Bitvec) (i : Z) : option bool :=
  match p with
  | None => Some false
  | Some p => if (iSize p <? i) || (i =? 0) then Some false else test_loop (S MAX_DEPTH) p (i - 1)
  end.

(** ** Set *)

Definition bitmap_set (l : list Z) (i : Z) : option (list Z) :=
  b ← zlookup l (i / BITVEC_SZELEM);
  Some (zinsert l (i / BITVEC_SZELEM) (u8 (b .| (1 .<< (i .& (BITVEC_SZELEM - 1)))))).

Definition set_fun : Type := list bool → Bitvec → Z → option (Z * Bitvec * list bool).

(** A call of [sqlite3BitvecSet], given its loop. *)
Definition set_call (set : set_fun) : set_fun := λ mem p i,
  if (0 <? i) && (i <=? iSize p) then set mem p (i - 1) else None.

(** [for(j=0; j<BITVEC_NINT; j++)]: re-insert the values of the hash table. *)
Fixpoint reinsert (set : set_fun) (aiValues : list Z) (rc : Z) (mem : list bool) (p : Bitvec)
    : option (Z * Bitvec * list bool) :=
  match aiValues with
  | [] => Some (rc, p, mem)
  | v :: vs =>
      if v =? 0 then reinsert set vs rc mem p
      else '(rc', p, mem) ← set_call set mem p v; reinsert set vs (rc .| rc') mem p
  end.

Definition rehash (set : set_fun) (mem : list bool) (size nSet : Z) (l : list Z) (i : Z)
    : option (Z * Bitvec * list bool) :=
  let '(ok, mem) := take_mem mem in
  if negb ok then Some (SQLITE_NOMEM, BV size nSet 0 (aHash l), mem) else
  let p := BV size nSet ((size + BITVEC_NPTR - 1) / BITVEC_NPTR)
             (apSub (replicate (Z.to_nat BITVEC_NPTR) None)) in
  '(rc, p, mem) ← set_call set mem p i;
  reinsert set l rc mem p.

Definition set_end (mem : list bool) (size nSet : Z) (l : list Z) (h i : Z)
    : option (Z * Bitvec * list bool) :=
  Some (SQLITE_OK, BV size (nSet + 1) 0 (aHash (zinsert l h i)), mem).

Fixpoint set_loop (fuel : nat) (mem : list bool) (p : Bitvec) (i : Z)
    : option (Z * Bitvec * list bool) :=
  match fuel with
  | O => None
  | S fuel' =>
      let 'BV size nSet iDivisor u := p in
      if (BITVEC_NBIT <? size) && negb (iDivisor =? 0) then
        let bin := i / iDivisor in
        let i := i mod iDivisor in
        o ← zlookup (as_sub u) bin;
        let '(sub, mem) := match o with
                           | Some q => (Some q, mem)
                           | None => sqlite3BitvecCreate mem iDivisor
                           end in
        match sub with
        | None => Some (SQLITE_NOMEM, p, mem)
        | Some q =>
            '(rc, q, mem) ← set_loop fuel' mem q i;
            Some (rc, BV size nSet iDivisor (apSub (zinsert (as_sub u) bin (Some q))), mem)
        end
      else if size <=? BITVEC_NBIT then
        l ← bitmap_set (as_bitmap u) i;
        Some (SQLITE_OK, BV size nSet iDivisor (aBitmap l), mem)
      else
        let l := as_hash u in
        let h := BITVEC_HASH i in
        let i := i + 1 in
        v ← zlookup l h;
        if v =? 0 then
          if nSet <? BITVEC_NINT - 1 then set_end mem size nSet l h i
          else if BITVEC_MXHASH <=? nSet then rehash (set_loop fuel') mem size nSet l i
          else set_end mem size nSet l h i
        else
          '(found, h) ← hash_scan next_wrap (Z.to_nat BITVEC_NINT) l h i;
          if (found : bool) then Some (SQLITE_OK, p, mem)
          else if BITVEC_MXHASH <=? nSet then rehash (set_loop fuel') mem size nSet l i
          else set_end mem size nSet l h i
  end.

(** Every level takes one call and possibly a re-hash. *)
Definition SET_FUEL : nat := S (2 * MAX_DEPTH).

Definition sqlite3BitvecSet (mem : list bool) (p : option Bitvec) (i : Z)
    : option (Z * option Bitvec * list bool) :=
  match p with
  | None => Some (SQLITE_OK, None, mem)
  | Some p => '(rc, p, mem) ← set_call (set_loop SET_FUEL) mem p i; Some (rc, Some p, mem)
  end.

(** ** Clear *)

Definition bitmap_clear (l : list Z) (i : Z) : option (list Z) :=
  b ← zlookup l (i / BITVEC_SZELEM);
  Some (zinsert l (i / BITVEC_SZELEM) (u8 (b .& Z.lnot (1 .<< (i .& (BITVEC_SZELEM - 1)))))).

(** The first free slot from [h] on. *)
Fixpoint free_slot (fuel : nat) (l : list Z) (h : Z) : option Z :=
  match fuel with
  | O => None
  | S fuel' => v ← zlookup l h; if v =? 0 then Some h else free_slot fuel' l (next_wrap h)
  end.

(** The loop that fills the emptied table with the values other than [i+1]. *)
Fixpoint refill (aiValues : list Z) (i : Z) (nSet : Z) (l : list Z) : option (Z * list Z) :=
  match aiValues with
  | [] => Some (nSet, l)
  | v :: vs =>
      if negb (v =? 0) && negb (v =? i + 1) then
        h ← free_slot (Z.to_nat BITVEC_NINT) l (BITVEC_HASH (v - 1));
        refill vs i (nSet + 1) (zinsert l h v)
      else refill vs i nSet l
  end.

Fixpoint bitvec_clear_loop (fuel : nat) (p : Bitvec) (i : Z) : option Bitvec :=
  match fuel with
  | O => None
  | S fuel' =>
      let 'BV size nSet iDivisor u := p in
      if negb (iDivisor =? 0) then
        let bin := i / iDivisor in
        o ← zlookup (as_sub u) bin;
        match o with
        | Some q =>
            q ← bitvec_clear_loop fuel' q (i mod iDivisor);
            Some (BV size nSet iDivisor (apSub (zinsert (as_sub u) bin (Some q))))
        | None => Some p
        end
      else if size <=? BITVEC_NBIT then
        l ← bitmap_clear (as_bitmap u) i; Some (BV size nSet iDivisor (aBitmap l))
      else
        '(n, l) ← refill (as_hash u) i 0 (replicate (Z.to_nat BITVEC_NINT) 0);
        Some (BV size n iDivisor (aHash l))
  end.

Definition sqlite3BitvecClear (p : option Bitvec) (i : Z) : option (option Bitvec) :=
  match p with
  | None => Some None
  | Some p => if 0 <? i then Some <$> bitvec_clear_loop (S MAX_DEPTH) p (i - 1) else None
  end.

Definition sqlite3BitvecSize (p : Bitvec) : Z := iSize p.

(** ** Arithmetic of slots *)

Lemma NINT_eq : BITVEC_NINT = 124. Proof. done. Qed.
Lemma NBIT_eq : BITVEC_NBIT = 3968. Proof. done. Qed.
Lemma NPTR_eq : BITVEC_NPTR = 62. Proof. done. Qed.
Lemma MXHASH_eq : BITVEC_MXHASH = 62. Proof. done. Qed.
Lemma NELEM_eq : BITVEC_NELEM = 496. Proof. done. Qed.
Ltac consts := rewrite ?NINT_eq, ?NBIT_eq, ?NPTR_eq, ?MXHASH_eq, ?NELEM_eq in *.

Lemma slot_range x : 0 ≤ x mod 124 < 124.
Proof. apply Z.mod_pos_bound. lia. Qed.

Lemma next_mod_slot x : next_mod (x mod 124) = (x + 1) mod 124.
Proof. unfold next_mod. consts. by rewrite Zplus_mod_idemp_l. Qed.

Lemma next_wrap_slot x : next_wrap (x mod 124) = (x + 1) mod 124.
Proof.
  unfold next_wrap. consts. pose proof (slot_range x) as H.
  replace ((x + 1) mod 124) with ((x mod 124 + 1) mod 124) by apply Zplus_mod_idemp_l.
  generalize dependent (x mod 124). intros y H. cbv zeta. destruct (Z.leb_spec 124 (y + 1)).
  - by replace (y + 1) with 124 by lia.
  - by rewrite Z.mod_small by lia.
Qed.

Lemma elem_zlookup {A} (l : list A) x : x ∈ l ↔ ∃ s, zlookup l s = Some x.
Proof.
  rewrite list_elem_of_lookup. split.
  - intros [k Hk]. exists (Z.of_nat k). unfold zlookup. destruct (Z.ltb_spec (Z.of_nat k) 0); [lia|].
    by rewrite Nat2Z.id.
  - intros [s Hs]. unfold zlookup in Hs. destruct (s <? 0); [done|]. eauto.
Qed.

Definition nonzero (l : list Z) : Z := Z.of_nat (length (filter (λ v, v ≠ 0) l)).

Lemma nonzero_free l : nonzero l < Z.of_nat (length l) → ∃ z, zlookup l z = Some 0.
Proof.
  intros H. apply elem_zlookup. induction l as [|v l IH]; [unfold nonzero in H; simpl in H; lia|].
  destruct (decide (v = 0)) as [->|Hv]; [set_solver|]. apply list.elem_of_cons. right. apply IH.
  unfold nonzero in *. rewrite filter_cons_True in H by done. simpl in H. lia.
Qed.

Lemma nonzero_zinsert l s v :
  zlookup l s = Some 0 → v ≠ 0 → nonzero (zinsert l s v) = nonzero l + 1.
Proof.
  unfold zlookup, zinsert, nonzero. destruct (s <? 0); [done|]. intros Hs Hv.
  pose proof (lookup_lt_Some _ _ _ Hs) as Hk.
  rewrite insert_take_drop by done. rewrite <- (take_drop_middle l (Z.to_nat s) 0 Hs) at 3.
  rewrite !list.filter_app, filter_cons_True, (filter_cons_False _ 0) by (done || lia).
  rewrite !length_app. simpl. lia.
Qed.

(** ** The hash table *)

(** Slot [d] of the probe sequence of [v]. *)
Definition probe (v d : Z) : Z := (BITVEC_HASH (v - 1) + d) mod 124.

(** The slots before slot [d] are taken. *)
Definition taken (l : list Z) (v d : Z) : Prop :=
  ∀ d' w, 0 ≤ d' < d → zlookup l (probe v d') = Some w → w ≠ 0.

Record hash_ok (size nSet : Z) (l : list Z) : Prop := {
  ho_len : length l = 124%nat;
  ho_vals : ∀ v, v ∈ l → 0 ≤ v ≤ size;
  ho_count : nonzero l = nSet;
  ho_room : nSet ≤ 123;
  ho_probe : ∀ s v, zlookup l s = Some v → v ≠ 0 → ∃ d, 0 ≤ d ∧ s = probe v d ∧ taken l v d;
}.

Lemma hash_scan_spec next l h0 i z fuel : ∀ e,
  (∀ x, next (x mod 124) = (x + 1) mod 124) → length l = 124%nat →
  zlookup l ((h0 + z) mod 124) = Some 0 → 0 ≤ e ≤ z → z < e + Z.of_nat fuel →
  ∃ b d, hash_scan next fuel l ((h0 + e) mod 124) i = Some (b, (h0 + d) mod 124) ∧ e ≤ d ∧
    zlookup l ((h0 + d) mod 124) = Some (if b then i else 0) ∧
    ∀ d' w, e ≤ d' < d → zlookup l ((h0 + d') mod 124) = Some w → w ≠ 0 ∧ w ≠ i.
Proof.
  induction fuel as [|fuel IH]; intros e Hn Hl Hz He Hf; [lia|]. cbn [hash_scan].
  pose proof (slot_range (h0 + e)). destruct (zlookup_is_Some l ((h0 + e) mod 124)) as [v Hv]; [lia|].
  rewrite Hv. cbn [mbind option_bind]. destruct (Z.eqb_spec v 0) as [->|Hv0]; [|destruct (Z.eqb_spec v i) as [->|Hvi]].
  - exists false, e. repeat split; [lia|done|lia..].
  - exists true, e. repeat split; [lia|done|lia..].
  - assert (e ≠ z) by congruence.
    destruct (IH (e + 1)) as (b & d & E & Hd & Hs & Hw); [done..|lia|lia|].
    rewrite Hn. replace (h0 + e + 1) with (h0 + (e + 1)) by lia.
    exists b, d. split; [done|]. split; [lia|]. split; [done|]. intros d' w Hd' Hl'.
    destruct (decide (d' = e)) as [->|]; [rewrite Hv in Hl'; by simplify_eq|]. apply (Hw d' w); [lia|done].
Qed.

(** A scan from the hash of [v] stops at [i] or at a free slot, having passed
    only other values. *)
Lemma hash_scan_probe next size nSet l v i :
  (∀ x, next (x mod 124) = (x + 1) mod 124) → hash_ok size nSet l →
  ∃ b d, hash_scan next (Z.to_nat BITVEC_NINT) l (BITVEC_HASH (v - 1)) i = Some (b, probe v d) ∧ 0 ≤ d ∧
    zlookup l (probe v d) = Some (if b then i else 0) ∧
    ∀ d' w, 0 ≤ d' < d → zlookup l (probe v d') = Some w → w ≠ 0 ∧ w ≠ i.
Proof.
  intros Hn [Hlen _ Hc Hr _]. destruct (nonzero_free l) as [z Hz]; [lia|].
  pose proof (zlookup_Some _ _ _ Hz) as Hzr. set (h := BITVEC_HASH (v - 1)).
  assert ((h + (z - h) mod 124) mod 124 = z) as Ez.
  { rewrite Zplus_mod_idemp_r. replace (h + (z - h)) with z by lia. apply Z.mod_small. lia. }
  pose proof (slot_range (z - h)).
  destruct (hash_scan_spec next l h i ((z - h) mod 124) (Z.to_nat BITVEC_NINT) 0) as (b & d & E & Hd & Hs & Hw).
  - done.
  - done.
  - by rewrite Ez.
  - lia.
  - consts. lia.
  - exists b, d. unfold probe. fold h. split; [|done]. rewrite <- E. f_equal. rewrite Z.add_0_r.
    subst h. unfold BITVEC_HASH. consts. by rewrite Zmod_mod.
Qed.

(** The scan decides membership. *)
Lemma hash_scan_member next size nSet l v :
  (∀ x, next (x mod 124) = (x + 1) mod 124) → hash_ok size nSet l → v ≠ 0 →
  ∃ b d, hash_scan next (Z.to_nat BITVEC_NINT) l (BITVEC_HASH (v - 1)) v = Some (b, probe v d) ∧
    0 ≤ d ∧ b = bool_decide (v ∈ l) ∧ (b = false → zlookup l (probe v d) = Some 0 ∧ taken l v d).
Proof.
  intros Hn Hok Hv. destruct (hash_scan_probe next size nSet l v v Hn Hok) as (b & d & E & Hd & Hs & Hw).
  exists b, d. split; [done|]. split; [done|]. destruct b.
  - split; [|done]. symmetry. apply bool_decide_eq_true, elem_zlookup. eauto.
  - split; [|split; [done|]; intros d' w Hd' Hl'; by apply (Hw d' w)].
    symmetry. apply bool_decide_eq_false. intros [s Es]%elem_zlookup.
    destruct (ho_probe _ _ _ Hok _ _ Es Hv) as (d2 & Hd2 & -> & Ht).
    destruct (Z.lt_trichotomy d d2) as [Hlt|[->|Hgt]].
    + by apply (Ht d 0).
    + congruence.
    + by destruct (Hw d2 v) as [_ ?]; [lia|done|].
Qed.

Lemma zinsert_elem (l : list Z) s v x :
  zlookup l s = Some 0 → x ≠ 0 → x ∈ zinsert l s v ↔ x = v ∨ x ∈ l.
Proof.
  intros Hs Hx. pose proof (zlookup_Some _ _ _ Hs) as Hr. rewrite !elem_zlookup. split.
  - intros [s' Hs']. rewrite zlookup_zinsert in Hs' by done. case_decide; simplify_eq; eauto.
  - intros [->|[s' Hs']].
    + exists s. rewrite zlookup_zinsert by done. by rewrite decide_True.
    + exists s'. rewrite zlookup_zinsert by done. case_decide; [congruence|done].
Qed.

(** Storing a value in the first free slot of its probe sequence. *)
Lemma hash_insert_ok size nSet l v d :
  hash_ok size nSet l → nSet < 123 → 0 < v ≤ size → 0 ≤ d →
  zlookup l (probe v d) = Some 0 → taken l v d →
  hash_ok size (nSet + 1) (zinsert l (probe v d) v).
Proof.
  intros [Hlen Hvals Hc Hroom Hp] Hn Hv Hd Hs Ht. pose proof (zlookup_Some _ _ _ Hs) as Hr.
  assert (∀ x e, taken l x e → taken (zinsert l (probe v d) v) x e) as Hmono.
  { intros x e Hx d' w Hd' Hl'. rewrite zlookup_zinsert in Hl' by done.
    case_decide; simplify_eq; [lia|by apply (Hx d' w)]. }
  split.
  - by rewrite zinsert_length.
  - intros x Hx. destruct (decide (x = 0)) as [->|Hx0]; [lia|].
    apply zinsert_elem in Hx as [->|Hx]; [lia|auto|done|done].
  - rewrite nonzero_zinsert by (done || lia). lia.
  - lia.
  - intros s x Hx Hx0. rewrite zlookup_zinsert in Hx by done. case_decide as E; simplify_eq.
    + exists d. split; [done|]. split; [done|]. by apply Hmono.
    + destruct (Hp s x Hx Hx0) as (e & He & -> & Hte). exists e. split; [done|]. split; [done|]. by apply Hmono.
Qed.

Lemma nonzero_empty n : nonzero (replicate n 0) = 0.
Proof. unfold nonzero. induction n as [|n IH]; [done|]. simpl replicate. by rewrite filter_cons_False by lia. Qed.

Lemma empty_lookup n s v : zlookup (replicate n 0) s = Some v → v = 0.
Proof. intros H. assert (v ∈ replicate n 0) as Hv by (apply elem_zlookup; eauto).
  by apply elem_of_replicate in Hv as [? _].
Qed.

Lemma hash_ok_empty size : 0 ≤ size → hash_ok size 0 (replicate (Z.to_nat BITVEC_NINT) 0).
Proof.
  intros Hs. split.
  - by rewrite length_replicate.
  - intros v Hv. apply elem_of_replicate in Hv as [-> _]. lia.
  - apply nonzero_empty.
  - lia.
  - intros s v Hl Hv. by apply empty_lookup in Hl.
Qed.

(** Clearing rebuilds the table from the other values. *)
Lemma free_slot_scan fuel l h : free_slot fuel l h = snd <$> hash_scan next_wrap fuel l h 0.
Proof.
  revert h. induction fuel as [|fuel IH]; intros h; [done|]. cbn [free_slot hash_scan].
  destruct (zlookup l h) as [v|]; [|done]. cbn [mbind option_bind]. by destruct (v =? 0).
Qed.

Lemma refill_spec size i vs : ∀ n l,
  hash_ok size n l → (∀ v, v ∈ vs → 0 ≤ v ≤ size) → n + nonzero vs ≤ 123 →
  ∃ n' l', refill vs i n l = Some (n', l') ∧ hash_ok size n' l' ∧
    ∀ x, x ≠ 0 → x ∈ l' ↔ x ∈ l ∨ (x ∈ vs ∧ x ≠ i + 1).
Proof.
  induction vs as [|v vs IH]; intros n l Hok Hvs Hn; cbn [refill]; [exists n, l; set_solver|].
  assert (∀ w, w ∈ vs → 0 ≤ w ≤ size) as Hvs' by (intros; apply Hvs; set_solver).
  assert (0 ≤ nonzero vs) by (unfold nonzero; lia). unfold nonzero in Hn. destruct (Z.eqb_spec v 0) as [->|Hv0].
  { rewrite filter_cons_False in Hn by lia. fold (nonzero vs) in Hn. cbn [negb andb].
    destruct (IH n l Hok Hvs' Hn) as (n' & l' & E & Hok' & Hx). exists n', l'.
    split; [done|]. split; [done|]. intros x Hx0. rewrite Hx by done. set_solver. }
  rewrite filter_cons_True in Hn by done. cbn [length] in Hn. rewrite Nat2Z.inj_succ in Hn.
  fold (nonzero vs) in Hn. destruct (Z.eqb_spec v (i + 1)) as [->|Hvi]; cbn [negb andb].
  { destruct (IH n l Hok Hvs') as (n' & l' & E & Hok' & Hx); [lia|]. exists n', l'.
    split; [done|]. split; [done|]. intros x Hx0. rewrite Hx by done. set_solver. }
  destruct (hash_scan_probe next_wrap size n l v 0 next_wrap_slot Hok) as (b & d & E & Hd & Hs & Hw).
  rewrite free_slot_scan, E. cbn [fmap option_fmap option_map snd mbind option_bind].
  assert (zlookup l (probe v d) = Some 0) as Hs0 by (by destruct b).
  assert (0 ≤ v ≤ size) by (apply Hvs, list.elem_of_cons; by left).
  destruct (IH (n + 1) (zinsert l (probe v d) v)) as (n' & l' & E' & Hok' & Hx).
  - apply hash_insert_ok; [done|lia|lia|done..|]. intros d' w Hd' Hl'. by apply (Hw d' w).
  - done.
  - lia.
  - exists n', l'. split; [done|]. split; [done|]. intros x Hx0.
    rewrite Hx, zinsert_elem by done. rewrite list.elem_of_cons. destruct (decide (x = v)) as [->|]; tauto.
Qed.

(** ** The bitmap *)

Lemma low3 i : i .& (BITVEC_SZELEM - 1) = i mod 8.
Proof. unfold BITVEC_SZELEM. change (8 - 1) with (Z.ones 3). by rewrite Z.land_ones by lia. Qed.

Lemma land_pow2 b k : 0 ≤ k → negb (b .& (1 .<< k) =? 0) = Z.testbit b k.
Proof.
  intros Hk. rewrite Z.shiftl_1_l. destruct (Z.testbit b k) eqn:E.
  - apply negb_true_iff, Z.eqb_neq. intros H. assert (Z.testbit (b .& 2 ^ k) k = false) as Hf by (rewrite H; apply Z.bits_0).
    rewrite Z.land_spec, E, Z.pow2_bits_true in Hf by done. done.
  - apply negb_false_iff, Z.eqb_eq, Z.bits_inj'. intros n Hn. rewrite Z.land_spec, Z.bits_0.
    destruct (decide (n = k)) as [->|]; [by rewrite E|]. rewrite Z.pow2_bits_false by lia. apply andb_false_r.
Qed.

Lemma bitmap_test_spec l i b : zlookup l (i / 8) = Some b → bitmap_test l i = Some (Z.testbit b (i mod 8)).
Proof.
  intros H. unfold bitmap_test. change (i / BITVEC_SZELEM) with (i / 8). rewrite H. cbn [mbind option_bind].
  rewrite low3, land_pow2; [done|]. apply Z.mod_pos_bound. lia.
Qed.

Lemma testbit_u8 x n : 0 ≤ n < 8 → Z.testbit (u8 x) n = Z.testbit x n.
Proof. intros Hn. unfold uw. by rewrite Z.mod_pow2_bits_low by lia. Qed.

(** A change of the bit [i mod 8] of the byte [i / 8]. *)
Lemma bitmap_update l i j b b' (f : bool → bool) :
  zlookup l (i / 8) = Some b →
  (∀ n, 0 ≤ n < 8 → Z.testbit b' n = if n =? i mod 8 then f (Z.testbit b n) else Z.testbit b n) →
  0 ≤ j → j / 8 < Z.of_nat (length l) →
  ∃ v, bitmap_test l j = Some v ∧
    bitmap_test (zinsert l (i / 8) b') j = Some (if j =? i then f v else v).
Proof.
  intros Hb Hb' Hj Hl. pose proof (zlookup_Some _ _ _ Hb) as Hr.
  destruct (zlookup_is_Some l (j / 8)) as [c Hc]; [split; [apply Z.div_pos; lia|done]|].
  exists (Z.testbit c (j mod 8)). split; [by apply bitmap_test_spec|].
  assert (0 ≤ j mod 8 < 8) by (apply Z.mod_pos_bound; lia).
  destruct (decide (i / 8 = j / 8)) as [E|E].
  - rewrite (bitmap_test_spec _ _ b') by (rewrite zlookup_zinsert by done; by rewrite decide_True).
    rewrite E in Hb. simplify_eq. rewrite Hb' by done. do 2 f_equal.
    pose proof (Z.div_mod i 8). pose proof (Z.div_mod j 8).
    destruct (Z.eqb_spec (j mod 8) (i mod 8)), (Z.eqb_spec j i); subst; lia || done.
  - rewrite (bitmap_test_spec _ _ c) by (rewrite zlookup_zinsert by done; by rewrite decide_False).
    destruct (Z.eqb_spec j i); [by subst|done].
Qed.

(** ** The invariant *)

Definition divisor (size : Z) : Z := (size + BITVEC_NPTR - 1) / BITVEC_NPTR.

(** [n] bounds the nesting. *)
Fixpoint bv_inv (n : nat) (p : Bitvec) : Prop :=
  let 'BV size nSet iDivisor u := p in
  0 ≤ size ≤ BITVEC_NBIT * BITVEC_NPTR ^ Z.of_nat n ∧
  match u with
  | aBitmap l => size ≤ BITVEC_NBIT ∧ iDivisor = 0 ∧ length l = Z.to_nat BITVEC_NELEM ∧ Forall (in_uw 8) l
  | aHash l => BITVEC_NBIT < size ∧ iDivisor = 0 ∧ hash_ok size nSet l
  | apSub l =>
      BITVEC_NBIT < size ∧ iDivisor = divisor size ∧ length l = Z.to_nat BITVEC_NPTR ∧
      match n with
      | O => False
      | S n' => ∀ q, Some q ∈ l → bv_inv n' q ∧ iSize q = divisor size
      end
  end.

(** Bit [j + 1]. *)
Definition bit (n : nat) (p : Bitvec) (j : Z) : bool := default false (test_loop (S n) p j).

Lemma divisor_bounds size n :
  BITVEC_NBIT < size ≤ BITVEC_NBIT * BITVEC_NPTR ^ Z.of_nat (S n) →
  0 < divisor size ≤ BITVEC_NBIT * BITVEC_NPTR ^ Z.of_nat n ∧ size ≤ divisor size * 62.
Proof.
  unfold divisor. consts. intros H. rewrite Nat2Z.inj_succ, Z.pow_succ_r in H by lia.
  pose proof (Z.div_mod (size + 62 - 1) 62). pose proof (Z.mod_pos_bound (size + 62 - 1) 62). lia.
Qed.

(** Where a bit of the third representation is. *)
Lemma sub_position size n j :
  BITVEC_NBIT < size ≤ BITVEC_NBIT * BITVEC_NPTR ^ Z.of_nat (S n) → 0 ≤ j < size →
  0 ≤ j / divisor size < 62 ∧ 0 ≤ j mod divisor size < divisor size ∧ negb (divisor size =? 0) = true.
Proof.
  intros Hs Hj. destruct (divisor_bounds size n Hs) as [Hd Hsz].
  split; [split; [apply Z.div_pos; lia|apply Z.div_lt_upper_bound; lia]|].
  split; [apply Z.mod_pos_bound; lia|]. apply negb_true_iff, Z.eqb_neq. lia.
Qed.

Lemma bit_sub n size nSet l j :
  divisor size ≠ 0 →
  bit (S n) (BV size nSet (divisor size) (apSub l)) j =
    match zlookup l (j / divisor size) with
    | Some (Some q) => bit n q (j mod divisor size)
    | _ => false
    end.
Proof.
  intros Hd. unfold bit. cbn [test_loop as_sub]. rewrite (proj2 (Z.eqb_neq _ _) Hd). cbn [negb].
  by destruct (zlookup l (j / divisor size)) as [[q|]|].
Qed.

Lemma bit_hash n size nSet l j :
  BITVEC_NBIT < size → hash_ok size nSet l → 0 ≤ j →
  test_loop (S n) (BV size nSet 0 (aHash l)) j = Some (bool_decide (j + 1 ∈ l)).
Proof.
  intros Hs Hok Hj. cbn [test_loop as_hash]. rewrite (proj2 (Z.leb_gt _ _) Hs). cbn [negb Z.eqb].
  destruct (hash_scan_member next_mod size nSet l (j + 1) next_mod_slot Hok) as (b & d & E & _ & Hb & _); [lia|].
  replace (j + 1 - 1) with j in E by lia. rewrite E. cbn [mbind option_bind]. by rewrite Hb.
Qed.

Lemma bit_bitmap n size nSet l j :
  size ≤ BITVEC_NBIT → test_loop (S n) (BV size nSet 0 (aBitmap l)) j = bitmap_test l j.
Proof. intros Hs. cbn [test_loop as_bitmap]. by rewrite (proj2 (Z.leb_le _ _) Hs). Qed.

Lemma bitmap_byte j : 0 ≤ j < BITVEC_NBIT → 0 ≤ j / 8 < Z.of_nat (Z.to_nat BITVEC_NELEM).
Proof. consts. intros Hj. split; [apply Z.div_pos; lia|]. apply Z.div_lt_upper_bound; lia. Qed.

(** The test of a well-formed bit vector has a result. *)
Lemma test_total n : ∀ p j,
  bv_inv n p → 0 ≤ j < iSize p → test_loop (S n) p j = Some (bit n p j).
Proof.
  induction n as [|n IH]; intros [size nSet dv u] j [Hsz Hu] Hj; cbn [iSize] in Hj;
    (destruct u as [l|l|l]; [destruct Hu as (Hs & -> & Hl & _)|destruct Hu as (Hs & -> & Hok)|
      destruct Hu as (Hs & -> & Hl & Hq)]); unfold bit.
  all: try (rewrite bit_hash by (done || lia); done).
  all: try (rewrite bit_bitmap by done;
    destruct (zlookup_is_Some l (j / 8)) as [b Hb]; [rewrite Hl; apply bitmap_byte; lia|];
    by rewrite (bitmap_test_spec _ _ _ Hb)).
  - done.
  - destruct (sub_position size n j) as (Hb & Hm & Hd); [lia|done|].
    cbn [test_loop as_sub]. rewrite Hd.
    destruct (zlookup_is_Some l (j / divisor size)) as [o Ho]; [rewrite Hl; consts; lia|].
    rewrite Ho. cbn [mbind option_bind]. destruct o as [q|]; [|done].
    destruct (Hq q) as [Hq1 Hq2]; [apply elem_zlookup; eauto|].
    pose proof (IH q (j mod divisor size) Hq1 ltac:(lia)) as E. cbn [test_loop] in E. by rewrite E.
Qed.

Lemma zeroed_inv n size :
  0 ≤ size ≤ BITVEC_NBIT * BITVEC_NPTR ^ Z.of_nat n →
  bv_inv n (zeroed size) ∧ iSize (zeroed size) = size ∧ ∀ j, 0 ≤ j < size → bit n (zeroed size) j = false.
Proof.
  intros Hs. unfold zeroed. destruct (Z.leb_spec size BITVEC_NBIT) as [H|H].
  - split; [|split; [done|]].
    + destruct n; cbn [bv_inv]; (split; [done|]; split; [done|]; split; [done|];
        split; [apply length_replicate|apply Forall_replicate; done]).
    + intros j Hj. unfold bit. rewrite bit_bitmap by done.
      destruct (zlookup_is_Some (replicate (Z.to_nat BITVEC_NELEM) 0) (j / 8)) as [b Hb].
      { rewrite length_replicate. apply bitmap_byte. lia. }
      rewrite (bitmap_test_spec _ _ _ Hb). apply empty_lookup in Hb as ->. apply Z.bits_0.
  - pose proof (hash_ok_empty size) as Hok. split; [|split; [done|]].
    + destruct n; cbn [bv_inv]; (split; [done|]; split; [done|]; split; [done|apply Hok; lia]).
    + intros j Hj. unfold bit. rewrite bit_hash by (done || lia || apply Hok; lia).
      cbn [default]. apply bool_decide_eq_false. intros Hin. apply elem_of_replicate in Hin as [? _]. lia.
Qed.

(** ** Sub-bitvecs *)

Lemma same_position i j d : 0 < d → i / d = j / d → (j mod d =? i mod d) = (j =? i).
Proof.
  intros Hd E. pose proof (Z.div_mod i d). pose proof (Z.div_mod j d). rewrite E in *.
  destruct (Z.eqb_spec (j mod d) (i mod d)), (Z.eqb_spec j i); subst; lia || done.
Qed.

(** The bits after the sub-bitvec of [bin] is replaced. *)
Lemma bit_sub_insert n size nSet l bin q j :
  divisor size ≠ 0 → 0 ≤ bin < Z.of_nat (length l) →
  bit (S n) (BV size nSet (divisor size) (apSub (zinsert l bin (Some q)))) j =
    if decide (bin = j / divisor size) then bit n q (j mod divisor size)
    else bit (S n) (BV size nSet (divisor size) (apSub l)) j.
Proof.
  intros Hd Hb. rewrite !bit_sub by done. rewrite zlookup_zinsert by done. by case_decide.
Qed.

Lemma sub_insert_inv n size nSet l bin q :
  bv_inv (S n) (BV size nSet (divisor size) (apSub l)) → 0 ≤ bin < Z.of_nat (length l) →
  bv_inv n q → iSize q = divisor size →
  bv_inv (S n) (BV size nSet (divisor size) (apSub (zinsert l bin (Some q)))).
Proof.
  intros (Hs & Hn & _ & Hl & Hq) Hb Hq1 Hq2. split; [done|]. split; [done|]. split; [done|].
  rewrite zinsert_length. split; [done|]. intros q' [s Hin]%elem_zlookup.
  rewrite zlookup_zinsert in Hin by done. case_decide; simplify_eq; [done|]. apply Hq, elem_zlookup. eauto.
Qed.

(** ** Clear *)

Lemma bitmap_bounds l i :
  length l = Z.to_nat BITVEC_NELEM → Forall (in_uw 8) l → 0 ≤ i < BITVEC_NBIT →
  ∃ b, zlookup l (i / 8) = Some b ∧ in_uw 8 b.
Proof.
  intros Hl Hf Hi. destruct (zlookup_is_Some l (i / 8)) as [b Hb]; [rewrite Hl; by apply bitmap_byte|].
  exists b. split; [done|]. rewrite list.Forall_forall in Hf. apply Hf, elem_zlookup. eauto.
Qed.

Lemma Forall_zinsert {A} (P : A → Prop) l i x : Forall P l → P x → Forall P (zinsert l i x).
Proof. intros Hl Hx. unfold zinsert. destruct (i <? 0); [done|]. by apply Forall_insert. Qed.

Definition size_ok (n : nat) (size : Z) : Prop := 0 ≤ size ≤ BITVEC_NBIT * BITVEC_NPTR ^ Z.of_nat n.

Lemma inv_bitmap n size nSet dv l :
  bv_inv n (BV size nSet dv (aBitmap l)) ↔
  size_ok n size ∧ size ≤ BITVEC_NBIT ∧ dv = 0 ∧ length l = Z.to_nat BITVEC_NELEM ∧ Forall (in_uw 8) l.
Proof. by destruct n. Qed.

Lemma inv_hash n size nSet dv l :
  bv_inv n (BV size nSet dv (aHash l)) ↔
  size_ok n size ∧ BITVEC_NBIT < size ∧ dv = 0 ∧ hash_ok size nSet l.
Proof. by destruct n. Qed.

(** A change of one bit of a bitmap. *)
Lemma bitmap_change n size nSet l i b (f : bool → bool) (b' : Z) :
  bv_inv n (BV size nSet 0 (aBitmap l)) → 0 ≤ i < size → zlookup l (i / 8) = Some b →
  (∀ k, 0 ≤ k < 8 → Z.testbit b' k = if k =? i mod 8 then f (Z.testbit b k) else Z.testbit b k) →
  bv_inv n (BV size nSet 0 (aBitmap (zinsert l (i / 8) (u8 b')))) ∧
  ∀ j, 0 ≤ j < size → bit n (BV size nSet 0 (aBitmap (zinsert l (i / 8) (u8 b')))) j =
    let v := bit n (BV size nSet 0 (aBitmap l)) j in if j =? i then f v else v.
Proof.
  intros (Hn & Hs & _ & Hl & Hf)%inv_bitmap Hi Hb Hk. split.
  - apply inv_bitmap. split_and!; try done; [by rewrite zinsert_length|].
    apply Forall_zinsert; [done|by apply uw_range].
  - intros j Hj. unfold bit. rewrite !bit_bitmap by done.
    destruct (bitmap_update l i j b (u8 b') f) as (v & E1 & E2); [done| |lia| |by rewrite E1, E2].
    + intros k Hk'. rewrite testbit_u8 by done. by apply Hk.
    + rewrite Hl. apply bitmap_byte. lia.
Qed.

(** What clearing bit [i] does. *)
Definition clear_post (n : nat) (p : Bitvec) (i : Z) (p' : Bitvec) : Prop :=
  bv_inv n p' ∧ iSize p' = iSize p ∧
  ∀ j, 0 ≤ j < iSize p → bit n p' j = negb (j =? i) && bit n p j.

Lemma clear_bitmap n size nSet l i :
  bv_inv n (BV size nSet 0 (aBitmap l)) → 0 ≤ i < size →
  ∃ p', bitvec_clear_loop (S n) (BV size nSet 0 (aBitmap l)) i = Some p' ∧
        clear_post n (BV size nSet 0 (aBitmap l)) i p'.
Proof.
  intros Hinv Hi. pose proof Hinv as (_ & Hs & _ & Hl & Hf)%inv_bitmap.
  destruct (bitmap_bounds l i Hl Hf) as (b & Hb & Hbu); [lia|].
  cbn [bitvec_clear_loop as_bitmap]. rewrite (proj2 (Z.leb_le _ _) Hs). cbn [negb Z.eqb].
  unfold bitmap_clear. change (i / BITVEC_SZELEM) with (i / 8). rewrite Hb, low3. cbn [mbind option_bind].
  assert (0 ≤ i mod 8 < 8) by (apply Z.mod_pos_bound; lia). rewrite Z.shiftl_1_l.
  eexists. split; [done|].
  destruct (bitmap_change n size nSet l i b (λ _, false) (b .& Z.lnot (2 ^ (i mod 8)))) as [H1 H2]; [done..| |].
  - intros k Hk. rewrite Z.land_spec, Z.lnot_spec, Z.pow2_bits_eqb by lia.
    rewrite (Z.eqb_sym k). destruct (_ =? _); [apply andb_false_r|apply andb_true_r].
  - split; [done|]. split; [done|]. intros j Hj. rewrite H2 by done. by destruct (j =? i).
Qed.

Lemma clear_hash n size nSet l i :
  bv_inv n (BV size nSet 0 (aHash l)) → 0 ≤ i < size →
  ∃ p', bitvec_clear_loop (S n) (BV size nSet 0 (aHash l)) i = Some p' ∧
        clear_post n (BV size nSet 0 (aHash l)) i p'.
Proof.
  intros (Hn & Hs & _ & Hok)%inv_hash Hi.
  cbn [bitvec_clear_loop as_hash]. rewrite (proj2 (Z.leb_gt _ _) Hs). cbn [negb Z.eqb].
  destruct (refill_spec size i l 0 (replicate (Z.to_nat BITVEC_NINT) 0)) as (n' & l' & E & Hok' & Hx).
  - apply hash_ok_empty. lia.
  - apply Hok.
  - rewrite (ho_count _ _ _ Hok). pose proof (ho_room _ _ _ Hok). lia.
  - rewrite E. cbn [mbind option_bind]. eexists. split; [done|]. split; [by apply inv_hash|]. split; [done|].
    intros j Hj. cbn [iSize] in Hj. unfold bit. rewrite !bit_hash by (done || lia). cbn [default].
    assert (j + 1 ∈ l' ↔ j + 1 ∈ l ∧ j ≠ i) as Hjl.
    { rewrite Hx by lia. split.
      - intros [Hin|[? ?]]; [apply elem_of_replicate in Hin as [? _]; lia|]. split; [done|congruence].
      - intros [? ?]. right. split; [done|lia]. }
    rewrite (bool_decide_ext _ _ Hjl). destruct (Z.eqb_spec j i) as [->|Hji]; cbn [negb andb].
    + apply bool_decide_eq_false. tauto.
    + apply bool_decide_ext. tauto.
Qed.

Lemma bitvec_clear_spec n : ∀ p i,
  bv_inv n p → 0 ≤ i < iSize p → ∃ p', bitvec_clear_loop (S n) p i = Some p' ∧ clear_post n p i p'.
Proof.
  induction n as [|n IH]; intros [size nSet dv [l|l|l]] i Hinv Hi.
  1, 4: by pose proof Hinv as (_ & _ & -> & _)%inv_bitmap; apply clear_bitmap.
  1, 3: by pose proof Hinv as (_ & _ & -> & _)%inv_hash; apply clear_hash.
  - by destruct Hinv as (_ & _ & _ & _ & []).
  - pose proof Hinv as (Hsz & Hs & -> & Hl & Hq). cbn [iSize] in Hi.
    destruct (sub_position size n i) as (Hb & Hm & Hd); [lia|done|].
    destruct (divisor_bounds size n) as [Hdv _]; [lia|].
    remember (S n) as n1 eqn:En. cbn [bitvec_clear_loop as_sub]. subst n1. rewrite Hd.
    destruct (zlookup_is_Some l (i / divisor size)) as [o Ho]; [rewrite Hl; consts; lia|].
    rewrite Ho. cbn [mbind option_bind]. destruct o as [q|].
    + destruct (Hq q) as [Hq1 Hq2]; [apply elem_zlookup; eauto|].
      destruct (IH q (i mod divisor size)) as (q' & -> & Hq1' & Hq2' & Hbits); [done|lia|].
      cbn [mbind option_bind]. pose proof (zlookup_Some _ _ _ Ho) as Hr.
      eexists. split; [done|]. split; [apply sub_insert_inv; [done|lia|done|congruence]|]. split; [done|].
      intros j Hj. cbn [iSize] in Hj. destruct (sub_position size n j) as (_ & Hjm & _); [lia|done|].
      rewrite bit_sub_insert by lia. case_decide as E.
      * rewrite Hbits, same_position by (lia || done). f_equal. rewrite bit_sub, <- E, Ho by lia. done.
      * destruct (Z.eqb_spec j i); [by subst|done].
    + eexists. split; [done|]. split; [done|]. split; [done|]. intros j Hj.
      destruct (Z.eqb_spec j i) as [->|]; [|done]. cbn [negb andb]. rewrite bit_sub by lia. by rewrite Ho.
Qed.

(** ** Set *)

(** What setting bit [i] does: without an error exactly that bit is added;
    in any case no other bit is. *)
Definition set_post (n : nat) (mem : list bool) (p : Bitvec) (i : Z) (r : Z * Bitvec * list bool) : Prop :=
  let '(rc, p', mem') := r in
  bv_inv n p' ∧ iSize p' = iSize p ∧ (rc = SQLITE_OK ∨ rc = SQLITE_NOMEM) ∧
  (∀ j, 0 ≤ j < iSize p → bit n p' j = true → j = i ∨ bit n p j = true) ∧
  (rc = SQLITE_OK → ∀ j, 0 ≤ j < iSize p → bit n p' j = (j =? i) || bit n p j) ∧
  (mem = [] → rc = SQLITE_OK ∧ mem' = []).

Definition set_ok (n : nat) (set : set_fun) (p : Bitvec) : Prop :=
  ∀ mem i, 0 ≤ i < iSize p → ∃ r, set mem p i = Some r ∧ set_post n mem p i r.

(** Success with exactly the bits asked for. *)
Lemma set_post_exact n mem p i p' :
  bv_inv n p' → iSize p' = iSize p →
  (∀ j, 0 ≤ j < iSize p → bit n p' j = (j =? i) || bit n p j) →
  set_post n mem p i (SQLITE_OK, p', mem).
Proof.
  intros H1 H2 H3. split; [done|]. split; [done|]. split; [by left|]. split; [|done].
  intros j Hj. rewrite H3 by done. intros [E|E]%orb_true_iff; [left; by apply Z.eqb_eq|by right].
Qed.

Lemma set_post_nomem n mem p i : bv_inv n p → take_mem mem = (false, tail mem) →
  set_post n mem p i (SQLITE_NOMEM, p, tail mem).
Proof.
  intros Hp Hm. split; [done|]. split; [done|]. split; [by right|]. split; [tauto|]. split; [done|].
  by intros ->.
Qed.

Lemma take_mem_eq mem : ∃ b, take_mem mem = (b, tail mem).
Proof. destruct mem; eexists; done. Qed.

Lemma set_bitmap n fuel size nSet l :
  bv_inv n (BV size nSet 0 (aBitmap l)) → (0 < fuel)%nat →
  set_ok n (set_loop fuel) (BV size nSet 0 (aBitmap l)).
Proof.
  intros Hinv Hf mem i Hi. cbn [iSize] in Hi. destruct fuel as [|fuel]; [lia|].
  pose proof Hinv as (_ & Hs & _ & Hl & Hfa)%inv_bitmap.
  destruct (bitmap_bounds l i Hl Hfa) as (b & Hb & Hbu); [lia|].
  cbn [set_loop as_bitmap]. rewrite (proj2 (Z.ltb_ge _ _) Hs), (proj2 (Z.leb_le _ _) Hs). cbn [andb].
  unfold bitmap_set. change (i / BITVEC_SZELEM) with (i / 8). rewrite Hb, low3. cbn [mbind option_bind].
  assert (0 ≤ i mod 8 < 8) by (apply Z.mod_pos_bound; lia). rewrite Z.shiftl_1_l.
  eexists. split; [done|].
  destruct (bitmap_change n size nSet l i b (λ _, true) (b .| 2 ^ (i mod 8))) as [H1 H2]; [done..| |].
  - intros k Hk. rewrite Z.lor_spec, Z.pow2_bits_eqb by lia.
    rewrite (Z.eqb_sym k). destruct (_ =? _); [apply orb_true_r|apply orb_false_r].
  - apply set_post_exact; [done..|]. intros j Hj. rewrite H2 by done. by destruct (j =? i).
Qed.

(** The sub-bitvec the loop goes on with, existing or new, has the bits that
    the bit vector has in its range. *)
Lemma next_sub n size nSet l mem i o :
  bv_inv (S n) (BV size nSet (divisor size) (apSub l)) → 0 ≤ i < size →
  zlookup l (i / divisor size) = Some o →
  (∃ m, take_mem mem = (false, m) ∧ o = None) ∨
  ∃ q m, match o with Some q => (Some q, mem) | None => sqlite3BitvecCreate mem (divisor size) end = (Some q, m) ∧
    bv_inv n q ∧ iSize q = divisor size ∧ (mem = [] → m = []) ∧
    ∀ j, 0 ≤ j < size → j / divisor size = i / divisor size →
      bit n q (j mod divisor size) = bit (S n) (BV size nSet (divisor size) (apSub l)) j.
Proof.
  intros (Hsz & Hs & _ & Hl & Hq) Hi Ho. destruct (divisor_bounds size n) as [Hdv _]; [lia|].
  destruct o as [q|].
  - right. destruct (Hq q) as [Hq1 Hq2]; [apply elem_zlookup; eauto|].
    exists q, mem. split_and!; [done..|]. intros j Hj E. rewrite bit_sub, E, Ho by lia. done.
  - destruct (take_mem_eq mem) as [[] Em]; [right|left; eauto]. unfold sqlite3BitvecCreate. rewrite Em.
    destruct (zeroed_inv n (divisor size)) as (Hz1 & Hz2 & Hz3); [lia|].
    eexists _, _. split; [done|]. split; [done|]. split; [done|]. split; [by intros ->|].
    intros j Hj E. destruct (sub_position size n j) as (_ & Hjm & _); [lia|done|].
    rewrite Hz3, bit_sub, E, Ho by lia. done.
Qed.

Lemma set_sub n fuel size nSet l :
  (∀ q, bv_inv n q → set_ok n (set_loop fuel) q) →
  bv_inv (S n) (BV size nSet (divisor size) (apSub l)) →
  ∀ mem i, 0 ≤ i < size →
  ∃ rc l' mem',
    set_loop (S fuel) mem (BV size nSet (divisor size) (apSub l)) i =
      Some (rc, BV size nSet (divisor size) (apSub l'), mem') ∧
    set_post (S n) mem (BV size nSet (divisor size) (apSub l)) i
      (rc, BV size nSet (divisor size) (apSub l'), mem').
Proof.
  intros IH Hinv mem i Hi. pose proof Hinv as (Hsz & Hs & _ & Hl & Hq).
  destruct (sub_position size n i) as (Hb & Hm & Hd); [lia|done|].
  destruct (divisor_bounds size n) as [Hdv _]; [lia|].
  cbn [set_loop as_sub]. rewrite (proj2 (Z.ltb_lt _ _) Hs), Hd. cbn [andb].
  destruct (zlookup_is_Some l (i / divisor size)) as [o Ho]; [rewrite Hl; consts; lia|].
  rewrite Ho. cbn [mbind option_bind]. pose proof (zlookup_Some _ _ _ Ho) as Hr.
  destruct (next_sub n size nSet l mem i o Hinv Hi Ho) as [(m & Em & ->)|(q & m & -> & Hq1 & Hq2 & Hmm & Hqb)].
  { unfold sqlite3BitvecCreate. rewrite Em. eexists _, l, _. split; [done|].
    destruct (take_mem_eq mem) as [b Eb]. assert (m = tail mem) as -> by congruence.
    by apply set_post_nomem. }
  destruct (IH q Hq1 m (i mod divisor size)) as ([[rc q'] m'] & E & Hp1 & Hp2 & Hp3 & Hp4 & Hp5 & Hp6); [lia|].
  rewrite E. cbn [mbind option_bind]. eexists _, _, _. split; [done|].
  split; [apply sub_insert_inv; [done|lia|done|congruence]|]. split; [done|]. split; [done|].
  assert (∀ j, 0 ≤ j < size → 0 ≤ j mod divisor size < iSize q) as Hjm.
  { intros j Hj. rewrite Hq2. apply Z.mod_pos_bound. lia. }
  cbn [iSize]. split_and!.
  - intros j Hj. rewrite bit_sub_insert by lia. case_decide as Ej; [|tauto].
    intros [Hx|Hx]%Hp4; [| |by apply Hjm].
    + left. apply Z.eqb_eq. rewrite <- (same_position i j (divisor size)) by (lia || done). by apply Z.eqb_eq.
    + right. by rewrite <- Hqb.
  - intros Hrc j Hj. rewrite bit_sub_insert by lia. case_decide as Ej.
    + rewrite Hp5, same_position, Hqb by (done || lia || by apply Hjm). done.
    + destruct (Z.eqb_spec j i); [by subst|done].
  - intros Hmem. destruct (Hp6 (Hmm Hmem)) as [? ?]. done.
Qed.

Lemma lor_rc a b :
  (a = SQLITE_OK ∨ a = SQLITE_NOMEM) → (b = SQLITE_OK ∨ b = SQLITE_NOMEM) →
  (a .| b = SQLITE_OK ∨ a .| b = SQLITE_NOMEM) ∧ (a .| b = SQLITE_OK → a = SQLITE_OK ∧ b = SQLITE_OK).
Proof. intros [-> | ->] [-> | ->]; split; (by left) || (by right) || done. Qed.

(** Re-inserting values into sub-bitvecs: a relation between the bits before
    and after, as in [set_post] with a set of values. *)
Lemma reinsert_spec n fuel size nSet vs : ∀ rc mem l,
  (∀ q, bv_inv n q → set_ok n (set_loop fuel) q) →
  bv_inv (S n) (BV size nSet (divisor size) (apSub l)) → (∀ v, v ∈ vs → 0 ≤ v ≤ size) →
  (rc = SQLITE_OK ∨ rc = SQLITE_NOMEM) →
  ∃ rc' l' mem',
    reinsert (set_loop (S fuel)) vs rc mem (BV size nSet (divisor size) (apSub l)) =
      Some (rc', BV size nSet (divisor size) (apSub l'), mem') ∧
    bv_inv (S n) (BV size nSet (divisor size) (apSub l')) ∧
    (rc' = SQLITE_OK ∨ rc' = SQLITE_NOMEM) ∧
    (∀ j, 0 ≤ j < size → bit (S n) (BV size nSet (divisor size) (apSub l')) j = true →
       bit (S n) (BV size nSet (divisor size) (apSub l)) j = true ∨ j + 1 ∈ vs) ∧
    (rc' = SQLITE_OK → rc = SQLITE_OK ∧ ∀ j, 0 ≤ j < size →
       (bit (S n) (BV size nSet (divisor size) (apSub l)) j = true ∨ j + 1 ∈ vs) →
       bit (S n) (BV size nSet (divisor size) (apSub l')) j = true) ∧
    (mem = [] → rc = SQLITE_OK → rc' = SQLITE_OK ∧ mem' = []).
Proof.
  induction vs as [|v vs IH]; intros rc mem l Hset Hinv Hvs Hrc; cbn [reinsert].
  { exists rc, l, mem. split_and!; try done; [tauto|]. intros ?. split; [done|]. intros j Hj.
    rewrite list.elem_of_nil. tauto. }
  assert (∀ w, w ∈ vs → 0 ≤ w ≤ size) as Hvs' by (intros w Hw; apply Hvs, list.elem_of_cons; by right).
  destruct (Z.eqb_spec v 0) as [->|Hv].
  { destruct (IH rc mem l Hset Hinv Hvs' Hrc) as (rc' & l' & mem' & E & H1 & H2 & H3 & H4 & H5).
    exists rc', l', mem'. split_and!; try done.
    - intros j Hj Hb. rewrite list.elem_of_cons. apply H3 in Hb; [tauto|done].
    - intros Hr. destruct (H4 Hr) as [? H6]. split; [done|]. intros j Hj. rewrite list.elem_of_cons.
      intros [?|[?|?]]; [by apply H6; [|left]|lia|by apply H6; [|right]]. }
  assert (0 ≤ v ≤ size) by (apply Hvs, list.elem_of_cons; by left). unfold set_call. cbn [iSize].
  rewrite (proj2 (Z.ltb_lt 0 v)), (proj2 (Z.leb_le v size)) by lia. cbn [andb].
  destruct (set_sub n fuel size nSet l Hset Hinv mem (v - 1)) as
    (r1 & l1 & m1 & E1 & Hi1 & _ & Hr1 & Hb1 & Hx1 & Hm1); [lia|].
  rewrite E1. cbn [mbind option_bind]. destruct (lor_rc rc r1 Hrc Hr1) as [Hor Hor0].
  destruct (IH (rc .| r1) m1 l1 Hset Hi1 Hvs' Hor) as (rc' & l' & mem' & E & H1 & H2 & H3 & H4 & H5).
  exists rc', l', mem'. cbn [iSize] in *. split_and!; try done.
  - intros j Hj Hb. rewrite list.elem_of_cons. apply H3 in Hb as [Hb|Hb]; [|tauto|done].
    apply Hb1 in Hb as [Hb|Hb]; [right; left; lia|tauto|done].
  - intros Hr. destruct (H4 Hr) as [H6 H7]. apply Hor0 in H6 as [H6 H8]. split; [done|].
    intros j Hj. rewrite list.elem_of_cons. specialize (Hx1 H8 j Hj).
    intros [Hb|[Hb|Hb]]; (apply H7; [done|]); [| |by right]; left; rewrite Hx1.
    + rewrite Hb. apply orb_true_r.
    + assert (j = v - 1) as -> by lia. by rewrite Z.eqb_refl.
  - intros Hm Hr. destruct (Hm1 Hm) as [H6 H7]. apply H5; [done|]. by rewrite Hr, H6.
Qed.

Lemma empty_sub_inv n size nSet :
  BITVEC_NBIT < size → size_ok (S n) size →
  bv_inv (S n) (BV size nSet (divisor size) (apSub (replicate (Z.to_nat BITVEC_NPTR) None))) ∧
  ∀ j, bit (S n) (BV size nSet (divisor size) (apSub (replicate (Z.to_nat BITVEC_NPTR) None))) j = false.
Proof.
  intros Hs Hsz. unfold size_ok in Hsz. destruct (divisor_bounds size n) as [Hd _]; [lia|]. split.
  - split; [done|]. split; [done|]. split; [done|]. split; [apply length_replicate|].
    intros q Hq. by apply elem_of_replicate in Hq as [? _].
  - intros j. rewrite bit_sub by lia. destruct (zlookup _ _) as [o|] eqn:E; [|done].
    assert (o ∈ replicate (Z.to_nat BITVEC_NPTR) (@None Bitvec)) as Ho by (apply elem_zlookup; eauto).
    by apply elem_of_replicate in Ho as [-> _].
Qed.

Lemma rehash_spec n fuel size nSet l mem i :
  (∀ q, bv_inv n q → set_ok n (set_loop fuel) q) →
  bv_inv (S n) (BV size nSet 0 (aHash l)) → 0 ≤ i < size →
  ∃ r, rehash (set_loop (S fuel)) mem size nSet l (i + 1) = Some r ∧
       set_post (S n) mem (BV size nSet 0 (aHash l)) i r.
Proof.
  intros Hset Hinv Hi. pose proof Hinv as (Hsz & Hs & _ & Hok)%inv_hash. unfold rehash.
  destruct (take_mem_eq mem) as [b Em]. rewrite Em. destruct b; cbn [negb].
  2: { eexists. split; [done|]. by apply set_post_nomem. }
  destruct (empty_sub_inv n size nSet Hs Hsz) as [He1 He2]. fold (divisor size).
  set (l0 := replicate (Z.to_nat BITVEC_NPTR) None) in *. unfold set_call. cbn [iSize].
  rewrite (proj2 (Z.ltb_lt 0 (i + 1))), (proj2 (Z.leb_le (i + 1) size)) by lia. cbn [andb].
  replace (i + 1 - 1) with i by lia.
  destruct (set_sub n fuel size nSet l0 Hset He1 (tail mem) i Hi) as
    (r1 & l1 & m1 & E1 & Hi1 & _ & Hr1 & Hb1 & Hx1 & Hm1).
  rewrite E1. cbn [mbind option_bind].
  destruct (reinsert_spec n fuel size nSet l r1 m1 l1 Hset Hi1 (ho_vals _ _ _ Hok) Hr1)
    as (rc' & l' & mem' & E & H1 & H2 & H3 & H4 & H5).
  rewrite E. eexists. split; [done|]. split; [done|]. split; [done|]. split; [done|].
  assert (∀ j, 0 ≤ j < size → bit (S n) (BV size nSet 0 (aHash l)) j = true ↔ j + 1 ∈ l) as Hold.
  { intros j Hj. unfold bit. rewrite bit_hash by (done || lia). apply bool_decide_eq_true. }
  cbn [iSize] in *. split_and!.
  - intros j Hj Hb. rewrite Hold by done. apply H3 in Hb as [Hb|Hb]; [|by right|done].
    apply Hb1 in Hb as [Hb|Hb]; [by left| |done]. by rewrite He2 in Hb.
  - intros Hr j Hj. destruct (H4 Hr) as [Hr1' H6]. specialize (Hx1 Hr1' j Hj). rewrite He2, orb_false_r in Hx1.
    apply eq_true_iff_eq. rewrite orb_true_iff, Hold by done. split.
    + intros Hb. apply H3 in Hb as [Hb|Hb]; [|by right|done]. left. congruence.
    + intros [Hb|Hb]; apply H6; [done|left; congruence|done|by right].
  - intros ->. destruct (Hm1 eq_refl) as [H6 ->]. by apply H5.
Qed.

Lemma set_end_spec n size nSet l mem i d :
  bv_inv n (BV size nSet 0 (aHash l)) → nSet < 123 → 0 ≤ i < size → 0 ≤ d →
  zlookup l (probe (i + 1) d) = Some 0 → taken l (i + 1) d →
  ∃ r, set_end mem size nSet l (probe (i + 1) d) (i + 1) = Some r ∧
       set_post n mem (BV size nSet 0 (aHash l)) i r.
Proof.
  intros (Hsz & Hs & _ & Hok)%inv_hash Hn Hi Hd Hz Ht. eexists. split; [done|].
  assert (hash_ok size (nSet + 1) (zinsert l (probe (i + 1) d) (i + 1))) as Hok'
    by (apply hash_insert_ok; lia || done).
  apply set_post_exact; [by apply inv_hash|done|]. intros j Hj. cbn [iSize] in Hj. unfold bit.
  rewrite !bit_hash by (done || lia). cbn [from_option id]. apply eq_true_iff_eq.
  rewrite orb_true_iff, !bool_decide_eq_true, zinsert_elem, Z.eqb_eq by (done || lia).
  assert (j + 1 = i + 1 ↔ j = i) by lia. tauto.
Qed.

Lemma set_hash n fuel size nSet l :
  (∀ q, bv_inv n q → set_ok n (set_loop fuel) q) →
  bv_inv (S n) (BV size nSet 0 (aHash l)) →
  set_ok (S n) (set_loop (S (S fuel))) (BV size nSet 0 (aHash l)).
Proof.
  intros Hset Hinv mem i Hi. cbn [iSize] in Hi. pose proof Hinv as (Hsz & Hs & _ & Hok)%inv_hash.
  remember (S fuel) as fuel1 eqn:Ef. cbn [set_loop as_hash]. subst fuel1.
  rewrite (proj2 (Z.ltb_lt _ _) Hs), (proj2 (Z.leb_gt _ _) Hs). cbn [andb negb Z.eqb].
  assert (BITVEC_HASH i = probe (i + 1) 0) as Eh.
  { unfold probe, BITVEC_HASH. consts. replace (i + 1 - 1) with i by lia. by rewrite Z.add_0_r, Zmod_mod. }
  pose proof (ho_room _ _ _ Hok) as Hroom.
  destruct (zlookup_is_Some l (BITVEC_HASH i)) as [v Hv].
  { rewrite Eh, (ho_len _ _ _ Hok). apply slot_range. }
  rewrite Hv. cbn [mbind option_bind]. pose proof (rehash_spec n fuel size nSet l mem i Hset Hinv Hi) as Hre.
  destruct (Z.eqb_spec v 0) as [->|Hv0].
  - destruct (Z.ltb_spec nSet (BITVEC_NINT - 1)) as [Hn|Hn].
    + rewrite Eh in *. apply set_end_spec; try done. intros d' w Hd'. lia.
    + destruct (Z.leb_spec BITVEC_MXHASH nSet); [done|]. consts. lia.
  - destruct (hash_scan_member next_wrap size nSet l (i + 1) next_wrap_slot Hok) as (b & d & E & Hd & Hb & Hf); [lia|].
    replace (i + 1 - 1) with i in E by lia. rewrite E. cbn [mbind option_bind]. destruct b.
    + eexists. split; [done|]. apply set_post_exact; [done..|]. intros j Hj. cbn [iSize] in Hj.
      destruct (Z.eqb_spec j i) as [->|]; [|done]. unfold bit. rewrite bit_hash by (done || lia). done.
    + destruct (Hf eq_refl) as [Hz Ht]. destruct (Z.leb_spec BITVEC_MXHASH nSet); [done|].
      apply set_end_spec; try done. consts. lia.
Qed.

Lemma set_loop_spec n : ∀ fuel p, (2 * n < fuel)%nat → bv_inv n p → set_ok n (set_loop fuel) p.
Proof.
  induction n as [|n IH]; intros fuel [size nSet dv [l|l|l]] Hf Hinv.
  1, 4: by pose proof Hinv as (_ & _ & -> & _)%inv_bitmap; apply set_bitmap; [|lia].
  - pose proof Hinv as ([_ Hsz] & Hs & _)%inv_hash. rewrite Z.pow_0_r in Hsz. lia.
  - by destruct Hinv as (_ & _ & _ & _ & []).
  - pose proof Hinv as (_ & _ & -> & _)%inv_hash. destruct fuel as [|[|fuel]]; [lia..|].
    apply set_hash; [|done]. intros q Hq. apply IH; [lia|done].
  - destruct fuel as [|fuel]; [lia|]. pose proof Hinv as (_ & _ & -> & _). intros mem i Hi.
    destruct (set_sub n fuel size nSet l) with (mem := mem) (i := i) as (rc & l' & mem' & E & Hp);
      [intros q Hq; apply IH; [lia|done]|done|done|]. eauto.
Qed.

(** ** The bit vector as a set *)

(** A bit vector of at most [2 ^ 32] bits that the operations have made. *)
Definition bitvec_ok (p : Bitvec) : Prop := bv_inv MAX_DEPTH p.

Lemma sqlite3BitvecTest_bit p i :
  bitvec_ok p → 0 < i ≤ iSize p → sqlite3BitvecTest (Some p) i = Some (bit MAX_DEPTH p (i - 1)).
Proof.
  intros Hp Hi. unfold sqlite3BitvecTest. destruct (Z.ltb_spec (iSize p) i); [lia|].
  destruct (Z.eqb_spec i 0); [lia|]. cbn [orb]. apply test_total; [done|lia].
Qed.

Lemma sqlite3BitvecTest_out p i : ¬ 0 < i ≤ iSize p → 0 ≤ i → sqlite3BitvecTest (Some p) i = Some false.
Proof.
  intros Hi H0. unfold sqlite3BitvecTest. destruct (Z.ltb_spec (iSize p) i); [done|].
  destruct (Z.eqb_spec i 0); [done|lia].
Qed.

(** [sqlite3BitvecSet] on a well-formed bit vector. *)
Lemma bitvec_set_spec mem p i :
  bitvec_ok p → 0 < i ≤ iSize p →
  ∃ rc p' mem', sqlite3BitvecSet mem (Some p) i = Some (rc, Some p', mem') ∧
    bitvec_ok p' ∧ iSize p' = iSize p ∧ (rc = SQLITE_OK ∨ rc = SQLITE_NOMEM) ∧
    (mem = [] → rc = SQLITE_OK) ∧
    ∀ j, 0 ≤ j → ∃ b b', sqlite3BitvecTest (Some p) j = Some b ∧ sqlite3BitvecTest (Some p') j = Some b' ∧
      (b' = true → j = i ∨ b = true) ∧ (rc = SQLITE_OK → b' = (j =? i) || b).
Proof.
  intros Hp Hi. unfold sqlite3BitvecSet, set_call.
  rewrite (proj2 (Z.ltb_lt 0 i)), (proj2 (Z.leb_le i _)) by lia. cbn [andb].
  destruct (set_loop_spec MAX_DEPTH SET_FUEL p) with (mem := mem) (i := i - 1)
    as ([[rc p'] mem'] & E & H1 & H2 & H3 & H4 & H5 & H6); [unfold SET_FUEL; lia|done|lia|].
  rewrite E. cbn [mbind option_bind]. exists rc, p', mem'. split_and!; try done; [intros; by apply H6|].
  intros j Hj. destruct (decide (0 < j ≤ iSize p)) as [Hr|Hr].
  - eexists _, _. rewrite !sqlite3BitvecTest_bit by (done || congruence). split; [done|]. split; [done|]. split.
    + intros Hb. apply H4 in Hb as [Hb|Hb]; [left; lia|by right|lia].
    + intros Hrc. rewrite H5 by (done || lia). f_equal. destruct (Z.eqb_spec (j - 1) (i - 1)), (Z.eqb_spec j i); lia || done.
  - exists false, false. rewrite !sqlite3BitvecTest_out by (done || congruence). split_and!; try done.
    intros _. destruct (Z.eqb_spec j i); [lia|done].
Qed.

(** C31: [sqlite3BitvecSet] inserts into a set, whatever the representation:
    with enough memory it returns SQLITE_OK, and afterwards a test succeeds
    for the new value and for exactly the values it succeeded for before; a
    hash table that fills up is turned into sub-bitvecs without losing a
    value.  When an allocation fails the answer is SQLITE_NOMEM, values may
    be lost, but none is added.  All loops end. *)
Theorem sqlite3BitvecSet_insert mem p i :
  bitvec_ok p → 0 < i ≤ iSize p →
  ∃ rc p' mem', sqlite3BitvecSet mem (Some p) i = Some (rc, Some p', mem') ∧
    bitvec_ok p' ∧ iSize p' = iSize p ∧ (rc = SQLITE_OK ∨ rc = SQLITE_NOMEM) ∧
    (mem = [] → rc = SQLITE_OK) ∧
    ∀ j, 0 ≤ j → ∃ b b', sqlite3BitvecTest (Some p) j = Some b ∧ sqlite3BitvecTest (Some p') j = Some b' ∧
      (b' = true → j = i ∨ b = true) ∧ (rc = SQLITE_OK → b' = (j =? i) || b).
Proof. apply bitvec_set_spec. Qed.

Lemma zeroed_ok size : 0 ≤ size ≤ 2 ^ 32 → bitvec_ok (zeroed size).
Proof.
  intros Hs. apply (zeroed_inv MAX_DEPTH size).
  assert (BITVEC_NBIT * BITVEC_NPTR ^ Z.of_nat MAX_DEPTH = 58632501248) as -> by reflexivity. lia.
Qed.

Lemma sqlite3BitvecSet_insert_witness :
  ∃ rc p' mem', sqlite3BitvecSet [] (Some (zeroed 1000000)) 4242 = Some (rc, Some p', mem') ∧ rc = SQLITE_OK.
Proof.
  destruct (sqlite3BitvecSet_insert [] (zeroed 1000000) 4242) as (rc & p' & mem' & E & _ & _ & _ & H & _).
  - apply zeroed_ok. lia.
  - simpl. lia.
  - exists rc, p', mem'. split; [done|]. by apply H.
Defined.

(** [sqlite3BitvecClear] removes a value: afterwards a test fails for it
    and answers as before for all others; the hash table is rebuilt without
    breaking a probe sequence. *)
Theorem sqlite3BitvecClear_delete p i :
  bitvec_ok p → 0 < i ≤ iSize p →
  ∃ p', sqlite3BitvecClear (Some p) i = Some (Some p') ∧ bitvec_ok p' ∧ iSize p' = iSize p ∧
    ∀ j, 0 ≤ j → ∃ b, sqlite3BitvecTest (Some p) j = Some b ∧
      sqlite3BitvecTest (Some p') j = Some (negb (j =? i) && b).
Proof.
  intros Hp Hi. unfold sqlite3BitvecClear. rewrite (proj2 (Z.ltb_lt 0 i)) by lia.
  destruct (bitvec_clear_spec MAX_DEPTH p (i - 1)) as (p' & E & H1 & H2 & H3); [done|lia|].
  rewrite E. exists p'. split_and!; try done. intros j Hj. destruct (decide (0 < j ≤ iSize p)) as [Hr|Hr].
  - eexists. rewrite !sqlite3BitvecTest_bit by (done || congruence). split; [done|]. rewrite H3 by lia.
    do 3 f_equal. destruct (Z.eqb_spec (j - 1) (i - 1)), (Z.eqb_spec j i); lia || done.
  - exists false. rewrite !sqlite3BitvecTest_out by (done || congruence). by rewrite andb_false_r.
Qed.

Lemma sqlite3BitvecClear_delete_witness :
  ∃ p', sqlite3BitvecClear (Some (zeroed 5000)) 77 = Some (Some p') ∧ iSize p' = 5000.
Proof.
  destruct (sqlite3BitvecClear_delete (zeroed 5000) 77) as (p' & E & _ & H & _).
  - apply zeroed_ok. lia.
  - simpl. lia.
  - exists p'. done.
Defined.
