(* ===== verification/Serial.v ===== *)
(** * Serial types

    Models the storage format of values in src/vdbeaux.c: the serial type of a
    value ([sqlite3VdbeSerialType], [sqlite3VdbeSerialTypeLen]), writing and
    reading its content ([sqlite3VdbeSerialPut], [sqlite3VdbeSerialGet]), the
    comparison of values ([sqlite3MemCompare], [vdbeCompareMemString]), with
    [sqlite3VdbeMemExpandBlob] of src/vdbemem.c and [sqlite3IsNaN] of
    src/util.c.  A double is its 64 bits. *)

From S2P Require Import Prelude Bits Numbers Utf Varint.
#[local] Open Scope Z_scope.
#[local] Open Scope c_scope.
#[local] Open Scope list_scope.

(** ** Memory cells *)

Definition MEM_Null : Z := 0x0001.
Definition MEM_Str : Z := 0x0002.
Definition MEM_Int : Z := 0x0004.
Definition MEM_Real : Z := 0x0008.
Definition MEM_Blob : Z := 0x0010.
Definition MEM_Term : Z := 0x0200.
Definition MEM_Ephem : Z := 0x1000.
Definition MEM_Zero : Z := 0x4000.

(** The fields of [Mem] that hold a value: [u_i] is the union of [u.i] and
    [u.nZero], [z] the memory from the pointer [z] to the end of its object. *)
Record Mem := MkMem { mflags : Z; u_i : Z; mr : Z; mz : list Z; mn : Z }.

Definition has (m : Mem) (f : Z) : bool := negb (mflags m .& f =? 0).

Definition set_flags (f : Z) (m : Mem) : Mem := MkMem f (u_i m) (mr m) (mz m) (mn m).
Definition set_int (i : Z) (m : Mem) : Mem := MkMem MEM_Int i (mr m) (mz m) (mn m).

(** Reading [n] bytes at a pointer. *)
Definition read_bytes (p : list Z) (n : Z) : outcome (list Z) :=
  if (0 <=? n) && (n <=? Z.of_nat (length p)) then Ret (take (Z.to_nat n) p) else Undef OutOfBounds.

(** An [int] expression. *)
Definition chk32 (x : Z) : outcome Z :=
  if bool_decide (in_sw 32 x) then Ret x else Undef SignedOverflow.

(** [sqlite3VdbeMemExpandBlob], when memory can be allocated. *)
Definition sqlite3VdbeMemExpandBlob (m : Mem) : outcome Mem :=
  if has m MEM_Zero then
    _ ← c_assert (has m MEM_Blob);
    nByte ← chk32 (mn m + u_i m);
    b ← read_bytes (mz m) (mn m);
    Ret (MkMem (mflags m .& Z.lnot (MEM_Zero .| MEM_Term)) (u_i m) (mr m)
           (b ++ replicate (Z.to_nat (u_i m)) 0) nByte)
  else Ret m.

(** ** Doubles *)

(** The exponent is all ones and the fraction is not zero. *)
Definition sqlite3IsNaN (x : Z) : bool := 0x7ff0000000000000 <? x mod 2 ^ 63.

(** The magnitude with its sign orders the numbers; zero has two codes. *)
Definition double_key (x : Z) : Z := if x <? 2 ^ 63 then x else - (x - 2 ^ 63).
Definition double_lt (x y : Z) : bool :=
  negb (sqlite3IsNaN x) && negb (sqlite3IsNaN y) && (double_key x <? double_key y).

(** The conversion of an [i64] to a double, to the nearest, ties to even. *)
Definition int_to_double (i : Z) : Z :=
  let m := Z.abs i in
  if m =? 0 then 0 else
  let e := Z.log2 m in
  let mant :=
    if e <=? 52 then m .<< (52 - e)
    else
      let q := m .>> (e - 52) in
      let rest := m - (q .<< (e - 52)) in
      let half := 2 ^ (e - 53) in
      if (half <? rest) || ((rest =? half) && Z.odd q) then q + 1 else q in
  (if i <? 0 then 2 ^ 63 else 0) + ((e + 1023) .<< 52) + (mant - 2 ^ 52).

(** ** Serial types *)

Definition MAX_6BYTE : Z := (0x00008000 .<< 32) - 1.

(** The branch of [MEM_Int]. *)
Definition int_serial_type (i file_format : Z) : Z :=
  if (i <? 0) && (i <? - MAX_6BYTE) then 6 else
  let u := if i <? 0 then u64 (- i) else u64 i in
  if u <=? 127 then
    (if (i .& 1 =? i) && (4 <=? file_format) then 8 + u32 u else 1)
  else if u <=? 32767 then 2
  else if u <=? 8388607 then 3
  else if u <=? 2147483647 then 4
  else if u <=? MAX_6BYTE then 5
  else 6.

Definition sqlite3VdbeSerialType (m : Mem) (file_format : Z) : outcome Z :=
  if has m MEM_Null then Ret 0
  else if has m MEM_Int then Ret (int_serial_type (u_i m) file_format)
  else if has m MEM_Real then Ret 7
  else
    _ ← c_assert (has m (MEM_Str .| MEM_Blob));
    n ← (if has m MEM_Zero then chk32 (mn m + u_i m) else Ret (mn m));
    _ ← c_assert (0 <=? n);
    n2 ← chk32 (n * 2);
    n3 ← chk32 (n2 + 12);
    n4 ← chk32 (n3 + (if has m MEM_Str then 1 else 0));
    Ret (u32 n4).

Definition aSize : list Z := [0; 1; 2; 3; 4; 6; 8; 8; 0; 0; 0; 0].

Definition sqlite3VdbeSerialTypeLen (serial_type : Z) : Z :=
  if 12 <=? serial_type then (serial_type - 12) / 2 else nth (Z.to_nat serial_type) aSize 0.

(** [while( i-- ){ buf[i] = (u8)(v&0xFF); v >>= 8; }] *)
Fixpoint be_bytes (len : nat) (v : Z) : list Z :=
  match len with
  | O => []
  | S len' => be_bytes len' (v .>> 8) ++ [v .& 0xFF]
  end.

(** [sqlite3VdbeSerialPut]: the bytes written to [buf], whose number is
    returned. *)
Definition sqlite3VdbeSerialPut (m : Mem) (serial_type : Z) : outcome (list Z) :=
  if (serial_type <=? 7) && (0 <? serial_type) then
    let v := if serial_type =? 7 then mr m else u64 (u_i m) in
    Ret (be_bytes (Z.to_nat (sqlite3VdbeSerialTypeLen serial_type)) v)
  else if 12 <=? serial_type then
    _ ← c_assert (mn m + (if has m MEM_Zero then u_i m else 0) =? sqlite3VdbeSerialTypeLen serial_type);
    read_bytes (mz m) (mn m)
  else Ret [].

Definition ONE_BYTE_INT (x : list Z) : outcome Z := x0 ← byte_at x 0; Ret (sw 8 x0).
Definition TWO_BYTE_INT (x : list Z) : outcome Z :=
  x0 ← byte_at x 0; x1 ← byte_at x 1; Ret ((256 * sw 8 x0) .| x1).
Definition THREE_BYTE_INT (x : list Z) : outcome Z :=
  x0 ← byte_at x 0; x1 ← byte_at x 1; x2 ← byte_at x 2; Ret ((65536 * sw 8 x0) .| (x1 .<< 8) .| x2).
Definition FOUR_BYTE_UINT (x : list Z) : outcome Z :=
  x0 ← byte_at x 0; x1 ← byte_at x 1; x2 ← byte_at x 2; x3 ← byte_at x 3;
  Ret (u32 (x0 .<< 24) .| (x1 .<< 16) .| (x2 .<< 8) .| x3).

(** [(int)y], six and eight bytes. *)
Definition four_byte_int (x : list Z) : outcome Z := y ← FOUR_BYTE_UINT x; Ret (sw 32 y).
Definition six_byte_int (x : list Z) : outcome Z :=
  lo ← FOUR_BYTE_UINT (drop 2 x); hi ← TWO_BYTE_INT x; Ret (lo + (1 .<< 32) * hi).
Definition eight_bytes (x : list Z) : outcome Z :=
  x1 ← FOUR_BYTE_UINT x; y ← FOUR_BYTE_UINT (drop 4 x); Ret (u64 (x1 .<< 32) .| y).

(** [sqlite3VdbeSerialGet]: the cell filled and the number of bytes read. *)
Definition sqlite3VdbeSerialGet (buf : list Z) (serial_type : Z) (m : Mem) : outcome (Mem * Z) :=
  if (serial_type =? 10) || (serial_type =? 11) || (serial_type =? 0) then Ret (set_flags MEM_Null m, 0)
  else if serial_type =? 1 then i ← ONE_BYTE_INT buf; Ret (set_int i m, 1)
  else if serial_type =? 2 then i ← TWO_BYTE_INT buf; Ret (set_int i m, 2)
  else if serial_type =? 3 then i ← THREE_BYTE_INT buf; Ret (set_int i m, 3)
  else if serial_type =? 4 then i ← four_byte_int buf; Ret (set_int i m, 4)
  else if serial_type =? 5 then i ← six_byte_int buf; Ret (set_int i m, 6)
  else if (serial_type =? 6) || (serial_type =? 7) then
    x ← eight_bytes buf;
    if serial_type =? 6 then Ret (set_int (sw 64 x) m, 8)
    else Ret (MkMem (if sqlite3IsNaN x then MEM_Null else MEM_Real) (u_i m) x (mz m) (mn m), 8)
  else if (serial_type =? 8) || (serial_type =? 9) then Ret (set_int (serial_type - 8) m, 0)
  else
    let len := (serial_type - 12) / 2 in
    let f := if serial_type .& 1 =? 0 then MEM_Blob .| MEM_Ephem else MEM_Str .| MEM_Ephem in
    Ret (MkMem f (u_i m) (mr m) buf (i32 len), len).

(** ** Comparing values *)

(** [memcmp]: only the sign of its result is defined. *)
Fixpoint compare_bytes (p q : list Z) : Z :=
  match p, q with
  | a :: p', b :: q' => if a =? b then compare_bytes p' q' else if a <? b then -1 else 1
  | _, _ => 0
  end.
Definition memcmp (p q : list Z) (n : Z) : outcome Z :=
  p ← read_bytes p n; q ← read_bytes q n; Ret (compare_bytes p q).

Record CollSeq := MkColl { coll_enc : Z; xCmp : list Z → list Z → Z }.

(** [sqlite3ValueText] of a copy of the cell. *)
Definition value_text (enc desiredEnc : Z) (b : list Z) : outcome (list Z) :=
  match sqlite3VdbeMemTranslate enc desiredEnc b with Some t => Ret t | None => Undef AssertFail end.

(** [enc] is the encoding of both cells. *)
Definition vdbeCompareMemString (enc : Z) (m1 m2 : Mem) (pColl : CollSeq) : outcome Z :=
  b1 ← read_bytes (mz m1) (mn m1);
  b2 ← read_bytes (mz m2) (mn m2);
  if enc =? coll_enc pColl then Ret (xCmp pColl b1 b2)
  else
    v1 ← value_text enc (coll_enc pColl) b1;
    v2 ← value_text enc (coll_enc pColl) b2;
    Ret (xCmp pColl v1 v2).

(** The number a cell holds as a double. *)
Definition mem_double (m : Mem) : option Z :=
  if has m MEM_Real then Some (mr m) else if has m MEM_Int then Some (int_to_double (u_i m)) else None.

Definition compare_doubles (r1 r2 : Z) : Z :=
  if double_lt r1 r2 then -1 else if double_lt r2 r1 then 1 else 0.

Definition compare_ints (i1 i2 : Z) : Z := if i1 <? i2 then -1 else if i2 <? i1 then 1 else 0.

(** The bytes of both cells, then their lengths. *)
Definition compare_blobs (m1 m2 : Mem) : outcome Z :=
  rc ← memcmp (mz m1) (mz m2) (if mn m2 <? mn m1 then mn m2 else mn m1);
  if rc =? 0 then chk32 (mn m1 - mn m2) else Ret rc.

Definition sqlite3MemCompare (enc : Z) (m1 m2 : Mem) (pColl : option CollSeq) : outcome Z :=
  if has m1 MEM_Null || has m2 MEM_Null then
    Ret ((mflags m2 .& MEM_Null) - (mflags m1 .& MEM_Null))
  else if has m1 (MEM_Int .| MEM_Real) || has m2 (MEM_Int .| MEM_Real) then
    if has m1 MEM_Int && has m2 MEM_Int then Ret (compare_ints (u_i m1) (u_i m2))
    else
      match mem_double m1, mem_double m2 with
      | None, _ => Ret 1
      | Some _, None => Ret (-1)
      | Some r1, Some r2 => Ret (compare_doubles r1 r2)
      end
  else if has m1 MEM_Str || has m2 MEM_Str then
    if negb (has m1 MEM_Str) then Ret 1
    else if negb (has m2 MEM_Str) then Ret (-1)
    else match pColl with Some c => vdbeCompareMemString enc m1 m2 c | None => compare_blobs m1 m2 end
  else compare_blobs m1 m2.

(** ** Values *)

Inductive sqlval := SNull | SInt (i : Z) | SReal (x : Z) | SText (b : list Z) | SBlob (b : list Z).

(** The flags that give the type of a cell. *)
Definition tag (m : Mem) : Z := mflags m .& 0x401f.

(** The cell [m] holds the value [v]. *)
Inductive mem_is (m : Mem) : sqlval → Prop :=
| is_null : tag m = MEM_Null → mem_is m SNull
| is_int : tag m = MEM_Int → in_sw 64 (u_i m) → mem_is m (SInt (u_i m))
| is_real : tag m = MEM_Real → in_uw 64 (mr m) → sqlite3IsNaN (mr m) = false → mem_is m (SReal (mr m))
| is_text b : tag m = MEM_Str → read_bytes (mz m) (mn m) = Ret b → bytes_ok b → mem_is m (SText b)
| is_blob b : tag m = MEM_Blob → read_bytes (mz m) (mn m) = Ret b → bytes_ok b → mem_is m (SBlob b)
| is_zeroblob b : tag m = MEM_Blob .| MEM_Zero → read_bytes (mz m) (mn m) = Ret b → bytes_ok b → 0 ≤ u_i m →
    mem_is m (SBlob (b ++ replicate (Z.to_nat (u_i m)) 0)).

(** The zeros at the end of a blob that are not stored. *)
Definition zero_tail (m : Mem) : Z := if has m MEM_Zero then u_i m else 0.

Definition value_bytes (v : sqlval) : list Z := match v with SText b | SBlob b => b | _ => [] end.

(** Twice the length of a text or blob plus 13 is an [int]. *)
Definition value_fits (v : sqlval) : Prop := 2 * Z.of_nat (length (value_bytes v)) + 13 < 2 ^ 31.

(** The stored form of a value. *)
Definition value_type (v : sqlval) (file_format : Z) : Z :=
  match v with
  | SNull => 0
  | SInt i => int_serial_type i file_format
  | SReal _ => 7
  | SText b => 2 * Z.of_nat (length b) + 13
  | SBlob b => 2 * Z.of_nat (length b) + 12
  end.

Definition value_data (v : sqlval) (file_format : Z) : list Z :=
  match v with
  | SNull => []
  | SInt i => be_bytes (Z.to_nat (sqlite3VdbeSerialTypeLen (int_serial_type i file_format))) i
  | SReal x => be_bytes 8 x
  | SText b | SBlob b => b
  end.

Lemma has_tag m f : 0x401f .& f = f → has m f = negb (tag m .& f =? 0).
Proof. intros Hf. unfold has, tag. by rewrite <- Z.land_assoc, Hf. Qed.

(** Evaluate the tests of the flags of a cell of known type. *)
Ltac tags :=
  repeat match goal with
  | |- context [has ?m ?f] => rewrite (has_tag m f) by reflexivity
  end;
  repeat match goal with H : tag _ = _ |- _ => rewrite H end;
  repeat match goal with
  | |- context [negb (Z.land ?a ?f =? 0)] =>
      let b := eval vm_compute in (negb (Z.land a f =? 0)) in
      lazymatch b with true => idtac | false => idtac end;
      change (negb (Z.land a f =? 0)) with b
  end;
  cbn [orb andb negb].

Lemma read_bytes_Ret p n b : read_bytes p n = Ret b → 0 ≤ n ≤ Z.of_nat (length p) ∧ b = take (Z.to_nat n) p ∧
  Z.of_nat (length b) = n.
Proof.
  unfold read_bytes. destruct (Z.leb_spec 0 n), (Z.leb_spec n (Z.of_nat (length p))); try done.
  intros ?; simplify_eq/=. rewrite length_take. split; [lia|]. split; [done|lia].
Qed.

Lemma read_bytes_take p n : 0 ≤ n ≤ Z.of_nat (length p) → read_bytes p n = Ret (take (Z.to_nat n) p).
Proof. intros Hn. unfold read_bytes. rewrite (proj2 (Z.leb_le _ _)), (proj2 (Z.leb_le _ _)) by lia. done. Qed.

Lemma read_bytes_app b rest : read_bytes (b ++ rest) (Z.of_nat (length b)) = Ret b.
Proof. rewrite read_bytes_take by (rewrite length_app; lia). by rewrite Nat2Z.id, take_app_length. Qed.

Lemma chk32_ok x : - 2 ^ 31 ≤ x < 2 ^ 31 → chk32 x = Ret x.
Proof. intros H. unfold chk32. by rewrite bool_decide_eq_true_2. Qed.

(** ** Big-endian integers *)

Definition be_val (s : Z) (bs : list Z) : Z := fold_left (λ a b, a * 256 + b) bs s.

Lemma land_255 v : v .& 0xFF = v mod 256.
Proof. change 0xFF with (Z.ones 8). by rewrite Z.land_ones. Qed.

Lemma shiftr_8 v : v .>> 8 = v / 256.
Proof. by rewrite Z.shiftr_div_pow2. Qed.

Lemma div_div_256 v k : v / 256 / 256 ^ Z.of_nat k = v / 256 ^ Z.of_nat (S k).
Proof.
  rewrite Z.div_div by (try apply Z.pow_pos_nonneg; lia). f_equal.
  rewrite Nat2Z.inj_succ, Z.pow_succ_r by lia. done.
Qed.

Lemma be_bytes_head k v : be_bytes (S k) v = (v / 256 ^ Z.of_nat k) mod 256 :: be_bytes k v.
Proof.
  revert v. induction k as [|k IH]; intros v.
  - cbn [be_bytes app]. rewrite land_255. change (256 ^ Z.of_nat 0) with 1. by rewrite Z.div_1_r.
  - cbn [be_bytes] in *. rewrite IH, shiftr_8, div_div_256. done.
Qed.

Lemma be_val_bytes k v : be_val (v / 256 ^ Z.of_nat k) (be_bytes k v) = v.
Proof.
  revert v. induction k as [|k IH]; intros v.
  - change (256 ^ Z.of_nat 0) with 1. apply Z.div_1_r.
  - cbn [be_bytes]. unfold be_val. rewrite fold_left_app. cbn [fold_left].
    rewrite <- div_div_256, shiftr_8. fold (be_val (v / 256 / 256 ^ Z.of_nat k) (be_bytes k (v / 256))).
    rewrite IH, land_255. pose proof (Z.div_mod v 256). lia.
Qed.

Lemma be_bytes_ok k v : bytes_ok (be_bytes k v).
Proof.
  revert v. induction k as [|k IH]; intros v; [constructor|]. cbn [be_bytes]. apply Forall_app_2; [apply IH|].
  rewrite land_255. repeat constructor; pose proof (Z.mod_pos_bound v 256); lia.
Qed.

Lemma length_be_bytes k v : length (be_bytes k v) = k.
Proof. revert v. induction k as [|k IH]; intros v; [done|]. cbn [be_bytes]. rewrite length_app, IH. simpl. lia. Qed.

Lemma be_bytes_mod k j v : (k ≤ j)%nat → be_bytes k (v mod 256 ^ Z.of_nat j) = be_bytes k v.
Proof.
  revert j v. induction k as [|k IH]; intros j v Hj; [done|]. destruct j as [|j]; [lia|]. cbn [be_bytes].
  rewrite !shiftr_8, !land_255. rewrite Nat2Z.inj_succ, Z.pow_succ_r by lia.
  assert (0 < 256 ^ Z.of_nat j) by (apply Z.pow_pos_nonneg; lia).
  rewrite Z.rem_mul_r by lia. f_equal.
  - rewrite <- (IH j (v / 256)) by lia. f_equal.
    rewrite (Z.mul_comm 256), Z.div_add by lia. rewrite (Z.div_small (v mod 256)) by (apply Z.mod_pos_bound; lia). lia.
  - f_equal. rewrite (Z.mul_comm 256), Z.mod_add by lia. apply Z.mod_mod. lia.
Qed.

Lemma be_bytes_u64 k v : (k ≤ 8)%nat → be_bytes k (u64 v) = be_bytes k v.
Proof. intros Hk. by apply (be_bytes_mod k 8). Qed.

(** The macros read big-endian integers. *)
Lemma sw8_byte x : 0 ≤ x < 256 → sw 8 x = if x <? 128 then x else x - 256.
Proof.
  intros Hx. unfold sw. change (2 ^ (8 - 1)) with 128. change (2 ^ 8) with 256. destruct (Z.ltb_spec x 128).
  - rewrite Z.mod_small; lia.
  - replace (x + 128) with (x - 128 + 1 * 256) by lia. rewrite Z.mod_add by lia. rewrite Z.mod_small; lia.
Qed.

Lemma shl_or v x : 0 ≤ x < 256 → (256 * v) .| x = v * 256 + x.
Proof.
  intros Hx. replace (256 * v) with (v .<< 8) by (rewrite Z.shiftl_mul_pow2; lia). by rewrite append_bits by lia.
Qed.

Lemma shl2_or v x y : 0 ≤ x < 256 → 0 ≤ y < 256 → (65536 * v) .| (x .<< 8) .| y = (v * 256 + x) * 256 + y.
Proof.
  intros Hx Hy. replace ((65536 * v) .| (x .<< 8)) with (((256 * v) .| x) .<< 8).
  - rewrite append_bits, shl_or by lia. done.
  - rewrite Z.shiftl_lor. f_equal. rewrite Z.shiftl_mul_pow2 by lia. lia.
Qed.

Lemma FOUR_BYTE_UINT_val x0 x1 x2 x3 rest : bytes_ok [x0; x1; x2; x3] →
  FOUR_BYTE_UINT (x0 :: x1 :: x2 :: x3 :: rest) = Ret (be_val 0 [x0; x1; x2; x3]).
Proof.
  unfold bytes_ok. rewrite !list.Forall_cons. intros (H0 & H1 & H2 & H3 & _).
  change (FOUR_BYTE_UINT (x0 :: x1 :: x2 :: x3 :: rest))
    with (Ret (u32 (x0 .<< 24) .| (x1 .<< 16) .| (x2 .<< 8) .| x3)). f_equal. unfold be_val. cbn [fold_left].
  change 256 with (2 ^ 8) in *. rewrite <- !append_bits by lia. bits_eq [(x0, 8); (x1, 8); (x2, 8); (x3, 8)].
Qed.

Lemma be_val_range s bs : bytes_ok bs → 
  s * 256 ^ Z.of_nat (length bs) ≤ be_val s bs < (s + 1) * 256 ^ Z.of_nat (length bs).
Proof.
  revert s. induction bs as [|b bs IH]; intros s Hb.
  - change (256 ^ Z.of_nat (length [])) with 1. cbn. lia.
  - apply list.Forall_cons in Hb as [Hb Hbs]. cbn [be_val fold_left length]. fold (be_val (s * 256 + b) bs).
    specialize (IH (s * 256 + b) Hbs). rewrite Nat2Z.inj_succ, Z.pow_succ_r by lia.
    assert (0 < 256 ^ Z.of_nat (length bs)) by (apply Z.pow_pos_nonneg; lia). nia.
Qed.

Lemma be_val_shift s t bs : be_val (s + t) bs = be_val s bs + t * 256 ^ Z.of_nat (length bs).
Proof.
  revert s t. induction bs as [|b bs IH]; intros s t.
  - change (256 ^ Z.of_nat (length [])) with 1. cbn. lia.
  - cbn [be_val fold_left length]. fold (be_val ((s + t) * 256 + b) bs) (be_val (s * 256 + b) bs).
    replace ((s + t) * 256 + b) with (s * 256 + b + t * 256) by lia. rewrite IH.
    rewrite Nat2Z.inj_succ, Z.pow_succ_r by lia. lia.
Qed.

Lemma sw_be_val x bs : 0 ≤ x < 256 → bytes_ok bs →
  sw (8 * Z.of_nat (S (length bs))) (be_val x bs) = be_val (sw 8 x) bs.
Proof.
  intros Hx Hbs. set (w := 8 * Z.of_nat (S (length bs))).
  assert (256 ^ Z.of_nat (length bs) = 2 ^ (w - 8)) as E.
  { change 256 with (2 ^ 8). rewrite <- Z.pow_mul_r by lia. f_equal. lia. }
  assert (2 ^ (w - 1) = 128 * 2 ^ (w - 8) ∧ 2 ^ w = 256 * 2 ^ (w - 8)) as [E1 E2].
  { change 128 with (2 ^ 7). change 256 with (2 ^ 8). rewrite <- !Z.pow_add_r by lia. split; f_equal; lia. }
  assert (0 < 2 ^ (w - 8)) by (apply Z.pow_pos_nonneg; lia).
  assert (in_sw w (be_val (sw 8 x) bs)) as Hr.
  { pose proof (be_val_range (sw 8 x) bs Hbs) as Hb. rewrite E in Hb. unfold in_sw. rewrite E1.
    rewrite sw8_byte in * by done. destruct (Z.ltb_spec x 128); nia. }
  rewrite <- (sw_small w (be_val (sw 8 x) bs)) by (done || lia). rewrite (sw8_byte x) by done.
  destruct (Z.ltb_spec x 128); [done|]. unfold Z.sub. rewrite be_val_shift, E. unfold sw. rewrite E2.
  replace (be_val x bs + - (256) * 2 ^ (w - 8) + 2 ^ (w - 1))
    with (be_val x bs + 2 ^ (w - 1) + (-1) * (256 * 2 ^ (w - 8))) by lia.
  by rewrite Z.mod_add by lia.
Qed.

Ltac bytes_of H := unfold bytes_ok in H; rewrite ?list.Forall_cons in H; destruct_and?.

Lemma TWO_BYTE_INT_val x0 x1 rest : bytes_ok [x0; x1] → TWO_BYTE_INT (x0 :: x1 :: rest) = Ret (be_val (sw 8 x0) [x1]).
Proof.
  intros H. bytes_of H. change (TWO_BYTE_INT (x0 :: x1 :: rest)) with (Ret ((256 * sw 8 x0) .| x1)).
  by rewrite shl_or.
Qed.

Lemma THREE_BYTE_INT_val x0 x1 x2 rest : bytes_ok [x0; x1; x2] →
  THREE_BYTE_INT (x0 :: x1 :: x2 :: rest) = Ret (be_val (sw 8 x0) [x1; x2]).
Proof.
  intros H. bytes_of H.
  change (THREE_BYTE_INT (x0 :: x1 :: x2 :: rest)) with (Ret ((65536 * sw 8 x0) .| (x1 .<< 8) .| x2)).
  by rewrite shl2_or.
Qed.

Lemma four_byte_int_val x0 x1 x2 x3 rest : bytes_ok [x0; x1; x2; x3] →
  four_byte_int (x0 :: x1 :: x2 :: x3 :: rest) = Ret (be_val (sw 8 x0) [x1; x2; x3]).
Proof.
  intros H. unfold four_byte_int. rewrite FOUR_BYTE_UINT_val by done. cbn [mbind outcome_bind]. f_equal.
  bytes_of H. by apply (sw_be_val x0 [x1; x2; x3]); [|repeat constructor].
Qed.

Lemma six_byte_int_val x0 x1 x2 x3 x4 x5 rest : bytes_ok [x0; x1; x2; x3; x4; x5] →
  six_byte_int (x0 :: x1 :: x2 :: x3 :: x4 :: x5 :: rest) = Ret (be_val (sw 8 x0) [x1; x2; x3; x4; x5]).
Proof.
  intros H. bytes_of H. unfold six_byte_int. cbn [drop].
  rewrite FOUR_BYTE_UINT_val, TWO_BYTE_INT_val by by repeat constructor. cbn [mbind outcome_bind]. f_equal.
  change (be_val (sw 8 x0) [x1; x2; x3; x4; x5]) with (be_val (0 + be_val (sw 8 x0) [x1]) [x2; x3; x4; x5]).
  rewrite be_val_shift. change (256 ^ Z.of_nat (length [x2; x3; x4; x5])) with (1 .<< 32). lia.
Qed.

Lemma eight_bytes_val x0 x1 x2 x3 x4 x5 x6 x7 rest : bytes_ok [x0; x1; x2; x3; x4; x5; x6; x7] →
  eight_bytes (x0 :: x1 :: x2 :: x3 :: x4 :: x5 :: x6 :: x7 :: rest) = Ret (be_val x0 [x1; x2; x3; x4; x5; x6; x7]).
Proof.
  intros H. bytes_of H. unfold eight_bytes. cbn [drop].
  rewrite !FOUR_BYTE_UINT_val by by repeat constructor. cbn [mbind outcome_bind]. f_equal.
  assert (bytes_ok [x0; x1; x2; x3]) as B1 by by repeat constructor.
  assert (bytes_ok [x4; x5; x6; x7]) as B2 by by repeat constructor.
  pose proof (be_val_range 0 _ B1) as R1. pose proof (be_val_range 0 _ B2) as R2.
  change (256 ^ Z.of_nat (length [x0; x1; x2; x3])) with (2 ^ 32) in *.
  change (256 ^ Z.of_nat (length [x4; x5; x6; x7])) with (2 ^ 32) in *.
  rewrite uw_small by (unfold in_uw; rewrite Z.shiftl_mul_pow2 by lia; lia).
  rewrite append_bits by lia.
  change (be_val x0 [x1; x2; x3; x4; x5; x6; x7]) with (be_val (0 + be_val 0 [x0; x1; x2; x3]) [x4; x5; x6; x7]).
  rewrite be_val_shift. change (256 ^ Z.of_nat (length [x4; x5; x6; x7])) with (2 ^ 32). lia.
Qed.

(** ** Integers *)

Definition int_widths : list (Z * nat) := [(1, 0%nat); (2, 1%nat); (3, 2%nat); (4, 3%nat); (5, 5%nat); (6, 7%nat)].

(** An integer type has a content of [S k] bytes that hold the integer, or
    stands for 0 or 1. *)
Lemma int_serial_type_cases i ff : in_sw 64 i →
  (int_serial_type i ff = 8 + i ∧ (i = 0 ∨ i = 1)) ∨
  ∃ k, (int_serial_type i ff, k) ∈ int_widths ∧ - (128 * 256 ^ Z.of_nat k) ≤ i < 128 * 256 ^ Z.of_nat k.
Proof.
  unfold in_sw. intros Hi. unfold int_serial_type.
  assert (∀ st k, (st, k) ∈ int_widths → - (128 * 256 ^ Z.of_nat k) ≤ i < 128 * 256 ^ Z.of_nat k →
    ∀ P, P ∨ ∃ k, (st, k) ∈ int_widths ∧ - (128 * 256 ^ Z.of_nat k) ≤ i < 128 * 256 ^ Z.of_nat k) as Hw by eauto.
  change MAX_6BYTE with (2 ^ 47 - 1) in *.
  set (u := if i <? 0 then u64 (- i) else u64 i).
  destruct (Z.ltb_spec i 0), (Z.ltb_spec i (- (2 ^ 47 - 1))); cbn [andb]; try lia.
  - apply (Hw 6 7%nat); [set_solver|simpl; lia].
  - assert (u = - i) as -> by (subst u; apply uw_small; unfold in_uw; lia).
    assert ((i .& 1 =? i) = false) as ->.
    { apply Z.eqb_neq. pose proof (Z.land_nonneg i 1). lia. }
    cbn [andb]. repeat (case_match; b2p);
      [apply (Hw 1 0%nat)|apply (Hw 2 1%nat)|apply (Hw 3 2%nat)|apply (Hw 4 3%nat)|apply (Hw 5 5%nat)|apply (Hw 6 7%nat)];
      try set_solver; simpl; lia.
  - assert (u = i) as -> by (subst u; apply uw_small; unfold in_uw; lia).
    destruct (Z.leb_spec i 127); [|repeat (case_match; b2p);
      [apply (Hw 2 1%nat)|apply (Hw 3 2%nat)|apply (Hw 4 3%nat)|apply (Hw 5 5%nat)|apply (Hw 6 7%nat)];
      try set_solver; simpl; lia].
    destruct (_ && _) eqn:E; b2p; [|apply (Hw 1 0%nat); [set_solver|simpl; lia]].
    left. change 1 with (Z.ones 1) in H2. rewrite Z.land_ones in H2 by lia. pose proof (Z.mod_pos_bound i (2 ^ 1)).
    rewrite uw_small by (unfold in_uw; lia). lia.
Qed.

Lemma int_serial_type_range i ff : in_sw 64 i → 1 ≤ int_serial_type i ff ≤ 9 ∧ int_serial_type i ff ≠ 7.
Proof.
  intros Hi. destruct (int_serial_type_cases i ff Hi) as [[-> ?]|(k & Hk & _)]; [lia|].
  unfold int_widths in Hk. rewrite !list.elem_of_cons, list.elem_of_nil in Hk. naive_solver lia.
Qed.

(** The integer content of [S k] bytes. *)
Lemma be_bytes_signed i k : - (128 * 256 ^ Z.of_nat k) ≤ i < 128 * 256 ^ Z.of_nat k →
  ∃ x bs, be_bytes (S k) i = x :: bs ∧ length bs = k ∧ bytes_ok (x :: bs) ∧ be_val (sw 8 x) bs = i.
Proof.
  intros Hi. eexists _, _. split; [apply be_bytes_head|]. split; [apply length_be_bytes|].
  rewrite <- be_bytes_head. split; [apply be_bytes_ok|]. etransitivity; [|apply (be_val_bytes k i)]. f_equal.
  assert (0 < 256 ^ Z.of_nat k) by (apply Z.pow_pos_nonneg; lia).
  assert (-128 ≤ i / 256 ^ Z.of_nat k < 128).
  { split; [apply Z.div_le_lower_bound|apply Z.div_lt_upper_bound]; lia. }
  generalize dependent (i / 256 ^ Z.of_nat k). intros q Hq. unfold sw. change (2 ^ (8 - 1)) with 128.
  change (2 ^ 8) with 256. Z.div_mod_to_equations. lia.
Qed.

(** The result of reading an integer type. *)
Lemma SerialGet_int st k bs rest m : (st, k) ∈ int_widths → length bs = k → ∀ x, bytes_ok (x :: bs) →
  sqlite3VdbeSerialGet (x :: bs ++ rest) st m = Ret (set_int (be_val (sw 8 x) bs) m, Z.of_nat (S k)).
Proof.
  intros Hk Hl x Hb. unfold int_widths in Hk. rewrite !list.elem_of_cons, list.elem_of_nil in Hk.
  destruct Hk as [E|[E|[E|[E|[E|[E|[]]]]]]]; simplify_eq;
    repeat (destruct bs as [|? bs]; simplify_eq/=); unfold sqlite3VdbeSerialGet; cbn [Z.eqb Pos.eqb orb app].
  - done.
  - by rewrite TWO_BYTE_INT_val.
  - by rewrite THREE_BYTE_INT_val.
  - by rewrite four_byte_int_val.
  - by rewrite six_byte_int_val.
  - rewrite eight_bytes_val by done. cbn [mbind outcome_bind]. do 3 f_equal. bytes_of Hb.
    by apply (sw_be_val x [z; z0; z1; z2; z3; z4; z5]); [|repeat constructor].
Qed.

(** ** Storing values *)

Lemma SerialType_value m v ff : mem_is m v → value_fits v → sqlite3VdbeSerialType m ff = Ret (value_type v ff).
Proof.
  unfold value_fits. intros Hm Hf. unfold sqlite3VdbeSerialType.
  destruct Hm as [Ht|Ht|Ht|b Ht Hb _|b Ht Hb _|b Ht Hb _ Hz]; tags; try done; cbn [value_type value_bytes] in *;
    apply read_bytes_Ret in Hb as (Hn & _ & Hl); cbn [c_assert mbind outcome_bind];
    rewrite ?length_app, ?length_replicate in *.
  - rewrite (proj2 (Z.leb_le _ _)) by lia. cbn [c_assert mbind outcome_bind].
    repeat (rewrite chk32_ok by lia; cbn [mbind outcome_bind]). rewrite uw_small by (unfold in_uw; lia). f_equal. lia.
  - rewrite (proj2 (Z.leb_le _ _)) by lia. cbn [c_assert mbind outcome_bind].
    repeat (rewrite chk32_ok by lia; cbn [mbind outcome_bind]). rewrite uw_small by (unfold in_uw; lia). f_equal. lia.
  - rewrite chk32_ok by lia. cbn [mbind outcome_bind]. rewrite (proj2 (Z.leb_le _ _)) by lia. cbn [c_assert mbind outcome_bind].
    repeat (rewrite chk32_ok by lia; cbn [mbind outcome_bind]). rewrite uw_small by (unfold in_uw; lia). f_equal. lia.
Qed.

Lemma SerialTypeLen_bytes n t : 0 ≤ n → 0 ≤ t < 2 → sqlite3VdbeSerialTypeLen (2 * n + 12 + t) = n.
Proof.
  intros Hn Ht. unfold sqlite3VdbeSerialTypeLen. rewrite (proj2 (Z.leb_le _ _)) by lia.
  Z.div_mod_to_equations. lia.
Qed.

Lemma SerialTypeLen_value v ff : (∀ i, v = SInt i → in_sw 64 i) →
  sqlite3VdbeSerialTypeLen (value_type v ff) = Z.of_nat (length (value_data v ff)).
Proof.
  intros Hv. destruct v as [|i|x|b|b]; cbn [value_type value_data]; rewrite ?length_be_bytes; try done.
  - pose proof (Hv i eq_refl) as Hi. destruct (int_serial_type_cases i ff Hi) as [[-> [-> | ->]]|(k & Hk & _)]; [done|done|].
    unfold int_widths in Hk. rewrite !list.elem_of_cons, list.elem_of_nil in Hk.
    destruct Hk as [E|[E|[E|[E|[E|[E|[]]]]]]]; injection E as -> _; done.
  - replace (_ + 13) with (2 * Z.of_nat (length b) + 12 + 1) by lia. apply SerialTypeLen_bytes; lia.
  - replace (_ + 12) with (2 * Z.of_nat (length b) + 12 + 0) by lia. apply SerialTypeLen_bytes; lia.
Qed.

Lemma mem_is_int m v i : mem_is m v → v = SInt i → in_sw 64 i.
Proof. by destruct 1; intros E; simplify_eq. Qed.

(** The content is written up to the zeros at the end of a blob. *)
Lemma SerialPut_value m v ff : mem_is m v → value_fits v →
  ∃ p, sqlite3VdbeSerialPut m (value_type v ff) = Ret p ∧ value_data v ff = p ++ replicate (Z.to_nat (zero_tail m)) 0.
Proof.
  intros Hm Hf. pose proof (SerialTypeLen_value v ff (λ i, mem_is_int m v i Hm)) as Hlen.
  unfold sqlite3VdbeSerialPut, zero_tail.
  destruct Hm as [Ht|Ht Hi|Ht Hr _|b Ht Hb _|b Ht Hb _|b Ht Hb _ Hz]; tags; cbn [value_type value_data] in *;
    try change (replicate (Z.to_nat 0) 0) with (@nil Z).
  - by exists [].
  - pose proof (int_serial_type_range _ ff Hi) as [Hst Hne]. rewrite (proj2 (Z.leb_gt 12 _)) by lia.
    rewrite (proj2 (Z.ltb_lt 0 _)), andb_true_r by lia. rewrite (proj2 (Z.eqb_neq _ 7)) by lia.
    assert ((Z.to_nat (sqlite3VdbeSerialTypeLen (int_serial_type (u_i m) ff)) ≤ 8)%nat).
    { destruct (int_serial_type_cases _ ff Hi) as [[-> [-> | ->]]|(k & Hk & _)]; [vm_compute; lia|vm_compute; lia|].
      unfold int_widths in Hk. rewrite !list.elem_of_cons, list.elem_of_nil in Hk.
      destruct Hk as [E|[E|[E|[E|[E|[E|[]]]]]]]; injection E as -> _; vm_compute; lia. }
    destruct (Z.leb_spec (int_serial_type (u_i m) ff) 7); [|eexists; split; [done|]].
    + eexists. split; [done|]. by rewrite app_nil_r, be_bytes_u64.
    + destruct (int_serial_type_cases _ ff Hi) as [[-> [-> | ->]]|(k & Hk & _)]; [done|done|].
      unfold int_widths in Hk. rewrite !list.elem_of_cons, list.elem_of_nil in Hk. naive_solver lia.
  - eexists. split; [done|]. cbn [value_data]. by rewrite app_nil_r.
  - rewrite (proj2 (Z.leb_gt _ 7)) by lia. cbn [andb]. rewrite (proj2 (Z.leb_le 12 _)) by lia.
    apply read_bytes_Ret in Hb as Hb'. destruct Hb' as (_ & _ & Hl). rewrite Hlen, Z.add_0_r, Hl, Z.eqb_refl.
    cbn [c_assert mbind outcome_bind]. exists b. by rewrite app_nil_r.
  - rewrite (proj2 (Z.leb_gt _ 7)) by lia. cbn [andb]. rewrite (proj2 (Z.leb_le 12 _)) by lia.
    apply read_bytes_Ret in Hb as Hb'. destruct Hb' as (_ & _ & Hl). rewrite Hlen, Z.add_0_r, Hl, Z.eqb_refl.
    cbn [c_assert mbind outcome_bind]. exists b. by rewrite app_nil_r.
  - rewrite (proj2 (Z.leb_gt _ 7)) by lia. cbn [andb]. rewrite (proj2 (Z.leb_le 12 _)) by lia.
    apply read_bytes_Ret in Hb as Hb'. destruct Hb' as (_ & _ & Hl).
    rewrite Hlen, length_app, length_replicate, Nat2Z.inj_add, Hl, Z2Nat.id, Z.eqb_refl by done.
    cbn [c_assert mbind outcome_bind]. eauto.
Qed.

Definition value_ok (v : sqlval) : Prop :=
  match v with
  | SNull => True
  | SInt i => in_sw 64 i
  | SReal x => in_uw 64 x ∧ sqlite3IsNaN x = false
  | SText b | SBlob b => bytes_ok b
  end.

Lemma mem_is_ok m v : mem_is m v → value_ok v.
Proof.
  destruct 1; cbn; try done. apply Forall_app_2; [done|]. apply list.Forall_forall.
  intros x Hx. apply list.elem_of_replicate in Hx as [-> _]. lia.
Qed.

(** A text or blob type. *)
Lemma SerialGet_bytes st buf m : 12 ≤ st < 2 ^ 32 →
  sqlite3VdbeSerialGet buf st m =
    Ret (MkMem (if st .& 1 =? 0 then MEM_Blob .| MEM_Ephem else MEM_Str .| MEM_Ephem) (u_i m) (mr m) buf
           (sqlite3VdbeSerialTypeLen st), sqlite3VdbeSerialTypeLen st).
Proof.
  intros Hst. unfold sqlite3VdbeSerialGet, sqlite3VdbeSerialTypeLen. rewrite (proj2 (Z.leb_le 12 _)) by lia.
  repeat match goal with |- context [st =? ?k] => rewrite (proj2 (Z.eqb_neq st k)) by lia end. cbn [orb].
  do 3 f_equal. rewrite sw_small; [done|lia|]. unfold in_sw. Z.div_mod_to_equations. lia.
Qed.

Lemma land_1_bytes n t : 0 ≤ t < 2 → ((2 * n + 12 + t) .& 1 =? 0) = (t =? 0).
Proof.
  intros Ht. change 1 with (Z.ones 1) at 1. rewrite Z.land_ones by lia. change (2 ^ 1) with 2.
  replace (2 * n + 12 + t) with (t + (n + 6) * 2) by lia. rewrite Z.mod_add, Z.mod_small by lia. done.
Qed.

(** Reading what was written gives the value back. *)
Lemma SerialGet_value v ff rest m0 : value_ok v → value_fits v →
  ∃ m, sqlite3VdbeSerialGet (value_data v ff ++ rest) (value_type v ff) m0
         = Ret (m, Z.of_nat (length (value_data v ff))) ∧ mem_is m v ∧ zero_tail m = 0.
Proof.
  unfold value_fits. intros Hv Hf. destruct v as [|i|x|b|b]; cbn [value_data value_type value_ok value_bytes] in *.
  - eexists. split; [done|]. split; [by constructor|done].
  - destruct (int_serial_type_cases i ff Hv) as [[-> Hi]|(k & Hk & Hi)].
    + destruct Hi as [-> | ->]; (eexists; split; [done|]; split; [by apply is_int|done]).
    + assert (Z.to_nat (sqlite3VdbeSerialTypeLen (int_serial_type i ff)) = S k) as ->.
      { unfold int_widths in Hk. rewrite !list.elem_of_cons, list.elem_of_nil in Hk.
        destruct Hk as [E|[E|[E|[E|[E|[E|[]]]]]]]; injection E as -> ->; done. }
      destruct (be_bytes_signed i k Hi) as (x & bs & -> & Hl & Hb & Hval). cbn [app].
      rewrite (SerialGet_int _ k) by done. rewrite Hval. eexists. split; [by cbn [length]; rewrite Hl|].
      split; [by apply (is_int (set_int i m0))|done].
  - destruct Hv as [Hx Hn]. unfold in_uw in Hx. pose proof (be_bytes_ok 8 x) as Hok. pose proof (be_val_bytes 8 x) as Hval.
    rewrite length_be_bytes. rewrite Z.div_small in Hval by done. remember (be_bytes 8 x) as l eqn:E.
    pose proof (length_be_bytes 8 x) as Hl. rewrite <- E in Hl. clear E.
    do 8 (destruct l as [|? l]; [done|]). destruct l; [|done]. cbn [app].
    unfold sqlite3VdbeSerialGet. cbn [Z.eqb Pos.eqb orb]. rewrite eight_bytes_val by done. cbn [mbind outcome_bind].
    cbn [be_val fold_left] in *. rewrite Z.mul_0_l, Z.add_0_l in Hval. rewrite Hval, Hn. eexists. split; [done|].
    split; [|done]. by apply (is_real (MkMem MEM_Real (u_i m0) x (mz m0) (mn m0))).
  - replace (_ + 13) with (2 * Z.of_nat (length b) + 12 + 1) by lia.
    rewrite SerialGet_bytes, SerialTypeLen_bytes, land_1_bytes by lia. eexists. split; [done|]. split; [|done].
    constructor; [done| |done]. apply read_bytes_app.
  - replace (_ + 12) with (2 * Z.of_nat (length b) + 12 + 0) by lia.
    rewrite SerialGet_bytes, SerialTypeLen_bytes, land_1_bytes by lia. eexists. split; [done|]. split; [|done].
    constructor; [done| |done]. apply read_bytes_app.
Qed.

(** C35: A value (NULL, any 64-bit integer, any double but NaN, any text or blob
    of up to about one billion bytes) has a serial type, is written in as many
    bytes as the type announces, but for the zeros at the end of a blob, which
    are left to the caller, and is read back from them, whatever follows and
    whatever the file format. *)
Theorem sqlite3VdbeSerial_round_trip m v ff rest m0 :
  mem_is m v → value_fits v →
  ∃ st p m', sqlite3VdbeSerialType m ff = Ret st ∧ sqlite3VdbeSerialPut m st = Ret p ∧
    sqlite3VdbeSerialTypeLen st = Z.of_nat (length p) + zero_tail m ∧
    sqlite3VdbeSerialGet (p ++ replicate (Z.to_nat (zero_tail m)) 0 ++ rest) st m0
      = Ret (m', sqlite3VdbeSerialTypeLen st) ∧ mem_is m' v.
Proof.
  intros Hm Hf. exists (value_type v ff). destruct (SerialPut_value m v ff Hm Hf) as (p & Hp & Hd).
  destruct (SerialGet_value v ff rest m0) as (m' & Hg & Hm' & _); [by eapply mem_is_ok|done|].
  exists p, m'. split; [by apply SerialType_value|]. split; [done|].
  pose proof (SerialTypeLen_value v ff (λ i, mem_is_int m v i Hm)) as Hl.
  assert (0 ≤ zero_tail m) as Hz.
  { unfold zero_tail. destruct Hm; tags; lia. }
  rewrite Hl. rewrite Hd in Hg |- *. rewrite length_app, length_replicate in *. rewrite <- app_assoc in Hg.
  split; [lia|]. split; [done|done].
Qed.

Lemma sqlite3VdbeSerial_round_trip_witness : ∃ st p m',
  sqlite3VdbeSerialType (MkMem MEM_Int (-300) 0 [] 0) 4 = Ret st ∧
  sqlite3VdbeSerialPut (MkMem MEM_Int (-300) 0 [] 0) st = Ret p ∧
  sqlite3VdbeSerialTypeLen st = Z.of_nat (length p) + 0 ∧
  sqlite3VdbeSerialGet (p ++ [] ++ [7]) st (MkMem 0 0 0 [] 0) = Ret (m', sqlite3VdbeSerialTypeLen st) ∧
  mem_is m' (SInt (-300)).
Proof.
  apply (sqlite3VdbeSerial_round_trip (MkMem MEM_Int (-300) 0 [] 0) (SInt (-300)) 4 [7] (MkMem 0 0 0 [] 0)).
  - by apply (is_int (MkMem MEM_Int (-300) 0 [] 0)).
  - done.
Defined.

Lemma split_bytes n (buf : list Z) : (n ≤ length buf)%nat → ∃ p q, buf = p ++ q ∧ length p = n.
Proof. intros Hn. exists (take n buf), (drop n buf). rewrite take_drop, length_take. split; [done|lia]. Qed.

(** Six bytes or fewer, or eight, hold a 64-bit integer. *)
Lemma SerialGet_int_typed st k buf m0 : (st, k) ∈ int_widths → bytes_ok buf → (S k ≤ length buf)%nat →
  ∃ m v, sqlite3VdbeSerialGet buf st m0 = Ret (m, Z.of_nat (S k)) ∧ mem_is m v.
Proof.
  intros Hk Hb Hlen. destruct (split_bytes (S k) buf Hlen) as (p & q & -> & Hp). destruct p as [|x bs]; [done|].
  apply Forall_app in Hb as [Hb _]. cbn [app]. simpl in Hp.
  rewrite (SerialGet_int _ k) by (done || lia). eexists _, _. split; [done|]. apply is_int; [done|].
  apply list.Forall_cons in Hb as [Hx Hbs]. unfold set_int. cbn [u_i]. rewrite <- sw_be_val by done.
  assert (in_sw (8 * Z.of_nat (S (length bs))) (sw (8 * Z.of_nat (S (length bs))) (be_val x bs))) as Hr
    by (apply sw_range; lia).
  unfold in_sw in *. replace (length bs) with k in * by lia. unfold int_widths in Hk.
  rewrite !list.elem_of_cons, list.elem_of_nil in Hk.
  destruct Hk as [E|[E|[E|[E|[E|[E|[]]]]]]]; injection E as _ ->; simpl Z.of_nat in *; cbn in Hr |- *; lia.
Qed.

Lemma SerialGet_real_typed buf m0 : bytes_ok buf → (8 ≤ length buf)%nat →
  ∃ m v, sqlite3VdbeSerialGet buf 7 m0 = Ret (m, 8) ∧ mem_is m v.
Proof.
  intros Hb Hlen. destruct (split_bytes 8 buf Hlen) as (p & q & -> & Hp). apply Forall_app in Hb as [Hb _].
  do 8 (destruct p as [|? p]; [done|]). destruct p; [|done]. unfold sqlite3VdbeSerialGet. cbn [Z.eqb Pos.eqb orb app].
  rewrite eight_bytes_val by done. cbn [mbind outcome_bind]. apply list.Forall_cons in Hb as [Hx Hb].
  pose proof (be_val_range z _ Hb) as Hr. change (256 ^ Z.of_nat _) with (2 ^ 56) in Hr.
  set (x := be_val z _) in *. clearbody x.
  destruct (sqlite3IsNaN x) eqn:E; (eexists _, _; split; [done|]); [by apply is_null|].
  apply is_real; [done| |done]. unfold in_uw. cbn [mr]. lia.
Qed.

(** C36: Reading a value never fails if the bytes its serial type announces are
    there: for every 32-bit serial type and every content, of a corrupt record
    as well, the cell gets exactly one type and a content in its range (an
    integer of 64 bits, a double that is not a NaN, bytes inside the buffer),
    and the number of bytes read is the one announced. *)
Theorem sqlite3VdbeSerialGet_typed buf st m0 :
  bytes_ok buf → 0 ≤ st < 2 ^ 32 → sqlite3VdbeSerialTypeLen st ≤ Z.of_nat (length buf) →
  ∃ m v, sqlite3VdbeSerialGet buf st m0 = Ret (m, sqlite3VdbeSerialTypeLen st) ∧ mem_is m v.
Proof.
  intros Hb Hst Hl. destruct (Z.leb_spec 12 st) as [H12|H12].
  { rewrite SerialGet_bytes by lia.
    assert (0 ≤ sqlite3VdbeSerialTypeLen st).
    { unfold sqlite3VdbeSerialTypeLen. rewrite (proj2 (Z.leb_le _ _)) by lia. apply Z.div_pos; lia. }
    pose proof (read_bytes_take buf _ (conj H Hl)) as Hr.
    assert (bytes_ok (take (Z.to_nat (sqlite3VdbeSerialTypeLen st)) buf)) by by apply Forall_take.
    destruct (st .& 1 =? 0); (eexists _, _; split; [done|]); [by eapply is_blob|by eapply is_text]. }
  assert (st ∈ [0; 1; 2; 3; 4; 5; 6; 7; 8; 9; 10; 11]) as Hc by (rewrite !list.elem_of_cons; lia).
  rewrite !list.elem_of_cons, list.elem_of_nil in Hc.
  assert (∀ k, (st, k) ∈ int_widths → Z.of_nat (S k) = sqlite3VdbeSerialTypeLen st →
    ∃ m v, sqlite3VdbeSerialGet buf st m0 = Ret (m, sqlite3VdbeSerialTypeLen st) ∧ mem_is m v) as Hint.
  { intros k Hk E. rewrite <- E in *. apply SerialGet_int_typed; [done..|lia]. }
  destruct Hc as [->|[->|[->|[->|[->|[->|[->|[->|[->|[->|[->|[->|[]]]]]]]]]]]]];
    try (eexists _, _; split; [done|]; first [by apply is_null|by apply is_int]).
  1: apply (Hint 0%nat). 3: apply (Hint 1%nat). 5: apply (Hint 2%nat). 7: apply (Hint 3%nat).
  9: apply (Hint 5%nat). 11: apply (Hint 7%nat).
  all: try (unfold int_widths; rewrite ?list.elem_of_cons; tauto); try reflexivity.
  apply SerialGet_real_typed; [done|]. change (sqlite3VdbeSerialTypeLen 7) with 8 in Hl. lia.
Qed.

Lemma sqlite3VdbeSerialGet_typed_witness : ∃ m v,
  sqlite3VdbeSerialGet [0x7f; 0xff; 0; 0; 0; 0; 0; 1] 7 (MkMem 0 0 0 [] 0) = Ret (m, 8) ∧ mem_is m v.
Proof.
  apply (sqlite3VdbeSerialGet_typed [0x7f; 0xff; 0; 0; 0; 0; 0; 1] 7 (MkMem 0 0 0 [] 0)).
  - repeat constructor; lia.
  - lia.
  - vm_compute. discriminate.
Defined.
