(* ===== verification/Record.v ===== *)
(** * Records

    Models the records of tables and indexes: the opcode MakeRecord of
    src/vdbe.c that builds them, and [sqlite3VdbeRecordUnpack] of
    src/vdbeaux.c.  The values and their stored form are those of Serial.v. *)

From S2P Require Import Prelude Numbers Utf Varint Serial.
#[local] Open Scope Z_scope.
#[local] Open Scope c_scope.
#[local] Open Scope list_scope.

(** [&a[i]]: the memory from there; the end of the object may be pointed at. *)
Definition ptr (a : list Z) (i : Z) : outcome (list Z) :=
  if (0 <=? i) && (i <=? Z.of_nat (length a)) then Ret (drop (Z.to_nat i) a) else Undef OutOfBounds.

(** ** Building *)

(** The loop from the last field to the first that computes the sizes; it
    expands the zeros at the end of a blob if data follow.  The registers are
    returned in order. *)
Fixpoint size_loop (file_format : Z) (pRecs : list Mem) (nData nHdr nZero : Z) (done : list Mem)
    : outcome (Z * Z * Z * list Mem) :=
  match pRecs with
  | [] => Ret (nData, nHdr, nZero, done)
  | pRec :: pRecs' =>
      serial_type ← sqlite3VdbeSerialType pRec file_format;
      let len := sqlite3VdbeSerialTypeLen serial_type in
      '(pRec, nZero, len) ←
        (if has pRec MEM_Zero then
           if negb (nData =? 0) then m ← sqlite3VdbeMemExpandBlob pRec; Ret (m, nZero, len)
           else z ← chk32 (nZero + u_i pRec); Ret (pRec, z, len - u_i pRec)
         else Ret (pRec, nZero, len));
      let nData := u64 (nData + len) in
      nHdr ← chk32 (nHdr + (if serial_type <=? 127 then 1 else sqlite3VarintLen serial_type));
      size_loop file_format pRecs' nData nHdr nZero (pRec :: done)
  end.

(** The header with the varint of its own size. *)
Definition add_header_varint (nHdr : Z) : Z :=
  if nHdr <=? 126 then nHdr + 1
  else
    let nVarint := sqlite3VarintLen nHdr in
    let nHdr := nHdr + nVarint in
    if nVarint <? sqlite3VarintLen nHdr then nHdr + 1 else nHdr.

(** The loop that writes the serial types and the contents. *)
Fixpoint write_loop (file_format : Z) (pRecs : list Mem) : outcome (list Z * list Z) :=
  match pRecs with
  | [] => Ret ([], [])
  | pRec :: pRecs' =>
      serial_type ← sqlite3VdbeSerialType pRec file_format;
      content ← sqlite3VdbeSerialPut pRec serial_type;
      '(types, contents) ← write_loop file_format pRecs';
      Ret (putVarint32 serial_type ++ types, content ++ contents)
  end.

Inductive make_result := TooBig | NoMem | Made (pOut : Mem).

(** OP_MakeRecord, once the affinities are applied: the output register and the
    input registers.  [grow] is whether its buffer can be allocated. *)
Definition OP_MakeRecord (limit file_format : Z) (grow : bool) (pRecs : list Mem)
    : outcome (make_result * list Mem) :=
  '(nData, nHdr, nZero, pRecs) ← size_loop file_format (rev pRecs) 0 0 0 [];
  let nHdr := add_header_varint nHdr in
  let nByte := nHdr + nData in
  if limit <? nByte then Ret (TooBig, pRecs)
  else if negb grow then Ret (NoMem, pRecs)
  else
    '(types, contents) ← write_loop file_format pRecs;
    let hdr := putVarint32 nHdr ++ types in
    _ ← c_assert (Z.of_nat (length hdr) =? nHdr);
    _ ← c_assert (nHdr + Z.of_nat (length contents) =? nByte);
    Ret (Made (MkMem (if nZero =? 0 then MEM_Blob else MEM_Blob .| MEM_Zero) nZero 0 (hdr ++ contents) nByte), pRecs).

(** ** Unpacking *)

Definition blank : Mem := MkMem 0 0 0 [] 0.

(** [while( idx<szHdr && u<p->nField && d<=nKey )], with [nField - u] cells
    left; [d] is an [int]. *)
Fixpoint unpack_loop (left : nat) (nKey : Z) (aKey : list Z) (szHdr idx d : Z) : outcome (list Mem) :=
  if (idx <? szHdr) && (d <=? nKey) then
    match left with
    | O => Ret []
    | S left' =>
        p ← ptr aKey idx;
        '(serial_type, n) ← getVarint32 p;
        let idx := u32 (idx + n) in
        p ← ptr aKey d;
        '(m, len) ← sqlite3VdbeSerialGet p serial_type blank;
        let d := i32 (u32 (d + len)) in
        ms ← unpack_loop left' nKey aKey szHdr idx d;
        Ret (m :: ms)
    end
  else Ret [].

(** [sqlite3VdbeRecordUnpack]: the cells filled, [p->nField] of them. *)
Definition sqlite3VdbeRecordUnpack (nField : nat) (nKey : Z) (aKey : list Z) : outcome (list Mem) :=
  '(szHdr, idx) ← getVarint32 aKey;
  unpack_loop nField nKey aKey szHdr idx (i32 szHdr).

(** ** The record of a list of values *)

Definition record_types (vs : list sqlval) (ff : Z) : list Z := vs ≫= λ v, putVarint32 (value_type v ff).
Definition record_data (vs : list sqlval) (ff : Z) : list Z := vs ≫= λ v, value_data v ff.
Definition record_header (vs : list sqlval) (ff : Z) : Z :=
  add_header_varint (Z.of_nat (length (record_types vs ff))).

(** The size of the header, the serial types and the contents. *)
Definition record_bytes (vs : list sqlval) (ff : Z) : list Z :=
  putVarint32 (record_header vs ff) ++ record_types vs ff ++ record_data vs ff.

(** The values are in their ranges and the record is smaller than two
    gigabytes. *)
Definition record_ok (vs : list sqlval) (ff : Z) : Prop :=
  Forall value_ok vs ∧ Forall value_fits vs ∧ Z.of_nat (length (record_bytes vs ff)) < 2 ^ 31.

(** ** Sizes of varints *)

Lemma varint_len v : 0 ≤ v < 2 ^ 32 →
  sqlite3VarintLen v = if v <? 128 then 1 else if v <? 2 ^ 14 then 2 else if v <? 2 ^ 21 then 3
                       else if v <? 2 ^ 28 then 4 else 5.
Proof.
  intros Hv. unfold sqlite3VarintLen. change 10%nat with (5 + 5)%nat. cbn [Nat.add len_loop].
  rewrite !shiftr7. rewrite !Z.div_div by lia.
  assert (∀ k, 0 < k → (v / k =? 0) = (v <? k)) as Hk.
  { intros k Hk. destruct (Z.ltb_spec v k) as [H|H]; [by rewrite Z.div_small by lia|].
    apply Z.eqb_neq. assert (1 ≤ v / k) by (apply Z.div_le_lower_bound; lia). lia. }
  rewrite !Hk by lia. change (2 ^ 14) with 16384. change (2 ^ 21) with 2097152. change (2 ^ 28) with 268435456.
  change (128 * 128) with 16384. change (16384 * 128) with 2097152. change (2097152 * 128) with 268435456.
  change (268435456 * 128) with 34359738368.
  destruct (Z.ltb_spec v 128), (Z.ltb_spec v 16384), (Z.ltb_spec v 2097152), (Z.ltb_spec v 268435456),
    (Z.ltb_spec v 34359738368); try lia; done.
Qed.

Lemma putVarint32_shape v : 0 ≤ v < 2 ^ 32 →
  bytes_ok (putVarint32 v) ∧ Z.of_nat (length (putVarint32 v)) = sqlite3VarintLen v.
Proof.
  intros Hv. rewrite putVarint32_eq by done. destruct (sqlite3PutVarint_shape v) as (? & _ & ? & _); [lia|done].
Qed.

Lemma getVarint32_put v rest : 0 ≤ v < 2 ^ 32 → bytes_ok rest →
  getVarint32 (putVarint32 v ++ rest) = Ret (v, Z.of_nat (length (putVarint32 v))).
Proof.
  intros Hv Hr. destruct (sqlite3PutVarint_shape v) as (Hb & _ & Hl & Hg); [lia|].
  rewrite putVarint32_eq by done. rewrite getVarint32_clips by by apply Forall_app_2.
  rewrite varint_value_eq by by apply Forall_app_2. rewrite Hg. cbn [mbind outcome_bind].
  by rewrite clip32_small, Hl by lia.
Qed.

(** The first byte of a serial type below 128, or at least 128. *)
Lemma putVarint32_head v : 0 ≤ v < 2 ^ 32 →
  ∃ b z, putVarint32 v = b :: z ∧ (v < 128 → b = v ∧ z = []) ∧ (128 ≤ v → 128 ≤ b < 256).
Proof.
  intros Hv. destruct (Z.ltb_spec v 128).
  - unfold putVarint32. rewrite (proj2 (Z.ltb_lt v 0x80)) by lia. eexists _, _. split; [done|].
    split; [|lia]. intros _. split; [|done]. apply uw_small. unfold in_uw. lia.
  - destruct (putVarint32_shape v Hv) as [Hok Hl]. rewrite putVarint32_eq in * by done.
    destruct (sqlite3PutVarint_groups v) as (m & Hm & Hr & E & Hn); [lia|]. rewrite E in *.
    destruct m as [|m].
    { change (2 ^ (7 * Z.of_nat 0)) with 1 in Hr. assert (v / 128 = 0) by lia.
      pose proof (Z.div_mod v 128). pose proof (Z.mod_pos_bound v 128). lia. }
    assert (∀ k w, 0 ≤ w → ∃ b z, put_fixed (S k) w = b :: z ∧ 128 ≤ b < 256) as Hp.
    { intros k. induction k as [|k IH]; intros w Hw.
      - cbn [put_fixed app]. rewrite flagged_byte by done. pose proof (Z.mod_pos_bound w 128). eexists _, _. split; [done|lia].
      - cbn [put_fixed] in *. destruct (IH (w .>> 7)) as (b & z & Eb & ?); [by apply Z.shiftr_nonneg|].
        rewrite Eb. eexists _, _. split; [done|lia]. }
    destruct (Hp m (v / 128)) as (b & z & -> & ?); [lia|]. eexists _, _. split; [done|]. split; [lia|done].
Qed.

Lemma add_header_varint_ok h : 0 ≤ h < 2 ^ 31 →
  h < add_header_varint h ≤ h + 6 ∧ add_header_varint h = h + sqlite3VarintLen (add_header_varint h).
Proof.
  intros Hh. unfold add_header_varint. destruct (Z.leb_spec h 126).
  { split; [lia|]. rewrite varint_len by lia. rewrite (proj2 (Z.ltb_lt _ _)) by lia. done. }
  set (n := sqlite3VarintLen h).
  assert ((n = 1 ∧ h < 128) ∨ (n = 2 ∧ 128 ≤ h < 2 ^ 14) ∨ (n = 3 ∧ 2 ^ 14 ≤ h < 2 ^ 21) ∨
          (n = 4 ∧ 2 ^ 21 ≤ h < 2 ^ 28) ∨ (n = 5 ∧ 2 ^ 28 ≤ h)) as Hn.
  { subst n. rewrite varint_len by lia. repeat case_match; b2p; lia. }
  clearbody n. rewrite (varint_len (h + n)) by lia.
  destruct Hn as [[-> ?]|[[-> ?]|[[-> ?]|[[-> ?]|[-> ?]]]]]; repeat case_match; b2p; try lia;
    rewrite varint_len by lia; repeat case_match; b2p; lia.
Qed.

Lemma value_type_range v ff : value_ok v → value_fits v → 0 ≤ value_type v ff < 2 ^ 32.
Proof.
  unfold value_fits. destruct v as [|i|x|b|b]; cbn [value_ok value_type value_bytes]; intros Hv Hf; try lia.
  pose proof (int_serial_type_range i ff Hv). lia.
Qed.

Lemma record_types_ok vs ff : Forall value_ok vs → Forall value_fits vs → bytes_ok (record_types vs ff).
Proof.
  intros Hv. induction Hv as [|v vs Hv Hvs IH]; intros Hf; [constructor|]. apply list.Forall_cons in Hf as [Hf Hfs].
  cbn [record_types mbind list_bind]. apply Forall_app_2; [|by apply IH].
  by apply putVarint32_shape, value_type_range.
Qed.

Lemma value_data_ok v ff : value_ok v → bytes_ok (value_data v ff).
Proof. destruct v; cbn [value_ok value_data]; intros Hv; try done; [constructor|apply be_bytes_ok|apply be_bytes_ok]. Qed.

Lemma record_data_ok vs ff : Forall value_ok vs → bytes_ok (record_data vs ff).
Proof.
  induction 1 as [|v vs Hv Hvs IH]; [constructor|]. cbn [record_data mbind list_bind].
  apply Forall_app_2; [by apply value_data_ok|done].
Qed.

(** The header of a record counts itself. *)
Lemma record_header_ok vs ff : record_ok vs ff →
  let h := record_header vs ff in
  Z.of_nat (length (putVarint32 h)) + Z.of_nat (length (record_types vs ff)) = h ∧ 0 < h < 2 ^ 31 ∧
  Z.of_nat (length (record_bytes vs ff)) = h + Z.of_nat (length (record_data vs ff)).
Proof.
  intros (_ & _ & Hl) h. unfold record_bytes in *. rewrite !length_app in *.
  pose proof (add_header_varint_ok (Z.of_nat (length (record_types vs ff)))) as [Hr He]; [lia|].
  fold (record_header vs ff) in *. fold h in Hr, He, Hl |- *.
  destruct (putVarint32_shape h) as [_ Hp]; [lia|]. lia.
Qed.

(** ** MakeRecord *)

Lemma land_lnot_tag m : tag m = MEM_Blob .| MEM_Zero →
  (mflags m .& Z.lnot (MEM_Zero .| MEM_Term)) .& 0x401f = MEM_Blob.
Proof.
  unfold tag. intros Ht. rewrite <- Z.land_assoc, (Z.land_comm (Z.lnot _)), Z.land_assoc, Ht. done.
Qed.

Lemma ExpandBlob_value m v : mem_is m v → value_fits v → has m MEM_Zero = true →
  ∃ m', sqlite3VdbeMemExpandBlob m = Ret m' ∧ mem_is m' v ∧ zero_tail m' = 0.
Proof.
  intros Hm Hf. unfold value_fits in Hf. destruct Hm as [Ht|Ht|Ht|b Ht|b Ht|b Ht Hb Hok Hz]; tags; try done.
  intros _. unfold sqlite3VdbeMemExpandBlob. tags. cbn [c_assert mbind outcome_bind value_bytes] in *.
  apply read_bytes_Ret in Hb as Hb'. destruct Hb' as (_ & _ & Hl). rewrite length_app, length_replicate in Hf.
  rewrite chk32_ok by lia. cbn [mbind outcome_bind]. rewrite Hb. cbn [mbind outcome_bind].
  eexists. split; [done|]. split.
  - apply is_blob; [by apply land_lnot_tag| |].
    + cbn [mz mn]. replace (mn m + u_i m) with (Z.of_nat (length (b ++ replicate (Z.to_nat (u_i m)) 0)))
        by (rewrite length_app, length_replicate; lia).
      rewrite <- (app_nil_r (b ++ _)) at 1. apply read_bytes_app.
    + apply (mem_is_ok m (SBlob _)). by apply is_zeroblob.
  - unfold zero_tail. rewrite has_tag by reflexivity. unfold tag. cbn [mflags]. by rewrite land_lnot_tag.
Qed.

(** The registers [ms] hold the values [vs] and their sizes are known. *)
Definition sized (ff : Z) (ms : list Mem) (vs : list sqlval) (nData nHdr nZero : Z) : Prop :=
  ∃ contents, write_loop ff ms = Ret (record_types vs ff, contents) ∧
    contents ++ replicate (Z.to_nat nZero) 0 = record_data vs ff ∧ nData = Z.of_nat (length contents) ∧
    nHdr = Z.of_nat (length (record_types vs ff)) ∧ 0 ≤ nZero ∧ Forall2 mem_is ms vs.

(** One more field in front, its unwritten zeros allowed if nothing follows. *)
Lemma sized_cons ff m v p ms vs nData nHdr nZero : mem_is m v → value_fits v →
  sqlite3VdbeSerialPut m (value_type v ff) = Ret p → value_data v ff = p ++ replicate (Z.to_nat (zero_tail m)) 0 →
  0 ≤ zero_tail m → (zero_tail m = 0 ∨ nData = 0) → sized ff ms vs nData nHdr nZero →
  sized ff (m :: ms) (v :: vs) (nData + Z.of_nat (length p)) (nHdr + Z.of_nat (length (putVarint32 (value_type v ff))))
    (zero_tail m + nZero).
Proof.
  intros Hm Hf Hp Hd Ht Hz (c & Hw & Hc & -> & -> & Hnz & Hms). exists (p ++ c). cbn [write_loop].
  rewrite (SerialType_value m v) by done. cbn [mbind outcome_bind]. rewrite Hp. cbn [mbind outcome_bind]. rewrite Hw.
  cbn [mbind outcome_bind record_types record_data list_bind]. fold (record_types vs ff) (record_data vs ff).
  split; [done|]. split; [|rewrite !length_app; split; [lia|]; split; [lia|]; split; [lia|by constructor]].
  rewrite <- Hc, Hd, <- !app_assoc. f_equal. rewrite Z2Nat.inj_add, replicate_add by done. destruct Hz as [-> | Hz]; [done|].
  destruct c; [|simpl in Hz; lia]. done.
Qed.

Lemma zero_tail_nonneg m v : mem_is m v → 0 ≤ zero_tail m.
Proof. unfold zero_tail. destruct 1; tags; lia. Qed.

Lemma record_app vs ws ff :
  record_types (vs ++ ws) ff = record_types vs ff ++ record_types ws ff ∧
  record_data (vs ++ ws) ff = record_data vs ff ++ record_data ws ff.
Proof. split; apply bind_app. Qed.

Lemma size_loop_sized ff : ∀ rms rvs, Forall2 mem_is rms rvs → Forall value_fits rvs → ∀ ms vs nData nHdr nZero,
  sized ff ms vs nData nHdr nZero →
  Z.of_nat (length (record_types (rev rvs ++ vs) ff)) + Z.of_nat (length (record_data (rev rvs ++ vs) ff)) < 2 ^ 31 →
  ∃ nData' nHdr' nZero' ms', size_loop ff rms nData nHdr nZero ms = Ret (nData', nHdr', nZero', ms') ∧
    sized ff ms' (rev rvs ++ vs) nData' nHdr' nZero'.
Proof.
  induction 1 as [|m v rms rvs Hm Hms IH]; intros Hf ms vs nData nHdr nZero Hs Hb.
  { eexists _, _, _, _. split; [done|]. done. }
  apply list.Forall_cons in Hf as [Hf Hfs]. cbn [rev] in *. rewrite <- app_assoc in *. cbn [app] in *. cbn [size_loop].
  rewrite (SerialType_value m v) by done. cbn [mbind outcome_bind].
  pose proof (value_type_range v ff (mem_is_ok _ _ Hm) Hf) as Hty.
  destruct (putVarint32_shape (value_type v ff) Hty) as [_ Hpl].
  assert ((if value_type v ff <=? 127 then 1 else sqlite3VarintLen (value_type v ff))
    = Z.of_nat (length (putVarint32 (value_type v ff)))) as ->.
  { rewrite Hpl, varint_len by lia. destruct (Z.leb_spec (value_type v ff) 127); [|done].
    by rewrite (proj2 (Z.ltb_lt _ _)) by lia. }
  pose proof (zero_tail_nonneg m v Hm) as Hz. destruct (SerialPut_value m v ff Hm Hf) as (p & Hp & Hd).
  pose proof (SerialTypeLen_value v ff (λ i, mem_is_int m v i Hm)) as Hlen.
  destruct Hs as (c & Hw & Hc & Hn1 & Hn2 & Hnz & Hmvs). assert (sized ff ms vs nData nHdr nZero) as Hs by (by exists c).
  destruct (record_app (rev rvs) (v :: vs) ff) as [Et Ed]. pose proof Hb as Hb0. rewrite Et, Ed in Hb. cbn [record_types record_data mbind list_bind] in Hb.
  fold (record_types vs ff) (record_data vs ff) in Hb. rewrite !length_app in Hb.
  assert (length (record_data vs ff) = length c + Z.to_nat nZero)%nat as Hcl by (rewrite <- Hc, length_app, length_replicate; lia).
  assert (length (value_data v ff) = length p + Z.to_nat (zero_tail m))%nat as Hvl by (rewrite Hd, length_app, length_replicate; lia).
  destruct (has m MEM_Zero) eqn:Ez.
  - assert (zero_tail m = u_i m) as Eu by (unfold zero_tail; by rewrite Ez).
    destruct (Z.eqb_spec nData 0) as [E0|E0]; cbn [negb].
    + rewrite chk32_ok by lia. cbn [mbind outcome_bind]. rewrite chk32_ok by lia. cbn [mbind outcome_bind].
      rewrite uw_small by (unfold in_uw; lia).
      replace (nData + (sqlite3VdbeSerialTypeLen (value_type v ff) - u_i m)) with (nData + Z.of_nat (length p)) by lia.
      replace (nZero + u_i m) with (zero_tail m + nZero) by lia.
      apply IH; [done| |exact Hb0].
      by apply sized_cons; auto.
    + destruct (ExpandBlob_value m v Hm Hf Ez) as (m' & -> & Hm' & Hz'). cbn [mbind outcome_bind].
      rewrite chk32_ok by lia. cbn [mbind outcome_bind]. rewrite uw_small by (unfold in_uw; lia).
      destruct (SerialPut_value m' v ff Hm' Hf) as (p' & Hp' & Hd'). pose proof Hd' as Hd''. rewrite Hz' in Hd'.
      cbn in Hd'. rewrite app_nil_r in Hd'.
      replace (sqlite3VdbeSerialTypeLen (value_type v ff)) with (Z.of_nat (length p')) by (rewrite Hlen, Hd'; done).
      replace nZero with (zero_tail m' + nZero) by lia.
      apply IH; [done| |exact Hb0].
      apply sized_cons; auto; lia.
  - assert (zero_tail m = 0) as Eu by (unfold zero_tail; by rewrite Ez).
    cbn [mbind outcome_bind]. rewrite chk32_ok by lia. cbn [mbind outcome_bind]. rewrite uw_small by (unfold in_uw; lia).
    replace (sqlite3VdbeSerialTypeLen (value_type v ff)) with (Z.of_nat (length p)) by lia.
    replace nZero with (zero_tail m + nZero) by lia.
    apply IH; [done| |exact Hb0].
    by apply sized_cons; auto.
Qed.

Lemma record_bytes_ok vs ff : record_ok vs ff → bytes_ok (record_bytes vs ff).
Proof.
  intros H. pose proof (record_header_ok vs ff H) as (_ & Hh & _). destruct H as (Hv & Hf & _).
  unfold record_bytes. apply Forall_app_2; [apply putVarint32_shape; lia|].
  apply Forall_app_2; [by apply record_types_ok|by apply record_data_ok].
Qed.

(** The output register holds the record. *)
Lemma MakeRecord_value limit ff ms vs :
  Forall2 mem_is ms vs → record_ok vs ff → Z.of_nat (length (record_bytes vs ff)) ≤ limit →
  ∃ out ms', OP_MakeRecord limit ff true ms = Ret (Made out, ms') ∧ mem_is out (SBlob (record_bytes vs ff)).
Proof.
  intros Hms Hok Hlim. pose proof (record_header_ok vs ff Hok) as (Hhdr & Hh & Hlen).
  pose proof (record_bytes_ok vs ff Hok) as Hbytes. pose proof Hok as (_ & Hf & Hl).
  destruct (size_loop_sized ff (rev ms) (rev vs)) with (ms := @nil Mem) (vs := @nil sqlval) (nData := 0) (nHdr := 0) (nZero := 0)
    as (nData & nHdr & nZero & ms' & E & c & Hw & Hc & -> & -> & Hz & Hms').
  { rewrite !rev_alt. by apply Forall2_reverse. }
  { by apply Forall_rev. }
  { exists []. repeat split; done. }
  { rewrite rev_involutive, app_nil_r. lia. }
  rewrite rev_involutive, app_nil_r in *. fold (record_header vs ff) in *.
  assert (length (record_data vs ff) = length c + Z.to_nat nZero)%nat as Hdl by (rewrite <- Hc, length_app, length_replicate; done).
  unfold OP_MakeRecord. rewrite E. cbn [mbind outcome_bind]. fold (record_header vs ff).
  rewrite (proj2 (Z.ltb_ge _ _)) by lia. cbn [negb]. rewrite Hw. cbn [mbind outcome_bind].
  rewrite length_app, Nat2Z.inj_add, Hhdr, !Z.eqb_refl. cbn [c_assert mbind outcome_bind].
  eexists _, _. split; [done|].
  assert (record_bytes vs ff = ((putVarint32 (record_header vs ff) ++ record_types vs ff) ++ c) ++ replicate (Z.to_nat nZero) 0) as Er
    by (unfold record_bytes; rewrite <- Hc, <- !app_assoc; done).
  rewrite Er in *. apply Forall_app in Hbytes as [Hbytes _]. set (b := _ ++ c) in *.
  assert (read_bytes b (record_header vs ff + Z.of_nat (length c)) = Ret b) as Hread.
  { replace (record_header vs ff + Z.of_nat (length c)) with (Z.of_nat (length b)).
    - rewrite <- (app_nil_r b) at 1. apply read_bytes_app.
    - subst b. rewrite length_app, length_app. lia. }
  destruct (Z.eqb_spec nZero 0) as [->|Hnz].
  - rewrite app_nil_r. by apply is_blob.
  - by apply (is_zeroblob (MkMem (MEM_Blob .| MEM_Zero) nZero 0 b (record_header vs ff + Z.of_nat (length c)))).
Qed.

(** ** Unpacking *)

Lemma ptr_app a A X : a = A ++ X → ptr a (Z.of_nat (length A)) = Ret X.
Proof.
  intros ->. unfold ptr. rewrite (proj2 (Z.leb_le _ _)), (proj2 (Z.leb_le _ _)) by (rewrite ?length_app; lia).
  by rewrite Nat2Z.id, drop_app_length.
Qed.

Lemma unpack_loop_values ff nKey aKey szHdr : bytes_ok aKey → 0 ≤ szHdr < 2 ^ 32 → nKey < 2 ^ 31 →
  ∀ vs k A B C D, Forall value_ok vs → Forall value_fits vs →
  aKey = A ++ record_types vs ff ++ B → aKey = C ++ record_data vs ff ++ D →
  szHdr = Z.of_nat (length A + length (record_types vs ff)) →
  Z.of_nat (length C + length (record_data vs ff)) ≤ nKey →
  ∃ ms, unpack_loop k nKey aKey szHdr (Z.of_nat (length A)) (Z.of_nat (length C)) = Ret ms ∧
    Forall2 mem_is ms (take k vs) ∧ Forall (λ m, zero_tail m = 0) ms.
Proof.
  intros Hkey Hsz Hnk vs. induction vs as [|v vs IH]; intros k A B C D Hv Hf Ea Ec Hs Hd.
  { exists []. destruct k; cbn [unpack_loop]; rewrite (proj2 (Z.ltb_ge _ _)) by (simpl in Hs; lia);
      (split; [done|]; split; constructor). }
  apply list.Forall_cons in Hv as [Hv Hvs]. apply list.Forall_cons in Hf as [Hf Hfs].
  cbn [record_types record_data mbind list_bind] in *. fold (record_types vs ff) (record_data vs ff) in *.
  rewrite !length_app in *. pose proof (value_type_range v ff Hv Hf) as Hty.
  destruct (putVarint32_shape _ Hty) as [Hpo Hpl]. assert (1 ≤ sqlite3VarintLen (value_type v ff)) as Hp1
    by (rewrite varint_len by done; repeat case_match; lia).
  destruct k as [|k]; cbn [unpack_loop]; rewrite (proj2 (Z.ltb_lt _ _)), (proj2 (Z.leb_le _ _)) by lia; cbn [andb].
  { exists []. split; [done|]. split; constructor. }
  rewrite <- app_assoc in Ea, Ec. rewrite (ptr_app _ _ _ Ea). cbn [mbind outcome_bind].
  rewrite getVarint32_put; [|done|rewrite Ea in Hkey; apply Forall_app in Hkey as [_ Hkey]; by apply Forall_app in Hkey as [_ Hkey]].
  cbn [mbind outcome_bind]. rewrite (ptr_app _ _ _ Ec). cbn [mbind outcome_bind].
  destruct (SerialGet_value v ff (record_data vs ff ++ D) blank Hv Hf) as (m & -> & Hm & Hz). cbn [mbind outcome_bind].
  rewrite (uw_small 32 (Z.of_nat (length A) + _)) by (unfold in_uw; lia).
  rewrite (uw_small 32 (Z.of_nat (length C) + _)) by (unfold in_uw; lia).
  rewrite sw_small by (try lia; unfold in_sw; lia). rewrite <- !Nat2Z.inj_add, <- !length_app.
  destruct (IH k (A ++ putVarint32 (value_type v ff)) B (C ++ value_data v ff) D) as (ms & -> & H2 & H3);
    [done|done|by rewrite <- app_assoc|by rewrite <- app_assoc|rewrite length_app; lia|rewrite length_app; lia|].
  exists (m :: ms). split; [done|]. split; by constructor.
Qed.

(** A record and whatever follows it in memory. *)
Lemma RecordUnpack_values vs ff k pad : record_ok vs ff → bytes_ok pad →
  ∃ ms, sqlite3VdbeRecordUnpack k (Z.of_nat (length (record_bytes vs ff))) (record_bytes vs ff ++ pad) = Ret ms ∧
    Forall2 mem_is ms (take k vs) ∧ Forall (λ m, zero_tail m = 0) ms.
Proof.
  intros Hok Hpad. pose proof (record_header_ok vs ff Hok) as (Hhdr & Hh & Hlen).
  pose proof (record_bytes_ok vs ff Hok) as Hb. assert (bytes_ok (record_bytes vs ff ++ pad)) as Hb2 by by apply Forall_app_2.
  destruct Hok as (Hv & Hf & Hl). unfold sqlite3VdbeRecordUnpack.
  set (h := record_header vs ff) in *.
  assert (record_bytes vs ff ++ pad = putVarint32 h ++ record_types vs ff ++ record_data vs ff ++ pad) as E
    by (unfold record_bytes; by rewrite <- !app_assoc).
  rewrite E in Hb2 |- *. rewrite getVarint32_put; [|lia|by apply Forall_app in Hb2 as [_ Hb2]]. cbn [mbind outcome_bind].
  rewrite sw_small by (try lia; unfold in_sw; lia).
  destruct (unpack_loop_values ff (Z.of_nat (length (record_bytes vs ff))) _ h Hb2 ltac:(lia) Hl vs k (putVarint32 h)
    (record_data vs ff ++ pad) (putVarint32 h ++ record_types vs ff) pad) as (ms & Hu & Hms & Hz); try done; try lia.
  - by rewrite <- !app_assoc.
  - rewrite length_app. lia.
  - exists ms. split; [|done]. rewrite <- Hu. f_equal. rewrite length_app. lia.
Qed.

(** C37: MakeRecord followed by [sqlite3VdbeRecordUnpack] gives the values back:
    for registers that hold any values of a record below two gigabytes and the
    length limit, the sizes computed in the first pass are those written in the
    second (its assertions hold), the header counts its own varint, the zeros
    at the end of trailing blobs are kept as a count, and unpacking the record,
    whatever follows it in memory, fills as many cells as asked for with the
    values in order. *)
Theorem OP_MakeRecord_unpack limit ff ms vs pad :
  Forall2 mem_is ms vs → record_ok vs ff → Z.of_nat (length (record_bytes vs ff)) ≤ limit → bytes_ok pad →
  ∃ out ms' b, OP_MakeRecord limit ff true ms = Ret (Made out, ms') ∧ mem_is out (SBlob b) ∧
    ∀ k, ∃ us, sqlite3VdbeRecordUnpack k (Z.of_nat (length b)) (b ++ pad) = Ret us ∧ Forall2 mem_is us (take k vs).
Proof.
  intros Hms Hok Hlim Hpad. destruct (MakeRecord_value limit ff ms vs Hms Hok Hlim) as (out & ms' & E & Hout).
  exists out, ms', (record_bytes vs ff). split; [done|]. split; [done|]. intros k.
  destruct (RecordUnpack_values vs ff k pad Hok Hpad) as (us & ? & ? & _). eauto.
Qed.

Lemma OP_MakeRecord_unpack_witness :
  let ms := [MkMem MEM_Int 1 0 [] 0; MkMem MEM_Str 0 0 [97; 98] 2; MkMem (MEM_Blob .| MEM_Zero) 3 0 [] 0] in
  ∃ out ms' b, OP_MakeRecord 100 4 true ms = Ret (Made out, ms') ∧ mem_is out (SBlob b) ∧
    ∀ k, ∃ us, sqlite3VdbeRecordUnpack k (Z.of_nat (length b)) (b ++ [1; 2]) = Ret us ∧
      Forall2 mem_is us (take k [SInt 1; SText [97; 98]; SBlob [0; 0; 0]]).
Proof.
  intros ms. apply (OP_MakeRecord_unpack 100 4 ms [SInt 1; SText [97; 98]; SBlob [0; 0; 0]] [1; 2]).
  - constructor; [by apply (is_int (MkMem MEM_Int 1 0 [] 0))|].
    constructor; [apply is_text; [done|done|repeat constructor; lia]|]. constructor; [|constructor].
    by apply (is_zeroblob (MkMem (MEM_Blob .| MEM_Zero) 3 0 [] 0) []); [done|done|constructor|].
  - split; [repeat constructor; lia|]. split; [repeat constructor; done|]. vm_compute. reflexivity.
  - vm_compute. discriminate.
  - repeat constructor; lia.
Defined.

(** The length limit does not count the zeros kept as a count: with a limit of
    a billion bytes, a record of two blobs of a billion zeros is accepted, and
    the count of the zeros of three of them overflows an [int]. *)
Theorem OP_MakeRecord_zeros :
  let limit := 1000000000 in
  let z := MkMem (MEM_Blob .| MEM_Zero) limit 0 [] 0 in
  (∃ out, OP_MakeRecord limit 4 true [z; z] = Ret (Made out, [z; z]) ∧ mn out + u_i out = 2 * limit + 11) ∧
  OP_MakeRecord limit 4 true [z; z; z] = Undef SignedOverflow.
Proof. split; [eexists; split; vm_compute; reflexivity|reflexivity]. Qed.

(** ** Corrupt headers *)

Lemma getVarint32_fault p f : bytes_ok p → getVarint32 p = Undef f → f = OutOfBounds.
Proof.
  intros Hp. rewrite getVarint32_clips, varint_value_eq by done. unfold varint_value.
  assert (∀ n v k, ref_get n v k p = Undef f → f = OutOfBounds) as H.
  { induction Hp as [|b p Hb Hp IH]; intros n v k E; destruct n; cbn [ref_get] in E; try congruence.
    destruct (b <? 128); [done|]. by eapply IH. }
  intros E. destruct (ref_get 8 0 0 p) as [[v n]|f'] eqn:E'; [done|]. apply (H 8%nat 0 0). cbn in E. congruence.
Qed.

Lemma getVarint32_range p v n : bytes_ok p → getVarint32 p = Ret (v, n) → 0 ≤ v < 2 ^ 32 ∧ 1 ≤ n ≤ 9.
Proof.
  intros Hp. rewrite getVarint32_clips, varint_value_eq by done. unfold varint_value.
  destruct (ref_get 8 0 0 p) as [[v' n']|] eqn:E; [|done]. apply ref_get_bounds in E; [|done|lia].
  intros E'. cbn in E'. simplify_eq. unfold clip32. destruct (Z.ltb_spec v' (2 ^ 32)); lia.
Qed.

(** A header size of two gigabytes or more, which only a corrupt record has,
    makes [sqlite3VdbeRecordUnpack] read the first field before the start of the
    record: the size is kept in an [int], where it is negative and passes the
    test against the size of the record. *)
Theorem sqlite3VdbeRecordUnpack_negative nField nKey aKey szHdr idx :
  bytes_ok aKey → getVarint32 aKey = Ret (szHdr, idx) → 2 ^ 31 ≤ szHdr → 0 ≤ nKey →
  sqlite3VdbeRecordUnpack (S nField) nKey aKey = Undef OutOfBounds.
Proof.
  intros Hb E Hs Hn. destruct (getVarint32_range _ _ _ Hb E) as [Hv Hi]. unfold sqlite3VdbeRecordUnpack. rewrite E.
  cbn [mbind outcome_bind unpack_loop].
  assert (i32 szHdr = szHdr - 2 ^ 32) as ->.
  { rewrite <- (sw_small 32 (szHdr - 2 ^ 32)) by (try lia; unfold in_sw; lia). unfold sw.
    replace (szHdr - 2 ^ 32 + 2 ^ (32 - 1)) with (szHdr + 2 ^ (32 - 1) + (-1) * 2 ^ 32) by lia.
    by rewrite Z.mod_add by lia. }
  rewrite (proj2 (Z.ltb_lt _ _)), (proj2 (Z.leb_le _ _)) by lia. cbn [andb].
  unfold ptr. destruct ((0 <=? idx) && (idx <=? Z.of_nat (length aKey))); [|done]. cbn [mbind outcome_bind].
  destruct (getVarint32 (drop (Z.to_nat idx) aKey)) as [[st n]|f] eqn:E2.
  - cbn [mbind outcome_bind]. rewrite (proj2 (Z.leb_gt 0 _)) by lia. done.
  - apply getVarint32_fault in E2; [by subst|]. by apply Forall_drop.
Qed.

Lemma sqlite3VdbeRecordUnpack_negative_witness :
  sqlite3VdbeRecordUnpack 2 8 [0x88; 0x80; 0x80; 0x80; 0x00; 1; 7; 7] = Undef OutOfBounds.
Proof.
  apply (sqlite3VdbeRecordUnpack_negative 1 8 [0x88; 0x80; 0x80; 0x80; 0x00; 1; 7; 7] (2 ^ 31) 5);
    [repeat constructor; lia|reflexivity|lia|lia].
Defined.
