(* ===== verification/RecordCompare.v ===== *)
(** * Comparing records

    Models the comparison of a stored record with an unpacked one in
    src/vdbeaux.c: [vdbeRecordCompareDebug], which decodes every field, and the
    routines the B-tree uses, [sqlite3VdbeRecordCompare] with its variants
    [vdbeRecordCompareInt] and [vdbeRecordCompareString] that
    [sqlite3VdbeFindCompare] selects; and [sqlite3VdbeIdxRowid]. *)

From S2P Require Import Prelude Numbers Utf Varint Serial Record.
#[local] Open Scope Z_scope.
#[local] Open Scope c_scope.
#[local] Open Scope list_scope.

(** ** The code *)

Record KeyInfo := MkKeyInfo {
  kenc : Z; kFields : Z (* nField + nXField *); aColl : list (option CollSeq); aSortOrder : list bool }.

(** [aMem] are the first [nField] cells. *)
Record UnpackedRecord := MkUnpacked {
  pKeyInfo : KeyInfo; aMem : list Mem; default_rc : Z; r1 : Z; r2 : Z }.

Definition at_index {A} (l : list A) (i : Z) : outcome A :=
  match zlookup l i with Some x => Ret x | None => Undef OutOfBounds end.

(** The result of a field in the sort order of its column. *)
Definition in_order (k : KeyInfo) (i rc : Z) : outcome Z :=
  desc ← at_index (aSortOrder k) i; Ret (if (desc : bool) then - rc else rc).

(** [vdbeRecordCompareDebug] from its loop on; [ms] are the cells from the
    [i]-th. *)
Fixpoint debug_loop (nKey1 : Z) (aKey1 : list Z) (p : UnpackedRecord) (szHdr1 : Z)
    (ms : list Mem) (i idx1 d1 : Z) : outcome Z :=
  match ms with
  | [] => Undef OutOfBounds
  | pRhs :: ms' =>
      q ← ptr aKey1 idx1;
      '(serial_type1, n) ← getVarint32 q;
      let idx1 := u32 (idx1 + n) in
      if (u32 nKey1 <? u32 (d1 + serial_type1 + 2)) &&
         (u32 nKey1 <? u32 (d1 + sqlite3VdbeSerialTypeLen serial_type1)) then Ret (default_rc p)
      else
        q ← ptr aKey1 d1;
        '(mem1, len) ← sqlite3VdbeSerialGet q serial_type1 blank;
        let d1 := u32 (d1 + len) in
        coll ← at_index (aColl (pKeyInfo p)) i;
        rc ← sqlite3MemCompare (kenc (pKeyInfo p)) mem1 pRhs coll;
        if negb (rc =? 0) then in_order (pKeyInfo p) i rc
        else if (idx1 <? szHdr1) && negb (bool_decide (ms' = []))
        then debug_loop nKey1 aKey1 p szHdr1 ms' (i + 1) idx1 d1
        else Ret (default_rc p)
  end.

Definition vdbeRecordCompareDebug (nKey1 : Z) (aKey1 : list Z) (p : UnpackedRecord) : outcome Z :=
  '(szHdr1, idx1) ← getVarint32 aKey1;
  debug_loop nKey1 aKey1 p szHdr1 (aMem p) 0 idx1 szHdr1.

Definition vdbeRecordDecodeInt (serial_type : Z) (aKey : list Z) : outcome Z :=
  if (serial_type =? 0) || (serial_type =? 1) then ONE_BYTE_INT aKey
  else if serial_type =? 2 then TWO_BYTE_INT aKey
  else if serial_type =? 3 then THREE_BYTE_INT aKey
  else if serial_type =? 4 then four_byte_int aKey
  else if serial_type =? 5 then six_byte_int aKey
  else if serial_type =? 6 then x ← eight_bytes aKey; Ret (sw 64 x)
  else Ret (u32 (serial_type - 8)).

(** The bytes at [&aKey1[d1]] against those of a cell, then the lengths. *)
Definition compare_content (q : list Z) (n : Z) (pRhs : Mem) : outcome Z :=
  rc ← memcmp q (mz pRhs) (Z.min n (mn pRhs));
  if rc =? 0 then chk32 (n - mn pRhs) else Ret rc.

(** The body of the loop up to the test of [rc]: [rc] and [serial_type]. *)
Definition compare_field (nKey1 : Z) (aKey1 : list Z) (p : UnpackedRecord) (pRhs : Mem) (i idx1 d1 : Z)
    : outcome (Z * Z) :=
  if has pRhs MEM_Int then
    serial_type ← byte_at aKey1 idx1;
    if 12 <=? serial_type then Ret (1, serial_type)
    else if serial_type =? 0 then Ret (-1, serial_type)
    else if serial_type =? 7 then
      let rhs := int_to_double (u_i pRhs) in
      q ← ptr aKey1 d1;
      '(mem1, _) ← sqlite3VdbeSerialGet q serial_type blank;
      Ret (compare_doubles (mr mem1) rhs, serial_type)
    else q ← ptr aKey1 d1; lhs ← vdbeRecordDecodeInt serial_type q; Ret (compare_ints lhs (u_i pRhs), serial_type)
  else if has pRhs MEM_Real then
    serial_type ← byte_at aKey1 idx1;
    if 12 <=? serial_type then Ret (1, serial_type)
    else if serial_type =? 0 then Ret (-1, serial_type)
    else if (serial_type =? 10) || (serial_type =? 11) then Undef Uninitialized
    else
      q ← ptr aKey1 d1;
      '(mem1, _) ← sqlite3VdbeSerialGet q serial_type blank;
      let lhs := if serial_type =? 7 then mr mem1 else int_to_double (u_i mem1) in
      Ret (compare_doubles lhs (mr pRhs), serial_type)
  else if has pRhs MEM_Str then
    h ← ptr aKey1 idx1;
    '(serial_type, _) ← getVarint32 h;
    if serial_type <? 12 then Ret (-1, serial_type)
    else if serial_type .& 1 =? 0 then Ret (1, serial_type)
    else
      let n := (serial_type - 12) / 2 in
      if u32 nKey1 <? u32 (d1 + n) then Ret (1, serial_type)
      else
        q ← ptr aKey1 d1;
        coll ← at_index (aColl (pKeyInfo p)) i;
        rc ← match coll with
             | Some c => vdbeCompareMemString (kenc (pKeyInfo p)) (MkMem MEM_Str 0 0 q n) pRhs c
             | None => compare_content q n pRhs
             end;
        Ret (rc, serial_type)
  else if has pRhs MEM_Blob then
    h ← ptr aKey1 idx1;
    '(serial_type, _) ← getVarint32 h;
    if (serial_type <? 12) || negb (serial_type .& 1 =? 0) then Ret (-1, serial_type)
    else
      let nStr := (serial_type - 12) / 2 in
      if u32 nKey1 <? u32 (d1 + nStr) then Ret (1, serial_type)
      else q ← ptr aKey1 d1; rc ← compare_content q nStr pRhs; Ret (rc, serial_type)
  else
    serial_type ← byte_at aKey1 idx1;
    Ret (if serial_type =? 0 then 0 else 1, serial_type).

Fixpoint compare_loop (nKey1 : Z) (aKey1 : list Z) (p : UnpackedRecord) (szHdr1 : Z)
    (ms : list Mem) (i idx1 d1 : Z) : outcome Z :=
  match ms with
  | [] => Undef OutOfBounds
  | pRhs :: ms' =>
      '(rc, serial_type) ← compare_field nKey1 aKey1 p pRhs i idx1 d1;
      if negb (rc =? 0) then in_order (pKeyInfo p) i rc
      else
        let d1 := u32 (d1 + sqlite3VdbeSerialTypeLen serial_type) in
        let idx1 := u32 (idx1 + sqlite3VarintLen serial_type) in
        if (idx1 <? szHdr1) && negb (bool_decide (ms' = [])) && (d1 <=? u32 nKey1)
        then compare_loop nKey1 aKey1 p szHdr1 ms' (i + 1) idx1 d1
        else Ret (default_rc p)
  end.

Definition sqlite3VdbeRecordCompare (nKey1 : Z) (aKey1 : list Z) (p : UnpackedRecord) (bSkip : bool) : outcome Z :=
  if bSkip then
    q ← ptr aKey1 1;
    '(s1, n) ← getVarint32 q;
    szHdr1 ← byte_at aKey1 0;
    let d1 := u32 (szHdr1 + sqlite3VdbeSerialTypeLen s1) in
    compare_loop nKey1 aKey1 p szHdr1 (List.tl (aMem p)) 1 (1 + n) d1
  else
    '(szHdr1, idx1) ← getVarint32 aKey1;
    if u32 nKey1 <? szHdr1 then Ret 1
    else compare_loop nKey1 aKey1 p szHdr1 (aMem p) 0 idx1 szHdr1.

(** [res] from the comparison of the first fields: [r1] if the unpacked one is
    greater, [r2] if it is less. *)
Definition vdbeRecordCompareInt (nKey1 : Z) (aKey1 : list Z) (p : UnpackedRecord) : outcome Z :=
  h ← byte_at aKey1 0;
  aKey ← ptr aKey1 (h .& 0x3F);
  serial_type ← byte_at aKey1 1;
  m ← at_index (aMem p) 0;
  if (serial_type =? 0) || (serial_type =? 7) || (9 <? serial_type) then
    sqlite3VdbeRecordCompare nKey1 aKey1 p false
  else
    lhs ← (if serial_type =? 8 then Ret 0 else if serial_type =? 9 then Ret 1
           else vdbeRecordDecodeInt serial_type aKey);
    if lhs <? u_i m then Ret (r1 p)
    else if u_i m <? lhs then Ret (r2 p)
    else if 1 <? Z.of_nat (length (aMem p)) then sqlite3VdbeRecordCompare nKey1 aKey1 p true
    else Ret (default_rc p).

Definition vdbeRecordCompareString (nKey1 : Z) (aKey1 : list Z) (p : UnpackedRecord) : outcome Z :=
  q ← ptr aKey1 1;
  '(serial_type, _) ← getVarint32 q;
  let serial_type := i32 serial_type in
  if serial_type <? 12 then Ret (r1 p)
  else if serial_type .& 1 =? 0 then Ret (r2 p)
  else
    szHdr ← byte_at aKey1 0;
    let nStr := Z.quot (serial_type - 12) 2 in
    end_ ← chk32 (szHdr + nStr);
    if nKey1 <? end_ then Ret 0
    else
      m ← at_index (aMem p) 0;
      q ← ptr aKey1 szHdr;
      res ← memcmp q (mz m) (Z.min (mn m) nStr);
      if res =? 0 then
        res ← chk32 (nStr - mn m);
        if res =? 0 then
          (if 1 <? Z.of_nat (length (aMem p)) then sqlite3VdbeRecordCompare nKey1 aKey1 p true
           else Ret (default_rc p))
        else if 0 <? res then Ret (r2 p) else Ret (r1 p)
      else if 0 <? res then Ret (r2 p) else Ret (r1 p).

Inductive comparer := CompareInt | CompareString | CompareAny.

(** [sqlite3VdbeFindCompare]: the function chosen, and [r1] and [r2] set. *)
Definition sqlite3VdbeFindCompare (p : UnpackedRecord) : outcome (comparer * UnpackedRecord) :=
  if kFields (pKeyInfo p) <=? 13 then
    m ← at_index (aMem p) 0;
    desc ← at_index (aSortOrder (pKeyInfo p)) 0;
    let p := if (desc : bool) then MkUnpacked (pKeyInfo p) (aMem p) (default_rc p) 1 (-1)
             else MkUnpacked (pKeyInfo p) (aMem p) (default_rc p) (-1) 1 in
    if has m MEM_Int then Ret (CompareInt, p)
    else if has m (MEM_Real .| MEM_Null .| MEM_Blob) then Ret (CompareAny, p)
    else
      coll ← at_index (aColl (pKeyInfo p)) 0;
      match coll with
      | None => _ ← c_assert (has m MEM_Str); Ret (CompareString, p)
      | Some _ => Ret (CompareAny, p)
      end
  else Ret (CompareAny, p).

Definition run_comparer (c : comparer) (nKey1 : Z) (aKey1 : list Z) (p : UnpackedRecord) : outcome Z :=
  match c with
  | CompareInt => vdbeRecordCompareInt nKey1 aKey1 p
  | CompareString => vdbeRecordCompareString nKey1 aKey1 p
  | CompareAny => sqlite3VdbeRecordCompare nKey1 aKey1 p false
  end.

(** [sqlite3VdbeIdxRowid] on the content of an index entry; [None] is
    SQLITE_CORRUPT. *)
Definition sqlite3VdbeIdxRowid (z : list Z) (n : Z) : outcome (option Z) :=
  '(szHdr, _) ← getVarint32 z;
  if (szHdr <? 3) || (n <? i32 szHdr) then Ret None else
  q ← ptr z (szHdr - 1);
  '(typeRowid, _) ← getVarint32 q;
  if (typeRowid <? 1) || (9 <? typeRowid) || (typeRowid =? 7) then Ret None else
  let lenRowid := sqlite3VdbeSerialTypeLen typeRowid in
  if u32 n <? u32 (szHdr + lenRowid) then Ret None else
  q ← ptr z (n - lenRowid);
  '(v, _) ← sqlite3VdbeSerialGet q typeRowid blank;
  Ret (Some (u_i v)).

(** ** Values *)

(** The bytes in order, then the lengths. *)
Definition bytes_compare (a b : list Z) : Z :=
  let n := Nat.min (length a) (length b) in
  let rc := compare_bytes (take n a) (take n b) in
  if rc =? 0 then Z.of_nat (length a) - Z.of_nat (length b) else rc.

Definition text_compare (enc : Z) (coll : option CollSeq) (a b : list Z) : outcome Z :=
  match coll with
  | None => Ret (bytes_compare a b)
  | Some c =>
      if enc =? coll_enc c then Ret (xCmp c a b)
      else a ← value_text enc (coll_enc c) a; b ← value_text enc (coll_enc c) b; Ret (xCmp c a b)
  end.

(** NULL, then numbers by value, then texts by the collation, then blobs. *)
Definition value_compare (enc : Z) (coll : option CollSeq) (v w : sqlval) : outcome Z :=
  match v, w with
  | SNull, SNull => Ret 0
  | SNull, _ => Ret (-1)
  | _, SNull => Ret 1
  | SInt i, SInt j => Ret (compare_ints i j)
  | SInt i, SReal y => Ret (compare_doubles (int_to_double i) y)
  | SReal x, SInt j => Ret (compare_doubles x (int_to_double j))
  | SReal x, SReal y => Ret (compare_doubles x y)
  | (SInt _ | SReal _), _ => Ret (-1)
  | _, (SInt _ | SReal _) => Ret 1
  | SText a, SText b => text_compare enc coll a b
  | SText _, SBlob _ => Ret (-1)
  | SBlob _, SText _ => Ret 1
  | SBlob a, SBlob b => Ret (bytes_compare a b)
  end.

(** The first difference decides, in the order of its column; columns only one
    side has do not count. *)
Fixpoint values_compare (k : KeyInfo) (dflt i : Z) (vs ws : list sqlval) : outcome Z :=
  match vs, ws with
  | v :: vs', w :: ws' =>
      coll ← at_index (aColl k) i;
      rc ← value_compare (kenc k) coll v w;
      if negb (rc =? 0) then in_order k i rc else values_compare k dflt (i + 1) vs' ws'
  | _, _ => Ret dflt
  end.

Lemma read_bytes_prefix p n b k : read_bytes p n = Ret b → (k ≤ length b)%nat → read_bytes p (Z.of_nat k) = Ret (take k b).
Proof.
  intros H Hk. apply read_bytes_Ret in H as (Hn & -> & Hl). rewrite length_take in Hk.
  rewrite read_bytes_take, Nat2Z.id, take_take by lia. do 2 f_equal. lia.
Qed.

Lemma compare_content_bytes q a m b : value_fits (SBlob a) → value_fits (SBlob b) →
  read_bytes q (Z.of_nat (length a)) = Ret a → read_bytes (mz m) (mn m) = Ret b →
  compare_content q (Z.of_nat (length a)) m = Ret (bytes_compare a b).
Proof.
  unfold value_fits. cbn [value_bytes]. intros Ha Hb Hq Hm.
  pose proof (read_bytes_Ret _ _ _ Hm) as (_ & _ & Hl). unfold compare_content, memcmp.
  replace (Z.min (Z.of_nat (length a)) (mn m)) with (Z.of_nat (Nat.min (length a) (length b))) by lia.
  rewrite (read_bytes_prefix _ _ _ _ Hq), (read_bytes_prefix _ _ _ _ Hm) by lia. cbn [mbind outcome_bind].
  unfold bytes_compare. rewrite <- Hl. destruct (_ =? 0); [|done]. apply chk32_ok. lia.
Qed.

Lemma compare_blobs_bytes m1 m2 a b : value_fits (SBlob a) → value_fits (SBlob b) →
  read_bytes (mz m1) (mn m1) = Ret a → read_bytes (mz m2) (mn m2) = Ret b →
  compare_blobs m1 m2 = Ret (bytes_compare a b).
Proof.
  intros Ha Hb H1 H2. pose proof (read_bytes_Ret _ _ _ H1) as (_ & _ & Hl). rewrite <- Hl in H1.
  rewrite <- (compare_content_bytes (mz m1) a m2 b) by done. unfold compare_blobs, compare_content. rewrite <- Hl.
  replace (if mn m2 <? Z.of_nat (length a) then mn m2 else Z.of_nat (length a)) with (Z.min (Z.of_nat (length a)) (mn m2))
    by (destruct (Z.ltb_spec (mn m2) (Z.of_nat (length a))); lia).
  done.
Qed.

(** Only the type bit for NULL is used in the difference of the flags. *)
Lemma null_bit m t : tag m = t → mflags m .& MEM_Null = t .& MEM_Null.
Proof. intros <-. unfold tag. by rewrite <- Z.land_assoc. Qed.

(** ** [sqlite3MemCompare] orders values *)

Lemma MemCompare_value enc coll m1 m2 v w : mem_is m1 v → mem_is m2 w → zero_tail m1 = 0 → zero_tail m2 = 0 →
  value_fits v → value_fits w → sqlite3MemCompare enc m1 m2 coll = value_compare enc coll v w.
Proof.
  intros Hm1 Hm2 Z1 Z2 F1 F2. unfold sqlite3MemCompare, mem_double, zero_tail in *.
  destruct Hm1 as [T1|T1|T1|b1 T1 B1 _|b1 T1 B1 _|b1 T1 B1 _ U1], Hm2 as [T2|T2|T2|b2 T2 B2 _|b2 T2 B2 _|b2 T2 B2 _ U2];
    revert Z1 Z2; rewrite ?(null_bit _ _ T1), ?(null_bit _ _ T2); tags; intros Z1 Z2; try done;
    rewrite ?Z1, ?Z2 in *; rewrite ?app_nil_r in *; cbn [value_compare].
  - destruct coll as [c|]; cbn [text_compare]; [|by apply compare_blobs_bytes].
    unfold vdbeCompareMemString. rewrite B1, B2. cbn [mbind outcome_bind]. done.
  - by apply compare_blobs_bytes.
  - by apply compare_blobs_bytes.
  - by apply compare_blobs_bytes.
  - by apply compare_blobs_bytes.
Qed.

(** ** One field *)

Lemma byte_at_app a A b X : a = A ++ b :: X → byte_at a (Z.of_nat (length A)) = Ret b.
Proof.
  intros ->. unfold byte_at, zlookup. rewrite (proj2 (Z.ltb_ge _ _)) by lia.
  rewrite Nat2Z.id, lookup_app_r, Nat.sub_diag by lia. done.
Qed.

Lemma DecodeInt_value i ff rest : in_sw 64 i →
  vdbeRecordDecodeInt (int_serial_type i ff) (value_data (SInt i) ff ++ rest) = Ret i.
Proof.
  intros Hi. cbn [value_data]. destruct (int_serial_type_cases i ff Hi) as [[-> [-> | ->]]|(k & Hk & Hr)]; [done|done|].
  assert (Z.to_nat (sqlite3VdbeSerialTypeLen (int_serial_type i ff)) = S k) as ->.
  { unfold int_widths in Hk. rewrite !list.elem_of_cons, list.elem_of_nil in Hk.
    destruct Hk as [E|[E|[E|[E|[E|[E|[]]]]]]]; injection E as -> ->; done. }
  destruct (be_bytes_signed i k Hr) as (x & bs & -> & Hl & Hb & <-). cbn [app].
  pose proof (SerialGet_int _ k bs rest blank Hk Hl x Hb) as Hg. unfold int_widths in Hk.
  rewrite !list.elem_of_cons, list.elem_of_nil in Hk.
  destruct Hk as [E|[E|[E|[E|[E|[E|[]]]]]]]; injection E as E ->; rewrite E in Hg |- *;
    unfold sqlite3VdbeSerialGet, vdbeRecordDecodeInt in *; cbn [Z.eqb Pos.eqb orb] in *;
    (destruct (_ (x :: bs ++ rest)) as [y|]; [|done]); cbn [mbind outcome_bind] in Hg |- *; injection Hg as Hg; by rewrite Hg.
Qed.

(** The stored value [v] is at [idx1] and [d1]. *)
Record stored (nKey1 : Z) (aKey1 : list Z) (v : sqlval) (ff idx1 d1 : Z) : Prop := {
  st_val : value_ok v;
  st_fits : value_fits v;
  st_key : bytes_ok aKey1;
  st_size : 0 ≤ nKey1 < 2 ^ 31;
  st_type : ∃ A B, idx1 = Z.of_nat (length A) ∧ aKey1 = A ++ putVarint32 (value_type v ff) ++ B;
  st_data : ∃ C D, d1 = Z.of_nat (length C) ∧ aKey1 = C ++ value_data v ff ++ D;
  st_end : d1 + Z.of_nat (length (value_data v ff)) ≤ nKey1 }.

Section Field.
Context (nKey1 : Z) (aKey1 : list Z) (v : sqlval) (ff idx1 d1 : Z).
Context (Hst : stored nKey1 aKey1 v ff idx1 d1).

(** The first byte of the serial type. *)
Lemma stored_byte : ∃ b, byte_at aKey1 idx1 = Ret b ∧
  (value_type v ff < 12 → b = value_type v ff) ∧ (12 ≤ value_type v ff → 12 ≤ b < 256).
Proof.
  destruct Hst as [Hv Hf _ _ (A & B & -> & Ea) _ _].
  destruct (putVarint32_head (value_type v ff)) as (b & z & E & H1 & H2); [by apply value_type_range|].
  exists b. rewrite E in Ea. split; [by eapply byte_at_app|]. split; [intros; apply H1; lia|].
  intros ?. destruct (Z.ltb_spec (value_type v ff) 128) as [Hlt|Hge]; [destruct (H1 Hlt); lia|lia].
Qed.

Lemma stored_varint : ∃ h, ptr aKey1 idx1 = Ret h ∧
  getVarint32 h = Ret (value_type v ff, Z.of_nat (length (putVarint32 (value_type v ff)))).
Proof.
  destruct Hst as [Hv Hf Hk _ (A & B & -> & Ea) _ _]. eexists. split; [by eapply ptr_app|].
  apply getVarint32_put; [by apply value_type_range|]. rewrite Ea in Hk. apply Forall_app in Hk as [_ Hk].
  by apply Forall_app in Hk as [_ Hk].
Qed.

Lemma stored_content : ∃ q D, ptr aKey1 d1 = Ret q ∧ q = value_data v ff ++ D.
Proof. destruct Hst as [_ _ _ _ _ (C & D & -> & Ea) _]. eexists _, _. split; [by eapply ptr_app|done]. Qed.
End Field.

(** The types of the classes of values. *)
Lemma value_type_class v ff : value_ok v →
  match v with
  | SNull => value_type v ff = 0
  | SInt _ => 1 ≤ value_type v ff ≤ 9 ∧ value_type v ff ≠ 7
  | SReal _ => value_type v ff = 7
  | SText _ | SBlob _ => 12 ≤ value_type v ff
  end.
Proof.
  destruct v; cbn [value_type value_ok]; intros Hv; try done; try lia. by apply int_serial_type_range.
Qed.

Lemma mem_is_text m b : mem_is m (SText b) → has m MEM_Str = true ∧ read_bytes (mz m) (mn m) = Ret b.
Proof. inversion 1; subst. by tags. Qed.

Lemma mem_is_blob m b : mem_is m (SBlob b) → zero_tail m = 0 → read_bytes (mz m) (mn m) = Ret b.
Proof.
  unfold zero_tail. inversion 1; subst; tags; [done|]. intros E. rewrite E. cbn. by rewrite app_nil_r.
Qed.

Lemma stored_class nKey1 aKey1 v ff idx1 d1 : stored nKey1 aKey1 v ff idx1 d1 →
  ∃ b, byte_at aKey1 idx1 = Ret b ∧
    match v with
    | SNull => b = 0
    | SInt i => b = value_type v ff ∧ 1 ≤ b ≤ 9 ∧ b ≠ 7
    | SReal _ => b = 7
    | SText _ | SBlob _ => 12 ≤ b
    end.
Proof.
  intros Hst. destruct (stored_byte _ _ _ _ _ _ Hst) as (b & Hb & Hl & Hh). exists b. split; [done|].
  pose proof (value_type_class v ff (st_val _ _ _ _ _ _ Hst)) as Hc.
  destruct v; try (specialize (Hh Hc)); try (rewrite Hl by lia); lia.
Qed.

(** A field is compared as its value is, and equal fields give their type. *)
Definition field_result (o : outcome (Z * Z)) (c : outcome Z) (t : Z) : Prop :=
  ∃ st, o = (rc ← c; Ret (rc, st)) ∧ (c = Ret 0 → st = t).

Section Compare_field.
Context (nKey1 : Z) (aKey1 : list Z) (ff idx1 d1 : Z).
Context (p : UnpackedRecord) (pRhs : Mem) (i : Z) (coll : option CollSeq).
Context (Hcoll : at_index (aColl (pKeyInfo p)) i = Ret coll).
Context (Hz : zero_tail pRhs = 0).

#[local] Abbreviation result v w :=
  (field_result (compare_field nKey1 aKey1 p pRhs i idx1 d1)
     (value_compare (kenc (pKeyInfo p)) coll v w) (value_type v ff)).

Lemma field_null v : stored nKey1 aKey1 v ff idx1 d1 → mem_is pRhs SNull → result v SNull.
Proof.
  intros Hst Hw. destruct (stored_class _ _ _ _ _ _ Hst) as (b & Hb & Hc). exists b.
  unfold compare_field. inversion Hw as [T| | | | |]; subst. tags. rewrite Hb. cbn [mbind outcome_bind].
  destruct v; cbn [value_compare mbind outcome_bind]; [by subst|..]; rewrite (proj2 (Z.eqb_neq b 0)) by lia; done.
Qed.

Lemma field_int v j : stored nKey1 aKey1 v ff idx1 d1 → mem_is pRhs (SInt j) → result v (SInt j).
Proof.
  intros Hst Hw. destruct (stored_class _ _ _ _ _ _ Hst) as (b & Hb & Hc).
  destruct (stored_content _ _ _ _ _ _ Hst) as (q & D & Hq & Eq). exists b.
  unfold compare_field. inversion Hw as [|T| | | |]; subst. tags. rewrite Hb. cbn [mbind outcome_bind].
  pose proof (st_val _ _ _ _ _ _ Hst) as Hv. pose proof (st_fits _ _ _ _ _ _ Hst) as Hf.
  destruct v as [|k|x|a|a]; cbn [value_compare mbind outcome_bind].
  - by subst.
  - destruct Hc as (-> & Hr & H7). rewrite (proj2 (Z.leb_gt 12 _)), !(proj2 (Z.eqb_neq _ _)) by lia.
    rewrite Hq. cbn [mbind outcome_bind]. split; [|done]. cbn [value_type]. by rewrite DecodeInt_value.
  - subst b. rewrite Hq. cbn [mbind outcome_bind Z.leb Z.compare Pos.compare Pos.compare_cont Z.eqb Pos.eqb].
    destruct (SerialGet_value (SReal x) ff D blank Hv Hf) as (m & E & Hm & _). cbn [value_type] in E. rewrite E.
    cbn [mbind outcome_bind]. by inversion Hm.
  - by rewrite (proj2 (Z.leb_le 12 b)).
  - by rewrite (proj2 (Z.leb_le 12 b)).
Qed.

Lemma field_real v y : stored nKey1 aKey1 v ff idx1 d1 → mem_is pRhs (SReal y) → result v (SReal y).
Proof.
  intros Hst Hw. destruct (stored_class _ _ _ _ _ _ Hst) as (b & Hb & Hc).
  destruct (stored_content _ _ _ _ _ _ Hst) as (q & D & Hq & Eq). exists b.
  unfold compare_field. inversion Hw as [| |T| | |]; subst. tags. rewrite Hb. cbn [mbind outcome_bind].
  pose proof (st_val _ _ _ _ _ _ Hst) as Hv. pose proof (st_fits _ _ _ _ _ _ Hst) as Hf.
  destruct v as [|k|x|a|a]; cbn [value_compare mbind outcome_bind].
  - by subst.
  - destruct Hc as (-> & Hr & H7). rewrite (proj2 (Z.leb_gt 12 _)), !(proj2 (Z.eqb_neq _ _)) by lia.
    rewrite Hq. cbn [mbind outcome_bind orb]. split; [|done].
    destruct (SerialGet_value (SInt k) ff D blank Hv Hf) as (m & E & Hm & _). rewrite E.
    cbn [mbind outcome_bind]. by inversion Hm.
  - subst b. rewrite Hq. cbn [mbind outcome_bind Z.leb Z.compare Pos.compare Pos.compare_cont Z.eqb Pos.eqb orb].
    destruct (SerialGet_value (SReal x) ff D blank Hv Hf) as (m & E & Hm & _). cbn [value_type] in E. rewrite E.
    cbn [mbind outcome_bind]. by inversion Hm.
  - by rewrite (proj2 (Z.leb_le 12 b)).
  - by rewrite (proj2 (Z.leb_le 12 b)).
Qed.

(** The content of a stored text or blob fits the record. *)
Lemma content_end v : stored nKey1 aKey1 v ff idx1 d1 → 12 ≤ value_type v ff →
  (value_type v ff - 12) / 2 = Z.of_nat (length (value_data v ff)) ∧
  (u32 nKey1 <? u32 (d1 + (value_type v ff - 12) / 2)) = false.
Proof.
  intros Hst Ht. pose proof Hst as [Hv Hf _ Hs _ (C & D & -> & Ea) He].
  pose proof (SerialTypeLen_value v ff) as Hl. unfold sqlite3VdbeSerialTypeLen in Hl.
  rewrite (proj2 (Z.leb_le 12 _)) in Hl by done. rewrite Hl by (by intros k ->). split; [done|].
  rewrite !uw_small by (unfold in_uw; lia). apply Z.ltb_ge. lia.
Qed.

Lemma field_text v b : stored nKey1 aKey1 v ff idx1 d1 → mem_is pRhs (SText b) → value_fits (SText b) → result v (SText b).
Proof.
  intros Hst Hw Hfb. destruct (stored_varint _ _ _ _ _ _ Hst) as (h & Hh & Hg).
  destruct (stored_content _ _ _ _ _ _ Hst) as (q & D & Hq & Eq). exists (value_type v ff). split; [|done].
  destruct (mem_is_text _ _ Hw) as [_ Hr]. unfold compare_field. inversion Hw as [| | |? T| |]; subst. tags. rewrite Hh. cbn [mbind outcome_bind].
  rewrite Hg. cbn [mbind outcome_bind]. pose proof (value_type_class v ff (st_val _ _ _ _ _ _ Hst)) as Hc.
  destruct v as [|k|x|a|a]; cbn [value_compare mbind outcome_bind]; try (rewrite (proj2 (Z.ltb_lt _ 12)) by lia; done);
    rewrite (proj2 (Z.ltb_ge _ 12)) by lia.
  - destruct (content_end _ Hst Hc) as [-> ->]. rewrite Hq, Hcoll. cbn [mbind outcome_bind].
    cbn [value_type]. replace (_ + 13) with (2 * Z.of_nat (length a) + 12 + 1) by lia. rewrite land_1_bytes by lia.
    cbn [Z.eqb value_data]. pose proof (st_fits _ _ _ _ _ _ Hst) as Hf.
    pose proof (read_bytes_app a D) as Ha. destruct coll as [c|]; cbn [text_compare].
    + unfold vdbeCompareMemString. cbn [mz mn]. rewrite Ha, Hr. cbn [mbind outcome_bind].
      destruct (_ =? _); [done|]. by rewrite !outcome_bind_assoc.
    + by rewrite (compare_content_bytes _ a _ b).
  - cbn [value_type]. replace (_ + 12) with (2 * Z.of_nat (length a) + 12 + 0) by lia. by rewrite land_1_bytes by lia.
Qed.

Lemma field_blob v b : stored nKey1 aKey1 v ff idx1 d1 → mem_is pRhs (SBlob b) → value_fits (SBlob b) → result v (SBlob b).
Proof.
  intros Hst Hw Hfb. destruct (stored_varint _ _ _ _ _ _ Hst) as (h & Hh & Hg).
  destruct (stored_content _ _ _ _ _ _ Hst) as (q & D & Hq & Eq). exists (value_type v ff). split; [|done].
  pose proof (mem_is_blob _ _ Hw Hz) as Hr. unfold compare_field.
  assert (has pRhs MEM_Int = false ∧ has pRhs MEM_Real = false ∧ has pRhs MEM_Str = false ∧ has pRhs MEM_Blob = true)
    as (-> & -> & -> & ->) by (inversion Hw; subst; by tags).
  rewrite Hh. cbn [mbind outcome_bind].
  rewrite Hg. cbn [mbind outcome_bind]. pose proof (value_type_class v ff (st_val _ _ _ _ _ _ Hst)) as Hc.
  destruct v as [|k|x|a|a]; cbn [value_compare mbind outcome_bind]; try (rewrite (proj2 (Z.ltb_lt _ 12)) by lia; done);
    rewrite (proj2 (Z.ltb_ge _ 12)) by lia.
  - cbn [value_type]. replace (_ + 13) with (2 * Z.of_nat (length a) + 12 + 1) by lia. by rewrite land_1_bytes by lia.
  - destruct (content_end _ Hst Hc) as [-> ->]. rewrite Hq. cbn [mbind outcome_bind].
    cbn [value_type]. replace (_ + 12) with (2 * Z.of_nat (length a) + 12 + 0) by lia. rewrite land_1_bytes by lia.
    cbn [Z.eqb value_data negb orb]. pose proof (st_fits _ _ _ _ _ _ Hst) as Hf. subst q. cbn [value_data].
    by rewrite (compare_content_bytes _ a _ b) by (done || apply read_bytes_app).
Qed.

Lemma field_value v w : stored nKey1 aKey1 v ff idx1 d1 → mem_is pRhs w → value_fits w → result v w.
Proof.
  intros Hst Hw Hf. destruct w; [by apply field_null|by apply field_int|by apply field_real|by apply field_text|by apply field_blob].
Qed.
End Compare_field.

(** ** Whole records *)

(** The fields [vs] are stored from [idx1] and [d1] on, up to the end of the
    header. *)
Record stored_all (nKey1 : Z) (aKey1 : list Z) (vs : list sqlval) (ff szHdr1 idx1 d1 : Z) : Prop := {
  sa_ok : Forall value_ok vs;
  sa_fits : Forall value_fits vs;
  sa_key : bytes_ok aKey1;
  sa_size : 0 ≤ nKey1 < 2 ^ 31;
  sa_types : ∃ A B, idx1 = Z.of_nat (length A) ∧ aKey1 = A ++ record_types vs ff ++ B;
  sa_data : ∃ C D, d1 = Z.of_nat (length C) ∧ aKey1 = C ++ record_data vs ff ++ D;
  sa_hdr : szHdr1 = idx1 + Z.of_nat (length (record_types vs ff)) ∧ 0 ≤ szHdr1 < 2 ^ 31;
  sa_end : d1 + Z.of_nat (length (record_data vs ff)) ≤ nKey1 }.

Lemma stored_all_head nKey1 aKey1 v vs ff szHdr1 idx1 d1 :
  stored_all nKey1 aKey1 (v :: vs) ff szHdr1 idx1 d1 → stored nKey1 aKey1 v ff idx1 d1.
Proof.
  intros [Hv Hf Hk Hs (A & B & -> & Ea) (C & D & -> & Ec) _ He].
  apply list.Forall_cons in Hv as [Hv _]. apply list.Forall_cons in Hf as [Hf _].
  cbn [record_types record_data mbind list_bind] in *. rewrite <- app_assoc in Ea, Ec. rewrite length_app in He.
  constructor; try done; [by exists A, (record_types vs ff ++ B)|by exists C, (record_data vs ff ++ D)|lia].
Qed.

(** The next field is where the loops look for it. *)
Lemma stored_all_tail nKey1 aKey1 v vs ff szHdr1 idx1 d1 :
  stored_all nKey1 aKey1 (v :: vs) ff szHdr1 idx1 d1 →
  let idx2 := u32 (idx1 + sqlite3VarintLen (value_type v ff)) in
  let d2 := u32 (d1 + sqlite3VdbeSerialTypeLen (value_type v ff)) in
  stored_all nKey1 aKey1 vs ff szHdr1 idx2 d2 ∧
  Z.of_nat (length (putVarint32 (value_type v ff))) = sqlite3VarintLen (value_type v ff) ∧
  (idx2 <? szHdr1) = negb (bool_decide (vs = [])) ∧ (d2 <=? u32 nKey1) = true.
Proof.
  intros Hst. pose proof (st_val _ _ _ _ _ _ (stored_all_head _ _ _ _ _ _ _ _ Hst)) as Hv.
  pose proof (st_fits _ _ _ _ _ _ (stored_all_head _ _ _ _ _ _ _ _ Hst)) as Hf.
  destruct Hst as [Hvs Hfs Hk Hs (A & B & -> & Ea) (C & D & -> & Ec) [Hh Hr] He].
  apply list.Forall_cons in Hvs as [_ Hvs]. apply list.Forall_cons in Hfs as [_ Hfs].
  cbn [record_types record_data mbind list_bind] in *. fold (record_types vs ff) (record_data vs ff) in *.
  rewrite <- app_assoc in Ea, Ec. rewrite length_app in He, Hh.
  destruct (putVarint32_shape _ (value_type_range v ff Hv Hf)) as [_ Hl].
  rewrite (SerialTypeLen_value v ff) by (by intros i ->). rewrite <- Hl.
  rewrite !uw_small by (unfold in_uw; lia). rewrite <- !Nat2Z.inj_add, <- !length_app. cbv zeta. split; [|split; [done|split]].
  - constructor; try done.
    + exists (A ++ putVarint32 (value_type v ff)), B. split; [done|]. by rewrite <- app_assoc.
    + exists (C ++ value_data v ff), D. split; [done|]. by rewrite <- app_assoc.
    + rewrite length_app. lia.
    + rewrite length_app. lia.
  - rewrite length_app. case_bool_decide as E; cbn [negb]; [subst vs; apply Z.ltb_ge; simpl in Hh; lia|].
    apply Z.ltb_lt. destruct vs as [|u vs]; [done|]. apply list.Forall_cons in Hvs as [Hu _].
    apply list.Forall_cons in Hfs as [Hfu _]. cbn [record_types mbind list_bind] in Hh. rewrite length_app in Hh.
    destruct (putVarint32_head _ (value_type_range u ff Hu Hfu)) as (b & z & E' & _). rewrite E' in Hh. simpl in Hh. lia.
  - apply Z.leb_le. rewrite length_app. lia.
Qed.

(** The right-hand side. *)
Record rhs_ok (k : KeyInfo) (i : Z) (ms : list Mem) (ws : list sqlval) : Prop := {
  rhs_values : Forall2 mem_is ms ws;
  rhs_tails : Forall (λ m, zero_tail m = 0) ms;
  rhs_fits : Forall value_fits ws;
  rhs_colls : 0 ≤ i ∧ i + Z.of_nat (length ms) ≤ Z.of_nat (length (aColl k)) }.

Lemma rhs_head k i m ms ws : rhs_ok k i (m :: ms) ws →
  ∃ w ws' coll, ws = w :: ws' ∧ mem_is m w ∧ zero_tail m = 0 ∧ value_fits w ∧
    at_index (aColl k) i = Ret coll ∧ rhs_ok k (i + 1) ms ws'.
Proof.
  intros [Hv Ht Hf [Hi Hc]]. inversion Hv as [|? w ? ws' Hw Hws]; subst. apply list.Forall_cons in Ht as [Ht Hts].
  apply list.Forall_cons in Hf as [Hf Hfs]. cbn [length] in Hc.
  destruct (zlookup_is_Some (aColl k) i) as [coll E]; [lia|]. exists w, ws', coll.
  split; [done|]. split; [done|]. split; [done|]. split; [done|]. split; [unfold at_index; by rewrite E|].
  constructor; try done. lia.
Qed.

Section Loops.
Context (nKey1 : Z) (aKey1 : list Z) (p : UnpackedRecord) (ff szHdr1 : Z).
#[local] Abbreviation k := (pKeyInfo p).

Lemma compare_loop_values ms : ∀ vs ws i idx1 d1, ms ≠ [] → vs ≠ [] →
  stored_all nKey1 aKey1 vs ff szHdr1 idx1 d1 → rhs_ok k i ms ws →
  compare_loop nKey1 aKey1 p szHdr1 ms i idx1 d1 = values_compare k (default_rc p) i vs ws.
Proof.
  induction ms as [|m ms IH]; intros [|v vs] ws i idx1 d1 Hms Hvs Hst Hr; try done.
  destruct (rhs_head _ _ _ _ _ Hr) as (w & ws' & coll & -> & Hw & Hz & Hf & Hc & Hr'). cbn [compare_loop values_compare].
  destruct (field_value nKey1 aKey1 ff idx1 d1 p m i coll Hc Hz v w) as (st & -> & Hst0); [by eapply stored_all_head|done|done|].
  rewrite Hc. cbn [mbind outcome_bind]. destruct (value_compare _ _ _ _) as [rc|]; [|done]. cbn [mbind outcome_bind].
  destruct (Z.eqb_spec rc 0) as [->|]; cbn [negb]; [|done]. rewrite Hst0 by done.
  destruct (stored_all_tail _ _ _ _ _ _ _ _ Hst) as (Hst' & _ & -> & ->).
  destruct vs as [|v' vs]; [by destruct ms|]. destruct ms as [|m' ms].
  { inversion Hr' as [Hn]. inversion Hn; subst. done. }
  rewrite !bool_decide_eq_false_2 by done. cbn [negb andb]. by apply IH.
Qed.

Lemma debug_loop_values ms : ∀ vs ws i idx1 d1, ms ≠ [] → vs ≠ [] →
  stored_all nKey1 aKey1 vs ff szHdr1 idx1 d1 → rhs_ok k i ms ws →
  debug_loop nKey1 aKey1 p szHdr1 ms i idx1 d1 = values_compare k (default_rc p) i vs ws.
Proof.
  induction ms as [|m ms IH]; intros [|v vs] ws i idx1 d1 Hms Hvs Hst Hr; try done.
  destruct (rhs_head _ _ _ _ _ Hr) as (w & ws' & coll & -> & Hw & Hz & Hf & Hc & Hr'). cbn [debug_loop values_compare].
  pose proof (stored_all_head _ _ _ _ _ _ _ _ Hst) as Hsv.
  destruct (stored_varint _ _ _ _ _ _ Hsv) as (h & -> & Hg). cbn [mbind outcome_bind]. rewrite Hg. cbn [mbind outcome_bind].
  destruct (stored_all_tail _ _ _ _ _ _ _ _ Hst) as (Hst' & -> & Hi & Hd).
  rewrite (proj2 (Z.ltb_ge (u32 nKey1) (u32 (d1 + sqlite3VdbeSerialTypeLen (value_type v ff))))) by by apply Z.leb_le.
  rewrite andb_false_r. destruct (stored_content _ _ _ _ _ _ Hsv) as (q & D & -> & ->). cbn [mbind outcome_bind].
  destruct (SerialGet_value v ff D blank (st_val _ _ _ _ _ _ Hsv) (st_fits _ _ _ _ _ _ Hsv)) as (m1 & -> & Hm1 & Hz1).
  cbn [mbind outcome_bind]. rewrite Hc. cbn [mbind outcome_bind].
  rewrite (MemCompare_value _ _ m1 m v w) by (done || apply Hsv).
  destruct (value_compare _ _ _ _) as [rc|]; [|done]. cbn [mbind outcome_bind].
  destruct (Z.eqb_spec rc 0) as [->|]; cbn [negb]; [|done]. rewrite Hi.
  destruct vs as [|v' vs]; [by destruct ms|]. destruct ms as [|m' ms].
  { inversion Hr' as [Hn]. inversion Hn; subst. done. }
  rewrite !bool_decide_eq_false_2 by done. cbn [negb andb].
  rewrite <- (SerialTypeLen_value v ff) by (intros j ->; apply Hsv). by apply IH.
Qed.

(** Comparing from the second field on. *)
Lemma RecordCompare_skip_values v vs m ms ws :
  stored_all nKey1 aKey1 (v :: vs) ff szHdr1 1 szHdr1 → byte_at aKey1 0 = Ret szHdr1 →
  aMem p = m :: ms → ms ≠ [] → vs ≠ [] → rhs_ok k 1 ms ws →
  sqlite3VdbeRecordCompare nKey1 aKey1 p true = values_compare k (default_rc p) 1 vs ws.
Proof.
  intros Hst Hb Em Hms Hvs Hr. unfold sqlite3VdbeRecordCompare.
  destruct (stored_varint _ _ _ _ _ _ (stored_all_head _ _ _ _ _ _ _ _ Hst)) as (q & -> & Hg). cbn [mbind outcome_bind].
  rewrite Hg. cbn [mbind outcome_bind]. rewrite Hb, Em. cbn [mbind outcome_bind List.tl].
  destruct (stored_all_tail _ _ _ _ _ _ _ _ Hst) as (Hst' & -> & _ & _).
  pose proof (stored_all_head _ _ _ _ _ _ _ _ Hst) as [Hv Hf _ _ _ _ _].
  assert (u32 (1 + sqlite3VarintLen (value_type v ff)) = 1 + sqlite3VarintLen (value_type v ff)) as E.
  { apply uw_small. unfold in_uw. rewrite varint_len by by apply value_type_range. repeat case_match; lia. }
  rewrite E in Hst'. by apply compare_loop_values.
Qed.
End Loops.

Lemma record_types_short vs ff : Forall value_ok vs → Forall value_fits vs →
  (length (record_types vs ff) ≤ 5 * length vs)%nat.
Proof.
  intros Hv. induction Hv as [|v vs Hv Hvs IH]; intros Hf; [done|]. apply list.Forall_cons in Hf as [Hf Hfs].
  cbn [record_types mbind list_bind]. fold (record_types vs ff). rewrite length_app. specialize (IH Hfs).
  pose proof (value_type_range v ff Hv Hf) as Hr. destruct (putVarint32_shape _ Hr) as [_ Hl].
  assert (sqlite3VarintLen (value_type v ff) ≤ 5) by (rewrite varint_len by done; repeat case_match; lia). simpl. lia.
Qed.

(** Results that agree but for their magnitude. *)
Definition same_sign (o1 o2 : outcome Z) : Prop :=
  match o1, o2 with
  | Ret a, Ret b => Z.sgn a = Z.sgn b
  | Undef f, Undef g => f = g
  | _, _ => False
  end.

Lemma same_sign_refl o : same_sign o o.
Proof. by destruct o. Qed.

(** ** The comparison routines *)

Section Routines.
Context (vs : list sqlval) (ff : Z) (pad : list Z) (p : UnpackedRecord) (ws : list sqlval).
Context (Hok : record_ok vs ff) (Hpad : bytes_ok pad) (Hvs : vs ≠ []) (Hws : ws ≠ []).
Context (Hrhs : rhs_ok (pKeyInfo p) 0 (aMem p) ws).
#[local] Abbreviation key := (record_bytes vs ff ++ pad).
#[local] Abbreviation nKey := (Z.of_nat (length (record_bytes vs ff))).
#[local] Abbreviation h := (record_header vs ff).
#[local] Abbreviation reference := (values_compare (pKeyInfo p) (default_rc p) 0 vs ws).

Lemma key_split : key = putVarint32 h ++ record_types vs ff ++ record_data vs ff ++ pad.
Proof. unfold record_bytes. by rewrite <- !app_assoc. Qed.

Lemma key_bytes : bytes_ok key.
Proof. apply Forall_app_2; [by apply record_bytes_ok|done]. Qed.

Lemma key_stored : stored_all nKey key vs ff h (Z.of_nat (length (putVarint32 h))) h.
Proof.
  pose proof (record_header_ok vs ff Hok) as (Hh & Hr & Hl). pose proof Hok as (Hv & Hf & Hs).
  constructor; try done; try lia.
  - apply key_bytes.
  - eexists _, _. split; [done|]. apply key_split.
  - exists (putVarint32 h ++ record_types vs ff), pad. split; [rewrite length_app; lia|].
    rewrite key_split. by rewrite <- !app_assoc.
Qed.

Lemma key_varint : getVarint32 key = Ret (h, Z.of_nat (length (putVarint32 h))).
Proof.
  pose proof (record_header_ok vs ff Hok) as (_ & Hr & _). pose proof key_bytes as Hb. rewrite key_split in *.
  apply getVarint32_put; [lia|]. by apply Forall_app in Hb as [_ Hb].
Qed.

Lemma aMem_nonempty : aMem p ≠ [].
Proof. intros E. destruct Hrhs as [Hv _ _ _]. rewrite E in Hv. by inversion Hv; subst. Qed.

Lemma RecordCompare_values : sqlite3VdbeRecordCompare nKey key p false = reference.
Proof.
  pose proof (record_header_ok vs ff Hok) as (_ & Hr & Hl). pose proof Hok as (_ & _ & Hs).
  unfold sqlite3VdbeRecordCompare. rewrite key_varint. cbn [mbind outcome_bind].
  rewrite uw_small by (unfold in_uw; lia). rewrite (proj2 (Z.ltb_ge _ _)) by lia.
  eapply compare_loop_values; [apply aMem_nonempty|done|apply key_stored|done].
Qed.

Lemma RecordCompareDebug_values : vdbeRecordCompareDebug nKey key p = reference.
Proof.
  unfold vdbeRecordCompareDebug. rewrite key_varint. cbn [mbind outcome_bind].
  eapply debug_loop_values; [apply aMem_nonempty|done|apply key_stored|done].
Qed.

(** A header of less than 128 bytes has a size of one byte. *)
Lemma header_byte : h < 128 → putVarint32 h = [h] ∧ byte_at key 0 = Ret h.
Proof.
  intros Hh. pose proof (record_header_ok vs ff Hok) as (_ & Hr & _).
  destruct (putVarint32_head h) as (b & z & E & H1 & _); [lia|]. destruct (H1 Hh) as [-> ->]. split; [done|].
  apply (byte_at_app key [] h (record_types vs ff ++ record_data vs ff ++ pad)). rewrite key_split, E. done.
Qed.

Lemma RecordCompare_skip v vs' m ms w ws' coll : h < 128 → vs = v :: vs' → aMem p = m :: ms → ws = w :: ws' →
  vs' ≠ [] → ms ≠ [] → at_index (aColl (pKeyInfo p)) 0 = Ret coll →
  value_compare (kenc (pKeyInfo p)) coll v w = Ret 0 →
  sqlite3VdbeRecordCompare nKey key p true = reference.
Proof.
  intros Hh Ev Em Ew Hv' Hm' Hc H0. destruct (header_byte Hh) as [Ep Eb]. pose proof key_stored as Hst. rewrite Ep in Hst.
  pose proof Hrhs as Hr. rewrite Em in Hr. destruct (rhs_head _ _ _ _ _ Hr) as (w0 & ws0 & coll0 & Ew0 & _ & _ & _ & _ & Hr').
  assert (ws0 = ws') as -> by congruence.
  rewrite (RecordCompare_skip_values nKey key p ff h v vs' m ms ws'); try done; [|by rewrite <- Ev].
  rewrite Ev, Ew. cbn [values_compare]. rewrite Hc. cbn [mbind outcome_bind]. by rewrite H0.
Qed.

(** At most 13 fields: the header fits one byte, and 64 bytes if the first
    field is an integer. *)
Lemma short_header v vs' : vs = v :: vs' → (length vs ≤ 13)%nat →
  h < 128 ∧ (value_type v ff < 128 → h < 64).
Proof.
  intros Ev Hl. pose proof Hok as (Hv & Hf & _). pose proof (record_types_short vs ff Hv Hf) as Ht.
  unfold record_header, add_header_varint. rewrite (proj2 (Z.leb_le _ 126)) by lia. split; [lia|]. intros Hty.
  rewrite Ev in Hv, Hf, Hl |- *. apply list.Forall_cons in Hv as [Hv Hvs']. apply list.Forall_cons in Hf as [Hf Hfs'].
  pose proof (record_types_short vs' ff Hvs' Hfs') as Ht'. cbn [record_types mbind list_bind].
  fold (record_types vs' ff). rewrite length_app. pose proof (value_type_range v ff Hv Hf) as Hr.
  destruct (putVarint32_head _ Hr) as (b & z & E & H1 & _). destruct (H1 Hty) as [_ ->]. rewrite E. simpl in *. lia.
Qed.

(** The first cell and the way its column is sorted, as
    [sqlite3VdbeFindCompare] leaves them. *)
Context (m : Mem) (ms : list Mem) (desc : bool) (Em : aMem p = m :: ms).
Context (Hdesc : at_index (aSortOrder (pKeyInfo p)) 0 = Ret desc).
Context (Hr1 : r1 p = if desc then 1 else -1) (Hr2 : r2 p = if desc then -1 else 1).
Context (Hlen : (length vs ≤ 13)%nat) (Htwo : (2 ≤ length vs)%nat ∨ ms = []).

Lemma rest_compare v vs' w ws' coll : vs = v :: vs' → ws = w :: ws' → at_index (aColl (pKeyInfo p)) 0 = Ret coll →
  value_compare (kenc (pKeyInfo p)) coll v w = Ret 0 →
  (if 1 <? Z.of_nat (length (aMem p)) then sqlite3VdbeRecordCompare nKey key p true else Ret (default_rc p)) = reference.
Proof.
  intros Ev Ew Hc H0. destruct (short_header v vs' Ev Hlen) as [Hh _]. destruct ms as [|m' ms'].
  - pose proof Hrhs as [Hf2 _ _ _]. rewrite Em, Ew in Hf2. inversion Hf2 as [|? ? ? ? _ Hnil]; inversion Hnil; subst.
    rewrite Em. cbn. rewrite Hc. cbn [mbind outcome_bind]. rewrite H0. cbn. by destruct vs'.
  - rewrite (proj2 (Z.ltb_lt _ _)) by (rewrite Em; simpl; lia).
    eapply (RecordCompare_skip v vs' m (m' :: ms') w ws' coll); try done.
    destruct Htwo as [H2|]; [|done]. rewrite Ev in H2. by destruct vs'; simpl in H2; [lia|].
Qed.

Lemma first_field : ∃ v vs' w ws' coll, vs = v :: vs' ∧ ws = w :: ws' ∧ mem_is m w ∧ zero_tail m = 0 ∧ value_fits w ∧
  at_index (aColl (pKeyInfo p)) 0 = Ret coll ∧ h < 128 ∧ byte_at key 0 = Ret h ∧ stored nKey key v ff 1 h.
Proof.
  assert (∃ v vs', vs = v :: vs') as (v & vs' & Ev) by (clear -Hvs; destruct vs; [done|eauto]).
  destruct (short_header v vs' Ev Hlen) as [Hh _]. destruct (header_byte Hh) as [Ep Eb].
  pose proof key_stored as Hst. rewrite Ep in Hst. pose proof Hrhs as Hr. rewrite Em in Hr.
  destruct (rhs_head _ _ _ _ _ Hr) as (w & ws' & coll & Ew & Hw & Hz & Hf & Hc & _).
  exists v, vs', w, ws', coll. repeat (split; [done|]). apply (stored_all_head _ _ _ vs' _ h). by rewrite <- Ev.
Qed.

(** The sort order applied to the result of the first field. *)
Lemma reference_first v vs' w ws' coll rc : vs = v :: vs' → ws = w :: ws' → at_index (aColl (pKeyInfo p)) 0 = Ret coll →
  value_compare (kenc (pKeyInfo p)) coll v w = Ret rc → rc ≠ 0 → reference = Ret (if desc then - rc else rc).
Proof.
  intros Ev Ew Hc Hrc Hne. rewrite Ev, Ew. cbn [values_compare]. rewrite Hc. cbn [mbind outcome_bind]. rewrite Hrc.
  cbn [mbind outcome_bind]. rewrite (proj2 (Z.eqb_neq _ _) Hne). cbn [negb]. unfold in_order. by rewrite Hdesc.
Qed.

Lemma mask_header : h < 128 → ∃ q, ptr key (h .& 0x3F) = Ret q.
Proof.
  intros Hh. pose proof (record_header_ok vs ff Hok) as (_ & Hr & Hl). change 0x3F with (Z.ones 6). rewrite Z.land_ones by lia.
  pose proof (Z.mod_pos_bound h (2 ^ 6) ltac:(lia)) as Hm1. pose proof (Z.mod_le h (2 ^ 6) ltac:(lia) ltac:(lia)) as Hm2.
  assert (Z.of_nat (length (record_bytes vs ff)) ≤ Z.of_nat (length key)) as Hk by (rewrite length_app; lia).
  unfold ptr. rewrite (proj2 (Z.leb_le 0 _)), (proj2 (Z.leb_le _ (Z.of_nat (length key)))) by lia. eauto.
Qed.

Lemma RecordCompareInt_values : has m MEM_Int = true → vdbeRecordCompareInt nKey key p = reference.
Proof.
  intros Hi. destruct first_field as (v & vs' & w & ws' & coll & Ev & Ew & Hw & Hz & Hf & Hc & Hh & Eb & Hst).
  assert (∃ j, w = SInt j ∧ u_i m = j) as (j & -> & Ej)
    by (clear -Hi Hw; revert Hi; destruct Hw; tags; try done; eauto).
  destruct (stored_class _ _ _ _ _ _ Hst) as (b & Hb & Hcl). destruct (mask_header Hh) as (q & Hq).
  unfold vdbeRecordCompareInt. rewrite Eb. cbn [mbind outcome_bind]. rewrite Hq. cbn [mbind outcome_bind]. rewrite Hb. cbn [mbind outcome_bind].
  assert (at_index (aMem p) 0 = Ret m) as -> by by rewrite Em. cbn [mbind outcome_bind].
  destruct v as [|i|x|a|a].
  - subst b. apply RecordCompare_values.
  - destruct Hcl as (-> & Hb1 & Hb7). destruct (short_header _ _ Ev Hlen) as [_ H64]. specialize (H64 ltac:(lia)).
    assert (q = value_data (SInt i) ff ++ drop (length (value_data (SInt i) ff)) q) as Eq.
    { assert (h .& 0x3F = h) as E.
      { change 0x3F with (Z.ones 6). rewrite Z.land_ones by lia. apply Z.mod_small.
        pose proof (record_header_ok vs ff Hok) as (_ & Hr & _). change (2 ^ 6) with 64. lia. }
      rewrite E in Hq. destruct (stored_content _ _ _ _ _ _ Hst) as (q' & D & Hq' & ->).
      assert (q = value_data (SInt i) ff ++ D) as -> by congruence. by rewrite drop_app_length. }
    rewrite !(proj2 (Z.eqb_neq _ _)), (proj2 (Z.ltb_ge 9 _)) by lia. cbn [orb].
    pose proof (DecodeInt_value i ff (drop (length (value_data (SInt i) ff)) q) (st_val _ _ _ _ _ _ Hst)) as Hdec.
    rewrite <- Eq in Hdec. cbn [value_type] in *.
    assert ((if int_serial_type i ff =? 8 then Ret 0 else if int_serial_type i ff =? 9 then Ret 1
             else vdbeRecordDecodeInt (int_serial_type i ff) q) = Ret i) as ->.
    { destruct (Z.eqb_spec (int_serial_type i ff) 8) as [E|]; [by rewrite E in Hdec|].
      destruct (Z.eqb_spec (int_serial_type i ff) 9) as [E|]; [by rewrite E in Hdec|done]. }
    cbn [mbind outcome_bind]. rewrite Ej.
    pose proof (reference_first _ _ _ _ _ (compare_ints i j) Ev Ew Hc eq_refl) as Href. unfold compare_ints in Href.
    destruct (Z.ltb_spec i j); [rewrite Href, Hr1 by lia; by destruct desc|].
    destruct (Z.ltb_spec j i); [rewrite Href, Hr2 by lia; by destruct desc|].
    apply (rest_compare _ _ _ _ _ Ev Ew Hc). cbn [value_compare]. unfold compare_ints.
    by rewrite !(proj2 (Z.ltb_ge _ _)) by lia.
  - subst b. apply RecordCompare_values.
  - rewrite (proj2 (Z.ltb_lt 9 b)), !orb_true_r by lia. apply RecordCompare_values.
  - rewrite (proj2 (Z.ltb_lt 9 b)), !orb_true_r by lia. apply RecordCompare_values.
Qed.

(** The sign of the comparison of two texts, through [r1] and [r2]. *)
Lemma sign_choice rc : rc ≠ 0 → Z.sgn (if 0 <? rc then r2 p else r1 p) = Z.sgn (if desc then - rc else rc).
Proof. intros Hne. rewrite Hr1, Hr2. destruct (Z.ltb_spec 0 rc), desc; lia. Qed.

Lemma RecordCompareString_values : tag m = MEM_Str → at_index (aColl (pKeyInfo p)) 0 = Ret None →
  same_sign (vdbeRecordCompareString nKey key p) reference.
Proof.
  intros Ht Hnone. destruct first_field as (v & vs' & w & ws' & coll & Ev & Ew & Hw & Hz & Hf & Hc & Hh & Eb & Hst).
  assert (coll = None) as -> by congruence.
  assert (∃ b, w = SText b ∧ read_bytes (mz m) (mn m) = Ret b) as (b & -> & Hb)
    by (clear -Ht Hw; destruct Hw; try (rewrite Ht in *; done); eauto).
  destruct (stored_varint _ _ _ _ _ _ Hst) as (q & Hq & Hg). unfold vdbeRecordCompareString.
  rewrite Hq. cbn [mbind outcome_bind]. rewrite Hg. cbn [mbind outcome_bind].
  pose proof (st_val _ _ _ _ _ _ Hst) as Hv. pose proof (st_fits _ _ _ _ _ _ Hst) as Hfv.
  pose proof (value_type_class v ff Hv) as Hcl. pose proof (value_type_range v ff Hv Hfv) as Hrg.
  assert (i32 (value_type v ff) = value_type v ff) as ->.
  { apply sw_small; [lia|]. unfold in_sw, value_fits in *. destruct v; cbn [value_type value_bytes] in *; lia. }
  pose proof (λ rc, reference_first _ _ _ _ _ rc Ev Ew Hc) as Href.
  destruct v as [|i|x|a|a]; cbn [value_compare text_compare] in Href;
    try (rewrite (proj2 (Z.ltb_lt _ 12)) by lia; rewrite (Href _ eq_refl) by lia; cbn; rewrite Hr1; by destruct desc);
    rewrite (proj2 (Z.ltb_ge _ 12)) by lia.
  2: { cbn [value_type]. replace (_ + 12) with (2 * Z.of_nat (length a) + 12 + 0) by lia. rewrite land_1_bytes by lia.
       rewrite (Href _ eq_refl) by lia. cbn. rewrite Hr2. by destruct desc. }
  cbn [value_type]. replace (_ + 13) with (2 * Z.of_nat (length a) + 12 + 1) by lia. rewrite land_1_bytes by lia. cbn [Z.eqb].
  rewrite Eb. cbn [mbind outcome_bind]. 
  assert (Z.quot (2 * Z.of_nat (length a) + 12 + 1 - 12) 2 = Z.of_nat (length a)) as ->.
  { rewrite Z.quot_div_nonneg by lia. Z.div_mod_to_equations. lia. }
  pose proof (st_end _ _ _ _ _ _ Hst) as Hend. pose proof (st_size _ _ _ _ _ _ Hst) as Hsz. cbn [value_data] in Hend.
  pose proof (record_header_ok vs ff Hok) as (_ & Hr & _).
  rewrite chk32_ok by lia. cbn [mbind outcome_bind]. rewrite (proj2 (Z.ltb_ge _ _)) by lia.
  assert (at_index (aMem p) 0 = Ret m) as -> by by rewrite Em. cbn [mbind outcome_bind].
  destruct (stored_content _ _ _ _ _ _ Hst) as (q' & D & -> & ->). cbn [mbind outcome_bind value_data].
  pose proof (compare_content_bytes (a ++ D) a m b Hfv Hf (read_bytes_app a D) Hb) as Hcc. unfold compare_content in Hcc.
  rewrite (Z.min_comm (mn m)). destruct (memcmp _ _ _) as [rc|]; [|done]. cbn [mbind outcome_bind] in Hcc |- *.
  destruct (Z.eqb_spec rc 0) as [_|Hne].
  - rewrite Hcc. cbn [mbind outcome_bind]. destruct (Z.eqb_spec (bytes_compare a b) 0) as [E0|Hne].
    + rewrite (rest_compare _ _ _ _ _ Ev Ew Hc); [apply same_sign_refl|]. cbn [value_compare text_compare]. by rewrite E0.
    + rewrite (Href _ eq_refl) by done. destruct (0 <? bytes_compare a b) eqn:E; cbn [same_sign];
        rewrite <- sign_choice by done; by rewrite E.
  - injection Hcc as Hcc. rewrite <- Hcc in Href. rewrite (Href _ eq_refl) by done. destruct (0 <? rc) eqn:E; cbn [same_sign];
      rewrite <- sign_choice by done; by rewrite E.
Qed.
End Routines.

(** C38: The comparison of a stored record with an unpacked one.  For a record
    built from any values, of as many fields as the key describes, and cells
    that hold any values: decoding every field ([vdbeRecordCompareDebug]) and
    the general routine give exactly the first difference of the values in the
    order of its column, and the default result if there is none; the routine
    that [sqlite3VdbeFindCompare] selects gives a result of the same sign, so
    the assertions of the routines hold.  None reads outside the record.  If
    only one field is stored, the shortcuts must not be used with more than one
    cell, which holds for the entries of an index. *)
Theorem sqlite3VdbeFindCompare_equivalent vs ff pad p ws :
  record_ok vs ff → bytes_ok pad → vs ≠ [] → ws ≠ [] → rhs_ok (pKeyInfo p) 0 (aMem p) ws → aSortOrder (pKeyInfo p) ≠ [] →
  Z.of_nat (length vs) ≤ kFields (pKeyInfo p) → (2 ≤ length vs)%nat ∨ length ws = 1%nat →
  let nKey := Z.of_nat (length (record_bytes vs ff)) in
  let key := record_bytes vs ff ++ pad in
  let reference := values_compare (pKeyInfo p) (default_rc p) 0 vs ws in
  vdbeRecordCompareDebug nKey key p = reference ∧
  sqlite3VdbeRecordCompare nKey key p false = reference ∧
  ∃ c p', sqlite3VdbeFindCompare p = Ret (c, p') ∧ same_sign (run_comparer c nKey key p') reference.
Proof.
  intros Hok Hpad Hvs Hws Hrhs Hsort Hfields Htwo. cbv zeta.
  split; [by apply RecordCompareDebug_values|]. split; [by apply RecordCompare_values|].
  unfold sqlite3VdbeFindCompare. destruct (Z.leb_spec (kFields (pKeyInfo p)) 13).
  2: { eexists _, _. split; [done|]. cbn [run_comparer]. rewrite (RecordCompare_values vs ff pad p ws) by done. apply same_sign_refl. }
  destruct p as [k ms0 dflt a1 a2]. cbn [pKeyInfo aMem default_rc] in *.
  destruct (aSortOrder k) as [|desc ds] eqn:Es; [done|].
  pose proof (rhs_values _ _ _ _ Hrhs) as Hf2. destruct ms0 as [|m ms]; [by inversion Hf2; subst|].
  destruct (rhs_head _ _ _ _ _ Hrhs) as (w & ws' & coll & Ew & Hw & _ & _ & Hc & _).
  change (at_index (m :: ms) 0) with (Ret m). change (at_index (desc :: ds) 0) with (Ret desc). cbn [mbind outcome_bind].
  set (p' := if desc then _ else _).
  assert (p' = MkUnpacked k (m :: ms) dflt (if desc then 1 else -1) (if desc then -1 else 1)) as Ep by (by destruct desc).
  clearbody p'. subst p'. set (p' := MkUnpacked _ _ _ _ _). cbn [pKeyInfo] in *.
  assert ((2 ≤ length vs)%nat ∨ ms = []) as Htwo'.
  { destruct Htwo as [?|H1]; [by left|right]. apply Forall2_length in Hf2. simpl in Hf2. destruct ms; [done|simpl in Hf2; lia]. }
  assert (at_index (aSortOrder (pKeyInfo p')) 0 = Ret desc) as Hd by (cbn; by rewrite Es).
  destruct (has m MEM_Int) eqn:Ei.
  { exists CompareInt, p'. split; [done|]. cbn [run_comparer].
    rewrite (RecordCompareInt_values vs ff pad p' ws Hok Hpad Hvs Hws Hrhs m ms desc) by (done || lia). apply same_sign_refl. }
  destruct (has m (MEM_Real .| MEM_Null .| MEM_Blob)) eqn:Er.
  { exists CompareAny, p'. split; [done|]. cbn [run_comparer]. rewrite (RecordCompare_values vs ff pad p' ws) by done. apply same_sign_refl. }
  change (pKeyInfo p') with k. rewrite Hc. cbn [mbind outcome_bind].
  assert (tag m = MEM_Str) as Et by (revert Ei Er; clear -Hw; destruct Hw; by tags).
  destruct coll as [c|].
  { exists CompareAny, p'. split; [done|]. cbn [run_comparer]. rewrite (RecordCompare_values vs ff pad p' ws) by done. apply same_sign_refl. }
  tags. cbn [c_assert mbind outcome_bind]. exists CompareString, p'. split; [done|]. cbn [run_comparer].
  apply (RecordCompareString_values vs ff pad p' ws Hok Hpad Hvs Hws Hrhs m ms desc); done || lia.
Qed.

Lemma sqlite3VdbeFindCompare_equivalent_witness :
  let k := MkKeyInfo SQLITE_UTF8 2 [None; None] [true; false] in
  let p := MkUnpacked k [MkMem MEM_Str 0 0 [98] 1; MkMem MEM_Int 7 0 [] 0] 0 0 0 in
  let vs := [SText [97]; SInt 7] in
  let nKey := Z.of_nat (length (record_bytes vs 4)) in
  let key := record_bytes vs 4 ++ [0] in
  let reference := values_compare k 0 0 vs [SText [98]; SInt 7] in
  vdbeRecordCompareDebug nKey key p = reference ∧
  sqlite3VdbeRecordCompare nKey key p false = reference ∧
  ∃ c p', sqlite3VdbeFindCompare p = Ret (c, p') ∧ same_sign (run_comparer c nKey key p') reference.
Proof.
  intros k p vs. apply (sqlite3VdbeFindCompare_equivalent vs 4 [0] p [SText [98]; SInt 7]).
  - split; [repeat constructor; done|]. split; [repeat constructor; done|]. vm_compute. reflexivity.
  - repeat constructor; lia.
  - discriminate.
  - discriminate.
  - constructor.
    + constructor; [apply is_text; [done|done|repeat constructor; lia]|]. constructor; [|constructor].
      by apply (is_int (MkMem MEM_Int 7 0 [] 0)).
    + repeat constructor.
    + repeat constructor; done.
    + simpl. lia.
  - discriminate.
  - simpl. lia.
  - left. simpl. lia.
Defined.

(** ** The rowid of an index entry *)

(** The rowid at the end of an index entry is read back: for an entry of
    any values and an integer, whatever follows it in memory,
    [sqlite3VdbeIdxRowid] returns the integer. *)
Theorem sqlite3VdbeIdxRowid_value us i ff pad :
  record_ok (us ++ [SInt i]) ff → us ≠ [] → bytes_ok pad →
  let b := record_bytes (us ++ [SInt i]) ff in
  sqlite3VdbeIdxRowid (b ++ pad) (Z.of_nat (length b)) = Ret (Some i).
Proof.
  intros Hok Hus Hpad b. pose proof (record_header_ok _ ff Hok) as (Hh & Hr & Hl). pose proof Hok as (Hv & Hf & Hs).
  apply Forall_app in Hv as [Hvu Hvi]. apply Forall_app in Hf as [Hfu _]. apply list.Forall_cons in Hvi as [Hi _].
  pose proof (value_type_class (SInt i) ff Hi) as Hty. pose proof (key_varint (us ++ [SInt i]) ff pad Hok Hpad) as Hg.
  pose proof (key_bytes (us ++ [SInt i]) ff pad Hok Hpad) as Hb.
  cbn iota in Hty.
  destruct (putVarint32_head (value_type (SInt i) ff)) as (t & z & Et & H1 & _); [lia|].
  destruct H1 as [-> ->]; [lia|].
  assert (record_types (us ++ [SInt i]) ff = record_types us ff ++ [value_type (SInt i) ff]) as Ert.
  { destruct (record_app us [SInt i] ff) as [-> _]. f_equal. cbn [record_types mbind list_bind]. by rewrite Et. }
  assert (record_data (us ++ [SInt i]) ff = record_data us ff ++ value_data (SInt i) ff) as Erd.
  { destruct (record_app us [SInt i] ff) as [_ ->]. f_equal. cbn [record_data mbind list_bind]. by rewrite app_nil_r. }
  pose proof (key_split (us ++ [SInt i]) ff pad) as Ek. rewrite Ert, Erd in *. rewrite !length_app in Hh, Hl. change (record_bytes (us ++ [SInt i]) ff) with b in Hl, Hs, Hg, Hb, Ek.
  cbn [length] in Hh. set (h := record_header (us ++ [SInt i]) ff) in *.
  assert (1 ≤ length (record_types us ff))%nat.
  { destruct us as [|u us]; [done|]. apply list.Forall_cons in Hvu as [Hu _]. apply list.Forall_cons in Hfu as [Hfu _].
    cbn [record_types mbind list_bind]. rewrite length_app.
    destruct (putVarint32_head _ (value_type_range u ff Hu Hfu)) as (x & y & -> & _). simpl. lia. }
  assert (1 ≤ length (putVarint32 h))%nat by (destruct (putVarint32_head h) as (x & y & -> & _); [lia|simpl; lia]).
  unfold sqlite3VdbeIdxRowid. rewrite Hg. cbn [mbind outcome_bind].
  rewrite sw_small by (try lia; unfold in_sw; lia). rewrite (proj2 (Z.ltb_ge h 3)), (proj2 (Z.ltb_ge _ h)) by lia. cbn [orb].
  assert (b ++ pad = (putVarint32 h ++ record_types us ff) ++ [value_type (SInt i) ff] ++ record_data us ff ++ value_data (SInt i) ff ++ pad) as Ek1
    by (rewrite Ek, <- !app_assoc; done).
  pose proof (ptr_app _ _ _ Ek1) as Hp. rewrite length_app in Hp.
  replace (Z.of_nat (length (putVarint32 h) + length (record_types us ff))) with (h - 1) in Hp by lia.
  rewrite Hp. cbn [mbind outcome_bind]. rewrite <- Et.
  rewrite Ek1 in Hb. apply Forall_app in Hb as [_ Hb]. apply Forall_app in Hb as [_ Hb].
  rewrite getVarint32_put by (done || lia). cbn [mbind outcome_bind].
  rewrite (proj2 (Z.ltb_ge _ 1)), (proj2 (Z.ltb_ge 9 _)), (proj2 (Z.eqb_neq _ 7)) by lia. cbn [orb].
  rewrite (SerialTypeLen_value (SInt i) ff) by (intros j E; by injection E as <-). rewrite !uw_small by (unfold in_uw; lia).
  rewrite (proj2 (Z.ltb_ge _ _)) by lia.
  assert (b ++ pad = (putVarint32 h ++ record_types us ff ++ [value_type (SInt i) ff] ++ record_data us ff) ++ value_data (SInt i) ff ++ pad) as Ek2
    by (rewrite Ek, <- !app_assoc; done).
  pose proof (ptr_app _ _ _ Ek2) as Hp2. rewrite !length_app in Hp2. cbn [length] in Hp2.
  replace (Z.of_nat (length b) - _) with (Z.of_nat (length (putVarint32 h) + (length (record_types us ff) + (1 + length (record_data us ff))))) by lia.
  rewrite Hp2. cbn [mbind outcome_bind].
  destruct (SerialGet_value (SInt i) ff pad blank Hi) as (m & -> & Hm & _); [done|]. cbn [mbind outcome_bind]. by inversion Hm.
Qed.

Lemma sqlite3VdbeIdxRowid_value_witness :
  sqlite3VdbeIdxRowid (record_bytes ([SText [97]] ++ [SInt 300]) 4 ++ [9])
    (Z.of_nat (length (record_bytes ([SText [97]] ++ [SInt 300]) 4))) = Ret (Some 300).
Proof.
  apply (sqlite3VdbeIdxRowid_value [SText [97]] 300 4 [9]).
  - split; [repeat constructor; done|]. split; [repeat constructor; done|]. vm_compute. reflexivity.
  - discriminate.
  - repeat constructor; lia.
Defined.
