(* ===== verification/Buffer.v ===== *)
(** * Byte buffers

    Pages as lists of bytes, with the two-byte big-endian numbers of
    src/btreeInt.h and the effect of writes on single bytes. *)

From S2P Require Import Prelude Varint.
#[local] Open Scope Z_scope.
#[local] Open Scope c_scope.
#[local] Open Scope list_scope.

(** [get2byte], [put2byte] and [get2byteNotZero]. *)
Definition get2byte (data : list Z) (p : Z) : outcome Z :=
  a ← byte_at data p;
  b ← byte_at data (p + 1);
  Ret ((a .<< 8) .| b).

Definition be16 (v : Z) : list Z := [u8 (v .>> 8); u8 v].

Definition put2byte (data : list Z) (p v : Z) : outcome (list Z) := put_slice data p (be16 v).

Definition get2byteNotZero (data : list Z) (p : Z) : outcome Z :=
  v ← get2byte data p;
  Ret (((v - 1) .& 0xffff) + 1).

(** Bytes, by computation. *)
Lemma bytes_check l : forallb (λ b, (0 <=? b) && (b <? 256)) l = true → bytes_ok l.
Proof. intros H. rewrite forallb_forall in H. apply List.Forall_forall. intros b Hb%H. lia. Qed.

(** The address [&data[p]], as the bytes from there on. *)
Definition from_byte (data : list Z) (p : Z) : outcome (list Z) :=
  if (0 <=? p) && (p <=? Z.of_nat (length data)) then Ret (drop (Z.to_nat p) data) else Undef OutOfBounds.

(** ** Reading *)

(** A byte and a two-byte number, for addresses in the buffer. *)
Definition at8 (data : list Z) (k : Z) : Z := default 0 (data !! Z.to_nat k).
Definition at16 (data : list Z) (k : Z) : Z := 256 * at8 data k + at8 data (k + 1).

(** The bytes of a region. *)
Definition slice (data : list Z) (o n : Z) : list Z := take (Z.to_nat n) (drop (Z.to_nat o) data).

Lemma at8_byte data k : bytes_ok data → 0 ≤ at8 data k < 256.
Proof.
  intros Hb. unfold at8. destruct (data !! _) as [x|] eqn:E; cbn; [|lia].
  by apply (proj1 (list.Forall_forall _ _) Hb), (list_elem_of_lookup_2 _ (Z.to_nat k)).
Qed.

Lemma byte_at_ok data k : 0 ≤ k < Z.of_nat (length data) → byte_at data k = Ret (at8 data k).
Proof.
  intros Hk. unfold byte_at, at8. destruct (zlookup_is_Some data k Hk) as [x Hx]. rewrite Hx.
  unfold zlookup in Hx. destruct (Z.ltb_spec k 0); [lia|]. by rewrite Hx.
Qed.

Lemma at16_range data k : bytes_ok data → 0 ≤ at16 data k < 65536.
Proof. intros Hb. unfold at16. pose proof (at8_byte data k Hb). pose proof (at8_byte data (k + 1) Hb). lia. Qed.

Lemma get2byte_ok data k : bytes_ok data → 0 ≤ k → k + 2 ≤ Z.of_nat (length data) → get2byte data k = Ret (at16 data k).
Proof.
  intros Hb H0 Hk. unfold get2byte. rewrite !byte_at_ok by lia. cbn [mbind outcome_bind]. f_equal.
  pose proof (at8_byte data (k + 1) Hb). rewrite append_bits by lia. unfold at16. lia.
Qed.

(** Zero stands for 65536. *)
Definition nz16 (v : Z) : Z := if v =? 0 then 65536 else v.

Lemma get2byteNotZero_ok data k : bytes_ok data → 0 ≤ k → k + 2 ≤ Z.of_nat (length data) → get2byteNotZero data k = Ret (nz16 (at16 data k)).
Proof.
  intros Hb H0 Hk. unfold get2byteNotZero. rewrite get2byte_ok by done. cbn [mbind outcome_bind]. f_equal.
  pose proof (at16_range data k Hb) as Hr. change 0xffff with (2 ^ 16 - 1). rewrite land_pred_pow2 by lia. unfold nz16.
  destruct (Z.eqb_spec (at16 data k) 0) as [->|?]; [done|]. rewrite Z.mod_small by lia. lia.
Qed.

Lemma be16_bytes v : bytes_ok (be16 v).
Proof. unfold be16. repeat constructor; apply uw_range; lia. Qed.

(** ** Writing *)

Definition splice (data : list Z) (o : Z) (l : list Z) : list Z :=
  take (Z.to_nat o) data ++ l ++ drop (Z.to_nat o + length l) data.

Lemma put_slice_ok data o l : 0 ≤ o → o + Z.of_nat (length l) ≤ Z.of_nat (length data) → put_slice data o l = Ret (splice data o l).
Proof. intros H0 Hl. unfold put_slice. by rewrite (proj2 (Z.leb_le _ _) H0), (proj2 (Z.leb_le _ _) Hl). Qed.

Section Splice.
Context (data : list Z) (o : Z) (l : list Z).
Hypothesis (Ho : 0 ≤ o) (Hl : o + Z.of_nat (length l) ≤ Z.of_nat (length data)).

Lemma splice_length : length (splice data o l) = length data.
Proof. unfold splice. rewrite !length_app, length_take, length_drop. lia. Qed.

Lemma splice_bytes : bytes_ok data → bytes_ok l → bytes_ok (splice data o l).
Proof. intros H1 H2. unfold splice. apply Forall_app_2; [by apply Forall_take|]. apply Forall_app_2; [done|by apply Forall_drop]. Qed.

Lemma splice_in k : o ≤ k < o + Z.of_nat (length l) → at8 (splice data o l) k = at8 l (k - o).
Proof.
  intros Hk. unfold at8, splice. rewrite lookup_app_r by (rewrite length_take; lia). rewrite length_take, Nat.min_l by lia.
  rewrite lookup_app_l by lia. do 2 f_equal. lia.
Qed.

Lemma splice_out k : 0 ≤ k → k < o ∨ o + Z.of_nat (length l) ≤ k → at8 (splice data o l) k = at8 data k.
Proof.
  intros H0 [Hk|Hk]; unfold at8, splice.
  - rewrite lookup_app_l by (rewrite length_take; lia). by rewrite lookup_take_lt by lia.
  - rewrite lookup_app_r by (rewrite length_take; lia). rewrite length_take, Nat.min_l by lia. rewrite lookup_app_r by lia.
    rewrite lookup_drop. do 2 f_equal. lia.
Qed.
End Splice.

(** Two buffers agree outside of a region. *)
Lemma at16_same data data' k : at8 data' k = at8 data k → at8 data' (k + 1) = at8 data (k + 1) → at16 data' k = at16 data k.
Proof. unfold at16. congruence. Qed.

Lemma splice16_in data o v : 0 ≤ o → o + 2 ≤ Z.of_nat (length data) → 0 ≤ v < 65536 → at16 (splice data o (be16 v)) o = v.
Proof.
  intros H0 Hl Hv. unfold at16. rewrite !splice_in by (cbn; lia). rewrite Z.sub_diag. replace (o + 1 - o) with 1 by lia. change (256 * u8 (v .>> 8) + u8 v = v).
  rewrite Z.shiftr_div_pow2 by lia. unfold uw. rewrite (Z.mod_small (v / 2 ^ 8)) by (split; [apply Z.div_pos|apply Z.div_lt_upper_bound]; lia).
  pose proof (Z.div_mod v (2 ^ 8)). lia.
Qed.

Lemma splice16_out data o l k : 0 ≤ o → o + Z.of_nat (length l) ≤ Z.of_nat (length data) → 0 ≤ k → k + 2 ≤ o ∨ o + Z.of_nat (length l) ≤ k →
  at16 (splice data o l) k = at16 data k.
Proof. intros. apply at16_same; apply splice_out; lia. Qed.

(** ** Regions *)

Lemma slice_length data o n : 0 ≤ o → 0 ≤ n → o + n ≤ Z.of_nat (length data) → length (slice data o n) = Z.to_nat n.
Proof. intros. unfold slice. rewrite length_take, length_drop. lia. Qed.

Lemma slice_lookup data o n i : (i < Z.to_nat n)%nat → slice data o n !! i = data !! (Z.to_nat o + i)%nat.
Proof. intros. unfold slice. by rewrite lookup_take_lt, lookup_drop by done. Qed.

Lemma slice_ext data data' o o' n : 0 ≤ o → 0 ≤ o' → 0 ≤ n → o + n ≤ Z.of_nat (length data) → o' + n ≤ Z.of_nat (length data') →
  (∀ k, 0 ≤ k < n → at8 data' (o' + k) = at8 data (o + k)) → slice data' o' n = slice data o n.
Proof.
  intros H1 H2 H3 H4 H5 H. apply (list_eq_same_length _ _ (Z.to_nat n)); [by apply slice_length..|].
  intros i x y Hi Hx Hy. rewrite slice_lookup in Hx, Hy by done. specialize (H (Z.of_nat i) ltac:(lia)). unfold at8 in H.
  replace (Z.to_nat (o + Z.of_nat i)) with (Z.to_nat o + i)%nat in H by lia.
  replace (Z.to_nat (o' + Z.of_nat i)) with (Z.to_nat o' + i)%nat in H by lia. by rewrite Hx, Hy in H.
Qed.

Lemma slice_at8 data o n k : 0 ≤ o → 0 ≤ k < n → at8 (slice data o n) k = at8 data (o + k).
Proof. intros Ho Hk. unfold at8. rewrite slice_lookup by lia. do 2 f_equal. lia. Qed.

Lemma get_slice_ok data o n : 0 ≤ o → 0 ≤ n → o + n ≤ Z.of_nat (length data) → get_slice data o n = Ret (slice data o n).
Proof.
  intros H0 H1 H2. unfold get_slice. by rewrite (proj2 (Z.leb_le _ _) H0), (proj2 (Z.leb_le _ _) H1), (proj2 (Z.leb_le _ _) H2).
Qed.

Lemma slice_splice data o l : 0 ≤ o → o + Z.of_nat (length l) ≤ Z.of_nat (length data) → slice (splice data o l) o (Z.of_nat (length l)) = l.
Proof.
  intros H0 H1. unfold slice, splice. rewrite drop_app_ge, length_take, Nat.min_l, Nat.sub_diag, drop_0 by (rewrite ?length_take; lia).
  by rewrite Nat2Z.id, take_app_length.
Qed.

Lemma slice_bytes data o n : bytes_ok data → bytes_ok (slice data o n).
Proof. intros H. by apply Forall_take, Forall_drop. Qed.

Lemma from_byte_ok data p : 0 ≤ p ≤ Z.of_nat (length data) → from_byte data p = Ret (drop (Z.to_nat p) data).
Proof. intros [H1 H2]. unfold from_byte. by rewrite (proj2 (Z.leb_le _ _) H1), (proj2 (Z.leb_le _ _) H2). Qed.

(** The bytes from an address on begin with the region there. *)
Lemma drop_slice data o n : 0 ≤ o → 0 ≤ n → o + n ≤ Z.of_nat (length data) → drop (Z.to_nat o) data = slice data o n ++ drop (Z.to_nat (o + n)) data.
Proof. intros. unfold slice. rewrite Z2Nat.inj_add by done. rewrite <- drop_drop. by rewrite take_drop. Qed.
