(* ===== verification/BtPage.v ===== *)
(** * Pages of a B-tree

    The page functions of src/btree.c: a page in memory ([MemPage]) with the
    image of the page, the sizes of cells, the allocation of space on a page with
    its list of free blocks, and the initialisation of pages. *)

From S2P Require Import Prelude Varint Buffer.
#[local] Open Scope Z_scope.
#[local] Open Scope c_scope.
#[local] Open Scope list_scope.

Definition SQLITE_OK : Z := 0.
Definition SQLITE_CORRUPT : Z := 11.

Definition PTF_INTKEY : Z := 0x01.
Definition PTF_ZERODATA : Z := 0x02.
Definition PTF_LEAFDATA : Z := 0x04.
Definition PTF_LEAF : Z := 0x08.

(** What pages share: of [BtShared]. *)
Record BtShared := MkShared {
  pageSize : Z;
  usableSize : Z;
  bt_maxLocal : Z;
  bt_minLocal : Z;
  bt_maxLeaf : Z;
  bt_minLeaf : Z;
  bt_max1bytePayload : Z;
  secureDelete : bool;
  autoVacuum : bool }.

(** The limits that [lockBtree] computes for a page size. *)
Definition lockBtree_limits (pageSize usableSize : Z) (secureDelete autoVacuum : bool) : outcome BtShared :=
  let maxLocal := u16 (u32 (u32 (u32 (usableSize - 12) * 64) / 255 - 23)) in
  let minLocal := u16 (u32 (u32 (u32 (usableSize - 12) * 32) / 255 - 23)) in
  let maxLeaf := u16 (u32 (usableSize - 35)) in
  let minLeaf := u16 (u32 (u32 (u32 (usableSize - 12) * 32) / 255 - 23)) in
  let max1bytePayload := if 127 <? maxLocal then 127 else u8 maxLocal in
  _ ← c_assert (maxLeaf + 23 <=? i32 (u32 (pageSize - 8)));
  Ret (MkShared pageSize usableSize maxLocal minLocal maxLeaf minLeaf max1bytePayload secureDelete autoVacuum).

(** [MX_CELL(pBt)] *)
Definition MX_CELL (bt : BtShared) : Z := (pageSize bt - 8) / 6.

(** The overflow cells are pairs of an index [aiOvfl] and the bytes at
    [apOvfl]; [nOverflow] is their number. *)
Record MemPage := MkPage {
  isInit : Z;
  intKey : Z;
  leaf : Z;
  hasData : Z;
  hdrOffset : Z;
  childPtrSize : Z;
  max1bytePayload : Z;
  maxLocal : Z;
  minLocal : Z;
  cellOffset : Z;
  nFree : Z;
  nCell : Z;
  maskPage : Z;
  apOvfl : list (Z * list Z);
  aData : list Z;
  pgno : Z }.

Definition nOverflow (p : MemPage) : Z := Z.of_nat (length (apOvfl p)).

Definition set_aData (d : list Z) (p : MemPage) : MemPage :=
  MkPage (isInit p) (intKey p) (leaf p) (hasData p) (hdrOffset p) (childPtrSize p) (max1bytePayload p) (maxLocal p) (minLocal p)
    (cellOffset p) (nFree p) (nCell p) (maskPage p) (apOvfl p) d (pgno p).
Definition set_nFree (n : Z) (p : MemPage) : MemPage :=
  MkPage (isInit p) (intKey p) (leaf p) (hasData p) (hdrOffset p) (childPtrSize p) (max1bytePayload p) (maxLocal p) (minLocal p)
    (cellOffset p) n (nCell p) (maskPage p) (apOvfl p) (aData p) (pgno p).
Definition set_nCell (n : Z) (p : MemPage) : MemPage :=
  MkPage (isInit p) (intKey p) (leaf p) (hasData p) (hdrOffset p) (childPtrSize p) (max1bytePayload p) (maxLocal p) (minLocal p)
    (cellOffset p) (nFree p) n (maskPage p) (apOvfl p) (aData p) (pgno p).
Definition set_apOvfl (o : list (Z * list Z)) (p : MemPage) : MemPage :=
  MkPage (isInit p) (intKey p) (leaf p) (hasData p) (hdrOffset p) (childPtrSize p) (max1bytePayload p) (maxLocal p) (minLocal p)
    (cellOffset p) (nFree p) (nCell p) (maskPage p) o (aData p) (pgno p).
Definition set_isInit (i : Z) (p : MemPage) : MemPage :=
  MkPage i (intKey p) (leaf p) (hasData p) (hdrOffset p) (childPtrSize p) (max1bytePayload p) (maxLocal p) (minLocal p)
    (cellOffset p) (nFree p) (nCell p) (maskPage p) (apOvfl p) (aData p) (pgno p).
Definition set_leaf (l c : Z) (p : MemPage) : MemPage :=
  MkPage (isInit p) (intKey p) l (hasData p) (hdrOffset p) c (max1bytePayload p) (maxLocal p) (minLocal p)
    (cellOffset p) (nFree p) (nCell p) (maskPage p) (apOvfl p) (aData p) (pgno p).
Definition set_kind (ik hd mx mn m1 : Z) (p : MemPage) : MemPage :=
  MkPage (isInit p) ik (leaf p) hd (hdrOffset p) (childPtrSize p) m1 mx mn
    (cellOffset p) (nFree p) (nCell p) (maskPage p) (apOvfl p) (aData p) (pgno p).
Definition set_place (off mask : Z) (p : MemPage) : MemPage :=
  MkPage (isInit p) (intKey p) (leaf p) (hasData p) (hdrOffset p) (childPtrSize p) (max1bytePayload p) (maxLocal p) (minLocal p)
    off (nFree p) (nCell p) mask (apOvfl p) (aData p) (pgno p).

(** Access to the image. *)
Definition rd8 (k : Z) : sm MemPage Z := sm_gets (λ p, byte_at (aData p) k).
Definition rd16 (k : Z) : sm MemPage Z := sm_gets (λ p, get2byte (aData p) k).
Definition wr (k : Z) (l : list Z) : sm MemPage () := λ p,
  match put_slice (aData p) k l with Ret d => Ret ((), set_aData d p) | Undef f => Undef f end.
Definition wr16 (k v : Z) : sm MemPage () := wr k (be16 v).

(** ** Cells *)

Record CellInfo := MkInfo {
  nKey : Z;
  nData : Z;
  nPayload : Z;
  nHeader : Z;
  nLocal : Z;
  iOverflow : Z;
  nSize : Z }.

Section Page.
Context (bt : BtShared).

Definition btreeParseCellPtr (p : MemPage) (pCell : list Z) : outcome CellInfo :=
  _ ← c_assert ((leaf p =? 0) || (leaf p =? 1));
  let n := childPtrSize p in
  _ ← c_assert (n =? 4 - 4 * leaf p);
  '(key, data, nPayload, n) ←
    (if negb (intKey p =? 0) then
       '(nPayload, n) ← (if negb (hasData p =? 0) then _ ← c_assert (n =? 0); getVarint32 pCell else Ret (0, n));
       q ← from_byte pCell n;
       '(key, k) ← sqlite3GetVarint q;
       Ret (i64 key, nPayload, nPayload, u16 (n + k))
     else
       q ← from_byte pCell n;
       '(nPayload, k) ← getVarint32 q;
       Ret (nPayload, 0, nPayload, u16 (n + k)));
  if nPayload <=? maxLocal p then
    let nSize := u16 (n + nPayload) in
    Ret (MkInfo key data nPayload n (u16 nPayload) 0 (if nSize <? 4 then 4 else nSize))
  else
    let surplus := i32 (u32 (minLocal p + u32 (nPayload - minLocal p) mod u32 (usableSize bt - 4))) in
    let nLocal := if surplus <=? maxLocal p then u16 surplus else u16 (minLocal p) in
    let iOverflow := u16 (nLocal + n) in
    Ret (MkInfo key data nPayload n nLocal iOverflow (u16 (iOverflow + 4))).

(** [while( ( *pIter++)&0x80 && pIter<pEnd );] with [fuel] bytes before [pEnd]: the bytes passed. *)
Fixpoint skip_key (fuel : nat) (q : list Z) : outcome Z :=
  match fuel with
  | O => Ret 0
  | S fuel' =>
      b ← byte_at q 0;
      if no_flag b then Ret 1 else k ← skip_key fuel' (tail q); Ret (1 + k)
  end.

Definition cellSizePtr (p : MemPage) (pCell : list Z) : outcome Z :=
  pIter ← from_byte pCell (childPtrSize p);
  '(nSize, n) ←
    (if negb (intKey p =? 0) then
       '(nSize, n) ← (if negb (hasData p =? 0) then getVarint32 pIter else Ret (0, 0));
       q ← from_byte pIter n;
       k ← skip_key 9 q;
       Ret (nSize, n + k)
     else getVarint32 pIter);
  let nSize :=
    if maxLocal p <? nSize then
      let nSize := u32 (minLocal p + u32 (nSize - minLocal p) mod u32 (usableSize bt - 4)) in
      u32 ((if maxLocal p <? nSize then minLocal p else nSize) + 4)
    else nSize in
  let nSize := u32 (nSize + u32 (childPtrSize p + n)) in
  Ret (u16 (if nSize <? 4 then 4 else nSize)).

(** [findCell(P,I)]: the offset of a cell. *)
Definition findCell (i : Z) : sm MemPage Z :=
  p ← sm_get id;
  v ← rd16 (cellOffset p + 2 * i);
  mret (maskPage p .& v).

(** ** Space on a page *)

(** The loop of [defragmentPage] with [left] cells left: the result code and
    [cbrk]. *)
Fixpoint defrag_loop (left : nat) (temp : list Z) (i iCellFirst iCellLast cbrk : Z) : sm MemPage (Z * Z) :=
  match left with
  | O => mret (SQLITE_OK, cbrk)
  | S left' =>
      pAddr ← sm_get (λ p, cellOffset p + i * 2);
      pc ← rd16 pAddr;
      if (pc <? iCellFirst) || (iCellLast <? pc) then mret (SQLITE_CORRUPT, cbrk) else
      size ← sm_gets (λ p, q ← from_byte temp pc; cellSizePtr p q);
      let cbrk := cbrk - size in
      if (cbrk <? iCellFirst) || (usableSize bt <? pc + size) then mret (SQLITE_CORRUPT, cbrk) else
      _ ← sm_lift (c_assert ((cbrk + size <=? usableSize bt) && (iCellFirst <=? cbrk)));
      body ← sm_lift (get_slice temp pc size);
      _ ← wr cbrk body;
      _ ← wr16 pAddr cbrk;
      defrag_loop left' temp (i + 1) iCellFirst iCellLast cbrk
  end.

(** [temp] is what the temporary buffer of the pager holds before the call. *)
Definition defragmentPage (temp : list Z) : sm MemPage Z :=
  _ ← sm_gets (λ p, c_assert (nOverflow p =? 0));
  hdr ← sm_get hdrOffset;
  cellOffset ← sm_get cellOffset;
  nCell ← sm_get nCell;
  n ← rd16 (hdr + 3);
  _ ← sm_lift (c_assert (nCell =? n));
  cbrk ← rd16 (hdr + 5);
  temp ← sm_gets (λ p, body ← get_slice (aData p) cbrk (usableSize bt - cbrk); put_slice temp cbrk body);
  let iCellFirst := cellOffset + 2 * nCell in
  let iCellLast := usableSize bt - 4 in
  '(rc, cbrk) ← defrag_loop (Z.to_nat nCell) temp 0 iCellFirst iCellLast (usableSize bt);
  if negb (rc =? SQLITE_OK) then mret rc else
  _ ← sm_lift (c_assert (iCellFirst <=? cbrk));
  _ ← wr16 (hdr + 5) cbrk;
  _ ← wr (hdr + 1) [0];
  _ ← wr (hdr + 2) [0];
  _ ← wr (hdr + 7) [0];
  _ ← wr iCellFirst (replicate (Z.to_nat (cbrk - iCellFirst)) 0);
  nFree ← sm_get nFree;
  if negb (cbrk - iCellFirst =? nFree) then mret SQLITE_CORRUPT else mret SQLITE_OK.

(** [for(addr=hdr+1; (pc = get2byte(&data[addr]))>0; addr=pc)]: [None] when no
    block is large enough, otherwise the result code and the address. *)
Fixpoint search_free (fuel : nat) (addr hdr nFrag nByte : Z) : sm MemPage (option (Z * Z)) :=
  pc ← rd16 addr;
  if negb (0 <? pc) then mret None else
  match fuel with
  | O => sm_lift (Undef OutOfFuel)
  | S fuel' =>
      if (usableSize bt - 4 <? pc) || (pc <? addr + 4) then mret (Some (SQLITE_CORRUPT, 0)) else
      size ← rd16 (pc + 2);
      if nByte <=? size then
        let x := size - nByte in
        if x <? 4 then
          b ← sm_gets (λ p, get_slice (aData p) pc 2);
          _ ← wr addr b;
          _ ← wr (hdr + 7) [u8 (nFrag + x)];
          mret (Some (SQLITE_OK, pc + x))
        else if usableSize bt <? size + pc then mret (Some (SQLITE_CORRUPT, 0))
        else
          _ ← wr16 (pc + 2) x;
          mret (Some (SQLITE_OK, pc + x))
      else search_free fuel' pc hdr nFrag nByte
  end.

(** The end of [allocateSpace]: the bytes come from the gap, if necessary after
    the page has been defragmented. *)
Definition alloc_gap (temp : list Z) (hdr gap top nByte : Z) : sm MemPage (Z * Z) :=
  '(rc, top) ←
    (if top <? gap + 2 + nByte then
       rc ← defragmentPage temp;
       if negb (rc =? SQLITE_OK) then mret (rc, 0) else
       top ← sm_gets (λ p, get2byteNotZero (aData p) (hdr + 5));
       _ ← sm_lift (c_assert (gap + nByte <=? top));
       mret (SQLITE_OK, top)
     else mret (SQLITE_OK, top));
  if negb (rc =? SQLITE_OK) then mret (rc, 0) else
  let top := top - nByte in
  _ ← wr16 (hdr + 5) top;
  _ ← sm_lift (c_assert (top + nByte <=? usableSize bt));
  mret (SQLITE_OK, top).

(** The result code and [*pIdx]. *)
Definition allocateSpace (temp : list Z) (nByte : Z) : sm MemPage (Z * Z) :=
  hdr ← sm_get hdrOffset;
  _ ← sm_gets (λ p, c_assert ((0 <=? nByte) && (nByte <=? nFree p) && (nOverflow p =? 0) && (nByte <? usableSize bt - 8)));
  nFrag ← rd8 (hdr + 7);
  _ ← sm_gets (λ p, c_assert (cellOffset p =? hdr + 12 - 4 * leaf p));
  gap ← sm_get (λ p, cellOffset p + 2 * nCell p);
  top ← sm_gets (λ p, get2byteNotZero (aData p) (hdr + 5));
  if top <? gap then mret (SQLITE_CORRUPT, 0) else
  if 60 <=? nFrag then
    rc ← defragmentPage temp;
    if negb (rc =? SQLITE_OK) then mret (rc, 0) else
    top ← sm_gets (λ p, get2byteNotZero (aData p) (hdr + 5));
    alloc_gap temp hdr gap top nByte
  else
    r ← (if gap + 2 <=? top then search_free (Z.to_nat (usableSize bt)) (hdr + 1) hdr nFrag nByte else mret None);
    match r with
    | Some (rc, pc) => mret (rc, pc)
    | None => alloc_gap temp hdr gap top nByte
    end.

(** [while( (pbegin = get2byte(&data[addr]))<start && pbegin>0 )]: [addr] and
    [pbegin], or [None] for a corrupt list. *)
Fixpoint find_slot (fuel : nat) (addr start : Z) : sm MemPage (option (Z * Z)) :=
  pbegin ← rd16 addr;
  if (pbegin <? start) && (0 <? pbegin) then
    match fuel with
    | O => sm_lift (Undef OutOfFuel)
    | S fuel' => if pbegin <? addr + 4 then mret None else find_slot fuel' pbegin start
    end
  else mret (Some (addr, pbegin)).

(** [while( (pbegin = get2byte(&data[addr]))>0 )] of [freeSpace]. *)
Fixpoint coalesce_loop (fuel : nat) (addr hdr : Z) : sm MemPage Z :=
  pbegin ← rd16 addr;
  if negb (0 <? pbegin) then mret SQLITE_OK else
  match fuel with
  | O => sm_lift (Undef OutOfFuel)
  | S fuel' =>
      _ ← sm_lift (c_assert ((addr <? pbegin) && (pbegin <=? usableSize bt - 4)));
      pnext ← rd16 pbegin;
      psize ← rd16 (pbegin + 2);
      if (pnext <=? pbegin + psize + 3) && (0 <? pnext) then
        let frag := pnext - (pbegin + psize) in
        f ← rd8 (hdr + 7);
        if (frag <? 0) || (f <? frag) then mret SQLITE_CORRUPT else
        _ ← wr (hdr + 7) [u8 (f - u8 frag)];
        x ← rd16 pnext;
        _ ← wr16 pbegin x;
        s ← rd16 (pnext + 2);
        _ ← wr16 (pbegin + 2) (pnext + s - pbegin);
        coalesce_loop fuel' addr hdr
      else coalesce_loop fuel' pbegin hdr
  end.

(** If the cell content area begins with a free block, it is removed. *)
Definition trim_top (hdr : Z) : sm MemPage () :=
  a ← rd8 (hdr + 1); b ← rd8 (hdr + 5); c ← rd8 (hdr + 2); d ← rd8 (hdr + 6);
  if (a =? b) && (c =? d) then
    pbegin ← rd16 (hdr + 1);
    l ← sm_gets (λ p, get_slice (aData p) pbegin 2);
    _ ← wr (hdr + 1) l;
    t ← rd16 (hdr + 5);
    s ← rd16 (pbegin + 2);
    wr16 (hdr + 5) (t + s)
  else mret ().

Definition freeSpace (start size : Z) : sm MemPage Z :=
  _ ← sm_gets (λ p, c_assert ((hdrOffset p + 6 + childPtrSize p <=? start) && (start + size <=? usableSize bt) && (0 <=? size)));
  _ ← (if secureDelete bt then wr start (replicate (Z.to_nat size) 0) else mret ());
  hdr ← sm_get hdrOffset;
  let iLast := usableSize bt - 4 in
  _ ← sm_lift (c_assert (start <=? iLast));
  slot ← find_slot (Z.to_nat (usableSize bt)) (hdr + 1) start;
  match slot with
  | None => mret SQLITE_CORRUPT
  | Some (addr, pbegin) =>
      if iLast <? pbegin then mret SQLITE_CORRUPT else
      _ ← sm_lift (c_assert ((addr <? pbegin) || (pbegin =? 0)));
      _ ← wr16 addr start;
      _ ← wr16 start pbegin;
      _ ← wr16 (start + 2) size;
      _ ← sm_mod (λ p, set_nFree (u16 (nFree p + u16 size)) p);
      rc ← coalesce_loop (Z.to_nat (2 * usableSize bt)) (hdr + 1) hdr;
      if negb (rc =? SQLITE_OK) then mret rc else
      _ ← trim_top hdr;
      mret SQLITE_OK
  end.

(** ** Setting up pages *)

Definition decodeFlags (flagByte : Z) : sm MemPage Z :=
  _ ← sm_gets (λ p, c_assert (hdrOffset p =? (if pgno p =? 1 then 100 else 0)));
  let leaf := u8 (flagByte .>> 3) in
  _ ← sm_mod (set_leaf leaf (u8 (4 - 4 * leaf)));
  let flagByte := flagByte .& Z.lnot PTF_LEAF in
  if flagByte =? (PTF_LEAFDATA .| PTF_INTKEY) then
    _ ← sm_mod (set_kind 1 leaf (bt_maxLeaf bt) (bt_minLeaf bt) (bt_max1bytePayload bt));
    mret SQLITE_OK
  else if flagByte =? PTF_ZERODATA then
    _ ← sm_mod (set_kind 0 0 (bt_maxLocal bt) (bt_minLocal bt) (bt_max1bytePayload bt));
    mret SQLITE_OK
  else mret SQLITE_CORRUPT.

(** [while( pc>0 )] of [btreeInitPage]: [nFree], or [None] for a corrupt list. *)
Fixpoint sum_free (fuel : nat) (pc iCellFirst iCellLast nFree : Z) : sm MemPage (option Z) :=
  if negb (0 <? pc) then mret (Some nFree) else
  match fuel with
  | O => sm_lift (Undef OutOfFuel)
  | S fuel' =>
      if (pc <? iCellFirst) || (iCellLast <? pc) then mret None else
      next ← rd16 pc;
      size ← rd16 (pc + 2);
      if ((0 <? next) && (next <=? pc + size + 3)) || (usableSize bt <? pc + size) then mret None else
      sum_free fuel' next iCellFirst iCellLast (nFree + size)
  end.

Definition btreeInitPage : sm MemPage Z :=
  i ← sm_get isInit;
  if negb (i =? 0) then mret SQLITE_OK else
  hdr ← sm_get hdrOffset;
  f ← rd8 hdr;
  rc ← decodeFlags f;
  if negb (rc =? SQLITE_OK) then mret SQLITE_CORRUPT else
  _ ← sm_lift (c_assert ((512 <=? pageSize bt) && (pageSize bt <=? 65536)));
  leaf ← sm_get leaf;
  let cellOffset := u16 (hdr + 12 - 4 * leaf) in
  _ ← sm_mod (λ p, set_apOvfl [] (set_place cellOffset (u16 (pageSize bt - 1)) p));
  top ← sm_gets (λ p, get2byteNotZero (aData p) (hdr + 5));
  n ← rd16 (hdr + 3);
  _ ← sm_mod (set_nCell n);
  if MX_CELL bt <? n then mret SQLITE_CORRUPT else
  let iCellFirst := cellOffset + 2 * n in
  let iCellLast := usableSize bt - 4 in
  pc ← rd16 (hdr + 1);
  frag ← rd8 (hdr + 7);
  r ← sum_free (Z.to_nat (usableSize bt)) pc iCellFirst iCellLast (frag + top);
  match r with
  | None => mret SQLITE_CORRUPT
  | Some nFree =>
      if usableSize bt <? nFree then mret SQLITE_CORRUPT else
      _ ← sm_mod (λ p, set_isInit 1 (set_nFree (u16 (nFree - iCellFirst)) p));
      mret SQLITE_OK
  end.

Definition zeroPage (flags : Z) : sm MemPage () :=
  hdr ← sm_get hdrOffset;
  _ ← (if secureDelete bt then wr hdr (replicate (Z.to_nat (usableSize bt - hdr)) 0) else mret ());
  _ ← wr hdr [u8 flags];
  let first := u16 (hdr + (if flags .& PTF_LEAF =? 0 then 12 else 8)) in
  _ ← wr (hdr + 1) (replicate 4 0);
  _ ← wr (hdr + 7) [0];
  _ ← wr16 (hdr + 5) (usableSize bt);
  _ ← sm_mod (set_nFree (u16 (usableSize bt - first)));
  _ ← decodeFlags flags;
  _ ← sm_lift (c_assert ((512 <=? pageSize bt) && (pageSize bt <=? 65536)));
  sm_mod (λ p, set_isInit 1 (set_nCell 0 (set_apOvfl [] (set_place first (u16 (pageSize bt - 1)) p)))).

(** ** Cells of a page *)

Definition dropCell (idx sz rc : Z) : sm MemPage Z :=
  if negb (rc =? SQLITE_OK) then mret rc else
  n ← sm_get nCell;
  _ ← sm_lift (c_assert ((0 <=? idx) && (idx <? n)));
  o ← findCell idx;
  _ ← sm_gets (λ p, q ← from_byte (aData p) o; s ← cellSizePtr p q; c_assert (sz =? s));
  ptr ← sm_get (λ p, cellOffset p + 2 * idx);
  pc ← rd16 ptr;
  hdr ← sm_get hdrOffset;
  t ← rd16 (hdr + 5);
  if (pc <? t) || (usableSize bt <? u32 (pc + sz)) then mret SQLITE_CORRUPT else
  rc ← freeSpace pc sz;
  if negb (rc =? SQLITE_OK) then mret rc else
  _ ← sm_mod (λ p, set_nCell (u16 (nCell p - 1)) p);
  n ← sm_get nCell;
  l ← sm_gets (λ p, get_slice (aData p) (ptr + 2) (2 * (n - idx)));
  _ ← wr ptr l;
  _ ← wr16 (hdr + 3) n;
  _ ← sm_mod (λ p, set_nFree (u16 (nFree p + 2)) p);
  mret SQLITE_OK.

(** The cell with its first four bytes replaced by a page number. *)
Definition with_child (iChild : Z) (pCell : list Z) : list Z :=
  if iChild =? 0 then pCell else sqlite3Put4byte iChild ++ drop 4 pCell.

(** [insertCell] of the cell with the bytes [pCell] ([sz] of them), when
    [sqlite3PagerWrite] answers [wrc], up to the entry of the pointer map.
    The copy in [pTemp] has the same bytes as the cell. *)
Definition insertCell (temp : list Z) (wrc i : Z) (pCell : list Z) (iChild rc : Z) : sm MemPage Z :=
  if negb (rc =? SQLITE_OK) then mret rc else
  let sz := Z.of_nat (length pCell) in
  let nSkip := if iChild =? 0 then 0 else 4 in
  _ ← sm_gets (λ p, c_assert ((0 <=? i) && (i <=? nCell p + nOverflow p)));
  _ ← sm_gets (λ p, c_assert ((nCell p <=? MX_CELL bt) && (MX_CELL bt <=? 10921)));
  _ ← sm_gets (λ p, c_assert (nOverflow p <=? 5));
  _ ← sm_gets (λ p, s ← cellSizePtr p pCell; c_assert ((sz =? s) || ((sz =? 8) && (0 <? iChild))));
  nOv ← sm_get nOverflow;
  nFr ← sm_get nFree;
  if negb (nOv =? 0) || (nFr <? sz + 2) then
    _ ← sm_lift (c_assert (nOv <? 5));
    _ ← sm_mod (λ p, set_apOvfl (apOvfl p ++ [(u16 i, with_child iChild pCell)]) p);
    mret SQLITE_OK
  else
    if negb (wrc =? SQLITE_OK) then mret wrc else
    cellOffset ← sm_get cellOffset;
    n ← sm_get nCell;
    let end_ := cellOffset + 2 * n in
    let ins := cellOffset + 2 * i in
    '(rc, idx) ← allocateSpace temp sz;
    if negb (rc =? SQLITE_OK) then mret rc else
    _ ← sm_lift (c_assert ((end_ + 2 <=? idx) && (idx + sz <=? usableSize bt)));
    _ ← sm_mod (λ p, set_nFree (u16 (nFree p - u16 (2 + sz))) (set_nCell (u16 (nCell p + 1)) p));
    body ← sm_lift (get_slice pCell nSkip (sz - nSkip));
    _ ← wr (idx + nSkip) body;
    _ ← (if iChild =? 0 then mret () else wr idx (sqlite3Put4byte iChild));
    l ← sm_gets (λ p, get_slice (aData p) ins (end_ - ins));
    _ ← wr (ins + 2) l;
    _ ← wr16 ins idx;
    hdr ← sm_get hdrOffset;
    n ← sm_get nCell;
    _ ← wr16 (hdr + 3) n;
    mret SQLITE_OK.

(** The loop of [assemblePage] from the last cell to the first: [cellbody]. *)
Fixpoint assemble_loop (cells : list (list Z)) (pCellptr cellbody : Z) : sm MemPage Z :=
  match cells with
  | [] => mret cellbody
  | c :: cells' =>
      let cellbody := cellbody - Z.of_nat (length c) in
      _ ← wr16 (pCellptr - 2) cellbody;
      _ ← wr cellbody c;
      assemble_loop cells' (pCellptr - 2) cellbody
  end.

(** [assemblePage] of the cells with the bytes [apCell]. *)
Definition assemblePage (apCell : list (list Z)) : sm MemPage () :=
  let n := Z.of_nat (length apCell) in
  _ ← sm_gets (λ p, c_assert ((nOverflow p =? 0) && (n <=? MX_CELL bt) && (MX_CELL bt <=? 10921) && (nCell p =? 0)));
  hdr ← sm_get hdrOffset;
  _ ← sm_gets (λ p, t ← get2byteNotZero (aData p) (hdr + 5); c_assert (t =? usableSize bt));
  off ← sm_get cellOffset;
  cellbody ← assemble_loop (rev apCell) (off + n * 2) (usableSize bt);
  _ ← wr16 (hdr + 3) n;
  _ ← wr16 (hdr + 5) cellbody;
  sm_mod (λ p, set_nCell (u16 n) (set_nFree (u16 (nFree p - (n * 2 + usableSize bt - cellbody))) p)).
End Page.
