(* ===== verification/BtLayout.v ===== *)
(** * The layout of a B-tree page

    Between the cell pointers and the end of a page there are cells, free blocks
    linked in a list, and fragments of up to three bytes. The regions of cells
    and free blocks do not overlap, and everything that is not in one of them is
    counted as free. *)

From S2P Require Import Prelude Varint Buffer BtPage.
#[local] Open Scope Z_scope.
#[local] Open Scope c_scope.
#[local] Open Scope list_scope.

(** ** Regions *)

(** A region is an offset and a size. *)
Definition disj (r s : Z * Z) : Prop := r.1 + r.2 ≤ s.1 ∨ s.1 + s.2 ≤ r.1.

Fixpoint apart (l : list (Z * Z)) : Prop :=
  match l with [] => True | r :: l' => Forall (disj r) l' ∧ apart l' end.

Fixpoint size_of (l : list (Z * Z)) : Z := match l with [] => 0 | r :: l' => r.2 + size_of l' end.

Definition within (lo m hi : Z) (r : Z * Z) : Prop := lo ≤ r.1 ∧ m ≤ r.2 ∧ r.1 + r.2 ≤ hi.

Lemma disj_sym r s : disj r s → disj s r.
Proof. unfold disj. tauto. Qed.

Lemma apart_perm l l' : l ≡ₚ l' → apart l → apart l'.
Proof.
  induction 1 as [|x l1 l2 Hp IH|x y l1|l1 l2 l3 Hp1 IH1 Hp2 IH2]; cbn; try done; [|..|by auto].
  - intros [H1 H2]. split; [by rewrite <- Hp|auto].
  - intros (H1 & H2 & H3). inversion H1; subst. split; [constructor; [by apply disj_sym|done]|done].
Qed.

Lemma size_of_perm l l' : l ≡ₚ l' → size_of l = size_of l'.
Proof. induction 1; cbn in *; lia. Qed.

Lemma size_of_app l l' : size_of (l ++ l') = size_of l + size_of l'.
Proof. induction l; cbn in *; lia. Qed.

Lemma size_of_nonneg lo m hi l : 0 ≤ m → Forall (within lo m hi) l → 0 ≤ size_of l.
Proof. unfold within. intros Hm. induction 1; cbn; lia. Qed.

Lemma apart_app l l' : apart l → apart l' → Forall (λ r, Forall (disj r) l') l → apart (l ++ l').
Proof.
  induction l as [|r l IH]; [done|]. intros [H1 H2] H' H. inversion H; subst. cbn. split; [by apply Forall_app_2|auto].
Qed.

(** Regions that do not overlap fit in the space around them. *)
Definition region_bytes (l : list (Z * Z)) : list Z := concat ((λ r, seqZ r.1 r.2) <$> l).

Lemma region_bytes_length l : Forall (λ r, 0 ≤ r.2) l → Z.of_nat (length (region_bytes l)) = size_of l.
Proof.
  unfold region_bytes. induction 1 as [|r l Hr _ IH]; cbn in *; [done|]. rewrite length_app, length_seqZ. lia.
Qed.

Lemma region_bytes_in l k : k ∈ region_bytes l → ∃ r, r ∈ l ∧ r.1 ≤ k < r.1 + r.2.
Proof.
  unfold region_bytes. induction l as [|r l IH]; cbn; [intros H; by apply list.elem_of_nil in H|].
  intros [H|H]%list.elem_of_app.
  - exists r. split; [left|]. apply list.elem_of_seqZ in H. lia.
  - destruct (IH H) as (r' & H1 & H2). exists r'. split; [by right|done].
Qed.

Lemma apart_NoDup l : apart l → NoDup (region_bytes l).
Proof.
  unfold region_bytes. induction l as [|r l IH]; cbn; [constructor|]. intros [H1 H2]. apply list.NoDup_app. split; [apply NoDup_seqZ|].
  split; [|by apply IH]. intros k Hk Hk2. apply region_bytes_in in Hk2 as (s & Hs & Hks). apply list.elem_of_seqZ in Hk.
  pose proof (proj1 (list.Forall_forall _ _) H1 s Hs) as [?|?]; lia.
Qed.

Lemma apart_fits lo hi l : apart l → Forall (within lo 0 hi) l → lo ≤ hi → size_of l ≤ hi - lo.
Proof.
  intros Ha Hw Hle. rewrite <- region_bytes_length by (eapply list.Forall_impl; [exact Hw|]; unfold within; cbn; lia).
  assert (region_bytes l ⊆+ seqZ lo (hi - lo)) as Hs.
  { apply NoDup_submseteq; [by apply apart_NoDup|]. intros k Hk. apply region_bytes_in in Hk as (r & Hr & Hkr). apply list.elem_of_seqZ.
    pose proof (proj1 (list.Forall_forall _ _) Hw r Hr) as (?&?&?). lia. }
  apply submseteq_length in Hs. rewrite length_seqZ in Hs. lia.
Qed.

(** ** Lists of free blocks *)

(** The blocks of the list whose head is at [addr]. *)
Fixpoint chain (data : list Z) (addr : Z) (fs : list (Z * Z)) : Prop :=
  match fs with
  | [] => at16 data addr = 0
  | (o, n) :: fs' => at16 data addr = o ∧ at16 data (o + 2) = n ∧ chain data o fs'
  end.

(** Blocks of at least four bytes in ascending order, with [g] bytes between. *)
Fixpoint ascending (g lo hi : Z) (fs : list (Z * Z)) : Prop :=
  match fs with
  | [] => True
  | (o, n) :: fs' => lo ≤ o ∧ 4 ≤ n ∧ o + n ≤ hi ∧ ascending g (o + n + g) hi fs'
  end.

Lemma chain_frame data data' addr addr' fs : chain data addr fs → at16 data' addr' = at16 data addr →
  (∀ o n, (o, n) ∈ fs → at16 data' o = at16 data o ∧ at16 data' (o + 2) = at16 data (o + 2)) → chain data' addr' fs.
Proof.
  revert addr addr'. induction fs as [|[o n] fs IH]; intros addr addr'; cbn; [congruence|]. intros (H1 & H2 & H3) Ha H.
  destruct (H o n ltac:(left)) as [Ho1 Ho2]. split; [congruence|]. split; [congruence|]. apply (IH o); [done|done|]. intros o' n' Hin. apply (H o' n'). by right.
Qed.

Lemma ascending_in g lo hi fs o n : 0 ≤ g → ascending g lo hi fs → (o, n) ∈ fs → lo ≤ o ∧ 4 ≤ n ∧ o + n ≤ hi.
Proof.
  intros Hg. revert lo. induction fs as [|[o' n'] fs IH]; intros lo; cbn; [intros _ H; by apply list.elem_of_nil in H|].
  intros (H1 & H2 & H3 & H4) [E|H]%list.elem_of_cons; [by simplify_eq|]. destruct (IH _ H4 H). lia.
Qed.

Lemma ascending_lower g lo lo' hi fs : lo' ≤ lo → ascending g lo hi fs → ascending g lo' hi fs.
Proof. destruct fs as [|[o n] fs]; cbn; [done|]. intros ? (?&?&?&?). repeat split; lia || done. Qed.

Lemma ascending_gap g g' lo hi fs : g' ≤ g → ascending g lo hi fs → ascending g' lo hi fs.
Proof.
  intros Hg. revert lo. induction fs as [|[o n] fs IH]; intros lo; cbn; [done|]. intros (?&?&?&H). do 3 (split; [done|]).
  apply IH. eapply ascending_lower; [|done]. lia.
Qed.

Lemma ascending_within g lo hi fs : 0 ≤ g → ascending g lo hi fs → Forall (within lo 4 hi) fs.
Proof. intros Hg H. apply list.Forall_forall. intros [o n] Hin. by apply (ascending_in g lo hi fs o n). Qed.

Lemma ascending_apart g lo hi fs : 0 ≤ g → ascending g lo hi fs → apart fs.
Proof.
  intros Hg. revert lo. induction fs as [|[o n] fs IH]; intros lo; cbn; [done|]. intros (H1 & H2 & H3 & H4). split; [|by eapply IH].
  apply list.Forall_forall. intros [o' n'] Hin. destruct (ascending_in _ _ _ _ _ _ Hg H4 Hin). left. cbn. lia.
Qed.

Lemma ascending_pair g lo hi fs o n o' n' : ascending g lo hi fs → (o, n) ∈ fs → (o', n') ∈ fs → 0 ≤ g → o = o' ∨ o + n + g ≤ o' ∨ o' + n' + g ≤ o.
Proof.
  intros Ha H1 H2 Hg. revert lo Ha. induction fs as [|[x m] fs IH]; intros lo; [by apply list.elem_of_nil in H1|]. cbn. intros (A1 & A2 & A3 & A4).
  apply list.elem_of_cons in H1, H2. destruct H1 as [E1|H1], H2 as [E2|H2]; simplify_eq; [by left| | |by eapply IH].
  - destruct (ascending_in _ _ _ _ _ _ Hg A4 H2). lia.
  - destruct (ascending_in _ _ _ _ _ _ Hg A4 H1). lia.
Qed.

Lemma ascending_length lo hi fs : ascending 0 lo hi fs → Z.of_nat (length fs) * 4 ≤ Z.max 0 (hi - lo).
Proof.
  revert lo. induction fs as [|[o n] fs IH]; intros lo; cbn [length ascending]; [lia|]. intros (H1 & H2 & H3 & H4%IH). lia.
Qed.

(** ** Coalescing *)

(** What [freeSpace] makes of a list that begins with the block [o, n]. *)
Fixpoint coalesce (o n : Z) (fs : list (Z * Z)) : list (Z * Z) :=
  match fs with
  | [] => [(o, n)]
  | (o2, n2) :: fs' => if o2 <=? o + n + 3 then coalesce o (o2 + n2 - o) fs' else (o, n) :: coalesce o2 n2 fs'
  end.

Lemma coalesce_head o n fs : ∃ n' fs', coalesce o n fs = (o, n') :: fs'.
Proof. revert n. induction fs as [|[o2 n2] fs IH]; intros n; cbn; [by eexists _, _|]. destruct (_ <=? _); [apply IH|by eexists _, _]. Qed.

Lemma coalesce_ascending lo hi o n fs : ascending 0 lo hi ((o, n) :: fs) → ascending 4 lo hi (coalesce o n fs).
Proof.
  revert lo o n. induction fs as [|[o2 n2] fs IH]; intros lo o n; cbn; [tauto|]. intros (H1 & H2 & H3 & H4 & H5 & H6 & H7).
  destruct (Z.leb_spec o2 (o + n + 3)).
  - apply IH. cbn. repeat split; try lia. replace (o + (o2 + n2 - o)) with (o2 + n2) by lia. done.
  - cbn. do 3 (split; [lia|]). apply IH. cbn. repeat split; lia || done.
Qed.

(** A region of four bytes or more does not fit in the gaps that are closed. *)
Lemma coalesce_disj lo hi o n fs r : ascending 0 lo hi ((o, n) :: fs) → 4 ≤ r.2 → Forall (disj r) ((o, n) :: fs) → Forall (disj r) (coalesce o n fs).
Proof.
  revert lo o n. induction fs as [|[o2 n2] fs IH]; intros lo o n; cbn; [done|]. intros (H1 & H2 & H3 & H4 & H5 & H6 & H7) Hr Hd.
  inversion Hd as [|? ? Hd1 Hd2]; subst. inversion Hd2 as [|? ? Hd3 Hd4]; subst. unfold disj in Hd1, Hd3. cbn in Hd1, Hd3.
  destruct (Z.leb_spec o2 (o + n + 3)).
  - apply (IH lo); [|done|].
    + cbn. repeat split; try lia. replace (o + (o2 + n2 - o)) with (o2 + n2) by lia. done.
    + constructor; [|done]. unfold disj. cbn. lia.
  - constructor; [done|]. apply (IH (o + n)); [|done|done]. cbn. repeat split; lia || done.
Qed.

Lemma coalesce_size lo hi o n fs : ascending 0 lo hi ((o, n) :: fs) → n + size_of fs ≤ size_of (coalesce o n fs).
Proof.
  revert lo o n. induction fs as [|[o2 n2] fs IH]; intros lo o n; cbn; [lia|]. intros (H1 & H2 & H3 & H4 & H5 & H6 & H7).
  destruct (Z.leb_spec o2 (o + n + 3)).
  - assert (o2 + n2 - o + size_of fs ≤ size_of (coalesce o (o2 + n2 - o) fs)) as Hs; [|cbn in *; lia].
    apply (IH lo). cbn. repeat split; try lia. replace (o + (o2 + n2 - o)) with (o2 + n2) by lia. done.
  - assert (n2 + size_of fs ≤ size_of (coalesce o2 n2 fs)) as Hs; [|cbn in *; lia].
    apply (IH (o + n)). cbn. repeat split; lia || done.
Qed.
