(* ===== verification/BtFree.v ===== *)
(** * Returning space to a page

    [freeSpace] puts a region in its place in the list of free blocks, joins
    blocks that are adjacent or nearly so, and lowers the cell content area when
    it begins with a free block. *)

From S2P Require Import Prelude Varint Buffer BtPage BtLayout.
#[local] Open Scope Z_scope.
#[local] Open Scope c_scope.
#[local] Open Scope list_scope.

(** The page sizes of a database file. *)
Record bt_ok (bt : BtShared) : Prop := {
  bt_pow : ∃ k, 9 ≤ k ≤ 16 ∧ pageSize bt = 2 ^ k;
  bt_usable : 480 ≤ usableSize bt ≤ pageSize bt }.

(** The image of a page. *)
Definition image (bt : BtShared) (data : list Z) : Prop := bytes_ok data ∧ Z.of_nat (length data) = pageSize bt.

Section Free.
Context (bt : BtShared) (Hbt : bt_ok bt).

Lemma page_max : 480 ≤ usableSize bt ∧ usableSize bt ≤ pageSize bt ∧ pageSize bt ≤ 65536.
Proof using Hbt.
  destruct Hbt as [(k & Hk & E) H]. split; [lia|]. split; [lia|]. rewrite E. change 65536 with (2 ^ 16). apply Z.pow_le_mono_r; lia.
Qed.

Lemma rd16_run p k : image bt (aData p) → 0 ≤ k → k + 2 ≤ usableSize bt → rd16 k p = Ret (at16 (aData p) k, p).
Proof using Hbt. intros [Hb Hl] H0 Hk. pose proof page_max. unfold rd16, sm_gets. rewrite get2byte_ok; [done|done|done|lia]. Qed.

Lemma rd8_run p k : image bt (aData p) → 0 ≤ k < usableSize bt → rd8 k p = Ret (at8 (aData p) k, p).
Proof using Hbt. intros [Hb Hl] Hk. pose proof page_max. unfold rd8, sm_gets. rewrite byte_at_ok; [done|lia]. Qed.

Lemma wr_run p k l : image bt (aData p) → 0 ≤ k → k + Z.of_nat (length l) ≤ usableSize bt → wr k l p = Ret ((), set_aData (splice (aData p) k l) p).
Proof using Hbt. intros [Hb Hl] H0 Hk. pose proof page_max. unfold wr. rewrite put_slice_ok; [done|done|lia]. Qed.

Lemma image_splice data k l : image bt data → bytes_ok l → 0 ≤ k → k + Z.of_nat (length l) ≤ usableSize bt → image bt (splice data k l).
Proof using Hbt.
  intros [Hb Hl] Hbl H0 Hk. pose proof page_max. split; [by apply splice_bytes; [lia..| |]|]. rewrite splice_length; lia.
Qed.

(** ** The place of a block *)

Fixpoint finsert (start size : Z) (fs : list (Z * Z)) : list (Z * Z) :=
  match fs with
  | [] => [(start, size)]
  | (o, n) :: fs' => if o <? start then (o, n) :: finsert start size fs' else (start, size) :: fs
  end.

Lemma find_slot_run p start size : image bt (aData p) → ∀ fs addr lo fuel, chain (aData p) addr fs → ascending 0 lo (usableSize bt) fs →
  0 ≤ addr → addr + 4 ≤ lo → addr + 2 ≤ usableSize bt → addr < start → (length fs ≤ fuel)%nat →
  ∃ addr' pb, find_slot fuel addr start p = Ret (Some (addr', pb), p) ∧ (pb = 0 ∨ addr' < pb ≤ usableSize bt - 4) ∧ 0 ≤ pb ∧
    (addr' = addr ∨ ∃ n, (addr', n) ∈ fs) ∧ addr ≤ addr' < start ∧
    ∀ data', at16 data' addr' = start → at16 data' start = pb → at16 data' (start + 2) = size →
      (addr ≠ addr' → at16 data' addr = at16 (aData p) addr) →
      (∀ o n, (o, n) ∈ fs → (o ≠ addr' → at16 data' o = at16 (aData p) o) ∧ at16 data' (o + 2) = at16 (aData p) (o + 2)) →
      chain data' addr (finsert start size fs).
Proof using Hbt.
  intros Hi. induction fs as [|[o n] fs IH]; intros addr lo fuel Hc Ha H0 Hlo Hus Hst Hf.
  - exists addr, 0. cbn in Hc. split; [|split; [by left|split; [done|split; [by left|split; [lia|]]]]].
    + destruct fuel as [|fuel]; cbn [find_slot]; erewrite sm_bind_run by (by apply rd16_run); rewrite Hc;
        (replace (0 <? 0) with false by done); by rewrite andb_false_r.
    + intros data' H1 H2 H3 _ _. cbn. done.
  - destruct Hc as (E1 & E2 & Hc), Ha as (Ha1 & Ha2 & Ha3 & Ha4). destruct fuel as [|fuel]; [cbn in Hf; lia|]. cbn [find_slot finsert].
    erewrite sm_bind_run by (by apply rd16_run). rewrite E1. rewrite (proj2 (Z.ltb_lt 0 o)) by lia. rewrite andb_true_r.
    destruct (Z.ltb_spec o start) as [Hlt|Hge].
    + rewrite (proj2 (Z.ltb_ge _ _)) by lia.
      destruct (IH o (o + n + 0) fuel Hc Ha4 ltac:(lia) ltac:(lia) ltac:(lia) Hlt ltac:(cbn in Hf; lia)) as (addr' & pb & -> & Hpb & Hpb0 & Hin & Hord & Hch).
      exists addr', pb. split; [done|]. split; [done|]. split; [done|]. split.
      { right. destruct Hin as [-> | [n' Hin]]; [exists n; left|exists n'; by right]. }
      split; [lia|]. intros data' W1 W2 W3 W4 W5. cbn. split; [rewrite W4; [done|lia]|]. split; [by rewrite (proj2 (W5 o n ltac:(left)))|].
      apply Hch; try done; [intros; by apply (W5 o n ltac:(left))|]. intros o' n' Hin'. apply (W5 o' n'). by right.
    + exists addr, o. split; [done|]. split; [right; lia|]. split; [lia|]. split; [by left|]. split; [lia|].
      intros data' W1 W2 W3 W4 W5. cbn. split; [done|]. split; [done|]. split; [done|]. destruct (W5 o n ltac:(left)) as [W6 W7]. split; [by rewrite W7|].
      eapply chain_frame; [exact Hc|apply W6; lia|]. intros o' n' Hin. destruct (ascending_in 0 _ _ _ _ _ ltac:(lia) Ha4 Hin). split; apply (W5 o' n'); [by right|lia|by right].
Qed.

Lemma finsert_elem start size fs x : x ∈ finsert start size fs ↔ x = (start, size) ∨ x ∈ fs.
Proof.
  induction fs as [|[o n] fs IH]; cbn; [by rewrite list_elem_of_singleton, list.elem_of_nil; tauto|].
  destruct (o <? start); rewrite !list.elem_of_cons; [rewrite IH|]; tauto.
Qed.

Lemma finsert_ascending lo hi start size fs : ascending 0 lo hi fs → lo ≤ start → 4 ≤ size → start + size ≤ hi → Forall (disj (start, size)) fs →
  ascending 0 lo hi (finsert start size fs).
Proof.
  revert lo. induction fs as [|[o n] fs IH]; intros lo; cbn; [done|]. intros (H1 & H2 & H3 & H4) ? ? ? Hd. inversion Hd as [|? ? Hd1 Hd2]; subst.
  unfold disj in Hd1. cbn in Hd1. destruct (Z.ltb_spec o start); cbn; repeat split; try lia; try done. apply IH; lia || done.
Qed.

Lemma finsert_size start size fs : size_of (finsert start size fs) = size + size_of fs.
Proof. induction fs as [|[o n] fs IH]; cbn; [done|]. destruct (o <? start); cbn; lia. Qed.

Lemma finsert_length start size fs : length (finsert start size fs) = S (length fs).
Proof. induction fs as [|[o n] fs IH]; cbn; [done|]. destruct (o <? start); cbn; lia. Qed.

Lemma finsert_cons start size fs : ∃ o n fs', finsert start size fs = (o, n) :: fs'.
Proof. destruct fs as [|[o n] fs]; cbn; [by eexists _, _, _|]. destruct (o <? start); by eexists _, _, _. Qed.

(** ** Joining blocks *)

(** Outside of the count of fragments and the headers of the blocks nothing changes. *)
Definition headers_only (hdr : Z) (fs : list (Z * Z)) (data data' : list Z) : Prop :=
  ∀ k, 0 ≤ k → k ≠ hdr + 7 → (∀ o n, (o, n) ∈ fs → k < o ∨ o + 4 ≤ k) → at8 data' k = at8 data k.

Lemma headers_only16 hdr fs data data' k : headers_only hdr fs data data' → 0 ≤ k → k ≠ hdr + 7 → k + 1 ≠ hdr + 7 →
  (∀ o n, (o, n) ∈ fs → k + 2 ≤ o ∨ o + 4 ≤ k) → at16 data' k = at16 data k.
Proof. intros H H0 H1 H2 H3. apply at16_same; apply H; try lia; intros o n Hin; destruct (H3 o n Hin); lia. Qed.

(** The writes that join the block [o] with its successor. *)
Definition join_data (hdr o f x s : Z) (data : list Z) : list Z :=
  splice (splice (splice data (hdr + 7) [f]) o (be16 x)) (o + 2) (be16 s).

Lemma join_data_ok hdr o f x s data : image bt data → 0 ≤ hdr → hdr + 8 ≤ o → o + 4 ≤ usableSize bt → 0 ≤ f < 256 → 0 ≤ x < 65536 → 0 ≤ s < 65536 →
  let data' := join_data hdr o f x s data in
  image bt data' ∧ at8 data' (hdr + 7) = f ∧ at16 data' o = x ∧ at16 data' (o + 2) = s ∧
  ∀ k, 0 ≤ k → k ≠ hdr + 7 → k < o ∨ o + 4 ≤ k → at8 data' k = at8 data k.
Proof using Hbt.
  intros Hi H0 Ho Hu Hf Hx Hs data'. assert (bytes_ok [f]) as Hbf by (constructor; [done|constructor]).
  assert (image bt (splice data (hdr + 7) [f])) as Hi1 by (apply image_splice; [done|done|lia|cbn; lia]).
  assert (image bt (splice (splice data (hdr + 7) [f]) o (be16 x))) as Hi2 by (apply image_splice; [done|apply be16_bytes|lia|cbn; lia]).
  pose proof page_max. destruct Hi as [_ Hl], Hi1 as [_ Hl1], Hi2 as [Hb2 Hl2].
  split; [apply image_splice; [done|apply be16_bytes|lia|cbn; lia]|]. subst data'. unfold join_data. split; [|split; [|split]].
  - rewrite !splice_out by (cbn; lia). rewrite splice_in by (cbn; lia). by rewrite Z.sub_diag.
  - rewrite splice16_out by (cbn; lia). by rewrite splice16_in by lia.
  - by rewrite splice16_in by lia.
  - intros k Hk Hk7 Hko. rewrite !splice_out by (cbn; lia). done.
Qed.

Lemma set_aData_twice d d' p : set_aData d (set_aData d' p) = set_aData d p.
Proof. done. Qed.

Lemma coalesce_loop_run hdr : 0 ≤ hdr → ∀ fs addr o n lo p fuel, image bt (aData p) → chain (aData p) addr ((o, n) :: fs) →
  ascending 0 lo (usableSize bt) ((o, n) :: fs) → addr = hdr + 1 ∨ hdr + 8 ≤ addr → addr + 4 ≤ lo → hdr + 8 ≤ lo →
  size_of (coalesce o n fs) - (n + size_of fs) ≤ at8 (aData p) (hdr + 7) → (S (length fs) ≤ fuel)%nat →
  ∃ data', coalesce_loop bt fuel addr hdr p = Ret (SQLITE_OK, set_aData data' p) ∧ image bt data' ∧ chain data' addr (coalesce o n fs) ∧
    at8 data' (hdr + 7) = at8 (aData p) (hdr + 7) - (size_of (coalesce o n fs) - (n + size_of fs)) ∧
    headers_only hdr ((o, n) :: fs) (aData p) data'.
Proof using Hbt.
  intros Hhdr. induction fs as [|[o2 n2] fs IH]; intros addr o n lo p fuel Hi Hc Ha Haddr Hlo Hlo2 Hex Hf;
    destruct Hc as (E1 & E2 & Hc); destruct Ha as (Ha1 & Ha2 & Ha3 & Ha4); (destruct fuel as [|fuel]; [lia|]);
    pose proof page_max as Hpm; cbn [coalesce_loop];
    (erewrite sm_bind_run by (apply rd16_run; [done|lia|lia])); rewrite E1; rewrite (proj2 (Z.ltb_lt 0 o)) by lia; cbn [negb];
    (erewrite sm_bind_run by (unfold sm_lift, sm_gets, c_assert; rewrite (proj2 (Z.ltb_lt addr o)), (proj2 (Z.leb_le o (usableSize bt - 4))) by lia; done));
    (erewrite sm_bind_run by (apply rd16_run; [done|lia|lia])); (erewrite sm_bind_run by (apply rd16_run; [done|lia|lia])).
  - cbn in Hc. rewrite Hc. rewrite andb_false_r. exists (aData p). split; [|split; [done|split; [done|split; [cbn; lia|done]]]].
    replace (set_aData (aData p) p) with p by by destruct p.
    destruct fuel; cbn [coalesce_loop]; (erewrite sm_bind_run by (apply rd16_run; [done|lia|lia])); by rewrite Hc.
  - destruct Hc as (E3 & E4 & Hc), Ha4 as (Hb1 & Hb2 & Hb3 & Hb4). rewrite E2, E3. rewrite (proj2 (Z.ltb_lt 0 o2)) by lia. rewrite andb_true_r.
    cbn [coalesce] in Hex |- *. destruct (Z.leb_spec o2 (o + n + 3)) as [Hle|Hgt].
    + assert (ascending 0 lo (usableSize bt) ((o, o2 + n2 - o) :: fs)) as Hasc.
      { cbn. repeat split; try lia. by replace (o + (o2 + n2 - o) + 0) with (o2 + n2 + 0) by lia. }
      pose proof (coalesce_size _ _ _ _ _ Hasc) as Hsz. cbn [size_of snd] in Hex |- *.
      assert (0 ≤ at8 (aData p) (hdr + 7) < 256) as H8 by (apply at8_byte, Hi).
      (erewrite sm_bind_run by (apply rd8_run; [done|lia])). rewrite (proj2 (Z.ltb_ge (o2 - (o + n)) 0)) by lia.
      rewrite (proj2 (Z.ltb_ge (at8 (aData p) (hdr + 7)) (o2 - (o + n)))) by lia. cbn [orb].
      unfold wr16. (erewrite sm_bind_run by (apply wr_run; [done|lia|cbn; lia])).
      assert (u8 (at8 (aData p) (hdr + 7) - u8 (o2 - (o + n))) = at8 (aData p) (hdr + 7) - (o2 - (o + n))) as Eu.
      { rewrite (uw_small 8 (o2 - (o + n))) by (split; cbn; lia). apply uw_small. split; cbn; lia. }
      rewrite Eu. set (f' := at8 (aData p) (hdr + 7) - (o2 - (o + n))).
      assert (image bt (splice (aData p) (hdr + 7) [f'])) as Hi1.
      { apply image_splice; [done|constructor; [subst f'; lia|constructor]|lia|cbn; lia]. }
      (erewrite sm_bind_run by (apply rd16_run; [done|lia|lia])). cbn [aData set_aData].
      assert (Z.of_nat (length (aData p)) = pageSize bt) as Hl by apply Hi.
      rewrite (splice16_out (aData p) (hdr + 7) [f'] o2) by (cbn; lia).
      pose proof (at16_range (aData p) o2 (proj1 Hi)) as Hx. set (x := at16 (aData p) o2) in *.
      (erewrite sm_bind_run by (apply wr_run; [done|lia|cbn; lia])). cbn [aData set_aData].
      assert (image bt (splice (splice (aData p) (hdr + 7) [f']) o (be16 x))) as Hi2 by (apply image_splice; [done|apply be16_bytes|lia|cbn; lia]).
      assert (Z.of_nat (length (splice (aData p) (hdr + 7) [f'])) = pageSize bt) as Hl1 by apply Hi1.
      (erewrite sm_bind_run by (apply rd16_run; [done|lia|lia])). cbn [aData set_aData].
      rewrite !splice16_out by (cbn; lia). rewrite E4. (erewrite sm_bind_run by (apply wr_run; [done|lia|cbn; lia])). cbn [aData set_aData]. rewrite !set_aData_twice.
      destruct (join_data_ok hdr o f' x (o2 + n2 - o) (aData p)) as (Hij & J1 & J2 & J3 & J4); [done|lia|lia|lia|subst f'; lia|lia|lia|].
      fold (join_data hdr o f' x (o2 + n2 - o) (aData p)). set (data1 := join_data hdr o f' x (o2 + n2 - o) (aData p)) in *.
      assert (∀ k, 0 ≤ k → k ≠ hdr + 7 → k + 1 ≠ hdr + 7 → k + 2 ≤ o ∨ o + 4 ≤ k → at16 data1 k = at16 (aData p) k) as J5.
      { intros. apply at16_same; apply J4; lia. }
      destruct (IH addr o (o2 + n2 - o) lo (set_aData data1 p) fuel) as (data' & Er & Hid & Hcd & Hfd & Hho); cbn [aData set_aData]; try done; try lia.
      * cbn. split; [rewrite J5; lia|]. split; [done|]. eapply chain_frame; [exact Hc|by rewrite J2|].
        intros o' n' Hin. destruct (ascending_in 0 _ _ _ _ _ ltac:(lia) Hb4 Hin). split; apply J5; lia.
      * cbn in Hf. lia.
      * exists data'. split; [exact Er|]. split; [done|]. split; [done|]. split; [rewrite Hfd; cbn [aData set_aData]; rewrite J1; subst f'; lia|].
        intros k Hk Hk7 Hkf. rewrite (Hho k Hk Hk7); [apply J4; try done; by apply (Hkf o n); left|].
        intros o' n' [E|Hin]%list.elem_of_cons; [injection E as -> ->; by apply (Hkf o n); left|]. apply (Hkf o' n'). by right; right.
    + destruct (IH o o2 n2 (o + n + 0) p fuel) as (data' & -> & Hid & Hcd & Hfd & Hho); try done; try lia.
      * cbn [size_of snd] in Hex. lia.
      * cbn in Hf |- *. lia.
      * exists data'. assert (∀ k, 0 ≤ k → k ≠ hdr + 7 → k + 1 ≠ hdr + 7 → k + 2 ≤ o2 → at16 data' k = at16 (aData p) k) as Hk16.
        { intros k ? ? ? ?. eapply headers_only16; try done. intros o' n' [E|Hin]%list.elem_of_cons; [simplify_eq; lia|].
          destruct (ascending_in 0 _ _ _ _ _ ltac:(lia) Hb4 Hin). lia. }
        split; [done|]. split; [done|]. split; [cbn; rewrite !Hk16 by lia; done|]. split; [cbn [size_of snd]; lia|].
        intros k Hk Hk7 Hkf. apply Hho; try done. intros o' n' Hin. apply (Hkf o' n'). by right.
Qed.

(** ** The free space of a page *)

(** The header at [hdr] and the free blocks of a page in which the regions
    [regs] are in use. *)
Record room (hdr : Z) (data : list Z) (regs fs : list (Z * Z)) (top frag : Z) : Prop := {
  rm_top : nz16 (at16 data (hdr + 5)) = top;
  rm_frag : at8 data (hdr + 7) = frag;
  rm_chain : chain data (hdr + 1) fs;
  rm_apart : apart regs;
  rm_within : Forall (within top 4 (usableSize bt)) regs;
  rm_fs : ascending 4 top (usableSize bt) fs;
  rm_sep : Forall (λ r, Forall (disj r) fs) regs;
  rm_sum : size_of regs + size_of fs + frag = usableSize bt - top;
  rm_lo : hdr + 8 ≤ top ≤ usableSize bt;
  rm_few : 0 ≤ frag ≤ 62 }.

(** Outside of the header and the blocks [fs] nothing changes. *)
Definition blocks_only (hdr : Z) (fs : list (Z * Z)) (data data' : list Z) : Prop :=
  ∀ k, 0 ≤ k → k ≤ hdr ∨ k = hdr + 3 ∨ k = hdr + 4 ∨ hdr + 8 ≤ k → (∀ o n, (o, n) ∈ fs → k < o ∨ o + n ≤ k) → at8 data' k = at8 data k.

Lemma blocks_only_trans hdr fs d1 d2 d3 : blocks_only hdr fs d1 d2 → blocks_only hdr fs d2 d3 → blocks_only hdr fs d1 d3.
Proof. intros H1 H2 k Hk H H'. by rewrite (H2 k), (H1 k). Qed.

Lemma headers_blocks g lo hi hdr fs data data' : 0 ≤ g → ascending g lo hi fs → headers_only hdr fs data data' → blocks_only hdr fs data data'.
Proof.
  intros Hg Ha H k Hk Hh Hf. apply H; [done|lia|]. intros o n Hin. destruct (ascending_in _ _ _ _ _ _ Hg Ha Hin). destruct (Hf o n Hin); lia.
Qed.

Lemma splice_blocks hdr fs data k l o n : 0 ≤ k → k + Z.of_nat (length l) ≤ Z.of_nat (length data) → (o, n) ∈ fs → o ≤ k → k + Z.of_nat (length l) ≤ o + n →
  blocks_only hdr fs data (splice data k l).
Proof. intros H0 Hl Hin H1 H2 j Hj _ Hf. apply splice_out; [done|done|done|]. destruct (Hf o n Hin); lia. Qed.

Lemma splice_header hdr fs data k l : 0 ≤ k → k + Z.of_nat (length l) ≤ Z.of_nat (length data) →
  (k = hdr + 1 ∨ k = hdr + 5) ∧ length l = 2%nat ∨ k = hdr + 7 ∧ length l = 1%nat → blocks_only hdr fs data (splice data k l).
Proof. intros H0 Hl H j Hj Hh _. apply splice_out; [done|done|done|]. lia. Qed.

(** The first block, when it is at the top of the cell content area. *)
Lemma trim_top_run hdr p o n fs top : image bt (aData p) → 0 ≤ hdr → nz16 (at16 (aData p) (hdr + 5)) = top → chain (aData p) (hdr + 1) ((o, n) :: fs) →
  ascending 4 top (usableSize bt) ((o, n) :: fs) → hdr + 8 ≤ top →
  ∃ data', trim_top hdr p = Ret ((), set_aData data' p) ∧ image bt data' ∧ blocks_only hdr [] (aData p) data' ∧ at8 data' (hdr + 7) = at8 (aData p) (hdr + 7) ∧
    ((o = top ∧ chain data' (hdr + 1) fs ∧ nz16 (at16 data' (hdr + 5)) = top + n) ∨ (top < o ∧ data' = aData p)).
Proof using Hbt.
  intros Hi H0 Ht (E1 & E2 & Hc) (A1 & A2 & A3 & A4) Hlo. pose proof page_max as Hpm. unfold trim_top.
  do 4 (erewrite sm_bind_run by (apply rd8_run; [done|lia])).
  pose proof (at8_byte (aData p) (hdr + 1) (proj1 Hi)). pose proof (at8_byte (aData p) (hdr + 1 + 1) (proj1 Hi)).
  pose proof (at8_byte (aData p) (hdr + 5) (proj1 Hi)). pose proof (at8_byte (aData p) (hdr + 5 + 1) (proj1 Hi)).
  assert (at16 (aData p) (hdr + 1) = 256 * at8 (aData p) (hdr + 1) + at8 (aData p) (hdr + 2)) as F1 by (unfold at16; do 2 f_equal; lia).
  assert (at16 (aData p) (hdr + 5) = 256 * at8 (aData p) (hdr + 5) + at8 (aData p) (hdr + 6)) as F2 by (unfold at16; do 2 f_equal; lia).
  replace (hdr + 1 + 1) with (hdr + 2) in * by lia. replace (hdr + 5 + 1) with (hdr + 6) in * by lia.
  assert (at16 (aData p) (hdr + 5) = at16 (aData p) (hdr + 1) ↔ o = top) as Heq.
  { rewrite E1. unfold nz16 in Ht. destruct (Z.eqb_spec (at16 (aData p) (hdr + 5)) 0); split; intros; lia. }
  destruct (Z.eqb_spec (at8 (aData p) (hdr + 1)) (at8 (aData p) (hdr + 5))) as [Ea|Ea];
    destruct (Z.eqb_spec (at8 (aData p) (hdr + 2)) (at8 (aData p) (hdr + 6))) as [Eb|Eb]; cbn [andb];
    try (exists (aData p); replace (set_aData (aData p) p) with p by (by destruct p); split; [done|]; split; [done|]; split; [done|]; split; [done|];
         right; split; [lia|done]).
  assert (o = top) as Eo by lia.
  assert (at16 (aData p) (hdr + 5) = top) as Et5 by (rewrite Ea, Eb, <- F2 in F1; lia).
  assert (Z.of_nat (length (aData p)) = pageSize bt) as Hl by apply Hi.
  erewrite sm_bind_run by (apply rd16_run; [done|lia|lia]). rewrite E1.
  erewrite sm_bind_run by (unfold sm_gets; rewrite get_slice_ok by lia; done).
  assert (length (slice (aData p) o 2) = 2%nat) as Hs2 by (rewrite slice_length by lia; done).
  erewrite sm_bind_run by (apply wr_run; [done|lia|rewrite Hs2; lia]).
  assert (image bt (splice (aData p) (hdr + 1) (slice (aData p) o 2))) as Hi1 by (apply image_splice; [done|apply slice_bytes, Hi|lia|rewrite Hs2; lia]).
  erewrite sm_bind_run by (apply rd16_run; [done|lia|lia]). erewrite sm_bind_run by (apply rd16_run; [done|lia|lia]). cbn [aData set_aData].
  rewrite !splice16_out by (rewrite ?Hs2; lia). rewrite E2, Et5. unfold wr16. rewrite wr_run by (done || lia || (cbn; lia)). cbn [aData set_aData]. rewrite set_aData_twice.
  set (d1 := splice (aData p) (hdr + 1) (slice (aData p) o 2)) in *. set (d2 := splice d1 (hdr + 5) (be16 (top + n))).
  assert (Z.of_nat (length d1) = pageSize bt) as Hl1 by apply Hi1.
  assert (∀ k, hdr + 8 ≤ k → at8 d2 k = at8 (aData p) k) as Hhi by (intros k Hk; subst d2 d1; rewrite !splice_out by (rewrite ?Hs2; cbn; lia); done).
  exists d2. split; [done|]. split; [apply image_splice; [done|apply be16_bytes|lia|cbn; lia]|].
  split; [eapply blocks_only_trans; apply splice_header; rewrite ?Hs2; try (cbn; lia); left; split; auto|].
  split; [subst d2 d1; rewrite !splice_out by (rewrite ?Hs2; cbn; lia); done|]. left. split; [done|]. split.
  - eapply chain_frame; [exact Hc| |].
    + subst d2. rewrite splice16_out by (cbn; lia). subst d1. unfold at16. rewrite !splice_in by (rewrite ?Hs2; lia).
      rewrite !slice_at8 by lia. do 2 f_equal; f_equal; lia.
    + intros o' n' Hin. destruct (ascending_in 4 _ _ _ _ _ ltac:(lia) A4 Hin). split; apply at16_same; apply Hhi; lia.
  - subst d2. unfold nz16. destruct (Z.eq_dec (top + n) 65536) as [->|Hne].
    + unfold at16. rewrite !splice_in by (cbn; lia). rewrite Z.sub_diag. replace (hdr + 5 + 1 - (hdr + 5)) with 1 by lia. done.
    + rewrite splice16_in by lia. destruct (Z.eqb_spec (top + n) 0); lia.
Qed.

(** ** freeSpace *)

(** The writes that link a block into the list. *)
Definition link_data (addr start pb size : Z) (data : list Z) : list Z :=
  splice (splice (splice data addr (be16 start)) start (be16 pb)) (start + 2) (be16 size).

Lemma link_data_ok addr start pb size data : image bt data → 0 ≤ addr → addr + 2 ≤ start → start + 4 ≤ usableSize bt → 0 ≤ pb < 65536 → 0 ≤ size < 65536 →
  let data' := link_data addr start pb size data in
  image bt data' ∧ at16 data' addr = start ∧ at16 data' start = pb ∧ at16 data' (start + 2) = size ∧
  ∀ k, 0 ≤ k → k < addr ∨ addr + 2 ≤ k → k < start ∨ start + 4 ≤ k → at8 data' k = at8 data k.
Proof using Hbt.
  intros Hi H0 Ha Hs Hp Hn. pose proof page_max.
  assert (image bt (splice data addr (be16 start))) as Hi1 by (apply image_splice; [done|apply be16_bytes|lia|cbn; lia]).
  assert (image bt (splice (splice data addr (be16 start)) start (be16 pb))) as Hi2 by (apply image_splice; [done|apply be16_bytes|lia|cbn; lia]).
  destruct (Hi) as [_ Hl], (Hi1) as [_ Hl1], (Hi2) as [_ Hl2].
  split; [apply image_splice; [done|apply be16_bytes|lia|cbn; lia]|]. unfold link_data. split; [|split; [|split]].
  - rewrite !splice16_out by (cbn; lia). by rewrite splice16_in by lia.
  - rewrite splice16_out by (cbn; lia). by rewrite splice16_in by lia.
  - by rewrite splice16_in by lia.
  - intros k Hk H1 H2. rewrite !splice_out by (cbn; lia). done.
Qed.

Lemma link_run {B} p addr start pb size (k : sm MemPage B) : image bt (aData p) → 0 ≤ addr → addr + 2 ≤ start → start + 4 ≤ usableSize bt →
  (_ ← wr16 addr start; _ ← wr16 start pb; _ ← wr16 (start + 2) size; k) p = k (set_aData (link_data addr start pb size (aData p)) p).
Proof using Hbt.
  intros Hi H0 Ha Hs. unfold wr16. erewrite sm_bind_run by (apply wr_run; [done|lia|cbn; lia]).
  assert (image bt (splice (aData p) addr (be16 start))) as Hi1 by (apply image_splice; [done|apply be16_bytes|lia|cbn; lia]).
  erewrite sm_bind_run by (apply wr_run; [done|lia|cbn; lia]). cbn [aData set_aData].
  assert (image bt (splice (splice (aData p) addr (be16 start)) start (be16 pb))) as Hi2 by (apply image_splice; [done|apply be16_bytes|lia|cbn; lia]).
  erewrite sm_bind_run by (apply wr_run; [done|lia|cbn; lia]). done.
Qed.

Lemma erase_run p start size : image bt (aData p) → 0 ≤ start → 0 ≤ size → start + size ≤ usableSize bt →
  ∃ data', (if secureDelete bt then wr start (replicate (Z.to_nat size) 0) else mret ()) p = Ret ((), set_aData data' p) ∧ image bt data' ∧
    ∀ k, 0 ≤ k → k < start ∨ start + size ≤ k → at8 data' k = at8 (aData p) k.
Proof using Hbt.
  intros Hi H0 Hs Hu. pose proof page_max. destruct (secureDelete bt).
  - assert (Z.of_nat (length (replicate (Z.to_nat size) 0)) = size) as Hl by (rewrite length_replicate; lia).
    exists (splice (aData p) start (replicate (Z.to_nat size) 0)). split; [apply wr_run; [done|done|lia]|].
    split; [apply image_splice; [done|apply Forall_replicate; lia|done|lia]|]. intros k Hk Hks. destruct Hi. apply splice_out; lia.
  - exists (aData p). split; [by destruct p|]. done.
Qed.

(** The blocks after a region has been added, and the fragments they swallow. *)
Lemma coalesced_room hdr data regs fs top frag start size o n fs' : room hdr data ((start, size) :: regs) fs top frag → finsert start size fs = (o, n) :: fs' →
  ascending 0 top (usableSize bt) ((o, n) :: fs') ∧ ascending 4 top (usableSize bt) (coalesce o n fs') ∧
  Forall (λ r, Forall (disj r) (coalesce o n fs')) regs ∧
  size_of regs + size_of (coalesce o n fs') ≤ usableSize bt - top ∧ n + size_of fs' = size + size_of fs.
Proof.
  intros [_ _ _ [Ha1 Ha2] Hw Hfs Hsep _ Hlo _] E. inversion Hw as [|? ? Hw1 Hw2]; subst. inversion Hsep as [|? ? Hs1 Hs2]; subst.
  destruct Hw1 as (W1 & W2 & W3). cbn in W1, W2, W3.
  assert (ascending 0 top (usableSize bt) ((o, n) :: fs')) as Hasc.
  { rewrite <- E. apply finsert_ascending; try done. by eapply ascending_gap; [|exact Hfs]. }
  pose proof (coalesce_ascending _ _ _ _ _ Hasc) as Hasc4.
  assert (Forall (λ r, Forall (disj r) (coalesce o n fs')) regs) as Hd.
  { apply list.Forall_forall. intros r Hr. eapply coalesce_disj; [exact Hasc|by apply (proj1 (list.Forall_forall _ _) Hw2 r Hr)|].
    rewrite <- E. apply list.Forall_forall. intros x [->|Hx]%finsert_elem.
    - apply disj_sym. by apply (proj1 (list.Forall_forall _ _) Ha1 r Hr).
    - by apply (proj1 (list.Forall_forall _ _) (proj1 (list.Forall_forall _ _) Hs2 r Hr)). }
  split; [done|]. split; [done|]. split; [done|]. split.
  - rewrite <- size_of_app. apply (apart_fits top); [|apply Forall_app_2|lia].
    + apply apart_app; [done|by eapply ascending_apart; [|exact Hasc4]|done].
    + eapply list.Forall_impl; [exact Hw2|]. unfold within. lia.
    + eapply list.Forall_impl; [by eapply ascending_within; [|exact Hasc4]|]. unfold within. lia.
  - pose proof (finsert_size start size fs) as Hs. rewrite E in Hs. exact Hs.
Qed.

(** The room that is left when the joined blocks are in place. *)
Lemma joined_room hdr data data' regs fs top frag start size o n fs' : room hdr data ((start, size) :: regs) fs top frag → finsert start size fs = (o, n) :: fs' →
  chain data' (hdr + 1) (coalesce o n fs') → nz16 (at16 data' (hdr + 5)) = top → at8 data' (hdr + 7) = frag - (size_of (coalesce o n fs') - (n + size_of fs')) →
  room hdr data' regs (coalesce o n fs') top (frag - (size_of (coalesce o n fs') - (n + size_of fs'))).
Proof.
  intros Hr E Hc Ht Hf. destruct (coalesced_room _ _ _ _ _ _ _ _ _ _ _ Hr E) as (H1 & H2 & H3 & H4 & H5). pose proof (coalesce_size _ _ _ _ _ H1) as Hsz.
  destruct Hr as [_ _ _ [_ Ha] Hw _ _ Hsum Hlo Hfew]. inversion Hw; subst. cbn in Hsum. split; try done; try lia.
Qed.

Lemma trimmed_room hdr data data' regs n fs top frag : room hdr data regs ((top, n) :: fs) top frag → chain data' (hdr + 1) fs →
  nz16 (at16 data' (hdr + 5)) = top + n → at8 data' (hdr + 7) = frag → room hdr data' regs fs (top + n) frag.
Proof.
  intros [Ht Hf Hc Ha Hw Hfs Hsep Hsum Hlo Hfew] Hc' Ht' Hf'. destruct Hfs as (A1 & A2 & A3 & A4). split; try done; try (cbn in Hsum; lia).
  - apply list.Forall_forall. intros r Hr. pose proof (proj1 (list.Forall_forall _ _) Hw r Hr) as (W1 & W2 & W3).
    pose proof (proj1 (list.Forall_forall _ _) Hsep r Hr) as Hd. inversion Hd as [|? ? Hd1 Hd2]; subst. destruct Hd1 as [Hd1|Hd1]; cbn in Hd1; split; cbn; lia.
  - eapply ascending_lower; [|exact A4]. lia.
  - eapply list.Forall_impl; [exact Hsep|]. intros r Hd. by inversion Hd.
Qed.

Lemma freeSpace_run p hdr regs fs top frag start size : image bt (aData p) → hdrOffset p = hdr → 0 ≤ hdr → hdr + 6 + childPtrSize p ≤ top →
  room hdr (aData p) ((start, size) :: regs) fs top frag → 0 ≤ nFree p → nFree p + size < 65536 →
  ∃ data' fs' top' frag', freeSpace bt start size p = Ret (SQLITE_OK, set_nFree (nFree p + size) (set_aData data' p)) ∧ image bt data' ∧
    room hdr data' regs fs' top' frag' ∧ top ≤ top' ∧ blocks_only hdr ((start, size) :: fs) (aData p) data'.
Proof using Hbt.
  intros Hi Hh H0 Hlow Hr Hnf Hnf2. pose proof page_max as Hpm. pose proof Hr as [Ht Hf Hc [Ha1 Ha2] Hw Hfs Hsep Hsum Hlo Hfew].
  inversion Hw as [|? ? Hw1 Hw2]; subst x l. destruct Hw1 as (W1 & W2 & W3). cbn in W1, W2, W3. inversion Hsep as [|? ? Hs1 Hs2]; subst x l.
  assert (ascending 0 top (usableSize bt) fs) as Hfs0 by (by eapply ascending_gap; [|exact Hfs]).
  unfold freeSpace. erewrite sm_bind_run by (unfold sm_gets; rewrite (proj2 (Z.leb_le (hdrOffset p + 6 + childPtrSize p) start)),
    (proj2 (Z.leb_le (start + size) (usableSize bt))), (proj2 (Z.leb_le 0 size)) by lia; done).
  destruct (erase_run p start size Hi ltac:(lia) ltac:(lia) ltac:(lia)) as (d1 & E1 & Hi1 & Hd1). erewrite sm_bind_run by exact E1. clear E1.
  erewrite sm_bind_run by done. cbn [hdrOffset set_aData]. rewrite Hh.
  erewrite sm_bind_run by (unfold sm_lift, sm_gets; rewrite (proj2 (Z.leb_le start (usableSize bt - 4))) by lia; done).
  assert (∀ o n, (o, n) ∈ fs → (o + n ≤ start ∨ start + size ≤ o) ∧ top ≤ o ∧ 4 ≤ n ∧ o + n ≤ usableSize bt) as Hblk.
  { intros o n Hin. pose proof (proj1 (list.Forall_forall _ _) Hs1 _ Hin) as [?|?]; destruct (ascending_in 4 _ _ _ _ _ ltac:(lia) Hfs Hin); cbn in *; lia. }
  assert (∀ k, 0 ≤ k → k + 2 ≤ start ∨ start + size ≤ k → at16 d1 k = at16 (aData p) k) as Hd16 by (intros; apply at16_same; apply Hd1; lia).
  assert (chain d1 (hdr + 1) fs) as Hc1.
  { eapply chain_frame; [exact Hc|apply Hd16; lia|]. intros o n Hin. destruct (Hblk o n Hin) as (? & ? & ? & ?). split; apply Hd16; lia. }
  pose proof (ascending_length _ _ _ Hfs0) as Hlen.
  destruct (find_slot_run (set_aData d1 p) start size Hi1 fs (hdr + 1) top (Z.to_nat (usableSize bt)) Hc1 Hfs0) as (addr & pb & E2 & Hpb & Hpb0 & Hin & Hord & Hch); [lia..|].
  erewrite sm_bind_run by exact E2. clear E2. cbn beta iota. rewrite (proj2 (Z.ltb_ge (usableSize bt - 4) pb)) by lia.
  erewrite sm_bind_run by (unfold sm_lift, sm_gets, c_assert; instantiate (2 := ()); destruct Hpb as [->|Hpb]; [by rewrite orb_true_r|by rewrite (proj2 (Z.ltb_lt addr pb)) by lia]).
  assert (addr + 2 ≤ start ∧ (addr = hdr + 1 ∨ top ≤ addr)) as [Haddr Haddr2].
  { destruct Hin as [-> | [n Hin]]; [lia|]. destruct (Hblk _ _ Hin) as (? & ? & ? & ?). lia. }
  destruct (link_data_ok addr start pb size d1) as (Hi4 & L1 & L2 & L3 & L4); [done|lia|lia|lia|lia|lia|].
  rewrite (link_run (set_aData d1 p)) by (done || lia). cbn [aData set_aData]. set (d4 := link_data addr start pb size d1) in *. rewrite set_aData_twice.
  erewrite sm_bind_run by done. cbn [nFree set_aData]. rewrite (uw_small 16 size) by (split; cbn; lia). rewrite uw_small by (split; cbn; lia).
  assert (chain d4 (hdr + 1) (finsert start size fs)) as Hc4.
  { apply Hch; [done..| |].
    - intros Hne. destruct Hin as [-> | [n Hin]]; [done|]. destruct (Hblk _ _ Hin) as (? & ? & ? & ?). transitivity (at16 d1 (hdr + 1)); [|done]. apply at16_same; apply L4; lia.
    - intros o n Hio. destruct (Hblk o n Hio) as (? & ? & ? & ?). assert (o = addr ∨ addr + 2 ≤ o ∨ o + 4 ≤ addr) as Hoa.
      { destruct Hin as [-> | [n' Hin]]; [lia|]. destruct (ascending_pair _ _ _ _ _ _ _ _ Hfs Hio Hin ltac:(lia)) as [?|?]; destruct (Hblk _ _ Hin) as (? & ? & ? & ?); lia. }
      split; [intros ?|]; apply at16_same; apply L4; lia. }
  destruct (finsert_cons start size fs) as (o & n & fs' & Efs). rewrite Efs in Hc4.
  destruct (coalesced_room _ _ _ _ _ _ _ _ _ _ _ Hr Efs) as (Hasc & Hasc4 & _ & Hfit & Hsz).
  assert (at8 d4 (hdr + 7) = frag) as Hf4 by (rewrite L4, Hd1 by lia; done). cbn in Hsum.
  assert (∀ x m, (x, m) ∈ (o, n) :: fs' → (x = start ∧ m = size) ∨ (x, m) ∈ fs) as Hel.
  { intros x m Hx. rewrite <- Efs in Hx. apply finsert_elem in Hx as [E|?]; [left; by injection E|by right]. }
  destruct (coalesce_loop_run hdr H0 fs' (hdr + 1) o n top (set_nFree (nFree p + size) (set_aData d4 p)) (Z.to_nat (2 * usableSize bt))) as (d5 & E5 & Hi5 & Hc5 & Hf5 & Hho);
    cbn [aData set_aData set_nFree]; try done; try lia.
  { apply (f_equal length) in Efs. rewrite finsert_length in Efs. cbn in Efs. lia. }
  erewrite sm_bind_run by exact E5. cbn [Z.eqb SQLITE_OK negb]. change (SQLITE_OK =? SQLITE_OK) with true. cbn [negb].
  assert (nz16 (at16 d5 (hdr + 5)) = top) as Ht5.
  { rewrite <- Ht. f_equal. erewrite (headers_only16 hdr); [|exact Hho|lia..|]; cbn [aData set_aData set_nFree].
    - apply at16_same; (rewrite L4 by lia); apply Hd1; lia.
    - intros x m Hx. destruct (ascending_in 0 _ _ _ _ _ ltac:(lia) Hasc Hx). lia. }
  cbn [aData set_aData set_nFree] in Hf5, Hho. rewrite Hf4 in Hf5.
  pose proof (joined_room _ _ d5 _ _ _ _ _ _ _ _ _ Hr Efs Hc5 Ht5 Hf5) as Hr5.
  assert (blocks_only hdr ((start, size) :: fs) (aData p) d5) as Hb5.
  { intros k Hk Hkh Hkf. rewrite Hho; [cbn [aData set_aData set_nFree]|done|lia|].
    - rewrite L4; [apply Hd1; [done|apply (Hkf start size); left]|done| |destruct (Hkf start size ltac:(left)); lia].
      destruct Hin as [-> | [n' Hin]]; [lia|]. destruct (Hblk _ _ Hin) as (? & ? & ? & ?). destruct (Hkf addr n' ltac:(by right)); lia.
    - intros x m [[-> ->]|Hx]%Hel; [destruct (Hkf start size ltac:(left)); lia|].
      destruct (Hblk _ _ Hx) as (? & ? & ? & ?). destruct (Hkf x m ltac:(by right)); lia. }
  destruct (coalesce_head o n fs') as (n6 & fs6 & E6). rewrite E6 in Hr5, Hc5, Hasc4.
  destruct (trim_top_run hdr (set_aData d5 (set_nFree (nFree p + size) (set_aData d4 p))) o n6 fs6 top Hi5 H0 Ht5 Hc5 Hasc4) as (d7 & E7 & Hi7 & Hb7 & Hf7 & Hcase); [lia|].
  erewrite sm_bind_run by exact E7. cbn [aData set_aData] in Hb7, Hf7, Hcase. rewrite set_aData_twice.
  assert (blocks_only hdr ((start, size) :: fs) (aData p) d7) as Hb.
  { eapply blocks_only_trans; [exact Hb5|]. intros k Hk Hkh _. apply Hb7; [done|done|]. intros x m Hx. by apply list.elem_of_nil in Hx. }
  destruct Hcase as [(-> & Hc7 & Ht7)|[Hlt ->]].
  - eexists d7, _, _, _. split; [done|]. split; [done|]. split; [eapply trimmed_room; [exact Hr5|done|done|by rewrite Hf7, Hf5, E6]|]. split; [|done].
    destruct Hasc4 as (_ & ? & _). lia.
  - eexists d5, _, _, _. split; [done|]. split; [done|]. split; [exact Hr5|]. split; [lia|done].
Qed.
End Free.
