(* ===== verification/BtCell.v ===== *)
(** * The size of a cell

    [cellSizePtr] computes the size of a cell without decoding it; it agrees with
    [btreeParseCellPtr], reads nothing but the cell, and the size is bounded. *)

From S2P Require Import Prelude Varint Buffer BtPage BtLayout BtFree.
#[local] Open Scope Z_scope.
#[local] Open Scope c_scope.
#[local] Open Scope list_scope.

(** ** Integers in front of other bytes *)

Lemma ref_get_app fuel v n p r x : ref_get fuel v n p = Ret x → ref_get fuel v n (p ++ r) = Ret x.
Proof.
  revert fuel v n. induction p as [|b p IH]; intros fuel v n; [by destruct fuel|]. destruct fuel as [|fuel]; cbn; [done|].
  destruct (b <? 128); [done|apply IH].
Qed.

Lemma ref_get_length fuel v n p x k : ref_get fuel v n p = Ret (x, k) → n + 1 ≤ k ≤ n + Z.of_nat (length p).
Proof.
  revert fuel v n. induction p as [|b p IH]; intros fuel v n; [by destruct fuel|]. destruct fuel as [|fuel]; cbn [ref_get length]; [intros; simplify_eq; lia|].
  destruct (b <? 128); [intros; simplify_eq; lia|]. intros H%IH. lia.
Qed.

Lemma getVarint32_app p r x : bytes_ok (p ++ r) → getVarint32 p = Ret x → getVarint32 (p ++ r) = Ret x.
Proof.
  intros Hb. pose proof (proj1 (Forall_app _ _ _) Hb) as [Hp _]. rewrite !getVarint32_clips, !varint_value_eq by done. unfold varint_value.
  destruct (ref_get 8 0 0 p) as [y|] eqn:E; [|done]. by rewrite (ref_get_app _ _ _ _ r _ E).
Qed.

Lemma getVarint32_length p v n : bytes_ok p → getVarint32 p = Ret (v, n) → 0 ≤ v < 2 ^ 32 ∧ 1 ≤ n ≤ 9 ∧ n ≤ Z.of_nat (length p).
Proof.
  intros Hp. rewrite getVarint32_clips, varint_value_eq by done. unfold varint_value. destruct (ref_get 8 0 0 p) as [[v' n']|] eqn:E; [|done].
  pose proof (ref_get_length _ _ _ _ _ _ E). apply ref_get_bounds in E; [|done|lia]. cbn. intros. simplify_eq. unfold clip32. destruct (Z.ltb_spec v' (2 ^ 32)); lia.
Qed.

Lemma skip_key_cons fuel b q : skip_key (S fuel) (b :: q) = if no_flag b then Ret 1 else k ← skip_key fuel q; Ret (1 + k).
Proof. done. Qed.

(** The bytes that [skip_key] passes are those of an integer. *)
Lemma skip_key_ref fuel v n q : bytes_ok q → skip_key (S fuel) q = ('(_, k) ← ref_get fuel v n q; Ret (k - n)).
Proof.
  revert v n q. induction fuel as [|fuel IH]; intros v n q Hq; destruct Hq as [|b q Hb Hq]; try done.
  - change (skip_key 1 (b :: q)) with (if no_flag b then Ret 1 else Ret (1 + 0)). cbn. destruct (no_flag b); f_equal; lia.
  - rewrite skip_key_cons. cbn [ref_get]. rewrite no_flag_lt by done.
    destruct (b <? 128); [cbn; f_equal; lia|]. rewrite (IH (v * 128 + (b - 128)) (n + 1) q Hq).
    destruct (ref_get fuel _ _ q) as [[y k]|]; [|done]. cbn. f_equal. lia.
Qed.

Lemma skip_key_varint q : bytes_ok q → skip_key 9 q = ('(_, k) ← sqlite3GetVarint q; Ret k).
Proof.
  intros Hq. rewrite (skip_key_ref 8 0 0), varint_value_eq by done. unfold varint_value. destruct (ref_get 8 0 0 q) as [[y k]|]; [|done]. cbn. f_equal. lia.
Qed.

Lemma from_byte_app p r k x : from_byte p k = Ret x → from_byte (p ++ r) k = Ret (x ++ r).
Proof.
  unfold from_byte. rewrite length_app. destruct (Z.leb_spec 0 k); [|done]. destruct (Z.leb_spec k (Z.of_nat (length p))); [|done].
  cbn [andb]. intros. simplify_eq. rewrite (proj2 (Z.leb_le k _)) by lia. f_equal. apply drop_app_le. lia.
Qed.

Lemma from_byte_bytes p k x : bytes_ok p → from_byte p k = Ret x → bytes_ok x ∧ 0 ≤ k ∧ k + Z.of_nat (length x) = Z.of_nat (length p).
Proof.
  intros Hp. unfold from_byte. destruct (Z.leb_spec 0 k); [|done]. destruct (Z.leb_spec k (Z.of_nat (length p))); [|done]. cbn [andb]. intros. simplify_eq.
  split; [by apply Forall_drop|]. rewrite length_drop. lia.
Qed.

(** ** Cells *)

(** What [decodeFlags] leaves in a page. *)
Record kind_ok (bt : BtShared) (p : MemPage) : Prop := {
  k_leaf : leaf p = 0 ∨ leaf p = 1;
  k_child : childPtrSize p = 4 - 4 * leaf p;
  k_data : hasData p ≠ 0 → leaf p = 1;
  k_local : 0 ≤ minLocal p ≤ maxLocal p;
  k_max : maxLocal p ≤ usableSize bt - 35 }.

Section Cell.
Context (bt : BtShared) (Hbt : bt_ok bt) (p : MemPage) (Hk : kind_ok bt p).

(** The bytes in front of the payload, and the size of the payload. *)
Definition cell_header (pCell : list Z) : outcome (Z * Z) :=
  pIter ← from_byte pCell (childPtrSize p);
  if negb (intKey p =? 0) then
    '(nPayload, n) ← (if negb (hasData p =? 0) then getVarint32 pIter else Ret (0, 0));
    q ← from_byte pIter n;
    '(_, k) ← sqlite3GetVarint q;
    Ret (nPayload, childPtrSize p + n + k)
  else '(nPayload, n) ← getVarint32 pIter; Ret (nPayload, childPtrSize p + n).

(** The bytes of the payload that are in the cell. *)
Definition local_bytes (nPayload : Z) : Z :=
  if nPayload <=? maxLocal p then nPayload
  else let surplus := minLocal p + (nPayload - minLocal p) mod (usableSize bt - 4) in
       if surplus <=? maxLocal p then surplus else minLocal p.

Definition cell_size (nPayload n : Z) : Z := Z.max 4 (n + local_bytes nPayload + (if nPayload <=? maxLocal p then 0 else 4)).

Lemma local_bytes_range m : 0 ≤ m → 0 ≤ local_bytes m ≤ maxLocal p.
Proof using Hk Hbt.
  intros Hm. destruct Hk. pose proof (page_max bt Hbt). unfold local_bytes. destruct (Z.leb_spec m (maxLocal p)); [lia|].
  pose proof (Z.mod_pos_bound (m - minLocal p) (usableSize bt - 4)). destruct (Z.leb_spec (minLocal p + (m - minLocal p) mod (usableSize bt - 4)) (maxLocal p)); lia.
Qed.

Lemma cell_header_range c m n : bytes_ok c → cell_header c = Ret (m, n) → 0 ≤ m < 2 ^ 32 ∧ 1 ≤ n ≤ 18 ∧ n ≤ Z.of_nat (length c) ∧ (childPtrSize p ≠ 0 → n ≤ 13).
Proof using Hk.
  intros Hc. unfold cell_header. destruct (from_byte c (childPtrSize p)) as [q|] eqn:Eq; [|done]. cbn [mbind outcome_bind].
  apply from_byte_bytes in Eq as (Hq & H0 & Hl); [|done]. destruct Hk as [Hleaf Hch Hd Hloc Hmax].
  destruct (negb (intKey p =? 0)) eqn:Ei.
  - assert (∃ a b, (if negb (hasData p =? 0) then getVarint32 q else Ret (0, 0)) = Ret (a, b) ∧ 0 ≤ a < 2 ^ 32 ∧ 0 ≤ b ≤ 9 ∧ (childPtrSize p ≠ 0 → b = 0) ∧
      b ≤ Z.of_nat (length q) ∨ ∃ f, (if negb (hasData p =? 0) then getVarint32 q else Ret (0, 0)) = Undef f) as (a & b & H).
    { destruct (Z.eqb_spec (hasData p) 0) as [E|E]; cbn [negb]; [exists 0, 0; left; split; [done|lia]|].
      destruct (getVarint32 q) as [[a b]|f] eqn:Eg; [|exists 0, 0; right; by eexists]. exists a, b. left. apply getVarint32_length in Eg as (? & ? & ?); [|done].
      split; [done|]. specialize (Hd E). lia. }
    destruct H as [(-> & Ha & Hb & Hb0 & Hbl)|[f ->]]; [|done]. cbn [mbind outcome_bind].
    destruct (from_byte q b) as [q2|] eqn:Eq2; [|done]. cbn [mbind outcome_bind]. apply from_byte_bytes in Eq2 as (Hq2 & _ & Hl2); [|done].
    rewrite varint_value_eq by done. unfold varint_value. destruct (ref_get 8 0 0 q2) as [[y k]|] eqn:Er; [|done]. cbn [mbind outcome_bind].
    pose proof (ref_get_length _ _ _ _ _ _ Er). apply ref_get_bounds in Er; [|done|lia]. intros. simplify_eq. lia.
  - destruct (getVarint32 q) as [[a b]|f] eqn:Eg; [|done]. apply getVarint32_length in Eg as (? & ? & ?); [|done]. cbn. intros. simplify_eq. lia.
Qed.

Lemma cellSizePtr_eq c : bytes_ok c → cellSizePtr bt p c = ('(m, n) ← cell_header c; Ret (cell_size m n)).
Proof using Hk Hbt.
  intros Hc. pose proof (cell_header_range c) as Hr. pose proof (page_max bt Hbt) as Hpm. revert Hr. unfold cellSizePtr, cell_header.
  destruct (from_byte c (childPtrSize p)) as [q|] eqn:Eq; [|done]. cbn [mbind outcome_bind]. apply from_byte_bytes in Eq as (Hq & H0 & Hl); [|done].
  assert (∀ m n, 0 ≤ m < 2 ^ 32 → 0 ≤ n → childPtrSize p + n ≤ 18 →
    u16 (let s := u32 ((if maxLocal p <? m then u32 ((if maxLocal p <? u32 (minLocal p + u32 (m - minLocal p) mod u32 (usableSize bt - 4)) then minLocal p
      else u32 (minLocal p + u32 (m - minLocal p) mod u32 (usableSize bt - 4))) + 4) else m) + u32 (childPtrSize p + n)) in if s <? 4 then 4 else s) =
    cell_size m (childPtrSize p + n)) as Hnum.
  { intros m n Hm Hn Hle. destruct Hk as [Hleaf Hch Hd Hloc Hmax]. pose proof (local_bytes_range m ltac:(lia)) as Hlb. unfold local_bytes in Hlb.
    rewrite (uw_small 32 (usableSize bt - 4)) by (split; cbn; lia). rewrite (uw_small 32 (childPtrSize p + n)) by (split; cbn; lia).
    unfold cell_size, local_bytes. destruct (Z.ltb_spec (maxLocal p) m) as [Hlt|Hge].
    - rewrite (proj2 (Z.leb_gt m (maxLocal p))) in * by lia. rewrite (uw_small 32 (m - minLocal p)) by (split; cbn in *; lia).
      pose proof (Z.mod_pos_bound (m - minLocal p) (usableSize bt - 4) ltac:(lia)) as Hmod. set (sp := minLocal p + (m - minLocal p) mod (usableSize bt - 4)) in *.
      rewrite (uw_small 32 sp) by (split; cbn; lia).
      destruct (Z.ltb_spec (maxLocal p) sp), (Z.leb_spec sp (maxLocal p)); try lia;
        rewrite (uw_small 32 (_ + 4)) by (split; cbn; lia); rewrite (uw_small 32 (_ + (childPtrSize p + n))) by (split; cbn; lia);
        (rewrite uw_small by (split; case_match; cbn; b2p; lia)); case_match; b2p; lia.
    - rewrite (proj2 (Z.leb_le m (maxLocal p))) in * by lia. rewrite (uw_small 32 (m + _)) by (split; cbn; lia).
      rewrite uw_small by (split; case_match; cbn; b2p; lia). case_match; b2p; lia. }
  destruct (negb (intKey p =? 0)) eqn:Ei.
  - destruct (if negb (hasData p =? 0) then getVarint32 q else Ret (0, 0)) as [[a b]|f] eqn:Ea; [|done]. cbn [mbind outcome_bind].
    destruct (from_byte q b) as [q2|] eqn:Eq2; [|done]. cbn [mbind outcome_bind]. apply from_byte_bytes in Eq2 as (Hq2 & Hb0 & Hl2); [|done].
    rewrite skip_key_varint by done. destruct (sqlite3GetVarint q2) as [[y k]|f] eqn:Ek; [|done]. cbn [mbind outcome_bind]. intros Hr.
    destruct (Hr _ _ Hc eq_refl) as (H1 & H2 & _). rewrite varint_value_eq in Ek by done. apply ref_get_bounds in Ek; [|done|lia].
    f_equal. rewrite <- Z.add_assoc. apply Hnum; lia.
  - destruct (getVarint32 q) as [[a b]|f] eqn:Eg; [|done]. cbn [mbind outcome_bind]. intros Hr. destruct (Hr _ _ Hc eq_refl) as (H1 & H2 & _).
    apply getVarint32_length in Eg as (? & ? & _); [|done]. f_equal. apply Hnum; lia.
Qed.

(** A cell is found whatever follows it. *)
Lemma cell_header_app c r x : bytes_ok (c ++ r) → cell_header c = Ret x → cell_header (c ++ r) = Ret x.
Proof.
  intros Hc. unfold cell_header. pose proof (proj1 (Forall_app _ _ _) Hc) as [Hcc Hcr].
  destruct (from_byte c (childPtrSize p)) as [q|] eqn:Eq; [|done]. rewrite (from_byte_app _ r _ _ Eq). cbn [mbind outcome_bind].
  apply from_byte_bytes in Eq as (Hq & _ & _); [|done]. assert (bytes_ok (q ++ r)) as Hqr by by apply Forall_app_2.
  destruct (negb (intKey p =? 0)).
  - destruct (negb (hasData p =? 0)).
    + destruct (getVarint32 q) as [[a b]|] eqn:Eg; [|done]. rewrite (getVarint32_app _ _ _ Hqr Eg). cbn [mbind outcome_bind].
      destruct (from_byte q b) as [q2|] eqn:Eq2; [|done]. rewrite (from_byte_app _ r _ _ Eq2). cbn [mbind outcome_bind].
      apply from_byte_bytes in Eq2 as (Hq2 & _ & _); [|done]. rewrite !varint_value_eq by (done || by apply Forall_app_2). unfold varint_value.
      destruct (ref_get 8 0 0 q2) as [y|] eqn:Er; [|done]. by rewrite (ref_get_app _ _ _ _ r _ Er).
    + cbn [mbind outcome_bind]. destruct (from_byte q 0) as [q2|] eqn:Eq2; [|done]. rewrite (from_byte_app _ r _ _ Eq2). cbn [mbind outcome_bind].
      apply from_byte_bytes in Eq2 as (Hq2 & _ & _); [|done]. rewrite !varint_value_eq by (done || by apply Forall_app_2). unfold varint_value.
      destruct (ref_get 8 0 0 q2) as [y|] eqn:Er; [|done]. by rewrite (ref_get_app _ _ _ _ r _ Er).
  - destruct (getVarint32 q) as [[a b]|] eqn:Eg; [|done]. by rewrite (getVarint32_app _ _ _ Hqr Eg).
Qed.

Lemma cellSizePtr_app c r n : bytes_ok (c ++ r) → cellSizePtr bt p c = Ret n → cellSizePtr bt p (c ++ r) = Ret n.
Proof using Hk Hbt.
  intros Hc. pose proof (proj1 (Forall_app _ _ _) Hc) as [Hcc _]. rewrite !cellSizePtr_eq by done.
  destruct (cell_header c) as [[m k]|] eqn:E; [|done]. by rewrite (cell_header_app _ _ _ Hc E).
Qed.

(** A cell leaves room for the header of the page and other cells. *)
Lemma cellSizePtr_range c n : bytes_ok c → cellSizePtr bt p c = Ret n → 4 ≤ n ≤ usableSize bt - 13.
Proof using Hk Hbt.
  intros Hc. rewrite cellSizePtr_eq by done. destruct (cell_header c) as [[m k]|] eqn:E; [|done]. cbn. intros E'. simplify_eq.
  apply cell_header_range in E as (H1 & H2 & H3 & H4); [|done]. pose proof (local_bytes_range m ltac:(lia)). pose proof (page_max bt Hbt). destruct Hk.
  unfold cell_size. destruct (m <=? maxLocal p); lia.
Qed.

Lemma parse_eq c : bytes_ok c →
  (i ← btreeParseCellPtr bt p c; Ret (nPayload i, nHeader i, nLocal i, iOverflow i, nSize i)) =
  ('(m, n) ← cell_header c; Ret (m, n, local_bytes m, if m <=? maxLocal p then 0 else n + local_bytes m, cell_size m n)).
Proof using Hk Hbt.
  intros Hc. pose proof (cell_header_range c) as Hr. pose proof (page_max bt Hbt) as Hpm. destruct (Hk) as [Hleaf Hch Hd Hloc Hmax]. revert Hr.
  unfold btreeParseCellPtr, cell_header. assert ((leaf p =? 0) || (leaf p =? 1) = true) as -> by (destruct Hleaf as [-> | ->]; done).
  rewrite Hch, Z.eqb_refl. cbn [c_assert mbind outcome_bind].
  assert (∀ key dt m n, 0 ≤ m < 2 ^ 32 → 1 ≤ n ≤ 18 →
    (i ← (if m <=? maxLocal p then
            Ret (MkInfo key dt m n (u16 m) 0 (if u16 (n + m) <? 4 then 4 else u16 (n + m)))
          else
            let surplus := i32 (u32 (minLocal p + u32 (m - minLocal p) mod u32 (usableSize bt - 4))) in
            let nLocal := if surplus <=? maxLocal p then u16 surplus else u16 (minLocal p) in
            let iOverflow := u16 (nLocal + n) in
            Ret (MkInfo key dt m n nLocal iOverflow (u16 (iOverflow + 4))));
     Ret (nPayload i, nHeader i, nLocal i, iOverflow i, nSize i)) =
    Ret (m, n, local_bytes m, if m <=? maxLocal p then 0 else n + local_bytes m, cell_size m n)) as Hnum.
  { intros key dt m n Hm Hn. pose proof (local_bytes_range m ltac:(lia)) as Hlb. unfold cell_size, local_bytes in *. destruct (Z.leb_spec m (maxLocal p)) as [Hle|Hgt].
    - cbn [mbind outcome_bind nPayload nHeader nLocal iOverflow nSize]. rewrite !uw_small by (split; cbn; lia). f_equal. f_equal.
      destruct (Z.ltb_spec (n + m) 4); lia.
    - cbn zeta. rewrite (uw_small 32 (usableSize bt - 4)) by (split; cbn; lia). rewrite (uw_small 32 (m - minLocal p)) by (split; cbn in *; lia).
      pose proof (Z.mod_pos_bound (m - minLocal p) (usableSize bt - 4) ltac:(lia)) as Hmod. set (sp := minLocal p + (m - minLocal p) mod (usableSize bt - 4)) in *.
      rewrite (uw_small 32 sp) by (split; cbn; lia). rewrite (sw_small 32 sp) by (lia || split; cbn; lia).
      cbn [mbind outcome_bind nPayload nHeader nLocal iOverflow nSize].
      destruct (Z.leb_spec sp (maxLocal p)); rewrite !uw_small by (repeat (rewrite uw_small by (split; cbn; lia)); split; cbn; lia);
        f_equal; rewrite !pair_eq; repeat split; lia. }
  destruct (negb (intKey p =? 0)) eqn:Ei.
  - destruct (Z.eqb_spec (hasData p) 0) as [E|E]; cbn [negb].
    + cbn [mbind outcome_bind]. destruct (from_byte c (4 - 4 * leaf p)) as [q|] eqn:Eq; [|done]. cbn [mbind outcome_bind].
      apply from_byte_bytes in Eq as (Hq & _ & _); [|done]. rewrite from_byte_ok by lia. rewrite drop_0. cbn [mbind outcome_bind].
      destruct (sqlite3GetVarint q) as [[y k]|]; [|done]. cbn [mbind outcome_bind]. intros Hr. destruct (Hr _ _ Hc eq_refl) as (H1 & H2 & _).
      rewrite (uw_small 16) by (split; cbn; lia). replace (4 - 4 * leaf p + 0 + k) with (4 - 4 * leaf p + k) in * by lia. by apply Hnum.
    + rewrite (Hd E). change (4 - 4 * 1) with 0. rewrite (from_byte_ok c 0), drop_0 by lia. cbn [mbind outcome_bind Z.eqb c_assert].
      destruct (getVarint32 c) as [[a b]|]; [|done]. cbn [mbind outcome_bind].
      destruct (from_byte c b) as [q2|]; [|done]. cbn [mbind outcome_bind]. destruct (sqlite3GetVarint q2) as [[y k]|]; [|done]. cbn [mbind outcome_bind]. intros Hr. destruct (Hr _ _ Hc eq_refl) as (H1 & H2 & _).
      rewrite (uw_small 16) by (split; cbn; lia). by apply Hnum.
  - destruct (from_byte c (4 - 4 * leaf p)) as [q|] eqn:Eq; [|done]. cbn [mbind outcome_bind].
    destruct (getVarint32 q) as [[a b]|]; [|done]. cbn [mbind outcome_bind]. intros Hr. destruct (Hr _ _ Hc eq_refl) as (H1 & H2 & _).
    rewrite (uw_small 16) by (split; cbn; lia). by apply Hnum.
Qed.
End Cell.

(** C21: The two readers of cells agree on every sequence of bytes, on pages of
    every kind and size: [cellSizePtr] is the size that [btreeParseCellPtr] finds,
    and they fail together. The size is that of the header, the local part of
    the payload, which is at most [maxLocal], and the four bytes of an overflow
    page number where there is one. *)
Theorem cellSizePtr_parse bt p c : bt_ok bt → kind_ok bt p → bytes_ok c →
  cellSizePtr bt p c = (i ← btreeParseCellPtr bt p c; Ret (nSize i)) ∧
  ∀ i, btreeParseCellPtr bt p c = Ret i →
    nSize i = Z.max 4 (nHeader i + nLocal i + (if iOverflow i =? 0 then 0 else 4)) ∧ nSize i ≤ usableSize bt - 13 ∧
    0 ≤ nLocal i ≤ maxLocal p ∧ (iOverflow i = 0 ↔ nLocal i = nPayload i).
Proof.
  intros Hbt Hk Hc. pose proof (parse_eq bt Hbt p Hk c Hc) as Hp. pose proof (cellSizePtr_range bt Hbt p Hk c) as Hrg. rewrite cellSizePtr_eq in Hrg |- * by done.
  destruct (cell_header p c) as [[m n]|f] eqn:Eh; cbn in Hp, Hrg |- *.
  2: { destruct (btreeParseCellPtr bt p c); [done|]. cbn in Hp |- *. by simplify_eq. }
  destruct (btreeParseCellPtr bt p c) as [i|]; [|done]. cbn in Hp. injection Hp as E1 E2 E3 E4 E5. cbn [mbind outcome_bind]. split; [f_equal; done|].
  intros i' Ei. injection Ei as <-. pose proof (cell_header_range bt p Hk c m n Hc Eh) as (H1 & H2 & _). pose proof (local_bytes_range bt Hbt p Hk m ltac:(lia)) as Hl.
  rewrite E1, E2, E3, E4, E5. specialize (Hrg _ Hc eq_refl). unfold cell_size, local_bytes in *. destruct (Z.leb_spec m (maxLocal p)) as [Hle|Hgt]; [cbn; lia|].
  assert (n + (if minLocal p + (m - minLocal p) mod (usableSize bt - 4) <=? maxLocal p then minLocal p + (m - minLocal p) mod (usableSize bt - 4) else minLocal p) ≠ 0) as Hne by lia.
  rewrite (proj2 (Z.eqb_neq _ _) Hne). lia.
Qed.
