(* ===== verification/BtAlloc.v ===== *)
(** * Taking space on a page

    [allocateSpace] takes bytes from the first free block that is large enough or
    from the gap before the cells, after moving all cells to the end of the page
    if necessary. *)

From S2P Require Import Prelude Varint Buffer BtPage BtLayout BtFree BtCell.
#[local] Open Scope Z_scope.
#[local] Open Scope c_scope.
#[local] Open Scope list_scope.

(** ** From a free block *)

(** The place of [nByte] bytes in the first block that has them, the blocks that
    are left, and the bytes that become a fragment. *)
Fixpoint falloc (nByte : Z) (fs : list (Z * Z)) : option (Z * list (Z * Z) * Z) :=
  match fs with
  | [] => None
  | (o, n) :: fs' =>
      if nByte <=? n then
        let x := n - nByte in
        Some (if x <? 4 then (o + x, fs', x) else (o + x, (o, x) :: fs', 0))
      else match falloc nByte fs' with None => None | Some (i, fs'', x) => Some (i, (o, n) :: fs'', x) end
  end.

Lemma falloc_spec nByte lo hi fs i fs' x : 4 ≤ nByte → ascending 4 lo hi fs → falloc nByte fs = Some (i, fs', x) →
  ascending 4 lo hi fs' ∧ within lo 4 hi (i, nByte) ∧ Forall (disj (i, nByte)) fs' ∧ 0 ≤ x ≤ 3 ∧ size_of fs = size_of fs' + nByte + x ∧
  ∀ r, Forall (disj r) fs → Forall (disj r) ((i, nByte) :: fs').
Proof.
  intros Hn. revert lo i fs' x. induction fs as [|[o n] fs IH]; intros lo i fs' x; cbn; [done|]. intros (A1 & A2 & A3 & A4).
  assert (∀ r, r ∈ fs → o + n + 4 ≤ r.1) as Hafter.
  { intros [o' n'] Hin. by destruct (ascending_in 4 _ _ _ _ _ ltac:(lia) A4 Hin). }
  destruct (Z.leb_spec nByte n).
  - destruct (Z.ltb_spec (n - nByte) 4); intros E; simplify_eq; unfold within, disj; cbn.
    + split; [by eapply ascending_lower; [|done]; lia|]. split; [lia|]. split; [apply list.Forall_forall; intros r Hr; specialize (Hafter r Hr); lia|].
      split; [lia|]. split; [lia|]. intros r Hr. inversion Hr as [|? ? H1 H2]; subst. constructor; [|done]. unfold disj in H1. cbn in *. lia.
    + split; [repeat split; try lia; by eapply ascending_lower; [|done]; lia|]. split; [lia|].
      split; [constructor; [cbn; lia|]; apply list.Forall_forall; intros r Hr; specialize (Hafter r Hr); lia|].
      split; [lia|]. split; [lia|]. intros r Hr. inversion Hr as [|? ? H1 H2]; subst. cbn in *. constructor; [cbn; lia|]. constructor; [cbn; lia|done].
  - destruct (falloc nByte fs) as [[[i' fs''] x']|] eqn:E; [|done]. intros. simplify_eq. destruct (IH _ _ _ _ A4 eq_refl) as (H1 & H2 & H3 & H4 & H5 & H6).
    unfold within in *. cbn in H2. split; [cbn; repeat split; done|]. split; [cbn; lia|]. split; [constructor; [unfold disj; cbn; lia|done]|]. split; [done|].
    split; [cbn; lia|]. intros r Hr. inversion Hr as [|? ? H7 H8]; subst. specialize (H6 r H8). inversion H6; subst. constructor; [done|]. by constructor.
Qed.

Section Alloc.
Context (bt : BtShared) (Hbt : bt_ok bt).

Lemma search_free_run hdr frag nByte : 0 ≤ hdr → 4 ≤ nByte → 0 ≤ frag < 60 → ∀ fs addr lo p fuel, image bt (aData p) → chain (aData p) addr fs →
  ascending 4 lo (usableSize bt) fs → at8 (aData p) (hdr + 7) = frag → addr = hdr + 1 ∨ hdr + 8 ≤ addr → addr + 4 ≤ lo → hdr + 8 ≤ lo → addr + 2 ≤ usableSize bt →
  (length fs ≤ fuel)%nat →
  match falloc nByte fs with
  | None => search_free bt fuel addr hdr frag nByte p = Ret (None, p)
  | Some (i, fs', x) => ∃ data', search_free bt fuel addr hdr frag nByte p = Ret (Some (SQLITE_OK, i), set_aData data' p) ∧ image bt data' ∧
      chain data' addr fs' ∧ at8 data' (hdr + 7) = frag + x ∧
      ∀ k, 0 ≤ k → k ≠ hdr + 7 → k < addr ∨ addr + 2 ≤ k → (∀ o n, (o, n) ∈ fs → k < o ∨ o + 4 ≤ k) → at8 data' k = at8 (aData p) k
  end.
Proof using Hbt.
  intros H0 Hn Hfr. pose proof (page_max bt Hbt) as Hpm. induction fs as [|[o n] fs IH]; intros addr lo p fuel Hi Hc Ha Hf Haddr Hlo Hlo2 Hus Hfu.
  - cbn in Hc |- *. destruct fuel; cbn [search_free]; (erewrite sm_bind_run by (apply (rd16_run bt Hbt); [done|lia|lia])); by rewrite Hc.
  - destruct Hc as (E1 & E2 & Hc), Ha as (A1 & A2 & A3 & A4). destruct fuel as [|fuel]; [cbn in Hfu; lia|]. cbn [falloc].
    assert (search_free bt (S fuel) addr hdr frag nByte p = (if nByte <=? n then
        if n - nByte <? 4 then
          b ← sm_gets (λ p, get_slice (aData p) o 2); _ ← wr addr b; _ ← wr (hdr + 7) [u8 (frag + (n - nByte))]; mret (Some (SQLITE_OK, o + (n - nByte)))
        else if usableSize bt <? n + o then mret (Some (SQLITE_CORRUPT, 0))
        else _ ← wr16 (o + 2) (n - nByte); mret (Some (SQLITE_OK, o + (n - nByte)))
      else search_free bt fuel o hdr frag nByte) p) as ->.
    { cbn [search_free]. erewrite sm_bind_run by (apply (rd16_run bt Hbt); [done|lia|lia]). rewrite E1. rewrite (proj2 (Z.ltb_lt 0 o)) by lia. cbn [negb].
      rewrite (proj2 (Z.ltb_ge (usableSize bt - 4) o)), (proj2 (Z.ltb_ge o (addr + 4))) by lia. cbn [orb].
      erewrite sm_bind_run by (apply (rd16_run bt Hbt); [done|lia|lia]). by rewrite E2. }
    assert (Z.of_nat (length (aData p)) = pageSize bt) as Hl by apply Hi.
    cbn zeta. destruct (Z.leb_spec nByte n); [destruct (Z.ltb_spec (n - nByte) 4)|].
    + assert (length (slice (aData p) o 2) = 2%nat) as Hs2 by (rewrite slice_length by lia; done).
      assert (image bt (splice (aData p) addr (slice (aData p) o 2))) as Hi1 by (apply (image_splice bt Hbt); [done|apply slice_bytes, Hi|lia|rewrite Hs2; lia]).
      assert (Z.of_nat (length (splice (aData p) addr (slice (aData p) o 2))) = pageSize bt) as Hl1 by apply Hi1.
      exists (splice (splice (aData p) addr (slice (aData p) o 2)) (hdr + 7) [frag + (n - nByte)]). split; [|split; [|split; [|split]]].
      * erewrite sm_bind_run by (unfold sm_gets; rewrite get_slice_ok by lia; done).
        erewrite sm_bind_run by (apply (wr_run bt Hbt); [done|lia|rewrite Hs2; lia]). erewrite sm_bind_run by (apply (wr_run bt Hbt); [done|lia|cbn; lia]).
        by rewrite (uw_small 8) by (split; cbn; lia).
      * apply (image_splice bt Hbt); [done|constructor; [lia|constructor]|lia|cbn; lia].
      * eapply chain_frame; [exact Hc| |].
        -- rewrite splice16_out by (cbn; lia). unfold at16. rewrite !splice_in by (rewrite ?Hs2; lia). rewrite !slice_at8 by lia. do 2 f_equal; f_equal; lia.
        -- intros o' n' Hin. destruct (ascending_in 4 _ _ _ _ _ ltac:(lia) A4 Hin). rewrite !splice16_out by (rewrite ?Hs2; cbn; lia). done.
      * rewrite splice_in by (cbn; lia). by rewrite Z.sub_diag.
      * intros k Hk Hk7 Hka Hkf. rewrite !splice_out by (rewrite ?Hs2; cbn; lia). done.
    + exists (splice (aData p) (o + 2) (be16 (n - nByte))). split; [|split; [|split; [|split]]].
      * rewrite (proj2 (Z.ltb_ge (usableSize bt) (n + o))) by lia. unfold wr16. by erewrite sm_bind_run by (apply (wr_run bt Hbt); [done|lia|cbn; lia]).
      * apply (image_splice bt Hbt); [done|apply be16_bytes|lia|cbn; lia].
      * cbn. rewrite splice16_out by (cbn; lia). split; [done|]. split; [by rewrite splice16_in by lia|]. eapply chain_frame; [exact Hc|by rewrite splice16_out by (cbn; lia)|].
        intros o' n' Hin. destruct (ascending_in 4 _ _ _ _ _ ltac:(lia) A4 Hin). rewrite !splice16_out by (cbn; lia). done.
      * rewrite splice_out by (cbn; lia). lia.
      * intros k Hk Hk7 Hka Hkf. rewrite splice_out; [done|lia|cbn; lia|lia|]. destruct (Hkf o n ltac:(left)); cbn; lia.
    + specialize (IH o (o + n + 4) p fuel Hi Hc A4 Hf ltac:(lia) ltac:(lia) ltac:(lia) ltac:(lia) ltac:(cbn in Hfu; lia)).
      destruct (falloc nByte fs) as [[[i fs'] x]|]; [|done]. destruct IH as (data' & Er & Hi' & Hc' & Hf' & Hfrm). exists data'. split; [done|]. split; [done|].
      assert (∀ k, 0 ≤ k → k ≠ hdr + 7 → k + 1 ≠ hdr + 7 → (k + 2 ≤ o ∨ o + 2 ≤ k ∧ k + 2 ≤ o + 4) → at16 data' k = at16 (aData p) k) as H16.
      { intros k ? ? ? ?. apply at16_same; apply Hfrm; try lia; intros o' n' Hin; destruct (ascending_in 4 _ _ _ _ _ ltac:(lia) A4 Hin); lia. }
      split; [cbn; rewrite !H16 by lia; done|]. split; [done|]. intros k Hk Hk7 Hka Hkf. apply Hfrm; try done; [destruct (Hkf o n ltac:(left)); lia|].
      intros o' n' Hin. apply (Hkf o' n'). by right.
Qed.

(** Allocation from the blocks leaves room for what was there. *)
Lemma falloc_room hdr data data' regs fs top frag nByte i fs' x : room bt hdr data regs fs top frag → frag < 60 → 4 ≤ nByte → falloc nByte fs = Some (i, fs', x) →
  chain data' (hdr + 1) fs' → at8 data' (hdr + 7) = frag + x → at16 data' (hdr + 5) = at16 data (hdr + 5) →
  room bt hdr data' ((i, nByte) :: regs) fs' top (frag + x).
Proof.
  intros [Ht Hf Hc Ha Hw Hfs Hsep Hsum Hlo Hfew] Hfr Hn E Hc' Hf' Ht'. destruct (falloc_spec _ _ _ _ _ _ _ Hn Hfs E) as (F1 & F2 & F3 & F4 & F5 & F6).
  split; try done; try lia; [by rewrite Ht'|..].
  - split; [|done]. apply list.Forall_forall. intros r Hr. apply disj_sym. pose proof (F6 r (proj1 (list.Forall_forall _ _) Hsep r Hr)) as H. by inversion H.
  - constructor; [|done]. unfold within in *. cbn in *. lia.
  - constructor; [done|]. eapply list.Forall_impl; [exact Hsep|]. intros r Hr. specialize (F6 r Hr). by inversion F6.
  - cbn. lia.
Qed.

(** ** Cells on a page *)

(** A cell with its place, and its region. *)
Definition region (x : Z * list Z) : Z * Z := (x.1, Z.of_nat (length x.2)).

(** What does not change while a page is in memory. *)
Record static_ok (p : MemPage) : Prop := {
  st_kind : kind_ok bt p;
  st_hdr : hdrOffset p = if pgno p =? 1 then 100 else 0;
  st_off : cellOffset p = hdrOffset p + 12 - 4 * leaf p;
  st_mask : maskPage p = pageSize bt - 1 }.

(** The cells with their places, the free blocks, the start of the cell content
    area and the number of bytes in fragments; [extra] are regions that have
    been taken for cells that are not there yet. *)
Record layout_with (extra : list (Z * Z)) (p : MemPage) (cells : list (Z * list Z)) (fs : list (Z * Z)) (top frag : Z) : Prop := {
  ly_image : image bt (aData p);
  ly_static : static_ok p;
  ly_ovfl : apOvfl p = [];
  ly_nCell : nCell p = Z.of_nat (length cells);
  ly_count : at16 (aData p) (hdrOffset p + 3) = Z.of_nat (length cells);
  ly_cell : ∀ i o c, cells !! i = Some (o, c) → at16 (aData p) (cellOffset p + 2 * Z.of_nat i) = o ∧
    slice (aData p) o (Z.of_nat (length c)) = c ∧ cellSizePtr bt p c = Ret (Z.of_nat (length c));
  ly_room : room bt (hdrOffset p) (aData p) (extra ++ (region <$> cells)) fs top frag;
  ly_gap : cellOffset p + 2 * Z.of_nat (length cells) ≤ top;
  ly_free : nFree p = top - (cellOffset p + 2 * Z.of_nat (length cells)) + size_of fs + frag + size_of extra }.

Definition layout : MemPage → list (Z * list Z) → list (Z * Z) → Z → Z → Prop := layout_with [].

(** ** Defragmentation *)

(** The places of cells that end at [b], the first cell last. *)
Fixpoint reloc (b : Z) (cs : list (list Z)) : list (Z * list Z) :=
  match cs with
  | [] => []
  | c :: cs' => let b' := b - Z.of_nat (length c) in (b', c) :: reloc b' cs'
  end.

Definition bodies (cs : list (list Z)) : Z := size_of ((λ c, (0, Z.of_nat (length c))) <$> cs).

Lemma bodies_nonneg cs : 0 ≤ bodies cs.
Proof. unfold bodies. induction cs; cbn; lia. Qed.

Lemma reloc_snd b cs : (reloc b cs).*2 = cs.
Proof. revert b. induction cs as [|c cs IH]; intros b; cbn; [done|]. by rewrite IH. Qed.

Lemma reloc_length b cs : length (reloc b cs) = length cs.
Proof. revert b. induction cs as [|c cs IH]; intros b; cbn; [done|]. by rewrite IH. Qed.

Lemma bodies_region cells : bodies cells.*2 = size_of (region <$> cells).
Proof. unfold bodies. induction cells as [|[o c] cells IH]; cbn in *; [done|]. by rewrite IH. Qed.

Lemma reloc_within b cs : Forall (λ c, 4 ≤ Z.of_nat (length c)) cs → Forall (within (b - bodies cs) 4 b) (region <$> reloc b cs).
Proof.
  intros H. revert b. unfold bodies. induction H as [|c cs Hc Hcs IH]; intros b; cbn; [done|]. constructor; [unfold within; cbn|].
  - pose proof (bodies_nonneg cs) as Hb. unfold bodies in Hb. lia.
  - eapply list.Forall_impl; [apply IH|]. unfold within. intros r. lia.
Qed.

Lemma reloc_apart b cs : Forall (λ c, 4 ≤ Z.of_nat (length c)) cs → apart (region <$> reloc b cs).
Proof.
  intros H. revert b. induction H as [|c cs Hc Hcs IH]; intros b; cbn; [done|]. split; [|apply IH].
  eapply list.Forall_impl; [by apply reloc_within|]. unfold within, disj. cbn. intros r. lia.
Qed.

(** One round of the loop writes the body of a cell and its pointer. *)
Lemma defrag_loop_run temp off icf : bytes_ok temp → Z.of_nat (length temp) = pageSize bt → 0 ≤ off → ∀ rest i cbrk p,
  image bt (aData p) → kind_ok bt p → cellOffset p = off → icf = off + 2 * (Z.of_nat (i + length rest)) →
  (∀ j o c, rest !! j = Some (o, c) → at16 (aData p) (off + 2 * Z.of_nat (i + j)) = o ∧ slice temp o (Z.of_nat (length c)) = c ∧
     cellSizePtr bt p c = Ret (Z.of_nat (length c)) ∧ icf ≤ o ∧ 4 ≤ Z.of_nat (length c) ∧ o + Z.of_nat (length c) ≤ usableSize bt) →
  icf ≤ cbrk - bodies rest.*2 → cbrk ≤ usableSize bt →
  ∃ data', defrag_loop bt (length rest) temp (Z.of_nat i) icf (usableSize bt - 4) cbrk p = Ret ((SQLITE_OK, cbrk - bodies rest.*2), set_aData data' p) ∧ image bt data' ∧
    (∀ j o c, reloc cbrk rest.*2 !! j = Some (o, c) → at16 data' (off + 2 * Z.of_nat (i + j)) = o ∧ slice data' o (Z.of_nat (length c)) = c) ∧
    ∀ k, 0 ≤ k → k < off + 2 * Z.of_nat i ∨ icf ≤ k → k < cbrk - bodies rest.*2 ∨ cbrk ≤ k → at8 data' k = at8 (aData p) k.
Proof using Hbt.
  intros Htb Htl Hoff. pose proof (page_max bt Hbt) as Hpm. induction rest as [|[o c] rest IH]; intros i cbrk p Hi Hk Ho Hicf Hrest Hfit Hcb.
  - exists (aData p). replace (set_aData (aData p) p) with p by by destruct p. cbn. rewrite Z.sub_0_r. split; [done|]. split; [done|]. split; [intros j o c Hj; done|done].
  - destruct (Hrest 0%nat o c eq_refl) as (R1 & R2 & R3 & R4 & R5 & R6). rewrite Nat.add_0_r in R1. cbn [length] in Hicf.
    assert (Forall (λ c, 4 ≤ Z.of_nat (length c)) rest.*2) as H4.
    { apply list.Forall_forall. intros c' Hc'. apply list_elem_of_fmap in Hc' as ([o' c''] & -> & Hin). apply list_elem_of_lookup_1 in Hin as [j Hj]. by apply (Hrest (S j) o' c''). }
    pose proof (bodies_nonneg rest.*2) as Hb0.
    assert (bodies ((o, c) :: rest).*2 = Z.of_nat (length c) + bodies rest.*2) as Hbod by done. rewrite Hbod in Hfit |- *.
    set (n := Z.of_nat (length c)) in *. assert (length c = Z.to_nat n) as Hcl by lia.
    assert (Z.of_nat (length (aData p)) = pageSize bt) as Hl by apply Hi.
    assert (bytes_ok c) as Hcb8 by (rewrite <- R2; by apply slice_bytes).
    set (data1 := splice (aData p) (cbrk - n) c). assert (image bt data1) as Hi1 by (apply (image_splice bt Hbt); [done|done|lia|lia]).
    assert (Z.of_nat (length data1) = pageSize bt) as Hl1 by apply Hi1.
    set (data2 := splice data1 (off + Z.of_nat i * 2) (be16 (cbrk - n))). assert (image bt data2) as Hi2 by (apply (image_splice bt Hbt); [done|apply be16_bytes|lia|cbn; lia]).
    assert (∀ k, 0 ≤ k → k < off + 2 * Z.of_nat i ∨ off + 2 * Z.of_nat i + 2 ≤ k → k < cbrk - n ∨ cbrk ≤ k → at8 data2 k = at8 (aData p) k) as Hd2.
    { intros k Hk0 Hk1 Hk2. subst data2. rewrite splice_out by (cbn; lia). subst data1. apply splice_out; lia. }
    destruct (IH (S i) (cbrk - n) (set_aData data2 p)) as (data' & Er & Hi' & Hre & Hfr); try done; [by destruct Hk; split|lia| |lia|lia|].
    { intros j o' c' Hj. replace (S i + j)%nat with (i + S j)%nat by lia. destruct (Hrest (S j) o' c' Hj) as (Q1 & Q2 & Q3 & Q4 & Q5 & Q6).
      split; [|done]. cbn [aData set_aData]. rewrite <- Q1. apply lookup_lt_Some in Hj. apply at16_same; apply Hd2; lia. }
    cbn [aData set_aData] in Hfr. exists data'. split; [|split; [done|split]].
    + cbn [length defrag_loop]. erewrite sm_bind_run by done. rewrite Ho. erewrite sm_bind_run by (apply (rd16_run bt Hbt); [done|lia|lia]).
      replace (off + Z.of_nat i * 2) with (off + 2 * Z.of_nat i) by lia. rewrite R1.
      rewrite (proj2 (Z.ltb_ge o icf)), (proj2 (Z.ltb_ge (usableSize bt - 4) o)) by lia. cbn [orb].
      erewrite sm_bind_run by (unfold sm_gets; rewrite from_byte_ok by lia; cbn [mbind outcome_bind]; rewrite (drop_slice temp o n) by lia; rewrite R2;
        rewrite (cellSizePtr_app bt Hbt p Hk c _ n); [done|by apply Forall_app_2; [|apply Forall_drop]|done]).
      cbn zeta. rewrite (proj2 (Z.ltb_ge (cbrk - n) icf)), (proj2 (Z.ltb_ge (usableSize bt) (o + n))) by lia. cbn [orb].
      erewrite sm_bind_run by (unfold sm_lift, sm_gets, c_assert; rewrite (proj2 (Z.leb_le (cbrk - n + n) (usableSize bt))), (proj2 (Z.leb_le icf (cbrk - n))) by lia; done).
      erewrite sm_bind_run by (unfold sm_lift, sm_gets; rewrite get_slice_ok by lia; rewrite R2; done).
      erewrite sm_bind_run by (apply (wr_run bt Hbt); [done|lia|lia]). unfold wr16. erewrite sm_bind_run by (apply (wr_run bt Hbt); [done|lia|cbn; lia]).
      cbn [aData set_aData]. rewrite set_aData_twice. fold data1. replace (off + 2 * Z.of_nat i) with (off + Z.of_nat i * 2) by lia. fold data2.
      replace (Z.of_nat i + 1) with (Z.of_nat (S i)) by lia. rewrite Er. do 3 f_equal. lia.
    + intros j o' c' Hj. cbn [reloc fmap list_fmap snd] in Hj. destruct j as [|j]; cbn in Hj; [|replace (i + S j)%nat with (S i + j)%nat by lia; by apply Hre].
      injection Hj as <- <-. fold n. rewrite Nat.add_0_r. split.
      * rewrite (at16_same data2) by (apply Hfr; lia). subst data2. replace (off + 2 * Z.of_nat i) with (off + Z.of_nat i * 2) by lia. by rewrite splice16_in by lia.
      * rewrite (slice_ext data2 data' (cbrk - n) (cbrk - n)); [|lia|lia|lia|destruct Hi2; lia|destruct Hi'; lia|intros k Hk0; apply Hfr; lia].
        rewrite (slice_ext data1 data2 (cbrk - n) (cbrk - n)); [|lia|lia|lia|lia|destruct Hi2; lia|intros k Hk0; apply splice_out; cbn; lia].
        apply slice_splice; lia.
    + intros k Hk0 Hk1 Hk2. rewrite Hfr by lia. apply Hd2; lia.
Qed.

Lemma layout_fields {extra p cells fs top frag} : layout_with extra p cells fs top frag →
  0 ≤ hdrOffset p ∧ hdrOffset p + 8 ≤ cellOffset p ∧ cellOffset p ≤ hdrOffset p + 12 ∧ hdrOffset p ≤ 100 ∧
  cellOffset p + 2 * Z.of_nat (length cells) ≤ top ≤ usableSize bt ∧ childPtrSize p = cellOffset p - hdrOffset p - 8.
Proof. intros [_ [[Hle Hch _ _ _] Hh Ho _] _ _ _ _ [] Hg _]. rewrite Ho, Hh in *. destruct (pgno p =? 1); lia. Qed.

Lemma layout_cell {extra p cells fs top frag i o c} : layout_with extra p cells fs top frag → cells !! i = Some (o, c) →
  (top ≤ o ∧ 4 ≤ Z.of_nat (length c) ∧ o + Z.of_nat (length c) ≤ usableSize bt) ∧ Forall (disj (o, Z.of_nat (length c))) fs ∧ Forall (λ r, disj r (o, Z.of_nat (length c))) extra.
Proof.
  intros Hl Hi. pose proof (ly_room _ _ _ _ _ _ Hl) as [_ _ _ Ha Hw _ Hsep _ _ _]. change (o, Z.of_nat (length c)) with (region (o, c)).
  assert (region (o, c) ∈ (region <$> cells)) as Hin by (apply list_elem_of_fmap; exists (o, c); split; [done|by apply (list_elem_of_lookup_2 _ i)]).
  apply Forall_app in Hw as [_ Hw], Hsep as [_ Hsep]. split; [by apply (proj1 (list.Forall_forall _ _) Hw _ Hin)|].
  split; [by apply (proj1 (list.Forall_forall _ _) Hsep _ Hin)|]. revert Ha. clear Hl Hi Hw Hsep. induction extra as [|r extra IH]; cbn; [done|].
  intros [H1 H2]. constructor; [|by apply IH]. apply Forall_app in H1 as [_ H1]. by apply (proj1 (list.Forall_forall _ _) H1 _ Hin).
Qed.

Lemma nz16_be16 data k v : 0 ≤ k → k + 2 ≤ Z.of_nat (length data) → 0 < v ≤ 65536 → nz16 (at16 (splice data k (be16 v)) k) = v.
Proof.
  intros H0 Hk Hv. unfold nz16. destruct (Z.eq_dec v 65536) as [->|Hne].
  - unfold at16. rewrite !splice_in by (cbn; lia). rewrite Z.sub_diag. by replace (k + 1 - k) with 1 by lia.
  - rewrite splice16_in by lia. destruct (Z.eqb_spec v 0); lia.
Qed.

(** The header and the gap of a page whose cells are at its end. *)
Definition tidy_data (hdr icf cbrk : Z) (data : list Z) : list Z :=
  splice (splice (splice (splice (splice data (hdr + 5) (be16 cbrk)) (hdr + 1) [0]) (hdr + 2) [0]) (hdr + 7) [0]) icf (replicate (Z.to_nat (cbrk - icf)) 0).

Lemma tidy_run {B} p hdr icf cbrk (k : sm MemPage B) : image bt (aData p) → 0 ≤ hdr → hdr + 8 ≤ icf → icf ≤ cbrk → 0 < cbrk ≤ usableSize bt →
  let data' := tidy_data hdr icf cbrk (aData p) in
  (_ ← wr16 (hdr + 5) cbrk; _ ← wr (hdr + 1) [0]; _ ← wr (hdr + 2) [0]; _ ← wr (hdr + 7) [0]; _ ← wr icf (replicate (Z.to_nat (cbrk - icf)) 0); k) p =
    k (set_aData data' p) ∧ image bt data' ∧ nz16 (at16 data' (hdr + 5)) = cbrk ∧ at16 data' (hdr + 1) = 0 ∧ at8 data' (hdr + 7) = 0 ∧
  ∀ j, 0 ≤ j → j ≤ hdr ∨ j = hdr + 3 ∨ j = hdr + 4 ∨ hdr + 8 ≤ j → j < icf ∨ cbrk ≤ j → at8 data' j = at8 (aData p) j.
Proof using Hbt.
  intros Hi H0 H1 H2 H3 data'. pose proof (page_max bt Hbt) as Hpm. assert (bytes_ok [0]) as Hz by (constructor; [lia|constructor]).
  assert (Z.of_nat (length (replicate (Z.to_nat (cbrk - icf)) 0)) = cbrk - icf) as Hrl by (rewrite length_replicate; lia).
  set (d1 := splice (aData p) (hdr + 5) (be16 cbrk)). assert (image bt d1) as I1 by (apply (image_splice bt Hbt); [done|apply be16_bytes|lia|cbn; lia]).
  set (d2 := splice d1 (hdr + 1) [0]). assert (image bt d2) as I2 by (apply (image_splice bt Hbt); [done|done|lia|cbn; lia]).
  set (d3 := splice d2 (hdr + 2) [0]). assert (image bt d3) as I3 by (apply (image_splice bt Hbt); [done|done|lia|cbn; lia]).
  set (d4 := splice d3 (hdr + 7) [0]). assert (image bt d4) as I4 by (apply (image_splice bt Hbt); [done|done|lia|cbn; lia]).
  assert (image bt data') as I5 by (apply (image_splice bt Hbt); [done|apply Forall_replicate; lia|lia|lia]).
  destruct (Hi) as [_ L0], (I1) as [_ L1], (I2) as [_ L2], (I3) as [_ L3], (I4) as [_ L4]. change (data') with (splice d4 icf (replicate (Z.to_nat (cbrk - icf)) 0)).
  split; [|split; [done|split; [|split; [|split]]]].
  - unfold wr16. do 4 (erewrite sm_bind_run by (apply (wr_run bt Hbt); [done|lia|cbn; lia]); cbn [aData set_aData]).
    erewrite sm_bind_run by (apply (wr_run bt Hbt); [done|lia|lia]). done.
  - rewrite splice16_out by lia. subst d4 d3 d2. rewrite !splice16_out by (cbn; lia). apply nz16_be16; lia.
  - rewrite splice16_out by lia. unfold at16. subst d4. rewrite !(splice_out d3) by (cbn; lia). subst d3. rewrite (splice_out d2) by (cbn; lia). subst d2.
    rewrite splice_in by (cbn; lia). rewrite (splice_in (splice d1 _ _)) by (cbn; lia). rewrite Z.sub_diag. by replace (hdr + 1 + 1 - (hdr + 2)) with 0 by lia.
  - rewrite splice_out by lia. subst d4. rewrite splice_in by (cbn; lia). by rewrite Z.sub_diag.
  - intros j Hj Hh Hc. rewrite splice_out by lia. subst d4 d3 d2 d1. rewrite !splice_out by (cbn; lia). done.
Qed.

Lemma defragmentPage_run temp p cells fs top frag : layout p cells fs top frag → bytes_ok temp → Z.of_nat (length temp) = pageSize bt →
  ∃ data', defragmentPage bt temp p = Ret (SQLITE_OK, set_aData data' p) ∧
    layout (set_aData data' p) (reloc (usableSize bt) cells.*2) [] (usableSize bt - bodies cells.*2) 0 ∧ ∀ k, 0 ≤ k ≤ hdrOffset p → at8 data' k = at8 (aData p) k.
Proof using Hbt.
  intros Hl Htb Htl. pose proof (page_max bt Hbt) as Hpm. destruct (layout_fields Hl) as (F1 & F2 & F3 & F4 & F5 & F6).
  pose proof Hl as [Hi Hst Hov Hn Hcnt Hcell Hroom Hgap Hfree]. pose proof Hroom as [Ht Hf _ _ _ _ _ Hsum _ _]. cbn [app size_of] in Hroom, Hsum, Hfree.
  pose proof (at16_range (aData p) (hdrOffset p + 5) (proj1 Hi)) as Hraw. set (raw := at16 (aData p) (hdrOffset p + 5)) in *.
  assert (raw ≤ top ∧ raw ≤ usableSize bt) as [Hraw1 Hraw2] by (unfold nz16 in Ht; destruct (Z.eqb_spec raw 0); lia).
  assert (Z.of_nat (length (aData p)) = pageSize bt) as Hlen by apply Hi.
  set (temp' := splice temp raw (slice (aData p) raw (usableSize bt - raw))).
  assert (length (slice (aData p) raw (usableSize bt - raw)) = Z.to_nat (usableSize bt - raw)) as Hsl by (apply slice_length; lia).
  assert (bytes_ok temp' ∧ Z.of_nat (length temp') = pageSize bt) as [Htb' Htl'].
  { split; [apply splice_bytes; [done|apply slice_bytes, Hi]|unfold temp'; rewrite splice_length by lia; lia]. }
  assert (∀ k, raw ≤ k < usableSize bt → at8 temp' k = at8 (aData p) k) as Htk.
  { intros k Hk. unfold temp'. rewrite splice_in by lia. rewrite slice_at8 by lia. f_equal. lia. }
  rewrite <- bodies_region in Hsum. assert (0 ≤ size_of fs) as Hfs0.
  { destruct Hroom as [_ _ _ _ _ Ha _ _ _ _]. clear -Ha. revert Ha. generalize top. induction fs as [|[o n] fs IH]; cbn; [done|]. intros t (?&?&?&?%IH). lia. }
  pose proof (rm_few _ _ _ _ _ _ _ Hroom) as Hfew.
  destruct (defrag_loop_run temp' (cellOffset p) (cellOffset p + 2 * Z.of_nat (length cells)) Htb' Htl' ltac:(lia) cells 0 (usableSize bt) p Hi (st_kind _ Hst) eq_refl eq_refl)
    as (d1 & Er & Hi1 & Hre & Hfr); [|lia|lia|].
  { intros j o c Hj. destruct (Hcell j o c Hj) as (C1 & C2 & C3). destruct (layout_cell Hl Hj) as [(C4 & C5 & C6) _]. split; [done|]. split; [|split; [done|lia]].
    rewrite <- C2 at 2. apply slice_ext; try lia. intros k Hk. apply Htk. lia. }
  set (cbrk := usableSize bt - bodies cells.*2) in *. set (icf := cellOffset p + 2 * Z.of_nat (length cells)) in *.
  assert (cbrk = usableSize bt - bodies cells.*2) as Ecb by done. assert (icf = cellOffset p + 2 * Z.of_nat (length cells)) as Eicf by done. pose proof (bodies_nonneg cells.*2) as Hbn.
  destruct (tidy_run (set_aData d1 p) (hdrOffset p) icf cbrk (nFr ← sm_get nFree; if negb (cbrk - icf =? nFr) then mret SQLITE_CORRUPT else mret SQLITE_OK)) as (Et & Hi2 & T1 & T2 & T3 & T4);
    cbn [aData set_aData]; try done; try lia.
  cbn [aData set_aData] in Et, Hi2, T1, T2, T3, T4. set (d2 := tidy_data (hdrOffset p) icf cbrk d1) in *. exists d2. split; [|split].
  - unfold defragmentPage. erewrite sm_bind_run by (unfold sm_gets, nOverflow; rewrite Hov; done). do 3 (erewrite sm_bind_run by done).
    erewrite sm_bind_run by (apply (rd16_run bt Hbt); [done|lia|lia]). rewrite Hcnt, Hn. erewrite sm_bind_run by (unfold sm_lift, sm_gets; rewrite Z.eqb_refl; done).
    erewrite sm_bind_run by (apply (rd16_run bt Hbt); [done|lia|lia]). fold raw.
    erewrite sm_bind_run by (unfold sm_gets; rewrite get_slice_ok by lia; cbn [mbind outcome_bind]; rewrite put_slice_ok by lia; done). fold temp'. cbn zeta.
    rewrite Nat2Z.id. fold icf. erewrite sm_bind_run by exact Er. cbn beta iota. change (SQLITE_OK =? SQLITE_OK) with true. cbn [negb].
    erewrite sm_bind_run by (unfold sm_lift, sm_gets; rewrite (proj2 (Z.leb_le icf cbrk)) by lia; done).
    rewrite Et. erewrite sm_bind_run by done. cbn [nFree set_aData]. replace (cbrk - icf =? nFree p) with true by (symmetry; apply Z.eqb_eq; lia). done.
  - assert (Forall (λ c, 4 ≤ Z.of_nat (length c)) cells.*2) as H4.
    { apply list.Forall_forall. intros c' Hc'. apply list_elem_of_fmap in Hc' as ([o' c''] & -> & Hin). apply list_elem_of_lookup_1 in Hin as [j Hj]. by apply (layout_cell Hl Hj). }
    split; cbn [aData set_aData apOvfl nCell hdrOffset cellOffset nFree]; try done.
    + by destruct Hst as [[] ? ? ?]; split.
    + by rewrite reloc_length, length_fmap.
    + rewrite reloc_length, length_fmap. rewrite <- Hcnt. apply at16_same; (rewrite T4 by lia); apply Hfr; lia.
    + intros i o c Hic. destruct (Hre i o c Hic) as [R1 R2]. pose proof (reloc_within (usableSize bt) _ H4) as Hw. rewrite list.Forall_forall in Hw.
      destruct (Hw (region (o, c))) as (W1 & W2 & W3). { apply list_elem_of_fmap. eexists. split; [done|]. by apply (list_elem_of_lookup_2 _ i). } cbn in W1, W2, W3. fold cbrk in W1.
      assert (i < length cells)%nat as Hlt by (apply lookup_lt_Some in Hic; by rewrite reloc_length, length_fmap in Hic).
      split; [rewrite <- R1; apply at16_same; apply T4; lia|]. split.
      * rewrite <- R2 at 2. apply slice_ext; try lia; [destruct Hi1; lia|destruct Hi2; lia|]. intros k Hk. apply T4; lia.
      * assert (cells.*2 !! i = Some c) as Hc2 by (rewrite <- (reloc_snd (usableSize bt) cells.*2); rewrite list_lookup_fmap, Hic; done).
        rewrite list_lookup_fmap in Hc2. destruct (cells !! i) as [[o' c']|] eqn:Ei; [|done]. cbn in Hc2. simplify_eq. by apply (Hcell i o' c).
    + split; try done; try (cbn; lia); [by apply reloc_apart|by apply reloc_within|apply list.Forall_forall; intros r _; constructor|].
      cbn [app]. rewrite <- bodies_region, reloc_snd. cbn. lia.
    + rewrite reloc_length, length_fmap. fold icf. lia.
    + rewrite reloc_length, length_fmap. fold icf. cbn. lia.
  - intros k Hk. rewrite T4 by lia. apply Hfr; lia.
Qed.

(** ** allocateSpace *)

(** From the gap. *)
Lemma take_gap p cells fs top frag n : layout p cells fs top frag → 4 ≤ n → cellOffset p + 2 * Z.of_nat (length cells) + 2 + n ≤ top →
  let data' := splice (aData p) (hdrOffset p + 5) (be16 (top - n)) in
  wr16 (hdrOffset p + 5) (top - n) p = Ret ((), set_aData data' p) ∧ layout_with [(top - n, n)] (set_aData data' p) cells fs (top - n) frag ∧
  ∀ k, 0 ≤ k ≤ hdrOffset p → at8 data' k = at8 (aData p) k.
Proof using Hbt.
  intros Hl Hn Hle data'. pose proof (page_max bt Hbt) as Hpm. destruct (layout_fields Hl) as (F1 & F2 & F3 & F4 & F5 & F6).
  pose proof Hl as [Hi Hst Hov Hnc Hcnt Hcell Hroom Hgap Hfree]. destruct (Hi) as [_ Hlen]. cbn [app size_of] in *.
  split; [apply (wr_run bt Hbt); [done|lia|cbn; lia]|]. split; [|intros k Hk; apply splice_out; cbn; lia].
  assert (∀ k, 0 ≤ k → k ≠ hdrOffset p + 5 → k ≠ hdrOffset p + 6 → at8 data' k = at8 (aData p) k) as Hd by (intros; apply splice_out; cbn; lia).
  split; cbn [aData set_aData apOvfl nCell hdrOffset cellOffset nFree]; try done; try lia.
  - by apply (image_splice bt Hbt); [|apply be16_bytes|lia|cbn; lia].
  - by destruct Hst as [[] ? ? ?]; split.
  - rewrite <- Hcnt. apply at16_same; apply Hd; lia.
  - intros i o c Hic. destruct (Hcell i o c Hic) as (C1 & C2 & C3). destruct (layout_cell Hl Hic) as [(C4 & C5 & C6) _].
    apply lookup_lt_Some in Hic. split; [rewrite <- C1; apply at16_same; apply Hd; lia|]. split; [|done].
    rewrite <- C2 at 2. apply slice_ext; try lia; [unfold data'; rewrite splice_length by (cbn; lia); lia|]. intros k Hk. apply Hd; lia.
  - destruct Hroom as [Ht Hf Hc Ha Hw Hfs Hsep Hsum Hlo Hfew]. split; cbn [app size_of snd]; try lia.
    + apply nz16_be16; lia.
    + rewrite <- Hf. apply Hd; lia.
    + eapply chain_frame; [exact Hc|apply at16_same; apply Hd; lia|]. intros o m Hin. destruct (ascending_in 4 _ _ _ _ _ ltac:(lia) Hfs Hin).
      split; apply at16_same; apply Hd; lia.
    + split; [|done]. eapply list.Forall_impl; [exact Hw|]. unfold within, disj. cbn. lia.
    + constructor; [unfold within; cbn; lia|]. eapply list.Forall_impl; [exact Hw|]. unfold within. lia.
    + eapply ascending_lower; [|exact Hfs]. lia.
    + constructor; [|done]. eapply list.Forall_impl; [by eapply ascending_within; [|exact Hfs]|]. unfold within, disj. cbn. lia.
  - cbn. lia.
Qed.

(** What [allocateSpace] promises: [nByte] bytes that belong to no cell, on a page
    with the same cells, which may have moved. *)
Definition allocated (p : MemPage) (cells : list (Z * list Z)) (nByte : Z) (m : outcome ((Z * Z) * MemPage)) : Prop :=
  ∃ idx data' cells' fs' top' frag', m = Ret ((SQLITE_OK, idx), set_aData data' p) ∧ cells'.*2 = cells.*2 ∧
    layout_with [(idx, nByte)] (set_aData data' p) cells' fs' top' frag' ∧ cellOffset p + 2 * Z.of_nat (length cells) + 2 ≤ top' ∧
    ∀ k, 0 ≤ k ≤ hdrOffset p → at8 data' k = at8 (aData p) k.

Lemma length_snd {A B} (l l' : list (A * B)) : l.*2 = l'.*2 → length l = length l'.
Proof. intros H. apply (f_equal length) in H. by rewrite !length_fmap in H. Qed.

Lemma top_run p cells fs top frag : layout p cells fs top frag → sm_gets (λ p, get2byteNotZero (aData p) (hdrOffset p + 5)) p = Ret (top, p).
Proof using Hbt.
  intros Hl. pose proof (page_max bt Hbt). destruct (layout_fields Hl) as (F1 & F2 & F3 & F4 & F5 & F6). destruct Hl as [[Hb Hlen] _ _ _ _ _ [Ht _ _ _ _ _ _ _ _ _] _ _].
  unfold sm_gets. rewrite get2byteNotZero_ok; [by rewrite Ht|done|lia|lia].
Qed.

Lemma alloc_gap_run temp p cells fs top frag nByte : layout p cells fs top frag → bytes_ok temp → Z.of_nat (length temp) = pageSize bt → 4 ≤ nByte → nByte + 2 ≤ nFree p →
  allocated p cells nByte (alloc_gap bt temp (hdrOffset p) (cellOffset p + 2 * Z.of_nat (length cells)) top nByte p).
Proof using Hbt.
  intros Hl Htb Htl Hn Hfr. pose proof (page_max bt Hbt) as Hpm. destruct (layout_fields Hl) as (F1 & F2 & F3 & F4 & F5 & F6).
  assert (∀ p1 cells1 fs1 top1 frag1 d1, p1 = set_aData d1 p → cells1.*2 = cells.*2 → layout p1 cells1 fs1 top1 frag1 → (∀ k, 0 ≤ k ≤ hdrOffset p → at8 d1 k = at8 (aData p) k) →
    cellOffset p + 2 * Z.of_nat (length cells) + 2 + nByte ≤ top1 →
    allocated p cells nByte ((_ ← wr16 (hdrOffset p + 5) (top1 - nByte); _ ← sm_lift (c_assert (top1 - nByte + nByte <=? usableSize bt)); mret (SQLITE_OK, top1 - nByte)) p1)) as Htake.
  { intros p1 cells1 fs1 top1 frag1 d1 -> Hc1 Hl1 Hd1 Hle. destruct (layout_fields Hl1) as (_ & _ & _ & _ & G5 & _).
    pose proof (length_snd _ _ Hc1) as Hlen. destruct (take_gap _ _ _ _ _ nByte Hl1 Hn) as (E & HL & Hd); [cbn [cellOffset set_aData]; lia|]. cbn [hdrOffset aData set_aData] in E, HL, Hd.
    erewrite sm_bind_run by exact E. erewrite sm_bind_run by (unfold sm_lift, sm_gets; rewrite (proj2 (Z.leb_le (top1 - nByte + nByte) (usableSize bt))) by lia; done).
    rewrite set_aData_twice. eexists _, _, cells1, fs1, (top1 - nByte), frag1. split; [done|]. split; [done|]. split; [exact HL|]. split; [lia|].
    intros k Hk. rewrite Hd by done. by apply Hd1. }
  unfold alloc_gap. destruct (Z.ltb_spec top (cellOffset p + 2 * Z.of_nat (length cells) + 2 + nByte)) as [Hlt|Hge].
  - destruct (defragmentPage_run temp p _ _ _ _ Hl Htb Htl) as (d1 & E1 & Hl1 & Hd1). pose proof (ly_free _ _ _ _ _ _ Hl1) as Hfree1. cbn [nFree set_aData cellOffset size_of] in Hfree1.
    rewrite reloc_length, length_fmap in Hfree1. destruct (layout_fields Hl1) as (_ & _ & _ & _ & G5 & _).
    erewrite sm_bind_run.
    2: { erewrite sm_bind_run by exact E1. change (SQLITE_OK =? SQLITE_OK) with true. cbn [negb]. erewrite sm_bind_run by exact (top_run _ _ _ _ _ Hl1).
         erewrite sm_bind_run by (unfold sm_lift, sm_gets; rewrite (proj2 (Z.leb_le (cellOffset p + 2 * Z.of_nat (length cells) + nByte) (usableSize bt - bodies cells.*2))) by lia; done). done. }
    cbn beta iota zeta. change (SQLITE_OK =? SQLITE_OK) with true. cbn [negb]. eapply Htake; [done|apply reloc_snd|exact Hl1|done|]. lia.
  - erewrite sm_bind_run by done. cbn beta iota zeta. change (SQLITE_OK =? SQLITE_OK) with true. cbn [negb].
    eapply (Htake _ _ _ _ _ (aData p)); [by destruct p|done|exact Hl|done|lia].
Qed.

Lemma allocated_moved p cells nByte d1 cells1 m : cells1.*2 = cells.*2 → (∀ k, 0 ≤ k ≤ hdrOffset p → at8 d1 k = at8 (aData p) k) →
  allocated (set_aData d1 p) cells1 nByte m → allocated p cells nByte m.
Proof.
  intros Hc Hd (idx & d2 & cells2 & fs & top & frag & E & Hc2 & Hl & Hg & Hd2). cbn [aData set_aData hdrOffset cellOffset] in *.
  exists idx, d2, cells2, fs, top, frag. split; [done|]. split; [congruence|]. split; [done|]. split; [by rewrite <- (length_snd _ _ Hc)|].
  intros k Hk. rewrite Hd2 by done. by apply Hd.
Qed.

Lemma allocateSpace_run temp p cells fs top frag nByte : layout p cells fs top frag → bytes_ok temp → Z.of_nat (length temp) = pageSize bt →
  4 ≤ nByte < usableSize bt - 8 → nByte + 2 ≤ nFree p → allocated p cells nByte (allocateSpace bt temp nByte p).
Proof using Hbt.
  intros Hl Htb Htl Hn Hfr. pose proof (page_max bt Hbt) as Hpm. destruct (layout_fields Hl) as (F1 & F2 & F3 & F4 & F5 & F6).
  pose proof Hl as [Hi Hst Hov Hnc Hcnt Hcell Hroom Hgap Hfree]. cbn [app size_of] in Hroom, Hfree. pose proof Hroom as [Ht Hf Hc Ha Hw Hfs Hsep Hsum Hlo Hfew].
  unfold allocateSpace. erewrite sm_bind_run by done.
  erewrite sm_bind_run by (unfold sm_gets, nOverflow; rewrite Hov; rewrite (proj2 (Z.leb_le 0 nByte)), (proj2 (Z.leb_le nByte (nFree p))), (proj2 (Z.ltb_lt nByte (usableSize bt - 8))) by lia; done).
  erewrite sm_bind_run by (apply (rd8_run bt Hbt); [done|lia]). rewrite Hf.
  erewrite sm_bind_run by (unfold sm_gets; rewrite (proj2 (Z.eqb_eq _ _) (st_off _ Hst)); done).
  erewrite sm_bind_run by done. erewrite sm_bind_run by exact (top_run _ _ _ _ _ Hl). rewrite Hnc. rewrite (proj2 (Z.ltb_ge top _)) by lia.
  destruct (Z.leb_spec 60 frag).
  - destruct (defragmentPage_run temp p _ _ _ _ Hl Htb Htl) as (d1 & E1 & Hl1 & Hd1). erewrite sm_bind_run by exact E1. change (SQLITE_OK =? SQLITE_OK) with true. cbn [negb].
    erewrite sm_bind_run by exact (top_run _ _ _ _ _ Hl1). eapply allocated_moved; [apply reloc_snd|exact Hd1|].
    pose proof (alloc_gap_run temp _ _ _ _ _ nByte Hl1 Htb Htl ltac:(lia) Hfr) as H'. cbn [hdrOffset cellOffset set_aData] in H'. by rewrite reloc_length, length_fmap in H'.
  - destruct (Z.leb_spec (cellOffset p + 2 * Z.of_nat (length cells) + 2) top) as [Hle|Hgt].
    + pose proof (ascending_length _ _ _ (ascending_gap 4 0 _ _ _ ltac:(lia) Hfs)) as Hfl.
      pose proof (search_free_run (hdrOffset p) frag nByte F1 ltac:(lia) ltac:(lia) fs (hdrOffset p + 1) top p (Z.to_nat (usableSize bt)) Hi Hc Hfs Hf
        ltac:(by left) ltac:(lia) ltac:(lia) ltac:(lia) ltac:(lia)) as Hs.
      destruct (falloc nByte fs) as [[[i fs'] x]|] eqn:Ef.
      * destruct Hs as (d1 & Es & Hi1 & Hc1 & Hf1 & Hd1). erewrite sm_bind_run by exact Es. cbn beta iota.
        destruct (falloc_spec nByte _ _ _ _ _ _ ltac:(lia) Hfs Ef) as (A1 & A2 & A3 & A4 & A5 & A6).
        assert (∀ k, 0 ≤ k → k ≤ hdrOffset p ∨ k = hdrOffset p + 3 ∨ k = hdrOffset p + 4 ∨ k = hdrOffset p + 5 ∨ k = hdrOffset p + 6 ∨ hdrOffset p + 8 ≤ k < top → at8 d1 k = at8 (aData p) k) as Hlow.
        { intros k Hk Hor. apply Hd1; [done|lia|lia|]. intros o n Hin. destruct (ascending_in 4 _ _ _ _ _ ltac:(lia) Hfs Hin). lia. }
        assert (∀ o c k, (o, c) ∈ cells → o ≤ k < o + Z.of_nat (length c) → at8 d1 k = at8 (aData p) k) as Hbody.
        { intros o c k Hin Hk. assert (region (o, c) ∈ (region <$> cells)) as Hreg by (apply list_elem_of_fmap; by exists (o, c)).
          pose proof (proj1 (list.Forall_forall _ _) Hw _ Hreg) as (W1 & W2 & W3). cbn in W1, W2, W3.
          pose proof (proj1 (list.Forall_forall _ _) Hsep _ Hreg) as Hdj. apply Hd1; [lia|lia|lia|]. intros o' n' Hin'.
          pose proof (proj1 (list.Forall_forall _ _) Hdj _ Hin') as Hd. unfold disj in Hd. cbn in Hd. destruct (ascending_in 4 _ _ _ _ _ ltac:(lia) Hfs Hin'). lia. }
        exists i, d1, cells, fs', top, (frag + x). split; [done|]. split; [done|]. split; [|split; [lia|intros k Hk; apply Hlow; lia]].
        split; cbn [aData set_aData apOvfl nCell hdrOffset cellOffset nFree]; try done.
        -- by destruct Hst as [[] ? ? ?]; split.
        -- rewrite <- Hcnt. apply at16_same; apply Hlow; lia.
        -- intros j o c Hj. destruct (Hcell j o c Hj) as (C1 & C2 & C3). destruct (layout_cell Hl Hj) as [(C4 & C5 & C6) _].
           split; [rewrite <- C1; apply lookup_lt_Some in Hj; apply at16_same; apply Hlow; lia|]. split; [|done].
           rewrite <- C2 at 2. apply slice_ext; try lia; [destruct Hi; lia|destruct Hi1; lia|]. intros k Hk. apply (Hbody o c); [|lia]. by apply (list_elem_of_lookup_2 _ j).
        -- eapply falloc_room; [exact Hroom|lia|lia|exact Ef|done|done|]. apply at16_same; apply Hlow; lia.
        -- cbn. lia.
      * erewrite sm_bind_run by exact Hs. cbn beta iota. eapply alloc_gap_run; [exact Hl|done|done|lia|lia].
    + erewrite sm_bind_run by done. cbn beta iota. eapply alloc_gap_run; [exact Hl|done|done|lia|lia].
Qed.
End Alloc.
