(* ===== verification/BtCells.v ===== *)
(** * A page as a list of cells

    [insertCell], [dropCell], [assemblePage] and [zeroPage] change a page as the
    operations on lists of the same meaning change the list of its cells, and
    [btreeInitPage] finds in the bytes of a page what these functions keep in
    memory. *)

From S2P Require Import Prelude Varint Buffer BtPage BtLayout BtFree BtCell BtAlloc.
#[local] Open Scope Z_scope.
#[local] Open Scope c_scope.
#[local] Open Scope list_scope.

(** The limits that [lockBtree_limits] computes. *)
Record limits_ok (bt : BtShared) : Prop := {
  lm_bt : bt_ok bt;
  lm_local : 0 ≤ bt_minLocal bt ≤ bt_maxLocal bt ∧ bt_maxLocal bt ≤ usableSize bt - 35;
  lm_leaf : 0 ≤ bt_minLeaf bt ≤ bt_maxLeaf bt ∧ bt_maxLeaf bt ≤ usableSize bt - 35 }.

Section Cells.
Context (bt : BtShared) (Hlim : limits_ok bt).

Lemma bt_good : bt_ok bt.
Proof using Hlim. apply Hlim. Qed.

(** The fields that [decodeFlags] sets for the flags [f]. *)
Definition decoded (p : MemPage) (f : Z) : Prop :=
  (leaf p = 0 ∨ leaf p = 1) ∧ childPtrSize p = 4 - 4 * leaf p ∧ max1bytePayload p = bt_max1bytePayload bt ∧
  ((f = (PTF_LEAFDATA .| PTF_INTKEY) + 8 * leaf p ∧ intKey p = 1 ∧ hasData p = leaf p ∧ maxLocal p = bt_maxLeaf bt ∧ minLocal p = bt_minLeaf bt) ∨
   (f = PTF_ZERODATA + 8 * leaf p ∧ intKey p = 0 ∧ hasData p = 0 ∧ maxLocal p = bt_maxLocal bt ∧ minLocal p = bt_minLocal bt)).

Lemma decoded_kind p f : decoded p f → kind_ok bt p.
Proof using Hlim. destruct Hlim as [_ H1 H2]. intros (Hl & Hc & _ & [(_ & _ & Hd & Hx & Hn)|(_ & _ & Hd & Hx & Hn)]); split; try lia. Qed.

Definition good_flags (f : Z) : Prop := f = 2 ∨ f = 5 ∨ f = 10 ∨ f = 13.

Lemma decodeFlags_run p f : hdrOffset p = (if pgno p =? 1 then 100 else 0) → good_flags f →
  ∃ p', decodeFlags bt f p = Ret (SQLITE_OK, p') ∧ decoded p' f ∧
    p' = set_kind (intKey p') (hasData p') (maxLocal p') (minLocal p') (max1bytePayload p') (set_leaf (leaf p') (childPtrSize p') p).
Proof.
  intros Hh Hf. unfold decodeFlags. erewrite sm_bind_run by (unfold sm_gets; rewrite Hh, Z.eqb_refl; done). erewrite sm_bind_run by done.
  destruct Hf as [-> | [-> | [-> | ->]]]; eexists; (split; [done|]); (split; [|done]); vm_compute;
    (split; [by auto|]); (split; [done|]); (split; [done|]); [right|left|right|left]; done.
Qed.

Lemma decodeFlags_bad p f : hdrOffset p = (if pgno p =? 1 then 100 else 0) → 0 ≤ f < 256 → ¬ good_flags f → ∃ l c, decodeFlags bt f p = Ret (SQLITE_CORRUPT, set_leaf l c p).
Proof.
  intros Hh Hb Hf. unfold decodeFlags. erewrite sm_bind_run by (unfold sm_gets; rewrite Hh, Z.eqb_refl; done). erewrite sm_bind_run by done.
  assert ((f .& Z.lnot PTF_LEAF =? (PTF_LEAFDATA .| PTF_INTKEY)) || (f .& Z.lnot PTF_LEAF =? PTF_ZERODATA) = false) as [E1 E2]%orb_false_elim.
  { apply negb_true_iff. set (b := λ f, (f =? 2) || (f =? 5) || (f =? 10) || (f =? 13) ||
      negb ((f .& Z.lnot PTF_LEAF =? (PTF_LEAFDATA .| PTF_INTKEY)) || (f .& Z.lnot PTF_LEAF =? PTF_ZERODATA))).
    assert (b f = true) as H by (apply byte_cases; [by vm_compute|done]). unfold b in H. unfold good_flags in Hf.
    rewrite !(proj2 (Z.eqb_neq f _)) in H by lia. done. }
  rewrite E1, E2. by eexists _, _.
Qed.

(** ** What a page holds *)

(** The cells of a page, in order. *)
Record holds (p : MemPage) (cs : list (list Z)) : Prop := {
  h_init : isInit p = 1;
  h_flags : decoded p (at8 (aData p) (hdrOffset p));
  h_layout : ∃ cells fs top frag, layout bt p cells fs top frag ∧ cells.*2 = cs }.

(** Cells are at least four bytes and have pointers of two, so that there are not
    too many. *)
Lemma regions_count extra cells lo hi : apart (extra ++ (region <$> cells)) → Forall (within lo 4 hi) (extra ++ (region <$> cells)) → lo ≤ hi →
  4 * Z.of_nat (length cells) ≤ hi - lo.
Proof.
  intros Ha Hw Hle. pose proof (apart_fits lo hi _ Ha) as Hf. assert (4 * Z.of_nat (length cells) ≤ size_of (extra ++ (region <$> cells))) as Hs.
  { rewrite size_of_app. apply Forall_app in Hw as [Hw1 Hw2]. assert (0 ≤ size_of extra) as He by (clear -Hw1; unfold within in Hw1; induction Hw1; cbn; lia).
    assert (4 * Z.of_nat (length cells) ≤ size_of (region <$> cells)); [|lia]. clear -Hw2. induction cells as [|c cells IH]; cbn; [done|].
    inversion Hw2 as [|? ? H1 H2]; subst. apply IH in H2. unfold within in H1. cbn in H1. lia. }
  etransitivity; [exact Hs|]. apply Hf; [|done]. eapply list.Forall_impl; [exact Hw|]. unfold within. lia.
Qed.

Lemma layout_count p cells fs top frag : layout bt p cells fs top frag → Z.of_nat (length cells) ≤ MX_CELL bt ∧ MX_CELL bt ≤ 10921.
Proof using Hlim.
  intros Hl. pose proof (page_max bt bt_good) as Hpm. destruct (layout_fields bt Hl) as (F1 & F2 & F3 & F4 & F5 & F6).
  destruct (ly_room _ _ _ _ _ _ _ Hl) as [_ _ _ Ha Hw _ _ _ Hlo _]. pose proof (regions_count [] cells top (usableSize bt) Ha Hw ltac:(lia)) as Hc.
  unfold MX_CELL. split; [apply Z.div_le_lower_bound; lia|]. apply Z.lt_succ_r, Z.div_lt_upper_bound; lia.
Qed.

(** ** Inserting a cell *)

Lemma body_run p idx c iChild : image bt (aData p) → 0 ≤ idx → idx + Z.of_nat (length c) ≤ usableSize bt → bytes_ok c → (iChild ≠ 0 → (4 ≤ length c)%nat) →
  ∃ d, (body ← sm_lift (get_slice c (if iChild =? 0 then 0 else 4) (Z.of_nat (length c) - (if iChild =? 0 then 0 else 4)));
        _ ← wr (idx + (if iChild =? 0 then 0 else 4)) body;
        if iChild =? 0 then mret () else wr idx (sqlite3Put4byte iChild)) p = Ret ((), set_aData d p) ∧ image bt d ∧
    slice d idx (Z.of_nat (length c)) = with_child iChild c ∧ ∀ k, 0 ≤ k → k < idx ∨ idx + Z.of_nat (length c) ≤ k → at8 d k = at8 (aData p) k.
Proof using Hlim.
  intros Hi H0 Hle Hb H4. pose proof (page_max bt bt_good) as Hpm. destruct (Hi) as [_ Hlen]. unfold with_child. destruct (Z.eqb_spec iChild 0) as [->|Hne].
  - rewrite Z.add_0_r, Z.sub_0_r. assert (slice c 0 (Z.of_nat (length c)) = c) as Hs by (unfold slice; rewrite Nat2Z.id, drop_0, take_ge; done).
    exists (splice (aData p) idx c). split; [|split; [by apply (image_splice bt bt_good)|split; [apply slice_splice; lia|intros; apply splice_out; lia]]].
    erewrite sm_bind_run by (unfold sm_lift, sm_gets; rewrite get_slice_ok by lia; rewrite Hs; done). by erewrite sm_bind_run by (apply (wr_run bt bt_good); [done|lia|lia]).
  - specialize (H4 Hne). assert (slice c 4 (Z.of_nat (length c) - 4) = drop 4 c) as Hs by (unfold slice; rewrite take_ge by (rewrite length_drop; lia); done).
    assert (length (drop 4 c) = (length c - 4)%nat) as Hld by apply length_drop.
    set (d1 := splice (aData p) (idx + 4) (drop 4 c)). assert (image bt d1) as Hi1 by (apply (image_splice bt bt_good); [done|by apply Forall_drop|lia|lia]).
    set (d2 := splice d1 idx (sqlite3Put4byte iChild)). assert (bytes_ok (sqlite3Put4byte iChild)) as Hp4 by (unfold sqlite3Put4byte; repeat constructor; apply uw_range; lia).
    assert (image bt d2) as Hi2 by (apply (image_splice bt bt_good); [done|done|lia|cbn; lia]). destruct (Hi1) as [_ Hl1], (Hi2) as [_ Hl2].
    exists d2. split; [|split; [done|split]].
    + erewrite sm_bind_run by (unfold sm_lift, sm_gets; rewrite get_slice_ok by lia; rewrite Hs; done). erewrite sm_bind_run by (apply (wr_run bt bt_good); [done|lia|lia]).
      rewrite (wr_run bt bt_good) by (done || lia || (cbn; lia)). done.
    + assert (length (sqlite3Put4byte iChild ++ drop 4 c) = length c) as Hlc by (rewrite length_app, Hld; cbn; lia).
      etransitivity; [|apply (slice_splice (aData p) idx (sqlite3Put4byte iChild ++ drop 4 c)); lia]. rewrite Hlc.
      apply slice_ext; try lia; [rewrite splice_length by lia; lia|]. intros k Hk. unfold d2. rewrite (splice_in (aData p)) by lia.
      destruct (Z.lt_ge_cases k 4) as [Hk4|Hk4].
      * rewrite splice_in by (cbn; lia). unfold at8. rewrite lookup_app_l by (cbn; lia). done.
      * rewrite splice_out by (cbn; lia). unfold d1. rewrite splice_in by lia. unfold at8. rewrite lookup_app_r by (cbn; lia). do 2 f_equal.
        change (length (sqlite3Put4byte iChild)) with 4%nat. lia.
    + intros k Hk Hor. unfold d2. rewrite splice_out by (cbn; lia). apply splice_out; lia.
Qed.

(** The pointers are moved up and the new one is written. *)
Definition insert_ptr (off n i idx : Z) (d : list Z) : list Z :=
  splice (splice d (off + 2 * i + 2) (slice d (off + 2 * i) (2 * (n - i)))) (off + 2 * i) (be16 idx).

Lemma insert_ptr_ok off n i idx d : image bt d → 0 ≤ off → 0 ≤ i ≤ n → off + 2 * n + 2 ≤ usableSize bt → 0 ≤ idx < 65536 →
  let d' := insert_ptr off n i idx d in
  image bt d' ∧ (∀ k, 0 ≤ k → k < off + 2 * i ∨ off + 2 * n + 2 ≤ k → at8 d' k = at8 d k) ∧ at16 d' (off + 2 * i) = idx ∧
  (∀ j, i ≤ j < n → at16 d' (off + 2 * (j + 1)) = at16 d (off + 2 * j)).
Proof using Hlim.
  intros Hi H0 Hin Hus Hidx d'. pose proof (page_max bt bt_good) as Hpm. destruct (Hi) as [Hb Hl].
  assert (Z.of_nat (length (slice d (off + 2 * i) (2 * (n - i)))) = 2 * (n - i)) as Hsl by (rewrite slice_length; lia).
  set (d1 := splice d (off + 2 * i + 2) (slice d (off + 2 * i) (2 * (n - i)))) in *.
  assert (image bt d1) as Hi1 by (apply (image_splice bt bt_good); [done|by apply slice_bytes|lia|lia]). destruct (Hi1) as [_ Hl1].
  split; [apply (image_splice bt bt_good); [done|apply be16_bytes|lia|cbn; lia]|]. split; [|split].
  - intros k Hk Hor. change d' with (splice d1 (off + 2 * i) (be16 idx)). rewrite splice_out by (cbn; lia). apply splice_out; lia.
  - apply (splice16_in d1); lia.
  - intros j Hj. change d' with (splice d1 (off + 2 * i) (be16 idx)). rewrite splice16_out by (cbn; lia). unfold d1, at16. rewrite !splice_in by lia. rewrite !slice_at8 by lia.
    f_equal; [f_equal|]; f_equal; lia.
Qed.

Lemma insert_layout p cells fs top frag idx c i d : layout_with bt [(idx, Z.of_nat (length c))] p cells fs top frag →
  cellOffset p + 2 * Z.of_nat (length cells) + 2 ≤ top → (i ≤ length cells)%nat → cellSizePtr bt p c = Ret (Z.of_nat (length c)) → image bt d →
  slice d idx (Z.of_nat (length c)) = c → at16 d (hdrOffset p + 3) = Z.of_nat (S (length cells)) →
  (∀ j, (j < i)%nat → at16 d (cellOffset p + 2 * Z.of_nat j) = at16 (aData p) (cellOffset p + 2 * Z.of_nat j)) →
  at16 d (cellOffset p + 2 * Z.of_nat i) = idx →
  (∀ j, (i ≤ j < length cells)%nat → at16 d (cellOffset p + 2 * Z.of_nat (S j)) = at16 (aData p) (cellOffset p + 2 * Z.of_nat j)) →
  (∀ k, 0 ≤ k → k ≠ hdrOffset p + 3 → k ≠ hdrOffset p + 4 → k < cellOffset p ∨ cellOffset p + 2 * Z.of_nat (length cells) + 2 ≤ k →
     k < idx ∨ idx + Z.of_nat (length c) ≤ k → at8 d k = at8 (aData p) k) →
  layout bt (set_aData d (set_nFree (nFree p - (2 + Z.of_nat (length c))) (set_nCell (Z.of_nat (S (length cells))) p))) (insert_at i (idx, c) cells) fs top frag.
Proof using Hlim.
  intros Hl Hgap Hi Hsz Him Hbody Hcnt Hlow Hnew Hup Hfr. pose proof (page_max bt bt_good) as Hpm. destruct (layout_fields bt Hl) as (F1 & F2 & F3 & F4 & F5 & F6).
  pose proof Hl as [Him0 Hst Hov Hnc Hc0 Hcell Hroom Hg0 Hfree]. pose proof Hroom as [Ht Hf Hc Ha Hw Hfs Hsep Hsum Hlo Hfew].
  cbn [app] in Ha, Hw, Hsep. inversion Hw as [|? ? (W1 & W2 & W3) Hw2]; subst x l. inversion Hsep as [|? ? Hs1 Hs2]; subst x l. cbn [fst snd app size_of] in *.
  assert (insert_at i (region (idx, c)) (region <$> cells) = region <$> insert_at i (idx, c) cells) as Hreg.
  { unfold insert_at. by rewrite fmap_app, fmap_cons, fmap_take, fmap_drop. }
  assert ((idx, Z.of_nat (length c)) :: (region <$> cells) ≡ₚ region <$> insert_at i (idx, c) cells) as Hperm by (rewrite <- Hreg; symmetry; apply insert_at_perm).
  assert (∀ o c' j, cells !! j = Some (o, c') → at16 (aData p) (cellOffset p + 2 * Z.of_nat j) = o ∧ slice d o (Z.of_nat (length c')) = c' ∧
    cellSizePtr bt p c' = Ret (Z.of_nat (length c'))) as Hold.
  { intros o c' j Hj. destruct (Hcell j o c' Hj) as (C1 & C2 & C3). destruct (layout_cell bt Hl Hj) as ((C4 & C5 & C6) & _ & C7). split; [done|]. split; [|done].
    inversion C7 as [|? ? [C8|C8] _]; subst; cbn in C8; (rewrite <- C2 at 2; apply slice_ext; try lia; [destruct Him0; lia|destruct Him; lia|intros k Hk; apply Hfr; lia]). }
  split; cbn [aData set_aData apOvfl nCell hdrOffset cellOffset nFree set_nFree set_nCell]; try done.
  - by destruct Hst as [[] ? ? ?]; split.
  - by rewrite length_insert_at.
  - by rewrite length_insert_at.
  - intros j o c' Hj. rewrite lookup_insert_at in Hj by done. destruct (decide (j < i)%nat); [|destruct (decide (j = i)) as [->|Hne]].
    + destruct (Hold o c' j Hj) as (O1 & O2 & O3). split; [by rewrite Hlow|done].
    + simplify_eq. done.
    + destruct j as [|j]; [lia|]. cbn in Hj. destruct (Hold o c' j Hj) as (O1 & O2 & O3). split; [|done]. apply lookup_lt_Some in Hj. rewrite Hup by lia. done.
  - split; try done; cbn [app].
    + rewrite <- Ht. f_equal. apply at16_same; apply Hfr; lia.
    + rewrite <- Hf. apply Hfr; lia.
    + eapply chain_frame; [exact Hc|apply at16_same; apply Hfr; lia|]. intros o n Hin. destruct (ascending_in 4 _ _ _ _ _ ltac:(lia) Hfs Hin).
      pose proof (proj1 (list.Forall_forall _ _) Hs1 _ Hin) as [D|D]; cbn in D; split; apply at16_same; apply Hfr; lia.
    + by eapply apart_perm.
    + by rewrite <- Hperm.
    + by rewrite <- Hperm.
    + by rewrite <- (size_of_perm _ _ Hperm).
  - rewrite length_insert_at. lia.
  - rewrite length_insert_at. cbn [size_of]. lia.
Qed.

(** A group of operations whose run is known. *)
Lemma bind3_run {S A B C D} (m1 : sm S A) (m2 : A → sm S B) (m3 : sm S C) (k : sm S D) s u s' :
  (a ← m1; _ ← m2 a; m3) s = Ret (u, s') → (a ← m1; _ ← m2 a; _ ← m3; k) s = k s'.
Proof.
  unfold mbind, sm_bind. destruct (m1 s) as [[a s1]|]; [|done]. destruct (m2 a s1) as [[b s2]|]; [|done]. destruct (m3 s2) as [[x s3]|]; [|done].
  intros E. by injection E as -> ->.
Qed.

Lemma with_child_length iChild c : (iChild ≠ 0 → (4 ≤ length c)%nat) → length (with_child iChild c) = length c.
Proof. intros H. unfold with_child. destruct (Z.eqb_spec iChild 0); [done|]. rewrite length_app, length_drop. cbn. specialize (H n). lia. Qed.

Lemma with_child_size p iChild c : kind_ok bt p → (iChild ≠ 0 → leaf p = 0 ∧ (4 ≤ length c)%nat) → cellSizePtr bt p (with_child iChild c) = cellSizePtr bt p c.
Proof.
  intros Hk H. pose proof (with_child_length iChild c) as Hl. unfold with_child in *. destruct (Z.eqb_spec iChild 0) as [|Hne]; [done|]. destruct (H Hne) as [Hleaf H4].
  unfold cellSizePtr. pose proof (k_child _ _ Hk) as Hch. rewrite Hleaf in Hch. rewrite Hch. rewrite !from_byte_ok by (rewrite ?Hl; lia). cbn [mbind outcome_bind].
  change (Z.to_nat (4 - 4 * 0)) with 4%nat. change (drop 4 (sqlite3Put4byte iChild ++ drop 4 c)) with (drop 0 (drop 4 c)). by rewrite drop_0.
Qed.

Lemma with_child_bytes iChild c : bytes_ok c → bytes_ok (with_child iChild c).
Proof.
  intros Hc. unfold with_child. destruct (iChild =? 0); [done|]. apply Forall_app_2; [|by apply Forall_drop].
  unfold sqlite3Put4byte. repeat constructor; apply uw_range; lia.
Qed.

(** The size of the free space of a page is less than the page. *)
Lemma layout_nFree extra p cells fs top frag : layout_with bt extra p cells fs top frag → 0 ≤ nFree p ≤ usableSize bt - (cellOffset p + 2 * Z.of_nat (length cells)).
Proof using Hlim.
  intros Hl. destruct (layout_fields bt Hl) as (F1 & F2 & F3 & F4 & F5 & F6). destruct Hl as [_ _ _ _ _ _ [_ _ _ Ha Hw Hfs Hsep Hsum Hlo Hfew] Hg Hfree].
  rewrite size_of_app in Hsum. apply Forall_app in Hw as [Hw1 Hw2].
  assert (∀ l, Forall (within top 4 (usableSize bt)) l → 0 ≤ size_of l) as Hnn by (intros l Hl; by eapply (size_of_nonneg _ 4); [|exact Hl]).
  pose proof (Hnn _ Hw1). pose proof (Hnn _ Hw2). pose proof (Hnn _ (ascending_within 4 _ _ _ ltac:(lia) Hfs)). lia.
Qed.

Lemma insertCell_run temp p cs i c iChild wrc : holds p cs → bytes_ok temp → Z.of_nat (length temp) = pageSize bt → bytes_ok c →
  cellSizePtr bt p c = Ret (Z.of_nat (length c)) → (iChild ≠ 0 → leaf p = 0) → (i ≤ length cs)%nat →
  (nFree p < Z.of_nat (length c) + 2 ∧ insertCell bt temp wrc (Z.of_nat i) c iChild SQLITE_OK p = Ret (SQLITE_OK, set_apOvfl [(Z.of_nat i, with_child iChild c)] p)) ∨
  (Z.of_nat (length c) + 2 ≤ nFree p ∧ wrc ≠ SQLITE_OK ∧ insertCell bt temp wrc (Z.of_nat i) c iChild SQLITE_OK p = Ret (wrc, p)) ∨
  (Z.of_nat (length c) + 2 ≤ nFree p ∧ wrc = SQLITE_OK ∧ ∃ p', insertCell bt temp wrc (Z.of_nat i) c iChild SQLITE_OK p = Ret (SQLITE_OK, p') ∧
     holds p' (insert_at i (with_child iChild c) cs) ∧ ∃ f n d, p' = set_nFree f (set_nCell n (set_aData d p))).
Proof using Hlim.
  intros [Hin Hfl (cells & fs & top & frag & Hl & Hcs)] Htb Htl Hc Hsz Hch Hi. pose proof (page_max bt bt_good) as Hpm.
  pose proof (decoded_kind _ _ Hfl) as Hk. destruct (layout_fields bt Hl) as (F1 & F2 & F3 & F4 & F5 & F6). pose proof (layout_nFree _ _ _ _ _ _ Hl) as Hnf.
  destruct (layout_count _ _ _ _ _ Hl) as [Hmx1 Hmx2]. pose proof (cellSizePtr_range bt bt_good p Hk c _ Hc Hsz) as Hrg.
  assert (length cells = length cs) as Hlen by (rewrite <- Hcs, length_fmap; done).
  pose proof Hl as [Him Hst Hov Hnc _ _ _ _ _]. set (n := Z.of_nat (length c)) in *.
  set (nSkip := if iChild =? 0 then 0 else 4).
  assert (∀ B (k : sm MemPage B), (_ ← sm_gets (λ p, c_assert ((0 <=? Z.of_nat i) && (Z.of_nat i <=? nCell p + nOverflow p)));
    _ ← sm_gets (λ p, c_assert ((nCell p <=? MX_CELL bt) && (MX_CELL bt <=? 10921)));
    _ ← sm_gets (λ p, c_assert (nOverflow p <=? 5));
    _ ← sm_gets (λ p, s ← cellSizePtr bt p c; c_assert ((n =? s) || ((n =? 8) && (0 <? iChild)))); k) p = k p) as Hasserts.
  { intros B k. unfold nOverflow. erewrite sm_bind_run by (unfold sm_gets; rewrite Hov, Hnc, (proj2 (Z.leb_le 0 (Z.of_nat i))), (proj2 (Z.leb_le (Z.of_nat i) _)) by (cbn; lia); done).
    erewrite sm_bind_run by (unfold sm_gets; rewrite Hnc, (proj2 (Z.leb_le _ _) Hmx1), (proj2 (Z.leb_le _ _) Hmx2); done).
    erewrite sm_bind_run by (unfold sm_gets; rewrite Hov; done). erewrite sm_bind_run by (unfold sm_gets; rewrite Hsz; cbn [mbind outcome_bind]; rewrite Z.eqb_refl; done). done. }
  unfold insertCell. change (SQLITE_OK =? SQLITE_OK) with true. cbn [negb]. fold n nSkip. cbn zeta. rewrite !Hasserts.
  destruct (Z.lt_ge_cases (nFree p) (n + 2)) as [Hfull|Hroom]; [left; split; [done|]|right; destruct (Z.eq_dec wrc SQLITE_OK) as [->|Hw]; [right|left; split; [lia|split; [done|]]]].
  - do 2 (erewrite sm_bind_run by done). rewrite (proj2 (Z.ltb_lt (nFree p) (n + 2))) by lia. rewrite orb_true_r. unfold nOverflow. rewrite Hov.
    do 2 (erewrite sm_bind_run by done). rewrite Hov. rewrite uw_small by (split; cbn; lia). done.
  - split; [lia|]. split; [done|].
    assert (4 ≤ length c)%nat as H4 by lia.
    pose proof (allocateSpace_run bt bt_good temp p cells fs top frag n Hl Htb Htl ltac:(lia) ltac:(lia)) as (idx & d1 & cells1 & fs1 & top1 & frag1 & Ea & Hc1 & Hl1 & Hg1 & Hd1).
    pose proof (length_snd _ _ Hc1) as Hlen1. destruct (layout_fields bt Hl1) as (_ & _ & _ & _ & G5 & _). cbn [cellOffset set_aData] in G5.
    pose proof (ly_room _ _ _ _ _ _ _ Hl1) as [_ _ _ _ Hw1 _ _ _ _ _]. inversion Hw1 as [|? ? (W1 & W2 & W3) _]; subst x l. cbn [fst snd] in W1, W2, W3.
    set (p1 := set_nFree (nFree p - (2 + n)) (set_nCell (Z.of_nat (S (length cells))) (set_aData d1 p))).
    destruct (body_run p1 idx c iChild) as (d2 & Eb & Hi2 & Hbody & Hd2); [apply (ly_image _ _ _ _ _ _ _ Hl1)|lia|lia|done|done|].
    change (aData p1) with d1 in Hd2. set (off := cellOffset p) in *.
    destruct (insert_ptr_ok off (Z.of_nat (length cells)) (Z.of_nat i) idx d2) as (Hi3 & P1 & P2 & P3); [done|lia|lia|lia|lia|].
    set (d3 := insert_ptr off (Z.of_nat (length cells)) (Z.of_nat i) idx d2) in *. set (d4 := splice d3 (hdrOffset p + 3) (be16 (Z.of_nat (S (length cells))))).
    destruct (Hi3) as [_ Hl3]. assert (image bt d4) as Hi4 by (apply (image_splice bt bt_good); [done|apply be16_bytes|lia|cbn; lia]).
    assert (∀ k, 0 ≤ k → k ≠ hdrOffset p + 3 → k ≠ hdrOffset p + 4 → at8 d4 k = at8 d3 k) as Hd4 by (intros; apply splice_out; cbn; lia).
    exists (set_aData d4 p1). split; [|split; [|by exists (nFree p - (2 + n)), (Z.of_nat (S (length cells))), d4]].
    + do 2 (erewrite sm_bind_run by done). rewrite (proj2 (Z.ltb_ge (nFree p) (n + 2))) by lia. unfold nOverflow. rewrite Hov. change (negb (Z.of_nat (length (@nil (Z * list Z))) =? 0) || false) with false. cbv iota.
      change (SQLITE_OK =? SQLITE_OK) with true. cbn [negb]. do 2 (erewrite sm_bind_run by done). cbn zeta. erewrite sm_bind_run by exact Ea. cbn beta iota.
      change (SQLITE_OK =? SQLITE_OK) with true. cbn [negb]. rewrite Hnc. fold off.
      erewrite sm_bind_run by (unfold sm_lift, sm_gets, c_assert; rewrite (proj2 (Z.leb_le (off + 2 * Z.of_nat (length cells) + 2) idx)), (proj2 (Z.leb_le (idx + n) (usableSize bt))) by lia; done).
      erewrite sm_bind_run by done. cbn [nFree nCell set_aData set_nCell]. rewrite Hnc. rewrite (uw_small 16 (2 + n)) by (split; cbn; lia). rewrite !uw_small by (split; cbn; lia).
      replace (Z.of_nat (length cells) + 1) with (Z.of_nat (S (length cells))) by lia. fold p1.
      rewrite (bind3_run _ _ _ _ _ _ _ Eb). destruct (Hi2) as [_ Hl2].
      assert (length (slice d2 (off + 2 * Z.of_nat i) (2 * (Z.of_nat (length cells) - Z.of_nat i))) = Z.to_nat (2 * (Z.of_nat (length cells) - Z.of_nat i))) as Hsl by (apply slice_length; lia).
      erewrite sm_bind_run by (unfold sm_gets; cbn [aData set_aData]; rewrite get_slice_ok by lia; done).
      replace (off + 2 * Z.of_nat (length cells) - (off + 2 * Z.of_nat i)) with (2 * (Z.of_nat (length cells) - Z.of_nat i)) by lia.
      erewrite sm_bind_run by (apply (wr_run bt bt_good); [done|lia|rewrite Hsl; lia]). unfold wr16. cbn [aData set_aData].
      erewrite sm_bind_run by (apply (wr_run bt bt_good); [apply (image_splice bt bt_good); [done|by apply slice_bytes, Hi2|lia|rewrite Hsl; lia]|lia|cbn; lia]).
      do 2 (erewrite sm_bind_run by done). cbn [hdrOffset nCell set_aData]. erewrite sm_bind_run by (apply (wr_run bt bt_good); [done|cbn; lia|cbn; lia]). done.
    + pose proof (with_child_length iChild c (λ _, H4)) as Hwl. assert (n = Z.of_nat (length (with_child iChild c))) as Hn by (rewrite Hwl; done).
      split; [done| |].
      * cbn [hdrOffset set_aData set_nFree set_nCell p1 aData]. rewrite Hd4, P1, Hd2, Hd1 by lia. exact Hfl.
      * exists (insert_at i (idx, with_child iChild c) cells1), fs1, top1, frag1. split; [|unfold insert_at; rewrite <- Hcs, <- Hc1, fmap_app, fmap_cons, fmap_take, fmap_drop; done].
        rewrite Hn in Hl1. pose proof (insert_layout _ _ _ _ _ _ _ i d4 Hl1) as HL. cbn [cellOffset hdrOffset aData nFree set_aData] in HL. fold off in HL. rewrite Hlen1, <- Hn in HL.
        apply HL; try done; try lia.
        -- change (cellSizePtr bt p (with_child iChild c) = Ret n). rewrite with_child_size; [done|done|]. intros Hne. by split; [apply Hch|].
        -- rewrite <- Hbody. apply slice_ext; try lia; [destruct Hi2; lia|destruct Hi4; lia|]. intros k Hk0. rewrite Hd4, P1 by lia. done.
        -- unfold d4. apply splice16_in; [lia|lia|]. lia.
        -- intros j Hj. apply at16_same; (rewrite Hd4 by lia); (rewrite P1 by lia); apply Hd2; lia.
        -- rewrite <- P2. apply at16_same; apply Hd4; lia.
        -- intros j Hj. replace (Z.of_nat (S j)) with (Z.of_nat j + 1) by lia. transitivity (at16 d3 (off + 2 * (Z.of_nat j + 1))); [apply at16_same; apply Hd4; lia|].
           rewrite P3 by lia. apply at16_same; apply Hd2; lia.
        -- intros k Hk0 Hk3 Hk4 Hk5 Hk6. rewrite Hd4 by lia. rewrite P1 by lia. apply Hd2; lia.
  - do 2 (erewrite sm_bind_run by done). rewrite (proj2 (Z.ltb_ge (nFree p) (n + 2))) by lia. unfold nOverflow. rewrite Hov.
    change (negb (Z.of_nat (length (@nil (Z * list Z))) =? 0) || false) with false. cbv iota. by rewrite (proj2 (Z.eqb_neq _ _) Hw).
Qed.

(** ** Dropping a cell *)

Lemma room_perm hdr data regs regs' fs top frag : regs ≡ₚ regs' → room bt hdr data regs fs top frag → room bt hdr data regs' fs top frag.
Proof.
  intros Hp [Ht Hf Hc Ha Hw Hfs Hsep Hsum Hlo Hfew]. split; try done; [by eapply apart_perm|by rewrite <- Hp|by rewrite <- Hp|by rewrite <- (size_of_perm _ _ Hp)].
Qed.

Lemma mask_offset p o : static_ok bt p → 0 ≤ o < pageSize bt → maskPage p .& o = o.
Proof using Hlim.
  intros [_ _ _ Hm] Ho. destruct bt_good as [(k & Hk & E) _]. rewrite Hm, E, Z.land_comm, land_pred_pow2 by lia. apply Z.mod_small. by rewrite <- E.
Qed.

(** The pointers after a cell are moved down. *)
Definition remove_ptr (off n i : Z) (d : list Z) : list Z := splice d (off + 2 * i) (slice d (off + 2 * i + 2) (2 * (n - i))).

Lemma remove_ptr_ok off n i d : image bt d → 0 ≤ off → 0 ≤ i ≤ n → off + 2 * n + 2 ≤ usableSize bt →
  let d' := remove_ptr off n i d in
  image bt d' ∧ (∀ k, 0 ≤ k → k < off + 2 * i ∨ off + 2 * n ≤ k → at8 d' k = at8 d k) ∧
  (∀ j, i ≤ j < n → at16 d' (off + 2 * j) = at16 d (off + 2 * (j + 1))).
Proof using Hlim.
  intros Hi H0 Hin Hus d'. pose proof (page_max bt bt_good) as Hpm. destruct (Hi) as [Hb Hl].
  assert (Z.of_nat (length (slice d (off + 2 * i + 2) (2 * (n - i)))) = 2 * (n - i)) as Hsl by (rewrite slice_length; lia).
  split; [apply (image_splice bt bt_good); [done|by apply slice_bytes|lia|lia]|]. split.
  - intros k Hk Hor. apply splice_out; lia.
  - intros j Hj. unfold d', remove_ptr, at16. rewrite !splice_in by lia. rewrite !slice_at8 by lia. f_equal; [f_equal|]; f_equal; lia.
Qed.

Lemma remove_region cells i (o : Z) (c : list Z) : cells !! i = Some (o, c) → region <$> cells ≡ₚ (o, Z.of_nat (length c)) :: (region <$> remove_at i cells).
Proof.
  intros Hi. assert (remove_at i (region <$> cells) = region <$> remove_at i cells) as <- by (unfold remove_at; by rewrite fmap_app, fmap_take, fmap_drop).
  apply remove_at_perm. by rewrite list_lookup_fmap, Hi.
Qed.

(** The cells that are left keep their places. *)
Lemma remove_layout p cells fs top frag i o c d fs' top' frag' : layout bt p cells fs top frag → cells !! i = Some (o, c) → image bt d →
  room bt (hdrOffset p) d (region <$> remove_at i cells) fs' top' frag' → top ≤ top' → at16 d (hdrOffset p + 3) = Z.of_nat (length cells) - 1 →
  (∀ j, (j < i)%nat → at16 d (cellOffset p + 2 * Z.of_nat j) = at16 (aData p) (cellOffset p + 2 * Z.of_nat j)) →
  (∀ j, (i ≤ j)%nat → (S j < length cells)%nat → at16 d (cellOffset p + 2 * Z.of_nat j) = at16 (aData p) (cellOffset p + 2 * Z.of_nat (S j))) →
  (∀ o' c' k, (o', c') ∈ remove_at i cells → o' ≤ k < o' + Z.of_nat (length c') → at8 d k = at8 (aData p) k) →
  layout bt (set_nFree (nFree p + Z.of_nat (length c) + 2) (set_aData d (set_nCell (Z.of_nat (length cells) - 1) p))) (remove_at i cells) fs' top' frag'.
Proof using Hlim.
  intros Hl Hic Him Hroom' Htop Hcnt Hlow Hup Hbody. pose proof (page_max bt bt_good) as Hpm. destruct (layout_fields bt Hl) as (F1 & F2 & F3 & F4 & F5 & F6).
  pose proof (lookup_lt_Some _ _ _ Hic) as Hlt. pose proof (length_remove_at i cells Hlt) as Hlen.
  pose proof Hl as [Him0 Hst Hov Hnc Hc0 Hcell Hroom Hg0 Hfree]. cbn [app size_of] in Hroom, Hfree.
  split; cbn [aData set_aData apOvfl nCell hdrOffset cellOffset nFree set_nFree set_nCell app]; try done.
  - by destruct Hst as [[] ? ? ?]; split.
  - rewrite Hlen. lia.
  - rewrite Hlen. lia.
  - intros j o' c' Hj. pose proof (list_elem_of_lookup_2 _ _ _ Hj) as Hin. pose proof (lookup_lt_Some _ _ _ Hj) as Hjl. rewrite Hlen in Hjl. rewrite lookup_remove_at in Hj by done.
    assert (∃ j', cells !! j' = Some (o', c') ∧ at16 d (cellOffset p + 2 * Z.of_nat j) = at16 (aData p) (cellOffset p + 2 * Z.of_nat j')) as (j' & Hj' & Hptr).
    { destruct (decide (j < i)%nat); [exists j; auto|exists (S j); split; [done|apply Hup; lia]]. }
    destruct (Hcell j' o' c' Hj') as (C1 & C2 & C3). destruct (layout_cell bt Hl Hj') as [(C4 & C5 & C6) _]. split; [by rewrite Hptr|]. split; [|done].
    rewrite <- C2 at 2. apply slice_ext; try lia; [destruct Him0; lia|destruct Him; lia|]. intros k Hk. apply (Hbody o' c'); [done|lia].
  - rewrite Hlen. lia.
  - pose proof (remove_region _ _ _ _ Hic) as Hperm. apply size_of_perm in Hperm. cbn in Hperm. pose proof (rm_sum _ _ _ _ _ _ _ Hroom) as Hs. pose proof (rm_sum _ _ _ _ _ _ _ Hroom') as Hs'.
    rewrite Hlen. cbn [size_of]. lia.
Qed.

Lemma dropCell_run p cs i c : holds p cs → cs !! i = Some c →
  ∃ p', dropCell bt (Z.of_nat i) (Z.of_nat (length c)) SQLITE_OK p = Ret (SQLITE_OK, p') ∧ holds p' (remove_at i cs) ∧
    ∃ f n d, p' = set_nFree f (set_nCell n (set_aData d p)).
Proof using Hlim.
  intros [Hin Hfl (cells & fs & top & frag & Hl & Hcs)] Hci. pose proof (page_max bt bt_good) as Hpm. rewrite <- Hcs, list_lookup_fmap in Hci.
  destruct (cells !! i) as [[o c']|] eqn:Hi; [|done]. cbn in Hci. injection Hci as ->.
  destruct (layout_fields bt Hl) as (F1 & F2 & F3 & F4 & F5 & F6). pose proof (layout_nFree _ _ _ _ _ _ Hl) as Hnf. destruct (layout_count _ _ _ _ _ Hl) as [Hmx1 Hmx2].
  pose proof (lookup_lt_Some _ _ _ Hi) as Hlt. pose proof (layout_cell bt Hl Hi) as [(C4 & C5 & C6) _]. pose proof Hl as [Him Hst Hov Hnc Hc0 Hcell Hroom Hg0 Hfree].
  destruct (Hcell i o c Hi) as (C1 & C2 & C3). cbn [app size_of] in Hroom, Hfree. set (n := Z.of_nat (length c)) in *.
  pose proof (remove_region _ _ _ _ Hi) as Hperm. fold n in Hperm. pose proof (room_perm _ _ _ _ _ _ _ Hperm Hroom) as Hroom2.
  pose proof (rm_sum _ _ _ _ _ _ _ Hroom2) as Hsum2. cbn [size_of snd] in Hsum2.
  assert (0 ≤ size_of (region <$> remove_at i cells)) as Hpos.
  { pose proof (rm_within _ _ _ _ _ _ _ Hroom2) as Hw. inversion Hw as [|? ? _ Hw2]; subst x l. by eapply (size_of_nonneg _ 4); [|exact Hw2]. }
  destruct (freeSpace_run bt bt_good p (hdrOffset p) (region <$> remove_at i cells) fs top frag o n Him eq_refl F1 ltac:(lia) Hroom2 ltac:(lia) ltac:(lia))
    as (d1 & fs1 & top1 & frag1 & Ef & Hi1 & Hr1 & Ht1 & Hb1).
  assert (∀ k, 0 ≤ k → k ≤ hdrOffset p ∨ k = hdrOffset p + 3 ∨ k = hdrOffset p + 4 ∨ hdrOffset p + 8 ≤ k < top → at8 d1 k = at8 (aData p) k) as Hlow.
  { intros k Hk Hor. apply Hb1; [done|lia|]. intros o' n' [E|Hin']%list.elem_of_cons; [injection E as -> ->; lia|].
    destruct (ascending_in 4 _ _ _ _ _ ltac:(lia) (rm_fs _ _ _ _ _ _ _ Hroom) Hin'). lia. }
  set (off := cellOffset p) in *. set (N := Z.of_nat (length cells)) in *.
  destruct (remove_ptr_ok off (N - 1) (Z.of_nat i) d1) as (Hi2 & P1 & P2); [done|lia|lia|lia|]. set (d2 := remove_ptr off (N - 1) (Z.of_nat i) d1) in *.
  set (d3 := splice d2 (hdrOffset p + 3) (be16 (N - 1))). destruct (Hi1) as [_ Hl1], (Hi2) as [_ Hl2].
  assert (image bt d3) as Hi3 by (apply (image_splice bt bt_good); [done|apply be16_bytes|lia|cbn; lia]).
  assert (∀ k, 0 ≤ k → k ≠ hdrOffset p + 3 → k ≠ hdrOffset p + 4 → at8 d3 k = at8 d2 k) as Hd3 by (intros; apply splice_out; cbn; lia).
  exists (set_nFree (nFree p + n + 2) (set_aData d3 (set_nCell (N - 1) p))). split; [|split; [|by exists (nFree p + n + 2), (N - 1), d3]].
  - unfold dropCell. change (SQLITE_OK =? SQLITE_OK) with true. cbn [negb]. erewrite sm_bind_run by done. rewrite Hnc.
    erewrite sm_bind_run by (unfold sm_lift, sm_gets; rewrite (proj2 (Z.leb_le 0 (Z.of_nat i))), (proj2 (Z.ltb_lt (Z.of_nat i) N)) by lia; done).
    erewrite sm_bind_run.
    2: { unfold findCell. erewrite sm_bind_run by done. erewrite sm_bind_run by (apply (rd16_run bt bt_good); [done|cbn; lia|cbn; lia]). cbn [id]. fold off. rewrite C1. rewrite mask_offset by (done || lia). done. }
    erewrite sm_bind_run.
    2: { unfold sm_gets. destruct (Him) as [Hbd Hld]. rewrite from_byte_ok by lia. cbn [mbind outcome_bind]. rewrite (drop_slice (aData p) o n) by lia. rewrite C2.
         rewrite (cellSizePtr_app bt bt_good p (st_kind _ _ Hst) c _ n); [|apply Forall_app_2; [rewrite <- C2; by apply slice_bytes|by apply Forall_drop]|done].
         cbn [mbind outcome_bind]. rewrite Z.eqb_refl. done. }
    erewrite sm_bind_run by done. erewrite sm_bind_run by (apply (rd16_run bt bt_good); [done|lia|lia]). fold off. rewrite C1. erewrite sm_bind_run by done.
    erewrite sm_bind_run by (apply (rd16_run bt bt_good); [done|lia|lia]).
    assert (at16 (aData p) (hdrOffset p + 5) ≤ o) as Hraw.
    { pose proof (rm_top _ _ _ _ _ _ _ Hroom) as Ht. unfold nz16 in Ht. destruct (Z.eqb_spec (at16 (aData p) (hdrOffset p + 5)) 0); lia. }
    rewrite (proj2 (Z.ltb_ge o _) Hraw). rewrite (uw_small 32 (o + n)) by (split; cbn; lia). rewrite (proj2 (Z.ltb_ge (usableSize bt) (o + n))) by lia. cbn [orb].
    erewrite sm_bind_run by exact Ef. change (SQLITE_OK =? SQLITE_OK) with true. cbn [negb]. erewrite sm_bind_run by done. erewrite sm_bind_run by done.
    cbn [nCell set_nFree set_aData set_nCell]. rewrite Hnc. fold N. rewrite (uw_small 16 (N - 1)) by (split; cbn; lia).
    assert (length (slice d1 (off + 2 * Z.of_nat i + 2) (2 * (N - 1 - Z.of_nat i))) = Z.to_nat (2 * (N - 1 - Z.of_nat i))) as Hsl by (apply slice_length; lia).
    erewrite sm_bind_run by (unfold sm_gets; cbn [aData set_aData set_nFree set_nCell]; rewrite get_slice_ok by lia; done).
    erewrite sm_bind_run by (apply (wr_run bt bt_good); [done|lia|rewrite Hsl; lia]). unfold wr16. cbn [aData set_aData set_nFree set_nCell].
    erewrite sm_bind_run by (apply (wr_run bt bt_good); [done|lia|cbn; lia]). erewrite sm_bind_run by done. cbn [nFree set_nFree set_aData set_nCell].
    rewrite uw_small by (split; cbn; lia). done.
  - split; [done| |].
    + cbn [hdrOffset set_aData set_nFree set_nCell aData]. rewrite Hd3, P1, Hlow by lia. exact Hfl.
    + exists (remove_at i cells), fs1, top1, frag1. split; [|unfold remove_at; rewrite <- Hcs, fmap_app, fmap_take, fmap_drop; done].
      apply (remove_layout p cells fs top frag i o c); try done.
      * destruct Hr1 as [Ht Hf Hc Ha Hw Hfs Hsep Hsum Hlo Hfew]. split; try done.
        -- rewrite <- Ht. f_equal. apply at16_same; (rewrite Hd3 by lia); apply P1; lia.
        -- rewrite <- Hf. rewrite Hd3 by lia. apply P1; lia.
        -- eapply chain_frame; [exact Hc|apply at16_same; (rewrite Hd3 by lia); apply P1; lia|]. intros o' n' Hin'. destruct (ascending_in 4 _ _ _ _ _ ltac:(lia) Hfs Hin').
           split; apply at16_same; (rewrite Hd3 by lia); apply P1; lia.
      * unfold d3. rewrite splice16_in by lia. done.
      * intros j Hj. apply at16_same; (rewrite Hd3 by lia); (rewrite P1 by lia); apply Hlow; lia.
      * intros j Hj1 Hj2. transitivity (at16 d2 (off + 2 * Z.of_nat j)); [apply at16_same; apply Hd3; lia|]. rewrite P2 by lia.
        replace (Z.of_nat j + 1) with (Z.of_nat (S j)) by lia. apply at16_same; apply Hlow; lia.
      * intros o' c' k Hin' Hk. assert (region (o', c') ∈ (region <$> remove_at i cells)) as Hreg by (apply list_elem_of_fmap; by exists (o', c')).
        pose proof (proj1 (list.Forall_forall _ _) (rm_within _ _ _ _ _ _ _ Hr1) _ Hreg) as (W1 & W2 & W3). cbn in W1, W2, W3.
        rewrite Hd3, P1 by lia. apply Hb1; [lia|lia|]. intros x m Hx. assert (disj (o', Z.of_nat (length c')) (x, m)) as Hdj; [|unfold disj in Hdj; cbn in Hdj; lia].
        apply list.elem_of_cons in Hx as [E|Hx].
        -- injection E as -> ->. pose proof (rm_apart _ _ _ _ _ _ _ Hroom2) as [Ha1 _]. apply disj_sym. by apply (proj1 (list.Forall_forall _ _) Ha1 _ Hreg).
        -- pose proof (rm_sep _ _ _ _ _ _ _ Hroom2) as Hsep. inversion Hsep as [|? ? _ Hs2]; subst x0 l. pose proof (proj1 (list.Forall_forall _ _) Hs2 _ Hreg) as Hd.
           by apply (proj1 (list.Forall_forall _ _) Hd _ Hx).
Qed.

(** ** Reading a page *)

Lemma sum_free_run p icf : image bt (aData p) → ∀ fs addr lo fuel acc, chain (aData p) addr fs → ascending 4 lo (usableSize bt) fs → 0 < icf ≤ lo → (length fs ≤ fuel)%nat →
  sum_free bt fuel (at16 (aData p) addr) icf (usableSize bt - 4) acc p = Ret (Some (acc + size_of fs), p).
Proof using Hlim.
  intros Hi. induction fs as [|[o n] fs IH]; intros addr lo fuel acc Hc Ha Hlo Hf.
  - cbn in Hc. rewrite Hc. destruct fuel; cbn [sum_free size_of]; by rewrite Z.add_0_r.
  - destruct Hc as (E1 & E2 & Hc), Ha as (A1 & A2 & A3 & A4). rewrite E1. destruct fuel as [|fuel]; [cbn in Hf; lia|]. cbn [sum_free].
    rewrite (proj2 (Z.ltb_lt 0 o)) by lia. cbn [negb]. rewrite (proj2 (Z.ltb_ge o icf)), (proj2 (Z.ltb_ge (usableSize bt - 4) o)) by lia. cbn [orb].
    erewrite sm_bind_run by (apply (rd16_run bt bt_good); [done|lia|lia]). erewrite sm_bind_run by (apply (rd16_run bt bt_good); [done|lia|lia]). rewrite E2.
    assert ((0 <? at16 (aData p) o) && (at16 (aData p) o <=? o + n + 3) = false) as ->.
    { destruct fs as [|[o2 n2] fs]; [cbn in Hc; by rewrite Hc|]. destruct Hc as (E3 & _), A4 as (B1 & _). rewrite E3. rewrite (proj2 (Z.leb_gt o2 _)) by lia. by rewrite andb_false_r. }
    rewrite (proj2 (Z.ltb_ge (usableSize bt) (o + n))) by lia. cbn [orb]. rewrite (IH o (o + n + 4)); [|done|done|lia|cbn in Hf; lia]. cbn [size_of snd]. do 3 f_equal. lia.
Qed.

Lemma page_eq p q : isInit p = isInit q → intKey p = intKey q → leaf p = leaf q → hasData p = hasData q → hdrOffset p = hdrOffset q →
  childPtrSize p = childPtrSize q → max1bytePayload p = max1bytePayload q → maxLocal p = maxLocal q → minLocal p = minLocal q →
  cellOffset p = cellOffset q → nFree p = nFree q → nCell p = nCell q → maskPage p = maskPage q → apOvfl p = apOvfl q → aData p = aData q → pgno p = pgno q → p = q.
Proof. destruct p, q. cbn. intros. by subst. Qed.

(** The bytes of a page determine what is kept in memory. *)
(** The outcome of [btreeInitPage] on a page of a known kind: [q] is the page with its
    flags, offsets and number of cells, [r] the sum over its free blocks. *)
Definition init_outcome (q : MemPage) (off n : Z) (r : option Z) : Z * MemPage :=
  if MX_CELL bt <? n then (SQLITE_CORRUPT, q) else
  match r with
  | Some m => if usableSize bt <? m then (SQLITE_CORRUPT, q) else (SQLITE_OK, set_isInit 1 (set_nFree (u16 (m - (off + 2 * n))) q))
  | None => (SQLITE_CORRUPT, q)
  end.

Lemma btreeInitPage_known p p1 r : image bt (aData p) → 0 ≤ hdrOffset p ≤ 100 → isInit p = 0 →
  decodeFlags bt (at8 (aData p) (hdrOffset p)) p = Ret (SQLITE_OK, p1) → aData p1 = aData p → 0 ≤ leaf p1 ≤ 1 →
  let off := hdrOffset p + 12 - 4 * leaf p1 in
  let n := at16 (aData p) (hdrOffset p + 3) in
  let q := set_nCell n (set_apOvfl [] (set_place off (pageSize bt - 1) p1)) in
  sum_free bt (Z.to_nat (usableSize bt)) (at16 (aData p) (hdrOffset p + 1)) (off + 2 * n) (usableSize bt - 4)
    (at8 (aData p) (hdrOffset p + 7) + nz16 (at16 (aData p) (hdrOffset p + 5))) q = Ret (r, q) →
  btreeInitPage bt p = Ret (init_outcome q off n r).
Proof using Hlim.
  intros Hi Hh Hin E1 Ed Hlf off n q Er. pose proof (page_max bt bt_good) as Hpm. unfold btreeInitPage. erewrite sm_bind_run by done. rewrite Hin. cbn [Z.eqb negb].
  erewrite sm_bind_run by done. erewrite sm_bind_run by (apply (rd8_run bt bt_good); [done|lia]). erewrite sm_bind_run by exact E1. change (SQLITE_OK =? SQLITE_OK) with true. cbn [negb].
  erewrite sm_bind_run by (unfold sm_lift, sm_gets; destruct (bt_pow _ bt_good) as (k & Hkk & Epow); rewrite (proj2 (Z.leb_le 512 (pageSize bt))), (proj2 (Z.leb_le (pageSize bt) 65536));
    [done|lia|rewrite Epow; change 512 with (2 ^ 9); apply Z.pow_le_mono_r; lia]).
  erewrite sm_bind_run by done. fold off. rewrite (uw_small 16 off) by (unfold off; split; cbn; lia). cbn zeta. erewrite sm_bind_run by done. rewrite (uw_small 16 (pageSize bt - 1)) by (split; cbn; lia).
  assert (aData (set_apOvfl [] (set_place off (pageSize bt - 1) p1)) = aData p) as Ed1 by exact Ed. set (q0 := set_apOvfl [] (set_place off (pageSize bt - 1) p1)) in *.
  pose proof Hi as [Hbd Hlen]. erewrite sm_bind_run by (unfold sm_gets; rewrite Ed1, get2byteNotZero_ok by (done || lia); done).
  erewrite sm_bind_run by (apply (rd16_run bt bt_good); [by rewrite Ed1|lia|lia]). rewrite Ed1. fold n. erewrite sm_bind_run by done. change (set_nCell n q0) with q.
  assert (aData q = aData p) as Edq by exact Ed. unfold init_outcome.
  destruct (MX_CELL bt <? n); [done|]. erewrite sm_bind_run by (apply (rd16_run bt bt_good); [by rewrite Edq|lia|lia]). erewrite sm_bind_run by (apply (rd8_run bt bt_good); [by rewrite Edq|lia]).
  rewrite Edq. erewrite sm_bind_run by exact Er. destruct r as [m|]; [|done]. by destruct (usableSize bt <? m).
Qed.

Lemma btreeInitPage_run p p0 cs : holds p cs → aData p0 = aData p → pgno p0 = pgno p → hdrOffset p0 = hdrOffset p → isInit p0 = 0 →
  btreeInitPage bt p0 = Ret (SQLITE_OK, p).
Proof using Hlim.
  intros [Hin Hfl (cells & fs & top & frag & Hl & Hcs)] Ed Eg Eh Ei. pose proof (page_max bt bt_good) as Hpm.
  destruct (layout_fields bt Hl) as (F1 & F2 & F3 & F4 & F5 & F6). pose proof (layout_nFree _ _ _ _ _ _ Hl) as Hnf. destruct (layout_count _ _ _ _ _ Hl) as [Hmx1 _].
  pose proof Hl as [Him Hst Hov Hnc Hc0 _ Hroom Hg0 Hfree]. cbn [app size_of] in Hroom, Hfree. pose proof Hst as [Hk Hh Ho Hm].
  pose proof Hroom as [Ht Hf Hc _ _ Hfs _ Hsum _ _]. assert (image bt (aData p0)) as Hi0 by (by rewrite Ed).
  destruct (decodeFlags_run p0 (at8 (aData p) (hdrOffset p))) as (p1 & E1 & Hd1 & Hp1); [by rewrite Eh, Eg|destruct Hfl as (Hlf & _ & _ & [(-> & _)|(-> & _)]); destruct Hlf as [-> | ->]; vm_compute; by auto 6|].
  assert (leaf p1 = leaf p ∧ childPtrSize p1 = childPtrSize p ∧ intKey p1 = intKey p ∧ hasData p1 = hasData p ∧ maxLocal p1 = maxLocal p ∧ minLocal p1 = minLocal p ∧
    max1bytePayload p1 = max1bytePayload p) as (G1 & G2 & G3 & G4 & G5 & G6 & G7).
  { destruct Hfl as (Hlf & Hcp & Hm1 & Hor), Hd1 as (Hlf' & Hcp' & Hm1' & Hor'). change (PTF_LEAFDATA .| PTF_INTKEY) with 5 in Hor, Hor'. change PTF_ZERODATA with 2 in Hor, Hor'. assert (leaf p1 = leaf p) as El.
    { destruct Hor as [(Ef & _)|(Ef & _)], Hor' as [(Ef' & _)|(Ef' & _)]; rewrite Ef in Ef'; lia. }
    rewrite Hcp, Hcp', Hm1, Hm1', El. do 2 (split; [done|]).
    destruct Hor as [(Ef & H1 & H2 & H3 & H4)|(Ef & H1 & H2 & H3 & H4)], Hor' as [(Ef' & H1' & H2' & H3' & H4')|(Ef' & H1' & H2' & H3' & H4')];
      try (rewrite Ef in Ef'; lia); rewrite H1, H1', H2, H2', H3, H3', H4, H4', ?El; done. }
  assert (p1 = set_kind (intKey p) (hasData p) (maxLocal p) (minLocal p) (max1bytePayload p) (set_leaf (leaf p) (childPtrSize p) p0)) as -> by (by rewrite <- G1, <- G2, <- G3, <- G4, <- G5, <- G6, <- G7).
  pose proof (ascending_length _ _ _ (ascending_gap 4 0 _ _ _ ltac:(lia) Hfs)) as Hal. pose proof (size_of_nonneg _ 4 _ _ ltac:(lia) (rm_within _ _ _ _ _ _ _ Hroom)) as Hnn.
  rewrite <- Ed, <- Eh in E1. erewrite btreeInitPage_known; [|done|lia|done|exact E1|done|cbn [leaf set_kind set_leaf]; lia|].
  2: { cbn [leaf set_kind set_leaf]. rewrite Ed, Eh, Hc0, Hf, Ht, <- Ho. set (q := set_nCell _ _). assert (aData q = aData p) as Eq by exact Ed. rewrite <- Eq at 1. rewrite <- Eq in Hc.
       apply (sum_free_run q _ ltac:(by rewrite Eq) fs _ top); [rewrite Eq in Hc |- *; done|done|lia|lia]. }
  cbn [leaf set_kind set_leaf]. rewrite Ed, Eh, Hc0, <- Ho. unfold init_outcome. rewrite (proj2 (Z.ltb_ge _ _) Hmx1).
  rewrite (proj2 (Z.ltb_ge (usableSize bt) (frag + top + size_of fs))) by lia.
  replace (u16 (frag + top + size_of fs - (cellOffset p + 2 * Z.of_nat (length cells)))) with (nFree p) by (rewrite uw_small; [lia|split; cbn; lia]). do 2 f_equal.
  rewrite <- Hnc, <- Hm, <- Hov. apply page_eq; try done.
Qed.

(** ** An empty page *)

Lemma zero_header d hdr f : image bt d → 0 ≤ hdr ≤ 100 → 0 ≤ f < 256 →
  let d' := splice (splice (splice (splice d hdr [f]) (hdr + 1) (replicate 4 0)) (hdr + 7) [0]) (hdr + 5) (be16 (usableSize bt)) in
  image bt d' ∧ at8 d' hdr = f ∧ at16 d' (hdr + 1) = 0 ∧ at16 d' (hdr + 3) = 0 ∧ nz16 (at16 d' (hdr + 5)) = usableSize bt ∧ at8 d' (hdr + 7) = 0.
Proof using Hlim.
  intros Hi Hh Hf d'. pose proof (page_max bt bt_good) as Hpm.
  set (d1 := splice d hdr [f]) in *. assert (image bt d1) as I1 by (apply (image_splice bt bt_good); [done|constructor; [lia|constructor]|lia|cbn; lia]).
  set (d2 := splice d1 (hdr + 1) (replicate 4 0)) in *. assert (image bt d2) as I2 by (apply (image_splice bt bt_good); [done|apply Forall_replicate; lia|lia|cbn; lia]).
  set (d3 := splice d2 (hdr + 7) [0]) in *. assert (image bt d3) as I3 by (apply (image_splice bt bt_good); [done|constructor; [lia|constructor]|lia|cbn; lia]).
  assert (image bt d') as I4 by (apply (image_splice bt bt_good); [done|apply be16_bytes|lia|cbn; lia]).
  destruct (Hi) as [_ L0], (I1) as [_ L1], (I2) as [_ L2], (I3) as [_ L3]. change d' with (splice d3 (hdr + 5) (be16 (usableSize bt))).
  assert (∀ k, hdr + 1 ≤ k < hdr + 5 → at8 d2 k = 0) as Hz.
  { intros k Hk. unfold d2. rewrite splice_in by (cbn; lia). unfold at8. rewrite lookup_replicate_2 by lia. done. }
  split; [done|]. split; [|split; [|split; [|split]]].
  - rewrite splice_out by (cbn; lia). unfold d3. rewrite splice_out by (cbn; lia). unfold d2. rewrite splice_out by (cbn; lia). unfold d1. rewrite splice_in by (cbn; lia). by rewrite Z.sub_diag.
  - rewrite splice16_out by (cbn; lia). unfold d3. rewrite splice16_out by (cbn; lia). unfold at16. by rewrite !Hz by lia.
  - rewrite splice16_out by (cbn; lia). unfold d3. rewrite splice16_out by (cbn; lia). unfold at16. by rewrite !Hz by lia.
  - apply nz16_be16; lia.
  - rewrite splice_out by (cbn; lia). unfold d3. rewrite splice_in by (cbn; lia). by rewrite Z.sub_diag.
Qed.

(** A page without cells, whose space is one gap. *)
Definition fresh (p : MemPage) : Prop :=
  isInit p = 1 ∧ decoded p (at8 (aData p) (hdrOffset p)) ∧ layout bt p [] [] (usableSize bt) 0.

Lemma fresh_holds p : fresh p → holds p [].
Proof. intros (H1 & H2 & H3). split; [done|done|]. by exists [], [], (usableSize bt), 0. Qed.

Lemma zeroPage_run p f : image bt (aData p) → hdrOffset p = (if pgno p =? 1 then 100 else 0) → good_flags f →
  ∃ p', zeroPage bt f p = Ret ((), p') ∧ fresh p' ∧ pgno p' = pgno p ∧ hdrOffset p' = hdrOffset p ∧ at8 (aData p') (hdrOffset p) = f ∧
    nFree p' = usableSize bt - (hdrOffset p + 12 - 4 * leaf p').
Proof using Hlim.
  intros Hi Hh Hf. pose proof (page_max bt bt_good) as Hpm. assert (0 ≤ hdrOffset p ≤ 100) as Hhr by (destruct (pgno p =? 1); lia).
  assert (0 ≤ f < 256) as Hfb by (destruct Hf as [-> | [-> | [-> | ->]]]; lia).
  destruct (erase_run bt bt_good p (hdrOffset p) (usableSize bt - hdrOffset p) Hi ltac:(lia) ltac:(lia) ltac:(lia)) as (d0 & E0 & Hi0 & _).
  destruct (zero_header d0 (hdrOffset p) f Hi0 Hhr Hfb) as (Hi1 & Z1 & Z2 & Z3 & Z4 & Z5).
  match type of Hi1 with image _ ?d => set (d1 := d) in * end.
  assert (∀ B (k : sm MemPage B), (_ ← wr (hdrOffset p) [u8 f]; _ ← wr (hdrOffset p + 1) (replicate 4 0); _ ← wr (hdrOffset p + 7) [0]; _ ← wr16 (hdrOffset p + 5) (usableSize bt); k)
    (set_aData d0 p) = k (set_aData d1 p)) as Hwr.
  { intros B k. rewrite (uw_small 8 f) by (split; cbn; lia). assert (bytes_ok [f] ∧ bytes_ok [0]) as [Hb1 Hb2] by (split; (constructor; [lia|constructor])).
    erewrite sm_bind_run by (apply (wr_run bt bt_good); [done|lia|cbn; lia]). cbn [aData set_aData].
    assert (image bt (splice d0 (hdrOffset p) [f])) as J1 by (apply (image_splice bt bt_good); [done|done|lia|cbn; lia]).
    erewrite sm_bind_run by (apply (wr_run bt bt_good); [done|lia|cbn; lia]). cbn [aData set_aData].
    assert (image bt (splice (splice d0 (hdrOffset p) [f]) (hdrOffset p + 1) (replicate 4 0))) as J2 by (apply (image_splice bt bt_good); [done|apply Forall_replicate; lia|lia|cbn; lia]).
    erewrite sm_bind_run by (apply (wr_run bt bt_good); [done|lia|cbn; lia]). cbn [aData set_aData].
    unfold wr16. erewrite sm_bind_run by (apply (wr_run bt bt_good); [apply (image_splice bt bt_good); [done|done|lia|cbn; lia]|lia|cbn; lia]). done. }
  set (first := hdrOffset p + (if f .& PTF_LEAF =? 0 then 12 else 8)).
  set (p1 := set_nFree (usableSize bt - first) (set_aData d1 p)).
  destruct (decodeFlags_run p1 f Hh Hf) as (p2 & E2 & Hd2 & Hp2).
  assert (first = hdrOffset p + 12 - 4 * leaf p2) as Hfst.
  { unfold first. destruct Hd2 as (Hlf & _ & _ & Hor). change (PTF_LEAFDATA .| PTF_INTKEY) with 5 in Hor. change PTF_ZERODATA with 2 in Hor.
    destruct Hf as [-> | [-> | [-> | ->]]]; (match goal with |- context [if ?b then _ else _] => let v := eval vm_compute in b in change b with v end); cbv iota; lia. }
  set (p3 := set_isInit 1 (set_nCell 0 (set_apOvfl [] (set_place first (pageSize bt - 1) p2)))).
  assert (aData p2 = d1 ∧ hdrOffset p2 = hdrOffset p ∧ pgno p2 = pgno p ∧ nFree p2 = usableSize bt - first) as (G1 & G2 & G3 & G4) by (rewrite Hp2; done).
  assert (0 ≤ leaf p2 ≤ 1) as Hlf by (destruct Hd2; lia).
  exists p3. split; [|split; [|split; [done|split; [done|split; [cbn; by rewrite G1|cbn; rewrite G4; lia]]]]].
  - unfold zeroPage. erewrite sm_bind_run by done. erewrite sm_bind_run by exact E0. rewrite Hwr. cbn zeta. fold first.
    rewrite (uw_small 16 first) by (split; cbn; lia). rewrite (uw_small 16 (usableSize bt - first)) by (split; cbn; lia). erewrite sm_bind_run by done. fold p1. erewrite sm_bind_run by exact E2.
    erewrite sm_bind_run by (unfold sm_lift, sm_gets; destruct (bt_pow _ bt_good) as (k & Hkk & Epow); rewrite (proj2 (Z.leb_le 512 (pageSize bt))), (proj2 (Z.leb_le (pageSize bt) 65536));
      [done|lia|rewrite Epow; change 512 with (2 ^ 9); apply Z.pow_le_mono_r; lia]).
    rewrite (uw_small 16 (pageSize bt - 1)) by (split; cbn; lia). done.
  - split; [done|]. assert (decoded p3 f) as Hd3 by exact Hd2. split; [change (aData p3) with (aData p2); change (hdrOffset p3) with (hdrOffset p2); by rewrite G1, G2, Z1|].
    split; change (aData p3) with (aData p2); change (hdrOffset p3) with (hdrOffset p2); change (cellOffset p3) with first; change (nFree p3) with (nFree p2); rewrite ?G1, ?G2, ?G4; try done.
    + split; [by eapply decoded_kind|change (hdrOffset p3) with (hdrOffset p2); change (pgno p3) with (pgno p2); by rewrite G2, G3|change (hdrOffset p3) with (hdrOffset p2); rewrite G2; exact Hfst|done].
    + split; try done; cbn; lia.
    + cbn. lia.
    + cbn. lia.
Qed.

(** ** Many cells at once *)

Lemma assemble_loop_run : ∀ rest ptr body p, image bt (aData p) → Forall bytes_ok rest → 0 ≤ ptr - 2 * Z.of_nat (length rest) → ptr ≤ body - bodies rest → body ≤ usableSize bt →
  Forall (λ c, 4 ≤ Z.of_nat (length c)) rest →
  ∃ d, assemble_loop rest ptr body p = Ret (body - bodies rest, set_aData d p) ∧ image bt d ∧
    (∀ j o c, reloc body rest !! j = Some (o, c) → at16 d (ptr - 2 * Z.of_nat (S j)) = o ∧ slice d o (Z.of_nat (length c)) = c) ∧
    ∀ k, 0 ≤ k → k < ptr - 2 * Z.of_nat (length rest) ∨ ptr ≤ k → k < body - bodies rest ∨ body ≤ k → at8 d k = at8 (aData p) k.
Proof using Hlim.
  pose proof (page_max bt bt_good) as Hpm. induction rest as [|c rest IH]; intros ptr body p Hi Hb Hoff Hfit Hus H4.
  - exists (aData p). cbn. rewrite Z.sub_0_r. split; [by destruct p|]. split; [done|]. split; [intros j o c Hj; done|done].
  - inversion Hb as [|? ? Hbc Hbr]; subst x l. inversion H4 as [|? ? H4c H4r]; subst x l. pose proof (bodies_nonneg rest) as Hbn. cbn [length] in *.
    assert (bodies (c :: rest) = Z.of_nat (length c) + bodies rest) as Hbod by done. rewrite Hbod in *. set (n := Z.of_nat (length c)) in *. destruct (Hi) as [_ Hl0].
    set (d1 := splice (aData p) (ptr - 2) (be16 (body - n))). assert (image bt d1) as I1 by (apply (image_splice bt bt_good); [done|apply be16_bytes|lia|cbn; lia]).
    set (d2 := splice d1 (body - n) c). assert (image bt d2) as I2 by (apply (image_splice bt bt_good); [done|done|lia|lia]). destruct (I1) as [_ L1], (I2) as [_ L2].
    assert (∀ k, 0 ≤ k → k < ptr - 2 ∨ ptr ≤ k → k < body - n ∨ body ≤ k → at8 d2 k = at8 (aData p) k) as Hd2.
    { intros k Hk Hk1 Hk2. unfold d2. rewrite splice_out by lia. apply splice_out; cbn; lia. }
    destruct (IH (ptr - 2) (body - n) (set_aData d2 p)) as (d & Er & Hid & Hre & Hfr); try done; try lia. cbn [aData set_aData] in Hfr.
    exists d. split; [|split; [done|split]].
    + cbn [assemble_loop]. fold n. unfold wr16. erewrite sm_bind_run by (apply (wr_run bt bt_good); [done|lia|cbn; lia]).
      erewrite sm_bind_run by (apply (wr_run bt bt_good); [done|lia|lia]). cbn [aData set_aData]. rewrite set_aData_twice. fold d1 d2. rewrite Er. do 2 f_equal. lia.
    + intros j o c' Hj. cbn [reloc] in Hj. destruct j as [|j]; cbn in Hj.
      * injection Hj as <- <-. fold n. split.
        -- change (Z.of_nat 1) with 1. replace (ptr - 2 * 1) with (ptr - 2) by lia. transitivity (at16 d1 (ptr - 2)); [|unfold d1; apply splice16_in; lia].
           transitivity (at16 d2 (ptr - 2)); [apply at16_same; apply Hfr; lia|]. unfold d2. apply splice16_out; lia.
        -- rewrite (slice_ext d2 d (body - n) (body - n)); [|lia|lia|lia|lia|destruct Hid; lia|intros k Hk0; apply Hfr; lia]. apply slice_splice; lia.
      * fold n in Hj. destruct (Hre j o c' Hj) as [R1 R2]. split; [|done]. rewrite <- R1. f_equal. lia.
    + intros k Hk Hk1 Hk2. rewrite Hfr by lia. apply Hd2; lia.
Qed.

Lemma bodies_rev cs : bodies (reverse cs) = bodies cs.
Proof. unfold bodies. apply size_of_perm. by rewrite reverse_Permutation. Qed.

(** The cells of an assembled page with their places. *)
Definition assembled (cs : list (list Z)) : list (Z * list Z) := reverse (reloc (usableSize bt) (reverse cs)).

Lemma assembled_snd cs : (assembled cs).*2 = cs.
Proof. unfold assembled. rewrite fmap_reverse, reloc_snd, reverse_involutive. done. Qed.

Lemma assemblePage_run p cs : fresh p → Forall (λ c, bytes_ok c ∧ cellSizePtr bt p c = Ret (Z.of_nat (length c))) cs →
  2 * Z.of_nat (length cs) + bodies cs ≤ nFree p →
  ∃ p', assemblePage bt cs p = Ret ((), p') ∧ holds p' cs ∧ nFree p' = nFree p - (2 * Z.of_nat (length cs) + bodies cs).
Proof using Hlim.
  intros (Hin & Hfl & Hl) Hcs Hfit. pose proof (page_max bt bt_good) as Hpm. pose proof (decoded_kind _ _ Hfl) as Hk.
  destruct (layout_fields bt Hl) as (F1 & F2 & F3 & F4 & F5 & F6). pose proof Hl as [Him Hst Hov Hnc Hc0 _ Hroom Hg0 Hfree]. cbn [app size_of fmap list_fmap length] in Hroom, Hfree, Hc0, Hnc.
  set (off := cellOffset p) in *. set (N := Z.of_nat (length cs)) in *. pose proof (bodies_nonneg cs) as Hbn.
  assert (Forall (λ c, 4 ≤ Z.of_nat (length c)) cs) as H4.
  { eapply list.Forall_impl; [exact Hcs|]. intros c [Hc Hsz]. by apply (cellSizePtr_range bt bt_good p Hk c _ Hc Hsz). }
  assert (4 * N ≤ bodies cs) as H4N by (unfold N, bodies; clear -H4; induction H4; cbn in *; lia).
  destruct (assemble_loop_run (reverse cs) (off + N * 2) (usableSize bt) p Him) as (d1 & Er & Hi1 & Hre & Hfr);
    [apply Forall_reverse; eapply list.Forall_impl; [exact Hcs|]; by intros c [Hc _]|rewrite length_reverse; lia|rewrite bodies_rev; lia|lia|by apply Forall_reverse|].
  rewrite bodies_rev in Er, Hfr. rewrite length_reverse in Hfr. fold N in Hfr. set (cb := usableSize bt - bodies cs) in *. assert (cb = usableSize bt - bodies cs) as Ecb by done.
  destruct (Hi1) as [_ L1]. set (d2 := splice d1 (hdrOffset p + 3) (be16 N)). assert (image bt d2) as I2 by (apply (image_splice bt bt_good); [done|apply be16_bytes|lia|cbn; lia]).
  set (d3 := splice d2 (hdrOffset p + 5) (be16 cb)). assert (image bt d3) as I3 by (apply (image_splice bt bt_good); [done|apply be16_bytes|lia|cbn; lia]). destruct (I2) as [_ L2].
  assert (∀ k, 0 ≤ k → k ≤ hdrOffset p + 2 ∨ hdrOffset p + 7 ≤ k → at8 d3 k = at8 d1 k) as Hd3.
  { intros k Hk0 Hor. unfold d3. rewrite splice_out by (cbn; lia). apply splice_out; cbn; lia. }
  exists (set_nCell N (set_nFree (nFree p - (2 * N + bodies cs)) (set_aData d3 p))). split; [|split; [split; [done| |]|done]].
  - unfold assemblePage. fold N. cbn zeta. erewrite sm_bind_run.
    2: { unfold sm_gets, nOverflow. rewrite Hov, Hnc. assert (N ≤ MX_CELL bt ∧ MX_CELL bt ≤ 10921) as [M1 M2].
         { unfold MX_CELL. split; [apply Z.div_le_lower_bound; lia|]. apply Z.lt_succ_r, Z.div_lt_upper_bound; lia. }
         rewrite (proj2 (Z.leb_le _ _) M1), (proj2 (Z.leb_le _ _) M2). done. }
    erewrite sm_bind_run by done. erewrite sm_bind_run.
    2: { pose proof (top_run bt bt_good _ _ _ _ _ Hl) as Ht. unfold sm_gets in *. destruct (get2byteNotZero (aData p) (hdrOffset p + 5)); [|done]. injection Ht as ->. cbn [mbind outcome_bind]. by rewrite Z.eqb_refl. }
    erewrite sm_bind_run by done. fold off. rewrite rev_alt. change (rev_append cs []) with (reverse cs). erewrite sm_bind_run by exact Er.
    unfold wr16. erewrite sm_bind_run by (apply (wr_run bt bt_good); [done|cbn; lia|cbn; lia]). erewrite sm_bind_run by (apply (wr_run bt bt_good); [done|lia|cbn; lia]).
    cbn [aData set_aData]. rewrite !set_aData_twice. fold d2 d3. unfold sm_mod. cbn [nFree set_aData]. rewrite !uw_small by (split; cbn; lia).
    replace (nFree p - (N * 2 + usableSize bt - cb)) with (nFree p - (2 * N + bodies cs)) by lia. done.
  - cbn [hdrOffset aData set_aData set_nFree set_nCell]. rewrite Hd3, Hfr by lia. exact Hfl.
  - exists (assembled cs), [], cb, 0. split; [|apply assembled_snd].
    assert (length (assembled cs) = length cs) as Hal by (unfold assembled; by rewrite length_reverse, reloc_length, length_reverse).
    assert (region <$> assembled cs ≡ₚ region <$> reloc (usableSize bt) (reverse cs)) as Hperm by (unfold assembled; by rewrite reverse_Permutation).
    split; cbn [aData set_aData apOvfl nCell hdrOffset cellOffset nFree set_nFree set_nCell app]; fold off; rewrite ?Hal; try done.
    + by destruct Hst as [[] ? ? ?]; split.
    + unfold d3. rewrite splice16_out by (cbn; lia). unfold d2. apply splice16_in; lia.
    + intros i o c Hic. pose proof (lookup_lt_Some _ _ _ Hic) as Hlt. rewrite Hal in Hlt. pose proof Hic as Hic0. unfold assembled in Hic.
      rewrite reverse_lookup, reloc_length, length_reverse in Hic by (by rewrite reloc_length, length_reverse). destruct (Hre _ _ _ Hic) as [R1 R2].
      assert (4 ≤ Z.of_nat (length c) ∧ cb ≤ o ∧ o + Z.of_nat (length c) ≤ usableSize bt) as (W2 & W1 & W3).
      { pose proof (reloc_within (usableSize bt) (reverse cs) ltac:(by apply Forall_reverse)) as Hw. rewrite bodies_rev in Hw. rewrite list.Forall_forall in Hw.
        destruct (Hw (region (o, c))) as (W1 & W2 & W3); [apply list_elem_of_fmap; eexists; split; [done|by eapply list_elem_of_lookup_2]|]. cbn in W1, W2, W3. lia. }
      split; [|split].
      * rewrite <- R1. transitivity (at16 d1 (off + 2 * Z.of_nat i)); [apply at16_same; apply Hd3; lia|]. f_equal. lia.
      * rewrite <- R2 at 2. apply slice_ext; try lia; [destruct I3; lia|]. intros k Hk0. apply Hd3; lia.
      * assert (cs !! i = Some c) as Hc by (rewrite <- (assembled_snd cs), list_lookup_fmap, Hic0; done). by apply (proj1 (list.Forall_lookup _ _) Hcs i c Hc).
    + split; try done.
      * unfold d3. apply nz16_be16; lia.
      * rewrite Hd3, Hfr by lia. apply Hroom.
      * cbn. transitivity (at16 d1 (hdrOffset p + 1)); [apply at16_same; apply Hd3; lia|]. transitivity (at16 (aData p) (hdrOffset p + 1)); [apply at16_same; apply Hfr; lia|]. apply Hroom.
      * eapply apart_perm; [symmetry; exact Hperm|]. apply reloc_apart. by apply Forall_reverse.
      * rewrite Hperm. pose proof (reloc_within (usableSize bt) (reverse cs) ltac:(by apply Forall_reverse)) as Hw. by rewrite bodies_rev in Hw.
      * apply list.Forall_forall. intros r _. constructor.
      * rewrite (size_of_perm _ _ Hperm), <- bodies_region, reloc_snd, bodies_rev. cbn. lia.
      * lia.
    + lia.
    + cbn. lia.
Qed.
End Cells.
