(* ===== verification/BtSpec.v ===== *)
(** * What the pages of a B-tree promise

    A page is a list of cells with a capacity: a cell can be inserted whenever it
    fits, however the space of the page is broken up, and the bytes of the page
    always determine the cells. *)

From S2P Require Import Prelude Varint Buffer BtPage BtLayout BtFree BtCell BtAlloc BtCells.
#[local] Open Scope Z_scope.
#[local] Open Scope c_scope.
#[local] Open Scope list_scope.

(** The limits that are computed when a database is opened are good for every page
    size and every reserved space that [lockBtree] accepts. *)
Lemma lockBtree_limits_ok k usable sec av : 9 ≤ k ≤ 16 → 480 ≤ usable ≤ 2 ^ k → ∃ bt, lockBtree_limits (2 ^ k) usable sec av = Ret bt ∧ limits_ok bt ∧
  pageSize bt = 2 ^ k ∧ usableSize bt = usable.
Proof.
  intros Hk Hu. assert (2 ^ k ≤ 65536) as Hp by (change 65536 with (2 ^ 16); apply Z.pow_le_mono_r; lia).
  unfold lockBtree_limits. assert (0 ≤ (usable - 12) * 64 / 255 ∧ (usable - 12) * 64 / 255 ≤ usable - 12 ∧ 58 ≤ (usable - 12) * 32 / 255 ∧ (usable - 12) * 32 / 255 ≤ (usable - 12) * 64 / 255 ∧
    (usable - 12) * 64 / 255 * 255 ≤ (usable - 12) * 64) as (A1 & A2 & A3 & A4 & A5).
  { split; [apply Z.div_pos; lia|]. split; [apply Z.div_le_upper_bound; lia|]. split; [apply Z.div_le_lower_bound; lia|]. split; [apply Z.div_le_mono; lia|].
    pose proof (Z.mul_div_le ((usable - 12) * 64) 255). lia. }
  rewrite (uw_small 32 (usable - 12)) by (split; cbn; lia). rewrite (uw_small 32 ((usable - 12) * 64)), (uw_small 32 ((usable - 12) * 32)) by (split; cbn; lia).
  rewrite (uw_small 32 ((usable - 12) * 64 / 255 - 23)), (uw_small 32 ((usable - 12) * 32 / 255 - 23)), (uw_small 32 (usable - 35)) by (split; cbn; lia).
  rewrite (uw_small 16 ((usable - 12) * 64 / 255 - 23)), (uw_small 16 ((usable - 12) * 32 / 255 - 23)), (uw_small 16 (usable - 35)) by (split; cbn; lia).
  rewrite (uw_small 32 (2 ^ k - 8)) by (split; change (2 ^ 32) with 4294967296; lia). rewrite sw_small by (lia || split; change (2 ^ (32 - 1)) with 2147483648; lia).
  rewrite (proj2 (Z.leb_le (usable - 35 + 23) (2 ^ k - 8))) by lia. eexists. split; [done|]. cbn. split; [|done].
  split; cbn; [|lia|lia]. split; cbn; [by exists k|lia].
Qed.

Section Spec.
Context (bt : BtShared) (Hlim : limits_ok bt).

(** The space that a list of cells takes, and what a page has for cells. *)
Definition needs (cs : list (list Z)) : Z := 2 * Z.of_nat (length cs) + bodies cs.
Definition capacity (p : MemPage) : Z := usableSize bt - cellOffset p.

(** Every byte is accounted for. *)
Lemma holds_nFree p cs : holds bt p cs → nFree p = capacity p - needs cs.
Proof.
  intros [_ _ (cells & fs & top & frag & Hl & <-)]. destruct Hl as [_ _ _ _ _ _ [_ _ _ _ _ _ _ Hsum _ _] _ Hfree]. cbn [app size_of] in *.
  unfold capacity, needs. rewrite bodies_region, length_fmap. lia.
Qed.

(** A cell that belongs on a page. *)
Definition cell_for (p : MemPage) (c : list Z) (iChild : Z) : Prop :=
  bytes_ok c ∧ cellSizePtr bt p c = Ret (Z.of_nat (length c)) ∧ (iChild ≠ 0 → leaf p = 0).

(** ** Histories of a page *)

(** An insertion, with what the temporary buffer holds, or a removal. *)
Inductive page_op :=
  | InsertCell (temp : list Z) (i : nat) (c : list Z) (iChild : Z)
  | DropCell (i : nat).

(** The callers of [dropCell] compute the size of the cell. *)
Definition run_op (op : page_op) : sm MemPage Z :=
  match op with
  | InsertCell temp i c iChild => insertCell bt temp SQLITE_OK (Z.of_nat i) c iChild SQLITE_OK
  | DropCell i =>
      o ← findCell (Z.of_nat i);
      sz ← sm_gets (λ p, q ← from_byte (aData p) o; cellSizePtr bt p q);
      dropCell bt (Z.of_nat i) sz SQLITE_OK
  end.

Fixpoint run_ops (ops : list page_op) : sm MemPage Z :=
  match ops with
  | [] => mret SQLITE_OK
  | op :: ops' => rc ← run_op op; if negb (rc =? SQLITE_OK) then mret rc else run_ops ops'
  end.

(** The same on lists: an operation is possible when its index is in range and
    the cell fits. *)
Definition op_ok (p : MemPage) (op : page_op) (cs : list (list Z)) : Prop :=
  match op with
  | InsertCell temp i c iChild => (i ≤ length cs)%nat ∧ cell_for p c iChild ∧ needs (c :: cs) ≤ capacity p ∧
      bytes_ok temp ∧ Z.of_nat (length temp) = pageSize bt
  | DropCell i => (i < length cs)%nat
  end.

Definition list_op (op : page_op) (cs : list (list Z)) : list (list Z) :=
  match op with
  | InsertCell _ i c iChild => insert_at i (with_child iChild c) cs
  | DropCell i => remove_at i cs
  end.

Fixpoint ops_ok (p : MemPage) (ops : list page_op) (cs : list (list Z)) : Prop :=
  match ops with
  | [] => True
  | op :: ops' => op_ok p op cs ∧ ops_ok p ops' (list_op op cs)
  end.

Definition list_ops (ops : list page_op) (cs : list (list Z)) : list (list Z) := foldl (λ cs op, list_op op cs) cs ops.

(** What the operations do not change. *)
Record same_page (p p' : MemPage) : Prop := {
  sp_pgno : pgno p' = pgno p;
  sp_hdr : hdrOffset p' = hdrOffset p;
  sp_off : cellOffset p' = cellOffset p;
  sp_leaf : leaf p' = leaf p;
  sp_size : ∀ c, cellSizePtr bt p' c = cellSizePtr bt p c }.

Lemma same_page_refl p : same_page p p.
Proof. by split. Qed.

Lemma same_page_trans p p' p'' : same_page p p' → same_page p' p'' → same_page p p''.
Proof. intros [] []. split; congruence. Qed.

Lemma ops_ok_same p p' ops cs : same_page p p' → ops_ok p ops cs → ops_ok p' ops cs.
Proof.
  intros [_ _ Ho Hl Hs]. revert cs. induction ops as [|op ops IH]; intros cs; cbn; [done|]. intros [H1 H2]. split; [|by apply IH].
  destruct op as [temp i c iChild|i]; [|done]. unfold op_ok, cell_for, capacity in *. by rewrite Ho, Hl, Hs.
Qed.

Lemma same_page_set p f n d : same_page p (set_nFree f (set_nCell n (set_aData d p))).
Proof. by split. Qed.

Lemma run_op_ok op p cs : holds bt p cs → op_ok p op cs → ∃ p', run_op op p = Ret (SQLITE_OK, p') ∧ holds bt p' (list_op op cs) ∧ same_page p p'.
Proof using Hlim.
  intros Hh Hop. pose proof (holds_nFree _ _ Hh) as Hn. pose proof (page_max bt (bt_good bt Hlim)) as Hpm. destruct op as [temp i c iChild|i]; cbn [op_ok run_op list_op] in *.
  - destruct Hop as (Hi & (Hb & Hs & Hch) & Hfit & Htb & Htl). unfold needs in Hn, Hfit. assert (bodies (c :: cs) = Z.of_nat (length c) + bodies cs) as E by done.
    cbn [length] in Hfit. destruct (insertCell_run bt Hlim temp p cs i c iChild SQLITE_OK Hh Htb Htl Hb Hs Hch Hi) as [[? _]|[(_ & ? & _)|(_ & _ & p' & E' & Hp' & f & n & d & ->)]];
      [lia|done|]. eexists. split; [exact E'|]. split; [done|apply same_page_set].
  - destruct (lookup_lt_is_Some_2 cs i Hop) as [c Hc]. destruct (dropCell_run bt Hlim p cs i c Hh Hc) as (p' & E' & Hp' & f & n & d & ->).
    eexists. split; [|split; [done|apply same_page_set]]. destruct Hh as [_ _ (cells & fs & top & frag & Hl & Hcs)].
    assert (∃ o, cells !! i = Some (o, c)) as [o Ho].
    { rewrite <- Hcs, list_lookup_fmap in Hc. destruct (cells !! i) as [[o c']|]; [|done]. cbn in Hc. injection Hc as ->. by exists o. }
    destruct (layout_fields bt Hl) as (F1 & F2 & F3 & F4 & F5 & F6). pose proof (layout_cell bt Hl Ho) as [(C4 & C5 & C6) _].
    pose proof Hl as [Him Hst _ _ _ Hcell _ _ _]. destruct (Hcell i o c Ho) as (C1 & C2 & C3). destruct (Him) as [Hb Hlen]. apply lookup_lt_Some in Ho.
    erewrite sm_bind_run.
    2: { unfold findCell. erewrite sm_bind_run by done. erewrite sm_bind_run by (apply (rd16_run bt (bt_good bt Hlim)); [done|cbn; lia|cbn; lia]). cbn [id]. rewrite C1. rewrite (mask_offset bt Hlim) by (done || lia). done. }
    erewrite sm_bind_run.
    2: { unfold sm_gets. rewrite from_byte_ok by lia. cbn [mbind outcome_bind]. rewrite (drop_slice (aData p) o (Z.of_nat (length c))) by lia. rewrite C2.
         rewrite (cellSizePtr_app bt (bt_good bt Hlim) p (st_kind _ _ Hst) c _ (Z.of_nat (length c))); [done|apply Forall_app_2; [rewrite <- C2; by apply slice_bytes|by apply Forall_drop]|done]. }
    exact E'.
Qed.

Lemma run_ops_ok ops p cs : holds bt p cs → ops_ok p ops cs → ∃ p', run_ops ops p = Ret (SQLITE_OK, p') ∧ holds bt p' (list_ops ops cs) ∧ same_page p p'.
Proof using Hlim.
  revert p cs. induction ops as [|op ops IH]; intros p cs Hh; cbn [ops_ok run_ops]; [intros _; exists p; split; [done|]; split; [done|apply same_page_refl]|].
  intros [H1 H2]. destruct (run_op_ok op p cs Hh H1) as (p1 & E1 & Hh1 & Hs1). destruct (IH p1 _ Hh1 (ops_ok_same _ _ _ _ Hs1 H2)) as (p2 & E2 & Hh2 & Hs2).
  exists p2. split; [|split; [done|by eapply same_page_trans]]. erewrite sm_bind_run by exact E1. change (SQLITE_OK =? SQLITE_OK) with true. cbn [negb]. exact E2.
Qed.
End Spec.

(** C19: A page implements a list of cells. On a page that holds the cells [cs],
    [insertCell] puts a cell (with its child pointer replaced where one is given)
    at its place in the list if it fits in what the cells leave of the page, however that
    space is broken up; otherwise it leaves the page alone and records an
    overflow cell; an error of the pager is returned. [dropCell] removes a
    cell. No function reports a corrupt page or reads outside of it. *)
Theorem insertCell_dropCell_refine bt p cs : limits_ok bt → holds bt p cs →
  (∀ temp i c iChild wrc, bytes_ok temp → Z.of_nat (length temp) = pageSize bt → cell_for bt p c iChild → (i ≤ length cs)%nat →
     if bool_decide (needs (c :: cs) ≤ capacity bt p) then
       if wrc =? SQLITE_OK then ∃ p', insertCell bt temp wrc (Z.of_nat i) c iChild SQLITE_OK p = Ret (SQLITE_OK, p') ∧ holds bt p' (insert_at i (with_child iChild c) cs)
       else insertCell bt temp wrc (Z.of_nat i) c iChild SQLITE_OK p = Ret (wrc, p)
     else insertCell bt temp wrc (Z.of_nat i) c iChild SQLITE_OK p = Ret (SQLITE_OK, set_apOvfl [(Z.of_nat i, with_child iChild c)] p)) ∧
  (∀ i c, cs !! i = Some c → ∃ p', dropCell bt (Z.of_nat i) (Z.of_nat (length c)) SQLITE_OK p = Ret (SQLITE_OK, p') ∧ holds bt p' (remove_at i cs)).
Proof.
  intros Hlim Hh. pose proof (holds_nFree bt _ _ Hh) as Hn. split.
  - intros temp i c iChild wrc Htb Htl (Hb & Hs & Hch) Hi. unfold needs in *. assert (bodies (c :: cs) = Z.of_nat (length c) + bodies cs) as E by done. cbn [length].
    destruct (insertCell_run bt Hlim temp p cs i c iChild wrc Hh Htb Htl Hb Hs Hch Hi) as [[H1 H2]|[(H1 & H2 & H3)|(H1 & -> & p' & H3 & H4 & _)]].
    + rewrite bool_decide_eq_false_2 by lia. exact H2.
    + rewrite bool_decide_eq_true_2 by lia. rewrite (proj2 (Z.eqb_neq _ _) H2). exact H3.
    + rewrite bool_decide_eq_true_2 by lia. rewrite Z.eqb_refl. by exists p'.
  - intros i c Hc. destruct (dropCell_run bt Hlim p cs i c Hh Hc) as (p' & H1 & H2 & _). by exists p'.
Qed.

(** C18: From an empty page on, after any sequence of insertions of cells that fit
    and removals, the page holds the list that the same operations make of the
    empty list, the free space that is kept in memory is exactly the rest of the page,
    and [btreeInitPage] reads back from the bytes of the page what is in memory. *)
Theorem page_history bt p f ops : limits_ok bt → image bt (aData p) → hdrOffset p = (if pgno p =? 1 then 100 else 0) → good_flags f →
  ∃ p0, zeroPage bt f p = Ret ((), p0) ∧ (ops_ok bt p0 ops [] →
    ∃ p1, run_ops bt ops p0 = Ret (SQLITE_OK, p1) ∧ holds bt p1 (list_ops ops []) ∧ nFree p1 = capacity bt p1 - needs (list_ops ops []) ∧
      ∀ q, aData q = aData p1 → pgno q = pgno p → hdrOffset q = hdrOffset p → isInit q = 0 → btreeInitPage bt q = Ret (SQLITE_OK, p1)).
Proof.
  intros Hlim Hi Hh Hf. destruct (zeroPage_run bt Hlim p f Hi Hh Hf) as (p0 & E0 & Hfr & Hg & Hho & _). exists p0. split; [done|]. intros Hops.
  destruct (run_ops_ok bt Hlim ops p0 [] (fresh_holds _ _ Hfr) Hops) as (p1 & E1 & Hh1 & [S1 S2 _ _ _]). exists p1. split; [done|]. split; [done|].
  split; [by apply holds_nFree|]. intros q Q1 Q2 Q3 Q4. eapply (btreeInitPage_run bt Hlim); [exact Hh1|done|congruence|congruence|done].
Qed.

(** ** A small page, for the witnesses *)

Definition demo_bt : BtShared := MkShared 512 512 102 39 477 39 102 true false.
Definition demo_raw : MemPage := MkPage 0 0 0 0 0 0 0 0 0 0 0 0 0 [] (replicate 512 9) 2.
Definition demo_leaf : MemPage := match zeroPage demo_bt 13 demo_raw with Ret (_, p) => p | Undef _ => demo_raw end.
(** A row with a payload of three bytes, and one with a payload on overflow pages. *)
Definition demo_row : list Z := [3; 1; 10; 11; 12].
Definition demo_long : list Z := [132; 0; 2] ++ replicate 39 7 ++ [0; 0; 0; 9].
Definition demo_temp : list Z := replicate 512 255.
Definition demo_ops : list page_op :=
  [InsertCell demo_temp 0 demo_row 0; InsertCell demo_temp 0 demo_long 0; InsertCell demo_temp 1 demo_row 0; DropCell 0; InsertCell demo_temp 2 demo_long 0].

Lemma demo_limits : limits_ok demo_bt.
Proof. split; cbn; [|lia|lia]. split; cbn; [exists 9; split; [lia|done]|lia]. Qed.

Lemma demo_temp_ok : bytes_ok demo_temp ∧ Z.of_nat (length demo_temp) = 512.
Proof. split; [apply Forall_replicate; lia|done]. Qed.

Lemma demo_image : image demo_bt (aData demo_raw).
Proof. split; [apply Forall_replicate; lia|done]. Qed.

Lemma demo_cells : cell_for demo_bt demo_leaf demo_row 0 ∧ cell_for demo_bt demo_leaf demo_long 0.
Proof.
  split; (split; [|split; [by vm_compute|done]]); [repeat (constructor; [lia|]); constructor|].
  apply Forall_app_2; [repeat (constructor; [lia|]); constructor|]. apply Forall_app_2; [apply Forall_replicate; lia|]. repeat (constructor; [lia|]). constructor.
Qed.

Lemma demo_ops_ok : ops_ok demo_bt demo_leaf demo_ops [].
Proof.
  destruct demo_temp_ok as [T1 T2], demo_cells as [C1 C2]. cbn [ops_ok op_ok demo_ops].
  repeat (split; [first [(split; [cbn; lia|]; split; [done|]; split; [vm_compute; discriminate|done]) | (cbn; lia)]|]). done.
Qed.

Lemma demo_leaf_holds : holds demo_bt demo_leaf [].
Proof.
  destruct (zeroPage_run demo_bt demo_limits demo_raw 13 demo_image eq_refl ltac:(right; right; by right)) as (p0 & E & Hf & _).
  unfold demo_leaf. rewrite E. by apply fresh_holds.
Qed.

Lemma page_history_witness :
  ∃ p1, run_ops demo_bt demo_ops demo_leaf = Ret (SQLITE_OK, p1) ∧ holds demo_bt p1 [demo_row; demo_row; demo_long] ∧
    btreeInitPage demo_bt (MkPage 0 0 0 0 0 0 0 0 0 0 0 0 0 [] (aData p1) 2) = Ret (SQLITE_OK, p1).
Proof.
  destruct (page_history demo_bt demo_raw 13 demo_ops demo_limits demo_image eq_refl ltac:(right; right; by right)) as (p0 & E & H).
  assert (demo_leaf = p0) as <- by (unfold demo_leaf; rewrite E; done).
  destruct (H demo_ops_ok) as (p1 & R & Hh & _ & Hi). exists p1. split; [exact R|]. split; [exact Hh|]. by apply Hi.
Defined.

Lemma insertCell_dropCell_refine_witness :
  ∃ p', insertCell demo_bt demo_temp SQLITE_OK 0 demo_row 0 SQLITE_OK demo_leaf = Ret (SQLITE_OK, p') ∧ holds demo_bt p' [demo_row].
Proof.
  destruct (insertCell_dropCell_refine demo_bt demo_leaf [] demo_limits demo_leaf_holds) as [H _]. destruct demo_temp_ok as [T1 T2], demo_cells as [C1 _].
  specialize (H demo_temp 0%nat demo_row 0 SQLITE_OK T1 T2 C1 ltac:(cbn; lia)). rewrite bool_decide_eq_true_2 in H by (vm_compute; discriminate). exact H.
Defined.

Lemma cellSizePtr_parse_witness : cellSizePtr demo_bt demo_leaf demo_long = Ret 46 ∧ (i ← btreeParseCellPtr demo_bt demo_leaf demo_long; Ret (nSize i)) = Ret 46.
Proof.
  destruct demo_cells as [_ (Hb & Hs & _)]. destruct demo_leaf_holds as [_ Hd _].
  destruct (cellSizePtr_parse demo_bt demo_leaf demo_long (lm_bt _ demo_limits) (decoded_kind demo_bt demo_limits _ _ Hd) Hb) as [E _]. rewrite <- E, Hs. done.
Defined.
