(* ===== verification/BtCorrupt.v ===== *)
(** * Pages with arbitrary content

    A database file can hold any bytes. [btreeInitPage] returns on every page;
    two other functions do not behave as their comments say on pages that are corrupt. *)

From S2P Require Import Prelude Varint Buffer BtPage BtLayout BtFree BtCell BtAlloc BtCells BtSpec.
#[local] Open Scope Z_scope.
#[local] Open Scope c_scope.
#[local] Open Scope list_scope.

(** ** Initialisation *)

(** Blocks of a list that has been checked: in the page, in ascending order, with
    at least four bytes between the starts. *)
Fixpoint checked (bt : BtShared) (data : list Z) (lo pc : Z) (fs : list (Z * Z)) : Prop :=
  match fs with
  | [] => pc = 0
  | (o, n) :: fs' => pc = o ∧ 0 < o ∧ lo ≤ o ≤ usableSize bt - 4 ∧ at16 data (o + 2) = n ∧ o + n ≤ usableSize bt ∧ checked bt data (o + n + 4) (at16 data o) fs'
  end.

Lemma sum_free_total bt p icf : bt_ok bt → image bt (aData p) → 0 < icf → ∀ fuel pc lo acc, 0 ≤ pc < 65536 → lo = icf ∨ pc = 0 ∨ lo ≤ pc → icf ≤ lo → usableSize bt - pc < Z.of_nat fuel ∧ (0 < fuel)%nat ∨ pc = 0 →
  ∃ r, sum_free bt fuel pc icf (usableSize bt - 4) acc p = Ret (r, p) ∧ ∀ n, r = Some n → ∃ fs, checked bt (aData p) lo pc fs ∧ n = acc + size_of fs.
Proof.
  intros Hbt Hi Hicf. pose proof (page_max bt Hbt) as Hpm. induction fuel as [|fuel IH]; intros pc lo acc Hpc Hor Hlo Hf; cbn [sum_free].
  - destruct (Z.ltb_spec 0 pc); cbn [negb].
    + destruct Hf as [[_ Hf]| ->]; lia.
    + eexists. split; [done|]. intros n E. injection E as <-. exists []. cbn. lia.
  - destruct (Z.ltb_spec 0 pc); cbn [negb]; [|eexists; split; [done|]; intros n E; injection E as <-; exists []; cbn; lia].
    destruct (Z.ltb_spec pc icf); [by exists None|]. destruct (Z.ltb_spec (usableSize bt - 4) pc); [by exists None|]. cbn [orb].
    pose proof (at16_range (aData p) pc (proj1 Hi)) as Hn. pose proof (at16_range (aData p) (pc + 2) (proj1 Hi)) as Hs.
    assert (∃ r, (if (0 <? at16 (aData p) pc) && (at16 (aData p) pc <=? pc + at16 (aData p) (pc + 2) + 3) || (usableSize bt <? pc + at16 (aData p) (pc + 2)) then mret None
      else sum_free bt fuel (at16 (aData p) pc) icf (usableSize bt - 4) (acc + at16 (aData p) (pc + 2))) p = Ret (r, p) ∧
      ∀ n, r = Some n → ∃ fs, checked bt (aData p) lo pc fs ∧ n = acc + size_of fs) as (r & Er & Hr).
    { destruct (Z.ltb_spec 0 (at16 (aData p) pc)), (Z.leb_spec (at16 (aData p) pc) (pc + at16 (aData p) (pc + 2) + 3)), (Z.ltb_spec (usableSize bt) (pc + at16 (aData p) (pc + 2)));
        cbn [andb orb]; try (by exists None);
        (destruct (IH (at16 (aData p) pc) (pc + at16 (aData p) (pc + 2) + 4) (acc + at16 (aData p) (pc + 2))) as (r & Er & Hr); [lia|lia|lia|lia|];
         exists r; split; [exact Er|]; intros n En; destruct (Hr n En) as (fs & Hc & Hsz); exists ((pc, at16 (aData p) (pc + 2)) :: fs); cbn; split; [repeat split; lia || done|lia]). }
    exists r. split; [|done]. erewrite sm_bind_run by (apply (rd16_run bt Hbt); [done|lia|lia]). erewrite sm_bind_run by (apply (rd16_run bt Hbt); [done|lia|lia]). exact Er.
Qed.

(** C20: [btreeInitPage] returns on every page, whatever bytes it holds: it never
    reads outside of the page and its walk through the free blocks ends. It
    answers SQLITE_OK or SQLITE_CORRUPT, SQLITE_CORRUPT for every unknown kind of
    page; if it answers SQLITE_OK, the free blocks lie in the page in ascending
    order without overlap, and with the fragments and the gap they make up [nFree]. *)
Theorem btreeInitPage_total bt p : limits_ok bt → image bt (aData p) → hdrOffset p = (if pgno p =? 1 then 100 else 0) → isInit p = 0 →
  ∃ rc p', btreeInitPage bt p = Ret (rc, p') ∧ (rc = SQLITE_OK ∨ rc = SQLITE_CORRUPT) ∧ aData p' = aData p ∧
    (¬ good_flags (at8 (aData p) (hdrOffset p)) → rc = SQLITE_CORRUPT) ∧
    (rc = SQLITE_OK → isInit p' = 1 ∧ decoded bt p' (at8 (aData p) (hdrOffset p)) ∧ nCell p' = at16 (aData p) (hdrOffset p + 3) ∧ nCell p' ≤ MX_CELL bt ∧
       ∃ fs, checked bt (aData p) (cellOffset p' + 2 * nCell p') (at16 (aData p) (hdrOffset p + 1)) fs ∧
         nFree p' = u16 (at8 (aData p) (hdrOffset p + 7) + nz16 (at16 (aData p) (hdrOffset p + 5)) + size_of fs - (cellOffset p' + 2 * nCell p'))).
Proof.
  intros Hlim Hi Hh Hin. pose proof (bt_good bt Hlim) as Hbt. pose proof (page_max bt Hbt) as Hpm. assert (0 ≤ hdrOffset p ≤ 100) as Hhr by (destruct (pgno p =? 1); lia).
  pose proof (at8_byte (aData p) (hdrOffset p) (proj1 Hi)) as Hb. set (f := at8 (aData p) (hdrOffset p)) in *.
  destruct (decide (f = 2 ∨ f = 5 ∨ f = 10 ∨ f = 13)) as [Hg|Hg].
  2: { destruct (decodeFlags_bad bt p f Hh Hb Hg) as (l & c & E). exists SQLITE_CORRUPT, (set_leaf l c p). split; [|split; [by right|done]].
       unfold btreeInitPage. erewrite sm_bind_run by done. rewrite Hin. cbn [Z.eqb negb]. erewrite sm_bind_run by done. erewrite sm_bind_run by (apply (rd8_run bt Hbt); [done|lia]). by erewrite sm_bind_run by exact E. }
  destruct (decodeFlags_run bt p f Hh Hg) as (p1 & E1 & Hd1 & Hp1). assert (aData p1 = aData p ∧ 0 ≤ leaf p1 ≤ 1) as [Ed Hlf] by (split; [by rewrite Hp1|destruct Hd1; lia]).
  set (off := hdrOffset p + 12 - 4 * leaf p1). set (n := at16 (aData p) (hdrOffset p + 3)). assert (0 ≤ n < 65536) as Hn by apply at16_range, Hi. assert (8 ≤ off ≤ 112) as Hoff by (unfold off; lia).
  set (q := set_nCell n (set_apOvfl [] (set_place off (pageSize bt - 1) p1))). assert (image bt (aData q)) as Hq by (change (aData q) with (aData p1); by rewrite Ed).
  destruct (sum_free_total bt q (off + 2 * n) Hbt Hq ltac:(lia) (Z.to_nat (usableSize bt)) (at16 (aData p) (hdrOffset p + 1)) (off + 2 * n)
    (at8 (aData p) (hdrOffset p + 7) + nz16 (at16 (aData p) (hdrOffset p + 5)))) as (r & Er & Hr);
    [apply at16_range, Hi|by left|lia|pose proof (at16_range (aData p) (hdrOffset p + 1) (proj1 Hi)); lia|].
  exists (init_outcome bt q off n r).1, (init_outcome bt q off n r).2. rewrite (btreeInitPage_known bt Hlim p p1 r Hi Hhr Hin E1 Ed Hlf Er).
  assert (aData q = aData p) as Edq by exact Ed. split; [by rewrite <- surjective_pairing|]. unfold init_outcome.
  destruct (Z.ltb_spec (MX_CELL bt) n); [by split; [right|]|]. destruct r as [m|]; [|by split; [right|]]. destruct (usableSize bt <? m); [by split; [right|]|].
  split; [by left|]. split; [done|]. split; [intros []; exact Hg|]. intros _. destruct (Hr m eq_refl) as (fs & Hc & ->). rewrite Edq in Hc. repeat (split; [done|]). by exists fs.
Qed.

Lemma btreeInitPage_total_witness : ∃ rc p', btreeInitPage demo_bt demo_raw = Ret (rc, p') ∧ rc = SQLITE_CORRUPT.
Proof.
  destruct (btreeInitPage_total demo_bt demo_raw demo_limits demo_image eq_refl eq_refl) as (rc & p' & E & _ & _ & H & _). exists rc, p'. split; [exact E|].
  apply H. vm_compute. intuition discriminate.
Defined.

(** ** A list that is linked to itself *)

(** The block at [o] ends where a block of size zero begins that is its own
    successor. *)
Record self_linked (bt : BtShared) (hdr o x : Z) (data : list Z) : Prop := {
  sl_image : image bt data;
  sl_head : at16 data (hdr + 1) = o;
  sl_next : at16 data o = x;
  sl_size : at16 data (o + 2) = x - o;
  sl_self : at16 data x = x;
  sl_zero : at16 data (x + 2) = 0 }.

(** The loop of [freeSpace] that joins adjacent free blocks does not end
    when a block of size zero that is linked to itself follows directly after
    another: in every round the two are joined again. No assertion and none of
    the checks for corruption in the loop fails. *)
Theorem coalesce_loop_endless bt hdr o x p : bt_ok bt → 0 ≤ hdr → hdr + 8 ≤ o → o + 4 ≤ x ≤ usableSize bt - 4 → self_linked bt hdr o x (aData p) →
  ∀ fuel, coalesce_loop bt fuel (hdr + 1) hdr p = Undef OutOfFuel.
Proof.
  intros Hbt Hhdr Ho Hx Hs fuel. pose proof (page_max bt Hbt) as Hpm. revert p Hs. induction fuel as [|fuel IH]; intros p [Hi E1 E2 E3 E4 E5]; cbn [coalesce_loop].
  - erewrite sm_bind_run by (apply (rd16_run bt Hbt); [done|lia|lia]). rewrite E1. rewrite (proj2 (Z.ltb_lt 0 o)) by lia. done.
  - erewrite sm_bind_run by (apply (rd16_run bt Hbt); [done|lia|lia]). rewrite E1. rewrite (proj2 (Z.ltb_lt 0 o)) by lia. cbn [negb].
    erewrite sm_bind_run by (unfold sm_lift, sm_gets, c_assert; rewrite (proj2 (Z.ltb_lt (hdr + 1) o)), (proj2 (Z.leb_le o (usableSize bt - 4))) by lia; done).
    do 2 (erewrite sm_bind_run by (apply (rd16_run bt Hbt); [done|lia|lia])). rewrite E2, E3. rewrite (proj2 (Z.leb_le x (o + (x - o) + 3))), (proj2 (Z.ltb_lt 0 x)) by lia. cbn [andb].
    replace (x - (o + (x - o))) with 0 by lia. pose proof (at8_byte (aData p) (hdr + 7) (proj1 Hi)) as H8. set (f := at8 (aData p) (hdr + 7)) in *.
    erewrite sm_bind_run by (apply (rd8_run bt Hbt); [done|lia]). fold f. rewrite (proj2 (Z.ltb_ge f 0)) by lia. cbn [orb].
    rewrite (uw_small 8 0), Z.sub_0_r, (uw_small 8 f) by (split; cbn; lia).
    change (0 <? 0) with false. cbn [orb]. erewrite sm_bind_run by (apply (wr_run bt Hbt); [done|lia|cbn; lia]).
    assert (image bt (splice (aData p) (hdr + 7) [f])) as I1 by (apply (image_splice bt Hbt); [done|constructor; [lia|constructor]|lia|cbn; lia]).
    assert (Z.of_nat (length (aData p)) = pageSize bt) as L0 by apply Hi.
    erewrite sm_bind_run by (apply (rd16_run bt Hbt); [done|lia|lia]). cbn [aData set_aData]. rewrite (splice16_out (aData p)) by (cbn; lia). rewrite E4.
    assert (Z.of_nat (length (splice (aData p) (hdr + 7) [f])) = pageSize bt) as L1 by apply I1.
    unfold wr16. erewrite sm_bind_run by (apply (wr_run bt Hbt); [done|lia|cbn; lia]). cbn [aData set_aData].
    assert (image bt (splice (splice (aData p) (hdr + 7) [f]) o (be16 x))) as I2 by (apply (image_splice bt Hbt); [done|apply be16_bytes|lia|cbn; lia]).
    erewrite sm_bind_run by (apply (rd16_run bt Hbt); [done|lia|lia]). cbn [aData set_aData]. rewrite !splice16_out by (cbn; lia). rewrite E5.
    erewrite sm_bind_run by (apply (wr_run bt Hbt); [done|lia|cbn; lia]). cbn [aData set_aData]. rewrite !set_aData_twice. apply IH. cbn [aData set_aData].
    fold (join_data hdr o f x (x + 0 - o) (aData p)). destruct (join_data_ok bt Hbt hdr o f x (x + 0 - o) (aData p)) as (J0 & J1 & J2 & J3 & J4); [done|lia|lia|lia|lia|lia|lia|].
    assert (∀ k, 0 ≤ k → k ≠ hdr + 7 → k + 1 ≠ hdr + 7 → k + 2 ≤ o ∨ o + 4 ≤ k → at16 (join_data hdr o f x (x + 0 - o) (aData p)) k = at16 (aData p) k) as J5.
    { intros. apply at16_same; apply J4; lia. }
    split; [done|rewrite J5 by lia; done|done|rewrite J3; lia|rewrite J5 by lia; done|rewrite J5 by lia; done].
Qed.

(** A page on which [freeSpace] of the eight bytes at 300 comes to such a list. *)
Definition looped_page : MemPage := set_aData
  (splice (splice (splice (aData demo_leaf) 1 (be16 308)) 5 (be16 300)) 308 (be16 308 ++ be16 0)) demo_leaf.

Lemma coalesce_loop_endless_witness :
  (∀ fuel, coalesce_loop demo_bt fuel 1 0 (set_aData (link_data 1 300 308 8 (aData looped_page)) looped_page) = Undef OutOfFuel) ∧
  freeSpace demo_bt 300 8 looped_page = Undef OutOfFuel.
Proof.
  split; [|vm_compute; reflexivity]. apply (coalesce_loop_endless demo_bt 0 300 308 (set_aData (link_data 1 300 308 8 (aData looped_page)) looped_page) (lm_bt _ demo_limits));
    [lia|lia|cbn; lia|]. split; [|vm_compute; reflexivity..]. split; [|vm_compute; reflexivity].
  apply bytes_check. vm_compute. reflexivity.
Defined.

(** ** A cell at the end of a page *)

(** A page of one cell whose header runs past the end of the page. *)
Definition clipped_page : MemPage := MkPage 0 0 0 0 0 0 0 0 0 0 0 0 0 []
  ([13; 0; 0; 0; 1] ++ be16 450 ++ [60] ++ be16 508 ++ replicate 498 0 ++ replicate 4 255) 2.

(** [btreeInitPage] accepts a page with a cell pointer to the last four
    bytes and a cell there whose header does not end; [allocateSpace] then
    defragments the page, and the size of that cell is read past the end of the
    temporary buffer, which has the size of a page. *)
Theorem defragmentPage_overreads : ∃ p1, btreeInitPage demo_bt clipped_page = Ret (SQLITE_OK, p1) ∧ 12 ≤ nFree p1 ∧
  Z.of_nat (length demo_temp) = pageSize demo_bt ∧ allocateSpace demo_bt demo_temp 10 p1 = Undef OutOfBounds.
Proof.
  eexists. split; [vm_compute; reflexivity|]. split; [vm_compute; discriminate|]. split; vm_compute; reflexivity.
Qed.
