(* ===== verification/PgFile.v ===== *)
(** * The pager: its state and its files

    The pager of src/pager.c keeps a database file consistent: before it changes
    a page it writes the old content into a rollback journal. This file has the
    state of a connection ([world]: the structure Pager, the page cache, the
    files) and the calls of the operating system.

    A file remembers the contents it had since it was last synced. When the power
    fails each aligned word of four bytes keeps the value it had in one of them
    ([survives]); nothing else is assumed about which writes reach the disk. The
    directory entry of a new journal can be lost until the journal is synced
    ([jnew]), and that of a deleted journal can come back ([jgone]).

    The operating system answers each call from the list [events]; an empty list
    stands for success. *)

From S2P Require Import Prelude Varint Buffer Bitvec.
#[local] Open Scope Z_scope.
#[local] Open Scope c_scope.
#[local] Open Scope list_scope.

(** ** Files *)

Record file := File { now : list Z; past : list (list Z) }.

Definition versions (f : file) : list (list Z) := now f :: past f.

(** What is known to be on the disk. *)
Definition on_disk (f : file) : list Z := List.last (past f) (now f).

(** The contents a file can have after a power failure: its length is one the
    file had since the last sync, and so is every word. Where the file on the
    disk ended before, a word may also be zero. *)
Definition survives (f : file) (img : list Z) : Prop :=
  (∃ v, v ∈ versions f ∧ length img = length v) ∧
  ∀ k, 0 ≤ k → ∃ u, u ∈ versions f ∧
    ∀ i, 4 * k ≤ i < 4 * k + 4 → i < Z.of_nat (length img) →
      at8 img i = at8 u i ∧ (i < Z.of_nat (length u) ∨ Z.of_nat (length (on_disk f)) ≤ i).

Definition file_put (c : list Z) (f : file) : file := File c (now f :: past f).
Definition file_write (off : Z) (a : list Z) (f : file) : file :=
  match a with [] => f | _ => file_put (write_at (now f) (Z.to_nat off) a) f end.
Definition file_truncate (n : Z) (f : file) : file := file_put (take (Z.to_nat n) (now f)) f.
Definition file_sync (f : file) : file := File (now f) [].

(** ** The pager *)

(** The values of [Pager.eState] and of locks, and result codes. *)
Definition PAGER_OPEN : Z := 0.
Definition PAGER_READER : Z := 1.
Definition PAGER_WRITER_LOCKED : Z := 2.
Definition PAGER_WRITER_CACHEMOD : Z := 3.
Definition PAGER_WRITER_DBMOD : Z := 4.
Definition PAGER_WRITER_FINISHED : Z := 5.
Definition PAGER_ERROR : Z := 6.
Definition NO_LOCK : Z := 0.
Definition SHARED_LOCK : Z := 1.
Definition RESERVED_LOCK : Z := 2.
Definition EXCLUSIVE_LOCK : Z := 4.
Definition UNKNOWN_LOCK : Z := EXCLUSIVE_LOCK + 1.
Definition SQLITE_OK : Z := 0.
Definition SQLITE_ABORT : Z := 4.
Definition SQLITE_BUSY : Z := 5.
Definition SQLITE_NOMEM : Z := 7.
Definition SQLITE_IOERR : Z := 10.
Definition SQLITE_CORRUPT : Z := 11.
Definition SQLITE_FULL : Z := 13.
Definition SQLITE_CANTOPEN : Z := 14.
Definition SQLITE_DONE : Z := 101.
Definition SQLITE_READONLY_ROLLBACK : Z := 8 .| (3 .<< 8).
Definition SQLITE_IOERR_READ : Z := SQLITE_IOERR .| (1 .<< 8).
Definition SQLITE_IOERR_SHORT_READ : Z := SQLITE_IOERR .| (2 .<< 8).
Definition SQLITE_IOERR_WRITE : Z := SQLITE_IOERR .| (3 .<< 8).
Definition SQLITE_IOERR_FSYNC : Z := SQLITE_IOERR .| (4 .<< 8).
Definition SQLITE_IOERR_TRUNCATE : Z := SQLITE_IOERR .| (6 .<< 8).
Definition SQLITE_IOERR_FSTAT : Z := SQLITE_IOERR .| (7 .<< 8).
Definition SQLITE_IOERR_UNLOCK : Z := SQLITE_IOERR .| (8 .<< 8).
Definition SQLITE_IOERR_DELETE : Z := SQLITE_IOERR .| (10 .<< 8).
Definition SQLITE_IOERR_ACCESS : Z := SQLITE_IOERR .| (13 .<< 8).
Definition SQLITE_IOERR_CHECKRESERVEDLOCK : Z := SQLITE_IOERR .| (14 .<< 8).
Definition SQLITE_IOERR_LOCK : Z := SQLITE_IOERR .| (15 .<< 8).
Definition SQLITE_IOCAP_SAFE_APPEND : Z := 0x200.
Definition SQLITE_IOCAP_SEQUENTIAL : Z := 0x400.
Definition SQLITE_IOCAP_UNDELETABLE_WHEN_OPEN : Z := 0x800.
Definition SQLITE_IOCAP_POWERSAFE_OVERWRITE : Z := 0x1000.
Definition PAGER_MAX_PGNO : Z := 2147483647.
Definition SQLITE_MAX_PAGE_SIZE : Z := 65536.
Definition MAX_SECTOR_SIZE : Z := 0x10000.
Definition PENDING_BYTE : Z := 0x40000000.

(** The journal modes that use a file or no journal at all; the modes MEMORY and WAL
    are not modelled. *)
Inductive journal_mode := DELETE | PERSIST | OFF | TRUNCATE.
#[global] Instance journal_mode_eq_dec : EqDecision journal_mode.
Proof. solve_decision. Defined.

(** What the modelled functions only read of a connection: the settings and the
    answers of [sqlite3OsDeviceCharacteristics] and [sqlite3OsSectorSize]. *)
Record settings := Settings {
  noSync : bool;
  fullSync : bool;
  exclusiveMode : bool;
  readOnly : bool;
  journalMode : journal_mode;
  journalSizeLimit : Z;
  deviceCharacteristics : Z;
  osSectorSize : Z;
  mxPathname : Z }.

Record PagerSavepoint := Savepoint {
  iOffset : Z;
  iHdrOffset : Z;
  pInSavepoint : option Bitvec;
  nOrig : Z;
  iSubRec : Z }.

(** A page of the cache, with the flags PGHDR_DIRTY, PGHDR_NEED_SYNC and
    PGHDR_DONT_WRITE. *)
Record PgHdr := Page {
  pData : list Z;
  dirty : bool;
  needSync : bool;
  dontWrite : bool }.

(** The structure Pager; [jopen] and [sjopen] tell whether [jfd] and [sjfd] are
    open. The database file is always open. *)
Record Pager := MkPager {
  eState : Z;
  eLock : Z;
  errCode : Z;
  dbSize : Z;
  dbOrigSize : Z;
  dbFileSize : Z;
  dbHintSize : Z;
  journalOff : Z;
  journalHdr : Z;
  nRec : Z;
  cksumInit : Z;
  setMaster : bool;
  changeCountDone : bool;
  dbFileVers : list Z;
  nReserve : Z;
  pageSize : Z;
  sectorSize : Z;
  mxPgno : Z;
  doNotSpill : Z;
  nSubRec : Z;
  pInJournal : option Bitvec;
  aSavepoint : list PagerSavepoint;
  jopen : bool;
  sjopen : bool }.

Definition set_eState (v : Z) (p : Pager) : Pager :=
  MkPager v (eLock p) (errCode p) (dbSize p) (dbOrigSize p) (dbFileSize p) (dbHintSize p) (journalOff p)
    (journalHdr p) (nRec p) (cksumInit p) (setMaster p) (changeCountDone p) (dbFileVers p) (nReserve p) (pageSize p)
    (sectorSize p) (mxPgno p) (doNotSpill p) (nSubRec p) (pInJournal p) (aSavepoint p) (jopen p) (sjopen p).
Definition set_eLock (v : Z) (p : Pager) : Pager :=
  MkPager (eState p) v (errCode p) (dbSize p) (dbOrigSize p) (dbFileSize p) (dbHintSize p) (journalOff p)
    (journalHdr p) (nRec p) (cksumInit p) (setMaster p) (changeCountDone p) (dbFileVers p) (nReserve p) (pageSize p)
    (sectorSize p) (mxPgno p) (doNotSpill p) (nSubRec p) (pInJournal p) (aSavepoint p) (jopen p) (sjopen p).
Definition set_errCode (v : Z) (p : Pager) : Pager :=
  MkPager (eState p) (eLock p) v (dbSize p) (dbOrigSize p) (dbFileSize p) (dbHintSize p) (journalOff p)
    (journalHdr p) (nRec p) (cksumInit p) (setMaster p) (changeCountDone p) (dbFileVers p) (nReserve p) (pageSize p)
    (sectorSize p) (mxPgno p) (doNotSpill p) (nSubRec p) (pInJournal p) (aSavepoint p) (jopen p) (sjopen p).
Definition set_dbSize (v : Z) (p : Pager) : Pager :=
  MkPager (eState p) (eLock p) (errCode p) v (dbOrigSize p) (dbFileSize p) (dbHintSize p) (journalOff p)
    (journalHdr p) (nRec p) (cksumInit p) (setMaster p) (changeCountDone p) (dbFileVers p) (nReserve p) (pageSize p)
    (sectorSize p) (mxPgno p) (doNotSpill p) (nSubRec p) (pInJournal p) (aSavepoint p) (jopen p) (sjopen p).
Definition set_dbOrigSize (v : Z) (p : Pager) : Pager :=
  MkPager (eState p) (eLock p) (errCode p) (dbSize p) v (dbFileSize p) (dbHintSize p) (journalOff p) (journalHdr p)
    (nRec p) (cksumInit p) (setMaster p) (changeCountDone p) (dbFileVers p) (nReserve p) (pageSize p) (sectorSize p)
    (mxPgno p) (doNotSpill p) (nSubRec p) (pInJournal p) (aSavepoint p) (jopen p) (sjopen p).
Definition set_dbFileSize (v : Z) (p : Pager) : Pager :=
  MkPager (eState p) (eLock p) (errCode p) (dbSize p) (dbOrigSize p) v (dbHintSize p) (journalOff p) (journalHdr p)
    (nRec p) (cksumInit p) (setMaster p) (changeCountDone p) (dbFileVers p) (nReserve p) (pageSize p) (sectorSize p)
    (mxPgno p) (doNotSpill p) (nSubRec p) (pInJournal p) (aSavepoint p) (jopen p) (sjopen p).
Definition set_dbHintSize (v : Z) (p : Pager) : Pager :=
  MkPager (eState p) (eLock p) (errCode p) (dbSize p) (dbOrigSize p) (dbFileSize p) v (journalOff p) (journalHdr p)
    (nRec p) (cksumInit p) (setMaster p) (changeCountDone p) (dbFileVers p) (nReserve p) (pageSize p) (sectorSize p)
    (mxPgno p) (doNotSpill p) (nSubRec p) (pInJournal p) (aSavepoint p) (jopen p) (sjopen p).
Definition set_journalOff (v : Z) (p : Pager) : Pager :=
  MkPager (eState p) (eLock p) (errCode p) (dbSize p) (dbOrigSize p) (dbFileSize p) (dbHintSize p) v (journalHdr p)
    (nRec p) (cksumInit p) (setMaster p) (changeCountDone p) (dbFileVers p) (nReserve p) (pageSize p) (sectorSize p)
    (mxPgno p) (doNotSpill p) (nSubRec p) (pInJournal p) (aSavepoint p) (jopen p) (sjopen p).
Definition set_journalHdr (v : Z) (p : Pager) : Pager :=
  MkPager (eState p) (eLock p) (errCode p) (dbSize p) (dbOrigSize p) (dbFileSize p) (dbHintSize p) (journalOff p) v
    (nRec p) (cksumInit p) (setMaster p) (changeCountDone p) (dbFileVers p) (nReserve p) (pageSize p) (sectorSize p)
    (mxPgno p) (doNotSpill p) (nSubRec p) (pInJournal p) (aSavepoint p) (jopen p) (sjopen p).
Definition set_nRec (v : Z) (p : Pager) : Pager :=
  MkPager (eState p) (eLock p) (errCode p) (dbSize p) (dbOrigSize p) (dbFileSize p) (dbHintSize p) (journalOff p)
    (journalHdr p) v (cksumInit p) (setMaster p) (changeCountDone p) (dbFileVers p) (nReserve p) (pageSize p)
    (sectorSize p) (mxPgno p) (doNotSpill p) (nSubRec p) (pInJournal p) (aSavepoint p) (jopen p) (sjopen p).
Definition set_cksumInit (v : Z) (p : Pager) : Pager :=
  MkPager (eState p) (eLock p) (errCode p) (dbSize p) (dbOrigSize p) (dbFileSize p) (dbHintSize p) (journalOff p)
    (journalHdr p) (nRec p) v (setMaster p) (changeCountDone p) (dbFileVers p) (nReserve p) (pageSize p)
    (sectorSize p) (mxPgno p) (doNotSpill p) (nSubRec p) (pInJournal p) (aSavepoint p) (jopen p) (sjopen p).
Definition set_setMaster (v : bool) (p : Pager) : Pager :=
  MkPager (eState p) (eLock p) (errCode p) (dbSize p) (dbOrigSize p) (dbFileSize p) (dbHintSize p) (journalOff p)
    (journalHdr p) (nRec p) (cksumInit p) v (changeCountDone p) (dbFileVers p) (nReserve p) (pageSize p)
    (sectorSize p) (mxPgno p) (doNotSpill p) (nSubRec p) (pInJournal p) (aSavepoint p) (jopen p) (sjopen p).
Definition set_changeCountDone (v : bool) (p : Pager) : Pager :=
  MkPager (eState p) (eLock p) (errCode p) (dbSize p) (dbOrigSize p) (dbFileSize p) (dbHintSize p) (journalOff p)
    (journalHdr p) (nRec p) (cksumInit p) (setMaster p) v (dbFileVers p) (nReserve p) (pageSize p) (sectorSize p)
    (mxPgno p) (doNotSpill p) (nSubRec p) (pInJournal p) (aSavepoint p) (jopen p) (sjopen p).
Definition set_dbFileVers (v : list Z) (p : Pager) : Pager :=
  MkPager (eState p) (eLock p) (errCode p) (dbSize p) (dbOrigSize p) (dbFileSize p) (dbHintSize p) (journalOff p)
    (journalHdr p) (nRec p) (cksumInit p) (setMaster p) (changeCountDone p) v (nReserve p) (pageSize p)
    (sectorSize p) (mxPgno p) (doNotSpill p) (nSubRec p) (pInJournal p) (aSavepoint p) (jopen p) (sjopen p).
Definition set_nReserve (v : Z) (p : Pager) : Pager :=
  MkPager (eState p) (eLock p) (errCode p) (dbSize p) (dbOrigSize p) (dbFileSize p) (dbHintSize p) (journalOff p)
    (journalHdr p) (nRec p) (cksumInit p) (setMaster p) (changeCountDone p) (dbFileVers p) v (pageSize p)
    (sectorSize p) (mxPgno p) (doNotSpill p) (nSubRec p) (pInJournal p) (aSavepoint p) (jopen p) (sjopen p).
Definition set_pageSize (v : Z) (p : Pager) : Pager :=
  MkPager (eState p) (eLock p) (errCode p) (dbSize p) (dbOrigSize p) (dbFileSize p) (dbHintSize p) (journalOff p)
    (journalHdr p) (nRec p) (cksumInit p) (setMaster p) (changeCountDone p) (dbFileVers p) (nReserve p) v
    (sectorSize p) (mxPgno p) (doNotSpill p) (nSubRec p) (pInJournal p) (aSavepoint p) (jopen p) (sjopen p).
Definition set_sectorSize (v : Z) (p : Pager) : Pager :=
  MkPager (eState p) (eLock p) (errCode p) (dbSize p) (dbOrigSize p) (dbFileSize p) (dbHintSize p) (journalOff p)
    (journalHdr p) (nRec p) (cksumInit p) (setMaster p) (changeCountDone p) (dbFileVers p) (nReserve p)
    (pageSize p) v (mxPgno p) (doNotSpill p) (nSubRec p) (pInJournal p) (aSavepoint p) (jopen p) (sjopen p).
Definition set_mxPgno (v : Z) (p : Pager) : Pager :=
  MkPager (eState p) (eLock p) (errCode p) (dbSize p) (dbOrigSize p) (dbFileSize p) (dbHintSize p) (journalOff p)
    (journalHdr p) (nRec p) (cksumInit p) (setMaster p) (changeCountDone p) (dbFileVers p) (nReserve p) (pageSize p)
    (sectorSize p) v (doNotSpill p) (nSubRec p) (pInJournal p) (aSavepoint p) (jopen p) (sjopen p).
Definition set_doNotSpill (v : Z) (p : Pager) : Pager :=
  MkPager (eState p) (eLock p) (errCode p) (dbSize p) (dbOrigSize p) (dbFileSize p) (dbHintSize p) (journalOff p)
    (journalHdr p) (nRec p) (cksumInit p) (setMaster p) (changeCountDone p) (dbFileVers p) (nReserve p) (pageSize p)
    (sectorSize p) (mxPgno p) v (nSubRec p) (pInJournal p) (aSavepoint p) (jopen p) (sjopen p).
Definition set_nSubRec (v : Z) (p : Pager) : Pager :=
  MkPager (eState p) (eLock p) (errCode p) (dbSize p) (dbOrigSize p) (dbFileSize p) (dbHintSize p) (journalOff p)
    (journalHdr p) (nRec p) (cksumInit p) (setMaster p) (changeCountDone p) (dbFileVers p) (nReserve p) (pageSize p)
    (sectorSize p) (mxPgno p) (doNotSpill p) v (pInJournal p) (aSavepoint p) (jopen p) (sjopen p).
Definition set_pInJournal (v : option Bitvec) (p : Pager) : Pager :=
  MkPager (eState p) (eLock p) (errCode p) (dbSize p) (dbOrigSize p) (dbFileSize p) (dbHintSize p) (journalOff p)
    (journalHdr p) (nRec p) (cksumInit p) (setMaster p) (changeCountDone p) (dbFileVers p) (nReserve p) (pageSize p)
    (sectorSize p) (mxPgno p) (doNotSpill p) (nSubRec p) v (aSavepoint p) (jopen p) (sjopen p).
Definition set_aSavepoint (v : list PagerSavepoint) (p : Pager) : Pager :=
  MkPager (eState p) (eLock p) (errCode p) (dbSize p) (dbOrigSize p) (dbFileSize p) (dbHintSize p) (journalOff p)
    (journalHdr p) (nRec p) (cksumInit p) (setMaster p) (changeCountDone p) (dbFileVers p) (nReserve p) (pageSize p)
    (sectorSize p) (mxPgno p) (doNotSpill p) (nSubRec p) (pInJournal p) v (jopen p) (sjopen p).
Definition set_jopen (v : bool) (p : Pager) : Pager :=
  MkPager (eState p) (eLock p) (errCode p) (dbSize p) (dbOrigSize p) (dbFileSize p) (dbHintSize p) (journalOff p)
    (journalHdr p) (nRec p) (cksumInit p) (setMaster p) (changeCountDone p) (dbFileVers p) (nReserve p) (pageSize p)
    (sectorSize p) (mxPgno p) (doNotSpill p) (nSubRec p) (pInJournal p) (aSavepoint p) v (sjopen p).
Definition set_sjopen (v : bool) (p : Pager) : Pager :=
  MkPager (eState p) (eLock p) (errCode p) (dbSize p) (dbOrigSize p) (dbFileSize p) (dbHintSize p) (journalOff p)
    (journalHdr p) (nRec p) (cksumInit p) (setMaster p) (changeCountDone p) (dbFileVers p) (nReserve p) (pageSize p)
    (sectorSize p) (mxPgno p) (doNotSpill p) (nSubRec p) (pInJournal p) (aSavepoint p) (jopen p) v.

(** The files: the database, the journal if there is a directory entry for it, a
    deleted journal and the sub-journal. *)
Record disk := Disk {
  db : file;
  jrn : option file;
  jnew : bool;
  jgone : option file;
  sub : list Z }.

Definition set_db (v : file) (d : disk) : disk :=
  Disk v (jrn d) (jnew d) (jgone d) (sub d).
Definition set_jrn (v : option file) (d : disk) : disk :=
  Disk (db d) v (jnew d) (jgone d) (sub d).
Definition set_jnew (v : bool) (d : disk) : disk :=
  Disk (db d) (jrn d) v (jgone d) (sub d).
Definition set_jgone (v : option file) (d : disk) : disk :=
  Disk (db d) (jrn d) (jnew d) v (sub d).
Definition set_sub (v : list Z) (d : disk) : disk :=
  Disk (db d) (jrn d) (jnew d) (jgone d) v.

(** An answer of the operating system; a write that fails may have written some words
    ([n]). For questions with two answers [n] is the answer. *)
Inductive answer := Done (n : Z) | Failed (n : Z) | Full (n : Z) | Busy (n : Z).

(** What the environment decides: the answers of the operating system and of the
    allocator, random numbers, and which pages leave the cache when a new one is needed. *)
Record env := Env {
  events : list answer;
  memory : list bool;
  random : list Z;
  pressure : list (option Z * list Z) }.

Definition set_events (v : list answer) (e : env) : env :=
  Env v (memory e) (random e) (pressure e).
Definition set_memory (v : list bool) (e : env) : env :=
  Env (events e) v (random e) (pressure e).
Definition set_random (v : list Z) (e : env) : env :=
  Env (events e) (memory e) v (pressure e).
Definition set_pressure (v : list (option Z * list Z)) (e : env) : env :=
  Env (events e) (memory e) (random e) v.

Record world := World {
  pg : Pager;
  dk : disk;
  cache : gmap Z PgHdr;
  en : env;
  refs : gset Z;
  cf : settings }.

Definition set_pg (f : Pager → Pager) (w : world) : world := World (f (pg w)) (dk w) (cache w) (en w) (refs w) (cf w).
Definition set_dk (f : disk → disk) (w : world) : world := World (pg w) (f (dk w)) (cache w) (en w) (refs w) (cf w).
Definition set_cache (f : gmap Z PgHdr → gmap Z PgHdr) (w : world) : world := World (pg w) (dk w) (f (cache w)) (en w) (refs w) (cf w).
Definition set_en (f : env → env) (w : world) : world := World (pg w) (dk w) (cache w) (f (en w)) (refs w) (cf w).

(** Reading and changing a field, as in [pPager->dbSize] and [pPager->dbSize = n]. *)
Definition field {A} (f : Pager → A) : sm world A := sm_get (λ w, f (pg w)).
Definition setting {A} (f : settings → A) : sm world A := sm_get (λ w, f (cf w)).
Definition assign (f : Pager → Pager) : sm world () := sm_mod (set_pg f).
Definition assert_ (f : world → bool) : sm world () := sm_gets (λ w, c_assert (f w)).

(** ** The operating system *)

Definition next_answer : sm world answer := λ w,
  match events (en w) with
  | [] => Ret (Done 0, w)
  | e :: es => Ret (e, set_en (set_events es) w)
  end.

Definition answer_rc (err : Z) (a : answer) : Z :=
  match a with Done _ => SQLITE_OK | Failed _ => err | Full _ => SQLITE_FULL | Busy _ => err end.
Definition answer_n (a : answer) : Z := match a with Done n | Failed n | Full n | Busy n => n end.

(** Calls with a result code only. *)
Definition os_call (err : Z) : sm world Z := a ← next_answer; mret (answer_rc err a).

(** Which file a descriptor is: [pPager->fd], [jfd] and [sjfd]. *)
Inductive fd := Fd | Jfd | Sjfd.

Definition the_file (h : fd) (w : world) : outcome file :=
  match h with
  | Fd => Ret (db (dk w))
  | Jfd => if jopen (pg w) then deref (jrn (dk w)) else Undef NullDeref
  | Sjfd => if sjopen (pg w) then Ret (File (sub (dk w)) []) else Undef NullDeref
  end.

Definition set_file (h : fd) (f : file) (d : disk) : disk :=
  match h with Fd => set_db f d | Jfd => set_jrn (Some f) d | Sjfd => set_sub (now f) d end.

Definition change_file (h : fd) (g : file → file) : sm world () :=
  f ← sm_gets (the_file h);
  sm_mod (set_dk (set_file h (g f))).

Definition sqlite3OsWrite (h : fd) (a : list Z) (off : Z) : sm world Z :=
  e ← next_answer;
  let rc := answer_rc SQLITE_IOERR_WRITE e in
  _ ← change_file h (file_write off (if rc =? SQLITE_OK then a else take (Z.to_nat (4 * answer_n e)) a));
  mret rc.

Definition sqlite3OsRead (h : fd) (amt off : Z) : sm world (Z * list Z) :=
  f ← sm_gets (the_file h);
  e ← next_answer;
  let rc := answer_rc SQLITE_IOERR_READ e in
  if negb (rc =? SQLITE_OK) then mret (rc, replicate (Z.to_nat amt) 0) else
  if off <? 0 then mret (SQLITE_IOERR_READ, replicate (Z.to_nat amt) 0) else
  let got := slice (now f) off amt in
  if Z.of_nat (length got) <? amt
  then mret (SQLITE_IOERR_SHORT_READ, got ++ replicate (Z.to_nat amt - length got) 0)
  else mret (SQLITE_OK, got).

Definition sqlite3OsFileSize (h : fd) : sm world (Z * Z) :=
  f ← sm_gets (the_file h);
  rc ← os_call SQLITE_IOERR_FSTAT;
  mret (rc, if rc =? SQLITE_OK then Z.of_nat (length (now f)) else 0).

Definition sqlite3OsTruncate (h : fd) (n : Z) : sm world Z :=
  _ ← sm_gets (the_file h);
  rc ← os_call SQLITE_IOERR_TRUNCATE;
  if rc =? SQLITE_OK then _ ← change_file h (file_truncate n); mret rc else mret rc.

(** [xSync]; for a new journal it also syncs the directory. *)
Definition sqlite3OsSync (h : fd) : sm world Z :=
  _ ← sm_gets (the_file h);
  rc ← os_call SQLITE_IOERR_FSYNC;
  if rc =? SQLITE_OK then
    _ ← change_file h file_sync;
    _ ← (match h with Jfd => sm_mod (set_dk (set_jnew false)) | _ => mret () end);
    mret rc
  else mret rc.

(** [sqlite3OsOpen] for the journal; with [create] a missing file is created. *)
Definition os_open_journal (create : bool) : sm world Z :=
  a ← next_answer;
  let rc := answer_rc SQLITE_CANTOPEN a in
  if negb (rc =? SQLITE_OK) then mret rc else
  j ← sm_get (λ w, jrn (dk w));
  match j with
  | Some _ => _ ← assign (set_jopen true); mret SQLITE_OK
  | None =>
      if create then
        _ ← sm_mod (set_dk (λ d, set_jnew true (set_jrn (Some (File [] [])) d)));
        _ ← assign (set_jopen true);
        mret SQLITE_OK
      else mret SQLITE_CANTOPEN
  end.

(** [sqlite3OsDelete] for the journal: the directory is not synced. *)
Definition os_delete_journal : sm world Z :=
  rc ← os_call SQLITE_IOERR_DELETE;
  if rc =? SQLITE_OK then
    _ ← sm_mod (set_dk (λ d, set_jrn None (set_jgone (jrn d) d)));
    mret rc
  else mret rc.

(** [sqlite3OsAccess] for the journal. *)
Definition os_journal_exists : sm world (Z * bool) :=
  rc ← os_call SQLITE_IOERR_ACCESS;
  j ← sm_get (λ w, jrn (dk w));
  mret (rc, bool_decide (is_Some j)).

Definition sqlite3_randomness : sm world Z := λ w,
  match random (en w) with
  | [] => Ret (0, w)
  | r :: rs => Ret (u32 r, set_en (set_random rs) w)
  end.

Definition sqlite3_malloc : sm world bool := λ w,
  let '(ok, m) := take_mem (memory (en w)) in Ret (ok, set_en (set_memory m) w).

(** [read32bits] and [write32bits]. *)
Definition read32bits (h : fd) (off : Z) : sm world (Z * Z) :=
  '(rc, ac) ← sqlite3OsRead h 4 off;
  if rc =? SQLITE_OK then v ← sm_lift (sqlite3Get4byte ac); mret (rc, v) else mret (rc, 0).

Definition write32bits (h : fd) (off v : Z) : sm world Z := sqlite3OsWrite h (sqlite3Put4byte v) off.
