(* ===== verification/PgImage.v ===== *)
(** * Files after a power failure

    Lemmas on the files of PgFile: what a write changes, which bytes a power
    failure cannot change ([fixed]) and how a word can be torn. *)

From S2P Require Import Prelude Varint Buffer Bitvec PgFile.
#[local] Open Scope Z_scope.
#[local] Open Scope c_scope.
#[local] Open Scope list_scope.

Abbreviation zlen l := (Z.of_nat (length l)).

(** ** Writing *)

Lemma write_at_length f off a : a ≠ [] → length (write_at f off a) = (length f `max` (off + length a))%nat.
Proof.
  intros Ha. unfold write_at. destruct a as [|x a]; [done|]. set (l := x :: a).
  rewrite !length_app, length_take, length_app, length_replicate, length_drop. lia.
Qed.

Lemma at8_write_at f off a k : 0 ≤ off → 0 ≤ k →
  at8 (write_at f (Z.to_nat off) a) k = if decide (off ≤ k < off + zlen a) then at8 a (k - off) else at8 f k.
Proof.
  intros Ho Hk0. unfold at8, write_at. destruct a as [|x a]; [case_decide; [cbn in *; lia|done]|]. set (l := x :: a).
  set (o := Z.to_nat off). case_decide as Hk.
  - rewrite lookup_app_r by (rewrite length_take, length_app, length_replicate; lia).
    rewrite length_take, length_app, length_replicate, lookup_app_l by lia. do 2 f_equal. lia.
  - destruct (decide (k < off)) as [Hlt|Hge].
    + rewrite lookup_app_l by (rewrite length_take, length_app, length_replicate; lia). rewrite lookup_take_lt by lia.
      destruct (decide (Z.to_nat k < length f)%nat); [by rewrite lookup_app_l|].
      rewrite lookup_app_r by lia. rewrite (lookup_ge_None_2 f) by lia. rewrite lookup_replicate_2 by lia. done.
    + rewrite lookup_app_r by (rewrite length_take, length_app, length_replicate; lia).
      rewrite length_take, length_app, length_replicate, lookup_app_r, lookup_drop by lia. do 2 f_equal. lia.
Qed.

Lemma at8_beyond l i : zlen l ≤ i → at8 l i = 0.
Proof. intros H. unfold at8. by rewrite lookup_ge_None_2 by lia. Qed.

Lemma at8_take l n i : 0 ≤ i < n → at8 (take (Z.to_nat n) l) i = at8 l i.
Proof. intros H. unfold at8. by rewrite lookup_take_lt by lia. Qed.

(** Two contents with the same length and bytes are equal. *)
Lemma at8_ext l l' : length l = length l' → (∀ i, 0 ≤ i < zlen l → at8 l i = at8 l' i) → l = l'.
Proof.
  intros Hl H. apply (list_eq_same_length _ _ (length l)); [done..|]. intros i x y Hi Hx Hy.
  specialize (H (Z.of_nat i) ltac:(lia)). unfold at8 in H. by rewrite !Nat2Z.id, Hx, Hy in H.
Qed.

(** ** Regions that agree *)

Definition agree (a b : Z) (l l' : list Z) : Prop := ∀ i, a ≤ i < b → at8 l i = at8 l' i.

Lemma agree_refl a b l : agree a b l l.
Proof. done. Qed.
Lemma agree_sym a b l l' : agree a b l l' → agree a b l' l.
Proof. intros H i Hi. symmetry. by apply H. Qed.
Lemma agree_trans a b l l' l'' : agree a b l l' → agree a b l' l'' → agree a b l l''.
Proof. intros H1 H2 i Hi. by rewrite H1, H2. Qed.
Lemma agree_sub a b a' b' l l' : agree a b l l' → a ≤ a' → b' ≤ b → agree a' b' l l'.
Proof. intros H H1 H2 i Hi. apply H. lia. Qed.

Lemma agree_slice l l' o n : 0 ≤ o → 0 ≤ n → o + n ≤ zlen l → o + n ≤ zlen l' → agree o (o + n) l l' → slice l o n = slice l' o n.
Proof. intros H1 H2 H3 H4 H. apply slice_ext; try done. intros k Hk. apply H. lia. Qed.

Lemma slice_agree l l' o n : 0 ≤ o → slice l o n = slice l' o n → agree o (o + n) l l'.
Proof. intros Ho E i Hi. replace i with (o + (i - o)) by lia. rewrite <- !(slice_at8 _ o n) by lia. by rewrite E. Qed.

Lemma agree_write l off a x y : 0 ≤ off → 0 ≤ x → off + zlen a ≤ x ∨ y ≤ off → agree x y (write_at l (Z.to_nat off) a) l.
Proof. intros Ho Hx H i Hi. rewrite at8_write_at, decide_False by lia. done. Qed.

Lemma write_at_slice l off a : 0 ≤ off → slice (write_at l (Z.to_nat off) a) off (zlen a) = a.
Proof.
  intros Ho. destruct (decide (a = [])) as [->|a0]; [done|].
  pose proof (write_at_length l (Z.to_nat off) _ a0) as HL. apply at8_ext.
  - rewrite slice_length; lia.
  - intros i Hi. rewrite slice_length in Hi by lia. rewrite slice_at8, at8_write_at, decide_True by lia. f_equal. lia.
Qed.

(** ** What a power failure cannot change *)

(** All contents since the last sync have the bytes from [a] to [b], and the same ones. *)
Definition fixed (f : file) (a b : Z) : Prop := ∀ u, u ∈ versions f → b ≤ zlen u ∧ agree a b u (now f).

Lemma fixed_sub f a b a' b' : fixed f a b → a ≤ a' → b' ≤ b → fixed f a' b'.
Proof. intros H H1 H2 u Hu. destruct (H u Hu) as [Hl Ha]. split; [lia|]. by eapply agree_sub. Qed.

Lemma fixed_sync f b : b ≤ zlen (now f) → ∀ a, fixed (file_sync f) a b.
Proof. intros H a u Hu. unfold versions, file_sync in Hu. cbn in Hu. apply list_elem_of_singleton in Hu as ->. by split. Qed.

Lemma fixed_put f a b c : fixed f a b → b ≤ zlen c → agree a b c (now f) → fixed (file_put c f) a b.
Proof.
  intros H Hl Ha u Hu. unfold versions, file_put in Hu. cbn in Hu. apply list.elem_of_cons in Hu as [->|Hu]; [by split|].
  destruct (H u Hu) as [H1 H2]. split; [done|]. cbn. eapply agree_trans; [done|]. by apply agree_sym.
Qed.

Lemma fixed_write f a b off x : fixed f a b → 0 ≤ a → 0 ≤ off → off + zlen x ≤ a ∨ b ≤ off → fixed (file_write off x f) a b.
Proof.
  intros H Ha Ho Hd. unfold file_write. destruct x as [|y x]; [done|]. apply fixed_put; [done| |by apply agree_write].
  rewrite write_at_length by done. destruct (H (now f)) as [Hl _]; [by apply list.elem_of_cons; left|]. lia.
Qed.

Lemma fixed_length f a b : fixed f a b → b ≤ zlen (now f).
Proof. intros H. apply H. by apply list.elem_of_cons; left. Qed.

Lemma survives_now f : survives f (now f).
Proof.
  split; [exists (now f); split; [by apply list.elem_of_cons; left|done]|]. intros k Hk. exists (now f).
  split; [by apply list.elem_of_cons; left|]. intros i Hi Hl. auto.
Qed.

(** A word of an image is a word of a version. *)
Lemma survives_word f img h : survives f img → 0 ≤ h → Z.divide 4 h →
  ∃ u, u ∈ versions f ∧ ∀ i, h ≤ i < h + 4 → i < zlen img → at8 img i = at8 u i ∧ (i < zlen u ∨ zlen (on_disk f) ≤ i).
Proof. intros [_ H] H0 [k ->]. destruct (H k ltac:(lia)) as (u & Hu & Hw). exists u. split; [done|]. intros i Hi. apply Hw. lia. Qed.

Lemma survives_length f img b : survives f img → (∀ u, u ∈ versions f → b ≤ zlen u) → b ≤ zlen img.
Proof. intros [(v & Hv & E) _] H. rewrite E. by apply H. Qed.

Lemma survives_fixed f img a b : survives f img → fixed f a b → 0 ≤ a → b ≤ zlen img ∧ agree a b img (now f).
Proof.
  intros Hs Hf Ha. assert (b ≤ zlen img) as Hl by (eapply survives_length; [done|]; intros u Hu; by apply Hf).
  split; [done|]. intros i Hi. destruct Hs as [_ Hw]. destruct (Hw (i / 4)) as (u & Hu & H); [apply Z.div_pos; lia|].
  pose proof (Z.div_mod i 4). pose proof (Z.mod_pos_bound i 4). destruct (H i) as [-> _]; [lia..|]. apply Hf; [done|lia].
Qed.

(** A file that has not changed since it was synced. *)
Lemma survives_synced f img : past f = [] → survives f img → img = now f.
Proof.
  intros Hp Hs. assert (versions f = [now f]) as Hv by (unfold versions; by rewrite Hp).
  assert (length img = length (now f)) as Hl.
  { destruct Hs as [(v & Hv' & E) _]. rewrite Hv in Hv'. apply list_elem_of_singleton in Hv' as ->. done. }
  apply at8_ext; [done|]. intros i Hi. destruct (survives_fixed f img 0 (zlen (now f)) Hs) as [_ H]; [|done|apply H; lia].
  intros u Hu. rewrite Hv in Hu. apply list_elem_of_singleton in Hu as ->. by split.
Qed.

Lemma versions_write f off a u : u ∈ versions (file_write off a f) → u ∈ versions f ∨ (a ≠ [] ∧ u = write_at (now f) (Z.to_nat off) a).
Proof.
  unfold file_write. destruct a; [by left|]. unfold versions, file_put. cbn. intros [->|H]%list.elem_of_cons; [by right|by left].
Qed.

Lemma now_write f off a : now (file_write off a f) = write_at (now f) (Z.to_nat off) a.
Proof. by destruct a. Qed.
