(* ===== verification/Pager.v ===== *)
(** * The pager: write transactions

    Models the part of src/pager.c that runs a write transaction with a rollback
    journal: the format of the journal (writeJournalHdr, pager_cksum,
    writeMasterJournal), journalling a page before it is changed (pager_write),
    spilling pages when the cache is full (pagerStress), and the two phases of a
    commit. The page cache of src/pcache.c is a finite map from page numbers;
    which pages leave it is up to the environment. Memory-mapped
    files, temporary and in-memory databases, backups and codecs are left out. *)

From stdpp Require Import sorting.
From S2P Require Import Prelude Varint Buffer Bitvec PgFile.
#[local] Open Scope Z_scope.
#[local] Open Scope c_scope.
#[local] Open Scope list_scope.

(** ** The page cache *)

Definition zero_page (n : Z) : list Z := replicate (Z.to_nat n) 0.

Definition make_dirty (p : PgHdr) : PgHdr := Page (pData p) true (needSync p) false.
Definition make_clean (p : PgHdr) : PgHdr := if dirty p then Page (pData p) false false (dontWrite p) else p.
Definition clear_sync (p : PgHdr) : PgHdr := if dirty p then Page (pData p) (dirty p) false (dontWrite p) else p.
Definition set_needSync (p : PgHdr) : PgHdr := Page (pData p) (dirty p) true (dontWrite p).
Definition set_data (a : list Z) (p : PgHdr) : PgHdr := Page a (dirty p) (needSync p) (dontWrite p).

Definition on_page (pgno : Z) (f : PgHdr → PgHdr) : sm world () := sm_mod (set_cache (alter f pgno)).
Definition page (pgno : Z) : sm world PgHdr := sm_gets (λ w, deref (cache w !! pgno)).

Definition sqlite3PcacheMakeDirty (pgno : Z) : sm world () := on_page pgno make_dirty.
Definition sqlite3PcacheMakeClean (pgno : Z) : sm world () := on_page pgno make_clean.
Definition sqlite3PcacheCleanAll : sm world () := sm_mod (set_cache (fmap make_clean)).
Definition sqlite3PcacheClearSyncFlags : sm world () := sm_mod (set_cache (fmap clear_sync)).

(** [sqlite3PcacheTruncate]: page 1 stays, zeroed, as long as somebody refers to it. *)
Definition cache_truncate (szPage pgno : Z) (r : gset Z) (c : gmap Z PgHdr) : gmap Z PgHdr :=
  if (pgno =? 0) && bool_decide (1 ∈ r)
  then filter (λ '(k, _), k ≤ 1) (alter (set_data (zero_page szPage)) 1 (make_clean <$> c))
  else filter (λ '(k, _), k ≤ pgno) c.

Definition sqlite3PcacheTruncate (pgno : Z) : sm world () :=
  sm_mod (λ w, set_cache (cache_truncate (pageSize (pg w)) pgno (refs w)) w).
Definition sqlite3PcacheClear : sm world () := sqlite3PcacheTruncate 0.

(** The order of [pcacheSortDirtyList]. *)
Definition pgno_le (p q : Z * PgHdr) : Prop := p.1 ≤ q.1.
#[global] Instance pgno_le_dec : RelDecision pgno_le.
Proof. intros p q. unfold pgno_le. apply _. Defined.

(** The numbers of the dirty pages, sorted. *)
Definition sqlite3PcacheDirtyList (c : gmap Z PgHdr) : list Z :=
  fst <$> merge_sort pgno_le (filter (λ p, dirty p.2 = true) (map_to_list c)).

(** [pager_reset]. *)
Definition pager_reset : sm world () := sqlite3PcacheClear.

(** ** Bit vectors *)

Definition bitvec_test (o : option Bitvec) (pgno : Z) : sm world bool :=
  sm_lift (match sqlite3BitvecTest o pgno with Some b => Ret b | None => Undef AssertFail end).

(** [sqlite3BitvecSet] with the allocator of the environment. *)
Definition bitvec_set (o : option Bitvec) (pgno : Z) : sm world (Z * option Bitvec) := λ w,
  match sqlite3BitvecSet (memory (en w)) o pgno with
  | Some (rc, o, m) => Ret ((rc, o), set_en (set_memory m) w)
  | None => Undef AssertFail
  end.

Definition bitvec_create (n : Z) : sm world (option Bitvec) := λ w,
  let '(o, m) := sqlite3BitvecCreate (memory (en w)) n in Ret (o, set_en (set_memory m) w).

Definition pageInJournal (pgno : Z) : sm world bool :=
  o ← field pInJournal; bitvec_test o pgno.

(** [sqlite3BitvecSet(pPager->pInJournal, pgno)]. *)
Definition set_in_journal (pgno : Z) : sm world Z :=
  o ← field pInJournal;
  '(rc, o) ← bitvec_set o pgno;
  _ ← assign (set_pInJournal o);
  mret rc.

(** A loop that used up its fuel. *)
Definition out_of_fuel {A} : sm world A := λ _, Undef OutOfFuel.

(** ** Locks *)

Definition pagerUnlockDb (lock : Z) : sm world Z :=
  x ← setting exclusiveMode;
  _ ← assert_ (λ w, negb x || (eLock (pg w) =? lock));
  _ ← assert_ (λ w, (lock =? NO_LOCK) || (lock =? SHARED_LOCK));
  _ ← assert_ (λ w, lock <=? eLock (pg w));
  rc ← os_call SQLITE_IOERR_UNLOCK;
  l ← field eLock;
  _ ← (if negb (l =? UNKNOWN_LOCK) then assign (set_eLock lock) else mret ());
  mret rc.

(** The answer of [sqlite3OsLock] and [sqlite3OsCheckReservedLock]. *)
Definition lock_rc (a : answer) : Z :=
  match a with Done _ => SQLITE_OK | Busy _ => SQLITE_BUSY | _ => SQLITE_IOERR_LOCK end.

Definition pagerLockDb (lock : Z) : sm world Z :=
  _ ← assert_ (λ _, (lock =? SHARED_LOCK) || (lock =? RESERVED_LOCK) || (lock =? EXCLUSIVE_LOCK));
  l ← field eLock;
  if (l <? lock) || (l =? UNKNOWN_LOCK) then
    a ← next_answer;
    let rc := lock_rc a in
    _ ← (if (rc =? SQLITE_OK) && (negb (l =? UNKNOWN_LOCK) || (lock =? EXCLUSIVE_LOCK)) then assign (set_eLock lock) else mret ());
    mret rc
  else mret SQLITE_OK.

(** The loop of [pager_wait_on_lock]; the answer of the busy handler is one of the
    environment's too. *)
Fixpoint lock_loop (fuel : nat) (lock : Z) : sm world Z :=
  rc ← pagerLockDb lock;
  if rc =? SQLITE_BUSY then
    a ← next_answer;
    if negb (answer_n a =? 0) then
      match fuel with O => out_of_fuel | S fuel' => lock_loop fuel' lock end
    else mret rc
  else mret rc.

Definition pager_wait_on_lock (lock : Z) : sm world Z :=
  _ ← assert_ (λ w, let l := eLock (pg w) in (lock <=? l) || ((l =? NO_LOCK) && (lock =? SHARED_LOCK)) || ((l =? RESERVED_LOCK) && (lock =? EXCLUSIVE_LOCK)));
  n ← sm_get (λ w, length (events (en w)));
  lock_loop n lock.

Definition sqlite3PagerExclusiveLock : sm world Z :=
  _ ← assert_ (λ w, let s := eState (pg w) in (s =? PAGER_WRITER_CACHEMOD) || (s =? PAGER_WRITER_DBMOD) || (s =? PAGER_WRITER_LOCKED));
  pager_wait_on_lock EXCLUSIVE_LOCK.

Definition pager_error (rc : Z) : sm world Z :=
  _ ← assert_ (λ w, let e := errCode (pg w) in (e =? SQLITE_FULL) || (e =? SQLITE_OK) || (e .& 0xff =? SQLITE_IOERR));
  let rc2 := rc .& 0xff in
  _ ← (if (rc2 =? SQLITE_FULL) || (rc2 =? SQLITE_IOERR) then assign (λ p, set_eState PAGER_ERROR (set_errCode rc p)) else mret ());
  mret rc.

(** ** The journal *)

Definition aJournalMagic : list Z := [0xd9; 0xd5; 0x05; 0xf9; 0x20; 0xa1; 0x63; 0xd7].

Definition JOURNAL_PG_SZ (p : Pager) : Z := pageSize p + 8.
Definition JOURNAL_HDR_SZ (p : Pager) : Z := sectorSize p.
Definition PAGER_MJ_PGNO (p : Pager) : Z := PENDING_BYTE / pageSize p + 1.

(** [((c-1)/JOURNAL_HDR_SZ + 1) * JOURNAL_HDR_SZ], the next multiple. *)
Definition round_up (n c : Z) : Z := if c =? 0 then 0 else ((c - 1) / n + 1) * n.
Definition journalHdrOffset (p : Pager) : Z := round_up (JOURNAL_HDR_SZ p) (journalOff p).

(** [while( i>0 ){ cksum += aData[i]; i -= 200; }]. *)
Fixpoint cksum_loop (fuel : nat) (aData : list Z) (i cksum : Z) : outcome Z :=
  if 0 <? i then
    match fuel with
    | O => Undef OutOfFuel
    | S fuel' => b ← byte_at aData i; cksum_loop fuel' aData (i - 200) (u32 (cksum + b))
    end
  else Ret cksum.

Definition pager_cksum (p : Pager) (aData : list Z) : outcome Z :=
  cksum_loop (Z.to_nat (pageSize p / 200)) aData (pageSize p - 200) (cksumInit p).

(** [zeroJournalHdr]. *)
Definition zeroJournalHdr (doTruncate : bool) : sm world Z :=
  _ ← assert_ (λ w, jopen (pg w));
  off ← field journalOff;
  if off =? 0 then mret SQLITE_OK else
  iLimit ← setting journalSizeLimit;
  rc ← (if doTruncate || (iLimit =? 0) then sqlite3OsTruncate Jfd 0 else sqlite3OsWrite Jfd (replicate 28 0) 0);
  ns ← setting noSync;
  rc ← (if (rc =? SQLITE_OK) && negb ns then sqlite3OsSync Jfd else mret rc);
  if (rc =? SQLITE_OK) && (0 <? iLimit) then
    '(rc, sz) ← sqlite3OsFileSize Jfd;
    if (rc =? SQLITE_OK) && (iLimit <? sz) then sqlite3OsTruncate Jfd iLimit else mret rc
  else mret rc.

(** The loop that sets [iHdrOffset] of savepoints. *)
Definition mark_savepoint (off : Z) (s : PagerSavepoint) : PagerSavepoint :=
  if iHdrOffset s =? 0 then Savepoint (iOffset s) off (pInSavepoint s) (nOrig s) (iSubRec s) else s.

(** [for(nWrite=0; rc==SQLITE_OK&&nWrite<JOURNAL_HDR_SZ(pPager); nWrite+=nHeader)]. *)
Fixpoint write_hdr_loop (fuel : nat) (zHeader : list Z) (nHeader nWrite : Z) : sm world Z :=
  sz ← field JOURNAL_HDR_SZ;
  if nWrite <? sz then
    match fuel with
    | O => out_of_fuel
    | S fuel' =>
        off ← field journalOff;
        rc ← sqlite3OsWrite Jfd zHeader off;
        _ ← assert_ (λ w, journalHdr (pg w) <=? journalOff (pg w));
        _ ← assign (λ p, set_journalOff (journalOff p + nHeader) p);
        if rc =? SQLITE_OK then write_hdr_loop fuel' zHeader nHeader (nWrite + nHeader) else mret rc
    end
  else mret SQLITE_OK.

(** The first 28 bytes of a header. *)
Definition header_bytes (first : list Z) (init size sector page : Z) : list Z :=
  first ++ sqlite3Put4byte init ++ sqlite3Put4byte size ++ sqlite3Put4byte sector ++ sqlite3Put4byte page.

Definition writeJournalHdr : sm world Z :=
  _ ← assert_ (λ w, jopen (pg w));
  p ← sm_get pg;
  let nHeader := if JOURNAL_HDR_SZ p <? pageSize p then JOURNAL_HDR_SZ p else pageSize p in
  _ ← assign (λ p, set_aSavepoint (mark_savepoint (journalOff p) <$> aSavepoint p) p);
  _ ← assign (λ p, let off := journalHdrOffset p in set_journalHdr off (set_journalOff off p));
  c ← sm_get cf;
  let first := if noSync c || negb (deviceCharacteristics c .& SQLITE_IOCAP_SAFE_APPEND =? 0)
               then aJournalMagic ++ sqlite3Put4byte 0xffffffff else replicate 12 0 in
  init ← sqlite3_randomness;
  _ ← assign (set_cksumInit init);
  let zHeader := header_bytes first init (dbOrigSize p) (sectorSize p) (pageSize p) ++ replicate (Z.to_nat (nHeader - 28)) 0 in
  write_hdr_loop (Z.to_nat (JOURNAL_HDR_SZ p)) zHeader nHeader 0.

(** The sum of the bytes of a name, as signed characters. *)
Definition name_cksum (zMaster : list Z) : Z := foldl (λ c b, u32 (c + sw 8 b)) 0 zMaster.

(** [writeMasterJournal] for a name without terminator; [None] is NULL. *)
Definition writeMasterJournal (zMaster : option (list Z)) : sm world Z :=
  _ ← assert_ (λ w, negb (setMaster (pg w)));
  m ← setting journalMode;
  match zMaster with
  | None => mret SQLITE_OK
  | Some z =>
      if bool_decide (m = OFF) then mret SQLITE_OK else
      _ ← assign (set_setMaster true);
      _ ← assert_ (λ w, jopen (pg w));
      _ ← assert_ (λ w, journalHdr (pg w) <=? journalOff (pg w));
      let nMaster := Z.of_nat (length z) in
      fs ← setting fullSync;
      _ ← (if (fs : bool) then assign (λ p, set_journalOff (journalHdrOffset p) p) else mret ());
      iHdrOff ← field journalOff;
      mj ← field PAGER_MJ_PGNO;
      rc ← write32bits Jfd iHdrOff mj;
      if negb (rc =? 0) then mret rc else
      rc ← sqlite3OsWrite Jfd z (iHdrOff + 4);
      if negb (rc =? 0) then mret rc else
      rc ← write32bits Jfd (iHdrOff + 4 + nMaster) nMaster;
      if negb (rc =? 0) then mret rc else
      rc ← write32bits Jfd (iHdrOff + 4 + nMaster + 4) (name_cksum z);
      if negb (rc =? 0) then mret rc else
      rc ← sqlite3OsWrite Jfd aJournalMagic (iHdrOff + 4 + nMaster + 8);
      if negb (rc =? 0) then mret rc else
      _ ← assign (λ p, set_journalOff (journalOff p + (nMaster + 20)) p);
      '(rc, jrnlSize) ← sqlite3OsFileSize Jfd;
      off ← field journalOff;
      if (rc =? SQLITE_OK) && (off <? jrnlSize) then sqlite3OsTruncate Jfd off else mret rc
  end.

(** ** Savepoints and the sub-journal *)

(** [subjRequiresPage]. *)
Fixpoint subj_loop (l : list PagerSavepoint) (pgno : Z) : sm world bool :=
  match l with
  | [] => mret false
  | s :: l' =>
      b ← bitvec_test (pInSavepoint s) pgno;
      if (pgno <=? nOrig s) && negb b then mret true else subj_loop l' pgno
  end.
Definition subjRequiresPage (pgno : Z) : sm world bool :=
  l ← field aSavepoint; subj_loop l pgno.

(** [addToSavepointBitvecs]: the result code and the changed array. *)
Fixpoint add_loop (l : list PagerSavepoint) (pgno : Z) (rc : Z) : sm world (Z * list PagerSavepoint) :=
  match l with
  | [] => mret (rc, [])
  | s :: l' =>
      '(rc, s) ← (if pgno <=? nOrig s then
                    '(rc2, o) ← bitvec_set (pInSavepoint s) pgno;
                    mret (rc .| rc2, Savepoint (iOffset s) (iHdrOffset s) o (nOrig s) (iSubRec s))
                  else mret (rc, s));
      _ ← assert_ (λ _, (rc =? SQLITE_OK) || (rc =? SQLITE_NOMEM));
      '(rc, l') ← add_loop l' pgno rc;
      mret (rc, s :: l')
  end.
Definition addToSavepointBitvecs (pgno : Z) : sm world Z :=
  l ← field aSavepoint;
  '(rc, l) ← add_loop l pgno SQLITE_OK;
  _ ← assign (set_aSavepoint l);
  mret rc.

Definition openSubJournal : sm world Z :=
  o ← field sjopen;
  if (o : bool) then mret SQLITE_OK else
  rc ← os_call SQLITE_CANTOPEN;
  if rc =? SQLITE_OK then
    _ ← sm_mod (set_dk (set_sub []));
    _ ← assign (set_sjopen true);
    mret rc
  else mret rc.

Definition subjournalPage (pgno : Z) : sm world Z :=
  m ← setting journalMode;
  rc ← (if bool_decide (m = OFF) then mret SQLITE_OK else
        _ ← assert_ (λ w, jopen (pg w));
        _ ← assert_ (λ w, sjopen (pg w) || (nSubRec (pg w) =? 0));
        b ← pageInJournal pgno;
        _ ← assert_ (λ w, b || (dbOrigSize (pg w) <? pgno));
        rc ← openSubJournal;
        if negb (rc =? SQLITE_OK) then mret rc else
        p ← page pgno;
        offset ← field (λ p, nSubRec p * (4 + pageSize p));
        rc ← write32bits Sjfd offset pgno;
        if rc =? SQLITE_OK then sqlite3OsWrite Sjfd (pData p) (offset + 4) else mret rc);
  if rc =? SQLITE_OK then
    _ ← assign (λ p, set_nSubRec (u32 (nSubRec p + 1)) p);
    _ ← assert_ (λ w, negb (bool_decide (aSavepoint (pg w) = [])));
    addToSavepointBitvecs pgno
  else mret rc.

(** [releaseAllSavepoints]. *)
Definition releaseAllSavepoints : sm world () :=
  x ← setting exclusiveMode;
  _ ← (if negb x then assign (set_sjopen false) else mret ());
  assign (λ p, set_aSavepoint [] (set_nSubRec 0 p)).

(** The new entries of [aSavepoint]: the result code. *)
Fixpoint new_savepoints (n : nat) : sm world Z :=
  match n with
  | O => mret SQLITE_OK
  | S n' =>
      p ← sm_get pg;
      let off := if jopen p && (0 <? journalOff p) then journalOff p else JOURNAL_HDR_SZ p in
      o ← bitvec_create (dbSize p);
      match o with
      | None => mret SQLITE_NOMEM
      | Some _ =>
          _ ← assign (set_aSavepoint (aSavepoint p ++ [Savepoint off 0 o (dbSize p) (nSubRec p)]));
          new_savepoints n'
      end
  end.

Definition sqlite3PagerOpenSavepoint (nSavepoint : nat) : sm world Z :=
  _ ← assert_ (λ w, PAGER_WRITER_LOCKED <=? eState (pg w));
  nCurrent ← field (λ p, length (aSavepoint p));
  if (nCurrent <? nSavepoint)%nat then
    ok ← sqlite3_malloc;
    if (ok : bool) then new_savepoints (nSavepoint - nCurrent) else mret SQLITE_NOMEM
  else mret SQLITE_OK.
