(* ===== verification/PgTxn.v ===== *)
(** * The pager: changing and committing

    The second part of write transactions of src/pager.c: opening the journal,
    journalling pages ([pager_write], [sqlite3PagerWrite]), reading pages into the
    cache, writing them back ([syncJournal], [pager_write_pagelist],
    [pagerStress]) and the two phases of a commit. During a transaction somebody
    refers to page 1, so [pagerUnlockIfUnused] has nothing to do. *)

From S2P Require Import Prelude Varint Buffer Bitvec PgFile Pager.
#[local] Open Scope Z_scope.
#[local] Open Scope c_scope.
#[local] Open Scope list_scope.

Definition SQLITE_VERSION_NUMBER : Z := 3008004.
Definition SPILLFLAG_OFF : Z := 1.
Definition SPILLFLAG_ROLLBACK : Z := 2.
Definition SPILLFLAG_NOSYNC : Z := 4.
Definition SQLITE_READONLY_DBMOVED : Z := 8 .| (4 .<< 8).

(** ** The database file *)

(** The offset of a page. *)
Definition page_offset (sz pgno : Z) : Z := (pgno - 1) * sz.

Definition pager_truncate (nPage : Z) : sm world Z :=
  _ ← assert_ (λ w, negb (eState (pg w) =? PAGER_ERROR));
  _ ← assert_ (λ w, negb (eState (pg w) =? PAGER_READER));
  s ← field eState;
  if (PAGER_WRITER_DBMOD <=? s) || (s =? PAGER_OPEN) then
    szPage ← field pageSize;
    _ ← assert_ (λ w, eLock (pg w) =? EXCLUSIVE_LOCK);
    '(rc, currentSize) ← sqlite3OsFileSize Fd;
    let newSize := szPage * nPage in
    if (rc =? SQLITE_OK) && negb (currentSize =? newSize) then
      rc ← (if newSize <? currentSize then sqlite3OsTruncate Fd newSize
            else if currentSize + szPage <=? newSize then sqlite3OsWrite Fd (zero_page szPage) (newSize - szPage)
            else mret rc);
      _ ← (if rc =? SQLITE_OK then assign (set_dbFileSize nPage) else mret ());
      mret rc
    else mret rc
  else mret SQLITE_OK.

Definition sqlite3PagerSync : sm world Z :=
  rc ← os_call SQLITE_IOERR;
  ns ← setting noSync;
  if (rc =? SQLITE_OK) && negb ns then sqlite3OsSync Fd else mret rc.

(** [pager_write_changecounter] on the content of page 1. *)
Definition with_counter (vers data : list Z) : outcome (list Z) :=
  v ← sqlite3Get4byte vers;
  let c := u32 (v + 1) in
  data ← put_slice data 24 (sqlite3Put4byte c);
  data ← put_slice data 92 (sqlite3Put4byte c);
  put_slice data 96 (sqlite3Put4byte SQLITE_VERSION_NUMBER).

Definition pager_write_changecounter (pgno : Z) : sm world () :=
  p ← page pgno;
  v ← field dbFileVers;
  d ← sm_lift (with_counter v (pData p));
  on_page pgno (set_data d).

(** [memcpy(&pPager->dbFileVers, &pData[24], sizeof(pPager->dbFileVers))]. *)
Definition load_vers (pData : list Z) : sm world () :=
  v ← sm_lift (get_slice pData 24 16); assign (set_dbFileVers v).

(** ** Writing pages back *)

(** [syncJournal]. *)
Definition sync_header : sm world Z :=
  n ← field nRec;
  let zHeader := aJournalMagic ++ sqlite3Put4byte n in
  iNextHdrOffset ← field journalHdrOffset;
  '(rc, aMagic) ← sqlite3OsRead Jfd 8 iNextHdrOffset;
  rc ← (if (rc =? SQLITE_OK) && bool_decide (aMagic = aJournalMagic) then sqlite3OsWrite Jfd [0] iNextHdrOffset else mret rc);
  if negb (rc =? SQLITE_OK) && negb (rc =? SQLITE_IOERR_SHORT_READ) then mret rc else
  c ← sm_get cf;
  rc ← (if fullSync c && (deviceCharacteristics c .& SQLITE_IOCAP_SEQUENTIAL =? 0) then sqlite3OsSync Jfd else mret SQLITE_OK);
  if negb (rc =? SQLITE_OK) then mret rc else
  h ← field journalHdr;
  sqlite3OsWrite Jfd zHeader h.

Definition sync_file (newHdr : bool) : sm world Z :=
  iDc ← setting deviceCharacteristics;
  let noAppend := iDc .& SQLITE_IOCAP_SAFE_APPEND =? 0 in
  rc ← (if noAppend then sync_header else mret SQLITE_OK);
  if negb (rc =? SQLITE_OK) then mret rc else
  rc ← (if iDc .& SQLITE_IOCAP_SEQUENTIAL =? 0 then sqlite3OsSync Jfd else mret SQLITE_OK);
  if negb (rc =? SQLITE_OK) then mret rc else
  _ ← assign (λ p, set_journalHdr (journalOff p) p);
  if newHdr && noAppend then
    _ ← assign (set_nRec 0);
    writeJournalHdr
  else mret SQLITE_OK.

Definition syncJournal (newHdr : bool) : sm world Z :=
  _ ← assert_ (λ w, (eState (pg w) =? PAGER_WRITER_CACHEMOD) || (eState (pg w) =? PAGER_WRITER_DBMOD));
  rc ← sqlite3PagerExclusiveLock;
  if negb (rc =? SQLITE_OK) then mret rc else
  ns ← setting noSync;
  jo ← field jopen;
  rc ← (if (ns : bool) then mret SQLITE_OK
        else if (jo : bool) then sync_file newHdr
        else _ ← assign (λ p, set_journalHdr (journalOff p) p); mret SQLITE_OK);
  if negb (rc =? SQLITE_OK) then mret rc else
  _ ← sqlite3PcacheClearSyncFlags;
  _ ← assign (set_eState PAGER_WRITER_DBMOD);
  mret SQLITE_OK.

(** One round of the loop of [pager_write_pagelist]. *)
Definition write_page (pgno : Z) : sm world Z :=
  p ← page pgno;
  n ← field dbSize;
  if (pgno <=? n) && negb (dontWrite p) then
    _ ← assert_ (λ _, negb (needSync p));
    _ ← (if pgno =? 1 then pager_write_changecounter pgno else mret ());
    p ← page pgno;
    off ← field (λ q, page_offset (pageSize q) pgno);
    rc ← sqlite3OsWrite Fd (pData p) off;
    _ ← (if pgno =? 1 then load_vers (pData p) else mret ());
    _ ← assign (λ q, if dbFileSize q <? pgno then set_dbFileSize pgno q else q);
    mret rc
  else mret SQLITE_OK.

Fixpoint write_loop (pList : list Z) : sm world Z :=
  match pList with
  | [] => mret SQLITE_OK
  | pgno :: pList' => rc ← write_page pgno; if rc =? SQLITE_OK then write_loop pList' else mret rc
  end.

Definition pager_write_pagelist (pList : list Z) : sm world Z :=
  _ ← assert_ (λ w, eState (pg w) =? PAGER_WRITER_DBMOD);
  _ ← assert_ (λ w, eLock (pg w) =? EXCLUSIVE_LOCK);
  p ← sm_get pg;
  _ ← (if dbHintSize p <? dbSize p then
         match pList with
         | [] => sm_lift (Undef NullDeref)
         | g :: rest => if negb (bool_decide (rest = [])) || (dbHintSize p <? g) then assign (set_dbHintSize (dbSize p)) else mret ()
         end
       else mret ());
  write_loop pList.

(** [pagerStress]. *)
Definition pagerStress (pgno : Z) : sm world Z :=
  p ← page pgno;
  _ ← assert_ (λ _, dirty p);
  e ← field errCode;
  if negb (e =? SQLITE_OK) then mret SQLITE_OK else
  f ← field doNotSpill;
  if negb (f =? 0) && (negb (f .& (SPILLFLAG_ROLLBACK .| SPILLFLAG_OFF) =? 0) || needSync p) then mret SQLITE_OK else
  s ← field eState;
  rc ← (if needSync p || (s =? PAGER_WRITER_CACHEMOD) then syncJournal true else mret SQLITE_OK);
  n ← field dbSize;
  rc ← (if (rc =? SQLITE_OK) && (n <? pgno) then
          b ← subjRequiresPage pgno; if (b : bool) then subjournalPage pgno else mret rc
        else mret rc);
  rc ← (if rc =? SQLITE_OK then
          p ← page pgno;
          _ ← assert_ (λ _, negb (needSync p));
          pager_write_pagelist [pgno]
        else mret rc);
  _ ← (if rc =? SQLITE_OK then sqlite3PcacheMakeClean pgno else mret ());
  pager_error rc.

(** ** Reading pages *)

Definition next_pressure : sm world (option Z * list Z) := λ w,
  match pressure (en w) with
  | [] => Ret ((None, []), w)
  | x :: l => Ret (x, set_en (set_pressure l) w)
  end.

(** Whether a page in the cache can be spilled, or dropped. *)
Definition can_spill (w : world) (pgno : Z) : bool :=
  match cache w !! pgno with Some p => dirty p && negb (bool_decide (pgno ∈ refs w)) | None => false end.
Definition can_drop (w : world) (pgno : Z) : bool :=
  match cache w !! pgno with Some p => negb (dirty p) && negb (bool_decide (pgno ∈ refs w)) | None => false end.
Definition drop_pages (l : list Z) (w : world) : world :=
  set_cache (λ c, foldr (λ g c, if can_drop w g then delete g c else c) c l) w.

(** [sqlite3PcacheFetch] with [createFlag==1]: the result code and whether the page is new. *)
Definition sqlite3PcacheFetch (pgno : Z) : sm world (Z * bool) :=
  o ← sm_get (λ w, cache w !! pgno);
  match o with
  | Some _ => mret (SQLITE_OK, false)
  | None =>
      '(victim, clean) ← next_pressure;
      rc ← (match victim with
            | Some v => ok ← sm_get (λ w, can_spill w v); if (ok : bool) then pagerStress v else mret SQLITE_OK
            | None => mret SQLITE_OK
            end);
      if negb (rc =? SQLITE_OK) && negb (rc =? SQLITE_BUSY) then mret (rc, false) else
      _ ← sm_mod (drop_pages clean);
      ok ← sqlite3_malloc;
      if (ok : bool) then
        _ ← sm_mod (λ w, set_cache (insert pgno (Page (zero_page (pageSize (pg w))) false false false)) w);
        mret (SQLITE_OK, true)
      else mret (SQLITE_NOMEM, false)
  end.

(** [readDbPage]. *)
Definition readDbPage (pgno : Z) : sm world Z :=
  _ ← assert_ (λ w, PAGER_READER <=? eState (pg w));
  pgsz ← field pageSize;
  '(rc, d) ← sqlite3OsRead Fd pgsz (page_offset pgsz pgno);
  _ ← on_page pgno (set_data d);
  let rc := if rc =? SQLITE_IOERR_SHORT_READ then SQLITE_OK else rc in
  _ ← (if pgno =? 1 then
         if negb (rc =? SQLITE_OK) then assign (set_dbFileVers (replicate 16 0xff)) else load_vers d
       else mret ());
  mret rc.

(** The part of [sqlite3PagerAcquire] that fills a page. *)
Definition fill_page (pgno : Z) (noContent : bool) : sm world Z :=
  mj ← field PAGER_MJ_PGNO;
  if (PAGER_MAX_PGNO <? pgno) || (pgno =? mj) then mret SQLITE_CORRUPT else
  n ← field dbSize;
  if (n <? pgno) || noContent then
    mx ← field mxPgno;
    if mx <? pgno then mret SQLITE_FULL else
    _ ← (if (noContent : bool) then
           orig ← field dbOrigSize;
           _ ← (if pgno <=? orig then set_in_journal pgno else mret SQLITE_OK);
           addToSavepointBitvecs pgno
         else mret SQLITE_OK);
    sz ← field pageSize;
    _ ← on_page pgno (set_data (zero_page sz));
    mret SQLITE_OK
  else readDbPage pgno.

Definition sqlite3PagerAcquire (pgno : Z) (noContent : bool) : sm world Z :=
  _ ← assert_ (λ w, PAGER_READER <=? eState (pg w));
  if pgno =? 0 then mret SQLITE_CORRUPT else
  e ← field errCode;
  if negb (e =? SQLITE_OK) then mret e else
  '(rc, fresh) ← sqlite3PcacheFetch pgno;
  if negb (rc =? SQLITE_OK) then mret rc else
  if negb fresh && negb noContent then
    _ ← assert_ (λ w, (pgno <=? PAGER_MAX_PGNO) && negb (pgno =? PAGER_MJ_PGNO (pg w)));
    mret SQLITE_OK
  else
    rc ← fill_page pgno noContent;
    _ ← (if rc =? SQLITE_OK then mret () else sm_mod (set_cache (delete pgno)));
    mret rc.

Definition sqlite3PagerGet (pgno : Z) : sm world Z := sqlite3PagerAcquire pgno false.

(** ** Journalling pages *)

(** [databaseIsUnmoved]. *)
Definition databaseIsUnmoved : sm world Z :=
  n ← field dbSize;
  if n =? 0 then mret SQLITE_OK else
  a ← next_answer;
  let rc := answer_rc SQLITE_IOERR a in
  mret (if (rc =? SQLITE_OK) && negb (answer_n a =? 0) then SQLITE_READONLY_DBMOVED else rc).

Definition pager_open_journal : sm world Z :=
  _ ← assert_ (λ w, eState (pg w) =? PAGER_WRITER_LOCKED);
  _ ← assert_ (λ w, bool_decide (pInJournal (pg w) = None));
  e ← field errCode;
  if negb (e =? SQLITE_OK) then mret e else
  m ← setting journalMode;
  if bool_decide (m = OFF) then _ ← assign (set_eState PAGER_WRITER_CACHEMOD); mret SQLITE_OK else
  n ← field dbSize;
  o ← bitvec_create n;
  match o with
  | None => mret SQLITE_NOMEM
  | Some _ =>
      _ ← assign (set_pInJournal o);
      jo ← field jopen;
      rc ← (if (jo : bool) then mret SQLITE_OK else
            rc ← databaseIsUnmoved;
            if rc =? SQLITE_OK then os_open_journal true else mret rc);
      rc ← (if rc =? SQLITE_OK then
              _ ← assign (λ p, set_nRec 0 (set_journalOff 0 (set_setMaster false (set_journalHdr 0 p))));
              writeJournalHdr
            else mret rc);
      if negb (rc =? SQLITE_OK) then _ ← assign (set_pInJournal None); mret rc
      else _ ← assign (set_eState PAGER_WRITER_CACHEMOD); mret rc
  end.

Definition sqlite3PagerBegin (exFlag : bool) : sm world Z :=
  e ← field errCode;
  if negb (e =? SQLITE_OK) then mret e else
  _ ← assert_ (λ w, (PAGER_READER <=? eState (pg w)) && (eState (pg w) <? PAGER_ERROR));
  s ← field eState;
  if s =? PAGER_READER then
    _ ← assert_ (λ w, bool_decide (pInJournal (pg w) = None));
    rc ← pagerLockDb RESERVED_LOCK;
    rc ← (if (rc =? SQLITE_OK) && exFlag then pager_wait_on_lock EXCLUSIVE_LOCK else mret rc);
    _ ← (if rc =? SQLITE_OK then
           assign (λ p, set_eState PAGER_WRITER_LOCKED (set_dbHintSize (dbSize p) (set_dbFileSize (dbSize p)
                          (set_dbOrigSize (dbSize p) (set_journalOff 0 p)))))
         else mret ());
    mret rc
  else mret SQLITE_OK.

(** The record of a page: the part of [pager_write] that appends to the journal. *)
Definition journal_page (pgno : Z) : sm world Z :=
  _ ← assert_ (λ w, negb (pgno =? PAGER_MJ_PGNO (pg w)));
  _ ← assert_ (λ w, journalHdr (pg w) <=? journalOff (pg w));
  iOff ← field journalOff;
  p ← page pgno;
  cksum ← sm_gets (λ w, pager_cksum (pg w) (pData p));
  _ ← on_page pgno set_needSync;
  sz ← field pageSize;
  rc ← write32bits Jfd iOff pgno;
  if negb (rc =? SQLITE_OK) then mret rc else
  rc ← sqlite3OsWrite Jfd (pData p) (iOff + 4);
  if negb (rc =? SQLITE_OK) then mret rc else
  rc ← write32bits Jfd (iOff + sz + 4) cksum;
  if negb (rc =? SQLITE_OK) then mret rc else
  _ ← assign (λ q, set_journalOff (journalOff q + (8 + pageSize q)) (set_nRec (nRec q + 1) q));
  _ ← assert_ (λ w, negb (bool_decide (pInJournal (pg w) = None)));
  rc ← set_in_journal pgno;
  _ ← assert_ (λ _, (rc =? SQLITE_OK) || (rc =? SQLITE_NOMEM));
  rc2 ← addToSavepointBitvecs pgno;
  mret (rc .| rc2).

Definition pager_write (pgno : Z) : sm world Z :=
  _ ← assert_ (λ w, let s := eState (pg w) in (s =? PAGER_WRITER_LOCKED) || (s =? PAGER_WRITER_CACHEMOD) || (s =? PAGER_WRITER_DBMOD));
  _ ← assert_ (λ w, errCode (pg w) =? 0);
  _ ← setting readOnly ≫= λ r, assert_ (λ _, negb r);
  s ← field eState;
  rc ← (if s =? PAGER_WRITER_LOCKED then pager_open_journal else mret SQLITE_OK);
  if negb (rc =? SQLITE_OK) then mret rc else
  _ ← assert_ (λ w, PAGER_WRITER_CACHEMOD <=? eState (pg w));
  _ ← page pgno;
  _ ← sqlite3PcacheMakeDirty pgno;
  inJournal ← pageInJournal pgno;
  none ← field (λ p, bool_decide (aSavepoint p = []));
  req ← (if inJournal && negb none then subjRequiresPage pgno else mret false);
  '(rc, early) ←
    (if inJournal && (none || negb req) then mret (SQLITE_OK, false) else
     orig ← field dbOrigSize;
     jo ← field jopen;
     rc ← (if inJournal then mret SQLITE_OK
           else if (pgno <=? orig) && jo then journal_page pgno
           else
             s ← field eState;
             _ ← (if negb (s =? PAGER_WRITER_DBMOD) then on_page pgno set_needSync else mret ());
             mret SQLITE_OK);
     if negb (rc =? SQLITE_OK) then mret (rc, true) else
     req ← (if none then mret false else subjRequiresPage pgno);
     if (req : bool) then rc ← subjournalPage pgno; mret (rc, false) else mret (rc, false));
  if (early : bool) then mret rc else
  _ ← assign (λ p, if dbSize p <? pgno then set_dbSize pgno p else p);
  mret rc.

(** The loop of [sqlite3PagerWrite] over the pages of a sector: the result code and
    [needSync]. *)
Fixpoint sector_loop (n : nat) (pg pgno : Z) (need : bool) : sm world (Z * bool) :=
  match n with
  | O => mret (SQLITE_OK, need)
  | S n' =>
      o ← field pInJournal;
      done ← bitvec_test o pg;
      mj ← field PAGER_MJ_PGNO;
      '(rc, need) ←
        (if (pg =? pgno) || negb done then
           if pg =? mj then mret (SQLITE_OK, need) else
           rc ← sqlite3PagerGet pg;
           if rc =? SQLITE_OK then
             rc ← pager_write pg;
             p ← page pg;
             mret (rc, need || needSync p)
           else mret (rc, need)
         else
           o ← sm_get (λ w, cache w !! pg);
           mret (SQLITE_OK, need || match o with Some p => needSync p | None => false end));
      if rc =? SQLITE_OK then sector_loop n' (pg + 1) pgno need else mret (rc, need)
  end.

(** [for(ii=0; ii<nPage; ii++)]: mark the pages of the sector that are in the cache. *)
Fixpoint mark_sector (n : nat) (pg : Z) : sm world () :=
  match n with
  | O => mret ()
  | S n' => _ ← on_page pg set_needSync; mark_sector n' (pg + 1)
  end.

Definition sqlite3PagerWrite (pgno : Z) : sm world Z :=
  _ ← assert_ (λ w, PAGER_WRITER_LOCKED <=? eState (pg w));
  _ ← assert_ (λ w, negb (eState (pg w) =? PAGER_ERROR));
  p ← sm_get pg;
  if pageSize p <? sectorSize p then
    _ ← assert_ (λ w, doNotSpill (pg w) .& SPILLFLAG_NOSYNC =? 0);
    _ ← assign (λ p, set_doNotSpill (doNotSpill p .| SPILLFLAG_NOSYNC) p);
    let nPagePerSector := sectorSize p / pageSize p in
    let pg1 := ((pgno - 1) .& u32 (- nPagePerSector)) + 1 in
    let nPageCount := dbSize p in
    let nPage := if nPageCount <? pgno then (pgno - pg1) + 1
                 else if nPageCount <? pg1 + nPagePerSector - 1 then nPageCount + 1 - pg1
                 else nPagePerSector in
    _ ← assert_ (λ _, (0 <? nPage) && (pg1 <=? pgno) && (pgno <? pg1 + nPage));
    '(rc, need) ← sector_loop (Z.to_nat nPage) pg1 pgno false;
    _ ← (if (rc =? SQLITE_OK) && need then mark_sector (Z.to_nat nPage) pg1 else mret ());
    _ ← assert_ (λ w, negb (doNotSpill (pg w) .& SPILLFLAG_NOSYNC =? 0));
    _ ← assign (λ p, set_doNotSpill (doNotSpill p .& 0xfb) p);
    mret rc
  else pager_write pgno.

(** ** Committing *)

(** [pager_incr_changecounter] without the atomic-write optimization. *)
Definition pager_incr_changecounter : sm world Z :=
  _ ← assert_ (λ w, (eState (pg w) =? PAGER_WRITER_CACHEMOD) || (eState (pg w) =? PAGER_WRITER_DBMOD));
  p ← sm_get pg;
  if negb (changeCountDone p) && (0 <? dbSize p) then
    rc ← sqlite3PagerGet 1;
    rc ← (if rc =? SQLITE_OK then sqlite3PagerWrite 1 else mret rc);
    if rc =? SQLITE_OK then
      _ ← pager_write_changecounter 1;
      _ ← assign (set_changeCountDone true);
      mret rc
    else mret rc
  else mret SQLITE_OK.

(** The part of [sqlite3PagerCommitPhaseOne] up to [commit_phase_one_exit]. *)
Definition commit_one (zMaster : option (list Z)) (noSync : bool) : sm world Z :=
  rc ← pager_incr_changecounter;
  if negb (rc =? SQLITE_OK) then mret rc else
  rc ← writeMasterJournal zMaster;
  if negb (rc =? SQLITE_OK) then mret rc else
  rc ← syncJournal false;
  if negb (rc =? SQLITE_OK) then mret rc else
  l ← sm_get (λ w, sqlite3PcacheDirtyList (cache w));
  rc ← pager_write_pagelist l;
  if negb (rc =? SQLITE_OK) then mret rc else
  _ ← sqlite3PcacheCleanAll;
  p ← sm_get pg;
  rc ← (if dbFileSize p <? dbSize p then
          _ ← assert_ (λ w, eState (pg w) =? PAGER_WRITER_DBMOD);
          pager_truncate (dbSize p - (if dbSize p =? PAGER_MJ_PGNO p then 1 else 0))
        else mret SQLITE_OK);
  if negb (rc =? SQLITE_OK) then mret rc else
  if negb noSync then sqlite3PagerSync else mret rc.

Definition sqlite3PagerCommitPhaseOne (zMaster : option (list Z)) (noSync : bool) : sm world Z :=
  _ ← assert_ (λ w, let s := eState (pg w) in (s =? PAGER_WRITER_LOCKED) || (s =? PAGER_WRITER_CACHEMOD) || (s =? PAGER_WRITER_DBMOD) || (s =? PAGER_ERROR));
  e ← field errCode;
  if negb (e =? SQLITE_OK) then mret e else
  s ← field eState;
  if s <? PAGER_WRITER_CACHEMOD then mret SQLITE_OK else
  rc ← commit_one zMaster noSync;
  _ ← (if rc =? SQLITE_OK then assign (set_eState PAGER_WRITER_FINISHED) else mret ());
  mret rc.

(** The finalization of the journal in [pager_end_transaction]. *)
Definition finalize_journal (hasMaster : bool) : sm world Z :=
  c ← sm_get cf;
  if bool_decide (journalMode c = TRUNCATE) then
    off ← field journalOff;
    rc ← (if off =? 0 then mret SQLITE_OK else sqlite3OsTruncate Jfd 0);
    _ ← assign (set_journalOff 0);
    mret rc
  else if bool_decide (journalMode c = PERSIST) || exclusiveMode c then
    rc ← zeroJournalHdr hasMaster;
    _ ← assign (set_journalOff 0);
    mret rc
  else
    _ ← assert_ (λ _, bool_decide (journalMode c = DELETE));
    _ ← assign (set_jopen false);
    os_delete_journal.

Definition pager_end_transaction (hasMaster bCommit : bool) : sm world Z :=
  _ ← assert_ (λ w, negb (eState (pg w) =? PAGER_ERROR));
  p ← sm_get pg;
  if (eState p <? PAGER_WRITER_LOCKED) && (eLock p <? RESERVED_LOCK) then mret SQLITE_OK else
  _ ← releaseAllSavepoints;
  _ ← assert_ (λ w, jopen (pg w) || bool_decide (pInJournal (pg w) = None));
  rc ← (if jopen p then finalize_journal hasMaster else mret SQLITE_OK);
  _ ← assign (λ p, set_pInJournal None (set_nRec 0 p));
  _ ← sqlite3PcacheCleanAll;
  n ← field dbSize;
  _ ← sqlite3PcacheTruncate n;
  m ← field dbFileSize;
  rc ← (if (rc =? SQLITE_OK) && bCommit && (n <? m) then
          _ ← assert_ (λ w, eLock (pg w) =? EXCLUSIVE_LOCK);
          pager_truncate n
        else mret rc);
  rc ← (if (rc =? SQLITE_OK) && bCommit then os_call SQLITE_IOERR else mret rc);
  x ← setting exclusiveMode;
  rc2 ← (if negb x then
           rc2 ← pagerUnlockDb SHARED_LOCK;
           _ ← assign (set_changeCountDone false);
           mret rc2
         else mret SQLITE_OK);
  _ ← assign (λ p, set_eState PAGER_READER (set_setMaster false p));
  mret (if rc =? SQLITE_OK then rc2 else rc).

Definition sqlite3PagerCommitPhaseTwo : sm world Z :=
  e ← field errCode;
  if negb (e =? SQLITE_OK) then mret e else
  _ ← assert_ (λ w, (eState (pg w) =? PAGER_WRITER_LOCKED) || (eState (pg w) =? PAGER_WRITER_FINISHED));
  c ← sm_get cf;
  p ← sm_get pg;
  if (eState p =? PAGER_WRITER_LOCKED) && exclusiveMode c && bool_decide (journalMode c = PERSIST) then
    _ ← assert_ (λ w, (journalOff (pg w) =? JOURNAL_HDR_SZ (pg w)) || (journalOff (pg w) =? 0));
    _ ← assign (set_eState PAGER_READER);
    mret SQLITE_OK
  else
    rc ← pager_end_transaction (setMaster p) true;
    pager_error rc.
