(* ===== verification/PgHot.v ===== *)
(** * The pager: rolling back

    Models how src/pager.c plays back a rollback journal: reading headers and
    records ([readJournalHdr], [pager_playback_one_page]), the rollback of a
    transaction ([sqlite3PagerRollback]) and the recovery of a database whose
    writer failed ([hasHotJournal], [sqlite3PagerSharedLock]). The deletion of a master
    journal, which concerns the files of other databases, and the test for a
    write-ahead log are answers of the environment. *)

From S2P Require Import Prelude Varint Buffer Bitvec PgFile Pager PgTxn.
#[local] Open Scope Z_scope.
#[local] Open Scope c_scope.
#[local] Open Scope list_scope.

(** ** Reading the journal *)

(** [readMasterJournal]: the result code and the name, empty if there is none. *)
Definition readMasterJournal (nMaster : Z) : sm world (Z * list Z) :=
  '(rc, szJ) ← sqlite3OsFileSize Jfd;
  if negb (rc =? SQLITE_OK) || (szJ <? 16) then mret (rc, []) else
  '(rc, len) ← read32bits Jfd (szJ - 16);
  if negb (rc =? SQLITE_OK) || (nMaster <=? len) || (len =? 0) then mret (rc, []) else
  '(rc, cksum) ← read32bits Jfd (szJ - 12);
  if negb (rc =? SQLITE_OK) then mret (rc, []) else
  '(rc, aMagic) ← sqlite3OsRead Jfd 8 (szJ - 8);
  if negb (rc =? SQLITE_OK) || negb (bool_decide (aMagic = aJournalMagic)) then mret (rc, []) else
  '(rc, zMaster) ← sqlite3OsRead Jfd len (szJ - 16 - len);
  if negb (rc =? SQLITE_OK) then mret (rc, []) else
  mret (SQLITE_OK, if name_cksum zMaster =? cksum then zMaster else []).

(** [zMaster[0]!='\0']. *)
Definition has_name (zMaster : list Z) : bool := match zMaster with [] => false | c :: _ => negb (c =? 0) end.

(** [sqlite3PagerSetPagesize] with [nReserve==-1]. *)
Definition sqlite3PagerSetPagesize (size : Z) : sm world Z :=
  _ ← assert_ (λ _, (size =? 0) || ((512 <=? size) && (size <=? SQLITE_MAX_PAGE_SIZE)));
  p ← sm_get pg;
  free ← sm_get (λ w, bool_decide (refs w = ∅));
  rc ← (if free && negb (size =? 0) && negb (size =? pageSize p) then
          '(rc, nByte) ← (if PAGER_OPEN <? eState p then sqlite3OsFileSize Fd else mret (SQLITE_OK, 0));
          if negb (rc =? SQLITE_OK) then mret rc else
          ok ← sqlite3_malloc;
          if negb ok then mret SQLITE_NOMEM else
          _ ← pager_reset;
          _ ← assign (λ p, set_dbSize (u32 ((nByte + size - 1) / size)) (set_pageSize size p));
          mret SQLITE_OK
        else mret SQLITE_OK);
  _ ← (if rc =? SQLITE_OK then assert_ (λ w, (0 <=? nReserve (pg w)) && (nReserve (pg w) <? 1000)) else mret ());
  mret rc.

(** [readJournalHdr]: the result code, [*pNRec] and [*pDbSize]. *)
Definition readJournalHdr (isHot : bool) (journalSize : Z) : sm world (Z * Z * Z) :=
  _ ← assert_ (λ w, jopen (pg w));
  _ ← assign (λ p, set_journalOff (journalHdrOffset p) p);
  p ← sm_get pg;
  if journalSize <? journalOff p + JOURNAL_HDR_SZ p then mret (SQLITE_DONE, 0, 0) else
  let iHdrOff := journalOff p in
  rc ← (if isHot || negb (iHdrOff =? journalHdr p) then
          '(rc, aMagic) ← sqlite3OsRead Jfd 8 iHdrOff;
          if negb (rc =? SQLITE_OK) then mret rc else
          mret (if bool_decide (aMagic = aJournalMagic) then SQLITE_OK else SQLITE_DONE)
        else mret SQLITE_OK);
  if negb (rc =? SQLITE_OK) then mret (rc, 0, 0) else
  '(rc, n) ← read32bits Jfd (iHdrOff + 8);
  if negb (rc =? SQLITE_OK) then mret (rc, 0, 0) else
  '(rc, init) ← read32bits Jfd (iHdrOff + 12);
  if negb (rc =? SQLITE_OK) then mret (rc, 0, 0) else
  _ ← assign (set_cksumInit init);
  '(rc, size) ← read32bits Jfd (iHdrOff + 16);
  if negb (rc =? SQLITE_OK) then mret (rc, 0, 0) else
  '(rc, found) ←
    (if journalOff p =? 0 then
       '(rc, iSectorSize) ← read32bits Jfd (iHdrOff + 20);
       if negb (rc =? SQLITE_OK) then mret (rc, false) else
       '(rc, iPageSize) ← read32bits Jfd (iHdrOff + 24);
       if negb (rc =? SQLITE_OK) then mret (rc, false) else
       let iPageSize := if iPageSize =? 0 then pageSize p else iPageSize in
       if (iPageSize <? 512) || (iSectorSize <? 32) || (SQLITE_MAX_PAGE_SIZE <? iPageSize) || (MAX_SECTOR_SIZE <? iSectorSize)
          || negb ((iPageSize - 1) .& iPageSize =? 0) || negb ((iSectorSize - 1) .& iSectorSize =? 0)
       then mret (SQLITE_DONE, false) else
       rc ← sqlite3PagerSetPagesize iPageSize;
       _ ← assign (set_sectorSize iSectorSize);
       mret (rc, true)
     else mret (SQLITE_OK, true));
  _ ← (if (found : bool) then assign (λ p, set_journalOff (journalOff p + JOURNAL_HDR_SZ p) p) else mret ());
  mret (rc, n, size).

(** ** Playing back *)

(** Whether a page played back goes to the database file. *)
Definition writes_db (p : Pager) (isSynced : bool) : bool :=
  ((PAGER_WRITER_DBMOD <=? eState p) || (eState p =? PAGER_OPEN)) && isSynced.

(** The part of [pager_playback_one_page] that restores the page [pgno] with the content
    [aData]; [off] is the offset behind the record. *)
Definition restore_page (isMainJrnl isSavepnt : bool) (off pgno : Z) (aData : list Z) : sm world Z :=
  b20 ← sm_lift (if pgno =? 1 then byte_at aData 20 else Ret 0);
  _ ← (if pgno =? 1 then assign (set_nReserve b20) else mret ());
  o ← sm_get (λ w, cache w !! pgno);
  _ ← assert_ (λ w, negb (eState (pg w) =? PAGER_OPEN) || bool_decide (o = None));
  ns ← setting noSync;
  p ← sm_get pg;
  let isSynced := if isMainJrnl then ns || (off <=? journalHdr p)
                  else match o with Some q => negb (needSync q) | None => true end in
  rc ← (if writes_db p isSynced then
          rc ← sqlite3OsWrite Fd aData (page_offset (pageSize p) pgno);
          _ ← assign (λ p, if dbFileSize p <? pgno then set_dbFileSize pgno p else p);
          mret rc
        else if negb isMainJrnl && bool_decide (o = None) then
          _ ← assert_ (λ _, isSavepnt);
          _ ← assert_ (λ w, doNotSpill (pg w) .& SPILLFLAG_ROLLBACK =? 0);
          _ ← assign (λ p, set_doNotSpill (doNotSpill p .| SPILLFLAG_ROLLBACK) p);
          rc ← sqlite3PagerAcquire pgno true;
          _ ← assert_ (λ w, negb (doNotSpill (pg w) .& SPILLFLAG_ROLLBACK =? 0));
          _ ← assign (λ p, set_doNotSpill (doNotSpill p .& 0xfd) p);
          if negb (rc =? SQLITE_OK) then mret rc else
          _ ← sqlite3PcacheMakeDirty pgno;
          mret rc
        else mret SQLITE_OK);
  o' ← sm_get (λ w, cache w !! pgno);
  match o' with
  | None => mret rc
  | Some _ =>
      if bool_decide (o = None) && negb (rc =? SQLITE_OK) then mret rc else
      _ ← on_page pgno (set_data aData);
      p ← sm_get pg;
      _ ← (if isMainJrnl && (negb isSavepnt || (off <=? journalHdr p)) then sqlite3PcacheMakeClean pgno else mret ());
      _ ← (if pgno =? 1 then load_vers aData else mret ());
      mret rc
  end.

(** [pager_playback_one_page]: the result code, [*pOffset] and [*pDone]. *)
Definition pager_playback_one_page (off : Z) (pDone : option Bitvec) (isMainJrnl isSavepnt : bool) : sm world (Z * Z * option Bitvec) :=
  _ ← assert_ (λ _, isMainJrnl || negb (bool_decide (pDone = None)));
  _ ← assert_ (λ _, isSavepnt || bool_decide (pDone = None));
  _ ← assert_ (λ w, (PAGER_WRITER_CACHEMOD <=? eState (pg w)) || ((eState (pg w) =? PAGER_OPEN) && (eLock (pg w) =? EXCLUSIVE_LOCK)));
  _ ← assert_ (λ w, (PAGER_WRITER_CACHEMOD <=? eState (pg w)) || isMainJrnl);
  let h := if isMainJrnl then Jfd else Sjfd in
  '(rc, pgno) ← read32bits h off;
  if negb (rc =? SQLITE_OK) then mret (rc, off, pDone) else
  p ← sm_get pg;
  '(rc, aData) ← sqlite3OsRead h (pageSize p) (off + 4);
  if negb (rc =? SQLITE_OK) then mret (rc, off, pDone) else
  let off := off + (pageSize p + 4 + (if isMainJrnl then 4 else 0)) in
  if (pgno =? 0) || (pgno =? PAGER_MJ_PGNO p) then
    _ ← assert_ (λ _, negb isSavepnt);
    mret (SQLITE_DONE, off, pDone)
  else
  played ← bitvec_test pDone pgno;
  if (dbSize p <? pgno) || played then mret (SQLITE_OK, off, pDone) else
  rc ← (if isMainJrnl then
          '(rc, cksum) ← read32bits h (off - 4);
          if negb (rc =? SQLITE_OK) then mret rc else
          if isSavepnt then mret SQLITE_OK else
          c ← sm_gets (λ w, pager_cksum (pg w) aData);
          mret (if c =? cksum then SQLITE_OK else SQLITE_DONE)
        else mret SQLITE_OK);
  if negb (rc =? SQLITE_OK) then mret (rc, off, pDone) else
  '(rc, pDone) ← bitvec_set pDone pgno;
  if negb (rc =? SQLITE_OK) then mret (rc, off, pDone) else
  rc ← restore_page isMainJrnl isSavepnt off pgno aData;
  mret (rc, off, pDone).

(** How a loop over records ends: all played back, [SQLITE_DONE], or a jump to
    [end_playback] with a result code. *)
Inductive loop_end := Finished | Stopped | Jump (rc : Z).

(** [for(u=0; u<nRec; u++)]; [reset] is [needPagerReset]. *)
Fixpoint records_loop (fuel : nat) (u n : Z) (reset : bool) : sm world (loop_end * bool) :=
  if u <? n then
    match fuel with
    | O => out_of_fuel
    | S fuel' =>
        _ ← (if reset then pager_reset else mret ());
        off ← field journalOff;
        '(rc, off, _) ← pager_playback_one_page off None true false;
        _ ← assign (set_journalOff off);
        if rc =? SQLITE_OK then records_loop fuel' (u + 1) n false
        else if rc =? SQLITE_DONE then mret (Stopped, false)
        else if rc =? SQLITE_IOERR_SHORT_READ then mret (Jump SQLITE_OK, false)
        else mret (Jump rc, false)
    end
  else mret (Finished, reset).

(** [while( 1 )]: the result code at [end_playback]. *)
Fixpoint playback_loop (fuel : nat) (isHot : bool) (szJ : Z) (reset : bool) : sm world Z :=
  match fuel with
  | O => out_of_fuel
  | S fuel' =>
      '(rc, n, mxPg) ← readJournalHdr isHot szJ;
      if negb (rc =? SQLITE_OK) then mret (if rc =? SQLITE_DONE then SQLITE_OK else rc) else
      p ← sm_get pg;
      _ ← (if n =? 0xffffffff then assert_ (λ w, journalOff (pg w) =? JOURNAL_HDR_SZ (pg w)) else mret ());
      let n := if n =? 0xffffffff then u32 (i32 ((szJ - JOURNAL_HDR_SZ p) / JOURNAL_PG_SZ p)) else n in
      let n := if (n =? 0) && negb isHot && (journalHdr p + JOURNAL_HDR_SZ p =? journalOff p)
               then u32 (i32 ((szJ - journalOff p) / JOURNAL_PG_SZ p)) else n in
      rc ← (if journalOff p =? JOURNAL_HDR_SZ p then
              rc ← pager_truncate mxPg;
              _ ← (if rc =? SQLITE_OK then assign (set_dbSize mxPg) else mret ());
              mret rc
            else mret SQLITE_OK);
      if negb (rc =? SQLITE_OK) then mret rc else
      '(e, reset) ← records_loop (S (Z.to_nat szJ)) 0 n reset;
      match e with
      | Finished => playback_loop fuel' isHot szJ reset
      | Stopped => _ ← assign (set_journalOff szJ); playback_loop fuel' isHot szJ reset
      | Jump rc => mret rc
      end
  end.

(** [sqlite3SectorSize] and [setSectorSize]. *)
Definition sqlite3SectorSize (c : settings) : Z :=
  if osSectorSize c <? 32 then 512 else if MAX_SECTOR_SIZE <? osSectorSize c then MAX_SECTOR_SIZE else osSectorSize c.
Definition setSectorSize : sm world () :=
  c ← sm_get cf;
  assign (set_sectorSize (if negb (deviceCharacteristics c .& SQLITE_IOCAP_POWERSAFE_OVERWRITE =? 0) then 512 else sqlite3SectorSize c)).

(** The part of [pager_playback] up to [end_playback]: the result code and [res]. *)
Definition playback_body (isHot : bool) : sm world (Z * bool) :=
  _ ← assert_ (λ w, jopen (pg w));
  '(rc, szJ) ← sqlite3OsFileSize Jfd;
  if negb (rc =? SQLITE_OK) then mret (rc, true) else
  mx ← setting mxPathname;
  '(rc, zMaster) ← readMasterJournal (mx + 1);
  '(rc, res) ← (if (rc =? SQLITE_OK) && has_name zMaster then
                  a ← next_answer;
                  let rc := answer_rc SQLITE_IOERR_ACCESS a in
                  mret (rc, (rc =? SQLITE_OK) && negb (answer_n a =? 0))
                else mret (rc, true));
  if negb (rc =? SQLITE_OK) || negb res then mret (rc, res) else
  _ ← assign (set_journalOff 0);
  rc ← playback_loop (S (S (Z.to_nat szJ))) isHot szJ isHot;
  mret (rc, res).

Definition pager_playback (isHot : bool) : sm world Z :=
  '(rc, res) ← playback_body isHot;
  _ ← assign (set_changeCountDone false);
  '(rc, zMaster) ← (if rc =? SQLITE_OK then mx ← setting mxPathname; readMasterJournal (mx + 1) else mret (rc, []));
  s ← field eState;
  rc ← (if (rc =? SQLITE_OK) && ((PAGER_WRITER_DBMOD <=? s) || (s =? PAGER_OPEN)) then sqlite3PagerSync else mret rc);
  rc ← (if rc =? SQLITE_OK then pager_end_transaction (has_name zMaster) false else mret rc);
  rc ← (if (rc =? SQLITE_OK) && has_name zMaster && res then os_call SQLITE_IOERR_DELETE else mret rc);
  _ ← setSectorSize;
  mret rc.

(** ** Rollback *)

Definition sqlite3PagerRollback : sm world Z :=
  p ← sm_get pg;
  if eState p =? PAGER_ERROR then mret (errCode p) else
  if eState p <=? PAGER_READER then mret SQLITE_OK else
  if negb (jopen p) || (eState p =? PAGER_WRITER_LOCKED) then
    rc ← pager_end_transaction false false;
    if PAGER_WRITER_LOCKED <? eState p then
      _ ← assign (λ p, set_errCode SQLITE_ABORT (set_eState PAGER_ERROR p));
      mret rc
    else pager_error rc
  else
    rc ← pager_playback false;
    _ ← assert_ (λ w, (eState (pg w) =? PAGER_READER) || negb (rc =? SQLITE_OK));
    pager_error rc.

(** ** Recovery *)

Definition pager_unlock : sm world () :=
  _ ← assert_ (λ w, let s := eState (pg w) in (s =? PAGER_READER) || (s =? PAGER_OPEN) || (s =? PAGER_ERROR));
  _ ← assign (set_pInJournal None);
  _ ← releaseAllSavepoints;
  c ← sm_get cf;
  _ ← (if negb (exclusiveMode c) then
         _ ← (if (deviceCharacteristics c .& SQLITE_IOCAP_UNDELETABLE_WHEN_OPEN =? 0) || negb (bool_decide (journalMode c = TRUNCATE ∨ journalMode c = PERSIST))
              then assign (set_jopen false) else mret ());
         rc ← pagerUnlockDb NO_LOCK;
         s ← field eState;
         _ ← (if negb (rc =? SQLITE_OK) && (s =? PAGER_ERROR) then assign (set_eLock UNKNOWN_LOCK) else mret ());
         _ ← assert_ (λ w, negb (errCode (pg w) =? 0) || negb (eState (pg w) =? PAGER_ERROR));
         assign (λ p, set_changeCountDone false (set_eState PAGER_OPEN p))
       else mret ());
  e ← field errCode;
  _ ← (if negb (e =? 0) then
         _ ← pager_reset;
         assign (λ p, set_changeCountDone false (set_eState PAGER_OPEN (set_errCode SQLITE_OK p)))
       else mret ());
  assign (λ p, set_journalOff 0 (set_journalHdr 0 (set_setMaster false p))).

(** [pagerPagecount]: the result code and [*pnPage]. *)
Definition pagerPagecount : sm world (Z * Z) :=
  _ ← assert_ (λ w, eState (pg w) =? PAGER_OPEN);
  _ ← assert_ (λ w, SHARED_LOCK <=? eLock (pg w));
  '(rc, n) ← sqlite3OsFileSize Fd;
  if negb (rc =? SQLITE_OK) then mret (rc, 0) else
  sz ← field pageSize;
  let nPage := u32 ((n + sz - 1) / sz) in
  _ ← assign (λ p, if mxPgno p <? nPage then set_mxPgno nPage p else p);
  mret (SQLITE_OK, nPage).

(** [hasHotJournal]: the result code and [*pExists]. *)
Definition hasHotJournal : sm world (Z * bool) :=
  _ ← assert_ (λ w, eState (pg w) =? PAGER_OPEN);
  jrnlOpen ← field jopen;
  c ← sm_get cf;
  _ ← assert_ (λ _, negb jrnlOpen || negb (deviceCharacteristics c .& SQLITE_IOCAP_UNDELETABLE_WHEN_OPEN =? 0));
  '(rc, exists_) ← (if negb jrnlOpen then os_journal_exists else mret (SQLITE_OK, true));
  if negb (rc =? SQLITE_OK) || negb exists_ then mret (rc, false) else
  a ← next_answer;
  let rc := answer_rc SQLITE_IOERR_CHECKRESERVEDLOCK a in
  if negb (rc =? SQLITE_OK) || negb (answer_n a =? 0) then mret (rc, false) else
  '(rc, nPage) ← pagerPagecount;
  if negb (rc =? SQLITE_OK) then mret (rc, false) else
  if (nPage =? 0) && negb jrnlOpen then
    rc ← pagerLockDb RESERVED_LOCK;
    _ ← (if rc =? SQLITE_OK then
           _ ← os_delete_journal;
           if negb (exclusiveMode c) then _ ← pagerUnlockDb SHARED_LOCK; mret () else mret ()
         else mret ());
    mret (SQLITE_OK, false)
  else
    rc ← (if negb jrnlOpen then os_open_journal false else mret SQLITE_OK);
    if rc =? SQLITE_OK then
      '(rc, first) ← sqlite3OsRead Jfd 1 0;
      _ ← (if negb jrnlOpen then assign (set_jopen false) else mret ());
      b ← sm_lift (byte_at first 0);
      mret (if rc =? SQLITE_IOERR_SHORT_READ then SQLITE_OK else rc, negb (b =? 0))
    else if rc =? SQLITE_CANTOPEN then mret (SQLITE_OK, true)
    else mret (rc, false).

Definition pagerSyncHotJournal : sm world Z :=
  ns ← setting noSync;
  rc ← (if negb ns then sqlite3OsSync Jfd else mret SQLITE_OK);
  if rc =? SQLITE_OK then
    '(rc, n) ← sqlite3OsFileSize Jfd;
    _ ← (if rc =? SQLITE_OK then assign (set_journalHdr n) else mret ());
    mret rc
  else mret rc.

(** The part of [sqlite3PagerSharedLock] that rolls a hot journal back. *)
Definition rollback_hot : sm world Z :=
  c ← sm_get cf;
  if readOnly c then mret SQLITE_READONLY_ROLLBACK else
  rc ← pagerLockDb EXCLUSIVE_LOCK;
  if negb (rc =? SQLITE_OK) then mret rc else
  jo ← field jopen;
  rc ← (if (jo : bool) then mret SQLITE_OK else
        '(rc, bExists) ← os_journal_exists;
        if (rc =? SQLITE_OK) && bExists then os_open_journal false else mret rc);
  jo ← field jopen;
  rc ← (if (jo : bool) then
          _ ← assert_ (λ _, rc =? SQLITE_OK);
          rc ← pagerSyncHotJournal;
          if rc =? SQLITE_OK then
            rc ← pager_playback true;
            _ ← assign (set_eState PAGER_OPEN);
            mret rc
          else mret rc
        else
          _ ← (if negb (exclusiveMode c) then _ ← pagerUnlockDb SHARED_LOCK; mret () else mret ());
          mret rc);
  if negb (rc =? SQLITE_OK) then _ ← pager_error rc; mret rc else
  _ ← assert_ (λ w, eState (pg w) =? PAGER_OPEN);
  _ ← assert_ (λ w, (eLock (pg w) =? SHARED_LOCK) || (exclusiveMode c && (SHARED_LOCK <? eLock (pg w))));
  mret SQLITE_OK.

(** The part after it that drops a cache that is out of date. *)
Definition check_version : sm world Z :=
  c ← sm_get cache;
  if bool_decide (c = ∅) then mret SQLITE_OK else
  '(rc, nPage) ← pagerPagecount;
  if negb (rc =? SQLITE_OK) then mret rc else
  '(rc, v) ← (if 0 <? nPage then sqlite3OsRead Fd 16 24 else mret (SQLITE_OK, replicate 16 0));
  if negb (rc =? SQLITE_OK) && negb (rc =? SQLITE_IOERR_SHORT_READ) then mret rc else
  old ← field dbFileVers;
  _ ← (if bool_decide (old = v) then mret () else pager_reset);
  mret SQLITE_OK.

Definition shared_lock : sm world Z :=
  rc ← pager_wait_on_lock SHARED_LOCK;
  if negb (rc =? SQLITE_OK) then
    _ ← assert_ (λ w, (eLock (pg w) =? NO_LOCK) || (eLock (pg w) =? UNKNOWN_LOCK));
    mret rc
  else
  l ← field eLock;
  '(rc, hot) ← (if l <=? SHARED_LOCK then hasHotJournal else mret (SQLITE_OK, true));
  if negb (rc =? SQLITE_OK) then mret rc else
  rc ← (if (hot : bool) then rollback_hot else mret SQLITE_OK);
  if negb (rc =? SQLITE_OK) then mret rc else
  rc ← check_version;
  if negb (rc =? SQLITE_OK) then mret rc else
  os_call SQLITE_IOERR_ACCESS.

Definition sqlite3PagerSharedLock : sm world Z :=
  _ ← assert_ (λ w, bool_decide (refs w = ∅));
  _ ← assert_ (λ w, (eState (pg w) =? PAGER_OPEN) || (eState (pg w) =? PAGER_READER));
  s ← field eState;
  rc ← (if s =? PAGER_OPEN then shared_lock else mret SQLITE_OK);
  s ← field eState;
  rc ← (if (s =? PAGER_OPEN) && (rc =? SQLITE_OK) then
          '(rc, n) ← pagerPagecount;
          _ ← (if rc =? SQLITE_OK then assign (set_dbSize n) else mret ());
          mret rc
        else mret rc);
  if negb (rc =? SQLITE_OK) then
    _ ← pager_unlock;
    _ ← assert_ (λ w, eState (pg w) =? PAGER_OPEN);
    mret rc
  else
    _ ← assign (set_eState PAGER_READER);
    mret rc.
