(* ===== verification/PgJournal.v ===== *)
(** * The journal: its layout and reading it

    What a rollback journal contains, as a list of chunks (a header and the
    records that follow it), and that playing back a journal with such a content
    puts the content of the records into the database file. *)

From S2P Require Import Prelude Varint Buffer Bitvec PgFile PgImage Pager PgTxn PgHot.
#[local] Open Scope Z_scope.
#[local] Open Scope c_scope.
#[local] Open Scope list_scope.

(** ** Running the code *)

Lemma bind_field {A B} (f : Pager → A) (k : A → sm world B) w : (field f ≫= k) w = k (f (pg w)) w.
Proof. done. Qed.
Lemma bind_setting {A B} (f : settings → A) (k : A → sm world B) w : (setting f ≫= k) w = k (f (cf w)) w.
Proof. done. Qed.
Lemma bind_get {A B} (f : world → A) (k : A → sm world B) w : (sm_get f ≫= k) w = k (f w) w.
Proof. done. Qed.
Lemma bind_mod {B} f (k : () → sm world B) w : (sm_mod f ≫= k) w = k () (f w).
Proof. done. Qed.
Lemma bind_assign {B} f (k : () → sm world B) w : (assign f ≫= k) w = k () (set_pg f w).
Proof. done. Qed.
Lemma bind_ret {A B} (a : A) (k : A → sm world B) w : (mret a ≫= k) w = k a w.
Proof. done. Qed.
Lemma bind_assert {B} b (k : () → sm world B) w : b w = true → (assert_ b ≫= k) w = k () w.
Proof. intros E. unfold assert_, sm_gets, mbind, sm_bind. by rewrite E. Qed.
Lemma bind_gets {A B} (f : world → outcome A) (k : A → sm world B) w a : f w = Ret a → (sm_gets f ≫= k) w = k a w.
Proof. intros E. unfold sm_gets, mbind, sm_bind. by rewrite E. Qed.
Lemma bind_lift {A B} (m : outcome A) (k : A → sm world B) w a : m = Ret a → (sm_lift m ≫= k) w = k a w.
Proof. intros E. by apply bind_gets. Qed.
Lemma bind_assoc {A B C} (m : sm world A) (k : A → sm world B) (l : B → sm world C) w :
  ((m ≫= k) ≫= l) w = (m ≫= (λ a, k a ≫= l)) w.
Proof. unfold mbind, sm_bind. by destruct (m w) as [[]|]. Qed.

(** The run returns, with [Q]. *)
Definition returns {A} (r : outcome (A * world)) (Q : A → world → Prop) : Prop := ∃ a w, r = Ret (a, w) ∧ Q a w.

Lemma returns_ret {A} (a : A) w (Q : A → world → Prop) : Q a w → returns (Ret (a, w)) Q.
Proof. intros H. by exists a, w. Qed.
Lemma returns_mret {A} (a : A) w (Q : A → world → Prop) : Q a w → returns (mret (M := sm world) a w) Q.
Proof. apply returns_ret. Qed.
Lemma returns_bind {A B} (m : sm world A) (k : A → sm world B) w Q R :
  returns (m w) R → (∀ a w', R a w' → returns (k a w') Q) → returns ((m ≫= k) w) Q.
Proof. intros (a & w' & E & H) Hk. rewrite (sm_bind_run _ _ _ _ _ E). by apply Hk. Qed.

(** Run what needs no fact about the state. *)
Ltac prun := repeat first [rewrite bind_field | rewrite bind_setting | rewrite bind_get | rewrite bind_mod | rewrite bind_assign | rewrite bind_ret | rewrite bind_assoc].
(** Decide a condition of the code with linear arithmetic. *)
Ltac zbool := repeat match goal with
  | |- context [?a <? ?b] => first [rewrite (proj2 (Z.ltb_lt a b)) by lia | rewrite (proj2 (Z.ltb_ge a b)) by lia]
  | |- context [?a <=? ?b] => first [rewrite (proj2 (Z.leb_le a b)) by lia | rewrite (proj2 (Z.leb_gt a b)) by lia]
  | |- context [?a =? ?b] => first [rewrite (proj2 (Z.eqb_eq a b)) by lia | rewrite (proj2 (Z.eqb_neq a b)) by lia]
  end; cbn [andb orb negb].

(** A result code that is SQLITE_OK. *)
Ltac okb := cbv beta iota; change (SQLITE_OK =? SQLITE_OK) with true; cbn [negb andb orb]; cbv iota.

(** Decisions that are known. *)
Ltac decided := repeat match goal with
  | |- context [bool_decide ?P] => first [rewrite (bool_decide_eq_true_2 P) by done | rewrite (bool_decide_eq_false_2 P) by done]
  end; cbn [negb andb orb]; cbv iota.

(** ** Calls that succeed *)

Section Success.
Context (w : world) (He : events (en w) = []).

Lemma next_answer_ok : next_answer w = Ret (Done 0, w).
Proof. unfold next_answer. by rewrite He. Qed.

Lemma os_call_ok err : os_call err w = Ret (SQLITE_OK, w).
Proof. unfold os_call, mbind, sm_bind. by rewrite next_answer_ok. Qed.

Lemma OsRead_ok h f amt off : the_file h w = Ret f → 0 ≤ amt → 0 ≤ off → off + amt ≤ zlen (now f) →
  sqlite3OsRead h amt off w = Ret ((SQLITE_OK, slice (now f) off amt), w).
Proof.
  intros Hf Ha Ho Hl. unfold sqlite3OsRead. rewrite (bind_gets _ _ _ f) by done. erewrite sm_bind_run by apply next_answer_ok.
  cbn [answer_rc]. okb. rewrite (proj2 (Z.ltb_ge off 0)) by lia.
  rewrite slice_length by lia. by rewrite (proj2 (Z.ltb_ge _ _)) by lia.
Qed.

Lemma OsRead_short h f amt off : the_file h w = Ret f → 0 < amt → 0 ≤ off → zlen (now f) < off + amt →
  sqlite3OsRead h amt off w = Ret ((SQLITE_IOERR_SHORT_READ, slice (now f) off amt ++ replicate (Z.to_nat amt - length (slice (now f) off amt)) 0), w).
Proof.
  intros Hf Ha Ho Hl. unfold sqlite3OsRead. rewrite (bind_gets _ _ _ f) by done. erewrite sm_bind_run by apply next_answer_ok.
  cbn [answer_rc]. okb. rewrite (proj2 (Z.ltb_ge off 0)) by lia.
  rewrite (proj2 (Z.ltb_lt _ _)); [done|]. unfold slice. rewrite length_take, length_drop. lia.
Qed.

Lemma OsFileSize_ok h f : the_file h w = Ret f → sqlite3OsFileSize h w = Ret ((SQLITE_OK, zlen (now f)), w).
Proof. intros Hf. unfold sqlite3OsFileSize. rewrite (bind_gets _ _ _ f) by done. by erewrite sm_bind_run by apply os_call_ok. Qed.

Lemma OsWrite_ok h f a off : the_file h w = Ret f → sqlite3OsWrite h a off w = Ret (SQLITE_OK, set_dk (set_file h (file_write off a f)) w).
Proof.
  intros Hf. unfold sqlite3OsWrite. erewrite sm_bind_run by apply next_answer_ok. cbn [answer_rc].
  unfold change_file. rewrite bind_assoc. by rewrite (bind_gets _ _ _ f) by done.
Qed.

Lemma OsTruncate_ok h f n : the_file h w = Ret f → sqlite3OsTruncate h n w = Ret (SQLITE_OK, set_dk (set_file h (file_truncate n f)) w).
Proof.
  intros Hf. unfold sqlite3OsTruncate. rewrite (bind_gets _ _ _ f) by done. erewrite sm_bind_run by apply os_call_ok.
  okb. unfold change_file. rewrite bind_assoc. by rewrite (bind_gets _ _ _ f) by done.
Qed.

Lemma read32_ok h f off v : the_file h w = Ret f → 0 ≤ off → off + 4 ≤ zlen (now f) → 0 ≤ v < 2 ^ 32 →
  slice (now f) off 4 = sqlite3Put4byte v → read32bits h off w = Ret ((SQLITE_OK, v), w).
Proof.
  intros Hf Ho Hl Hv E. unfold read32bits. erewrite sm_bind_run by (eapply OsRead_ok; [done|lia..]).
  okb. rewrite E. rewrite (bind_lift _ _ _ v); [done|].
  unfold sqlite3Get4byte. simpl. by rewrite byte4.
Qed.
End Success.

(** Some value is read where there are four bytes. *)
Lemma get4_slice l off : bytes_ok l → 0 ≤ off → off + 4 ≤ zlen l → ∃ v, sqlite3Get4byte (slice l off 4) = Ret v.
Proof.
  intros Hb Ho Hl. assert (length (slice l off 4) = 4%nat) as E by (rewrite slice_length; lia).
  destruct (slice l off 4) as [|a [|b [|c [|d []]]]]; try discriminate E. eexists. reflexivity.
Qed.

(** ** The layout *)

(** Rounding up to a multiple. *)
Lemma round_up_spec m c : 0 < m → 0 ≤ c → c ≤ round_up m c < c + m ∧ Z.divide m (round_up m c).
Proof.
  intros Hm Hc. unfold round_up. destruct (Z.eqb_spec c 0) as [->|H]; [split; [lia|by exists 0]|].
  pose proof (Z.div_mod (c - 1) m). pose proof (Z.mod_pos_bound (c - 1) m). split; [nia|]. by exists ((c - 1) / m + 1).
Qed.

Lemma round_up_mult m c : 0 < m → 0 ≤ c → Z.divide m c → round_up m c = c.
Proof.
  intros Hm Hc [k ->]. destruct (round_up_spec m (k * m) Hm Hc) as [H1 [j E]]. rewrite E in *. f_equal. nia.
Qed.

Lemma cksum_loop_total fuel d i c : i ≤ 200 * Z.of_nat fuel → i < zlen d → in_uw 32 c →
  ∃ v, cksum_loop fuel d i c = Ret v ∧ in_uw 32 v.
Proof.
  revert i c. induction fuel as [|fuel IH]; intros i c Hi Hl Hc; cbn [cksum_loop]; destruct (Z.ltb_spec 0 i); [lia|by exists c| |by exists c].
  rewrite byte_at_ok by lia. cbn [mbind outcome_bind]. apply IH; [lia..|]. apply uw_range. lia.
Qed.

Definition page_cksum (sz init : Z) (d : list Z) : Z :=
  match cksum_loop (Z.to_nat (sz / 200)) d (sz - 200) init with Ret c => c | Undef _ => 0 end.

Lemma pager_cksum_ok p d : 0 < pageSize p → zlen d = pageSize p → in_uw 32 (cksumInit p) →
  pager_cksum p d = Ret (page_cksum (pageSize p) (cksumInit p) d) ∧ in_uw 32 (page_cksum (pageSize p) (cksumInit p) d).
Proof.
  intros H0 Hl Hi. unfold pager_cksum, page_cksum.
  destruct (cksum_loop_total (Z.to_nat (pageSize p / 200)) d (pageSize p - 200) (cksumInit p)) as (v & -> & Hv); [|lia|done|done].
  pose proof (Z.div_mod (pageSize p) 200). pose proof (Z.mod_pos_bound (pageSize p) 200). lia.
Qed.

Record chunk := Chunk { c_init : Z; c_recs : list (Z * list Z) }.

Section Layout.
Context (sz ss n : Z).

Definition rec_bytes (init : Z) (r : Z * list Z) : list Z :=
  sqlite3Put4byte r.1 ++ r.2 ++ sqlite3Put4byte (page_cksum sz init r.2).

Definition header_at (l : list Z) (h : Z) (first : list Z) (init : Z) : Prop :=
  h + ss ≤ zlen l ∧ slice l h 28 = header_bytes first init n ss sz.

Definition records_at (l : list Z) (off init : Z) (rs : list (Z * list Z)) : Prop :=
  ∀ i r, rs !! i = Some r →
    off + (Z.of_nat i + 1) * (sz + 8) ≤ zlen l ∧ slice l (off + Z.of_nat i * (sz + 8)) (sz + 8) = rec_bytes init r.

(** The end of a chunk, and where the next header is. *)
Definition chunk_end (h : Z) (rs : list (Z * list Z)) : Z := h + ss + zlen rs * (sz + 8).
Definition chunk_next (h : Z) (c : chunk) : Z := round_up ss (chunk_end h (c_recs c)).

Definition chunk_at (l : list Z) (h : Z) (c : chunk) : Prop :=
  in_uw 32 (c_init c) ∧ zlen (c_recs c) < 0xffffffff ∧
  header_at l h (aJournalMagic ++ sqlite3Put4byte (zlen (c_recs c))) (c_init c) ∧ records_at l (h + ss) (c_init c) (c_recs c).

Fixpoint chunks_at (l : list Z) (h : Z) (cs : list chunk) : Prop :=
  match cs with
  | [] => True
  | c :: cs' => chunk_at l h c ∧ chunks_at l (chunk_next h c) cs'
  end.

Definition chunks_next (h : Z) (cs : list chunk) : Z := foldl chunk_next h cs.

Definition no_header (l : list Z) (h : Z) : Prop := slice l h 8 ≠ aJournalMagic.

(** The records of a journal. *)
Definition all_recs (cs : list chunk) : list (Z * list Z) := cs ≫= c_recs.
End Layout.

(** ** A record *)

(** Page sizes and sector sizes. *)
Definition size_between (a s : Z) : Prop := a ≤ s ≤ 65536 ∧ (s - 1) .& s = 0.

(** A pager that plays back the journal [f]. *)
Record hot (f : file) (w : world) : Prop := {
  hot_events : events (en w) = [];
  hot_memory : memory (en w) = [];
  hot_state : eState (pg w) = PAGER_OPEN;
  hot_lock : eLock (pg w) = EXCLUSIVE_LOCK;
  hot_err : errCode (pg w) = SQLITE_OK;
  hot_cache : cache w = ∅;
  hot_refs : refs w = ∅;
  hot_open : jopen (pg w) = true;
  hot_jrn : jrn (dk w) = Some f;
  hot_hdr : journalHdr (pg w) = zlen (now f);
  hot_in : pInJournal (pg w) = None;
  hot_reserve : 0 ≤ nReserve (pg w) < 1000;
  hot_excl : exclusiveMode (cf w) = false }.

(** What playing back leaves alone. *)
Record same_run (w w' : world) : Prop := {
  sr_size : pageSize (pg w') = pageSize (pg w);
  sr_sector : sectorSize (pg w') = sectorSize (pg w);
  sr_init : cksumInit (pg w') = cksumInit (pg w);
  sr_db : dbSize (pg w') = dbSize (pg w);
  sr_cf : cf w' = cf w }.

#[global] Instance same_run_refl : Reflexive same_run.
Proof. by split. Qed.
#[global] Instance same_run_trans : Transitive same_run.
Proof. intros x y z [] []. split; congruence. Qed.

Lemma hot_file f w : hot f w → the_file Jfd w = Ret f.
Proof. intros H. unfold the_file. by rewrite (hot_open _ _ H), (hot_jrn _ _ H). Qed.

(** The effect of a record on the database file. *)
Definition play (sz mx : Z) (f : list Z) (r : Z * list Z) : list Z :=
  if mx <? r.1 then f else write_at f (Z.to_nat (page_offset sz r.1)) r.2.

(** A record that can be played back. *)
Definition rec_ok (sz : Z) (r : Z * list Z) : Prop :=
  1 ≤ r.1 < 2 ^ 31 ∧ r.1 ≠ PENDING_BYTE / sz + 1 ∧ zlen r.2 = sz ∧ bytes_ok r.2.

(** The parts of a slice. *)
Lemma slice_slice l o m a b : 0 ≤ o → 0 ≤ a → 0 ≤ b → a + b ≤ m → slice (slice l o m) a b = slice l (o + a) b.
Proof.
  intros Ho Ha Hb Hm. unfold slice. rewrite skipn_firstn_comm, firstn_firstn, drop_drop. f_equal; [|f_equal]; lia.
Qed.

Lemma slice_app_l a b k m : 0 ≤ k → 0 ≤ m → k + m ≤ zlen a → slice (a ++ b) k m = slice a k m.
Proof.
  intros Hk Hm Hl. unfold slice. rewrite drop_app_le, take_app_le by (rewrite ?length_drop; lia). done.
Qed.
Lemma slice_app_r a b k m : zlen a ≤ k → slice (a ++ b) k m = slice b (k - zlen a) m.
Proof. intros Hk. unfold slice. rewrite drop_app_ge by lia. do 2 f_equal. lia. Qed.
Lemma slice_all a m : zlen a = m → slice a 0 m = a.
Proof. intros H. unfold slice. rewrite drop_0. apply take_ge. lia. Qed.

Section Records.
Context (sz init : Z) (Hsz : 0 < sz) (Hinit : in_uw 32 init).

Lemma put4_length v : length (sqlite3Put4byte v) = 4%nat.
Proof. done. Qed.

Lemma rec_bytes_length r : zlen r.2 = sz → zlen (rec_bytes sz init r) = sz + 8.
Proof. intros H. unfold rec_bytes. rewrite !length_app, !put4_length. lia. Qed.

(** The fields of a record. *)
Lemma rec_fields l off r : 0 ≤ off → zlen r.2 = sz → slice l off (sz + 8) = rec_bytes sz init r →
  slice l off 4 = sqlite3Put4byte r.1 ∧ slice l (off + 4) sz = r.2 ∧ slice l (off + 4 + sz) 4 = sqlite3Put4byte (page_cksum sz init r.2).
Proof.
  intros Ho Hl E.
  assert (∀ a b, 0 ≤ a → 0 ≤ b → a + b ≤ sz + 8 → slice l (off + a) b = slice (rec_bytes sz init r) a b) as H.
  { intros a b Ha Hb Hab. rewrite <- E. by rewrite slice_slice by lia. }
  split_and!.
  - replace (slice l off 4) with (slice l (off + 0) 4) by (f_equal; lia). rewrite H by lia. unfold rec_bytes. rewrite slice_app_l by (rewrite ?put4_length; lia). by apply slice_all.
  - rewrite H by lia. unfold rec_bytes. rewrite slice_app_r by (rewrite put4_length; lia). rewrite put4_length. rewrite slice_app_l by lia. apply slice_all. lia.
  - rewrite <- Z.add_assoc, H by lia. unfold rec_bytes. rewrite slice_app_r by (rewrite put4_length; lia). rewrite slice_app_r by (rewrite put4_length; lia).
    rewrite put4_length. replace (4 + sz - Z.of_nat 4 - zlen r.2) with 0 by lia. by apply slice_all.
Qed.

(** Restoring a page that is not in the cache. *)
Lemma restore_hot f w off g d : hot f w → pageSize (pg w) = sz → 512 ≤ sz → zlen d = sz → bytes_ok d → off ≤ zlen (now f) →
  returns (restore_page true false off g d w) (λ rc w', rc = SQLITE_OK ∧ hot f w' ∧ same_run w w' ∧
    journalOff (pg w') = journalOff (pg w) ∧ now (db (dk w')) = write_at (now (db (dk w))) (Z.to_nat (page_offset sz g)) d).
Proof.
  intros Hw Hs H512 Hd Hb Ho. unfold restore_page.
  rewrite (bind_lift _ _ _ (if g =? 1 then at8 d 20 else 0)) by (destruct (g =? 1); [apply byte_at_ok; lia|done]).
  set (f1 := λ p, if g =? 1 then set_nReserve (if g =? 1 then at8 d 20 else 0) p else p).
  rewrite (sm_bind_run _ _ w () (set_pg f1 w)) by (unfold f1; destruct (g =? 1); [done|by destruct w]).
  set (w1 := set_pg f1 w). assert (hot f w1) as Hw1.
  { destruct Hw. unfold w1, f1. destruct (g =? 1); split; cbn; try done. pose proof (at8_byte d 20 Hb). lia. }
  assert (same_run w w1) as Hsr by (unfold w1, f1; destruct (g =? 1); by split).
  assert (pageSize (pg w1) = sz) as Hs1 by (by rewrite (sr_size _ _ Hsr)).
  rewrite bind_get, (hot_cache _ _ Hw1), lookup_empty. rewrite bind_assert by (rewrite (hot_state _ _ Hw1); done). prun.
  rewrite (hot_hdr _ _ Hw1), (proj2 (Z.leb_le off _)) by done. rewrite orb_true_r. unfold writes_db. rewrite (hot_state _ _ Hw1). cbn [andb orb Z.leb Z.eqb Z.compare].
  change ((PAGER_WRITER_DBMOD <=? PAGER_OPEN) || (PAGER_OPEN =? PAGER_OPEN)) with true. cbn [andb]. rewrite bind_assoc.
  erewrite sm_bind_run by (eapply (OsWrite_ok w1 (hot_events _ _ Hw1) Fd); reflexivity). prun.
  set (w2 := set_pg _ _). assert (cache w2 = ∅) as E2 by apply Hw1. rewrite E2, lookup_empty. apply returns_mret.
  assert (en w2 = en w1 ∧ refs w2 = refs w1 ∧ cf w2 = cf w1 ∧ dk w2 = set_db (file_write (page_offset (pageSize (pg w1)) g) d (db (dk w1))) (dk w1)) as (F1 & F2 & F3 & F4) by done.
  assert (pg w2 = pg w1 ∨ pg w2 = set_dbFileSize g (pg w1)) as Hp by (unfold w2; cbn; case_match; [by right|by left]). clearbody w2.
  assert (journalOff (pg w1) = journalOff (pg w)) as Hj by (unfold w1, f1; cbn; by destruct (g =? 1)).
  assert (dk w1 = dk w) as Hdk by done. clearbody w1. destruct Hw1.
  split_and!; [done|split; rewrite ?F1, ?F2, ?F3, ?F4; destruct Hp as [Hp|Hp]; rewrite ?Hp; done|etrans; [exact Hsr|]; split; rewrite ?F3; destruct Hp as [Hp|Hp]; rewrite ?Hp; done| |].
  - destruct Hp as [Hp|Hp]; rewrite ?Hp; done.
  - rewrite F4. cbn [db set_db]. by rewrite now_write, Hs1, Hdk.
Qed.

(** Playing back a record. *)
Lemma playback_record f w off r : hot f w → pageSize (pg w) = sz → cksumInit (pg w) = init → rec_ok sz r → 512 ≤ sz →
  0 ≤ off → off + (sz + 8) ≤ zlen (now f) → slice (now f) off (sz + 8) = rec_bytes sz init r →
  returns (pager_playback_one_page off None true false w) (λ a w', a = (SQLITE_OK, off + (sz + 8), None) ∧ hot f w' ∧ same_run w w' ∧
    journalOff (pg w') = journalOff (pg w) ∧ now (db (dk w')) = play sz (dbSize (pg w)) (now (db (dk w))) r).
Proof.
  intros Hw Hs Hi (Hg & Hmj & Hd & Hb) H512 Ho Hl E. destruct (rec_fields _ _ _ Ho Hd E) as (E1 & E2 & E3).
  unfold pager_playback_one_page. rewrite !bind_assert by (cbn; rewrite ?(hot_state _ _ Hw), ?(hot_lock _ _ Hw); done).
  erewrite sm_bind_run by (eapply (read32_ok w (hot_events _ _ Hw) Jfd f off r.1); [by apply hot_file|lia..|done]). okb. prun. rewrite Hs.
  erewrite sm_bind_run by (eapply (OsRead_ok w (hot_events _ _ Hw) Jfd f); [by apply hot_file|lia..]). okb.
  unfold PAGER_MJ_PGNO. rewrite Hs. rewrite (proj2 (Z.eqb_neq r.1 0)), (proj2 (Z.eqb_neq r.1 (PENDING_BYTE / sz + 1))) by (done || lia). cbn [orb].
  rewrite E2. unfold bitvec_test. rewrite (bind_lift _ _ _ false) by done. rewrite orb_false_r. replace (off + (sz + 4 + 4)) with (off + (sz + 8)) by lia.
  unfold play. destruct (dbSize (pg w) <? r.1).
  { by apply returns_mret. }
  destruct (pager_cksum_ok (pg w) r.2) as [Ec Hc]; [lia|lia|by rewrite Hi|]. rewrite Hs, Hi in Ec, Hc.
  assert (read32bits Jfd (off + (sz + 8) - 4) w = Ret ((SQLITE_OK, page_cksum sz init r.2), w)) as Er.
  { apply (read32_ok w (hot_events _ _ Hw) Jfd f); [by apply hot_file|lia|lia|exact Hc|]. rewrite <- E3. f_equal. lia. }
  rewrite bind_assoc, (sm_bind_run _ _ _ _ _ Er). okb. prun. rewrite (bind_gets _ _ _ _ Ec). prun.
  rewrite Z.eqb_refl. okb. unfold bitvec_set. rewrite (sm_bind_run _ _ w (SQLITE_OK, None) w) by (cbn; f_equal; f_equal; by destruct w as [???[]]). okb.
  eapply returns_bind; [by apply (restore_hot f w (off + (sz + 8)) r.1 r.2)|]. intros rc w' (-> & H1 & H2 & H3 & H4). by apply returns_mret.
Qed.

End Records.

Lemma hot_reset f w : hot f w → returns (pager_reset w) (λ _ w', hot f w' ∧ pg w' = pg w ∧ dk w' = dk w ∧ cf w' = cf w).
Proof.
  intros Hw. unfold pager_reset, sqlite3PcacheClear, sqlite3PcacheTruncate. apply returns_ret.
  assert (cache_truncate (pageSize (pg w)) 0 (refs w) (cache w) = ∅) as E.
  { unfold cache_truncate. rewrite (hot_refs _ _ Hw), (hot_cache _ _ Hw), bool_decide_eq_false_2 by set_solver. cbn [andb]. apply map_filter_empty. }
  split_and!; [|done..]. destruct Hw. by split.
Qed.

Lemma hot_assign f g w : hot f w → eState (g (pg w)) = eState (pg w) → eLock (g (pg w)) = eLock (pg w) → errCode (g (pg w)) = errCode (pg w) →
  jopen (g (pg w)) = jopen (pg w) → journalHdr (g (pg w)) = journalHdr (pg w) → pInJournal (g (pg w)) = pInJournal (pg w) →
  nReserve (g (pg w)) = nReserve (pg w) → hot f (set_pg g w).
Proof. intros [] H1 H2 H3 H4 H5 H6 H7. split; cbn; rewrite ?H1, ?H2, ?H3, ?H4, ?H5, ?H6, ?H7; done. Qed.

Section Records.
Context (sz init : Z) (Hsz : 512 ≤ sz) (Hinit : in_uw 32 init).

Lemma records_hot f rs : ∀ fuel u n reset w, hot f w → pageSize (pg w) = sz → cksumInit (pg w) = init →
  Forall (rec_ok sz) rs → 0 ≤ journalOff (pg w) → records_at sz (now f) (journalOff (pg w)) init rs → u + zlen rs = n → (length rs ≤ fuel)%nat →
  returns (records_loop fuel u n reset w) (λ a w', a.1 = Finished ∧ hot f w' ∧ same_run w w' ∧
    journalOff (pg w') = journalOff (pg w) + zlen rs * (sz + 8) ∧ now (db (dk w')) = foldl (play sz (dbSize (pg w))) (now (db (dk w))) rs).
Proof.
  induction rs as [|r rs IH]; intros fuel u n reset w Hw Hs Hi Hok H0 Hat Hu Hf.
  { cbn in Hu. destruct fuel; cbn [records_loop]; rewrite (proj2 (Z.ltb_ge u n)) by lia; apply returns_mret; cbn [length foldl fst]; split_and!; try done; lia. }
  cbn [length] in Hu, Hf. destruct fuel as [|fuel]; [lia|]. cbn [records_loop]. rewrite (proj2 (Z.ltb_lt u n)) by lia.
  apply list.Forall_cons in Hok as [Hr Hok]. destruct (Hat 0%nat r eq_refl) as [Hl E].
  eapply returns_bind with (R := λ _ w', hot f w' ∧ pg w' = pg w ∧ dk w' = dk w ∧ cf w' = cf w).
  { destruct reset; [by apply hot_reset|]. by apply returns_mret. }
  intros _ w1 (Hw1 & Ep & Ed & Ec). prun. rewrite Ep.
  eapply returns_bind; [apply (playback_record sz init ltac:(lia) Hinit f w1 (journalOff (pg w)) r); rewrite ?Ep; try done; [lia|]|].
  { rewrite <- E. f_equal. lia. }
  intros ? w2 (-> & Hw2 & Hsr & Hj & Hdb). prun. okb. set (w3 := set_pg _ w2).
  assert (hot f w3) as Hw3 by (by apply hot_assign). assert (same_run w w3) as Hs3.
  { destruct Hsr as [S1 S2 S3 S4 S5]. split; cbn; congruence. }
  assert (journalOff (pg w3) = journalOff (pg w) + (sz + 8)) as Hj3 by done.
  assert (now (db (dk w3)) = play sz (dbSize (pg w)) (now (db (dk w))) r) as Hdb3 by (unfold w3; cbn; by rewrite Hdb, Ep, Ed).
  clearbody w3. apply (IH fuel (u + 1) n false w3) in Hw3; [|by rewrite (sr_size _ _ Hs3)|by rewrite (sr_init _ _ Hs3)|done|lia| |lia|lia].
  - destruct Hw3 as (a & w4 & E4 & Ha & Hw4 & Hs4 & Hj4 & Hdb4). exists a, w4. split; [done|]. split_and!; [done|done|by etrans| |].
    + rewrite Hj4, Hj3. cbn [length]. lia.
    + rewrite Hdb4, Hdb3. cbn [foldl]. by rewrite (sr_db _ _ Hs3).
  - intros i r' Hr'. destruct (Hat (S i) r' Hr') as [H1 H2]. rewrite Hj3. split; [lia|]. rewrite <- H2. f_equal. lia.
Qed.
End Records.

(** ** A header *)

Lemma header_fields l h first init n ss sz : 0 ≤ h → length first = 12%nat → slice l h 28 = header_bytes first init n ss sz →
  slice l h 8 = take 8 first ∧ slice l (h + 8) 4 = drop 8 first ∧ slice l (h + 12) 4 = sqlite3Put4byte init ∧ slice l (h + 16) 4 = sqlite3Put4byte n ∧
  slice l (h + 20) 4 = sqlite3Put4byte ss ∧ slice l (h + 24) 4 = sqlite3Put4byte sz.
Proof.
  intros Hh Hf E. assert (∀ a b, 0 ≤ a → 0 ≤ b → a + b ≤ 28 → slice l (h + a) b = slice (header_bytes first init n ss sz) a b) as H.
  { intros a b Ha Hb Hab. rewrite <- E. by rewrite slice_slice by lia. }
  do 13 (destruct first as [|? first]; [try discriminate Hf|]); [|discriminate Hf].
  replace (slice l h 8) with (slice l (h + 0) 8) by (f_equal; lia). by rewrite !H by lia.
Qed.

(** Valid sizes pass the test of the code. *)
Lemma size_test sz ss : size_between 512 sz → size_between 32 ss →
  (sz <? 512) || (ss <? 32) || (SQLITE_MAX_PAGE_SIZE <? sz) || (MAX_SECTOR_SIZE <? ss) || negb ((sz - 1) .& sz =? 0) || negb ((ss - 1) .& ss =? 0) = false.
Proof.
  unfold size_between, SQLITE_MAX_PAGE_SIZE, MAX_SECTOR_SIZE. intros [H1 ->] [H2 ->]. change 0x10000 with 65536. by zbool.
Qed.

Section Header.
Context (sz ss n k init : Z) (f : file).
Hypothesis (Hsz : size_between 512 sz) (Hss : size_between 32 ss) (Hn : in_uw 32 n) (Hk : in_uw 32 k) (Hinit : in_uw 32 init).

Lemma SetPagesize_hot w : hot f w →
  returns (sqlite3PagerSetPagesize sz w) (λ rc w', rc = SQLITE_OK ∧ hot f w' ∧ pageSize (pg w') = sz ∧ dk w' = dk w ∧ cf w' = cf w ∧
    journalOff (pg w') = journalOff (pg w) ∧ cksumInit (pg w') = cksumInit (pg w)).
Proof.
  intros Hw. unfold sqlite3PagerSetPagesize. destruct Hsz as [Hb _].
  rewrite bind_assert by (unfold SQLITE_MAX_PAGE_SIZE; by zbool). prun. rewrite (hot_refs _ _ Hw), bool_decide_eq_true_2 by done.
  rewrite (proj2 (Z.eqb_neq sz 0)) by lia. cbn [andb negb]. rewrite (hot_state _ _ Hw).
  eapply returns_bind with (R := λ rc w', rc = SQLITE_OK ∧ hot f w' ∧ pageSize (pg w') = sz ∧ dk w' = dk w ∧ cf w' = cf w ∧
    journalOff (pg w') = journalOff (pg w) ∧ cksumInit (pg w') = cksumInit (pg w)).
  - destruct (Z.eqb_spec sz (pageSize (pg w))); [by apply returns_mret|]. cbn [negb]. change (PAGER_OPEN <? PAGER_OPEN) with false. cbv iota. prun. okb.
    unfold sqlite3_malloc. rewrite (sm_bind_run _ _ w true (set_en (set_memory []) w)) by (by rewrite (hot_memory _ _ Hw)).
    cbn [negb]. set (w1 := set_en _ w). assert (hot f w1) as Hw1 by (destruct Hw; by split).
    eapply returns_bind; [by apply (hot_reset f)|]. intros _ w2 (Hw2 & E1 & E2 & E3). prun. apply returns_mret.
    split_and!; cbn; try done; [by apply hot_assign|by rewrite E1|by rewrite E1].
  - intros rc w' (-> & Hw' & H). okb. rewrite bind_assert by (pose proof (hot_reserve _ _ Hw'); by zbool). by apply returns_mret.
Qed.

(** Reading a header: at the beginning of the journal, which determines the sizes,
    or behind a chunk. *)
Lemma readJournalHdr_hot w h : hot f w → journalHdrOffset (pg w) = h → 0 ≤ h → header_at sz ss n (now f) h (aJournalMagic ++ sqlite3Put4byte k) init →
  (h = 0 ∧ sectorSize (pg w) ≤ ss) ∨ (0 < h ∧ pageSize (pg w) = sz ∧ sectorSize (pg w) = ss) →
  returns (readJournalHdr true (zlen (now f)) w) (λ a w', a = (SQLITE_OK, k, n) ∧ hot f w' ∧ pageSize (pg w') = sz ∧ sectorSize (pg w') = ss ∧
    cksumInit (pg w') = init ∧ journalOff (pg w') = h + ss ∧ (0 < h → dbSize (pg w') = dbSize (pg w)) ∧ dk w' = dk w ∧ cf w' = cf w).
Proof.
  intros Hw Eh Hh [Hl E] Hcase. pose proof (proj1 Hss) as Hss1. unfold readJournalHdr. rewrite bind_assert by (apply Hw). prun.
  set (w1 := set_pg _ w). assert (hot f w1) as Hw1 by (by apply hot_assign). assert (journalOff (pg w1) = h) as Ej by done.
  assert (pageSize (pg w1) = pageSize (pg w) ∧ sectorSize (pg w1) = sectorSize (pg w) ∧ dbSize (pg w1) = dbSize (pg w) ∧ dk w1 = dk w ∧ cf w1 = cf w) as (F1 & F2 & F3 & F4 & F5) by done.
  clearbody w1. rewrite Ej. unfold JOURNAL_HDR_SZ. rewrite (proj2 (Z.ltb_ge (zlen (now f)) _)) by (rewrite F2; lia).
  destruct (header_fields (now f) h (aJournalMagic ++ sqlite3Put4byte k) init n ss sz Hh eq_refl E) as (E8 & Ek & Ei & En & Es & Ep). cbn [orb]. pose proof (hot_events _ _ Hw1) as Hev. pose proof (hot_file _ _ Hw1) as Hf.
  rewrite bind_assoc, (sm_bind_run _ _ _ _ _ (OsRead_ok w1 Hev Jfd f 8 h Hf ltac:(lia) ltac:(lia) ltac:(lia))). okb. prun. rewrite E8.
  rewrite bool_decide_eq_true_2 by done. okb.
  rewrite (sm_bind_run _ _ _ _ _ (read32_ok w1 Hev Jfd f (h + 8) k Hf ltac:(lia) ltac:(lia) Hk Ek)). okb.
  rewrite (sm_bind_run _ _ _ _ _ (read32_ok w1 Hev Jfd f (h + 12) init Hf ltac:(lia) ltac:(lia) Hinit Ei)). okb. prun.
  set (w2 := set_pg _ w1). assert (hot f w2) as Hw2 by (by apply hot_assign). pose proof (hot_events _ _ Hw2) as Hev2. pose proof (hot_file _ _ Hw2) as Hf2.
  assert (cksumInit (pg w2) = init ∧ journalOff (pg w2) = h ∧ pageSize (pg w2) = pageSize (pg w) ∧ sectorSize (pg w2) = sectorSize (pg w) ∧ dbSize (pg w2) = dbSize (pg w) ∧ dk w2 = dk w ∧ cf w2 = cf w)
    as (G1 & G2 & G3 & G4 & G5 & G6 & G7) by done. clearbody w2.
  rewrite (sm_bind_run _ _ _ _ _ (read32_ok w2 Hev2 Jfd f (h + 16) n Hf2 ltac:(lia) ltac:(lia) Hn En)). okb.
  destruct (Z.eqb_spec h 0) as [Hh0|Hh0].
  - pose proof (proj1 Hsz) as Hsz1.
    rewrite bind_assoc, (sm_bind_run _ _ _ _ _ (read32_ok w2 Hev2 Jfd f (h + 20) ss Hf2 ltac:(lia) ltac:(lia) ltac:(lia) Es)). okb.
    rewrite bind_assoc, (sm_bind_run _ _ _ _ _ (read32_ok w2 Hev2 Jfd f (h + 24) sz Hf2 ltac:(lia) ltac:(lia) ltac:(lia) Ep)). okb.
    rewrite (proj2 (Z.eqb_neq sz 0)) by lia. cbv zeta. rewrite size_test by done. rewrite bind_assoc.
    eapply returns_bind; [by apply SetPagesize_hot|]. intros rc w3 (-> & Hw3 & I1 & I2 & I3 & I4 & I5). prun. okb. prun. apply returns_mret.
    split_and!; cbn; try congruence; try (unfold JOURNAL_HDR_SZ; cbn; lia). by repeat apply hot_assign.
  - prun. okb. prun. apply returns_mret. destruct Hcase as [?|(? & C1 & C2)]; [lia|]. split_and!; cbn; try congruence; try (by apply hot_assign).
Qed.
End Header.

(** No header: the end of the journal. *)
Lemma readJournalHdr_none f w h : hot f w → journalHdrOffset (pg w) = h → 0 ≤ h → 8 ≤ sectorSize (pg w) → no_header (now f) h →
  returns (readJournalHdr true (zlen (now f)) w) (λ a w', a.1.1 = SQLITE_DONE ∧ hot f w' ∧ dk w' = dk w ∧ cf w' = cf w).
Proof.
  intros Hw Eh Hh Hs8 Hno. unfold readJournalHdr. rewrite bind_assert by (apply Hw). prun.
  set (w1 := set_pg _ w). assert (hot f w1) as Hw1 by (by apply hot_assign).
  assert (journalOff (pg w1) = h ∧ sectorSize (pg w1) = sectorSize (pg w) ∧ dk w1 = dk w ∧ cf w1 = cf w) as (Ej & Es & F1 & F2) by done.
  clearbody w1. rewrite Ej. unfold JOURNAL_HDR_SZ. destruct (zlen (now f) <? h + sectorSize (pg w1)) eqn:El; [by apply returns_mret|]. apply Z.ltb_ge in El. cbn [orb].
  pose proof (hot_events _ _ Hw1) as Hev. pose proof (hot_file _ _ Hw1) as Hf.
  rewrite bind_assoc, (sm_bind_run _ _ _ _ _ (OsRead_ok w1 Hev Jfd f 8 h Hf ltac:(lia) ltac:(lia) ltac:(lia))). okb. prun.
  rewrite bool_decide_eq_false_2 by done. by apply returns_mret.
Qed.

(** ** Playing back a journal *)

Lemma pager_truncate_hot f w sz n : hot f w → pageSize (pg w) = sz → 0 ≤ sz * n ≤ zlen (now (db (dk w))) →
  returns (pager_truncate n w) (λ rc w', rc = SQLITE_OK ∧ hot f w' ∧ same_run w w' ∧ journalOff (pg w') = journalOff (pg w) ∧
    now (db (dk w')) = take (Z.to_nat (sz * n)) (now (db (dk w)))).
Proof.
  intros Hw Hs Hl. unfold pager_truncate. rewrite !bind_assert by (by rewrite (hot_state _ _ Hw)). prun. rewrite (hot_state _ _ Hw).
  change ((PAGER_WRITER_DBMOD <=? PAGER_OPEN) || (PAGER_OPEN =? PAGER_OPEN)) with true. cbv iota. prun.
  rewrite bind_assert by (by rewrite (hot_lock _ _ Hw)). rewrite (sm_bind_run _ _ _ _ _ (OsFileSize_ok w (hot_events _ _ Hw) Fd (db (dk w)) eq_refl)). okb.
  rewrite Hs. destruct (Z.eqb_spec (zlen (now (db (dk w)))) (sz * n)) as [E|E]; cbn [negb].
  - apply returns_mret. split_and!; try done. by rewrite take_ge by lia.
  - rewrite (proj2 (Z.ltb_lt (sz * n) _)) by lia. rewrite (sm_bind_run _ _ _ _ _ (OsTruncate_ok w (hot_events _ _ Hw) Fd (db (dk w)) _ eq_refl)). okb. prun.
    apply returns_mret. split_and!; try done. destruct Hw. by split.
Qed.

Lemma records_fit sz l off init rs : 0 < sz → 0 ≤ off → records_at sz l off init rs → (length rs ≤ length l)%nat.
Proof.
  intros Hs Ho H. destruct (decide (rs = [])) as [->|Hne]; [cbn; lia|].
  destruct (lookup_lt_is_Some_2 rs (length rs - 1)) as [r Hr]; [destruct rs; [done|cbn; lia]|].
  apply H in Hr as [Hl _]. destruct rs; [done|]. cbn [length] in *. nia.
Qed.

Section Chunks.
Context (sz ss n : Z) (f : file).
Hypothesis (Hsz : size_between 512 sz) (Hss : size_between 32 ss) (Hn : in_uw 32 n).

(** What the loop knows before the header at [h]. *)
Definition before_header (w : world) (h : Z) : Prop :=
  hot f w ∧ journalHdrOffset (pg w) = h ∧
  ((h = 0 ∧ 8 ≤ sectorSize (pg w) ≤ ss) ∨ (0 < h ∧ pageSize (pg w) = sz ∧ sectorSize (pg w) = ss ∧ dbSize (pg w) = n)).

(** The database file when the records of a chunk are played back. *)
Definition start_file (h : Z) (l : list Z) : list Z := if h =? 0 then take (Z.to_nat (sz * n)) l else l.

Lemma playback_chunk fuel reset w h c Q : before_header w h → 0 ≤ h → Z.divide ss h → chunk_at sz ss n (now f) h c → Forall (rec_ok sz) (c_recs c) →
  0 ≤ sz * n → (h = 0 → sz * n ≤ zlen (now (db (dk w)))) →
  (∀ reset1 w1, before_header w1 (chunk_next sz ss h c) → cf w1 = cf w →
     now (db (dk w1)) = foldl (play sz n) (start_file h (now (db (dk w)))) (c_recs c) →
     returns (playback_loop fuel true (zlen (now f)) reset1 w1) Q) →
  returns (playback_loop (S fuel) true (zlen (now f)) reset w) Q.
Proof.
  intros (Hw & Eh & Hcase) Hh Hd (Hi & Hk & Hhd & Hrs) Hok Hn0 Hdb K. cbn [playback_loop]. pose proof (proj1 Hsz) as Hsz1. pose proof (proj1 Hss) as Hss1.
  eapply returns_bind; [apply (readJournalHdr_hot sz ss n (zlen (c_recs c)) (c_init c) f Hsz Hss Hn); try done; [unfold in_uw; lia|]|].
  { destruct Hcase as [[? ?]|(? & ? & ? & ?)]; [left; lia|by right]. }
  intros ? w1 (-> & Hw1 & F1 & F2 & F3 & F4 & F5 & F6 & F7). okb. prun. rewrite (proj2 (Z.eqb_neq (zlen (c_recs c)) 0xffffffff)) by lia. prun. cbv zeta.
  rewrite andb_false_r. cbn [andb negb]. unfold JOURNAL_HDR_SZ. rewrite F4, F2.
  eapply returns_bind with (R := λ rc w2, rc = SQLITE_OK ∧ hot f w2 ∧ pageSize (pg w2) = sz ∧ sectorSize (pg w2) = ss ∧ cksumInit (pg w2) = c_init c ∧
    dbSize (pg w2) = n ∧ cf w2 = cf w ∧ journalOff (pg w2) = h + ss ∧ now (db (dk w2)) = start_file h (now (db (dk w)))).
  { unfold start_file. destruct (Z.eqb_spec h 0) as [->|Hne].
    - change (0 + ss) with ss. rewrite Z.eqb_refl. eapply returns_bind; [apply (pager_truncate_hot f w1 sz n); [done..|]; rewrite F6; auto|].
      intros rc w2 (-> & Hw2 & Hsr & G1 & G2). okb. prun. apply returns_mret.
      destruct Hsr as [S1 S2 S3 S4 S5]. split_and!; cbn; try congruence; try lia. by apply hot_assign.
    - rewrite (proj2 (Z.eqb_neq (h + ss) ss)) by lia. apply returns_mret. split_and!; try congruence. rewrite F5 by lia. destruct Hcase as [[? ?]|(? & ? & ? & ?)]; [lia|done]. }
  intros rc w2 (-> & Hw2 & G1 & G2 & G3 & G4 & G5 & G6 & G7). okb.
  eapply returns_bind; [apply (records_hot sz (c_init c) ltac:(lia) Hi f (c_recs c)); try done; [lia|by rewrite G6|]|].
  { rewrite Nat2Z.id. apply (records_fit sz (now f) (h + ss) (c_init c)) in Hrs; lia. }
  intros [e reset2] w3 (Ee & Hw3 & [S1 S2 S3 S4 S5] & Hj & Hdb3). cbn in Ee. rewrite Ee. apply K; [|congruence|by rewrite Hdb3, G7, G4].
  assert (journalHdrOffset (pg w3) = chunk_next sz ss h c) as Eo.
  { unfold journalHdrOffset, chunk_next, chunk_end, JOURNAL_HDR_SZ. by rewrite Hj, S2, G6, G2. }
  split; [done|]. split; [done|]. right. rewrite <- Eo. split_and!; try congruence.
  unfold journalHdrOffset, JOURNAL_HDR_SZ. rewrite S2, G2. destruct (round_up_spec ss (journalOff (pg w3))) as [? _]; [lia|rewrite Hj, G6; nia|]. rewrite Hj, G6 in *. nia.
Qed.

Lemma playback_chunks cs : ∀ fuel reset w h, before_header w h → 0 ≤ h → Z.divide ss h → chunks_at sz ss n (now f) h cs → Forall (rec_ok sz) (all_recs cs) →
  no_header (now f) (chunks_next sz ss h cs) → 0 ≤ sz * n → (h = 0 → cs ≠ [] → sz * n ≤ zlen (now (db (dk w)))) → (length cs < fuel)%nat →
  returns (playback_loop fuel true (zlen (now f)) reset w) (λ rc w', rc = SQLITE_OK ∧ hot f w' ∧ cf w' = cf w ∧
    now (db (dk w')) = match cs with [] => now (db (dk w)) | _ => foldl (play sz n) (start_file h (now (db (dk w)))) (all_recs cs) end).
Proof.
  pose proof (proj1 Hss) as Hss1. pose proof (proj1 Hsz) as Hsz1.
  induction cs as [|c cs IH]; intros fuel reset w h Hb Hh Hd Hat Hok Hno Hn0 Hdb Hf; (destruct fuel as [|fuel]; [lia|]).
  - cbn [playback_loop]. destruct Hb as (Hw & Eh & Hcase). eapply returns_bind; [apply (readJournalHdr_none f w h); try done|].
    { destruct Hcase as [[? ?]|(? & ? & E & ?)]; [lia|rewrite E; lia]. }
    intros [[rc k] m] w' (E & Hw' & F1 & F2). cbn in E. rewrite E. apply returns_mret. split_and!; try done. by rewrite F1.
  - destruct Hat as [Hc Hat]. unfold all_recs in Hok. cbn [mbind list_bind] in Hok. apply Forall_app in Hok as [Hok1 Hok2].
    eapply (playback_chunk fuel reset w h c); try done; [by intros ->; apply Hdb|]. intros reset1 w1 Hb1 Ec Edb.
    assert (0 < chunk_next sz ss h c ∧ Z.divide ss (chunk_next sz ss h c)) as [Hpos Hdiv].
    { unfold chunk_next, chunk_end. destruct (round_up_spec ss (h + ss + zlen (c_recs c) * (sz + 8))) as [? ?]; [lia|nia|]. split; [nia|done]. }
    destruct (IH fuel reset1 w1 (chunk_next sz ss h c)) as (rc & w' & E & -> & Hw' & F1 & F2); try done; [lia|lia|cbn in Hf; lia|].
    exists SQLITE_OK, w'. split; [done|]. split_and!; [done|done|congruence|]. rewrite F2. unfold all_recs. cbn [mbind list_bind].
    rewrite foldl_app, <- Edb. destruct cs; [done|]. unfold start_file at 1. by rewrite (proj2 (Z.eqb_neq _ 0)) by lia.
Qed.
End Chunks.
