(* ===== verification/PgRecover.v ===== *)
(** * The pager: recovery

    That [sqlite3PagerSharedLock] restores a database: when the journal next to the
    database file holds the old content of every page that may have changed, a
    new connection finds the old database. *)

From S2P Require Import Prelude Varint Buffer Bitvec PgFile PgImage Pager PgTxn PgHot PgJournal.
#[local] Open Scope Z_scope.
#[local] Open Scope c_scope.
#[local] Open Scope list_scope.

(** ** Master journals *)

(** The last bytes of a journal are not those of the record of a master journal. *)
Definition no_master (l : list Z) : Prop := slice l (zlen l - 8) 8 ≠ aJournalMagic.

Lemma readMasterJournal_none w f m : events (en w) = [] → the_file Jfd w = Ret f → no_master (now f) → bytes_ok (now f) →
  readMasterJournal m w = Ret ((SQLITE_OK, []), w).
Proof.
  intros He Hf Hno Hb. unfold readMasterJournal. rewrite (sm_bind_run _ _ _ _ _ (OsFileSize_ok w He Jfd f Hf)). okb.
  destruct (Z.ltb_spec (zlen (now f)) 16) as [|Hl]; [done|]. unfold read32bits. rewrite !bind_assoc.
  rewrite (sm_bind_run _ _ _ _ _ (OsRead_ok w He Jfd f 4 (zlen (now f) - 16) Hf ltac:(lia) ltac:(lia) ltac:(lia))). okb. rewrite bind_assoc.
  destruct (get4_slice (now f) (zlen (now f) - 16) Hb ltac:(lia) ltac:(lia)) as [len El]. rewrite (bind_lift _ _ _ _ El). prun. okb.
  destruct ((m <=? len) || (len =? 0)); [done|]. rewrite !bind_assoc.
  rewrite (sm_bind_run _ _ _ _ _ (OsRead_ok w He Jfd f 4 (zlen (now f) - 12) Hf ltac:(lia) ltac:(lia) ltac:(lia))). okb. rewrite bind_assoc.
  destruct (get4_slice (now f) (zlen (now f) - 12) Hb ltac:(lia) ltac:(lia)) as [ck Ec]. rewrite (bind_lift _ _ _ _ Ec). prun. okb.
  rewrite (sm_bind_run _ _ _ _ _ (OsRead_ok w He Jfd f 8 (zlen (now f) - 8) Hf ltac:(lia) ltac:(lia) ltac:(lia))). okb.
  by rewrite bool_decide_eq_false_2.
Qed.

(** ** The end of a recovery *)

(** A connection without a transaction. *)
Record idle (lock : Z) (w : world) : Prop := {
  idle_events : events (en w) = [];
  idle_memory : memory (en w) = [];
  idle_lock : eLock (pg w) = lock;
  idle_err : errCode (pg w) = SQLITE_OK;
  idle_cache : cache w = ∅;
  idle_refs : refs w = ∅;
  idle_excl : exclusiveMode (cf w) = false }.

Lemma idle_assign lock f w : idle lock w → eLock (f (pg w)) = eLock (pg w) → errCode (f (pg w)) = errCode (pg w) → idle lock (set_pg f w).
Proof. intros [] H1 H2. split; cbn; rewrite ?H1, ?H2; done. Qed.

Lemma fmap_clean_empty : make_clean <$> (∅ : gmap Z PgHdr) = ∅.
Proof. apply fmap_empty. Qed.

Lemma UnlockDb_ok w : events (en w) = [] → exclusiveMode (cf w) = false → eLock (pg w) = EXCLUSIVE_LOCK ∨ eLock (pg w) = RESERVED_LOCK →
  pagerUnlockDb SHARED_LOCK w = Ret (SQLITE_OK, set_pg (set_eLock SHARED_LOCK) w).
Proof.
  intros E2 E1 E3. unfold pagerUnlockDb. prun. rewrite E1. rewrite !bind_assert by (destruct E3 as [E|E]; rewrite ?E; done).
  rewrite (sm_bind_run _ _ _ _ _ (os_call_ok w E2 _)). prun. by rewrite (proj2 (Z.eqb_neq (eLock (pg w)) UNKNOWN_LOCK)) by (destruct E3 as [-> | ->]; done).
Qed.

Lemma idle_relock lock lock' w : idle lock w → idle lock' (set_pg (set_eLock lock') w).
Proof. intros []. by split. Qed.

(** A call that changes at most the journal, and the content of no other file. *)
Record kept (w w' : world) : Prop := {
  k_pg : pg w' = pg w;
  k_cache : cache w' = cache w;
  k_en : en w' = en w;
  k_refs : refs w' = refs w;
  k_cf : cf w' = cf w;
  k_db : now (db (dk w')) = now (db (dk w));
  k_jrn : is_Some (jrn (dk w)) → is_Some (jrn (dk w')) }.

#[global] Instance kept_trans : Transitive kept.
Proof. intros x y z [] []. split; try congruence. auto. Qed.

Lemma kept_idle lock w w' : kept w w' → idle lock w → idle lock w'.
Proof. intros [] []. split; congruence. Qed.

Lemma kept_journal g w : kept w (set_dk (set_file Jfd g) w).
Proof. split; try done. Qed.

Lemma OsSync_ok w h f : events (en w) = [] → the_file h w = Ret f → h ≠ Sjfd →
  returns (sqlite3OsSync h w) (λ rc w', rc = SQLITE_OK ∧ kept w w' ∧ the_file h w' = Ret (file_sync f)).
Proof.
  intros He Hf Hh. unfold sqlite3OsSync. rewrite (bind_gets _ _ _ f) by done. rewrite (sm_bind_run _ _ _ _ _ (os_call_ok w He _)). okb.
  unfold change_file. rewrite bind_assoc, (bind_gets _ _ _ f) by done. prun. destruct h; [| |done]; prun; apply returns_mret.
  - injection Hf as <-. by split_and!.
  - unfold the_file in *. cbn. destruct (jopen (pg w)); [|done]. by split_and!.
Qed.

Lemma OsSync_db w : events (en w) = [] → sqlite3OsSync Fd w = Ret (SQLITE_OK, set_dk (set_db (file_sync (db (dk w)))) w).
Proof.
  intros He. unfold sqlite3OsSync. rewrite (bind_gets _ _ _ (db (dk w))) by done. by rewrite (sm_bind_run _ _ _ _ _ (os_call_ok w He _)).
Qed.

Section Journal.
Context (w : world) (f : file) (He : events (en w) = []) (Hf : the_file Jfd w = Ret f).

Lemma journal_kept g w' : kept w w' → jrn (dk w') = Some g → the_file Jfd w' = Ret g.
Proof.
  intros K E. unfold the_file in *. rewrite (k_pg _ _ K). destruct (jopen (pg w)); [|done]. by rewrite E.
Qed.

Lemma zeroJournalHdr_ok t : returns (zeroJournalHdr t w) (λ rc w', rc = SQLITE_OK ∧ kept w w').
Proof.
  assert (jopen (pg w) = true ∧ jrn (dk w) = Some f) as [Ho Hj].
  { unfold the_file in Hf. destruct (jopen (pg w)); [|done]. destruct (jrn (dk w)); [|done]. by injection Hf as ->. }
  assert (∀ w', kept w w' → ∃ g, the_file Jfd w' = Ret g) as Hg.
  { intros w' K. destruct (k_jrn _ _ K) as [g Hg]; [by exists f|]. exists g. by apply journal_kept. }
  unfold zeroJournalHdr. rewrite bind_assert by done. prun. destruct (journalOff (pg w) =? 0); [by apply returns_mret|]. prun.
  eapply returns_bind with (R := λ rc w', rc = SQLITE_OK ∧ kept w w').
  { destruct (t || _); [rewrite (OsTruncate_ok w He Jfd f _ Hf)|rewrite (OsWrite_ok w He Jfd f _ _ Hf)]; apply returns_ret; (split; [done|apply kept_journal]). }
  intros rc w1 [-> K1]. okb. prun. eapply returns_bind with (R := λ rc w', rc = SQLITE_OK ∧ kept w w').
  { destruct (noSync (cf w1)); cbn [negb]; [by apply returns_mret|]. destruct (Hg w1 K1) as [g1 E1].
    destruct (OsSync_ok w1 Jfd g1) as (rc & w2 & E & -> & K2 & _); [by rewrite (k_en _ _ K1)|done..|]. exists SQLITE_OK, w2. split; [done|]. split; [done|by etrans]. }
  intros rc w2 [-> K2]. okb. destruct (0 <? _); [|by apply returns_mret]. destruct (Hg w2 K2) as [g2 E2]. assert (events (en w2) = []) as He2 by (by rewrite (k_en _ _ K2)).
  rewrite (sm_bind_run _ _ _ _ _ (OsFileSize_ok w2 He2 Jfd g2 E2)). okb. destruct (_ <? _); [|by apply returns_mret].
  rewrite (OsTruncate_ok w2 He2 Jfd g2 _ E2). apply returns_ret. split; [done|]. etrans; [done|apply kept_journal].
Qed.
End Journal.

Lemma finalize_hot f w : hot f w → journalMode (cf w) ≠ OFF →
  returns (finalize_journal false w) (λ rc w', rc = SQLITE_OK ∧ idle EXCLUSIVE_LOCK w' ∧ now (db (dk w')) = now (db (dk w)) ∧ cf w' = cf w ∧
    eState (pg w') = eState (pg w) ∧ dbSize (pg w') = dbSize (pg w)).
Proof.
  intros Hw Hm. pose proof (hot_events _ _ Hw) as He. pose proof (hot_file _ _ Hw) as Hf.
  assert (idle EXCLUSIVE_LOCK w) as Hi by (destruct Hw; by split). unfold finalize_journal. prun. rewrite (hot_excl _ _ Hw), orb_false_r.
  destruct (journalMode (cf w)) eqn:Ej; try done; decided; prun.
  - rewrite bind_assert by done. prun. unfold os_delete_journal. set (w1 := set_pg _ w). assert (events (en w1) = []) as He1 by done.
    rewrite (sm_bind_run _ _ _ _ _ (os_call_ok w1 He1 _)). okb. prun. apply returns_mret. split_and!; try done. destruct Hi. by split.
  - eapply returns_bind; [by apply (zeroJournalHdr_ok w f)|]. intros rc w1 [-> K]. prun. apply returns_mret.
    split_and!; cbn; try done; try apply K; try (by rewrite (k_pg _ _ K)). apply idle_assign; [|done..]. by apply (kept_idle _ w).
  - eapply returns_bind with (R := λ rc w', rc = SQLITE_OK ∧ kept w w').
    { destruct (_ =? 0); [by apply returns_mret|]. rewrite (OsTruncate_ok w He Jfd f _ Hf). apply returns_ret. split; [done|apply kept_journal]. }
    intros rc w1 [-> K]. prun. apply returns_mret. split_and!; cbn; try done; try apply K; try (by rewrite (k_pg _ _ K)). apply idle_assign; [|done..]. by apply (kept_idle _ w).
Qed.

Lemma end_transaction_hot f w : hot f w → journalMode (cf w) ≠ OFF →
  returns (pager_end_transaction false false w) (λ rc w', rc = SQLITE_OK ∧ idle SHARED_LOCK w' ∧ now (db (dk w')) = now (db (dk w)) ∧ cf w' = cf w).
Proof.
  intros Hw Hm. unfold pager_end_transaction. rewrite bind_assert by (by rewrite (hot_state _ _ Hw)). prun. rewrite (hot_state _ _ Hw), (hot_lock _ _ Hw).
  change ((PAGER_OPEN <? PAGER_WRITER_LOCKED) && (EXCLUSIVE_LOCK <? RESERVED_LOCK)) with false. cbv iota.
  unfold releaseAllSavepoints. prun. rewrite (hot_excl _ _ Hw). cbn [negb]. prun. set (w1 := set_pg _ (set_pg _ w)).
  assert (hot f w1) as Hw1 by (by repeat apply hot_assign). assert (cf w1 = cf w ∧ dk w1 = dk w) as [C1 D1] by done. rewrite bind_assert by (by rewrite (hot_open _ _ Hw1)).
  rewrite (hot_open _ _ Hw). clearbody w1. eapply returns_bind; [apply (finalize_hot f w1 Hw1); by rewrite C1|]. intros rc w2 (-> & Hi & E1 & E2 & _ & _). prun.
  unfold sqlite3PcacheCleanAll, sqlite3PcacheTruncate. prun. okb. set (w3 := set_cache _ _). assert (idle EXCLUSIVE_LOCK w3) as Hi3.
  { destruct Hi. split; try done. unfold w3. cbn. rewrite idle_cache0, fmap_clean_empty. unfold cache_truncate. rewrite idle_refs0. rewrite bool_decide_eq_false_2 by set_solver. rewrite andb_false_r. apply map_filter_empty. }
  assert (cf w3 = cf w2 ∧ dk w3 = dk w2) as [C3 D3] by done. clearbody w3. prun. okb. prun. rewrite (idle_excl _ _ Hi3). cbn [negb]. prun.
  rewrite (sm_bind_run _ _ _ _ _ (UnlockDb_ok w3 (idle_events _ _ Hi3) (idle_excl _ _ Hi3) ltac:(left; apply Hi3))). prun. okb. prun. okb. apply returns_mret.
  split_and!; [done| |cbn; congruence|cbn; congruence]. do 2 (apply idle_assign; [|done|done]). by apply (idle_relock EXCLUSIVE_LOCK).
Qed.

(** ** Playing back a hot journal *)

(** The content of the journal, and of the database file after it is played back. *)
Definition reads_as (sz ss n : Z) (l : list Z) (cs : list chunk) : Prop :=
  chunks_at sz ss n l 0 cs ∧ no_header l (chunks_next sz ss 0 cs) ∧ Forall (rec_ok sz) (all_recs cs).

Definition restored (sz n : Z) (cs : list chunk) (l : list Z) : list Z :=
  match cs with [] => l | _ => foldl (play sz n) (take (Z.to_nat (sz * n)) l) (all_recs cs) end.

Lemma chunks_fit sz ss n l cs : 0 < sz → 28 ≤ ss → ∀ h, 0 ≤ h → chunks_at sz ss n l h cs → cs ≠ [] → h + zlen cs ≤ zlen l.
Proof.
  intros Hs Hss. induction cs as [|c cs IH]; intros h Hh Hat Hne; [done|]. destruct Hat as [(_ & _ & [Hl _] & _) Hat].
  destruct (decide (cs = [])) as [->|Hcs]; [cbn; lia|].
  assert (h + ss ≤ chunk_next sz ss h c) as Hn by (unfold chunk_next, chunk_end; destruct (round_up_spec ss (h + ss + zlen (c_recs c) * (sz + 8))) as [? _]; nia).
  apply IH in Hat; [|lia|done]. cbn [length]. lia.
Qed.

Section Playback.
Context (sz ss n : Z) (f : file) (cs : list chunk).
Hypothesis (Hsz : size_between 512 sz) (Hss : size_between 32 ss) (Hn : in_uw 32 n).
Hypothesis (Hcs : reads_as sz ss n (now f) cs) (Hno : no_master (now f)) (Hb : bytes_ok (now f)).

Lemma pager_playback_hot w : hot f w → journalMode (cf w) ≠ OFF → 8 ≤ sectorSize (pg w) ≤ ss →
  (cs ≠ [] → sz * n ≤ zlen (now (db (dk w)))) →
  returns (pager_playback true w) (λ rc w', rc = SQLITE_OK ∧ idle SHARED_LOCK w' ∧ cf w' = cf w ∧
    now (db (dk w')) = restored sz n cs (now (db (dk w)))).
Proof.
  intros Hw Hm Hs Hdb. destruct Hcs as (H1 & H2 & H3). pose proof (proj1 Hsz) as Hsz1. pose proof (proj1 Hss) as Hss1. unfold pager_playback.
  eapply returns_bind with (R := λ a w', a = (SQLITE_OK, true) ∧ hot f w' ∧ cf w' = cf w ∧ now (db (dk w')) = restored sz n cs (now (db (dk w)))).
  { unfold playback_body. rewrite bind_assert by (apply Hw). rewrite (sm_bind_run _ _ _ _ _ (OsFileSize_ok w (hot_events _ _ Hw) Jfd f (hot_file _ _ Hw))). okb. prun.
    rewrite (sm_bind_run _ _ _ _ _ (readMasterJournal_none w f _ (hot_events _ _ Hw) (hot_file _ _ Hw) Hno Hb)). okb. change (has_name []) with false. cbv iota. prun. okb. prun.
    set (w1 := set_pg _ w). assert (hot f w1) as Hw1 by (by apply hot_assign).
    eapply returns_bind; [apply (playback_chunks sz ss n f Hsz Hss Hn cs _ true w1 0); try done|].
    - split; [done|]. split; [done|]. left. split; [done|exact Hs].
    - by exists 0.
    - unfold in_uw in Hn. nia.
    - destruct (decide (cs = [])) as [Hcs0|Hne]; [rewrite Hcs0; cbn; lia|]. pose proof (chunks_fit sz ss n (now f) cs ltac:(lia) ltac:(lia) 0 ltac:(lia) H1 Hne). lia.
    - intros rc w2 (-> & Hw2 & F1 & F2). apply returns_mret. by split_and!. }
  intros ? w1 (-> & Hw1 & F1 & F2). prun. okb. prun. set (w2 := set_pg _ w1). assert (hot f w2) as Hw2 by (by apply hot_assign). assert (cf w2 = cf w ∧ dk w2 = dk w1) as [C2 D2] by done. clearbody w2.
  rewrite (sm_bind_run _ _ _ _ _ (readMasterJournal_none w2 f _ (hot_events _ _ Hw2) (hot_file _ _ Hw2) Hno Hb)). okb. prun. rewrite (hot_state _ _ Hw2).
  change ((PAGER_WRITER_DBMOD <=? PAGER_OPEN) || (PAGER_OPEN =? PAGER_OPEN)) with true. cbv iota.
  eapply returns_bind with (R := λ rc w', rc = SQLITE_OK ∧ hot f w' ∧ cf w' = cf w ∧ now (db (dk w')) = now (db (dk w2))).
  { unfold sqlite3PagerSync. rewrite (sm_bind_run _ _ _ _ _ (os_call_ok w2 (hot_events _ _ Hw2) _)). okb. prun. destruct (noSync (cf w2)); cbn [negb]; [by apply returns_mret|].
    rewrite OsSync_db by apply Hw2. apply returns_ret. split_and!; try done. destruct Hw2. by split. }
  intros rc w3 (-> & Hw3 & C3 & D3). okb. change (has_name []) with false.
  eapply returns_bind; [apply (end_transaction_hot f w3 Hw3); by rewrite C3|]. intros rc w4 (-> & Hw4 & D4 & C4). okb. prun.
  unfold setSectorSize. prun. apply returns_mret. split_and!; cbn; [done|by apply idle_assign|congruence|congruence].
Qed.
End Playback.

(** ** Recovery *)

Section Recovery.
Context (sz ss n : Z) (D : list Z).
Hypothesis (Hsz : size_between 512 sz) (Hss : size_between 32 ss) (Hn : in_uw 32 n) (HD : zlen D = sz * n).


(** A record with the content a page of [D] has. *)
Definition orig_rec (r : Z * list Z) : Prop := 1 ≤ r.1 ≤ n ∧ r.2 = slice D (page_offset sz r.1) sz.

Definition same_page (g : Z) (l l' : list Z) : Prop := agree (page_offset sz g) (page_offset sz g + sz) l l'.

(** Files from which the database [D] can be recovered: the records of the journal have
    pages of [D], and all pages that differ are among them. *)
Definition safe_image (idb : list Z) (ij : option (list Z)) : Prop :=
  match ij with
  | None => idb = D
  | Some l => bytes_ok l ∧ ∃ cs, reads_as sz ss n l cs ∧ Forall orig_rec (all_recs cs) ∧
      match cs with
      | [] => idb = D
      | _ => sz * n ≤ zlen idb ∧ ∀ g, 1 ≤ g ≤ n → g ∈ (all_recs cs).*1 ∨ same_page g idb D
      end
  end.

Lemma page_offset_range g : 1 ≤ g ≤ n → 0 ≤ page_offset sz g ∧ page_offset sz g + sz ≤ sz * n.
Proof. intros Hg. pose proof (proj1 Hsz). unfold page_offset. nia. Qed.

Lemma play_orig rs : ∀ l, Forall orig_rec rs → zlen l = sz * n →
  zlen (foldl (play sz n) l rs) = sz * n ∧
  ∀ i, 0 ≤ i < sz * n → at8 l i = at8 D i ∨ i / sz + 1 ∈ rs.*1 → at8 (foldl (play sz n) l rs) i = at8 D i.
Proof.
  pose proof (proj1 Hsz) as Hsz1. induction rs as [|r rs IH]; intros l Hrs Hl; cbn [foldl].
  { split; [done|]. intros i Hi [?|H]; [done|]. by apply elem_of_nil in H. }
  apply list.Forall_cons in Hrs as [[Hg Er] Hrs]. destruct (page_offset_range _ Hg) as [Ho1 Ho2].
  assert (zlen r.2 = sz) as Hr by (rewrite Er, slice_length; lia).
  assert (zlen (play sz n l r) = sz * n) as Hl'.
  { unfold play. destruct (n <? r.1); [done|]. rewrite write_at_length by (intros E; rewrite E in Hr; cbn in Hr; lia). lia. }
  destruct (IH _ Hrs Hl') as [H1 H2]. split; [done|]. intros i Hi Hc. apply H2; [done|].
  unfold play. rewrite (proj2 (Z.ltb_ge n r.1)) by lia. rewrite at8_write_at by lia. case_decide as Hin.
  - left. rewrite Er. rewrite slice_at8 by lia. f_equal. lia.
  - destruct Hc as [?|Hc]; [by left|]. right. cbn [fmap list_fmap] in Hc. apply list.elem_of_cons in Hc as [E|?]; [|done].
    exfalso. apply Hin. unfold page_offset. pose proof (Z.div_mod i sz). pose proof (Z.mod_pos_bound i sz). nia.
Qed.

Lemma restored_orig idb cs : Forall orig_rec (all_recs cs) →
  match cs with [] => idb = D | _ => sz * n ≤ zlen idb ∧ ∀ g, 1 ≤ g ≤ n → g ∈ (all_recs cs).*1 ∨ same_page g idb D end →
  restored sz n cs idb = D.
Proof.
  pose proof (proj1 Hsz) as Hsz1. unfold in_uw in Hn. intros Hrs Hc. destruct cs as [|c cs]; [done|]. destruct Hc as [Hl Hp]. unfold restored.
  set (rs := all_recs (c :: cs)) in *. destruct (play_orig rs (take (Z.to_nat (sz * n)) idb) Hrs) as [H1 H2]; [rewrite length_take; nia|].
  apply at8_ext; [lia|]. intros i Hi. rewrite H1 in Hi. apply H2; [done|]. rewrite at8_take by lia.
  pose proof (Z.div_mod i sz). pose proof (Z.mod_pos_bound i sz). assert (1 ≤ i / sz + 1 ≤ n) as Hg by nia.
  destruct (Hp _ Hg) as [?|Hs]; [by right|]. left. apply Hs. unfold page_offset. nia.
Qed.

(** A new connection. *)
Record newcomer (w : world) : Prop := {
  nc_idle : idle NO_LOCK w;
  nc_state : eState (pg w) = PAGER_OPEN;
  nc_open : jopen (pg w) = false;
  nc_in : pInJournal (pg w) = None;
  nc_reserve : 0 ≤ nReserve (pg w) < 1000;
  nc_write : readOnly (cf w) = false;
  nc_mode : journalMode (cf w) ≠ OFF;
  nc_size : 512 ≤ pageSize (pg w) ≤ 65536;
  nc_sector : 8 ≤ sectorSize (pg w) ≤ ss }.

(** A connection in state OPEN with a lock. *)
Definition opened (lock : Z) (w w' : world) : Prop :=
  idle lock w' ∧ dk w' = dk w ∧ cf w' = cf w ∧ eState (pg w') = PAGER_OPEN ∧ jopen (pg w') = false ∧ pInJournal (pg w') = None ∧
  nReserve (pg w') = nReserve (pg w) ∧ sectorSize (pg w') = sectorSize (pg w) ∧ pageSize (pg w') = pageSize (pg w).

Lemma LockDb_ok w lock : events (en w) = [] → eLock (pg w) < lock → lock = SHARED_LOCK ∨ lock = RESERVED_LOCK ∨ lock = EXCLUSIVE_LOCK →
  pagerLockDb lock w = Ret (SQLITE_OK, set_pg (set_eLock lock) w).
Proof.
  intros He Hl Hk. unfold pagerLockDb. rewrite bind_assert by (destruct Hk as [-> |[-> | ->]]; done). prun. rewrite (proj2 (Z.ltb_lt _ _)) by done. cbn [orb].
  rewrite (sm_bind_run _ _ _ _ _ (next_answer_ok w He)). cbn [lock_rc]. okb.
  rewrite (proj2 (Z.eqb_neq (eLock (pg w)) UNKNOWN_LOCK)); [done|]. unfold UNKNOWN_LOCK, EXCLUSIVE_LOCK, SHARED_LOCK, RESERVED_LOCK in *. lia.
Qed.

Lemma wait_shared w : newcomer w → returns (pager_wait_on_lock SHARED_LOCK w) (λ rc w', rc = SQLITE_OK ∧ opened SHARED_LOCK w w').
Proof.
  intros [[] ? ? ? ? ? ? ? ?]. unfold pager_wait_on_lock. rewrite bind_assert by (by rewrite idle_lock0). prun. rewrite idle_events0. cbn [length lock_loop].
  rewrite (sm_bind_run _ _ _ _ _ (LockDb_ok w SHARED_LOCK idle_events0 ltac:(rewrite idle_lock0; done) ltac:(auto))). apply returns_mret. split; [done|]. repeat split; done.
Qed.

Lemma Pagecount_ok w lock : idle lock w → eState (pg w) = PAGER_OPEN → SHARED_LOCK ≤ lock →
  returns (pagerPagecount w) (λ a w', a = (SQLITE_OK, u32 ((zlen (now (db (dk w))) + pageSize (pg w) - 1) / pageSize (pg w))) ∧
    idle lock w' ∧ dk w' = dk w ∧ cf w' = cf w ∧ (pg w' = pg w ∨ ∃ k, pg w' = set_mxPgno k (pg w))).
Proof.
  intros Hi Hs Hlk. unfold pagerPagecount. rewrite bind_assert by (by rewrite Hs). rewrite bind_assert by (rewrite (idle_lock _ _ Hi); by apply Z.leb_le).
  rewrite (sm_bind_run _ _ _ _ _ (OsFileSize_ok w (idle_events _ _ Hi) Fd (db (dk w)) eq_refl)). okb. prun. apply returns_mret. split; [done|].
  split_and!; [apply idle_assign; [done|cbn; by case_match..]|done|done|]. cbn. destruct (_ <? _); [right; by eexists|by left].
Qed.

Lemma pages_zero L q : 512 ≤ q → 0 ≤ L ≤ 2 ^ 40 → u32 ((L + q - 1) / q) = 0 ↔ L = 0.
Proof.
  intros Hq Hl. pose proof (Z.div_mod (L + q - 1) q). pose proof (Z.mod_pos_bound (L + q - 1) q). set (m := (L + q - 1) / q) in *. assert (0 ≤ m) by (apply Z.div_pos; lia).
  assert (m ≤ 1 ∨ (m - 1) * 512 ≤ L) by nia. assert (m < 2 ^ 32) by lia. rewrite uw_small by done. split; intros Hz; nia.
Qed.

(** The files of a world as lists of bytes. *)
Definition image (w : world) : list Z * option (list Z) := (now (db (dk w)), now <$> jrn (dk w)).

Lemma hasHotJournal_safe w idb ij : opened SHARED_LOCK w w → 512 ≤ pageSize (pg w) → image w = (idb, ij) → safe_image idb ij → zlen idb ≤ 2 ^ 40 →
  returns (hasHotJournal w) (λ a w', a.1 = SQLITE_OK ∧ cf w' = cf w ∧ now (db (dk w')) = idb ∧
    if a.2 then ∃ f, jrn (dk w') = Some f ∧ ij = Some (now f) ∧ opened SHARED_LOCK w' w' ∧ nReserve (pg w') = nReserve (pg w) ∧ sectorSize (pg w') = sectorSize (pg w)
    else idb = D ∧ idle SHARED_LOCK w' ∧ eState (pg w') = PAGER_OPEN ∧ pageSize (pg w') = pageSize (pg w)).
Proof.
  intros (Hi & _ & _ & Hs & Ho & Hin & _ & _ & _) Hps [= <- <-] Hsafe Hl. unfold hasHotJournal. rewrite bind_assert by (by rewrite Hs). prun. rewrite Ho.
  rewrite bind_assert by done. cbn [negb]. unfold os_journal_exists. rewrite bind_assoc, (sm_bind_run _ _ _ _ _ (os_call_ok w (idle_events _ _ Hi) _)). prun. okb.
  destruct (jrn (dk w)) as [f|] eqn:Ej; cbn [fmap option_fmap option_map safe_image] in Hsafe.
  2: { rewrite bool_decide_eq_false_2 by (intros [? [=]]). cbn [negb]. apply returns_mret. by split_and!. }
  rewrite bool_decide_eq_true_2 by (by eexists). cbn [negb]. rewrite (sm_bind_run _ _ _ _ _ (next_answer_ok w (idle_events _ _ Hi))). cbn [answer_rc answer_n]. okb.
  change (0 =? 0) with true. cbv iota. eapply returns_bind; [by apply (Pagecount_ok w SHARED_LOCK)|]. intros [rc np] w1 ([= -> Enp] & Hi1 & D1 & C1 & Hp1). okb. rewrite andb_true_r.
  assert (np = 0 ↔ zlen (now (db (dk w))) = 0) as Hz by (rewrite Enp; apply pages_zero; lia). clear Enp.
  assert (eState (pg w1) = PAGER_OPEN ∧ jopen (pg w1) = false ∧ pInJournal (pg w1) = None ∧ nReserve (pg w1) = nReserve (pg w) ∧ sectorSize (pg w1) = sectorSize (pg w) ∧ pageSize (pg w1) = pageSize (pg w))
    as (G1 & G2 & G3 & G4 & G5 & G6) by (destruct Hp1 as [-> |[k ->]]; done).
  destruct Hsafe as (Hb & cs & Hcs & Hrs & Hdb). destruct (Z.eqb_spec np 0) as [Hnp|Hnp].
  - (* an empty database *)
    assert (now (db (dk w)) = D) as ED.
    { apply Hz in Hnp. destruct cs; [done|]. destruct Hdb as [Hdb _]. destruct (now (db (dk w))); [|cbn in Hnp; lia]. cbn in Hdb. destruct D; [done|]. cbn in HD. lia. }
    rewrite (sm_bind_run _ _ _ _ _ (LockDb_ok w1 RESERVED_LOCK (idle_events _ _ Hi1) ltac:(rewrite (idle_lock _ _ Hi1); done) ltac:(auto))). okb.
    set (w2 := set_pg _ w1). assert (idle RESERVED_LOCK w2) as Hi2 by (destruct Hi1; by split). unfold os_delete_journal. rewrite !bind_assoc.
    rewrite (sm_bind_run _ _ _ _ _ (os_call_ok w2 (idle_events _ _ Hi2) _)). okb. prun. rewrite <- C1, (idle_excl _ _ Hi1). cbn [negb]. rewrite bind_assoc. set (w3 := set_dk _ w2).
    assert (idle RESERVED_LOCK w3) as Hi3 by (destruct Hi2; by split).
    rewrite (sm_bind_run _ _ _ _ _ (UnlockDb_ok w3 (idle_events _ _ Hi3) (idle_excl _ _ Hi3) ltac:(right; apply Hi3))). prun. apply returns_mret. cbn [fst snd].
    split_and!; try done; [cbn; by rewrite D1|]. by apply (idle_relock RESERVED_LOCK).
  - (* whether the first byte of the journal is zero *)
    unfold os_open_journal. rewrite bind_assoc, (sm_bind_run _ _ _ _ _ (next_answer_ok w1 (idle_events _ _ Hi1))). cbn [answer_rc]. okb. prun. rewrite D1, Ej. prun. okb. prun.
    set (w2 := set_pg _ w1). assert (events (en w2) = [] ∧ the_file Jfd w2 = Ret f) as [He2 Hf2] by (split; [apply Hi1|unfold the_file; cbn; by rewrite D1, Ej]).
    assert (cs ≠ [] → at8 (now f) 0 = 0xd9) as Hd9.
    { intros Hne. destruct cs as [|c cs']; [done|]. destruct Hcs as ([(_ & _ & [_ Eh] & _) _] & _). replace (at8 (now f) 0) with (at8 (slice (now f) 0 28) 0) by (by rewrite slice_at8 by lia). by rewrite Eh. }
    set (first := at8 (now f) 0).
    assert (∃ rc l, sqlite3OsRead Jfd 1 0 w2 = Ret ((rc, l), w2) ∧ (if rc =? SQLITE_IOERR_SHORT_READ then SQLITE_OK else rc) = SQLITE_OK ∧ byte_at l 0 = Ret first) as (rc' & l & Er & Erc & El).
    { destruct (now f) as [|x l] eqn:Enf.
      - exists SQLITE_IOERR_SHORT_READ, [0]. rewrite (OsRead_short w2 He2 Jfd f 1 0 Hf2) by (rewrite ?Enf; cbn; lia). rewrite Enf. done.
      - exists SQLITE_OK, [x]. rewrite (OsRead_ok w2 He2 Jfd f 1 0 Hf2) by (rewrite ?Enf; cbn; lia). rewrite Enf. done. }
    rewrite (sm_bind_run _ _ _ _ _ Er). cbv beta iota. prun. rewrite (bind_lift _ _ _ _ El). rewrite Erc. apply returns_mret. cbn [fst snd].
    split; [done|]. split; [done|]. split; [cbn; by rewrite D1|]. destruct (Z.eqb_spec first 0) as [Hf0|Hf0]; cbn [negb].
    + split; [|split_and!; [by repeat (apply idle_assign; [|done|done])|done|done]]. destruct cs as [|c cs']; [done|]. unfold first in Hf0. rewrite Hd9 in Hf0; done.
    + exists f. split; [cbn; by rewrite D1|]. split; [done|]. split_and!; [|done|done]. repeat split; try done; try apply Hi1.
Qed.

(** Opening a journal and syncing it before it is played back. *)
Lemma rollback_hot_safe w f : opened SHARED_LOCK w w → jrn (dk w) = Some f → safe_image (now (db (dk w))) (Some (now f)) → no_master (now f) →
  readOnly (cf w) = false → journalMode (cf w) ≠ OFF → 0 ≤ nReserve (pg w) < 1000 → 8 ≤ sectorSize (pg w) ≤ ss →
  returns (rollback_hot w) (λ rc w', rc = SQLITE_OK ∧ idle SHARED_LOCK w' ∧ eState (pg w') = PAGER_OPEN ∧ cf w' = cf w ∧ now (db (dk w')) = D).
Proof.
  intros (Hi & _ & _ & Hs & Ho & Hin & _ & _ & _) Ej (Hb & cs & Hcs & Hrs & Hdb) Hno Hro Hm Hres Hsec. unfold rollback_hot. prun. rewrite Hro.
  rewrite (sm_bind_run _ _ _ _ _ (LockDb_ok w EXCLUSIVE_LOCK (idle_events _ _ Hi) ltac:(rewrite (idle_lock _ _ Hi); done) ltac:(auto))). okb. prun.
  set (w1 := set_pg _ w). change (jopen (pg w1)) with (jopen (pg w)). rewrite Ho. assert (events (en w1) = []) as He1 by apply Hi. unfold os_journal_exists. rewrite !bind_assoc.
  rewrite (sm_bind_run _ _ _ _ _ (os_call_ok w1 He1 _)). prun. okb. change (jrn (dk w1)) with (jrn (dk w)). rewrite Ej, bool_decide_eq_true_2 by (by eexists). okb.
  unfold os_open_journal. rewrite !bind_assoc, (sm_bind_run _ _ _ _ _ (next_answer_ok w1 He1)). cbn [answer_rc]. okb. prun. change (jrn (dk w1)) with (jrn (dk w)). rewrite Ej. prun.
  set (w2 := set_pg _ w1). change (jopen (pg w2)) with true. cbv iota. rewrite !bind_assoc, bind_assert by done. rewrite bind_assoc.
  assert (events (en w2) = [] ∧ the_file Jfd w2 = Ret f) as [He2 Hf2] by (split; [done|unfold the_file; cbn; by rewrite Ej]).
  eapply returns_bind with (R := λ rc w', rc = SQLITE_OK ∧ ∃ f', now f' = now f ∧ hot f' w' ∧ cf w' = cf w ∧ now (db (dk w')) = now (db (dk w)) ∧ sectorSize (pg w') = sectorSize (pg w)).
  { unfold pagerSyncHotJournal. prun. eapply returns_bind with (R := λ rc w', rc = SQLITE_OK ∧ kept w2 w' ∧ ∃ f', now f' = now f ∧ the_file Jfd w' = Ret f').
    { destruct (noSync (cf w2)); cbn [negb]; [apply returns_mret; split_and!; [done|by split|by exists f]|].
      destruct (OsSync_ok w2 Jfd f He2 Hf2) as (rc & w3 & E & -> & K & Ef); [done|]. exists SQLITE_OK, w3. split; [done|]. split_and!; [done|done|by exists (file_sync f)]. }
    intros rc w3 (-> & K & f' & Ef & Hf3). okb. assert (events (en w3) = []) as He3 by (by rewrite (k_en _ _ K)).
    rewrite (sm_bind_run _ _ _ _ _ (OsFileSize_ok w3 He3 Jfd f' Hf3)). okb. prun. apply returns_mret. split; [done|]. exists f'. split; [done|].
    assert (jrn (dk w3) = Some f') as Ej3.
    { unfold the_file in Hf3. destruct (jopen (pg w3)); [|done]. destruct (jrn (dk w3)); [|done]. by injection Hf3 as ->. }
    destruct K as [K1 K2 K3 K4 K5 K6 _]. split_and!; cbn; rewrite ?K1, ?K5, ?K6; try done.
    destruct Hi. split; cbn; rewrite ?K1, ?K2, ?K3, ?K4, ?K5; done. }
  intros rc w3 (-> & f' & Ef & Hw3 & C3 & D3 & S3). okb. rewrite bind_assoc.
  eapply returns_bind; [apply (pager_playback_hot sz ss n f' cs Hsz Hss Hn); rewrite ?Ef; try done|].
  { by rewrite C3. } { by rewrite S3. } { intros Hne. rewrite D3. destruct cs; [done|]. apply Hdb. }
  intros rc w4 (-> & Hi4 & C4 & D4). prun. okb. set (w5 := set_pg _ w4). assert (idle SHARED_LOCK w5) as Hi5 by (by apply idle_assign).
  rewrite bind_assert by done. rewrite bind_assert by (by rewrite (idle_lock _ _ Hi5)). apply returns_mret. split_and!; try done; [cbn; congruence|].
  cbn. rewrite D4, D3. by apply restored_orig.
Qed.

(** Recovery finds the database [D]. *)
Lemma SharedLock_safe w idb ij : newcomer w → image w = (idb, ij) → safe_image idb ij → (∀ l, ij = Some l → no_master l) → zlen idb ≤ 2 ^ 40 →
  returns (sqlite3PagerSharedLock w) (λ rc w', rc = SQLITE_OK ∧ eState (pg w') = PAGER_READER ∧ now (db (dk w')) = D).
Proof.
  intros Hw Him Hsafe Hno Hl. unfold sqlite3PagerSharedLock. rewrite bind_assert by (rewrite (idle_refs _ _ (nc_idle _ Hw)); done).
  rewrite bind_assert by (by rewrite (nc_state _ Hw)). prun. rewrite (nc_state _ Hw). change (PAGER_OPEN =? PAGER_OPEN) with true. cbv iota.
  eapply returns_bind with (R := λ rc w', rc = SQLITE_OK ∧ idle SHARED_LOCK w' ∧ eState (pg w') = PAGER_OPEN ∧ now (db (dk w')) = D).
  { unfold shared_lock. eapply returns_bind; [by apply wait_shared|]. intros rc w1 (-> & Ho). okb. prun. pose proof Ho as (Hi & D1 & C1 & S1 & O1 & I1 & N1 & SS1 & P1). rewrite (idle_lock _ _ Hi).
    change (SHARED_LOCK <=? SHARED_LOCK) with true. cbv iota.
    eapply returns_bind; [apply (hasHotJournal_safe w1 idb ij); [unfold opened; by split_and!|rewrite P1; apply Hw|unfold image; by rewrite D1|done|done]|].
    intros [rc hot'] w2 (E & C2 & D2 & H2). cbn in E, H2. rewrite E. okb.
    eapply returns_bind with (R := λ rc w', rc = SQLITE_OK ∧ idle SHARED_LOCK w' ∧ eState (pg w') = PAGER_OPEN ∧ now (db (dk w')) = D).
    { destruct hot'.
      - destruct H2 as (f & Ej & Eij & Ho2 & N2 & SS2). rewrite Eij in Hsafe. destruct Hw.
        destruct (rollback_hot_safe w2 f) as (rc' & w3 & Er & H3); try done; rewrite ?C2, ?C1, ?N2, ?N1, ?SS2, ?SS1; try done; [by rewrite D2|by apply Hno|].
        exists rc', w3. split; [done|]. destruct H3 as (-> & ? & ? & _ & ?). by split_and!.
      - destruct H2 as (-> & Hi2 & S2 & _). by apply returns_mret. }
    intros rc' w3 (-> & Hi3 & S3 & D3). okb. unfold check_version. rewrite bind_assoc. prun. rewrite (idle_cache _ _ Hi3), bool_decide_eq_true_2 by done. prun. okb.
    rewrite os_call_ok by apply Hi3. by apply returns_ret. }
  intros rc w1 (-> & Hi & S1 & D1). prun. rewrite S1. change (PAGER_OPEN =? PAGER_OPEN) with true. okb. rewrite bind_assoc.
  eapply returns_bind; [by apply (Pagecount_ok w1 SHARED_LOCK)|]. intros ? w2 (-> & Hi2 & D2 & _). okb. prun. okb. prun. apply returns_mret. split_and!; [done|done|]. cbn. by rewrite D2.
Qed.
End Recovery.
