(* ===== verification/PgInv.v ===== *)
(** * The pager: what is on the disk during a transaction

    The invariant of the files while a transaction runs ([recoverable]): the
    journal begins with chunks that have reached the disk, behind them there is no
    header or one that is just being written, and every page of the database
    file that may have changed is in one of the chunks. Whatever a power failure leaves of
    such files, the old database can be recovered ([recoverable_safe]). *)

From S2P Require Import Prelude Varint Buffer Bitvec PgFile PgImage Pager PgTxn PgHot PgJournal PgRecover.
#[local] Open Scope Z_scope.
#[local] Open Scope c_scope.
#[local] Open Scope list_scope.

(** ** Words *)

Definition word (l : list Z) (h : Z) : list Z := [at8 l h; at8 l (h + 1); at8 l (h + 2); at8 l (h + 3)].
Definition magic1 : list Z := take 4 aJournalMagic.
Definition magic2 : list Z := drop 4 aJournalMagic.
Definition zero4 : list Z := [0; 0; 0; 0].

Lemma word_slice l h : 0 ≤ h → h + 4 ≤ zlen l → slice l h 4 = word l h.
Proof.
  intros Hh Hl. apply at8_ext; [rewrite slice_length by lia; done|]. rewrite slice_length by lia. intros i Hi. rewrite slice_at8 by lia.
  assert (i = 0 ∨ i = 1 ∨ i = 2 ∨ i = 3) as [-> | [-> | [-> | ->]]] by lia; [by rewrite Z.add_0_r|done..].
Qed.

Lemma word_agree l l' h : agree h (h + 4) l l' → word l h = word l' h.
Proof. intros H. unfold word. by rewrite !H by lia. Qed.

Lemma slice8_words l h : 0 ≤ h → slice l h 8 = aJournalMagic → word l h = magic1 ∧ word l (h + 4) = magic2 ∧ h + 8 ≤ zlen l.
Proof.
  intros Hh E. assert (h + 8 ≤ zlen l) as Hl.
  { assert (length (slice l h 8) = 8%nat) as HL by (by rewrite E). unfold slice in HL. rewrite length_take, length_drop in HL. lia. }
  assert (∀ k, 0 ≤ k < 8 → at8 l (h + k) = at8 aJournalMagic k) as H by (intros k Hk; rewrite <- E; by rewrite slice_at8 by lia).
  unfold word, magic1, magic2. split_and!; [| |done].
  - replace h with (h + 0) at 1 by lia. by rewrite !H by lia.
  - rewrite <- !Z.add_assoc, !H by lia. done.
Qed.

Lemma words_slice8 l h : 0 ≤ h → h + 8 ≤ zlen l → word l h = magic1 → word l (h + 4) = magic2 → slice l h 8 = aJournalMagic.
Proof.
  intros Hh Hl E1 E2. change aJournalMagic with (magic1 ++ magic2). rewrite <- E1, <- E2. rewrite <- !word_slice by lia. unfold slice.
  change (Z.to_nat 8) with (4 + 4)%nat. rewrite <- take_take_drop, drop_drop. do 3 f_equal. lia.
Qed.

(** A word of an image is one of a version. *)
Lemma image_word f img h : survives f img → 0 ≤ h → Z.divide 4 h → h + 4 ≤ zlen img → ∃ u, u ∈ versions f ∧ word img h = word u h.
Proof.
  intros Hs Hh Hd Hl. destruct (survives_word f img h Hs Hh Hd) as (u & Hu & H). exists u. split; [done|]. apply word_agree. intros i Hi. apply H; lia.
Qed.

(** No content since the last sync has a header at [h], not even with torn words. *)
Definition quiet (f : file) (h : Z) : Prop :=
  (∀ u, u ∈ versions f → word u h ≠ magic1) ∨ (∀ u, u ∈ versions f → word u (h + 4) ≠ magic2).

Lemma quiet_image f img h : survives f img → 0 ≤ h → Z.divide 4 h → quiet f h → no_header img h.
Proof.
  intros Hs Hh Hd Hq E. apply slice8_words in E as (E1 & E2 & Hl); [|done]. destruct Hq as [Hq|Hq].
  - destruct (image_word f img h) as (u & Hu & Eu); [done..|lia|]. apply (Hq u Hu). congruence.
  - destruct (image_word f img (h + 4)) as (u & Hu & Eu); [done|lia|by apply Z.divide_add_r; [|exists 1]|lia|]. apply (Hq u Hu). congruence.
Qed.

Lemma quiet_sync f h : 0 ≤ h → no_header (now f) h ∨ zlen (now f) < h + 8 → quiet (file_sync f) h.
Proof.
  intros Hh Hn. destruct (decide (word (now f) h = magic1)) as [E1|E1].
  - destruct (decide (word (now f) (h + 4) = magic2)) as [E2|E2].
    + destruct (decide (h + 8 ≤ zlen (now f))) as [Hl|Hl].
      * exfalso. destruct Hn as [Hn|?]; [|lia]. by apply Hn, words_slice8.
      * exfalso. unfold word, magic2 in E2. rewrite (at8_beyond _ (h + 4 + 3)) in E2 by lia. done.
    + right. intros u Hu%list_elem_of_singleton. by subst.
  - left. intros u Hu%list_elem_of_singleton. by subst.
Qed.

(** A write that leaves the words alone or clears them. *)
Lemma quiet_write f h off a : quiet f h → 0 ≤ h → 0 ≤ off →
  (off + zlen a ≤ h ∨ h + 8 ≤ off ∨ (off = h ∧ ∃ k, a = take k (replicate 8 0 ++ drop 8 a) ∧ Z.divide 4 (zlen a `min` 8))) → quiet (file_write off a f) h.
Proof.
  intros Hq Hh Ho Hd.
  assert (∀ x, x = h ∨ x = h + 4 → word (write_at (now f) (Z.to_nat off) a) x = word (now f) x ∨ word (write_at (now f) (Z.to_nat off) a) x = zero4) as Hw.
  { intros x Hx. destruct Hd as [Hd|[Hd|(-> & k & Ea & [j Hj])]].
    - left. apply word_agree. apply agree_write; lia.
    - left. apply word_agree. apply agree_write; lia.
    - destruct (decide (x + 4 ≤ h + zlen a)) as [Hx'|Hx'].
      + right. unfold word. rewrite !at8_write_at, !decide_True by lia.
        assert (∀ i, 0 ≤ i < 8 → i < zlen a → at8 a i = 0) as H0.
        { intros i Hi Hl. rewrite Ea. unfold at8. rewrite Ea, length_take in Hl. rewrite lookup_take_lt by lia. rewrite lookup_app_l by (rewrite length_replicate; lia). by rewrite lookup_replicate_2 by lia. }
        by rewrite !H0 by lia.
      + left. apply word_agree. apply agree_write; [lia..|]. left. destruct Hx; lia. }
  assert (now f ∈ versions f) as Hn by (by apply list.elem_of_cons; left). destruct Hq as [Hq|Hq]; [left|right]; intros u [Hu|[_ ->]]%versions_write; try (by apply Hq).
  - destruct (Hw h) as [-> | ->]; [by left|by apply Hq|done].
  - destruct (Hw (h + 4)) as [-> | ->]; [by right|by apply Hq|done].
Qed.

(** ** Chunks on the disk *)

Section Chunks.
Context (sz ss n : Z).
Hypothesis (Hsz : size_between 512 sz) (Hss : size_between 32 ss) (Hss4 : Z.divide 4 ss).

Fixpoint durable (f : file) (h : Z) (cs : list chunk) : Prop :=
  match cs with
  | [] => True
  | c :: cs' => chunk_at sz ss n (now f) h c ∧ fixed f h (chunk_end sz ss h (c_recs c)) ∧ durable f (chunk_next sz ss h c) cs'
  end.

Lemma chunk_end_next h c : 0 ≤ h → h + ss ≤ chunk_end sz ss h (c_recs c) ≤ chunk_next sz ss h c ∧ Z.divide ss (chunk_next sz ss h c).
Proof.
  intros Hh. pose proof (proj1 Hsz) as Lsz. pose proof (proj1 Hss) as Lss. unfold chunk_next, chunk_end. destruct (round_up_spec ss (h + ss + zlen (c_recs c) * (sz + 8))) as [H1 H2]; [lia|nia|].
  split; [nia|done].
Qed.

Lemma records_agree l l' off init rs : 0 ≤ off → records_at sz l off init rs → off + zlen rs * (sz + 8) ≤ zlen l' →
  agree off (off + zlen rs * (sz + 8)) l' l → records_at sz l' off init rs.
Proof.
  intros Ho H Hl Ha i r Hr. pose proof (proj1 Hsz) as Lsz. pose proof (lookup_lt_Some _ _ _ Hr) as Li. destruct (H i r Hr) as [H1 H2]. split; [nia|]. rewrite <- H2.
  apply agree_slice; [nia..|]. eapply agree_sub; [done|nia..].
Qed.

Lemma chunk_at_agree l l' h c : 0 ≤ h → chunk_at sz ss n l h c → chunk_end sz ss h (c_recs c) ≤ zlen l' → agree h (chunk_end sz ss h (c_recs c)) l' l →
  chunk_at sz ss n l' h c.
Proof.
  intros Hh (H1 & H2 & [H3 H4] & H5) Hl Ha. pose proof (proj1 Hsz) as Lsz. pose proof (proj1 Hss) as Lss. unfold chunk_end in *. split; [done|]. split; [done|]. split.
  - split; [nia|]. rewrite <- H4. apply agree_slice; [nia..|]. eapply agree_sub; [done|nia..].
  - apply (records_agree l); [lia|done|nia|]. eapply agree_sub; [done|nia..].
Qed.

Lemma durable_image f img cs : survives f img → ∀ h, 0 ≤ h → durable f h cs → chunks_at sz ss n img h cs.
Proof.
  intros Hs. induction cs as [|c cs IH]; intros h Hh Hd; [done|]. destruct Hd as (H1 & H2 & H3). destruct (chunk_end_next h c Hh) as [H4 _]. pose proof (proj1 Hss) as Lss.
  split; [|apply IH; [lia|done]]. destruct (survives_fixed f img _ _ Hs H2 Hh) as [H5 H6]. by apply (chunk_at_agree (now f)).
Qed.

Lemma chunks_next_le cs : ∀ h, 0 ≤ h → h ≤ chunks_next sz ss h cs.
Proof.
  induction cs as [|c cs IH]; intros h Hh; [done|]. cbn. destruct (chunk_end_next h c Hh) as [H1 _]. pose proof (proj1 Hss) as Lss.
  etrans; [|apply IH; lia]. lia.
Qed.

Lemma chunks_next_div cs : ∀ h, 0 ≤ h → Z.divide ss h → Z.divide ss (chunks_next sz ss h cs).
Proof.
  induction cs as [|c cs IH]; intros h Hh Hd; [done|]. destruct (chunk_end_next h c Hh) as [H1 H2]. pose proof (proj1 Hss) as Lss. apply IH; [lia|done].
Qed.

Lemma durable_write f off a cs : ∀ h, 0 ≤ h → durable f h cs → chunks_next sz ss h cs ≤ off → durable (file_write off a f) h cs.
Proof.
  induction cs as [|c cs IH]; intros h Hh Hd Ho; [done|]. destruct Hd as (H1 & H2 & H3). destruct (chunk_end_next h c Hh) as [H4 _]. pose proof (proj1 Hss) as Lss.
  assert (chunk_next sz ss h c ≤ off) as H5 by (etrans; [apply chunks_next_le; lia|exact Ho]). assert (fixed (file_write off a f) h (chunk_end sz ss h (c_recs c))) as H6 by (apply fixed_write; [done|lia..]).
  split; [|split; [done|by apply IH; [lia|..]]]. rewrite now_write. pose proof (fixed_length _ _ _ H6) as H7. rewrite now_write in H7.
  apply (chunk_at_agree (now f)); [done..|]. apply agree_write; lia.
Qed.

Lemma durable_sync f cs : ∀ h, durable f h cs → durable (file_sync f) h cs.
Proof.
  induction cs as [|c cs IH]; intros h Hd; [done|]. destruct Hd as (H1 & H2 & H3). split; [done|]. split; [|by apply IH].
  apply fixed_sync. by apply (fixed_length f h).
Qed.

Lemma durable_app f cs c : ∀ h, durable f h (cs ++ [c]) ↔ durable f h cs ∧
  chunk_at sz ss n (now f) (chunks_next sz ss h cs) c ∧ fixed f (chunks_next sz ss h cs) (chunk_end sz ss (chunks_next sz ss h cs) (c_recs c)).
Proof. induction cs as [|x cs IH]; intros h; cbn; [tauto|]. rewrite IH. unfold chunks_next. tauto. Qed.

Lemma chunks_at_app l cs c : ∀ h, chunks_at sz ss n l h (cs ++ [c]) ↔ chunks_at sz ss n l h cs ∧ chunk_at sz ss n l (chunks_next sz ss h cs) c.
Proof. induction cs as [|x cs IH]; intros h; cbn; [tauto|]. rewrite IH. unfold chunks_next. tauto. Qed.

(** A chunk whose header is being written. *)
Record pending (f : file) (h : Z) (c : chunk) : Prop := {
  pd_init : in_uw 32 (c_init c);
  pd_count : zlen (c_recs c) < 0xffffffff;
  pd_fixed : fixed f (h + 12) (chunk_end sz ss h (c_recs c));
  pd_fields : slice (now f) (h + 12) 16 = sqlite3Put4byte (c_init c) ++ sqlite3Put4byte n ++ sqlite3Put4byte ss ++ sqlite3Put4byte sz;
  pd_recs : records_at sz (now f) (h + ss) (c_init c) (c_recs c);
  pd_words : ∀ u, u ∈ versions f → (word u h = zero4 ∨ word u h = magic1) ∧ (word u (h + 4) = zero4 ∨ word u (h + 4) = magic2) ∧
    (word u (h + 8) = zero4 ∨ word u (h + 8) = sqlite3Put4byte (zlen (c_recs c)));
  pd_next : quiet f (chunk_next sz ss h c) }.

Lemma slice_split l a x y : 0 ≤ a → 0 ≤ x → 0 ≤ y → slice l a (x + y) = slice l a x ++ slice l (a + x) y.
Proof. intros Ha Hx Hy. unfold slice. rewrite !Z2Nat.inj_add by lia. rewrite <- take_take_drop, drop_drop. done. Qed.

Lemma small_pgno g l h : 0 ≤ g < 2 ^ 31 → 0 ≤ h → slice l h 4 = sqlite3Put4byte g → no_header l h.
Proof.
  intros Hg Hh E E8. apply (f_equal (λ l, at8 l 0)) in E. rewrite slice_at8 in E by lia. apply (f_equal (λ l, at8 l 0)) in E8. rewrite slice_at8 in E8 by lia.
  rewrite E in E8. change (u8 (g .>> 24) = 0xd9) in E8. rewrite Z.shiftr_div_pow2 in E8 by lia. rewrite uw_small in E8; [|split; [apply Z.div_pos; lia|apply Z.div_lt_upper_bound; lia]].
  assert (g / 2 ^ 24 < 128) by (apply Z.div_lt_upper_bound; lia). lia.
Qed.

Lemma pending_image f img h c : survives f img → 0 ≤ h → Z.divide ss h → pending f h c → Forall (λ r, 0 ≤ r.1 < 2 ^ 31 ∧ zlen r.2 = sz) (c_recs c) →
  no_header img h ∨ ∃ c', (c' = c ∨ c' = Chunk (c_init c) []) ∧ chunk_at sz ss n img h c' ∧ no_header img (chunk_next sz ss h c').
Proof.
  intros Hs Hh Hd [P1 P2 P3 P4 P5 P6 P7] Hg. pose proof (proj1 Hss) as Lss. pose proof (proj1 Hsz) as Lsz. destruct (chunk_end_next h c Hh) as [H1 H2].
  destruct (survives_fixed f img _ _ Hs P3 ltac:(lia)) as [H3 H4]. assert (Z.divide 4 h) as Hd4 by (by etrans).
  destruct (image_word f img h) as (u1 & U1 & E1); [done..|lia|]. destruct (image_word f img (h + 4)) as (u2 & U2 & E2); [done|lia|by apply Z.divide_add_r; [|exists 1]|lia|].
  destruct (image_word f img (h + 8)) as (u3 & U3 & E3); [done|lia|by apply Z.divide_add_r; [|exists 2]|lia|].
  destruct (decide (slice img h 8 = aJournalMagic)) as [E8|E8]; [|by left]. right.
  assert (slice img (h + 12) 16 = slice (now f) (h + 12) 16) as E16 by (apply agree_slice; [lia..|apply fixed_length in P3; lia|eapply agree_sub; [exact H4|lia..]]).
  assert (∀ k, word u3 (h + 8) = sqlite3Put4byte k → header_at sz ss n img h (aJournalMagic ++ sqlite3Put4byte k) (c_init c)) as Hhd.
  { intros k Hk. split; [lia|]. change 28 with (8 + (4 + 16)). rewrite !slice_split by lia. rewrite E8, word_slice, E3, Hk by lia. rewrite <- Z.add_assoc. change (8 + 4) with 12.
    rewrite E16, P4. unfold header_bytes. by rewrite <- app_assoc. }
  assert (records_at sz img (h + ss) (c_init c) (c_recs c)) as Hrs.
  { unfold chunk_end in *. apply (records_agree (now f)); [lia|done|lia|]. eapply agree_sub; [exact H4|lia..]. }
  destruct (P6 u3 U3) as (_ & _ & [Z3|Z3]).
  - exists (Chunk (c_init c) []). split; [by right|]. split; [split; [done|split; [done|split; [|intros ? ? E0; by apply list_elem_of_lookup_2, elem_of_nil in E0]]]|].
    { apply Hhd. by rewrite Z3. }
    unfold chunk_next, chunk_end. cbn [c_recs length]. rewrite round_up_mult; [|lia|lia|rewrite Z.add_0_r; apply Z.divide_add_r; [done|apply Z.divide_refl]].
    rewrite Z.add_0_r. destruct (c_recs c) as [|r rs] eqn:Ec.
    + apply (quiet_image f); [done|lia|by apply Z.divide_add_r|]. unfold chunk_next, chunk_end in P7. rewrite Ec in P7. cbn [length] in P7.
      rewrite round_up_mult in P7; [by rewrite Z.add_0_r in P7|lia|lia|rewrite Z.add_0_r; apply Z.divide_add_r; [done|apply Z.divide_refl]].
    + apply list.Forall_cons in Hg as [[Hg1 Hg2] _]. apply (small_pgno r.1); [done|lia|]. destruct (Hrs 0%nat r eq_refl) as [_ Er]. rewrite Z.mul_0_l, Z.add_0_r in Er.
      by apply (rec_fields sz (c_init c) ltac:(lia)) in Er as [? _]; [|lia|].
  - exists c. split; [by left|]. split; [split; [done|split; [done|split; [by apply Hhd|done]]]|]. apply (quiet_image f); [done|lia| |done]. etrans; [exact Hss4|apply H2].
Qed.
End Chunks.

(** ** Files from which the old database can be recovered *)

Section Recoverable.
Context (sz ss n : Z) (D : list Z).

(** The contents of the database file. *)
Record db_safe (f : file) (cs : list chunk) : Prop := {
  ds_first : cs = [] → ∀ v, v ∈ versions f → v = D;
  ds_length : ∀ v, v ∈ versions f → sz * n ≤ zlen v ≤ 2 ^ 40;
  ds_pages : ∀ v g, v ∈ versions f → 1 ≤ g ≤ n → g ∈ (all_recs cs).*1 ∨ same_page sz g v D }.

(** A record that holds the old content of a page. *)
Definition good_rec (r : Z * list Z) : Prop := rec_ok sz r ∧ orig_rec sz n D r.

Record journal_safe (f : file) (cs : list chunk) : Prop := {
  js_bytes : Forall bytes_ok (versions f);
  js_durable : durable sz ss n f 0 cs;
  js_recs : Forall good_rec (all_recs cs);
  js_tail : quiet f (chunks_next sz ss 0 cs) ∨ ∃ c, pending sz ss n f (chunks_next sz ss 0 cs) c ∧ Forall good_rec (c_recs c) }.

Definition disk_safe (d : disk) : Prop :=
  ∃ cs, db_safe (db d) cs ∧ match jrn d with Some f => journal_safe f cs ∧ (jnew d = true → cs = []) | None => cs = [] end.

(** What a power failure can leave. *)
Definition crash (d : disk) (idb : list Z) (ij : option (list Z)) : Prop :=
  survives (db d) idb ∧
  match ij with
  | Some l => ∃ f, (jrn d = Some f ∨ jgone d = Some f) ∧ survives f l
  | None => jrn d = None ∨ jnew d = true
  end.

Hypothesis (Hsz : size_between 512 sz) (Hss : size_between 32 ss) (Hss4 : Z.divide 4 ss).

Lemma image_bytes f img : Forall bytes_ok (versions f) → survives f img → bytes_ok img.
Proof.
  intros Hb [_ Hw]. apply list.Forall_forall. intros x Hx. apply list_elem_of_lookup in Hx as [i Hi]. pose proof (lookup_lt_Some _ _ _ Hi) as Hl.
  destruct (Hw (Z.of_nat i / 4)) as (u & Hu & H); [apply Z.div_pos; lia|]. destruct (H (Z.of_nat i)) as [E _].
  - pose proof (Z.div_mod (Z.of_nat i) 4). pose proof (Z.mod_pos_bound (Z.of_nat i) 4). lia.
  - lia.
  - assert (at8 img (Z.of_nat i) = x) as <- by (unfold at8; by rewrite Nat2Z.id, Hi). rewrite E. apply at8_byte. by eapply list.Forall_forall in Hb.
Qed.

Lemma db_safe_image f cs idb : survives f idb → db_safe f cs → zlen D = sz * n → 0 ≤ n →
  zlen idb ≤ 2 ^ 40 ∧ sz * n ≤ zlen idb ∧ (cs = [] → idb = D) ∧ ∀ g, 1 ≤ g ≤ n → g ∈ (all_recs cs).*1 ∨ same_page sz g idb D.
Proof.
  intros Hs [D1 D2 D3] HD Hn. pose proof (proj1 Hsz) as Lsz. assert (now f ∈ versions f) as Hnow by (by apply list.elem_of_cons; left). split_and!.
  - destruct Hs as [(v & Hv & ->) _]. by apply D2.
  - apply (survives_length f); [done|]. intros u Hu. by apply D2.
  - intros ->. assert (length idb = length D) as El by (destruct Hs as [(v & Hv & ->) _]; by rewrite (D1 eq_refl v Hv)).
    apply at8_ext; [done|]. intros i Hi. destruct (survives_fixed f idb 0 (zlen D)) as [_ H]; [done| |done|].
    + intros u Hu. rewrite (D1 eq_refl u Hu), (D1 eq_refl _ Hnow). done.
    + rewrite H by lia. by rewrite (D1 eq_refl _ Hnow).
  - intros g Hg. destruct (decide (g ∈ (all_recs cs).*1)) as [|Hno]; [by left|]. right. unfold same_page, page_offset.
    destruct (survives_fixed f idb ((g - 1) * sz) ((g - 1) * sz + sz)) as [_ H]; [done| |nia|].
    + intros u Hu. split; [pose proof (D2 u Hu); nia|]. destruct (D3 u g Hu Hg) as [?|E]; [done|]. destruct (D3 _ g Hnow Hg) as [?|E']; [done|].
      eapply agree_trans; [exact E|]. by apply agree_sym.
    + destruct (D3 _ g Hnow Hg) as [?|E']; [done|]. by eapply agree_trans.
Qed.

Lemma all_recs_app cs c : all_recs (cs ++ [c]) = all_recs cs ++ c_recs c.
Proof. unfold all_recs. rewrite bind_app. cbn. by rewrite app_nil_r. Qed.

Lemma good_small rs : Forall good_rec rs → Forall (λ r, 0 ≤ r.1 < 2 ^ 31 ∧ zlen r.2 = sz) rs.
Proof. intros H. eapply list.Forall_impl; [exact H|]. intros r [(H1 & _ & H2 & _) _]. split; [lia|done]. Qed.

(** Any image of a safe journal can be read, with records of old pages. *)
Lemma journal_safe_image f cs l : journal_safe f cs → survives f l →
  bytes_ok l ∧ ∃ cs', reads_as sz ss n l cs' ∧ Forall (orig_rec sz n D) (all_recs cs') ∧ (∃ k, cs' = cs ++ k).
Proof.
  intros [J1 J2 J3 J4] Hs. pose proof (proj1 Hss) as Lss. split; [by apply (image_bytes f)|]. pose proof (durable_image sz ss n Hsz Hss f l cs Hs 0 ltac:(lia) J2) as Hat.
  assert (0 ≤ chunks_next sz ss 0 cs) as Hh by (apply chunks_next_le; [done..|lia]).
  assert (Z.divide ss (chunks_next sz ss 0 cs)) as Hd by (apply chunks_next_div; [done..|lia|by exists 0]).
  assert (∀ cs', Forall good_rec (all_recs cs') → Forall (rec_ok sz) (all_recs cs') ∧ Forall (orig_rec sz n D) (all_recs cs')) as Hgood.
  { intros cs' H. split; (eapply list.Forall_impl; [exact H|]); by intros r []. }
  assert (no_header l (chunks_next sz ss 0 cs) → ∃ cs', reads_as sz ss n l cs' ∧ Forall (orig_rec sz n D) (all_recs cs') ∧ (∃ k, cs' = cs ++ k)) as Hno.
  { intros H. exists cs. destruct (Hgood cs J3). split; [by split_and!|]. split; [done|]. exists []. by rewrite app_nil_r. }
  destruct J4 as [Hq|(c & Hp & Hc)].
  - apply Hno. apply (quiet_image f); [done..|by etrans|done].
  - destruct (pending_image sz ss n Hsz Hss Hss4 f l _ c Hs Hh Hd Hp (good_small _ Hc)) as [H|(c' & Ec & Hc' & H)]; [by apply Hno|].
    exists (cs ++ [c']). assert (Forall good_rec (all_recs (cs ++ [c']))) as HG.
    { rewrite all_recs_app. apply Forall_app. split; [done|]. destruct Ec as [-> | ->]; [done|by constructor]. }
    destruct (Hgood _ HG). split; [split_and!; [|unfold chunks_next; by rewrite foldl_app|done]|].
    + by apply chunks_at_app.
    + split; [done|by eexists].
Qed.

Lemma disk_safe_image d idb ij : disk_safe d → jgone d = None → crash d idb ij → zlen D = sz * n → 0 ≤ n →
  safe_image sz ss n D idb ij ∧ zlen idb ≤ 2 ^ 40.
Proof.
  intros (cs & Hdb & Hj) Hgone [Hs Hij] HD Hn. destruct (db_safe_image _ _ _ Hs Hdb HD Hn) as (H1 & H2 & H3 & H4). split; [|done]. destruct ij as [l|]; cbn [safe_image].
  - destruct Hij as (f & [Ef|Ef] & Hl); [|by rewrite Hgone in Ef]. rewrite Ef in Hj. destruct Hj as [Hj _].
    destruct (journal_safe_image f cs l Hj Hl) as (Hb & cs' & R1 & R2 & k & ->). split; [done|]. exists (cs ++ k). split; [done|]. split; [done|].
    assert (∀ g, 1 ≤ g ≤ n → g ∈ (all_recs (cs ++ k)).*1 ∨ same_page sz g idb D) as H5.
    { intros g Hg. destruct (H4 g Hg) as [Hin|?]; [|by right]. left. unfold all_recs. rewrite bind_app, fmap_app. apply elem_of_app. by left. }
    destruct (cs ++ k) eqn:Ecs; [|by split]. apply app_eq_nil in Ecs as [-> _]. by apply H3.
  - destruct Hij as [Ej|En].
    + rewrite Ej in Hj. by apply H3.
    + destruct (jrn d); [|by apply H3]. destruct Hj as [_ Hj]. by apply H3, Hj.
Qed.
End Recoverable.
