(* ===== verification/PgFault.v ===== *)
(** * The pager: a hot journal that is not played back

    The sector size of a journal is in its header, but before readJournalHdr reads the header it
    compares the size of the journal with the sector size of the connection that
    reads it. A connection that opens the database with larger sectors than the one that
    wrote the journal takes a short journal for an empty one and deletes it. *)

From S2P Require Import Prelude Varint Buffer Bitvec PgFile PgImage Pager PgTxn PgHot PgJournal.
#[local] Open Scope Z_scope.
#[local] Open Scope c_scope.
#[local] Open Scope list_scope.

(** A connection that has just been opened; the sectors of its device are [ss] bytes long. *)
Definition fresh (sz ss : Z) : Pager :=
  MkPager PAGER_OPEN NO_LOCK SQLITE_OK 0 0 0 0 0 0 0 0 false false (replicate 16 0) 0 sz ss 1073741823 0 0 None [] false false.

Definition plain_settings (m : journal_mode) (ss : Z) : settings := Settings false true false false m (-1) 0 ss 512.

Definition connect (m : journal_mode) (sz ss : Z) (d : disk) : world :=
  World (fresh sz ss) d ∅ (Env [] [] [] []) ∅ (plain_settings m ss).

(** Read a page and change its content. *)
Definition change (pgno : Z) (a : list Z) : sm world Z :=
  rc ← sqlite3PagerGet pgno;
  if negb (rc =? SQLITE_OK) then mret rc else
  rc ← sqlite3PagerWrite pgno;
  if negb (rc =? SQLITE_OK) then mret rc else
  _ ← on_page pgno (set_data a);
  mret SQLITE_OK.

(** A transaction that changes two pages and has written the first one to the file. *)
Definition two_pages (p1 p2 : list Z) : sm world Z :=
  _ ← sqlite3PagerSharedLock;
  _ ← sqlite3PagerBegin false;
  _ ← change 1 p1;
  _ ← change 2 p2;
  pagerStress 1.

Definition content (w : world) : list Z := now (db (dk w)).

(** The database before the transaction, and what the transaction writes. *)
Definition old_page : list Z := replicate 512 1.
Definition new_page : list Z := replicate 512 2.
Definition before : disk := Disk (File (old_page ++ old_page) []) None false None [].

(** After a transaction of a connection with sectors of 512 bytes was interrupted, a connection
    with sectors of 512 bytes restores the old database; one with sectors of 4096
    bytes succeeds too, but leaves the first page new and the second one old, and deletes the journal. *)
Theorem short_hot_journal_lost :
  returns (two_pages new_page new_page (connect DELETE 512 512 before)) (λ rc w, rc = SQLITE_OK ∧
    returns (sqlite3PagerSharedLock (connect DELETE 512 512 (dk w))) (λ rc w1, rc = SQLITE_OK ∧ content w1 = content (connect DELETE 512 512 before)) ∧
    returns (sqlite3PagerSharedLock (connect DELETE 512 4096 (dk w))) (λ rc w2, rc = SQLITE_OK ∧ jrn (dk w2) = None ∧
      slice (content w2) 0 24 = slice new_page 0 24 ∧ slice (content w2) 512 512 = old_page)).
Proof.
  eexists _, _. split; [vm_compute; reflexivity|]. split; [reflexivity|].
  split; (eexists _, _; split; [vm_compute; reflexivity|]); repeat split.
Qed.
