(* ===== verification/PgWriting.v ===== *)
(** * The pager: the journal of a running transaction

    How the operations on the journal behave whatever the operating system answers:
    the calls ([OsWrite_any] and the like), writing a header, appending a record and
    [syncJournal]. Between them the journal has chunks that have reached the disk and an open chunk
    ([open_chunk]), and the files are always safe. *)

From S2P Require Import Prelude Varint Buffer Bitvec PgFile PgImage Pager PgTxn PgHot PgJournal PgRecover PgInv.
#[local] Open Scope Z_scope.
#[local] Open Scope c_scope.
#[local] Open Scope list_scope.

(** ** Calls with any answer *)

Lemma returns_mono {A} (r : outcome (A * world)) (R Q : A → world → Prop) : returns r R → (∀ a w, R a w → Q a w) → returns r Q.
Proof. intros (a & w & E & H) HQ. exists a, w. split; [done|by apply HQ]. Qed.

(** An error other than the two that are not always passed on. *)
Definition failed (rc : Z) : Prop := rc ≠ SQLITE_OK ∧ rc ≠ SQLITE_BUSY ∧ rc ≠ SQLITE_IOERR_SHORT_READ.

(** The world after answers were consumed. *)
Definition tick (e : list answer) (w : world) : world := set_en (set_events e) w.

Lemma failed_ok rc : failed rc → (rc =? SQLITE_OK) = false.
Proof. intros [H _]. by apply Z.eqb_neq. Qed.
Lemma failed_short rc : failed rc → (rc =? SQLITE_IOERR_SHORT_READ) = false.
Proof. intros (_ & _ & H). by apply Z.eqb_neq. Qed.
Lemma failed_busy rc : failed rc → (rc =? SQLITE_BUSY) = false.
Proof. intros (_ & H & _). by apply Z.eqb_neq. Qed.

(** A result code that is an error. *)
Ltac failb H := cbv beta iota; rewrite ?(failed_ok _ H), ?(failed_short _ H); cbn [negb andb orb]; cbv iota.

Lemma next_answer_any w : returns (next_answer w) (λ _ w', ∃ e, w' = tick e w).
Proof. unfold next_answer. destruct (events (en w)) as [|e es] eqn:E; apply returns_ret; [exists []|by exists es]. unfold tick, set_en, set_events. rewrite <- E. by destruct w as [? ? ? [] ? ?]. Qed.

Lemma answer_rc_any err a : failed err → answer_rc err a = SQLITE_OK ∨ failed (answer_rc err a).
Proof. intros H. destruct a; cbn; [by left|by right|right; by split_and!|by right]. Qed.

Lemma os_call_any err w : failed err → returns (os_call err w) (λ rc w', (∃ e, w' = tick e w) ∧ (rc = SQLITE_OK ∨ failed rc)).
Proof. intros H. unfold os_call. eapply returns_bind; [apply next_answer_any|]. intros a w' Hw. apply returns_mret. split; [done|by apply answer_rc_any]. Qed.

Lemma the_file_tick h e w : the_file h (tick e w) = the_file h w.
Proof. done. Qed.

(** A write, which may end after some words. *)
Lemma OsWrite_any w h f a off : the_file h w = Ret f →
  returns (sqlite3OsWrite h a off w) (λ rc w', ∃ e j, w' = set_dk (set_file h (file_write off (take (4 * j) a) f)) (tick e w) ∧ (rc = SQLITE_OK ∧ take (4 * j) a = a ∨ failed rc)).
Proof.
  intros Hf. unfold sqlite3OsWrite. eapply returns_bind; [apply next_answer_any|]. intros a' w1 [e ->]. cbv zeta. unfold change_file. rewrite bind_assoc, (bind_gets _ _ _ f) by done. prun. apply returns_mret.
  destruct (answer_rc_any SQLITE_IOERR_WRITE a') as [E|E]; [by split_and!| |].
  - rewrite E. okb. exists e, (length a). rewrite take_ge by lia. split; [done|by left].
  - rewrite (failed_ok _ E). exists e, (Z.to_nat (answer_n a')). split; [|by right]. do 4 f_equal. lia.
Qed.

Lemma OsSync_any w h f : the_file h w = Ret f → h ≠ Sjfd →
  returns (sqlite3OsSync h w) (λ rc w', ∃ e, rc = SQLITE_OK ∧ w' = set_dk (λ d, match h with Jfd => set_jnew false (set_file h (file_sync f) d) | _ => set_file h (file_sync f) d end) (tick e w) ∨
    failed rc ∧ w' = tick e w).
Proof.
  intros Hf Hh. unfold sqlite3OsSync. rewrite (bind_gets _ _ _ f) by done. eapply returns_bind; [apply os_call_any; by split_and!|]. intros rc w1 ([e ->] & [-> |Hrc]).
  - okb. unfold change_file. rewrite bind_assoc, (bind_gets _ _ _ f) by done. prun. destruct h; [| |done]; prun; apply returns_mret; exists e; by left.
  - failb Hrc. apply returns_mret. exists e. by right.
Qed.

Lemma OsRead_any w h f amt off : the_file h w = Ret f → 0 < amt → 0 ≤ off →
  returns (sqlite3OsRead h amt off w) (λ a w', ∃ e, w' = tick e w ∧ zlen a.2 = amt ∧
    (a.1 = SQLITE_OK ∧ a.2 = slice (now f) off amt ∧ off + amt ≤ zlen (now f) ∨
     a.1 = SQLITE_IOERR_SHORT_READ ∧ zlen (now f) < off + amt ∧ a.2 = slice (now f) off amt ++ replicate (Z.to_nat amt - length (slice (now f) off amt)) 0 ∨ failed a.1)).
Proof.
  intros Hf Ha Ho. unfold sqlite3OsRead. rewrite (bind_gets _ _ _ f) by done. eapply returns_bind; [apply next_answer_any|]. intros a' w1 [e ->]. cbv zeta.
  assert (length (slice (now f) off amt) = (Z.to_nat amt `min` (length (now f) - Z.to_nat off))%nat) as EL by (unfold slice; by rewrite length_take, length_drop).
  destruct (answer_rc_any SQLITE_IOERR_READ a') as [E|E]; [by split_and!| |].
  - rewrite E. okb. rewrite (proj2 (Z.ltb_ge off 0)) by lia. destruct (Z.ltb_spec (zlen (slice (now f) off amt)) amt) as [Hs|Hs]; apply returns_mret; exists e; cbn [fst snd].
    + split; [done|]. split; [rewrite length_app, length_replicate; lia|]. right; left. split_and!; [done|lia|done].
    + split; [done|]. split; [lia|]. left. split_and!; [done..|lia].
  - failb E. apply returns_mret. exists e. cbn [fst snd]. rewrite length_replicate. split; [done|]. split; [lia|by right; right].
Qed.

Lemma OsTruncate_any w h f n : the_file h w = Ret f →
  returns (sqlite3OsTruncate h n w) (λ rc w', ∃ e, rc = SQLITE_OK ∧ w' = set_dk (set_file h (file_truncate n f)) (tick e w) ∨ failed rc ∧ w' = tick e w).
Proof.
  intros Hf. unfold sqlite3OsTruncate. rewrite (bind_gets _ _ _ f) by done. eapply returns_bind; [apply os_call_any; by split_and!|]. intros rc w1 ([e ->] & [-> |Hrc]).
  - okb. unfold change_file. rewrite bind_assoc, (bind_gets _ _ _ f) by done. prun. apply returns_mret. exists e. by left.
  - failb Hrc. apply returns_mret. exists e. by right.
Qed.

(** Binding the result of a call that gives two. *)
Lemma returns_bind_pair {A B C E} (m : sm world (A * B)) (k : A → B → sm world C) (l : C → sm world E) w Q R :
  returns ((m ≫= λ '(a, b), k a b) w) R → (∀ c w', R c w' → returns (l c w') Q) → returns ((m ≫= λ '(a, b), k a b ≫= l) w) Q.
Proof.
  intros (c & w' & E1 & H) Hl. destruct (Hl c w' H) as (x & w2 & E2 & H2). exists x, w2. split; [|done].
  unfold mbind, sm_bind in *. destruct (m w) as [[[a b] w1]|]; [|done]. by rewrite E1.
Qed.

(** ** Locks *)

(** A lock was granted, or nothing has changed. *)
Lemma pagerLockDb_any w lock : lock = SHARED_LOCK ∨ lock = RESERVED_LOCK ∨ lock = EXCLUSIVE_LOCK → eLock (pg w) ≠ UNKNOWN_LOCK →
  returns (pagerLockDb lock w) (λ rc w', (length (events (en w')) ≤ length (events (en w)))%nat ∧
    (rc = SQLITE_OK ∧ (∃ e, w' = set_pg (set_eLock (eLock (pg w) `max` lock)) (tick e w)) ∨
     rc ≠ SQLITE_OK ∧ (∃ e, w' = tick e w) ∧ (rc = SQLITE_BUSY ∧ (length (events (en w')) < length (events (en w)))%nat ∨ failed rc))).
Proof.
  intros Hl Hu. unfold pagerLockDb. rewrite bind_assert by (destruct Hl as [-> |[-> | ->]]; done). prun. rewrite (proj2 (Z.eqb_neq _ _) Hu), orb_false_r.
  destruct (Z.ltb_spec (eLock (pg w)) lock) as [Hlt|Hge].
  - unfold next_answer. destruct (events (en w)) as [|a es] eqn:E.
    + rewrite (sm_bind_run _ _ _ (Done 0) w) by (by rewrite E). cbn [lock_rc]. okb. prun. apply returns_mret. split; [cbn; rewrite E; done|]. left. split; [done|]. exists [].
      rewrite Z.max_r by lia. unfold tick, set_en, set_events. rewrite <- E. by destruct w as [? ? ? [] ? ?].
    + rewrite (sm_bind_run _ _ _ a (tick es w)) by (by rewrite E). destruct a; cbn [lock_rc]; cbv zeta; okb; prun; apply returns_mret; cbn -[SQLITE_OK].
      * split; [lia|]. left. split; [done|]. exists es. by rewrite Z.max_r by lia.
      * split; [lia|]. right. split; [done|]. split; [by exists es|]. right. by split_and!.
      * split; [lia|]. right. split; [done|]. split; [by exists es|]. right. by split_and!.
      * split; [lia|]. right. split; [done|]. split; [by exists es|]. left. split; [done|]. cbn. lia.
  - apply returns_mret. split; [done|]. left. split; [done|]. exists (events (en w)). rewrite Z.max_l by lia. by destruct w as [[] ? ? [] ? ?].
Qed.

Lemma next_answer_less w : returns (next_answer w) (λ _ w', ∃ e, w' = tick e w ∧ (length e ≤ length (events (en w)))%nat).
Proof.
  unfold next_answer. destruct (events (en w)) as [|e es] eqn:E; apply returns_ret; [exists []|exists es; split; [done|cbn; lia]]. split; [|done].
  unfold tick, set_en, set_events. rewrite <- E. by destruct w as [? ? ? [] ? ?].
Qed.

Lemma lock_loop_any lock fuel : ∀ w, (length (events (en w)) ≤ fuel)%nat → lock = SHARED_LOCK ∨ lock = RESERVED_LOCK ∨ lock = EXCLUSIVE_LOCK → eLock (pg w) ≠ UNKNOWN_LOCK →
  returns (lock_loop fuel lock w) (λ rc w', rc = SQLITE_OK ∧ (∃ e, w' = set_pg (set_eLock (eLock (pg w) `max` lock)) (tick e w)) ∨
    rc ≠ SQLITE_OK ∧ (∃ e, w' = tick e w) ∧ (rc = SQLITE_BUSY ∨ failed rc)).
Proof.
  induction fuel as [|fuel IH]; intros w Hle Hl Hu; cbn [lock_loop]; (eapply returns_bind; [by apply pagerLockDb_any|]);
    intros rc w1 (L1 & [(-> & Hw)|(Hrc & [e ->] & Hb)]); try (apply returns_mret; by left).
  - destruct Hb as [[-> Hb]|Hb]; [lia|]. rewrite (failed_busy _ Hb). apply returns_mret. right. split; [done|]. split; [by exists e|by right].
  - destruct Hb as [[-> Hb]|Hb].
    2: { rewrite (failed_busy _ Hb). apply returns_mret. right. split; [done|]. split; [by exists e|by right]. }
    change (SQLITE_BUSY =? SQLITE_BUSY) with true. cbv iota. eapply returns_bind; [apply next_answer_less|]. intros a w2 (e2 & -> & L2).
    destruct (negb _); [|apply returns_mret; right; split; [done|]; split; [by exists e2|by left]].
    cbn in L1, L2, Hb. destruct (IH (tick e2 (tick e w))) as (rc & w3 & E & H); [cbn; lia|done|done|]. exists rc, w3. split; [done|].
    destruct H as [(-> & e3 & ->)|(H1 & [e3 ->] & H2)]; [left; split; [done|by exists e3]|right]. split; [done|]. split; [by exists e3|done].
Qed.

Lemma ExclusiveLock_any w : eState (pg w) = PAGER_WRITER_CACHEMOD ∨ eState (pg w) = PAGER_WRITER_DBMOD → eLock (pg w) = RESERVED_LOCK ∨ eLock (pg w) = EXCLUSIVE_LOCK →
  returns (sqlite3PagerExclusiveLock w) (λ rc w', rc = SQLITE_OK ∧ (∃ e, w' = set_pg (set_eLock EXCLUSIVE_LOCK) (tick e w)) ∨
    rc ≠ SQLITE_OK ∧ (∃ e, w' = tick e w) ∧ (rc = SQLITE_BUSY ∨ failed rc)).
Proof.
  intros Hs Hl. unfold sqlite3PagerExclusiveLock. rewrite bind_assert by (by destruct Hs as [-> | ->]). unfold pager_wait_on_lock. rewrite bind_assert by (by destruct Hl as [-> | ->]). prun.
  destruct (lock_loop_any EXCLUSIVE_LOCK (length (events (en w))) w) as (rc & w' & E & H); [done|auto|by destruct Hl as [-> | ->]|].
  rewrite E. apply returns_ret. replace (eLock (pg w) `max` EXCLUSIVE_LOCK) with EXCLUSIVE_LOCK in H by (by destruct Hl as [-> | ->]). done.
Qed.

Lemma put4_is_bytes v : bytes_ok (sqlite3Put4byte v).
Proof. unfold sqlite3Put4byte. repeat constructor; apply uw_range; lia. Qed.

(** ** The open chunk *)

Section Journal.
Context (sz ss n : Z) (D : list Z) (k : settings).
Hypothesis (Hsz : size_between 512 sz) (Hss : size_between 32 ss) (Hss4 : Z.divide 4 ss) (Hle : ss ≤ sz) (Hn : 0 ≤ n < 2 ^ 31) (HD : zlen D = sz * n) (HbD : bytes_ok D).

(** The settings: synced journals in a file that is deleted or truncated at the end. *)
Record settings_ok : Prop := {
  so_sync : noSync k = false;
  so_full : fullSync k = true;
  so_excl : exclusiveMode k = false;
  so_write : readOnly k = false;
  so_mode : journalMode k = DELETE ∨ journalMode k = TRUNCATE;
  so_append : deviceCharacteristics k .& SQLITE_IOCAP_SAFE_APPEND = 0;
  so_sequential : deviceCharacteristics k .& SQLITE_IOCAP_SEQUENTIAL = 0 }.
Hypothesis (Hk : settings_ok).

(** Files from which the old database can be recovered. *)
Definition safe (w : world) : Prop := disk_safe sz ss n D (dk w) ∧ jgone (dk w) = None.

(** A chunk behind [h] whose header is not valid yet. *)
Record open_chunk (f : file) (h init : Z) (rs : list (Z * list Z)) : Prop := {
  oc_init : in_uw 32 init;
  oc_first : slice (now f) h 12 = replicate 12 0;
  oc_fields : slice (now f) (h + 12) 16 = sqlite3Put4byte init ++ sqlite3Put4byte n ++ sqlite3Put4byte ss ++ sqlite3Put4byte sz;
  oc_recs : records_at sz (now f) (h + ss) init rs;
  oc_end : chunk_end sz ss h rs ≤ zlen (now f);
  oc_quiet : quiet f h }.

(** The part of a journal that has reached the disk. *)
Record on_disk_chunks (f : file) (cs : list chunk) : Prop := {
  od_bytes : Forall bytes_ok (versions f);
  od_durable : durable sz ss n f 0 cs;
  od_good : Forall (good_rec sz n D) (all_recs cs) }.

(** What the operations on the journal rely on. *)
Record in_txn (f : file) (cs : list chunk) (w : world) : Prop := {
  it_cf : cf w = k;
  it_open : jopen (pg w) = true;
  it_jrn : jrn (dk w) = Some f;
  it_new : jnew (dk w) = true → cs = [];
  it_gone : jgone (dk w) = None;
  it_page : pageSize (pg w) = sz;
  it_sector : sectorSize (pg w) = ss;
  it_orig : dbOrigSize (pg w) = n;
  it_points : aSavepoint (pg w) = [];
  it_chunks : on_disk_chunks f cs;
  it_db : db_safe sz n D (db (dk w)) cs }.

Definition next_header (cs : list chunk) : Z := chunks_next sz ss 0 cs.

Record journalling (f : file) (cs : list chunk) (rs : list (Z * list Z)) (w : world) : Prop := {
  jl_txn : in_txn f cs w;
  jl_hdr : journalHdr (pg w) = next_header cs;
  jl_off : journalOff (pg w) = chunk_end sz ss (next_header cs) rs;
  jl_nrec : nRec (pg w) = zlen rs;
  jl_chunk : open_chunk f (next_header cs) (cksumInit (pg w)) rs;
  jl_good : Forall (good_rec sz n D) rs;
  jl_nodup : NoDup (all_recs cs ++ rs).*1 }.

Lemma next_header_pos cs : 0 ≤ next_header cs.
Proof. by apply chunks_next_le. Qed.
Lemma next_header_div cs : Z.divide ss (next_header cs).
Proof. apply chunks_next_div; [done..|by exists 0]. Qed.

Lemma safe_intro f cs w : in_txn f cs w → quiet f (next_header cs) ∨ (∃ c, pending sz ss n f (next_header cs) c ∧ Forall (good_rec sz n D) (c_recs c)) → safe w.
Proof. intros [] Ht. split; [|done]. exists cs. split; [done|]. rewrite it_jrn0. split; [|done]. destruct it_chunks0. by split. Qed.

Lemma journalling_safe f cs rs w : journalling f cs rs w → safe w.
Proof. intros []. apply (safe_intro f cs); [done|]. left. apply jl_chunk0. Qed.

Lemma in_txn_file f cs w : in_txn f cs w → the_file Jfd w = Ret f.
Proof. intros []. unfold the_file. by rewrite it_open0, it_jrn0. Qed.

Lemma in_txn_en f cs g w : in_txn f cs w → in_txn f cs (set_en g w).
Proof. intros []. by split. Qed.

(** Appending behind the chunks that are on the disk. *)
Lemma bytes_write l off a : bytes_ok l → bytes_ok a → bytes_ok (write_at l off a).
Proof.
  intros Hl Ha. unfold write_at. destruct a as [|x a]; [done|]. unfold bytes_ok in *. rewrite !Forall_app. split_and!; [|done|by apply Forall_drop].
  apply Forall_take. rewrite Forall_app. split; [done|]. by apply Forall_replicate.
Qed.

Lemma on_disk_write f cs off a : on_disk_chunks f cs → next_header cs ≤ off → bytes_ok a → on_disk_chunks (file_write off a f) cs.
Proof.
  intros [B U G] Ho Ha. split; [|by apply durable_write|done]. apply list.Forall_forall. intros u [Hu|[_ ->]]%versions_write; [by eapply list.Forall_forall in B|].
  apply bytes_write; [|done]. by apply list.Forall_cons in B as [? _].
Qed.

Lemma in_txn_write f cs w off a e : in_txn f cs w → next_header cs ≤ off → bytes_ok a →
  in_txn (file_write off a f) cs (set_dk (set_file Jfd (file_write off a f)) (tick e w)).
Proof. intros [] Ho Ha. split; try done. by apply on_disk_write. Qed.

Lemma on_disk_sync f cs : on_disk_chunks f cs → on_disk_chunks (file_sync f) cs.
Proof. intros [B U G]. split; [|by apply durable_sync|done]. apply list.Forall_cons in B as [? _]. by repeat constructor. Qed.

Lemma in_txn_sync f cs w e : in_txn f cs w → in_txn (file_sync f) cs (set_dk (λ d, set_jnew false (set_file Jfd (file_sync f) d)) (tick e w)).
Proof. intros []. split; try done. by apply on_disk_sync. Qed.

Lemma in_txn_assign f cs w g : in_txn f cs w → jopen (g (pg w)) = jopen (pg w) → pageSize (g (pg w)) = pageSize (pg w) → sectorSize (g (pg w)) = sectorSize (pg w) →
  dbOrigSize (g (pg w)) = dbOrigSize (pg w) → aSavepoint (g (pg w)) = aSavepoint (pg w) → in_txn f cs (set_pg g w).
Proof. intros [] ? ? ? ? ?. split; cbn; congruence || done. Qed.

(** What the operations on the journal leave alone. *)
Definition rest (p : Pager) :=
  (eState p, eLock p, errCode p, dbSize p, dbFileSize p, dbHintSize p, mxPgno p, doNotSpill p, pInJournal p, dbFileVers p, changeCountDone p, setMaster p).
Definition only_journal (w w' : world) : Prop := rest (pg w') = rest (pg w) ∧ cache w' = cache w ∧ refs w' = refs w ∧ db (dk w') = db (dk w).

Lemma only_journal_trans w1 w2 w3 : only_journal w1 w2 → only_journal w2 w3 → only_journal w1 w3.
Proof. intros (? & ? & ? & ?) (? & ? & ? & ?). split_and!; congruence. Qed.

Lemma randomness_any w : returns (sqlite3_randomness w) (λ v w', in_uw 32 v ∧ ∃ r, w' = set_en (set_random r) w).
Proof.
  unfold sqlite3_randomness. destruct (random (en w)) as [|v r] eqn:E; apply returns_ret; (split; [|eexists]); [done| |by apply uw_range|done].
  instantiate (1 := []). unfold set_en, set_random. rewrite <- E. by destruct w as [? ? ? [] ? ?].
Qed.

(** Writing zeros over a header. *)
Lemma quiet_zeros f h a j : quiet f h → 0 ≤ h → take 8 a = replicate 8 0 → Z.divide 4 (zlen a) → quiet (file_write h (take (4 * j) a) f) h.
Proof.
  intros Hq Hh H8 [q Hq4]. apply quiet_write; [done..|]. right; right. split; [done|]. exists (4 * j)%nat. split.
  - rewrite <- (take_drop 8 a), H8. set (b := drop 8 a). set (R := replicate 8 0). assert (length R = 8%nat) as HR by done. clearbody R. destruct (decide (4 * j ≤ 8)%nat).
    + by rewrite !take_app_le by lia.
    + rewrite !take_app_ge, HR by lia. rewrite drop_app_length' by done. by rewrite take_take, Nat.min_id.
  - rewrite length_take. assert (4 | Z.of_nat (4 * j) `min` zlen a)%Z as Hd by (destruct (Z.min_spec (Z.of_nat (4 * j)) (zlen a)) as [[_ ->]|[_ ->]]; [exists (Z.of_nat j); lia|by exists q]).
    destruct (Z.min_spec (Z.of_nat (Nat.min (4 * j) (length a))) 8) as [[_ E]|[_ E]]; rewrite E; [|by exists 2]. by rewrite Nat2Z.inj_min.
Qed.

Definition new_header (init : Z) : list Z := header_bytes (replicate 12 0) init n ss sz ++ replicate (Z.to_nat (ss - 28)) 0.

Lemma new_header_length init : zlen (new_header init) = ss.
Proof. pose proof (proj1 Hss). unfold new_header. rewrite length_app, length_replicate. cbn [length app header_bytes replicate]. cbn. lia. Qed.

Lemma new_header_bytes init : bytes_ok (new_header init).
Proof.
  unfold new_header, header_bytes, bytes_ok. rewrite !Forall_app. split_and!; try apply put4_is_bytes; by apply Forall_replicate.
Qed.

Lemma open_new f h init : quiet f h → 0 ≤ h → in_uw 32 init → open_chunk (file_write h (new_header init) f) h init [].
Proof.
  intros Hq Hh Hi. pose proof (proj1 Hss) as Lss. pose proof (new_header_length init) as Hl.
  assert (slice (write_at (now f) (Z.to_nat h) (new_header init)) h ss = new_header init) as Es by (rewrite <- Hl at 1; by apply write_at_slice).
  assert (∀ a b, 0 ≤ a → 0 ≤ b → a + b ≤ ss → slice (write_at (now f) (Z.to_nat h) (new_header init)) (h + a) b = slice (new_header init) a b) as Esub.
  { intros a b Ha Hb Hab. rewrite <- (slice_slice _ h ss a b), Es by lia. done. }
  split; [done|..]; rewrite ?now_write.
  - pose proof (Esub 0 12 ltac:(lia) ltac:(lia) ltac:(lia)) as E0. rewrite Z.add_0_r in E0. by rewrite E0.
  - rewrite Esub by lia. done.
  - intros i r E. by apply list_elem_of_lookup_2, elem_of_nil in E.
  - unfold chunk_end. cbn [length]. rewrite write_at_length by (intros E; rewrite E in Hl; cbn in Hl; lia). lia.
  - replace (new_header init) with (take (4 * length (new_header init)) (new_header init)) by (by rewrite take_ge by lia).
    apply quiet_zeros; [done..|]. by rewrite Hl.
Qed.

(** Writing a header: a new open chunk. *)
Lemma writeJournalHdr_any f cs w : in_txn f cs w → quiet f (next_header cs) → round_up ss (journalOff (pg w)) = next_header cs → nRec (pg w) = 0 → NoDup (all_recs cs).*1 →
  returns (writeJournalHdr w) (λ rc w', safe w' ∧ only_journal w w' ∧ (rc = SQLITE_OK ∧ (∃ f', journalling f' cs [] w') ∨ failed rc)).
Proof.
  intros Ht Hq Ho Hr Hnd. pose proof (proj1 Hss) as Lss. pose proof (next_header_pos cs) as Hh. set (h := next_header cs) in *. unfold writeJournalHdr. rewrite bind_assert by apply Ht. prun.
  assert (JOURNAL_HDR_SZ (pg w) = ss) as ES by apply Ht. assert (pageSize (pg w) = sz) as EP by apply Ht. assert (dbOrigSize (pg w) = n) as EO by apply Ht. assert (sectorSize (pg w) = ss) as ES' by apply Ht.
  rewrite ES, EP. assert ((if ss <? sz then ss else sz) = ss) as -> by (destruct (Z.ltb_spec ss sz); lia). rewrite EO, ES'.
  set (w1 := set_pg _ (set_pg _ w)). assert (in_txn f cs w1 ∧ only_journal w w1 ∧ journalHdr (pg w1) = h ∧ journalOff (pg w1) = h ∧ nRec (pg w1) = 0) as (Ht1 & O1 & J1 & J2 & J3).
  { unfold w1. split; [|split; [done|]].
    - repeat apply in_txn_assign; try done. cbn. by rewrite (it_points _ _ _ Ht).
    - cbn. unfold journalHdrOffset, JOURNAL_HDR_SZ. cbn. by rewrite ES', Ho. }
  change (cf w1) with (cf w). rewrite (it_cf _ _ _ Ht), (so_sync Hk), (so_append Hk). change (false || negb (0 =? 0)) with false. cbv iota. clearbody w1.
  eapply returns_bind; [apply randomness_any|]. intros init w2 (Hi & r & ->). prun. set (w2 := set_pg _ (set_en _ w1)).
  assert (in_txn f cs w2 ∧ only_journal w w2 ∧ journalHdr (pg w2) = h ∧ journalOff (pg w2) = h ∧ nRec (pg w2) = 0 ∧ cksumInit (pg w2) = init) as (Ht2 & O2 & K1 & K2 & K3 & K4).
  { unfold w2. split; [by apply in_txn_assign; try apply in_txn_en|]. split_and!; try done. }
  clearbody w2. clear w1 Ht1 O1 J1 J2 J3. fold (new_header init). pose proof (new_header_length init) as HL.
  destruct (Z.to_nat ss) as [|fuel] eqn:EF; [lia|]. cbn [write_hdr_loop]. prun. assert (JOURNAL_HDR_SZ (pg w2) = ss) as -> by apply Ht2. rewrite (proj2 (Z.ltb_lt 0 ss)) by lia. prun. rewrite K2.
  eapply returns_bind; [apply (OsWrite_any w2 Jfd f); by apply (in_txn_file f cs)|]. intros rc w3 (e & j & -> & Hrc).
  assert (in_txn (file_write h (take (4 * j) (new_header init)) f) cs (set_dk (set_file Jfd (file_write h (take (4 * j) (new_header init)) f)) (tick e w2))) as Ht3.
  { apply in_txn_write; [done..|]. apply Forall_take, new_header_bytes. }
  assert (quiet (file_write h (take (4 * j) (new_header init)) f) h) as Hq3 by (apply quiet_zeros; [done..|by rewrite HL]).
  set (w3 := set_dk _ (tick e w2)) in *. assert (only_journal w w3 ∧ pg w3 = pg w2) as [O3 P3] by done. clearbody w3.
  rewrite bind_assert by (rewrite P3, K1, K2; apply Z.leb_refl). prun. set (w4 := set_pg _ w3).
  assert (in_txn (file_write h (take (4 * j) (new_header init)) f) cs w4) as Ht4 by (by apply in_txn_assign).
  assert (safe w4) as S4 by (apply (safe_intro _ _ _ Ht4); by left). assert (only_journal w w4) as O4 by done.
  destruct Hrc as [[-> Ea]|Hf].
  - okb. destruct fuel as [|fuel]; [cbn in EF; lia|]. cbn [write_hdr_loop]. prun. assert (JOURNAL_HDR_SZ (pg w4) = ss) as -> by apply Ht4. rewrite Z.add_0_l, Z.ltb_irrefl. apply returns_mret.
    split_and!; [done..|]. left. split; [done|]. rewrite Ea in Ht4. exists (file_write h (new_header init) f). split; try done.
    + unfold w4. cbn. by rewrite P3.
    + unfold w4. cbn. rewrite P3, K2. unfold chunk_end. cbn. fold h. lia.
    + unfold w4. cbn. by rewrite P3, K3.
    + unfold w4. cbn. rewrite P3, K4. by apply open_new.
    + by rewrite app_nil_r.
  - failb Hf. apply returns_mret. split_and!; try done. by right.
Qed.

(** ** Making the open chunk valid *)

Lemma now_in f : now f ∈ versions f.
Proof. by apply list.elem_of_cons; left. Qed.

Lemma quiet_synced f h : quiet f h → quiet (file_sync f) h.
Proof. pose proof (now_in f) as Hn'. intros [H|H]; [left|right]; intros u Hu%list_elem_of_singleton; subst; by apply H. Qed.

Lemma slice_words l h a b c : 0 ≤ h → slice l h 12 = a ++ b ++ c → length a = 4%nat → length b = 4%nat → length c = 4%nat → word l h = a ∧ word l (h + 4) = b ∧ word l (h + 8) = c.
Proof.
  intros Hh E La Lb Lc. assert (h + 12 ≤ zlen l) as Hl.
  { apply (f_equal length) in E. unfold slice in E. rewrite length_take, length_drop, !length_app, La, Lb, Lc in E. lia. }
  rewrite <- !word_slice by lia. change 12 with (4 + (4 + 4)) in E. rewrite !slice_split in E by lia. replace (h + 8) with (h + 4 + 4) by lia.
  apply app_inj_1 in E as [-> E]; [|rewrite slice_length; lia]. apply app_inj_1 in E as [-> ->]; [done|rewrite slice_length; lia].
Qed.

Lemma pending_open f h init rs : open_chunk f h init rs → past f = [] → 0 ≤ h → zlen rs < 0xffffffff → quiet f (chunk_next sz ss h (Chunk init rs)) → pending sz ss n f h (Chunk init rs).
Proof.
  intros [] Hp Hh Hc Hq. assert (f = file_sync f) as Ef by (destruct f; cbn in *; by subst).
  destruct (slice_words (now f) h zero4 zero4 zero4) as (W1 & W2 & W3); [done..|].
  split; cbn [c_init c_recs]; try done.
  - rewrite Ef. by apply fixed_sync.
  - intros u Hu. rewrite Ef in Hu. apply list_elem_of_singleton in Hu as ->. cbn. rewrite W1, W2, W3. auto.
Qed.

Definition valid_first (rs : list (Z * list Z)) : list Z := aJournalMagic ++ sqlite3Put4byte (zlen rs).

Lemma word_write l h x a m : 0 ≤ h → h ≤ x → Z.divide 4 (x - h) → zlen a = 4 * m → x + 4 ≤ h + zlen a → word (write_at l (Z.to_nat h) a) x = word a (x - h).
Proof. intros Hh Hx Hd Ha Hl. unfold word. rewrite !at8_write_at, !decide_True by lia. repeat (f_equal; try lia). Qed.

Lemma word_take a j x : 0 ≤ x → x + 4 ≤ 4 * Z.of_nat j → word (take (4 * j) a) x = word a x.
Proof. intros Hx Hl. unfold word, at8. by rewrite !lookup_take_lt by lia. Qed.

(** After part of a valid header is written the chunk is still pending. *)
Lemma pending_write f h c j : 0 ≤ h → pending sz ss n f h c → pending sz ss n (file_write h (take (4 * j) (valid_first (c_recs c))) f) h c.
Proof.
  intros Hh [P1 P2 P3 P4 P5 P6 P7]. pose proof (proj1 Hss) as Lss. set (a := take (4 * j) (valid_first (c_recs c))).
  assert (zlen a = 4 * (Z.of_nat j `min` 3)) as La by (unfold a; rewrite length_take; cbn; lia).
  destruct (chunk_end_next sz ss Hsz Hss h c Hh) as [Hend _].
  assert (fixed (file_write h a f) (h + 12) (chunk_end sz ss h (c_recs c))) as Hfix by (apply fixed_write; [done|lia..]).
  assert (agree (h + 12) (chunk_end sz ss h (c_recs c)) (now (file_write h a f)) (now f)) as Hag by (rewrite now_write; apply agree_write; lia).
  pose proof (fixed_length _ _ _ Hfix) as HL. pose proof (fixed_length _ _ _ P3) as HL0.
  split; try done.
  - rewrite <- P4. apply agree_slice; [lia..|]. eapply agree_sub; [exact Hag|lia..].
  - unfold chunk_end in *. apply (records_agree sz Hsz (now f)); [lia|done|lia|]. eapply agree_sub; [exact Hag|lia..].
  - intros u [Hu|[_ ->]]%versions_write; [by apply P6|]. destruct (P6 _ (now_in f)) as (Q1 & Q2 & Q3).
    assert (∀ x y, x = 0 ∨ x = 4 ∨ x = 8 → word (valid_first (c_recs c)) x = y → (word (now f) (h + x) = zero4 ∨ word (now f) (h + x) = y) →
      word (write_at (now f) (Z.to_nat h) a) (h + x) = zero4 ∨ word (write_at (now f) (Z.to_nat h) a) (h + x) = y) as Hw.
    { intros x y Hx Ey Hor. destruct (decide (x + 4 ≤ zlen a)) as [Hin|Hout].
      - right. rewrite (word_write _ _ _ _ (Z.of_nat j `min` 3)); [|lia|lia| |done|lia]; [|by destruct Hx as [-> |[-> | ->]]; [exists 0|exists 1|exists 2]; lia].
        replace (h + x - h) with x by lia. unfold a. rewrite word_take by lia. done.
      - rewrite (word_agree _ (now f)); [done|]. apply agree_write; [lia..|]. left. destruct Hx as [-> |[-> | ->]]; lia. }
    split_and!; [|by apply Hw; [auto|..]|by apply Hw; [auto|..]]. pose proof (Hw 0 magic1) as H0. rewrite Z.add_0_r in H0. by apply H0; [auto|..].
  - apply quiet_write; [done|lia|lia|]. left. lia.
Qed.

(** A chunk whose valid header was written is on the disk after a sync. *)
Lemma durable_seal f cs c : in_uw 32 (c_init c) → pending sz ss n f (next_header cs) c → slice (now f) (next_header cs) 12 = valid_first (c_recs c) →
  on_disk_chunks f cs → Forall (good_rec sz n D) (c_recs c) → on_disk_chunks (file_sync f) (cs ++ [c]).
Proof.
  intros Hi [P1 P2 P3 P4 P5 P6 P7] E [B U G] Hc. pose proof (next_header_pos cs) as Hh. pose proof (proj1 Hss) as Lss. pose proof (fixed_length _ _ _ P3) as HL.
  destruct (chunk_end_next sz ss Hsz Hss (next_header cs) c Hh) as [Hend _]. split.
  - apply list.Forall_cons in B as [? _]. by repeat constructor.
  - apply durable_app. split; [by apply durable_sync|]. split; [|by apply fixed_sync]. split; [done|]. split; [done|]. split; [|done]. split; [fold (next_header cs); cbn; lia|].
    fold (next_header cs). cbn [now file_sync]. change 28 with (12 + 16). rewrite slice_split by lia. rewrite E, P4. unfold header_bytes, valid_first. by rewrite <- !app_assoc.
  - rewrite all_recs_app. by apply Forall_app.
Qed.

Lemma db_safe_app f cs c : db_safe sz n D f cs → db_safe sz n D f (cs ++ [c]).
Proof.
  intros [S1 S2 S3]. split; [by destruct cs|done|]. intros v g Hv Hg. destruct (S3 v g Hv Hg) as [H|H]; [left|by right]. rewrite all_recs_app, fmap_app. apply elem_of_app. by left.
Qed.

(** ** Between the operations *)

Lemma open_chunk_agree f f' h init rs : open_chunk f h init rs → 0 ≤ h → quiet f' h → chunk_end sz ss h rs ≤ zlen (now f') → agree h (chunk_end sz ss h rs) (now f') (now f) → open_chunk f' h init rs.
Proof.
  intros [] Hh Hq Hl Ha. pose proof (proj1 Hss) as Lss. pose proof (proj1 Hsz) as Lsz. unfold chunk_end in *. split; try done.
  - rewrite <- oc_first0. apply agree_slice; [lia..|]. eapply agree_sub; [exact Ha|lia..].
  - rewrite <- oc_fields0. apply agree_slice; [lia..|]. eapply agree_sub; [exact Ha|lia..].
  - apply (records_agree sz Hsz (now f)); [lia|done|lia|]. eapply agree_sub; [exact Ha|lia..].
Qed.

Lemma chunk_end_pos h rs : 0 ≤ h → h + 32 ≤ h + ss ≤ chunk_end sz ss h rs.
Proof. intros Hh. pose proof (proj1 Hss). pose proof (proj1 Hsz). unfold chunk_end. nia. Qed.

Lemma journalling_append f cs rs w off a e : journalling f cs rs w → chunk_end sz ss (next_header cs) rs ≤ off → bytes_ok a →
  journalling (file_write off a f) cs rs (set_dk (set_file Jfd (file_write off a f)) (tick e w)).
Proof.
  intros [] Ho Ha. pose proof (next_header_pos cs) as Hh. pose proof (chunk_end_pos (next_header cs) rs Hh) as He. split; try done.
  - apply in_txn_write; [done|lia|done].
  - cbn. apply (open_chunk_agree f); [done..| | |].
    + apply quiet_write; [apply jl_chunk0|done|lia|]. right; left. lia.
    + rewrite now_write. destruct a as [|x a]; [apply jl_chunk0|]. rewrite write_at_length by done. pose proof (oc_end _ _ _ _ jl_chunk0). lia.
    + rewrite now_write. apply agree_write; lia.
Qed.

Lemma journalling_sync f cs rs w e : journalling f cs rs w → journalling (file_sync f) cs rs (set_dk (λ d, set_jnew false (set_file Jfd (file_sync f) d)) (tick e w)).
Proof.
  intros []. pose proof (next_header_pos cs) as Hh. split; try done; [by apply in_txn_sync|]. apply (open_chunk_agree f); [done..| |apply jl_chunk0|done]. apply quiet_synced, jl_chunk0.
Qed.

Lemma journalling_en f cs rs w g : journalling f cs rs w → journalling f cs rs (set_en g w).
Proof. intros []. split; try done. by apply in_txn_en. Qed.

(** Each page has at most one record. *)
Lemma recs_count cs rs : Forall (good_rec sz n D) rs → NoDup (all_recs cs ++ rs).*1 → zlen rs ≤ n.
Proof.
  intros Hg Hnd. rewrite fmap_app in Hnd. apply list.NoDup_app in Hnd as (_ & _ & Hnd). assert (length rs.*1 ≤ length (seqZ 1 n))%nat as H.
  { apply submseteq_length, NoDup_submseteq; [done|]. intros g (r & -> & Hr)%list_elem_of_fmap. apply elem_of_seqZ. eapply list.Forall_forall in Hg; [|exact Hr]. destruct Hg as [_ [? _]]. lia. }
  rewrite length_fmap, length_seqZ in H. lia.
Qed.

(** The first part of [syncJournal]: a header left behind by an older transaction is destroyed. *)
Lemma stale_header_any f cs rs w nx : journalling f cs rs w → nx = chunk_next sz ss (next_header cs) (Chunk (cksumInit (pg w)) rs) →
  returns (('(rc, aMagic) ← sqlite3OsRead Jfd 8 nx; if (rc =? SQLITE_OK) && bool_decide (aMagic = aJournalMagic) then sqlite3OsWrite Jfd [0] nx else mret rc) w)
    (λ rc w', only_journal w w' ∧ pg w' = pg w ∧ ∃ f', journalling f' cs rs w' ∧ ((rc = SQLITE_OK ∨ rc = SQLITE_IOERR_SHORT_READ) ∧ (no_header (now f') nx ∨ zlen (now f') < nx + 8) ∨ failed rc)).
Proof.
  intros Hj ->. pose proof (next_header_pos cs) as Hh. pose proof (proj1 Hss) as Lss. set (c := Chunk _ rs). destruct (chunk_end_next sz ss Hsz Hss (next_header cs) c Hh) as [He _]. set (nx := chunk_next _ _ _ c) in *.
  eapply returns_bind; [apply (OsRead_any w Jfd f); [by eapply in_txn_file, Hj|lia..]|]. intros [rc l] w1 (e & -> & _ & H). cbn [fst snd] in H. pose proof (journalling_en _ _ _ _ (set_events e) Hj) as Hj1.
  destruct H as [(-> & -> & Hl)|[(-> & Hl & _)|Hf]]; okb.
  - destruct (decide (slice (now f) nx 8 = aJournalMagic)) as [E|E].
    + rewrite bool_decide_eq_true_2 by done. eapply returns_mono; [apply (OsWrite_any _ Jfd f); by eapply in_txn_file, Hj1|]. intros rc w2 (e2 & j & -> & Hrc).
      split; [done|]. split; [done|]. exists (file_write nx (take (4 * j) [0]) f). split; [apply (journalling_append _ _ _ _ nx _ e2 Hj1); [apply He|by apply Forall_take; repeat constructor]|].
      destruct Hrc as [[-> ->]|Hrc]; [left|by right]. split; [by left|]. left. intros E0. apply (f_equal (λ l, at8 l 0)) in E0. rewrite slice_at8, now_write, at8_write_at, decide_True in E0 by (cbn; lia).
      replace (nx + 0 - nx) with 0 in E0 by lia. done.
    + rewrite bool_decide_eq_false_2 by done. apply returns_mret. split; [done|]. split; [done|]. exists f. split; [done|]. left. split; [by left|by left].
  - change (SQLITE_IOERR_SHORT_READ =? SQLITE_OK) with false. cbn [andb]. apply returns_mret. split; [done|]. split; [done|]. exists f. split; [done|]. left. split; [by right|]. right. lia.
  - failb Hf. apply returns_mret. split; [done|]. split; [done|]. exists f. split; [done|by right].
Qed.

Lemma next_offset f cs rs w : journalling f cs rs w → journalHdrOffset (pg w) = chunk_next sz ss (next_header cs) (Chunk (cksumInit (pg w)) rs).
Proof. intros []. unfold journalHdrOffset, chunk_next, JOURNAL_HDR_SZ. by rewrite jl_off0, (it_sector _ _ _ jl_txn0). Qed.

Lemma only_journal_refl w : only_journal w w.
Proof. done. Qed.

Lemma sync_header_any f cs rs w : journalling f cs rs w →
  returns (sync_header w) (λ rc w', safe w' ∧ only_journal w w' ∧ pg w' = pg w ∧ (failed rc ∨ rc = SQLITE_OK ∧ ∃ f', in_txn f' cs w' ∧
    pending sz ss n f' (next_header cs) (Chunk (cksumInit (pg w)) rs) ∧ slice (now f') (next_header cs) 12 = valid_first rs)).
Proof.
  intros Hj. pose proof (next_header_pos cs) as Hh. unfold sync_header. prun. rewrite (jl_nrec _ _ _ _ Hj), (next_offset _ _ _ _ Hj). set (c := Chunk _ rs). set (nx := chunk_next _ _ _ c).
  eapply returns_bind_pair; [by apply (stale_header_any f cs rs w nx)|]. intros rc w1 (O1 & P1 & f1 & Hj1 & [[Hrc Hno]|Hf]).
  2: { failb Hf. apply returns_mret. split; [by eapply journalling_safe|]. split; [done|]. split; [done|by left]. }
  assert (negb (rc =? SQLITE_OK) && negb (rc =? SQLITE_IOERR_SHORT_READ) = false) as -> by (by destruct Hrc as [-> | ->]). prun. rewrite (it_cf _ _ _ (jl_txn _ _ _ _ Hj1)), (so_full Hk), (so_sequential Hk). change (0 =? 0) with true. cbn [andb].
  eapply returns_bind; [apply (OsSync_any w1 Jfd f1); [by eapply in_txn_file, Hj1|done]|]. intros rc2 w2 [e2 [[-> ->]|[Hf ->]]].
  2: { failb Hf. apply returns_mret. split; [by apply (journalling_safe f1 cs rs), journalling_en|]. split; [done|]. split; [done|by left]. }
  okb. prun. apply (journalling_sync _ _ _ _ e2) in Hj1. set (w2 := set_dk _ _) in *. assert (only_journal w w2 ∧ pg w2 = pg w) as [O2 P2] by done. clearbody w2. clear w1 O1 P1. rewrite P2, (jl_hdr _ _ _ _ Hj). set (h := next_header cs) in *.
  assert (pending sz ss n (file_sync f1) h c) as Hp.
  { pose proof (jl_chunk _ _ _ _ Hj1) as Ho. rewrite P2 in Ho. fold h in Ho. apply pending_open; [done..| |].
    - pose proof (recs_count _ _ (jl_good _ _ _ _ Hj1) (jl_nodup _ _ _ _ Hj1)). lia.
    - apply quiet_sync; [|done]. destruct (chunk_end_next sz ss Hsz Hss h c Hh) as [He _]. pose proof (proj1 Hss). change (0 ≤ nx). fold nx in He. lia. }
  eapply returns_mono; [apply (OsWrite_any w2 Jfd (file_sync f1)); by eapply in_txn_file, Hj1|]. intros rc3 w3 (e3 & j & -> & Hrc3). change (aJournalMagic ++ sqlite3Put4byte (zlen rs)) with (valid_first (c_recs c)).
  apply (pending_write _ _ _ j Hh) in Hp. assert (in_txn (file_write h (take (4 * j) (valid_first (c_recs c))) (file_sync f1)) cs (set_dk (set_file Jfd (file_write h (take (4 * j) (valid_first (c_recs c))) (file_sync f1))) (tick e3 w2))) as Ht.
  { apply in_txn_write; [apply Hj1|done|]. apply Forall_take. apply Forall_app. split; [by repeat constructor|apply put4_is_bytes]. }
  split; [apply (safe_intro _ _ _ Ht); right; exists c; split; [done|apply Hj1]|]. split; [done|]. split; [done|]. destruct Hrc3 as [[-> Ea]|Hf]; [right|by left]. split; [done|].
  eexists. split; [exact Ht|]. split; [done|]. change (aJournalMagic ++ sqlite3Put4byte (zlen rs)) with (valid_first (c_recs c)) in Ea. rewrite Ea, now_write. change 12 with (zlen (valid_first (c_recs c))). by apply write_at_slice.
Qed.

(** A journal that is completely on the disk. *)
Record sealed (f : file) (cs : list chunk) (w : world) : Prop := {
  se_txn : in_txn f cs w;
  se_quiet : quiet f (next_header cs);
  se_past : past f = [];
  se_off : journalOff (pg w) ≠ 0 }.

Lemma sealed_safe f cs w : sealed f cs w → safe w.
Proof. intros []. apply (safe_intro f cs); [done|by left]. Qed.

(** The result of [syncJournal]: the open chunk is on the disk, and there is a new one if [newHdr]. *)
Definition synced (newHdr : bool) (cs : list chunk) (rs : list (Z * list Z)) (w : world) : Prop :=
  ∃ f init, if newHdr then journalling f (cs ++ [Chunk init rs]) [] w else sealed f (cs ++ [Chunk init rs]) w.

Lemma sync_file_any newHdr f cs rs w : journalling f cs rs w →
  returns (sync_file newHdr w) (λ rc w', safe w' ∧ only_journal w w' ∧ (failed rc ∨ rc = SQLITE_OK ∧ synced newHdr cs rs w')).
Proof.
  intros Hj. pose proof (next_header_pos cs) as Hh. unfold sync_file. prun. rewrite (it_cf _ _ _ (jl_txn _ _ _ _ Hj)), (so_append Hk), (so_sequential Hk). change (0 =? 0) with true. cbv iota.
  eapply returns_bind; [by apply (sync_header_any f cs rs w)|]. intros rc w1 (S1 & O1 & P1 & [Hf|(-> & f1 & Ht1 & Hp & Efirst)]).
  { failb Hf. apply returns_mret. by auto. }
  okb. eapply returns_bind; [apply (OsSync_any w1 Jfd f1); [by eapply in_txn_file|done]|]. intros rc2 w2 [e2 [[-> ->]|[Hf ->]]].
  2: { failb Hf. apply returns_mret. split; [done|]. split; [done|by left]. }
  okb. prun. set (c := Chunk (cksumInit (pg w)) rs) in *. set (w2 := set_pg _ _). assert (Forall (good_rec sz n D) rs) as Hg by apply Hj.
  assert (in_txn (file_sync f1) (cs ++ [c]) w2) as Ht2.
  { apply in_txn_assign; try done. destruct Ht1. split; try done; [|by apply db_safe_app]. apply durable_seal; try done. apply Hj. }
  assert (quiet (file_sync f1) (next_header (cs ++ [c]))) as Hq.
  { unfold next_header, chunks_next. rewrite foldl_app. cbn. apply quiet_synced, Hp. }
  assert (only_journal w w2) as O2 by done. assert (journalOff (pg w2) = chunk_end sz ss (next_header cs) rs) as Eo by (cbn; rewrite P1; apply Hj). pose proof (chunk_end_pos (next_header cs) rs Hh) as Hce.
  clearbody w2. destruct newHdr; cbn [andb].
  - prun. set (w3 := set_pg _ w2). assert (in_txn (file_sync f1) (cs ++ [c]) w3 ∧ only_journal w w3) as [Ht3 O3] by (split; [by apply in_txn_assign|done]).
    eapply returns_mono; [apply (writeJournalHdr_any (file_sync f1) (cs ++ [c]) w3 Ht3 Hq); [|done|]|].
    + unfold w3. cbn. rewrite Eo. unfold next_header, chunks_next. by rewrite foldl_app.
    + rewrite all_recs_app. apply Hj.
    + intros rc3 w4 (S4 & O4 & H4). split; [done|]. split; [by eapply only_journal_trans|]. destruct H4 as [(-> & f4 & H4)|Hf]; [right|by left]. split; [done|]. by exists f4, (cksumInit (pg w)).
  - apply returns_mret. assert (sealed (file_sync f1) (cs ++ [c]) w2) as Hse by (split; [done..|lia]). split; [by eapply sealed_safe|]. split; [done|]. right. split; [done|]. by exists (file_sync f1), (cksumInit (pg w)).
Qed.

(** [syncJournal] takes the exclusive lock and clears the flags. *)
Definition synced_rest (w w' : world) : Prop :=
  rest (pg w') = rest (set_eState PAGER_WRITER_DBMOD (set_eLock EXCLUSIVE_LOCK (pg w))) ∧ cache w' = clear_sync <$> cache w ∧ refs w' = refs w ∧ db (dk w') = db (dk w).

Lemma journalling_assign f cs rs w g : journalling f cs rs w → jopen (g (pg w)) = jopen (pg w) → pageSize (g (pg w)) = pageSize (pg w) → sectorSize (g (pg w)) = sectorSize (pg w) →
  dbOrigSize (g (pg w)) = dbOrigSize (pg w) → aSavepoint (g (pg w)) = aSavepoint (pg w) → journalHdr (g (pg w)) = journalHdr (pg w) → journalOff (g (pg w)) = journalOff (pg w) →
  nRec (g (pg w)) = nRec (pg w) → cksumInit (g (pg w)) = cksumInit (pg w) → journalling f cs rs (set_pg g w).
Proof. intros [] ? ? ? ? ? ? ? ? E. split; cbn; try congruence; try done. by apply in_txn_assign. Qed.

Lemma journalling_cache f cs rs w g : journalling f cs rs w → journalling f cs rs (set_cache g w).
Proof. intros []. split; try done. destruct jl_txn0. by split. Qed.

Lemma syncJournal_any newHdr f cs rs w : journalling f cs rs w → eState (pg w) = PAGER_WRITER_CACHEMOD ∨ eState (pg w) = PAGER_WRITER_DBMOD →
  eLock (pg w) = RESERVED_LOCK ∨ eLock (pg w) = EXCLUSIVE_LOCK →
  returns (syncJournal newHdr w) (λ rc w', safe w' ∧ errCode (pg w') = errCode (pg w) ∧ (failed rc ∨ rc = SQLITE_BUSY ∧ (∃ e, w' = tick e w) ∨ rc = SQLITE_OK ∧ synced newHdr cs rs w' ∧ synced_rest w w')).
Proof.
  intros Hj Hs Hl. unfold syncJournal. rewrite bind_assert by (by destruct Hs as [-> | ->]). eapply returns_bind; [by apply ExclusiveLock_any|].
  intros rc w1 [[-> [e ->]]|(Hrc & [e ->] & Hb)].
  2: { rewrite (proj2 (Z.eqb_neq _ _) Hrc). cbn [negb]. apply returns_mret. split; [by apply (journalling_safe f cs rs), journalling_en|]. split; [done|]. destruct Hb as [-> |Hf]; [right; left|by left]. split; [done|by exists e]. }
  okb. prun. apply (journalling_en _ _ _ _ (set_events e)) in Hj. change (set_en (set_events e) w) with (tick e w) in Hj. apply (journalling_assign _ _ _ _ (set_eLock EXCLUSIVE_LOCK)) in Hj; try done.
  set (w1 := set_pg _ (tick e w)) in *. assert (errCode (pg w1) = errCode (pg w)) as X1 by done. assert (rest (pg w1) = rest (set_eLock EXCLUSIVE_LOCK (pg w)) ∧ cache w1 = cache w ∧ refs w1 = refs w ∧ db (dk w1) = db (dk w)) as (R1 & C1 & F1 & D1) by done. clearbody w1.
  rewrite (it_cf _ _ _ (jl_txn _ _ _ _ Hj)), (so_sync Hk), (it_open _ _ _ (jl_txn _ _ _ _ Hj)). cbv iota.
  eapply returns_bind; [by apply (sync_file_any newHdr f cs rs w1)|]. intros rc w2 (S2 & O2 & [Hf|[-> (f2 & init & H2)]]).
  { failb Hf. apply returns_mret. split; [done|]. split; [|by left]. destruct O2 as [R2 _]. rewrite <- X1. unfold rest in R2. by injection R2. }
  okb. unfold sqlite3PcacheClearSyncFlags. prun. set (w3 := set_pg _ _). apply returns_mret.
  assert (safe w3) as S3 by done. split; [done|]. split; [destruct O2 as [R2 _]; rewrite <- X1; unfold rest in R2; by injection R2|]. right; right. split; [done|]. split.
  - exists f2, init. destruct newHdr; [by apply journalling_assign; [apply journalling_cache|..]|]. destruct H2. split; try done. apply in_txn_assign; try done. destruct se_txn0. by split.
  - destruct O2 as (R2 & C2 & F2 & D2). unfold synced_rest. cbn. split_and!; [|by rewrite C2, C1|congruence|congruence].
    unfold rest in *. cbn in *. injection R2; injection R1; intros; subst. congruence.
Qed.

(** ** Appending a record *)

Lemma slice_write_below l off a x m : 0 ≤ x → 0 ≤ m → 0 ≤ off → x + m ≤ off → x + m ≤ zlen l → slice (write_at l (Z.to_nat off) a) x m = slice l x m.
Proof.
  intros Hx Hm Ho Hd Hl. apply agree_slice; [done|done| |done|apply agree_write; lia]. destruct a as [|y a]; [done|]. rewrite write_at_length by done. lia.
Qed.

(** The three writes of [pager_write]. *)
Lemma record_bytes f off init r : 0 ≤ off → off ≤ zlen (now f) → zlen r.2 = sz →
  let f1 := file_write off (sqlite3Put4byte r.1) f in let f2 := file_write (off + 4) r.2 f1 in
  let f3 := file_write (off + sz + 4) (sqlite3Put4byte (page_cksum sz init r.2)) f2 in
  off + (sz + 8) ≤ zlen (now f3) ∧ slice (now f3) off (sz + 8) = rec_bytes sz init r.
Proof.
  intros Ho HL Hr f1 f2 f3. pose proof (proj1 Hsz) as Lsz.
  assert (off + 4 ≤ zlen (now f1)) as L1 by (unfold f1; rewrite now_write, write_at_length by done; cbn [length sqlite3Put4byte]; lia).
  assert (off + 4 + sz ≤ zlen (now f2)) as L2 by (unfold f2; rewrite now_write, write_at_length by (intros E; rewrite E in Hr; cbn in Hr; lia); lia).
  assert (off + sz + 8 ≤ zlen (now f3)) as L3 by (unfold f3; rewrite now_write, write_at_length by done; cbn [length sqlite3Put4byte]; lia).
  split; [lia|]. replace (sz + 8) with (4 + (sz + 4)) by lia. rewrite slice_split by lia. rewrite (slice_split _ _ sz 4) by lia. unfold rec_bytes. f_equal; [|f_equal].
  - unfold f3. rewrite now_write, slice_write_below by lia. unfold f2. rewrite now_write, slice_write_below by lia. unfold f1. rewrite now_write. by apply (write_at_slice (now f) off (sqlite3Put4byte r.1)).
  - unfold f3. rewrite now_write, slice_write_below by lia. unfold f2. rewrite now_write. rewrite <- Hr. apply write_at_slice. lia.
  - unfold f3. rewrite now_write. replace (off + 4 + sz) with (off + sz + 4) by lia. apply (write_at_slice (now f2) (off + sz + 4) (sqlite3Put4byte (page_cksum sz init r.2))). lia.
Qed.

Definition count_record (q : Pager) : Pager := set_journalOff (journalOff q + (8 + pageSize q)) (set_nRec (nRec q + 1) q).

Lemma journalling_added f cs rs w r : journalling f cs rs w → let off := chunk_end sz ss (next_header cs) rs in
  off + (sz + 8) ≤ zlen (now f) → slice (now f) off (sz + 8) = rec_bytes sz (cksumInit (pg w)) r → good_rec sz n D r → r.1 ∉ (all_recs cs ++ rs).*1 →
  journalling f cs (rs ++ [r]) (set_pg count_record w).
Proof.
  intros [] off Hl Hs Hg Hno. assert (chunk_end sz ss (next_header cs) (rs ++ [r]) = off + (sz + 8)) as Ee by (unfold off, chunk_end; rewrite length_app; cbn [length]; lia).
  split.
  - by apply in_txn_assign.
  - done.
  - cbn. rewrite Ee, jl_off0, (it_page _ _ _ jl_txn0). fold off. lia.
  - cbn. rewrite jl_nrec0, length_app. cbn [length]. lia.
  - destruct jl_chunk0. split; try done; [|by rewrite Ee]. intros i x Hi. apply lookup_app_Some in Hi as [Hi|[Hi Ex]]; [by apply oc_recs0|].
    apply list_lookup_singleton_Some in Ex as [Ei <-]. replace (Z.of_nat i) with (zlen rs) by lia. unfold off, chunk_end in *. split; [lia|done].
  - apply Forall_app. split; [done|by constructor].
  - rewrite app_assoc, fmap_app. apply list.NoDup_app. split; [done|]. split; [|apply NoDup_singleton]. intros g Hg' Hin. apply list_elem_of_singleton in Hin as ->. by apply Hno.
Qed.
End Journal.
