(* ===== verification/PgCache.v ===== *)
(** * The pager: the pages of a running transaction

    The page cache together with the database file is the content that the client has
    written so far ([pages]), whichever pages were spilled, dropped and read
    again in the meantime. *)

From stdpp Require Import sorting.
From S2P Require Import Prelude Varint Buffer Bitvec PgFile PgImage Pager PgTxn PgHot PgJournal PgRecover PgInv PgWriting.
#[local] Open Scope Z_scope.
#[local] Open Scope c_scope.
#[local] Open Scope list_scope.

(** What the operations on pages leave alone. *)
Definition journal_fields (w : world) :=
  (cf w, jrn (dk w), jnew (dk w), jgone (dk w), jopen (pg w), pageSize (pg w), sectorSize (pg w), dbOrigSize (pg w), aSavepoint (pg w),
   (journalHdr (pg w), journalOff (pg w), nRec (pg w), cksumInit (pg w))).
Definition state_fields (p : Pager) := (eState p, eLock p, errCode p, pInJournal p, setMaster p, mxPgno p, changeCountDone p).

(** What the client has written: the number of pages, and the content of each page. *)
Record snapshot := Snapshot { snap_size : Z; snap_page :> Z → list Z }.

(** The client adds a page, and changes a page. *)
Definition grow_to (g : Z) (A : snapshot) : snapshot := Snapshot (snap_size A `max` g) A.
Definition set_page (g : Z) (d : list Z) (A : snapshot) : snapshot := Snapshot (snap_size A) (λ x, if x =? g then d else A x).

Lemma grow_to_id g A : g ≤ snap_size A → grow_to g A = A.
Proof. intros H. destruct A. unfold grow_to. cbn in *. f_equal. lia. Qed.

(** The bytes that [pager_write_changecounter] changes. *)
Definition counter (g i : Z) : Prop := g = 1 ∧ (24 ≤ i < 28 ∨ 92 ≤ i < 100).

Section Pages.
Context (sz ss n M : Z) (D : list Z) (k : settings).
Hypothesis (Hsz : size_between 512 sz) (Hss : size_between 32 ss) (Hss4 : Z.divide 4 ss) (Hle : ss ≤ sz) (Hn : 0 ≤ n < 2 ^ 31) (HD : zlen D = sz * n) (HbD : bytes_ok D).
Hypothesis (Hk : settings_ok k) (HM : sz * M ≤ 2 ^ 40).

#[local] Abbreviation in_txn := (in_txn sz ss n D k).
#[local] Abbreviation journalling := (journalling sz ss n D k).
#[local] Abbreviation sealed := (sealed sz ss n D k).
#[local] Abbreviation safe := (safe sz ss n D).
#[local] Abbreviation next_header := (next_header sz ss).

Lemma in_txn_same f cs w w' : journal_fields w' = journal_fields w → db_safe sz n D (db (dk w')) cs → in_txn f cs w → in_txn f cs w'.
Proof. unfold journal_fields. intros [= E1 E2 E3 E4 E5 E6 E7 E8 E9 _ _ _ _] Hdb []. split; try congruence; try done. by rewrite E3. Qed.

Lemma journalling_same f cs rs w w' : journal_fields w' = journal_fields w → db_safe sz n D (db (dk w')) cs → journalling f cs rs w → journalling f cs rs w'.
Proof. intros E Hdb []. pose proof (in_txn_same _ _ _ _ E Hdb jl_txn) as Ht. unfold journal_fields in E. injection E as _ _ _ _ _ _ _ _ _ E1 E2 E3 E4. split; try congruence; done. Qed.

Lemma sealed_same f cs w w' : journal_fields w' = journal_fields w → db_safe sz n D (db (dk w')) cs → sealed f cs w → sealed f cs w'.
Proof. intros E Hdb []. pose proof (in_txn_same _ _ _ _ E Hdb se_txn) as Ht. unfold journal_fields in E. injection E as _ _ _ _ _ _ _ _ _ _ E2 _ _. split; try done. congruence. Qed.

(** [d] is the content of page [g] of the file [l]; behind the end of the file there are zeros. *)
Definition page_is (l : list Z) (g : Z) (d : list Z) : Prop := ∀ i, 0 ≤ i < sz → at8 d i = at8 l (page_offset sz g + i).

(** What a reader sees at byte [i] of page [g]. *)
Definition view (w : world) (g i : Z) : Z :=
  match cache w !! g with Some p => at8 (pData p) i | None => at8 (now (db (dk w))) (page_offset sz g + i) end.

Record page_ok (cs : list chunk) (rs : list (Z * list Z)) (w : world) (g : Z) (p : PgHdr) : Prop := {
  po_pgno : 1 ≤ g ≤ PAGER_MAX_PGNO;
  po_mj : g ≠ PENDING_BYTE / sz + 1;
  po_max : g ≤ M;
  po_len : zlen (pData p) = sz;
  po_write : dontWrite p = false;
  po_clean : dirty p = false → page_is (now (db (dk w))) g (pData p);
  po_dirty : dirty p = true → g ≤ dbSize (pg w) ∧ (g ≤ n → g ∈ (all_recs cs ++ rs).*1) }.

(** The pages of a transaction that has journalled the records of [cs] and [rs]; those of
    [rs] have not reached the disk. [A] is the content the client has written. *)
Record pages (cs : list chunk) (rs : list (Z * list Z)) (A : snapshot) (w : world) : Prop := {
  ps_err : errCode (pg w) = SQLITE_OK;
  ps_size : pageSize (pg w) = sz;
  ps_low : n ≤ dbFileSize (pg w);
  ps_mid : dbFileSize (pg w) ≤ dbSize (pg w);
  ps_high : dbSize (pg w) ≤ M;
  ps_mx : mxPgno (pg w) ≤ M;
  ps_count : dbSize (pg w) = snap_size A;
  ps_vers : zlen (dbFileVers (pg w)) = 16;
  ps_file : zlen (now (db (dk w))) = sz * dbFileSize (pg w);
  ps_cached : ∀ g p, cache w !! g = Some p → page_ok cs rs w g p;
  ps_new : ∀ g, g ∈ rs.*1 → ∃ p, cache w !! g = Some p ∧ dirty p = true ∧ needSync p = true;
  ps_last : dbFileSize (pg w) < dbSize (pg w) → ∃ p, cache w !! dbSize (pg w) = Some p ∧ dirty p = true;
  ps_view : ∀ g i, 1 ≤ g → 0 ≤ i < sz → ¬ counter g i → view w g i = at8 (A g) i }.

Lemma pages_en cs rs A w h : pages cs rs A w → pages cs rs A (set_en h w).
Proof. intros []. split; try done. intros g p H. destruct (ps_cached0 g p H). by split. Qed.

(** ** Writing a page to the database file *)

Lemma other_page l g g' a i : 1 ≤ g → 1 ≤ g' → g' ≠ g → zlen a ≤ sz → 0 ≤ i < sz →
  at8 (write_at l (Z.to_nat (page_offset sz g)) a) (page_offset sz g' + i) = at8 l (page_offset sz g' + i).
Proof. intros Hg Hg' Hne Ha Hi. pose proof (proj1 Hsz). unfold page_offset. rewrite at8_write_at by nia. rewrite decide_False; [done|]. nia. Qed.

Lemma db_safe_write f cs g a : db_safe sz n D f cs → cs ≠ [] → 1 ≤ g → (g ≤ n → g ∈ (all_recs cs).*1) → zlen a ≤ sz → sz * g ≤ 2 ^ 40 →
  db_safe sz n D (file_write (page_offset sz g) a f) cs.
Proof.
  intros [S1 S2 S3] Hcs Hg Hin Ha Hmax. pose proof (proj1 Hsz) as Lsz. split; [done|..].
  - intros v [Hv|[Ha0 ->]]%versions_write; [by apply S2|]. rewrite write_at_length by done. pose proof (S2 _ (now_in f)). unfold page_offset. nia.
  - intros v g' [Hv|[Ha0 ->]]%versions_write Hg'; [by apply S3|]. destruct (decide (g' = g)) as [->|Hne]; [left; apply Hin; lia|].
    destruct (S3 _ g' (now_in f) Hg') as [?|Hs]; [by left|right]. intros i Hi. rewrite <- Hs by done. replace i with (page_offset sz g' + (i - page_offset sz g')) by lia. apply other_page; lia.
Qed.

(** The change counter of page 1. *)
Lemma with_counter_ok vers d : zlen vers = 16 → zlen d = sz → ∃ d', with_counter vers d = Ret d' ∧ zlen d' = sz ∧ ∀ i, 0 ≤ i < sz → ¬ counter 1 i → at8 d' i = at8 d i.
Proof.
  intros Hv Hd. pose proof (proj1 Hsz) as Lsz. unfold with_counter. assert (∃ v, sqlite3Get4byte vers = Ret v) as [v ->].
  { destruct vers as [|a [|b [|c [|e vers]]]]; try (cbn in Hv; lia). eexists. reflexivity. }
  cbn [mbind outcome_bind]. set (x := sqlite3Put4byte (u32 (v + 1))). set (y := sqlite3Put4byte SQLITE_VERSION_NUMBER). assert (length x = 4%nat ∧ length y = 4%nat) as [Lx Ly] by done. clearbody x y.
  rewrite put_slice_ok by lia. cbn [mbind outcome_bind]. assert (length (splice d 24 x) = length d) as L1 by (apply splice_length; lia).
  rewrite put_slice_ok by lia. cbn [mbind outcome_bind]. assert (length (splice (splice d 24 x) 92 x) = length d) as L2 by (rewrite splice_length; lia).
  rewrite put_slice_ok by lia. eexists. split; [done|]. split; [rewrite splice_length; lia|]. intros i Hi Hc. unfold counter in Hc.
  rewrite !splice_out; lia || done.
Qed.

(** The change counter is set in page 1 before it is written. *)
Lemma set_counter_any cs rs A w g p : pages cs rs A w → cache w !! g = Some p →
  returns ((if g =? 1 then pager_write_changecounter g else mret ()) w)
    (λ _ w', ∃ d, w' = set_cache (λ c, <[g := set_data d p]> c) w ∧ zlen d = sz ∧ ∀ i, 0 ≤ i < sz → ¬ counter g i → at8 d i = at8 (pData p) i).
Proof.
  intros Hp Hg. pose proof (ps_cached _ _ _ _ Hp g p Hg) as Hok. destruct (Z.eqb_spec g 1) as [->|Hne].
  - unfold pager_write_changecounter, page. rewrite (bind_gets _ _ _ p) by (by rewrite Hg). prun. destruct (with_counter_ok (dbFileVers (pg w)) (pData p)) as (d & Ed & Hl & Hd); [apply Hp|apply Hok|].
    rewrite (bind_lift _ _ _ _ Ed). apply returns_ret. exists d. split; [|done]. unfold set_cache. f_equal. by apply alter_alt_Some.
  - apply returns_mret. exists (pData p). split; [|split; [apply Hok|done]]. replace (set_data (pData p) p) with p by (by destruct p). unfold set_cache. rewrite insert_id by done. by destruct w.
Qed.

Lemma pages_written cs rs A w w' g p d : pages cs rs A w → cache w !! g = Some p → dirty p = true → zlen d = sz → (∀ i, 0 ≤ i < sz → ¬ counter g i → at8 d i = at8 (pData p) i) →
  cache w' = <[g := set_data d p]> (cache w) → now (db (dk w')) = write_at (now (db (dk w))) (Z.to_nat (page_offset sz g)) d →
  errCode (pg w') = errCode (pg w) → pageSize (pg w') = pageSize (pg w) → dbSize (pg w') = dbSize (pg w) → mxPgno (pg w') = mxPgno (pg w) → zlen (dbFileVers (pg w')) = 16 →
  dbFileSize (pg w') = dbFileSize (pg w) `max` g → pages cs rs A w' ∧ page_is (now (db (dk w'))) g d.
Proof.
  intros [] Hg Hd Hl Hlike EC EF E1 E2 E3 E4 E5 E6. pose proof (ps_cached0 g p Hg) as [V1 V2 Vm V3 V4 V5 V6]. destruct (V6 Hd) as [V7 V8]. pose proof (proj1 Hsz) as Lsz.
  assert (∀ g' i, 1 ≤ g' → g' ≠ g → 0 ≤ i < sz → at8 (now (db (dk w'))) (page_offset sz g' + i) = at8 (now (db (dk w))) (page_offset sz g' + i)) as Hoth by (intros g' i ? ? ?; rewrite EF; apply other_page; lia).
  assert (page_is (now (db (dk w'))) g d) as His.
  { intros i Hi. rewrite EF. unfold page_offset. rewrite at8_write_at, decide_True by nia. f_equal. lia. }
  split; [|done]. split; rewrite ?E1, ?E2, ?E3, ?E4, ?E6; try done; try lia.
  - rewrite EF, write_at_length by (intros E; rewrite E in Hl; cbn in Hl; lia). unfold page_offset. nia.
  - intros g' q. rewrite EC. destruct (decide (g' = g)) as [->|Hne].
    + rewrite lookup_insert_eq. intros [= <-]. split; cbn; rewrite ?E3; try done; intros; congruence.
    + rewrite lookup_insert_ne by done. intros Hq. destruct (ps_cached0 g' q Hq). split; rewrite ?E3; try done. intros Hc i Hi. rewrite Hoth by (done || lia). by apply po_clean0.
  - intros g' Hg'. destruct (ps_new0 g' Hg') as (q & Hq & Hq1 & Hq2). rewrite EC. destruct (decide (g' = g)) as [->|Hne].
    + exists (set_data d p). rewrite lookup_insert_eq. split; [done|]. cbn. split; [done|]. congruence.
    + exists q. by rewrite lookup_insert_ne.
  - intros Hlt. destruct ps_last0 as (q & Hq & Hqd); [lia|]. rewrite EC. destruct (decide (dbSize (pg w) = g)) as [<-|Hne]; [lia|]. exists q. by rewrite lookup_insert_ne.
  - intros g' i Hg' Hi Hc. rewrite <- ps_view0 by done. unfold view. rewrite EC. destruct (decide (g' = g)) as [->|Hne].
    + rewrite lookup_insert_eq, Hg. cbn. by apply Hlike.
    + rewrite lookup_insert_ne by done. destruct (cache w !! g'); [done|]. by apply Hoth.
Qed.

(** The outcome of writing dirty pages, which can happen once their records are on the disk. *)
Lemma on_disk_rec cs rs A w g p : pages cs rs A w → cache w !! g = Some p → dirty p = true → needSync p = false → g ≤ n → g ∈ (all_recs cs).*1.
Proof.
  intros Hp Hg Hd Hs Hgn. destruct (po_dirty _ _ _ _ _ (ps_cached _ _ _ _ Hp g p Hg) Hd) as [_ Hin]. specialize (Hin Hgn). rewrite fmap_app in Hin. apply elem_of_app in Hin as [?|Hin]; [done|].
  destruct (ps_new _ _ _ _ Hp g Hin) as (q & Hq & _ & Hq2). congruence.
Qed.

Definition flags (p : PgHdr) : bool * bool := (dirty p, needSync p).
Definition same_flags (w w' : world) : Prop := ∀ g, flags <$> cache w' !! g = flags <$> cache w !! g.

(** The file has the content that the cache has. *)
Definition flushed (w : world) (g : Z) : Prop := ∃ p, cache w !! g = Some p ∧ page_is (now (db (dk w))) g (pData p) ∧ needSync p = false ∧ g ≤ dbFileSize (pg w).

Lemma same_flags_insert w w' g p d : cache w !! g = Some p → cache w' = <[g := set_data d p]> (cache w) → same_flags w w'.
Proof. intros Hg E g'. rewrite E. destruct (decide (g' = g)) as [->|Hne]; [by rewrite lookup_insert_eq, Hg|by rewrite lookup_insert_ne]. Qed.

(** What the writes of a list of pages keep. *)
Record wrote (f : file) (cs : list chunk) (rs : list (Z * list Z)) (A : snapshot) (w w' : world) : Prop := {
  wr_pages : pages cs rs A w';
  wr_txn : in_txn f cs w';
  wr_journal : journal_fields w' = journal_fields w;
  wr_state : state_fields (pg w') = state_fields (pg w);
  wr_size : dbSize (pg w') = dbSize (pg w);
  wr_flags : same_flags w w';
  wr_grown : dbFileSize (pg w) ≤ dbFileSize (pg w') }.

Lemma write_page_any f cs rs A w g p : pages cs rs A w → in_txn f cs w → quiet f (next_header cs) → cs ≠ [] → cache w !! g = Some p → dirty p = true → needSync p = false →
  returns (write_page g w) (λ rc w', safe w' ∧ errCode (pg w') = errCode (pg w) ∧ (failed rc ∨ rc = SQLITE_OK ∧ wrote f cs rs A w w' ∧ ∀ g', g' = g ∨ flushed w g' → flushed w' g')).
Proof.
  intros Hp Ht Hq Hcs Hg Hd Hs. pose proof (ps_cached _ _ _ _ Hp g p Hg) as [V1 V2 Vm V3 V4 V5 V6]. destruct (V6 Hd) as [V7 _]. pose proof (on_disk_rec _ _ _ _ _ _ Hp Hg Hd Hs) as Hrec. pose proof (proj1 Hsz) as Lsz.
  unfold write_page, page. rewrite (bind_gets _ _ _ p) by (by rewrite Hg). prun. rewrite (proj2 (Z.leb_le g _)) by done. rewrite V4. cbn [negb andb]. rewrite bind_assert by (by rewrite Hs).
  eapply returns_bind; [by apply (set_counter_any cs rs A w g p)|]. intros _ w1 (d & -> & Hl & Hlike). rewrite (bind_gets _ _ _ (set_data d p)) by (cbn; by rewrite lookup_insert_eq). prun. cbn [pg set_cache pData set_data]. rewrite (ps_size _ _ _ _ Hp).
  eapply returns_bind; [by apply (OsWrite_any _ Fd (db (dk w)))|]. intros rc w2 (e & j & -> & Hrc). set (w2 := set_dk _ _).
  assert (db_safe sz n D (db (dk w2)) cs) as Hdb.
  { cbn. apply db_safe_write; [apply Ht|done|lia|done|rewrite length_take; lia|]. pose proof (ps_high _ _ _ _ Hp). nia. }
  assert (in_txn f cs w2) as Ht2 by (by apply (in_txn_same f cs w)).
  set (vers := if g =? 1 then slice d 24 16 else dbFileVers (pg w)).
  assert (zlen vers = 16) as Hv by (unfold vers; destruct (g =? 1); [rewrite slice_length by lia; done|apply Hp]).
  eapply returns_bind with (R := λ _ w', w' = set_pg (set_dbFileVers vers) w2).
  { unfold vers. destruct (g =? 1).
    - unfold load_vers. rewrite (bind_lift _ _ _ (slice d 24 16)) by (apply get_slice_ok; lia). apply returns_ret. done.
    - apply returns_mret. unfold w2. destruct w as [[] ? ? ? ? ?]. done. }
  intros _ w3 ->. prun. set (w3 := set_pg _ (set_pg _ w2)). apply returns_mret.
  assert (journal_fields w3 = journal_fields w ∧ state_fields (pg w3) = state_fields (pg w) ∧ dbSize (pg w3) = dbSize (pg w) ∧ dbFileSize (pg w3) = dbFileSize (pg w) `max` g ∧ dk w3 = dk w2) as (J3 & S3 & Z3 & F3 & K3).
  { unfold w3, journal_fields, state_fields. cbn. destruct (Z.ltb_spec (dbFileSize (pg w)) g); (split_and!; try done; cbn; lia). }
  assert (in_txn f cs w3) as Ht3 by (apply (in_txn_same f cs w); [done|by rewrite K3|done]).
  split; [by apply (safe_intro sz ss n D k f cs); [|left]|]. split; [unfold w3; cbn; by destruct (_ <? _)|]. destruct Hrc as [[-> Etake]|Hf]; [right|by left]. split; [done|].
  assert (now (db (dk w3)) = write_at (now (db (dk w))) (Z.to_nat (page_offset sz g)) d) as EF.
  { rewrite K3. change (db (dk w2)) with (file_write (page_offset sz g) (take (4 * j) d) (db (dk w))). by rewrite Etake, now_write. }
  destruct (pages_written cs rs A w w3 g p d) as [Hp3 His]; try done.
  all: try (unfold w3; cbn; by destruct (_ <? _)).
  split; [by split; try done; [by apply (same_flags_insert _ _ g p d)|lia]|]. intros g' Hor. destruct (decide (g' = g)) as [->|Hne].
  - exists (set_data d p). split; [apply lookup_insert_eq|]. split; [done|]. split; [done|lia].
  - destruct Hor as [?|(q & Hcq & H1 & H2 & H3)]; [done|]. exists q. split; [cbn; by rewrite lookup_insert_ne|]. split; [|split; [done|lia]]. intros i Hi. rewrite EF, other_page; [by apply H1|lia| |done|lia|done].
    by apply (ps_cached _ _ _ _ Hp g' q).
Qed.

Lemma write_loop_any f cs rs A l : ∀ w, pages cs rs A w → in_txn f cs w → quiet f (next_header cs) → cs ≠ [] → NoDup l →
  (∀ g, g ∈ l → ∃ p, cache w !! g = Some p ∧ dirty p = true ∧ needSync p = false) →
  returns (write_loop l w) (λ rc w', safe w' ∧ errCode (pg w') = errCode (pg w) ∧ (failed rc ∨ rc = SQLITE_OK ∧ wrote f cs rs A w w' ∧
    ∀ g, g ∈ l ∨ flushed w g ∧ g ∉ l → flushed w' g)).
Proof.
  induction l as [|g l IH]; intros w Hp Ht Hq Hcs Hnd Hl; cbn [write_loop].
  { apply returns_mret. split; [by apply (safe_intro sz ss n D k f cs); [|left]|]. split; [done|]. right. split; [done|]. split; [by split|]. intros g [Hg|[Hg _]]; [by apply elem_of_nil in Hg|done]. }
  apply list.NoDup_cons in Hnd as [Hgl Hnd]. destruct (Hl g) as (p & Hg & Hd & Hs); [by apply list.elem_of_cons; left|].
  eapply returns_bind; [by apply (write_page_any f cs rs A w g p)|]. intros rc w1 (S1 & X1 & [Hf|(-> & W1 & F1)]).
  { failb Hf. apply returns_mret. by auto. }
  okb. eapply returns_mono; [apply (IH w1); [apply W1|apply W1|done|done|done|]|].
  - intros g' Hg'. destruct (Hl g') as (q & Hcq & Hqd & Hqs); [by apply list.elem_of_cons; right|]. pose proof (wr_flags _ _ _ _ _ _ W1 g') as E. rewrite Hcq in E. cbn in E.
    destruct (cache w1 !! g') as [q'|] eqn:Eq; [|done]. exists q'. cbn in E. injection E as E1 E2. split_and!; congruence.
  - intros rc w2 (S2 & X2 & [Hf|(-> & W2 & F2)]); (split; [done|]; split; [congruence|]); [by left|right]. split; [done|]. split.
    + destruct W1, W2. split; try done; [congruence|congruence|congruence| |lia]. intros g'. by rewrite wr_flags1.
    + intros g' Hor. apply F2. destruct Hor as [[->|?]%list.elem_of_cons|[? Hn']]; [right; split; [apply F1; by left|done]|by left|right].
      apply list.not_elem_of_cons in Hn' as [? ?]. split; [apply F1; by right|done].
Qed.

Lemma pages_ext cs rs A w w' : pages cs rs A w → cache w' = cache w → now (db (dk w')) = now (db (dk w)) → errCode (pg w') = errCode (pg w) → pageSize (pg w') = pageSize (pg w) →
  dbFileSize (pg w') = dbFileSize (pg w) → dbSize (pg w') = dbSize (pg w) → mxPgno (pg w') = mxPgno (pg w) → dbFileVers (pg w') = dbFileVers (pg w) → pages cs rs A w'.
Proof.
  intros [] EC ED E1 E2 E3 E4 E5 E6. split; rewrite ?EC, ?ED, ?E1, ?E2, ?E3, ?E4, ?E5, ?E6; try done.
  - intros g p Hg. destruct (ps_cached0 g p Hg). split; rewrite ?ED, ?E4; done.
  - intros g i H1 H2 H3. rewrite <- ps_view0 by done. unfold view. by rewrite EC, ED.
Qed.

Lemma pages_assign cs rs A w h : pages cs rs A w → errCode (h (pg w)) = errCode (pg w) → pageSize (h (pg w)) = pageSize (pg w) → dbFileSize (h (pg w)) = dbFileSize (pg w) →
  dbSize (h (pg w)) = dbSize (pg w) → mxPgno (h (pg w)) = mxPgno (pg w) → dbFileVers (h (pg w)) = dbFileVers (pg w) → pages cs rs A (set_pg h w).
Proof. intros Hp ? ? ? ? ? ?. by apply (pages_ext _ _ _ w). Qed.

Lemma write_pagelist_any f cs rs A l w : pages cs rs A w → in_txn f cs w → quiet f (next_header cs) → cs ≠ [] → NoDup l → l ≠ [] →
  (∀ g, g ∈ l → ∃ p, cache w !! g = Some p ∧ dirty p = true ∧ needSync p = false) → eState (pg w) = PAGER_WRITER_DBMOD → eLock (pg w) = EXCLUSIVE_LOCK →
  returns (pager_write_pagelist l w) (λ rc w', safe w' ∧ errCode (pg w') = errCode (pg w) ∧ (failed rc ∨ rc = SQLITE_OK ∧ wrote f cs rs A w w' ∧
    ∀ g, g ∈ l ∨ flushed w g ∧ g ∉ l → flushed w' g)).
Proof.
  intros Hp Ht Hq Hcs Hnd Hne Hl Es El. unfold pager_write_pagelist. rewrite bind_assert by (by rewrite Es). rewrite bind_assert by (by rewrite El). prun.
  eapply returns_bind with (R := λ _ w', ∃ h, w' = set_pg h w ∧ (h = id ∨ h = set_dbHintSize (dbSize (pg w)))).
  { destruct (_ <? _); [|apply returns_mret; exists id; split; [by destruct w|by left]]. destruct l as [|g rest]; [done|]. destruct (_ || _).
    - apply returns_ret. eexists. split; [done|by right].
    - apply returns_mret. exists id. split; [by destruct w|by left]. }
  intros _ w1 (h & -> & Hh). eapply returns_mono; [apply (write_loop_any f cs rs A l (set_pg h w)); try done|].
  - destruct Hh as [-> | ->]; by apply pages_assign.
  - destruct Hh as [-> | ->]; by apply in_txn_assign.
  - intros rc w2 (S2 & X2 & H2). split; [done|]. split; [by destruct Hh as [-> | ->]|]. destruct H2 as [?|(-> & [] & F2)]; [by left|right]. split; [done|]. split.
    + split; try done; destruct Hh as [-> | ->]; done.
    + intros g [Hg|[(p & H1 & H2 & H3 & H4) Hg]]; apply F2; [by left|right]. split; [|done]. exists p. split; [done|]. split; [done|]. split; [done|]. destruct Hh as [-> | ->]; done.
Qed.

(** ** A write transaction *)

Definition bits (J : list Z) (p : Pager) : Prop :=
  ∃ b, pInJournal p = Some b ∧ bitvec_ok b ∧ iSize b = n ∧ ∀ g, 0 ≤ g → sqlite3BitvecTest (Some b) g = Some (bool_decide (g ∈ J)).

Record active (cs : list chunk) (rs : list (Z * list Z)) (w : world) : Prop := {
  ac_state : eState (pg w) = PAGER_WRITER_CACHEMOD ∨ eState (pg w) = PAGER_WRITER_DBMOD ∧ cs ≠ [] ∧ eLock (pg w) = EXCLUSIVE_LOCK;
  ac_lock : eLock (pg w) = RESERVED_LOCK ∨ eLock (pg w) = EXCLUSIVE_LOCK;
  ac_bits : bits (all_recs cs ++ rs).*1 (pg w);
  ac_master : setMaster (pg w) = false;
  ac_count : changeCountDone (pg w) = false;
  ac_hint : dbSize (pg w) = 0 → dbHintSize (pg w) = 0 }.

Record writer (f : file) (cs : list chunk) (rs : list (Z * list Z)) (A : snapshot) (w : world) : Prop := {
  wt_pages : pages cs rs A w;
  wt_journal : journalling f cs rs w;
  wt_active : active cs rs w }.

Definition writing (A : snapshot) (w : world) : Prop := ∃ f cs rs, writer f cs rs A w.

Lemma writer_safe f cs rs A w : writer f cs rs A w → safe w.
Proof. intros []. by apply (journalling_safe sz ss n D k f cs rs). Qed.
Lemma writing_safe A w : writing A w → safe w.
Proof. intros (f & cs & rs & H). by eapply writer_safe. Qed.

Lemma writer_en f cs rs A w h : writer f cs rs A w → writer f cs rs A (set_en h w).
Proof. intros [H1 H2 []]. split; [by apply pages_en|by apply journalling_en|by split]. Qed.

(** After the records are on the disk. *)
Lemma pages_synced cs rs A w cs' w' : pages cs rs A w → (all_recs cs').*1 = (all_recs cs ++ rs).*1 → cache w' = clear_sync <$> cache w → now (db (dk w')) = now (db (dk w)) →
  pageSize (pg w') = sz → errCode (pg w') = errCode (pg w) → dbSize (pg w') = dbSize (pg w) → dbFileSize (pg w') = dbFileSize (pg w) → mxPgno (pg w') = mxPgno (pg w) →
  dbFileVers (pg w') = dbFileVers (pg w) → pages cs' [] A w'.
Proof.
  intros [] EJ EC ED E1 E2 E3 E4 E5 E6. split; rewrite ?ED, ?E1, ?E2, ?E3, ?E4, ?E5, ?E6; try done.
  - intros g p Hg. rewrite EC, lookup_fmap in Hg. destruct (cache w !! g) as [q|] eqn:Eq; [|done]. injection Hg as <-. destruct (ps_cached0 g q Eq) as [V1 V2 Vm V3 V4 V5 V6].
    unfold clear_sync. destruct (dirty q) eqn:Ed; split; cbn; rewrite ?ED, ?E3; try done; rewrite ?Ed; try done; rewrite app_nil_r, EJ; auto.
  - intros g Hg. by apply elem_of_nil in Hg.
  - intros Hlt. destruct (ps_last0 Hlt) as (p & Hp & Hd). exists (clear_sync p). rewrite EC, lookup_fmap, Hp. split; [done|]. unfold clear_sync. by rewrite Hd.
  - intros g i Hg Hi Hc. rewrite <- ps_view0 by done. unfold view. rewrite EC, ED, lookup_fmap. destruct (cache w !! g) as [q|]; [|done]. cbn. unfold clear_sync. by destruct (dirty q).
Qed.

(** A page that is in the file need not be written any more. *)
Lemma pages_clean cs rs A w g : pages cs rs A w → flushed w g → pages cs rs A (set_cache (alter make_clean g) w).
Proof.
  intros [] (p & Hg & Hi & Hs & Hl). assert (alter make_clean g (cache w) = <[g := make_clean p]> (cache w)) as EC by (by apply alter_alt_Some).
  split; cbn; try done.
  - intros g' q Hq. rewrite EC in Hq. destruct (decide (g' = g)) as [->|Hne].
    + rewrite lookup_insert_eq in Hq. injection Hq as <-. destruct (ps_cached0 g p Hg). unfold make_clean. destruct (dirty p) eqn:Ed; split; cbn; try done; intros; congruence.
    + rewrite lookup_insert_ne in Hq by done. destruct (ps_cached0 g' q Hq). by split.
  - intros g' Hg'. destruct (ps_new0 g' Hg') as (q & Hcq & H1 & H2). exists q. rewrite EC, lookup_insert_ne; [done|]. intros ->. congruence.
  - intros Hlt. destruct (ps_last0 Hlt) as (q & Hcq & Hd). exists q. rewrite EC, lookup_insert_ne; [done|]. lia.
  - intros g' i H1 H2 H3. rewrite <- ps_view0 by done. unfold view. cbn. rewrite EC. destruct (decide (g' = g)) as [->|Hne].
    + rewrite lookup_insert_eq, Hg. unfold make_clean. by destruct (dirty p).
    + by rewrite lookup_insert_ne.
Qed.

Definition same_keys (w w' : world) : Prop := ∀ g, cache w !! g = None → cache w' !! g = None.

(** [syncJournal] with a new header, in terms of the pages. *)
Lemma syncJournal_writer f cs rs A w g p : writer f cs rs A w → cache w !! g = Some p → dirty p = true →
  returns (syncJournal true w) (λ rc w', safe w' ∧ errCode (pg w') = SQLITE_OK ∧ (failed rc ∨ rc = SQLITE_BUSY ∧ (∃ e, w' = tick e w) ∨
    rc = SQLITE_OK ∧ ∃ f' cs', writer f' cs' [] A w' ∧ cs' ≠ [] ∧ eState (pg w') = PAGER_WRITER_DBMOD ∧ eLock (pg w') = EXCLUSIVE_LOCK ∧ same_keys w w' ∧ cache w' !! g = Some (clear_sync p))).
Proof.
  intros [Hp Hj Ha] Hg Hd. eapply returns_mono; [apply (syncJournal_any sz ss n D k Hsz Hss Hss4 Hle Hn Hk true f cs rs w Hj); [|apply Ha]|].
  { destruct (ac_state _ _ _ Ha) as [E|(E & _)]; [by left|by right]. }
  intros rc w1 (S1 & X1 & H). split; [done|]. split; [rewrite X1; apply Hp|]. destruct H as [?|[?|(-> & (f1 & init & J1) & R1 & C1 & _ & D1)]]; [by left|by right; left|right; right]. split; [done|].
  assert ((all_recs (cs ++ [Chunk init rs])).*1 = (all_recs cs ++ rs).*1) as EJ by (by rewrite all_recs_app). unfold rest in R1. cbn in R1.
  assert (eState (pg w1) = PAGER_WRITER_DBMOD ∧ eLock (pg w1) = EXCLUSIVE_LOCK ∧ errCode (pg w1) = errCode (pg w) ∧ dbSize (pg w1) = dbSize (pg w) ∧ dbFileSize (pg w1) = dbFileSize (pg w) ∧
    mxPgno (pg w1) = mxPgno (pg w) ∧ pInJournal (pg w1) = pInJournal (pg w) ∧ dbFileVers (pg w1) = dbFileVers (pg w) ∧ setMaster (pg w1) = setMaster (pg w) ∧ changeCountDone (pg w1) = changeCountDone (pg w) ∧ dbHintSize (pg w1) = dbHintSize (pg w)) as (R2 & R3 & R4 & R5 & R6 & R7 & R8 & R9 & R10 & R11 & R12)
    by (injection R1; intros; by split_and!).
  exists f1, (cs ++ [Chunk init rs]). split; [|split; [by destruct cs|split; [done|split; [done|split]]]].
  - split; [|done|].
    + apply (pages_synced cs rs A w); try done; [by rewrite D1|by apply (it_page sz ss n D k f1 (cs ++ [Chunk init rs])), J1].
    + destruct Ha. split; [right; split_and!; [done|by destruct cs|done]|by right| |by rewrite R10|by rewrite R11|by rewrite R5, R12]. rewrite app_nil_r, EJ. destruct ac_bits0 as (b & Hb). exists b. by rewrite R8.
  - intros g' Hg'. by rewrite C1, lookup_fmap, Hg'.
  - by rewrite C1, lookup_fmap, Hg.
Qed.

Lemma bits_same J p q : pInJournal q = pInJournal p → bits J p → bits J q.
Proof. intros E (b & Hb). exists b. by rewrite E. Qed.

Lemma clear_sync_flags p : dirty p = true → dirty (clear_sync p) = true ∧ needSync (clear_sync p) = false ∧ pData (clear_sync p) = pData p.
Proof. intros H. unfold clear_sync. by rewrite H. Qed.

Lemma pager_error_any rc w : errCode (pg w) = SQLITE_OK → returns (pager_error rc w) (λ rc' w', rc' = rc ∧ dk w' = dk w ∧ (rc = SQLITE_OK ∨ rc = SQLITE_BUSY → w' = w)).
Proof.
  intros He. unfold pager_error. rewrite bind_assert by (by rewrite He). destruct (_ || _) eqn:E; prun; apply returns_mret; (split; [done|]; split; [done|]); [|done]. by intros [-> | ->].
Qed.

Lemma pagerStress_any f cs rs A w g p : writer f cs rs A w → cache w !! g = Some p → dirty p = true →
  returns (pagerStress g w) (λ rc w', safe w' ∧ (rc = SQLITE_OK ∨ rc = SQLITE_BUSY → writing A w' ∧ same_keys w w')).
Proof.
  intros Hw Hg Hd. pose proof (writer_safe _ _ _ _ _ Hw) as S0. assert (writing A w) as Hw0 by (by exists f, cs, rs). pose proof Hw as [Hp Hj Ha]. unfold pagerStress, page. rewrite (bind_gets _ _ _ p) by (by rewrite Hg).
  rewrite bind_assert by done. prun. rewrite (ps_err _ _ _ _ Hp). okb. prun. match goal with |- returns ((if ?b then _ else _) _) _ => destruct b end; [apply returns_mret; split; [done|]; intros _; split; [done|by intros ?]|]. prun.
  eapply returns_bind with (R := λ rc w', safe w' ∧ errCode (pg w') = SQLITE_OK ∧ (failed rc ∨ rc = SQLITE_BUSY ∧ (∃ e, w' = tick e w) ∨
    rc = SQLITE_OK ∧ ∃ f' cs' rs' q, writer f' cs' rs' A w' ∧ cs' ≠ [] ∧ eState (pg w') = PAGER_WRITER_DBMOD ∧ eLock (pg w') = EXCLUSIVE_LOCK ∧ same_keys w w' ∧ cache w' !! g = Some q ∧ dirty q = true ∧ needSync q = false)).
  { destruct (needSync p || (eState (pg w) =? PAGER_WRITER_CACHEMOD)) eqn:Eb.
    - eapply returns_mono; [by apply (syncJournal_writer f cs rs A w g p)|]. intros rc w1 (S1 & X1 & [?|[?|(-> & f1 & cs1 & H)]]); (split; [done|]; split; [done|]); [by left|by right; left|right; right]. split; [done|].
      destruct H as (H1 & H2 & H3 & H4 & H5 & H6). destruct (clear_sync_flags p Hd) as (? & ? & _). exists f1, cs1, [], (clear_sync p). by split_and!.
    - apply orb_false_iff in Eb as [E1 E2%Z.eqb_neq]. apply returns_mret. split; [done|]. split; [apply Hp|]. right; right. split; [done|]. destruct (ac_state _ _ _ Ha) as [?|(H1 & H2 & H3)]; [done|]. exists f, cs, rs, p. split_and!; try done. by intros ?. }
  intros rc w1 (S1 & X1 & H). prun. destruct H as [Hf|[[-> [e ->]]|(-> & f1 & cs1 & rs1 & q & H)]].
  - failb Hf. prun. failb Hf. prun. failb Hf. eapply returns_mono; [by apply pager_error_any|]. intros ? w2 (-> & E & _). split; [unfold PgWriting.safe; by rewrite E|]. intros [Hrc|Hrc]; by apply Hf in Hrc.
  - change (SQLITE_BUSY =? SQLITE_OK) with false. cbn [andb]. prun. cbv iota. prun. cbv iota. prun.
    eapply returns_mono; [by apply pager_error_any|]. intros ? w2 (-> & E & Hw2). rewrite Hw2 by auto. split; [done|]. intros _. split; [|by intros ?]. exists f, cs, rs. by apply writer_en.
  - destruct H as (Hw1 & Hne & Es & El & Hkeys & Hq & Hqd & Hqs). pose proof Hw1 as [Hp1 Hj1 Ha1]. pose proof (po_dirty _ _ _ _ _ (ps_cached _ _ _ _ Hp1 g q Hq) Hqd) as [Hgn _]. okb. rewrite (proj2 (Z.ltb_ge _ _)) by done. prun. okb.
    rewrite bind_assoc, (bind_gets _ _ _ q) by (by rewrite Hq). rewrite bind_assoc, bind_assert by (by rewrite Hqs).
    eapply returns_bind; [apply (write_pagelist_any f1 cs1 rs1 A [g] w1); try done; [apply Hj1|apply (jl_chunk _ _ _ _ _ _ _ _ _ Hj1)|apply NoDup_singleton|]|].
    { intros g' ->%list_elem_of_singleton. by exists q. }
    intros rc w2 (S2 & X2 & [Hf|(-> & W2 & F2)]).
    + failb Hf. prun. eapply returns_mono; [apply pager_error_any; by rewrite X2|]. intros ? w3 (-> & E & _). split; [unfold PgWriting.safe; by rewrite E|]. intros [Hrc|Hrc]; by apply Hf in Hrc.
    + okb. unfold sqlite3PcacheMakeClean, on_page. prun. set (w3 := set_cache _ w2). eapply returns_mono; [apply pager_error_any; change (pg w3) with (pg w2); by rewrite X2|].
      intros ? w4 (-> & _ & Hw4). rewrite Hw4 by auto. split; [done|]. intros _. split.
      * exists f1, cs1, rs1. split.
        -- apply pages_clean; [apply W2|]. apply F2. left. by apply list_elem_of_singleton.
        -- apply journalling_cache. apply (journalling_same _ _ _ w1); [apply W2|apply W2|done].
        -- pose proof (wr_state _ _ _ _ _ _ W2) as T. unfold state_fields in T. injection T as T1 T2 T3 T4 T5 T6 T7. destruct Ha1. split; cbn; rewrite ?T1, ?T2, ?T5, ?T7; try done; [by apply (bits_same _ (pg w1))|]. rewrite (wr_size _ _ _ _ _ _ W2). pose proof (po_pgno _ _ _ _ _ (ps_cached _ _ _ _ Hp1 g q Hq)). lia.
      * intros g' Hg'. apply Hkeys in Hg'. pose proof (wr_flags _ _ _ _ _ _ W2 g') as E. rewrite Hg' in E. destruct (cache w2 !! g') eqn:Eg; [done|]. cbn. rewrite lookup_alter_None. done.
Qed.

(** ** Reading pages *)

(** A transaction that has not changed anything. *)
Record locked (A : snapshot) (w : world) : Prop := {
  lk_pages : pages [] [] A w;
  lk_cf : cf w = k;
  lk_state : eState (pg w) = PAGER_WRITER_LOCKED;
  lk_lock : eLock (pg w) = RESERVED_LOCK ∨ eLock (pg w) = EXCLUSIVE_LOCK;
  lk_size : dbSize (pg w) = n;
  lk_orig : dbOrigSize (pg w) = n;
  lk_sector : sectorSize (pg w) = ss;
  lk_points : aSavepoint (pg w) = [];
  lk_in : pInJournal (pg w) = None;
  lk_master : setMaster (pg w) = false;
  lk_count : changeCountDone (pg w) = false;
  lk_hint : dbHintSize (pg w) = n;
  lk_mode : journalMode k = DELETE → jopen (pg w) = false;
  lk_db : db_safe sz n D (db (dk w)) [];
  lk_gone : jgone (dk w) = None;
  lk_jrn : match jrn (dk w) with Some f => quiet f 0 ∧ Forall bytes_ok (versions f) | None => jopen (pg w) = false end }.

Definition txn (A : snapshot) (w : world) : Prop := writing A w ∨ locked A w.

Lemma locked_safe A w : locked A w → safe w.
Proof.
  intros []. split; [|done]. exists []. split; [done|]. destruct (jrn (dk w)) as [f|]; [|done]. split; [|done]. destruct lk_jrn0 as [Hq Hb]. split; [done|done|by constructor|]. left. exact Hq.
Qed.
Lemma txn_safe A w : txn A w → safe w.
Proof. intros [H|H]; [by eapply writing_safe|by eapply locked_safe]. Qed.

Lemma txn_pages A w : txn A w → ∃ cs rs, pages cs rs A w.
Proof. intros [(f & cs & rs & [])|[]]; by eexists _, _. Qed.

Lemma txn_map A w w' : txn A w → (∀ cs rs, pages cs rs A w → pages cs rs A w') → pg w' = pg w → dk w' = dk w → cf w' = cf w → txn A w'.
Proof.
  intros [(f & cs & rs & [H1 H2 H3])|[]] HP E1 E2 E3; [left; exists f, cs, rs; split|right; split]; rewrite ?E1, ?E2, ?E3; auto.
  - apply (journalling_same _ _ _ w); [unfold journal_fields; by rewrite E1, E2, E3| |done]. rewrite E2. apply H2.
  - destruct H3. split; by rewrite E1.
Qed.

Lemma txn_en A w h : txn A w → txn A (set_en h w).
Proof. intros H. apply (txn_map A w); [done| |done..]. intros cs rs. apply pages_en. Qed.

Lemma no_dirty A w g p : locked A w → cache w !! g = Some p → dirty p = false.
Proof.
  intros [] Hg. destruct (dirty p) eqn:Hd; [|done]. destruct (po_dirty _ _ _ _ _ (ps_cached _ _ _ _ lk_pages0 g p Hg) Hd) as [H1 H2]. rewrite lk_size0 in H1. apply H2 in H1. by apply elem_of_nil in H1.
Qed.

(** Clean pages can leave the cache. *)
Lemma pages_drop cs rs A w c : pages cs rs A w → (∀ g p, c !! g = Some p → cache w !! g = Some p) → (∀ g p, cache w !! g = Some p → c !! g = None → dirty p = false) →
  pages cs rs A (set_cache (λ _, c) w).
Proof.
  intros [] Hsub Hdrop. assert (∀ g p, cache w !! g = Some p → dirty p = true → c !! g = Some p) as Hkeep.
  { intros g p Hg Hd. destruct (c !! g) as [q|] eqn:E; [apply Hsub in E; congruence|]. pose proof (Hdrop g p Hg E). congruence. }
  split; cbn; try done.
  - intros g p Hg. destruct (ps_cached0 g p (Hsub g p Hg)). by split.
  - intros g Hg. destruct (ps_new0 g Hg) as (p & H1 & H2 & H3). exists p. auto.
  - intros Hlt. destruct (ps_last0 Hlt) as (p & H1 & H2). exists p. auto.
  - intros g i H1 H2 H3. rewrite <- ps_view0 by done. unfold view. cbn. destruct (cache w !! g) as [p|] eqn:E.
    + destruct (c !! g) as [q|] eqn:E'; [apply Hsub in E'; congruence|]. symmetry. apply (po_clean _ _ _ _ _ (ps_cached0 g p E)); [by apply (Hdrop g)|done].
    + destruct (c !! g) as [q|] eqn:E'; [apply Hsub in E'; congruence|done].
Qed.

Lemma drop_pages_any A w l : txn A w → txn A (drop_pages l w).
Proof.
  intros Ht. apply (txn_map A w); [done| |done..]. intros cs rs Hp. apply (pages_drop cs rs A w (foldr (λ g c, if can_drop w g then delete g c else c) (cache w) l)); [done|..]; clear Ht Hp; induction l as [|x l IH]; cbn [foldr].
  - done.
  - intros g p. destruct (can_drop w x); [|by apply IH]. rewrite lookup_delete_Some. intros [_ ?]. by apply IH.
  - intros g p H1 H2. congruence.
  - intros g p H1. destruct (can_drop w x) eqn:E; [|by apply IH]. rewrite lookup_delete_None. intros [->|?]; [|by apply (IH g)]. unfold can_drop in E. rewrite H1 in E. by apply andb_true_iff in E as [?%negb_true_iff _].
Qed.

Lemma pressure_any w : returns (next_pressure w) (λ _ w', ∃ h, w' = set_en h w).
Proof. unfold next_pressure. destruct (pressure (en w)) as [|x l]; apply returns_ret; [exists id; by destruct w as [? ? ? [] ? ?]|by eexists]. Qed.

Lemma malloc_any w : returns (sqlite3_malloc w) (λ _ w', ∃ h, w' = set_en h w).
Proof. unfold sqlite3_malloc. destruct (take_mem (memory (en w))) as [ok m]. apply returns_ret. by eexists. Qed.

Lemma Fetch_any A w g : txn A w →
  returns (sqlite3PcacheFetch g w) (λ a w', safe w' ∧ (a.1 = SQLITE_OK → if a.2 then ∃ w0, txn A w0 ∧ cache w0 !! g = None ∧ w' = set_cache (insert g (Page (zero_page (pageSize (pg w0))) false false false)) w0
    else txn A w' ∧ is_Some (cache w' !! g))).
Proof.
  intros Ht. unfold sqlite3PcacheFetch. prun. destruct (cache w !! g) as [p|] eqn:Eg.
  { apply returns_mret. cbn. split; [by apply (txn_safe A)|]. intros _. split; [done|by eexists]. }
  eapply returns_bind; [apply pressure_any|]. intros [victim clean] w1 [h ->]. apply (txn_en _ _ h) in Ht. assert (cache (set_en h w) !! g = None) as Eg1 by done. set (w1 := set_en h w) in *. clearbody w1. clear w Eg.
  eapply returns_bind with (R := λ rc w', safe w' ∧ (rc = SQLITE_OK ∨ rc = SQLITE_BUSY → txn A w' ∧ cache w' !! g = None)).
  { destruct victim as [v|]; [|apply returns_mret; split; [by apply (txn_safe A)|done]]. prun. destruct (can_spill w1 v) eqn:Ec; [|apply returns_mret; split; [by apply (txn_safe A)|done]].
    unfold can_spill in Ec. destruct (cache w1 !! v) as [q|] eqn:Ev; [|done]. apply andb_true_iff in Ec as [Hd _]. destruct Ht as [(f & cs & rs & Hw)|Hl]; [|pose proof (no_dirty _ _ _ _ Hl Ev); congruence].
    eapply returns_mono; [by apply (pagerStress_any f cs rs A w1 v q)|]. intros rc w2 (S2 & H2). split; [done|]. intros Hrc. destruct (H2 Hrc) as [H3 H4]. split; [by left|by apply H4]. }
  intros rc w2 (S2 & H2). destruct (negb (rc =? SQLITE_OK) && negb (rc =? SQLITE_BUSY)) eqn:Eb.
  { apply returns_mret. split; [done|]. cbn. intros ->. done. }
  destruct H2 as [Ht2 Eg2]; [apply andb_false_iff in Eb as [?%negb_false_iff%Z.eqb_eq|?%negb_false_iff%Z.eqb_eq]; auto|]. prun.
  apply (drop_pages_any _ _ clean) in Ht2. assert (cache (drop_pages clean w2) !! g = None) as Eg3.
  { cbn. clear Ht2. induction clean as [|x l IH]; cbn [foldr]; [done|]. destruct (can_drop w2 x); [|done]. rewrite lookup_delete_None. by right. }
  set (w3 := drop_pages clean w2) in *. clearbody w3. eapply returns_bind; [apply malloc_any|]. intros [|] w4 [h4 ->]; apply (txn_en _ _ h4) in Ht2.
  - prun. apply returns_mret. cbn [fst snd]. split; [by apply (txn_safe A) in Ht2|]. intros _. by exists (set_en h4 w3).
  - apply returns_mret. split; [by apply (txn_safe A)|done].
Qed.

(** A clean page joins the cache. *)
Lemma pages_insert cs rs A w g d : pages cs rs A w → cache w !! g = None → 1 ≤ g ≤ PAGER_MAX_PGNO → g ≤ M → g ≠ PENDING_BYTE / sz + 1 → zlen d = sz → page_is (now (db (dk w))) g d →
  pages cs rs A (set_cache (insert g (Page d false false false)) w).
Proof.
  intros [] Hg H1 Hm H2 H3 H4. split; cbn; try done.
  - intros g' p. destruct (decide (g' = g)) as [->|Hne].
    + rewrite lookup_insert_eq. intros [= <-]. by split.
    + rewrite lookup_insert_ne by done. intros Hp. destruct (ps_cached0 g' p Hp). by split.
  - intros g' Hg'. destruct (ps_new0 g' Hg') as (p & Hp & ?). exists p. rewrite lookup_insert_ne; [done|]. intros ->. congruence.
  - intros Hlt. destruct (ps_last0 Hlt) as (p & Hp & ?). exists p. rewrite lookup_insert_ne; [done|]. intros ->. congruence.
  - intros g' i ? ? ?. rewrite <- ps_view0 by done. unfold view. cbn. destruct (decide (g' = g)) as [->|Hne]; [|by rewrite lookup_insert_ne].
    rewrite lookup_insert_eq, Hg. cbn. by apply H4.
Qed.

Lemma pages_vers cs rs A w v : pages cs rs A w → zlen v = 16 → pages cs rs A (set_pg (set_dbFileVers v) w).
Proof. intros [] Hv. split; try done. intros g p Hg. destruct (ps_cached0 g p Hg). by split. Qed.

Lemma txn_vers A w v : txn A w → zlen v = 16 → txn A (set_pg (set_dbFileVers v) w).
Proof.
  intros [(f & cs & rs & [H1 H2 H3])|[]] Hv; [left; exists f, cs, rs; split|right; split]; try done; try by apply pages_vers.
  - by apply journalling_assign.
  - destruct H3. by split.
Qed.

Lemma zero_page_is A w g : txn A w → dbSize (pg w) < g → page_is (now (db (dk w))) g (zero_page sz).
Proof.
  intros Ht Hg i Hi. destruct (txn_pages _ _ Ht) as (cs & rs & Hp). pose proof (ps_file _ _ _ _ Hp). pose proof (ps_mid _ _ _ _ Hp). pose proof (proj1 Hsz). unfold page_offset.
  rewrite (at8_beyond (now (db (dk w)))) by nia. unfold zero_page, at8. by rewrite lookup_replicate_2 by lia.
Qed.

Lemma read_page_is l g amt : amt = sz → 1 ≤ g → page_is l g (slice l (page_offset sz g) amt ++ replicate (Z.to_nat amt - length (slice l (page_offset sz g) amt)) 0).
Proof.
  intros -> Hg i Hi. pose proof (proj1 Hsz). assert (0 ≤ page_offset sz g) as Ho by (unfold page_offset; nia). set (s := slice l (page_offset sz g) sz).
  assert (length s = (Z.to_nat sz `min` (length l - Z.to_nat (page_offset sz g)))%nat) as EL by (unfold s, slice; by rewrite length_take, length_drop).
  destruct (decide (i < zlen s)) as [Hin|Hout].
  - unfold at8 at 1. rewrite lookup_app_l by lia. fold (at8 s i). unfold s. rewrite slice_at8 by lia. done.
  - rewrite (at8_beyond l) by lia. unfold at8. rewrite lookup_app_r by lia. by rewrite lookup_replicate_2 by lia.
Qed.

(** Filling a page that has just been created. *)
Definition with_page (g : Z) (d : list Z) (w : world) : world := set_cache (insert g (Page d false false false)) w.

Lemma on_new_page g d d' w : set_cache (alter (set_data d') g) (with_page g d w) = with_page g d' w.
Proof. unfold with_page, set_cache. cbn. f_equal. rewrite (alter_alt_Some _ _ _ (Page d false false false)) by apply lookup_insert_eq. by rewrite insert_insert_eq. Qed.

Lemma with_page_txn A w g d : txn A w → cache w !! g = None → 1 ≤ g ≤ PAGER_MAX_PGNO → g ≤ M → g ≠ PENDING_BYTE / sz + 1 → page_is (now (db (dk w))) g d → zlen d = sz →
  txn A (with_page g d w) ∧ is_Some (cache (with_page g d w) !! g).
Proof.
  intros Ht Hg H1 Hm H2 Hd Hl. split; [|cbn; rewrite lookup_insert_eq; by eexists]. apply (txn_map A w); [done| |done..]. intros cs rs Hp. by apply pages_insert.
Qed.

Lemma readDbPage_any A w g d0 : txn A w → cache w !! g = None → 1 ≤ g ≤ PAGER_MAX_PGNO → g ≤ M → g ≠ PENDING_BYTE / sz + 1 → PAGER_READER ≤ eState (pg w) →
  returns (readDbPage g (with_page g d0 w)) (λ rc w', dk w' = dk w ∧ (rc = SQLITE_OK → txn A w' ∧ is_Some (cache w' !! g))).
Proof.
  intros Ht Hg H1 Hm H2 Hs. destruct (txn_pages _ _ Ht) as (cs0 & rs0 & Hp0). pose proof (proj1 Hsz) as Lsz. unfold readDbPage. rewrite bind_assert by (by apply Z.leb_le). prun. change (pg (with_page g d0 w)) with (pg w). rewrite (ps_size _ _ _ _ Hp0).
  eapply returns_bind; [apply (OsRead_any _ Fd (db (dk w))); [done|lia|unfold page_offset; nia]|]. intros [rc l] w1 (e & -> & Hl & H). cbn [fst snd] in Hl, H. unfold on_page. prun.
  change (tick e (with_page g d0 w)) with (with_page g d0 (tick e w)). rewrite on_new_page.
  assert (failed rc ∨ (if rc =? SQLITE_IOERR_SHORT_READ then SQLITE_OK else rc) = SQLITE_OK ∧ page_is (now (db (dk w))) g l) as Hrc.
  { destruct H as [(-> & -> & _)|[(-> & _ & ->)|Hf]]; [right|right|by left]; (split; [done|]); [|by apply read_page_is; [|lia]].
    intros i Hi. rewrite slice_at8; [done| |done]. unfold page_offset. nia. }
  set (rc' := if rc =? SQLITE_IOERR_SHORT_READ then SQLITE_OK else rc) in *.
  eapply returns_bind with (R := λ _ w', ∃ v, zlen v = 16 ∧ w' = set_pg (set_dbFileVers v) (with_page g l (tick e w))).
  { assert (∀ w', w' = with_page g l (tick e w) → ∃ v, zlen v = 16 ∧ w' = set_pg (set_dbFileVers v) (with_page g l (tick e w))) as Hid.
    { intros w' ->. exists (dbFileVers (pg w)). split; [apply Hp0|]. by destruct w as [[] ? ? ? ? ?]. }
    destruct (g =? 1); [|by apply returns_mret, Hid]. destruct (negb _).
    - apply returns_ret. exists (replicate 16 0xff). by split.
    - unfold load_vers. rewrite (bind_lift _ _ _ (slice l 24 16)) by (apply get_slice_ok; lia). apply returns_ret. eexists. split; [|done]. rewrite slice_length; lia. }
  intros _ w2 (v & Hv & ->). apply returns_mret. split; [done|]. intros E. destruct Hrc as [Hf|[_ Hpage]].
  { exfalso. unfold rc' in E. rewrite (failed_short _ Hf) in E. by apply Hf in E. }
  destruct (with_page_txn A (tick e w) g l) as [T1 T2]; try done; [by apply txn_en|]. split; [by apply txn_vers|done].
Qed.

Lemma fill_page_any A w g d0 : txn A w → cache w !! g = None → 1 ≤ g → PAGER_READER ≤ eState (pg w) →
  returns (fill_page g false (with_page g d0 w)) (λ rc w', dk w' = dk w ∧ (rc = SQLITE_OK → txn A w' ∧ is_Some (cache w' !! g))).
Proof.
  intros Ht Hg H1 Hs. destruct (txn_pages _ _ Ht) as (cs0 & rs0 & Hp0). pose proof (proj1 Hsz) as Lsz. unfold fill_page. prun. change (pg (with_page g d0 w)) with (pg w). unfold PAGER_MJ_PGNO. rewrite (ps_size _ _ _ _ Hp0).
  destruct ((PAGER_MAX_PGNO <? g) || (g =? PENDING_BYTE / sz + 1)) eqn:Eb; [by apply returns_mret|]. apply orb_false_iff in Eb as [Hm%Z.ltb_ge Hmj%Z.eqb_neq]. prun. change (pg (with_page g d0 w)) with (pg w). rewrite orb_false_r.
  destruct (Z.ltb_spec (dbSize (pg w)) g) as [Hlt|Hge]; [|pose proof (ps_high _ _ _ _ Hp0); apply readDbPage_any; done || lia]. prun. change (pg (with_page g d0 w)) with (pg w). destruct (Z.ltb_spec (mxPgno (pg w)) g) as [|Hmx]; [by apply returns_mret|]. prun. unfold on_page. prun. apply returns_mret.
  change (pg (with_page g d0 w)) with (pg w). rewrite (ps_size _ _ _ _ Hp0), on_new_page. split; [done|]. intros _. pose proof (ps_mx _ _ _ _ Hp0). apply with_page_txn; try done; [lia|by apply (zero_page_is A)|]. unfold zero_page. rewrite length_replicate. lia.
Qed.

Lemma txn_state A w : txn A w → PAGER_READER ≤ eState (pg w).
Proof. intros [(f & cs & rs & [_ _ H])|H]; [destruct (ac_state _ _ _ H) as [-> |(-> & _)]|rewrite (lk_state _ _ H)]; done. Qed.

(** Reading a page. *)
Lemma Get_any A w g : txn A w → 0 ≤ g →
  returns (sqlite3PagerGet g w) (λ rc w', safe w' ∧ (rc = SQLITE_OK → 1 ≤ g ∧ txn A w' ∧ is_Some (cache w' !! g))).
Proof.
  intros Ht H0. unfold sqlite3PagerGet, sqlite3PagerAcquire. rewrite bind_assert by (by apply Z.leb_le, (txn_state A)). destruct (Z.eqb_spec g 0) as [->|Hg0].
  { apply returns_mret. split; [by apply (txn_safe A)|done]. }
  prun. destruct (txn_pages _ _ Ht) as (cs0 & rs0 & Hp0). rewrite (ps_err _ _ _ _ Hp0). okb. eapply returns_bind; [by apply (Fetch_any A)|]. intros [rc fresh] w1 [S1 H1]. cbn [fst snd] in H1.
  destruct (Z.eqb_spec rc SQLITE_OK) as [->|Hrc]; cbn [negb]; [|apply returns_mret; split; [done|by intros]]. specialize (H1 eq_refl). destruct fresh; cbn [negb andb].
  - destruct H1 as (w0 & Ht0 & Eg & ->). eapply returns_bind; [apply (fill_page_any A w0 g); [done..|lia|by apply (txn_state A)]|]. intros rc w2 [E2 H2].
    assert (safe w2) as S2 by (unfold PgWriting.safe; rewrite E2; by apply (txn_safe A)). destruct (Z.eqb_spec rc SQLITE_OK) as [->|Hrc]; prun; apply returns_mret.
    + split; [done|]. intros _. split; [lia|by apply H2].
    + split; [done|by intros].
  - destruct H1 as [Ht1 [p Hp]]. destruct (txn_pages _ _ Ht1) as (cs1 & rs1 & Hp1). destruct (ps_cached _ _ _ _ Hp1 g p Hp) as [V1 V2 _ _ _ _ _].
    rewrite bind_assert. { apply returns_mret. split; [done|]. intros _. split; [lia|]. split; [done|by eexists]. }
    rewrite (proj2 (Z.leb_le _ _)) by lia. unfold PAGER_MJ_PGNO. rewrite (ps_size _ _ _ _ Hp1). by rewrite (proj2 (Z.eqb_neq _ _)).
Qed.

(** ** Dirty pages *)

(** Page [g] becomes dirty; if it has a record, that is in [rs'] now. *)
Lemma pages_dirtied cs rs rs' A w w' g p b : pages cs rs A w → cache w !! g = Some p → cache w' = <[g := Page (pData p) true b false]> (cache w) → now (db (dk w')) = now (db (dk w)) →
  errCode (pg w') = errCode (pg w) → pageSize (pg w') = pageSize (pg w) → dbSize (pg w') = dbSize (pg w) `max` g → mxPgno (pg w') = mxPgno (pg w) → dbFileVers (pg w') = dbFileVers (pg w) →
  dbFileSize (pg w') = dbFileSize (pg w) → (∀ x, x ∈ rs'.*1 → x ∈ rs.*1 ∨ x = g) → (g ∈ rs'.*1 → b = true) → (∀ x, x ∈ (all_recs cs ++ rs).*1 → x ∈ (all_recs cs ++ rs').*1) →
  (g ≤ n → g ∈ (all_recs cs ++ rs').*1) → pages cs rs' (grow_to g A) w'.
Proof.
  intros [] Hg EC ED E1 E2 E3 E4 E5 E6 R1 R2 R3 R4. pose proof (ps_cached0 g p Hg) as [V1 V2 Vm V3 V4 V5 V6]. split; rewrite ?ED, ?E1, ?E2, ?E3, ?E4, ?E5, ?E6; try done; try lia.
  - cbn. by rewrite ps_count0.
  - intros g' q. rewrite EC. destruct (decide (g' = g)) as [->|Hne].
    + rewrite lookup_insert_eq. intros [= <-]. split; cbn; rewrite ?ED; try done. rewrite E3. intros _. split; [lia|done].
    + rewrite lookup_insert_ne by done. intros Hq. destruct (ps_cached0 g' q Hq). split; rewrite ?ED; try done. intros Hd. rewrite E3. destruct (po_dirty0 Hd) as [H1 H2]. split; [lia|auto].
  - intros g' Hg'. rewrite EC. destruct (decide (g' = g)) as [->|Hne].
    + eexists. rewrite lookup_insert_eq. split; [done|]. split; [done|by apply R2].
    + rewrite lookup_insert_ne by done. apply ps_new0. by destruct (R1 _ Hg').
  - intros Hlt. rewrite EC. destruct (decide (g = dbSize (pg w) `max` g)) as [<-|Hne].
    + eexists. by rewrite lookup_insert_eq.
    + rewrite lookup_insert_ne by done. rewrite Z.max_l in Hlt |- * by lia. by apply ps_last0.
  - intros g' i H1 H2 H3. cbn [grow_to snap_page]; rewrite <- ps_view0 by done. unfold view. rewrite EC, ED. destruct (decide (g' = g)) as [->|Hne]; [|by rewrite lookup_insert_ne].
    by rewrite lookup_insert_eq, Hg.
Qed.

(** The client changes a dirty page. *)
Lemma pages_data cs rs A (A' : snapshot) w g p d : pages cs rs A w → cache w !! g = Some p → dirty p = true → zlen d = sz → (∀ i, 0 ≤ i < sz → ¬ counter g i → at8 d i = at8 (A' g) i) → (∀ x, x ≠ g → A' x = A x) → snap_size A' = snap_size A →
  pages cs rs A' (set_cache (λ c, <[g := set_data d p]> c) w).
Proof.
  intros [] Hg Hd Hl HA HA' HS. split; cbn; try done; try congruence.
  - intros g' q. destruct (decide (g' = g)) as [->|Hne].
    + rewrite lookup_insert_eq. intros [= <-]. destruct (ps_cached0 g p Hg). split; cbn; try done. intros; congruence.
    + rewrite lookup_insert_ne by done. intros Hq. destruct (ps_cached0 g' q Hq). by split.
  - intros g' Hg'. destruct (ps_new0 g' Hg') as (q & Hq & H1 & H2). destruct (decide (g' = g)) as [->|Hne]; [|exists q; by rewrite lookup_insert_ne].
    exists (set_data d p). rewrite lookup_insert_eq. split; [done|]. split; [done|]. cbn. congruence.
  - intros Hlt. destruct (ps_last0 Hlt) as (q & Hq & H1). destruct (decide (dbSize (pg w) = g)) as [->|Hne]; [|exists q; by rewrite lookup_insert_ne].
    exists (set_data d p). rewrite lookup_insert_eq. done.
  - intros g' i H1 H2 H3. unfold view. cbn. destruct (decide (g' = g)) as [->|Hne].
    + rewrite lookup_insert_eq. by apply HA.
    + rewrite lookup_insert_ne, HA' by done. by apply ps_view0.
Qed.

Lemma pages_changed cs rs A w g p d : pages cs rs A w → cache w !! g = Some p → dirty p = true → zlen d = sz → pages cs rs (set_page g d A) (set_cache (alter (set_data d) g) w).
Proof.
  intros Hp Hg Hd Hl. replace (set_cache (alter (set_data d) g) w) with (set_cache (λ c, <[g := set_data d p]> c) w) by (unfold set_cache; f_equal; symmetry; by apply alter_alt_Some).
  apply (pages_data _ _ A); [done..| | |done]; unfold set_page; cbn; [intros i _ _; by rewrite Z.eqb_refl|]. intros x Hx. by rewrite (proj2 (Z.eqb_neq _ _) Hx).
Qed.

Lemma writing_changed A w g p d : writing A w → cache w !! g = Some p → dirty p = true → zlen d = sz → writing (set_page g d A) (set_cache (alter (set_data d) g) w).
Proof.
  intros (f & cs & rs & [H1 H2 H3]) Hg Hd Hl. exists f, cs, rs. split; [by apply (pages_changed _ _ _ _ g p)|by apply journalling_cache|]. destruct H3. by split.
Qed.
End Pages.
