(* ===== verification/PgChange.v ===== *)
(** * The pager: changing pages

    [sqlite3PagerWrite] in a running transaction: opening the journal, saving the old
    content of a page in it, and the change itself. *)

From S2P Require Import Prelude Varint Buffer Bitvec PgFile PgImage Pager PgTxn PgHot PgJournal PgRecover PgInv PgWriting PgCache.
#[local] Open Scope Z_scope.
#[local] Open Scope c_scope.
#[local] Open Scope list_scope.

Section Change.
Context (sz ss n M : Z) (D : list Z) (k : settings).
Hypothesis (Hsz : size_between 512 sz) (Hss : size_between 32 ss) (Hss4 : Z.divide 4 ss) (Hle : ss ≤ sz) (Hn : 0 ≤ n < 2 ^ 31) (HD : zlen D = sz * n) (HbD : bytes_ok D).
Hypothesis (Hk : settings_ok k) (HM : sz * M ≤ 2 ^ 40).

#[local] Abbreviation in_txn := (in_txn sz ss n D k).
#[local] Abbreviation journalling := (journalling sz ss n D k).
#[local] Abbreviation safe := (safe sz ss n D).
#[local] Abbreviation next_header := (next_header sz ss).
#[local] Abbreviation pages := (pages sz n M).
#[local] Abbreviation writer := (writer sz ss n M D k).
#[local] Abbreviation writing := (writing sz ss n M D k).
#[local] Abbreviation locked := (locked sz ss n M D k).
#[local] Abbreviation txn := (txn sz ss n M D k).
#[local] Abbreviation active := (active n).

(** ** Bit vectors *)


Lemma zeroed_bits g : 0 ≤ g → sqlite3BitvecTest (Some (zeroed n)) g = Some false.
Proof.
  intros Hg. destruct (zeroed_inv MAX_DEPTH n) as (H1 & H2 & H3).
  { assert (BITVEC_NBIT * BITVEC_NPTR ^ Z.of_nat MAX_DEPTH = 58632501248) as -> by reflexivity. lia. }
  destruct (decide (0 < g ≤ iSize (zeroed n))) as [Hr|Hr]; [|by apply sqlite3BitvecTest_out]. rewrite sqlite3BitvecTest_bit by done. rewrite H3; [done|lia].
Qed.

Lemma create_any m w : returns (bitvec_create m w) (λ o w', (∃ h, w' = set_en h w) ∧ (o = None ∨ o = Some (zeroed m))).
Proof.
  unfold bitvec_create, sqlite3BitvecCreate. destruct (take_mem (memory (en w))) as [[] mem]; apply returns_ret; (split; [by eexists|]); auto.
Qed.

(** [sqlite3BitvecSet] on the journalled pages. *)
Lemma set_in_journal_any J g w : bits n J (pg w) → 0 < g ≤ n →
  returns (set_in_journal g w) (λ rc w', (rc = SQLITE_OK ∨ rc = SQLITE_NOMEM) ∧ ∃ b h, w' = set_pg (set_pInJournal (Some b)) (set_en h w) ∧ (rc = SQLITE_OK → ∀ J', (∀ x, x ∈ J' ↔ x = g ∨ x ∈ J) → bits n J' (pg w'))).
Proof.
  intros (b & Eb & Hb & Hs & Ht) Hg. unfold set_in_journal. prun. rewrite Eb. destruct (bitvec_set_spec (memory (en w)) b g Hb) as (rc & b' & mem & E & Hb' & Hs' & Hrc & _ & Hj); [lia|].
  unfold bitvec_set. rewrite (sm_bind_run _ _ _ (rc, Some b') (set_en (set_memory mem) w)) by (by rewrite E). prun. apply returns_mret. split; [done|].
  exists b', (set_memory mem). split; [done|]. intros -> J' HJ. exists b'. split; [done|]. split; [done|]. split; [congruence|]. intros x Hx. destruct (Hj x Hx) as (t & t' & T1 & T2 & _ & T4). rewrite T2, T4 by done.
  rewrite Ht in T1 by done. injection T1 as <-. f_equal. destruct (Z.eqb_spec x g) as [->|Hne]; cbn [orb].
  - symmetry. apply bool_decide_eq_true. apply HJ. by left.
  - apply bool_decide_ext. rewrite HJ. intuition.
Qed.

(** ** Opening the journal *)

Lemma quiet_empty h : quiet (File [] []) h.
Proof. left. intros u Hu%list_elem_of_singleton. by subst. Qed.

(** The journal file is there, without a header. *)
Definition no_journal (w : world) : Prop :=
  db_safe sz n D (db (dk w)) [] ∧ jgone (dk w) = None ∧ match jrn (dk w) with Some f => quiet f 0 ∧ Forall bytes_ok (versions f) | None => jopen (pg w) = false end.

Lemma no_journal_safe w : no_journal w → safe w.
Proof.
  intros (Hd & Hg & Hj). split; [|done]. exists []. split; [done|]. destruct (jrn (dk w)) as [f|]; [|done]. split; [|done]. destruct Hj as [Hq Hb]. split; [done|done|by constructor|]. by left.
Qed.

Lemma open_file_any w : no_journal w →
  returns ((if jopen (pg w) then mret SQLITE_OK else (rc ← databaseIsUnmoved; if rc =? SQLITE_OK then os_open_journal true else mret rc)) w)
    (λ rc w', safe w' ∧ cache w' = cache w ∧ db (dk w') = db (dk w) ∧ cf w' = cf w ∧ jgone (dk w') = None ∧ pg w' = set_jopen (jopen (pg w')) (pg w) ∧
      (rc = SQLITE_OK → jopen (pg w') = true ∧ ∃ f, jrn (dk w') = Some f ∧ quiet f 0 ∧ Forall bytes_ok (versions f))).
Proof.
  intros Hl. pose proof (no_journal_safe _ Hl) as S0. destruct Hl as (Hd & Hg & Hj). assert (∀ w', (∃ e, w' = tick e w) → safe w' ∧ cache w' = cache w ∧ db (dk w') = db (dk w) ∧ cf w' = cf w ∧ jgone (dk w') = None ∧ pg w' = set_jopen (jopen (pg w')) (pg w)) as Htick.
  { intros w' [e ->]. split_and!; try done. by destruct w as [[] ? ? ? ? ?]. }
  destruct (jopen (pg w)) eqn:Eo.
  - apply returns_mret. split_and!; try done; [by destruct w as [[] ? ? ? ? ?]; cbn in *; subst|]. intros _. split; [done|]. destruct (jrn (dk w)) as [f|]; [by exists f|congruence].
  - eapply returns_bind with (R := λ rc w', ∃ e, w' = tick e w).
    { unfold databaseIsUnmoved. prun. destruct (_ =? 0); [apply returns_mret; exists (events (en w)); by destruct w as [? ? ? [] ? ?]|]. eapply returns_bind; [apply next_answer_any|]. intros a w1 [e ->]. apply returns_mret. by exists e. }
    intros rc w1 Hw1. destruct (rc =? SQLITE_OK) eqn:Erc; [|apply returns_mret; destruct (Htick w1 Hw1) as (? & ? & ? & ? & ? & ?); split_and!; try done; intros ->; done].
    unfold os_open_journal. eapply returns_bind; [apply next_answer_any|]. destruct Hw1 as [e1 ->]. intros a w2 [e2 ->]. cbv zeta. destruct (answer_rc SQLITE_CANTOPEN a =? SQLITE_OK) eqn:E2; cbn [negb]; [|apply returns_mret; destruct (Htick (tick e2 (tick e1 w))) as (? & ? & ? & ? & ? & ?); [by exists e2|]; split_and!; try done; intros Hx; by rewrite Hx in E2].
    prun. change (jrn (dk (tick e2 (tick e1 w)))) with (jrn (dk w)). destruct (jrn (dk w)) as [f|] eqn:Ej; prun; apply returns_mret.
    + split_and!; try done. intros _. split; [done|]. by exists f.
    + split; [|split_and!; try done].
      * split; [|done]. exists []. split; [done|]. cbn. split; [|done]. split; [by repeat constructor|done|by constructor|]. left. apply quiet_empty.
      * intros _. split; [done|]. exists (File [] []). split; [done|]. split; [apply quiet_empty|by repeat constructor].
Qed.

Lemma open_journal_any A w : locked A w → returns (pager_open_journal w) (λ rc w', safe w' ∧ (rc = SQLITE_OK → writing A w' ∧ cache w' = cache w)).
Proof.
  intros Hl. pose proof (locked_safe _ _ _ _ _ _ _ _ Hl) as S0. pose proof (lk_pages _ _ _ _ _ _ _ _ Hl) as Hp. pose proof (proj1 Hss) as Lss. unfold pager_open_journal.
  rewrite bind_assert by (by rewrite (lk_state _ _ _ _ _ _ _ _ Hl)). rewrite bind_assert by (by rewrite (lk_in _ _ _ _ _ _ _ _ Hl)). prun. rewrite (ps_err _ _ _ _ _ _ _ Hp). okb. prun.
  rewrite bool_decide_eq_false_2 by (rewrite (lk_cf _ _ _ _ _ _ _ _ Hl); by destruct (so_mode _ Hk) as [-> | ->]). prun. rewrite (lk_size _ _ _ _ _ _ _ _ Hl).
  eapply returns_bind; [apply create_any|]. intros o w1 [[h ->] Ho]. destruct Ho as [-> | ->]; [by apply returns_mret|]. prun. set (w1 := set_pg _ (set_en h w)).
  assert (no_journal w1) as Hno by (split; [apply Hl|split; apply Hl]).
  eapply returns_bind; [by apply open_file_any|]. change (cache w1) with (cache w). change (dk w1) with (dk w). change (cf w1) with (cf w). change (pg w1) with (set_pInJournal (Some (zeroed n)) (pg w)).
  intros rc w2 (S2 & C2 & D2 & F2 & G2 & P2 & H2).
  eapply returns_bind with (R := λ rc w', safe w' ∧ (rc = SQLITE_OK → ∃ f, journalling f [] [] w' ∧ rest (pg w') = rest (set_setMaster false (pg w2)) ∧ cache w' = cache w2 ∧ db (dk w') = db (dk w2))).
  { destruct (Z.eqb_spec rc SQLITE_OK) as [->|Hrc]; [|apply returns_mret; split; [done|by intros]]. destruct (H2 eq_refl) as (Eo & f & Ej & Hq & Hb). prun. set (w3 := set_pg _ w2).
    assert (in_txn f [] w3) as Ht.
    { assert (pageSize (pg w2) = sz ∧ sectorSize (pg w2) = ss ∧ dbOrigSize (pg w2) = n ∧ aSavepoint (pg w2) = []) as (? & ? & ? & ?) by (rewrite P2; destruct Hl, Hp; done).
      split; try done; [cbn; rewrite F2; apply Hl|]. cbn. rewrite D2. apply Hl. }
    eapply returns_mono; [apply (writeJournalHdr_any sz ss n D k Hsz Hss Hss4 Hle Hk f [] w3 Ht Hq); try done; apply NoDup_nil_2|]. intros rc w4 (S4 & (R4 & C4 & _ & D4) & H4). split; [done|].
    intros ->. destruct H4 as [[_ [f' Hj]]|Hf]; [|by destruct (proj1 Hf)]. exists f'. split; [exact Hj|]. split; [exact R4|]. split; [exact C4|exact D4]. }
  intros rc2 w3 (S3 & H3). destruct (Z.eqb_spec rc2 SQLITE_OK) as [->|Hrc]; cbn [negb]; prun; apply returns_mret; [|split; [done|by intros]].
  destruct (H3 eq_refl) as (f & Hj & R3 & C3 & D3). assert (cache w3 = cache w) as C4 by congruence. split; [done|]. intros _. split; [|done]. exists f, [], []. unfold rest in R3. rewrite P2 in R3. cbn in R3. injection R3 as Q1 Q2 Q3 Q4 Q5 Q6 Q7 Q8 Q9 Q10 Q11 Q12.
  split.
  - eapply pages_ext with (w := w); [exact Hp|..]; cbn; try congruence; try done. pose proof (it_page _ _ _ _ _ _ _ _ (jl_txn _ _ _ _ _ _ _ _ _ Hj)) as E. rewrite E. symmetry. apply Hp.
  - by apply journalling_assign.
  - destruct Hl. split; cbn; [by left|by rewrite Q2| |by rewrite Q12|by rewrite Q11|rewrite Q4, Q6; congruence]. exists (zeroed n). split; [done|]. split; [by apply zeroed_ok; lia|]. split; [done|]. intros g Hg. by rewrite zeroed_bits.
Qed.

(** ** Saving a page *)

Lemma journal_write f cs rs w off a : journalling f cs rs w → chunk_end sz ss (next_header cs) rs ≤ off → bytes_ok a →
  returns (sqlite3OsWrite Jfd a off w) (λ rc w', safe w' ∧ cache w' = cache w ∧ db (dk w') = db (dk w) ∧ pg w' = pg w ∧ (failed rc ∨ rc = SQLITE_OK ∧ journalling (file_write off a f) cs rs w')).
Proof.
  intros Hj Ho Ha. eapply returns_mono; [apply (OsWrite_any w Jfd f); by eapply in_txn_file, Hj|]. intros rc w1 (e & j & -> & Hrc).
  pose proof (journalling_append sz ss n D k Hsz Hss f cs rs w off (take (4 * j) a) e Hj Ho (Forall_take _ _ _ Ha)) as H1. split; [by eapply journalling_safe|]. split_and!; try done.
  destruct Hrc as [[-> Ea]|Hf]; [right|by left]. split; [done|]. by rewrite Ea in H1 |- *.
Qed.

(** The content of a page that has no record is the old one. *)
Lemma old_content cs rs A w g p : pages cs rs A w → db_safe sz n D (db (dk w)) cs → cache w !! g = Some p → g ≤ n → g ∉ (all_recs cs ++ rs).*1 →
  dirty p = false ∧ good_rec sz n D (g, pData p).
Proof.
  intros Hp Hdb Hg Hgn Hno. pose proof (ps_cached _ _ _ _ _ _ _ Hp g p Hg) as [V1 V2 Vm V3 V4 V5 V6]. pose proof (proj1 Hsz) as Lsz.
  assert (dirty p = false) as Hd by (destruct (dirty p); [|done]; destruct (V6 eq_refl) as [_ Hin]; by destruct (Hno (Hin Hgn))). split; [done|].
  assert (g ∉ (all_recs cs).*1) as Hnc by (intros H; apply Hno; rewrite fmap_app; apply elem_of_app; by left).
  destruct (ds_pages _ _ _ _ _ Hdb _ g (now_in _)) as [?|Hs]; [lia|done|]. assert (0 ≤ page_offset sz g ∧ page_offset sz g + sz ≤ zlen D) as [Ho1 Ho2] by (unfold page_offset; rewrite HD; split; nia).
  assert (pData p = slice D (page_offset sz g) sz) as E.
  { assert (length (pData p) = length (slice D (page_offset sz g) sz)) as EL by (rewrite slice_length; lia). apply at8_ext; [done|]. intros i Hi. rewrite (V5 Hd) by lia. rewrite slice_at8 by lia. apply Hs. lia. }
  split; cbn; [|split; [cbn; lia|done]]. split; [cbn; unfold PAGER_MAX_PGNO in V1; lia|]. split; [done|]. split; [done|]. cbn. rewrite E. by apply slice_bytes.
Qed.

Lemma points_any w : aSavepoint (pg w) = [] → ∀ g, addToSavepointBitvecs g w = Ret (SQLITE_OK, set_pg (set_aSavepoint []) w).
Proof. intros E g. unfold addToSavepointBitvecs. prun. rewrite E. done. Qed.

Definition saved (w w' : world) : Prop := rest (set_pInJournal None (pg w')) = rest (set_pInJournal None (pg w)) ∧ db (dk w') = db (dk w).

Lemma journal_page_any f cs rs A w g p : writer f cs rs A w → cache w !! g = Some p → g ≤ n → g ∉ (all_recs cs ++ rs).*1 →
  returns (journal_page g (set_cache (alter make_dirty g) w)) (λ rc w', safe w' ∧ (rc = SQLITE_OK → ∃ f', journalling f' cs (rs ++ [(g, pData p)]) w' ∧
    bits n (all_recs cs ++ rs ++ [(g, pData p)]).*1 (pg w') ∧ cache w' = <[g := Page (pData p) true true false]> (cache w) ∧ saved w w')).
Proof.
  intros [Hp Hj Ha] Hg Hgn Hno. destruct (old_content cs rs A w g p Hp) as [Hd Hgood]; [apply Hj|done..|]. pose proof (ps_cached _ _ _ _ _ _ _ Hp g p Hg) as [V1 V2 Vm V3 V4 V5 V6]. pose proof (proj1 Hsz) as Lsz.
  apply (journalling_cache _ _ _ _ _ _ _ _ _ (alter make_dirty g)) in Hj. set (w1 := set_cache _ w) in *. pose proof (next_header_pos sz ss Hsz Hss cs) as Hh. pose proof (chunk_end_pos sz ss D Hsz Hss (next_header cs) rs Hh) as Hce.
  pose proof (it_page _ _ _ _ _ _ _ _ (jl_txn _ _ _ _ _ _ _ _ _ Hj)) as EP. pose proof (jl_off _ _ _ _ _ _ _ _ _ Hj) as EO.
  unfold journal_page. rewrite bind_assert by (unfold PAGER_MJ_PGNO; by rewrite EP, (proj2 (Z.eqb_neq _ _) V2)). rewrite bind_assert by (rewrite EO, (jl_hdr _ _ _ _ _ _ _ _ _ Hj); apply Z.leb_le; lia). prun. rewrite EO.
  assert (cache w1 = <[g := make_dirty p]> (cache w)) as C1 by (by apply alter_alt_Some). unfold page. rewrite (bind_gets _ _ _ (make_dirty p)) by (by rewrite C1, lookup_insert_eq). cbn [make_dirty pData].
  destruct (pager_cksum_ok (pg w1) (pData p)) as [Eck Hck]; [lia|lia|apply (oc_init _ _ _ _ _ _ _ (jl_chunk _ _ _ _ _ _ _ _ _ Hj))|]. rewrite EP in Eck, Hck. rewrite (bind_gets _ _ _ _ Eck). set (off := chunk_end sz ss (next_header cs) rs) in *. set (init := cksumInit (pg w1)) in *.
  unfold on_page. prun. apply (journalling_cache _ _ _ _ _ _ _ _ _ (alter set_needSync g)) in Hj. set (w2 := set_cache _ w1) in *.
  assert (cache w2 = <[g := Page (pData p) true true false]> (cache w)) as C2.
  { cbn. change (cache w1) with (alter make_dirty g (cache w)). change (alter make_dirty g (cache w)) with (cache w1). rewrite C1. rewrite (alter_alt_Some _ _ _ (make_dirty p)) by apply lookup_insert_eq. rewrite insert_insert_eq. unfold set_needSync, make_dirty. cbn. done. }
  assert (pg w2 = pg w ∧ db (dk w2) = db (dk w) ∧ pageSize (pg w2) = sz) as (P2 & D2 & EP2) by done. rewrite EP2. assert (init = cksumInit (pg w2)) as Ei by done. clearbody w2 init. clear EO Eck.
  pose proof Hgood as [(_ & _ & _ & Hbytes) Horig]. cbn in Hbytes. unfold write32bits.
  eapply returns_bind; [apply (journal_write f cs rs w2 off); [done|unfold off; lia|apply put4_is_bytes]|]. intros rc w3 (S3 & C3 & D3 & P3 & [Hf|[-> Hj3]]); [failb Hf; apply returns_mret; split; [done|intros ->; by destruct (proj1 Hf)]|]. okb.
  eapply returns_bind; [apply (journal_write _ cs rs w3 (off + 4) _ Hj3); [unfold off; lia|done]|]. intros rc w4 (S4 & C4 & D4 & P4 & [Hf|[-> Hj4]]); [failb Hf; apply returns_mret; split; [done|intros ->; by destruct (proj1 Hf)]|]. okb.
  eapply returns_bind; [apply (journal_write _ cs rs w4 (off + sz + 4) _ Hj4); [unfold off; lia|apply put4_is_bytes]|]. intros rc w5 (S5 & C5 & D5 & P5 & [Hf|[-> Hj5]]); [failb Hf; apply returns_mret; split; [done|intros ->; by destruct (proj1 Hf)]|]. okb. prun.
  set (r := (g, pData p)). assert (good_rec sz n D r) as Hr by done. assert (chunk_end sz ss (next_header cs) rs ≤ zlen (now f)) as Hend by apply (oc_end _ _ _ _ _ _ _ (jl_chunk _ _ _ _ _ _ _ _ _ Hj)).
  destruct (record_bytes sz D Hsz f off init r) as [Hb1 Hb2]; [unfold off; lia|done|done|]. cbn [fst snd r] in Hb1, Hb2. set (f3 := file_write (off + sz + 4) _ _) in *. clearbody f3.
  assert (cksumInit (pg w5) = init) as Ei5 by (rewrite Ei; congruence). apply (journalling_added _ _ _ _ _ _ _ _ _ r) in Hj5; [|done|by rewrite Ei5|done|done]. fold count_record. set (w6 := set_pg count_record w5) in *.
  assert (cache w6 = <[g := Page (pData p) true true false]> (cache w) ∧ db (dk w6) = db (dk w) ∧ rest (pg w6) = rest (pg w)) as (C6 & D6 & R6).
  { split_and!; [cbn; congruence|cbn; congruence|]. unfold w6. unfold rest. cbn. rewrite P5, P4, P3, P2. done. }
  clearbody w6. clear C3 D3 P3 S3 C4 D4 P4 S4 C5 D5 P5 Ei5 Ei. assert (bits n (all_recs cs ++ rs).*1 (pg w6)) as Hbits.
  { apply (bits_same _ _ (pg w)); [|apply Ha]. unfold rest in R6. by injection R6. }
  rewrite bind_assert by (destruct Hbits as (b & -> & _); done). eapply returns_bind; [apply (set_in_journal_any (all_recs cs ++ rs).*1 g w6 Hbits); lia|]. intros rc w7 (Hrc & b & h & E7 & Hb7).
  assert (journalling f3 cs (rs ++ [r]) w7) as Hj7 by (rewrite E7; apply journalling_assign; try done; by apply journalling_en).
  rewrite bind_assert by (by destruct Hrc as [-> | ->]). rewrite (sm_bind_run _ _ _ _ _ (points_any w7 (it_points _ _ _ _ _ _ _ _ (jl_txn _ _ _ _ _ _ _ _ _ Hj7)) g)). rewrite Z.lor_0_r. apply returns_mret.
  assert (set_pg (set_aSavepoint []) w7 = w7) as E8.
  { pose proof (it_points _ _ _ _ _ _ _ _ (jl_txn _ _ _ _ _ _ _ _ _ Hj7)) as E. destruct w7 as [[] ? ? ? ? ?]. cbn in *. by rewrite E. }
  rewrite E8. split; [by eapply journalling_safe|]. intros ->. exists f3. split; [done|]. split; [apply Hb7; [done|]|].
  { intros x. rewrite app_assoc, fmap_app, elem_of_app. cbn. rewrite list_elem_of_singleton. intuition. }
  rewrite E7. split; [done|]. split; [|done]. unfold rest in R6 |- *. cbn. injection R6 as R61 R62 R63 R64 R65 R66 R67 R68 R69 R610 R611 R612. congruence.
Qed.

(** The end of [pager_write]. *)
Definition grow (g : Z) (q : Pager) : Pager := if dbSize q <? g then set_dbSize g q else q.

Definition changeable (A : snapshot) (g : Z) (w : world) : Prop := writing A w ∧ g ≤ dbSize (pg w) ∧ ∃ p, cache w !! g = Some p ∧ dirty p = true.

Lemma grown f cs rs A w f' rs' w' g p b : writer f cs rs A w → cache w !! g = Some p → journalling f' cs rs' w' → bits n (all_recs cs ++ rs').*1 (pg w') →
  cache w' = <[g := Page (pData p) true b false]> (cache w) → saved w w' → (∀ x, x ∈ rs'.*1 → x ∈ rs.*1 ∨ x = g) → (g ∈ rs'.*1 → b = true) →
  (∀ x, x ∈ (all_recs cs ++ rs).*1 → x ∈ (all_recs cs ++ rs').*1) → (g ≤ n → g ∈ (all_recs cs ++ rs').*1) → safe (set_pg (grow g) w') ∧ changeable (grow_to g A) g (set_pg (grow g) w').
Proof.
  intros [Hp Hj Ha] Hg Hj' Hb C' [R' D'] N1 N2 N3 N4. unfold rest in R'. cbn in R'. injection R' as R1 R2 R3 R4 R5 R6 R7 R8 R9 R10 R11.
  assert (journalling f' cs rs' (set_pg (grow g) w')) as Hj2 by (apply journalling_assign; [done|..]; unfold grow; by destruct (_ <? _)).
  assert (dbSize (pg (set_pg (grow g) w')) = dbSize (pg w) `max` g) as ES by (cbn; unfold grow; rewrite R4; destruct (Z.ltb_spec (dbSize (pg w)) g); cbn; lia).
  split; [by eapply journalling_safe|]. split; [|split; [rewrite ES; lia|]].
  - exists f', cs, rs'. split; [|done|].
    + apply (pages_dirtied sz n M D cs rs rs' A w _ g p b); try done; [cbn; by rewrite D'|..].
      all: try (cbn; unfold grow; by destruct (_ <? _)).
      cbn. unfold grow. pose proof (it_page _ _ _ _ _ _ _ _ (jl_txn _ _ _ _ _ _ _ _ _ Hj')). pose proof (ps_size _ _ _ _ _ _ _ Hp). destruct (_ <? _); cbn; congruence.
    + assert (eState (grow g (pg w')) = eState (pg w) ∧ eLock (grow g (pg w')) = eLock (pg w) ∧ setMaster (grow g (pg w')) = setMaster (pg w) ∧ changeCountDone (grow g (pg w')) = changeCountDone (pg w) ∧
        pInJournal (grow g (pg w')) = pInJournal (pg w')) as (G1 & G2 & G3 & G4 & G5) by (unfold grow; destruct (_ <? _); done).
      destruct Ha. split; cbn; rewrite ?G1, ?G2, ?G3, ?G4; try done; [by apply (bits_same _ _ (pg w'))|]. cbn in ES. rewrite ES. pose proof (po_pgno _ _ _ _ _ _ _ _ (ps_cached _ _ _ _ _ _ _ Hp g p Hg)). lia.
  - exists (Page (pData p) true b false). cbn. by rewrite C', lookup_insert_eq.
Qed.

Lemma in_journal f cs rs w g : journalling f cs rs w → g ∈ (all_recs cs ++ rs).*1 → 1 ≤ g ≤ n.
Proof.
  intros [[] ? ? ? ? Hgood ?] (r & -> & Hr)%list_elem_of_fmap. apply elem_of_app in Hr as [Hr|Hr].
  - destruct it_chunks as [_ _ H]. eapply list.Forall_forall in H; [|exact Hr]. apply H.
  - eapply list.Forall_forall in Hgood; [|exact Hr]. apply Hgood.
Qed.

Lemma pager_write_any A w g : txn A w → is_Some (cache w !! g) → returns (pager_write g w) (λ rc w', safe w' ∧ (rc = SQLITE_OK → changeable (grow_to g A) g w')).
Proof.
  intros Ht [p Hg]. destruct (txn_pages _ _ _ _ _ _ _ _ Ht) as (cs0 & rs0 & Hp0). unfold pager_write.
  assert (eState (pg w) = PAGER_WRITER_LOCKED ∧ locked A w ∨ (eState (pg w) = PAGER_WRITER_CACHEMOD ∨ eState (pg w) = PAGER_WRITER_DBMOD) ∧ writing A w) as Hs.
  { destruct Ht as [Hw|Hl]; [right|left; split; [apply Hl|done]]. split; [|done]. destruct Hw as (f & cs & rs & [_ _ Ha]). destruct (ac_state _ _ _ _ Ha) as [?|(? & _)]; auto. }
  rewrite bind_assert by (destruct Hs as [[-> _]|[[-> | ->] _]]; done). rewrite bind_assert by (by rewrite (ps_err _ _ _ _ _ _ _ Hp0)).
  assert (cf w = k) as Ek by (destruct Ht as [(f & cs & rs & [_ Hj _])|Hl]; [apply (it_cf _ _ _ _ _ _ _ _ (jl_txn _ _ _ _ _ _ _ _ _ Hj))|apply Hl]). rewrite !bind_assoc. prun. rewrite Ek, (so_write _ Hk). rewrite bind_assert by done. prun.
  eapply returns_bind with (R := λ rc w', safe w' ∧ (rc = SQLITE_OK → writing A w' ∧ cache w' = cache w)).
  { destruct Hs as [[-> Hl]|[Hs Hw]]; [by apply open_journal_any|]. assert ((eState (pg w) =? PAGER_WRITER_LOCKED) = false) as -> by (by destruct Hs as [-> | ->]). apply returns_mret. split; [by eapply txn_safe|done]. }
  intros rc w1 [S1 H1]. destruct (Z.eqb_spec rc SQLITE_OK) as [->|Hrc]; cbn [negb]; [|apply returns_mret; split; [done|by intros]]. destruct (H1 eq_refl) as [(f & cs & rs & Hw) C1]. rewrite <- C1 in Hg. clear H1 C1 Hs Ht Hp0 cs0 rs0 Ek w S1. rename w1 into w.
  pose proof Hw as [Hp Hj Ha]. rewrite bind_assert by (destruct (ac_state _ _ _ _ Ha) as [-> |(-> & _)]; done). unfold page. rewrite (bind_gets _ _ _ p) by (by rewrite Hg). unfold sqlite3PcacheMakeDirty, on_page. prun.
  set (w1 := set_cache _ w). destruct (ac_bits _ _ _ _ Ha) as (b & Eb & Hb1 & Hb2 & Hb3). pose proof (ps_cached _ _ _ _ _ _ _ Hp g p Hg) as [V1 V2 Vm V3 V4 V5 V6].
  unfold pageInJournal, bitvec_test. prun. change (pInJournal (pg w1)) with (pInJournal (pg w)). rewrite Eb. rewrite (bind_lift _ _ _ (bool_decide (g ∈ (all_recs cs ++ rs).*1))) by (by rewrite Hb3 by lia). prun.
  pose proof (it_points _ _ _ _ _ _ _ _ (jl_txn _ _ _ _ _ _ _ _ _ Hj)) as Epts. change (aSavepoint (pg w1)) with (aSavepoint (pg w)). rewrite Epts. change (bool_decide (@nil PagerSavepoint = [])) with true. cbn [negb orb]. rewrite !andb_false_r. cbv iota. prun. rewrite andb_true_r.
  assert (cache w1 = <[g := Page (pData p) true (needSync p) false]> (cache w)) as C1 by (change (cache w1) with (alter make_dirty g (cache w)); by rewrite (alter_alt_Some make_dirty (cache w) g p)).
  destruct (decide (g ∈ (all_recs cs ++ rs).*1)) as [Hin|Hout].
  - rewrite bool_decide_eq_true_2 by done. prun. cbv iota. prun. apply returns_mret. fold (grow g).
    destruct (grown f cs rs A w f rs w1 g p (needSync p) Hw Hg) as [S2 H2]; try done; [by apply journalling_cache|apply Ha|by left|..].
    { intros Hg'. destruct (ps_new _ _ _ _ _ _ _ Hp g Hg') as (q & Hq & _ & ?). congruence. }
  - rewrite bool_decide_eq_false_2 by done. prun. change (jopen (pg w1)) with (jopen (pg w)). rewrite (it_open _ _ _ _ _ _ _ _ (jl_txn _ _ _ _ _ _ _ _ _ Hj)), andb_true_r. change (dbOrigSize (pg w1)) with (dbOrigSize (pg w)). rewrite (it_orig _ _ _ _ _ _ _ _ (jl_txn _ _ _ _ _ _ _ _ _ Hj)).
    destruct (Z.leb_spec g n) as [Hgn|Hgn].
    + cbv iota. rewrite ?bind_assoc. eapply returns_bind; [by apply (journal_page_any f cs rs A w g p)|]. intros rc w2 [S2 H2]. destruct (Z.eqb_spec rc SQLITE_OK) as [->|Hrc]; cbn [negb].
      2: { prun. cbv iota. apply returns_mret. split; [done|by intros]. }
      destruct (H2 eq_refl) as (f2 & Hj2 & Hb & C2 & D2). prun. cbv iota. prun. cbv iota. prun. apply returns_mret. fold (grow g).
      destruct (grown f cs rs A w f2 (rs ++ [(g, pData p)]) w2 g p true Hw Hg) as [S3 H3]; try done.
      { intros x. rewrite fmap_app, elem_of_app. cbn. rewrite list_elem_of_singleton. tauto. } { intros x. rewrite !fmap_app, !elem_of_app. tauto. }
      { intros _. rewrite !fmap_app, !elem_of_app. cbn. rewrite list_elem_of_singleton. tauto. }
    + prun. assert (∃ bb, returns ((if negb (eState (pg w1) =? PAGER_WRITER_DBMOD) then on_page g set_needSync else mret ()) w1) (λ _ w', w' = set_cache (λ _, <[g := Page (pData p) true bb false]> (cache w)) w)) as [bb Hbb].
      { destruct (negb _); [exists true|exists (needSync p)].
        - apply returns_ret. unfold w1, set_cache. cbn. f_equal. change (alter make_dirty g (cache w)) with (cache w1). rewrite C1. rewrite (alter_alt_Some _ _ _ (Page (pData p) true (needSync p) false)) by apply lookup_insert_eq. by rewrite insert_insert_eq.
        - apply returns_mret. rewrite <- C1. done. }
      eapply returns_bind; [exact Hbb|]. intros _ w2 ->. prun. cbv iota. prun. cbv iota. prun. apply returns_mret. fold (grow g). set (w2 := set_cache _ w).
      destruct (grown f cs rs A w f rs w2 g p bb Hw Hg) as [S2 H2]; try done; [by apply journalling_cache|apply Ha|by left| |intros; lia].
      intros Hg'. assert (g ∈ (all_recs cs ++ rs).*1) as Hin by (rewrite fmap_app; apply elem_of_app; by right). by destruct (Hout Hin).
Qed.
End Change.
