(* ===== verification/PgCommit.v ===== *)
(** * The pager: committing

    The first phase of a commit: it journals page 1 for the change counter, syncs the journal and writes the
    dirty pages. After it the database file has the content of the client, and the
    journal still has the old one ([finished]). *)

From stdpp Require Import sorting.
From S2P Require Import Prelude Varint Buffer Bitvec PgFile PgImage Pager PgTxn PgHot PgJournal PgRecover PgInv PgWriting PgCache PgChange.
#[local] Open Scope Z_scope.
#[local] Open Scope c_scope.
#[local] Open Scope list_scope.

(** ** The dirty pages *)

Lemma dirty_list c g : g ∈ sqlite3PcacheDirtyList c ↔ ∃ p, c !! g = Some p ∧ dirty p = true.
Proof.
  unfold sqlite3PcacheDirtyList. rewrite list_elem_of_fmap. setoid_rewrite merge_sort_Permutation. split.
  - intros ([g' p] & -> & [Hd Hp]%list_elem_of_filter). exists p. split; [by apply elem_of_map_to_list|done].
  - intros (p & Hg & Hd). exists (g, p). split; [done|]. apply list_elem_of_filter. split; [done|by apply elem_of_map_to_list].
Qed.

Lemma dirty_list_nodup c : NoDup (sqlite3PcacheDirtyList c).
Proof.
  unfold sqlite3PcacheDirtyList. rewrite merge_sort_Permutation. generalize (NoDup_fst_map_to_list c). generalize (map_to_list c). intros l Hl.
  induction l as [|[g p] l IH]; [by rewrite filter_nil|]. cbn in Hl. apply list.NoDup_cons in Hl as [Hg Hl]. rewrite filter_cons. case_decide; [|by apply IH]. cbn. apply list.NoDup_cons. split; [|by apply IH].
  intros ([g' q] & E & [_ Hq]%list_elem_of_filter)%list_elem_of_fmap. apply Hg. apply list_elem_of_fmap. by exists (g', q).
Qed.

Section Commit.
Context (sz ss n M : Z) (D : list Z) (k : settings).
Hypothesis (Hsz : size_between 512 sz) (Hss : size_between 32 ss) (Hss4 : Z.divide 4 ss) (Hle : ss ≤ sz) (Hn : 0 ≤ n < 2 ^ 31) (HD : zlen D = sz * n) (HbD : bytes_ok D).
Hypothesis (Hk : settings_ok k) (HM : sz * M ≤ 2 ^ 40).

#[local] Abbreviation in_txn := (in_txn sz ss n D k).
#[local] Abbreviation journalling := (journalling sz ss n D k).
#[local] Abbreviation safe := (safe sz ss n D).
#[local] Abbreviation next_header := (next_header sz ss).
#[local] Abbreviation pages := (pages sz n M).
#[local] Abbreviation writing := (writing sz ss n M D k).
#[local] Abbreviation locked := (locked sz ss n M D k).
#[local] Abbreviation txn := (txn sz ss n M D k).
#[local] Abbreviation flushed := (flushed sz).

(** ** The change counter *)

(** [sqlite3PagerWrite] of a page; a page is at least as large as a sector. *)
Lemma Write_any A w g : txn A w → is_Some (cache w !! g) → returns (sqlite3PagerWrite g w) (λ rc w', safe w' ∧ (rc = SQLITE_OK → changeable sz ss n M D k (grow_to g A) g w')).
Proof.
  intros Ht Hg. unfold sqlite3PagerWrite. destruct (txn_pages _ _ _ _ _ _ _ _ Ht) as (cs & rs & Hp).
  assert (eState (pg w) = PAGER_WRITER_LOCKED ∨ eState (pg w) = PAGER_WRITER_CACHEMOD ∨ eState (pg w) = PAGER_WRITER_DBMOD) as Hs.
  { destruct Ht as [(f & cs' & rs' & [_ _ Ha])|Hl]; [|left; apply Hl]. right. destruct (ac_state _ _ _ _ Ha) as [?|(? & _)]; auto. }
  assert (sectorSize (pg w) = ss) as Es by (destruct Ht as [(f & cs' & rs' & [_ Hj _])|Hl]; [apply (it_sector _ _ _ _ _ _ _ _ (jl_txn _ _ _ _ _ _ _ _ _ Hj))|apply Hl]).
  rewrite bind_assert by (by destruct Hs as [-> |[-> | ->]]). rewrite bind_assert by (by destruct Hs as [-> |[-> | ->]]). prun. rewrite (ps_size _ _ _ _ _ _ _ Hp), Es. rewrite (proj2 (Z.ltb_ge _ _)) by done.
  by apply (pager_write_any sz ss n M D k).
Qed.

(** A transaction that is about to be committed: either page 1 is dirty, or the database is empty. *)
Record counted (f : file) (cs : list chunk) (rs : list (Z * list Z)) (A : snapshot) (w : world) : Prop := {
  ct_pages : pages cs rs A w;
  ct_journal : journalling f cs rs w;
  ct_state : eState (pg w) = PAGER_WRITER_CACHEMOD ∨ eState (pg w) = PAGER_WRITER_DBMOD;
  ct_lock : eLock (pg w) = RESERVED_LOCK ∨ eLock (pg w) = EXCLUSIVE_LOCK;
  ct_master : setMaster (pg w) = false;
  ct_one : (∃ p, cache w !! 1 = Some p ∧ dirty p = true) ∨ dbSize (pg w) = 0 ∧ dbHintSize (pg w) = 0 }.

Lemma counted_safe f cs rs A w : counted f cs rs A w → safe w.
Proof. intros []. by eapply journalling_safe. Qed.

Lemma incr_changecounter_any A w : writing A w → returns (pager_incr_changecounter w) (λ rc w', safe w' ∧ (rc = SQLITE_OK → ∃ f cs rs, counted f cs rs A w')).
Proof.
  intros Hw. pose proof Hw as (f & cs & rs & [Hp Hj Ha]). unfold pager_incr_changecounter. rewrite bind_assert by (destruct (ac_state _ _ _ _ Ha) as [-> |(-> & _)]; done). prun.
  rewrite (ac_count _ _ _ _ Ha). cbn [negb andb]. destruct (Z.ltb_spec 0 (dbSize (pg w))) as [Hpos|Hzero].
  - eapply returns_bind; [by apply (Get_any sz ss n M D k) with (A := A); try done; left|]. intros rc w1 [S1 H1]. eapply returns_bind with (R := λ rc w', safe w' ∧ (rc = SQLITE_OK → changeable sz ss n M D k (grow_to 1 A) 1 w')).
    { destruct (Z.eqb_spec rc SQLITE_OK) as [->|Hrc]; [|by apply returns_mret]. destruct (H1 eq_refl) as (_ & Ht & Hc). by apply Write_any. }
    intros rc2 w2 [S2 H2]. destruct (Z.eqb_spec rc2 SQLITE_OK) as [->|Hrc]; [|by apply returns_mret]. destruct (H2 eq_refl) as ((f2 & cs2 & rs2 & [Hp2 Hj2 Ha2]) & Hs2 & p & Hg & Hd).
    rewrite grow_to_id in Hp2 by (rewrite <- (ps_count _ _ _ _ _ _ _ Hp); lia).
    eapply returns_bind; [by apply (set_counter_any sz n M D Hsz cs2 rs2 A w2 1 p)|]. intros _ w3 (d & -> & Hl & Hlike). prun. apply returns_mret. set (w3 := set_pg _ _).
    assert (counted f2 cs2 rs2 A w3) as Hc; [|split; [by eapply counted_safe|intros _; by exists f2, cs2, rs2]]. split; try (cbn; apply Ha2).
    + apply pages_assign; try done. apply (pages_data sz n M cs2 rs2 A A); try done. intros i Hi Hc. rewrite Hlike by done. rewrite <- (ps_view _ _ _ _ _ _ _ Hp2 1 i) by done. unfold view. by rewrite Hg.
    + apply journalling_assign; try done. by apply (journalling_cache sz ss n D k _ _ _ _ (λ c, <[1 := set_data d p]> c)).
    + cbn. destruct (ac_state _ _ _ _ Ha2) as [?|(? & _)]; auto.
    + left. exists (set_data d p). cbn. by rewrite lookup_insert_eq.
  - apply returns_mret. assert (counted f cs rs A w) as Hc; [|split; [by eapply counted_safe|intros _; by exists f, cs, rs]]. split; try done; try apply Ha.
    + destruct (ac_state _ _ _ _ Ha) as [?|(? & _)]; auto.
    + right. assert (dbSize (pg w) = 0) as E by (pose proof (ps_low _ _ _ _ _ _ _ Hp); pose proof (ps_mid _ _ _ _ _ _ _ Hp); lia). split; [done|by apply (ac_hint _ _ _ _ Ha)].
Qed.

(** ** Writing the dirty pages *)

(** The content of a database file is the one the client has written, but for the change counter. *)
Definition reads (A : snapshot) (l : list Z) : Prop :=
  zlen l = sz * snap_size A ∧ ∀ g i, 1 ≤ g ≤ snap_size A → 0 ≤ i < sz → ¬ counter g i → at8 l (page_offset sz g + i) = at8 (A g) i.

Lemma all_flushed cs rs A w : pages cs rs A w → (∀ g p, cache w !! g = Some p → dirty p = true → flushed w g) → dbFileSize (pg w) = dbSize (pg w) ∧ reads A (now (db (dk w))).
Proof.
  intros [] Hf. assert (dbFileSize (pg w) = dbSize (pg w)) as E.
  { destruct (decide (dbFileSize (pg w) < dbSize (pg w))) as [Hlt|?]; [|lia]. destruct (ps_last Hlt) as (p & Hg & Hd). destruct (Hf _ _ Hg Hd) as (_ & _ & _ & _ & ?). lia. }
  split; [done|]. split; [by rewrite ps_file, E, ps_count|]. intros g i Hg Hi Hc. rewrite <- ps_view by (done || lia). unfold view. destruct (cache w !! g) as [p|] eqn:Eg; [|done]. symmetry. destruct (dirty p) eqn:Ed.
  - destruct (Hf _ _ Eg Ed) as (q & Hq & Hi2 & _). rewrite Eg in Hq. injection Hq as <-. by apply Hi2.
  - by apply (po_clean _ _ _ _ _ _ _ _ (ps_cached g p Eg)).
Qed.

(** After the first phase. *)
Record finished (f : file) (A : snapshot) (w : world) : Prop := {
  fi_safe : safe w;
  fi_cf : cf w = k;
  fi_err : errCode (pg w) = SQLITE_OK;
  fi_lock : eLock (pg w) = EXCLUSIVE_LOCK;
  fi_open : jopen (pg w) = true;
  fi_jrn : jrn (dk w) = Some f;
  fi_new : jnew (dk w) = false;
  fi_past : past f = [];
  fi_off : journalOff (pg w) ≠ 0;
  fi_master : setMaster (pg w) = false;
  fi_size : dbFileSize (pg w) = dbSize (pg w);
  fi_max : snap_size A ≤ M;
  fi_synced : past (db (dk w)) = [];
  fi_reads : reads A (now (db (dk w))) }.

Lemma db_safe_sync f cs : db_safe sz n D f cs → db_safe sz n D (file_sync f) cs.
Proof.
  intros []. assert (∀ v, v ∈ versions (file_sync f) → v ∈ versions f) as Hsub by (intros v ->%list_elem_of_singleton; exact (now_in f)). split; auto.
Qed.

Lemma PagerSync_any w : cf w = k → returns (sqlite3PagerSync w) (λ rc w', ∃ e, rc = SQLITE_OK ∧ w' = set_dk (set_db (file_sync (db (dk w)))) (tick e w) ∨ failed rc ∧ w' = tick e w).
Proof.
  intros Ec. unfold sqlite3PagerSync. eapply returns_bind; [apply os_call_any; by split_and!|]. intros rc w1 ([e ->] & [-> |Hf]); prun.
  - change (cf (tick e w)) with (cf w). rewrite Ec, (so_sync _ Hk). okb. eapply returns_mono; [by apply (OsSync_any _ Fd (db (dk w)))|]. intros rc w2 [e2 [[-> ->]|[Hf ->]]]; exists e2; [by left|by right].
  - failb Hf. apply returns_mret. exists e. by right.
Qed.

(** The pages of the dirty list. *)
Lemma write_dirty_any f cs A w : pages cs [] A w → in_txn f cs w → quiet f (next_header cs) → cs ≠ [] → eState (pg w) = PAGER_WRITER_DBMOD → eLock (pg w) = EXCLUSIVE_LOCK →
  (∀ g p, cache w !! g = Some p → dirty p = true → needSync p = false) → (∃ p, cache w !! 1 = Some p ∧ dirty p = true) ∨ dbSize (pg w) = 0 ∧ dbHintSize (pg w) = 0 →
  returns (pager_write_pagelist (sqlite3PcacheDirtyList (cache w)) w) (λ rc w', safe w' ∧ errCode (pg w') = errCode (pg w) ∧ (failed rc ∨ rc = SQLITE_OK ∧ wrote sz ss n M D k f cs [] A w w' ∧
    ∀ g p, cache w' !! g = Some p → dirty p = true → flushed w' g)).
Proof.
  intros Hp Ht Hq Hcs Es El Hsync Hone. assert (∀ g, g ∈ sqlite3PcacheDirtyList (cache w) → ∃ p, cache w !! g = Some p ∧ dirty p = true ∧ needSync p = false) as Hl.
  { intros g (p & Hg & Hd)%dirty_list. exists p. split; [done|]. split; [done|by eapply Hsync]. }
  destruct (decide (sqlite3PcacheDirtyList (cache w) = [])) as [E|E].
  - rewrite E. unfold pager_write_pagelist. rewrite bind_assert by (by rewrite Es). rewrite bind_assert by (by rewrite El). prun. destruct Hone as [(p & Hg & Hd)|[-> ->]].
    { assert (1 ∈ sqlite3PcacheDirtyList (cache w)) as Hin by (apply dirty_list; by exists p). rewrite E in Hin. by apply elem_of_nil in Hin. }
    cbn [Z.ltb Z.compare]. prun. apply returns_mret. split; [by apply (safe_intro sz ss n D k f cs); [|left]|]. split; [done|]. right. split; [done|]. split; [by split|].
    intros g p Hg Hd. assert (g ∈ sqlite3PcacheDirtyList (cache w)) as Hin by (apply dirty_list; by exists p). rewrite E in Hin. by apply elem_of_nil in Hin.
  - eapply returns_mono; [apply (write_pagelist_any sz ss n M D k) with (f := f) (cs := cs) (rs := []) (A := A); try done; apply dirty_list_nodup|].
    intros rc w1 (S1 & X1 & [?|(-> & W1 & F1)]); (split; [done|]; split; [done|]); [by left|right]. split; [done|]. split; [done|]. intros g p Hg Hd. apply F1. left. apply dirty_list.
    pose proof (wr_flags _ _ _ _ _ _ _ _ _ _ _ _ W1 g) as Ef. rewrite Hg in Ef. destruct (cache w !! g) as [q|] eqn:Eq; [|done]. exists q. split; [done|]. cbn in Ef. injection Ef as E1 E2. congruence.
Qed.

Lemma commit_one_any A w : writing A w → returns (commit_one None false w) (λ rc w', safe w' ∧ (rc = SQLITE_OK → ∃ f, finished f A w')).
Proof.
  intros Hw. unfold commit_one. eapply returns_bind; [by apply incr_changecounter_any|]. intros rc w1 [S1 H1]. destruct (Z.eqb_spec rc SQLITE_OK) as [->|Hrc]; cbn [negb]; [|by apply returns_mret].
  destruct (H1 eq_refl) as (f & cs & rs & [Hp Hj Es El Em Hone]). unfold writeMasterJournal. rewrite bind_assoc, bind_assert by (by rewrite Em). prun. okb.
  eapply returns_bind; [by apply (syncJournal_any sz ss n D k Hsz Hss Hss4 Hle Hn Hk false f cs rs w1)|]. intros rc w2 (S2 & X2 & H2).
  destruct (Z.eqb_spec rc SQLITE_OK) as [->|Hrc]; cbn [negb]; [|by apply returns_mret]. destruct H2 as [Hf|[[Hb _]|(_ & (f2 & init & Hse) & Y2)]]; [by destruct (proj1 Hf)|done|]. cbn in Hse.
  destruct Y2 as (R2 & C2 & _ & D2). unfold rest in R2. cbn in R2. injection R2 as Q1 Q2 Q3 Q4 Q5 Q6 Q7 Q8 Q9 Q10 Q11 Q12. set (c := Chunk init rs) in *.
  assert (pages (cs ++ [c]) [] A w2) as Hp2.
  { apply (pages_synced sz n M cs rs A w1); try done; [by rewrite all_recs_app|by rewrite D2|]. apply (it_page _ _ _ _ _ _ _ _ (se_txn _ _ _ _ _ _ _ _ Hse)). }
  assert (cs ++ [c] ≠ []) as Hne by (by destruct cs).
  prun. eapply returns_bind; [apply (write_dirty_any f2 (cs ++ [c]) A w2); try done; try apply Hse|].
  { intros g p. rewrite C2, lookup_fmap. destruct (cache w1 !! g) as [q|]; [|done]. intros [= <-]. unfold clear_sync. by destruct (dirty q) eqn:Eq; cbn; rewrite ?Eq. }
  { rewrite Q4, Q6. destruct Hone as [(p & Hg & Hd)|?]; [left|by right]. exists (clear_sync p). rewrite C2, lookup_fmap, Hg. split; [done|]. by apply clear_sync_flags. }
  intros rc w3 (S3 & X3 & [Hf|(-> & W3 & F3)]); [failb Hf; apply returns_mret; split; [done|intros ->; by destruct (proj1 Hf)]|]. okb. unfold sqlite3PcacheCleanAll. prun.
  pose proof (wr_pages _ _ _ _ _ _ _ _ _ _ _ _ W3) as Hp3. pose proof (wr_txn _ _ _ _ _ _ _ _ _ _ _ _ W3) as Ht3. destruct (all_flushed _ _ _ _ Hp3 F3) as [Esz Hr].
  pose proof (wr_journal _ _ _ _ _ _ _ _ _ _ _ _ W3) as J3. pose proof (wr_state _ _ _ _ _ _ _ _ _ _ _ _ W3) as T3. unfold journal_fields in J3. unfold state_fields in T3. injection T3 as T1 T2 _ _ T5 _ _. injection J3 as _ J1 J2 _ _ _ _ _ _ _ J4 _ _.
  cbn [pg set_cache]. rewrite Esz. rewrite (proj2 (Z.ltb_ge (dbSize (pg w3)) (dbSize (pg w3)))) by lia. prun. okb.
  set (w4 := set_cache _ w3). assert (in_txn f2 (cs ++ [c]) w4) as Ht4 by (destruct Ht3; by split).
  eapply returns_mono; [apply (PagerSync_any w4), Ht4|]. intros rc w5 [e [[-> ->]|[Hf ->]]].
  2: { split; [|intros ->; by destruct (proj1 Hf)]. apply (safe_intro sz ss n D k f2 (cs ++ [c])); [|left; apply Hse]. destruct Ht4. by split. }
  set (w5 := set_dk _ _). assert (in_txn f2 (cs ++ [c]) w5) as Ht5.
  { destruct Ht4. split; try done. by apply db_safe_sync. }
  assert (safe w5) as S5 by (apply (safe_intro sz ss n D k f2 (cs ++ [c])); [done|left; apply Hse]). split; [done|]. intros _. exists f2. destruct Ht5.
  split; try done; cbn; try congruence; [apply Hp3| |apply Hse| |].
  - apply not_true_is_false. intros En. by destruct (Hne (it_new En)).
  - rewrite J4. apply Hse.
  - rewrite <- (ps_count _ _ _ _ _ _ _ Hp3). apply Hp3.
Qed.

Lemma PhaseOne_any A w : txn A w → returns (sqlite3PagerCommitPhaseOne None false w) (λ rc w', safe w' ∧ (rc = SQLITE_OK → locked A w' ∨ ∃ f, finished f A w' ∧ eState (pg w') = PAGER_WRITER_FINISHED)).
Proof.
  intros Ht. pose proof (txn_safe _ _ _ _ _ _ _ _ Ht) as S0. destruct (txn_pages _ _ _ _ _ _ _ _ Ht) as (cs & rs & Hp). unfold sqlite3PagerCommitPhaseOne. destruct Ht as [Hw|Hl].
  - pose proof Hw as (f & cs2 & rs2 & [_ _ Ha]). assert (eState (pg w) = PAGER_WRITER_CACHEMOD ∨ eState (pg w) = PAGER_WRITER_DBMOD) as Hs by (destruct (ac_state _ _ _ _ Ha) as [?|(? & _)]; auto).
    rewrite bind_assert by (by destruct Hs as [-> | ->]). prun. rewrite (ps_err _ _ _ _ _ _ _ Hp). okb. prun. assert ((eState (pg w) <? PAGER_WRITER_CACHEMOD) = false) as -> by (by destruct Hs as [-> | ->]).
    eapply returns_bind; [by apply (commit_one_any A)|]. intros rc w1 [S1 H1]. destruct (Z.eqb_spec rc SQLITE_OK) as [->|Hrc]; prun; apply returns_mret; [|by split]. split; [done|]. intros _. right.
    destruct (H1 eq_refl) as [f1 []]. exists f1. by split.
  - rewrite bind_assert by (by rewrite (lk_state _ _ _ _ _ _ _ _ Hl)). prun. rewrite (ps_err _ _ _ _ _ _ _ Hp). okb. prun. rewrite (lk_state _ _ _ _ _ _ _ _ Hl). apply returns_mret. split; [done|]. by left.
Qed.

(** ** The end of the transaction *)

(** The journal [f] is truncated or deleted. *)
Definition ended (f : file) (d d' : disk) : Prop :=
  d' = set_jrn (Some (file_truncate 0 f)) d ∨ journalMode k = DELETE ∧ d' = set_jrn None (set_jgone (Some f) d).

Definition end_fields (w : world) := (eLock (pg w), errCode (pg w), dbSize (pg w), dbFileSize (pg w), cf w).

Lemma finalize_any f w : cf w = k → jopen (pg w) = true → jrn (dk w) = Some f →
  returns (finalize_journal false w) (λ rc w', end_fields w' = end_fields w ∧ (failed rc ∧ dk w' = dk w ∨ rc = SQLITE_OK ∧ (ended f (dk w) (dk w') ∨ journalOff (pg w) = 0 ∧ dk w' = dk w))).
Proof.
  intros Ec Eo Ej. unfold finalize_journal. prun. rewrite Ec. destruct (so_mode _ Hk) as [Em|Em]; rewrite Em; decided.
  - rewrite (so_excl _ Hk). cbn [orb]. cbv iota. rewrite bind_assert by done. prun. unfold os_delete_journal. eapply returns_bind; [apply os_call_any; by split_and!|]. intros rc w1 ([e ->] & [-> |Hf]).
    + okb. prun. apply returns_mret. split; [done|]. right. split; [done|]. left. right. split; [done|]. cbn. by rewrite Ej.
    + failb Hf. apply returns_mret. split; [done|]. by left.
  - prun. destruct (Z.eqb_spec (journalOff (pg w)) 0) as [E0|E0]; prun.
    + apply returns_mret. split; [done|]. right. split; [done|]. right. by split.
    + eapply returns_bind; [apply (OsTruncate_any w Jfd f); unfold the_file; by rewrite Eo, Ej|]. intros rc w1 [e [[-> ->]|[Hf ->]]]; prun; apply returns_mret; (split; [done|]); [right|by left]. split; [done|]. left. by left.
Qed.

Lemma end_transaction_any w : cf w = k → eState (pg w) = PAGER_WRITER_LOCKED ∨ eState (pg w) = PAGER_WRITER_FINISHED → eLock (pg w) = RESERVED_LOCK ∨ eLock (pg w) = EXCLUSIVE_LOCK →
  errCode (pg w) = SQLITE_OK → dbFileSize (pg w) ≤ dbSize (pg w) → (if jopen (pg w) then is_Some (jrn (dk w)) else pInJournal (pg w) = None) →
  returns (pager_end_transaction false true w) (λ rc w', errCode (pg w') = SQLITE_OK ∧ ((rc ≠ SQLITE_OK ∨ jopen (pg w) = false ∨ journalOff (pg w) = 0) ∧ dk w' = dk w ∨
    ∃ f, jopen (pg w) = true ∧ jrn (dk w) = Some f ∧ ended f (dk w) (dk w'))).
Proof.
  intros Ec Es El Ee Hsz' Hj. unfold pager_end_transaction. rewrite bind_assert by (by destruct Es as [-> | ->]). prun. assert ((eState (pg w) <? PAGER_WRITER_LOCKED) = false) as -> by (by destruct Es as [-> | ->]). cbn [andb]. cbv iota.
  unfold releaseAllSavepoints. prun. rewrite Ec, (so_excl _ Hk). cbn [negb]. prun. set (w1 := set_pg _ (set_pg _ w)). rewrite bind_assert by (cbn; by destruct (jopen (pg w)); [|rewrite Hj]).
  eapply returns_bind with (R := λ rc w', end_fields w' = end_fields w1 ∧ ((failed rc ∨ jopen (pg w) = false ∨ journalOff (pg w) = 0) ∧ dk w' = dk w ∨ ∃ f, jopen (pg w) = true ∧ jrn (dk w) = Some f ∧ ended f (dk w) (dk w'))).
  { destruct (jopen (pg w)) eqn:Eo; [|apply returns_mret; split; [done|]; left; by auto]. destruct Hj as [f Hj]. eapply returns_mono; [by apply (finalize_any f w1)|].
    intros rc w2 [E2 [[Hf E]|[-> [H|[H E]]]]]; (split; [done|]); [left|right|left]; auto. by exists f. }
  intros rc w2 [E2 H2]. prun. unfold sqlite3PcacheCleanAll, sqlite3PcacheTruncate. prun. match goal with |- returns (_ ?x) _ => set (w3 := x) end. unfold end_fields in E2. injection E2 as F1 F2 F3 F4 F5.
  assert (eLock (pg w3) = eLock (pg w) ∧ errCode (pg w3) = SQLITE_OK ∧ dbSize (pg w3) = dbSize (pg w) ∧ dbFileSize (pg w3) = dbFileSize (pg w) ∧ cf w3 = k ∧ dk w3 = dk w2) as (G1 & G2 & G3 & G4 & G5 & G6) by (split_and!; cbn; try congruence; done).
  rewrite (proj2 (Z.ltb_ge _ _)) by (cbn in F3, F4 |- *; rewrite F3, F4; exact Hsz'). clearbody w3. rewrite andb_false_r. prun.
  eapply returns_bind with (R := λ rc' w', (∃ e, w' = tick e w3) ∧ (failed rc → rc' ≠ SQLITE_OK)).
  { destruct (Z.eqb_spec rc SQLITE_OK) as [->|Hrc]; cbn [andb]; cbv iota; [|apply returns_mret; split; [exists (events (en w3)); by destruct w3 as [? ? ? [] ? ?]|by intros _]].
    eapply returns_mono; [apply os_call_any; by split_and!|]. intros rc' w' [He _]. split; [done|]. intros [? _]. done. }
  intros rc' w4 ([e ->] & Hrc'). prun. change (cf (tick e w3)) with (cf w3). rewrite G5, (so_excl _ Hk). cbn [negb]. cbv iota. rewrite bind_assoc.
  eapply returns_bind with (R := λ _ w', errCode (pg w') = SQLITE_OK ∧ dk w' = dk w3).
  { unfold pagerUnlockDb. prun. change (cf (tick e w3)) with (cf w3). rewrite G5, (so_excl _ Hk). rewrite bind_assert by done. rewrite bind_assert by done. rewrite bind_assert by (cbn; rewrite G1; by destruct El as [-> | ->]).
    eapply returns_bind; [apply os_call_any; by split_and!|]. intros r5 w5 ([e5 ->] & _). prun. destruct (negb _); prun; apply returns_mret; by split. }
  intros r5 w5 [X5 D5]. prun. apply returns_mret. split; [done|]. cbn [dk set_pg]. rewrite D5, G6. destruct H2 as [[H2 E]|H2]; [left|by right]. split; [|done].
  destruct H2 as [Hf|?]; [left|by right]. destruct (Z.eqb_spec rc' SQLITE_OK) as [E'|E']; [by destruct (Hrc' Hf)|done].
Qed.

Lemma PhaseTwo_any w : cf w = k → eState (pg w) = PAGER_WRITER_LOCKED ∨ eState (pg w) = PAGER_WRITER_FINISHED → eLock (pg w) = RESERVED_LOCK ∨ eLock (pg w) = EXCLUSIVE_LOCK →
  errCode (pg w) = SQLITE_OK → dbFileSize (pg w) ≤ dbSize (pg w) → (if jopen (pg w) then is_Some (jrn (dk w)) else pInJournal (pg w) = None) → setMaster (pg w) = false →
  returns (sqlite3PagerCommitPhaseTwo w) (λ rc w', (rc ≠ SQLITE_OK ∨ jopen (pg w) = false ∨ journalOff (pg w) = 0) ∧ dk w' = dk w ∨
    ∃ f, jopen (pg w) = true ∧ jrn (dk w) = Some f ∧ ended f (dk w) (dk w')).
Proof.
  intros Ec Es El Ee Hs Hj Hm. unfold sqlite3PagerCommitPhaseTwo. prun. rewrite Ee. okb. rewrite bind_assert by (by destruct Es as [-> | ->]). prun. rewrite Ec, (so_excl _ Hk), andb_false_r, Hm. cbn [andb]. cbv iota.
  eapply returns_bind; [by apply end_transaction_any|]. intros rc w1 [X1 H1]. eapply returns_mono; [by apply pager_error_any|]. intros ? w2 (-> & -> & _). exact H1.
Qed.
End Commit.
