(* ===== verification/PgAtomic.v ===== *)
(** * The pager: transactions are atomic

    A client begins a transaction, reads and changes pages and commits. Whatever
    the operating system answers, and whatever a power failure leaves of the files, the next
    connection finds the database as it was before the transaction or as the transaction left it
    ([transaction_atomic]). *)

From S2P Require Import Prelude Varint Buffer Bitvec PgFile PgImage Pager PgTxn PgHot PgJournal PgRecover PgInv PgFault PgWriting PgCache PgChange PgCommit.
#[local] Open Scope Z_scope.
#[local] Open Scope c_scope.
#[local] Open Scope list_scope.

(** ** The client *)

Inductive op := ReadPage (g : Z) | ChangePage (g : Z) (a : list Z).

Definition run_op (o : op) : sm world Z := match o with ReadPage g => sqlite3PagerGet g | ChangePage g a => change g a end.

(** The client stops at the first error. *)
Fixpoint run_ops (l : list op) : sm world Z :=
  match l with
  | [] => mret SQLITE_OK
  | o :: l' => rc ← run_op o; if rc =? SQLITE_OK then run_ops l' else mret rc
  end.

(** A transaction that is still running, and reads a page. *)
Definition session (l : list op) (g : Z) : sm world Z :=
  rc ← sqlite3PagerBegin false;
  if negb (rc =? SQLITE_OK) then mret rc else
  rc ← run_ops l;
  if negb (rc =? SQLITE_OK) then mret rc else
  sqlite3PagerGet g.

Definition transaction (l : list op) : sm world Z :=
  rc ← sqlite3PagerBegin false;
  if negb (rc =? SQLITE_OK) then mret rc else
  rc ← run_ops l;
  if negb (rc =? SQLITE_OK) then mret rc else
  rc ← sqlite3PagerCommitPhaseOne None false;
  if negb (rc =? SQLITE_OK) then mret rc else
  sqlite3PagerCommitPhaseTwo.

(** What the operations do to the database. *)
Definition effect (o : op) (A : snapshot) : snapshot := match o with ReadPage _ => A | ChangePage g a => set_page g a (grow_to g A) end.
Definition effects (l : list op) (A : snapshot) : snapshot := foldl (λ A o, effect o A) A l.

(** ** What the next connection finds *)

(** Any new connection that finds these files reads a database with [Q]. *)
Definition opens_as (ss : Z) (idb : list Z) (ij : option (list Z)) (Q : list Z → Prop) : Prop :=
  ∀ r, newcomer ss r → image r = (idb, ij) → (∀ l, ij = Some l → no_master l) →
    returns (sqlite3PagerSharedLock r) (λ rc r', rc = SQLITE_OK ∧ eState (pg r') = PAGER_READER ∧ Q (now (db (dk r')))).

(** The same after a power failure. *)
Definition recovers (ss : Z) (d : disk) (Q : list Z → Prop) : Prop := ∀ idb ij, crash d idb ij → opens_as ss idb ij Q.

Lemma opens_as_mono ss idb ij (Q R : list Z → Prop) : opens_as ss idb ij Q → (∀ l, Q l → R l) → opens_as ss idb ij R.
Proof. intros H HR r H1 H2 H3. eapply returns_mono; [by apply H|]. intros rc r' (E & Es & HQ). auto. Qed.

Lemma crash_now d : crash d (now (db d)) (now <$> jrn d).
Proof. split; [apply survives_now|]. destruct (jrn d) as [f|]; [|by left]. exists f. split; [by left|apply survives_now]. Qed.

Section Atomic.
Context (sz ss n M : Z) (D : list Z) (k : settings).
Hypothesis (Hsz : size_between 512 sz) (Hss : size_between 32 ss) (Hss4 : Z.divide 4 ss) (Hle : ss ≤ sz) (Hn : 0 ≤ n < 2 ^ 31) (HD : zlen D = sz * n) (HbD : bytes_ok D).
Hypothesis (Hk : settings_ok k) (HM : sz * M ≤ 2 ^ 40).

#[local] Abbreviation safe := (safe sz ss n D).
#[local] Abbreviation locked := (locked sz ss n M D k).
#[local] Abbreviation txn := (txn sz ss n M D k).
#[local] Abbreviation finished := (finished sz ss n M D k).
#[local] Abbreviation reads := (reads sz).
#[local] Abbreviation ended := (ended k).

Lemma safe_recovers w : safe w → recovers ss (dk w) (λ l, l = D).
Proof.
  intros [Hs Hg] idb ij Hc r Hr Hi Hno. destruct (disk_safe_image sz ss n D Hsz Hss Hss4 (dk w) idb ij) as [H1 H2]; try done; [lia|].
  apply (SharedLock_safe sz ss n D) with (idb := idb) (ij := ij); try done. unfold in_uw. lia.
Qed.

(** A database without a journal. *)
Lemma new_opens A N ij : reads A N → snap_size A ≤ M → match ij with Some l => bytes_ok l ∧ no_header l 0 | None => True end → opens_as ss N ij (reads A).
Proof.
  intros [Hl Hr] Hm Hj r Hr' Hi Hno. pose proof (proj1 Hsz) as Lsz. eapply returns_mono; [apply (SharedLock_safe sz ss (snap_size A) N) with (idb := N) (ij := ij); try done|].
  - unfold in_uw. nia.
  - destruct ij as [l|]; [|done]. destruct Hj as [Hb Hh]. split; [done|]. exists []. split; [|by split; [constructor|]]. split_and!; [done|done|by constructor].
  - nia.
  - intros rc r' (-> & Hs & ->). by split_and!.
Qed.

(** ** The end of a commit *)

Lemma survives_truncated f l : past f = [] → survives (file_truncate 0 f) l → l = now f ∨ l = [].
Proof.
  intros Hp [(v & Hv & El) Hw]. unfold versions, file_truncate, file_put, on_disk in *. change (take (Z.to_nat 0) (now f)) with (@nil Z) in *. cbn in *. rewrite Hp in *. cbn in *.
  apply list.elem_of_cons in Hv as [->| ->%list_elem_of_singleton]; [right; by destruct l|left]. apply at8_ext; [done|]. intros i Hi.
  destruct (Hw (i / 4)) as (u & Hu & H); [apply Z.div_pos; lia|]. pose proof (Z.div_mod i 4). pose proof (Z.mod_pos_bound i 4). destruct (H i) as [E Ho]; [lia..|].
  apply list.elem_of_cons in Hu as [->| ->%list_elem_of_singleton]; [cbn in Ho; lia|done].
Qed.

Lemma finished_ended f A w d : finished f A w → ended f (dk w) d → recovers ss d (λ l, l = D ∨ reads A l) ∧ opens_as ss (now (db d)) (now <$> jrn d) (reads A).
Proof.
  intros [] He. pose proof (safe_recovers w fi_safe) as Hold. assert (crash (dk w) (now (db (dk w))) (Some (now f))) as Hc by (pose proof (crash_now (dk w)) as H; by rewrite fi_jrn in H).
  assert (∀ ij, match ij with Some l => bytes_ok l ∧ no_header l 0 | None => True end → opens_as ss (now (db (dk w))) ij (reads A)) as Hnew by (intros ij; by apply new_opens).
  assert (opens_as ss (now (db (dk w))) (Some (now f)) (λ l, l = D ∨ reads A l)) as Ho by (eapply opens_as_mono; [by apply Hold|by left]).
  assert (bytes_ok [] ∧ no_header [] 0) as Hempty by (by split; [constructor|]). destruct He as [->|[_ ->]]; split; cbn.
  - intros idb ij [Hd Hj]. cbn in Hd, Hj. apply survives_synced in Hd as ->; [|done]. destruct ij as [l|]; [|destruct Hj; congruence]. destruct Hj as (f' & [[= <-]|Hg] & Hl).
    + destruct (survives_truncated f l fi_past Hl) as [-> | ->]; [done|]. eapply opens_as_mono; [by apply Hnew|by right].
    + destruct fi_safe as [_ Hg2]. cbn in Hg. congruence.
  - by apply Hnew.
  - intros idb ij [Hd Hj]. cbn in Hd, Hj. apply survives_synced in Hd as ->; [|done]. destruct ij as [l|].
    + destruct Hj as (f' & [?|[= <-]] & Hl); [done|]. apply survives_synced in Hl as ->; done.
    + eapply opens_as_mono; [by apply Hnew|by right].
  - by apply Hnew.
Qed.

(** A transaction that has changed nothing. *)
Lemma locked_reads A w : locked A w → now (db (dk w)) = D ∧ reads A D.
Proof.
  intros Hl. assert (now (db (dk w)) = D) as E by (apply (ds_first _ _ _ _ _ (lk_db _ _ _ _ _ _ _ _ Hl)); [done|apply now_in]). split; [done|]. rewrite <- E.
  apply (all_flushed sz n M D [] [] A w); [apply Hl|]. intros g p Hg Hd. pose proof (no_dirty _ _ _ _ _ _ _ _ _ _ Hl Hg). congruence.
Qed.

Lemma quiet_truncated f : quiet f 0 → quiet (file_truncate 0 f) 0.
Proof. intros [Hq|Hq]; [left|right]; intros u [->|Hu]%list.elem_of_cons; auto. Qed.

Lemma locked_ended f A w d : locked A w → jopen (pg w) = true → jrn (dk w) = Some f → ended f (dk w) d → recovers ss d (λ l, l = D) ∧ now (db d) = D.
Proof.
  intros Hl Ho Ej He. destruct (locked_reads A w Hl) as [E _]. destruct He as [->|[Hm _]]; [|by rewrite (lk_mode _ _ _ _ _ _ _ _ Hl Hm) in Ho].
  split; [|exact E]. apply (safe_recovers (set_dk (λ _, set_jrn (Some (file_truncate 0 f)) (dk w)) w)). apply no_journal_safe. destruct Hl. rewrite Ej in lk_jrn. destruct lk_jrn as [Hq Hb].
  split; [done|]. split; [done|]. cbn. split; [by apply quiet_truncated|]. constructor; [by constructor|done].
Qed.

(** The outcome of a transaction. *)
Definition outcome_ok (A : snapshot) (rc : Z) (w : world) : Prop :=
  recovers ss (dk w) (λ l, l = D ∨ reads A l) ∧ (rc = SQLITE_OK → opens_as ss (now (db (dk w))) (now <$> jrn (dk w)) (reads A)).

Lemma safe_outcome A rc w : safe w → rc ≠ SQLITE_OK → outcome_ok A rc w.
Proof. intros Hs Hrc. split; [|done]. intros idb ij Hc. eapply opens_as_mono; [by apply (safe_recovers w)|by left]. Qed.

Lemma same_outcome A rc d w : recovers ss d (λ l, l = D) → reads A D → dk w = d → outcome_ok A rc w.
Proof.
  intros Hr HA <-. split; [intros idb ij Hc|intros _]; (eapply opens_as_mono; [apply Hr|]); [done|by left|apply crash_now|by intros ? ->].
Qed.

Lemma PhaseTwo_outcome A w : locked A w ∨ (∃ f, finished f A w ∧ eState (pg w) = PAGER_WRITER_FINISHED) → returns (sqlite3PagerCommitPhaseTwo w) (outcome_ok A).
Proof.
  intros [Hl|(f & Hf & Hs)].
  - destruct (locked_reads A w Hl) as [E HA]. pose proof (locked_safe _ _ _ _ _ _ _ _ Hl) as S0. pose proof Hl as [].
    eapply returns_mono; [apply (PhaseTwo_any k Hk w); auto|].
    + apply lk_pages.
    + rewrite lk_size. pose proof (ps_mid _ _ _ _ _ _ _ lk_pages). lia.
    + destruct (jopen (pg w)); [|done]. destruct (jrn (dk w)); [by eexists|done].
    + intros rc w1 [[_ E1]|(f & Ho & Ej & He)]; [by apply (same_outcome A rc (dk w)); [apply safe_recovers|..]|]. destruct (locked_ended f A w _ Hl Ho Ej He) as [Hr _]. by apply (same_outcome A rc (dk w1)).
  - pose proof Hf as []. eapply returns_mono; [apply (PhaseTwo_any k Hk w); auto; [lia|]|].
    + rewrite fi_open, fi_jrn. by eexists.
    + intros rc w1 [[Hrc E1]|(f' & _ & Ej & He)].
      * apply safe_outcome; [unfold PgWriting.safe; by rewrite E1|]. destruct Hrc as [?|[?|?]]; congruence.
      * rewrite fi_jrn in Ej. injection Ej as <-. by destruct (finished_ended f A w _ Hf He).
Qed.

(** ** Beginning a transaction *)

(** A reader of the database [D] that has the shared lock; a journal that is there has no header. *)
Record reader (w : world) : Prop := {
  rd_cf : cf w = k;
  rd_state : eState (pg w) = PAGER_READER;
  rd_lock : eLock (pg w) = SHARED_LOCK;
  rd_err : errCode (pg w) = SQLITE_OK;
  rd_size : dbSize (pg w) = n;
  rd_page : pageSize (pg w) = sz;
  rd_sector : sectorSize (pg w) = ss;
  rd_max : n ≤ M;
  rd_mx : mxPgno (pg w) ≤ M;
  rd_points : aSavepoint (pg w) = [];
  rd_in : pInJournal (pg w) = None;
  rd_master : setMaster (pg w) = false;
  rd_count : changeCountDone (pg w) = false;
  rd_vers : zlen (dbFileVers (pg w)) = 16;
  rd_cache : ∀ g p, cache w !! g = Some p → 1 ≤ g ≤ PAGER_MAX_PGNO ∧ g ≠ PENDING_BYTE / sz + 1 ∧ g ≤ M ∧
    zlen (pData p) = sz ∧ dontWrite p = false ∧ dirty p = false ∧ page_is sz D g (pData p);
  rd_db : db (dk w) = File D [];
  rd_gone : jgone (dk w) = None;
  rd_mode : journalMode k = DELETE → jopen (pg w) = false;
  rd_jrn : match jrn (dk w) with Some f => quiet f 0 ∧ Forall bytes_ok (versions f) | None => jopen (pg w) = false end }.

(** The old database. *)
Definition old : snapshot := Snapshot n (λ g, slice D (page_offset sz g) sz).

Lemma reader_pages w w' : reader w → cache w' = cache w → dk w' = dk w → errCode (pg w') = errCode (pg w) → pageSize (pg w') = pageSize (pg w) → dbSize (pg w') = dbSize (pg w) → dbFileSize (pg w') = dbSize (pg w) →
  mxPgno (pg w') = mxPgno (pg w) → dbFileVers (pg w') = dbFileVers (pg w) → pages sz n M [] [] old w'.
Proof.
  intros [] EC ED E1 E2 E3 E4 E5 E6. assert (now (db (dk w')) = D) as EN by (by rewrite ED, rd_db0). assert (dbSize (pg w') = n ∧ dbFileSize (pg w') = n) as [En Ef] by (split; congruence).
  split; rewrite ?EN, ?En, ?Ef, ?E1, ?E2, ?E5, ?E6, ?EC; try done.
  - intros g p Hg. destruct (rd_cache0 g p Hg) as (H1 & H2 & H3 & H4 & H5 & H6 & H7). split; try done; [by rewrite EN|congruence].
  - intros g Hg. by apply elem_of_nil in Hg.
  - lia.
  - intros g i Hg Hi _. unfold view. rewrite EC, EN. cbn. pose proof (proj1 Hsz). rewrite slice_at8 by (unfold page_offset; nia). destruct (cache w !! g) as [p|] eqn:Eg; [|done].
    destruct (rd_cache0 g p Eg) as (_ & _ & _ & _ & _ & _ & Hp). by apply Hp.
Qed.

Lemma reader_db w : reader w → db_safe sz n D (db (dk w)) [].
Proof.
  intros []. rewrite rd_db0. pose proof (proj1 Hsz) as Lsz. split; [by intros _ v ->%list_elem_of_singleton|intros v ->%list_elem_of_singleton; cbn; nia|]. intros v g ->%list_elem_of_singleton Hg. right. by apply agree_refl.
Qed.

Lemma reader_safe w : reader w → safe w.
Proof. intros Hr. apply no_journal_safe. split; [by apply reader_db|split; apply Hr]. Qed.

Lemma Begin_any w : reader w → returns (sqlite3PagerBegin false w) (λ rc w', safe w' ∧ (rc = SQLITE_OK → locked old w')).
Proof.
  intros Hr. pose proof (reader_safe w Hr) as S0. pose proof (reader_db w Hr) as Hdb. unfold sqlite3PagerBegin. prun. rewrite (rd_err w Hr). okb. rewrite bind_assert by (by rewrite (rd_state w Hr)). prun. rewrite (rd_state w Hr). change (PAGER_READER =? PAGER_READER) with true. cbv iota.
  rewrite bind_assert by (by rewrite (rd_in w Hr)). eapply returns_bind; [apply pagerLockDb_any; [auto|by rewrite (rd_lock w Hr)]|]. intros rc w1 (_ & [(-> & e & ->)|(Hrc & [e ->] & _)]).
  - okb. prun. okb. rewrite ?bind_assoc. prun. apply returns_mret. match goal with |- safe ?x ∧ _ => set (w2 := x) end. assert (locked old w2) as Hl; [|split; [by eapply locked_safe|done]].
    pose proof Hr as []. split; try done; [by apply (reader_pages w)|left; cbn; by rewrite rd_lock0].
  - rewrite andb_false_r. prun. rewrite (proj2 (Z.eqb_neq _ _) Hrc). prun. apply returns_mret. by split.
Qed.

(** ** The operations *)

(** What the client may ask for: the content of a page has the size of a page. *)
Definition op_ok (o : op) : Prop := match o with ReadPage g => 0 ≤ g | ChangePage g a => 0 ≤ g ∧ zlen a = sz end.

Lemma change_any A w g a : txn A w → 0 ≤ g → zlen a = sz → returns (change g a w) (λ rc w', safe w' ∧ (rc = SQLITE_OK → txn (set_page g a (grow_to g A)) w')).
Proof.
  intros Ht Hg Ha. unfold change. eapply returns_bind; [by apply (Get_any sz ss n M D k) with (A := A)|]. intros rc w1 [S1 H1]. destruct (Z.eqb_spec rc SQLITE_OK) as [->|Hrc]; cbn [negb]; [|by apply returns_mret].
  destruct (H1 eq_refl) as (_ & Ht1 & Hc). eapply returns_bind; [by apply (Write_any sz ss n M D k) with (A := A)|]. intros rc w2 [S2 H2]. destruct (Z.eqb_spec rc SQLITE_OK) as [->|Hrc]; cbn [negb]; [|by apply returns_mret].
  destruct (H2 eq_refl) as (Hw & _ & p & Hp & Hd). unfold on_page. prun. apply returns_mret. split; [done|]. intros _. left. by apply (writing_changed sz ss n M D k _ _ g p).
Qed.

Lemma run_ops_any l : ∀ A w, txn A w → Forall op_ok l → returns (run_ops l w) (λ rc w', safe w' ∧ (rc = SQLITE_OK → txn (effects l A) w')).
Proof.
  induction l as [|o l IH]; intros A w Ht Hl; cbn [run_ops]; [apply returns_mret; split; [by eapply txn_safe|done]|]. apply list.Forall_cons in Hl as [Ho Hl].
  eapply returns_bind with (R := λ rc w', safe w' ∧ (rc = SQLITE_OK → txn (effect o A) w')).
  { destruct o as [g|g a]; cbn in *; [|destruct Ho; by apply change_any]. eapply returns_mono; [by apply (Get_any sz ss n M D k) with (A := A)|]. intros rc w1 [S1 H1]. split; [done|]. intros E. by apply H1. }
  intros rc w1 [S1 H1]. destruct (Z.eqb_spec rc SQLITE_OK) as [->|Hrc]; [|by apply returns_mret]. by apply IH; [apply H1|].
Qed.

(** C15: in a transaction the client reads what it has written, whichever pages the cache has spilled to the
    file, dropped and read again in between, and whatever the operating system answers. A page
    that was not written has its old content, and a new page has zeros. *)
Theorem session_reads l g w : reader w → Forall op_ok l → 0 ≤ g →
  returns (session l g w) (λ rc w', rc = SQLITE_OK → ∃ p, cache w' !! g = Some p ∧ zlen (pData p) = sz ∧ ∀ i, 0 ≤ i < sz → ¬ counter g i → at8 (pData p) i = at8 (effects l old g) i).
Proof.
  intros Hr Hl Hg. unfold session.
  eapply returns_bind; [by apply Begin_any|]. intros rc w1 [S1 H1]. destruct (Z.eqb_spec rc SQLITE_OK) as [->|Hrc]; cbn [negb]; [|by apply returns_mret].
  eapply returns_bind; [apply (run_ops_any l old w1); [right; by apply H1|done]|]. intros rc w2 [S2 H2]. destruct (Z.eqb_spec rc SQLITE_OK) as [->|Hrc]; cbn [negb]; [|by apply returns_mret].
  eapply returns_mono; [apply (Get_any sz ss n M D k) with (A := effects l old); try done; by apply H2|]. intros rc w3 [_ H3] E. destruct (H3 E) as (Hg1 & Ht & p & Hp). exists p. split; [done|].
  destruct (txn_pages _ _ _ _ _ _ _ _ Ht) as (cs & rs & Hps). split; [apply (ps_cached _ _ _ _ _ _ _ Hps g p Hp)|]. intros i Hi Hc. rewrite <- (ps_view _ _ _ _ _ _ _ Hps g i Hg1 Hi Hc). unfold view. by rewrite Hp.
Qed.

(** C9: a transaction always returns, whatever the operating system, the allocator and the cache do. From the files it
    leaves, and from whatever a power failure leaves of them, a new connection recovers the database
    as it was before, or with all changes of the transaction; after a transaction that succeeded,
    a new connection finds all changes. *)
Theorem transaction_atomic l w : reader w → Forall op_ok l →
  returns (transaction l w) (λ rc w',
    recovers ss (dk w') (λ N, N = D ∨ reads (effects l old) N) ∧
    (rc = SQLITE_OK → opens_as ss (now (db (dk w'))) (now <$> jrn (dk w')) (reads (effects l old)))).
Proof.
  intros Hr Hl. set (A := effects l old). change (returns (transaction l w) (outcome_ok A)). unfold transaction.
  eapply returns_bind; [by apply Begin_any|]. intros rc w1 [S1 H1]. destruct (Z.eqb_spec rc SQLITE_OK) as [->|Hrc]; cbn [negb]; [|apply returns_mret; by apply safe_outcome].
  eapply returns_bind; [apply (run_ops_any l old w1); [right; by apply H1|done]|]. intros rc w2 [S2 H2]. destruct (Z.eqb_spec rc SQLITE_OK) as [->|Hrc]; cbn [negb]; [|apply returns_mret; by apply safe_outcome].
  eapply returns_bind; [by apply (PhaseOne_any sz ss n M D k) with (A := A); auto|]. intros rc w3 [S3 H3]. destruct (Z.eqb_spec rc SQLITE_OK) as [->|Hrc]; cbn [negb]; [|apply returns_mret; by apply safe_outcome].
  apply PhaseTwo_outcome. by apply H3.
Qed.
End Atomic.

(** A reader of a database with one page. *)
Definition one_page : world :=
  set_pg (λ p, set_eState PAGER_READER (set_eLock SHARED_LOCK (set_dbSize 1 p))) (connect DELETE 512 512 (Disk (File old_page []) None false None [])).

(** It reads the page and appends another one; the operating system reports an error
    while the change is committed. *)
Definition failing : world := set_en (set_events (replicate 12 (Done 0) ++ [Failed 1])) one_page.

(** The same while the cache has no room for a second page. *)
Definition small_cache : world := set_en (set_pressure (replicate 4 (Some 2, [1]))) one_page.

Lemma one_page_reader w : w = failing ∨ w = small_cache → reader 512 512 1 1073741823 old_page (plain_settings DELETE 512) w.
Proof. intros [-> | ->]; by split. Qed.

Lemma session_reads_witness : ∃ w, w = small_cache ∧
  returns (session [ChangePage 2 new_page; ReadPage 1] 2 w) (λ rc w', rc = SQLITE_OK → ∃ p, cache w' !! 2 = Some p ∧ zlen (pData p) = 512 ∧
    ∀ i, 0 ≤ i < 512 → ¬ counter 2 i → at8 (pData p) i = at8 (effects [ChangePage 2 new_page; ReadPage 1] (old 512 1 old_page) 2) i).
Proof.
  exists small_cache. split; [reflexivity|]. apply (session_reads 512 512 1 1073741823 old_page (plain_settings DELETE 512)).
  - by split.
  - by split.
  - by exists 128.
  - done.
  - lia.
  - reflexivity.
  - apply Forall_replicate. done.
  - split; auto.
  - done.
  - apply one_page_reader. by right.
  - repeat constructor; done.
  - done.
Defined.

Lemma transaction_atomic_witness :
  reader 512 512 1 1073741823 old_page (plain_settings DELETE 512) failing ∧
  returns (transaction [ReadPage 1; ChangePage 2 new_page] failing) (λ rc w',
    recovers 512 (dk w') (λ N, N = old_page ∨ reads 512 (effects [ReadPage 1; ChangePage 2 new_page] (old 512 1 old_page)) N) ∧
    (rc = SQLITE_OK → opens_as 512 (now (db (dk w'))) (now <$> jrn (dk w')) (reads 512 (effects [ReadPage 1; ChangePage 2 new_page] (old 512 1 old_page))))).
Proof.
  assert (reader 512 512 1 1073741823 old_page (plain_settings DELETE 512) failing) as Hr by (apply one_page_reader; by left).
  split; [exact Hr|]. apply (transaction_atomic 512 512 1 1073741823 old_page (plain_settings DELETE 512)).
  - by split.
  - by split.
  - by exists 128.
  - done.
  - lia.
  - reflexivity.
  - apply Forall_replicate. done.
  - split; auto.
  - done.
  - exact Hr.
  - repeat constructor; done.
Defined.
