(* ===== verification/OsKernel.v ===== *)
(** * Processes that lock a file

    The code of src/os_unix.c talks to the operating system through system calls.
    Here a function of one process is a program ([prog]) that computes on the
    memory of the process between its calls; the processes run concurrently and
    only their calls interleave. The operating system keeps the POSIX advisory locks on
    one file as fcntl(2) documents them: a process sets locks on ranges
    of bytes, an exclusive lock is granted only if no other process has any lock
    on the range, and closing any descriptor of the file releases all locks of the
    process. Every call may fail. *)

From S2P Require Import Prelude.
From stdpp Require Import relations gmap.
#[local] Open Scope Z_scope.
#[local] Open Scope list_scope.

(** ** Locks *)

(** [l_type]: [F_UNLCK], [F_RDLCK], [F_WRLCK]. *)
Inductive ltype : Set := F_UNLCK | F_RDLCK | F_WRLCK.

#[global] Instance ltype_eq_dec : EqDecision ltype.
Proof. solve_decision. Defined.

(** [struct flock], with [l_whence = SEEK_SET]. *)
Record flock : Set := Flock { l_type : ltype; l_start : Z; l_len : Z }.

(** The locks of one process on the file, byte by byte. *)
Definition lockmap : Type := Z → ltype.
Definition no_locks : lockmap := λ _, F_UNLCK.

(** [l_len = 0] extends the range to the largest offset. *)
Definition flock_end (l : flock) : Z := if l_len l =? 0 then 2 ^ 63 else l_start l + l_len l.
Definition covers (l : flock) (b : Z) : bool := (l_start l <=? b) && (b <? flock_end l).
Definition setl (l : flock) (m : lockmap) : lockmap := λ b, if covers l b then l_type l else m b.

Lemma setl_at t a n m x : 0 < n → setl (Flock t a n) m x = if decide (a ≤ x < a + n) then t else m x.
Proof.
  intros Hn. unfold setl, covers, flock_end. cbn. rewrite (proj2 (Z.eqb_neq n 0)) by lia.
  destruct (Z.leb_spec a x), (Z.ltb_spec x (a + n)); cbn; case_decide; done || lia.
Qed.

Definition compatible (s t : ltype) : bool :=
  match s, t with F_UNLCK, _ | _, F_UNLCK | F_RDLCK, F_RDLCK => true | _, _ => false end.

(** May a process take the lock [l] while the other processes have [others]? *)
Definition grantable (others : list lockmap) (l : flock) : bool :=
  match l_type l with
  | F_UNLCK => true
  | t => forallb (λ b, forallb (λ m : lockmap, compatible t (m b)) others) (seqZ (l_start l) (flock_end l - l_start l))
  end.

(** The type of a lock of another process that is in the way of [l]. *)
Definition blocking (others : list lockmap) (l : flock) : ltype :=
  if grantable others l then F_UNLCK else
  if grantable others (Flock F_RDLCK (l_start l) (l_len l)) then F_RDLCK else F_WRLCK.

(** ** Programs *)

(** System calls: [fcntl(F_SETLK)], [fcntl(F_GETLK)], [close], [fstat], [stat], [open],
    [ftruncate] to length zero, [unlink], and the allocation of memory, which may fail as well. *)
Inductive call : Set :=
  | SETLK (l : flock) | GETLK (l : flock) | CLOSE (fd : Z) | FSTAT (fd : Z) | STAT | OPEN (flags : Z) | FTRUNCATE | UNLINK | MALLOC.

(** An answer is the result, 0 or -1, and [errno] or a value. *)
Abbreviation answer := (Z * Z)%type.

Inductive prog (A : Type) : Type :=
  | Done (a : A)
  | Bad (f : fault)
  | Sys (c : call) (k : answer → prog A).
Arguments Done {A} a.
Arguments Bad {A} f.
Arguments Sys {A} c k.

Fixpoint prog_bind {A B} (k : A → prog B) (m : prog A) : prog B :=
  match m with
  | Done a => k a
  | Bad f => Bad f
  | Sys c r => Sys c (λ x, prog_bind k (r x))
  end.

(** Code of a process with memory [S]. *)
Definition os (S A : Type) : Type := S → prog (A * S).

#[global] Instance os_ret S : MRet (os S) := λ A a s, Done (a, s).
#[global] Instance os_bind S : MBind (os S) := λ A B k m s, prog_bind (λ r : A * S, k r.1 r.2) (m s).

Definition os_get {S A} (f : S → A) : os S A := λ s, Done (f s, s).
Definition os_mod {S} (f : S → S) : os S () := λ s, Done ((), f s).
Definition os_some {S A} (f : S → option A) : os S A := λ s,
  match f s with Some a => Done (a, s) | None => Bad NullDeref end.
Definition os_assert {S} (b : bool) : os S () := λ s, if b then Done ((), s) else Bad AssertFail.
Definition os_call {S} (c : call) : os S answer := λ s, Sys c (λ x, Done (x, s)).

(** ** The operating system *)

Definition EAGAIN : Z := 11.

(** The answer to a call of a process with locks [m], and its locks after it. The
    event [ev] decides what the operating system is free to choose: an error, and
    otherwise the value of the answer. *)
Definition serve (others : list lockmap) (m : lockmap) (c : call) (ev : Z * Z) : answer * lockmap :=
  match c with
  | SETLK l =>
      if negb (ev.1 =? 0) then ((-1, ev.1), m)
      else if grantable others l then ((0, 0), setl l m) else ((-1, EAGAIN), m)
  | GETLK l =>
      if negb (ev.1 =? 0) then ((-1, ev.1), m)
      else ((0, match blocking others l with F_UNLCK => 2 | F_RDLCK => 0 | F_WRLCK => 1 end), m)
  | CLOSE fd =>
      if negb (ev.1 =? 0) then ((-1, ev.1), if ev.2 =? 0 then m else no_locks) else ((0, 0), no_locks)
  | _ => if negb (ev.1 =? 0) then ((-1, ev.1), m) else ((0, ev.2), m)
  end.

(** What one process can observe of [serve]: the other processes only decide
    whether a lock is granted. *)
Inductive own_step (m : lockmap) : call → answer → lockmap → Prop :=
  | own_set l v : own_step m (SETLK l) (0, v) (setl l m)
  | own_close fd v : own_step m (CLOSE fd) (0, v) no_locks
  | own_close_fails fd e : own_step m (CLOSE fd) (-1, e) no_locks
  | own_value c v : (∀ l, c ≠ SETLK l) → (∀ fd, c ≠ CLOSE fd) → own_step m c (0, v) m
  | own_fails c e : own_step m c (-1, e) m.

Lemma serve_own others m c ev : own_step m c (serve others m c ev).1 (serve others m c ev).2.
Proof.
  destruct c; cbn; destruct (negb (ev.1 =? 0)); cbn; try (constructor; done).
  - destruct (grantable others l); constructor.
  - destruct (ev.2 =? 0); constructor.
Qed.

(** ** Total correctness of a program of one process

    [wp T I ok Q p m]: whatever the system answers, [p] started with locks [m] runs
    into no fault and ends with [Q], [I] holds of its locks after each call and
    [T] whenever it truncates the file. [ok] restricts the answers. *)
Fixpoint wp {A} (T I : lockmap → Prop) (ok : call → answer → Prop) (Q : A → lockmap → Prop) (p : prog A) (m : lockmap) : Prop :=
  match p with
  | Done a => Q a m
  | Bad _ => False
  | Sys c k => (c = FTRUNCATE → T m) ∧ ∀ x m', own_step m c x m' → ok c x → I m' ∧ wp T I ok Q (k x) m'
  end.

Section wp.
Context (T I : lockmap → Prop) (ok : call → answer → Prop).

Lemma wp_mono {A} (Q R : A → lockmap → Prop) p m : (∀ a m', Q a m' → R a m') → wp T I ok Q p m → wp T I ok R p m.
Proof.
  intros HQ. revert m. induction p as [a|f|c k IH]; intros m; cbn; [by apply HQ|done|].
  intros [Ht H]. split; [done|]. intros x m' Hs Hx. destruct (H x m' Hs Hx) as [? ?]. split; [done|]. by apply IH.
Qed.

(** [I] holds at the end as well. *)
Lemma wp_keep {A} (Q : A → lockmap → Prop) p m : I m → wp T I ok (λ a m', I m' → Q a m') p m → wp T I ok Q p m.
Proof.
  revert m. induction p as [a|f|c k IH]; intros m Hm; cbn; [auto|done|].
  intros [Ht H]. split; [done|]. intros x m' Hs Hx. destruct (H x m' Hs Hx) as [? ?]. split; [done|]. by apply IH.
Qed.

Lemma wp_prog_bind {A B} (k : A → prog B) (Q : B → lockmap → Prop) p m :
  wp T I ok (λ a m', wp T I ok Q (k a) m') p m → wp T I ok Q (prog_bind k p) m.
Proof.
  revert m. induction p as [a|f|c r IH]; intros m; cbn; [done|done|].
  intros [Ht H]. split; [done|]. intros x m' Hs Hx. destruct (H x m' Hs Hx) as [? ?]. split; [done|]. by apply IH.
Qed.

(** Code that reads and writes the memory of the process. *)
Lemma wp_bind {S A B} (m : os S A) (k : A → os S B) (Q : B * S → lockmap → Prop) s l :
  wp T I ok (λ r l', wp T I ok Q (k r.1 r.2) l') (m s) l → wp T I ok Q ((m ≫= k) s) l.
Proof. apply wp_prog_bind. Qed.

Lemma wp_assert {S B} (b : bool) (k : () → os S B) (Q : B * S → lockmap → Prop) s l :
  b = true → wp T I ok Q (k () s) l → wp T I ok Q ((os_assert b ≫= k) s) l.
Proof. intros -> H. exact H. Qed.

Lemma wp_some {S A B} (f : S → option A) a (k : A → os S B) (Q : B * S → lockmap → Prop) s l :
  f s = Some a → wp T I ok Q (k a s) l → wp T I ok Q ((os_some f ≫= k) s) l.
Proof. intros E H. unfold mbind, os_bind, os_some. rewrite E. exact H. Qed.

(** [fcntl(F_SETLK)] succeeds and changes the locks, or fails and does not. *)
Lemma wp_setlk {S B} l (k : answer → os S B) (Q : B * S → lockmap → Prop) s m :
  I m → I (setl l m) → (∀ v, wp T I ok Q (k (0, v) s) (setl l m)) →
  (∀ e, ok (SETLK l) (-1, e) → wp T I ok Q (k (-1, e) s) m) → wp T I ok Q ((os_call (SETLK l) ≫= k) s) m.
Proof.
  intros H0 H1 H2 H3. apply wp_bind. cbn. split; [done|]. intros x m' Hs Hx. inversion Hs; subst; try (by split; [|auto]).
  by destruct (H l).
Qed.

(** Calls that do not concern locks. *)
Lemma wp_value {S B} c (k : answer → os S B) (Q : B * S → lockmap → Prop) s m :
  (∀ l, c ≠ SETLK l) ∧ c ≠ FTRUNCATE → (∀ fd, c ≠ CLOSE fd) →
  I m → (∀ x, ok c x → wp T I ok Q (k x s) m) → wp T I ok Q ((os_call c ≫= k) s) m.
Proof.
  intros [Hn Ht] Hc H0 H1. apply wp_bind. cbn. split; [done|]. intros x m' Hs Hx.
  destruct Hs; try (by destruct (Hn l)); try (by destruct (Hc fd)); (split; [done|by apply H1]).
Qed.

(** [close] may release all locks. *)
Lemma wp_close {S B} fd (k : answer → os S B) (Q : B * S → lockmap → Prop) s m :
  I m → I no_locks → (∀ x m', m' = m ∨ m' = no_locks → wp T I ok Q (k x s) m') → wp T I ok Q ((os_call (CLOSE fd) ≫= k) s) m.
Proof.
  intros H0 H1 H2. apply wp_bind. cbn. split; [done|]. intros x m' Hs Hx. inversion Hs; subst; (split; [done|]); apply H2; auto.
Qed.

Lemma wp_truncate {S B} (k : answer → os S B) (Q : B * S → lockmap → Prop) s m :
  T m → I m → (∀ x, wp T I ok Q (k x s) m) → wp T I ok Q ((os_call FTRUNCATE ≫= k) s) m.
Proof. intros Ht H0 H1. apply wp_bind. cbn. split; [done|]. intros x m' Hs Hx. inversion Hs; subst; (split; [done|apply H1]). Qed.
End wp.

(** ** Concurrent processes

    A protocol says what processes run: the operations, their code, when
    an operation may be started, which failures of system calls it tolerates, and
    with which locks it may truncate the file. *)
Record protocol (S Op : Type) : Type := Protocol {
  fresh_memory : S;
  code : Op → S → prog (Z * S);
  may_start : S → Op → Prop;
  tolerates : Op → call → answer → Prop;
  truncates : lockmap → Prop }.
Arguments fresh_memory {S Op} p.
Arguments code {S Op} p o s.
Arguments may_start {S Op} p s o.
Arguments tolerates {S Op} p o c x.
Arguments truncates {S Op} p m.

(** A process: its memory when it last was idle, the rest of the operation that
    runs, and its locks. A mutex makes the threads of a process take turns. *)
Record process (S Op : Type) : Type := Process {
  memory : S;
  running : option (Op * prog (Z * S));
  locks : lockmap }.
Arguments Process {S Op} memory running locks.
Arguments memory {S Op} p.
Arguments running {S Op} p.
Arguments locks {S Op} p.

(** The processes that use the file, by their number. *)
Abbreviation machine S Op := (gmap nat (process S Op)).

Section machine.
Context {S Op : Type} (P : protocol S Op).

Definition others (pid : nat) (w : machine S Op) : list lockmap := (λ q, locks q.2) <$> map_to_list (delete pid w).

Inductive step : machine S Op → machine S Op → Prop :=
  | step_spawn w pid : w !! pid = None → step w (<[pid := Process (fresh_memory P) None no_locks]> w)
  | step_exit w pid : step w (delete pid w)
  | step_start w pid s m o : w !! pid = Some (Process s None m) → may_start P s o →
      step w (<[pid := Process s (Some (o, code P o s)) m]> w)
  | step_call w pid s o c k m ev : w !! pid = Some (Process s (Some (o, Sys c k)) m) →
      tolerates P o c (serve (others pid w) m c ev).1 →
      step w (<[pid := Process s (Some (o, k (serve (others pid w) m c ev).1)) (serve (others pid w) m c ev).2]> w)
  | step_return w pid s s' o rc m : w !! pid = Some (Process s (Some (o, Done (rc, s'))) m) →
      step w (<[pid := Process s' None m]> w).

Abbreviation reachable := (rtc step ∅).

(** What the correctness of each process by itself is: an invariant [Inv] of idle
    processes that every operation preserves, and a promise [Prom] on the locks
    that holds whenever the process waits, also inside of an operation. *)
Class Sound (Inv : S → lockmap → Prop) (Prom : S → option Op → lockmap → Prop) : Prop := {
  sound_fresh : Inv (fresh_memory P) no_locks;
  sound_idle s m : Inv s m → Prom s None m;
  sound_start s o m : Inv s m → may_start P s o → Prom s (Some o) m;
  sound_code s o m : Inv s m → may_start P s o →
    wp (truncates P) (Prom s (Some o)) (tolerates P o) (λ r m', Inv r.2 m') (code P o s) m }.

Lemma compatible_sym s t : compatible s t = compatible t s.
Proof. by destruct s, t. Qed.

Lemma grantable_spec os l m b : grantable os l = true → m ∈ os → covers l b = true → compatible (l_type l) (m b) = true.
Proof.
  unfold grantable, covers. intros Hg Hm [H1 H2]%andb_prop. apply Z.leb_le in H1. apply Z.ltb_lt in H2.
  destruct (l_type l) eqn:Et; [done| |]; apply forallb_True in Hg || (rewrite forallb_forall in Hg);
    specialize (Hg b ltac:(apply list_elem_of_In, list.elem_of_seqZ; lia)); rewrite forallb_forall in Hg; apply Hg, list_elem_of_In, Hm.
Qed.

Section sound.
Context {Inv Prom} `{HS : !Sound Inv Prom}.

Record process_ok (q : process S Op) : Prop := {
  pk_prom : Prom (memory q) (fst <$> running q) (locks q);
  pk_run : match running q with
    | None => Inv (memory q) (locks q)
    | Some (o, p) => wp (truncates P) (Prom (memory q) (Some o)) (tolerates P o) (λ r m', Inv r.2 m') p (locks q)
    end }.

(** The locks of two processes never conflict. *)
Record machine_ok (w : machine S Op) : Prop := {
  mk_proc pid q : w !! pid = Some q → process_ok q;
  mk_compat i j p q b : w !! i = Some p → w !! j = Some q → i ≠ j → compatible (locks p b) (locks q b) = true }.

Lemma machine_insert w pid q : machine_ok w → process_ok q →
  (∀ j p b, j ≠ pid → w !! j = Some p → compatible (locks q b) (locks p b) = true) → machine_ok (<[pid := q]> w).
Proof.
  intros [H1 H2] Hq Hc. split.
  - intros j p. destruct (decide (j = pid)) as [->|Hj]; [rewrite lookup_insert_eq; intros [= <-]; done|rewrite lookup_insert_ne by done; apply H1].
  - intros i j p p' b. destruct (decide (i = pid)) as [->|Hi], (decide (j = pid)) as [->|Hj];
      rewrite ?lookup_insert_eq, ?lookup_insert_ne by done; intros E1 E2 Hne; [done| | |by eapply H2].
    + injection E1 as <-. by apply (Hc j).
    + injection E2 as <-. rewrite compatible_sym. by apply (Hc i).
Qed.

(** The same with locks that were there before. *)
Lemma machine_update w pid q q' : machine_ok w → w !! pid = Some q → process_ok q' → locks q' = locks q → machine_ok (<[pid := q']> w).
Proof.
  intros Hw E Hq El. apply machine_insert; [done|done|]. intros j p b Hj Ej. rewrite El. by apply (mk_compat _ Hw pid j).
Qed.

Lemma serve_compat w pid s r m c ev j p b : machine_ok w → w !! pid = Some (Process s r m) → j ≠ pid → w !! j = Some p →
  compatible ((serve (others pid w) m c ev).2 b) (locks p b) = true.
Proof.
  intros Hw E Hj Ej. pose proof (mk_compat _ Hw pid j _ p b E Ej ltac:(done)) as Hm. cbn in Hm.
  destruct c; cbn; destruct (negb (ev.1 =? 0)); cbn; try done.
  - destruct (grantable (others pid w) l) eqn:Hg; [|done]. cbn. unfold setl. destruct (covers l b) eqn:Hc; [|done].
    apply (grantable_spec _ _ (locks p) b Hg); [|done]. unfold others. apply list_elem_of_fmap. exists (j, p). split; [done|].
    apply elem_of_map_to_list. by rewrite lookup_delete_ne.
  - by destruct (ev.2 =? 0).
Qed.

Lemma step_ok w w' : machine_ok w → step w w' → machine_ok w'.
Proof using HS.
  intros Hw Hs. destruct Hs as [w pid E|w pid|w pid s m o E Hm|w pid s o c k m ev E Ht|w pid s s' o rc m E].
  - apply machine_insert; [done| |done]. split; cbn; [apply sound_idle|]; apply sound_fresh.
  - destruct Hw as [H1 H2]. split.
    + intros j q. rewrite lookup_delete_Some. intros [_ ?]. by eapply H1.
    + intros i j p q b. rewrite !lookup_delete_Some. intros [_ ?] [_ ?]. by apply H2.
  - pose proof (mk_proc _ Hw _ _ E) as [_ Hi]. eapply machine_update; [done|exact E| |done]. split; cbn; [by apply sound_start|by apply sound_code].
  - pose proof (mk_proc _ Hw _ _ E) as [_ Hi]. cbn in Hi. destruct Hi as [_ Hi]. destruct (Hi _ _ (serve_own (others pid w) m c ev) Ht) as [Hp Hr].
    apply machine_insert; [done|by split|]. intros j p b Hj Ej. cbn [locks]. by eapply serve_compat.
  - pose proof (mk_proc _ Hw _ _ E) as [_ Hi]. eapply machine_update; [done|exact E| |done]. cbn in Hi. split; cbn; [by apply sound_idle|done].
Qed.

(** In every reachable machine the promises hold and locks do not conflict. *)
Lemma reachable_ok w : reachable w → machine_ok w.
Proof using HS.
  apply (rtc_ind_r machine_ok).
  - split; intros *; by rewrite lookup_empty.
  - intros y z _ Hyz Hy. by eapply step_ok.
Qed.
End sound.
End machine.

(** ** Executing operations

    An executable scheduler: operations run one after the other without failures. *)

(** Answers without failures: one link, the name still leads to the file, descriptor 3. *)
Definition quiet (c : call) : Z * Z := match c with OPEN _ => (0, 3) | FSTAT _ => (0, 1) | _ => (0, 0) end.

Fixpoint run {A} (os : list lockmap) (p : prog A) (m : lockmap) : outcome (A * lockmap) :=
  match p with
  | Done a => Ret (a, m)
  | Bad f => Undef f
  | Sys c k => run os (k (serve os m c (quiet c)).1) (serve os m c (quiet c)).2
  end.

Section exec.
Context {S Op : Type} (P : protocol S Op) (allowed : S → Op → bool).

(** A new process, or an operation of a process to its end: the result. Operations
    that are not [allowed] are refused. *)
Definition exec (w : machine S Op) (pid : nat) (o : option Op) : option (Z * machine S Op) :=
  match o, w !! pid with
  | None, None => Some (0, <[pid := Process (fresh_memory P) None no_locks]> w)
  | Some o, Some (Process s None m) =>
      if allowed s o then
        match run (others pid w) (code P o s) m with Ret (rc, s', m') => Some (rc, <[pid := Process s' None m']> w) | Undef _ => None end
      else None
  | _, _ => None
  end.

Fixpoint exec_all (w : machine S Op) (l : list (nat * option Op)) : option (list Z * machine S Op) :=
  match l with
  | [] => Some ([], w)
  | (pid, o) :: l => r ← exec w pid o; s ← exec_all r.2 l; Some (r.1 :: s.1, s.2)
  end.

Context (Hallowed : ∀ s o, allowed s o = true → may_start P s o) (Hquiet : ∀ o os m c, tolerates P o c (serve os m c (quiet c)).1).

Lemma others_insert pid q (w : machine S Op) : others pid (<[pid := q]> w) = others pid w.
Proof. unfold others. by rewrite delete_insert_eq. Qed.

Lemma run_steps pid s o p m r m' w : run (others pid w) p m = Ret (r, m') →
  rtc (step P) (<[pid := Process s (Some (o, p)) m]> w) (<[pid := Process s (Some (o, Done r)) m']> w).
Proof using Hquiet.
  revert m. induction p as [a|f|c k IH]; intros m; cbn; [intros [= <- <-]; done|done|]. intros H.
  eapply rtc_l; [|apply (IH _ _ H)]. pose proof (step_call P (<[pid := Process s (Some (o, Sys c k)) m]> w) pid s o c k m (quiet c) (lookup_insert_eq _ _ _)) as Hs.
  rewrite others_insert, insert_insert_eq in Hs. apply Hs, Hquiet.
Qed.

Lemma exec_steps w pid o rc w' : exec w pid o = Some (rc, w') → rtc (step P) w w'.
Proof using Hallowed Hquiet.
  unfold exec. destruct o as [o|], (w !! pid) as [[s [r|] m]|] eqn:E; try done.
  - destruct (allowed s o) eqn:Hs; [|done]. destruct (run _ _ _) as [[[rc' s'] m']|] eqn:Er; [|done]. intros [= -> <-].
    eapply rtc_l; [apply (step_start P w pid s m o); auto|]. eapply rtc_r; [by apply run_steps|].
    pose proof (step_return P (<[pid := Process s (Some (o, Done (rc, s'))) m']> w) pid s s' o rc m' (lookup_insert_eq _ _ _)) as Hr. by rewrite insert_insert_eq in Hr.
  - intros [= <- <-]. apply rtc_once. by apply (step_spawn P).
Qed.

Lemma exec_all_steps l : ∀ w rs w', exec_all w l = Some (rs, w') → rtc (step P) w w'.
Proof using Hallowed Hquiet.
  induction l as [|[pid o] l IH]; intros w rs w'; cbn; [by intros [= <- <-]|]. destruct (exec w pid o) as [[rc w1]|] eqn:E; [|done]. cbn. destruct (exec_all w1 l) as [[rs1 w2]|] eqn:El; [|done]. cbn. intros [= <- <-].
  etrans; [by eapply exec_steps|by eapply IH].
Qed.
End exec.
