(* ===== verification/OsLock.v ===== *)
(** * Locks on the database file

    The locking methods of src/os_unix.c with POSIX advisory locks: opening a
    database file, the five levels of locks, and closing. A process has one
    [unixInodeInfo] for the file, shared by all of its [unixFile] objects, because the
    operating system does not tell the descriptors of a process apart.

    One database file is modelled, without memory mapping and without shared memory of
    the write-ahead log; the list of all [unixInodeInfo] objects of a process
    therefore has at most one entry. *)

From S2P Require Import Prelude OsKernel.
#[local] Open Scope Z_scope.
#[local] Open Scope c_scope.
#[local] Open Scope list_scope.

Definition SQLITE_OK : Z := 0.
Definition SQLITE_PERM : Z := 3.
Definition SQLITE_BUSY : Z := 5.
Definition SQLITE_NOMEM : Z := 7.
Definition SQLITE_IOERR : Z := 10.
Definition SQLITE_CANTOPEN : Z := 14.
Definition SQLITE_NOLFS : Z := 22.
Definition SQLITE_IOERR_UNLOCK : Z := SQLITE_IOERR .| (8 .<< 8).
Definition SQLITE_IOERR_RDLOCK : Z := SQLITE_IOERR .| (9 .<< 8).
Definition SQLITE_IOERR_CHECKRESERVEDLOCK : Z := SQLITE_IOERR .| (14 .<< 8).
Definition SQLITE_IOERR_LOCK : Z := SQLITE_IOERR .| (15 .<< 8).

(** ** src/os.h *)

Definition NO_LOCK : Z := 0.
Definition SHARED_LOCK : Z := 1.
Definition RESERVED_LOCK : Z := 2.
Definition PENDING_LOCK : Z := 3.
Definition EXCLUSIVE_LOCK : Z := 4.

Definition PENDING_BYTE : Z := 0x40000000.
Definition RESERVED_BYTE : Z := PENDING_BYTE + 1.
Definition SHARED_FIRST : Z := PENDING_BYTE + 2.
Definition SHARED_SIZE : Z := 510.

(** ** Data *)

Definition UNIXFILE_EXCL : Z := 0x01.
Definition UNIXFILE_RDONLY : Z := 0x02.
Definition UNIXFILE_DELETE : Z := 0x20.
Definition UNIXFILE_URI : Z := 0x40.
Definition UNIXFILE_NOLOCK : Z := 0x80.
Definition UNIXFILE_WARNED : Z := 0x0100.
Definition UNIXFILE_PSOW : Z := 0x10.

Record UnixUnusedFd : Set := { fd : Z; flags : Z }.

Record unixFile : Set := UnixFile {
  h : Z;
  eFileLock : Z;
  ctrlFlags : Z;
  lastErrno : Z;
  pUnused : option UnixUnusedFd }.

(** The fields of [unixInodeInfo] have the prefix [i_] where a [unixFile] has the same. *)
Record unixInodeInfo : Set := UnixInodeInfo {
  nShared : Z;
  i_eFileLock : Z;
  bProcessLock : Z;
  nRef : Z;
  nLock : Z;
  i_pUnused : list UnixUnusedFd }.

(** The memory of a process: [inodeList], and the open files. *)
Record proc : Type := Proc { inodeList : option unixInodeInfo; files : gmap nat unixFile }.

Definition set_eFileLock (l : Z) (f : unixFile) : unixFile := UnixFile (h f) l (ctrlFlags f) (lastErrno f) (pUnused f).
Definition set_lastErrno (e : Z) (f : unixFile) : unixFile := UnixFile (h f) (eFileLock f) (ctrlFlags f) e (pUnused f).
Definition set_ctrlFlags (c : Z) (f : unixFile) : unixFile := UnixFile (h f) (eFileLock f) c (lastErrno f) (pUnused f).
Definition set_fd (fd : Z) (u : option UnixUnusedFd) (f : unixFile) : unixFile := UnixFile fd (eFileLock f) (ctrlFlags f) (lastErrno f) u.

Definition i_level (l : Z) (i : unixInodeInfo) : unixInodeInfo := UnixInodeInfo (nShared i) l (bProcessLock i) (nRef i) (nLock i) (i_pUnused i).
Definition i_share (n k : Z) (i : unixInodeInfo) : unixInodeInfo := UnixInodeInfo n (i_eFileLock i) (bProcessLock i) (nRef i) k (i_pUnused i).
Definition i_process (b k : Z) (i : unixInodeInfo) : unixInodeInfo := UnixInodeInfo (nShared i) (i_eFileLock i) b (nRef i) k (i_pUnused i).
Definition i_ref (n : Z) (i : unixInodeInfo) : unixInodeInfo := UnixInodeInfo (nShared i) (i_eFileLock i) (bProcessLock i) n (nLock i) (i_pUnused i).
Definition i_unused (u : list UnixUnusedFd) (i : unixInodeInfo) : unixInodeInfo := UnixInodeInfo (nShared i) (i_eFileLock i) (bProcessLock i) (nRef i) (nLock i) u.

(** [pFile] and [pFile->pInode]. *)
Definition get_file (id : nat) : os proc unixFile := os_some (λ s, files s !! id).
Definition mod_file (id : nat) (g : unixFile → unixFile) : os proc () := os_mod (λ s, Proc (inodeList s) (alter g id (files s))).
Definition get_inode : os proc unixInodeInfo := os_some inodeList.
Definition mod_inode (g : unixInodeInfo → unixInodeInfo) : os proc () := os_mod (λ s, Proc (g <$> inodeList s) (files s)).

(** ** Errors *)

(** The values of [errno] on Linux. *)
Definition EPERM : Z := 1.
Definition EINTR : Z := 4.
Definition EACCES : Z := 13.
Definition EBUSY : Z := 16.
Definition EISDIR : Z := 21.
Definition ENOLCK : Z := 37.
Definition EOVERFLOW : Z := 75.
Definition ETIMEDOUT : Z := 110.

Definition sqliteErrorFromPosixError (posixError sqliteIOErr : Z) : Z :=
  if (posixError =? EAGAIN) || (posixError =? ETIMEDOUT) || (posixError =? EBUSY) || (posixError =? EINTR) || (posixError =? ENOLCK) then SQLITE_BUSY
  else if posixError =? EACCES then
    if (sqliteIOErr =? SQLITE_IOERR_LOCK) || (sqliteIOErr =? SQLITE_IOERR_UNLOCK) || (sqliteIOErr =? SQLITE_IOERR_RDLOCK) || (sqliteIOErr =? SQLITE_IOERR_CHECKRESERVEDLOCK)
    then SQLITE_BUSY else SQLITE_PERM
  else if posixError =? EPERM then SQLITE_PERM
  else sqliteIOErr.

(** ** Descriptors *)

(** A failure of [close] is only logged. *)
Definition robust_close (fd : Z) : os proc () :=
  _ ← os_call (CLOSE fd); mret ().

Fixpoint close_list (l : list UnixUnusedFd) : os proc () :=
  match l with
  | [] => mret ()
  | p :: l => _ ← robust_close (fd p); close_list l
  end.

Definition closePendingFds : os proc () :=
  pInode ← get_inode;
  _ ← close_list (i_pUnused pInode);
  mod_inode (i_unused []).

Definition setPendingFd (id : nat) : os proc () :=
  pFile ← get_file id;
  p ← os_some (λ _, pUnused pFile);
  _ ← mod_inode (λ i, i_unused (p :: i_pUnused i) i);
  mod_file id (set_fd (-1) None).

Definition releaseInodeInfo : os proc () :=
  _ ← mod_inode (λ i, i_ref (nRef i - 1) i);
  pInode ← get_inode;
  if nRef pInode =? 0 then
    _ ← closePendingFds;
    os_mod (λ s, Proc None (files s))
  else mret ().

(** The object for the descriptor, a new one if the process has none: the
    result code. [memset] makes all fields zero. *)
Definition findInodeInfo (id : nat) : os proc Z :=
  pFile ← get_file id;
  st ← os_call (FSTAT (h pFile));
  if negb (st.1 =? 0) then
    _ ← mod_file id (set_lastErrno st.2);
    mret (if st.2 =? EOVERFLOW then SQLITE_NOLFS else SQLITE_IOERR)
  else
  pInode ← os_get inodeList;
  match pInode with
  | None =>
      m ← os_call MALLOC;
      if negb (m.1 =? 0) then mret SQLITE_NOMEM else
      _ ← os_mod (λ s, Proc (Some (UnixInodeInfo 0 0 0 1 0 [])) (files s));
      mret SQLITE_OK
  | Some _ =>
      _ ← mod_inode (λ i, i_ref (nRef i + 1) i);
      mret SQLITE_OK
  end.

(** Warnings are given at most once. The value of [fstat] is [st_nlink], the value of
    [stat] tells whether the name still leads to the same inode. *)
Definition verifyDbFile (id : nat) : os proc () :=
  pFile ← get_file id;
  if negb (ctrlFlags pFile .& UNIXFILE_WARNED =? 0) then mret () else
  let warned := mod_file id (λ f, set_ctrlFlags (ctrlFlags f .| UNIXFILE_WARNED) f) in
  st ← os_call (FSTAT (h pFile));
  if negb (st.1 =? 0) then warned else
  if (st.2 =? 0) && (ctrlFlags pFile .& UNIXFILE_DELETE =? 0) then warned else
  if 1 <? st.2 then warned else
  moved ← os_call STAT;
  if negb (moved.1 =? 0) || negb (moved.2 =? 0) then warned else mret ().

(** ** Locks *)

(** Zero, or the [errno] of the failure with a result of -1. *)
Definition unixFileLock (id : nat) (pLock : flock) : os proc answer :=
  pFile ← get_file id;
  pInode ← get_inode;
  if (negb (ctrlFlags pFile .& UNIXFILE_EXCL =? 0) || negb (bProcessLock pInode =? 0)) && (ctrlFlags pFile .& UNIXFILE_RDONLY =? 0) then
    if bProcessLock pInode =? 0 then
      _ ← os_assert (nLock pInode =? 0);
      rc ← os_call (SETLK (Flock F_WRLCK SHARED_FIRST SHARED_SIZE));
      if rc.1 <? 0 then mret rc else
      _ ← mod_inode (λ i, i_process 1 (nLock i + 1) i);
      mret rc
    else mret (0, 0)
  else os_call (SETLK pLock).

(** The result and [*pResOut]. *)
Definition unixCheckReservedLock (id : nat) : os proc (Z * Z) :=
  pFile ← get_file id;
  pInode ← get_inode;
  if SHARED_LOCK <? i_eFileLock pInode then mret (SQLITE_OK, 1) else
  if negb (bProcessLock pInode =? 0) then mret (SQLITE_OK, 0) else
  x ← os_call (GETLK (Flock F_WRLCK RESERVED_BYTE 1));
  if negb (x.1 =? 0) then
    _ ← mod_file id (set_lastErrno x.2);
    mret (SQLITE_IOERR_CHECKRESERVEDLOCK, 0)
  else mret (SQLITE_OK, if x.2 =? 2 then 0 else 1).

(** The [errno] of a lock that was not granted, as a result code. *)
Definition lock_error (id : nat) (e : Z) : os proc Z :=
  let rc := sqliteErrorFromPosixError e SQLITE_IOERR_LOCK in
  _ ← (if negb (rc =? SQLITE_BUSY) then mod_file id (set_lastErrno e) else mret ());
  mret rc.

(** The read lock of a SHARED lock; the temporary lock of the pending byte is
    dropped in any case. *)
Definition lock_shared (id : nat) : os proc Z :=
  pInode ← get_inode;
  _ ← os_assert (nShared pInode =? 0);
  _ ← os_assert (i_eFileLock pInode =? 0);
  x ← unixFileLock id (Flock F_RDLCK SHARED_FIRST SHARED_SIZE);
  let rc := if x.1 =? 0 then SQLITE_OK else sqliteErrorFromPosixError x.2 SQLITE_IOERR_LOCK in
  y ← unixFileLock id (Flock F_UNLCK PENDING_BYTE 1);
  let unlock_failed := negb (y.1 =? 0) && (rc =? SQLITE_OK) in
  let rc := if unlock_failed then SQLITE_IOERR_UNLOCK else rc in
  let tErrno := if unlock_failed then y.2 else if x.1 =? 0 then 0 else x.2 in
  if negb (rc =? 0) then
    _ ← (if negb (rc =? SQLITE_BUSY) then mod_file id (set_lastErrno tErrno) else mret ());
    mret rc
  else
    _ ← mod_file id (set_eFileLock SHARED_LOCK);
    _ ← mod_inode (λ i, i_share 1 (nLock i + 1) i);
    mret SQLITE_OK.

(** The write lock of a RESERVED or EXCLUSIVE lock. *)
Definition lock_write (id : nat) (eLock : Z) : os proc Z :=
  pFile ← get_file id;
  _ ← os_assert (negb (eFileLock pFile =? 0));
  _ ← os_assert ((eLock =? RESERVED_LOCK) || (eLock =? EXCLUSIVE_LOCK));
  x ← unixFileLock id (if eLock =? RESERVED_LOCK then Flock F_WRLCK RESERVED_BYTE 1 else Flock F_WRLCK SHARED_FIRST SHARED_SIZE);
  if negb (x.1 =? 0) then lock_error id x.2 else mret SQLITE_OK.

(** The lock of the pending byte that precedes SHARED and EXCLUSIVE locks; [None] if
    [unixLock] goes on. *)
Definition lock_pending (id : nat) (eLock : Z) : os proc (option Z) :=
  pFile ← get_file id;
  if (eLock =? SHARED_LOCK) || ((eLock =? EXCLUSIVE_LOCK) && (eFileLock pFile <? PENDING_LOCK)) then
    x ← unixFileLock id (Flock (if eLock =? SHARED_LOCK then F_RDLCK else F_WRLCK) PENDING_BYTE 1);
    if negb (x.1 =? 0) then rc ← lock_error id x.2; mret (Some rc) else mret None
  else mret None.

Definition unixLock (id : nat) (eLock : Z) : os proc Z :=
  pFile ← get_file id;
  if eLock <=? eFileLock pFile then mret SQLITE_OK else
  _ ← os_assert (negb (eFileLock pFile =? NO_LOCK) || (eLock =? SHARED_LOCK));
  _ ← os_assert (negb (eLock =? PENDING_LOCK));
  _ ← os_assert (negb (eLock =? RESERVED_LOCK) || (eFileLock pFile =? SHARED_LOCK));
  pInode ← get_inode;
  if negb (eFileLock pFile =? i_eFileLock pInode) && ((PENDING_LOCK <=? i_eFileLock pInode) || (SHARED_LOCK <? eLock)) then mret SQLITE_BUSY else
  if (eLock =? SHARED_LOCK) && ((i_eFileLock pInode =? SHARED_LOCK) || (i_eFileLock pInode =? RESERVED_LOCK)) then
    _ ← os_assert (eFileLock pFile =? 0);
    _ ← os_assert (0 <? nShared pInode);
    _ ← mod_file id (set_eFileLock SHARED_LOCK);
    _ ← mod_inode (λ i, i_share (nShared i + 1) (nLock i + 1) i);
    mret SQLITE_OK
  else
  p ← lock_pending id eLock;
  match p with
  | Some rc => mret rc
  | None =>
      pInode ← get_inode;
      rc ← (if eLock =? SHARED_LOCK then lock_shared id
            else if (eLock =? EXCLUSIVE_LOCK) && (1 <? nShared pInode) then mret SQLITE_BUSY
            else lock_write id eLock);
      _ ← (if rc =? SQLITE_OK then
             _ ← mod_file id (set_eFileLock eLock); mod_inode (i_level eLock)
           else if eLock =? EXCLUSIVE_LOCK then
             _ ← mod_file id (set_eFileLock PENDING_LOCK); mod_inode (i_level PENDING_LOCK)
           else mret ());
      mret rc
  end.

(** The first part of [posixUnlock], for a lock above SHARED: [None] if it goes on. *)
Definition unlock_write (id : nat) (eLock : Z) : os proc (option Z) :=
  let failed rc e := (_ ← mod_file id (set_lastErrno e); mret (Some rc)) in
  let unlock :=
    y ← unixFileLock id (Flock F_UNLCK PENDING_BYTE 2);
    if y.1 =? 0 then _ ← mod_inode (i_level SHARED_LOCK); mret None else failed SQLITE_IOERR_UNLOCK y.2 in
  pFile ← get_file id;
  pInode ← get_inode;
  _ ← os_assert (i_eFileLock pInode =? eFileLock pFile);
  if eLock =? SHARED_LOCK then
    x ← unixFileLock id (Flock F_RDLCK SHARED_FIRST SHARED_SIZE);
    if negb (x.1 =? 0) then failed SQLITE_IOERR_RDLOCK x.2 else unlock
  else unlock.

(** The second part, for NO_LOCK. *)
Definition unlock_shared (id : nat) : os proc Z :=
  _ ← mod_inode (λ i, i_share (nShared i - 1) (nLock i) i);
  pInode ← get_inode;
  rc ← (if nShared pInode =? 0 then
          x ← unixFileLock id (Flock F_UNLCK 0 0);
          if x.1 =? 0 then _ ← mod_inode (i_level NO_LOCK); mret SQLITE_OK
          else
            _ ← mod_file id (λ f, set_eFileLock NO_LOCK (set_lastErrno x.2 f));
            _ ← mod_inode (i_level NO_LOCK);
            mret SQLITE_IOERR_UNLOCK
        else mret SQLITE_OK);
  _ ← mod_inode (λ i, i_share (nShared i) (nLock i - 1) i);
  pInode ← get_inode;
  _ ← os_assert (0 <=? nLock pInode);
  _ ← (if nLock pInode =? 0 then closePendingFds else mret ());
  mret rc.

(** [posixUnlock] with [handleNFSUnlock] = 0. *)
Definition posixUnlock (id : nat) (eLock : Z) : os proc Z :=
  _ ← os_assert (eLock <=? SHARED_LOCK);
  pFile ← get_file id;
  if eFileLock pFile <=? eLock then mret SQLITE_OK else
  pInode ← get_inode;
  _ ← os_assert (negb (nShared pInode =? 0));
  p ← (if SHARED_LOCK <? eFileLock pFile then unlock_write id eLock else mret None);
  rc ← match p with
       | Some rc => mret rc
       | None => if eLock =? NO_LOCK then unlock_shared id else mret SQLITE_OK
       end;
  _ ← (if rc =? SQLITE_OK then mod_file id (set_eFileLock eLock) else mret ());
  mret rc.

Definition unixUnlock (id : nat) (eLock : Z) : os proc Z := posixUnlock id eLock.

(** ** Opening and closing *)

(** [memset] makes the object unusable. *)
Definition closeUnixFile (id : nat) : os proc Z :=
  pFile ← get_file id;
  _ ← (if 0 <=? h pFile then robust_close (h pFile) else mret ());
  _ ← os_mod (λ s, Proc (inodeList s) (delete id (files s)));
  mret SQLITE_OK.

Definition unixClose (id : nat) : os proc Z :=
  _ ← verifyDbFile id;
  _ ← unixUnlock id NO_LOCK;
  pInode ← get_inode;
  _ ← os_assert ((0 <? nLock pInode) || (bProcessLock pInode =? 0));
  _ ← (if negb (nLock pInode =? 0) then setPendingFd id else mret ());
  _ ← releaseInodeInfo;
  closeUnixFile id.

(** The first unused descriptor that was opened with the same flags, and the others. *)
Fixpoint take_unused (fl : Z) (l : list UnixUnusedFd) : option (UnixUnusedFd * list UnixUnusedFd) :=
  match l with
  | [] => None
  | p :: l => if flags p =? fl then Some (p, l) else r ← take_unused fl l; Some (r.1, p :: r.2)
  end.

Definition findReusableFd (fl : Z) : os proc (option UnixUnusedFd) :=
  x ← os_call STAT;
  if negb (x.1 =? 0) || negb (x.2 =? 0) then mret None else
  pInode ← os_get inodeList;
  match pInode ≫= λ i, take_unused fl (i_pUnused i) with
  | None => mret None
  | Some (p, l) => _ ← mod_inode (i_unused l); mret (Some p)
  end.

(** For files with POSIX locks. [excl] tells whether the VFS is unix-excl, [psow] is the value
    of the URI parameter. *)
Definition fillInUnixFile (id : nat) (excl psow : bool) (fd : Z) (ctrl : Z) (u : option UnixUnusedFd) : os proc Z :=
  let c := u8 ctrl .| (if psow then UNIXFILE_PSOW else 0) in
  let c := c .| (if excl then UNIXFILE_EXCL else 0) in
  _ ← os_mod (λ s, Proc (inodeList s) (<[id := UnixFile fd 0 c 0 u]> (files s)));
  rc ← findInodeInfo id;
  if negb (rc =? SQLITE_OK) then
    _ ← robust_close fd;
    _ ← os_mod (λ s, Proc (inodeList s) (delete id (files s)));
    mret rc
  else
  _ ← mod_file id (set_lastErrno 0);
  _ ← verifyDbFile id;
  mret SQLITE_OK.

Definition SQLITE_OPEN_READONLY : Z := 0x1.
Definition SQLITE_OPEN_READWRITE : Z := 0x2.
Definition SQLITE_OPEN_CREATE : Z := 0x4.
Definition SQLITE_OPEN_EXCLUSIVE : Z := 0x10.
Definition SQLITE_OPEN_URI : Z := 0x40.

(** [unixOpen] for main database files; the call [OPEN] is [robust_open]. *)
Definition unixOpen (id : nat) (excl psow : bool) (fl : Z) : os proc Z :=
  let isReadonly := negb (fl .& SQLITE_OPEN_READONLY =? 0) in
  let isReadWrite := negb (fl .& SQLITE_OPEN_READWRITE =? 0) in
  let isCreate := negb (fl .& SQLITE_OPEN_CREATE =? 0) in
  let isExclusive := negb (fl .& SQLITE_OPEN_EXCLUSIVE =? 0) in
  _ ← os_assert ((negb isReadonly || negb isReadWrite) && (isReadWrite || isReadonly));
  _ ← os_assert (negb isCreate || isReadWrite);
  _ ← os_assert (negb isExclusive || isCreate);
  u ← findReusableFd fl;
  allocated ← (match u with Some _ => mret true | None => m ← os_call MALLOC; mret (m.1 =? 0) end);
  if negb allocated then mret SQLITE_NOMEM else
  r ← (match u with
      | Some p => mret (Some (fd p, fl, isReadonly))
      | None =>
          x ← os_call (OPEN fl);
          if x.1 =? 0 then mret (Some (x.2, fl, isReadonly))
          else if negb (x.2 =? EISDIR) && isReadWrite && negb isExclusive then
            let fl' := Z.ldiff fl (SQLITE_OPEN_READWRITE .| SQLITE_OPEN_CREATE) .| SQLITE_OPEN_READONLY in
            y ← os_call (OPEN fl');
            if y.1 =? 0 then mret (Some (y.2, fl', true)) else mret None
          else mret None
      end : os proc (option (Z * Z * bool)));
  match r with
  | None => mret SQLITE_CANTOPEN
  | Some (fd, fl, isReadonly) =>
      _ ← os_assert (0 <=? fd);
      let ctrl := (match isReadonly with true => UNIXFILE_RDONLY | false => 0 end) .| (if negb (fl .& SQLITE_OPEN_URI =? 0) then UNIXFILE_URI else 0) in
      fillInUnixFile id excl psow fd ctrl (Some (Build_UnixUnusedFd fd fl))
  end.
