(* ===== verification/OsLockSafe.v ===== *)
(** * Database locks exclude each other

    Processes open, lock, unlock and close one database file in any order and
    interleaved at every system call, which may fail. The theorem is the contract
    of [sqlite3OsLock] in src/os.h: a connection with an EXCLUSIVE lock is the only one
    with any lock, and there is at most one RESERVED and at most one PENDING lock. *)

From S2P Require Import Prelude OsKernel OsLock.
From stdpp Require Import relations gmap.
#[local] Open Scope Z_scope.
#[local] Open Scope c_scope.
#[local] Open Scope list_scope.

(** ** Operations *)

Inductive lock_op : Set :=
  | OpOpen (id : nat) (excl psow : bool) (fl : Z)
  | OpLock (id : nat) (l : Z)
  | OpUnlock (id : nat) (l : Z)
  | OpCheck (id : nat)
  | OpClose (id : nat).

Definition op_code (o : lock_op) : os proc Z :=
  match o with
  | OpOpen id excl psow fl => unixOpen id excl psow fl
  | OpLock id l => unixLock id l
  | OpUnlock id l => unixUnlock id l
  | OpCheck id => r ← unixCheckReservedLock id; mret r.1
  | OpClose id => unixClose id
  end.

(** Files of unix-excl are read-write and not mixed with files of the VFS unix in one process. *)
Definition mode (b : bool) (f : unixFile) : Prop :=
  (ctrlFlags f .& UNIXFILE_EXCL =? 0) = negb b ∧ (b = true → (ctrlFlags f .& UNIXFILE_RDONLY =? 0) = true).

(** The flags that [unixOpen] asserts. *)
Definition good_flags (excl : bool) (fl : Z) : Prop :=
  let r := negb (fl .& SQLITE_OPEN_READONLY =? 0) in
  let w := negb (fl .& SQLITE_OPEN_READWRITE =? 0) in
  let c := negb (fl .& SQLITE_OPEN_CREATE =? 0) in
  let e := negb (fl .& SQLITE_OPEN_EXCLUSIVE =? 0) in
  xorb r w = true ∧ (c = true → w = true) ∧ (e = true → c = true) ∧ (excl = true → r = false).

(** The locks that callers request. *)
Definition requests (f : unixFile) (l : Z) : Prop := l = SHARED_LOCK ∨ (l = RESERVED_LOCK ∨ l = EXCLUSIVE_LOCK) ∧ SHARED_LOCK ≤ eFileLock f.

(** How the callers use the methods: files are opened once; from no lock only SHARED is
    requested, PENDING never; unlocking goes to SHARED or none. *)
Definition op_may_start (s : proc) (o : lock_op) : Prop :=
  match o with
  | OpOpen id excl psow fl => files s !! id = None ∧ good_flags excl fl ∧ map_Forall (λ _, mode excl) (files s)
  | OpLock id l => match files s !! id with Some f => requests f l | None => False end
  | OpUnlock id l => is_Some (files s !! id) ∧ (l = NO_LOCK ∨ l = SHARED_LOCK)
  | OpCheck id => is_Some (files s !! id)
  | OpClose id => is_Some (files s !! id)
  end.

#[global] Instance mode_dec b f : Decision (mode b f).
Proof. unfold mode. apply _. Defined.

#[global] Instance op_may_start_dec s o : Decision (op_may_start s o).
Proof. destruct o; unfold op_may_start, good_flags, requests; cbn zeta; try apply _. destruct (files s !! id); apply _. Defined.

(** Failures that break the protocol: [fstat] on a descriptor that was just opened,
    the release of the PENDING and RESERVED bytes when a lock is reduced to SHARED, and a file of
    unix-excl that can only be opened for reading. A descriptor is not negative. *)
Definition op_tolerates (o : lock_op) (c : call) (x : answer) : Prop :=
  match o, c with
  | OpOpen _ _ _ _, FSTAT _ => x.1 = 0
  | OpOpen _ excl _ _, OPEN _ => (excl = true → x.1 = 0) ∧ (x.1 = 0 → 0 ≤ x.2)
  | OpUnlock _ l, SETLK k => l = SHARED_LOCK → l_type k = F_UNLCK → x.1 = 0
  | _, _ => True
  end.

Definition unix_locks : protocol proc lock_op := {|
  fresh_memory := Proc None ∅; code := op_code; may_start := op_may_start; tolerates := op_tolerates; truncates := λ _, False |}.

(** The lock of a file; while it is being unlocked or closed, only what will remain. *)
Definition level (s : proc) (o : option lock_op) (id : nat) : Z :=
  match files s !! id with
  | None => NO_LOCK
  | Some f =>
      match o with
      | Some (OpUnlock id' l) => if decide (id' = id) then Z.min l (eFileLock f) else eFileLock f
      | Some (OpClose id') => if decide (id' = id) then NO_LOCK else eFileLock f
      | _ => eFileLock f
      end
  end.

(** ** Locks of the system behind the levels *)

Definition shared_byte (x : Z) : Prop := SHARED_FIRST ≤ x < SHARED_FIRST + SHARED_SIZE.
Definition shared_r (m : lockmap) : Prop := ∀ x, shared_byte x → m x ≠ F_UNLCK.
Definition shared_w (m : lockmap) : Prop := ∀ x, shared_byte x → m x = F_WRLCK.

(** What a process with level [e] has locked; [b] for unix-excl. *)
Record hold (b : bool) (e : Z) (m : lockmap) : Prop := {
  hold_r : SHARED_LOCK ≤ e → if b then shared_w m else shared_r m;
  hold_res : e = RESERVED_LOCK → b = false → m RESERVED_BYTE = F_WRLCK;
  hold_pend : PENDING_LOCK ≤ e → b = false → m PENDING_BYTE = F_WRLCK;
  hold_w : e = EXCLUSIVE_LOCK → shared_w m }.

(** The levels of the files of a process follow one level [e] that its locks support. *)
Record promise (s : proc) (o : option lock_op) (m : lockmap) : Prop := {
  pr_hold : ∃ b e, hold b e m ∧ ∀ id, 0 ≤ level s o id ≤ e ∧ (level s o id ≤ SHARED_LOCK ∨ level s o id = e);
  pr_one : ∀ i j, i ≠ j → SHARED_LOCK < level s o i → level s o j ≤ SHARED_LOCK;
  pr_excl : ∀ i j, i ≠ j → level s o i = EXCLUSIVE_LOCK → level s o j = NO_LOCK }.

Ltac unfold_locks := unfold NO_LOCK, SHARED_LOCK, RESERVED_LOCK, PENDING_LOCK, EXCLUSIVE_LOCK, SHARED_FIRST, SHARED_SIZE, RESERVED_BYTE, PENDING_BYTE in *.
Ltac lk := unfold_locks; lia.

Lemma compatible_w t : compatible F_WRLCK t = true → t = F_UNLCK.
Proof. by destruct t. Qed.

Lemma promises_exclude (p q : process proc lock_op) f g :
  (∀ x, compatible (locks p x) (locks q x) = true) → promise (memory p) (fst <$> running p) (locks p) → promise (memory q) (fst <$> running q) (locks q) →
  let lp := level (memory p) (fst <$> running p) f in
  let lq := level (memory q) (fst <$> running q) g in
  (lp = EXCLUSIVE_LOCK → lq = NO_LOCK) ∧ ¬ (lp = RESERVED_LOCK ∧ lq = RESERVED_LOCK) ∧ ¬ (PENDING_LOCK ≤ lp ∧ PENDING_LOCK ≤ lq).
Proof.
  intros Hc [(b & e & He & Hl) _ _] [(b' & e' & He' & Hl') _ _] lp lq. destruct (Hl f) as [H1 H2], (Hl' g) as [H1' H2']. fold lp in H1, H2. fold lq in H1', H2'. clearbody lp lq.
  pose proof (Hc PENDING_BYTE) as Cp. pose proof (Hc RESERVED_BYTE) as Cr. pose proof (Hc SHARED_FIRST) as Cs. assert (shared_byte SHARED_FIRST) as Hsb by (unfold shared_byte; unfold_locks; lia).
  assert (∀ b e m, hold b e m → SHARED_LOCK ≤ e → m SHARED_FIRST ≠ F_UNLCK ∧ (b = true ∨ e = EXCLUSIVE_LOCK → m SHARED_FIRST = F_WRLCK)) as Hr.
  { intros c x m Hh Hx. pose proof (hold_r _ _ _ Hh Hx) as Hs. pose proof (hold_w _ _ _ Hh) as Hw. destruct c; split; [by rewrite Hs| |by apply Hs|]; intros [?|?]; [by apply Hs|by apply Hw|done|by apply Hw]. }
  split; [|split].
  - intros ->. destruct (decide (SHARED_LOCK ≤ e')) as [Hg|Hg]; [|lk]. exfalso.
    destruct (Hr _ _ _ He' ltac:(lk)) as [Hu _], (Hr _ _ _ He ltac:(lk)) as [_ Hu']. rewrite Hu' in Cs by (right; lk).
    by apply Hu, compatible_w.
  - intros [-> ->]. assert (e = RESERVED_LOCK ∧ e' = RESERVED_LOCK) as [-> ->] by lk.
    destruct (Hr _ _ _ He ltac:(lk)) as [Hu Hu'], (Hr _ _ _ He' ltac:(lk)) as [Hv Hv']. destruct b; [|destruct b'].
    + rewrite Hu' in Cs by auto. by apply Hv, compatible_w.
    + rewrite Hv', compatible_sym in Cs by auto. by apply Hu, compatible_w.
    + rewrite (hold_res _ _ _ He), (hold_res _ _ _ He') in Cr by done. done.
  - intros [Hp Hq]. assert (PENDING_LOCK ≤ e ∧ PENDING_LOCK ≤ e') as [He3 He3'] by lia.
    destruct (Hr _ _ _ He ltac:(lk)) as [Hu Hu'], (Hr _ _ _ He' ltac:(lk)) as [Hv Hv']. destruct b; [|destruct b'].
    + rewrite Hu' in Cs by auto. by apply Hv, compatible_w.
    + rewrite Hv', compatible_sym in Cs by auto. by apply Hu, compatible_w.
    + rewrite (hold_pend _ _ _ He), (hold_pend _ _ _ He') in Cp by (done || lk). done.
Qed.

(** ** The invariant of a process *)

(** The number of files with a lock. *)
Definition locked (f : unixFile) : bool := SHARED_LOCK <=? eFileLock f.
Definition n_locked (fs : gmap nat unixFile) : Z := Z.of_nat (size (filter (λ kv, locked kv.2 = true) fs)).

(** The counters of [unixInodeInfo]. *)
Record counts (b : bool) (i : unixInodeInfo) : Prop := {
  ct_process : bProcessLock i = 0 ∨ (b = true ∧ bProcessLock i = 1);
  ct_shared : 0 ≤ nShared i;
  ct_lock : nLock i = nShared i + bProcessLock i;
  ct_none : i_eFileLock i = NO_LOCK ↔ nShared i = 0;
  ct_range : NO_LOCK ≤ i_eFileLock i ≤ EXCLUSIVE_LOCK;
  ct_excl : i_eFileLock i = EXCLUSIVE_LOCK → nShared i = 1;
  ct_mode : b = true → bProcessLock i = 0 → nShared i = 0;
  ct_fds : Forall (λ u, 0 ≤ fd u) (i_pUnused i) }.

Record file_ok (b : bool) (i : unixInodeInfo) (f : unixFile) : Prop := {
  fo_range : NO_LOCK ≤ eFileLock f ≤ EXCLUSIVE_LOCK;
  fo_level : SHARED_LOCK < eFileLock f → eFileLock f = i_eFileLock i;
  fo_unused : ∃ u, pUnused f = Some u ∧ 0 ≤ fd u;
  fo_mode : mode b f }.

(** A file above SHARED has the level of the process, and no other file is above SHARED. *)
Record inode_ok (b : bool) (fs : gmap nat unixFile) (i : unixInodeInfo) (m : lockmap) : Prop := {
  io_some : fs ≠ ∅;
  io_ref : nRef i = Z.of_nat (size fs);
  io_counts : counts b i;
  io_locked : n_locked fs ≤ nShared i;
  io_files : map_Forall (λ _, file_ok b i) fs;
  io_one j k f g : fs !! j = Some f → fs !! k = Some g → SHARED_LOCK < eFileLock f → SHARED_LOCK < eFileLock g → j = k;
  io_hold : hold b (i_eFileLock i) m;
  io_process : bProcessLock i = 1 → shared_w m }.

Definition proc_ok (s : proc) (m : lockmap) : Prop :=
  match inodeList s with
  | None => files s = ∅
  | Some i => ∃ b, inode_ok b (files s) i m
  end.

Lemma n_locked_nonneg fs : 0 ≤ n_locked fs.
Proof. unfold n_locked. lia. Qed.

Lemma n_locked_delete fs id f : fs !! id = Some f → n_locked (delete id fs) = n_locked fs - (if locked f then 1 else 0).
Proof.
  intros E. unfold n_locked. rewrite map_filter_delete. destruct (locked f) eqn:Hf.
  - rewrite map_size_delete_Some by (exists f; by apply map_lookup_filter_Some_2).
    assert (size (filter (λ kv, locked kv.2 = true) fs) ≠ 0%nat); [|lia].
    intros Hz%map_size_empty_inv. assert (filter (λ kv : nat * unixFile, locked kv.2 = true) fs !! id = Some f) as Hl by (by apply map_lookup_filter_Some_2). by rewrite Hz, lookup_empty in Hl.
  - rewrite map_size_delete_None; [lia|]. apply map_lookup_filter_None_2. right. intros x Hx. rewrite E in Hx. injection Hx as <-. cbn. by rewrite Hf.
Qed.

Lemma n_locked_insert_new fs id f : fs !! id = None → n_locked (<[id := f]> fs) = n_locked fs + (if locked f then 1 else 0).
Proof.
  intros E. pose proof (n_locked_delete (<[id:=f]> fs) id f (lookup_insert_eq _ _ _)) as H. rewrite delete_insert_id in H by done. lia.
Qed.

Lemma n_locked_insert fs id f f' : fs !! id = Some f →
  n_locked (<[id := f']> fs) = n_locked fs - (if locked f then 1 else 0) + (if locked f' then 1 else 0).
Proof.
  intros E. rewrite <- (insert_delete_eq fs id f'). rewrite n_locked_insert_new by apply lookup_delete_eq. by rewrite (n_locked_delete _ _ _ E).
Qed.

Lemma n_locked_one fs id f : fs !! id = Some f → locked f = true → 1 ≤ n_locked fs.
Proof. intros E Hf. pose proof (n_locked_delete fs id f E) as H. rewrite Hf in H. pose proof (n_locked_nonneg (delete id fs)). lia. Qed.

Lemma n_locked_two fs i j f g : fs !! i = Some f → fs !! j = Some g → i ≠ j → locked f = true → locked g = true → 2 ≤ n_locked fs.
Proof.
  intros Ei Ej Hne Hf Hg. pose proof (n_locked_delete fs i f Ei) as H. rewrite Hf in H.
  pose proof (n_locked_one (delete i fs) j g ltac:(by rewrite lookup_delete_ne) Hg). lia.
Qed.

(** ** Promises from invariants *)

Definition downward (o : option lock_op) : Prop := match o with Some (OpUnlock _ l) => l = NO_LOCK ∨ l = SHARED_LOCK | _ => True end.

Lemma level_cases s o id f : downward o → files s !! id = Some f → NO_LOCK ≤ eFileLock f →
  level s o id = eFileLock f ∨ NO_LOCK ≤ level s o id ≤ SHARED_LOCK ∧ level s o id ≤ eFileLock f.
Proof.
  intros Hd E Hf. unfold level. rewrite E. destruct o as [[| |id' l| |id']|]; auto; destruct (decide (id' = id)); auto; right; cbn in Hd; lk.
Qed.

Section promises.
Context (s : proc) (i : unixInodeInfo) (b : bool) (m : lockmap) (Hok : inode_ok b (files s) i m) (o : option lock_op) (Hd : downward o).

Lemma level_range id : NO_LOCK ≤ level s o id ∧ (SHARED_LOCK < level s o id → ∃ f, files s !! id = Some f ∧ level s o id = eFileLock f ∧ eFileLock f = i_eFileLock i) ∧
  (SHARED_LOCK ≤ level s o id → ∃ f, files s !! id = Some f ∧ locked f = true ∧ SHARED_LOCK ≤ i_eFileLock i ∧ level s o id ≤ i_eFileLock i).
Proof using Hok Hd.
  destruct (files s !! id) as [f|] eqn:E.
  2: { unfold level. rewrite E. split; [lk|]. split; lk. }
  pose proof (io_files _ _ _ _ Hok id f E) as [Hr Hl _ _]. destruct Hok as [_ _ [_ Hs _ Hn Hrg _ _ _] Hc _ _ _ _].
  destruct (level_cases s o id f Hd E ltac:(lk)) as [Hv|Hv]; (split; [lk|]; split; intros Hx); try (exfalso; lk).
  - exists f. rewrite Hv in Hx |- *. by rewrite <- Hl.
  - assert (locked f = true) as Hlf by (unfold locked; apply Z.leb_le; lk). exists f. split; [done|]. split; [done|].
    pose proof (n_locked_one _ _ _ E Hlf). destruct (decide (i_eFileLock i = NO_LOCK)) as [Hz|Hz]; [apply Hn in Hz; lia|]. destruct (decide (SHARED_LOCK < eFileLock f)); [rewrite <- Hl by done|]; lk.
  - assert (locked f = true) as Hlf by (unfold locked; apply Z.leb_le; lk). exists f. split; [done|]. split; [done|].
    pose proof (n_locked_one _ _ _ E Hlf). destruct (decide (i_eFileLock i = NO_LOCK)) as [Hz|Hz]; [apply Hn in Hz; lia|]. lk.
Qed.

(** Locks that support [e] keep the promise if all levels are bounded by it. *)
Lemma promise_intro e m' : hold b e m' → (∀ id, level s o id ≤ e ∧ (level s o id ≤ SHARED_LOCK ∨ level s o id = e)) → promise s o m'.
Proof using Hok Hd.
  intros Hh Hl. split.
  - exists b, e. split; [done|]. intros id. destruct (Hl id), (level_range id). unfold_locks. auto.
  - intros j k Hne Hj. destruct (level_range j) as (_ & Hj' & _). destruct (Hj' Hj) as (f & Ef & El & _). apply Z.le_ngt. intros Hk. destruct (level_range k) as (_ & Hk' & _).
    destruct (Hk' Hk) as (g & Eg & El' & _). apply Hne. eapply (io_one _ _ _ _ Hok); [exact Ef|exact Eg|lia|lia].
  - intros j k Hne Hj. destruct (level_range j) as (_ & Hj' & _), (level_range k) as (Hk0 & _ & Hk). destruct (Hj' ltac:(lk)) as (f & Ef & El & Ee).
    destruct (decide (SHARED_LOCK ≤ level s o k)) as [Hs|Hs]; [|lk]. destruct (Hk Hs) as (g & Eg & Hg & _).
    assert (locked f = true) as Hf by (unfold locked; apply Z.leb_le; lk). pose proof (n_locked_two _ _ _ _ _ Ef Eg Hne Hf Hg).
    pose proof (io_locked _ _ _ _ Hok). rewrite (ct_excl _ _ (io_counts _ _ _ _ Hok)) in *; [lia|congruence].
Qed.

(** The locks of the level of the process keep every promise. *)
Lemma promise_hold m' : hold b (i_eFileLock i) m' → promise s o m'.
Proof using Hok Hd.
  intros Hh. apply (promise_intro _ _ Hh). intros id. destruct (level_range id) as (H0 & H1 & H2). split.
  - destruct (decide (SHARED_LOCK ≤ level s o id)) as [Hs|Hs]; [by destruct (H2 Hs) as (_ & _ & _ & _ & ?)|]. pose proof (ct_range _ _ (io_counts _ _ _ _ Hok)). lk.
  - destruct (decide (SHARED_LOCK < level s o id)) as [Hs|Hs]; [|lk]. destruct (H1 Hs) as (f & _ & -> & ->). by right.
Qed.

(** If no file keeps a lock there is nothing to promise. *)
Lemma promise_none m' : (∀ id, level s o id ≤ NO_LOCK) → promise s o m'.
Proof using Hok Hd.
  intros H. apply (promise_intro NO_LOCK); [split; lk|]. intros id. pose proof (H id). lk.
Qed.

(** If no file keeps more than a SHARED lock, SHARED locks are enough. *)
Lemma promise_shared m' : hold b SHARED_LOCK m' → (∀ id, level s o id ≤ SHARED_LOCK) → promise s o m'.
Proof using Hok Hd. intros Hh H. apply (promise_intro _ _ Hh). intros id. pose proof (H id). lia. Qed.
End promises.

(** ** Changing one file *)

(** [f'] is [f] apart from its level, [lastErrno] and the flag for warnings. *)
Record same_file (f f' : unixFile) : Prop := {
  sf_h : h f' = h f;
  sf_unused : pUnused f' = pUnused f;
  sf_mode b : mode b f → mode b f' }.

Lemma inode_ok_update b fs i m id f f' i' m' : inode_ok b fs i m → fs !! id = Some f → same_file f f' → counts b i' → nRef i' = nRef i →
  NO_LOCK ≤ eFileLock f' ≤ EXCLUSIVE_LOCK → (SHARED_LOCK < eFileLock f' → eFileLock f' = i_eFileLock i') →
  nShared i + (if locked f' then 1 else 0) ≤ nShared i' + (if locked f then 1 else 0) →
  (∀ j g, j ≠ id → fs !! j = Some g → SHARED_LOCK < eFileLock g → i_eFileLock i' = i_eFileLock i ∧ eFileLock f' ≤ SHARED_LOCK) →
  hold b (i_eFileLock i') m' → (bProcessLock i' = 1 → shared_w m') → inode_ok b (<[id := f']> fs) i' m'.
Proof.
  intros [Hs Hr Hc Hn Hf Ho Hh Hp] E [Sh Su Sm] Hc' Hr' Hg Hl Hn' Hj Hh' Hp'. split; [apply insert_non_empty| |done| | | |done|done].
  - rewrite map_size_insert_Some by done. congruence.
  - rewrite (n_locked_insert fs id f f' E). lia.
  - intros j g. destruct (decide (j = id)) as [->|Hne]; [rewrite lookup_insert_eq; intros [= <-]|rewrite lookup_insert_ne by done; intros Eg].
    + pose proof (Hf id f E) as [F1 F2 F3 F4]. split; [done|done|by rewrite Su|by apply Sm].
    + pose proof (Hf j g Eg) as [F1 F2 F3 F4]. split; [done| |done|done]. intros Hlt. destruct (Hj j g Hne Eg Hlt) as [-> _]. by apply F2.
  - intros j k g g'. destruct (decide (j = id)) as [->|Hj1], (decide (k = id)) as [->|Hk1]; rewrite ?lookup_insert_eq, ?lookup_insert_ne by done; intros E1 E2 H1 H2; [done| | |by eapply Ho].
    + injection E1 as <-. destruct (Hj k g' Hk1 E2 H2). lia.
    + injection E2 as <-. destruct (Hj j g Hj1 E1 H1). lia.
Qed.

(** A file whose level stays. *)
Lemma inode_ok_same b fs i m id f f' : inode_ok b fs i m → fs !! id = Some f → same_file f f' → eFileLock f' = eFileLock f → inode_ok b (<[id := f']> fs) i m.
Proof.
  intros Hok E Sf El. pose proof (io_files _ _ _ _ Hok id f E) as [F1 F2 _ _]. pose proof Hok as [_ Hr Hc Hn Hf Ho Hh Hp].
  eapply (inode_ok_update _ _ _ _ id f f'); rewrite ?El; try done.
  - unfold locked. rewrite El. lia.
  - intros j g Hj Eg Hg. split; [done|]. apply Z.le_ngt. intros Hlt. by apply Hj, (Ho j id g f).
Qed.

Lemma same_file_refl f : same_file f f.
Proof. by split. Qed.

Lemma same_file_trans f g k : same_file f g → same_file g k → same_file f k.
Proof. intros [H1 H2 H3] [K1 K2 K3]. split; [congruence|congruence|auto]. Qed.

Lemma same_file_level l f : same_file f (set_eFileLock l f).
Proof. by split. Qed.

Lemma same_file_errno e f : same_file f (set_lastErrno e f).
Proof. by split. Qed.

(** Bit 8 is neither of the flags of [mode]. *)
Lemma same_file_warned f : same_file f (set_ctrlFlags (ctrlFlags f .| UNIXFILE_WARNED) f).
Proof.
  split; [done|done|]. intros b [H1 H2]. unfold mode. cbn. rewrite !Z.land_lor_distr_l. change (UNIXFILE_WARNED .& UNIXFILE_EXCL) with 0. change (UNIXFILE_WARNED .& UNIXFILE_RDONLY) with 0.
  by rewrite !Z.lor_0_r.
Qed.

#[local] Hint Resolve same_file_refl same_file_trans same_file_level same_file_errno same_file_warned : sesq.

(** ** The methods *)

Section code.
Context (T I : lockmap → Prop) (ok : call → answer → Prop).

Lemma wp_get_file {B} id f (k : unixFile → os proc B) Q s m : files s !! id = Some f → wp T I ok Q (k f s) m → wp T I ok Q ((get_file id ≫= k) s) m.
Proof. intros E. by apply wp_some. Qed.

Lemma wp_get_inode {B} i (k : unixInodeInfo → os proc B) Q s m : inodeList s = Some i → wp T I ok Q (k i s) m → wp T I ok Q ((get_inode ≫= k) s) m.
Proof. intros E. by apply wp_some. Qed.

Lemma wp_mod_file {B} id f g (k : () → os proc B) Q i fs m : fs !! id = Some f →
  wp T I ok Q (k () (Proc i (<[id := g f]> fs))) m → wp T I ok Q ((mod_file id g ≫= k) (Proc i fs)) m.
Proof.
  intros E H. unfold mod_file, mbind, os_bind, os_mod. cbn. replace (alter g id fs) with (<[id := g f]> fs); [done|].
  apply map_eq. intros j. destruct (decide (id = j)) as [<-|Hj]; [by rewrite lookup_insert_eq, lookup_alter_eq, E|by rewrite lookup_insert_ne, lookup_alter_ne].
Qed.

Lemma wp_mod_inode {B} g (k : () → os proc B) Q i fs m :
  wp T I ok Q (k () (Proc (Some (g i)) fs)) m → wp T I ok Q ((mod_inode g ≫= k) (Proc (Some i) fs)) m.
Proof. done. Qed.

(** What a successful [unixFileLock] has done: a file of unix-excl takes the
    lock of the process, if it has not yet. *)
Definition granted (b : bool) (l : flock) (i : unixInodeInfo) (m : lockmap) (i' : unixInodeInfo) (m' : lockmap) : Prop :=
  if b then
    (bProcessLock i = 1 ∧ i' = i ∧ m' = m) ∨
    (bProcessLock i = 0 ∧ i' = i_process 1 (nLock i + 1) i ∧ m' = setl (Flock F_WRLCK SHARED_FIRST SHARED_SIZE) m)
  else i' = i ∧ m' = setl l m.

Definition refused (b : bool) (l : flock) (i : unixInodeInfo) (e : Z) : Prop :=
  if b then bProcessLock i = 0 else ok (SETLK l) (-1, e).

Lemma wp_filelock_any {B} b id f l (k : answer → os proc B) Q i fs m : fs !! id = Some f → mode b f →
  bProcessLock i = 0 ∨ (b = true ∧ bProcessLock i = 1) → (b = true → bProcessLock i = 0 → nLock i = 0) → I m →
  (∀ v i' m', granted b l i m i' m' → I m' ∧ wp T I ok Q (k (0, v) (Proc (Some i') fs)) m') →
  (∀ e, refused b l i e → wp T I ok Q (k (-1, e) (Proc (Some i) fs)) m) →
  wp T I ok Q ((unixFileLock id l ≫= k) (Proc (Some i) fs)) m.
Proof.
  intros E [M1 M2] Hp Hn Hm Hg Hr. apply wp_bind. unfold unixFileLock. apply (wp_get_file id f); [done|]. apply (wp_get_inode i); [done|]. rewrite M1, negb_involutive.
  destruct b; cbn [orb negb andb].
  - rewrite M2 by done. destruct (Z.eqb_spec (bProcessLock i) 0) as [Hz|Hz].
    + apply wp_assert; [by apply Z.eqb_eq, Hn|].
      assert (granted true l i m (i_process 1 (nLock i + 1) i) (setl (Flock F_WRLCK SHARED_FIRST SHARED_SIZE) m)) as G by (by right).
      apply wp_setlk; [done|by apply (Hg 0 _ _ G)| |].
      * intros v. apply (wp_mod_inode). apply (Hg v _ _ G).
      * intros e _. by apply Hr.
    + destruct Hp as [?|[_ Hp]]; [done|]. apply (Hg 0 i m). by left.
  - destruct Hp as [->|[? _]]; [|done]. cbn [Z.eqb negb orb andb].
    assert (granted false l i m i (setl l m)) as G by done. cbn. split; [done|]. intros x m' Hs Hx. destruct (Hg 0 _ _ G) as [GI _]. inversion Hs; subst; try by destruct (H l).
    + split; [done|]. by apply (Hg v).
    + split; [done|]. by apply Hr.
Qed.

Lemma wp_filelock {B} b id f l (k : answer → os proc B) Q i fs m : fs !! id = Some f → mode b f → counts b i → I m →
  (∀ v i' m', granted b l i m i' m' → I m' ∧ wp T I ok Q (k (0, v) (Proc (Some i') fs)) m') →
  (∀ e, refused b l i e → wp T I ok Q (k (-1, e) (Proc (Some i) fs)) m) →
  wp T I ok Q ((unixFileLock id l ≫= k) (Proc (Some i) fs)) m.
Proof.
  intros E M C. apply (wp_filelock_any b id f l); [done|done|apply C|]. intros Hb Hz. by rewrite (ct_lock _ _ C), (ct_mode _ _ C Hb Hz), Hz.
Qed.

(** ** What is locked afterwards *)

(** The fields that [unixFileLock] does not touch. *)
Record same_inode (i i' : unixInodeInfo) : Prop := {
  si_shared : nShared i' = nShared i;
  si_level : i_eFileLock i' = i_eFileLock i;
  si_ref : nRef i' = nRef i;
  si_unused : i_pUnused i' = i_pUnused i }.

Lemma same_inode_refl i : same_inode i i.
Proof. by split. Qed.

Lemma same_inode_trans i j k : same_inode i j → same_inode j k → same_inode i k.
Proof. intros [] []. split; congruence. Qed.

Lemma granted_same b l i m i' m' : granted b l i m i' m' → same_inode i i'.
Proof. unfold granted. destruct b; [intros [(_ & -> & _)|(_ & -> & _)]|intros [-> _]]; by split. Qed.

Lemma granted_counts b l i m i' m' : counts b i → granted b l i m i' m' → counts b i'.
Proof.
  intros Hc. unfold granted. destruct b; [intros [(_ & -> & _)|(Hb & -> & _)]|intros [-> _]]; [done| |done].
  destruct Hc as [C1 C2 C3 C4 C5 C6 C7 C8]. split; cbn; try done; [by right|lia].
Qed.

(** In unix-excl every lock that was granted comes with the lock of the process. *)
Lemma granted_process l i m i' m' : (bProcessLock i = 1 → shared_w m) → granted true l i m i' m' → bProcessLock i' = 1 ∧ shared_w m'.
Proof.
  intros Hw [(Hb & -> & ->)|(_ & -> & ->)]; [auto|]. split; [done|]. intros x Hx. rewrite setl_at by lk. case_decide as Hd; [done|]. destruct Hd. exact Hx.
Qed.

Lemma granted_wsh b l i m i' m' : counts b i → (bProcessLock i = 1 → shared_w m) → granted b l i m i' m' → bProcessLock i' = 1 → shared_w m'.
Proof.
  intros Hc Hw Hg Hb. destruct b; [by apply (granted_process l i m i' m')|]. destruct Hg as [-> ->]. by destruct (ct_process _ _ Hc) as [?|[? ?]]; [lia|].
Qed.

Lemma hold_w_any e m : shared_w m → hold true e m.
Proof. intros H. by split. Qed.

(** Write locks take nothing away. *)
Lemma hold_raise b e a n i m i' m' : 0 < n → (bProcessLock i = 1 → shared_w m) → hold b e m → granted b (Flock F_WRLCK a n) i m i' m' → hold b e m'.
Proof.
  intros Hn Hw [H1 H2 H3 H4] Hg. destruct b; [by apply hold_w_any, (granted_process _ _ _ _ _ Hw Hg)|]. destruct Hg as [-> ->].
  split; intros; try intros x Hx; rewrite setl_at by done; case_decide; try done; auto; (by apply H1) || by apply H4.
Qed.

Lemma hold_shared b i m i' m' : (bProcessLock i = 1 → shared_w m) → granted b (Flock F_RDLCK SHARED_FIRST SHARED_SIZE) i m i' m' → hold b SHARED_LOCK m'.
Proof.
  intros Hw Hg. destruct b; [by apply hold_w_any, (granted_process _ _ _ _ _ Hw Hg)|]. destruct Hg as [-> ->].
  split; [|lk..]. intros _ x Hx. rewrite setl_at by lk. case_decide as Hd; [done|]. destruct Hd. exact Hx.
Qed.

Lemma hold_reserved b i m i' m' : (bProcessLock i = 1 → shared_w m) → hold b SHARED_LOCK m → granted b (Flock F_WRLCK RESERVED_BYTE 1) i m i' m' → hold b RESERVED_LOCK m'.
Proof.
  intros Hw H Hg. pose proof (hold_raise b _ _ 1 _ _ _ _ ltac:(lia) Hw H Hg) as [K1 _ _ _]. destruct b; [by apply hold_w_any, (granted_process _ _ _ _ _ Hw Hg)|]. destruct Hg as [-> ->].
  split; [|intros _ _; rewrite setl_at by lia; by rewrite decide_True by lia|lk..]. intros _. by apply K1.
Qed.

Lemma hold_pending b e i m i' m' : (bProcessLock i = 1 → shared_w m) → hold b e m → SHARED_LOCK ≤ e → granted b (Flock F_WRLCK PENDING_BYTE 1) i m i' m' → hold b PENDING_LOCK m'.
Proof.
  intros Hw H He Hg. pose proof (hold_raise b _ _ 1 _ _ _ _ ltac:(lia) Hw H Hg) as [K1 _ _ _]. destruct b; [by apply hold_w_any, (granted_process _ _ _ _ _ Hw Hg)|]. destruct Hg as [-> ->].
  split; [intros _; by apply K1|lk|intros _ _; rewrite setl_at by lia; by rewrite decide_True by lia|lk].
Qed.

Lemma hold_exclusive b i m i' m' : (bProcessLock i = 1 → shared_w m) → hold b PENDING_LOCK m → granted b (Flock F_WRLCK SHARED_FIRST SHARED_SIZE) i m i' m' → hold b EXCLUSIVE_LOCK m'.
Proof.
  intros Hw H Hg. pose proof (hold_raise b _ _ SHARED_SIZE _ _ _ _ ltac:(lk) Hw H Hg) as [K1 _ K3 _]. destruct b; [by apply hold_w_any, (granted_process _ _ _ _ _ Hw Hg)|]. destruct Hg as [-> ->].
  split; [intros _; apply K1; lk|lk|intros _; apply K3; lk|]. intros _ x Hx. rewrite setl_at by lk. case_decide as Hd; [done|]. destruct Hd. exact Hx.
Qed.

(** Releasing the pending and the reserved byte keeps the shared range. *)
Lemma hold_release b e n i m i' m' : 0 < n ≤ 2 → (bProcessLock i = 1 → shared_w m) → hold b e m → SHARED_LOCK ≤ e → granted b (Flock F_UNLCK PENDING_BYTE n) i m i' m' → hold b SHARED_LOCK m'.
Proof.
  intros Hn Hw [H1 _ _ _] He Hg. destruct b; [by apply hold_w_any, (granted_process _ _ _ _ _ Hw Hg)|]. destruct Hg as [-> ->].
  split; [|lk..]. intros _ x Hx. rewrite setl_at by lk. rewrite decide_False by (unfold shared_byte in Hx; lk). by apply H1.
Qed.

Lemma hold_none b m : hold b NO_LOCK m.
Proof. split; lk. Qed.

(** ** Locking *)

Lemma posix_error_nz e : sqliteErrorFromPosixError e SQLITE_IOERR_LOCK ≠ SQLITE_OK.
Proof.
  unfold sqliteErrorFromPosixError. repeat (match goal with |- (if ?c then _ else _) ≠ _ => destruct c end); done.
Qed.

Lemma wp_lock_error id f e Q i fs m : fs !! id = Some f →
  (∀ rc f', rc ≠ SQLITE_OK → same_file f f' → eFileLock f' = eFileLock f → Q (rc, Proc i (<[id := f']> fs)) m) →
  wp T I ok Q (lock_error id e (Proc i fs)) m.
Proof.
  intros E H. unfold lock_error. destruct (negb _).
  - apply (wp_mod_file id f); [done|]. apply H; [apply posix_error_nz|eauto with sesq|done].
  - rewrite <- (insert_id fs id f E) at 1. apply H; [apply posix_error_nz|eauto with sesq|done].
Qed.

Lemma wp_lock_write b id f l Q i fs m : fs !! id = Some f → mode b f → counts b i → I m → eFileLock f ≠ NO_LOCK → l = RESERVED_LOCK ∨ l = EXCLUSIVE_LOCK →
  (∀ i' m', granted b (if l =? RESERVED_LOCK then Flock F_WRLCK RESERVED_BYTE 1 else Flock F_WRLCK SHARED_FIRST SHARED_SIZE) i m i' m' →
     I m' ∧ Q (SQLITE_OK, Proc (Some i') fs) m') →
  (∀ rc f', rc ≠ SQLITE_OK → same_file f f' → eFileLock f' = eFileLock f → Q (rc, Proc (Some i) (<[id := f']> fs)) m) →
  wp T I ok Q (lock_write id l (Proc (Some i) fs)) m.
Proof.
  intros E Hmode Hc Hm Hf Hl Hg Hr. unfold lock_write. apply (wp_get_file id f); [done|].
  apply wp_assert; [unfold_locks; by apply negb_true_iff, Z.eqb_neq|]. apply wp_assert; [destruct Hl as [-> | ->]; done|].
  apply (wp_filelock b id f); [done|done|done|done| |].
  - intros v i' m' G. by apply Hg.
  - intros e _. by apply (wp_lock_error id f).
Qed.

(** From here on [None] means that the lock of the pending byte was granted or not needed. *)
Lemma wp_lock_pending b id f l Q i fs m : fs !! id = Some f → mode b f → counts b i → I m →
  (l ≠ SHARED_LOCK → l ≠ EXCLUSIVE_LOCK ∨ PENDING_LOCK ≤ eFileLock f → Q (None, Proc (Some i) fs) m) →
  (∀ i' m', l = SHARED_LOCK ∨ l = EXCLUSIVE_LOCK ∧ eFileLock f < PENDING_LOCK → granted b (Flock (if l =? SHARED_LOCK then F_RDLCK else F_WRLCK) PENDING_BYTE 1) i m i' m' →
     I m' ∧ Q (None, Proc (Some i') fs) m') →
  (∀ rc f', rc ≠ SQLITE_OK → same_file f f' → eFileLock f' = eFileLock f → Q (Some rc, Proc (Some i) (<[id := f']> fs)) m) →
  wp T I ok Q (lock_pending id l (Proc (Some i) fs)) m.
Proof.
  intros E Hmode Hc Hm Hn Hg Hr. unfold lock_pending. apply (wp_get_file id f); [done|].
  destruct (Z.eqb_spec l SHARED_LOCK) as [Hs|Hs], (Z.eqb_spec l EXCLUSIVE_LOCK) as [He|He], (Z.ltb_spec (eFileLock f) PENDING_LOCK) as [Hp|Hp]; cbn [orb andb];
    try (apply Hn; [done|auto]); (apply (wp_filelock b id f); [done|done|done|done|intros v i' m' G; by apply Hg; auto|]);
    intros e _; cbn [fst snd Z.eqb negb]; apply wp_bind, (wp_lock_error id f); try done; intros rc f' H1 H2 H3; by apply Hr.
Qed.

Lemma wp_lock_shared b id f Q i fs m : fs !! id = Some f → mode b f → counts b i → (∀ m', I m') → (bProcessLock i = 1 → shared_w m) →
  nShared i = 0 → i_eFileLock i = NO_LOCK →
  (∀ i' m', counts b i' → same_inode i i' → (b = true → bProcessLock i' = 1) → (bProcessLock i' = 1 → shared_w m') → hold b SHARED_LOCK m' →
     Q (SQLITE_OK, Proc (Some (i_share 1 (nLock i' + 1) i')) (<[id := set_eFileLock SHARED_LOCK f]> fs)) m') →
  (∀ rc f' i' m', rc ≠ SQLITE_OK → same_file f f' → eFileLock f' = eFileLock f → counts b i' → same_inode i i' → (bProcessLock i' = 1 → shared_w m') →
     Q (rc, Proc (Some i') (<[id := f']> fs)) m') →
  wp T I ok Q (lock_shared id (Proc (Some i) fs)) m.
Proof.
  intros E Hmode Hc Hm Hw Hn He Hg Hr. unfold lock_shared. apply (wp_get_inode i); [done|]. apply wp_assert; [by apply Z.eqb_eq|]. apply wp_assert; [by apply Z.eqb_eq|].
  (* a failure after the second call *)
  assert (∀ rc e i' m', rc ≠ SQLITE_OK → counts b i' → same_inode i i' → (bProcessLock i' = 1 → shared_w m') →
    wp T I ok Q ((_ ← (if negb (rc =? SQLITE_BUSY) then mod_file id (set_lastErrno e) else mret ()); mret rc) (Proc (Some i') fs)) m') as Hfail.
  { intros rc e i' m' Hrc C S W. destruct (negb _).
    - apply (wp_mod_file id f); [done|]. apply Hr; (done || eauto with sesq).
    - apply wp_bind. cbn. rewrite <- (insert_id fs id f E) at 1. apply Hr; (done || eauto with sesq). }
  apply (wp_filelock b id f); [done|done|done|done| |].
  - intros v i1 m1 G1. split; [done|]. cbn [fst snd Z.eqb]. pose proof (granted_counts _ _ _ _ _ _ Hc G1) as C1. pose proof (granted_wsh _ _ _ _ _ _ Hc Hw G1) as W1. pose proof (granted_same _ _ _ _ _ _ G1) as S1.
    apply (wp_filelock b id f); [done|done|done|done| |].
    + intros v' i2 m2 G2. split; [done|]. cbn [fst snd Z.eqb negb andb]. pose proof (granted_counts _ _ _ _ _ _ C1 G2) as C2. pose proof (granted_wsh _ _ _ _ _ _ C1 W1 G2) as W2.
      apply (wp_mod_file id f); [done|]. apply Hg; [done|eapply same_inode_trans, granted_same; [done|exact G2]| |done|].
      * intros ->. by apply (granted_process _ _ _ _ _ W1 G2).
      * eapply hold_release; [|exact W1| |reflexivity|exact G2]; [lia|]. exact (hold_shared _ _ _ _ _ Hw G1).
    + intros e _. cbn [fst snd Z.eqb negb andb]. by apply Hfail.
  - intros e _. pose proof (posix_error_nz e) as Hz. pose proof (proj2 (Z.eqb_neq _ _) Hz) as Hz'. assert ((sqliteErrorFromPosixError e SQLITE_IOERR_LOCK =? 0) = false) as Hz0 by exact Hz'. cbn [fst snd Z.eqb]. change (-1 =? 0) with false. cbn iota.
    apply (wp_filelock b id f); [done|done|done|done| |].
    + intros v' i2 m2 G2. split; [done|]. cbn [fst snd Z.eqb negb andb]. rewrite Hz0. cbn [negb].
      apply Hfail; [done|by eapply granted_counts|by eapply granted_same|by eapply granted_wsh].
    + intros e' _. cbn [fst snd]. rewrite Hz', andb_false_r, Hz0. cbn [negb]. apply Hfail; auto using same_inode_refl.
Qed.

(** [unixLock] after the pending byte, for RESERVED and EXCLUSIVE. *)
Lemma wp_lock_rest b id f l Q i fs m i1 m1 : inode_ok b fs i m → fs !! id = Some f → (∀ m', hold b (i_eFileLock i) m' → I m') →
  (∀ rc i' f' m', inode_ok b (<[id := f']> fs) i' m' → Q (rc, Proc (Some i') (<[id := f']> fs)) m') →
  l = RESERVED_LOCK ∧ eFileLock f = SHARED_LOCK ∨ l = EXCLUSIVE_LOCK ∧ SHARED_LOCK ≤ eFileLock f < EXCLUSIVE_LOCK → eFileLock f = i_eFileLock i →
  counts b i1 → same_inode i i1 → hold b (i_eFileLock i) m1 → (l = EXCLUSIVE_LOCK → hold b PENDING_LOCK m1) → (bProcessLock i1 = 1 → shared_w m1) →
  wp T I ok Q ((rc ← (if (l =? EXCLUSIVE_LOCK) && (1 <? nShared i1) then mret SQLITE_BUSY else lock_write id l);
    _ ← (if rc =? SQLITE_OK then _ ← mod_file id (set_eFileLock l); mod_inode (i_level l)
         else if l =? EXCLUSIVE_LOCK then _ ← mod_file id (set_eFileLock PENDING_LOCK); mod_inode (i_level PENDING_LOCK) else mret ());
    mret rc) (Proc (Some i1) fs)) m1.
Proof.
  intros Hok E HI HQ Hl He C1 S1 H1 H3 W1. pose proof (io_files _ _ _ _ Hok id f E) as [F1 F2 F3 F4]. pose proof Hok as [_ _ C _ _ Ho _ _].
  assert (∀ j g, j ≠ id → fs !! j = Some g → ¬ SHARED_LOCK < eFileLock g) as Hothers.
  { intros j g Hj Eg Hg. pose proof (fo_level _ _ _ (io_files _ _ _ _ Hok j g Eg) Hg). apply Hj. apply (Ho j id g f); [done|done|done|congruence]. }
  assert (1 ≤ nShared i1) as Hn. { rewrite (si_shared _ _ S1). pose proof (ct_shared _ _ C). destruct (decide (nShared i = 0)) as [Hz|Hz]; [apply (ct_none _ _ C) in Hz; lk|lia]. }
  assert (locked f = true) as Hlf by (unfold locked; apply Z.leb_le; lk).
  (* the levels after a lock was granted or after EXCLUSIVE was not *)
  assert (∀ rc e f' i2 m2, RESERVED_LOCK ≤ e ≤ EXCLUSIVE_LOCK → (e = EXCLUSIVE_LOCK → nShared i2 = 1) → same_file f f' → counts b i2 → same_inode i i2 → hold b e m2 → (bProcessLock i2 = 1 → shared_w m2) →
    Q (rc, Proc (Some (i_level e i2)) (<[id := set_eFileLock e f']> fs)) m2) as Hset.
  { intros rc e f' i2 m2 Hr Hx Sf C2 S2 Hh W2. apply HQ. eapply (inode_ok_update _ _ i m id f); [done|done|by eapply same_file_trans; [|apply same_file_level]| |apply S2|cbn; lk|done| |by intros j g Hj Eg Hg; destruct (Hothers j g Hj Eg)|done|done].
    - destruct C2 as [D1 D2 D3 D4 D5 D6 D7 D8]. split; cbn; try done; [|lk]. rewrite (si_shared _ _ S2), <- (si_shared _ _ S1). lk.
    - cbn [nShared i_level]. rewrite Hlf, (si_shared _ _ S2). destruct (locked (set_eFileLock e f')); lia. }
  assert (∀ rc f', rc ≠ SQLITE_OK → same_file f f' → eFileLock f' = eFileLock f →
    wp T I ok Q ((_ ← (if rc =? SQLITE_OK then _ ← mod_file id (set_eFileLock l); mod_inode (i_level l)
      else if l =? EXCLUSIVE_LOCK then _ ← mod_file id (set_eFileLock PENDING_LOCK); mod_inode (i_level PENDING_LOCK) else mret ());
      mret rc) (Proc (Some i1) (<[id := f']> fs))) m1) as Hfail.
  { intros rc f' Hrc Sf Ef. rewrite (proj2 (Z.eqb_neq _ _) Hrc). apply wp_bind. destruct Hl as [[-> Hf]|[-> Hf]].
    - apply HQ. eapply (inode_ok_update _ _ i m id f); [done|done|done|done|apply S1|by rewrite Ef|rewrite Ef, (si_level _ _ S1); lk|unfold locked; rewrite Ef, (si_shared _ _ S1); lia|by intros j g Hj Eg Hg; destruct (Hothers j g Hj Eg)|by rewrite (si_level _ _ S1)|done].
    - change (EXCLUSIVE_LOCK =? EXCLUSIVE_LOCK) with true. cbn iota. apply (wp_mod_file id f'); [apply lookup_insert_eq|]. rewrite insert_insert_eq. apply Hset; try done; by apply H3. }
  apply wp_bind. destruct ((l =? EXCLUSIVE_LOCK) && (1 <? nShared i1)) eqn:Hbusy.
  - cbn. pose proof (Hfail SQLITE_BUSY f ltac:(done) (same_file_refl f) eq_refl) as H. by rewrite (insert_id fs id f E) in H.
  - apply (wp_lock_write b id f); [done|done|done|by apply HI|lk|destruct Hl as [[-> _]|[-> _]]; auto| |].
    + intros i2 m2 G. assert (hold b (i_eFileLock i) m2) as Hh by (destruct (l =? RESERVED_LOCK); eapply hold_raise; try exact G; done). split; [by apply HI|]. cbn [fst snd]. change (SQLITE_OK =? SQLITE_OK) with true. cbn iota.
      apply wp_bind, (wp_mod_file id f); [done|]. apply Hset; [destruct Hl as [[-> _]|[-> _]]; lk| |done|exact (granted_counts _ _ _ _ _ _ C1 G)|exact (same_inode_trans _ _ _ S1 (granted_same _ _ _ _ _ _ G))| |exact (granted_wsh _ _ _ _ _ _ C1 W1 G)].
      * intros ->. cbn in Hbusy. apply Z.ltb_ge in Hbusy. rewrite (si_shared _ _ (granted_same _ _ _ _ _ _ G)). lia.
      * destruct Hl as [[-> Hf]|[-> Hf]]; [eapply hold_reserved; [exact W1| |exact G]; by rewrite <- Hf, He|eapply hold_exclusive; [exact W1|by apply H3|exact G]].
    + intros rc f' Hrc Sf Ef. by apply Hfail.
Qed.

Lemma wp_unixLock b id f l Q i fs m : inode_ok b fs i m → fs !! id = Some f → requests f l → (∀ m', hold b (i_eFileLock i) m' → I m') →
  (∀ rc i' f' m', inode_ok b (<[id := f']> fs) i' m' → Q (rc, Proc (Some i') (<[id := f']> fs)) m') →
  wp T I ok Q (unixLock id l (Proc (Some i) fs)) m.
Proof.
  intros Hok E Hreq HI HQ. pose proof (io_files _ _ _ _ Hok id f E) as [F1 F2 F3 F4]. pose proof Hok as [_ Hr C Hn Hf Ho Hh Hw].
  pose proof (insert_id fs id f E) as Eid. assert (∀ rc, Q (rc, Proc (Some i) fs) m) as Hstay by (intros rc; rewrite <- Eid; apply HQ; by rewrite Eid).
  unfold unixLock. apply (wp_get_file id f); [done|]. destruct (Z.leb_spec l (eFileLock f)) as [Hle|Hlt]; [apply Hstay|].
  assert (l = SHARED_LOCK ∧ eFileLock f = NO_LOCK ∨ l = RESERVED_LOCK ∧ eFileLock f = SHARED_LOCK ∨ l = EXCLUSIVE_LOCK ∧ SHARED_LOCK ≤ eFileLock f < EXCLUSIVE_LOCK) as Hreq' by (unfold requests in Hreq; lk).
  apply wp_assert; [destruct Hreq' as [[-> _]|[[_ ->]|[-> Hs]]]; [apply orb_true_r|done|]; rewrite (proj2 (Z.eqb_neq _ _)) by lk; done|].
  apply wp_assert; [destruct Hreq' as [[-> _]|[[-> _]|[-> _]]]; done|]. apply wp_assert; [destruct Hreq' as [[-> _]|[[_ ->]|[-> _]]]; [done|apply orb_true_r|done]|].
  apply (wp_get_inode i); [done|]. destruct (negb (eFileLock f =? i_eFileLock i) && _) eqn:Hbusy; [apply Hstay|].
  destruct ((l =? SHARED_LOCK) && _) eqn:Hshare.
  - apply andb_prop in Hshare as [->%Z.eqb_eq Hs]. assert (eFileLock f = NO_LOCK) as Hz by lk. assert (i_eFileLock i = SHARED_LOCK ∨ i_eFileLock i = RESERVED_LOCK) as Hs' by (apply orb_prop in Hs as [Hs%Z.eqb_eq|Hs%Z.eqb_eq]; auto).
    assert (0 < nShared i) as Hp. { pose proof (ct_shared _ _ C). destruct (decide (nShared i = 0)) as [Hx|Hx]; [apply (ct_none _ _ C) in Hx; lk|lia]. }
    apply wp_assert; [by apply Z.eqb_eq|]. apply wp_assert; [by apply Z.ltb_lt|]. apply (wp_mod_file id f); [done|]. apply HQ.
    eapply (inode_ok_update _ _ i m id f); [done|done|apply same_file_level| |done|cbn; lk|cbn; lk| | |done|done].
    + destruct C as [C1 C2 C3 C4 C5 C6 C7 C8]. split; cbn; try done; [lia|lia|lk|lk|]. intros Hb Hp0. specialize (C7 Hb Hp0). lia.
    + cbn. unfold locked. rewrite Hz. cbn. lia.
    + intros j g Hj Eg Hg. done.
  - destruct Hreq' as [[-> Hz]|Hreq'].
    + assert (i_eFileLock i = NO_LOCK) as He.
      { rewrite Hz in Hbusy. change (SHARED_LOCK =? SHARED_LOCK) with true in Hshare. pose proof (ct_range _ _ C). destruct (Z.eqb_spec (i_eFileLock i) SHARED_LOCK), (Z.eqb_spec (i_eFileLock i) RESERVED_LOCK); try done.
        destruct (Z.eqb_spec NO_LOCK (i_eFileLock i)); [done|]. destruct (Z.leb_spec PENDING_LOCK (i_eFileLock i)); [done|lk]. }
      assert (∀ m', I m') as HI' by (intros m'; apply HI; rewrite He; apply hold_none). pose proof (proj1 (ct_none _ _ C) He) as Hn0.
      assert (∀ rc f' i' m', same_file f f' → eFileLock f' = eFileLock f → counts b i' → same_inode i i' → (bProcessLock i' = 1 → shared_w m') → Q (rc, Proc (Some i') (<[id := f']> fs)) m') as Hfail.
      { intros rc f' i' m' Sf Ef C' S' W'. apply HQ. eapply (inode_ok_update _ _ i m id f); [done|done|done|done|apply S'|by rewrite Ef|rewrite Ef; lk|unfold locked; rewrite Ef, (si_shared _ _ S'); lia| |rewrite (si_level _ _ S'), He; apply hold_none|done].
        intros j g Hj Eg Hg. pose proof (fo_level _ _ _ (Hf j g Eg) Hg). lk. }
      apply wp_bind, (wp_lock_pending b id f); [done|done|done|done|by intros []| |].
      * intros i1 m1 _ G1. split; [done|]. pose proof (granted_counts _ _ _ _ _ _ C G1) as C1. pose proof (granted_wsh _ _ _ _ _ _ C Hw G1) as W1. pose proof (granted_same _ _ _ _ _ _ G1) as S1.
        apply (wp_get_inode i1); [done|]. change (SHARED_LOCK =? SHARED_LOCK) with true. cbn iota.
        apply wp_bind, (wp_lock_shared b id f); [done|done|done|done|done|by rewrite (si_shared _ _ S1)|by rewrite (si_level _ _ S1)| |].
        -- intros i2 m2 C2 S2 Hb W2 H2. change (SQLITE_OK =? SQLITE_OK) with true. cbn iota. apply wp_bind, (wp_mod_file id (set_eFileLock SHARED_LOCK f)); [apply lookup_insert_eq|]. rewrite insert_insert_eq.
           apply HQ. eapply (inode_ok_update _ _ i m id f); [done|done|by split| |exact (si_ref _ _ (same_inode_trans _ _ _ S1 S2))|cbn; lk|cbn; lk| | |done|done].
           ++ destruct C2 as [D1 D2 D3 D4 D5 D6 D7 D8]. split; cbn; try done; [|intros Hx Hy; pose proof (Hb Hx); lia]. rewrite D3, (si_shared _ _ (same_inode_trans _ _ _ S1 S2)). lia.
           ++ cbn. unfold locked. rewrite Hz. cbn. lia.
           ++ intros j g Hj Eg Hg. pose proof (fo_level _ _ _ (Hf j g Eg) Hg). lk.
        -- intros rc f' i2 m2 Hrc Sf Ef C2 S2 W2. cbn [fst snd]. rewrite (proj2 (Z.eqb_neq _ _) Hrc). cbn iota. apply wp_bind. change (SHARED_LOCK =? EXCLUSIVE_LOCK) with false. cbn iota. apply Hfail; [done|done|done|by eapply same_inode_trans|done].
      * intros rc f' Hrc Sf Ef. by apply Hfail.
    + assert (eFileLock f = i_eFileLock i) as He.
      { destruct (Z.eqb_spec (eFileLock f) (i_eFileLock i)); [done|]. cbn [negb andb] in Hbusy. rewrite (proj2 (Z.ltb_lt SHARED_LOCK l)), orb_true_r in Hbusy by (destruct Hreq' as [[-> _]|[-> _]]; lk). done. }
      assert (l ≠ SHARED_LOCK) as Hl1 by (destruct Hreq' as [[-> _]|[-> _]]; done).
      apply wp_bind, (wp_lock_pending b id f); [done|done|done|by apply HI| | |].
      * intros _ Hnp. apply (wp_get_inode i); [done|]. cbn [fst snd]. rewrite (proj2 (Z.eqb_neq _ _) Hl1).
        apply (wp_lock_rest b id f l Q i fs m i m); try done. intros ->. destruct Hnp as [Hnp|Hnp]; [done|]. pose proof (hold_r b _ m Hh) as Hh1. pose proof (hold_pend b _ m Hh) as Hh3.
        split; [intros _; apply Hh1; lk|lk|intros _; apply Hh3; lk|lk].
      * intros i1 m1 Hx G1. destruct Hx as [Hx|[-> Hx]]; [done|]. change (EXCLUSIVE_LOCK =? SHARED_LOCK) with false in *. cbn iota in G1.
        assert (hold b (i_eFileLock i) m1) as H1 by (eapply hold_raise; [|exact Hw|exact Hh|exact G1]; lk). split; [by apply HI|]. apply (wp_get_inode i1); [done|]. cbn [fst snd]. cbn iota.
        apply (wp_lock_rest b id f EXCLUSIVE_LOCK Q i fs m i1 m1); try done; [exact (granted_counts _ _ _ _ _ _ C G1)|exact (granted_same _ _ _ _ _ _ G1)| |exact (granted_wsh _ _ _ _ _ _ C Hw G1)].
        intros _. eapply hold_pending; [exact Hw|exact Hh| |exact G1]. lk.
      * intros rc f' Hrc Sf Ef. apply HQ. by eapply inode_ok_same.
Qed.

(** ** Unlocking *)

Lemma wp_close_list l Q s m : I m → (l ≠ [] → I no_locks) → (∀ m', m' = m ∨ m' = no_locks → Q ((), s) m') → wp T I ok Q (close_list l s) m.
Proof.
  revert m. induction l as [|p l IH]; intros m Hm Hn HQ; cbn [close_list]; [apply HQ; auto|]. specialize (Hn ltac:(done)).
  apply wp_bind. unfold robust_close. apply wp_close; [done|done|]. intros x m' Hm'. cbn. apply IH; [destruct Hm'; by subst|done|]. intros m2 H2. apply HQ. destruct Hm', H2; subst; auto.
Qed.

Lemma wp_closePendingFds Q i fs m : (∀ m', I m') → (∀ m', Q ((), Proc (Some (i_unused [] i)) fs) m') → wp T I ok Q (closePendingFds (Proc (Some i) fs)) m.
Proof. intros HI HQ. unfold closePendingFds. apply (wp_get_inode i); [done|]. apply wp_bind, wp_close_list; [done|done|]. intros m' _. apply HQ. Qed.

(** A process with a lock has its process lock already, if it uses one. *)
Lemma granted_locked b l i m i' m' : counts b i → 1 ≤ nShared i → granted b l i m i' m' → i' = i.
Proof.
  intros C Hn. unfold granted. destruct b; [|by intros [-> _]]. intros [(_ & -> & _)|(Hb & _)]; [done|]. pose proof (ct_mode _ _ C eq_refl Hb). lia.
Qed.

Lemma refused_locked b l i e : counts b i → 1 ≤ nShared i → refused b l i e → ok (SETLK l) (-1, e).
Proof. intros C Hn. unfold refused. destruct b; [|done]. intros Hb. pose proof (ct_mode _ _ C eq_refl Hb). lia. Qed.

Lemma wp_unlock_write b id f l Q i fs m : fs !! id = Some f → mode b f → counts b i → 1 ≤ nShared i → hold b (i_eFileLock i) m → (bProcessLock i = 1 → shared_w m) →
  SHARED_LOCK < eFileLock f → eFileLock f = i_eFileLock i → I m → (∀ m', hold b SHARED_LOCK m' → I m') →
  (l = SHARED_LOCK → ∀ e, ¬ ok (SETLK (Flock F_UNLCK PENDING_BYTE 2)) (-1, e)) →
  (∀ m', hold b SHARED_LOCK m' → (bProcessLock i = 1 → shared_w m') → Q (None, Proc (Some (i_level SHARED_LOCK i)) fs) m') →
  (∀ rc f', rc ≠ SQLITE_OK → same_file f f' → eFileLock f' = eFileLock f → Q (Some rc, Proc (Some i) (<[id := f']> fs)) m) →
  wp T I ok Q (unlock_write id l (Proc (Some i) fs)) m.
Proof.
  intros E Hmode C Hn Hh Hw Hf He Hm HI Hok Hg Hr. unfold unlock_write. apply (wp_get_file id f); [done|]. apply (wp_get_inode i); [done|]. apply wp_assert; [by apply Z.eqb_eq|].
  assert (∀ m1 e, hold b e m1 → SHARED_LOCK ≤ e → I m1 → (bProcessLock i = 1 → shared_w m1) → (l = SHARED_LOCK ∨ m1 = m) →
    wp T I ok Q ((y ← unixFileLock id (Flock F_UNLCK PENDING_BYTE 2); if y.1 =? 0 then _ ← mod_inode (i_level SHARED_LOCK); mret None else _ ← mod_file id (set_lastErrno y.2); mret (Some SQLITE_IOERR_UNLOCK)) (Proc (Some i) fs)) m1) as Hun.
  { intros m1 e Hh1 He1 Hm1 Hw1 Hor. apply (wp_filelock b id f); [done|done|done|done| |].
    - intros v i' m' G. pose proof (granted_locked _ _ _ _ _ _ C Hn G) as ->. assert (hold b SHARED_LOCK m') as Hh' by (eapply hold_release; [|exact Hw1|exact Hh1|done|exact G]; lia).
      split; [by apply HI|]. cbn [fst snd Z.eqb]. apply wp_mod_inode. apply Hg; [done|]. exact (granted_wsh _ _ _ _ _ _ C Hw1 G).
    - intros x Hx%(refused_locked _ _ _ _ C Hn). destruct Hor as [Hl| ->]; [by destruct (Hok Hl x)|]. cbn [fst snd]. change (-1 =? 0) with false. cbn iota. apply (wp_mod_file id f); [done|]. by apply Hr. }
  destruct (Z.eqb_spec l SHARED_LOCK) as [Hl|Hl]; [|apply (Hun m _ Hh); [lk|done|done|by right]].
  apply (wp_filelock b id f); [done|done|done|done| |].
  - intros v i' m' G. pose proof (granted_locked _ _ _ _ _ _ C Hn G) as ->. assert (hold b SHARED_LOCK m') as Hh' by exact (hold_shared _ _ _ _ _ Hw G). split; [by apply HI|].
    apply (Hun m' _ Hh'); [done|by apply HI|exact (granted_wsh _ _ _ _ _ _ C Hw G)|by left].
  - intros x _. apply (wp_mod_file id f); [done|]. by apply Hr.
Qed.

Lemma wp_unlock_shared b id f Q i fs m : fs !! id = Some f → mode b f → counts b i → 1 ≤ nShared i → (bProcessLock i = 1 → shared_w m) → I m → (nShared i = 1 → ∀ m', I m') →
  (∀ rc f' i' m', same_file f f' → rc = SQLITE_OK ∧ f' = f ∨ rc ≠ SQLITE_OK ∧ eFileLock f' = NO_LOCK → nShared i' = nShared i - 1 → nRef i' = nRef i → counts b i' →
     (nShared i' ≠ 0 → i_eFileLock i' = i_eFileLock i ∧ m' = m) → (bProcessLock i' = 1 → shared_w m') → Q (rc, Proc (Some i') (<[id := f']> fs)) m') →
  wp T I ok Q (unlock_shared id (Proc (Some i) fs)) m.
Proof.
  intros E Hmode C Hn Hw Hm HI HQ. unfold unlock_shared. apply wp_mod_inode. apply (wp_get_inode (i_share (nShared i - 1) (nLock i) i)); [done|]. cbn [nShared i_share].
  pose proof C as [C1 C2 C3 C4 C5 C6 C7 C8].
  destruct (Z.eqb_spec (nShared i - 1) 0) as [Hz|Hz].
  - assert (∀ rc f' m', same_file f f' → rc = SQLITE_OK ∧ f' = f ∨ rc ≠ SQLITE_OK ∧ eFileLock f' = NO_LOCK → (bProcessLock i = 1 → shared_w m') →
      wp T I ok Q ((_ ← mod_inode (λ i, i_share (nShared i) (nLock i - 1) i); pInode ← get_inode; _ ← os_assert (0 <=? nLock pInode);
        _ ← (if nLock pInode =? 0 then closePendingFds else mret ()); mret rc) (Proc (Some (i_level NO_LOCK (i_share (nShared i - 1) (nLock i) i))) (<[id := f']> fs))) m') as Hend.
    { intros rc f' m' Sf Hrc Hw'. apply wp_mod_inode. eapply wp_get_inode; [done|]. cbn [nLock nShared i_share i_level]. apply wp_assert; [apply Z.leb_le; destruct C1 as [?|[_ ?]]; lia|].
      assert (∀ u, Forall (λ u, 0 ≤ fd u) u → counts b (UnixInodeInfo (nShared i - 1) NO_LOCK (bProcessLock i) (nRef i) (nLock i - 1) u)) as Cu by (intros u Hu; split; cbn; try done; (lia || lk)).
      destruct (Z.eqb_spec (nLock i - 1) 0) as [Hl|Hl].
      - apply wp_bind, wp_closePendingFds; [by apply HI; lia|]. intros m2. apply HQ; cbn; try done; [by apply Cu|lia].
      - apply HQ; cbn; try done. by apply Cu. }
    apply wp_bind. apply (wp_filelock_any b id f); [done|done|done| |done| |].
    { cbn. intros Hb Hp. specialize (C7 Hb Hp). lia. }
    + intros v i' m' G. assert (i' = i_share (nShared i - 1) (nLock i) i) as ->.
      { destruct b; [|by destruct G as [-> _]]. destruct G as [(_ & -> & _)|(Hp & _)]; [done|]. specialize (C7 eq_refl Hp). lia. }
      split; [by apply HI; lia|]. cbn [fst snd Z.eqb]. apply wp_mod_inode. cbn. pose proof (Hend SQLITE_OK f m' (same_file_refl f) ltac:(by left)) as H. rewrite (insert_id fs id f E) in H. apply H.
      intros Hp. destruct C1 as [?|[-> _]]; [lia|]. exact (proj2 (granted_process _ (i_share (nShared i - 1) (nLock i) i) m _ m' Hw G)).
    + intros e _. cbn [fst snd]. change (-1 =? 0) with false. cbn iota. apply (wp_mod_file id f); [done|]. apply wp_mod_inode. apply Hend; [by split|by right|done].
  - apply wp_bind. cbn [wp mret os_ret fst snd]. pose proof (HQ SQLITE_OK f (i_share (nShared i - 1) (nLock i - 1) i) m (same_file_refl f) ltac:(by left) eq_refl eq_refl) as H. rewrite (insert_id fs id f E) in H.
    assert (nLock i - 1 ≠ 0 ∧ 0 ≤ nLock i - 1) as [Hl Hl'] by (destruct C1 as [?|[_ ?]]; lia). apply wp_mod_inode. eapply wp_get_inode; [done|].
    apply wp_assert; [by apply Z.leb_le|]. cbn [nLock i_share]. rewrite (proj2 (Z.eqb_neq _ _) Hl). apply H; [|done|done].
    split; cbn; try done; try lia. intros Hb Hp. specialize (C7 Hb Hp). lia.
Qed.

(** The lock that is left: [I] has to hold of it while others are unlocked. *)
Lemma wp_posixUnlock b id f l Q i fs m : inode_ok b fs i m → fs !! id = Some f → l = NO_LOCK ∨ l = SHARED_LOCK → I m →
  (SHARED_LOCK < eFileLock f → ∀ m', hold b SHARED_LOCK m' → I m') → (l = NO_LOCK → SHARED_LOCK ≤ eFileLock f → nShared i = 1 → ∀ m', I m') →
  (l = SHARED_LOCK → ∀ e, ¬ ok (SETLK (Flock F_UNLCK PENDING_BYTE 2)) (-1, e)) →
  (∀ rc i' f' m', inode_ok b (<[id := f']> fs) i' m' → same_file f f' → Q (rc, Proc (Some i') (<[id := f']> fs)) m') →
  wp T I ok Q (posixUnlock id l (Proc (Some i) fs)) m.
Proof.
  intros Hok E Hl Hm HI1 HI0 Hun HQ. pose proof (io_files _ _ _ _ Hok id f E) as [F1 F2 F3 F4]. pose proof Hok as [_ Hr C Hn Hf Ho Hh Hw].
  unfold posixUnlock. apply wp_assert; [destruct Hl as [-> | ->]; done|]. apply (wp_get_file id f); [done|].
  destruct (Z.leb_spec (eFileLock f) l) as [Hle|Hlt]. { pose proof (insert_id fs id f E) as Eid. rewrite <- Eid. apply HQ; [by rewrite Eid|apply same_file_refl]. }
  assert (locked f = true) as Hlf by (unfold locked; apply Z.leb_le; lk). pose proof (n_locked_one _ _ _ E Hlf) as Hn1.
  apply (wp_get_inode i); [done|]. apply wp_assert; [apply negb_true_iff, Z.eqb_neq; lia|].
  assert (∀ i1 m1, counts b i1 → nShared i1 = nShared i → nRef i1 = nRef i → bProcessLock i1 = bProcessLock i → hold b (i_eFileLock i1) m1 → I m1 → (bProcessLock i1 = 1 → shared_w m1) →
    i_eFileLock i1 = SHARED_LOCK ∧ SHARED_LOCK < eFileLock f ∨ i1 = i ∧ eFileLock f = SHARED_LOCK →
    wp T I ok Q ((rc ← (if l =? NO_LOCK then unlock_shared id else mret SQLITE_OK); _ ← (if rc =? SQLITE_OK then mod_file id (set_eFileLock l) else mret ()); mret rc) (Proc (Some i1) fs)) m1) as Hrest.
  { intros i1 m1 C1 S1 R1 B1 H1 Hm1 W1 Hor.
    assert (∀ j g, j ≠ id → fs !! j = Some g → SHARED_LOCK < eFileLock g → i1 = i ∧ eFileLock f = SHARED_LOCK) as Hothers.
    { intros j g Hj Eg Hg. destruct Hor as [[_ Hs]|?]; [|done]. destruct Hj. by apply (Ho j id g f). }
    destruct Hl as [-> | ->].
    - apply wp_bind, (wp_unlock_shared b id f); [done|done|done|lia|done|done|intros Hx; apply HI0; [done|lk|lia]|].
      intros rc f' i' m' Sf Hrc Hs' Hr' C' Hst W'.
      assert (∀ f2, same_file f f2 → eFileLock f2 = NO_LOCK → Q (rc, Proc (Some i') (<[id := f2]> fs)) m') as Hfin.
      { intros f2 Sf2 Ef2. apply HQ; [|done]. eapply (inode_ok_update _ _ i m id f); [done|done|done|done|congruence|rewrite Ef2; lk|rewrite Ef2; lk| | | |done].
        - rewrite Hlf. unfold locked. rewrite Ef2. cbn. lia.
        - intros j g Hj Eg Hg. destruct (Hothers j g Hj Eg Hg) as [-> Hfs]. rewrite Ef2. split; [|lk]. apply Hst.
          pose proof (n_locked_two fs j id g f Eg E Hj ltac:(unfold locked; apply Z.leb_le; lk) Hlf). lia.
        - destruct (decide (nShared i' = 0)) as [Hz|Hz]; [rewrite (proj2 (ct_none _ _ C') Hz); apply hold_none|]. destruct (Hst Hz) as [-> ->]. done. }
      destruct Hrc as [[-> ->]|[Hrc Ef']]; cbn [fst snd].
      + change (SQLITE_OK =? SQLITE_OK) with true. cbn iota. apply (wp_mod_file id f); [apply lookup_insert_eq|]. rewrite insert_insert_eq. apply Hfin; [apply same_file_level|done].
      + rewrite (proj2 (Z.eqb_neq _ _) Hrc). by apply Hfin.
    - apply wp_bind. cbn [wp mret os_ret fst snd]. change (SQLITE_OK =? SQLITE_OK) with true. cbn iota. apply (wp_mod_file id f); [done|]. apply HQ; [|apply same_file_level]. destruct Hor as [[He Hs]|[-> Hs]]; [|lk].
      eapply (inode_ok_update _ _ i m id f); [done|done|apply same_file_level|done|congruence|cbn; lk|cbn; lk|rewrite Hlf; cbn; lia| |done|done].
      intros j g Hj Eg Hg. destruct (Hothers j g Hj Eg Hg) as [_ Hx]. lk. }
  apply wp_bind. destruct (Z.ltb_spec SHARED_LOCK (eFileLock f)) as [Hs|Hs].
  - apply (wp_unlock_write b id f); try done; [lia|by apply F2|by apply HI1| |].
    + intros m' Hh' W'. apply Hrest; try done; [|by apply HI1|by left]. destruct C as [C1 C2 C3 C4 C5 C6 C7 C8]. split; cbn; try done; lk.
    + intros rc f' Hrc Sf Ef. cbn [fst snd wp mret os_ret]. apply wp_bind. cbn [fst snd wp mret os_ret]. rewrite (proj2 (Z.eqb_neq _ _) Hrc). apply HQ; [by eapply inode_ok_same|done].
  - apply Hrest; try done. right. split; [done|]. lk.
Qed.

(** ** Closing *)

Lemma wp_verifyDbFile id f Q i fs m : fs !! id = Some f → I m →
  (∀ f', same_file f f' → eFileLock f' = eFileLock f → Q ((), Proc i (<[id := f']> fs)) m) → wp T I ok Q (verifyDbFile id (Proc i fs)) m.
Proof.
  intros E Hm HQ. unfold verifyDbFile. apply (wp_get_file id f); [done|]. pose proof (insert_id fs id f E) as Eid.
  assert (Q ((), Proc i fs) m) as Hstay by (rewrite <- Eid; apply HQ; [apply same_file_refl|done]).
  assert (wp T I ok Q (mod_file id (λ f, set_ctrlFlags (ctrlFlags f .| UNIXFILE_WARNED) f) (Proc i fs)) m) as Hwarn.
  { pose proof (wp_mod_file id f (λ f, set_ctrlFlags (ctrlFlags f .| UNIXFILE_WARNED) f) mret Q i fs m E) as H. apply H. apply HQ; [apply same_file_warned|done]. }
  destruct (negb _); [done|]. apply wp_value; [done|done|done|]. intros x _. destruct (negb _); [done|]. destruct (_ && _); [done|]. destruct (1 <? x.2); [done|].
  apply wp_value; [done|done|done|]. intros y _. destruct (_ || _); done.
Qed.

Lemma inode_ok_delete b fs i m id f i' m' : inode_ok b fs i m → fs !! id = Some f → delete id fs ≠ ∅ → counts b i' → nShared i' = nShared i → i_eFileLock i' = i_eFileLock i → nRef i' = nRef i - 1 →
  hold b (i_eFileLock i) m' → (bProcessLock i' = 1 → shared_w m') → inode_ok b (delete id fs) i' m'.
Proof.
  intros [Hs Hr Hc Hn Hf Ho Hh Hp] E Hne Hc' Hn' He' Hr' Hh' Hp'. split; [done| |done| | | |by rewrite He'|done].
  - rewrite map_size_delete_Some by eauto. assert (size fs ≠ 0%nat); [|lia]. by apply map_size_non_empty_iff.
  - rewrite (n_locked_delete fs id f E). destruct (locked f); lia.
  - intros j g [_ Eg]%lookup_delete_Some. destruct (Hf j g Eg) as [F1 F2 F3 F4]. split; [done| |done|done]. by rewrite He'.
  - intros j k g g' [_ E1]%lookup_delete_Some [_ E2]%lookup_delete_Some. by apply Ho.
Qed.

(** [releaseInodeInfo] and [closeUnixFile], when the lock of the file no longer counts: the descriptor
    waits in [pUnused] ([h] = -1), or nobody has a lock. *)
Lemma wp_release b id f f' Q i i' fs fs' m : inode_ok b fs i m → fs !! id = Some f → fs' !! id = Some f' → delete id fs' = delete id fs →
  I m → (size fs = 1%nat → ∀ m', I m') → h f' < 0 ∨ (nShared i = 0 ∧ bProcessLock i = 0 ∧ ∀ m', I m') →
  counts b i' → nShared i' = nShared i → i_eFileLock i' = i_eFileLock i → nRef i' = nRef i → bProcessLock i' = bProcessLock i →
  (∀ s' m', proc_ok s' m' → Q (SQLITE_OK, s') m') →
  wp T I ok Q ((_ ← releaseInodeInfo; closeUnixFile id) (Proc (Some i') fs')) m.
Proof.
  intros Hok E E' Ed Hm HI Hor C' Sn Se Sr Sb HQ. pose proof Hok as [Hs Hr C Hn Hf Ho Hh Hw].
  assert (size (delete id fs) = pred (size fs)) as Hsz by (apply map_size_delete_Some; eauto). assert (size fs ≠ 0%nat) as Hsz0 by (by apply map_size_non_empty_iff).
  (* closing the descriptor *)
  assert (∀ io m1, I m1 → (∀ m2, m2 = m1 ∨ (0 ≤ h f' ∧ m2 = no_locks) → proc_ok (Proc io (delete id fs)) m2) → wp T I ok Q (closeUnixFile id (Proc io fs')) m1) as Hclose.
  { intros io m1 Hm1 Hp. unfold closeUnixFile. apply (wp_get_file id f'); [done|]. apply wp_bind. destruct (Z.leb_spec 0 (h f')) as [Hh0|Hh0].
    - apply wp_close; [done|destruct Hor as [?|(_ & _ & ?)]; [lia|done]|]. intros x m2 Hm2. change (Q (SQLITE_OK, Proc io (delete id fs')) m2). rewrite Ed. apply HQ, Hp. destruct Hm2; auto.
    - change (Q (SQLITE_OK, Proc io (delete id fs')) m1). rewrite Ed. apply HQ, Hp. by left. }
  apply wp_bind. unfold releaseInodeInfo. apply wp_mod_inode. eapply wp_get_inode; [done|]. cbn [nRef i_ref]. destruct (Z.eqb_spec (nRef i' - 1) 0) as [Hz|Hz].
  - assert (∀ m', I m') as HI' by (apply HI; lia). apply wp_bind, wp_closePendingFds; [done|]. intros m1. cbn. apply Hclose; [done|]. intros m2 _. cbn. apply map_size_empty_iff. lia.
  - cbn. apply Hclose; [done|]. intros m2 Hm2. exists b. cbn. eapply (inode_ok_delete b fs i m id f); [done|done|apply map_size_non_empty_iff; lia| |done|done|cbn; lia| |].
    + destruct C' as [C1 C2 C3 C4 C5 C6 C7 C8]. by split.
    + destruct Hm2 as [->|[H0 ->]]; [done|]. destruct Hor as [?|(Hx & _ & _)]; [lia|]. rewrite (proj2 (ct_none _ _ C) Hx). apply hold_none.
    + cbn. rewrite Sb. destruct Hm2 as [->|[H0 ->]]; [done|]. destruct Hor as [?|(_ & Hx & _)]; lia.
Qed.

Lemma wp_unixClose b id f Q i fs m : inode_ok b fs i m → fs !! id = Some f → I m → (SHARED_LOCK < eFileLock f → ∀ m', hold b SHARED_LOCK m' → I m') →
  ((∀ j g, j ≠ id → fs !! j = Some g → locked g = false) → ∀ m', I m') → (∀ rc s' m', proc_ok s' m' → Q (rc, s') m') → wp T I ok Q (unixClose id (Proc (Some i) fs)) m.
Proof.
  intros Hok E Hm HI1 HI0 HQ. unfold unixClose. apply wp_bind, (wp_verifyDbFile id f); [done|done|]. intros f0 S0 E0. cbn [fst snd].
  assert (inode_ok b (<[id := f0]> fs) i m) as Hok0 by (by eapply inode_ok_same).
  apply wp_bind, wp_keep; [done|]. eapply (wp_posixUnlock b id f0); [done|apply lookup_insert_eq|by left|done|by rewrite E0| |done|].
  { intros _ Hl Hn. apply HI0. intros j g Hj Eg. destruct (locked g) eqn:Hg; [|done]. assert (locked f = true) as Hf by (unfold locked; apply Z.leb_le; lk).
    pose proof (n_locked_two fs j id g f Eg E Hj Hg Hf). pose proof (io_locked _ _ _ _ Hok). lia. }
  intros rc i1 f1 m1 Hok1 S1 Hm1. cbn [fst snd]. rewrite insert_insert_eq in *. pose proof Hok1 as [Hs Hr C Hn Hf Ho Hh Hw]. pose proof C as [C1 C2 C3 C4 C5 C6 C7 C8].
  apply (wp_get_inode i1); [done|]. apply wp_assert; [destruct C1 as [->|[_ Hp]]; [apply orb_true_r|by rewrite (proj2 (Z.ltb_lt 0 (nLock i1))) by lia]|].
  assert (size (<[id := f1]> fs) = 1%nat → ∀ m', I m') as HI.
  { intros Hsz. apply HI0. intros j g Hj Eg. exfalso. rewrite map_size_insert_Some in Hsz by done. assert (size (delete id fs) = 0%nat) as Hd by (rewrite map_size_delete_Some by eauto; lia).
    apply map_size_empty_iff in Hd. assert (delete id fs !! j = Some g) as Hx by (by rewrite lookup_delete_ne). by rewrite Hd in Hx. }
  apply wp_bind. destruct (Z.eqb_spec (nLock i1) 0) as [Hz|Hz]; cbn [negb].
  - eapply (wp_release b id f1 f1); [exact Hok1|apply lookup_insert_eq|apply lookup_insert_eq|done|done|done| |done|done|done|done|done|intros; by apply HQ].
    right. assert (nShared i1 = 0 ∧ bProcessLock i1 = 0) as [Hn0 Hb0] by (destruct C1 as [?|[_ ?]]; lia). split; [done|]. split; [done|]. apply HI0.
    intros j g Hj Eg. destruct (locked g) eqn:Hg; [|done]. pose proof (n_locked_one (<[id := f1]> fs) j g ltac:(by rewrite lookup_insert_ne) Hg). lia.
  - unfold setPendingFd. apply (wp_get_file id f1); [apply lookup_insert_eq|]. destruct (fo_unused _ _ _ (Hf id f1 (lookup_insert_eq _ _ _))) as (u & Eu & Hu).
    apply (wp_some _ _ _ _ u); [done|]. apply wp_mod_inode. pose proof (wp_mod_file id f1 (set_fd (-1) None) mret) as Hmf. apply Hmf; [apply lookup_insert_eq|]. clear Hmf. rewrite insert_insert_eq. cbn [mret os_ret wp fst snd].
    eapply (wp_release b id f1 (set_fd (-1) None f1)); [exact Hok1|apply lookup_insert_eq|apply lookup_insert_eq|by rewrite !delete_insert_eq|done|done|by left| |done|done|done|done|intros; by apply HQ].
    split; cbn; try done. by constructor.
Qed.

Lemma wp_check b id f Q i fs m : inode_ok b fs i m → fs !! id = Some f → I m →
  (∀ r f', same_file f f' → eFileLock f' = eFileLock f → Q (r, Proc (Some i) (<[id := f']> fs)) m) → wp T I ok Q (unixCheckReservedLock id (Proc (Some i) fs)) m.
Proof.
  intros Hok E Hm HQ. assert (∀ r, Q (r, Proc (Some i) fs) m) as Hstay by (intros r; rewrite <- (insert_id fs id f E); apply HQ; [apply same_file_refl|done]).
  unfold unixCheckReservedLock. apply (wp_get_file id f); [done|]. apply (wp_get_inode i); [done|]. destruct (_ <? _); [apply Hstay|]. destruct (negb _); [apply Hstay|].
  apply wp_value; [done|done|done|]. intros x _. destruct (negb _); [|apply Hstay]. apply (wp_mod_file id f); [done|]. apply HQ; [apply same_file_errno|done].
Qed.

(** ** Opening *)

(** The process before a file is added to it. *)
Definition opens (excl : bool) (id : nat) (s : proc) (m : lockmap) : Prop :=
  proc_ok s m ∧ files s !! id = None ∧ map_Forall (λ _, mode excl) (files s).

Lemma opens_mode b excl id i fs m : opens excl id (Proc (Some i) fs) m → inode_ok b fs i m → b = excl.
Proof.
  intros (_ & _ & Hm) Hok. destruct (map_choose fs (io_some _ _ _ _ Hok)) as (j & g & Eg). destruct (fo_mode _ _ _ (io_files _ _ _ _ Hok j g Eg)) as [H1 _], (Hm j g Eg) as [H2 _]. rewrite H1 in H2. by destruct b, excl.
Qed.

Lemma new_mode (excl psow ro uri : bool) : (excl = true → ro = false) → ∀ fd e u,
  mode excl (UnixFile fd e (u8 ((match ro with true => UNIXFILE_RDONLY | false => 0 end) .| (if uri then UNIXFILE_URI else 0)) .| (if psow then UNIXFILE_PSOW else 0) .| (if excl then UNIXFILE_EXCL else 0)) 0 u).
Proof. intros H fd e u. destruct excl; [rewrite H by done|destruct ro]; destruct uri, psow; by vm_compute. Qed.

Lemma wp_fillIn (excl psow : bool) id fd0 u ctrl Q s m : opens excl id s m → I m → (files s = ∅ → ∀ m', I m') → 0 ≤ fd u →
  mode excl (UnixFile fd0 0 (u8 ctrl .| (if psow then UNIXFILE_PSOW else 0) .| (if excl then UNIXFILE_EXCL else 0)) 0 (Some u)) →
  (∀ f x, ok (FSTAT f) x → x.1 = 0) → (∀ rc s' m', proc_ok s' m' → Q (rc, s') m') → wp T I ok Q (fillInUnixFile id excl psow fd0 ctrl (Some u) s) m.
Proof.
  intros Hop Hm HI Hu Hmode Hst HQ. pose proof Hop as (Hp & En & Hall). destruct s as [io fs]. cbn [files inodeList] in *. unfold fillInUnixFile. set (f := UnixFile _ _ _ _ _) in *.
  apply wp_bind. change (wp T I ok Q ((rc ← findInodeInfo id; if negb (rc =? SQLITE_OK) then _ ← robust_close fd0; _ ← os_mod (λ s, Proc (inodeList s) (delete id (files s))); mret rc
    else _ ← mod_file id (set_lastErrno 0); _ ← verifyDbFile id; mret SQLITE_OK) (Proc io (<[id := f]> fs))) m). assert ((<[id := f]> fs : gmap nat unixFile) !! id = Some f) as Ef by apply lookup_insert_eq.
  apply wp_bind. unfold findInodeInfo. apply (wp_get_file id f); [done|]. apply wp_value; [done|done|done|]. intros x Hx. rewrite (Hst _ _ Hx). cbn [Z.eqb negb].
  (* the file is part of the process *)
  assert (∀ i', inode_ok excl (<[id := f]> fs) i' m → wp T I ok Q ((_ ← mod_file id (set_lastErrno 0); _ ← verifyDbFile id; mret SQLITE_OK) (Proc (Some i') (<[id := f]> fs))) m) as Hdone.
  { intros i' Hok. apply (wp_mod_file id f); [done|]. rewrite insert_insert_eq. change (set_lastErrno 0 f) with f. apply wp_bind, (wp_verifyDbFile id f); [done|done|]. intros f' S' E'. apply HQ. exists excl. by eapply inode_ok_same. }
  destruct io as [i|].
  - destruct Hp as [b Hok]. pose proof (opens_mode _ _ _ _ _ _ Hop Hok) as ->. cbn [files inodeList] in *. apply wp_bind. change (wp T I ok Q ((_ ← mod_file id (set_lastErrno 0); _ ← verifyDbFile id; mret SQLITE_OK) (Proc (Some (i_ref (nRef i + 1) i)) (<[id := f]> fs))) m).
    apply Hdone. destruct Hok as [Hs Hr C Hn Hf Ho Hh Hw]. split; [apply insert_non_empty| | | | | |done|done].
    + rewrite map_size_insert_None by done. cbn. lia.
    + destruct C. by split.
    + rewrite n_locked_insert_new by done. cbn. lia.
    + apply map_Forall_insert; [done|]. split; [split; cbn; [lk|lk|eauto|done]|]. intros j g Eg. by destruct (Hf j g Eg); split.
    + intros j k g g'. destruct (decide (j = id)) as [->|Hj], (decide (k = id)) as [->|Hk]; rewrite ?lookup_insert_eq, ?lookup_insert_ne by done; intros E1 E2 H1 H2; [done| | |by eapply Ho].
      * injection E1 as <-. cbn in H1. lk.
      * injection E2 as <-. cbn in H2. lk.
  - cbn in Hp. assert (fs = ∅) as -> by exact Hp. apply wp_bind. cbn [wp os_get fst snd inodeList]. apply wp_value; [done|done|done|]. intros y _. destruct (Z.eqb_spec y.1 0) as [Hy|Hy]; cbn [negb].
    + apply wp_bind. change (wp T I ok Q ((_ ← mod_file id (set_lastErrno 0); _ ← verifyDbFile id; mret SQLITE_OK) (Proc (Some (UnixInodeInfo 0 0 0 1 0 [])) (<[id := f]> ∅))) m). apply Hdone.
      split; cbn; [apply insert_non_empty| | | | | |apply hold_none|done].
      * by rewrite map_size_insert_None.
      * split; cbn; try done; lk || auto.
      * by rewrite n_locked_insert_new.
      * apply map_Forall_insert; [done|]. split; [split; cbn; [lk|lk|eauto|done]|]. by apply map_Forall_empty.
      * intros j k g g' [[<- <-]|[_ ?]]%lookup_insert_Some [[<- <-]|[_ ?]]%lookup_insert_Some; done.
    + cbn [wp mret os_ret fst snd]. change (SQLITE_NOMEM =? SQLITE_OK) with false. cbn [negb]. apply wp_bind. unfold robust_close. apply wp_close; [done|by apply HI|]. intros z m' _.
      change (Q (SQLITE_NOMEM, Proc None (delete id (<[id := f]> ∅))) m'). apply HQ. cbn. by rewrite delete_insert_id.
Qed.

Lemma take_unused_ok fl l p l' : take_unused fl l = Some (p, l') → Forall (λ u, 0 ≤ fd u) l → 0 ≤ fd p ∧ Forall (λ u, 0 ≤ fd u) l'.
Proof.
  revert p l'. induction l as [|q l IH]; intros p l'; cbn; [done|]. destruct (flags q =? fl).
  - intros [= <- <-] [? ?]%list.Forall_cons. done.
  - intros Ht [Hq Hl]%list.Forall_cons. destruct (take_unused fl l) as [[r l2]|] eqn:Et; [|done]. cbn in Ht. injection Ht as <- <-. destruct (IH r l2 eq_refl Hl). split; [done|]. by constructor.
Qed.

Lemma wp_findReusableFd excl id fl Q s m : opens excl id s m → I m → (∀ u s', opens excl id s' m → files s' = files s → (∀ p, u = Some p → 0 ≤ fd p) → Q (u, s') m) →
  wp T I ok Q (findReusableFd fl s) m.
Proof.
  intros Hop Hm HQ. unfold findReusableFd. apply wp_value; [done|done|done|]. intros x _. destruct (_ || _); [by apply HQ|]. apply wp_bind. cbn [wp os_get fst snd].
  destruct s as [[i|] fs]; cbn [inodeList]; [|by apply HQ]. cbn [mbind option_bind]. destruct (take_unused fl (i_pUnused i)) as [[p l]|] eqn:Et; [|by apply HQ].
  pose proof Hop as ([b Hok] & En & Hall). destruct (take_unused_ok _ _ _ _ Et (ct_fds _ _ (io_counts _ _ _ _ Hok))) as [Hp Hl].
  apply wp_mod_inode. apply HQ; [|done|by intros q [= <-]]. split; [|done]. exists b. destruct Hok as [Hs Hr C Hn Hf Ho Hh Hw]. split; try done; [by destruct C; split|].
  intros j g Eg. by destruct (Hf j g Eg); split.
Qed.

Lemma wp_unixOpen (excl psow : bool) id fl Q s m : opens excl id s m → good_flags excl fl → I m → (files s = ∅ → ∀ m', I m') → (∀ f x, ok (FSTAT f) x → x.1 = 0) →
  (∀ f x, ok (OPEN f) x → (excl = true → x.1 = 0) ∧ (x.1 = 0 → 0 ≤ x.2)) → (∀ rc s' m', proc_ok s' m' → Q (rc, s') m') → wp T I ok Q (unixOpen id excl psow fl s) m.
Proof.
  intros Hop (Hg1 & Hg2 & Hg3 & Hg4) Hm HI Hst Hopen HQ. unfold unixOpen. set (r := negb (fl .& SQLITE_OPEN_READONLY =? 0)) in *. set (w := negb (fl .& SQLITE_OPEN_READWRITE =? 0)) in *.
  set (c := negb (fl .& SQLITE_OPEN_CREATE =? 0)) in *. set (e := negb (fl .& SQLITE_OPEN_EXCLUSIVE =? 0)) in *. clearbody w c e.
  apply wp_assert; [by destruct r, w|]. apply wp_assert; [destruct c; [by rewrite Hg2|done]|]. apply wp_assert; [destruct e; [by rewrite Hg3|done]|].
  assert (∀ s', opens excl id s' m → files s' = files s → ∀ rc, Q (rc, s') m) as Hfail by (intros s' (Hp & _) _ rc; by apply HQ).
  assert (∀ s' fd0 fl0 (ro : bool), opens excl id s' m → files s' = files s → 0 ≤ fd0 → (excl = true → ro = false) →
    wp T I ok Q ((_ ← os_assert (0 <=? fd0); fillInUnixFile id excl psow fd0 ((match ro with true => UNIXFILE_RDONLY | false => 0 end) .| (if negb (fl0 .& SQLITE_OPEN_URI =? 0) then UNIXFILE_URI else 0)) (Some (Build_UnixUnusedFd fd0 fl0))) s') m) as Hfill.
  { intros s' fd0 fl0 ro Hop' Ef Hfd Hro. apply wp_assert; [by apply Z.leb_le|]. apply wp_fillIn; [done|done|by rewrite Ef|done|by apply new_mode|done|done]. }
  apply wp_bind, (wp_findReusableFd excl id); [done|done|]. intros u s' Hop' Ef Hu. cbn [fst snd]. destruct u as [p|].
  - apply wp_bind. cbn [wp mret os_ret fst snd negb]. apply wp_bind. cbn [wp mret os_ret fst snd]. by apply Hfill; auto.
  - apply wp_bind. apply wp_value; [done|done|done|]. intros x _. cbn [wp mret os_ret fst snd]. destruct (x.1 =? 0); cbn [negb]; [|by apply Hfail].
    apply wp_bind. apply wp_value; [done|done|done|]. intros y Hy. destruct (Hopen _ _ Hy) as [Ho1 Ho2]. destruct (Z.eqb_spec y.1 0) as [Hy0|Hy0]; cbn [wp mret os_ret fst snd]; [by apply Hfill; auto|].
    destruct (_ && _); [|by apply Hfail]. apply wp_value; [done|done|done|]. intros z Hz. destruct (Hopen _ _ Hz) as [Hz1 Hz2]. destruct (Z.eqb_spec z.1 0) as [Hz0|Hz0]; cbn [wp mret os_ret fst snd]; [|by apply Hfail].
    apply (Hfill s' z.2 (Z.ldiff fl (SQLITE_OPEN_READWRITE .| SQLITE_OPEN_CREATE) .| SQLITE_OPEN_READONLY) true); [done|done|by apply Hz2|intros Hx; by destruct (Hy0 (Ho1 Hx))].
Qed.
End code.

(** ** Exclusion *)

Lemma promise_empty s o m : files s = ∅ → promise s o m.
Proof.
  intros Hs. assert (∀ id, level s o id = NO_LOCK) as Hl by (intros id; unfold level; by rewrite Hs, lookup_empty).
  split; [exists false, NO_LOCK; split; [apply hold_none|]; intros id; rewrite Hl; lk| |]; intros i j _; rewrite !Hl; lk.
Qed.

Lemma proc_promise s o m : downward o → proc_ok s m → promise s o m.
Proof.
  intros Hd Hp. unfold proc_ok in Hp. destruct (inodeList s) as [i|]; [|by apply promise_empty]. destruct Hp as [b Hok]. apply (promise_hold s i b m Hok o Hd). apply Hok.
Qed.

Lemma may_start_downward s o : op_may_start s o → downward (Some o).
Proof. destruct o; cbn; naive_solver. Qed.

(** While a file is unlocked or closed, the levels of the other files count. *)
Lemma level_other s id f o j : files s !! id = Some f → o = OpUnlock id NO_LOCK ∨ o = OpClose id → NO_LOCK ≤ eFileLock f → (∀ j g, j ≠ id → files s !! j = Some g → locked g = false) → level s (Some o) j ≤ NO_LOCK.
Proof.
  intros E Ho Hf Hothers. unfold level. destruct (files s !! j) as [g|] eqn:Eg; [|done]. destruct (decide (j = id)) as [->|Hj].
  - rewrite E in Eg. injection Eg as <-. destruct Ho as [-> | ->]; cbn; rewrite decide_True by done; lk.
  - pose proof (Hothers j g Hj Eg) as Hg. unfold locked in Hg. apply Z.leb_gt in Hg. destruct Ho as [-> | ->]; cbn; rewrite decide_False by congruence; lk.
Qed.

Lemma level_shared s i b m id f o j : inode_ok b (files s) i m → files s !! id = Some f → (∃ l, o = OpUnlock id l ∧ l ≤ SHARED_LOCK) ∨ o = OpClose id → SHARED_LOCK < eFileLock f → level s (Some o) j ≤ SHARED_LOCK.
Proof.
  intros Hok E Ho Hf. unfold level. destruct (files s !! j) as [g|] eqn:Eg; [|done]. destruct (decide (j = id)) as [->|Hj].
  - rewrite E in Eg. injection Eg as <-. destruct Ho as [(l & -> & Hl)| ->]; cbn; rewrite decide_True by done; lk.
  - assert (¬ SHARED_LOCK < eFileLock g) as Hg by (intros Hg; apply Hj; by eapply (io_one _ _ _ _ Hok)). destruct Ho as [(l & -> & Hl)| ->]; cbn; rewrite decide_False by congruence; lk.
Qed.

#[global] Instance unix_locks_sound : Sound unix_locks proc_ok promise.
Proof.
  split.
  - done.
  - intros s m. by apply proc_promise.
  - intros s o m Hp Hs. apply proc_promise; [by apply (may_start_downward s)|done].
  - intros s o m Hp Hs. pose proof (proc_promise s (Some o) m (may_start_downward s o Hs) Hp) as Hm. pose proof (may_start_downward s o Hs) as Hd. destruct o as [id excl psow fl|id l|id l|id|id]; cbn [code unix_locks op_code may_start op_may_start] in *.
    + destruct Hs as (H1 & H2 & H3). apply wp_unixOpen; try done. intros Hf m'. by apply promise_empty.
    + destruct (files s !! id) as [f|] eqn:E; [|done]. unfold proc_ok in Hp. destruct s as [[i|] fs]; cbn in Hp, E; [|by subst]. destruct Hp as [b Hok].
      eapply (wp_unixLock _ _ _ b id f); [done|done|done|intros m'; by apply (promise_hold (Proc (Some i) fs) i b m Hok)|]. intros rc i' f' m' Hok'. by exists b.
    + destruct Hs as ([f E] & Hl). unfold proc_ok in Hp. destruct s as [[i|] fs]; cbn in Hp, E; [|by subst]. destruct Hp as [b Hok].
      eapply (wp_posixUnlock _ _ _ b id f); [done|done|done|done| | | |].
      * intros Hf m' Hh. apply (promise_shared (Proc (Some i) fs) i b m Hok _ Hd m' Hh). intros j. eapply level_shared; [exact Hok|done|left; exists l; split; [done|lk]|done].
      * intros -> Hf Hn m'. apply (promise_none (Proc (Some i) fs) i b m Hok _ Hd). intros j. eapply level_other; [done|by left|lk|]. intros k g Hk Eg. destruct (locked g) eqn:Hg; [|done].
        pose proof (n_locked_two fs k id g f Eg E Hk Hg ltac:(unfold locked; apply Z.leb_le; lk)). pose proof (io_locked _ _ _ _ Hok). cbn in *. lia.
      * intros -> e Hx. by specialize (Hx eq_refl eq_refl).
      * intros rc i' f' m' Hok' _. by exists b.
    + destruct Hs as [f E]. unfold proc_ok in Hp. destruct s as [[i|] fs]; cbn in Hp, E; [|by subst]. destruct Hp as [b Hok].
      apply wp_bind, (wp_check _ _ _ b id f); [done|done|done|]. intros r f' Sf Ef. exists b. by eapply inode_ok_same.
    + destruct Hs as [f E]. unfold proc_ok in Hp. destruct s as [[i|] fs]; cbn in Hp, E; [|by subst]. destruct Hp as [b Hok].
      eapply (wp_unixClose _ _ _ b id f); [done|done|done| | |by intros].
      * intros Hf m' Hh. apply (promise_shared (Proc (Some i) fs) i b m Hok _ Hd m' Hh). intros j. eapply level_shared; [exact Hok|done|by right|done].
      * intros Hothers m'. apply (promise_none (Proc (Some i) fs) i b m Hok _ Hd). intros j. eapply level_other; [done|by right|apply (io_files _ _ _ _ Hok id f E)|done].
Qed.

(** The lock of the file [f] of process [i]. *)
Definition lock_of (w : machine proc lock_op) (i f : nat) : Z :=
  match w !! i with Some p => level (memory p) (fst <$> running p) f | None => NO_LOCK end.

Lemma op_tolerates_quiet o os m c : op_tolerates o c (serve os m c (quiet c)).1.
Proof.
  assert (op_tolerates o c (serve os m c (quiet c)).1 ∨ ∃ l, c = SETLK l ∧ l_type l ≠ F_UNLCK) as [?|(l & -> & Hl)]; [|done|].
  - destruct c; try (left; destruct o; by vm_compute || done).
    destruct (l_type l) eqn:El; [|right; exists l; by rewrite El..]. left. cbn. unfold grantable. rewrite El. by destruct o.
  - destruct o as [| |id lv| |]; try exact Logic.I. intros _ He. congruence.
Qed.

Definition follows (s : proc) (o : lock_op) : bool := bool_decide (op_may_start s o).

(** ** The theorem *)

(** C16: locks exclude each other. Whatever processes open, lock, unlock and close the
    database file, in whatever order their system calls interleave, fail or succeed and
    whatever process dies: while a connection has an EXCLUSIVE lock no other connection, in the same
    process or in another, has any lock; never do two connections have a RESERVED lock, and
    never do two have a PENDING or higher lock. No operation runs into a failed assertion or another fault. *)
Theorem unixLock_exclusion w : rtc (step unix_locks) ∅ w →
  (∀ i f j g, (i, f) ≠ (j, g) →
     (lock_of w i f = EXCLUSIVE_LOCK → lock_of w j g = NO_LOCK) ∧
     ¬ (lock_of w i f = RESERVED_LOCK ∧ lock_of w j g = RESERVED_LOCK) ∧
     ¬ (PENDING_LOCK ≤ lock_of w i f ∧ PENDING_LOCK ≤ lock_of w j g)) ∧
  (∀ i p o e, w !! i = Some p → running p ≠ Some (o, Bad e)).
Proof.
  intros Hw. pose proof (reachable_ok unix_locks (Inv := proc_ok) (Prom := promise) w Hw) as [Hp Hc]. split.
  - intros i f j g Hne. unfold lock_of. destruct (w !! i) as [p|] eqn:Ei; [|repeat split; lk]. destruct (w !! j) as [q|] eqn:Ej; [|repeat split; lk].
    pose proof (pk_prom _ _ (Hp i p Ei)) as Pi. pose proof (pk_prom _ _ (Hp j q Ej)) as Pj. destruct (decide (i = j)) as [->|Hij].
    + rewrite Ei in Ej. injection Ej as <-. assert (f ≠ g) as Hfg by congruence. destruct Pi as [_ P1 P2]. split; [by apply P2|]. split; intros [H1 H2]; pose proof (P1 f g Hfg); lk.
    + apply promises_exclude; [|done|done]. intros x. by apply (Hc i j).
  - intros i p o e Ei Hr. pose proof (pk_run _ _ (Hp i p Ei)) as H. rewrite Hr in H. done.
Qed.

(** A process with two connections and another process: shared locks, a writer that has to wait, and an EXCLUSIVE lock. *)
Definition demo_run : list (nat * option lock_op) :=
  [(1, None); (2, None); (1, Some (OpOpen 0 false true 0x42)); (1, Some (OpOpen 1 false true 0x42)); (2, Some (OpOpen 0 false true 0x42));
   (1, Some (OpLock 0 1)); (2, Some (OpLock 0 1)); (1, Some (OpLock 0 2)); (2, Some (OpLock 0 2)); (1, Some (OpLock 1 1)); (1, Some (OpLock 0 4));
   (1, Some (OpUnlock 1 0)); (1, Some (OpClose 1)); (1, Some (OpLock 0 4)); (2, Some (OpUnlock 0 0)); (1, Some (OpLock 0 4)); (2, Some (OpLock 0 1))]%nat.

Definition demo_machine : machine proc lock_op := match exec_all unix_locks follows ∅ demo_run with Some (_, w) => w | None => ∅ end.

Lemma demo_results : fst <$> exec_all unix_locks follows ∅ demo_run = Some [0; 0; 0; 0; 0; 0; 0; 0; 5; 0; 5; 0; 0; 5; 0; 0; 5].
Proof. vm_compute. reflexivity. Qed.

Lemma demo_reachable : rtc (step unix_locks) ∅ demo_machine.
Proof.
  unfold demo_machine. destruct (exec_all unix_locks follows ∅ demo_run) as [[rs w]|] eqn:E; [|apply rtc_refl].
  eapply (exec_all_steps unix_locks follows); [intros s o; apply bool_decide_eq_true|apply op_tolerates_quiet|exact E].
Qed.

Lemma unixLock_exclusion_witness : lock_of demo_machine 1 0 = EXCLUSIVE_LOCK ∧ ∀ g, lock_of demo_machine 2 g = NO_LOCK.
Proof.
  split; [vm_compute; reflexivity|]. intros g. destruct (unixLock_exclusion demo_machine demo_reachable) as [H _]. apply (H 1%nat 0%nat 2%nat g ltac:(congruence)). vm_compute. reflexivity.
Defined.

(** ** Files of unix-excl with read-only files *)

(** Process 1 has a connection to the file through unix-excl and another that is read-only. *)
Definition mixed_run : list (nat * option lock_op) :=
  [(1, None); (2, None); (1, Some (OpOpen 0 true true 0x42)); (1, Some (OpOpen 1 true true 0x41)); (2, Some (OpOpen 0 false true 0x42));
   (1, Some (OpLock 0 1)); (1, Some (OpUnlock 0 0)); (1, Some (OpLock 1 1)); (1, Some (OpUnlock 1 0));
   (2, Some (OpLock 0 1)); (1, Some (OpLock 0 1)); (1, Some (OpLock 0 2)); (1, Some (OpLock 0 4))]%nat.

(** The exclusive lock that unix-excl takes once for the whole process is lost when a read-only
    connection of the same process gives its lock back, because [unixFileLock] passes the
    requests of read-only files on to the system. [bProcessLock] stays set, so that
    afterwards the process gets an EXCLUSIVE lock while another process has a SHARED lock. *)
Theorem unix_excl_loses_lock :
  match exec_all unix_locks (λ _ _, true) ∅ mixed_run with
  | Some (rs, w) => Forall (λ rc, rc = SQLITE_OK) rs ∧ lock_of w 1 0 = EXCLUSIVE_LOCK ∧ lock_of w 2 0 = SHARED_LOCK
  | None => False
  end.
Proof. vm_compute. repeat constructor. Qed.
