(* ===== verification/OsShm.v ===== *)
(** * Locks on the shared memory of the write-ahead log

    The connections to a write-ahead log share memory, and eight locks on the file of that memory
    order their access (src/os_unix.c, [unixShmLock]). A process has one
    [unixShmNode], which all of its connections share. The descriptor of the node
    also locks a ninth byte, the dead-man switch, as long as it is open: a process that
    finds nobody there starts with an empty file.

    The files of the VFS unix are modelled; the regions of the memory and their content
    are part of the model of the log. *)

From S2P Require Import Prelude OsKernel OsLock.
From stdpp Require Import relations gmap.
#[local] Open Scope Z_scope.
#[local] Open Scope c_scope.
#[local] Open Scope list_scope.

Definition SQLITE_SHM_UNLOCK : Z := 1.
Definition SQLITE_SHM_LOCK : Z := 2.
Definition SQLITE_SHM_SHARED : Z := 4.
Definition SQLITE_SHM_EXCLUSIVE : Z := 8.
Definition SQLITE_SHM_NLOCK : Z := 8.
Definition UNIX_SHM_BASE : Z := (22 + SQLITE_SHM_NLOCK) * 4.
Definition UNIX_SHM_DMS : Z := UNIX_SHM_BASE + SQLITE_SHM_NLOCK.
Definition SQLITE_IOERR_FSTAT : Z := SQLITE_IOERR .| (7 .<< 8).
Definition SQLITE_IOERR_SHMOPEN : Z := SQLITE_IOERR .| (18 .<< 8).

(** ** Data *)

Record unixShm : Set := UnixShm { sharedMask : Z; exclMask : Z }.

(** [pFirst] lists the connections, by the number of their file. *)
Record unixShmNode : Type := UnixShmNode {
  node_h : Z;
  isReadonly : bool;
  node_nRef : Z;
  pFirst : list (nat * unixShm) }.

(** The memory of a process: [pInode->pShmNode]. *)
Abbreviation shm := (option unixShmNode).

Definition get_node : os shm unixShmNode := os_some id.
Definition set_node (x : option unixShmNode) : os shm () := os_mod (λ _, x).
Definition node_list (l : list (nat * unixShm)) (x : unixShmNode) : unixShmNode := UnixShmNode (node_h x) (isReadonly x) (node_nRef x) l.
Definition node_refs (n : Z) (x : unixShmNode) : unixShmNode := UnixShmNode (node_h x) (isReadonly x) n (pFirst x).

(** [pDbFd->pShm]. *)
Fixpoint find_shm (c : nat) (l : list (nat * unixShm)) : option unixShm :=
  match l with
  | [] => None
  | (j, p) :: l => if decide (j = c) then Some p else find_shm c l
  end.

Fixpoint update_shm (c : nat) (p : unixShm) (l : list (nat * unixShm)) : list (nat * unixShm) :=
  match l with
  | [] => []
  | (j, q) :: l => if decide (j = c) then (j, p) :: l else (j, q) :: update_shm c p l
  end.

(** [*pp = p->pNext]. *)
Fixpoint remove_shm (c : nat) (l : list (nat * unixShm)) : list (nat * unixShm) :=
  match l with
  | [] => []
  | (j, q) :: l => if decide (j = c) then l else (j, q) :: remove_shm c l
  end.

(** ** System locks *)

Definition unixShmSystemLock (lockType : ltype) (ofst n : Z) : os shm Z :=
  pShmNode ← get_node;
  _ ← os_assert ((n =? 1) || negb (bool_decide (lockType = F_RDLCK)));
  _ ← os_assert ((1 <=? n) && (n <? SQLITE_SHM_NLOCK));
  if 0 <=? node_h pShmNode then
    x ← os_call (SETLK (Flock lockType ofst n));
    mret (if negb (x.1 =? -1) then SQLITE_OK else SQLITE_BUSY)
  else mret SQLITE_OK.

(** ** Opening and closing *)

Definition unixShmPurge : os shm () :=
  p ← os_get id;
  match p with
  | Some p =>
      if node_nRef p =? 0 then
        _ ← (if 0 <=? node_h p then _ ← os_call (CLOSE (node_h p)); mret () else mret ());
        set_node None
      else mret ()
  | None => mret ()
  end.

(** The new node, with the dead-man switch; the result code. [dbh] is the descriptor of the
    database, [bProcessLock] tells that it is locked for the whole process by unix-excl. *)
Definition open_node (dbh bProcessLock : Z) (readonly_shm : bool) : os shm Z :=
  st ← os_call (FSTAT dbh);
  if negb (st.1 =? 0) && (bProcessLock =? 0) then mret SQLITE_IOERR_FSTAT else
  m ← os_call MALLOC;
  if negb (m.1 =? 0) then mret SQLITE_NOMEM else
  _ ← set_node (Some (UnixShmNode (-1) false 0 []));
  mutex ← os_call MALLOC;
  if negb (mutex.1 =? 0) then mret SQLITE_NOMEM else
  if bProcessLock =? 0 then
    x ← os_call (OPEN (if readonly_shm then 0 else 1));
    _ ← set_node (Some (UnixShmNode (if x.1 =? 0 then x.2 else -1) readonly_shm 0 []));
    if negb (x.1 =? 0) then mret SQLITE_CANTOPEN else
    dms ← unixShmSystemLock F_WRLCK UNIX_SHM_DMS 1;
    rc ← (if dms =? SQLITE_OK then
            t ← os_call FTRUNCATE;
            mret (if negb (t.1 =? 0) then SQLITE_IOERR_SHMOPEN else SQLITE_OK)
          else mret SQLITE_OK);
    if rc =? SQLITE_OK then unixShmSystemLock F_RDLCK UNIX_SHM_DMS 1 else mret rc
  else mret SQLITE_OK.

Definition unixOpenSharedMemory (c : nat) (dbh bProcessLock : Z) (readonly_shm : bool) : os shm Z :=
  m ← os_call MALLOC;
  if negb (m.1 =? 0) then mret SQLITE_NOMEM else
  node ← os_get id;
  rc ← match node with
       | Some node => _ ← os_assert (match find_shm c (pFirst node) with None => true | Some _ => false end); mret SQLITE_OK
       | None => open_node dbh bProcessLock readonly_shm
       end;
  if negb (rc =? SQLITE_OK) then
    _ ← unixShmPurge;
    mret rc
  else
  pShmNode ← get_node;
  let pShmNode := node_refs (node_nRef pShmNode + 1) pShmNode in
  _ ← set_node (Some (node_list ((c, UnixShm 0 0) :: pFirst pShmNode) pShmNode));
  mret SQLITE_OK.

Definition unixShmUnmap (c : nat) (deleteFlag : bool) : os shm Z :=
  node ← os_get id;
  match node ≫= λ x, find_shm c (pFirst x) with
  | None => mret SQLITE_OK
  | Some _ =>
      pShmNode ← get_node;
      let pShmNode := node_list (remove_shm c (pFirst pShmNode)) pShmNode in
      _ ← os_assert (0 <? node_nRef pShmNode);
      let pShmNode := node_refs (node_nRef pShmNode - 1) pShmNode in
      _ ← set_node (Some pShmNode);
      if node_nRef pShmNode =? 0 then
        _ ← (if deleteFlag && (0 <=? node_h pShmNode) then _ ← os_call UNLINK; mret () else mret ());
        _ ← unixShmPurge;
        mret SQLITE_OK
      else mret SQLITE_OK
  end.

(** ** Locking *)

(** The shared locks of the other connections. *)
Fixpoint siblings_shared (c : nat) (p : unixShm) (l : list (nat * unixShm)) (allMask : Z) : outcome Z :=
  match l with
  | [] => Ret allMask
  | (j, x) :: l =>
      if decide (j = c) then siblings_shared c p l allMask else
      _ ← c_assert (exclMask x .& (exclMask p .| sharedMask p) =? 0);
      siblings_shared c p l (allMask .| sharedMask x)
  end.

(** All shared locks, unless some connection has an exclusive lock in [mask]. *)
Fixpoint all_shared (mask : Z) (l : list (nat * unixShm)) (allShared : Z) : option Z :=
  match l with
  | [] => Some allShared
  | (_, x) :: l => if negb (exclMask x .& mask =? 0) then None else all_shared mask l (allShared .| sharedMask x)
  end.

Fixpoint none_locked (mask : Z) (l : list (nat * unixShm)) : bool :=
  match l with
  | [] => true
  | (_, x) :: l => if negb (exclMask x .& mask =? 0) || negb (sharedMask x .& mask =? 0) then false else none_locked mask l
  end.

Definition os_lift {A} (m : outcome A) : os shm A := λ s, match m with Ret a => Done (a, s) | Undef f => Bad f end.
Definition set_shm (c : nat) (p : unixShm) : os shm () := os_mod (fmap (λ x, node_list (update_shm c p (pFirst x)) x)).

Definition unixShmLock (c : nat) (ofst n fl : Z) : os shm Z :=
  pShmNode ← get_node;
  p ← os_some (λ _, find_shm c (pFirst pShmNode));
  _ ← os_assert ((0 <=? ofst) && (ofst + n <=? SQLITE_SHM_NLOCK));
  _ ← os_assert (1 <=? n);
  _ ← os_assert ((fl =? SQLITE_SHM_LOCK .| SQLITE_SHM_SHARED) || (fl =? SQLITE_SHM_LOCK .| SQLITE_SHM_EXCLUSIVE) ||
                 (fl =? SQLITE_SHM_UNLOCK .| SQLITE_SHM_SHARED) || (fl =? SQLITE_SHM_UNLOCK .| SQLITE_SHM_EXCLUSIVE));
  _ ← os_assert ((n =? 1) || negb (fl .& SQLITE_SHM_EXCLUSIVE =? 0));
  let mask := u16 ((1 .<< (ofst + n)) - (1 .<< ofst)) in
  _ ← os_assert ((1 <? n) || (mask =? 1 .<< ofst));
  if negb (fl .& SQLITE_SHM_UNLOCK =? 0) then
    allMask ← os_lift (siblings_shared c p (pFirst pShmNode) 0);
    rc ← (if mask .& allMask =? 0 then unixShmSystemLock F_UNLCK (ofst + UNIX_SHM_BASE) n else mret SQLITE_OK);
    _ ← (if rc =? SQLITE_OK then set_shm c (UnixShm (Z.ldiff (sharedMask p) mask) (Z.ldiff (exclMask p) mask)) else mret ());
    mret rc
  else if negb (fl .& SQLITE_SHM_SHARED =? 0) then
    match all_shared mask (pFirst pShmNode) 0 with
    | None => mret SQLITE_BUSY
    | Some allShared =>
        rc ← (if allShared .& mask =? 0 then unixShmSystemLock F_RDLCK (ofst + UNIX_SHM_BASE) n else mret SQLITE_OK);
        _ ← (if rc =? SQLITE_OK then set_shm c (UnixShm (sharedMask p .| mask) (exclMask p)) else mret ());
        mret rc
    end
  else
    if negb (none_locked mask (pFirst pShmNode)) then mret SQLITE_BUSY else
    rc ← unixShmSystemLock F_WRLCK (ofst + UNIX_SHM_BASE) n;
    if rc =? SQLITE_OK then
      _ ← os_assert (sharedMask p .& mask =? 0);
      _ ← set_shm c (UnixShm (sharedMask p) (exclMask p .| mask));
      mret rc
    else mret rc.
