(* ===== verification/OsShmSafe.v ===== *)
(** * The locks of the write-ahead log exclude each other

    Processes connect to the shared memory of a log, lock, unlock and disconnect in any order
    and interleaved at every system call. The theorem is the contract of [xShmLock]: an exclusive
    lock excludes every other lock of the same slot. The dead-man switch does its work as well:
    the memory is truncated only while no other process is connected. *)

From S2P Require Import Prelude OsKernel OsLock OsShm.
From stdpp Require Import relations gmap.
#[local] Open Scope Z_scope.
#[local] Open Scope c_scope.
#[local] Open Scope list_scope.

(** ** Operations *)

Inductive shm_op : Set :=
  | OpShmOpen (c : nat) (dbh : Z) (readonly : bool)
  | OpShmLock (c : nat) (ofst n fl : Z)
  | OpShmUnmap (c : nat) (del : bool).

Definition shm_code (o : shm_op) : os shm Z :=
  match o with
  | OpShmOpen c dbh ro => unixOpenSharedMemory c dbh 0 ro
  | OpShmLock c ofst n fl => unixShmLock c ofst n fl
  | OpShmUnmap c del => unixShmUnmap c del
  end.

Definition lock_mask (ofst n : Z) : Z := u16 ((1 .<< (ofst + n)) - (1 .<< ofst)).

Definition conn (s : shm) (c : nat) : option unixShm := s ≫= λ x, find_shm c (pFirst x).

(** How the callers use the methods: a connection is opened once; a shared lock has one slot,
    an exclusive lock up to seven; what is unlocked has been locked; the file is not deleted, which
    needs the EXCLUSIVE lock of the database. *)
Definition shm_may_start (s : shm) (o : shm_op) : Prop :=
  match o with
  | OpShmOpen c _ _ => conn s c = None
  | OpShmLock c ofst n fl =>
      match conn s c with
      | None => False
      | Some p =>
          0 ≤ ofst ∧ ofst + n ≤ SQLITE_SHM_NLOCK ∧ 1 ≤ n < SQLITE_SHM_NLOCK ∧
          ((fl = SQLITE_SHM_LOCK .| SQLITE_SHM_SHARED ∧ n = 1) ∨
           fl = SQLITE_SHM_LOCK .| SQLITE_SHM_EXCLUSIVE ∨
           (fl = SQLITE_SHM_UNLOCK .| SQLITE_SHM_SHARED ∧ n = 1 ∧ sharedMask p .& lock_mask ofst n = lock_mask ofst n) ∨
           (fl = SQLITE_SHM_UNLOCK .| SQLITE_SHM_EXCLUSIVE ∧ exclMask p .& lock_mask ofst n = lock_mask ofst n))
      end
  | OpShmUnmap _ del => del = false
  end.

#[global] Instance shm_may_start_dec s o : Decision (shm_may_start s o).
Proof. destruct o; unfold shm_may_start; try apply _. destruct (conn s c); apply _. Defined.

(** A descriptor is not negative. *)
Definition shm_tolerates (o : shm_op) (c : call) (x : answer) : Prop :=
  match c with OPEN _ => x.1 = 0 → 0 ≤ x.2 | _ => True end.

Definition shm_locks : protocol shm shm_op := {|
  fresh_memory := None; code := shm_code; may_start := shm_may_start; tolerates := shm_tolerates; truncates := λ m, m UNIX_SHM_DMS = F_WRLCK |}.

(** The masks of a connection, shared and exclusive; while it unlocks or disconnects, what will remain. *)
Definition masks (s : shm) (o : option shm_op) (c : nat) : unixShm :=
  match conn s c with
  | None => UnixShm 0 0
  | Some p =>
      match o with
      | Some (OpShmLock c' ofst n fl) =>
          if decide (c' = c ∧ fl .& SQLITE_SHM_UNLOCK ≠ 0) then UnixShm (Z.ldiff (sharedMask p) (lock_mask ofst n)) (Z.ldiff (exclMask p) (lock_mask ofst n)) else p
      | Some (OpShmUnmap c' _) => if decide (c' = c) then UnixShm 0 0 else p
      | _ => p
      end
  end.

(** Is the process connected? *)
Definition connected (s : shm) (o : option shm_op) : bool :=
  match s with
  | None => false
  | Some x => match o with Some (OpShmUnmap _ _) => negb (node_nRef x =? 1) | _ => true end
  end.

Definition shared_at (p : unixShm) (k : Z) : Prop := Z.testbit (sharedMask p) k = true.
Definition excl_at (p : unixShm) (k : Z) : Prop := Z.testbit (exclMask p) k = true.

(** The locks of the system behind the masks. *)
Record backed (f : nat → unixShm) (op : bool) (m : lockmap) : Prop := {
  bk_excl c k : excl_at (f c) k → 0 ≤ k < SQLITE_SHM_NLOCK ∧ m (UNIX_SHM_BASE + k) = F_WRLCK;
  bk_shared c k : shared_at (f c) k → 0 ≤ k < SQLITE_SHM_NLOCK ∧ m (UNIX_SHM_BASE + k) ≠ F_UNLCK;
  bk_one c d k : c ≠ d → excl_at (f c) k → ¬ excl_at (f d) k ∧ ¬ shared_at (f d) k;
  bk_dms : op = true → m UNIX_SHM_DMS ≠ F_UNLCK }.

Definition shm_promise (s : shm) (o : option shm_op) (m : lockmap) : Prop := backed (masks s o) (connected s o) m.

Record node_ok (x : unixShmNode) (m : lockmap) : Prop := {
  no_h : 0 ≤ node_h x;
  no_ref : node_nRef x = Z.of_nat (length (pFirst x));
  no_some : pFirst x ≠ [];
  no_dup : NoDup (pFirst x).*1;
  no_backed : backed (masks (Some x) None) true m }.

Definition shm_ok (s : shm) (m : lockmap) : Prop := match s with None => True | Some x => node_ok x m end.

(** ** Lists of connections *)

Lemma elem_find l c p : NoDup l.*1 → (c, p) ∈ l ↔ find_shm c l = Some p.
Proof.
  induction l as [|[j q] l IH]; cbn; [intros _; split; [by intros ?%not_elem_of_nil|done]|]. intros [Hj Hn]%list.NoDup_cons. rewrite list.elem_of_cons. case_decide as Hd.
  - subst j. split; [|by intros [= ->]; left]. intros [[= ->]|Hp]; [done|]. destruct Hj. apply list_elem_of_fmap. by exists (c, p).
  - rewrite <- (IH Hn). split; [|by right]. intros [[= -> ->]|?]; done.
Qed.

Lemma find_update l c d p : find_shm c l ≠ None → find_shm d (update_shm c p l) = if decide (d = c) then Some p else find_shm d l.
Proof.
  induction l as [|[j q] l IH]; cbn; [done|]. intros H. destruct (decide (j = c)) as [->|Hj]; cbn.
  - destruct (decide (c = d)) as [->|Hd]; [by rewrite decide_True|]. by rewrite decide_False by congruence.
  - destruct (decide (j = d)) as [->|Hd]; [by rewrite decide_False|]. by apply IH.
Qed.

Lemma keys_update l c p : (update_shm c p l).*1 = l.*1.
Proof. induction l as [|[j q] l IH]; cbn; [done|]. destruct (decide (j = c)); cbn; [done|]. by f_equal. Qed.

Lemma find_remove l c d : NoDup l.*1 → find_shm d (remove_shm c l) = if decide (d = c) then None else find_shm d l.
Proof.
  induction l as [|[j q] l IH]; cbn; [by case_decide|]. intros [Hj Hn]%list.NoDup_cons. destruct (decide (j = c)) as [->|Hjc]; cbn.
  - destruct (decide (d = c)) as [->|Hd]; [|by rewrite decide_False by congruence]. destruct (find_shm c l) as [p|] eqn:E; [|done]. destruct Hj. apply elem_find in E; [|done]. apply list_elem_of_fmap. by exists (c, p).
  - rewrite IH by done. destruct (decide (j = d)) as [->|Hjd]; [by rewrite decide_False|done].
Qed.

Lemma remove_keys l c : NoDup l.*1 → NoDup (remove_shm c l).*1 ∧ ∀ j, j ∈ (remove_shm c l).*1 → j ∈ l.*1.
Proof.
  induction l as [|[j q] l IH]; cbn; [done|]. intros [Hj Hn]%list.NoDup_cons. destruct (IH Hn) as [IH1 IH2]. destruct (decide (j = c)); cbn; [by split; [|intros k Hk; right]|].
  split; [constructor; auto|]. intros k [->|Hk]%list.elem_of_cons; [left|right; auto].
Qed.

Lemma remove_length l c : find_shm c l ≠ None → S (length (remove_shm c l)) = length l.
Proof. induction l as [|[j q] l IH]; cbn; [done|]. destruct (decide (j = c)); cbn; [done|]. intros H. by rewrite IH. Qed.

(** ** Masks *)

Lemma lock_mask_bit ofst n k : 0 ≤ ofst → ofst + n ≤ SQLITE_SHM_NLOCK → 1 ≤ n → Z.testbit (lock_mask ofst n) k = (ofst <=? k) && (k <? ofst + n).
Proof.
  unfold SQLITE_SHM_NLOCK, lock_mask. intros H1 H2 H3. rewrite !Z.shiftl_1_l. assert (2 ^ (ofst + n) - 2 ^ ofst = Z.ones n .<< ofst) as ->.
  { rewrite Z.shiftl_mul_pow2, Z.ones_equiv, Z.pow_add_r by lia. lia. }
  assert (0 ≤ Z.ones n .<< ofst < 2 ^ 16) as Hr.
  { rewrite Z.shiftl_mul_pow2, Z.ones_equiv by lia. pose proof (Z.pow_pos_nonneg 2 n). pose proof (Z.pow_pos_nonneg 2 ofst). assert (2 ^ n * 2 ^ ofst ≤ 2 ^ 8) by (rewrite <- Z.pow_add_r by lia; apply Z.pow_le_mono_r; lia). rewrite <- Z.sub_1_r, Z.mul_sub_distr_r. nia. }
  rewrite uw_small by done. destruct (Z.leb_spec ofst k) as [Hk|Hk]; cbn.
  - rewrite Z.shiftl_spec by lia. destruct (Z.ltb_spec k (ofst + n)); [apply Z.ones_spec_low; lia|apply Z.ones_spec_high; lia].
  - by rewrite Z.shiftl_spec_low.
Qed.

Lemma land_zero_spec a b : (a .& b =? 0) = true ↔ ∀ k, Z.testbit a k = true → Z.testbit b k = true → False.
Proof.
  rewrite Z.eqb_eq. split.
  - intros H k Ha Hb. assert (Z.testbit (a .& b) k = false) as Hk by (by rewrite H, Z.bits_0). by rewrite Z.land_spec, Ha, Hb in Hk.
  - intros H. apply Z.bits_inj_0. intros k. rewrite Z.land_spec. destruct (Z.testbit a k) eqn:Ha, (Z.testbit b k) eqn:Hb; [by destruct (H k)|done..].
Qed.

(** A mask of one slot. *)
Lemma land_one a ofst : 0 ≤ ofst < SQLITE_SHM_NLOCK → (a .& lock_mask ofst 1 =? 0) = negb (Z.testbit a ofst).
Proof.
  unfold SQLITE_SHM_NLOCK. intros H. destruct (Z.testbit a ofst) eqn:Ha; cbn.
  - apply not_true_iff_false. rewrite land_zero_spec. intros Hz. apply (Hz ofst Ha). rewrite lock_mask_bit by (unfold SQLITE_SHM_NLOCK; lia). rewrite (proj2 (Z.leb_le _ _)), (proj2 (Z.ltb_lt _ _)) by lia. done.
  - apply land_zero_spec. intros k Hk. rewrite lock_mask_bit by (unfold SQLITE_SHM_NLOCK; lia). intros [H1%Z.leb_le H2%Z.ltb_lt]%andb_prop. assert (k = ofst) as -> by lia. congruence.
Qed.

Lemma land_subset a b k : a .& b = b → Z.testbit b k = true → Z.testbit a k = true.
Proof. intros H Hb. rewrite <- H, Z.land_spec in Hb. by destruct (Z.testbit a k). Qed.

Lemma all_shared_spec mask l a r : all_shared mask l a = Some r →
  (∀ c p, (c, p) ∈ l → (exclMask p .& mask =? 0) = true ∧ ∀ k, shared_at p k → Z.testbit r k = true) ∧
  (∀ k, Z.testbit r k = true → Z.testbit a k = true ∨ ∃ c p, (c, p) ∈ l ∧ shared_at p k) ∧ (∀ k, Z.testbit a k = true → Z.testbit r k = true).
Proof.
  revert a. induction l as [|[j q] l IH]; intros a; cbn.
  - intros [= ->]. split; [by intros c p ?%not_elem_of_nil|]. split; auto.
  - destruct (exclMask q .& mask =? 0) eqn:Hq; [|done]. cbn. intros H. destruct (IH _ H) as (H1 & H2 & H3). split; [|split].
    + intros c p [[= -> ->]|Hp]%list.elem_of_cons; [|by apply (H1 c)]. split; [done|]. intros k Hk. apply H3. rewrite Z.lor_spec. unfold shared_at in Hk. by rewrite Hk, orb_true_r.
    + intros k Hk. destruct (H2 k Hk) as [Ha|(c & p & Hp & Hs)]; [|right; exists c, p; by split; [right|]]. rewrite Z.lor_spec in Ha. apply orb_prop in Ha as [Ha|Ha]; [by left|right; exists j, q; by split; [left|]].
    + intros k Hk. apply H3. by rewrite Z.lor_spec, Hk.
Qed.

Lemma none_locked_spec mask l c p : none_locked mask l = true → (c, p) ∈ l → (exclMask p .& mask =? 0) = true ∧ (sharedMask p .& mask =? 0) = true.
Proof.
  induction l as [|[j q] l IH]; cbn; [by intros _ ?%not_elem_of_nil|]. destruct (exclMask q .& mask =? 0) eqn:H1, (sharedMask q .& mask =? 0) eqn:H2; cbn; try done.
  intros H [[= -> ->]|Hp]%list.elem_of_cons; [done|by apply IH].
Qed.

Lemma siblings_shared_spec c p l a : (∀ j q, (j, q) ∈ l → j ≠ c → (exclMask q .& (exclMask p .| sharedMask p) =? 0) = true) → ∃ r, siblings_shared c p l a = Ret r ∧
  (∀ j q k, (j, q) ∈ l → j ≠ c → shared_at q k → Z.testbit r k = true) ∧ (∀ k, Z.testbit r k = true → Z.testbit a k = true ∨ ∃ j q, (j, q) ∈ l ∧ j ≠ c ∧ shared_at q k) ∧ (∀ k, Z.testbit a k = true → Z.testbit r k = true).
Proof.
  revert a. induction l as [|[j q] l IH]; intros a H; cbn.
  - exists a. split; [done|]. split; [by intros j q k ?%not_elem_of_nil|]. split; auto.
  - assert (∀ j q, (j, q) ∈ l → j ≠ c → (exclMask q .& (exclMask p .| sharedMask p) =? 0) = true) as H' by (intros i x Hi; apply H; by right). destruct (decide (j = c)) as [->|Hj].
    + destruct (IH a H') as (r & Er & H1 & H2 & H3). exists r. split; [done|]. split; [|split; [|done]].
      * intros i x k [[= -> ->]|Hi]%list.elem_of_cons; [done|by apply H1].
      * intros k Hk. destruct (H2 k Hk) as [?|(i & x & Hi & Hx)]; [by left|right]. exists i, x. by split; [right|].
    + rewrite (H j q) by (done || by left). cbn. destruct (IH (a .| sharedMask q) H') as (r & Er & H1 & H2 & H3). exists r. split; [done|]. split; [|split].
      * intros i x k [[= -> ->]|Hi]%list.elem_of_cons Hne Hs; [|by eapply H1]. apply H3. rewrite Z.lor_spec. unfold shared_at in Hs. by rewrite Hs, orb_true_r.
      * intros k Hk. destruct (H2 k Hk) as [Ha|(i & x & Hi & Hx)]; [|right; exists i, x; by split; [right|]]. rewrite Z.lor_spec in Ha. apply orb_prop in Ha as [Ha|Ha]; [by left|right; exists j, q; by split; [left|]].
      * intros k Hk. apply H3. by rewrite Z.lor_spec, Hk.
Qed.

(** ** The methods *)

Ltac sh := unfold UNIX_SHM_DMS, UNIX_SHM_BASE, SQLITE_SHM_NLOCK in *; lia.

Section code.
Context (T I : lockmap → Prop) (ok : call → answer → Prop).

Lemma wp_get_node {B} x (k : unixShmNode → os shm B) Q m : wp T I ok Q (k x (Some x)) m → wp T I ok Q ((get_node ≫= k) (Some x)) m.
Proof. done. Qed.

Lemma wp_set_node {B} x (k : () → os shm B) Q s m : wp T I ok Q (k () x) m → wp T I ok Q ((set_node x ≫= k) s) m.
Proof. done. Qed.

Lemma wp_system_lock t ofst n Q x m : 0 ≤ node_h x → n = 1 ∨ t ≠ F_RDLCK → 1 ≤ n < SQLITE_SHM_NLOCK → I m → I (setl (Flock t ofst n) m) →
  Q (SQLITE_OK, Some x) (setl (Flock t ofst n) m) → Q (SQLITE_BUSY, Some x) m → wp T I ok Q (unixShmSystemLock t ofst n (Some x)) m.
Proof.
  intros Hh Ht Hn Hm Hm' H1 H2. unfold unixShmSystemLock. apply wp_get_node.
  apply wp_assert; [destruct Ht as [->|Ht]; [done|]; by rewrite bool_decide_eq_false_2, orb_true_r|]. apply wp_assert; [rewrite (proj2 (Z.leb_le 1 n)), (proj2 (Z.ltb_lt n SQLITE_SHM_NLOCK)) by lia; done|].
  rewrite (proj2 (Z.leb_le 0 (node_h x)) Hh). apply wp_setlk; [done|done|by intros v|by intros e _].
Qed.

(** ** Changing the masks of one connection *)

Lemma masks_update x c p d : find_shm c (pFirst x) ≠ None →
  masks (Some (node_list (update_shm c p (pFirst x)) x)) None d = if decide (d = c) then p else masks (Some x) None d.
Proof. intros H. unfold masks, conn. cbn. rewrite find_update by done. by case_decide. Qed.

Lemma masks_find x c p : find_shm c (pFirst x) = Some p → masks (Some x) None c = p.
Proof. intros E. unfold masks, conn. cbn. by rewrite E. Qed.

(** Masks that are pointwise the same promise the same. *)
Lemma backed_ext f g op m : (∀ c, f c = g c) → backed f op m → backed g op m.
Proof. intros H [B1 B2 B3 B4]. split; [intros c k|intros c k|intros c d k|done]; rewrite <- !H; [apply B1|apply B2|apply B3]. Qed.

Lemma node_ok_update x c p m m' : node_ok x m → find_shm c (pFirst x) ≠ None → backed (λ d, if decide (d = c) then p else masks (Some x) None d) true m' →
  node_ok (node_list (update_shm c p (pFirst x)) x) m'.
Proof.
  intros [H1 H2 H3 H4 H5] Hc Hb. split; cbn; [done| | | |].
  - rewrite H2. f_equal. by rewrite <- (length_fmap fst (update_shm _ _ _)), keys_update, length_fmap.
  - destruct (pFirst x) as [|[j q] l]; [done|]. cbn. by case_decide.
  - by rewrite keys_update.
  - eapply backed_ext; [|exact Hb]. intros d. by rewrite masks_update.
Qed.

Lemma backed_weaken f op m : backed f true m → backed f op m.
Proof. intros [B1 B2 B3 B4]. split; auto. Qed.

(** The slots outside of a range keep their locks. *)
Lemma set_slot t ofst n m k : 1 ≤ n → setl (Flock t (ofst + UNIX_SHM_BASE) n) m (UNIX_SHM_BASE + k) = if decide (ofst ≤ k < ofst + n) then t else m (UNIX_SHM_BASE + k).
Proof. intros Hn. rewrite setl_at by lia. case_decide; case_decide; done || lia. Qed.

Lemma set_dms t ofst n m : 1 ≤ n → ofst + n ≤ SQLITE_SHM_NLOCK → setl (Flock t (ofst + UNIX_SHM_BASE) n) m UNIX_SHM_DMS = m UNIX_SHM_DMS.
Proof. intros H1 H2. unfold UNIX_SHM_DMS. rewrite set_slot by done. by rewrite decide_False by lia. Qed.

Section lock.
Context (x : unixShmNode) (m : lockmap) (Hx : node_ok x m) (c : nat) (p : unixShm) (Hc : find_shm c (pFirst x) = Some p).
Context (ofst n : Z) (H0 : 0 ≤ ofst) (Hn : 1 ≤ n < SQLITE_SHM_NLOCK) (Hr : ofst + n ≤ SQLITE_SHM_NLOCK).

Lemma mask_at k : Z.testbit (lock_mask ofst n) k = true ↔ ofst ≤ k < ofst + n.
Proof using H0 Hn Hr. rewrite lock_mask_bit, andb_true_iff, Z.leb_le, Z.ltb_lt by lia. done. Qed.

Lemma find_elem d q : find_shm d (pFirst x) = Some q → (d, q) ∈ pFirst x.
Proof using Hx. apply elem_find, Hx. Qed.

Lemma masks_elem d k : shared_at (masks (Some x) None d) k ∨ excl_at (masks (Some x) None d) k → ∃ q, (d, q) ∈ pFirst x ∧ masks (Some x) None d = q.
Proof using Hx.
  unfold masks, conn. cbn. destruct (find_shm d (pFirst x)) as [q|] eqn:E; [intros _; exists q; by split; [apply find_elem|]|]. unfold shared_at, excl_at. cbn. rewrite Z.bits_0. intros [?|?]; done.
Qed.

(** A shared lock: no connection has the slot exclusively. *)
Lemma backed_shared m' : n = 1 → (∀ d q, (d, q) ∈ pFirst x → (exclMask q .& lock_mask ofst n =? 0) = true) →
  m' = setl (Flock F_RDLCK (ofst + UNIX_SHM_BASE) n) m ∨ (m' = m ∧ m (UNIX_SHM_BASE + ofst) ≠ F_UNLCK) →
  backed (masks (Some x) None) true m' ∧ backed (λ d, if decide (d = c) then UnixShm (sharedMask p .| lock_mask ofst n) (exclMask p) else masks (Some x) None d) true m'.
Proof using Hx Hc H0 Hn Hr.
  intros Hn1 Hall Hm'. pose proof (no_backed _ _ Hx) as [B1 B2 B3 B4]. pose proof (masks_find x c p Hc) as Hp.
  assert (∀ d k, excl_at (masks (Some x) None d) k → k ≠ ofst) as Hne.
  { intros d k Hk ->. destruct (masks_elem d ofst (or_intror Hk)) as (q & Hq & E). rewrite E in Hk. apply (proj1 (land_zero_spec _ _) (Hall d q Hq) ofst Hk). apply mask_at. lia. }
  assert (m' (UNIX_SHM_BASE + ofst) ≠ F_UNLCK) as Hofst by (destruct Hm' as [->|[-> ?]]; [|done]; rewrite set_slot, decide_True by lia; done).
  assert (∀ k, k ≠ ofst → m' (UNIX_SHM_BASE + k) = m (UNIX_SHM_BASE + k)) as Hoth by (intros k Hk; destruct Hm' as [->|[-> ?]]; [|done]; rewrite set_slot, decide_False by lia; done).
  assert (m' UNIX_SHM_DMS = m UNIX_SHM_DMS) as Hd by (destruct Hm' as [->|[-> _]]; [|done]; rewrite set_dms by lia; done).
  assert (backed (masks (Some x) None) true m') as Hb.
  { split; [| |done|by rewrite Hd].
    - intros d k Hk. rewrite Hoth by (by eapply Hne). by eapply B1.
    - intros d k Hk. split; [by eapply B2|]. destruct (decide (k = ofst)) as [->|Hko]; [done|]. rewrite Hoth by done. by eapply B2. }
  split; [done|]. destruct Hb as [C1 C2 C3 C4]. split; [| | |done].
  - intros d k. case_decide as Hdc; [|apply C1]. subst d. intros Hk. apply (C1 c k). by rewrite Hp.
  - intros d k. case_decide as Hdc; [|apply C2]. subst d. unfold shared_at. cbn. rewrite Z.lor_spec. intros [Hk|Hk]%orb_prop.
    + apply (C2 c k). by rewrite Hp.
    + apply mask_at in Hk. assert (k = ofst) as -> by lia. split; [lia|done].
  - intros d e k Hde. destruct (decide (d = c)) as [->|Hdc], (decide (e = c)) as [->|Hec]; try done.
    + intros Hk. apply (C3 c e k Hde). by rewrite Hp.
    + intros Hk. destruct (C3 d c k Hde Hk) as [K1 K2]. rewrite Hp in K1, K2. split; [exact K1|]. unfold shared_at in *. cbn. rewrite Z.lor_spec. intros [Hs|Hs]%orb_prop; [done|]. apply mask_at in Hs. apply (Hne d k Hk). lia.
    + apply (C3 d e k Hde).
Qed.

(** An exclusive lock: no connection has any of the slots. *)
Lemma backed_excl m' : (∀ d q, (d, q) ∈ pFirst x → (exclMask q .& lock_mask ofst n =? 0) = true ∧ (sharedMask q .& lock_mask ofst n =? 0) = true) →
  m' = setl (Flock F_WRLCK (ofst + UNIX_SHM_BASE) n) m →
  backed (masks (Some x) None) true m' ∧ backed (λ d, if decide (d = c) then UnixShm (sharedMask p) (exclMask p .| lock_mask ofst n) else masks (Some x) None d) true m'.
Proof using Hx Hc H0 Hn Hr.
  intros Hall ->. pose proof (no_backed _ _ Hx) as [B1 B2 B3 B4]. pose proof (masks_find x c p Hc) as Hp.
  assert (∀ d k, shared_at (masks (Some x) None d) k ∨ excl_at (masks (Some x) None d) k → ¬ (ofst ≤ k < ofst + n)) as Hne.
  { intros d k Hk Hin%mask_at. destruct (masks_elem d k Hk) as (q & Hq & E). rewrite E in Hk. destruct (Hall d q Hq) as [Z1 Z2]. destruct Hk as [Hk|Hk]; [by apply (proj1 (land_zero_spec _ _) Z2 k)|by apply (proj1 (land_zero_spec _ _) Z1 k)]. }
  assert (backed (masks (Some x) None) true (setl (Flock F_WRLCK (ofst + UNIX_SHM_BASE) n) m)) as Hb.
  { split; [| |done|by rewrite set_dms by lia].
    - intros d k Hk. rewrite set_slot by lia. rewrite decide_False by (apply (Hne d); by right). by eapply B1.
    - intros d k Hk. rewrite set_slot by lia. rewrite decide_False by (apply (Hne d); by left). by eapply B2. }
  split; [done|]. destruct Hb as [C1 C2 C3 C4]. split; [| | |done].
  - intros d k. case_decide as Hdc; [|apply C1]. subst d. unfold excl_at. cbn. rewrite Z.lor_spec. intros [Hk|Hk]%orb_prop.
    + apply (C1 c k). by rewrite Hp.
    + apply mask_at in Hk. split; [lia|]. by rewrite set_slot, decide_True by lia.
  - intros d k. case_decide as Hdc; [|apply C2]. subst d. intros Hk. apply (C2 c k). by rewrite Hp.
  - intros d e k Hde. destruct (decide (d = c)) as [->|Hdc], (decide (e = c)) as [->|Hec]; try done.
    + unfold excl_at at 1. cbn. rewrite Z.lor_spec. intros [Hk|Hk]%orb_prop; [apply (C3 c e k Hde); by rewrite Hp|]. apply mask_at in Hk. split; intros Hh; apply (Hne e k); auto.
    + intros Hk. destruct (C3 d c k Hde Hk) as [K1 K2]. rewrite Hp in K1, K2. split; [|exact K2]. unfold excl_at in *. cbn. rewrite Z.lor_spec. intros [Hs|Hs]%orb_prop; [done|]. apply mask_at in Hs. apply (Hne d k); auto.
    + apply (C3 d e k Hde).
Qed.

(** Unlocking: the slots are released unless another connection shares them. *)
Lemma backed_unlock m' : m' = setl (Flock F_UNLCK (ofst + UNIX_SHM_BASE) n) m ∨ m' = m →
  (m' = m ∨ ∀ d k, d ≠ c → ofst ≤ k < ofst + n → ¬ shared_at (masks (Some x) None d) k ∧ ¬ excl_at (masks (Some x) None d) k) →
  backed (λ d, if decide (d = c) then UnixShm (Z.ldiff (sharedMask p) (lock_mask ofst n)) (Z.ldiff (exclMask p) (lock_mask ofst n)) else masks (Some x) None d) true m'.
Proof using Hx Hc H0 Hn Hr.
  intros Hm' Hoth. pose proof (no_backed _ _ Hx) as [B1 B2 B3 B4]. pose proof (masks_find x c p Hc) as Hp.
  assert (∀ k, ¬ (ofst ≤ k < ofst + n) → m' (UNIX_SHM_BASE + k) = m (UNIX_SHM_BASE + k)) as Hout by (intros k Hk; destruct Hm' as [-> | ->]; [|done]; rewrite set_slot, decide_False by (done || lia); done).
  assert (∀ a k, Z.testbit (Z.ldiff a (lock_mask ofst n)) k = true → Z.testbit a k = true ∧ ¬ (ofst ≤ k < ofst + n)) as Hld.
  { intros a k. rewrite Z.ldiff_spec. intros [H1 H2]%andb_prop. split; [done|]. intros Hin%mask_at. by rewrite Hin in H2. }
  split.
  - intros d k. case_decide as Hdc; [subst d; intros [Hk Ho]%Hld|intros Hk]. { rewrite Hout by done. apply (B1 c k). by rewrite Hp. }
    destruct (B1 d k Hk) as [Hk8 Hw]. split; [done|]. destruct (decide (ofst ≤ k < ofst + n)) as [Hin|Ho]; [|by rewrite Hout]. destruct Hoth as [->|Hoth]; [done|]. by destruct (Hoth d k Hdc Hin).
  - intros d k. case_decide as Hdc; [subst d; intros [Hk Ho]%Hld|intros Hk]. { rewrite Hout by done. apply (B2 c k). by rewrite Hp. }
    destruct (B2 d k Hk) as [Hk8 Hw]. split; [done|]. destruct (decide (ofst ≤ k < ofst + n)) as [Hin|Ho]; [|by rewrite Hout]. destruct Hoth as [->|Hoth]; [done|]. by destruct (Hoth d k Hdc Hin).
  - intros d e k Hde. destruct (decide (d = c)) as [->|Hdc], (decide (e = c)) as [->|Hec]; try done.
    + intros [Hk Ho]%Hld. apply (B3 c e k Hde). by rewrite Hp.
    + intros Hk. destruct (B3 d c k Hde Hk) as [K1 K2]. rewrite Hp in K1, K2. split; intros [Hs _]%Hld; done.
    + apply (B3 d e k Hde).
  - intros _. destruct Hm' as [-> | ->]; [rewrite set_dms by lia|]; by apply B4.
Qed.
End lock.

Lemma wp_set_shm {B} c p (k : () → os shm B) Q x m : wp T I ok Q (k () (Some (node_list (update_shm c p (pFirst x)) x))) m → wp T I ok Q ((set_shm c p ≫= k) (Some x)) m.
Proof. done. Qed.

Lemma wp_unixShmLock c ofst n fl Q x m : node_ok x m → shm_may_start (Some x) (OpShmLock c ofst n fl) →
  (∀ m', shm_promise (Some x) (Some (OpShmLock c ofst n fl)) m' → I m') → (∀ rc s' m', shm_ok s' m' → Q (rc, s') m') →
  wp T I ok Q (unixShmLock c ofst n fl (Some x)) m.
Proof.
  intros Hx Hst HI HQ. unfold shm_may_start, conn in Hst. cbn in Hst. destruct (find_shm c (pFirst x)) as [p|] eqn:Hc; [|done]. destruct Hst as (H0 & Hr & Hn & Hfl).
  assert (find_shm c (pFirst x) ≠ None) as Hc' by (by rewrite Hc). pose proof (no_backed _ _ Hx) as [B1 B2 B3 B4]. pose proof (masks_find x c p Hc) as Hp.
  unfold unixShmLock. apply wp_get_node. apply (wp_some _ _ _ _ p); [done|].
  apply wp_assert; [by rewrite (proj2 (Z.leb_le 0 ofst)), (proj2 (Z.leb_le (ofst + n) SQLITE_SHM_NLOCK))|]. apply wp_assert; [apply Z.leb_le; lia|].
  apply wp_assert; [destruct Hfl as [[-> _]|[->|[[-> _]|[-> _]]]]; done|]. apply wp_assert; [destruct Hfl as [[-> ->]|[->|[[-> [-> _]]|[-> _]]]]; done || apply orb_true_r|].
  fold (lock_mask ofst n). apply wp_assert.
  { destruct (Z.ltb_spec 1 n); [done|]. assert (n = 1) as -> by lia. apply Z.eqb_eq. unfold lock_mask. rewrite !Z.shiftl_1_l, Z.pow_add_r by lia. replace (2 ^ ofst * 2 ^ 1 - 2 ^ ofst) with (2 ^ ofst) by lia.
    apply uw_small. split; [apply Z.pow_nonneg; lia|]. apply Z.pow_lt_mono_r; sh. }
  assert (∀ m', fl .& SQLITE_SHM_UNLOCK = 0 → backed (masks (Some x) None) true m' → I m') as HIl.
  { intros m' Hu Hb. apply HI. eapply backed_ext; [|exact Hb]. intros d. unfold masks. destruct (conn (Some x) d); [|done]. by rewrite decide_False by (intros [_ ?]; done). }
  destruct Hfl as [[-> ->]|[->|Hfl]].
  - cbn [Z.eqb negb]. change (negb (SQLITE_SHM_LOCK .| SQLITE_SHM_SHARED .& SQLITE_SHM_UNLOCK =? 0)) with false. change (negb (SQLITE_SHM_LOCK .| SQLITE_SHM_SHARED .& SQLITE_SHM_SHARED =? 0)) with true. cbn iota.
    destruct (all_shared _ _ _) as [r|] eqn:Ha; [|by apply HQ]. destruct (all_shared_spec _ _ _ _ Ha) as (A1 & A2 & _). assert (∀ d q, (d, q) ∈ pFirst x → (exclMask q .& lock_mask ofst 1 =? 0) = true) as Hall by (intros d q Hq; by apply (A1 d q)).
    assert (∀ m', m' = setl (Flock F_RDLCK (ofst + UNIX_SHM_BASE) 1) m ∨ (m' = m ∧ m (UNIX_SHM_BASE + ofst) ≠ F_UNLCK) → wp T I ok Q ((_ ← set_shm c (UnixShm (sharedMask p .| lock_mask ofst 1) (exclMask p)); mret SQLITE_OK) (Some x)) m') as Hdone.
    { intros m' Hm'. apply wp_set_shm. apply HQ. eapply node_ok_update; [exact Hx|done|]. by apply (backed_shared x m Hx c p Hc ofst 1). }
    assert (I m) as Hm by (by apply HIl; [|split]). apply wp_bind. rewrite (land_one r ofst) by lia. destruct (Z.testbit r ofst) eqn:Hb; cbn [negb].
    + apply Hdone. right. split; [done|]. destruct (A2 ofst Hb) as [Hz|(d & q & Hq & Hs)]; [by rewrite Z.bits_0 in Hz|]. apply (B2 d ofst). apply elem_find in Hq; [|apply Hx]. by rewrite (masks_find x d q Hq).
    + apply wp_system_lock; [apply Hx|by left|lia|done| |apply Hdone; by left|by apply HQ]. apply HIl; [done|]. apply (backed_shared x m Hx c p Hc ofst 1); auto; lia.
  - change (negb (SQLITE_SHM_LOCK .| SQLITE_SHM_EXCLUSIVE .& SQLITE_SHM_UNLOCK =? 0)) with false. change (negb (SQLITE_SHM_LOCK .| SQLITE_SHM_EXCLUSIVE .& SQLITE_SHM_SHARED =? 0)) with false. cbn iota.
    destruct (none_locked _ _) eqn:Ha; cbn [negb]; [|by apply HQ]. assert (I m) as Hm by (by apply HIl; [|split]). assert (∀ d q, (d, q) ∈ pFirst x → (exclMask q .& lock_mask ofst n =? 0) = true ∧ (sharedMask q .& lock_mask ofst n =? 0) = true) as Hall by (intros d q; by apply none_locked_spec).
    destruct (backed_excl x m Hx c p Hc ofst n H0 Hn Hr _ Hall eq_refl) as [E1 E2].
    apply wp_bind, wp_system_lock; [apply Hx|by right|lia|done|by apply HIl| |by apply HQ]. change (SQLITE_OK =? SQLITE_OK) with true. cbn iota. apply wp_assert; [apply (Hall c p), elem_find; [apply Hx|done]|].
    apply wp_set_shm. apply HQ. by eapply node_ok_update.
  - assert (fl .& SQLITE_SHM_UNLOCK ≠ 0 ∧ ((n = 1 ∧ sharedMask p .& lock_mask ofst n = lock_mask ofst n) ∨ exclMask p .& lock_mask ofst n = lock_mask ofst n)) as [Hu Hown] by (destruct Hfl as [(-> & ? & ?)|[-> ?]]; auto).
    rewrite (proj2 (Z.eqb_neq _ _) Hu). cbn [negb].
    assert (∀ m', backed (λ d, if decide (d = c) then UnixShm (Z.ldiff (sharedMask p) (lock_mask ofst n)) (Z.ldiff (exclMask p) (lock_mask ofst n)) else masks (Some x) None d) true m' → I m') as HIu.
    { intros m' Hb. apply HI. eapply backed_ext; [|exact Hb]. intros d. unfold masks at 2. unfold conn. cbn. destruct (decide (d = c)) as [->|Hd]; [rewrite Hc; by rewrite decide_True by done|]. unfold masks, conn. cbn.
      destruct (find_shm d (pFirst x)); [|done]. by rewrite decide_False by (intros [? _]; congruence). }
    assert (∀ d q, (d, q) ∈ pFirst x → d ≠ c → ∀ k, excl_at q k → ¬ shared_at p k ∧ ¬ excl_at p k) as Hsib.
    { intros d q Hq Hd k Hk. apply elem_find in Hq; [|apply Hx]. pose proof (B3 d c k Hd) as H3. rewrite (masks_find x d q Hq), Hp in H3. by destruct (H3 Hk). }
    destruct (siblings_shared_spec c p (pFirst x) 0) as (r & Er & S1 & S2 & _).
    { intros d q Hq Hd. apply land_zero_spec. intros k Hk. rewrite Z.lor_spec. intros [Ho|Ho]%orb_prop; destruct (Hsib d q Hq Hd k Hk); done. }
    apply wp_bind. unfold os_lift. rewrite Er. cbn [wp fst snd].
    assert (∀ m', backed (λ d, if decide (d = c) then UnixShm (Z.ldiff (sharedMask p) (lock_mask ofst n)) (Z.ldiff (exclMask p) (lock_mask ofst n)) else masks (Some x) None d) true m' →
      wp T I ok Q ((_ ← set_shm c (UnixShm (Z.ldiff (sharedMask p) (lock_mask ofst n)) (Z.ldiff (exclMask p) (lock_mask ofst n))); mret SQLITE_OK) (Some x)) m') as Hdone.
    { intros m' Hb. apply wp_set_shm. apply HQ. by eapply node_ok_update. }
    pose proof (backed_unlock x m Hx c p Hc ofst n H0 Hn Hr m (or_intror eq_refl) (or_introl eq_refl)) as Hb0.
    apply wp_bind. destruct (lock_mask ofst n .& r =? 0) eqn:Hz; [|by apply Hdone].
    assert (∀ d k, d ≠ c → ofst ≤ k < ofst + n → ¬ shared_at (masks (Some x) None d) k ∧ ¬ excl_at (masks (Some x) None d) k) as Hfree.
    { intros d k Hd Hk. pose proof (proj2 (mask_at ofst n H0 Hn Hr k) Hk) as Hmk. split; intros Hs.
      - destruct (masks_elem x m Hx d k (or_introl Hs)) as (q & Hq & E). rewrite E in Hs. exact (proj1 (land_zero_spec _ _) Hz k Hmk (S1 d q k Hq Hd Hs)).
      - destruct (masks_elem x m Hx d k (or_intror Hs)) as (q & Hq & E). rewrite E in Hs. destruct (Hsib d q Hq Hd k Hs) as [N1 N2]. destruct Hown as [[_ Ho]|Ho]; [apply N1|apply N2]; by eapply land_subset. }
    pose proof (backed_unlock x m Hx c p Hc ofst n H0 Hn Hr _ (or_introl eq_refl) (or_intror Hfree)) as Hb1.
    apply wp_system_lock; [apply Hx|by right|lia|by apply HIu|by apply HIu|by apply Hdone|by apply HQ].
Qed.

(** ** Connecting and disconnecting *)

(** A node without connections is closed. *)
Lemma wp_purge Q s m : (∀ m', I m') → (∀ x, s = Some x → node_nRef x = 0) → (∀ m', Q ((), None) m') → wp T I ok Q (unixShmPurge s) m.
Proof.
  intros HI Hs HQ. unfold unixShmPurge. apply wp_bind. cbn [wp os_get fst snd id]. destruct s as [x|]; [|apply HQ]. rewrite (Hs x eq_refl). cbn [Z.eqb]. apply wp_bind. destruct (0 <=? node_h x).
  - apply wp_close; [done|done|]. intros y m' _. apply HQ.
  - apply HQ.
Qed.

Lemma masks_cons x y c p : find_shm c (pFirst x) = None → pFirst y = (c, p) :: pFirst x → ∀ d, masks (Some y) None d = if decide (d = c) then p else masks (Some x) None d.
Proof. intros Hc Hy d. unfold masks, conn. cbn. rewrite Hy. cbn. destruct (decide (c = d)) as [->|Hd]; [by rewrite decide_True|]. by rewrite decide_False by congruence. Qed.

Lemma setl_self t a m : setl (Flock t a 1) m a = t.
Proof. rewrite setl_at by lia. by rewrite decide_True by lia. Qed.

(** The dead-man switch is locked when the node is ready, exclusively while the file is truncated. *)
Lemma wp_open_node dbh ro Q m : (∀ m', I m') → (∀ m', m' UNIX_SHM_DMS = F_WRLCK → T m') → (∀ f x, ok (OPEN f) x → x.1 = 0 → 0 ≤ x.2) →
  (∀ h m', 0 ≤ h → m' UNIX_SHM_DMS ≠ F_UNLCK → Q (SQLITE_OK, Some (UnixShmNode h ro 0 [])) m') →
  (∀ rc s m', rc ≠ SQLITE_OK → (∀ x, s = Some x → node_nRef x = 0) → Q (rc, s) m') → wp T I ok Q (open_node dbh 0 ro None) m.
Proof.
  intros HI HT Hopen HQ Hf. assert (∀ rc s m', rc ≠ SQLITE_OK → (∀ x, s = Some x → node_nRef x = 0) → wp T I ok Q ((mret rc : os shm Z) s) m') as Hfail by (intros; by apply Hf).
  unfold open_node. apply wp_value; [done|done|done|]. intros st _. destruct (negb (st.1 =? 0) && (0 =? 0)); [by apply Hfail|].
  apply wp_value; [done|done|done|]. intros a _. destruct (negb _); [by apply Hfail|]. apply wp_set_node. apply wp_value; [done|done|done|]. intros b _. destruct (negb _); [by apply Hfail; [|intros y [= <-]]|].
  change (0 =? 0) with true. cbn iota. apply wp_value; [done|done|done|]. intros y Hy. apply wp_set_node. destruct (Z.eqb_spec y.1 0) as [Hy0|Hy0]; cbn [negb]; [|by apply Hfail; [|intros z [= <-]]].
  pose proof (Hopen _ _ Hy Hy0) as Hh. set (x := UnixShmNode y.2 ro 0 []).
  assert (∀ m', wp T I ok Q (unixShmSystemLock F_RDLCK UNIX_SHM_DMS 1 (Some x)) m') as Hrd.
  { intros m'. apply wp_system_lock; [done|by left|sh|done|done|apply HQ; [done|by rewrite setl_self]|]. by apply Hf; [|intros z [= <-]]. }
  apply wp_bind, wp_system_lock; [done|by left|sh|done|done| |].
  - change (SQLITE_OK =? SQLITE_OK) with true. cbn iota. apply wp_bind. apply wp_truncate; [apply HT; by rewrite setl_self|done|]. intros t. cbn [wp mret os_ret fst snd]. destruct (t.1 =? 0); cbn [negb]; [apply Hrd|]. by apply Hf; [|intros z [= <-]].
  - change (SQLITE_BUSY =? SQLITE_OK) with false. cbn iota. apply Hrd.
Qed.

Lemma wp_open_shm c dbh ro Q s m : shm_ok s m → conn s c = None → I m → (s = None → ∀ m', I m') → (∀ m', m' UNIX_SHM_DMS = F_WRLCK → T m') →
  (∀ f x, ok (OPEN f) x → x.1 = 0 → 0 ≤ x.2) → (∀ rc s' m', shm_ok s' m' → Q (rc, s') m') → wp T I ok Q (unixOpenSharedMemory c dbh 0 ro s) m.
Proof.
  intros Hs Hc Hm HI HT Hopen HQ. unfold unixOpenSharedMemory. apply wp_value; [done|done|done|]. intros a _. destruct (negb _); [by apply HQ|]. apply wp_bind. cbn [wp os_get fst snd id].
  assert (∀ x m', find_shm c (pFirst x) = None → 0 ≤ node_h x → node_nRef x = Z.of_nat (length (pFirst x)) → NoDup (pFirst x).*1 → backed (masks (Some x) None) true m' →
    wp T I ok Q ((pShmNode ← get_node; let pShmNode := node_refs (node_nRef pShmNode + 1) pShmNode in
      _ ← set_node (Some (node_list ((c, UnixShm 0 0) :: pFirst pShmNode) pShmNode)); mret SQLITE_OK) (Some x)) m') as Hadd.
  { intros x m' Hx H1 H2 H3 H4. apply wp_get_node. apply wp_set_node. apply HQ. split; cbn [node_list node_refs node_h node_nRef pFirst].
    - done.
    - cbn. lia.
    - done.
    - cbn. constructor; [|done]. intros ((j & q) & -> & Hq)%list_elem_of_fmap. apply elem_find in Hq; [|done]. cbn in Hx. congruence.
    - eapply backed_ext; [|exact H4]. intros d. etrans; [|symmetry; by apply (masks_cons x _ c (UnixShm 0 0) Hx)]. case_decide as Hd; [|done]. subst d. unfold masks, conn. cbn. by rewrite Hx. }
  destruct s as [x|].
  - unfold conn in Hc. cbn in Hc. destruct Hs as [H1 H2 H3 H4 H5]. apply wp_bind. apply wp_assert; [by rewrite Hc|]. cbn [wp mret os_ret fst snd]. change (negb (SQLITE_OK =? SQLITE_OK)) with false. cbn iota. by apply Hadd.
  - apply wp_bind. apply wp_open_node; [by apply HI|done|done| |].
    + intros h m' Hh Hd. change (negb (SQLITE_OK =? SQLITE_OK)) with false. cbn iota. apply Hadd; [done|done|done|constructor|].
      split; [intros d k|intros d k|intros d e k _|done]; unfold masks, conn, excl_at, shared_at; cbn; by rewrite Z.bits_0.
    + intros rc s m' Hrc Hz. cbn [fst snd]. rewrite (proj2 (Z.eqb_neq _ _) Hrc). cbn [negb]. apply wp_bind, wp_purge; [by apply HI|done|]. intros m2. by apply HQ.
Qed.

Lemma wp_unmap c Q s m : shm_ok s m → I m → (∀ x, s = Some x → node_nRef x = 1 → ∀ m', find_shm c (pFirst x) ≠ None → I m') → (∀ rc s' m', shm_ok s' m' → Q (rc, s') m') → wp T I ok Q (unixShmUnmap c false s) m.
Proof.
  intros Hs Hm HI HQ. unfold unixShmUnmap. apply wp_bind. cbn [wp os_get fst snd id]. destruct s as [x|]; cbn [mbind option_bind]; [|by apply HQ].
  destruct (find_shm c (pFirst x)) as [p|] eqn:Hc; [|by apply HQ]. assert (find_shm c (pFirst x) ≠ None) as Hc' by (by rewrite Hc). pose proof Hs as [H1 H2 H3 H4 H5].
  pose proof (remove_length _ _ Hc') as Hl. apply wp_get_node. apply wp_assert; [cbn; apply Z.ltb_lt; lia|]. apply wp_set_node. cbn [node_nRef node_refs node_list]. destruct (Z.eqb_spec (node_nRef x - 1) 0) as [Hz|Hz].
  - apply wp_bind. cbn [andb wp mret os_ret fst snd]. apply wp_bind, wp_purge; [intros m'; by apply (HI x eq_refl); [lia|]|intros y [= <-]; cbn; lia|]. intros m'. by apply HQ.
  - apply HQ. destruct (remove_keys (pFirst x) c H4) as [K1 K2]. split; cbn; [done|lia| |done|].
    + intros Hn. rewrite Hn in Hl. cbn in Hl. lia.
    + destruct H5 as [B1 B2 B3 B4].
      assert (∀ d, masks (Some (node_refs (node_nRef x - 1) (node_list (remove_shm c (pFirst x)) x))) None d = if decide (d = c) then UnixShm 0 0 else masks (Some x) None d) as Hmk.
      { intros d. unfold masks, conn. cbn. rewrite find_remove by done. by case_decide. }
      split; [intros d k|intros d k|intros d e k Hde|done]; rewrite !Hmk.
      * case_decide; [unfold excl_at; cbn; by rewrite Z.bits_0|apply B1].
      * case_decide; [unfold shared_at; cbn; by rewrite Z.bits_0|apply B2].
      * destruct (decide (d = c)), (decide (e = c)); unfold excl_at, shared_at; cbn; rewrite ?Z.bits_0; try done. by apply B3.
Qed.
End code.

(** ** Exclusion *)

Lemma shm_ok_promise s o m : shm_ok s m → shm_promise s (Some o) m.
Proof.
  intros Hs. destruct s as [x|].
  2: { split; [intros c k|intros c k|intros c d k _|done]; unfold masks, conn, excl_at, shared_at; cbn; by rewrite Z.bits_0. }
  pose proof (no_backed _ _ Hs) as [B1 B2 B3 B4].
  assert (∀ c k, (excl_at (masks (Some x) (Some o) c) k → excl_at (masks (Some x) None c) k) ∧ (shared_at (masks (Some x) (Some o) c) k → shared_at (masks (Some x) None c) k)) as Hle.
  { intros c k. unfold masks. destruct (conn (Some x) c) as [p|]; [|done]. destruct o as [| |]; [done| |]; case_decide; unfold excl_at, shared_at; cbn; rewrite ?Z.ldiff_spec, ?Z.bits_0; split; try done; by intros [? _]%andb_prop. }
  split.
  - intros c k Hk. apply (B1 c). by apply Hle.
  - intros c k Hk. apply (B2 c). by apply Hle.
  - intros c d k Hcd Hk. destruct (B3 c d k Hcd ltac:(by apply Hle)) as [N1 N2]. split; intros Hx; [apply N1|apply N2]; by apply Hle.
  - intros _. by apply B4.
Qed.

#[global] Instance shm_locks_sound : Sound shm_locks shm_ok shm_promise.
Proof.
  assert (∀ o m, shm_promise None o m) as Hnone.
  { intros o m. split; [intros c k|intros c k|intros c d k _|done]; unfold masks, conn, excl_at, shared_at; cbn; by rewrite Z.bits_0. }
  split.
  - done.
  - intros [x|] m Hs; [apply Hs|apply Hnone].
  - intros s o m Hs _. by apply shm_ok_promise.
  - intros s o m Hs Hst. pose proof (shm_ok_promise s o m Hs) as Hm. destruct o as [c dbh ro|c ofst n fl|c del]; cbn [code shm_locks shm_code may_start] in *.
    + apply wp_open_shm; [done|done|done|intros -> m'; apply Hnone|done|intros f x Hx; exact Hx|done].
    + destruct s as [x|]; [|done]. by apply wp_unixShmLock.
    + cbn in Hst. subst del. apply wp_unmap; [done|done| |done]. intros x -> Hr m' Hc. pose proof Hs as [N1 N2 N3 N4 N5].
      assert (∀ d, masks (Some x) (Some (OpShmUnmap c false)) d = UnixShm 0 0) as Hz.
      { intros d. unfold masks, conn. cbn. destruct (find_shm d (pFirst x)) as [p|] eqn:Ed; [|done]. case_decide as Hd; [done|]. destruct (pFirst x) as [|[j q] [|? ?]] eqn:El; [done| |cbn in N2; lia]. cbn in Hc, Ed. destruct (decide (j = c)), (decide (j = d)); congruence. }
      split; [intros d k|intros d k|intros d e k _|]; rewrite ?Hz; unfold excl_at, shared_at; cbn; rewrite ?Z.bits_0, ?Hr; done.
Qed.

(** The locks of connection [c] of process [i]. *)
Definition masks_of (w : machine shm shm_op) (i c : nat) : unixShm :=
  match w !! i with Some p => masks (memory p) (fst <$> running p) c | None => UnixShm 0 0 end.

Lemma masks_none k : ¬ excl_at (UnixShm 0 0) k ∧ ¬ shared_at (UnixShm 0 0) k.
Proof. unfold excl_at, shared_at. cbn. by rewrite Z.bits_0. Qed.

(** C17: the locks of the shared memory exclude each other. Whatever processes connect, lock,
    unlock and disconnect, in whatever order their system calls interleave and fail and whatever process
    dies: if a connection has an exclusive lock of a slot then no other connection, in the same process
    or in another, has a lock of that slot. A process truncates the shared memory only
    while no other process is connected to it, and no operation runs into a failed assertion or another fault. *)
Theorem unixShmLock_exclusion w : rtc (step shm_locks) ∅ w →
  (∀ i c j d k, (i, c) ≠ (j, d) → excl_at (masks_of w i c) k → ¬ excl_at (masks_of w j d) k ∧ ¬ shared_at (masks_of w j d) k) ∧
  (∀ i p o r j q, w !! i = Some p → running p = Some (o, Sys FTRUNCATE r) → w !! j = Some q → i ≠ j → connected (memory q) (fst <$> running q) = false) ∧
  (∀ i p o e, w !! i = Some p → running p ≠ Some (o, Bad e)).
Proof.
  intros Hw. pose proof (reachable_ok shm_locks (Inv := shm_ok) (Prom := shm_promise) w Hw) as [Hp Hc]. split; [|split].
  - intros i c j d k Hne. unfold masks_of. destruct (w !! i) as [p|] eqn:Ei; [|by intros ?%masks_none]. destruct (w !! j) as [q|] eqn:Ej; [|intros _; apply masks_none].
    pose proof (pk_prom _ _ (Hp i p Ei)) as [P1 _ P3 _]. pose proof (pk_prom _ _ (Hp j q Ej)) as [Q1 Q2 _ _]. intros Hk. destruct (decide (i = j)) as [->|Hij].
    + rewrite Ei in Ej. injection Ej as <-. apply (P3 c d k); [congruence|done].
    + destruct (P1 c k Hk) as [_ Hx]. pose proof (Hc i j p q (UNIX_SHM_BASE + k) Ei Ej Hij) as Hcomp. rewrite Hx in Hcomp. split; intros Hk'; [destruct (Q1 d k Hk') as [_ Hy]; by rewrite Hy in Hcomp|destruct (Q2 d k Hk') as [_ Hy]; by destruct (locks q (UNIX_SHM_BASE + k))].
  - intros i p o r j q Ei Hr Ej Hij. pose proof (pk_run _ _ (Hp i p Ei)) as Hwp. rewrite Hr in Hwp. destruct Hwp as [Ht _]. specialize (Ht eq_refl). cbn in Ht.
    pose proof (bk_dms _ _ _ (pk_prom _ _ (Hp j q Ej))) as Hd. destruct (connected _ _); [|done]. exfalso. apply Hd; [done|]. pose proof (Hc i j p q UNIX_SHM_DMS Ei Ej Hij) as Hcomp. rewrite Ht in Hcomp. by destruct (locks q UNIX_SHM_DMS).
  - intros i p o e Ei Hr. pose proof (pk_run _ _ (Hp i p Ei)) as H. by rewrite Hr in H.
Qed.

(** Two processes, the second with two connections: a writer, readers, and a writer that has to wait. *)
Definition shm_demo_run : list (nat * option shm_op) :=
  [(1, None); (2, None); (1, Some (OpShmOpen 0 3 false)); (2, Some (OpShmOpen 0 3 false)); (2, Some (OpShmOpen 1 3 false));
   (1, Some (OpShmLock 0 0 1 10)); (2, Some (OpShmLock 0 3 1 6)); (2, Some (OpShmLock 1 3 1 6)); (2, Some (OpShmLock 1 0 1 10));
   (2, Some (OpShmLock 0 3 1 5)); (1, Some (OpShmLock 0 3 5 10)); (2, Some (OpShmLock 1 3 1 5)); (1, Some (OpShmLock 0 3 5 10)); (2, Some (OpShmUnmap 0 false))]%nat%Z.

Definition shm_follows (s : shm) (o : shm_op) : bool := bool_decide (shm_may_start s o).
Definition shm_demo_machine : machine shm shm_op := match exec_all shm_locks shm_follows ∅ shm_demo_run with Some (_, w) => w | None => ∅ end.

Lemma shm_demo_results : fst <$> exec_all shm_locks shm_follows ∅ shm_demo_run = Some [0; 0; 0; 0; 0; 0; 0; 0; 5; 0; 5; 0; 0; 0].
Proof. vm_compute. reflexivity. Qed.

Lemma shm_demo_reachable : rtc (step shm_locks) ∅ shm_demo_machine.
Proof.
  unfold shm_demo_machine. destruct (exec_all shm_locks shm_follows ∅ shm_demo_run) as [[rs w]|] eqn:E; [|apply rtc_refl].
  eapply (exec_all_steps shm_locks shm_follows); [intros s o; apply bool_decide_eq_true|intros o os m c; by destruct c|exact E].
Qed.

Lemma unixShmLock_exclusion_witness : excl_at (masks_of shm_demo_machine 1 0) 4 ∧ ¬ excl_at (masks_of shm_demo_machine 2 1) 4 ∧ ¬ shared_at (masks_of shm_demo_machine 2 1) 4.
Proof.
  assert (excl_at (masks_of shm_demo_machine 1 0) 4) as Hx by (vm_compute; reflexivity). split; [exact Hx|].
  destruct (unixShmLock_exclusion shm_demo_machine shm_demo_reachable) as [H _]. apply (H 1%nat 0%nat 2%nat 1%nat 4 ltac:(congruence) Hx).
Defined.
