(* ===== verification/WalIndex.v ===== *)
(** * The index of the write-ahead log

    Models the wal-index of src/wal.c: blocks of page numbers with a hash table
    each ([walHashGet], [walFramePage], [walFramePgno]), adding a frame
    ([walIndexAppend]), dropping frames after a rollback ([walCleanupHash]) and
    finding the last frame of a page ([sqlite3WalFindFrame]), with the linear
    search the code checks it against. The frames of the log are a list of page
    numbers; [index_ok] says that the pages record such a list. *)

From S2P Require Import Prelude.
#[local] Open Scope Z_scope.
#[local] Open Scope c_scope.
#[local] Open Scope list_scope.

Definition SQLITE_OK : Z := 0.
Definition SQLITE_NOMEM : Z := 7.
Definition SQLITE_CORRUPT : Z := 11.

Definition HASHTABLE_NPAGE : Z := 4096.
Definition HASHTABLE_HASH_1 : Z := 383.
Definition HASHTABLE_NSLOT : Z := HASHTABLE_NPAGE * 2.
(** Two headers of 48 bytes, 24 bytes for checkpoints and 16 for locks. *)
Definition WALINDEX_HDR_SIZE : Z := 48 * 2 + 24 + 16.
Definition HASHTABLE_NPAGE_ONE : Z := HASHTABLE_NPAGE - WALINDEX_HDR_SIZE / 4.

(** A page of the wal-index: [aPgno[1]] and the following, and [aHash]. *)
Record wi_page := WiPage { aPgno : list Z; aHash : list Z }.

Definition page_cap (iHash : Z) : Z := if iHash =? 0 then HASHTABLE_NPAGE_ONE else HASHTABLE_NPAGE.
Definition zero_page (iHash : Z) : wi_page :=
  WiPage (replicate (Z.to_nat (page_cap iHash)) 0) (replicate (Z.to_nat HASHTABLE_NSLOT) 0).

(** Reading an array. *)
Definition get (l : list Z) (i : Z) : outcome Z :=
  match zlookup l i with Some x => Ret x | None => Undef OutOfBounds end.

Definition walHash (iPage : Z) : Z := u32 (iPage * HASHTABLE_HASH_1) .& (HASHTABLE_NSLOT - 1).
Definition walNextHash (iPriorHash : Z) : Z := (iPriorHash + 1) .& (HASHTABLE_NSLOT - 1).

(** [*piZero] of [walHashGet]. *)
Definition block_zero (iHash : Z) : Z :=
  if iHash =? 0 then 0 else HASHTABLE_NPAGE_ONE + (iHash - 1) * HASHTABLE_NPAGE.

Definition walFramePage (iFrame : Z) : outcome Z :=
  let iHash := u32 (iFrame + HASHTABLE_NPAGE - HASHTABLE_NPAGE_ONE - 1) / HASHTABLE_NPAGE in
  _ ← c_assert (((iHash =? 0) || (HASHTABLE_NPAGE_ONE <? iFrame)) &&
                ((1 <=? iHash) || (iFrame <=? HASHTABLE_NPAGE_ONE)) &&
                ((iHash <=? 1) || (HASHTABLE_NPAGE_ONE + HASHTABLE_NPAGE <? iFrame)) &&
                ((2 <=? iHash) || (iFrame <=? HASHTABLE_NPAGE_ONE + HASHTABLE_NPAGE)) &&
                ((iHash <=? 2) || (HASHTABLE_NPAGE_ONE + 2 * HASHTABLE_NPAGE <? iFrame)));
  Ret iHash.

(** [walIndexPage]: pages are mapped on demand and start as zeros; [can_map]
    tells whether memory or the file system provides them. *)
Definition walIndexPage (can_map : bool) (pages : list wi_page) (iPage : Z) : Z * list wi_page :=
  if iPage <? Z.of_nat (length pages) then (SQLITE_OK, pages)
  else if can_map then
    (SQLITE_OK, pages ++ ((λ k, zero_page (Z.of_nat k)) <$> seq (length pages) (Z.to_nat (iPage + 1) - length pages)))
  else (SQLITE_NOMEM, pages).

(** [walHashGet] after [walIndexPage] has mapped the page: its arrays and
    [*piZero]. *)
Definition walHashGet (pages : list wi_page) (iHash : Z) : outcome (wi_page * Z) :=
  match zlookup pages iHash with
  | Some p => Ret (p, block_zero iHash)
  | None => Undef NullDeref
  end.

Definition walFramePgno (pages : list wi_page) (iFrame : Z) : outcome Z :=
  iHash ← walFramePage iFrame;
  p ← deref (zlookup pages iHash);
  if iHash =? 0 then get (aPgno p) (iFrame - 1)
  else get (aPgno p) ((iFrame - 1 - HASHTABLE_NPAGE_ONE) mod HASHTABLE_NPAGE).

Definition walCleanupHash (mxFrame : Z) (pages : list wi_page) : outcome (list wi_page) :=
  if mxFrame =? 0 then Ret pages else
  iHash ← walFramePage mxFrame;
  _ ← c_assert (iHash <? Z.of_nat (length pages));
  '(p, iZero) ← walHashGet pages iHash;
  let iLimit := mxFrame - iZero in
  _ ← c_assert (0 <? iLimit);
  let h := (λ e, if iLimit <? e then 0 else e) <$> aHash p in
  let g := take (Z.to_nat iLimit) (aPgno p) ++ replicate (length (aPgno p) - Z.to_nat iLimit) 0 in
  Ret (zinsert pages iHash (WiPage g h)).

(** [for(iKey=walHash(iPage); aHash[iKey]; iKey=walNextHash(iKey))] with
    [nCollide] in [walIndexAppend]; [None] is SQLITE_CORRUPT. *)
Fixpoint probe (h : list Z) (nCollide : nat) (iKey : Z) : outcome (option Z) :=
  e ← get h iKey;
  if e =? 0 then Ret (Some iKey)
  else match nCollide with O => Ret None | S n => probe h n (walNextHash iKey) end.

Definition walIndexAppend (can_map : bool) (mxFrame : Z) (iFrame iPage : Z) (pages : list wi_page)
    : outcome (Z * list wi_page) :=
  iHash ← walFramePage iFrame;
  let '(rc, pages) := walIndexPage can_map pages iHash in
  if negb (rc =? SQLITE_OK) then Ret (rc, pages) else
  '(p, iZero) ← walHashGet pages iHash;
  let idx := iFrame - iZero in
  _ ← c_assert (idx <=? HASHTABLE_NSLOT / 2 + 1);
  let pages := if idx =? 1 then zinsert pages iHash (zero_page iHash) else pages in
  '(p, _) ← walHashGet pages iHash;
  old ← get (aPgno p) (idx - 1);
  '(pages, p) ← (if negb (old =? 0) then
                   pages ← walCleanupHash mxFrame pages;
                   '(p, _) ← walHashGet pages iHash;
                   o ← get (aPgno p) (idx - 1);
                   _ ← c_assert (o =? 0);
                   Ret (pages, p)
                 else Ret (pages, p));
  _ ← c_assert (0 <? iPage);
  k ← probe (aHash p) (Z.to_nat idx) (walHash iPage);
  match k with
  | None => Ret (SQLITE_CORRUPT, pages)
  | Some iKey =>
      Ret (SQLITE_OK,
           zinsert pages iHash (WiPage (zinsert (aPgno p) (idx - 1) iPage) (zinsert (aHash p) iKey (u16 idx))))
  end.

(** [for(p=pList; p && rc==SQLITE_OK; p=p->pDirty){ iFrame++; rc =
    walIndexAppend(pWal, iFrame, p->pgno); }] of [sqlite3WalFrames]; also the
    last [iFrame]. [can_map] tells for each frame whether its page can be
    mapped. *)
Fixpoint append_frames (can_map : Z → bool) (mxFrame iFrame : Z) (l : list Z) (pages : list wi_page)
    : outcome (Z * list wi_page * Z) :=
  match l with
  | [] => Ret (SQLITE_OK, pages, iFrame)
  | x :: l' =>
      let iFrame := iFrame + 1 in
      '(rc, pages) ← walIndexAppend (can_map iFrame) mxFrame iFrame x pages;
      if rc =? SQLITE_OK then append_frames can_map mxFrame iFrame l' pages else Ret (rc, pages, iFrame)
  end.

(** The inner loop of [sqlite3WalFindFrame]; [None] is SQLITE_CORRUPT. *)
Fixpoint find_chain (p : wi_page) (iZero iLast pgno : Z) (nCollide : nat) (iKey iRead : Z) : outcome (option Z) :=
  e ← get (aHash p) iKey;
  if e =? 0 then Ret (Some iRead)
  else
    let iFrame := u32 (e + iZero) in
    iRead ← (if iFrame <=? iLast then
               g ← get (aPgno p) (e - 1); Ret (if g =? pgno then iFrame else iRead)
             else Ret iRead);
    match nCollide with O => Ret None | S n => find_chain p iZero iLast pgno n (walNextHash iKey) iRead end.

(** [for(iHash=walFramePage(iLast); iHash>=0 && iRead==0; iHash--)], with
    [left = iHash + 1] tables left; [nCollide] starts at
    [limit = HASHTABLE_NSLOT] for each. *)
Fixpoint find_tables (limit : nat) (can_map : bool) (pages : list wi_page) (iLast pgno : Z) (left : nat) : outcome (Z * Z) :=
  match left with
  | O => Ret (SQLITE_OK, 0)
  | S iHash =>
      let '(rc, pages) := walIndexPage can_map pages (Z.of_nat iHash) in
      if negb (rc =? SQLITE_OK) then Ret (rc, 0) else
      '(p, iZero) ← walHashGet pages (Z.of_nat iHash);
      _ ← c_assert (0 <? pgno);
      r ← find_chain p iZero iLast pgno limit (walHash pgno) 0;
      match r with
      | None => Ret (SQLITE_CORRUPT, 0)
      | Some iRead => if iRead =? 0 then find_tables limit can_map pages iLast pgno iHash else Ret (SQLITE_OK, iRead)
      end
  end.

(** [sqlite3WalFindFrame]: the result code and [*piRead]; [iLast] is
    [pWal->hdr.mxFrame] of the reader. *)
Definition sqlite3WalFindFrame (can_map : bool) (pages : list wi_page) (readLock iLast pgno : Z) : outcome (Z * Z) :=
  _ ← c_assert (0 <=? readLock);
  if (iLast =? 0) || (readLock =? 0) then Ret (SQLITE_OK, 0) else
  iHash ← walFramePage iLast;
  find_tables (Z.to_nat HASHTABLE_NSLOT) can_map pages iLast pgno (Z.to_nat (iHash + 1)).

(** The linear search of [sqlite3WalFindFrame] under
    SQLITE_ENABLE_EXPENSIVE_ASSERT, from the frame [iTest] down. *)
Fixpoint linear_search (pages : list wi_page) (pgno : Z) (iTest : nat) : outcome Z :=
  match iTest with
  | O => Ret 0
  | S n =>
      g ← walFramePgno pages (Z.of_nat iTest);
      if g =? pgno then Ret (Z.of_nat iTest) else linear_search pages pgno n
  end.

(** ** Probing *)

(** The [k]-th slot tried for a hash value. *)
Definition slot (h0 k : Z) : Z := (h0 + k) mod HASHTABLE_NSLOT.
Definition hget (h : list Z) (s : Z) : Z := default 0 (zlookup h s).

Lemma nslot_pos : 0 < HASHTABLE_NSLOT.
Proof. done. Qed.
#[local] Hint Resolve nslot_pos : core.

Lemma slot_bounds h0 k : 0 ≤ slot h0 k < HASHTABLE_NSLOT.
Proof. by apply Z.mod_pos_bound. Qed.

Lemma land_nslot x : x .& (HASHTABLE_NSLOT - 1) = x mod HASHTABLE_NSLOT.
Proof. apply (land_pred_pow2 x 13). lia. Qed.

Lemma walHash_slot x : walHash x = slot (walHash x) 0.
Proof.
  unfold slot. rewrite Z.add_0_r. unfold walHash. rewrite land_nslot. symmetry. apply Z.mod_mod. done.
Qed.

Lemma walNextHash_slot h0 k : walNextHash (slot h0 k) = slot h0 (k + 1).
Proof.
  unfold walNextHash, slot. rewrite land_nslot, Z.add_mod_idemp_l by done. f_equal. lia.
Qed.

Lemma slot_inj h0 j k : 0 ≤ j < HASHTABLE_NSLOT → 0 ≤ k < HASHTABLE_NSLOT → slot h0 j = slot h0 k → j = k.
Proof. unfold slot, HASHTABLE_NSLOT, HASHTABLE_NPAGE. intros. Z.div_mod_to_equations. lia. Qed.

Lemma get_hget h s : 0 ≤ s < Z.of_nat (length h) → get h s = Ret (hget h s).
Proof. intros Hs. unfold get, hget. destruct (zlookup_is_Some h s Hs) as [x ->]. done. Qed.

Lemma hget_zinsert h s x t : 0 ≤ s < Z.of_nat (length h) → hget (zinsert h s x) t = if decide (s = t) then x else hget h t.
Proof. intros Hs. unfold hget. rewrite zlookup_zinsert by done. by destruct (decide (s = t)). Qed.

Lemma zlookup_app_l {A} (l k : list A) i : i < Z.of_nat (length l) → zlookup (l ++ k) i = zlookup l i.
Proof.
  intros Hi. unfold zlookup. destruct (Z.ltb_spec i 0); [done|]. apply lookup_app_l. lia.
Qed.

(** ** The invariant of a page *)

(** The page records the page numbers [l]: every entry is found by probing, and
    only older entries are met on the way. *)
Record page_ok (cap : Z) (p : wi_page) (l : list Z) : Prop := {
  ok_cap : Z.of_nat (length l) ≤ cap ≤ HASHTABLE_NPAGE;
  ok_pgno : aPgno p = l ++ replicate (Z.to_nat cap - length l) 0;
  ok_pos : Forall (λ x, 0 < x < 2 ^ 32) l;
  ok_hash : Z.of_nat (length (aHash p)) = HASHTABLE_NSLOT;
  ok_range : ∀ s, 0 ≤ hget (aHash p) s ≤ Z.of_nat (length l);
  ok_unique : ∀ s t, hget (aHash p) s = hget (aHash p) t → hget (aHash p) s ≠ 0 → s = t;
  ok_found : ∀ i x, l !! i = Some x → ∃ k, 0 ≤ k < HASHTABLE_NSLOT ∧
    hget (aHash p) (slot (walHash x) k) = Z.of_nat (S i) ∧
    ∀ j, 0 ≤ j < k → 0 < hget (aHash p) (slot (walHash x) j) < Z.of_nat (S i) }.

Lemma hget_zeros n s : hget (replicate n 0) s = 0.
Proof.
  unfold hget, zlookup. destruct (s <? 0); [done|]. destruct (_ !! _) as [x|] eqn:E; [|done].
  apply lookup_replicate in E as [-> _]. done.
Qed.

Lemma page_ok_zero iHash : page_ok (page_cap iHash) (zero_page iHash) [].
Proof.
  constructor; cbn [zero_page aPgno aHash length].
  - unfold page_cap. destruct (_ =? _); vm_compute; split; discriminate.
  - by rewrite Nat.sub_0_r.
  - constructor.
  - rewrite length_replicate, Z2Nat.id; done.
  - intros s. rewrite hget_zeros. lia.
  - intros s t _. by rewrite hget_zeros.
  - done.
Qed.

(** A run of used slots is no longer than the number of entries. *)
Lemma chain_bound cap p l h0 c : page_ok cap p l → 0 ≤ c ≤ HASHTABLE_NSLOT →
  (∀ j, 0 ≤ j < c → hget (aHash p) (slot h0 j) ≠ 0) → c ≤ Z.of_nat (length l).
Proof.
  intros Hok Hc Hnz. set (f := λ j : nat, Z.to_nat (hget (aHash p) (slot h0 (Z.of_nat j)))).
  assert (length (f <$> seq 0 (Z.to_nat c)) ≤ length (seq 1 (length l)))%nat as H;
    [|rewrite length_fmap, !length_seq in H; lia].
  apply NoDup_incl_length.
  - apply NoDup_ListNoDup, NoDup_fmap_2_strong; [|apply NoDup_seq].
    intros i j Hi Hj E. apply elem_of_seq in Hi, Hj. unfold f in E.
    pose proof (ok_range _ _ _ Hok (slot h0 (Z.of_nat i))). pose proof (ok_range _ _ _ Hok (slot h0 (Z.of_nat j))).
    assert (hget (aHash p) (slot h0 (Z.of_nat i)) = hget (aHash p) (slot h0 (Z.of_nat j))) as E' by lia.
    apply (ok_unique _ _ _ Hok) in E'; [|apply Hnz; lia]. apply slot_inj in E'; lia.
  - intros y Hy. apply list_elem_of_In, list_elem_of_fmap in Hy as (j & -> & Hj). apply elem_of_seq in Hj.
    apply in_seq. unfold f. pose proof (ok_range _ _ _ Hok (slot h0 (Z.of_nat j))).
    assert (hget (aHash p) (slot h0 (Z.of_nat j)) ≠ 0) by (apply Hnz; lia). lia.
Qed.

(** The first free slot. *)
Lemma chain_end cap p l h0 : page_ok cap p l → ∃ c, 0 ≤ c ≤ Z.of_nat (length l) ∧
  hget (aHash p) (slot h0 c) = 0 ∧ ∀ j, 0 ≤ j < c → hget (aHash p) (slot h0 j) ≠ 0.
Proof.
  intros Hok. assert (∀ n : nat, (∃ c, 0 ≤ c < Z.of_nat n ∧ hget (aHash p) (slot h0 c) = 0 ∧
    ∀ j, 0 ≤ j < c → hget (aHash p) (slot h0 j) ≠ 0) ∨ ∀ j, 0 ≤ j < Z.of_nat n → hget (aHash p) (slot h0 j) ≠ 0) as H.
  { induction n as [|n [(c & ? & ? & ?)|IH]]; [right; lia|left; exists c; split; [lia|done]|].
    destruct (Z.eq_dec (hget (aHash p) (slot h0 (Z.of_nat n))) 0) as [E|E].
    - left. exists (Z.of_nat n). split; [lia|]. split; [done|]. intros j Hj. apply IH. lia.
    - right. intros j Hj. destruct (Z.eq_dec j (Z.of_nat n)) as [->|]; [done|]. apply IH. lia. }
  pose proof (ok_cap _ _ _ Hok). unfold HASHTABLE_NPAGE in *.
  destruct (H (S (length l))) as [(c & ? & ? & ?)|Hall]; [exists c; split; [lia|done]|].
  exfalso. pose proof (chain_bound cap p l h0 (Z.of_nat (S (length l))) Hok) as Hb.
  unfold HASHTABLE_NSLOT, HASHTABLE_NPAGE in Hb. specialize (Hb ltac:(lia) Hall). lia.
Qed.

Lemma probe_end h h0 c : Z.of_nat (length h) = HASHTABLE_NSLOT → hget h (slot h0 c) = 0 →
  (∀ j, 0 ≤ j < c → hget h (slot h0 j) ≠ 0) → ∀ n a, 0 ≤ a ≤ c → c - a ≤ Z.of_nat n →
  probe h n (slot h0 a) = Ret (Some (slot h0 c)).
Proof.
  intros Hl H0 Hnz. induction n as [|n IH]; intros a Ha Hn; cbn [probe];
    rewrite get_hget by (rewrite Hl; apply slot_bounds); cbn [mbind outcome_bind].
  - assert (a = c) as -> by lia. by rewrite H0.
  - destruct (Z.eq_dec a c) as [->|]; [by rewrite H0|]. rewrite (proj2 (Z.eqb_neq _ _)) by (apply Hnz; lia).
    rewrite walNextHash_slot. apply IH; lia.
Qed.

(** Adding an entry to a page. *)
Lemma page_ok_append cap p l x : page_ok cap p l → Z.of_nat (length l) < cap → 0 < x < 2 ^ 32 →
  ∃ key, probe (aHash p) (S (length l)) (walHash x) = Ret (Some key) ∧
    page_ok cap (WiPage (zinsert (aPgno p) (Z.of_nat (length l)) x) (zinsert (aHash p) key (Z.of_nat (S (length l)))))
      (l ++ [x]).
Proof.
  intros Hok Hlt Hx. destruct (chain_end cap p l (walHash x) Hok) as (c & Hc & H0 & Hnz).
  pose proof (ok_hash _ _ _ Hok) as Hl. pose proof (ok_cap _ _ _ Hok) as Hcap. pose proof (ok_range _ _ _ Hok) as Hr.
  exists (slot (walHash x) c). split.
  { rewrite walHash_slot at 1. apply probe_end; try done; lia. }
  assert (∀ t, hget (zinsert (aHash p) (slot (walHash x) c) (Z.of_nat (S (length l)))) t =
    if decide (slot (walHash x) c = t) then Z.of_nat (S (length l)) else hget (aHash p) t) as Hg.
  { intros t. apply hget_zinsert. rewrite Hl. apply slot_bounds. }
  constructor; cbn [aPgno aHash].
  - rewrite length_app. simpl. lia.
  - rewrite (ok_pgno _ _ _ Hok). unfold zinsert. rewrite (proj2 (Z.ltb_ge _ 0)) by lia.
    rewrite Nat2Z.id, insert_app_r_alt, Nat.sub_diag, <- app_assoc by lia. f_equal. rewrite length_app.
    replace (Z.to_nat cap - length l)%nat with (S (Z.to_nat cap - (length l + length [x])))%nat by (simpl; lia). done.
  - apply Forall_app_2; [apply Hok|by constructor].
  - by rewrite zinsert_length.
  - intros s. rewrite Hg, length_app. simpl. specialize (Hr s). destruct (decide _); lia.
  - intros s t. rewrite !Hg. pose proof (Hr s). pose proof (Hr t).
    destruct (decide (slot (walHash x) c = s)) as [<-|], (decide (slot (walHash x) c = t)) as [<-|]; try done; try lia.
    by apply (ok_unique _ _ _ Hok).
  - intros i y Hi. apply lookup_app_Some in Hi as [Hi|[Hi Hy]].
    + destruct (ok_found _ _ _ Hok i y Hi) as (k & Hk & He & Hp). exists k. split; [done|].
      rewrite Hg. split.
      * destruct (decide _) as [E|]; [|done]. exfalso. rewrite <- E, H0 in He. lia.
      * intros j Hj. rewrite Hg. destruct (decide _) as [E|]; [|by apply Hp]. exfalso.
        specialize (Hp j Hj). rewrite <- E, H0 in Hp. lia.
    + apply list_lookup_singleton_Some in Hy as [Hy <-]. assert (i = length l) as -> by lia.
      exists c. unfold HASHTABLE_NSLOT, HASHTABLE_NPAGE in *. split; [lia|]. rewrite Hg, decide_True by done. split; [done|].
      intros j Hj. rewrite Hg. rewrite decide_False.
      * specialize (Hnz j Hj). specialize (Hr (slot (walHash x) j)). lia.
      * intros E. apply slot_inj in E; unfold HASHTABLE_NSLOT, HASHTABLE_NPAGE; lia.
Qed.

(** Dropping the entries after the [m]-th. *)
Lemma hget_fmap h (f : Z → Z) s : f 0 = 0 → hget (f <$> h) s = f (hget h s).
Proof.
  intros Hf. unfold hget, zlookup. destruct (s <? 0); [done|]. rewrite list_lookup_fmap. by destruct (_ !! _).
Qed.

Lemma page_ok_truncate cap p l m : page_ok cap p l → (m ≤ length l)%nat →
  page_ok cap (WiPage (take m (aPgno p) ++ replicate (length (aPgno p) - m) 0)
                      ((λ e, if Z.of_nat m <? e then 0 else e) <$> aHash p)) (take m l).
Proof.
  intros Hok Hm. pose proof (ok_range _ _ _ Hok) as Hr. pose proof (ok_cap _ _ _ Hok) as Hcap.
  assert (length (aPgno p) = Z.to_nat cap) as Hpl by (rewrite (ok_pgno _ _ _ Hok), length_app, length_replicate; lia).
  set (f := λ e, if Z.of_nat m <? e then 0 else e).
  assert (∀ s, hget (f <$> aHash p) s = f (hget (aHash p) s)) as Hg by (intros s; apply hget_fmap; unfold f; by destruct m).
  constructor; cbn [aPgno aHash].
  - rewrite length_take. lia.
  - rewrite Hpl, length_take, Nat.min_l by done. f_equal. rewrite (ok_pgno _ _ _ Hok). by rewrite take_app_le by lia.
  - apply Forall_take, Hok.
  - rewrite length_fmap. apply Hok.
  - intros s. rewrite Hg, length_take. specialize (Hr s). unfold f. destruct (Z.ltb_spec (Z.of_nat m) (hget (aHash p) s)); lia.
  - intros s t. rewrite !Hg. intros E Hne. apply (ok_unique _ _ _ Hok); unfold f in *; repeat case_match; b2p; lia.
  - intros i x Hi. apply lookup_take_Some in Hi as [Hi Him].
    destruct (ok_found _ _ _ Hok i x Hi) as (k & Hk & He & Hp). exists k. split; [done|]. rewrite Hg. unfold f. split.
    + rewrite He. rewrite (proj2 (Z.ltb_ge _ _)) by lia. done.
    + intros j Hj. rewrite Hg. specialize (Hp j Hj). unfold f. rewrite (proj2 (Z.ltb_ge _ _)) by lia. done.
Qed.

(** ** Finding the last entry of a page *)

(** [r] is the number of the last of the frames [i0], [i0 + 1], ... with the page
    numbers [l] that has the page number [pgno] and is at most [iLast]; 0 if
    there is none. *)
Definition is_last (l : list Z) (i0 iLast pgno r : Z) : Prop :=
  (r = 0 ∧ ∀ j, l !! j = Some pgno → i0 + Z.of_nat j ≤ iLast → False) ∨
  (∃ j, l !! j = Some pgno ∧ r = i0 + Z.of_nat j ∧ r ≤ iLast ∧
     ∀ j', l !! j' = Some pgno → i0 + Z.of_nat j' ≤ iLast → (j' ≤ j)%nat).

Lemma is_last_unique l i0 iLast pgno r r' : 0 < i0 → is_last l i0 iLast pgno r → is_last l i0 iLast pgno r' → r = r'.
Proof.
  intros Hi [[-> H]|(j & Hj & -> & Hl & Hm)] [[-> H']|(j' & Hj' & -> & Hl' & Hm')]; try done.
  - by destruct (H _ Hj').
  - by destruct (H' _ Hj).
  - pose proof (Hm _ Hj' Hl'). pose proof (Hm' _ Hj Hl). lia.
Qed.

(** The choice made for one entry, and for the entries met in order. *)
Definition choose (l : list Z) (iZero iLast pgno : Z) (iRead e : Z) : Z :=
  if (e + iZero <=? iLast) && bool_decide (l !! Z.to_nat (e - 1) = Some pgno) then e + iZero else iRead.

Lemma choose_last l iZero iLast pgno E : ∀ acc,
  let good e := e + iZero ≤ iLast ∧ l !! Z.to_nat (e - 1) = Some pgno in
  let r := foldl (choose l iZero iLast pgno) acc E in
  (r = acc ∧ ∀ e, e ∈ E → ¬ good e) ∨
  (∃ E1 e E2, E = E1 ++ e :: E2 ∧ good e ∧ r = e + iZero ∧ ∀ e', e' ∈ E2 → ¬ good e').
Proof.
  induction E as [|e E IH]; intros acc good r.
  { left. split; [done|]. by intros e ?%list.elem_of_nil. }
  subst r. cbn [foldl]. destruct (IH (choose l iZero iLast pgno acc e)) as [[-> Hno]|(E1 & e' & E2 & -> & Hg & -> & Hno)].
  - unfold choose. destruct (Z.leb_spec (e + iZero) iLast); [|left; split; [done|]; intros e' [->|?]%list.elem_of_cons; [unfold good; lia|by apply Hno]].
    case_bool_decide; cbn [andb].
    + right. exists [], e, E. done.
    + left. split; [done|]. intros e' [->|?]%list.elem_of_cons; [by intros [_ ?]|by apply Hno].
  - right. exists (e :: E1), e', E2. done.
Qed.

(** The entries met from the [a]-th slot to the free one. *)
Definition chain (h : list Z) (h0 a c : Z) : list Z :=
  (λ j, hget h (slot h0 (a + Z.of_nat j))) <$> seq 0 (Z.to_nat (c - a)).

Lemma chain_cons h h0 a c : a < c → chain h h0 a c = hget h (slot h0 a) :: chain h h0 (a + 1) c.
Proof.
  intros Hac. unfold chain. replace (Z.to_nat (c - a)) with (S (Z.to_nat (c - (a + 1)))) by lia.
  cbn [seq fmap list_fmap]. rewrite Z.add_0_r. f_equal. rewrite <- fmap_S_seq, <- list_fmap_compose.
  apply list_fmap_ext. intros i x _. cbn. do 2 f_equal. lia.
Qed.

Lemma find_chain_fold cap p l iZero iLast pgno c : page_ok cap p l → 0 ≤ iZero → iZero + HASHTABLE_NPAGE < 2 ^ 32 →
  hget (aHash p) (slot (walHash pgno) c) = 0 →
  (∀ j, 0 ≤ j < c → hget (aHash p) (slot (walHash pgno) j) ≠ 0) →
  ∀ n a acc, 0 ≤ a ≤ c → c - a ≤ Z.of_nat n →
  find_chain p iZero iLast pgno n (slot (walHash pgno) a) acc =
    Ret (Some (foldl (choose l iZero iLast pgno) acc (chain (aHash p) (walHash pgno) a c))).
Proof.
  intros Hok HiZ HZ H0 Hnz. pose proof (ok_cap _ _ _ Hok) as Hcap.
  induction n as [|n IH]; intros a acc Ha Hn; cbn [find_chain];
    rewrite get_hget by (rewrite (ok_hash _ _ _ Hok); apply slot_bounds); cbn [mbind outcome_bind].
  - assert (a = c) as -> by lia. rewrite H0. unfold chain. by rewrite Z.sub_diag.
  - destruct (Z.eq_dec a c) as [->|]; [rewrite H0; unfold chain; by rewrite Z.sub_diag|].
    pose proof (Hnz a ltac:(lia)) as Hne. pose proof (ok_range _ _ _ Hok (slot (walHash pgno) a)) as Hr.
    rewrite (proj2 (Z.eqb_neq _ _) Hne), (chain_cons _ _ a c) by lia. cbn [foldl].
    set (e := hget (aHash p) (slot (walHash pgno) a)) in *. rewrite uw_small by (unfold in_uw, HASHTABLE_NPAGE in *; lia).
    assert (get (aPgno p) (e - 1) = Ret (default 0 (l !! Z.to_nat (e - 1)))) as Hget.
    { rewrite (ok_pgno _ _ _ Hok). unfold get. rewrite zlookup_app_l by lia. unfold zlookup. rewrite (proj2 (Z.ltb_ge _ 0)) by lia.
      destruct (lookup_lt_is_Some_2 l (Z.to_nat (e - 1))) as [y ->]; [lia|done]. }
    assert ((if e + iZero <=? iLast then g ← get (aPgno p) (e - 1); Ret (if g =? pgno then e + iZero else acc) else Ret acc)
      = Ret (choose l iZero iLast pgno acc e)) as ->.
    { unfold choose. destruct (Z.leb_spec (e + iZero) iLast); [|done]. rewrite Hget. cbn [mbind outcome_bind andb].
      destruct (lookup_lt_is_Some_2 l (Z.to_nat (e - 1))) as [y Ey]; [lia|]. rewrite Ey. cbn [from_option id default].
      destruct (Z.eqb_spec y pgno) as [->|Hny]; [by rewrite bool_decide_eq_true_2|].
      rewrite bool_decide_eq_false_2; [done|congruence]. }
    cbn [mbind outcome_bind]. rewrite walNextHash_slot. apply IH; lia.
Qed.

(** An entry with the page number looked for is met, at its own place. *)
Lemma chain_contains cap p l pgno c i : page_ok cap p l →
  hget (aHash p) (slot (walHash pgno) c) = 0 → 0 ≤ c → l !! i = Some pgno →
  ∃ k, 0 ≤ k < c ∧ k < HASHTABLE_NSLOT ∧ hget (aHash p) (slot (walHash pgno) k) = Z.of_nat (S i) ∧
    ∀ j, 0 ≤ j < k → 0 < hget (aHash p) (slot (walHash pgno) j) < Z.of_nat (S i).
Proof.
  intros Hok H0 Hc Hi. destruct (ok_found _ _ _ Hok i pgno Hi) as (k & Hk & He & Hp). exists k.
  split; [|split; [lia|done]]. destruct (Z.ltb_spec k c) as [|Hge]; [lia|]. exfalso.
  destruct (Z.eq_dec c k) as [->|]; [lia|]. specialize (Hp c ltac:(lia)). lia.
Qed.

Lemma lookup_chain h h0 c k : 0 ≤ k < c → chain h h0 0 c !! Z.to_nat k = Some (hget h (slot h0 k)).
Proof.
  intros Hk. unfold chain. rewrite list_lookup_fmap, lookup_seq_lt by lia. cbn. do 3 f_equal. lia.
Qed.

Lemma chain_lookup h h0 c k e : chain h h0 0 c !! k = Some e → (Z.of_nat k < c) ∧ e = hget h (slot h0 (Z.of_nat k)).
Proof.
  unfold chain. rewrite list_lookup_fmap. intros E. destruct (seq _ _ !! k) as [j|] eqn:Ej; [|done].
  apply lookup_seq in Ej as [-> Hj]. cbn in E. simplify_eq. split; [lia|]. do 2 f_equal. 
Qed.

Lemma find_chain_last cap p l iZero iLast pgno : page_ok cap p l → 0 ≤ iZero → iZero + HASHTABLE_NPAGE < 2 ^ 32 →
  ∀ limit, limit = Z.to_nat HASHTABLE_NSLOT →
  ∃ r, find_chain p iZero iLast pgno limit (walHash pgno) 0 = Ret (Some r) ∧
    is_last l (iZero + 1) iLast pgno r.
Proof.
  intros Hok HiZ HZ limit ->. destruct (chain_end cap p l (walHash pgno) Hok) as (c & Hc & H0 & Hnz).
  pose proof (ok_cap _ _ _ Hok) as Hcap. eexists. split.
  { rewrite walHash_slot at 1. apply (find_chain_fold cap p l iZero iLast pgno c); try done; [lia|].
    rewrite Z2Nat.id by done. unfold HASHTABLE_NSLOT, HASHTABLE_NPAGE in *. lia. }
  destruct (choose_last l iZero iLast pgno (chain (aHash p) (walHash pgno) 0 c) 0) as [[-> Hno]|(E1 & e & E2 & EE & [Hle Hl] & -> & Hno)].
  - left. split; [done|]. intros j Hj Hle. destruct (chain_contains cap p l pgno c j Hok H0) as (k & Hk & _ & He & _); [lia|done|].
    apply (Hno (Z.of_nat (S j))).
    + rewrite <- He. eapply list_elem_of_lookup_2, lookup_chain. lia.
    + split; [lia|]. by replace (Z.to_nat (Z.of_nat (S j) - 1)) with j by lia.
  - right. assert (chain (aHash p) (walHash pgno) 0 c !! length E1 = Some e) as Hpos by (rewrite EE; apply list_lookup_middle; done).
    apply chain_lookup in Hpos as [Hpc He]. pose proof (Hnz (Z.of_nat (length E1)) ltac:(lia)) as Hne.
    pose proof (ok_range _ _ _ Hok (slot (walHash pgno) (Z.of_nat (length E1)))) as Hr.
    exists (Z.to_nat (e - 1)). split; [done|]. split; [lia|]. split; [lia|]. intros j' Hj' Hle'.
    destruct (chain_contains cap p l pgno c j' Hok H0) as (k' & Hk' & HN' & He' & _); [lia|done|].
    destruct (chain_contains cap p l pgno c (Z.to_nat (e - 1)) Hok H0) as (k & Hk & HN & Hek & Hpath); [lia|done|].
    assert (k = Z.of_nat (length E1)) as Ek.
    { apply (slot_inj (walHash pgno)); [lia|unfold HASHTABLE_NSLOT, HASHTABLE_NPAGE in *; lia|].
      apply (ok_unique _ _ _ Hok); [rewrite Hek, <- He|rewrite Hek]; lia. }
    destruct (Z.lt_trichotomy k' k) as [Hlt|[->|Hgt]].
    + specialize (Hpath k' ltac:(lia)). lia.
    + lia.
    + exfalso. apply (Hno (Z.of_nat (S j'))); [|split; [lia|]; by replace (Z.to_nat (Z.of_nat (S j') - 1)) with j' by lia].
      assert (chain (aHash p) (walHash pgno) 0 c !! Z.to_nat k' = Some (Z.of_nat (S j'))) as Hk2 by (rewrite <- He'; apply lookup_chain; lia).
      rewrite EE, lookup_app_r in Hk2 by lia.
      replace (Z.to_nat k' - length E1)%nat with (S (Z.to_nat k' - length E1 - 1)) in Hk2 by lia. cbn in Hk2.
      by eapply list_elem_of_lookup_2.
Qed.

(** ** The whole index *)

(** The part of the frames [all] that the page [b] records. *)
Definition slice (b : nat) (all : list Z) : list Z :=
  take (Z.to_nat (page_cap (Z.of_nat b))) (drop (Z.to_nat (block_zero (Z.of_nat b))) all).

(** The wal-index records the frames with the page numbers [all]; pages past
    the last frame may hold anything. *)
Record index_ok (pages : list wi_page) (all : list Z) : Prop := {
  ix_bound : Z.of_nat (length all) + HASHTABLE_NPAGE < 2 ^ 32;
  ix_pages : ∀ b : nat, block_zero (Z.of_nat b) < Z.of_nat (length all) →
    ∃ p, pages !! b = Some p ∧ page_ok (page_cap (Z.of_nat b)) p (slice b all) }.

Lemma block_zero_next b : 0 ≤ b → block_zero (b + 1) = block_zero b + page_cap b.
Proof.
  intros Hb. unfold block_zero, page_cap. rewrite (proj2 (Z.eqb_neq (b + 1) 0)) by lia.
  destruct (Z.eqb_spec b 0) as [->|]; [done|]. lia.
Qed.

Lemma page_cap_pos b : 0 < page_cap b ≤ HASHTABLE_NPAGE.
Proof. unfold page_cap. destruct (_ =? _); vm_compute; split; done. Qed.

Lemma block_zero_nonneg b : 0 ≤ b → 0 ≤ block_zero b.
Proof.
  intros Hb. unfold block_zero. change HASHTABLE_NPAGE_ONE with 4062. unfold HASHTABLE_NPAGE. destruct (Z.eqb_spec b 0); lia.
Qed.

Lemma block_zero_mono b c : 0 ≤ b < c → block_zero b + page_cap b ≤ block_zero c.
Proof.
  intros Hbc. unfold block_zero, page_cap. change HASHTABLE_NPAGE_ONE with 4062. unfold HASHTABLE_NPAGE.
  destruct (Z.eqb_spec b 0), (Z.eqb_spec c 0); lia.
Qed.

Lemma walFramePage_spec f : 0 < f → f + HASHTABLE_NPAGE < 2 ^ 32 →
  ∃ b : nat, walFramePage f = Ret (Z.of_nat b) ∧ block_zero (Z.of_nat b) < f ≤ block_zero (Z.of_nat b) + page_cap (Z.of_nat b).
Proof.
  intros Hf Hb. unfold walFramePage. change HASHTABLE_NPAGE_ONE with 4062. unfold HASHTABLE_NPAGE in *.
  rewrite uw_small by (unfold in_uw; lia). set (b := (f + 4096 - 4062 - 1) / 4096).
  assert (0 ≤ b ∧ b * 4096 ≤ f + 33 < b * 4096 + 4096) as [Hb0 Hbr] by (subst b; Z.div_mod_to_equations; lia).
  clearbody b. exists (Z.to_nat b). rewrite Z2Nat.id by done.
  assert (c_assert (((b =? 0) || (4062 <? f)) && ((1 <=? b) || (f <=? 4062)) && ((b <=? 1) || (4062 + 4096 <? f)) &&
    ((2 <=? b) || (f <=? 4062 + 4096)) && ((b <=? 2) || (4062 + 2 * 4096 <? f))) = Ret ()) as ->.
  { destruct (Z.eqb_spec b 0), (Z.ltb_spec 4062 f), (Z.leb_spec 1 b), (Z.leb_spec f 4062), (Z.leb_spec b 1),
      (Z.ltb_spec (4062 + 4096) f), (Z.leb_spec 2 b), (Z.leb_spec f (4062 + 4096)), (Z.leb_spec b 2),
      (Z.ltb_spec (4062 + 2 * 4096) f); try done; lia. }
  cbn [mbind outcome_bind]. split; [done|]. unfold block_zero, page_cap. change HASHTABLE_NPAGE_ONE with 4062.
  unfold HASHTABLE_NPAGE. destruct (Z.eqb_spec b 0); lia.
Qed.

Lemma walFramePage_block f (b : nat) : f + HASHTABLE_NPAGE < 2 ^ 32 →
  block_zero (Z.of_nat b) < f ≤ block_zero (Z.of_nat b) + page_cap (Z.of_nat b) → walFramePage f = Ret (Z.of_nat b).
Proof.
  intros Hf Hr. pose proof (block_zero_nonneg (Z.of_nat b) ltac:(lia)).
  destruct (walFramePage_spec f) as (c & -> & Hc); [lia|done|]. do 2 f_equal.
  destruct (Nat.lt_trichotomy b c) as [H1|[->|H1]]; [|done|].
  - pose proof (block_zero_mono (Z.of_nat b) (Z.of_nat c) ltac:(lia)). lia.
  - pose proof (block_zero_mono (Z.of_nat c) (Z.of_nat b) ltac:(lia)). lia.
Qed.

Lemma lookup_slice b all i :
  slice b all !! i = if decide (i < Z.to_nat (page_cap (Z.of_nat b)))%nat
                     then all !! (Z.to_nat (block_zero (Z.of_nat b)) + i)%nat else None.
Proof.
  unfold slice. case_decide; [by rewrite lookup_take_lt, lookup_drop|by rewrite lookup_take_ge by lia].
Qed.

(** The pages of earlier frames do not change. *)
Lemma slice_before b k all x : (k ≤ length all)%nat →
  block_zero (Z.of_nat b) + page_cap (Z.of_nat b) ≤ Z.of_nat k → slice b (take k all ++ x) = slice b all.
Proof.
  intros Hk Hb. pose proof (block_zero_nonneg (Z.of_nat b) ltac:(lia)). pose proof (page_cap_pos (Z.of_nat b)).
  apply list_eq. intros i. rewrite !lookup_slice. case_decide; [|done].
  by rewrite lookup_app_l, lookup_take_lt by (rewrite ?length_take; lia).
Qed.

(** The page of the frame after the [k]-th. *)
Lemma slice_short b k all : (k ≤ length all)%nat → block_zero (Z.of_nat b) ≤ Z.of_nat k →
  Z.of_nat k ≤ block_zero (Z.of_nat b) + page_cap (Z.of_nat b) →
  slice b (take k all) = take (k - Z.to_nat (block_zero (Z.of_nat b))) (slice b all).
Proof.
  intros Hk H1 H2. pose proof (block_zero_nonneg (Z.of_nat b) ltac:(lia)). apply list_eq. intros i.
  rewrite lookup_slice. case_decide as Hi.
  - destruct (decide (i < k - Z.to_nat (block_zero (Z.of_nat b)))%nat).
    + rewrite !lookup_take_lt, lookup_slice, decide_True by lia. done.
    + by rewrite !lookup_take_ge by lia.
  - rewrite lookup_take_ge by lia. done.
Qed.

Lemma slice_at b k all x : (k ≤ length all)%nat → block_zero (Z.of_nat b) ≤ Z.of_nat k →
  Z.of_nat k < block_zero (Z.of_nat b) + page_cap (Z.of_nat b) →
  slice b (take k all ++ [x]) = take (k - Z.to_nat (block_zero (Z.of_nat b))) (slice b all) ++ [x] ∧
  (k - Z.to_nat (block_zero (Z.of_nat b)) ≤ length (slice b all))%nat.
Proof.
  intros Hk H1 H2. pose proof (block_zero_nonneg (Z.of_nat b) ltac:(lia)). rewrite <- slice_short by lia. split.
  - unfold slice. rewrite drop_app_le by (rewrite length_take; lia).
    rewrite (take_ge (_ ++ [x])), (take_ge (drop _ _)) by (rewrite ?length_app, ?length_drop, ?length_take; simpl; lia). done.
  - unfold slice. rewrite length_take, length_drop. lia.
Qed.

(** ** Operations on the index *)

Lemma index_ok_prefix pages pages' all : index_ok pages all → index_ok (pages ++ pages') all.
Proof.
  intros [Hb Hp]. constructor; [done|]. intros b Hlt. destruct (Hp b Hlt) as (p & E & Hok). exists p.
  split; [|done]. by apply lookup_app_l_Some.
Qed.

Lemma walIndexPage_ok pages iPage all : index_ok pages all → 0 ≤ iPage →
  ∃ pages', walIndexPage true pages iPage = (SQLITE_OK, pages') ∧ iPage < Z.of_nat (length pages') ∧ index_ok pages' all.
Proof.
  intros Hok Hi. unfold walIndexPage. destruct (Z.ltb_spec iPage (Z.of_nat (length pages))); [by exists pages|].
  eexists. split; [done|]. split; [rewrite length_app, length_fmap, length_seq; lia|by apply index_ok_prefix].
Qed.

Lemma walHashGet_ok pages (b : nat) p : pages !! b = Some p → walHashGet pages (Z.of_nat b) = Ret (p, block_zero (Z.of_nat b)).
Proof. intros E. unfold walHashGet, zlookup. rewrite (proj2 (Z.ltb_ge _ 0)), Nat2Z.id, E by lia. done. Qed.

Lemma zinsert_nat {A} (l : list A) (b : nat) x : zinsert l (Z.of_nat b) x = <[b := x]> l.
Proof. unfold zinsert. by rewrite (proj2 (Z.ltb_ge _ 0)), Nat2Z.id by lia. Qed.

(** Replacing the page of the last frames. *)
Lemma index_ok_insert pages (b : nat) p all k x : index_ok pages all → (k ≤ length all)%nat → (b < length pages)%nat →
  Z.of_nat (k + length x) + HASHTABLE_NPAGE < 2 ^ 32 →
  block_zero (Z.of_nat b) ≤ Z.of_nat k → Z.of_nat (k + length x) ≤ block_zero (Z.of_nat b) + page_cap (Z.of_nat b) →
  (length x ≤ 1)%nat → page_ok (page_cap (Z.of_nat b)) p (slice b (take k all ++ x)) →
  index_ok (<[b := p]> pages) (take k all ++ x).
Proof.
  intros Hix Hk Hb Hbd Hz Hend Hx Hp. constructor; [rewrite length_app, length_take; lia|].
  intros c Hc. rewrite length_app, length_take in Hc. destruct (Nat.lt_trichotomy c b) as [Hlt|[->|Hgt]].
  - pose proof (block_zero_mono (Z.of_nat c) (Z.of_nat b) ltac:(lia)).
    pose proof (page_cap_pos (Z.of_nat c)).
    destruct (ix_pages _ _ Hix c) as (q & Eq & Hq); [lia|]. exists q.
    rewrite list_lookup_insert_ne, slice_before by lia. done.
  - exists p. by rewrite list_lookup_insert_eq.
  - pose proof (block_zero_mono (Z.of_nat b) (Z.of_nat c) ltac:(lia)). lia.
Qed.

Lemma walCleanupHash_ok pages all mx : index_ok pages all → (mx ≤ length all)%nat →
  ∃ pages', walCleanupHash (Z.of_nat mx) pages = Ret pages' ∧ index_ok pages' (take mx all) ∧
    length pages' = length pages.
Proof.
  intros Hix Hmx. pose proof (ix_bound _ _ Hix) as Hbd. unfold walCleanupHash. destruct (Z.eqb_spec (Z.of_nat mx) 0) as [E|E].
  { exists pages. split; [done|]. split; [|done]. assert (mx = 0%nat) as -> by lia. constructor; [simpl; lia|].
    intros b Hb. pose proof (block_zero_nonneg (Z.of_nat b) ltac:(lia)). simpl in Hb. lia. }
  destruct (walFramePage_spec (Z.of_nat mx)) as (b & -> & Hb); [lia|lia|]. cbn [mbind outcome_bind].
  pose proof (block_zero_nonneg (Z.of_nat b) ltac:(lia)) as Hz0.
  destruct (ix_pages _ _ Hix b) as (p & Ep & Hp); [lia|].
  pose proof (lookup_lt_Some _ _ _ Ep) as Hlt. rewrite (proj2 (Z.ltb_lt _ _)) by lia. cbn [c_assert mbind outcome_bind].
  rewrite (walHashGet_ok _ _ _ Ep). cbn [mbind outcome_bind]. rewrite (proj2 (Z.ltb_lt 0 _)) by lia.
  cbn [c_assert mbind outcome_bind]. eexists. split; [done|]. rewrite zinsert_nat. split; [|apply length_insert].
  rewrite <- (app_nil_r (take mx all)). apply index_ok_insert; try done; simpl; try lia.
  rewrite app_nil_r, slice_short by lia.
  assert (Z.of_nat mx - block_zero (Z.of_nat b) = Z.of_nat (mx - Z.to_nat (block_zero (Z.of_nat b)))) as -> by lia.
  rewrite Nat2Z.id. apply page_ok_truncate; [done|]. unfold slice. rewrite length_take, length_drop. lia.
Qed.

(** The entry of the next frame in a page that records [l]. *)
Lemma page_next cap p l : page_ok cap p l → Z.of_nat (length l) < cap →
  get (aPgno p) (Z.of_nat (length l)) = Ret 0.
Proof.
  intros Hok Hlt. rewrite (ok_pgno _ _ _ Hok). unfold get, zlookup. rewrite (proj2 (Z.ltb_ge _ 0)), Nat2Z.id by lia.
  rewrite lookup_app_r, Nat.sub_diag by lia. replace (Z.to_nat cap - length l)%nat with (S (Z.to_nat cap - length l - 1)) by lia. done.
Qed.

(** A page ready for the frame after the [k]-th: the page is cleared for its
    first frame, and the frames of a writer that stopped in the middle of a
    transaction are dropped. *)
Lemma append_ready pages all (b k mx : nat) : index_ok pages all → (k ≤ length all)%nat → k = length all ∨ mx = k →
  Z.of_nat b < Z.of_nat (length pages) →
  block_zero (Z.of_nat b) ≤ Z.of_nat k → Z.of_nat k < block_zero (Z.of_nat b) + page_cap (Z.of_nat b) →
  let idx := Z.of_nat k + 1 - block_zero (Z.of_nat b) in
  let pages1 := if idx =? 1 then zinsert pages (Z.of_nat b) (zero_page (Z.of_nat b)) else pages in
  ∃ p pages2 p2, walHashGet pages1 (Z.of_nat b) = Ret (p, block_zero (Z.of_nat b)) ∧
    (old ← get (aPgno p) (idx - 1);
     if negb (old =? 0) then
       pages ← walCleanupHash (Z.of_nat mx) pages1;
       '(p, _) ← walHashGet pages (Z.of_nat b);
       o ← get (aPgno p) (idx - 1);
       _ ← c_assert (o =? 0);
       Ret (pages, p)
     else Ret (pages1, p)) = Ret (pages2, p2) ∧
    length pages2 = length pages ∧ index_ok pages2 (take k all) ∧
    page_ok (page_cap (Z.of_nat b)) p2 (take (k - Z.to_nat (block_zero (Z.of_nat b))) (slice b all)).
Proof.
  intros Hix Hk Hmx Hb H1 H2 idx pages1. pose proof (ix_bound _ _ Hix) as Hbd.
  pose proof (block_zero_nonneg (Z.of_nat b) ltac:(lia)) as Hz0. set (z := Z.to_nat (block_zero (Z.of_nat b))).
  destruct (Z.eqb_spec idx 1) as [E1|E1].
  - (* the first frame of a page *)
    subst pages1. rewrite zinsert_nat in *.
    exists (zero_page (Z.of_nat b)), (<[b := zero_page (Z.of_nat b)]> pages), (zero_page (Z.of_nat b)).
    split; [apply walHashGet_ok, list_lookup_insert_eq; lia|].
    pose proof (page_ok_zero (Z.of_nat b)) as Hzp. pose proof (page_cap_pos (Z.of_nat b)) as Hcp.
    replace (idx - 1) with (Z.of_nat (length (@nil Z))) by (simpl; lia).
    rewrite (page_next _ _ _ Hzp) by (simpl; lia). cbn [mbind outcome_bind]. split; [done|].
    split; [apply length_insert|]. replace (k - z)%nat with 0%nat by lia. split; [|done].
    rewrite <- (app_nil_r (take k all)). apply index_ok_insert; try done; simpl; try lia.
    rewrite app_nil_r, slice_short by lia. by replace (k - Z.to_nat (block_zero (Z.of_nat b)))%nat with 0%nat by lia.
  - subst pages1. destruct (ix_pages _ _ Hix b) as (p & Ep & Hp); [lia|].
    assert (length (slice b all) = (length all - z) `min` Z.to_nat (page_cap (Z.of_nat b)))%nat as Hsl
      by (unfold slice; rewrite length_take, length_drop; lia).
    destruct (decide (k = length all)) as [Ek|Ek].
    + (* after the last frame *)
      exists p, pages, p. split; [by apply walHashGet_ok|].
      replace (idx - 1) with (Z.of_nat (length (slice b all))) by lia. rewrite (page_next _ _ _ Hp) by lia.
      cbn [mbind outcome_bind]. split; [done|]. split; [done|].
      rewrite (take_ge (slice b all)) by lia. split; [|done]. by rewrite take_ge by lia.
    + (* after a transaction that was not completed *)
      assert (mx = k) as -> by (destruct Hmx; [lia|done]).
      destruct (lookup_lt_is_Some_2 all k) as [y Hy]; [lia|].
      assert (slice b all !! (k - z)%nat = Some y) as Hy2.
      { rewrite lookup_slice, decide_True by lia. rewrite <- Hy. f_equal. lia. }
      assert (get (aPgno p) (idx - 1) = Ret y) as Hg.
      { rewrite (ok_pgno _ _ _ Hp). unfold get. rewrite zlookup_app_l by (apply lookup_lt_Some in Hy2; lia).
        unfold zlookup. rewrite (proj2 (Z.ltb_ge _ 0)) by lia. replace (Z.to_nat (idx - 1)) with (k - z)%nat by lia. by rewrite Hy2. }
      assert (y ≠ 0) as Hyn.
      { pose proof (ok_pos _ _ _ Hp) as Hpos. apply (list.Forall_lookup_1 _ _ _ _ Hpos) in Hy2. lia. }
      destruct (walCleanupHash_ok pages all k Hix Hk) as (pages2 & Hc & Hix2 & Hl2).
      destruct (ix_pages _ _ Hix2 b) as (p2 & Ep2 & Hp2); [rewrite length_take; lia|]. rewrite slice_short in Hp2 by lia.
      exists p, pages2, p2. split; [by apply walHashGet_ok|]. rewrite Hg. cbn [mbind outcome_bind].
      rewrite (proj2 (Z.eqb_neq _ _) Hyn). cbn [negb]. rewrite Hc. cbn [mbind outcome_bind].
      rewrite (walHashGet_ok _ _ _ Ep2). cbn [mbind outcome_bind].
      fold z in Hp2. replace (idx - 1) with (Z.of_nat (length (take (k - z) (slice b all)))) by (rewrite length_take; lia).
      rewrite (page_next _ _ _ Hp2) by (rewrite length_take; lia). cbn. done.
Qed.

Lemma walIndexAppend_ok pages all mx iFrame x : index_ok pages all → 0 < iFrame ≤ Z.of_nat (length all) + 1 →
  iFrame + HASHTABLE_NPAGE < 2 ^ 32 → iFrame = Z.of_nat (length all) + 1 ∨ Z.of_nat mx = iFrame - 1 → 0 < x < 2 ^ 32 →
  ∃ pages', walIndexAppend true (Z.of_nat mx) iFrame x pages = Ret (SQLITE_OK, pages') ∧
    index_ok pages' (take (Z.to_nat (iFrame - 1)) all ++ [x]).
Proof.
  intros Hix Hf Hbd Hmx Hx. set (k := Z.to_nat (iFrame - 1)). assert (iFrame = Z.of_nat k + 1) as Ef by lia.
  destruct (walFramePage_spec iFrame) as (b & Eb & Hb); [lia|done|]. unfold walIndexAppend. rewrite Eb. cbn [mbind outcome_bind].
  pose proof (block_zero_nonneg (Z.of_nat b) ltac:(lia)) as Hz0. pose proof (page_cap_pos (Z.of_nat b)) as Hcp.
  destruct (walIndexPage_ok pages (Z.of_nat b) all Hix) as (pages1 & -> & Hlen & Hix1); [lia|]. cbn [Z.eqb SQLITE_OK negb].
  destruct (lookup_lt_is_Some_2 pages1 b) as [p0 E0]; [lia|]. rewrite (walHashGet_ok _ _ _ E0). cbn [mbind outcome_bind].
  rewrite (proj2 (Z.leb_le (iFrame - _) _)) by (change (HASHTABLE_NSLOT / 2 + 1) with 4097; unfold HASHTABLE_NPAGE in Hcp; lia).
  cbn [c_assert mbind outcome_bind].
  destruct (append_ready pages1 all b k mx Hix1) as (p & pages2 & p2 & Hg & Hr & Hl2 & Hix2 & Hp2); try lia.
  replace (Z.of_nat k + 1 - block_zero (Z.of_nat b)) with (iFrame - block_zero (Z.of_nat b)) in * by lia.
  rewrite Hg. cbn [mbind outcome_bind]. cbn [mbind outcome_bind] in Hr.
  destruct (get (aPgno p) (iFrame - block_zero (Z.of_nat b) - 1)) as [old|]; [|done]. cbn [mbind outcome_bind] in Hr |- *.
  rewrite Hr. cbn [mbind outcome_bind]. rewrite (proj2 (Z.ltb_lt 0 x)) by lia. cbn [c_assert mbind outcome_bind].
  destruct (slice_at b k all x) as [Hsl Hsk]; [lia|lia|lia|].
  set (l := take (k - Z.to_nat (block_zero (Z.of_nat b))) (slice b all)) in *.
  assert (Z.of_nat (length l) = iFrame - block_zero (Z.of_nat b) - 1) as Hll by (subst l; rewrite length_take; lia).
  destruct (page_ok_append _ p2 l x Hp2) as (key & Hk & Hp3); [lia|done|].
  replace (Z.to_nat (iFrame - block_zero (Z.of_nat b))) with (S (length l)) by lia. rewrite Hk. cbn [mbind outcome_bind].
  eexists. split; [done|]. rewrite <- Hll, zinsert_nat.
  rewrite (uw_small 16) by (unfold in_uw, HASHTABLE_NPAGE in *; lia).
  replace (iFrame - block_zero (Z.of_nat b)) with (Z.of_nat (S (length l))) by lia.
  assert (take k all = take k (take k all)) as -> by (by rewrite take_take, Nat.min_id).
  apply index_ok_insert; try done; rewrite ?length_take; simpl; try lia.
  rewrite take_take, Nat.min_id, Hsl. done.
Qed.

Lemma index_ok_nil pages : index_ok pages [].
Proof.
  constructor; [done|]. intros b Hb. pose proof (block_zero_nonneg (Z.of_nat b) ltac:(lia)). simpl in Hb. lia.
Qed.

(** The frames of a transaction are added after the frame [mx]. *)
Lemma append_frames_next pages all mx l : index_ok pages all → Forall (λ x, 0 < x < 2 ^ 32) l →
  Z.of_nat (length all + length l) + HASHTABLE_NPAGE < 2 ^ 32 →
  ∃ pages', append_frames (λ _, true) (Z.of_nat mx) (Z.of_nat (length all)) l pages =
      Ret (SQLITE_OK, pages', Z.of_nat (length all + length l)) ∧ index_ok pages' (all ++ l).
Proof.
  revert pages all. induction l as [|x l IH]; intros pages all Hix Hl Hbd.
  { exists pages. by rewrite Nat.add_0_r, app_nil_r. }
  apply list.Forall_cons in Hl as [Hx Hl]. cbn [length] in *. cbn [append_frames].
  destruct (walIndexAppend_ok pages all mx (Z.of_nat (length all) + 1) x) as (pages1 & -> & Hix1); [done|lia|lia|by left|done|].
  cbn [mbind outcome_bind Z.eqb SQLITE_OK].
  replace (Z.to_nat (Z.of_nat (length all) + 1 - 1)) with (length all) in Hix1 by lia. rewrite take_ge in Hix1 by done.
  destruct (IH pages1 (all ++ [x]) Hix1) as (pages2 & H2 & Hix2); [done|rewrite length_app; simpl; lia|].
  exists pages2. rewrite length_app in H2. simpl in H2.
  replace (Z.of_nat (length all) + 1) with (Z.of_nat (length all + 1)) by lia. rewrite H2, <- app_assoc in *.
  split; [|done]. do 3 f_equal. lia.
Qed.

Lemma append_frames_ok pages all mx l : index_ok pages all → (mx ≤ length all)%nat → Forall (λ x, 0 < x < 2 ^ 32) l →
  Z.of_nat (mx + length l) + HASHTABLE_NPAGE < 2 ^ 32 → l ≠ [] →
  ∃ pages', append_frames (λ _, true) (Z.of_nat mx) (Z.of_nat mx) l pages = Ret (SQLITE_OK, pages', Z.of_nat (mx + length l)) ∧
    index_ok pages' (take mx all ++ l).
Proof.
  intros Hix Hmx Hl Hbd Hne. destruct l as [|x l]; [done|]. apply list.Forall_cons in Hl as [Hx Hl]. cbn [length] in *.
  cbn [append_frames].
  destruct (walIndexAppend_ok pages all mx (Z.of_nat mx + 1) x) as (pages1 & -> & Hix1); [done|lia|lia|right; lia|done|].
  cbn [mbind outcome_bind Z.eqb SQLITE_OK].
  replace (Z.to_nat (Z.of_nat mx + 1 - 1)) with mx in Hix1 by lia.
  destruct (append_frames_next pages1 (take mx all ++ [x]) mx l Hix1) as (pages2 & H2 & Hix2);
    [done|rewrite length_app, length_take; simpl; lia|].
  exists pages2. rewrite length_app, length_take, Nat.min_l in H2 by done. simpl in H2.
  replace (Z.of_nat mx + 1) with (Z.of_nat (mx + 1)) by lia. rewrite H2, <- app_assoc in *.
  split; [|done]. do 3 f_equal. lia.
Qed.

(** ** Finding a frame *)

(** No frame of the blocks from the [n]-th on has the page number. *)
Definition none_from (all : list Z) (iLast pgno : Z) (n : nat) : Prop :=
  ∀ j, all !! j = Some pgno → Z.of_nat j < iLast → Z.of_nat j < block_zero (Z.of_nat n).

Lemma is_last_slice all iLast pgno (b : nat) r : none_from all iLast pgno (S b) →
  is_last (slice b all) (block_zero (Z.of_nat b) + 1) iLast pgno r → r ≠ 0 → is_last all 1 iLast pgno r.
Proof.
  intros Hn [[? _]|(j & Hj & -> & Hle & Hm)] Hr; [done|]. pose proof (block_zero_nonneg (Z.of_nat b) ltac:(lia)) as Hz.
  rewrite lookup_slice in Hj. case_decide as Hc; [|done].
  right. exists (Z.to_nat (block_zero (Z.of_nat b)) + j)%nat. split; [done|]. split; [lia|]. split; [lia|].
  intros j' Hj' Hle'. pose proof (Hn j' Hj' ltac:(lia)) as Hlt.
  replace (Z.of_nat (S b)) with (Z.of_nat b + 1) in Hlt by lia. rewrite block_zero_next in Hlt by lia.
  destruct (decide (Z.to_nat (block_zero (Z.of_nat b)) ≤ j')%nat) as [Hge|]; [|lia].
  assert (slice b all !! (j' - Z.to_nat (block_zero (Z.of_nat b)))%nat = Some pgno) as Hs.
  { rewrite lookup_slice, decide_True by lia. rewrite <- Hj'. f_equal. lia. }
  apply Hm in Hs; lia.
Qed.

Lemma none_from_slice all iLast pgno (b : nat) : none_from all iLast pgno (S b) →
  is_last (slice b all) (block_zero (Z.of_nat b) + 1) iLast pgno 0 → none_from all iLast pgno b.
Proof.
  intros Hn Hl j Hj Hlt. pose proof (block_zero_nonneg (Z.of_nat b) ltac:(lia)) as Hz.
  pose proof (Hn j Hj Hlt) as Hlt'. replace (Z.of_nat (S b)) with (Z.of_nat b + 1) in Hlt' by lia.
  rewrite block_zero_next in Hlt' by lia.
  destruct Hl as [[_ Hl]|(j' & _ & E & _)]; [|lia].
  destruct (Z.ltb_spec (Z.of_nat j) (block_zero (Z.of_nat b))) as [|Hge]; [done|]. exfalso.
  apply (Hl (j - Z.to_nat (block_zero (Z.of_nat b)))%nat); [|lia].
  rewrite lookup_slice, decide_True by lia. rewrite <- Hj. f_equal. lia.
Qed.

Lemma find_tables_last limit can_map pages all iLast pgno : limit = Z.to_nat HASHTABLE_NSLOT → index_ok pages all → 0 < pgno → iLast ≤ Z.of_nat (length all) → ∀ n : nat,
  none_from all iLast pgno n → (n ≠ 0%nat → block_zero (Z.of_nat n - 1) < iLast) →
  ∃ r, find_tables limit can_map pages iLast pgno n = Ret (SQLITE_OK, r) ∧ is_last all 1 iLast pgno r.
Proof.
  intros Hlim Hix Hpg Hle. pose proof (ix_bound _ _ Hix) as Hbd. induction n as [|b IH]; intros Hn Hz.
  { exists 0. split; [done|]. left. split; [done|]. intros j Hj Hj2. pose proof (Hn j Hj ltac:(lia)) as H.
    change (block_zero (Z.of_nat 0)) with 0 in H. lia. }
  specialize (Hz ltac:(done)). replace (Z.of_nat (S b) - 1) with (Z.of_nat b) in Hz by lia.
  destruct (ix_pages _ _ Hix b) as (p & Ep & Hp); [lia|]. pose proof (lookup_lt_Some _ _ _ Ep) as Hlen.
  pose proof (block_zero_nonneg (Z.of_nat b) ltac:(lia)) as Hz0.
  cbn [find_tables]. unfold walIndexPage. rewrite (proj2 (Z.ltb_lt _ _)) by lia. cbn [Z.eqb SQLITE_OK negb].
  rewrite (walHashGet_ok _ _ _ Ep). cbn [mbind outcome_bind]. rewrite (proj2 (Z.ltb_lt 0 pgno)) by done.
  cbn [c_assert mbind outcome_bind].
  destruct (find_chain_last _ p _ (block_zero (Z.of_nat b)) iLast pgno Hp) with (limit := limit) as (r & -> & Hr); [lia|lia|done|].
  cbn [mbind outcome_bind]. destruct (Z.eqb_spec r 0) as [->|Hr0].
  - apply IH; [by apply none_from_slice|]. intros Hb. pose proof (block_zero_mono (Z.of_nat b - 1) (Z.of_nat b) ltac:(lia)).
    pose proof (page_cap_pos (Z.of_nat b - 1)). lia.
  - exists r. split; [done|]. by apply (is_last_slice _ _ _ b).
Qed.

Lemma sqlite3WalFindFrame_ok can_map pages all readLock iLast pgno : index_ok pages all →
  0 < readLock → 0 ≤ iLast ≤ Z.of_nat (length all) → 0 < pgno →
  ∃ r, sqlite3WalFindFrame can_map pages readLock iLast pgno = Ret (SQLITE_OK, r) ∧ is_last all 1 iLast pgno r.
Proof.
  intros Hix Hrl Hle Hpg. pose proof (ix_bound _ _ Hix) as Hbd. unfold sqlite3WalFindFrame.
  rewrite (proj2 (Z.leb_le 0 readLock)) by lia. cbn [c_assert mbind outcome_bind].
  rewrite (proj2 (Z.eqb_neq readLock 0)), orb_false_r by lia. destruct (Z.eqb_spec iLast 0) as [->|Hne].
  { exists 0. split; [done|]. left. split; [done|]. intros. lia. }
  destruct (walFramePage_spec iLast) as (b & -> & Hb); [lia|lia|]. cbn [mbind outcome_bind].
  replace (Z.to_nat (Z.of_nat b + 1)) with (S b) by lia. apply find_tables_last; try done; [lia| |].
  - intros j _ Hj. replace (Z.of_nat (S b)) with (Z.of_nat b + 1) by lia. rewrite block_zero_next by lia. lia.
  - intros _. replace (Z.of_nat (S b) - 1) with (Z.of_nat b) by lia. lia.
Qed.

Lemma walFramePgno_ok pages all iFrame x : index_ok pages all → all !! Z.to_nat (iFrame - 1) = Some x → 0 < iFrame →
  walFramePgno pages iFrame = Ret x.
Proof.
  intros Hix Hx Hf. pose proof (ix_bound _ _ Hix) as Hbd. pose proof (lookup_lt_Some _ _ _ Hx) as Hlen.
  destruct (walFramePage_spec iFrame) as (b & Eb & Hb); [lia|lia|]. unfold walFramePgno. rewrite Eb. cbn [mbind outcome_bind].
  destruct (ix_pages _ _ Hix b) as (p & Ep & Hp); [lia|]. unfold zlookup at 1. rewrite (proj2 (Z.ltb_ge _ 0)), Nat2Z.id, Ep by lia.
  cbn [deref mbind outcome_bind]. pose proof (block_zero_nonneg (Z.of_nat b) ltac:(lia)) as Hz0.
  assert (get (aPgno p) (iFrame - 1 - block_zero (Z.of_nat b)) = Ret x) as Hg.
  { assert (slice b all !! Z.to_nat (iFrame - 1 - block_zero (Z.of_nat b)) = Some x) as Hs.
    { rewrite lookup_slice, decide_True by lia. rewrite <- Hx. f_equal. lia. }
    rewrite (ok_pgno _ _ _ Hp). unfold get. rewrite zlookup_app_l by (apply lookup_lt_Some in Hs; lia).
    unfold zlookup. rewrite (proj2 (Z.ltb_ge _ 0)) by lia. by rewrite Hs. }
  unfold block_zero, page_cap in *. destruct (Z.eqb_spec (Z.of_nat b) 0); [by rewrite Z.sub_0_r in Hg|].
  rewrite <- Hg. f_equal. unfold HASHTABLE_NPAGE in *. Z.div_mod_to_equations. lia.
Qed.

Lemma linear_search_last pages all pgno : index_ok pages all → ∀ n, (n ≤ length all)%nat →
  ∃ r, linear_search pages pgno n = Ret r ∧ is_last all 1 (Z.of_nat n) pgno r.
Proof.
  intros Hix. induction n as [|n IH]; intros Hn.
  { exists 0. split; [done|]. left. split; [done|]. intros. lia. }
  destruct (lookup_lt_is_Some_2 all n) as [x Hx]; [lia|]. cbn [linear_search].
  rewrite (walFramePgno_ok pages all (Z.of_nat (S n)) x Hix); [|by replace (Z.to_nat (Z.of_nat (S n) - 1)) with n by lia|lia].
  cbn [mbind outcome_bind]. destruct (Z.eqb_spec x pgno) as [->|Hne].
  - eexists. split; [done|]. right. exists n. repeat split; [done|lia|lia|lia].
  - destruct IH as (r & -> & Hr); [lia|]. exists r. split; [done|]. destruct Hr as [[-> Hno]|(j & Hj & -> & Hle & Hm)].
    + left. split; [done|]. intros j Hj Hle. apply (Hno j Hj). destruct (decide (j = n)) as [->|]; [congruence|lia].
    + right. exists j. repeat split; [done|lia|]. intros j' Hj' Hle'. apply Hm; [done|].
      destruct (decide (j' = n)) as [->|]; [congruence|lia].
Qed.

(** [walIndexAppend] extends the frames that the wal-index records, on every
    block of it: the frame [iFrame] is recorded after the frames before it, the
    entries of later frames, left by a writer that stopped in the middle of a
    transaction, are gone, and no call runs out of slots. *)
Theorem walIndexAppend_records pages all mx iFrame x : index_ok pages all →
  0 < iFrame ≤ Z.of_nat (length all) + 1 → iFrame + HASHTABLE_NPAGE < 2 ^ 32 →
  iFrame = Z.of_nat (length all) + 1 ∨ Z.of_nat mx = iFrame - 1 → 0 < x < 2 ^ 32 →
  ∃ pages', walIndexAppend true (Z.of_nat mx) iFrame x pages = Ret (SQLITE_OK, pages') ∧
    index_ok pages' (take (Z.to_nat (iFrame - 1)) all ++ [x]).
Proof. apply walIndexAppend_ok. Qed.

Lemma walIndexAppend_records_witness :
  ∃ pages', walIndexAppend true (Z.of_nat 0) 1 5 [] = Ret (SQLITE_OK, pages') ∧ index_ok pages' [5].
Proof.
  apply (walIndexAppend_records [] [] 0 1 5); [apply index_ok_nil|simpl; lia|done|by right|lia].
Defined.

(** C22: [sqlite3WalFindFrame] finds the last frame of a page among the frames up
    to the last one the reader knows, whatever frames were added since, and
    agrees with the linear search over the page numbers. *)
Theorem sqlite3WalFindFrame_linear can_map pages all readLock iLast pgno : index_ok pages all →
  0 < readLock → 0 ≤ iLast ≤ Z.of_nat (length all) → 0 < pgno →
  ∃ r, sqlite3WalFindFrame can_map pages readLock iLast pgno = Ret (SQLITE_OK, r) ∧
    linear_search pages pgno (Z.to_nat iLast) = Ret r ∧ is_last all 1 iLast pgno r.
Proof.
  intros Hix Hrl Hle Hpg. destruct (sqlite3WalFindFrame_ok can_map pages all readLock iLast pgno) as (r & Hr & Hl); try done.
  destruct (linear_search_last pages all pgno Hix (Z.to_nat iLast)) as (r' & Hr' & Hl'); [lia|].
  rewrite Z2Nat.id in Hl' by lia. exists r.
  assert (r' = r) as -> by (apply (is_last_unique all 1 iLast pgno); [lia|done|done]). done.
Qed.

(** Three frames, for the witness. *)
Definition demo_pages : list wi_page :=
  match append_frames (λ _, true) 0 0 [7; 3; 7] [] with Ret (_, pages, _) => pages | Undef _ => [] end.

Lemma demo_pages_ok : index_ok demo_pages [7; 3; 7].
Proof.
  destruct (append_frames_ok [] [] 0 [7; 3; 7]) as (pages & E & Hix); [apply index_ok_nil|simpl; lia|repeat constructor|done|done|].
  unfold demo_pages. change (Z.of_nat 0) with 0 in E. rewrite E. done.
Qed.

Lemma sqlite3WalFindFrame_linear_witness :
  ∃ r, sqlite3WalFindFrame false demo_pages 1 2 7 = Ret (SQLITE_OK, r) ∧
    linear_search demo_pages 7 (Z.to_nat 2) = Ret r ∧ is_last [7; 3; 7] 1 2 7 r.
Proof. apply sqlite3WalFindFrame_linear; [apply demo_pages_ok|lia|simpl; lia|lia]. Defined.
