(* ===== verification/WalFrame.v ===== *)
(** * Frames of the write-ahead log

    Models the checksum and the frame headers of src/wal.c:
    [walChecksumBytes], [walEncodeFrame], [walDecodeFrame], the header of the
    log file that [sqlite3WalFrames] writes, and the wal-index header with
    [walIndexWriteHdr] and [walIndexTryHdr]. [be] is SQLITE_BIGENDIAN of the
    machine: integers in memory have its byte order, those in the file are big
    endian, and a checksum reads its input in the byte order of the machine that
    wrote the log. *)

From S2P Require Import Prelude Bits Varint.
#[local] Open Scope Z_scope.
#[local] Open Scope c_scope.
#[local] Open Scope list_scope.

Definition WAL_MAX_VERSION : Z := 3007000.
Definition WALINDEX_MAX_VERSION : Z := 3007000.
Definition WAL_FRAME_HDRSIZE : Z := 24.
Definition WAL_HDRSIZE : Z := 32.
Definition WAL_MAGIC : Z := 0x377f0682.
Definition SQLITE_MAX_PAGE_SIZE : Z := 65536.

(** [aSalt] is used as eight bytes in memory order. *)
Record WalIndexHdr := MkHdr {
  iVersion : Z;
  iChange : Z;
  isInit : Z;
  bigEndCksum : Z;
  h_szPage : Z;
  mxFrame : Z;
  nPage : Z;
  aFrameCksum : Z * Z;
  aSalt : list Z;
  aCksum : Z * Z }.

#[global] Instance WalIndexHdr_eq_dec : EqDecision WalIndexHdr.
Proof. solve_decision. Defined.

Definition set_cksum (c : Z * Z) (h : WalIndexHdr) : WalIndexHdr :=
  MkHdr (iVersion h) (iChange h) (isInit h) (bigEndCksum h) (h_szPage h) (mxFrame h) (nPage h) c (aSalt h) (aCksum h).

(** [memset(&pWal->hdr, 0, sizeof(WalIndexHdr))]. *)
Definition zero_hdr : WalIndexHdr := MkHdr 0 0 0 0 0 0 0 (0, 0) (replicate 8 0) (0, 0).

(** A [u32] at an address. *)
Definition load32 (be : bool) (b0 b1 b2 b3 : Z) : Z :=
  if be then (b0 .<< 24) .| (b1 .<< 16) .| (b2 .<< 8) .| b3
  else (b3 .<< 24) .| (b2 .<< 16) .| (b1 .<< 8) .| b0.

Definition store32 (be : bool) (v : Z) : list Z :=
  let l := [u8 (v .>> 24); u8 (v .>> 16); u8 (v .>> 8); u8 v] in if be then l else reverse l.
Definition store16 (be : bool) (v : Z) : list Z :=
  let l := [u8 (v .>> 8); u8 v] in if be then l else reverse l.

Definition BYTESWAP32 (x : Z) : Z :=
  u32 (((x .& 0x000000FF) .<< 24) + ((x .& 0x0000FF00) .<< 8) + ((x .& 0x00FF0000) .>> 8) + ((x .& 0xFF000000) .>> 24)).

(** The [do ... while] loop of [walChecksumBytes]. *)
Fixpoint cksum_loop (be native : bool) (a : list Z) (s1 s2 : Z) : outcome (Z * Z) :=
  match a with
  | b0 :: b1 :: b2 :: b3 :: b4 :: b5 :: b6 :: b7 :: rest =>
      let d0 := load32 be b0 b1 b2 b3 in
      let d1 := load32 be b4 b5 b6 b7 in
      let s1 := u32 (s1 + u32 ((if native then d0 else BYTESWAP32 d0) + s2)) in
      let s2 := u32 (s2 + u32 ((if native then d1 else BYTESWAP32 d1) + s1)) in
      match rest with [] => Ret (s1, s2) | _ => cksum_loop be native rest s1 s2 end
  | _ => Undef OutOfBounds
  end.

(** The content [a] is the [nByte] bytes at the address. *)
Definition walChecksumBytes (be nativeCksum : bool) (a : list Z) (aIn : option (Z * Z)) : outcome (Z * Z) :=
  let '(s1, s2) := match aIn with Some c => c | None => (0, 0) end in
  let nByte := Z.of_nat (length a) in
  _ ← c_assert (8 <=? nByte);
  _ ← c_assert (nByte .& 7 =? 0);
  cksum_loop be nativeCksum a s1 s2.

Definition big (be : bool) : Z := if be then 1 else 0.

(** [aData] holds [pWal->szPage] bytes. The frame header, and [pWal->hdr] with
    the new checksum. *)
Definition walEncodeFrame (be : bool) (h : WalIndexHdr) (iPage nTruncate : Z) (aData : list Z)
    : outcome (list Z * WalIndexHdr) :=
  let aFrame := sqlite3Put4byte iPage ++ sqlite3Put4byte nTruncate in
  let nativeCksum := bigEndCksum h =? big be in
  c ← walChecksumBytes be nativeCksum aFrame (Some (aFrameCksum h));
  c ← walChecksumBytes be nativeCksum aData (Some c);
  Ret (aFrame ++ aSalt h ++ sqlite3Put4byte c.1 ++ sqlite3Put4byte c.2, set_cksum c h).

(** [None] for a frame that is not valid, else its page number and the size of
    the database, and [pWal->hdr] with the checksum in both cases. *)
Definition walDecodeFrame (be : bool) (h : WalIndexHdr) (aData aFrame : list Z)
    : outcome (option (Z * Z) * WalIndexHdr) :=
  if negb (bool_decide (aSalt h = take 8 (drop 8 aFrame))) then Ret (None, h) else
  pgno ← sqlite3Get4byte aFrame;
  if pgno =? 0 then Ret (None, h) else
  let nativeCksum := bigEndCksum h =? big be in
  c ← walChecksumBytes be nativeCksum (take 8 aFrame) (Some (aFrameCksum h));
  c ← walChecksumBytes be nativeCksum aData (Some c);
  c0 ← sqlite3Get4byte (drop 16 aFrame);
  c1 ← sqlite3Get4byte (drop 20 aFrame);
  if negb (c.1 =? c0) || negb (c.2 =? c1) then Ret (None, set_cksum c h) else
  nTruncate ← sqlite3Get4byte (drop 4 aFrame);
  Ret (Some (pgno, nTruncate), set_cksum c h).

(** The header of the log file in [sqlite3WalFrames], and its checksum. *)
Definition wal_header (be : bool) (szPage nCkpt : Z) (salt : list Z) : outcome (list Z * (Z * Z)) :=
  let a := sqlite3Put4byte (WAL_MAGIC .| big be) ++ sqlite3Put4byte WAL_MAX_VERSION ++ sqlite3Put4byte szPage ++
           sqlite3Put4byte nCkpt ++ salt in
  c ← walChecksumBytes be true a None;
  Ret (a ++ sqlite3Put4byte c.1 ++ sqlite3Put4byte c.2, c).

(** The bytes of a [WalIndexHdr] before [aCksum]. *)
Definition hdr_bytes (be : bool) (h : WalIndexHdr) : list Z :=
  store32 be (iVersion h) ++ store32 be 0 ++ store32 be (iChange h) ++ [isInit h; bigEndCksum h] ++
  store16 be (h_szPage h) ++ store32 be (mxFrame h) ++ store32 be (nPage h) ++
  store32 be (aFrameCksum h).1 ++ store32 be (aFrameCksum h).2 ++ aSalt h.

(** ** Byte order *)

Definition is_byte (b : Z) : Prop := 0 ≤ b < 256.

Lemma load32_sum b0 b1 b2 b3 : is_byte b0 → is_byte b1 → is_byte b2 → is_byte b3 →
  (b0 .<< 24) + (b1 .<< 16) + (b2 .<< 8) + b3 = load32 true b0 b1 b2 b3.
Proof.
  unfold is_byte, load32. intros. rewrite (Z.add_nocarry_lor (b0 .<< 24)) by bits_eq [(b0, 8); (b1, 8)].
  rewrite (Z.add_nocarry_lor _ (b2 .<< 8)) by bits_eq [(b0, 8); (b1, 8); (b2, 8)].
  by rewrite Z.add_nocarry_lor by bits_eq [(b0, 8); (b1, 8); (b2, 8); (b3, 8)].
Qed.

Lemma load32_range be b0 b1 b2 b3 : is_byte b0 → is_byte b1 → is_byte b2 → is_byte b3 →
  0 ≤ load32 be b0 b1 b2 b3 < 2 ^ 32.
Proof.
  unfold is_byte. intros. destruct be; [|change (load32 false b0 b1 b2 b3) with (load32 true b3 b2 b1 b0)];
    rewrite <- load32_sum by done; rewrite !Z.shiftl_mul_pow2 by lia; lia.
Qed.

Lemma BYTESWAP32_load be b0 b1 b2 b3 : is_byte b0 → is_byte b1 → is_byte b2 → is_byte b3 →
  BYTESWAP32 (load32 be b0 b1 b2 b3) = load32 (negb be) b0 b1 b2 b3.
Proof.
  assert (∀ b0 b1 b2 b3, is_byte b0 → is_byte b1 → is_byte b2 → is_byte b3 →
    BYTESWAP32 (load32 true b0 b1 b2 b3) = load32 true b3 b2 b1 b0) as H.
  { clear. intros b0 b1 b2 b3 H0 H1 H2 H3. unfold BYTESWAP32.
    replace ((load32 true b0 b1 b2 b3 .& 0x000000FF) .<< 24) with (b3 .<< 24).
    2: { unfold load32, is_byte in *. bits_eq [(b0, 8); (b1, 8); (b2, 8); (b3, 8)]. }
    replace ((load32 true b0 b1 b2 b3 .& 0x0000FF00) .<< 8) with (b2 .<< 16).
    2: { unfold load32, is_byte in *. bits_eq [(b0, 8); (b1, 8); (b2, 8); (b3, 8)]. }
    replace ((load32 true b0 b1 b2 b3 .& 0x00FF0000) .>> 8) with (b1 .<< 8).
    2: { unfold load32, is_byte in *. bits_eq [(b0, 8); (b1, 8); (b2, 8); (b3, 8)]. }
    replace ((load32 true b0 b1 b2 b3 .& 0xFF000000) .>> 24) with b0.
    2: { unfold load32, is_byte in *. bits_eq [(b0, 8); (b1, 8); (b2, 8); (b3, 8)]. }
    rewrite load32_sum by done. apply uw_small, load32_range; done. }
  intros. destruct be; [by apply H|]. by apply (H b3 b2 b1 b0).
Qed.

(** ** The checksum *)

(** The checksum with the words read in the byte order [ord]; [None] if the
    input is not a positive number of eight-byte groups. *)
Fixpoint ref_cksum (ord : bool) (a : list Z) (c : Z * Z) : option (Z * Z) :=
  match a with
  | b0 :: b1 :: b2 :: b3 :: b4 :: b5 :: b6 :: b7 :: rest =>
      let s1 := (c.1 + load32 ord b0 b1 b2 b3 + c.2) mod 2 ^ 32 in
      let s2 := (c.2 + load32 ord b4 b5 b6 b7 + s1) mod 2 ^ 32 in
      match rest with [] => Some (s1, s2) | _ => ref_cksum ord rest (s1, s2) end
  | _ => None
  end.

(** Induction by groups of eight. *)
Lemma groups8_ind (P : list Z → Prop) :
  (∀ b0 b1 b2 b3 b4 b5 b6 b7, P [b0; b1; b2; b3; b4; b5; b6; b7]) →
  (∀ b0 b1 b2 b3 b4 b5 b6 b7 rest, rest ≠ [] → P rest → P (b0 :: b1 :: b2 :: b3 :: b4 :: b5 :: b6 :: b7 :: rest)) →
  ∀ a, 8 ≤ Z.of_nat (length a) → Z.divide 8 (Z.of_nat (length a)) → P a.
Proof.
  intros Hb Hs a. remember (length a) as n eqn:E. revert a E. induction (lt_wf n) as [n _ IH]. intros a E Hn Hd.
  do 8 (destruct a as [|? a]; [simpl in E; lia|]). destruct a as [|x a]; [apply Hb|]. apply Hs; [done|].
  apply (IH (length (x :: a))); [simpl in *; lia|done| |]; destruct Hd as [k Hk]; simpl in *; [lia|exists (k - 1); lia].
Qed.

Lemma cksum_step be (native : bool) s t b0 b1 b2 b3 : is_byte b0 → is_byte b1 → is_byte b2 → is_byte b3 →
  u32 (s + u32 ((if native then load32 be b0 b1 b2 b3 else BYTESWAP32 (load32 be b0 b1 b2 b3)) + t)) =
  (s + load32 (if native then be else negb be) b0 b1 b2 b3 + t) mod 2 ^ 32.
Proof.
  intros. unfold uw. rewrite Z.add_mod_idemp_r by done. f_equal.
  destruct native; [lia|]. rewrite BYTESWAP32_load by done. lia.
Qed.

Lemma cksum_loop_ref be (native : bool) a s1 s2 : 8 ≤ Z.of_nat (length a) → Z.divide 8 (Z.of_nat (length a)) → Forall is_byte a →
  ∃ c, ref_cksum (if native then be else negb be) a (s1, s2) = Some c ∧ cksum_loop be native a s1 s2 = Ret c.
Proof.
  intros H1 H2. revert s1 s2. revert a H1 H2. apply (groups8_ind (λ a, ∀ s1 s2, Forall is_byte a →
    ∃ c, ref_cksum (if native then be else negb be) a (s1, s2) = Some c ∧ cksum_loop be native a s1 s2 = Ret c)).
  - intros b0 b1 b2 b3 b4 b5 b6 b7 s1 s2 Hb. rewrite !list.Forall_cons in Hb. destruct_and!. eexists. split; [done|].
    cbn [cksum_loop ref_cksum fst snd]. rewrite !cksum_step by done. done.
  - intros b0 b1 b2 b3 b4 b5 b6 b7 rest Hne IH s1 s2 Hb. rewrite !list.Forall_cons in Hb. destruct_and!.
    cbn [cksum_loop ref_cksum fst snd]. rewrite !cksum_step by done. destruct rest; [done|]. by apply IH.
Qed.

Lemma walChecksumBytes_ref be (native : bool) a c : 8 ≤ Z.of_nat (length a) → Z.divide 8 (Z.of_nat (length a)) → Forall is_byte a →
  ∃ r, ref_cksum (if native then be else negb be) a (default (0, 0) c) = Some r ∧
    walChecksumBytes be native a c = Ret r.
Proof.
  intros H1 H2 Hb. destruct (default (0, 0) c) as [s1 s2] eqn:Ec.
  destruct (cksum_loop_ref be native a s1 s2 H1 H2 Hb) as (r & Hr & Hl). exists r. split; [done|].
  unfold walChecksumBytes. replace (match c with Some c => c | None => (0, 0) end) with (s1, s2) by (by destruct c).
  rewrite (proj2 (Z.leb_le _ _)) by done. cbn [c_assert mbind outcome_bind].
  assert (Z.of_nat (length a) .& 7 = 0) as ->.
  { rewrite (land_pred_pow2 _ 3) by lia. by apply Z.mod_divide. }
  done.
Qed.

Lemma ref_cksum_range ord a c r : ref_cksum ord a c = Some r → in_uw 32 r.1 ∧ in_uw 32 r.2.
Proof.
  remember (length a) as n eqn:E. revert a c E. induction (lt_wf n) as [n _ IH]. intros a c E Hr.
  do 8 (destruct a as [|? a]; [done|]). cbn [ref_cksum] in Hr. destruct a as [|x a].
  - simplify_eq. cbn [fst snd]. split; by apply Z.mod_pos_bound.
  - eapply (IH (length (x :: a))); [simpl in *; lia|done|exact Hr].
Qed.

(** ** Frames *)

Record frame := Frame { f_pgno : Z; f_size : Z; f_data : list Z }.

(** A page of [szPage] bytes, a power of two in the range of the file format. *)
Definition page_size (szPage : Z) : Prop := szPage ∈ [512; 1024; 2048; 4096; 8192; 16384; 32768; 65536].

(** A fact about every page size, by computation. *)
Lemma page_size_ind (P : Z → Prop) szPage : page_size szPage →
  Forall P [512; 1024; 2048; 4096; 8192; 16384; 32768; 65536] → P szPage.
Proof. intros Hs HP. by apply (proj1 (list.Forall_forall _ _) HP). Qed.

Lemma page_size_spec szPage : page_size szPage →
  512 ≤ szPage ≤ SQLITE_MAX_PAGE_SIZE ∧ szPage .& (szPage - 1) = 0 ∧ Z.divide 8 szPage.
Proof.
  intros Hs. pattern szPage. apply (page_size_ind _ _ Hs).
  repeat (apply list.Forall_cons; split); [(split; [done|]; split; [done|by apply Z.mod_divide])..|constructor].
Qed.

Record frame_ok (szPage : Z) (f : frame) : Prop := {
  fok_pgno : 0 < f_pgno f < 2 ^ 32;
  fok_size : 0 ≤ f_size f < 2 ^ 32;
  fok_len : Z.of_nat (length (f_data f)) = szPage;
  fok_data : Forall is_byte (f_data f) }.

(** The checksum after a frame, the header and the bytes of a frame. *)
Definition cks (ord : bool) (a : list Z) (c : Z * Z) : Z * Z := default (0, 0) (ref_cksum ord a c).
Definition frame_cksum (ord : bool) (c : Z * Z) (f : frame) : Z * Z :=
  cks ord (f_data f) (cks ord (sqlite3Put4byte (f_pgno f) ++ sqlite3Put4byte (f_size f)) c).
Definition frame_hdr (ord : bool) (salt : list Z) (c : Z * Z) (f : frame) : list Z :=
  sqlite3Put4byte (f_pgno f) ++ sqlite3Put4byte (f_size f) ++ salt ++
  sqlite3Put4byte (frame_cksum ord c f).1 ++ sqlite3Put4byte (frame_cksum ord c f).2.

(** The byte order recorded in a header. *)
Definition order (h : WalIndexHdr) : bool := bigEndCksum h =? 1.

Lemma order_native be h : bigEndCksum h = 0 ∨ bigEndCksum h = 1 →
  (if bigEndCksum h =? big be then be else negb be) = order h.
Proof. unfold order, big. intros [-> | ->]; by destruct be. Qed.

Lemma put4_bytes v : Forall is_byte (sqlite3Put4byte v).
Proof. unfold sqlite3Put4byte. repeat constructor; apply uw_range; lia. Qed.

Lemma get4_put4 v rest : 0 ≤ v < 2 ^ 32 → sqlite3Get4byte (sqlite3Put4byte v ++ rest) = Ret v.
Proof. intros Hv. unfold sqlite3Get4byte; simpl; by rewrite byte4. Qed.

Lemma cks_spec be a c (ord : bool) (native : bool) : ord = (if native then be else negb be) →
  8 ≤ Z.of_nat (length a) → Z.divide 8 (Z.of_nat (length a)) → Forall is_byte a →
  walChecksumBytes be native a c = Ret (cks ord a (default (0, 0) c)).
Proof.
  intros -> H1 H2 Hb. destruct (walChecksumBytes_ref be native a c H1 H2 Hb) as (r & Hr & ->). unfold cks. by rewrite Hr.
Qed.

Lemma cks_range be a c : in_uw 32 (cks be a c).1 ∧ in_uw 32 (cks be a c).2.
Proof.
  unfold cks. destruct (ref_cksum be a c) as [r|] eqn:E; [by apply ref_cksum_range in E|]. cbn. unfold in_uw. lia.
Qed.

Lemma frame_cksum_run be h sz f : bigEndCksum h = 0 ∨ bigEndCksum h = 1 → page_size sz → frame_ok sz f →
  (c ← walChecksumBytes be (bigEndCksum h =? big be) (sqlite3Put4byte (f_pgno f) ++ sqlite3Put4byte (f_size f)) (Some (aFrameCksum h));
   walChecksumBytes be (bigEndCksum h =? big be) (f_data f) (Some c)) = Ret (frame_cksum (order h) (aFrameCksum h) f).
Proof.
  intros Hb (Hs & _ & Hd)%page_size_spec Hf.
  rewrite (cks_spec be _ _ (order h)); [|by rewrite order_native|done|by exists 1|apply Forall_app_2; apply put4_bytes].
  cbn [mbind outcome_bind]. apply cks_spec; [by rewrite order_native|rewrite (fok_len _ _ Hf); lia|by rewrite (fok_len _ _ Hf)|apply Hf].
Qed.

Lemma walEncodeFrame_spec be h sz f : bigEndCksum h = 0 ∨ bigEndCksum h = 1 → page_size sz → frame_ok sz f →
  walEncodeFrame be h (f_pgno f) (f_size f) (f_data f) =
    Ret (frame_hdr (order h) (aSalt h) (aFrameCksum h) f, set_cksum (frame_cksum (order h) (aFrameCksum h) f) h).
Proof.
  intros Hb Hs Hf. pose proof (frame_cksum_run be h sz f Hb Hs Hf) as Hr. unfold walEncodeFrame.
  destruct (walChecksumBytes be _ (sqlite3Put4byte _ ++ _) _) as [c|] eqn:Ec; [|done]. cbn [mbind outcome_bind] in *. rewrite Hr.
  cbn [mbind outcome_bind]. unfold frame_hdr. by rewrite <- !app_assoc.
Qed.

(** Decoding with content that need not be the one encoded. *)
Lemma walDecodeFrame_any be h sz f data : bigEndCksum h = 0 ∨ bigEndCksum h = 1 → page_size sz → frame_ok sz f →
  frame_ok sz (Frame (f_pgno f) (f_size f) data) → length (aSalt h) = 8%nat →
  let c := frame_cksum (order h) (aFrameCksum h) f in
  let c' := frame_cksum (order h) (aFrameCksum h) (Frame (f_pgno f) (f_size f) data) in
  walDecodeFrame be h data (frame_hdr (order h) (aSalt h) (aFrameCksum h) f) =
    Ret (if negb (c'.1 =? c.1) || negb (c'.2 =? c.2) then None else Some (f_pgno f, f_size f), set_cksum c' h).
Proof.
  intros Hb Hs Hf Hf' Hl c c'. pose proof (frame_cksum_run be h sz _ Hb Hs Hf') as Hr. unfold walDecodeFrame, frame_hdr.
  fold c. fold c' in Hr. assert (in_uw 32 c.1 ∧ in_uw 32 c.2) as [Hc1 Hc2] by apply cks_range.
  destruct (aSalt h) as [|s0 [|s1 [|s2 [|s3 [|s4 [|s5 [|s6 [|s7 [|? ?]]]]]]]]] eqn:Es; try done.
  rewrite bool_decide_eq_true_2 by done. cbn [negb]. rewrite get4_put4 by (pose proof (fok_pgno _ _ Hf); lia).
  cbn [mbind outcome_bind]. rewrite (proj2 (Z.eqb_neq _ _)) by (pose proof (fok_pgno _ _ Hf); lia).
  change (take 8 (sqlite3Put4byte (f_pgno f) ++ sqlite3Put4byte (f_size f) ++ _)) with (sqlite3Put4byte (f_pgno f) ++ sqlite3Put4byte (f_size f)).
  cbn [f_pgno f_size f_data] in Hr.
  destruct (walChecksumBytes be _ (sqlite3Put4byte _ ++ _) _) as [c0|] eqn:Ec; [|done]. cbn [mbind outcome_bind] in *. rewrite Hr.
  cbn [mbind outcome_bind].
  change (drop 16 (sqlite3Put4byte (f_pgno f) ++ _)) with (sqlite3Put4byte c.1 ++ sqlite3Put4byte c.2).
  change (drop 20 (sqlite3Put4byte (f_pgno f) ++ _)) with (sqlite3Put4byte c.2).
  change (drop 4 (sqlite3Put4byte (f_pgno f) ++ ?r)) with r.
  rewrite (get4_put4 c.1) by exact Hc1. cbn [mbind outcome_bind].
  assert (sqlite3Get4byte (sqlite3Put4byte c.2) = Ret c.2) as -> by (rewrite <- (app_nil_r (sqlite3Put4byte c.2)); by apply get4_put4).
  cbn [mbind outcome_bind]. destruct (negb _ || _); [done|]. by rewrite get4_put4 by apply Hf.
Qed.

Lemma walDecodeFrame_spec be h sz f : bigEndCksum h = 0 ∨ bigEndCksum h = 1 → page_size sz → frame_ok sz f → length (aSalt h) = 8%nat →
  walDecodeFrame be h (f_data f) (frame_hdr (order h) (aSalt h) (aFrameCksum h) f) =
    Ret (Some (f_pgno f, f_size f), set_cksum (frame_cksum (order h) (aFrameCksum h) f) h).
Proof.
  intros Hb Hs Hf Hl. assert (f = Frame (f_pgno f) (f_size f) (f_data f)) as E by (by destruct f).
  rewrite (walDecodeFrame_any be h sz f (f_data f)) by (rewrite <- ?E; done). rewrite <- E, !Z.eqb_refl. done.
Qed.

(** ** What the checksum detects *)

Definition cksum_range (c : Z * Z) : Prop := in_uw 32 c.1 ∧ in_uw 32 c.2.

Lemma mod_add_inj M x y z : 0 < M → 0 ≤ x < M → 0 ≤ y < M → (x + z) mod M = (y + z) mod M → x = y.
Proof.
  intros HM Hx Hy E. assert ((x - y) mod M = 0) as H.
  { replace (x - y) with ((x + z) - (y + z)) by lia. by rewrite Zminus_mod, E, Z.sub_diag, Z.mod_0_l by lia. }
  apply Z.mod_divide in H as [k Hk]; [|lia]. assert (k = 0) by nia. lia.
Qed.

(** One group: the checksum before it, or its two words, are determined by the
    checksum after it. *)
Definition cksum_group (c : Z * Z) (d0 d1 : Z) : Z * Z :=
  let s1 := (c.1 + d0 + c.2) mod 2 ^ 32 in (s1, (c.2 + d1 + s1) mod 2 ^ 32).

Lemma cksum_group_inj c c' d0 d1 : cksum_range c → cksum_range c' → cksum_group c d0 d1 = cksum_group c' d0 d1 → c = c'.
Proof.
  destruct c as [a b], c' as [a' b']. unfold cksum_range, in_uw, cksum_group. cbn [fst snd]. intros [Ha Hb] [Ha' Hb'] E.
  injection E as E1 E2. rewrite <- E1, <- !Z.add_assoc in E2. apply mod_add_inj in E2; [|done|done|done]. subst b'.
  rewrite <- !Z.add_assoc in E1. apply mod_add_inj in E1; [|done|done|done]. by subst.
Qed.

Lemma cksum_group_inj_word c d0 d1 d0' d1' : in_uw 32 d0 → in_uw 32 d1 → in_uw 32 d0' → in_uw 32 d1' →
  cksum_group c d0 d1 = cksum_group c d0' d1' → d0 = d0' ∧ d1 = d1'.
Proof.
  unfold cksum_group, in_uw. intros H0 H1 H0' H1' E. injection E as E1 E2. rewrite <- E1 in E2.
  replace (c.1 + d0 + c.2) with (d0 + (c.1 + c.2)) in E1 by lia.
  replace (c.1 + d0' + c.2) with (d0' + (c.1 + c.2)) in E1 by lia.
  split; [by apply mod_add_inj in E1|].
  set (s := (c.1 + d0 + c.2) mod 2 ^ 32) in E2. replace (c.2 + d1 + s) with (d1 + (c.2 + s)) in E2 by lia.
  replace (c.2 + d1' + s) with (d1' + (c.2 + s)) in E2 by lia. by apply mod_add_inj in E2.
Qed.

Lemma load32_inj ord a b c d a' b' c' d' : is_byte a → is_byte b → is_byte c → is_byte d →
  is_byte a' → is_byte b' → is_byte c' → is_byte d' → load32 ord a b c d = load32 ord a' b' c' d' →
  [a; b; c; d] = [a'; b'; c'; d'].
Proof.
  assert (∀ a b c d a' b' c' d', is_byte a → is_byte b → is_byte c → is_byte d →
    is_byte a' → is_byte b' → is_byte c' → is_byte d' → load32 true a b c d = load32 true a' b' c' d' →
    a = a' ∧ b = b' ∧ c = c' ∧ d = d') as H.
  { clear. intros a b c d a' b' c' d' Ha Hb Hc Hd Ha' Hb' Hc' Hd'. rewrite <- !load32_sum by done.
    rewrite !Z.shiftl_mul_pow2 by lia. unfold is_byte in *. lia. }
  intros. destruct ord; [|change (load32 false a b c d) with (load32 true d c b a) in *;
    change (load32 false a' b' c' d') with (load32 true d' c' b' a') in *];
    match goal with E : load32 _ _ _ _ _ = _ |- _ => apply H in E; try done end; by destruct_and!; subst.
Qed.

Lemma ref_cksum_cons ord b0 b1 b2 b3 b4 b5 b6 b7 rest c :
  ref_cksum ord (b0 :: b1 :: b2 :: b3 :: b4 :: b5 :: b6 :: b7 :: rest) c =
    match rest with
    | [] => Some (cksum_group c (load32 ord b0 b1 b2 b3) (load32 ord b4 b5 b6 b7))
    | _ => ref_cksum ord rest (cksum_group c (load32 ord b0 b1 b2 b3) (load32 ord b4 b5 b6 b7))
    end.
Proof. by destruct rest. Qed.

Lemma cksum_group_range c d0 d1 : cksum_range (cksum_group c d0 d1).
Proof. split; by apply Z.mod_pos_bound. Qed.

Lemma ref_cksum_inj ord a c c' : 8 ≤ Z.of_nat (length a) → Z.divide 8 (Z.of_nat (length a)) →
  cksum_range c → cksum_range c' → ref_cksum ord a c = ref_cksum ord a c' → c = c'.
Proof.
  intros H1 H2. revert a H1 H2 c c'. apply (groups8_ind (λ a, ∀ c c', cksum_range c → cksum_range c' →
    ref_cksum ord a c = ref_cksum ord a c' → c = c')); intros b0 b1 b2 b3 b4 b5 b6 b7.
  - intros c c' Hc Hc'. rewrite !ref_cksum_cons. intros E%(inj Some). by eapply cksum_group_inj.
  - intros rest Hne IH c c' Hc Hc'. rewrite !ref_cksum_cons. destruct rest; [done|]. intros E.
    apply IH in E; [|apply cksum_group_range..]. by eapply cksum_group_inj.
Qed.

(** The checksum of some groups followed by others. *)
Lemma ref_cksum_app ord a a' c : 8 ≤ Z.of_nat (length a) → Z.divide 8 (Z.of_nat (length a)) → a' ≠ [] →
  ∃ r, ref_cksum ord a c = Some r ∧ ref_cksum ord (a ++ a') c = ref_cksum ord a' r.
Proof.
  intros H1 H2 Hne. revert a H1 H2 c. apply (groups8_ind (λ a, ∀ c, ∃ r, ref_cksum ord a c = Some r ∧
    ref_cksum ord (a ++ a') c = ref_cksum ord a' r)); intros b0 b1 b2 b3 b4 b5 b6 b7.
  - intros c. rewrite ref_cksum_cons. eexists. split; [done|]. cbn [app]. rewrite ref_cksum_cons. by destruct a'.
  - intros rest Hr IH c. rewrite ref_cksum_cons. cbn [app]. rewrite ref_cksum_cons. destruct rest; [done|].
    apply IH.
Qed.

(** A change of one group changes the checksum. *)
Lemma ref_cksum_change ord pre g g' post c : Z.divide 8 (Z.of_nat (length pre)) → length g = 8%nat → length g' = 8%nat →
  Z.divide 8 (Z.of_nat (length post)) → Forall is_byte g → Forall is_byte g' →
  ref_cksum ord (pre ++ g ++ post) c = ref_cksum ord (pre ++ g' ++ post) c → g = g'.
Proof.
  intros Hpre Hg Hg' Hpost Hb Hb' E.
  assert (∃ r, ref_cksum ord (g ++ post) r = ref_cksum ord (g' ++ post) r) as [r E'].
  { destruct pre as [|x pre]; [by exists c|].
    assert (8 ≤ Z.of_nat (length (x :: pre))) by (destruct Hpre as [k Hk]; simpl in *; lia).
    destruct (ref_cksum_app ord (x :: pre) (g ++ post) c) as (r & Hr & E1); [done|done|by destruct g|].
    destruct (ref_cksum_app ord (x :: pre) (g' ++ post) c) as (r' & Hr' & E2); [done|done|by destruct g'|].
    exists r. rewrite Hr in Hr'. simplify_eq. congruence. }
  clear E. destruct g as [|a0 [|a1 [|a2 [|a3 [|a4 [|a5 [|a6 [|a7 [|? ?]]]]]]]]]; try done.
  destruct g' as [|d0 [|d1 [|d2 [|d3 [|d4 [|d5 [|d6 [|d7 [|? ?]]]]]]]]]; try done.
  cbn [app] in E'. rewrite !ref_cksum_cons in E'. rewrite !list.Forall_cons in Hb, Hb'. destruct_and!.
  assert (cksum_group r (load32 ord a0 a1 a2 a3) (load32 ord a4 a5 a6 a7) =
          cksum_group r (load32 ord d0 d1 d2 d3) (load32 ord d4 d5 d6 d7)) as Eg.
  { destruct post as [|y post]; [by apply (inj Some)|]. apply (ref_cksum_inj ord (y :: post)); try done; try apply cksum_group_range.
    destruct Hpost as [k Hk]; simpl in *; lia. }
  apply cksum_group_inj_word in Eg as [E0 E1]; try (by apply load32_range).
  apply load32_inj in E0, E1; try done. congruence.
Qed.

(** C39: A frame that one machine encodes is decoded by every machine, whatever
    its byte order: the page number, the size of the database and the running
    checksum come back, and the header of the frame has 24 bytes. *)
Theorem walDecodeFrame_walEncodeFrame bw br h sz f : bigEndCksum h = 0 ∨ bigEndCksum h = 1 → page_size sz → frame_ok sz f →
  length (aSalt h) = 8%nat →
  ∃ aFrame h', walEncodeFrame bw h (f_pgno f) (f_size f) (f_data f) = Ret (aFrame, h') ∧
    Z.of_nat (length aFrame) = WAL_FRAME_HDRSIZE ∧
    walDecodeFrame br h (f_data f) aFrame = Ret (Some (f_pgno f, f_size f), h').
Proof.
  intros Hb Hs Hf Hl. do 2 eexists. split; [by eapply walEncodeFrame_spec|]. split; [|by eapply walDecodeFrame_spec].
  unfold frame_hdr. rewrite !length_app, Hl. done.
Qed.

Definition demo_frame : frame := Frame 7 9 (replicate 512 3).
Lemma demo_frame_ok : page_size 512 ∧ frame_ok 512 demo_frame.
Proof.
  split; [by left|]. split; [done|done|done|].
  apply Forall_replicate. done.
Qed.

Lemma walDecodeFrame_walEncodeFrame_witness :
  ∃ aFrame h', walEncodeFrame true zero_hdr 7 9 (replicate 512 3) = Ret (aFrame, h') ∧
    Z.of_nat (length aFrame) = WAL_FRAME_HDRSIZE ∧
    walDecodeFrame false zero_hdr (replicate 512 3) aFrame = Ret (Some (7, 9), h').
Proof.
  apply (walDecodeFrame_walEncodeFrame true false zero_hdr 512 demo_frame); [by left|apply demo_frame_ok..|done].
Defined.

(** A change of the content of a page within one aligned group of eight
    bytes never goes unnoticed: the frame is not valid any more. *)
Theorem walDecodeFrame_change be h sz pgno size pre g g' post : bigEndCksum h = 0 ∨ bigEndCksum h = 1 → page_size sz →
  frame_ok sz (Frame pgno size (pre ++ g ++ post)) → length (aSalt h) = 8%nat →
  length g = 8%nat → length g' = 8%nat → Z.divide 8 (Z.of_nat (length pre)) → Forall is_byte g' → g ≠ g' →
  ∃ aFrame h' h'', walEncodeFrame be h pgno size (pre ++ g ++ post) = Ret (aFrame, h') ∧
    walDecodeFrame be h (pre ++ g' ++ post) aFrame = Ret (None, h'').
Proof.
  intros Hb Hs Hf Hl Hg Hg' Hpre Hbg' Hne.
  pose proof (fok_data _ _ Hf) as Hd. pose proof (fok_len _ _ Hf) as Hlen. cbn [f_data] in Hd, Hlen.
  apply Forall_app in Hd as [Hd1 [Hd2 Hd3]%Forall_app]. rewrite !length_app, Hg in Hlen.
  assert (frame_ok sz (Frame pgno size (pre ++ g' ++ post))) as Hf'.
  { destruct Hf as [H1 H2 _ _]. split; [done|done| |]; cbn [f_data]; [rewrite !length_app; lia|by repeat apply Forall_app_2]. }
  do 3 eexists. split; [exact (walEncodeFrame_spec be h sz _ Hb Hs Hf)|].
  rewrite (walDecodeFrame_any be h sz _ _ Hb Hs Hf Hf' Hl). cbn [f_pgno f_size]. do 2 f_equal. destruct (negb _ || _) eqn:Eq; [done|].
  exfalso. apply Hne. apply orb_false_elim in Eq as [E1 E2]. b2p.
  assert (Z.divide 8 (Z.of_nat (length post))) as Hpost.
  { apply page_size_spec in Hs as (_ & _ & Hs). replace (Z.of_nat (length post)) with (sz - Z.of_nat (length pre) - 8) by lia.
    apply Z.divide_sub_r; [by apply Z.divide_sub_r|by exists 1]. }
  set (c0 := cks (order h) (sqlite3Put4byte pgno ++ sqlite3Put4byte size) (aFrameCksum h)).
  assert (∀ d, Forall is_byte d → length d = 8%nat → ∃ r, ref_cksum (order h) (pre ++ d ++ post) c0 = Some r ∧
    frame_cksum (order h) (aFrameCksum h) (Frame pgno size (pre ++ d ++ post)) = r) as Hc.
  { intros d Hd Hl'. destruct (cksum_loop_ref (order h) true (pre ++ d ++ post) c0.1 c0.2) as (r & Hr & _).
    - rewrite !length_app. lia.
    - rewrite !length_app, !Nat2Z.inj_add, Hl'. apply Z.divide_add_r; [done|]. apply Z.divide_add_r; [by exists 1|done].
    - by repeat apply Forall_app_2.
    - exists r. rewrite <- surjective_pairing in Hr. split; [done|]. unfold frame_cksum, cks at 1. cbn [f_data f_pgno f_size].
      fold c0. by rewrite Hr. }
  destruct (Hc g Hd2 Hg) as (r & Hr & Er), (Hc g' Hbg' Hg') as (r' & Hr' & Er').
  apply (ref_cksum_change (order h) pre g g' post c0); try done. rewrite Hr, Hr'. f_equal.
  rewrite <- Er, <- Er'. by apply injective_projections.
Qed.

Lemma walDecodeFrame_change_witness :
  ∃ aFrame h' h'', walEncodeFrame true zero_hdr 7 9 (replicate 8 1 ++ replicate 8 2 ++ replicate 496 3) = Ret (aFrame, h') ∧
    walDecodeFrame true zero_hdr (replicate 8 1 ++ [2; 2; 2; 0; 2; 2; 2; 2] ++ replicate 496 3) aFrame = Ret (None, h'').
Proof.
  apply (walDecodeFrame_change true zero_hdr 512);
    [by left|apply demo_frame_ok| |done|done|done|by exists 1| |done].
  - split; [done|done|done|]. cbn [f_data]. repeat apply Forall_app_2; apply Forall_replicate; done.
  - repeat constructor; done.
Defined.
