(* ===== verification/Wal.v ===== *)
(** * The write-ahead log

    Models the log of src/wal.c for one connection: its state ([Wal]), the
    operations of the file system and of shared memory it calls, writing and
    reading the wal-index header ([walIndexWriteHdr], [walIndexTryHdr]) and
    rebuilding the wal-index from the log file ([walIndexRecover]).

    The operating system answers each call from the list [events]: a result code
    and, for a write that fails, how many bytes were written before; an empty
    list stands for success. Reads and writes have the behaviour documented for
    [xRead] and [xWrite]: a read past the end of the file is a short read, a
    write past the end extends the file. *)

From S2P Require Import Prelude Varint WalIndex WalFrame.
#[local] Open Scope Z_scope.
#[local] Open Scope c_scope.
#[local] Open Scope list_scope.

Definition SQLITE_BUSY : Z := 5.
Definition SQLITE_READONLY : Z := 8.
Definition SQLITE_CANTOPEN : Z := 14.
Definition SQLITE_PROTOCOL : Z := 15.
Definition SQLITE_IOERR_SHORT_READ : Z := 522.
Definition SQLITE_SHM_NLOCK : Z := 8.
Definition WAL_NREADER : Z := SQLITE_SHM_NLOCK - 3.
Definition WAL_WRITE_LOCK : Z := 0.
Definition WAL_ALL_BUT_WRITE : Z := 1.
Definition WAL_RECOVER_LOCK : Z := 2.
Definition WAL_READ_LOCK (i : Z) : Z := 3 + i.
Definition READMARK_NOT_USED : Z := 0xffffffff.

(** Settings that the modelled operations only read; [can_map] tells for a frame
    whether its page of the wal-index can be mapped. *)
Record config := Config {
  exclusiveMode : Z;
  syncHeader : Z;
  padToSectorBoundary : Z;
  mxWalSize : Z;
  sectorSize : Z;
  can_map : Z → bool }.

Record Wal := MkWal {
  (* the connection *)
  szPage : Z;
  nCkpt : Z;
  hdr : WalIndexHdr;
  readLock : Z;
  writeLock : Z;
  ckptLock : Z;
  readOnly : Z;
  truncateOnCommit : Z;
  iCallback : Z;
  (* the wal-index in shared memory *)
  wiPages : list wi_page;
  shmHdr0 : WalIndexHdr;
  shmHdr1 : WalIndexHdr;
  nBackfill : Z;
  aReadMark : list Z;
  (* the operating system *)
  walFile : list Z;
  events : list (Z * Z);
  random : list Z;
  (* the settings of the connection *)
  conf : config }.

Definition set_szPage (v : Z) (w : Wal) : Wal :=
  MkWal v (nCkpt w) (hdr w) (readLock w) (writeLock w) (ckptLock w) (readOnly w) (truncateOnCommit w)
    (iCallback w) (wiPages w) (shmHdr0 w) (shmHdr1 w) (nBackfill w) (aReadMark w) (walFile w) (events w)
    (random w) (conf w).
Definition set_nCkpt (v : Z) (w : Wal) : Wal :=
  MkWal (szPage w) v (hdr w) (readLock w) (writeLock w) (ckptLock w) (readOnly w) (truncateOnCommit w)
    (iCallback w) (wiPages w) (shmHdr0 w) (shmHdr1 w) (nBackfill w) (aReadMark w) (walFile w) (events w)
    (random w) (conf w).
Definition set_hdr (v : WalIndexHdr) (w : Wal) : Wal :=
  MkWal (szPage w) (nCkpt w) v (readLock w) (writeLock w) (ckptLock w) (readOnly w) (truncateOnCommit w)
    (iCallback w) (wiPages w) (shmHdr0 w) (shmHdr1 w) (nBackfill w) (aReadMark w) (walFile w) (events w)
    (random w) (conf w).
Definition set_readLock (v : Z) (w : Wal) : Wal :=
  MkWal (szPage w) (nCkpt w) (hdr w) v (writeLock w) (ckptLock w) (readOnly w) (truncateOnCommit w) (iCallback
    w) (wiPages w) (shmHdr0 w) (shmHdr1 w) (nBackfill w) (aReadMark w) (walFile w) (events w) (random w) (conf
    w).
Definition set_writeLock (v : Z) (w : Wal) : Wal :=
  MkWal (szPage w) (nCkpt w) (hdr w) (readLock w) v (ckptLock w) (readOnly w) (truncateOnCommit w) (iCallback
    w) (wiPages w) (shmHdr0 w) (shmHdr1 w) (nBackfill w) (aReadMark w) (walFile w) (events w) (random w) (conf
    w).
Definition set_ckptLock (v : Z) (w : Wal) : Wal :=
  MkWal (szPage w) (nCkpt w) (hdr w) (readLock w) (writeLock w) v (readOnly w) (truncateOnCommit w) (iCallback
    w) (wiPages w) (shmHdr0 w) (shmHdr1 w) (nBackfill w) (aReadMark w) (walFile w) (events w) (random w) (conf
    w).
Definition set_readOnly (v : Z) (w : Wal) : Wal :=
  MkWal (szPage w) (nCkpt w) (hdr w) (readLock w) (writeLock w) (ckptLock w) v (truncateOnCommit w) (iCallback
    w) (wiPages w) (shmHdr0 w) (shmHdr1 w) (nBackfill w) (aReadMark w) (walFile w) (events w) (random w) (conf
    w).
Definition set_truncateOnCommit (v : Z) (w : Wal) : Wal :=
  MkWal (szPage w) (nCkpt w) (hdr w) (readLock w) (writeLock w) (ckptLock w) (readOnly w) v (iCallback w)
    (wiPages w) (shmHdr0 w) (shmHdr1 w) (nBackfill w) (aReadMark w) (walFile w) (events w) (random w) (conf
    w).
Definition set_iCallback (v : Z) (w : Wal) : Wal :=
  MkWal (szPage w) (nCkpt w) (hdr w) (readLock w) (writeLock w) (ckptLock w) (readOnly w) (truncateOnCommit w)
    v (wiPages w) (shmHdr0 w) (shmHdr1 w) (nBackfill w) (aReadMark w) (walFile w) (events w) (random w) (conf
    w).
Definition set_wiPages (v : list wi_page) (w : Wal) : Wal :=
  MkWal (szPage w) (nCkpt w) (hdr w) (readLock w) (writeLock w) (ckptLock w) (readOnly w) (truncateOnCommit w)
    (iCallback w) v (shmHdr0 w) (shmHdr1 w) (nBackfill w) (aReadMark w) (walFile w) (events w) (random w)
    (conf w).
Definition set_shmHdr0 (v : WalIndexHdr) (w : Wal) : Wal :=
  MkWal (szPage w) (nCkpt w) (hdr w) (readLock w) (writeLock w) (ckptLock w) (readOnly w) (truncateOnCommit w)
    (iCallback w) (wiPages w) v (shmHdr1 w) (nBackfill w) (aReadMark w) (walFile w) (events w) (random w)
    (conf w).
Definition set_shmHdr1 (v : WalIndexHdr) (w : Wal) : Wal :=
  MkWal (szPage w) (nCkpt w) (hdr w) (readLock w) (writeLock w) (ckptLock w) (readOnly w) (truncateOnCommit w)
    (iCallback w) (wiPages w) (shmHdr0 w) v (nBackfill w) (aReadMark w) (walFile w) (events w) (random w)
    (conf w).
Definition set_nBackfill (v : Z) (w : Wal) : Wal :=
  MkWal (szPage w) (nCkpt w) (hdr w) (readLock w) (writeLock w) (ckptLock w) (readOnly w) (truncateOnCommit w)
    (iCallback w) (wiPages w) (shmHdr0 w) (shmHdr1 w) v (aReadMark w) (walFile w) (events w) (random w) (conf
    w).
Definition set_aReadMark (v : list Z) (w : Wal) : Wal :=
  MkWal (szPage w) (nCkpt w) (hdr w) (readLock w) (writeLock w) (ckptLock w) (readOnly w) (truncateOnCommit w)
    (iCallback w) (wiPages w) (shmHdr0 w) (shmHdr1 w) (nBackfill w) v (walFile w) (events w) (random w) (conf
    w).
Definition set_walFile (v : list Z) (w : Wal) : Wal :=
  MkWal (szPage w) (nCkpt w) (hdr w) (readLock w) (writeLock w) (ckptLock w) (readOnly w) (truncateOnCommit w)
    (iCallback w) (wiPages w) (shmHdr0 w) (shmHdr1 w) (nBackfill w) (aReadMark w) v (events w) (random w)
    (conf w).
Definition set_events (v : list (Z * Z)) (w : Wal) : Wal :=
  MkWal (szPage w) (nCkpt w) (hdr w) (readLock w) (writeLock w) (ckptLock w) (readOnly w) (truncateOnCommit w)
    (iCallback w) (wiPages w) (shmHdr0 w) (shmHdr1 w) (nBackfill w) (aReadMark w) (walFile w) v (random w)
    (conf w).
Definition set_random (v : list Z) (w : Wal) : Wal :=
  MkWal (szPage w) (nCkpt w) (hdr w) (readLock w) (writeLock w) (ckptLock w) (readOnly w) (truncateOnCommit w)
    (iCallback w) (wiPages w) (shmHdr0 w) (shmHdr1 w) (nBackfill w) (aReadMark w) (walFile w) (events w) v
    (conf w).

Definition set_index_hdr (h : WalIndexHdr) (w : Wal) : Wal := set_shmHdr0 h (set_shmHdr1 h w).

(** ** The operating system *)

Definition next_event : sm Wal (Z * Z) := λ w,
  match events w with
  | [] => Ret ((SQLITE_OK, 0), w)
  | e :: es => Ret (e, set_events es w)
  end.

Definition sqlite3OsWrite (a : list Z) (iOffset : Z) : sm Wal Z :=
  '(rc, n) ← next_event;
  let a := if rc =? SQLITE_OK then a else take (Z.to_nat n) a in
  _ ← sm_mod (λ w, set_walFile (write_at (walFile w) (Z.to_nat iOffset) a) w);
  mret rc.

Definition sqlite3OsRead (iAmt iOffset : Z) : sm Wal (Z * list Z) :=
  '(rc, _) ← next_event;
  if negb (rc =? SQLITE_OK) then mret (rc, replicate (Z.to_nat iAmt) 0) else
  f ← sm_get walFile;
  let got := take (Z.to_nat iAmt) (drop (Z.to_nat iOffset) f) in
  if Z.of_nat (length got) <? iAmt
  then mret (SQLITE_IOERR_SHORT_READ, got ++ replicate (Z.to_nat iAmt - length got) 0)
  else mret (SQLITE_OK, got).

Definition sqlite3OsFileSize : sm Wal (Z * Z) :=
  '(rc, _) ← next_event;
  f ← sm_get walFile;
  mret (rc, if rc =? SQLITE_OK then Z.of_nat (length f) else 0).

Definition sqlite3OsTruncate (n : Z) : sm Wal Z :=
  '(rc, _) ← next_event;
  _ ← (if rc =? SQLITE_OK then sm_mod (λ w, set_walFile (take (Z.to_nat n) (walFile w)) w) else mret ());
  mret rc.

Definition sqlite3OsSync : sm Wal Z := '(rc, _) ← next_event; mret rc.

(** [sqlite3_malloc]: whether it succeeds. *)
Definition sqlite3_malloc : sm Wal bool := '(rc, _) ← next_event; mret (rc =? SQLITE_OK).

(** [walLockShared] and [walLockExclusive]; releasing a lock has no result. *)
Definition walLock : sm Wal Z :=
  c ← sm_get conf;
  if negb (exclusiveMode c =? 0) then mret SQLITE_OK else
  '(rc, _) ← next_event; mret rc.
Definition walLockShared (lockIdx : Z) : sm Wal Z := walLock.
Definition walLockExclusive (lockIdx n : Z) : sm Wal Z := walLock.

(** ** The wal-index *)

Definition walIndexAppend (iFrame iPage : Z) : sm Wal Z := λ w,
  match WalIndex.walIndexAppend (can_map (conf w) iFrame) (mxFrame (hdr w)) iFrame iPage (wiPages w) with
  | Ret (rc, p) => Ret (rc, set_wiPages p w)
  | Undef f => Undef f
  end.

(** [pWal->nWiData>0 && pWal->apWiData[0]]. *)
Definition page0_mapped (w : Wal) : bool := (0 <? length (wiPages w))%nat.

Definition set_init (h : WalIndexHdr) (c : Z * Z) : WalIndexHdr :=
  MkHdr WALINDEX_MAX_VERSION (iChange h) 1 (bigEndCksum h) (h_szPage h) (mxFrame h) (nPage h) (aFrameCksum h) (aSalt h) c.

Definition walIndexWriteHdr (be : bool) : sm Wal () :=
  _ ← sm_gets (λ w, c_assert (page0_mapped w));
  _ ← sm_gets (λ w, c_assert (negb (writeLock w =? 0)));
  h ← sm_get hdr;
  c ← sm_lift (walChecksumBytes be true (hdr_bytes be (set_init h (0, 0))) None);
  let h := set_init h c in
  _ ← sm_mod (set_hdr h);
  _ ← sm_mod (set_shmHdr1 h);
  sm_mod (set_shmHdr0 h).

(** The size of a page from the field [szPage] of a header. *)
Definition walPagesize (h : WalIndexHdr) : Z := (h_szPage h .& 0xfe00) + ((h_szPage h .& 1) .<< 16).

(** [walIndexTryHdr]: whether the header could not be read, and [*pChanged]. *)
Definition walIndexTryHdr (be : bool) : sm Wal (Z * bool) :=
  _ ← sm_gets (λ w, c_assert (page0_mapped w));
  h1 ← sm_get shmHdr0;
  h2 ← sm_get shmHdr1;
  if negb (bool_decide (h1 = h2)) then mret (1, false) else
  if isInit h1 =? 0 then mret (1, false) else
  c ← sm_lift (walChecksumBytes be true (hdr_bytes be h1) None);
  if negb (c.1 =? (aCksum h1).1) || negb (c.2 =? (aCksum h1).2) then mret (1, false) else
  h ← sm_get hdr;
  if negb (bool_decide (h = h1)) then
    _ ← sm_mod (set_hdr h1);
    _ ← sm_mod (set_szPage (walPagesize h1));
    mret (0, true)
  else mret (0, false).

(** ** Recovery *)

Definition hdr_page_size (szPage : Z) : Z := u16 ((szPage .& 0xff00) .| (szPage .>> 16)).

(** The changes of [pWal->hdr] at a commit record. *)
Definition commit_hdr (iFrame nTruncate sz : Z) (h : WalIndexHdr) : WalIndexHdr :=
  MkHdr (iVersion h) (iChange h) (isInit h) (bigEndCksum h) (hdr_page_size sz) iFrame nTruncate
    (aFrameCksum h) (aSalt h) (aCksum h).

(** [for(iOffset=WAL_HDRSIZE; (iOffset+szFrame)<=nSize; iOffset+=szFrame)]: the
    result code and the local [aFrameCksum]. *)
Fixpoint recover_loop (be : bool) (fuel : nat) (sz nSize iFrame iOffset : Z) (aFrameCksum0 : Z * Z) : sm Wal (Z * (Z * Z)) :=
  let szFrame := sz + WAL_FRAME_HDRSIZE in
  if iOffset + szFrame <=? nSize then
    match fuel with
    | O => λ _, Undef OutOfFuel
    | S fuel' =>
        let iFrame := iFrame + 1 in
        '(rc, aFrame) ← sqlite3OsRead szFrame iOffset;
        if negb (rc =? SQLITE_OK) then mret (rc, aFrameCksum0) else
        h ← sm_get hdr;
        '(r, h) ← sm_lift (walDecodeFrame be h (drop 24 aFrame) (take 24 aFrame));
        _ ← sm_mod (set_hdr h);
        match r with
        | None => mret (SQLITE_OK, aFrameCksum0)
        | Some (pgno, nTruncate) =>
            rc ← walIndexAppend iFrame pgno;
            if negb (rc =? SQLITE_OK) then mret (rc, aFrameCksum0) else
            if negb (nTruncate =? 0) then
              _ ← sm_mod (λ w, set_hdr (commit_hdr iFrame nTruncate sz (hdr w)) w);
              recover_loop be fuel' sz nSize iFrame (iOffset + szFrame) (aFrameCksum h)
            else recover_loop be fuel' sz nSize iFrame (iOffset + szFrame) aFrameCksum0
        end
    end
  else mret (SQLITE_OK, aFrameCksum0).

Definition load_wal_hdr (bigEnd : Z) (salt : list Z) (h : WalIndexHdr) : WalIndexHdr :=
  MkHdr (iVersion h) (iChange h) (isInit h) bigEnd (h_szPage h) (mxFrame h) (nPage h) (aFrameCksum h) salt (aCksum h).

(** The part of [walIndexRecover] for a file with more than a header: the result
    code and [aFrameCksum] at [finished]. *)
Definition recover_file (be : bool) (nSize : Z) : sm Wal (Z * (Z * Z)) :=
  '(rc, aBuf) ← sqlite3OsRead WAL_HDRSIZE 0;
  if negb (rc =? SQLITE_OK) then mret (rc, (0, 0)) else
  magic ← sm_lift (sqlite3Get4byte aBuf);
  sz ← sm_lift (sqlite3Get4byte (drop 8 aBuf));
  let sz := i32 sz in
  if negb (magic .& 0xFFFFFFFE =? WAL_MAGIC) || negb (sz .& (sz - 1) =? 0) || (SQLITE_MAX_PAGE_SIZE <? sz) || (sz <? 512)
  then mret (SQLITE_OK, (0, 0)) else
  n ← sm_lift (sqlite3Get4byte (drop 12 aBuf));
  _ ← sm_mod (λ w, set_nCkpt n (set_szPage sz (set_hdr (load_wal_hdr (magic .& 1) (take 8 (drop 16 aBuf)) (hdr w)) w)));
  c ← sm_lift (walChecksumBytes be (magic .& 1 =? big be) (take 24 aBuf) None);
  _ ← sm_mod (λ w, set_hdr (set_cksum c (hdr w)) w);
  c0 ← sm_lift (sqlite3Get4byte (drop 24 aBuf));
  c1 ← sm_lift (sqlite3Get4byte (drop 28 aBuf));
  if negb (c.1 =? c0) || negb (c.2 =? c1) then mret (SQLITE_OK, (0, 0)) else
  version ← sm_lift (sqlite3Get4byte (drop 4 aBuf));
  if negb (version =? WAL_MAX_VERSION) then mret (SQLITE_CANTOPEN, (0, 0)) else
  ok ← sqlite3_malloc;
  if negb ok then mret (SQLITE_NOMEM, (0, 0)) else
  recover_loop be (Z.to_nat (nSize / (sz + WAL_FRAME_HDRSIZE))) sz nSize 0 WAL_HDRSIZE (0, 0).

(** [walIndexRecover]; [recovery_error] is reached with a result code that is
    not SQLITE_OK, for which [finished] does nothing. *)
Definition walIndexRecover (be : bool) : sm Wal Z :=
  _ ← sm_gets (λ w, c_assert ((ckptLock w =? 1) || (ckptLock w =? 0)));
  _ ← sm_gets (λ w, c_assert (negb (writeLock w =? 0)));
  k ← sm_get ckptLock;
  rc ← walLockExclusive (WAL_ALL_BUT_WRITE + k) (SQLITE_SHM_NLOCK - (WAL_ALL_BUT_WRITE + k));
  if negb (rc =? SQLITE_OK) then mret rc else
  _ ← sm_mod (set_hdr zero_hdr);
  '(rc, nSize) ← sqlite3OsFileSize;
  if negb (rc =? SQLITE_OK) then mret rc else
  '(rc, c) ← (if WAL_HDRSIZE <? nSize then recover_file be nSize else mret (SQLITE_OK, (0, 0)));
  if rc =? SQLITE_OK then
    _ ← sm_mod (λ w, set_hdr (set_cksum c (hdr w)) w);
    _ ← walIndexWriteHdr be;
    _ ← sm_mod (set_nBackfill 0);
    _ ← sm_mod (λ w, set_aReadMark (0 :: (if mxFrame (hdr w) =? 0 then READMARK_NOT_USED else mxFrame (hdr w))
                                      :: replicate (Z.to_nat WAL_NREADER - 2) READMARK_NOT_USED) w);
    mret rc
  else mret rc.

(** ** The log file *)

(** The bytes of frames, and the checksum after them. *)
Fixpoint log_bytes (ord : bool) (salt : list Z) (c : Z * Z) (fs : list frame) : list Z :=
  match fs with
  | [] => []
  | f :: fs' => frame_hdr ord salt c f ++ f_data f ++ log_bytes ord salt (frame_cksum ord c f) fs'
  end.
Definition log_cksum (ord : bool) (c : Z * Z) (fs : list frame) : Z * Z := foldl (frame_cksum ord) c fs.

(** The frames up to the last commit record. *)
Fixpoint committed (fs : list frame) : list frame :=
  match fs with
  | [] => []
  | f :: fs' =>
      match committed fs' with
      | [] => if f_size f =? 0 then [] else [f]
      | l => f :: l
      end
  end.

(** A header with given checksum inputs. *)
Definition cksum_hdr (bigEnd : Z) (salt : list Z) (c : Z * Z) : WalIndexHdr := MkHdr 0 0 0 bigEnd 0 0 0 c salt (0, 0).

(** What follows the frames is shorter than a frame, or does not decode. *)
Definition stops (be : bool) (sz bigEnd : Z) (salt : list Z) (c : Z * Z) (tail : list Z) : Prop :=
  Z.of_nat (length tail) < sz + WAL_FRAME_HDRSIZE ∨
  ∃ h, walDecodeFrame be (cksum_hdr bigEnd salt c) (take (Z.to_nat sz) (drop 24 tail)) (take 24 tail) = Ret (None, h).

Lemma walDecodeFrame_ext be h h0 d a r h0' : aSalt h = aSalt h0 → bigEndCksum h = bigEndCksum h0 → aFrameCksum h = aFrameCksum h0 →
  walDecodeFrame be h0 d a = Ret (r, h0') → walDecodeFrame be h d a = Ret (r, set_cksum (aFrameCksum h0') h).
Proof.
  intros E1 E2 E3. unfold walDecodeFrame. rewrite E1, E2, E3.
  assert (h = set_cksum (aFrameCksum h0) h) as E4 by (rewrite <- E3; by destruct h).
  case_match; [intros [=<- <-]; by rewrite E4 at 1|].
  destruct (sqlite3Get4byte a); [|done]. cbn [mbind outcome_bind]. case_match; [intros [=<- <-]; by rewrite E4 at 1|].
  destruct (walChecksumBytes be _ (take 8 a) _) as [c|]; [|done]. cbn [mbind outcome_bind].
  destruct (walChecksumBytes be _ d _) as [c'|]; [|done]. cbn [mbind outcome_bind].
  destruct (sqlite3Get4byte (drop 16 a)); [|done]. cbn [mbind outcome_bind].
  destruct (sqlite3Get4byte (drop 20 a)); [|done]. cbn [mbind outcome_bind]. case_match; [by intros [=<- <-]|].
  destruct (sqlite3Get4byte (drop 4 a)); [|done]. cbn [mbind outcome_bind]. by intros [=<- <-].
Qed.

(** The header and the checksum of the last commit after reading [fs]; [n] frames
    were read before. *)
Fixpoint recovered (ord : bool) (sz n : Z) (h : WalIndexHdr) (ck : Z * Z) (fs : list frame) : WalIndexHdr * (Z * Z) :=
  match fs with
  | [] => (h, ck)
  | f :: fs' =>
      let c := frame_cksum ord (aFrameCksum h) f in
      let h := set_cksum c h in
      if f_size f =? 0 then recovered ord sz (n + 1) h ck fs'
      else recovered ord sz (n + 1) (commit_hdr (n + 1) (f_size f) sz h) c fs'
  end.

Lemma recovered_committed ord sz fs : ∀ n h ck, recovered ord sz n h ck fs =
  match list.last (committed fs) with
  | None => (set_cksum (log_cksum ord (aFrameCksum h) fs) h, ck)
  | Some f => (set_cksum (log_cksum ord (aFrameCksum h) fs) (commit_hdr (n + Z.of_nat (length (committed fs))) (f_size f) sz h),
               log_cksum ord (aFrameCksum h) (committed fs))
  end.
Proof.
  induction fs as [|f fs IH]; intros n h ck; [by destruct h|]. cbn [recovered committed].
  destruct (committed fs) as [|g l] eqn:Ec.
  - destruct (f_size f =? 0) eqn:Ef; rewrite IH; by destruct h.
  - rewrite last_cons_cons. destruct (list.last (g :: l)) as [g'|] eqn:El; [|by apply last_None in El].
    replace (n + Z.of_nat (length (f :: g :: l))) with (n + 1 + Z.of_nat (length (g :: l))) by (simpl; lia).
    destruct (f_size f =? 0); rewrite IH; by destruct h.
Qed.

Lemma sqlite3OsRead_ok w (n : nat) iOffset : events w = [] → (Z.to_nat iOffset + n ≤ length (walFile w))%nat →
  sqlite3OsRead (Z.of_nat n) iOffset w = Ret ((SQLITE_OK, take n (drop (Z.to_nat iOffset) (walFile w))), w).
Proof.
  intros He Hn. unfold sqlite3OsRead, next_event, mbind, sm_bind. rewrite He. cbn. rewrite Nat2Z.id.
  rewrite length_take, length_drop, (proj2 (Z.ltb_ge _ _)) by lia. done.
Qed.

Lemma walIndexAppend_next w all x : index_ok (wiPages w) all → (∀ i, can_map (conf w) i = true) → 0 ≤ mxFrame (hdr w) →
  Z.of_nat (length all) + 1 + HASHTABLE_NPAGE < 2 ^ 32 → 0 < x < 2 ^ 32 →
  ∃ p, walIndexAppend (Z.of_nat (length all) + 1) x w = Ret (SQLITE_OK, set_wiPages p w) ∧ index_ok p (all ++ [x]).
Proof.
  intros Hix Hm Hmx Hbd Hx. unfold walIndexAppend. rewrite Hm, <- (Z2Nat.id (mxFrame (hdr w))) by done.
  destruct (walIndexAppend_ok (wiPages w) all (Z.to_nat (mxFrame (hdr w))) (Z.of_nat (length all) + 1) x)
    as (p & -> & Hp); [done|lia|done|by left|done|].
  exists p. split; [done|]. replace (Z.to_nat (Z.of_nat (length all) + 1 - 1)) with (length all) in Hp by lia.
  by rewrite take_ge in Hp.
Qed.

Lemma frame_hdr_length ord salt c f : length salt = 8%nat → length (frame_hdr ord salt c f) = 24%nat.
Proof. intros Hl. unfold frame_hdr. rewrite !length_app, Hl. done. Qed.

(** The offset of the frame after [n] frames. *)
Definition frame_offset (sz : Z) (n : nat) : Z := WAL_HDRSIZE + Z.of_nat n * (sz + WAL_FRAME_HDRSIZE).

Lemma frame_offset_S sz n : frame_offset sz n + (sz + WAL_FRAME_HDRSIZE) = frame_offset sz (S n).
Proof. unfold frame_offset. lia. Qed.

Lemma frame_offset_pos sz n : 0 ≤ sz → 32 ≤ frame_offset sz n.
Proof. unfold frame_offset, WAL_HDRSIZE, WAL_FRAME_HDRSIZE. nia. Qed.

Lemma log_bytes_length ord salt sz fs : ∀ c, length salt = 8%nat → Forall (frame_ok sz) fs →
  Z.of_nat (length (log_bytes ord salt c fs)) = Z.of_nat (length fs) * (sz + WAL_FRAME_HDRSIZE).
Proof.
  induction fs as [|f fs IH]; intros c Hl Hf; [done|]. apply list.Forall_cons in Hf as [Hf Hfs]. cbn [log_bytes].
  rewrite !length_app, frame_hdr_length, !Nat2Z.inj_add, (fok_len _ _ Hf), (IH _ Hl Hfs) by done. cbn [length]. unfold WAL_FRAME_HDRSIZE. lia.
Qed.

(** Splitting a file at a frame. *)
Lemma read_frame (file a d rest : list Z) off n : drop off file = a ++ d ++ rest → length a = 24%nat → n = (length d + 24)%nat →
  (off + n ≤ length file)%nat ∧ take 24 (take n (drop off file)) = a ∧ drop 24 (take n (drop off file)) = d ∧
  drop (off + n) file = rest.
Proof.
  intros E Ha ->. assert (length (drop off file) = length (a ++ d ++ rest)) as El by (by rewrite E).
  rewrite length_drop, !length_app in El. split; [lia|].
  rewrite <- drop_drop, E. assert (take (length d + 24) (a ++ d ++ rest) = a ++ d) as ->.
  { rewrite app_assoc, take_app_le by (rewrite length_app; lia). by rewrite take_ge by (rewrite length_app; lia). }
  split; [rewrite take_app_le by lia; by rewrite take_ge by lia|].
  split; [by rewrite drop_app_ge, Ha, Nat.sub_diag by lia|].
  rewrite app_assoc, drop_app_ge by (rewrite length_app; lia).
  rewrite length_app, Ha. by replace (length d + 24 - (24 + length d))%nat with 0%nat by lia.
Qed.

Section loop.
Context (be : bool) (sz : Z) (tail : list Z).
Hypothesis Hsz : page_size sz.

Lemma recover_loop_stop fuel w n ck : events w = [] → bigEndCksum (hdr w) = 0 ∨ bigEndCksum (hdr w) = 1 →
  drop (Z.to_nat (frame_offset sz n)) (walFile w) = tail → frame_offset sz n ≤ Z.of_nat (length (walFile w)) →
  stops be sz (bigEndCksum (hdr w)) (aSalt (hdr w)) (aFrameCksum (hdr w)) tail →
  (Z.of_nat (length (walFile w)) - frame_offset sz n) / (sz + WAL_FRAME_HDRSIZE) ≤ Z.of_nat fuel →
  ∃ c, recover_loop be fuel sz (Z.of_nat (length (walFile w))) (Z.of_nat n) (frame_offset sz n) ck w =
    Ret ((SQLITE_OK, ck), set_hdr (set_cksum c (hdr w)) w).
Proof.
  intros He Hb Hd Hof Hst Hfu. destruct (page_size_spec _ Hsz) as [[Hs1 Hs2] _]. unfold WAL_FRAME_HDRSIZE in *.
  pose proof (frame_offset_pos sz n ltac:(lia)) as Hop.
  assert (w = set_hdr (set_cksum (aFrameCksum (hdr w)) (hdr w)) w) as Ew by (destruct w as [? ? h]; by destruct h).
  assert (Z.of_nat (length tail) = Z.of_nat (length (walFile w)) - frame_offset sz n) as Hl.
  { rewrite <- Hd, length_drop. lia. }
  assert (∀ f, recover_loop be f sz (Z.of_nat (length (walFile w))) (Z.of_nat n) (frame_offset sz n) ck w =
    if frame_offset sz n + (sz + WAL_FRAME_HDRSIZE) <=? Z.of_nat (length (walFile w)) then
      recover_loop be f sz (Z.of_nat (length (walFile w))) (Z.of_nat n) (frame_offset sz n) ck w
    else Ret ((SQLITE_OK, ck), w)) as Hun.
  { intros f. destruct f; cbn [recover_loop]; by destruct (_ <=? _). }
  rewrite Hun. destruct (Z.leb_spec (frame_offset sz n + (sz + WAL_FRAME_HDRSIZE)) (Z.of_nat (length (walFile w)))) as [Hle|Hgt];
    [|exists (aFrameCksum (hdr w)); by rewrite <- Ew].
  destruct Hst as [Hst|[h Hst]]; [unfold WAL_FRAME_HDRSIZE in *; lia|].
  assert (0 < (Z.of_nat (length (walFile w)) - frame_offset sz n) / (sz + 24)) as Hpos.
  { apply Z.div_str_pos. unfold WAL_FRAME_HDRSIZE in *. lia. }
  destruct fuel as [|fuel]; [lia|]. cbn [recover_loop]. rewrite (proj2 (Z.leb_le _ _)) by done.
  assert (sz + WAL_FRAME_HDRSIZE = Z.of_nat (Z.to_nat sz + 24)) as Ez by (unfold WAL_FRAME_HDRSIZE; lia).
  rewrite Ez. erewrite sm_bind_run; [|apply sqlite3OsRead_ok; [done|unfold WAL_FRAME_HDRSIZE in *; lia]].
  cbn [Z.eqb SQLITE_OK negb]. rewrite Hd. erewrite sm_bind_run; [|done].
  assert (take 24 (take (Z.to_nat sz + 24) tail) = take 24 tail) as -> by (rewrite take_take; f_equal; lia).
  assert (drop 24 (take (Z.to_nat sz + 24) tail) = take (Z.to_nat sz) (drop 24 tail)) as ->.
  { rewrite skipn_firstn_comm. f_equal. lia. }
  eexists. unfold sm_lift. erewrite sm_bind_run; [|unfold sm_gets; erewrite (walDecodeFrame_ext _ (hdr w)); [done|..|exact Hst]; done].
  done.
Qed.

Lemma recover_loop_ok fs : ∀ fuel w all ck, events w = [] → (∀ i, can_map (conf w) i = true) →
  bigEndCksum (hdr w) = 0 ∨ bigEndCksum (hdr w) = 1 → length (aSalt (hdr w)) = 8%nat → 0 ≤ mxFrame (hdr w) →
  index_ok (wiPages w) all → Forall (frame_ok sz) fs → Z.of_nat (length all + length fs) + HASHTABLE_NPAGE < 2 ^ 32 →
  drop (Z.to_nat (frame_offset sz (length all))) (walFile w) =
    log_bytes (order (hdr w)) (aSalt (hdr w)) (aFrameCksum (hdr w)) fs ++ tail →
  frame_offset sz (length all) ≤ Z.of_nat (length (walFile w)) →
  stops be sz (bigEndCksum (hdr w)) (aSalt (hdr w)) (log_cksum (order (hdr w)) (aFrameCksum (hdr w)) fs) tail →
  (Z.of_nat (length (walFile w)) - frame_offset sz (length all)) / (sz + WAL_FRAME_HDRSIZE) ≤ Z.of_nat fuel →
  ∃ p c, recover_loop be fuel sz (Z.of_nat (length (walFile w))) (Z.of_nat (length all)) (frame_offset sz (length all)) ck w =
    Ret ((SQLITE_OK, (recovered (order (hdr w)) sz (Z.of_nat (length all)) (hdr w) ck fs).2),
         set_hdr (set_cksum c (recovered (order (hdr w)) sz (Z.of_nat (length all)) (hdr w) ck fs).1) (set_wiPages p w)) ∧
    index_ok p (all ++ (f_pgno <$> fs)) ∧ (fs = [] → p = wiPages w).
Proof.
  induction fs as [|f fs IH]; intros fuel w all ck He Hm Hb Hs Hmx Hix Hfs Hbd Hd Hof Hst Hfu.
  { cbn [log_bytes app] in Hd. destruct (recover_loop_stop fuel w (length all) ck) as [c ->]; [done..|].
    exists (wiPages w), c. cbn [recovered fst snd fmap list_fmap]. rewrite app_nil_r. split; [|done]. by destruct w. }
  apply list.Forall_cons in Hfs as [Hf Hfs]. cbn [log_bytes] in Hd. rewrite <- !app_assoc in Hd. cbn [length] in Hbd.
  pose proof (fok_len _ _ Hf) as Hfl. destruct (page_size_spec _ Hsz) as [[Hs1 Hs2] Hs3].
  pose proof (frame_offset_pos sz (length all) ltac:(lia)) as Hop.
  destruct (read_frame _ _ _ _ _ (Z.to_nat sz + 24) Hd) as (Hle & Ha & Hda & Hd'); [by apply frame_hdr_length|lia|].
  assert (sz + WAL_FRAME_HDRSIZE = Z.of_nat (Z.to_nat sz + 24)) as Ez by (unfold WAL_FRAME_HDRSIZE; lia).
  assert (Z.of_nat (length (walFile w)) - frame_offset sz (length all) =
    Z.of_nat (length (walFile w)) - frame_offset sz (S (length all)) + 1 * (sz + WAL_FRAME_HDRSIZE)) as Eo
    by (rewrite <- frame_offset_S; lia).
  rewrite Eo, Z.div_add in Hfu by lia.
  assert (0 ≤ (Z.of_nat (length (walFile w)) - frame_offset sz (S (length all))) / (sz + WAL_FRAME_HDRSIZE)) as Hdiv
    by (apply Z.div_pos; rewrite <- ?frame_offset_S; lia).
  destruct fuel as [|fuel]; [lia|].
  set (h1 := set_cksum (frame_cksum (order (hdr w)) (aFrameCksum (hdr w)) f) (hdr w)).
  destruct (walIndexAppend_next (set_hdr h1 w) all (f_pgno f)) as (p1 & Hp1 & Hix1); try done; [lia|apply Hf|].
  set (h2 := if f_size f =? 0 then h1 else commit_hdr (Z.of_nat (length all) + 1) (f_size f) sz h1).
  set (ck2 := if f_size f =? 0 then ck else aFrameCksum h1).
  assert (recover_loop be (S fuel) sz (Z.of_nat (length (walFile w))) (Z.of_nat (length all)) (frame_offset sz (length all)) ck w =
    recover_loop be fuel sz (Z.of_nat (length (walFile w))) (Z.of_nat (length all) + 1) (frame_offset sz (S (length all))) ck2
      (set_hdr h2 (set_wiPages p1 w))) as ->.
  { cbn [recover_loop]. rewrite (proj2 (Z.leb_le _ _)) by lia. rewrite Ez.
    erewrite sm_bind_run; [|apply sqlite3OsRead_ok; [done|lia]]. rewrite <- Ez. cbn [Z.eqb SQLITE_OK negb].
    rewrite Ha, Hda. erewrite sm_bind_run; [|done]. unfold sm_lift.
    erewrite sm_bind_run; [|unfold sm_gets; erewrite walDecodeFrame_spec; [done|done..]].
    cbn beta iota. fold h1. erewrite sm_bind_run; [|done]. cbn beta iota. fold h1.
    erewrite sm_bind_run; [|exact Hp1]. cbn [Z.eqb SQLITE_OK negb]. rewrite frame_offset_S. unfold h2, ck2.
    by destruct (f_size f =? 0). }
  set (w2 := set_hdr h2 (set_wiPages p1 w)).
  assert (aSalt (hdr w2) = aSalt (hdr w) ∧ bigEndCksum (hdr w2) = bigEndCksum (hdr w) ∧ order (hdr w2) = order (hdr w) ∧
    aFrameCksum (hdr w2) = frame_cksum (order (hdr w)) (aFrameCksum (hdr w)) f ∧ 0 ≤ mxFrame (hdr w2)) as (E1 & E2 & E3 & E4 & E5).
  { unfold w2, h2. destruct (f_size f =? 0); repeat split; try done. cbn. lia. }
  assert (length (all ++ [f_pgno f]) = S (length all)) as El by (rewrite length_app; simpl; lia).
  destruct (IH fuel w2 (all ++ [f_pgno f]) ck2) as (p & c & Hrun & Hok & _); rewrite ?E1, ?E2, ?E3, ?E4, ?El; try done.
  - lia.
  - rewrite <- frame_offset_S, Z2Nat.inj_add by lia. rewrite Ez, Nat2Z.id. exact Hd'.
  - rewrite <- frame_offset_S. change (walFile w2) with (walFile w). lia.
  - change (walFile w2) with (walFile w). lia.
  - exists p, c. rewrite El in Hrun. change (walFile w2) with (walFile w) in Hrun.
    replace (Z.of_nat (S (length all))) with (Z.of_nat (length all) + 1) in Hrun by lia.
    rewrite E3 in Hrun. rewrite Hrun, <- app_assoc in *. split; [|done]. cbn [recovered]. fold h1.
    change (hdr w2) with h2. unfold w2, h2, ck2. by destruct (f_size f =? 0).
Qed.
End loop.

(** ** The header of the log file *)

Definition hdr_prefix (bw : bool) (sz n : Z) (salt : list Z) : list Z :=
  sqlite3Put4byte (WAL_MAGIC .| big bw) ++ sqlite3Put4byte WAL_MAX_VERSION ++ sqlite3Put4byte sz ++ sqlite3Put4byte n ++ salt.
Definition hdr_cksum (bw : bool) (sz n : Z) (salt : list Z) : Z * Z := cks bw (hdr_prefix bw sz n salt) (0, 0).
Definition file_hdr (bw : bool) (sz n : Z) (salt : list Z) : list Z :=
  hdr_prefix bw sz n salt ++ sqlite3Put4byte (hdr_cksum bw sz n salt).1 ++ sqlite3Put4byte (hdr_cksum bw sz n salt).2.

(** A log file that a machine with byte order [bw] wrote. *)
Definition log_file (bw : bool) (sz n : Z) (salt : list Z) (fs : list frame) : list Z :=
  file_hdr bw sz n salt ++ log_bytes bw salt (hdr_cksum bw sz n salt) fs.

Record salt_ok (salt : list Z) : Prop := { salt_len : length salt = 8%nat; salt_bytes : Forall is_byte salt }.

Lemma hdr_prefix_length bw sz n salt : salt_ok salt → length (hdr_prefix bw sz n salt) = 24%nat.
Proof. intros Hs. unfold hdr_prefix. rewrite !length_app, (salt_len _ Hs). done. Qed.

Lemma hdr_prefix_bytes bw sz n salt : salt_ok salt → Forall is_byte (hdr_prefix bw sz n salt).
Proof. intros Hs. repeat apply Forall_app_2; try apply put4_bytes. apply Hs. Qed.

Lemma hdr_cksum_run (native be bw : bool) sz n salt : salt_ok salt → bw = (if native then be else negb be) →
  walChecksumBytes be native (hdr_prefix bw sz n salt) None = Ret (hdr_cksum bw sz n salt).
Proof.
  intros Hs Hb. apply (cks_spec be _ None bw); [done|rewrite hdr_prefix_length; done|rewrite hdr_prefix_length; [by exists 3|done]|].
  by apply hdr_prefix_bytes.
Qed.

Lemma wal_header_ok bw sz n salt : salt_ok salt →
  wal_header bw sz n salt = Ret (file_hdr bw sz n salt, hdr_cksum bw sz n salt).
Proof.
  intros Hs. unfold wal_header. fold (hdr_prefix bw sz n salt). by rewrite (hdr_cksum_run true bw bw) by done.
Qed.

Lemma file_hdr_length bw sz n salt : salt_ok salt → length (file_hdr bw sz n salt) = 32%nat.
Proof. intros Hs. unfold file_hdr. rewrite !length_app, hdr_prefix_length by done. done. Qed.

(** The header of the connection after reading the header of the log file. *)
Definition wal_hdr (bw : bool) (sz n : Z) (salt : list Z) : WalIndexHdr :=
  set_cksum (hdr_cksum bw sz n salt) (load_wal_hdr (big bw) salt zero_hdr).

(** The start of a connection that can run recovery undisturbed. *)
Record ready (w : Wal) : Prop := {
  ready_events : events w = [];
  ready_map : ∀ i, can_map (conf w) i = true;
  ready_lock : writeLock w ≠ 0;
  ready_page0 : wiPages w ≠ [];
  ready_ckpt : ckptLock w = 0 ∨ ckptLock w = 1 }.

Definition set_loaded (sz n : Z) (h : WalIndexHdr) (w : Wal) : Wal := set_nCkpt n (set_szPage sz (set_hdr h w)).

Lemma recover_file_hdr be bw sz n salt w rest : salt_ok salt → page_size sz → in_uw 32 n → hdr w = zero_hdr → events w = [] →
  walFile w = file_hdr bw sz n salt ++ rest → ∀ nSize,
  recover_file be nSize w =
    recover_loop be (Z.to_nat (nSize / (sz + WAL_FRAME_HDRSIZE))) sz nSize 0 WAL_HDRSIZE (0, 0)
      (set_loaded sz n (wal_hdr bw sz n salt) w).
Proof.
  intros Hs Hsz Hn Hh He Hf nSize. unfold recover_file. destruct (page_size_spec _ Hsz) as ([Hs1 Hs2] & Hs3 & _).
  unfold SQLITE_MAX_PAGE_SIZE in *.
  destruct (cks_range bw (hdr_prefix bw sz n salt) (0, 0)) as [Hc1 Hc2]. fold (hdr_cksum bw sz n salt) in Hc1, Hc2.
  pose proof (hdr_prefix_length bw sz n salt Hs) as Hpl.
  set (c := hdr_cksum bw sz n salt) in *. set (magic := WAL_MAGIC .| big bw) in *. set (buf := file_hdr bw sz n salt) in *.
  assert (length buf = 32%nat) as Hbl by (by apply file_hdr_length).
  assert (32 ≤ length (walFile w))%nat as Hfl by (rewrite Hf, length_app; lia).
  assert (take 32 (drop (Z.to_nat 0) (walFile w)) = buf) as Eb.
  { rewrite Hf. change (drop (Z.to_nat 0) ?l) with l. by rewrite take_app_le, take_ge by lia. }
  assert (buf = sqlite3Put4byte magic ++ sqlite3Put4byte WAL_MAX_VERSION ++ sqlite3Put4byte sz ++ sqlite3Put4byte n ++
    salt ++ sqlite3Put4byte c.1 ++ sqlite3Put4byte c.2 ++ []) as Efh
    by (unfold buf, file_hdr, hdr_prefix; by rewrite app_nil_r, <- !app_assoc).
  assert (take 24 buf = hdr_prefix bw sz n salt) as E24 by (unfold buf, file_hdr; rewrite take_app_le, take_ge by lia; done).
  assert (sqlite3Get4byte (drop 24 buf) = Ret c.1) as G24.
  { unfold buf, file_hdr. rewrite drop_app_ge, Hpl by lia. by apply get4_put4. }
  assert (sqlite3Get4byte (drop 28 buf) = Ret c.2) as G28.
  { unfold buf, file_hdr. rewrite drop_app_ge, Hpl by lia. change (drop (28 - 24) ?l) with (sqlite3Put4byte c.2).
    rewrite <- (app_nil_r (sqlite3Put4byte c.2)). by apply get4_put4. }
  assert (sqlite3Get4byte buf = Ret magic) as G0 by (rewrite Efh; apply get4_put4; unfold magic; by destruct bw).
  assert (sqlite3Get4byte (drop 4 buf) = Ret WAL_MAX_VERSION) as G4 by (rewrite Efh; by apply get4_put4).
  assert (sqlite3Get4byte (drop 8 buf) = Ret sz) as G8 by (rewrite Efh; apply get4_put4; lia).
  assert (sqlite3Get4byte (drop 12 buf) = Ret n) as G12 by (rewrite Efh; by apply get4_put4).
  assert (take 8 (drop 16 buf) = salt) as T16.
  { rewrite Efh. change (drop 16 _) with (salt ++ sqlite3Put4byte c.1 ++ sqlite3Put4byte c.2 ++ []).
    rewrite take_app_le, take_ge by (rewrite (salt_len _ Hs); lia). done. }
  clear Efh Hf. clearbody buf.
  erewrite sm_bind_run; [|apply (sqlite3OsRead_ok w 32 0); [done|simpl; lia]].
  cbn [Z.eqb SQLITE_OK negb]. rewrite Eb. unfold sm_lift.
  erewrite sm_bind_run; [|unfold sm_gets; rewrite G0; done]. erewrite sm_bind_run; [|unfold sm_gets; rewrite G8; done].
  rewrite (sw_small 32 sz), Hs3 by (done || (unfold in_sw; lia)).
  assert (magic .& 0xFFFFFFFE = WAL_MAGIC ∧ magic .& 1 = big bw) as [-> Em] by (unfold magic; by destruct bw).
  rewrite Z.eqb_refl, (proj2 (Z.ltb_ge _ sz)), (proj2 (Z.ltb_ge sz _)) by (unfold SQLITE_MAX_PAGE_SIZE; lia). cbn [Z.eqb negb orb].
  erewrite sm_bind_run; [|unfold sm_gets; rewrite G12; done]. erewrite sm_bind_run; [|done].
  rewrite T16, Em, E24. erewrite sm_bind_run; [|unfold sm_gets; erewrite hdr_cksum_run; [done|done|by destruct be, bw]].
  erewrite sm_bind_run; [|done]. erewrite sm_bind_run; [|unfold sm_gets; rewrite G24; done].
  erewrite sm_bind_run; [|unfold sm_gets; rewrite G28; done]. fold c. rewrite !Z.eqb_refl. cbn [negb orb].
  erewrite sm_bind_run; [|unfold sm_gets; rewrite G4; done]. rewrite Z.eqb_refl. cbn [negb].
  unfold sqlite3_malloc. erewrite sm_bind_run; [|unfold next_event, mbind, sm_bind; cbn; rewrite He; done].
  cbn [Z.eqb SQLITE_OK negb]. rewrite Hh. done.
Qed.

(** ** The wal-index header *)

Record hdr_ok (h : WalIndexHdr) : Prop := {
  hok_order : bigEndCksum h = 0 ∨ bigEndCksum h = 1;
  hok_salt : salt_ok (aSalt h) }.

Definition init_cksum (be : bool) (h : WalIndexHdr) : Z * Z := cks be (hdr_bytes be (set_init h (0, 0))) (0, 0).
(** The header that [walIndexWriteHdr] writes. *)
Definition init_hdr (be : bool) (h : WalIndexHdr) : WalIndexHdr := set_init h (init_cksum be h).

Lemma store32_bytes be v : Forall is_byte (store32 be v) ∧ length (store32 be v) = 4%nat.
Proof.
  unfold store32. destruct be; (split; [|done]); repeat constructor; apply uw_range; lia.
Qed.

Lemma hdr_bytes_ok be h : hdr_ok h → length (hdr_bytes be (set_init h (0, 0))) = 40%nat ∧ Forall is_byte (hdr_bytes be (set_init h (0, 0))).
Proof.
  intros [Ho Hs]. split.
  - unfold hdr_bytes. rewrite !length_app, !(proj2 (store32_bytes be _)), (salt_len _ Hs : length (aSalt (set_init h (0, 0))) = _).
    by destruct be.
  - unfold hdr_bytes. repeat apply Forall_app_2; try apply store32_bytes; [|unfold store16|apply Hs].
    + repeat constructor; cbn; unfold is_byte; lia.
    + destruct be; repeat constructor; apply uw_range; lia.
Qed.

Lemma init_cksum_run be h c : hdr_ok h → walChecksumBytes be true (hdr_bytes be (set_init h c)) None = Ret (init_cksum be h).
Proof.
  intros Hh. destruct (hdr_bytes_ok be h Hh) as [Hl Hb]. change (hdr_bytes be (set_init h c)) with (hdr_bytes be (set_init h (0, 0))).
  rewrite (cks_spec be _ None be true); [done|done|lia|rewrite Hl; by exists 5|done].
Qed.

Lemma walIndexWriteHdr_ok be w : hdr_ok (hdr w) → wiPages w ≠ [] → writeLock w ≠ 0 →
  walIndexWriteHdr be w = Ret ((), set_index_hdr (init_hdr be (hdr w)) (set_hdr (init_hdr be (hdr w)) w)).
Proof.
  intros Hh Hp Hl. unfold walIndexWriteHdr.
  erewrite sm_bind_run; [|unfold sm_gets, page0_mapped; by destruct (wiPages w)].
  erewrite sm_bind_run; [|unfold sm_gets; by rewrite (proj2 (Z.eqb_neq _ _) Hl)].
  erewrite sm_bind_run; [|done]. erewrite sm_bind_run; [|unfold sm_lift, sm_gets; by rewrite (init_cksum_run be (hdr w))].
  done.
Qed.

(** ** The whole recovery *)

(** The connection and the wal-index after recovery. *)
Definition recovered_wal (be : bool) (sz n : Z) (h : WalIndexHdr) (p : list wi_page) (w : Wal) : Wal :=
  set_aReadMark (0 :: (if mxFrame h =? 0 then READMARK_NOT_USED else mxFrame h)
                   :: replicate (Z.to_nat WAL_NREADER - 2) READMARK_NOT_USED)
    (set_nBackfill 0 (set_index_hdr (init_hdr be h) (set_hdr (init_hdr be h) (set_wiPages p (set_loaded sz n h w))))).

(** The header of the last commit. *)
Definition commit_state (bw : bool) (sz n : Z) (salt : list Z) (fs : list frame) : WalIndexHdr :=
  match list.last (committed fs) with
  | None => set_cksum (0, 0) (wal_hdr bw sz n salt)
  | Some f => set_cksum (log_cksum bw (hdr_cksum bw sz n salt) (committed fs))
                (commit_hdr (Z.of_nat (length (committed fs))) (f_size f) sz (wal_hdr bw sz n salt))
  end.

Lemma commit_state_ok bw sz n salt fs : salt_ok salt → hdr_ok (commit_state bw sz n salt fs).
Proof.
  intros Hs. unfold commit_state. destruct (list.last _); (split; [destruct bw; cbn; auto|done]).
Qed.

Lemma walLock_ok w : events w = [] → walLock w = Ret (SQLITE_OK, w).
Proof.
  intros He. unfold walLock, next_event, mbind, sm_bind. cbn. destruct (exclusiveMode (conf w) =? 0); [|done]. cbn. by rewrite He.
Qed.

Lemma index_ok_pages pages x l : index_ok pages (x :: l) → pages ≠ [].
Proof. intros Hix ->. destruct (ix_pages _ _ Hix 0%nat) as (p & Ep & _); [cbn [length]; change (block_zero _) with 0; lia|done]. Qed.

Lemma finish_recover be sz n p w h b c d : hdr_ok h → p ≠ [] → writeLock w ≠ 0 →
  (_ ← walIndexWriteHdr be;
   _ ← sm_mod (set_nBackfill 0);
   _ ← sm_mod (λ w, set_aReadMark (0 :: (if mxFrame (hdr w) =? 0 then READMARK_NOT_USED else mxFrame (hdr w))
                                     :: replicate (Z.to_nat WAL_NREADER - 2) READMARK_NOT_USED) w);
   mret SQLITE_OK) (set_hdr h (set_hdr b (set_wiPages p (set_loaded sz n c (set_hdr d w))))) =
  Ret (SQLITE_OK, recovered_wal be sz n h p w).
Proof.
  intros Hh Hp Hl. erewrite sm_bind_run; [|by apply walIndexWriteHdr_ok].
  change (hdr (set_hdr h ?w)) with h. unfold recovered_wal. assert (mxFrame h = mxFrame (init_hdr be h)) as -> by done.
  generalize (init_hdr be h). done.
Qed.

Lemma walIndexRecover_ok be bw sz n salt fs tail w : ready w → salt_ok salt → page_size sz → in_uw 32 n → Forall (frame_ok sz) fs →
  Z.of_nat (length fs) + HASHTABLE_NPAGE < 2 ^ 32 → walFile w = log_file bw sz n salt fs ++ tail →
  stops be sz (big bw) salt (log_cksum bw (hdr_cksum bw sz n salt) fs) tail → fs ≠ [] ∨ tail ≠ [] →
  ∃ p, walIndexRecover be w = Ret (SQLITE_OK, recovered_wal be sz n (commit_state bw sz n salt fs) p w) ∧
    index_ok p (f_pgno <$> fs).
Proof.
  intros Hr Hs Hsz Hn Hfs Hbd Hf Hst Hne. destruct (page_size_spec _ Hsz) as ([Hs1 Hs2] & _).
  set (w1 := set_hdr zero_hdr w). set (w2 := set_loaded sz n (wal_hdr bw sz n salt) w1).
  assert (order (hdr w2) = bw) as Ho by (by destruct bw).
  pose proof (log_bytes_length bw salt sz fs (hdr_cksum bw sz n salt) (salt_len _ Hs) Hfs) as Hll.
  assert (Z.of_nat (length (walFile w)) = WAL_HDRSIZE + Z.of_nat (length fs) * (sz + WAL_FRAME_HDRSIZE) + Z.of_nat (length tail)) as Hlen.
  { rewrite Hf. unfold log_file. rewrite !length_app, file_hdr_length by done. unfold WAL_HDRSIZE. lia. }
  assert (WAL_HDRSIZE < Z.of_nat (length (walFile w))) as Hgt.
  { rewrite Hlen. destruct Hne as [Hne|Hne]; [destruct fs; [done|]|destruct tail; [done|]]; cbn [length]; unfold WAL_FRAME_HDRSIZE; nia. }
  destruct (recover_loop_ok be sz tail Hsz fs (Z.to_nat (Z.of_nat (length (walFile w)) / (sz + WAL_FRAME_HDRSIZE))) w2 [] (0, 0))
    as (p & c & Hrun & Hix & Hp0).
  - apply Hr.
  - apply Hr.
  - destruct bw; cbn; auto.
  - apply Hs.
  - done.
  - apply index_ok_nil.
  - done.
  - simpl. lia.
  - change (walFile w2) with (walFile w). rewrite Hf. unfold log_file. rewrite <- app_assoc.
    change (Z.to_nat (frame_offset sz 0)) with 32%nat. rewrite drop_app_ge, file_hdr_length by (rewrite ?file_hdr_length; done). by rewrite Ho.
  - change (walFile w2) with (walFile w). change (frame_offset sz (length (@nil Z))) with WAL_HDRSIZE. lia.
  - by rewrite Ho.
  - rewrite Z2Nat.id by (apply Z.div_pos; unfold WAL_FRAME_HDRSIZE; lia). change (walFile w2) with (walFile w).
    apply Z.div_le_mono; [unfold WAL_FRAME_HDRSIZE; lia|]. change (frame_offset sz (length (@nil Z))) with WAL_HDRSIZE. unfold WAL_HDRSIZE. lia.
  - exists p. split; [|done]. change (walFile w2) with (walFile w) in Hrun. rewrite Ho in Hrun.
    change (frame_offset sz (length (@nil Z))) with WAL_HDRSIZE in Hrun. change (Z.of_nat (length (@nil Z))) with 0 in Hrun.
    assert (p ≠ []) as Hp.
    { destruct fs as [|f fs]; [rewrite (Hp0 eq_refl); apply Hr|]. eapply index_ok_pages. exact Hix. }
    unfold walIndexRecover.
    erewrite sm_bind_run; [|unfold sm_gets; destruct (ready_ckpt _ Hr) as [-> | ->]; done].
    erewrite sm_bind_run; [|unfold sm_gets; by rewrite (proj2 (Z.eqb_neq _ _) (ready_lock _ Hr))].
    erewrite sm_bind_run; [|done].
    erewrite sm_bind_run; [|by apply walLock_ok, Hr]. cbn [Z.eqb SQLITE_OK negb].
    erewrite sm_bind_run; [|done]. fold w1.
    erewrite sm_bind_run; [|unfold sqlite3OsFileSize, next_event, mbind, sm_bind; cbn; rewrite (ready_events _ Hr); done].
    cbn [Z.eqb SQLITE_OK negb]. change (walFile w1) with (walFile w). rewrite (proj2 (Z.ltb_lt _ _) Hgt).
    erewrite sm_bind_run; [|rewrite (recover_file_hdr be bw sz n salt w1 (log_bytes bw salt (hdr_cksum bw sz n salt) fs ++ tail));
      [exact Hrun|done|done|done|done|apply Hr|rewrite app_assoc; exact Hf]].
    cbn [Z.eqb SQLITE_OK negb]. erewrite sm_bind_run; [|done].
    change (hdr w2) with (wal_hdr bw sz n salt). rewrite recovered_committed.
    match goal with |- _ (set_hdr ?h _) = _ => assert (h = commit_state bw sz n salt fs) as ->
      by (unfold commit_state; cbn; by destruct (list.last (committed fs))) end.
    apply finish_recover; [by apply commit_state_ok|done|apply Hr].
Qed.
