(* ===== verification/WalTxn.v ===== *)
(** * Transactions on the write-ahead log

    Models how src/wal.c begins and ends transactions ([walIndexReadHdr],
    [walTryBeginRead], [sqlite3WalBeginReadTransaction],
    [sqlite3WalBeginWriteTransaction]), reads pages ([sqlite3WalFindFrame],
    [sqlite3WalReadFrame]), writes frames ([sqlite3WalFrames] with
    [walRestartLog], [walWriteToLog], [walWriteOneFrame], [walLimitSize]) and
    rolls back ([sqlite3WalUndo], [sqlite3WalSavepoint],
    [sqlite3WalSavepointUndo]). The state and the operating system are those of
    the file Wal. *)

From S2P Require Import Prelude Varint WalIndex WalFrame Wal.
#[local] Open Scope Z_scope.
#[local] Open Scope c_scope.
#[local] Open Scope list_scope.

Definition SQLITE_READONLY_RECOVERY : Z := 264.
Definition SQLITE_READONLY_CANTLOCK : Z := 520.
Definition SQLITE_BUSY_RECOVERY : Z := 261.
Definition SQLITE_BUSY_SNAPSHOT : Z := 517.
Definition WAL_SHM_RDONLY : Z := 2.
Definition WAL_RETRY : Z := -1.
Definition WAL_SYNC_TRANSACTIONS : Z := 0x20.

(** ** Reading the header *)

(** [walIndexPage(pWal, 0, &page0)]. Without the write lock the shared memory is
    not extended: the page may be missing after a success, as it may in
    read-only shared memory. *)
Definition walIndexPage0 : sm Wal Z :=
  m ← sm_get page0_mapped;
  if m : bool then mret SQLITE_OK else
  '(rc, missing) ← next_event;
  l ← sm_get writeLock;
  if rc =? SQLITE_READONLY then
    _ ← sm_mod (λ w, set_readOnly (readOnly w .| WAL_SHM_RDONLY) w);
    mret SQLITE_OK
  else
  _ ← (if (rc =? SQLITE_OK) && (negb (l =? 0) || (missing =? 0)) then sm_mod (set_wiPages [zero_page 0]) else mret ());
  mret rc.

(** The result code and [*pChanged]. *)
Definition walIndexReadHdr (be : bool) : sm Wal (Z * bool) :=
  rc ← walIndexPage0;
  if negb (rc =? SQLITE_OK) then mret (rc, false) else
  _ ← sm_gets (λ w, c_assert (page0_mapped w || (writeLock w =? 0)));
  m ← sm_get page0_mapped;
  '(badHdr, ch) ← (if m : bool then walIndexTryHdr be else mret (1, false));
  _ ← sm_gets (λ w, c_assert ((badHdr =? 0) || (writeLock w =? 0)));
  ro ← sm_get readOnly;
  '(rc, badHdr, ch) ←
    (if badHdr =? 0 then mret (rc, badHdr, ch) else
     if negb (ro .& WAL_SHM_RDONLY =? 0) then
       rc ← walLockShared WAL_WRITE_LOCK;
       mret (if rc =? SQLITE_OK then SQLITE_READONLY_RECOVERY else rc, badHdr, ch)
     else
       rc ← walLockExclusive WAL_WRITE_LOCK 1;
       if negb (rc =? SQLITE_OK) then mret (rc, badHdr, ch) else
       _ ← sm_mod (set_writeLock 1);
       rc ← walIndexPage0;
       '(rc, badHdr, ch) ←
         (if rc =? SQLITE_OK then
            '(badHdr, ch) ← walIndexTryHdr be;
            if negb (badHdr =? 0) then rc ← walIndexRecover be; mret (rc, badHdr, true)
            else mret (rc, badHdr, ch)
          else mret (rc, badHdr, ch));
       _ ← sm_mod (set_writeLock 0);
       mret (rc, badHdr, ch));
  v ← sm_get (λ w, iVersion (hdr w));
  mret (if (badHdr =? 0) && negb (v =? WALINDEX_MAX_VERSION) then SQLITE_CANTOPEN else rc, ch).

(** ** Beginning to read *)

(** [for(i=1; i<WAL_NREADER; i++)] choosing the largest mark that is not past
    [mxFrame]: [mxReadMark] and [mxI]. *)
Fixpoint pick_mark (mxF : Z) (marks : list Z) (i : Z) (mxReadMark mxI : Z) : outcome (Z * Z) :=
  match marks with
  | [] => Ret (mxReadMark, mxI)
  | thisMark :: marks =>
      if (mxReadMark <=? thisMark) && (thisMark <=? mxF) then
        _ ← c_assert (negb (thisMark =? READMARK_NOT_USED));
        pick_mark mxF marks (i + 1) thisMark i
      else pick_mark mxF marks (i + 1) mxReadMark mxI
  end.

(** [for(i=1; i<WAL_NREADER; i++)] locking a mark to set it, with [n] marks left:
    the result code, [mxReadMark], [mxI], and whether the function returns at
    once. *)
Fixpoint set_mark (n : nat) (i : Z) (rc mxReadMark mxI : Z) : sm Wal (Z * Z * Z * bool) :=
  match n with
  | O => mret (rc, mxReadMark, mxI, false)
  | S n' =>
      rc ← walLockExclusive (WAL_READ_LOCK i) 1;
      if rc =? SQLITE_OK then
        mx ← sm_get (λ w, mxFrame (hdr w));
        _ ← sm_mod (λ w, set_aReadMark (zinsert (aReadMark w) i mx) w);
        mret (rc, mx, i, false)
      else if negb (rc =? SQLITE_BUSY) then mret (rc, mxReadMark, mxI, true)
      else set_mark n' (i + 1) rc mxReadMark mxI
  end.

(** The part of [walTryBeginRead] that chooses and locks a read mark. *)
Definition lock_read_mark : sm Wal Z :=
  mx ← sm_get (λ w, mxFrame (hdr w));
  '(mxReadMark, mxI) ← sm_gets (λ w, pick_mark mx (drop 1 (aReadMark w)) 1 0 0);
  ro ← sm_get readOnly;
  '(rc, mxReadMark, mxI, ret) ←
    (if (ro .& WAL_SHM_RDONLY =? 0) && ((mxReadMark <? mx) || (mxI =? 0))
     then set_mark (Z.to_nat (WAL_NREADER - 1)) 1 SQLITE_OK mxReadMark mxI
     else mret (SQLITE_OK, mxReadMark, mxI, false));
  if ret : bool then mret rc else
  if mxI =? 0 then
    _ ← sm_lift (c_assert ((rc =? SQLITE_BUSY) || negb (ro .& WAL_SHM_RDONLY =? 0)));
    mret (if rc =? SQLITE_BUSY then WAL_RETRY else SQLITE_READONLY_CANTLOCK)
  else
  rc ← walLockShared (WAL_READ_LOCK mxI);
  if negb (rc =? SQLITE_OK) then mret (if rc =? SQLITE_BUSY then WAL_RETRY else rc) else
  mark ← sm_gets (λ w, get (aReadMark w) mxI);
  same ← sm_get (λ w, bool_decide (shmHdr0 w = hdr w));
  if negb (mark =? mxReadMark) || negb same then mret WAL_RETRY else
  _ ← sm_lift (c_assert (mxReadMark <=? mx));
  _ ← sm_mod (set_readLock mxI);
  mret rc.

(** [walTryBeginRead]: the result code and [*pChanged]. *)
Definition walTryBeginRead (be useWal : bool) (cnt : Z) : sm Wal (Z * bool) :=
  _ ← sm_gets (λ w, c_assert (readLock w <? 0));
  if (5 <? cnt) && (100 <? cnt) then mret (SQLITE_PROTOCOL, false) else
  '(rc, ch) ←
    (if negb useWal then
       '(rc, ch) ← walIndexReadHdr be;
       if rc =? SQLITE_BUSY then
         m ← sm_get page0_mapped;
         if negb m then mret (WAL_RETRY, ch) else
         rc ← walLockShared WAL_RECOVER_LOCK;
         mret (if rc =? SQLITE_OK then WAL_RETRY else if rc =? SQLITE_BUSY then SQLITE_BUSY_RECOVERY else rc, ch)
       else mret (rc, ch)
     else mret (SQLITE_OK, false));
  if negb (rc =? SQLITE_OK) then mret (rc, ch) else
  _ ← sm_gets (λ w, c_assert (page0_mapped w));
  bf ← sm_get nBackfill;
  mx ← sm_get (λ w, mxFrame (hdr w));
  r ← (if negb useWal && (bf =? mx) then
         rc ← walLockShared (WAL_READ_LOCK 0);
         if rc =? SQLITE_OK then
           same ← sm_get (λ w, bool_decide (shmHdr0 w = hdr w));
           if negb same then mret (Some WAL_RETRY) else
           _ ← sm_mod (set_readLock 0);
           mret (Some SQLITE_OK)
         else mret (if negb (rc =? SQLITE_BUSY) then Some rc else None)
       else mret None);
  match r with
  | Some rc => mret (rc, ch)
  | None => rc ← lock_read_mark; mret (rc, ch)
  end.

(** [do{ rc = walTryBeginRead(pWal, pChanged, useWal, ++cnt); }while( rc==WAL_RETRY )]. *)
Fixpoint begin_read_loop (be useWal : bool) (fuel : nat) (cnt : Z) (ch : bool) : sm Wal (Z * bool) :=
  match fuel with
  | O => λ _, Undef OutOfFuel
  | S fuel' =>
      let cnt := cnt + 1 in
      '(rc, ch') ← walTryBeginRead be useWal cnt;
      let ch := ch || ch' in
      if rc =? WAL_RETRY then begin_read_loop be useWal fuel' cnt ch else mret (rc, ch)
  end.

Definition sqlite3WalBeginReadTransaction (be : bool) : sm Wal (Z * bool) := begin_read_loop be false 101 0 false.

Definition sqlite3WalEndWriteTransaction : sm Wal () :=
  l ← sm_get writeLock;
  if negb (l =? 0) then
    _ ← sm_mod (set_writeLock 0);
    sm_mod (set_truncateOnCommit 0)
  else mret ().

Definition sqlite3WalEndReadTransaction : sm Wal () :=
  _ ← sqlite3WalEndWriteTransaction;
  l ← sm_get readLock;
  if 0 <=? l then sm_mod (set_readLock (-1)) else mret ().

Definition sqlite3WalBeginWriteTransaction : sm Wal Z :=
  _ ← sm_gets (λ w, c_assert (0 <=? readLock w));
  ro ← sm_get readOnly;
  if negb (ro =? 0) then mret SQLITE_READONLY else
  rc ← walLockExclusive WAL_WRITE_LOCK 1;
  if negb (rc =? SQLITE_OK) then mret rc else
  _ ← sm_mod (set_writeLock 1);
  same ← sm_get (λ w, bool_decide (shmHdr0 w = hdr w));
  if negb same then
    _ ← sm_mod (set_writeLock 0);
    mret SQLITE_BUSY_SNAPSHOT
  else mret rc.

(** ** Reading pages *)

Definition sqlite3WalFindFrame (pgno : Z) : sm Wal (Z * Z) := sm_gets (λ w,
  WalIndex.sqlite3WalFindFrame (can_map (conf w) (mxFrame (hdr w))) (wiPages w) (readLock w) (mxFrame (hdr w)) pgno).

Definition walFrameOffset (iFrame sz : Z) : Z := WAL_HDRSIZE + (iFrame - 1) * (sz + WAL_FRAME_HDRSIZE).

Definition sqlite3WalReadFrame (iRead nOut : Z) : sm Wal (Z * list Z) :=
  sz ← sm_get (λ w, walPagesize (hdr w));
  sqlite3OsRead (if sz <? nOut then sz else nOut) (walFrameOffset iRead sz + WAL_FRAME_HDRSIZE).

Definition sqlite3WalDbsize : sm Wal Z := sm_get (λ w, if 0 <=? readLock w then nPage (hdr w) else 0).

(** ** Writing frames *)

(** The fields of the writer that change between calls. *)
Record WalWriter := MkWriter { iSyncPoint : Z; syncFlags : Z }.

Definition walWriteToLog (p : WalWriter) (a : list Z) (iOffset : Z) : sm Wal Z :=
  let iAmt := Z.of_nat (length a) in
  if (iOffset <? iSyncPoint p) && (iSyncPoint p <=? iOffset + iAmt) then
    let iFirstAmt := i32 (iSyncPoint p - iOffset) in
    rc ← sqlite3OsWrite (take (Z.to_nat iFirstAmt) a) iOffset;
    if negb (rc =? SQLITE_OK) then mret rc else
    _ ← sm_lift (c_assert (negb (syncFlags p .& 3 =? 0)));
    rc ← sqlite3OsSync;
    if (iAmt - iFirstAmt =? 0) || negb (rc =? SQLITE_OK) then mret rc else
    sqlite3OsWrite (drop (Z.to_nat iFirstAmt) a) (iOffset + iFirstAmt)
  else sqlite3OsWrite a iOffset.

(** A dirty page: its number and content. *)
Record PgHdr := MkPg { pg_no : Z; pg_data : list Z }.

Definition walWriteOneFrame (be : bool) (p : WalWriter) (pPage : PgHdr) (nTruncate iOffset : Z) : sm Wal Z :=
  h ← sm_get hdr;
  '(aFrame, h) ← sm_lift (walEncodeFrame be h (pg_no pPage) nTruncate (pg_data pPage));
  _ ← sm_mod (set_hdr h);
  rc ← walWriteToLog p aFrame iOffset;
  if negb (rc =? SQLITE_OK) then mret rc else
  walWriteToLog p (pg_data pPage) (iOffset + Z.of_nat (length aFrame)).

(** [for(p=pList; p; p=p->pDirty)]: the result code, [iFrame] and [iOffset]. *)
Fixpoint write_frames (be : bool) (sz nTruncate sync_flags : Z) (isCommit : bool) (pList : list PgHdr) (iFrame iOffset : Z)
    : sm Wal (Z * Z * Z) :=
  match pList with
  | [] => mret (SQLITE_OK, iFrame, iOffset)
  | p :: pDirty =>
      let iFrame := iFrame + 1 in
      _ ← sm_lift (c_assert (iOffset =? walFrameOffset iFrame sz));
      let nDbSize := if isCommit && bool_decide (length pDirty = 0%nat) then nTruncate else 0 in
      rc ← walWriteOneFrame be (MkWriter 0 sync_flags) p nDbSize iOffset;
      if negb (rc =? SQLITE_OK) then mret (rc, iFrame, iOffset) else
      write_frames be sz nTruncate sync_flags isCommit pDirty iFrame (iOffset + (sz + WAL_FRAME_HDRSIZE))
  end.

(** [while( iOffset<w.iSyncPoint )]: the result code and [nExtra]. *)
Fixpoint pad_frames (be : bool) (fuel : nat) (sz nTruncate : Z) (p : WalWriter) (pLast : PgHdr) (iOffset : Z) (nExtra : nat) : sm Wal (Z * nat) :=
  if iOffset <? iSyncPoint p then
    match fuel with
    | O => λ _, Undef OutOfFuel
    | S fuel' =>
        rc ← walWriteOneFrame be p pLast nTruncate iOffset;
        if negb (rc =? SQLITE_OK) then mret (rc, nExtra) else
        pad_frames be fuel' sz nTruncate p pLast (iOffset + (sz + WAL_FRAME_HDRSIZE)) (S nExtra)
    end
  else mret (SQLITE_OK, nExtra).

Definition walLimitSize (nMax : Z) : sm Wal () :=
  '(rx, sz) ← sqlite3OsFileSize;
  if (rx =? SQLITE_OK) && (nMax <? sz) then _ ← sqlite3OsTruncate nMax; mret () else mret ().

(** [sqlite3_randomness]. *)
Definition sqlite3_randomness (n : nat) : sm Wal (list Z) :=
  r ← sm_get random;
  _ ← sm_mod (set_random (drop n r));
  mret (take n (r ++ replicate n 0)).

Definition restart_hdr (salt : list Z) (h : WalIndexHdr) : WalIndexHdr :=
  MkHdr (iVersion h) (iChange h) (isInit h) (bigEndCksum h) (h_szPage h) 0 (nPage h) (aFrameCksum h) salt (aCksum h).

Definition walRestartLog (be : bool) : sm Wal Z :=
  l ← sm_get readLock;
  if negb (l =? 0) then mret SQLITE_OK else
  _ ← sm_gets (λ w, c_assert (page0_mapped w));
  _ ← sm_gets (λ w, c_assert (nBackfill w =? mxFrame (hdr w)));
  bf ← sm_get nBackfill;
  rc ← (if 0 <? bf then
          salt1 ← sqlite3_randomness 4;
          rc ← walLockExclusive (WAL_READ_LOCK 1) (WAL_NREADER - 1);
          if rc =? SQLITE_OK then
            salt ← sm_get (λ w, aSalt (hdr w));
            s0 ← sm_lift (sqlite3Get4byte salt);
            _ ← sm_mod (λ w, set_nCkpt (u32 (nCkpt w + 1)) (set_hdr (restart_hdr (sqlite3Put4byte (u32 (1 + s0)) ++ salt1) (hdr w)) w));
            _ ← walIndexWriteHdr be;
            _ ← sm_mod (set_nBackfill 0);
            m0 ← sm_gets (λ w, get (aReadMark w) 0);
            _ ← sm_mod (set_aReadMark (m0 :: 0 :: replicate (Z.to_nat WAL_NREADER - 2) READMARK_NOT_USED));
            _ ← sm_lift (c_assert (m0 =? 0));
            mret rc
          else mret rc
        else mret SQLITE_OK);
  if negb (rc =? SQLITE_OK) && negb (rc =? SQLITE_BUSY) then mret rc else
  _ ← sm_mod (set_readLock (-1));
  '(rc, _) ← begin_read_loop be true 101 0 false;
  _ ← sm_lift (c_assert (negb (Z.land rc 255 =? SQLITE_BUSY)));
  mret rc.

Definition new_log_hdr (be : bool) (salt : list Z) (c : Z * Z) (h : WalIndexHdr) : WalIndexHdr :=
  MkHdr (iVersion h) (iChange h) (isInit h) (big be) (h_szPage h) (mxFrame h) (nPage h) c salt (aCksum h).

(** The header of a new log, for the first frame. *)
Definition write_log_hdr (be : bool) (sz sync_flags : Z) : sm Wal Z :=
  n ← sm_get nCkpt;
  salt ← (if n =? 0 then sqlite3_randomness 8 else sm_get (λ w, aSalt (hdr w)));
  '(aWalHdr, c) ← sm_lift (wal_header be sz n salt);
  _ ← sm_mod (λ w, set_truncateOnCommit 1 (set_szPage sz (set_hdr (new_log_hdr be salt c (hdr w)) w)));
  rc ← sqlite3OsWrite aWalHdr 0;
  if negb (rc =? SQLITE_OK) then mret rc else
  sh ← sm_get (λ w, syncHeader (conf w));
  if negb (sh =? 0) && negb (sync_flags =? 0) then sqlite3OsSync else mret SQLITE_OK.

Definition written_hdr (isCommit : bool) (sz iFrame nTruncate : Z) (h : WalIndexHdr) : WalIndexHdr :=
  MkHdr (iVersion h) (if isCommit then u32 (iChange h + 1) else iChange h) (isInit h) (bigEndCksum h) (hdr_page_size sz)
    iFrame (if isCommit then nTruncate else nPage h) (aFrameCksum h) (aSalt h) (aCksum h).

(** The wal-index after the frames were written, and the private header. *)
Definition finish_frames (be isCommit : bool) (sz nTruncate : Z) (pgnos : list Z) : sm Wal Z :=
  r ← sm_gets (λ w, append_frames (can_map (conf w)) (mxFrame (hdr w)) (mxFrame (hdr w)) pgnos (wiPages w));
  let '(rc, p, iFrame) := r in
  _ ← sm_mod (set_wiPages p);
  if rc =? SQLITE_OK then
    _ ← sm_mod (λ w, set_hdr (written_hdr isCommit sz iFrame nTruncate (hdr w)) w);
    if isCommit then
      _ ← walIndexWriteHdr be;
      _ ← sm_mod (set_iCallback iFrame);
      mret rc
    else mret rc
  else mret rc.

(** Padding or syncing at a commit: the result code, [nExtra] and whether the
    function returns at once. *)
Definition sync_frames (be isCommit : bool) (sz nTruncate sync_flags : Z) (pLast : PgHdr) (iOffset : Z) : sm Wal (Z * nat * bool) :=
  if isCommit && negb (sync_flags .& WAL_SYNC_TRANSACTIONS =? 0) then
    pad ← sm_get (λ w, padToSectorBoundary (conf w));
    if negb (pad =? 0) then
      ss ← sm_get (λ w, sectorSize (conf w));
      let p := MkWriter ((iOffset + ss - 1) / ss * ss) sync_flags in
      '(rc, nExtra) ← pad_frames be (Z.to_nat (iSyncPoint p - iOffset)) sz nTruncate p pLast iOffset 0;
      mret (rc, nExtra, negb (rc =? SQLITE_OK))
    else rc ← sqlite3OsSync; mret (rc, 0%nat, false)
  else mret (SQLITE_OK, 0%nat, false).

(** [sqlite3WalFrames] from the check of [szPage] on. *)
Definition log_frames (be : bool) (sz : Z) (pList : list PgHdr) (nTruncate : Z) (isCommit : bool) (sync_flags iFrame : Z) : sm Wal Z :=
  _ ← sm_gets (λ w, c_assert (szPage w =? sz));
  '(rc, iFrame, iOffset) ← write_frames be sz nTruncate sync_flags isCommit pList iFrame (walFrameOffset (iFrame + 1) sz);
  if negb (rc =? SQLITE_OK) then mret rc else
  pLast ← sm_lift (deref (list.last pList));
  '(rc, nExtra, ret) ← sync_frames be isCommit sz nTruncate sync_flags pLast iOffset;
  if ret : bool then mret rc else
  t ← sm_get truncateOnCommit;
  mxs ← sm_get (λ w, mxWalSize (conf w));
  _ ← (if isCommit && negb (t =? 0) && (0 <=? mxs) then
         let off := walFrameOffset (iFrame + Z.of_nat nExtra + 1) sz in
         _ ← walLimitSize (if mxs <? off then off else mxs);
         sm_mod (set_truncateOnCommit 0)
       else mret ());
  if negb (rc =? SQLITE_OK) then mret rc else
  finish_frames be isCommit sz nTruncate ((pg_no <$> pList) ++ replicate nExtra (pg_no pLast)).

Definition sqlite3WalFrames (be : bool) (sz : Z) (pList : list PgHdr) (nTruncate : Z) (isCommit : bool) (sync_flags : Z) : sm Wal Z :=
  _ ← sm_lift (c_assert (negb (bool_decide (length pList = 0%nat))));
  _ ← sm_gets (λ w, c_assert (negb (writeLock w =? 0)));
  _ ← sm_lift (c_assert (Bool.eqb isCommit (negb (nTruncate =? 0))));
  rc ← walRestartLog be;
  if negb (rc =? SQLITE_OK) then mret rc else
  iFrame ← sm_get (λ w, mxFrame (hdr w));
  rc ← (if iFrame =? 0 then write_log_hdr be sz sync_flags else mret SQLITE_OK);
  if negb (rc =? SQLITE_OK) then mret rc else
  log_frames be sz pList nTruncate isCommit sync_flags iFrame.

(** ** Rolling back *)

Definition cleanup : sm Wal () := λ w,
  match walCleanupHash (mxFrame (hdr w)) (wiPages w) with
  | Ret p => Ret ((), set_wiPages p w)
  | Undef f => Undef f
  end.

(** The pages given to [xUndo], which is taken to succeed as the code asserts. *)
Fixpoint undo_pages (pages : list wi_page) (n : nat) (iFrame : Z) : outcome (list Z) :=
  match n with
  | O => Ret []
  | S n' =>
      x ← walFramePgno pages iFrame;
      _ ← c_assert (negb (x =? 1));
      l ← undo_pages pages n' (iFrame + 1);
      Ret (x :: l)
  end.

Definition sqlite3WalUndo : sm Wal (list Z) :=
  l ← sm_get writeLock;
  if l =? 0 then mret [] else
  iMax ← sm_get (λ w, mxFrame (hdr w));
  _ ← sm_mod (λ w, set_hdr (shmHdr0 w) w);
  mx ← sm_get (λ w, mxFrame (hdr w));
  undone ← sm_gets (λ w, undo_pages (wiPages w) (Z.to_nat (iMax - mx)) (mx + 1));
  _ ← (if negb (iMax =? mx) then cleanup else mret ());
  mret undone.

Record savepoint := Savepoint { sp_mxFrame : Z; sp_cksum : Z * Z; sp_nCkpt : Z }.

Definition sqlite3WalSavepoint : sm Wal savepoint :=
  _ ← sm_gets (λ w, c_assert (negb (writeLock w =? 0)));
  sm_get (λ w, Savepoint (mxFrame (hdr w)) (aFrameCksum (hdr w)) (nCkpt w)).

Definition undo_hdr (mx : Z) (c : Z * Z) (h : WalIndexHdr) : WalIndexHdr :=
  MkHdr (iVersion h) (iChange h) (isInit h) (bigEndCksum h) (h_szPage h) mx (nPage h) c (aSalt h) (aCksum h).

(** Also the savepoint as it is left. *)
Definition sqlite3WalSavepointUndo (s : savepoint) : sm Wal savepoint :=
  _ ← sm_gets (λ w, c_assert (negb (writeLock w =? 0)));
  _ ← sm_gets (λ w, c_assert (negb (sp_nCkpt s =? nCkpt w) || (sp_mxFrame s <=? mxFrame (hdr w))));
  n ← sm_get nCkpt;
  let s := if negb (sp_nCkpt s =? n) then Savepoint 0 (sp_cksum s) n else s in
  mx ← sm_get (λ w, mxFrame (hdr w));
  _ ← (if sp_mxFrame s <? mx then
         _ ← sm_mod (λ w, set_hdr (undo_hdr (sp_mxFrame s) (sp_cksum s) (hdr w)) w);
         cleanup
       else mret ());
  mret s.

(** ** Writing a frame *)

Lemma write_at_app pre tail a : write_at (pre ++ tail) (length pre) a = pre ++ a ++ drop (length a) tail.
Proof.
  unfold write_at. destruct a as [|x a]; [done|]. rewrite length_app.
  replace (length pre - (length pre + length tail))%nat with 0%nat by lia. rewrite app_nil_r, take_app_length.
  by rewrite drop_app_add.
Qed.

Lemma sqlite3OsWrite_ok w a iOffset : events w = [] →
  sqlite3OsWrite a iOffset w = Ret (SQLITE_OK, set_walFile (write_at (walFile w) (Z.to_nat iOffset) a) w).
Proof. intros He. unfold sqlite3OsWrite, next_event, mbind, sm_bind. by rewrite He. Qed.

Lemma sqlite3OsSync_ok w : events w = [] → sqlite3OsSync w = Ret (SQLITE_OK, w).
Proof. intros He. unfold sqlite3OsSync, next_event, mbind, sm_bind. by rewrite He. Qed.

(** With or without a sync in the middle, the content is written. *)
Lemma walWriteToLog_ok p w pre tail a : events w = [] → walFile w = pre ++ tail → Z.of_nat (length a) < 2 ^ 31 →
  iSyncPoint p = 0 ∨ syncFlags p .& 3 ≠ 0 →
  walWriteToLog p a (Z.of_nat (length pre)) w = Ret (SQLITE_OK, set_walFile (pre ++ a ++ drop (length a) tail) w).
Proof.
  intros He Hf Ha Hp. unfold walWriteToLog. destruct (_ && _) eqn:Ec; [|rewrite sqlite3OsWrite_ok by done; by rewrite Hf, Nat2Z.id, write_at_app].
  b2p. destruct Hp as [Hp|Hp]; [lia|]. rewrite sw_small by (unfold in_sw; lia).
  set (k := iSyncPoint p - Z.of_nat (length pre)). assert (length (take (Z.to_nat k) a) = Z.to_nat k) as Hk by (rewrite length_take; lia).
  erewrite sm_bind_run; [|by apply sqlite3OsWrite_ok]. cbn [Z.eqb SQLITE_OK negb].
  erewrite sm_bind_run; [|unfold sm_lift, sm_gets; by rewrite (proj2 (Z.eqb_neq _ _) Hp)].
  erewrite sm_bind_run; [|by apply sqlite3OsSync_ok]. rewrite Hf, Nat2Z.id, write_at_app, Hk.
  destruct (Z.eqb_spec (Z.of_nat (length a) - k) 0) as [E|E]; cbn [orb negb Z.eqb SQLITE_OK].
  - rewrite take_ge by lia. by replace (Z.to_nat k) with (length a) by lia.
  - rewrite sqlite3OsWrite_ok by done. change (walFile (set_walFile ?x w)) with x.
    replace (Z.to_nat (Z.of_nat (length pre) + k)) with (length (pre ++ take (Z.to_nat k) a)) by (rewrite length_app; lia).
    rewrite (app_assoc pre (take _ _)), write_at_app, <- app_assoc, (app_assoc (take _ _)), take_drop, drop_drop, length_drop.
    by replace (Z.to_nat k + (length a - Z.to_nat k))%nat with (length a) by lia.
Qed.

(** ** The log while frames are written *)

Lemma log_bytes_app ord salt fs gs : ∀ c, log_bytes ord salt c (fs ++ gs) = log_bytes ord salt c fs ++ log_bytes ord salt (log_cksum ord c fs) gs.
Proof. induction fs as [|f fs IH]; intros c; [done|]. cbn [app log_bytes]. rewrite IH, <- !app_assoc. done. Qed.

Lemma log_file_snoc bw sz n salt fs f : log_file bw sz n salt (fs ++ [f]) =
  log_file bw sz n salt fs ++ frame_hdr bw salt (log_cksum bw (hdr_cksum bw sz n salt) fs) f ++ f_data f.
Proof. unfold log_file. rewrite log_bytes_app, <- app_assoc. cbn [log_bytes]. by rewrite app_nil_r. Qed.

Lemma log_cksum_snoc ord c fs f : log_cksum ord c (fs ++ [f]) = frame_cksum ord (log_cksum ord c fs) f.
Proof. unfold log_cksum. by rewrite foldl_app. Qed.

Lemma log_file_length bw sz n salt fs : salt_ok salt → Forall (frame_ok sz) fs →
  Z.of_nat (length (log_file bw sz n salt fs)) = frame_offset sz (length fs).
Proof.
  intros Hs Hf. unfold log_file, frame_offset. rewrite length_app, file_hdr_length, Nat2Z.inj_add by done.
  rewrite (log_bytes_length _ _ sz) by (done || apply Hs). unfold WAL_HDRSIZE. lia.
Qed.

Lemma append_frames_ext cm mx l : (∀ i, cm i = true) → ∀ i p, append_frames cm mx i l p = append_frames (λ _, true) mx i l p.
Proof.
  intros Hm. induction l as [|x l IH]; intros i p; [done|]. cbn [append_frames]. rewrite Hm.
  destruct (WalIndex.walIndexAppend _ _ _ _ _) as [[rc p']|]; [|done]. cbn [mbind outcome_bind]. by rewrite IH.
Qed.

(** The frames of the log, fixed facts about it and how its end is known to the
    writer. *)
Section log.
Context (bw : bool) (sz n : Z) (salt : list Z).
Hypothesis (Hsz : page_size sz) (Hsalt : salt_ok salt).

Record writing (w : Wal) (fs : list frame) (tail : list Z) : Prop := {
  wr_file : walFile w = log_file bw sz n salt fs ++ tail;
  wr_frames : Forall (frame_ok sz) fs;
  wr_order : bigEndCksum (hdr w) = big bw;
  wr_salt : aSalt (hdr w) = salt;
  wr_cksum : aFrameCksum (hdr w) = log_cksum bw (hdr_cksum bw sz n salt) fs }.

(** Only the file and the running checksum change while frames are written. *)
Definition wrote (w w' : Wal) : Prop := ∃ c f, w' = set_hdr (set_cksum c (hdr w)) (set_walFile f w).

Lemma wrote_refl w : wrote w w.
Proof. exists (aFrameCksum (hdr w)), (walFile w). destruct w as [? ? h]. by destruct h. Qed.

Lemma wrote_trans w1 w2 w3 : wrote w1 w2 → wrote w2 w3 → wrote w1 w3.
Proof. intros (c & f & ->) (c' & f' & ->). by exists c', f'. Qed.

Lemma wrote_events w w' : wrote w w' → events w' = events w ∧ conf w' = conf w ∧ wiPages w' = wiPages w ∧ mxFrame (hdr w') = mxFrame (hdr w).
Proof. by intros (c & f & ->). Qed.

(** The frame of a dirty page. *)
Definition page_frame (size : Z) (p : PgHdr) : frame := Frame (pg_no p) size (pg_data p).

Lemma walWriteOneFrame_ok be p w fs tail pg size : writing w fs tail → events w = [] → frame_ok sz (page_frame size pg) →
  iSyncPoint p = 0 ∨ syncFlags p .& 3 ≠ 0 →
  ∃ w', walWriteOneFrame be p pg size (frame_offset sz (length fs)) w = Ret (SQLITE_OK, w') ∧
    writing w' (fs ++ [page_frame size pg]) (drop (Z.to_nat sz + 24) tail) ∧ wrote w w'.
Proof.
  intros Hw He Hf Hp. destruct (page_size_spec _ Hsz) as ([Hs1 Hs2] & _). unfold SQLITE_MAX_PAGE_SIZE in *.
  assert (order (hdr w) = bw) as Ho by (unfold order; rewrite (wr_order _ _ _ Hw); by destruct bw).
  assert (bigEndCksum (hdr w) = 0 ∨ bigEndCksum (hdr w) = 1) as Hb by (rewrite (wr_order _ _ _ Hw); destruct bw; auto).
  pose proof (fok_len _ _ Hf) as Hfl. cbn [f_data page_frame] in Hfl.
  unfold walWriteOneFrame. set (c := log_cksum bw (hdr_cksum bw sz n salt) fs).
  assert (walEncodeFrame be (hdr w) (pg_no pg) size (pg_data pg) =
    Ret (frame_hdr bw salt c (page_frame size pg), set_cksum (frame_cksum bw c (page_frame size pg)) (hdr w))) as Henc.
  { pose proof (walEncodeFrame_spec be (hdr w) sz _ Hb Hsz Hf) as E. rewrite Ho, (wr_salt _ _ _ Hw), (wr_cksum _ _ _ Hw) in E. exact E. }
  set (a := frame_hdr bw salt c (page_frame size pg)) in *.
  assert (length a = 24%nat) as Hal by (apply frame_hdr_length, Hsalt).
  set (pre := log_file bw sz n salt fs). pose proof (log_file_length bw sz n salt fs Hsalt (wr_frames _ _ _ Hw)) as Hpl. fold pre in Hpl.
  set (h1 := set_cksum (frame_cksum bw c (page_frame size pg)) (hdr w)) in *.
  exists (set_walFile ((pre ++ a) ++ pg_data pg ++ drop (length (pg_data pg)) (drop 24 tail)) (set_hdr h1 w)). split; [|split].
  - erewrite sm_bind_run; [|done]. erewrite sm_bind_run; [|unfold sm_lift, sm_gets; by rewrite Henc].
    cbn beta iota. erewrite sm_bind_run; [|done]. rewrite <- Hpl.
    erewrite sm_bind_run; [|apply (walWriteToLog_ok p (set_hdr h1 w) pre tail); [done|apply Hw|lia|done]].
    cbn [Z.eqb SQLITE_OK negb]. rewrite Hal.
    replace (Z.of_nat (length pre) + Z.of_nat 24) with (Z.of_nat (length (pre ++ a))) by (rewrite length_app; lia).
    rewrite (walWriteToLog_ok p _ (pre ++ a) (drop 24 tail)); [done|done|by rewrite <- app_assoc|lia|done].
  - split.
    + change (walFile (set_walFile ?x _)) with x. rewrite log_file_snoc. fold pre c a. cbn [page_frame f_data].
      rewrite drop_drop, <- !app_assoc. do 4 f_equal. lia.
    + apply Forall_app_2; [apply Hw|by constructor].
    + apply Hw.
    + apply Hw.
    + by rewrite log_cksum_snoc.
  - by eexists _, _.
Qed.

Record page_ok (pg : PgHdr) : Prop := {
  pok_no : 0 < pg_no pg < 2 ^ 32;
  pok_len : Z.of_nat (length (pg_data pg)) = sz;
  pok_data : Forall is_byte (pg_data pg) }.

Lemma page_frame_ok size pg : page_ok pg → 0 ≤ size < 2 ^ 32 → frame_ok sz (page_frame size pg).
Proof. intros [? ? ?] ?. by split. Qed.

(** The frames that a call of [sqlite3WalFrames] writes once. *)
Fixpoint list_frames (isCommit : bool) (nTruncate : Z) (pList : list PgHdr) : list frame :=
  match pList with
  | [] => []
  | p :: pDirty => page_frame (if isCommit && bool_decide (length pDirty = 0%nat) then nTruncate else 0) p
                     :: list_frames isCommit nTruncate pDirty
  end.

Lemma list_frames_pgno isCommit nTruncate pList : f_pgno <$> list_frames isCommit nTruncate pList = pg_no <$> pList.
Proof. induction pList as [|p l IH]; [done|]. cbn. by rewrite <- IH. Qed.

Lemma list_frames_length isCommit nTruncate pList : length (list_frames isCommit nTruncate pList) = length pList.
Proof. induction pList as [|p l IH]; [done|]. cbn. by rewrite IH. Qed.

Lemma write_frames_ok be nTruncate sync_flags isCommit pList : ∀ w fs tail, writing w fs tail → events w = [] →
  Forall page_ok pList → 0 ≤ nTruncate < 2 ^ 32 →
  ∃ w' k, write_frames be sz nTruncate sync_flags isCommit pList (Z.of_nat (length fs)) (frame_offset sz (length fs)) w =
      Ret ((SQLITE_OK, Z.of_nat (length fs + length pList), frame_offset sz (length fs + length pList)), w') ∧
    writing w' (fs ++ list_frames isCommit nTruncate pList) (drop k tail) ∧ wrote w w'.
Proof.
  induction pList as [|p l IH]; intros w fs tail Hw He Hl Ht.
  { exists w, 0%nat. cbn [write_frames list_frames length]. rewrite Nat.add_0_r, app_nil_r. split; [done|]. split; [done|]. apply wrote_refl. }
  apply list.Forall_cons in Hl as [Hp Hl]. cbn [write_frames list_frames length].
  set (size := if isCommit && bool_decide (length l = 0%nat) then nTruncate else 0).
  destruct (walWriteOneFrame_ok be (MkWriter 0 sync_flags) w fs tail p size) as (w1 & H1 & Hw1 & Hr1);
    [done|done|apply page_frame_ok; [done|unfold size; case_match; lia]|by left|].
  destruct (wrote_events _ _ Hr1) as (Ee & _). 
  destruct (IH w1 _ _ Hw1) as (w2 & k & H2 & Hw2 & Hr2); [congruence|done|done|].
  exists w2, (Z.to_nat sz + 24 + k)%nat. split; [|split; [|by eapply wrote_trans]].
  - assert (frame_offset sz (length fs) = walFrameOffset (Z.of_nat (length fs) + 1) sz) as Eo
      by (unfold frame_offset, walFrameOffset; lia).
    erewrite sm_bind_run; [|unfold sm_lift, sm_gets; by rewrite Eo, Z.eqb_refl].
    erewrite sm_bind_run; [|exact H1]. cbn [Z.eqb SQLITE_OK negb]. rewrite frame_offset_S.
    rewrite length_app in H2. cbn [length] in H2.
    replace (Z.of_nat (length fs) + 1) with (Z.of_nat (length fs + 1)) by lia.
    replace (S (length fs)) with (length fs + 1)%nat by lia. rewrite H2. do 3 f_equal; [f_equal; lia|f_equal; lia].
  - rewrite <- app_assoc, drop_drop in Hw2. exact Hw2.
Qed.

(** Padding repeats the last frame; the fuel is enough. *)
Lemma pad_frames_ok be p pg nTruncate : page_ok pg → 0 ≤ nTruncate < 2 ^ 32 → syncFlags p .& 3 ≠ 0 →
  ∀ fuel w fs tail m, writing w fs tail → events w = [] → iSyncPoint p - frame_offset sz (length fs) ≤ Z.of_nat fuel →
  ∃ w' k j, pad_frames be fuel sz nTruncate p pg (frame_offset sz (length fs)) m w = Ret ((SQLITE_OK, m + k)%nat, w') ∧
    writing w' (fs ++ replicate k (page_frame nTruncate pg)) (drop j tail) ∧ wrote w w' ∧
    Z.of_nat k ≤ Z.max 0 (iSyncPoint p - frame_offset sz (length fs)).
Proof.
  intros Hpg Ht Hsf. destruct (page_size_spec _ Hsz) as ([Hs1 Hs2] & _).
  induction fuel as [|fuel IH]; intros w fs tail m Hw He Hfu; cbn [pad_frames];
    destruct (Z.ltb_spec (frame_offset sz (length fs)) (iSyncPoint p)); try lia;
    try (exists w, 0%nat, 0%nat; rewrite Nat.add_0_r, app_nil_r; split; [done|]; split; [done|]; split; [apply wrote_refl|lia]).
  destruct (walWriteOneFrame_ok be p w fs tail pg nTruncate) as (w1 & H1 & Hw1 & Hr1); [done|done|by apply page_frame_ok|by right|].
  destruct (wrote_events _ _ Hr1) as (Ee & _).
  assert (S (length fs) = length (fs ++ [page_frame nTruncate pg])) as El by (rewrite length_app; simpl; lia).
  destruct (IH w1 _ _ (S m) Hw1) as (w2 & k & j & H2 & Hw2 & Hr2 & Hk); [congruence| |].
  { rewrite <- El, <- frame_offset_S. unfold WAL_FRAME_HDRSIZE. lia. }
  exists w2, (S k), (Z.to_nat sz + 24 + j)%nat.
  split; [|split; [|split; [by eapply wrote_trans|rewrite <- El, <- frame_offset_S in Hk; unfold WAL_FRAME_HDRSIZE in Hk; lia]]].
  - erewrite sm_bind_run; [|exact H1]. cbn [Z.eqb SQLITE_OK negb]. rewrite frame_offset_S, El, H2. do 3 f_equal. lia.
  - rewrite <- app_assoc, drop_drop in Hw2. exact Hw2.
Qed.

Lemma sync_frames_ok be isCommit nTruncate sync_flags pg w fs tail : page_ok pg → 0 ≤ nTruncate < 2 ^ 32 → writing w fs tail → events w = [] →
  padToSectorBoundary (conf w) = 0 ∨ (sync_flags .& 3 ≠ 0 ∧ 0 < sectorSize (conf w)) →
  ∃ w' k j, sync_frames be isCommit sz nTruncate sync_flags pg (frame_offset sz (length fs)) w = Ret ((SQLITE_OK, k, false), w') ∧
    writing w' (fs ++ replicate k (page_frame nTruncate pg)) (drop j tail) ∧ wrote w w' ∧
    Z.of_nat k ≤ Z.max 0 (sectorSize (conf w)) ∧ (isCommit = false → k = 0%nat).
Proof.
  intros Hpg Ht Hw He Hc. unfold sync_frames.
  assert (∃ w' k j, Ret ((SQLITE_OK, 0%nat, false), w) = Ret ((SQLITE_OK, k, false), w') ∧
    writing w' (fs ++ replicate k (page_frame nTruncate pg)) (drop j tail) ∧ wrote w w' ∧
    Z.of_nat k ≤ Z.max 0 (sectorSize (conf w)) ∧ (isCommit = false → k = 0%nat)) as Hno.
  { exists w, 0%nat, 0%nat. rewrite app_nil_r. split; [done|]. split; [done|]. split; [apply wrote_refl|]. split; [lia|done]. }
  destruct isCommit; [|exact Hno]. destruct (sync_flags .& WAL_SYNC_TRANSACTIONS =? 0); [exact Hno|]. cbn [andb negb].
  assert (∀ k : sm Wal (Z * nat * bool), (pad ← sm_get (λ w, padToSectorBoundary (conf w)); if negb (pad =? 0) then k else
    rc ← sqlite3OsSync; mret (rc, 0%nat, false)) w = if padToSectorBoundary (conf w) =? 0 then Ret ((SQLITE_OK, 0%nat, false), w) else k w) as Hk.
  { intros k. erewrite sm_bind_run; [|done]. destruct (padToSectorBoundary (conf w) =? 0); [|done]. cbn [negb].
    by erewrite sm_bind_run; [|by apply sqlite3OsSync_ok]. }
  rewrite Hk. destruct (Z.eqb_spec (padToSectorBoundary (conf w)) 0) as [E|E]; [exact Hno|].
  destruct Hc as [?|[Hsf Hss]]; [done|]. clear Hno Hk. set (ss := sectorSize (conf w)) in *. set (off := frame_offset sz (length fs)).
  set (p := MkWriter ((off + ss - 1) / ss * ss) sync_flags).
  destruct (pad_frames_ok be p pg nTruncate Hpg Ht Hsf (Z.to_nat (iSyncPoint p - off)) w fs tail 0 Hw He) as (w' & k & j & H1 & H2 & H3 & H4);
    [fold off; lia|].
  exists w', k, j. split; [|split; [done|split; [done|split; [|done]]]].
  - erewrite sm_bind_run; [|done]. fold ss. fold p. by erewrite sm_bind_run; [|exact H1].
  - fold off in H4. cbn [iSyncPoint p] in H4. pose proof (Z.mul_div_le (off + ss - 1) ss Hss). lia.
Qed.

Lemma walLimitSize_ok w fs tail nMax : writing w fs tail → events w = [] → salt_ok salt → frame_offset sz (length fs) ≤ nMax →
  ∃ w' tail', walLimitSize nMax w = Ret ((), w') ∧ writing w' fs tail' ∧ wrote w w' ∧ (tail = [] → tail' = []).
Proof.
  intros Hw He _ Hn. unfold walLimitSize.
  erewrite sm_bind_run; [|unfold sqlite3OsFileSize, next_event, mbind, sm_bind; rewrite He; done]. cbn [Z.eqb SQLITE_OK andb].
  destruct (nMax <? _) eqn:El; [|exists w, tail; split; [done|]; split; [done|]; split; [apply wrote_refl|done]].
  pose proof (log_file_length bw sz n salt fs Hsalt (wr_frames _ _ _ Hw)) as Hpl.
  exists (set_walFile (take (Z.to_nat nMax) (walFile w)) w), (take (Z.to_nat nMax - length (log_file bw sz n salt fs)) tail).
  split; [|split; [|split; [|intros ->; apply take_nil]]].
  - erewrite sm_bind_run; [|unfold sqlite3OsTruncate, next_event, mbind, sm_bind; rewrite He; done]. done.
  - split; try apply Hw. change (walFile (set_walFile ?x w)) with x. rewrite (wr_file _ _ _ Hw).
    rewrite take_app, (take_ge (log_file _ _ _ _ _)) by lia. done.
  - exists (aFrameCksum (hdr w)), (take (Z.to_nat nMax) (walFile w)). destruct w as [? ? h]. by destruct h.
Qed.

(** The writer knows the frames of the log: its header counts them and the
    wal-index records them, possibly followed by frames of a transaction that
    was not completed. *)
Record knows (w : Wal) (fs : list frame) : Prop := {
  kn_count : mxFrame (hdr w) = Z.of_nat (length fs);
  kn_index : ∃ all, index_ok (wiPages w) all ∧ (length fs ≤ length all)%nat ∧ take (length fs) all = f_pgno <$> fs }.

(** The state after the frames were added to the wal-index. *)
Definition finished (be isCommit : bool) (iFrame nTruncate : Z) (p : list wi_page) (w : Wal) : Wal :=
  let h := written_hdr isCommit sz iFrame nTruncate (hdr w) in
  if isCommit then set_iCallback iFrame (set_index_hdr (init_hdr be h) (set_hdr (init_hdr be h) (set_wiPages p w)))
  else set_hdr h (set_wiPages p w).

Lemma finish_frames_ok be isCommit nTruncate w fs gs : knows w fs → hdr_ok (hdr w) → writeLock w ≠ 0 → (∀ i, can_map (conf w) i = true) →
  gs ≠ [] → Forall (frame_ok sz) gs → Z.of_nat (length fs + length gs) + HASHTABLE_NPAGE < 2 ^ 32 →
  ∃ p, finish_frames be isCommit sz nTruncate (f_pgno <$> gs) w =
      Ret (SQLITE_OK, finished be isCommit (Z.of_nat (length (fs ++ gs))) nTruncate p w) ∧
    index_ok p (f_pgno <$> (fs ++ gs)).
Proof.
  intros [Hc (all & Hix & Hle & Hta)] Hh Hl Hm Hne Hgs Hbd. unfold finish_frames.
  destruct (append_frames_ok (wiPages w) all (length fs) (f_pgno <$> gs)) as (p & Hp & Hip); [done|done| |by rewrite length_fmap|by destruct gs|].
  { apply list.Forall_fmap. eapply list.Forall_impl; [exact Hgs|]. intros f Hf. apply Hf. }
  rewrite length_fmap in Hp. rewrite Hta, <- fmap_app in Hip. exists p. split; [|done].
  assert (p ≠ []) as Hpn. { destruct (f_pgno <$> (fs ++ gs)) eqn:E; [|by eapply index_ok_pages]. by destruct fs, gs. }
  erewrite sm_bind_run; [|unfold sm_gets; rewrite Hc].
  2: { assert (append_frames (can_map (conf w)) (Z.of_nat (length fs)) (Z.of_nat (length fs)) (f_pgno <$> gs) (wiPages w) =
         Ret (SQLITE_OK, p, Z.of_nat (length fs + length gs))) as ->; [|done].
       rewrite <- Hp. by apply append_frames_ext. }
  cbn beta iota. erewrite sm_bind_run; [|done]. cbn [Z.eqb SQLITE_OK]. erewrite sm_bind_run; [|done].
  rewrite <- length_app. change (hdr (set_wiPages p w)) with (hdr w). unfold finished.
  set (h := written_hdr isCommit sz (Z.of_nat (length (fs ++ gs))) nTruncate (hdr w)).
  destruct isCommit; [|done].
  erewrite sm_bind_run; [|apply walIndexWriteHdr_ok; [split; apply Hh|done|done]]. done.
Qed.

(** What a call of [sqlite3WalFrames] leaves. *)
Record logged (isCommit : bool) (nTruncate : Z) (w w' : Wal) : Prop := {
  lg_szPage : szPage w' = szPage w;
  lg_nCkpt : nCkpt w' = nCkpt w;
  lg_readLock : readLock w' = readLock w;
  lg_writeLock : writeLock w' = writeLock w;
  lg_conf : conf w' = conf w;
  lg_events : events w' = events w;
  lg_nPage : nPage (hdr w') = if isCommit then nTruncate else nPage (hdr w);
  lg_szPage_hdr : h_szPage (hdr w') = hdr_page_size sz;
  lg_index : if isCommit then shmHdr0 w' = hdr w' ∧ shmHdr1 w' = hdr w' else shmHdr0 w' = shmHdr0 w ∧ shmHdr1 w' = shmHdr1 w }.

(** The settings under which frames can be written undisturbed. *)
Record can_write (sync_flags : Z) (w : Wal) : Prop := {
  cw_events : events w = [];
  cw_map : ∀ i, can_map (conf w) i = true;
  cw_lock : writeLock w ≠ 0;
  cw_read : readLock w ≠ 0;
  cw_pad : padToSectorBoundary (conf w) = 0 ∨ (sync_flags .& 3 ≠ 0 ∧ 0 < sectorSize (conf w)) }.

Lemma finished_writing be isCommit iFrame nTruncate p w fs tail : writing w fs tail →
  writing (finished be isCommit iFrame nTruncate p w) fs tail.
Proof. intros [? ? ? ? ?]. unfold finished. by destruct isCommit. Qed.

Lemma finished_logged be isCommit iFrame nTruncate p w w0 t : wrote w0 w →
  logged isCommit nTruncate w0 (finished be isCommit iFrame nTruncate p (set_truncateOnCommit t w)).
Proof. intros (c & f & ->). unfold finished. by destruct isCommit. Qed.

Lemma wrote_knows w w' fs : wrote w w' → knows w fs → knows w' fs.
Proof. intros (c & f & ->) [? ?]. by split. Qed.

Lemma set_truncate_id w : set_truncateOnCommit (truncateOnCommit w) w = w.
Proof. by destruct w. Qed.

Lemma log_frames_ok be nTruncate isCommit sync_flags pList w fs tail : writing w fs tail → knows w fs → szPage w = sz →
  can_write sync_flags w → pList ≠ [] → Forall page_ok pList → 0 ≤ nTruncate < 2 ^ 32 →
  Z.of_nat (length fs + length pList) + Z.max 0 (sectorSize (conf w)) + HASHTABLE_NPAGE < 2 ^ 32 →
  ∃ w' pg k tail', list.last pList = Some pg ∧ (isCommit = false → k = 0%nat) ∧ (tail = [] → tail' = []) ∧
    Z.of_nat k ≤ Z.max 0 (sectorSize (conf w)) ∧
    let gs := list_frames isCommit nTruncate pList ++ replicate k (page_frame nTruncate pg) in
    log_frames be sz pList nTruncate isCommit sync_flags (Z.of_nat (length fs)) w = Ret (SQLITE_OK, w') ∧
    writing w' (fs ++ gs) tail' ∧ knows w' (fs ++ gs) ∧ logged isCommit nTruncate w w'.
Proof.
  intros Hw Hk Es Hc Hne Hl Ht Hbd. destruct (list.last pList) as [pg|] eqn:Elast; [|by apply last_None in Elast].
  assert (page_ok pg) as Hpg. { apply (proj1 (list.Forall_forall _ _) Hl). by apply list.last_Some_elem_of in Elast. }
  destruct (write_frames_ok be nTruncate sync_flags isCommit pList w fs tail Hw (cw_events _ _ Hc) Hl Ht) as (w1 & j1 & R1 & W1 & O1).
  destruct (wrote_events _ _ O1) as (E1 & C1 & _).
  destruct (sync_frames_ok be isCommit nTruncate sync_flags pg w1 _ _ Hpg Ht W1) as (w2 & k & j2 & R2 & W2 & O2 & Hk2 & Hk0);
    [rewrite E1; apply Hc|rewrite C1; apply Hc|].
  pose proof (wrote_trans _ _ _ O1 O2) as O12. destruct (wrote_events _ _ O12) as (E2 & C2 & _). rewrite C1 in Hk2.
  set (gs := list_frames isCommit nTruncate pList ++ replicate k (page_frame nTruncate pg)).
  rewrite <- app_assoc in W2. fold gs in W2. rewrite length_app, list_frames_length in R2.
  assert (length gs = length pList + k)%nat as Hgl by (unfold gs; by rewrite length_app, list_frames_length, length_replicate).
  assert (∃ w3 t tail3, (t0 ← sm_get truncateOnCommit; mxs ← sm_get (λ w, mxWalSize (conf w));
    (if isCommit && negb (t0 =? 0) && (0 <=? mxs) then
       let off := walFrameOffset (Z.of_nat (length fs + length pList) + Z.of_nat k + 1) sz in
       _ ← walLimitSize (if mxs <? off then off else mxs); sm_mod (set_truncateOnCommit 0)
     else mret ())) w2 = Ret ((), set_truncateOnCommit t w3) ∧ writing w3 (fs ++ gs) tail3 ∧ wrote w2 w3 ∧ (tail = [] → tail3 = []))
    as (w3 & t & tail3 & R3 & W3 & O3 & T3).
  { erewrite sm_bind_run; [|done]. erewrite sm_bind_run; [|done]. destruct (_ && _ && _).
    - cbn zeta. match goal with |- context [walLimitSize ?m] => set (mx := m) end.
      destruct (walLimitSize_ok w2 _ _ mx W2) as (w3 & tail3 & R & W & O & T); [rewrite E2; apply Hc|done| |].
      { rewrite length_app, Hgl. unfold mx, frame_offset, walFrameOffset, WAL_HDRSIZE. destruct (Z.ltb_spec (mxWalSize (conf w2))
          (32 + (Z.of_nat (length fs + length pList) + Z.of_nat k + 1 - 1) * (sz + WAL_FRAME_HDRSIZE))); lia. }
      exists w3, 0, tail3. split; [by erewrite sm_bind_run; [|exact R]|]. split; [done|]. split; [done|].
      intros ->. apply T. by rewrite !drop_nil.
    - exists w2, (truncateOnCommit w2), (drop j2 (drop j1 tail)). rewrite set_truncate_id. split; [done|]. split; [done|].
      split; [apply wrote_refl|]. intros ->. by rewrite !drop_nil. }
  pose proof (wrote_trans _ _ _ O12 O3) as O. destruct (wrote_events _ _ O) as (E3 & C3 & _).
  set (w4 := set_truncateOnCommit t w3).
  assert (Forall (frame_ok sz) gs) as Hgs by (apply Forall_app with (l1 := fs), (wr_frames _ _ _ W3)).
  destruct (finish_frames_ok be isCommit nTruncate w4 fs gs) as (p & R4 & Hp).
  - apply (wrote_knows _ _ _ O) in Hk as [? ?]. by split.
  - split; [cbn; rewrite (wr_order _ _ _ W3); destruct bw; auto|cbn; by rewrite (wr_salt _ _ _ W3)].
  - destruct O as (? & ? & ->). apply Hc.
  - intros i. cbn. rewrite C3. apply Hc.
  - intros E. apply (f_equal length) in E. rewrite Hgl in E. destruct pList; [done|]. simpl in E. lia.
  - done.
  - rewrite Hgl. lia.
  - exists (finished be isCommit (Z.of_nat (length (fs ++ gs))) nTruncate p w4), pg, k, tail3. do 4 (split; [done|]). cbn zeta. fold gs.
    split; [|split; [|split]].
    + unfold log_frames. erewrite sm_bind_run; [|unfold sm_gets; by rewrite Es, Z.eqb_refl].
      replace (walFrameOffset (Z.of_nat (length fs) + 1) sz) with (frame_offset sz (length fs)) by (unfold frame_offset, walFrameOffset; lia).
      erewrite sm_bind_run; [|exact R1]. cbn [Z.eqb SQLITE_OK negb].
      erewrite sm_bind_run; [|unfold sm_lift, sm_gets; rewrite Elast; done].
      erewrite sm_bind_run; [|exact R2]. cbn beta iota.
      erewrite sm_bind_run in R3; [|done]. erewrite sm_bind_run in R3; [|done].
      erewrite sm_bind_run; [|done]. erewrite sm_bind_run; [|done]. erewrite sm_bind_run; [|exact R3].
      cbn [Z.eqb SQLITE_OK negb]. fold w4. rewrite <- R4. f_equal. unfold gs.
      by rewrite fmap_app, list_frames_pgno, fmap_replicate.
    + apply finished_writing. destruct W3. by split.
    + unfold finished. split; [by destruct isCommit|]. exists (f_pgno <$> (fs ++ gs)).
      rewrite take_ge, length_fmap by (by rewrite length_fmap). split; [by destruct isCommit|done].
    + by apply finished_logged.
Qed.
End log.

(** ** The first frames of a log *)

Lemma walRestartLog_reader be w : readLock w ≠ 0 → walRestartLog be w = Ret (SQLITE_OK, w).
Proof. intros Hr. unfold walRestartLog. erewrite sm_bind_run; [|done]. by rewrite (proj2 (Z.eqb_neq _ _) Hr). Qed.

(** The salt of a new log. *)
Definition new_salt (w : Wal) : list Z := if nCkpt w =? 0 then take 8 (random w ++ replicate 8 0) else aSalt (hdr w).

Lemma write_log_hdr_ok be sz sync_flags w : events w = [] → salt_ok (new_salt w) →
  ∃ w1, write_log_hdr be sz sync_flags w = Ret (SQLITE_OK, w1) ∧
    writing be sz (nCkpt w) (new_salt w) w1 [] (drop 32 (walFile w)) ∧ szPage w1 = sz ∧
    nCkpt w1 = nCkpt w ∧ readLock w1 = readLock w ∧ writeLock w1 = writeLock w ∧ conf w1 = conf w ∧ events w1 = events w ∧
    wiPages w1 = wiPages w ∧ mxFrame (hdr w1) = mxFrame (hdr w) ∧ nPage (hdr w1) = nPage (hdr w) ∧
    shmHdr0 w1 = shmHdr0 w ∧ shmHdr1 w1 = shmHdr1 w.
Proof.
  intros He Hs. unfold write_log_hdr.
  set (w0 := if nCkpt w =? 0 then set_random (drop 8 (random w)) w else w).
  assert ((if nCkpt w =? 0 then sqlite3_randomness 8 else sm_get (λ w, aSalt (hdr w))) w = Ret (new_salt w, w0)) as H0
    by (unfold new_salt, w0; by destruct (nCkpt w =? 0)).
  set (salt := new_salt w) in *. set (c := hdr_cksum be sz (nCkpt w) salt).
  set (w1 := set_truncateOnCommit 1 (set_szPage sz (set_hdr (new_log_hdr be salt c (hdr w0)) w0))).
  set (w2 := set_walFile (file_hdr be sz (nCkpt w) salt ++ drop 32 (walFile w)) w1).
  assert (walFile w1 = walFile w ∧ events w1 = events w) as [Ef Ee] by (unfold w1, w0; by destruct (nCkpt w =? 0)).
  exists w2. split; [|unfold w2, w1, w0; destruct (nCkpt w =? 0); split; try done; split; try done; cbn; unfold log_file; by rewrite app_nil_r].
  erewrite sm_bind_run; [|done]. erewrite sm_bind_run; [|exact H0].
  erewrite sm_bind_run; [|unfold sm_lift, sm_gets; by rewrite wal_header_ok]. cbn beta iota. fold c.
  erewrite sm_bind_run; [|done]. fold w1. erewrite sm_bind_run; [|apply sqlite3OsWrite_ok; by rewrite Ee].
  rewrite Ef. assert (write_at (walFile w) (Z.to_nat 0) (file_hdr be sz (nCkpt w) salt) = file_hdr be sz (nCkpt w) salt ++ drop 32 (walFile w)) as ->.
  { pose proof (write_at_app [] (walFile w) (file_hdr be sz (nCkpt w) salt)) as E. cbn [length app] in E. rewrite file_hdr_length in E by done. exact E. }
  fold w2. cbn [Z.eqb SQLITE_OK negb]. erewrite sm_bind_run; [|done].
  destruct (_ && _); [|done]. apply sqlite3OsSync_ok. change (events w2) with (events w1). by rewrite Ee.
Qed.
