(* ===== verification/WalDurable.v ===== *)
(** * Durability of the write-ahead log

    What recovery and the readers make of a log file: the pages read after
    [walIndexRecover] are those of the last committed transaction whose frames
    are complete in the file, also when the file was cut at any byte, and a
    transaction committed by [sqlite3WalFrames] is there after a crash. *)

From S2P Require Import Prelude Varint WalIndex WalFrame Wal WalTxn.
#[local] Open Scope Z_scope.
#[local] Open Scope c_scope.
#[local] Open Scope list_scope.

(** ** The content of a log *)

(** The content of a page: that of the last frame with its number. *)
Definition page_of (fs : list frame) (pgno : Z) : option (list Z) :=
  f_data <$> list.last (filter (λ f, f_pgno f = pgno) fs).

(** Looking a page up and reading its frame. *)
Definition read_page (pgno nOut : Z) : sm Wal (Z * option (list Z)) :=
  '(rc, iRead) ← sqlite3WalFindFrame pgno;
  if negb (rc =? SQLITE_OK) then mret (rc, None) else
  if iRead =? 0 then mret (SQLITE_OK, None) else
  '(rc, a) ← sqlite3WalReadFrame iRead nOut;
  mret (rc, if rc =? SQLITE_OK then Some a else None).

Lemma committed_prefix fs : committed fs `prefix_of` fs.
Proof.
  induction fs as [|f fs [l IH]]; [done|]. cbn [committed]. destruct (committed fs) as [|g l'] eqn:E.
  - destruct (f_size f =? 0); [by exists (f :: fs)|by exists fs].
  - exists l. by rewrite IH at 1.
Qed.

Lemma committed_app_commit fs f : f_size f ≠ 0 → committed (fs ++ [f]) = fs ++ [f].
Proof.
  intros Hf. induction fs as [|g fs IH]; cbn [committed app]; [by rewrite (proj2 (Z.eqb_neq _ _) Hf)|].
  rewrite IH. by destruct fs.
Qed.

Lemma committed_app_open fs gs : Forall (λ f, f_size f = 0) gs → committed (fs ++ gs) = committed fs.
Proof.
  intros Hg. assert (committed gs = []) as E.
  { induction Hg as [|g gs Hz _ IH]; [done|]. cbn [committed]. by rewrite IH, Hz. }
  induction fs as [|f fs IH]; [done|]. cbn [committed app]. by rewrite IH.
Qed.

Lemma page_of_snoc fs f pgno : page_of (fs ++ [f]) pgno = if decide (f_pgno f = pgno) then Some (f_data f) else page_of fs pgno.
Proof.
  unfold page_of. rewrite list.filter_app. unfold filter at 2. cbn [list_filter]. change (filter ?P []) with (@nil frame). case_decide.
  - by rewrite last_snoc.
  - by rewrite app_nil_r.
Qed.

(** The frame found is the one of the page. *)
Lemma is_last_page_of fs m pgno r : (m ≤ length fs)%nat → is_last (f_pgno <$> fs) 1 (Z.of_nat m) pgno r →
  match page_of (take m fs) pgno with
  | None => r = 0
  | Some d => ∃ j f, r = Z.of_nat (S j) ∧ (j < m)%nat ∧ fs !! j = Some f ∧ f_data f = d
  end.
Proof.
  intros Hm. revert r. induction m as [|m IH]; intros r Hl.
  { destruct Hl as [[-> _]|(j & _ & -> & Hle & _)]; [done|lia]. }
  destruct (lookup_lt_is_Some_2 fs m) as [f Hf]; [lia|]. rewrite (take_S_r _ _ _ Hf), page_of_snoc. case_decide as Ed.
  - exists m, f. split; [|split; [lia|done]]. assert ((f_pgno <$> fs) !! m = Some pgno) as Hg by (rewrite list_lookup_fmap, Hf; cbn; by rewrite Ed).
    destruct Hl as [[-> Hno]|(j & Hj & -> & Hle & Hmx)]; [exfalso; apply (Hno m); [done|lia]|].
    specialize (Hmx m Hg ltac:(lia)). lia.
  - assert (is_last (f_pgno <$> fs) 1 (Z.of_nat m) pgno r) as Hl'.
    { assert (∀ j, (f_pgno <$> fs) !! j = Some pgno → j ≠ m) as Hne.
      { intros j Hj ->. rewrite list_lookup_fmap, Hf in Hj. cbn in Hj. congruence. }
      destruct Hl as [[-> Hno]|(j & Hj & -> & Hle & Hmx)].
      - left. split; [done|]. intros j Hj ?. apply (Hno j Hj). lia.
      - right. exists j. specialize (Hne j Hj) as ?. repeat split; [done|lia|]. intros j' Hj' ?. apply Hmx; [done|lia]. }
    specialize (IH ltac:(lia) _ Hl'). destruct (page_of (take m fs) pgno); [|done].
    destruct IH as (j & g & -> & ? & ?). exists j, g. split; [done|]. split; [lia|done].
Qed.

(** The content of a frame in the file. *)
Lemma log_file_frame bw sz n salt fs tail j f : salt_ok salt → Forall (frame_ok sz) fs → fs !! j = Some f →
  take (length (f_data f)) (drop (Z.to_nat (frame_offset sz j) + 24) (log_file bw sz n salt fs ++ tail)) = f_data f ∧
  (Z.to_nat (frame_offset sz j) + 24 + length (f_data f) ≤ length (log_file bw sz n salt fs ++ tail))%nat.
Proof.
  intros Hs Hfs Hf. rewrite <- (take_drop_middle _ _ _ Hf). pose proof (lookup_lt_Some _ _ _ Hf) as Hj.
  assert (Forall (frame_ok sz) (take j fs)) as Hft by (by apply Forall_take).
  pose proof (log_file_length bw sz n salt (take j fs) Hs Hft) as Hl. rewrite length_take, Nat.min_l in Hl by lia.
  unfold log_file in *. rewrite log_bytes_app. cbn [log_bytes]. set (a := frame_hdr _ _ _ f).
  assert (length a = 24%nat) as Ha by (apply frame_hdr_length, Hs).
  rewrite !app_assoc, <- (app_assoc _ _ tail). set (pre := file_hdr _ _ _ _ ++ log_bytes _ _ _ (take j fs)) in *.
  replace (Z.to_nat (frame_offset sz j) + 24)%nat with (length (pre ++ a)) by (rewrite length_app; lia).
  rewrite <- (app_assoc (pre ++ a)), drop_app_length, take_app_length. split; [done|]. rewrite !length_app. lia.
Qed.

Lemma walPagesize_hdr_page_size sz h : page_size sz → h_szPage h = hdr_page_size sz → walPagesize h = sz.
Proof.
  intros Hs E. unfold walPagesize. rewrite E. clear E. pattern sz. apply (page_size_ind _ _ Hs). repeat constructor.
Qed.

Lemma read_page_ok bw sz n salt fs tail w m pgno : page_size sz → salt_ok salt → Forall (frame_ok sz) fs →
  walFile w = log_file bw sz n salt fs ++ tail → index_ok (wiPages w) (f_pgno <$> fs) → mxFrame (hdr w) = Z.of_nat m → (m ≤ length fs)%nat →
  (m ≠ 0%nat → h_szPage (hdr w) = hdr_page_size sz) → 0 < readLock w → events w = [] → 0 < pgno →
  read_page pgno sz w = Ret ((SQLITE_OK, page_of (take m fs) pgno), w).
Proof.
  intros Hsz Hs Hfs Hf Hix Hmx Hm Hhs Hr He Hp. unfold read_page.
  destruct (sqlite3WalFindFrame_ok (can_map (conf w) (mxFrame (hdr w))) (wiPages w) _ (readLock w) (Z.of_nat m) pgno Hix)
    as (r & Hr1 & Hl); [done|rewrite length_fmap; lia|done|].
  erewrite sm_bind_run; [|unfold sqlite3WalFindFrame, sm_gets; rewrite Hmx in *; by rewrite Hr1]. cbn [Z.eqb SQLITE_OK negb].
  pose proof (is_last_page_of fs m pgno r Hm Hl) as Hpo. destruct (page_of (take m fs) pgno) as [d|]; [|by subst r].
  destruct Hpo as (j & f & -> & Hj & Hfj & <-). rewrite (proj2 (Z.eqb_neq _ _)) by lia.
  pose proof (proj1 (list.Forall_forall _ _) Hfs f (list_elem_of_lookup_2 _ _ _ Hfj)) as Hfo. pose proof (fok_len _ _ Hfo) as Hfl.
  destruct (log_file_frame bw sz n salt fs tail j f Hs Hfs Hfj) as [Ht Hle]. destruct (page_size_spec _ Hsz) as ([Hs1 _] & _).
  pose proof (frame_offset_pos sz j ltac:(lia)) as Hop.
  unfold sqlite3WalReadFrame. erewrite sm_bind_run.
  2: { erewrite sm_bind_run; [|done]. rewrite (walPagesize_hdr_page_size sz) by (done || (apply Hhs; lia)). rewrite Z.ltb_irrefl.
       rewrite <- Hfl at 1. apply sqlite3OsRead_ok; [done|]. rewrite Hf.
       replace (Z.to_nat (walFrameOffset (Z.of_nat (S j)) sz + WAL_FRAME_HDRSIZE)) with (Z.to_nat (frame_offset sz j) + 24)%nat; [done|].
       unfold walFrameOffset, frame_offset, WAL_FRAME_HDRSIZE, WAL_HDRSIZE in *. lia. }
  cbn [Z.eqb SQLITE_OK]. rewrite Hf.
  replace (Z.to_nat (walFrameOffset (Z.of_nat (S j)) sz + WAL_FRAME_HDRSIZE)) with (Z.to_nat (frame_offset sz j) + 24)%nat; [by rewrite Ht|].
  unfold walFrameOffset, frame_offset, WAL_FRAME_HDRSIZE, WAL_HDRSIZE in *. lia.
Qed.

Lemma committed_take fs : committed fs = take (length (committed fs)) fs.
Proof. destruct (committed_prefix fs) as [l E]. rewrite E at 3. by rewrite take_app_length. Qed.

Lemma recovered_wal_fields be sz n h p w : let w' := recovered_wal be sz n h p w in
  hdr w' = init_hdr be h ∧ walFile w' = walFile w ∧ events w' = events w ∧ wiPages w' = p ∧
  shmHdr0 w' = hdr w' ∧ shmHdr1 w' = hdr w' ∧ nBackfill w' = 0 ∧ szPage w' = sz.
Proof. unfold recovered_wal. by generalize (init_hdr be h). Qed.

Lemma commit_state_fields be bw sz n salt fs : let h := init_hdr be (commit_state bw sz n salt fs) in
  mxFrame h = Z.of_nat (length (committed fs)) ∧ (length (committed fs) ≠ 0%nat → h_szPage h = hdr_page_size sz) ∧
  nPage h = default 0 (f_size <$> list.last (committed fs)) ∧ aSalt h = salt.
Proof.
  unfold init_hdr. generalize (init_cksum be (commit_state bw sz n salt fs)). intros c.
  unfold commit_state. destruct (list.last (committed fs)) as [f|] eqn:El; [done|]. apply last_None in El. by rewrite El.
Qed.

(** Recovery, then reading. *)
Lemma recover_read be bw sz n salt fs tail w : ready w → salt_ok salt → page_size sz → in_uw 32 n → Forall (frame_ok sz) fs →
  Z.of_nat (length fs) + HASHTABLE_NPAGE < 2 ^ 32 → walFile w = log_file bw sz n salt fs ++ tail →
  stops be sz (big bw) salt (log_cksum bw (hdr_cksum bw sz n salt) fs) tail → fs ≠ [] ∨ tail ≠ [] →
  ∃ w', walIndexRecover be w = Ret (SQLITE_OK, w') ∧ walFile w' = walFile w ∧
    mxFrame (hdr w') = Z.of_nat (length (committed fs)) ∧
    nPage (hdr w') = default 0 (f_size <$> list.last (committed fs)) ∧
    shmHdr0 w' = hdr w' ∧ shmHdr1 w' = hdr w' ∧ nBackfill w' = 0 ∧ aSalt (hdr w') = salt ∧ szPage w' = sz ∧
    ∀ pgno l, 0 < pgno → 0 < l →
      read_page pgno sz (set_readLock l w') = Ret ((SQLITE_OK, page_of (committed fs) pgno), set_readLock l w').
Proof.
  intros Hr Hs Hsz Hn Hfs Hbd Hf Hst Hne.
  destruct (walIndexRecover_ok be bw sz n salt fs tail w) as (p & Hrun & Hix); try done.
  destruct (recovered_wal_fields be sz n (commit_state bw sz n salt fs) p w) as (E0 & E5 & E6 & E7 & E8 & E9 & E10 & E11).
  destruct (commit_state_fields be bw sz n salt fs) as (E1 & E2 & E3 & E4). rewrite <- E0 in E1, E2, E3, E4.
  rewrite (ready_events _ Hr) in E6. eexists. split; [exact Hrun|]. clear Hrun E0. revert E1 E2 E3 E4 E5 E6 E7 E8 E9 E10 E11.
  generalize (recovered_wal be sz n (commit_state bw sz n salt fs) p w). intros w' E1 E2 E3 E4 E5 E6 E7 E8 E9 E10 E11.
  repeat (split; [done|]). intros pgno l Hp Hl.
  rewrite committed_take. apply (read_page_ok bw sz n salt fs tail); cbn; rewrite ?E5, ?E7; try done.
  apply (prefix_length _ _ (committed_prefix fs)).
Qed.

(** ** A file cut at any byte *)

(** The number of complete frames in [m] bytes. *)
Definition complete (sz : Z) (m : nat) : nat := Z.to_nat ((Z.of_nat m - WAL_HDRSIZE) / (sz + WAL_FRAME_HDRSIZE)).

Lemma log_file_cut bw sz n salt fs m : salt_ok salt → page_size sz → Forall (frame_ok sz) fs → (32 ≤ m)%nat →
  ∃ tail, take m (log_file bw sz n salt fs) = log_file bw sz n salt (take (complete sz m) fs) ++ tail ∧
    Z.of_nat (length tail) < sz + WAL_FRAME_HDRSIZE.
Proof.
  intros Hs Hsz Hfs Hm. destruct (page_size_spec _ Hsz) as ([Hs1 _] & _). set (j := complete sz m).
  assert (log_file bw sz n salt fs = log_file bw sz n salt (take j fs) ++
    log_bytes bw salt (log_cksum bw (hdr_cksum bw sz n salt) (take j fs)) (drop j fs)) as E.
  { rewrite <- (take_drop j fs) at 1. unfold log_file. by rewrite log_bytes_app, app_assoc. }
  assert (Forall (frame_ok sz) (take j fs)) as Ht by (by apply Forall_take).
  pose proof (log_file_length bw sz n salt (take j fs) Hs Ht) as Hl. rewrite length_take in Hl.
  pose proof (Z.div_mod (Z.of_nat m - WAL_HDRSIZE) (sz + WAL_FRAME_HDRSIZE)) as Hdm.
  pose proof (Z.mod_pos_bound (Z.of_nat m - WAL_HDRSIZE) (sz + WAL_FRAME_HDRSIZE)) as Hmod.
  assert (0 ≤ (Z.of_nat m - WAL_HDRSIZE) / (sz + WAL_FRAME_HDRSIZE)) as Hq by (apply Z.div_pos; unfold WAL_HDRSIZE, WAL_FRAME_HDRSIZE; lia).
  assert (Z.of_nat j = (Z.of_nat m - WAL_HDRSIZE) / (sz + WAL_FRAME_HDRSIZE)) as Hj by (unfold j, complete; lia).
  unfold frame_offset, WAL_HDRSIZE, WAL_FRAME_HDRSIZE in *. rewrite <- Hj in *.
  eexists. rewrite E, take_app. split.
  - rewrite (take_ge (log_file _ _ _ _ _)) by nia. done.
  - rewrite length_take. destruct (decide (j ≤ length fs)%nat); [rewrite Nat.min_l in Hl by lia; nia|].
    rewrite drop_ge by lia. simpl. lia.
Qed.

(** A file that ends within the header, or with it, has no complete frame. *)
Lemma cut_short bw sz n salt fs m w : salt_ok salt → page_size sz → Forall (frame_ok sz) fs →
  walFile w = take m (log_file bw sz n salt fs) → (length (walFile w) ≤ 32)%nat → take (complete sz m) fs = [].
Proof.
  intros Hs Hsz Hfs Hf Hle. destruct (page_size_spec _ Hsz) as ([Hs1 _] & _).
  rewrite Hf, length_take in Hle. destruct (decide (m ≤ 32)%nat) as [Hm|Hm].
  - assert (complete sz m = 0%nat) as ->; [|done]. unfold complete.
    destruct (decide (m = 32)%nat) as [->|Hne]; [done|].
    assert ((Z.of_nat m - WAL_HDRSIZE) / (sz + WAL_FRAME_HDRSIZE) < 0); [|lia].
    apply Z.div_lt_upper_bound; unfold WAL_HDRSIZE, WAL_FRAME_HDRSIZE; lia.
  - destruct fs as [|f fs]; [by destruct (complete sz m)|]. exfalso.
    pose proof (log_file_length bw sz n salt (f :: fs) Hs Hfs) as Hl.
    unfold frame_offset, WAL_HDRSIZE, WAL_FRAME_HDRSIZE in Hl. cbn [length] in Hl. nia.
Qed.

(** A file without anything after the header of the log is an empty log. *)
Lemma walIndexRecover_short be w : ready w → (length (walFile w) ≤ 32)%nat →
  ∃ w', walIndexRecover be w = Ret (SQLITE_OK, w') ∧ mxFrame (hdr w') = 0 ∧ nPage (hdr w') = 0.
Proof.
  intros Hr Hlen. set (h := set_cksum (0, 0) zero_hdr).
  exists (recovered_wal be (szPage w) (nCkpt w) h (wiPages w) w). split; [|split].
  2-3: rewrite (proj1 (recovered_wal_fields be (szPage w) (nCkpt w) h (wiPages w) w));
    unfold init_hdr; by generalize (init_cksum be h).
  unfold walIndexRecover.
  erewrite sm_bind_run; [|unfold sm_gets; destruct (ready_ckpt _ Hr) as [-> | ->]; done].
  erewrite sm_bind_run; [|unfold sm_gets; by rewrite (proj2 (Z.eqb_neq _ _) (ready_lock _ Hr))].
  erewrite sm_bind_run; [|done].
  erewrite sm_bind_run; [|by apply walLock_ok, Hr]. cbn [Z.eqb SQLITE_OK negb].
  erewrite sm_bind_run; [|done].
  erewrite sm_bind_run; [|unfold sqlite3OsFileSize, next_event, mbind, sm_bind; cbn; rewrite (ready_events _ Hr); done].
  cbn [Z.eqb SQLITE_OK negb]. change (walFile (set_hdr zero_hdr w)) with (walFile w).
  rewrite (proj2 (Z.ltb_ge _ _)) by (unfold WAL_HDRSIZE; lia).
  erewrite sm_bind_run; [|done]. cbn [Z.eqb SQLITE_OK]. erewrite sm_bind_run; [|done].
  change (hdr (set_hdr zero_hdr w)) with zero_hdr. fold h.
  rewrite <- (finish_recover be (szPage w) (nCkpt w) (wiPages w) w h zero_hdr zero_hdr zero_hdr);
    [by destruct w|split; [by left|split; [done|apply Forall_replicate; done]]|apply Hr|apply Hr].
Qed.

Lemma read_page_empty pgno sz l w : 0 < pgno → 0 < l → mxFrame (hdr w) = 0 →
  read_page pgno sz (set_readLock l w) = Ret ((SQLITE_OK, None), set_readLock l w).
Proof.
  intros Hp Hl Hm. unfold read_page. rewrite (sm_bind_run _ _ _ (SQLITE_OK, 0) (set_readLock l w)); [done|].
  unfold sqlite3WalFindFrame, sm_gets, WalIndex.sqlite3WalFindFrame. cbn [set_readLock hdr readLock]. rewrite Hm.
  rewrite (proj2 (Z.leb_le 0 l)) by lia. done.
Qed.

(** C11: Whatever byte of the log a crash cuts it at, its header included,
    recovery succeeds on every machine, and the pages read afterwards are those
    of the last commit whose frames are complete in what is left: none of them
    when the file ends within the header or before the first commit. *)
Theorem walIndexRecover_cut be bw sz n salt fs m w : ready w → salt_ok salt → page_size sz → in_uw 32 n → Forall (frame_ok sz) fs →
  Z.of_nat (length fs) + HASHTABLE_NPAGE < 2 ^ 32 → walFile w = take m (log_file bw sz n salt fs) →
  let cs := committed (take (complete sz m) fs) in
  ∃ w', walIndexRecover be w = Ret (SQLITE_OK, w') ∧ mxFrame (hdr w') = Z.of_nat (length cs) ∧
    nPage (hdr w') = default 0 (f_size <$> list.last cs) ∧
    ∀ pgno l, 0 < pgno → 0 < l →
      read_page pgno sz (set_readLock l w') = Ret ((SQLITE_OK, page_of cs pgno), set_readLock l w').
Proof.
  intros Hr Hs Hsz Hn Hfs Hbd Hf cs. destruct (decide (length (walFile w) ≤ 32)%nat) as [Hle|Hlen].
  - assert (take (complete sz m) fs = []) as E by by eapply cut_short.
    destruct (walIndexRecover_short be w Hr Hle) as (w' & R & Hm & Hnp). unfold cs. rewrite E. cbn [committed].
    exists w'. split_and!; [done..|]. intros pgno l Hp Hl. by apply read_page_empty.
  - destruct (log_file_cut bw sz n salt fs m Hs Hsz Hfs) as (tail & E & Ht); [rewrite Hf, length_take in Hlen; lia|].
    destruct (recover_read be bw sz n salt (take (complete sz m) fs) tail w) as (w' & R & _ & H1 & H2 & _ & _ & _ & _ & _ & H3); try done.
    + by apply Forall_take.
    + rewrite length_take. lia.
    + by rewrite Hf.
    + by left.
    + destruct (take (complete sz m) fs); [|by left]. right. intros ->. rewrite Hf, E, app_nil_r in Hlen.
      unfold log_file in Hlen. rewrite app_nil_r, file_hdr_length in Hlen by done. lia.
    + by exists w'.
Qed.

(** ** Transactions survive *)

Lemma list_frames_snoc isCommit nTruncate l pg :
  list_frames isCommit nTruncate (l ++ [pg]) = (page_frame 0 <$> l) ++ [page_frame (if isCommit then nTruncate else 0) pg].
Proof.
  induction l as [|x l IH]; [cbn; by rewrite andb_true_r|]. cbn [app list_frames]. rewrite IH, length_app, bool_decide_eq_false_2.
  - by rewrite andb_false_r.
  - simpl. lia.
Qed.

Lemma page_of_pad fs k f pgno : page_of ((fs ++ [f]) ++ replicate k f) pgno = page_of (fs ++ [f]) pgno.
Proof.
  induction k as [|k IH]; [by rewrite app_nil_r|]. rewrite replicate_S_end, app_assoc, page_of_snoc, IH, page_of_snoc.
  by destruct (decide _).
Qed.

(** What readers find after recovery: a transaction that was committed, or the
    last committed one before it. *)
Lemma committed_logged isCommit nTruncate pList pg k fs : list.last pList = Some pg → (isCommit = false → k = 0%nat) →
  isCommit = negb (nTruncate =? 0) →
  let gs := list_frames isCommit nTruncate pList ++ replicate k (page_frame nTruncate pg) in
  (list.last (committed (fs ++ gs)) = if isCommit then Some (page_frame nTruncate pg) else list.last (committed fs)) ∧
  ∀ pgno, page_of (committed (fs ++ gs)) pgno =
    page_of (if isCommit then fs ++ list_frames isCommit nTruncate pList else committed fs) pgno.
Proof.
  intros Hl Hk Ht gs. apply last_Some in Hl as [l ->]. unfold gs. rewrite list_frames_snoc. destruct isCommit.
  - assert (nTruncate ≠ 0) as Hnz by (intros ->; done).
    assert (committed (fs ++ ((page_frame 0 <$> l) ++ [page_frame nTruncate pg]) ++ replicate k (page_frame nTruncate pg)) =
      (fs ++ (page_frame 0 <$> l)) ++ [page_frame nTruncate pg] ++ replicate k (page_frame nTruncate pg)) as E.
    { rewrite (app_assoc fs), (app_assoc fs). destruct k as [|k].
      - rewrite !app_nil_r. by apply committed_app_commit.
      - rewrite replicate_S_end. rewrite !app_assoc. by apply committed_app_commit. }
    rewrite E. split; [|intros pgno; rewrite app_assoc, page_of_pad, <- app_assoc; done].
    destruct k as [|k]; [by rewrite app_nil_r, last_snoc|]. by rewrite replicate_S_end, !app_assoc, last_snoc.
  - rewrite (Hk eq_refl). cbn [replicate]. rewrite app_nil_r, committed_app_open; [done|].
    apply Forall_app_2; [|by repeat constructor]. apply list.Forall_fmap. by apply list.Forall_true.
Qed.

(** The log of a writer: one with frames, or one about to be started by a
    machine with byte order [be]. *)
Inductive log_open (be bw : bool) (sz n : Z) (salt : list Z) (w : Wal) : list frame → list Z → Prop :=
  | log_started fs tail : fs ≠ [] → writing bw sz n salt w fs tail → knows w fs → szPage w = sz →
      log_open be bw sz n salt w fs tail
  | log_new : mxFrame (hdr w) = 0 → bw = be → n = nCkpt w → salt = new_salt w →
      log_open be bw sz n salt w [] (drop 32 (walFile w)).

Lemma sqlite3WalFrames_run be bw sz n salt w fs tail pList nTruncate isCommit sync_flags :
  log_open be bw sz n salt w fs tail → salt_ok salt → page_size sz → can_write sync_flags w →
  pList ≠ [] → Forall (WalTxn.page_ok sz) pList → 0 ≤ nTruncate < 2 ^ 32 → isCommit = negb (nTruncate =? 0) →
  Z.of_nat (length fs + length pList) + Z.max 0 (sectorSize (conf w)) + HASHTABLE_NPAGE < 2 ^ 32 →
  ∃ w' pg k tail', list.last pList = Some pg ∧ (isCommit = false → k = 0%nat) ∧ (tail = [] → tail' = []) ∧
    Z.of_nat k ≤ Z.max 0 (sectorSize (conf w)) ∧
    let gs := list_frames isCommit nTruncate pList ++ replicate k (page_frame nTruncate pg) in
    sqlite3WalFrames be sz pList nTruncate isCommit sync_flags w = Ret (SQLITE_OK, w') ∧
    log_open be bw sz n salt w' (fs ++ gs) tail' ∧ Forall (frame_ok sz) (fs ++ gs) ∧
    walFile w' = log_file bw sz n salt (fs ++ gs) ++ tail'.
Proof.
  intros Ho Hs Hsz Hc Hne Hl Ht Hcm Hbd.
  assert (∃ w1, (iFrame ← sm_get (λ w, mxFrame (hdr w));
      rc ← (if iFrame =? 0 then write_log_hdr be sz sync_flags else mret SQLITE_OK);
      if negb (rc =? SQLITE_OK) then mret rc else log_frames be sz pList nTruncate isCommit sync_flags iFrame) w =
      log_frames be sz pList nTruncate isCommit sync_flags (Z.of_nat (length fs)) w1 ∧
    writing bw sz n salt w1 fs tail ∧ knows w1 fs ∧ szPage w1 = sz ∧ can_write sync_flags w1 ∧ sectorSize (conf w1) = sectorSize (conf w))
    as (w1 & R1 & W1 & K1 & S1 & C1 & E1).
  { destruct Ho as [fs tail Hfs Hw Hk Hz|Hmx -> -> ->].
    - exists w. split; [|done]. erewrite sm_bind_run; [|done]. rewrite (kn_count _ _ Hk). destruct fs as [|f fs]; [done|]. done.
    - destruct (write_log_hdr_ok be sz sync_flags w) as (w1 & R & W & ? & ? & E1 & E2 & E3 & E4 & E5 & E6 & _); [apply Hc|done|].
      exists w1. split; [|split; [done|]].
      + erewrite sm_bind_run; [|done]. rewrite Hmx. cbn [Z.eqb]. by erewrite sm_bind_run; [|exact R].
      + split; [split; [by rewrite E6|]|].
        * exists []. split; [apply index_ok_nil|]. done.
        * split; [done|]. split; [|by rewrite E3]. destruct Hc. by split; rewrite ?E1, ?E2, ?E3, ?E4. }
  destruct (log_frames_ok bw sz n salt Hsz Hs be nTruncate isCommit sync_flags pList w1 fs tail) as (w' & pg & k & tail' & H1 & H2 & H3 & Hk & H4);
    try done; [by rewrite E1|]. rewrite E1 in Hk. exists w', pg, k, tail'. do 4 (split; [done|]). cbn zeta in *.
  destruct H4 as (R4 & W4 & K4 & L4). split; [|split].
  - unfold sqlite3WalFrames. erewrite sm_bind_run; [|unfold sm_lift, sm_gets; by destruct pList].
    erewrite sm_bind_run; [|unfold sm_gets; by rewrite (proj2 (Z.eqb_neq _ _) (cw_lock _ _ Hc))].
    erewrite sm_bind_run; [|unfold sm_lift, sm_gets; by rewrite <- Hcm, Bool.eqb_reflx].
    erewrite sm_bind_run; [|apply walRestartLog_reader, Hc]. cbn [Z.eqb SQLITE_OK negb]. by rewrite R1.
  - constructor; try done; [|by rewrite (lg_szPage _ _ _ _ _ L4)]. intros E. apply (f_equal length) in E.
    rewrite !length_app, list_frames_length in E. destruct pList; [done|]. simpl in E. lia.
  - split; [apply W4|apply W4].
Qed.

(** A transaction that [sqlite3WalFrames] commits survives a crash: a
    connection on any machine that finds the file and recovers reads exactly the
    pages of the transaction, and of earlier ones for the others; frames written
    without a commit are not seen. The log stays ready for the next call, and
    what follows the frames is empty if it was. *)
Theorem sqlite3WalFrames_durable be bw sz n salt w fs tail pList nTruncate isCommit sync_flags :
  log_open be bw sz n salt w fs tail → salt_ok salt → page_size sz → in_uw 32 n → can_write sync_flags w →
  pList ≠ [] → Forall (WalTxn.page_ok sz) pList → 0 ≤ nTruncate < 2 ^ 32 → isCommit = negb (nTruncate =? 0) →
  Z.of_nat (length fs + length pList) + Z.max 0 (sectorSize (conf w)) + HASHTABLE_NPAGE < 2 ^ 32 →
  ∃ w' gs tail', sqlite3WalFrames be sz pList nTruncate isCommit sync_flags w = Ret (SQLITE_OK, w') ∧
    log_open be bw sz n salt w' (fs ++ gs) tail' ∧ (tail = [] → tail' = []) ∧
    ∀ br wc, ready wc → walFile wc = walFile w' →
      stops br sz (big bw) salt (log_cksum bw (hdr_cksum bw sz n salt) (fs ++ gs)) tail' →
      ∃ wr, walIndexRecover br wc = Ret (SQLITE_OK, wr) ∧
        nPage (hdr wr) = (if isCommit then nTruncate else default 0 (f_size <$> list.last (committed fs))) ∧
        ∀ pgno l, 0 < pgno → 0 < l → read_page pgno sz (set_readLock l wr) =
          Ret ((SQLITE_OK, page_of (if isCommit then fs ++ list_frames isCommit nTruncate pList else committed fs) pgno), set_readLock l wr).
Proof.
  intros Ho Hs Hsz Hn Hc Hne Hl Ht Hcm Hbd.
  destruct (sqlite3WalFrames_run be bw sz n salt w fs tail pList nTruncate isCommit sync_flags) as (w' & pg & k & tail' & H1 & H2 & H3 & Hk & R & O & F & E);
    try done. set (gs := list_frames isCommit nTruncate pList ++ replicate k (page_frame nTruncate pg)) in *.
  exists w', gs, tail'. do 3 (split; [done|]). intros br wc Hr Hf Hst.
  destruct (committed_logged isCommit nTruncate pList pg k fs H1 H2 Hcm) as [L1 L2]. fold gs in L1, L2.
  destruct (recover_read br bw sz n salt (fs ++ gs) tail' wc) as (wr & Rr & _ & _ & Hnp & _ & _ & _ & _ & _ & Hrd); try done.
  - unfold gs. rewrite !length_app, list_frames_length, length_replicate. lia.
  - congruence.
  - left. intros E0. apply (f_equal length) in E0. unfold gs in E0. rewrite !length_app, list_frames_length in E0.
    destruct pList; [done|]. simpl in E0. lia.
  - exists wr. split; [done|]. split; [rewrite Hnp, L1; by destruct isCommit|]. intros pgno l Hp Hlk. by rewrite Hrd, L2.
Qed.

(** ** A connection to an empty log, for the witnesses *)

Definition demo_config : config := Config 0 1 0 (-1) 512 (λ _, true).
Definition demo_wal (file : list Z) : Wal :=
  MkWal 0 0 zero_hdr 1 1 0 0 0 0 [zero_page 0] zero_hdr zero_hdr 0 [0; READMARK_NOT_USED; READMARK_NOT_USED; READMARK_NOT_USED; READMARK_NOT_USED]
    file [] [] demo_config.
Definition demo_page : PgHdr := MkPg 2 (replicate 512 7).

Lemma demo_ready file : ready (demo_wal file).
Proof. split; [done|done|done|done|by left]. Qed.

Lemma demo_page_ok : WalTxn.page_ok 512 demo_page.
Proof. split; [done|done|apply Forall_replicate; done]. Qed.

Lemma demo_salt : salt_ok (replicate 8 0).
Proof. split; [done|apply Forall_replicate; done]. Qed.

Lemma page_size_512 : page_size 512.
Proof. by left. Qed.

Lemma sqlite3WalFrames_durable_witness :
  ∃ w' wr, sqlite3WalFrames false 512 [demo_page] 2 true 0 (demo_wal []) = Ret (SQLITE_OK, w') ∧
    walIndexRecover true (demo_wal (walFile w')) = Ret (SQLITE_OK, wr) ∧ nPage (hdr wr) = 2 ∧
    read_page 2 512 (set_readLock 1 wr) = Ret ((SQLITE_OK, Some (replicate 512 7)), set_readLock 1 wr).
Proof.
  destruct (sqlite3WalFrames_durable false false 512 0 (replicate 8 0) (demo_wal []) [] [] [demo_page] 2 true 0) as (w' & gs & tail' & R & _ & T & D);
    [by apply (log_new false false 512 0 (replicate 8 0) (demo_wal []))|apply demo_salt|apply page_size_512|done|split; done || by left|done|
     constructor; [apply demo_page_ok|constructor]|done|done|done|].
  destruct (D true (demo_wal (walFile w'))) as (wr & Rr & Hn & Hrd); [apply demo_ready|done|left; rewrite T by done; done|].
  exists w', wr. split; [done|]. split; [done|]. split; [done|]. by rewrite Hrd.
Defined.

Lemma walIndexRecover_cut_witness :
  ∃ w', walIndexRecover true (demo_wal (take 600 (log_file false 512 0 (replicate 8 0) [demo_frame; demo_frame]))) = Ret (SQLITE_OK, w') ∧
    mxFrame (hdr w') = 1 ∧ read_page 7 512 (set_readLock 1 w') = Ret ((SQLITE_OK, Some (replicate 512 3)), set_readLock 1 w').
Proof.
  destruct (walIndexRecover_cut true false 512 0 (replicate 8 0) [demo_frame; demo_frame] 600
    (demo_wal (take 600 (log_file false 512 0 (replicate 8 0) [demo_frame; demo_frame])))) as (w' & R & Hm & _ & Hrd);
    [apply demo_ready|apply demo_salt|apply page_size_512|done|do 2 (constructor; [apply demo_frame_ok|]); constructor|done|done|].
  exists w'. split; [exact R|]. split; [exact Hm|]. apply (Hrd 7 1); lia.
Defined.
