(* ===== verification/WalCrash.v ===== *)
(** * Failing writes to the write-ahead log

    [sqlite3WalFrames] when the operating system fails at any call, after any
    part of a write: what is in the file then, and that a transaction is in the
    log as a whole or not at all. *)

From S2P Require Import Prelude Varint WalIndex WalFrame Wal WalTxn WalDurable.
#[local] Open Scope Z_scope.
#[local] Open Scope c_scope.
#[local] Open Scope list_scope.

(** ** Calls of the operating system with any result *)

(** Only the file, the running checksum and the events change. *)
Definition io_wrote (w w' : Wal) : Prop := ∃ c f es, w' = set_hdr (set_cksum c (hdr w)) (set_walFile f (set_events es w)).

Lemma io_wrote_refl w : io_wrote w w.
Proof. exists (aFrameCksum (hdr w)), (walFile w), (events w). destruct w as [? ? h]. by destruct h. Qed.

Lemma io_wrote_trans w1 w2 w3 : io_wrote w1 w2 → io_wrote w2 w3 → io_wrote w1 w3.
Proof. intros (c & f & e & ->) (c' & f' & e' & ->). by exists c', f', e'. Qed.

Lemma io_wrote_file w f es : io_wrote w (set_walFile f (set_events es w)).
Proof. exists (aFrameCksum (hdr w)), f, es. destruct w as [? ? h]. by destruct h. Qed.

Lemma io_wrote_events w es : io_wrote w (set_events es w).
Proof. exists (aFrameCksum (hdr w)), (walFile w), es. destruct w as [? ? h]. by destruct h. Qed.

Lemma next_event_any w : ∃ e es, next_event w = Ret (e, set_events es w).
Proof.
  unfold next_event. destruct (events w) as [|e es] eqn:E; [|by exists e, es]. exists (SQLITE_OK, 0), []. by rewrite <- E; destruct w.
Qed.

Lemma sqlite3OsSync_any w : ∃ rc es, sqlite3OsSync w = Ret (rc, set_events es w).
Proof.
  destruct (next_event_any w) as ([rc k] & es & E). exists rc, es. unfold sqlite3OsSync. by erewrite sm_bind_run; [|exact E].
Qed.

(** A write at the end of [pre], by the result code. *)
Definition written (pre a tail : list Z) (rc : Z) (f : list Z) : Prop :=
  (∃ tail', f = pre ++ tail') ∧ (rc = SQLITE_OK → f = pre ++ a ++ drop (length a) tail).

Lemma sqlite3OsWrite_any w a pre tail iOffset : walFile w = pre ++ tail → Z.to_nat iOffset = length pre →
  ∃ rc f es, sqlite3OsWrite a iOffset w = Ret (rc, set_walFile f (set_events es w)) ∧ written pre a tail rc f.
Proof.
  intros Hf Ho. destruct (next_event_any w) as ([rc k] & es & E). set (a' := if rc =? SQLITE_OK then a else take (Z.to_nat k) a).
  exists rc, (pre ++ a' ++ drop (length a') tail), es. split.
  - unfold sqlite3OsWrite. erewrite sm_bind_run; [|exact E]. cbn beta iota. fold a'. erewrite sm_bind_run; [|done].
    change (walFile (set_events es w)) with (walFile w). by rewrite Hf, Ho, write_at_app.
  - split; [by eexists|]. unfold a'. by intros ->.
Qed.

Lemma walWriteToLog_any p w pre tail a : walFile w = pre ++ tail → Z.of_nat (length a) < 2 ^ 31 → iSyncPoint p = 0 ∨ syncFlags p .& 3 ≠ 0 →
  ∃ rc f es, walWriteToLog p a (Z.of_nat (length pre)) w = Ret (rc, set_walFile f (set_events es w)) ∧ written pre a tail rc f.
Proof.
  intros Hf Ha Hp. unfold walWriteToLog. destruct (_ && _) eqn:Ec; [|apply sqlite3OsWrite_any; [done|lia]].
  b2p. destruct Hp as [Hp|Hp]; [lia|]. rewrite sw_small by (unfold in_sw; lia).
  set (k := iSyncPoint p - Z.of_nat (length pre)). assert (length (take (Z.to_nat k) a) = Z.to_nat k) as Hk by (rewrite length_take; lia).
  destruct (sqlite3OsWrite_any w (take (Z.to_nat k) a) pre tail (Z.of_nat (length pre)) Hf ltac:(lia)) as (rc & f & es & E & Hw).
  destruct (Z.eqb_spec rc SQLITE_OK) as [->|Hrc].
  2: { exists rc, f, es. erewrite sm_bind_run; [|exact E]. rewrite (proj2 (Z.eqb_neq _ _) Hrc). split; [done|]. by split; [apply Hw|]. }
  destruct Hw as [_ Hw]. specialize (Hw eq_refl). rewrite Hk in Hw.
  destruct (sqlite3OsSync_any (set_walFile f (set_events es w))) as (rc2 & es2 & E2).
  assert (∀ m : sm Wal Z, (rc ← sqlite3OsWrite (take (Z.to_nat k) a) (Z.of_nat (length pre));
    if negb (rc =? SQLITE_OK) then mret rc else _ ← sm_lift (c_assert (negb (syncFlags p .& 3 =? 0)));
    rc ← sqlite3OsSync; if (Z.of_nat (length a) - k =? 0) || negb (rc =? SQLITE_OK) then mret rc else m) w =
    if (Z.of_nat (length a) - k =? 0) || negb (rc2 =? SQLITE_OK) then Ret (rc2, set_walFile f (set_events es2 w))
    else m (set_walFile f (set_events es2 w))) as Hrun.
  { intros m. erewrite sm_bind_run; [|exact E]. cbn [Z.eqb SQLITE_OK negb].
    erewrite sm_bind_run; [|unfold sm_lift, sm_gets; by rewrite (proj2 (Z.eqb_neq _ _) Hp)].
    erewrite sm_bind_run; [|exact E2]. by destruct (_ || _). }
  rewrite Hrun. destruct (Z.eqb_spec (Z.of_nat (length a) - k) 0) as [Ek|Ek]; cbn [orb].
  { exists rc2, f, es2. split; [done|]. split; [by eexists|]. intros _. rewrite Hw, take_ge by lia. by replace (Z.to_nat k) with (length a) by lia. }
  destruct (Z.eqb_spec rc2 SQLITE_OK) as [->|Hrc2]; cbn [negb]; [|exists rc2, f, es2; split; [done|]; by split; [eexists|]].
  destruct (sqlite3OsWrite_any (set_walFile f (set_events es2 w)) (drop (Z.to_nat k) a) (pre ++ take (Z.to_nat k) a) (drop (Z.to_nat k) tail)
    (Z.of_nat (length pre) + k)) as (rc3 & f3 & es3 & E3 & [t3 Hf3] & Hok); [by cbn; rewrite Hw, <- app_assoc|rewrite length_app; lia|].
  exists rc3, f3, es3. split; [done|]. split; [exists (take (Z.to_nat k) a ++ t3); by rewrite Hf3, app_assoc|].
  intros Hr. rewrite (Hok Hr), <- app_assoc, (app_assoc (take _ _)), take_drop, drop_drop, length_drop.
  by replace (Z.to_nat k + (length a - Z.to_nat k))%nat with (length a) by lia.
Qed.

(** Running the first operation of a sequence, for some result. *)
Lemma run_then {A B} (m : sm Wal A) (k : A → sm Wal B) w a w1 (P : B → Wal → Prop) : m w = Ret (a, w1) →
  (∃ b w', k a w1 = Ret (b, w') ∧ P b w') → ∃ b w', (m ≫= k) w = Ret (b, w') ∧ P b w'.
Proof. intros E (b & w' & Hk & HP). exists b, w'. split; [|done]. by erewrite sm_bind_run. Qed.

(** ** Frames *)

Section log.
Context (bw : bool) (sz n : Z) (salt : list Z).
Hypothesis (Hsz : page_size sz) (Hsalt : salt_ok salt).
#[local] Abbreviation writing := (writing bw sz n salt).
#[local] Abbreviation log_file := (log_file bw sz n salt).

Lemma walWriteOneFrame_any be p w fs tail pg size : writing w fs tail → frame_ok sz (page_frame size pg) →
  iSyncPoint p = 0 ∨ syncFlags p .& 3 ≠ 0 →
  ∃ rc w', walWriteOneFrame be p pg size (frame_offset sz (length fs)) w = Ret (rc, w') ∧ io_wrote w w' ∧
    (∃ tail', walFile w' = log_file fs ++ tail') ∧ (rc = SQLITE_OK → ∃ tail', writing w' (fs ++ [page_frame size pg]) tail').
Proof.
  intros Hw Hf Hp. destruct (page_size_spec _ Hsz) as ([Hs1 Hs2] & _). unfold SQLITE_MAX_PAGE_SIZE in *.
  assert (order (hdr w) = bw) as Ho by (unfold order; rewrite (wr_order _ _ _ _ _ _ _ Hw); by destruct bw).
  assert (bigEndCksum (hdr w) = 0 ∨ bigEndCksum (hdr w) = 1) as Hb by (rewrite (wr_order _ _ _ _ _ _ _ Hw); destruct bw; auto).
  pose proof (fok_len _ _ Hf) as Hfl. cbn [f_data page_frame] in Hfl.
  unfold walWriteOneFrame. set (c := log_cksum bw (hdr_cksum bw sz n salt) fs).
  assert (walEncodeFrame be (hdr w) (pg_no pg) size (pg_data pg) =
    Ret (frame_hdr bw salt c (page_frame size pg), set_cksum (frame_cksum bw c (page_frame size pg)) (hdr w))) as Henc.
  { pose proof (walEncodeFrame_spec be (hdr w) sz _ Hb Hsz Hf) as E. rewrite Ho, (wr_salt _ _ _ _ _ _ _ Hw), (wr_cksum _ _ _ _ _ _ _ Hw) in E. exact E. }
  set (a := frame_hdr bw salt c (page_frame size pg)) in *.
  assert (length a = 24%nat) as Hal by (apply frame_hdr_length, Hsalt).
  set (pre := log_file fs). pose proof (log_file_length bw sz n salt fs Hsalt (wr_frames _ _ _ _ _ _ _ Hw)) as Hpl. fold pre in Hpl.
  set (h1 := set_cksum (frame_cksum bw c (page_frame size pg)) (hdr w)) in *.
  destruct (walWriteToLog_any p (set_hdr h1 w) pre tail a) as (rc1 & f1 & es1 & R1 & [T1 W1]); [apply Hw|lia|done|].
  assert ((h ← sm_get hdr; '(aFrame, h) ← sm_lift (walEncodeFrame be h (pg_no pg) size (pg_data pg)); _ ← sm_mod (set_hdr h);
    rc ← walWriteToLog p aFrame (frame_offset sz (length fs)); if negb (rc =? SQLITE_OK) then mret rc else
    walWriteToLog p (pg_data pg) (frame_offset sz (length fs) + Z.of_nat (length aFrame))) w =
    if rc1 =? SQLITE_OK then walWriteToLog p (pg_data pg) (Z.of_nat (length (pre ++ a))) (set_walFile f1 (set_events es1 (set_hdr h1 w)))
    else Ret (rc1, set_walFile f1 (set_events es1 (set_hdr h1 w)))) as Hrun.
  { erewrite sm_bind_run; [|done]. erewrite sm_bind_run; [|unfold sm_lift, sm_gets; by rewrite Henc].
    cbn beta iota. erewrite sm_bind_run; [|done]. rewrite <- Hpl. erewrite sm_bind_run; [|exact R1]. rewrite length_app, Nat2Z.inj_add.
    by destruct (rc1 =? SQLITE_OK). }
  rewrite Hrun. clear Hrun R1. destruct (Z.eqb_spec rc1 SQLITE_OK) as [->|Hrc].
  2: { exists rc1, (set_walFile f1 (set_events es1 (set_hdr h1 w))). split; [done|]. split; [by eexists _, _, _|]. by split. }
  specialize (W1 eq_refl). rewrite Hal in W1.
  destruct (walWriteToLog_any p (set_walFile f1 (set_events es1 (set_hdr h1 w))) (pre ++ a) (drop 24 tail) (pg_data pg))
    as (rc2 & f2 & es2 & R2 & [[t2 T2] W2]); [by cbn; rewrite W1, <- app_assoc|lia|done|].
  rewrite R2. exists rc2, (set_walFile f2 (set_events es2 (set_hdr h1 w))). split; [done|]. split; [by eexists _, _, _|].
  split; [exists (a ++ t2); cbn; by rewrite T2, <- app_assoc|]. intros Hok. specialize (W2 Hok). eexists.
  split; [|apply Forall_app_2; [apply Hw|by constructor]|apply Hw|apply Hw|by rewrite log_cksum_snoc].
  change (walFile (set_walFile ?x _)) with x. rewrite W2, log_file_snoc. fold pre c a. cbn [page_frame f_data]. by rewrite <- !app_assoc.
Qed.

Lemma write_frames_any be nTruncate sync_flags isCommit pList : ∀ w fs tail, writing w fs tail →
  Forall (WalTxn.page_ok sz) pList → 0 ≤ nTruncate < 2 ^ 32 →
  ∃ rc i o w', write_frames be sz nTruncate sync_flags isCommit pList (Z.of_nat (length fs)) (frame_offset sz (length fs)) w = Ret ((rc, i, o), w') ∧
    io_wrote w w' ∧
    (rc = SQLITE_OK → i = Z.of_nat (length fs + length pList) ∧ o = frame_offset sz (length fs + length pList) ∧
       ∃ tail', writing w' (fs ++ list_frames isCommit nTruncate pList) tail') ∧
    (rc ≠ SQLITE_OK → ∃ j tail', (j < length pList)%nat ∧ walFile w' = log_file (fs ++ take j (list_frames isCommit nTruncate pList)) ++ tail').
Proof.
  induction pList as [|p l IH]; intros w fs tail Hw Hl Ht.
  { exists SQLITE_OK, (Z.of_nat (length fs)), (frame_offset sz (length fs)), w. split; [done|]. split; [apply io_wrote_refl|]. split; [|done].
    intros _. cbn [length list_frames]. rewrite Nat.add_0_r, app_nil_r. split; [done|]. split; [done|]. by exists tail. }
  apply list.Forall_cons in Hl as [Hp Hl]. cbn [list_frames length].
  set (size := if isCommit && bool_decide (length l = 0%nat) then nTruncate else 0).
  destruct (walWriteOneFrame_any be (MkWriter 0 sync_flags) w fs tail p size) as (rc1 & w1 & R1 & O1 & [t1 T1] & W1);
    [done|apply page_frame_ok; [done|unfold size; case_match; lia]|by left|].
  assert (write_frames be sz nTruncate sync_flags isCommit (p :: l) (Z.of_nat (length fs)) (frame_offset sz (length fs)) w =
    if rc1 =? SQLITE_OK then
      write_frames be sz nTruncate sync_flags isCommit l (Z.of_nat (length fs) + 1) (frame_offset sz (S (length fs))) w1
    else Ret ((rc1, Z.of_nat (length fs) + 1, frame_offset sz (length fs)), w1)) as Hrun.
  { cbn [write_frames]. assert (frame_offset sz (length fs) = walFrameOffset (Z.of_nat (length fs) + 1) sz) as Eo
      by (unfold frame_offset, walFrameOffset; lia).
    erewrite sm_bind_run; [|unfold sm_lift, sm_gets; by rewrite Eo, Z.eqb_refl].
    erewrite sm_bind_run; [|exact R1]. rewrite frame_offset_S. by destruct (rc1 =? SQLITE_OK). }
  rewrite Hrun. clear Hrun. destruct (Z.eqb_spec rc1 SQLITE_OK) as [->|Hrc].
  2: { exists rc1, (Z.of_nat (length fs) + 1), (frame_offset sz (length fs)), w1. split; [done|]. split; [done|]. split; [done|].
       intros _. exists 0%nat, t1. split; [lia|]. by rewrite take_0, app_nil_r. }
  destruct (W1 eq_refl) as [t2 W2]. assert (length (fs ++ [page_frame size p]) = S (length fs)) as El by (rewrite length_app; simpl; lia).
  destruct (IH w1 _ t2 W2 Hl Ht) as (rc & i & o & w' & R & O & Hok & Hno). rewrite El in *.
  replace (Z.of_nat (length fs) + 1) with (Z.of_nat (S (length fs))) by lia. exists rc, i, o, w'. split; [done|].
  split; [by eapply io_wrote_trans|]. split.
  - intros E. destruct (Hok E) as (-> & -> & t3 & W3). rewrite <- app_assoc in W3. do 2 (split; [f_equal; lia|]). by exists t3.
  - intros E. destruct (Hno E) as (j & t3 & Hj & W3). rewrite <- app_assoc in W3. exists (S j), t3. split; [lia|done].
Qed.

Lemma pad_frames_any be p pg nTruncate : WalTxn.page_ok sz pg → 0 ≤ nTruncate < 2 ^ 32 → syncFlags p .& 3 ≠ 0 →
  ∀ fuel w fs tail m, writing w fs tail → iSyncPoint p - frame_offset sz (length fs) ≤ Z.of_nat fuel →
  ∃ rc k w', pad_frames be fuel sz nTruncate p pg (frame_offset sz (length fs)) m w = Ret ((rc, m + k)%nat, w') ∧ io_wrote w w' ∧
    Z.of_nat k ≤ Z.max 0 (iSyncPoint p - frame_offset sz (length fs)) ∧
    (∃ tail', walFile w' = log_file (fs ++ replicate k (page_frame nTruncate pg)) ++ tail') ∧
    (rc = SQLITE_OK → ∃ tail', writing w' (fs ++ replicate k (page_frame nTruncate pg)) tail').
Proof.
  intros Hpg Ht Hsf. destruct (page_size_spec _ Hsz) as ([Hs1 Hs2] & _).
  induction fuel as [|fuel IH]; intros w fs tail m Hw Hfu; cbn [pad_frames];
    destruct (Z.ltb_spec (frame_offset sz (length fs)) (iSyncPoint p)); try lia;
    try (exists SQLITE_OK, 0%nat, w; rewrite Nat.add_0_r, app_nil_r; split; [done|]; split; [apply io_wrote_refl|];
         split; [lia|]; split; [by exists tail; apply Hw|by exists tail]).
  destruct (walWriteOneFrame_any be p w fs tail pg nTruncate) as (rc1 & w1 & R1 & O1 & [t1 T1] & W1); [done|by apply page_frame_ok|by right|].
  assert (S (length fs) = length (fs ++ [page_frame nTruncate pg])) as El by (rewrite length_app; simpl; lia).
  assert ((rc ← walWriteOneFrame be p pg nTruncate (frame_offset sz (length fs)); if negb (rc =? SQLITE_OK) then mret (rc, m) else
    pad_frames be fuel sz nTruncate p pg (frame_offset sz (length fs) + (sz + WAL_FRAME_HDRSIZE)) (S m)) w =
    if rc1 =? SQLITE_OK then pad_frames be fuel sz nTruncate p pg (frame_offset sz (S (length fs))) (S m) w1 else Ret ((rc1, m), w1)) as ->.
  { erewrite sm_bind_run; [|exact R1]. rewrite frame_offset_S. by destruct (rc1 =? SQLITE_OK). }
  destruct (Z.eqb_spec rc1 SQLITE_OK) as [->|Hrc].
  2: { exists rc1, 0%nat, w1. rewrite Nat.add_0_r, app_nil_r. split; [done|]. split; [done|]. split; [lia|]. split; [by exists t1|done]. }
  destruct (W1 eq_refl) as [t2 W2].
  destruct (IH w1 _ t2 (S m) W2) as (rc & k & w' & R & O & Hk & [t3 T3] & Hok).
  { rewrite <- El, <- frame_offset_S. unfold WAL_FRAME_HDRSIZE. lia. }
  rewrite <- El in *. rewrite <- app_assoc in *. exists rc, (S k), w'. split; [rewrite R; do 3 f_equal; lia|]. split; [by eapply io_wrote_trans|].
  split; [rewrite <- frame_offset_S in Hk; unfold WAL_FRAME_HDRSIZE in Hk; lia|]. split; [by exists t3|done].
Qed.

Lemma sync_frames_any be isCommit nTruncate sync_flags pg w fs tail : WalTxn.page_ok sz pg → 0 ≤ nTruncate < 2 ^ 32 → writing w fs tail →
  padToSectorBoundary (conf w) = 0 ∨ (sync_flags .& 3 ≠ 0 ∧ 0 < sectorSize (conf w)) →
  ∃ rc k ret w', sync_frames be isCommit sz nTruncate sync_flags pg (frame_offset sz (length fs)) w = Ret ((rc, k, ret), w') ∧
    io_wrote w w' ∧ Z.of_nat k ≤ Z.max 0 (sectorSize (conf w)) ∧ (isCommit = false → k = 0%nat) ∧ (ret = true → rc ≠ SQLITE_OK) ∧
    (∃ tail', walFile w' = log_file (fs ++ replicate k (page_frame nTruncate pg)) ++ tail') ∧
    (ret = false → ∃ tail', writing w' (fs ++ replicate k (page_frame nTruncate pg)) tail').
Proof.
  intros Hpg Ht Hw Hc. unfold sync_frames.
  assert (∀ rc es, ∃ rc' k ret w', Ret ((rc, 0%nat, false), set_events es w) = Ret ((rc', k, ret), w') ∧
    io_wrote w w' ∧ Z.of_nat k ≤ Z.max 0 (sectorSize (conf w)) ∧ (isCommit = false → k = 0%nat) ∧ (ret = true → rc' ≠ SQLITE_OK) ∧
    (∃ tail', walFile w' = log_file (fs ++ replicate k (page_frame nTruncate pg)) ++ tail') ∧
    (ret = false → ∃ tail', writing w' (fs ++ replicate k (page_frame nTruncate pg)) tail')) as Hno.
  { intros rc es. exists rc, 0%nat, false, (set_events es w). rewrite app_nil_r. split; [done|]. split; [apply io_wrote_events|].
    split; [lia|]. do 2 (split; [done|]). split; [exists tail; apply Hw|]. intros _. exists tail. destruct Hw. by split. }
  destruct isCommit; cycle 1.
  { specialize (Hno SQLITE_OK (events w)). replace (set_events (events w) w) with w in Hno by (by destruct w). exact Hno. }
  destruct (sync_flags .& WAL_SYNC_TRANSACTIONS =? 0); cbn [andb negb].
  { specialize (Hno SQLITE_OK (events w)). replace (set_events (events w) w) with w in Hno by (by destruct w). exact Hno. }
  destruct (sqlite3OsSync_any w) as (rcs & ess & Hsync).
  assert (∀ k : sm Wal (Z * nat * bool), (pad ← sm_get (λ w, padToSectorBoundary (conf w)); if negb (pad =? 0) then k else
    rc ← sqlite3OsSync; mret (rc, 0%nat, false)) w =
    if padToSectorBoundary (conf w) =? 0 then Ret ((rcs, 0%nat, false), set_events ess w) else k w) as Hk.
  { intros k. erewrite sm_bind_run; [|done]. destruct (padToSectorBoundary (conf w) =? 0); [|done]. cbn [negb].
    by erewrite sm_bind_run; [|exact Hsync]. }
  rewrite Hk. destruct (Z.eqb_spec (padToSectorBoundary (conf w)) 0) as [E|E]; [apply Hno|].
  destruct Hc as [?|[Hsf Hss]]; [done|]. clear Hno Hk. set (ss := sectorSize (conf w)) in *. set (off := frame_offset sz (length fs)).
  set (p := MkWriter ((off + ss - 1) / ss * ss) sync_flags).
  destruct (pad_frames_any be p pg nTruncate Hpg Ht Hsf (Z.to_nat (iSyncPoint p - off)) w fs tail 0 Hw) as (rc & k & w' & R & O & Hk & T & W);
    [fold off; lia|].
  exists rc, k, (negb (rc =? SQLITE_OK)), w'. split.
  - erewrite sm_bind_run; [|done]. fold ss. fold p. by erewrite sm_bind_run; [|exact R].
  - split; [done|]. split. { fold off in Hk. cbn [iSyncPoint p] in Hk. pose proof (Z.mul_div_le (off + ss - 1) ss Hss). lia. }
    split; [done|]. split; [intros Hr; b2p; done|]. split; [done|]. intros Hr. b2p. by apply W.
Qed.

Lemma walLimitSize_any w fs tail nMax : writing w fs tail → frame_offset sz (length fs) ≤ nMax →
  ∃ w' tail', walLimitSize nMax w = Ret ((), w') ∧ writing w' fs tail' ∧ io_wrote w w'.
Proof.
  intros Hw Hn. destruct (next_event_any w) as ([rc1 k1] & es1 & E1). destruct (next_event_any (set_events es1 w)) as ([rc2 k2] & es2 & E2).
  assert (∀ es, writing (set_events es w) fs tail) as Hev by (intros es; destruct Hw; by split).
  unfold walLimitSize. erewrite sm_bind_run; [|unfold sqlite3OsFileSize; erewrite sm_bind_run; [|exact E1]; done].
  cbn beta iota. match goal with |- context [if ?b then _ else _] => destruct b end; [|exists (set_events es1 w), tail; split; [done|]; split; [done|apply io_wrote_events]].
  destruct (Z.eqb_spec rc2 SQLITE_OK) as [->|Hrc].
  - pose proof (log_file_length bw sz n salt fs Hsalt (wr_frames _ _ _ _ _ _ _ Hw)) as Hpl.
    exists (set_walFile (take (Z.to_nat nMax) (walFile w)) (set_events es2 w)), (take (Z.to_nat nMax - length (log_file fs)) tail).
    split; [|split; [|apply io_wrote_file]].
    + unfold sqlite3OsTruncate. erewrite sm_bind_run; [|erewrite sm_bind_run; [|exact E2]; done]. done.
    + split; try apply Hw. change (walFile (set_walFile ?x _)) with x. rewrite (wr_file _ _ _ _ _ _ _ Hw).
      rewrite take_app, (take_ge (log_file _)) by lia. done.
  - exists (set_events es2 w), tail. split; [|split; [done|apply io_wrote_events]].
    unfold sqlite3OsTruncate. erewrite sm_bind_run; [|erewrite sm_bind_run; [|exact E2]; cbn beta iota; rewrite (proj2 (Z.eqb_neq _ _) Hrc); done]. done.
Qed.

Lemma io_wrote_fields w w' : io_wrote w w' → conf w' = conf w ∧ writeLock w' = writeLock w.
Proof. by intros (c & f & es & ->). Qed.

Lemma io_wrote_knows w w' fs : io_wrote w w' → knows w fs → knows w' fs.
Proof. intros (c & f & es & ->) [? ?]. by split. Qed.

(** The frames that are in the file: all that were written before the failure,
    if there was one. *)
Definition in_file (isCommit : bool) (nTruncate : Z) (pList : list PgHdr) (fs : list frame) (rc : Z) (w' : Wal) (bound : Z) : Prop :=
  ∃ j k pg tail', list.last pList = Some pg ∧
    walFile w' = log_file (fs ++ take j (list_frames isCommit nTruncate pList) ++ replicate k (page_frame nTruncate pg)) ++ tail' ∧
    (j ≤ length pList)%nat ∧ ((j < length pList)%nat → k = 0%nat) ∧ (isCommit = false → k = 0%nat) ∧
    (rc = SQLITE_OK → j = length pList) ∧ Z.of_nat k ≤ Z.max 0 bound.

Lemma log_frames_any be nTruncate isCommit sync_flags pList w fs tail : writing w fs tail → knows w fs → szPage w = sz →
  (∀ i, can_map (conf w) i = true) → writeLock w ≠ 0 →
  padToSectorBoundary (conf w) = 0 ∨ (sync_flags .& 3 ≠ 0 ∧ 0 < sectorSize (conf w)) →
  pList ≠ [] → Forall (WalTxn.page_ok sz) pList → 0 ≤ nTruncate < 2 ^ 32 →
  Z.of_nat (length fs + length pList) + Z.max 0 (sectorSize (conf w)) + HASHTABLE_NPAGE < 2 ^ 32 →
  ∃ rc w', log_frames be sz pList nTruncate isCommit sync_flags (Z.of_nat (length fs)) w = Ret (rc, w') ∧
    in_file isCommit nTruncate pList fs rc w' (sectorSize (conf w)).
Proof.
  intros Hw Hk Es Hm Hlk Hpad Hne Hl Ht Hbd. destruct (list.last pList) as [pg|] eqn:Elast; [|by apply last_None in Elast].
  assert (WalTxn.page_ok sz pg) as Hpg. { apply (proj1 (list.Forall_forall _ _) Hl). by apply list.last_Some_elem_of in Elast. }
  destruct (write_frames_any be nTruncate sync_flags isCommit pList w fs tail Hw Hl Ht) as (rc1 & i1 & o1 & w1 & R1 & O1 & Hok & Hno).
  unfold log_frames. eapply run_then; [unfold sm_gets; rewrite Es, Z.eqb_refl; done|].
  replace (walFrameOffset (Z.of_nat (length fs) + 1) sz) with (frame_offset sz (length fs)) by (unfold frame_offset, walFrameOffset; lia).
  eapply run_then; [exact R1|]. cbn beta iota. destruct (Z.eqb_spec rc1 SQLITE_OK) as [E1|E1]; cbn [negb].
  2: { destruct (Hno E1) as (j & t1 & Hj & T1). exists rc1, w1. split; [done|]. exists j, 0%nat, pg, t1. cbn [replicate]. rewrite app_nil_r.
       do 2 (split; [done|]). split; [lia|]. do 3 (split; [done|]). lia. }
  destruct (Hok E1) as (-> & -> & t1 & W1). clear Hok Hno. rewrite Elast. eapply run_then; [done|].
  destruct (io_wrote_fields _ _ O1) as [C1 L1]. set (lf := list_frames isCommit nTruncate pList) in *.
  assert (take (length pList) lf = lf) as Htk by (apply take_ge; unfold lf; by rewrite list_frames_length).
  replace (length fs + length pList)%nat with (length (fs ++ lf)) by (unfold lf; by rewrite length_app, list_frames_length).
  destruct (sync_frames_any be isCommit nTruncate sync_flags pg w1 _ _ Hpg Ht W1) as (rc2 & k & ret & w2 & R2 & O2 & Hk2 & Hk0 & Hret & [t2 T2] & W2);
    [by rewrite C1|]. rewrite C1, <- app_assoc in *.
  assert (∀ rc w' t, walFile w' = log_file (fs ++ lf ++ replicate k (page_frame nTruncate pg)) ++ t →
    in_file isCommit nTruncate pList fs rc w' (sectorSize (conf w))) as Hin.
  { intros rc w' t Hf. exists (length pList), k, pg, t. fold lf. rewrite Htk. do 3 (split; [done|]). split; [lia|]. done. }
  eapply run_then; [exact R2|]. cbn beta iota. destruct ret; [exists rc2, w2; split; [done|]; by apply (Hin _ _ t2)|].
  destruct (W2 eq_refl) as [t3 W3]. set (gs := lf ++ replicate k (page_frame nTruncate pg)) in *.
  pose proof (io_wrote_trans _ _ _ O1 O2) as O12. destruct (io_wrote_fields _ _ O12) as [C2 L2].
  eapply run_then; [done|]. eapply run_then; [done|].
  match goal with |- context [mbind _ ?x] => assert (∃ w3 tr t4, x w2 = Ret ((), set_truncateOnCommit tr w3) ∧ writing w3 (fs ++ gs) t4 ∧ io_wrote w2 w3)
    as (w3 & tr & t4 & R3 & W4 & O3) end.
  { destruct (_ && _ && _); [|exists w2, (truncateOnCommit w2), t3; rewrite set_truncate_id; split; [done|]; split; [done|apply io_wrote_refl]].
    match goal with |- context [walLimitSize ?m] => set (mx := m) end. destruct (walLimitSize_any w2 _ _ mx W3) as (w3 & t4 & R & W & O).
    { unfold mx, gs, frame_offset, walFrameOffset, WAL_HDRSIZE. rewrite !length_app, length_replicate. case_match; b2p; lia. }
    exists w3, 0, t4. split; [|done]. by erewrite sm_bind_run; [|exact R]. }
  eapply run_then; [exact R3|]. set (w4 := set_truncateOnCommit tr w3). pose proof (io_wrote_trans _ _ _ O12 O3) as O. destruct (io_wrote_fields _ _ O) as [C3 L3].
  assert (walFile w4 = log_file (fs ++ gs) ++ t4) as F4 by apply W4.
  destruct (Z.eqb_spec rc2 SQLITE_OK) as [->|E2]; cbn [negb]; [|exists rc2, w4; split; [done|]; by apply (Hin _ _ t4)].
  destruct (finish_frames_ok sz be isCommit nTruncate w4 fs gs) as (p & R4 & Hp).
  - apply (io_wrote_knows _ _ _ O) in Hk as [? ?]. by split.
  - split; [cbn; rewrite (wr_order _ _ _ _ _ _ _ W4); destruct bw; auto|cbn; by rewrite (wr_salt _ _ _ _ _ _ _ W4)].
  - cbn. by rewrite L3.
  - intros i. cbn. by rewrite C3.
  - intros E. apply (f_equal length) in E. unfold gs, lf in E. rewrite length_app, list_frames_length in E. destruct pList; [done|]. simpl in E. lia.
  - by apply Forall_app with (l1 := fs), (wr_frames _ _ _ _ _ _ _ W4).
  - unfold gs, lf. rewrite !length_app, list_frames_length, length_replicate. lia.
  - exists SQLITE_OK, (finished sz be isCommit (Z.of_nat (length (fs ++ gs))) nTruncate p w4). split.
    + rewrite <- R4. f_equal. unfold gs, lf. by rewrite fmap_app, list_frames_pgno, fmap_replicate.
    + apply (Hin _ _ t4). unfold finished. by destruct isCommit.
Qed.
End log.

(** ** All or nothing *)

Lemma list_frames_take isCommit nTruncate pList j : (j < length pList)%nat →
  Forall (λ f, f_size f = 0) (take j (list_frames isCommit nTruncate pList)).
Proof.
  intros Hj. destruct (list.last pList) as [pg|] eqn:E; [|apply last_None in E; subst; simpl in Hj; lia].
  apply last_Some in E as [l ->]. rewrite length_app in Hj. simpl in Hj.
  rewrite list_frames_snoc, take_app_le by (rewrite length_fmap; lia). apply Forall_take, list.Forall_fmap. by apply list.Forall_true.
Qed.


(** A connection with one frame in its log, whose next write fails after five
    bytes. *)
Definition demo_pages1 : list wi_page :=
  match append_frames (λ _, true) 0 0 [7] [] with Ret (_, p, _) => p | Undef _ => [] end.
Definition demo_started : Wal :=
  let salt := replicate 8 0 in
  let h := commit_hdr 1 9 512 (set_cksum (log_cksum false (hdr_cksum false 512 0 salt) [demo_frame]) (wal_hdr false 512 0 salt)) in
  MkWal 512 0 h 1 1 0 0 0 0 demo_pages1 h h 0 [0; 1] (log_file false 512 0 salt [demo_frame]) [(10, 5)] [] demo_config.

Lemma demo_started_knows : knows demo_started [demo_frame].
Proof.
  split; [done|]. exists [7]. split; [|done].
  destruct (append_frames_ok [] [] 0 [7]) as (p & E & Hix); [apply index_ok_nil|simpl; lia|repeat constructor|done|done|].
  change (wiPages demo_started) with demo_pages1. unfold demo_pages1. change (Z.of_nat 0) with 0 in E. by rewrite E.
Qed.

Lemma demo_started_writing : writing false 512 0 (replicate 8 0) demo_started [demo_frame] [].
Proof. split; [by rewrite app_nil_r|constructor; [apply demo_frame_ok|constructor]|done|done|done]. Qed.

