(* ===== verification/WalReaders.v ===== *)
(** * Readers of the write-ahead log

    Beginning a read transaction always comes to an end, whatever locks are
    refused and whatever is in the log file, and a reader that was let in holds a
    lock that covers its snapshot. *)

From S2P Require Import Prelude Varint WalIndex WalFrame Wal WalTxn.
#[local] Open Scope Z_scope.
#[local] Open Scope c_scope.
#[local] Open Scope list_scope.

(** ** States of a connection *)

Record hdr_sane (h : WalIndexHdr) : Prop := {
  hs_salt : length (aSalt h) = 8%nat;
  hs_mx : 0 ≤ mxFrame h < READMARK_NOT_USED }.

(** What the operating system and shared memory provide: writable shared memory
    whose pages can be mapped, a file of bytes that is not larger than a log can
    be, and read marks. *)
Record sane (w : Wal) : Prop := {
  sn_events : Forall (λ e, e.1 ≠ SQLITE_READONLY) (events w);
  sn_map : ∀ i, can_map (conf w) i = true;
  sn_bytes : Forall is_byte (walFile w);
  sn_size : Z.of_nat (length (walFile w)) < 2 ^ 40;
  sn_marks : length (aReadMark w) = 5%nat;
  sn_ckpt : ckptLock w = 0 ∨ ckptLock w = 1;
  sn_hdr : hdr_sane (hdr w);
  sn_shm : hdr_sane (shmHdr0 w) }.

Lemma total_event P : (∀ w, P w → sane w) → (∀ w es, P w → sane (set_events es w) → P (set_events es w)) →
  total P next_event (λ e w, P w ∧ e.1 ≠ SQLITE_READONLY).
Proof.
  intros Hs HP w Hw. unfold next_event. destruct (events w) as [|e es] eqn:E.
  - exists (SQLITE_OK, 0), w. by split.
  - exists e, (set_events es w). split; [done|]. destruct (Hs w Hw) as [H1 ? ? ? ? ? ? ?]. rewrite E in H1.
    apply list.Forall_cons in H1 as [H1 H2]. split; [|done]. apply HP; [done|]. by split.
Qed.

(** No read lock, the write lock [wl], and the first page of the wal-index mapped
    if [m]. *)
Definition st (wl : Z) (m : bool) (w : Wal) : Prop :=
  sane w ∧ readLock w < 0 ∧ writeLock w = wl ∧ (m = true → page0_mapped w = true).

Lemma st_event wl m : total (st wl m) next_event (λ e w, st wl m w ∧ e.1 ≠ SQLITE_READONLY).
Proof. apply total_event; [by intros w [? _]|]. intros w es (_ & ? & ? & ?) ?. by split. Qed.

Lemma st_mapped wl m w : st wl m w → page0_mapped w = true → st wl true w.
Proof. intros (? & ? & ? & ?) ?. by split. Qed.

Lemma st_weaken wl m w : st wl true w → st wl m w.
Proof. intros (? & ? & ? & H). split; [done|]. split; [done|]. split; [done|]. intros _. by apply H. Qed.

Lemma st_lock wl m : total (st wl m) walLock (λ _ w, st wl m w).
Proof.
  eapply total_bind; [apply total_get|]. intros c. cbn beta. case_match; [apply total_ret; by intros w [? _]|].
  eapply total_bind; [eapply total_pre; [apply st_event|by intros w [? _]]|]. intros [rc k]. apply total_ret. by intros w [? _].
Qed.

Lemma walIndexPage0_total wl m : total (st wl m) walIndexPage0 (λ rc w, st wl m w ∧ (wl ≠ 0 → rc = SQLITE_OK → page0_mapped w = true)).
Proof.
  eapply total_bind; [apply total_get|]. intros mp. destruct mp; [apply total_ret; intros w [? ?]; split; [done|by intros _ _]|].
  eapply total_bind; [eapply total_pre; [apply st_event|by intros w [? _]]|]. intros [rc k]. cbn [fst].
  eapply total_bind; [apply total_get|]. intros l. cbn beta.
  intros w [[Hw Hr] ->]. rewrite (proj2 (Z.eqb_neq _ _) Hr). destruct (_ && _) eqn:Ec.
  - exists rc, (set_wiPages [zero_page 0] w). split; [done|]. destruct Hw as ([] & ? & ? & ?). split; [by split|done].
  - exists rc, w. split; [done|]. split; [done|]. intros Hl ->. destruct Hw as (_ & _ & <- & _). exfalso.
    rewrite (proj2 (Z.eqb_neq _ _) Hl) in Ec. done.
Qed.

(** ** Checksums and frames of any content *)

Lemma cksum_total be native a c : 8 ≤ Z.of_nat (length a) → Z.divide 8 (Z.of_nat (length a)) →
  ∃ r, walChecksumBytes be native a c = Ret r.
Proof.
  intros H1 H2. unfold walChecksumBytes. destruct (match c with Some c => c | None => (0, 0) end) as [s1 s2].
  rewrite (proj2 (Z.leb_le _ _)) by done. cbn [c_assert mbind outcome_bind].
  assert (Z.of_nat (length a) .& 7 = 0) as -> by (rewrite (land_pred_pow2 _ 3) by lia; by apply Z.mod_divide).
  cbn [c_assert mbind outcome_bind Z.eqb]. revert a H1 H2 s1 s2.
  apply (groups8_ind (λ a, ∀ s1 s2, ∃ r, cksum_loop be native a s1 s2 = Ret r)); intros b0 b1 b2 b3 b4 b5 b6 b7.
  - intros s1 s2. by eexists.
  - intros rest Hne IH s1 s2. cbn [cksum_loop]. destruct rest; [done|]. apply IH.
Qed.

Lemma get4_total a : (4 ≤ length a)%nat → Forall is_byte a → ∃ v, sqlite3Get4byte a = Ret v ∧ in_uw 32 v.
Proof.
  intros Hl Hb. destruct a as [|b0 [|b1 [|b2 [|b3 rest]]]]; try (simpl in Hl; lia). rewrite !list.Forall_cons in Hb. destruct_and!.
  eexists. split; [done|]. pose proof (load32_range true b0 b1 b2 b3) as Hlr. unfold load32 in Hlr. rewrite uw_small; [by apply Hlr|].
  unfold is_byte in *. rewrite Z.shiftl_mul_pow2 by lia. unfold in_uw. lia.
Qed.

Lemma walDecodeFrame_total be h sz d a : page_size sz → Z.of_nat (length d) = sz → length a = 24%nat → Forall is_byte a →
  ∃ r c, walDecodeFrame be h d a = Ret (r, set_cksum c h) ∧ match r with Some (pg, nt) => 0 < pg < 2 ^ 32 | None => True end.
Proof.
  intros (Hs1 & _ & Hs2)%page_size_spec Hd Ha Hb. unfold walDecodeFrame.
  assert (h = set_cksum (aFrameCksum h) h) as Eh by (by destruct h).
  case_match; [exists None, (aFrameCksum h); by rewrite <- Eh|].
  destruct (get4_total a) as (pg & -> & Hpg); [lia|done|]. cbn [mbind outcome_bind].
  destruct (Z.eqb_spec pg 0) as [|Hnz]; [exists None, (aFrameCksum h); by rewrite <- Eh|].
  destruct (cksum_total be (bigEndCksum h =? big be) (take 8 a) (Some (aFrameCksum h))) as (c1 & ->);
    [rewrite length_take, Ha; done|rewrite length_take, Ha; by exists 1|]. cbn [mbind outcome_bind].
  destruct (cksum_total be (bigEndCksum h =? big be) d (Some c1)) as (c2 & ->); [lia|by rewrite Hd|]. cbn [mbind outcome_bind].
  destruct (get4_total (drop 16 a)) as (v1 & -> & _); [rewrite length_drop; lia|by apply Forall_drop|]. cbn [mbind outcome_bind].
  destruct (get4_total (drop 20 a)) as (v2 & -> & _); [rewrite length_drop; lia|by apply Forall_drop|]. cbn [mbind outcome_bind].
  case_match; [by exists None, c2|].
  destruct (get4_total (drop 4 a)) as (v3 & -> & _); [rewrite length_drop; lia|by apply Forall_drop|]. cbn [mbind outcome_bind].
  exists (Some (pg, v3)), c2. split; [done|]. unfold in_uw in Hpg. lia.
Qed.

(** The test of the page size in the header of a log file. *)
Lemma page_size_test sz : sz .& (sz - 1) = 0 → 512 ≤ sz ≤ SQLITE_MAX_PAGE_SIZE → page_size sz.
Proof.
  intros Hl Hr. unfold SQLITE_MAX_PAGE_SIZE in *. set (k := Z.log2 sz). pose proof (Z.log2_spec sz ltac:(lia)) as Hk. fold k in Hk.
  assert (sz = 2 ^ k) as E.
  { destruct (Z.eq_dec sz (2 ^ k)) as [|Hne]; [done|]. exfalso.
    assert (Z.log2 (sz - 1) = k) as El by (apply Z.log2_unique; [apply Z.log2_nonneg|lia]).
    assert (Z.testbit (sz .& (sz - 1)) k = true) as Hb.
    { rewrite Z.land_spec. apply andb_true_intro. split; [apply Z.bit_log2; lia|]. rewrite <- El. apply Z.bit_log2.
      pose proof (Z.pow_pos_nonneg 2 k ltac:(lia) (Z.log2_nonneg sz)). lia. }
    by rewrite Hl, Z.testbit_0_l in Hb. }
  assert (9 ≤ k ≤ 16) as Hk'.
  { pose proof (Z.log2_nonneg sz) as Hk0. fold k in Hk0. split.
    { destruct (Z.le_gt_cases 9 k); [done|]. pose proof (Z.pow_le_mono_r 2 k 8 ltac:(lia) ltac:(lia)). lia. }
    destruct (Z.le_gt_cases k 16); [done|]. pose proof (Z.pow_le_mono_r 2 17 k ltac:(lia) ltac:(lia)). lia. }
  rewrite E. clearbody k. clear -Hk'. assert (k = 9 ∨ k = 10 ∨ k = 11 ∨ k = 12 ∨ k = 13 ∨ k = 14 ∨ k = 15 ∨ k = 16) as H by lia.
  unfold page_size. apply list_elem_of_In. destruct_or!; subst k; cbn; lia.
Qed.

(** ** Calls of the operating system *)

(** A property of states that the events do not matter for. *)
Definition closed (P : Wal → Prop) : Prop :=
  (∀ w, P w → sane w) ∧ (∀ w es, P w → sane (set_events es w) → P (set_events es w)).

Lemma closed_st wl m : closed (st wl m).
Proof. split; [by intros w [? _]|]. intros w es (_ & ? & ? & ?) ?. by split. Qed.

Section closed.
Context (P : Wal → Prop) (HP : closed P).

Lemma event_total : total P next_event (λ _ w, P w).
Proof. eapply total_conseq; [apply (total_event P); apply HP|done|by intros a w [? _]]. Qed.

Lemma lock_total : total P walLock (λ _ w, P w).
Proof.
  eapply total_bind; [apply total_get|]. intros c. cbn beta. case_match; [apply total_ret; by intros w [? _]|].
  eapply total_bind; [eapply total_pre; [apply event_total|by intros w [? _]]|]. intros [rc k]. by apply total_ret.
Qed.

Lemma malloc_total : total P sqlite3_malloc (λ _ w, P w).
Proof. eapply total_bind; [apply event_total|]. intros [rc k]. by apply total_ret. Qed.

Lemma OsFileSize_total : total P sqlite3OsFileSize (λ r w, P w ∧ 0 ≤ r.2 < 2 ^ 40).
Proof.
  eapply total_bind; [apply event_total|]. intros [rc k]. eapply total_bind; [apply total_get|]. intros f. apply total_ret.
  intros w [Hw ->]. split; [done|]. cbn [snd]. pose proof (sn_size _ (proj1 HP w Hw)). destruct (rc =? SQLITE_OK); lia.
Qed.

Lemma OsRead_total (iAmt iOffset : Z) : 0 ≤ iAmt →
  total P (sqlite3OsRead iAmt iOffset) (λ r w, P w ∧ Z.of_nat (length r.2) = iAmt ∧ Forall is_byte r.2).
Proof.
  intros Ha. assert (∀ k, Forall is_byte (replicate k 0)) as Hz by (intros k; apply Forall_replicate; unfold is_byte; lia).
  eapply total_bind; [apply event_total|]. intros [rc k]. cbn beta iota. destruct (rc =? SQLITE_OK); cbn [negb].
  2: { apply total_ret. intros w Hw. split; [done|]. cbn [snd]. rewrite length_replicate. split; [lia|apply Hz]. }
  eapply total_bind; [apply total_get|]. intros f w [Hw ->]. pose proof (sn_bytes _ (proj1 HP w Hw)) as Hb. cbn zeta.
  assert (Forall is_byte (take (Z.to_nat iAmt) (drop (Z.to_nat iOffset) (walFile w)))) as Hg by (by apply Forall_take, Forall_drop).
  destruct (Z.ltb_spec (Z.of_nat (length (take (Z.to_nat iAmt) (drop (Z.to_nat iOffset) (walFile w))))) iAmt) as [Hlt|Hge].
  - eexists _, w. split; [done|]. split; [done|]. cbn [snd]. rewrite length_app, length_replicate. split; [lia|by apply Forall_app_2].
  - eexists _, w. split; [done|]. split; [done|]. cbn [snd]. split; [|done]. rewrite length_take in *. lia.
Qed.
End closed.

(** ** Recovery on any file *)

(** During recovery: [i] frames are in the wal-index. *)
Definition rst (i : nat) (w : Wal) : Prop := st 1 true w ∧ ∃ all, length all = i ∧ index_ok (wiPages w) all.

Lemma closed_rst i : closed (rst i).
Proof. split; [by intros w [[? _] _]|]. intros w es [(_ & ? & ? & ?) ?] ?. by split. Qed.

Lemma st_set_hdr wl m w h : st wl m w → hdr_sane h → st wl m (set_hdr h w).
Proof. intros ([] & ? & ? & ?) ?. split; [by split|]. done. Qed.

Lemma append_total i pg : (Z.of_nat i + 1 + HASHTABLE_NPAGE < 2 ^ 32) → 0 < pg < 2 ^ 32 →
  total (rst i) (walIndexAppend (Z.of_nat i + 1) pg) (λ rc w, rc = SQLITE_OK ∧ rst (S i) w).
Proof.
  intros Hi Hpg w [(Hs & Hrl & Hwl & Hm) (all & <- & Hix)].
  destruct (walIndexAppend_next w all pg Hix) as (p & E & Hp); [apply Hs|apply Hs|done|done|].
  exists SQLITE_OK, (set_wiPages p w). split; [done|]. split; [done|]. split.
  - destruct Hs. split; [by split|]. split; [done|]. split; [done|]. intros _. unfold page0_mapped. cbn.
    destruct p; [|done]. exfalso. by destruct all; eapply index_ok_pages in Hp.
  - exists (all ++ [pg]). split; [rewrite length_app; simpl; lia|done].
Qed.

Lemma recover_loop_total be sz nSize : page_size sz → nSize < 2 ^ 40 → ∀ fuel i ck,
  frame_offset sz i ≤ nSize → (nSize - frame_offset sz i) / (sz + WAL_FRAME_HDRSIZE) ≤ Z.of_nat fuel →
  total (rst i) (recover_loop be fuel sz nSize (Z.of_nat i) (frame_offset sz i) ck) (λ _ w, st 1 true w).
Proof.
  intros Hsz Hn. destruct (page_size_spec _ Hsz) as ([Hs1 Hs2] & _). unfold WAL_FRAME_HDRSIZE, SQLITE_MAX_PAGE_SIZE in *.
  induction fuel as [|fuel IH]; intros i ck Ho Hf; cbn [recover_loop];
    destruct (Z.leb_spec (frame_offset sz i + (sz + WAL_FRAME_HDRSIZE)) nSize) as [Hle|Hgt];
    try (apply total_ret; by intros w [? _]); unfold WAL_FRAME_HDRSIZE in *.
  { exfalso. assert (0 < (nSize - frame_offset sz i) / (sz + 24)) by (apply Z.div_str_pos; lia). lia. }
  assert (Z.of_nat i + 1 + HASHTABLE_NPAGE < 2 ^ 32) as Hib.
  { unfold frame_offset, WAL_HDRSIZE, WAL_FRAME_HDRSIZE, HASHTABLE_NPAGE in *. nia. }
  eapply total_bind; [apply OsRead_total; [apply closed_rst|lia]|]. intros [rc a]. cbn [snd]. cbn beta iota.
  case_match; [apply total_ret; by intros w [[? _] _]|].
  eapply total_bind; [apply total_get|]. intros h. cbn beta.
  apply (total_bind _ _ (λ r w, rst i w ∧ ∃ c, r.2 = set_cksum c (hdr w) ∧ match r.1 with Some (pg, nt) => 0 < pg < 2 ^ 32 | None => True end)).
  { apply total_gets. intros w [[Hw [Hal Hab]] ->].
    destruct (walDecodeFrame_total be (hdr w) sz (drop 24 a) (take 24 a)) as (r & c & E & Hr); try done.
    - rewrite length_drop. lia.
    - rewrite length_take. lia.
    - by apply Forall_take.
    - exists (r, set_cksum c (hdr w)). split; [done|]. split; [done|]. by exists c. }
  intros [r h']. cbn [fst snd].
  apply (total_bind _ _ (λ _ w, rst i w ∧ match r with Some (pg, nt) => 0 < pg < 2 ^ 32 | None => True end)).
  { apply total_mod. intros w [[Hw (all & Hal & Hix)] (c & -> & Hr)]. split; [|done]. split; [|by exists all].
    apply st_set_hdr; [done|]. destruct Hw as ([? ? ? ? ? ? [] ?] & _). by split. }
  intros _. destruct r as [[pg nt]|]; [|apply total_ret; by intros w [[? _] _]].
  intros w [Hw Hpg]. revert w Hw. change (total (rst i) (rc0 ← walIndexAppend (Z.of_nat i + 1) pg;
    if negb (rc0 =? SQLITE_OK) then mret (rc0, ck) else if negb (nt =? 0) then
      _ ← sm_mod (λ w, set_hdr (commit_hdr (Z.of_nat i + 1) nt sz (hdr w)) w);
      recover_loop be fuel sz nSize (Z.of_nat i + 1) (frame_offset sz i + (sz + 24)) (aFrameCksum h')
    else recover_loop be fuel sz nSize (Z.of_nat i + 1) (frame_offset sz i + (sz + 24)) ck) (λ _ w, st 1 true w)).
  eapply total_bind; [by apply append_total|]. intros rc'. intros w [-> Hw]. cbn [Z.eqb SQLITE_OK negb]. revert w Hw.
  replace (Z.of_nat i + 1) with (Z.of_nat (S i)) by lia. change 24 with WAL_FRAME_HDRSIZE. rewrite frame_offset_S.
  assert (frame_offset sz (S i) ≤ nSize ∧ (nSize - frame_offset sz (S i)) / (sz + WAL_FRAME_HDRSIZE) ≤ Z.of_nat fuel) as [Ho' Hf'].
  { rewrite <- frame_offset_S. unfold WAL_FRAME_HDRSIZE. split; [lia|].
    assert (nSize - frame_offset sz i = nSize - (frame_offset sz i + (sz + 24)) + 1 * (sz + 24)) as E by lia.
    rewrite E, Z.div_add in Hf by lia. lia. }
  destruct (nt =? 0); cbn [negb].
  - by apply IH.
  - change (total (rst (S i)) (_ ← sm_mod (λ w, set_hdr (commit_hdr (Z.of_nat (S i)) nt sz (hdr w)) w);
      recover_loop be fuel sz nSize (Z.of_nat (S i)) (frame_offset sz (S i)) (aFrameCksum h')) (λ _ w, st 1 true w)).
    apply (total_bind _ _ (λ _, rst (S i))); [|intros a0; by apply IH]. apply total_mod. intros w [Hw (all & Hal & Hix)]. split; [|by exists all].
    apply st_set_hdr; [done|]. destruct Hw as ([? ? ? ? ? ? [] ?] & _). split; [done|]. cbn. unfold READMARK_NOT_USED, HASHTABLE_NPAGE in *. lia.
Qed.

Lemma lift_get4 (P : Wal → Prop) a : (4 ≤ length a)%nat → Forall is_byte a → total P (sm_lift (sqlite3Get4byte a)) (λ v w, P w ∧ in_uw 32 v).
Proof. intros Hl Hb. apply total_gets. intros w Hw. destruct (get4_total a Hl Hb) as (v & -> & Hv). by exists v. Qed.

Lemma lift_cksum (P : Wal → Prop) be native a c : 8 ≤ Z.of_nat (length a) → Z.divide 8 (Z.of_nat (length a)) →
  total P (sm_lift (walChecksumBytes be native a c)) (λ _ w, P w).
Proof. intros H1 H2. apply total_gets. intros w Hw. destruct (cksum_total be native a c H1 H2) as (r & ->). by exists r. Qed.

Lemma recover_file_total be nSize : WAL_HDRSIZE < nSize < 2 ^ 40 → total (st 1 true) (recover_file be nSize) (λ _ w, st 1 true w).
Proof.
  intros Hn. unfold recover_file. eapply total_bind; [apply OsRead_total; [apply closed_st|done]|]. intros [rc a]. cbn [snd].
  apply total_pure. intros [Hl Hb]. unfold WAL_HDRSIZE in Hl. assert (length a = 32%nat) as Hl' by lia. cbn beta iota.
  assert (∀ k, (k ≤ 28)%nat → total (st 1 true) (sm_lift (sqlite3Get4byte (drop k a))) (λ v w, st 1 true w ∧ in_uw 32 v)) as Hg.
  { intros k Hk. apply lift_get4; [rewrite length_drop; lia|by apply Forall_drop]. }
  case_match; [by apply total_ret|].
  eapply total_bind; [apply (Hg 0%nat); lia|]. intros magic. apply total_pure. intros Hmg.
  eapply total_bind; [apply Hg; lia|]. intros sz0. apply total_pure. intros Hsz0. cbn zeta. set (sz := i32 sz0).
  destruct (negb (magic .& 0xFFFFFFFE =? WAL_MAGIC) || negb (sz .& (sz - 1) =? 0) || (SQLITE_MAX_PAGE_SIZE <? sz) || (sz <? 512)) eqn:Et;
    [by apply total_ret|].
  b2p. assert (page_size sz) as Hsz by (apply page_size_test; [done|lia]). destruct (page_size_spec _ Hsz) as ([Hs1 _] & _).
  eapply total_bind; [apply Hg; lia|]. intros n. apply total_pure. intros Hnn.
  apply (total_bind _ _ (λ _, st 1 true)).
  { apply total_mod. intros w Hw. assert (hdr_sane (load_wal_hdr (magic .& 1) (take 8 (drop 16 a)) (hdr w))) as Hh.
    { destruct Hw as ([? ? ? ? ? ? [] ?] & _). split; [|done]. cbn. rewrite length_take, length_drop. lia. }
    apply (st_set_hdr _ _ _ _ Hw) in Hh as ([] & ? & ? & ?). split; [by split|]. done. }
  intros u; cbn beta; clear u. eapply total_bind; [apply lift_cksum; rewrite length_take; [lia|exists 3; lia]|]. intros c.
  apply (total_bind _ _ (λ _, st 1 true)).
  { apply total_mod. intros w Hw. apply st_set_hdr; [done|]. destruct Hw as ([? ? ? ? ? ? [] ?] & _). by split. }
  intros u; cbn beta; clear u. eapply total_bind; [apply Hg; lia|]. intros c0. apply total_pure. intros u; cbn beta; clear u.
  eapply total_bind; [apply Hg; lia|]. intros c1. apply total_pure. intros _. case_match; [by apply total_ret|].
  eapply total_bind; [apply Hg; lia|]. intros v. apply total_pure. intros _. case_match; [by apply total_ret|].
  eapply total_bind; [apply malloc_total, closed_st|]. intros ok. destruct ok; cbn [negb]; [|by apply total_ret].
  change 0 with (Z.of_nat 0) at 1. change WAL_HDRSIZE with (frame_offset sz 0).
  eapply total_pre; [apply recover_loop_total; [done|lia|change (frame_offset sz 0) with WAL_HDRSIZE; lia|]|].
  - change (frame_offset sz 0) with WAL_HDRSIZE. unfold WAL_HDRSIZE, WAL_FRAME_HDRSIZE in *.
    rewrite Z2Nat.id by (apply Z.div_pos; lia). apply Z.div_le_mono; lia.
  - intros w Hw. split; [done|]. exists []. split; [done|apply index_ok_nil].
Qed.

Lemma hdr_bytes_length be h : length (aSalt h) = 8%nat → length (hdr_bytes be h) = 40%nat.
Proof. intros Hs. unfold hdr_bytes. rewrite !length_app, !(proj2 (store32_bytes be _)), Hs. by destruct be. Qed.

Lemma walIndexWriteHdr_total be wl : wl ≠ 0 → total (st wl true) (walIndexWriteHdr be) (λ _ w, st wl true w).
Proof.
  intros Hl. unfold walIndexWriteHdr. eapply total_bind; [apply total_assert; intros w (_ & _ & _ & H); by apply H|]. intros u; cbn beta; clear u.
  eapply total_bind; [apply total_assert; intros w (_ & _ & -> & _); by rewrite (proj2 (Z.eqb_neq _ _) Hl)|]. intros u; cbn beta; clear u.
  eapply total_bind; [apply total_get|]. intros h. cbn beta. intros w [Hw ->].
  assert (hdr_sane (hdr w)) as Hh by apply Hw. assert (∀ c, hdr_sane (set_init (hdr w) c)) as Hi by (intros c; by destruct Hh).
  destruct (cksum_total be true (hdr_bytes be (set_init (hdr w) (0, 0))) None) as (c & E);
    [rewrite hdr_bytes_length; [done|apply Hh]|rewrite hdr_bytes_length; [by exists 5|apply Hh]|].
  exists (), (set_shmHdr0 (set_init (hdr w) c) (set_shmHdr1 (set_init (hdr w) c) (set_hdr (set_init (hdr w) c) w))). split.
  - erewrite sm_bind_run; [|unfold sm_lift, sm_gets; rewrite E; done]. done.
  - destruct Hw as ([] & ? & ? & ?). split; [|done]. split; try done; apply Hi.
Qed.

Lemma walIndexRecover_total be : total (st 1 true) (walIndexRecover be) (λ _ w, st 1 true w).
Proof.
  unfold walIndexRecover. eapply total_bind; [apply total_assert; intros w (Hs & _); destruct (sn_ckpt _ Hs) as [-> | ->]; done|]. intros u; cbn beta; clear u.
  eapply total_bind; [apply total_assert; by intros w (_ & _ & -> & _)|]. intros u; cbn beta; clear u.
  eapply total_bind; [apply total_get|]. intros k. cbn beta.
  eapply total_bind; [eapply total_pre; [apply lock_total, (closed_st 1 true)|by intros w [? _]]|]. intros rc.
  case_match; [by apply total_ret|].
  apply (total_bind _ _ (λ _, st 1 true)); [apply total_mod; intros w Hw; apply st_set_hdr; [done|by split]|]. intros u; cbn beta; clear u.
  eapply total_bind; [apply OsFileSize_total, closed_st|]. intros [rc' nSize]. cbn [snd]. apply total_pure. intros Hn. cbn beta iota.
  case_match; [by apply total_ret|].
  apply (total_bind _ _ (λ _, st 1 true)).
  { destruct (Z.ltb_spec WAL_HDRSIZE nSize); [apply recover_file_total; lia|by apply total_ret]. }
  intros [rc2 c]. cbn beta iota. case_match; [|by apply total_ret].
  apply (total_bind _ _ (λ _, st 1 true)).
  { apply total_mod. intros w Hw. apply st_set_hdr; [done|]. destruct Hw as ([? ? ? ? ? ? [] ?] & _). by split. }
  intros u; cbn beta; clear u. eapply total_bind; [by apply walIndexWriteHdr_total|]. intros u; cbn beta; clear u.
  apply (total_bind _ _ (λ _, st 1 true)). { apply total_mod. intros w ([] & ? & ? & ?). split; [by split|done]. }
  intros u; cbn beta; clear u. apply (total_bind _ _ (λ _, st 1 true)); [|intros _; by apply total_ret].
  apply total_mod. intros w ([] & ? & ? & ?). split; [by split|done].
Qed.

(** ** Reading the header *)

Lemma walIndexTryHdr_total be wl : total (st wl true) (walIndexTryHdr be) (λ _ w, st wl true w).
Proof.
  unfold walIndexTryHdr. eapply total_bind; [apply total_assert; intros w (_ & _ & _ & H); by apply H|]. intros u; cbn beta; clear u.
  eapply total_bind; [apply total_get|]. intros h1. cbn beta. eapply total_bind; [apply total_get|]. intros h2. cbn beta.
  intros w [[Hw ->] ->]. assert (hdr_sane (shmHdr0 w)) as Hh by apply Hw.
  assert (∀ r, ∃ a w', (mret r : sm Wal (Z * bool)) w = Ret (a, w') ∧ st wl true w') as Hr by (intros r; by exists r, w).
  case_match; [apply Hr|]. case_match; [apply Hr|].
  destruct (cksum_total be true (hdr_bytes be (shmHdr0 w)) None) as (c & E);
    [rewrite hdr_bytes_length; [done|apply Hh]|rewrite hdr_bytes_length; [by exists 5|apply Hh]|].
  assert (∀ k : Z * Z → sm Wal (Z * bool), (∃ a w', k c w = Ret (a, w') ∧ st wl true w') →
    ∃ a w', (x ← sm_lift (walChecksumBytes be true (hdr_bytes be (shmHdr0 w)) None); k x) w = Ret (a, w') ∧ st wl true w') as Hk.
  { intros k (a & w' & E2 & Hs). exists a, w'. split; [|done]. erewrite sm_bind_run; [|unfold sm_lift, sm_gets; rewrite E; done]. done. }
  apply Hk. case_match; [apply Hr|]. unfold mbind, sm_bind, sm_get. case_match; [|apply Hr].
  eexists _, _. split; [done|]. apply (st_set_hdr _ _ _ _ Hw) in Hh as ([] & ? & ? & ?). split; [by split|done].
Qed.

(** Taking and releasing the write lock. *)
Lemma st_set_lock wl wl' m w : st wl m w → st wl' m (set_writeLock wl' w).
Proof. intros ([] & ? & ? & ?). split; [by split|done]. Qed.

Definition hdr_read (r : Z) (w : Wal) : Prop := st 0 false w ∧ (r = SQLITE_OK → page0_mapped w = true).

Lemma walIndexReadHdr_total be : total (st 0 false) (walIndexReadHdr be) (λ r w, hdr_read r.1 w).
Proof.
  unfold walIndexReadHdr. eapply total_bind; [apply walIndexPage0_total|]. intros rc. eapply total_pre; [|by intros w [? _]]. cbn beta.
  destruct (Z.eqb_spec rc SQLITE_OK) as [->|Hrc]; cbn [negb].
  2: { apply total_ret. intros w Hw. split; [done|]. by intros ?. }
  eapply total_bind; [apply total_assert; intros w (_ & _ & -> & _); by rewrite orb_true_r|]. intros u; cbn beta; clear u.
  eapply total_bind; [apply total_get|]. intros mp. cbn beta.
  apply (total_bind _ _ (λ r w, st 0 false w ∧ (r.1 = 0 → page0_mapped w = true))).
  { destruct mp.
    - eapply total_conseq; [apply walIndexTryHdr_total|intros w [? ?]; by eapply st_mapped|]. intros r w Hw. split; [by apply st_weaken|].
      intros _. by apply Hw.
    - apply total_ret. by intros w [? _]. }
  intros [bad ch]. cbn [fst]. cbn beta iota.
  eapply total_bind; [apply total_assert; intros w [(_ & _ & -> & _) _]; by rewrite orb_true_r|]. intros u; cbn beta; clear u.
  eapply total_bind; [apply total_get|]. intros ro. cbn beta.
  apply (total_bind _ _ (λ r w, st 0 false w ∧ (r.1.1 = SQLITE_OK → page0_mapped w = true))).
  2: { intros [[rc bad'] ch']. cbn beta iota. eapply total_bind; [apply total_get|]. intros v. apply total_ret. intros w [[Hw H] _].
       split; [done|]. cbn [fst] in *. case_match; [by intros ?|done]. }
  destruct (Z.eqb_spec bad 0) as [->|Hbad]; [apply total_ret; intros w [[? H] _]; split; [done|]; intros _; by apply H|].
  eapply total_pre with (P := st 0 false); [|by intros w [[? _] _]]. case_match.
  { eapply total_bind; [apply lock_total, closed_st|]. intros rc. apply total_ret. intros w Hw. split; [done|]. cbn [fst].
    destruct (Z.eqb_spec rc SQLITE_OK); [by intros ?|done]. }
  eapply total_bind; [apply lock_total, closed_st|]. intros rc. destruct (Z.eqb_spec rc SQLITE_OK) as [->|Hrc]; cbn [negb].
  2: { apply total_ret. intros w Hw. split; [done|]. by intros ?. }
  apply (total_bind _ _ (λ _, st 1 false)); [apply total_mod; intros w Hw; by eapply st_set_lock|]. intros u; cbn beta; clear u.
  eapply total_bind; [apply walIndexPage0_total|]. intros rc. cbn beta.
  apply (total_bind _ _ (λ r w, st 1 false w ∧ (r.1.1 = SQLITE_OK → page0_mapped w = true))).
  { destruct (Z.eqb_spec rc SQLITE_OK) as [->|Hrc]; [|apply total_ret; intros w [? _]; split; [done|]; by intros ?].
    eapply total_pre with (P := st 1 true); [|intros w [? H2]; eapply st_mapped; [done|by apply H2]].
    eapply total_bind; [apply walIndexTryHdr_total|]. intros [b2 ch2]. cbn beta iota.
    assert (∀ w, st 1 true w → st 1 false w ∧ page0_mapped w = true) as Hsw by (intros w Hw; split; [by apply st_weaken|by apply Hw]).
    case_match; [|apply total_ret; intros w Hw; destruct (Hsw w Hw); by split].
    eapply total_bind; [apply walIndexRecover_total|]. intros rc. apply total_ret. intros w Hw. destruct (Hsw w Hw); by split. }
  intros [[rc' b'] c']. cbn beta iota.
  apply (total_bind _ _ (λ _ w, st 0 false w ∧ (rc' = SQLITE_OK → page0_mapped w = true))).
  { apply total_mod. intros w [Hw H2]. split; [by eapply st_set_lock|]. exact H2. }
  intros u; cbn beta; clear u. apply total_ret. by intros w ?.
Qed.

(** ** Read marks *)

Lemma pick_mark_ok mx marks : mx < READMARK_NOT_USED → ∀ i a j, a ≤ mx →
  ∃ m k, pick_mark mx marks i a j = Ret (m, k) ∧ m ≤ mx ∧ (k = j ∨ i ≤ k < i + Z.of_nat (length marks)).
Proof.
  intros Hmx. induction marks as [|t marks IH]; intros i a j Ha; [exists a, j; split; [done|]; split; [done|by left]|].
  cbn [pick_mark length]. destruct (_ && _) eqn:E.
  - b2p. rewrite (proj2 (Z.eqb_neq _ _)) by lia. cbn [negb c_assert mbind outcome_bind].
    destruct (IH (i + 1) t i) as (m & k & -> & Hm & Hk); [done|]. exists m, k. split; [done|]. split; [done|]. right. lia.
  - destruct (IH (i + 1) a j Ha) as (m & k & -> & Hm & Hk). exists m, k. split; [done|]. split; [done|]. destruct Hk; [by left|right; lia].
Qed.

(** A connection about to choose a read mark. *)
Definition marking (mx : Z) (w : Wal) : Prop := st 0 true w ∧ mxFrame (hdr w) = mx.

Lemma closed_marking mx : closed (marking mx).
Proof. split; [by intros w [[? _] _]|]. intros w es [(_ & ? & ? & ?) ?] ?. by split. Qed.

Lemma set_mark_total mx n : ∀ i rc a j, total (marking mx) (set_mark n i rc a j) (λ r w, let '(rc', a', j', ret) := r in
  marking mx w ∧ (ret = true → rc' ≠ SQLITE_OK) ∧ ((j' = j ∧ a' = a) ∨ (i ≤ j' < i + Z.of_nat n ∧ a' = mx)) ∧
  (ret = false → j' = j → j < i → rc' = match n with O => rc | S _ => SQLITE_BUSY end)).
Proof.
  induction n as [|n IH]; intros i rc a j; cbn [set_mark].
  { apply total_ret. intros w Hw. split; [done|]. split; [done|]. split; [by left|done]. }
  eapply total_bind; [apply lock_total, closed_marking|]. intros rc1. destruct (Z.eqb_spec rc1 SQLITE_OK) as [->|H1].
  - eapply total_bind; [apply total_get|]. intros m. cbn beta. intros w [Hw ->]. eexists _, _. split; [done|].
    destruct Hw as [([] & ? & ? & ?) ?]. split; [split; [split; [split; try done; cbn; by rewrite zinsert_length|done]|done]|].
    split; [done|]. split; [right; split; [lia|done]|]. intros _ -> ?. lia.
  - destruct (Z.eqb_spec rc1 SQLITE_BUSY) as [->|H2]; cbn [negb].
    + eapply total_conseq; [apply IH|done|]. intros [[[rc' a'] j'] ret] w (Hw & Hr & Hj & Hb). split; [done|]. split; [done|].
      split; [destruct Hj as [?|[? ?]]; [by left|right; split; [lia|done]]|]. intros Hrt Hjj Hji.
      rewrite Hb by (done || lia). by destruct n.
    + apply total_ret. intros w Hw. split; [done|]. split; [done|]. split; [by left|]. by intros ?.
Qed.

(** A reader that was let in: the header it uses is the current one, and it
    ignores the log because all of it is in the database, or holds the lock of a
    mark that is not past its last frame. *)
Definition let_in (w : Wal) : Prop :=
  shmHdr0 w = hdr w ∧
  ((readLock w = 0 ∧ nBackfill w = mxFrame (hdr w)) ∨
   (0 < readLock w < WAL_NREADER ∧ ∃ m, zlookup (aReadMark w) (readLock w) = Some m ∧ m ≤ mxFrame (hdr w))).

Definition begun (rc : Z) (w : Wal) : Prop :=
  sane w ∧ writeLock w = 0 ∧ page0_mapped w = true ∧ (rc ≠ SQLITE_OK → readLock w < 0) ∧ (rc = SQLITE_OK → let_in w).

Lemma begun_not w rc : st 0 true w → rc ≠ SQLITE_OK → begun rc w.
Proof. intros (? & ? & ? & H) ?. split; [done|]. split; [done|]. split; [by apply H|]. done. Qed.

Lemma lock_read_mark_total : total (st 0 true) lock_read_mark begun.
Proof.
  unfold lock_read_mark. eapply total_bind; [apply total_get|]. intros mx. cbn beta.
  eapply total_pre with (P := λ w, marking mx w ∧ 0 ≤ mx < READMARK_NOT_USED).
  2: { intros w [Hw ->]. split; [done|]. apply Hw. }
  apply total_pure. intros Hmx.
  apply (total_bind _ _ (λ r w, marking mx w ∧ (r.1 ≤ mx ∧ (r.2 = 0 ∨ 1 ≤ r.2 < 5)))).
  { apply total_gets. intros w Hw. destruct (pick_mark_ok mx (drop 1 (aReadMark w)) ltac:(lia) 1 0 0 ltac:(lia)) as (m & k & -> & Hm & Hk).
    exists (m, k). split; [done|]. split; [done|]. split; [done|]. rewrite length_drop, (sn_marks w) in Hk by apply Hw. cbn [snd]. lia. }
  intros [mark0 i0]. cbn [fst snd]. apply total_pure. intros [Hm0 Hi0]. cbn beta iota.
  eapply total_bind; [apply total_get|]. intros ro. cbn beta. eapply total_pre with (P := marking mx); [|by intros w [? _]].
  apply (total_bind _ _ (λ r w, marking mx w ∧ (let '(rc, m, i, ret) := r in (ret = true → rc ≠ SQLITE_OK) ∧ m ≤ mx ∧ (i = 0 ∨ 1 ≤ i < 5) ∧
    (ret = false → i = 0 → rc = SQLITE_BUSY ∨ (ro .& WAL_SHM_RDONLY =? 0) = false)))).
  { destruct (_ && _) eqn:Ec.
    - eapply total_conseq; [apply (set_mark_total mx)|done|]. intros [[[rc m] i] ret] w (Hw & Hr & Hj & Hb).
      change (Z.to_nat (WAL_NREADER - 1)) with 4%nat in *. split; [done|]. split; [done|].
      split; [destruct Hj as [[_ ->]|[_ ->]]; lia|]. split; [destruct Hj as [[-> _]|[H _]]; [done|right; lia]|].
      intros Hrt ->. left. destruct Hj as [[E _]|[H _]]; [|lia]. apply Hb; [done|done|lia].
    - apply total_ret. intros w Hw. split; [done|]. split; [done|]. split; [done|]. split; [done|]. intros _ ->. right.
      destruct (ro .& WAL_SHM_RDONLY =? 0); [|done]. by rewrite orb_true_r in Ec. }
  intros [[[rc m] i] ret]. apply total_pure. intros (Hr & Hm & Hi & Hb). cbn beta iota. destruct ret.
  { apply total_ret. intros w [Hw _]. apply begun_not; [done|by apply Hr]. }
  destruct (Z.eqb_spec i 0) as [->|Hi1].
  { eapply total_bind; [apply total_assert|]. { intros w Hw. destruct (Hb eq_refl eq_refl) as [-> | ->]; [done|by rewrite orb_true_r]. }
    intros u; cbn beta; clear u. apply total_ret. intros w [Hw _]. apply begun_not; [done|]. by case_match. }
  eapply total_bind; [apply lock_total, closed_marking|]. intros rc1. cbn beta. destruct (Z.eqb_spec rc1 SQLITE_OK) as [->|Hrc1]; cbn [negb].
  2: { apply total_ret. intros w [Hw _]. apply begun_not; [done|]. by case_match. }
  apply (total_bind _ _ (λ mk w, marking mx w ∧ zlookup (aReadMark w) i = Some mk)).
  { apply total_gets. intros w Hw. destruct (zlookup_is_Some (aReadMark w) i) as [mk E].
    { rewrite (sn_marks w) by apply Hw. lia. }
    exists mk. split; [|done]. unfold get. by rewrite E. }
  intros mk. eapply total_bind; [apply total_get|]. intros same. cbn beta.
  destruct (_ || _) eqn:Ed; [apply total_ret; intros w [[[Hw _] _] _]; by apply begun_not|].
  b2p. apply (total_bind _ _ (λ _ w, (marking mx w ∧ zlookup (aReadMark w) i = Some mk) ∧ same = bool_decide (shmHdr0 w = hdr w))).
  { apply total_assert. intros w _. apply Z.leb_le. lia. }
  intros u; cbn beta; clear u. intros w [[[Hw Hmw] Hlk] ->]. b2p. exists SQLITE_OK, (set_readLock i w). split; [done|].
  destruct Hw as (Hs & ? & ? & Hp). split; [destruct Hs; by split|]. split; [done|]. split; [by apply Hp|]. split; [done|].
  intros _. split; [done|]. right. cbn. split; [unfold WAL_NREADER, SQLITE_SHM_NLOCK; lia|]. exists mk. split; [done|]. lia.
Qed.

(** ** Beginning to read *)

(** The result of an attempt. *)
Definition tried (rc : Z) (w : Wal) : Prop :=
  sane w ∧ writeLock w = 0 ∧ (rc ≠ SQLITE_OK → readLock w < 0) ∧ (rc = SQLITE_OK → let_in w).

Lemma tried_not m w rc : st 0 m w → rc ≠ SQLITE_OK → tried rc w.
Proof. intros (? & ? & ? & _) ?. by split. Qed.

Lemma walTryBeginRead_total be useWal cnt : total (st 0 useWal) (walTryBeginRead be useWal cnt)
  (λ r w, tried r.1 w ∧ (useWal = true → page0_mapped w = true) ∧ (100 < cnt → r.1 = SQLITE_PROTOCOL)).
Proof.
  unfold walTryBeginRead. eapply total_bind; [apply total_assert; intros w (_ & H & _); by apply Z.ltb_lt|]. intros u; cbn beta; clear u.
  destruct (_ && _) eqn:Ec.
  { apply total_ret. intros w Hw. split; [by eapply tried_not|]. split; [apply Hw|done]. }
  assert (cnt ≤ 100) as Hcnt by (destruct (Z.ltb_spec 5 cnt), (Z.ltb_spec 100 cnt); cbn in Ec; done || lia). clear Ec.
  apply (total_bind _ _ (λ r w, st 0 useWal w ∧ (r.1 = SQLITE_OK → page0_mapped w = true))).
  { destruct useWal; cbn [negb]; [apply total_ret; intros w Hw; split; [done|]; intros _; by apply Hw|].
    eapply total_bind; [apply walIndexReadHdr_total|]. intros [rc ch]. cbn [fst]. cbn beta iota.
    destruct (rc =? SQLITE_BUSY); [|by apply total_ret].
    eapply total_bind; [apply total_get|]. intros mp. cbn beta. eapply total_pre with (P := st 0 false); [|by intros w [[? _] _]].
    destruct mp; cbn [negb]; [|apply total_ret; intros w Hw; split; [done|by intros ?]].
    eapply total_bind; [apply lock_total, closed_st|]. intros rc1. apply total_ret. intros w Hw. split; [done|]. cbn [fst].
    destruct (Z.eqb_spec rc1 SQLITE_OK); [by intros ?|]. case_match; [by intros ?|done]. }
  intros [rc ch]. cbn [fst]. cbn beta iota. destruct (Z.eqb_spec rc SQLITE_OK) as [->|Hrc]; cbn [negb].
  2: { apply total_ret. intros w [Hw _]. split; [by eapply tried_not|]. split; [apply Hw|]. lia. }
  eapply total_pre with (P := st 0 true); [|intros w [Hw H]; eapply st_mapped; [done|by apply H]].
  eapply total_bind; [apply total_assert; intros w (_ & _ & _ & H); by apply H|]. intros u; cbn beta; clear u.
  eapply total_bind; [apply total_get|]. intros bf. cbn beta. eapply total_bind; [apply total_get|]. intros mx. cbn beta.
  apply (total_bind _ _ (λ r w, match r with
    | Some rc => tried rc w ∧ (useWal = true → page0_mapped w = true)
    | None => st 0 true w end)).
  2: { intros [rc|].
       - apply total_ret. intros w [? ?]. split; [done|]. split; [done|lia].
       - eapply total_bind; [apply lock_read_mark_total|]. intros rc. apply total_ret. intros w (H1 & H2 & H3 & H4 & H5).
         split; [by split|]. split; [done|lia]. }
  destruct (_ && _) eqn:Eb; [|apply total_ret; by intros w [[? _] _]]. b2p.
  destruct useWal; [done|]. eapply total_pre with (P := λ w, st 0 true w ∧ nBackfill w = mxFrame (hdr w)).
  2: { intros w [[Hw ->] ->]. done. }
  eapply total_bind; [apply lock_total|].
  { split; [by intros w [[? _] _]|]. intros w es [(_ & ? & ? & ?) ?] ?. by split. }
  intros rc. destruct (Z.eqb_spec rc SQLITE_OK) as [->|Hrc].
  - eapply total_bind; [apply total_get|]. intros same. cbn beta. destruct same; cbn [negb].
    + intros w [[Hw Hbf] Hsm]. symmetry in Hsm. b2p. exists (Some SQLITE_OK), (set_readLock 0 w). split; [done|].
      destruct Hw as (Hs & ? & ? & ?). split; [|done]. split; [destruct Hs; by split|]. split; [done|]. split; [done|].
      intros _. split; [done|]. by left.
    + apply total_ret. intros w [[Hw _] _]. split; [by eapply tried_not|done].
  - apply total_ret. intros w [Hw _]. destruct (negb (rc =? SQLITE_BUSY)); [|done]. split; [by eapply tried_not|done].
Qed.

Lemma begin_read_loop_total be useWal fuel : ∀ cnt ch, (fuel ≠ 0)%nat → 101 ≤ cnt + Z.of_nat fuel →
  total (st 0 useWal) (begin_read_loop be useWal fuel cnt ch) (λ r w, tried r.1 w ∧ r.1 ≠ WAL_RETRY).
Proof.
  induction fuel as [|fuel IH]; intros cnt ch Hf Hc; [done|]. cbn [begin_read_loop].
  eapply total_bind; [apply walTryBeginRead_total|]. intros [rc ch']. cbn [fst]. cbn beta iota.
  destruct (Z.eqb_spec rc WAL_RETRY) as [->|Hrc]; [|apply total_ret; by intros w [? _]].
  intros w ((Hs & Hwl & Hno & _) & Hm & Hp). specialize (Hno ltac:(done)).
  destruct fuel as [|fuel]; [specialize (Hp ltac:(lia)); done|]. apply IH; [done|lia|]. by split.
Qed.


(** A fresh connection. *)
Definition demo_reader : Wal :=
  MkWal 0 0 zero_hdr (-1) 0 0 0 0 0 [] zero_hdr zero_hdr 0 (replicate 5 0) (replicate 100 1) [(5, 0); (0, 0); (5, 0)] []
    (Config 0 1 0 (-1) 512 (λ _, true)).

