(* ===== verification/WalUndo.v ===== *)
(** * Rolling back on the write-ahead log

    [sqlite3WalSavepointUndo] and [sqlite3WalUndo] take the writer back to the
    frames of the savepoint and of the last commit: the log, the checksum and the
    wal-index are those of the remaining frames. *)

From S2P Require Import Prelude Varint WalIndex WalFrame Wal WalTxn WalDurable WalCrash.
#[local] Open Scope Z_scope.
#[local] Open Scope c_scope.
#[local] Open Scope list_scope.

Section log.
Context (bw : bool) (sz n : Z) (salt : list Z).
#[local] Abbreviation writing := (writing bw sz n salt).

(** Frames at the end become what follows the log. *)
Lemma writing_drop w fs gs tail h : writing w (fs ++ gs) tail → bigEndCksum h = big bw → aSalt h = salt →
  aFrameCksum h = log_cksum bw (hdr_cksum bw sz n salt) fs →
  writing (set_hdr h w) fs (log_bytes bw salt (log_cksum bw (hdr_cksum bw sz n salt) fs) gs ++ tail).
Proof.
  intros Hw H1 H2 H3. split; try done.
  - change (walFile (set_hdr h w)) with (walFile w). rewrite (wr_file _ _ _ _ _ _ _ Hw). unfold log_file.
    by rewrite log_bytes_app, !app_assoc.
  - pose proof (wr_frames _ _ _ _ _ _ _ Hw) as Hf. by apply Forall_app in Hf as [? _].
Qed.

(** Cleaning the wal-index after the header was set back. *)
Lemma cleanup_ok w fs gs h : knows w (fs ++ gs) → mxFrame h = Z.of_nat (length fs) →
  ∃ p, cleanup (set_hdr h w) = Ret ((), set_wiPages p (set_hdr h w)) ∧ knows (set_wiPages p (set_hdr h w)) fs.
Proof.
  intros [_ (all & Hix & Hle & Ht)] Hmx. rewrite length_app in *.
  destruct (walCleanupHash_ok (wiPages w) all (length fs) Hix) as (p & Hp & Hip & _); [lia|].
  exists p. split; [unfold cleanup; cbn; by rewrite Hmx, Hp|]. split; [done|]. exists (take (length fs) all). split; [done|].
  rewrite length_take. split; [lia|]. rewrite take_take, Nat.min_id.
  apply (f_equal (take (length fs))) in Ht. rewrite take_take, Nat.min_l, <- fmap_take, take_app_length in Ht by lia. done.
Qed.

Lemma undo_pages_ok pages all k : index_ok pages all → ∀ l i, take k (drop i all) = l → length l = k → Forall (λ x, x ≠ 1) l →
  undo_pages pages k (Z.of_nat i + 1) = Ret l.
Proof.
  intros Hix. induction k as [|k IH]; intros l i Hl Hk Hn1; [by destruct l|].
  destruct l as [|x l]; [done|]. destruct (drop i all) as [|y rest] eqn:Ed; [done|]. cbn [take] in Hl. simplify_eq.
  apply list.Forall_cons in Hn1 as [Hx Hn1]. cbn [undo_pages].
  assert (all !! i = Some x) as Hi by (rewrite <- (Nat.add_0_r i), <- lookup_drop, Ed; done).
  rewrite (walFramePgno_ok pages all (Z.of_nat i + 1) x Hix); [|by replace (Z.to_nat (Z.of_nat i + 1 - 1)) with i by lia|lia].
  cbn [mbind outcome_bind]. rewrite (proj2 (Z.eqb_neq _ _) Hx). cbn [negb c_assert mbind outcome_bind].
  replace (Z.of_nat i + 1 + 1) with (Z.of_nat (S i) + 1) by lia. rewrite (IH (take k rest) (S i)); [done| |simpl in Hk; lia|done].
  replace (S i) with (i + 1)%nat by lia. by rewrite <- drop_drop, Ed.
Qed.
End log.

(** [sqlite3WalSavepointUndo] takes the writer back to the savepoint: the
    frames written since are no part of the log any more, the running checksum
    and the wal-index are those of the frames before, and the next frames are
    written after them. *)
Theorem sqlite3WalSavepointUndo_restores bw sz n salt w fs gs tail : writing bw sz n salt w (fs ++ gs) tail →
  knows w (fs ++ gs) → writeLock w ≠ 0 →
  let s := Savepoint (Z.of_nat (length fs)) (log_cksum bw (hdr_cksum bw sz n salt) fs) (nCkpt w) in
  ∃ w' tail', sqlite3WalSavepointUndo s w = Ret (s, w') ∧ writing bw sz n salt w' fs tail' ∧ knows w' fs ∧
    shmHdr0 w' = shmHdr0 w ∧ walFile w' = walFile w.
Proof.
  intros Hw Hk Hl s. pose proof (kn_count _ _ Hk) as Hc. rewrite length_app in Hc.
  set (h := undo_hdr (Z.of_nat (length fs)) (log_cksum bw (hdr_cksum bw sz n salt) fs) (hdr w)).
  destruct (cleanup_ok w fs gs h Hk) as (p & Hp & Hkp); [done|].
  assert (writing bw sz n salt (set_hdr h w) fs (log_bytes bw salt (log_cksum bw (hdr_cksum bw sz n salt) fs) gs ++ tail)) as Hwr
    by (apply writing_drop; [done|apply Hw|apply Hw|done]).
  assert (sqlite3WalSavepointUndo s w = if decide (gs = []) then Ret (s, w) else Ret (s, set_wiPages p (set_hdr h w))) as Hrun.
  { unfold sqlite3WalSavepointUndo. erewrite sm_bind_run; [|unfold sm_gets; by rewrite (proj2 (Z.eqb_neq _ _) Hl)].
    erewrite sm_bind_run; [|unfold sm_gets; rewrite Hc, (proj2 (Z.leb_le _ _)), orb_true_r by (cbn; lia); done].
    erewrite sm_bind_run; [|done]. cbn [sp_nCkpt s]. rewrite Z.eqb_refl. cbn [negb]. cbn zeta. erewrite sm_bind_run; [|done].
    rewrite Hc. cbn [sp_mxFrame s]. destruct (decide (gs = [])) as [->|Hne].
    - rewrite (proj2 (Z.ltb_ge _ _)) by (simpl; lia). done.
    - rewrite (proj2 (Z.ltb_lt _ _)) by (destruct gs; [done|simpl; lia]).
      erewrite sm_bind_run; [|erewrite sm_bind_run; [|done]; exact Hp]. done. }
  rewrite Hrun. destruct (decide (gs = [])) as [->|Hne].
  - rewrite app_nil_r in *. by exists w, tail.
  - exists (set_wiPages p (set_hdr h w)). eexists. split; [done|]. split; [destruct Hwr; by split|]. by split.
Qed.

(** [sqlite3WalUndo] takes the writer back to the last commit, whose header is in
    the wal-index, and hands exactly the pages of the frames written since to its
    caller, in order. *)
Theorem sqlite3WalUndo_restores bw sz n salt w fs gs tail : writing bw sz n salt w (fs ++ gs) tail → knows w (fs ++ gs) →
  writeLock w ≠ 0 → Forall (λ f, f_pgno f ≠ 1) gs →
  mxFrame (shmHdr0 w) = Z.of_nat (length fs) → bigEndCksum (shmHdr0 w) = big bw → aSalt (shmHdr0 w) = salt →
  aFrameCksum (shmHdr0 w) = log_cksum bw (hdr_cksum bw sz n salt) fs →
  ∃ w' tail', sqlite3WalUndo w = Ret (f_pgno <$> gs, w') ∧ writing bw sz n salt w' fs tail' ∧ knows w' fs ∧ hdr w' = shmHdr0 w.
Proof.
  intros Hw Hk Hl H1 Hmx Ho Hs Hck. pose proof (kn_count _ _ Hk) as Hc. rewrite length_app in Hc.
  pose proof (writing_drop bw sz n salt w fs gs tail (shmHdr0 w) Hw Ho Hs Hck) as Hwr.
  destruct (cleanup_ok w fs gs (shmHdr0 w) Hk Hmx) as (p & Hp & Hkp).
  destruct (kn_index _ _ Hk) as (all & Hix & Hle & Ht). rewrite length_app in Hle, Ht.
  assert (undo_pages (wiPages w) (length gs) (Z.of_nat (length fs) + 1) = Ret (f_pgno <$> gs)) as Hu.
  { apply (undo_pages_ok _ all); [done| |by rewrite length_fmap|by apply list.Forall_fmap].
    apply (f_equal (drop (length fs))) in Ht. rewrite skipn_firstn_comm, fmap_app, drop_app_length' in Ht by (by rewrite length_fmap).
    by replace (length fs + length gs - length fs)%nat with (length gs) in Ht by lia. }
  assert (∀ P : list Z → Wal → Prop, (P (f_pgno <$> gs) (if decide (gs = []) then set_hdr (shmHdr0 w) w else set_wiPages p (set_hdr (shmHdr0 w) w))) →
    ∃ a w', sqlite3WalUndo w = Ret (a, w') ∧ P a w') as Hrun.
  { intros P HP. unfold sqlite3WalUndo. eapply run_then; [done|]. rewrite (proj2 (Z.eqb_neq _ _) Hl). eapply run_then; [done|].
    eapply run_then; [done|]. eapply run_then; [done|]. change (hdr (set_hdr ?h w)) with h. rewrite Hmx, Hc.
    replace (Z.to_nat (Z.of_nat (length fs + length gs) - Z.of_nat (length fs))) with (length gs) by lia.
    eapply run_then; [unfold sm_gets; change (wiPages (set_hdr ?h w)) with (wiPages w); rewrite Hu; done|]. destruct (decide (gs = [])) as [->|Hne].
    - rewrite Nat.add_0_r, Z.eqb_refl. cbn [negb]. eapply run_then; [done|]. by eexists _, _.
    - rewrite (proj2 (Z.eqb_neq _ _)) by (destruct gs; [done|simpl; lia]). cbn [negb]. eapply run_then; [exact Hp|]. by eexists _, _. }
  destruct (Hrun (λ a w', a = f_pgno <$> gs ∧ (∃ tail', writing bw sz n salt w' fs tail') ∧ knows w' fs ∧ hdr w' = shmHdr0 w))
    as (a & w' & E & -> & [tail' Hw'] & Hk' & Hh').
  - split; [done|]. destruct (decide (gs = [])) as [->|Hne].
    + split; [by eexists|]. split; [|done]. split; [done|]. rewrite app_nil_r in Hk. exact (kn_index _ _ Hk).
    + split; [eexists; destruct Hwr; by split|]. by split.
  - by exists w', tail'.
Qed.

(** ** Witnesses *)

Definition demo_frames : list frame := [demo_frame; Frame 5 0 (replicate 512 4)].
Definition demo_pages2 : list wi_page :=
  match append_frames (λ _, true) 0 0 [7; 5] [] with Ret (_, p, _) => p | Undef _ => [] end.

(** A writer with a committed and an uncommitted frame. *)
Definition demo_writer : Wal :=
  let salt := replicate 8 0 in
  let c := hdr_cksum false 512 0 salt in
  let h fs := commit_hdr (Z.of_nat (length fs)) 9 512 (set_cksum (log_cksum false c fs) (wal_hdr false 512 0 salt)) in
  MkWal 512 0 (h demo_frames) 1 1 0 0 0 0 demo_pages2 (h [demo_frame]) (h [demo_frame]) 0 [0; 1]
    (log_file false 512 0 salt demo_frames) [] [] demo_config.

Lemma demo_writer_ok : writing false 512 0 (replicate 8 0) demo_writer demo_frames [] ∧ knows demo_writer demo_frames.
Proof.
  split.
  - split; [by rewrite app_nil_r| |done|done|done]. constructor; [apply demo_frame_ok|constructor; [|constructor]].
    split; [done|done|done|apply Forall_replicate; done].
  - split; [done|]. exists [7; 5]. split; [|done].
    destruct (append_frames_ok [] [] 0 [7; 5]) as (p & E & Hix); [apply index_ok_nil|simpl; lia|repeat constructor|done|done|].
    change (wiPages demo_writer) with demo_pages2. unfold demo_pages2. change (Z.of_nat 0) with 0 in E. by rewrite E.
Qed.

Lemma sqlite3WalSavepointUndo_restores_witness :
  let s := Savepoint 1 (log_cksum false (hdr_cksum false 512 0 (replicate 8 0)) [demo_frame]) 0 in
  ∃ w' tail', sqlite3WalSavepointUndo s demo_writer = Ret (s, w') ∧ writing false 512 0 (replicate 8 0) w' [demo_frame] tail'.
Proof.
  destruct (sqlite3WalSavepointUndo_restores false 512 0 (replicate 8 0) demo_writer [demo_frame] [Frame 5 0 (replicate 512 4)] [])
    as (w' & tail' & R & W & _); [apply demo_writer_ok|apply demo_writer_ok|done|].
  exists w', tail'. split; [exact R|exact W].
Defined.

Lemma sqlite3WalUndo_restores_witness :
  ∃ w' tail', sqlite3WalUndo demo_writer = Ret ([5], w') ∧ writing false 512 0 (replicate 8 0) w' [demo_frame] tail'.
Proof.
  destruct (sqlite3WalUndo_restores false 512 0 (replicate 8 0) demo_writer [demo_frame] [Frame 5 0 (replicate 512 4)] [])
    as (w' & tail' & R & W & _); [apply demo_writer_ok|apply demo_writer_ok|done|repeat constructor; done|done|done|done|reflexivity|].
  exists w', tail'. split; [exact R|exact W].
Defined.
