(* ===== verification/WalHeader.v ===== *)
(** * Reading the wal-index header while it is written

    [walIndexWriteHdr] copies the header into shared memory twice, the second
    copy first; [walIndexTryHdr] reads the first copy, then the second, and
    compares them. The words of a copy are stored and loaded one by one, in any
    order, while the other process runs; the barriers order the two copies. A
    step relation models all interleavings. *)

From S2P Require Import Prelude Varint WalIndex WalFrame Wal.
From stdpp Require Import relations.
#[local] Open Scope Z_scope.
#[local] Open Scope list_scope.

(** [sizeof(WalIndexHdr)/sizeof(u32)]. *)
Definition nword : nat := 12.

(** [aHdr[0]] and [aHdr[1]] of shared memory, the words the writer has still to
    store and the reader to load, and [h1] and [h2] of the reader. *)
Record hstate := HState {
  m0 : nat → Z; m1 : nat → Z;
  pw1 : list nat; pw0 : list nat;
  pr0 : list nat; pr1 : list nat;
  h1 : nat → Z; h2 : nat → Z }.

Definition upd (f : nat → Z) (i : nat) (x : Z) : nat → Z := λ j, if decide (j = i) then x else f j.

Inductive hstep (new : nat → Z) : hstate → hstate → Prop :=
  (** [memcpy(&aHdr[1], &pWal->hdr, sizeof(WalIndexHdr))] *)
  | W1 a b i l pw0 pr0 pr1 h1 h2 :
      hstep new (HState a b (i :: l) pw0 pr0 pr1 h1 h2) (HState a (upd b i (new i)) l pw0 pr0 pr1 h1 h2)
  (** [memcpy(&aHdr[0], &pWal->hdr, sizeof(WalIndexHdr))] *)
  | W0 a b i l pr0 pr1 h1 h2 :
      hstep new (HState a b [] (i :: l) pr0 pr1 h1 h2) (HState (upd a i (new i)) b [] l pr0 pr1 h1 h2)
  (** [memcpy(&h1, &aHdr[0], sizeof(h1))] *)
  | R0 a b pw1 pw0 i l pr1 h1 h2 :
      hstep new (HState a b pw1 pw0 (i :: l) pr1 h1 h2) (HState a b pw1 pw0 l pr1 (upd h1 i (a i)) h2)
  (** [memcpy(&h2, &aHdr[1], sizeof(h2))] *)
  | R1 a b pw1 pw0 i l h1 h2 :
      hstep new (HState a b pw1 pw0 [] (i :: l) h1 h2) (HState a b pw1 pw0 [] l h1 (upd h2 i (b i))).

(** Both copies hold [old]; each process goes through the words in some order. *)
Definition starts (old : nat → Z) (s : hstate) : Prop :=
  m0 s = old ∧ m1 s = old ∧ (∀ i, (i < nword)%nat → i ∈ pw1 s ∧ i ∈ pw0 s ∧ i ∈ pr0 s ∧ i ∈ pr1 s).

(** The first copy is untouched until the second is complete; what was read of
    the first before that is old, and what is read of the second after the first
    began to change is new. *)
Record hinv (old new : nat → Z) (s : hstate) : Prop := {
  hi_m0 : pw1 s ≠ [] → m0 s = old;
  hi_m1 : ∀ i, (i < nword)%nat → i ∉ pw1 s → m1 s i = new i;
  hi_h1 : pw1 s ≠ [] → ∀ i, (i < nword)%nat → i ∉ pr0 s → h1 s i = old i;
  hi_h2 : pr0 s = [] → (∀ i, (i < nword)%nat → h1 s i = old i) ∨ (pw1 s = [] ∧ ∀ i, (i < nword)%nat → i ∉ pr1 s → h2 s i = new i);
  hi_pr : pr0 s ≠ [] → ∀ i, (i < nword)%nat → i ∈ pr1 s }.

Lemma hinv_step old new s s' : hinv old new s → hstep new s s' → hinv old new s'.
Proof.
  intros [H0 H1 H2 H3 H4] Hs. destruct Hs; cbn in *; split; cbn; unfold upd in *.
  (* W1 *)
  - intros _. by apply H0.
  - intros j Hj Hn. case_decide; [by subst|]. apply H1; [done|]. by intros [->|?]%list.elem_of_cons.
  - intros _. by apply H2.
  - intros E. destruct (H3 E) as [?|[? _]]; [by left|done].
  - done.
  (* W0 *)
  - done.
  - done.
  - done.
  - done.
  - done.
  (* R0 *)
  - done.
  - done.
  - intros Hp j Hj Hn. case_decide; [subst; by rewrite H0|]. apply H2; [done|done|]. by intros [->|?]%list.elem_of_cons.
  - intros ->. destruct pw2 as [|x pw2].
    + right. split; [done|]. intros j Hj Hn. destruct Hn. by apply H4.
    + left. intros j Hj. case_decide; [subst; by rewrite H0|]. apply H2; [done|done|]. by intros [->|?%list.elem_of_nil]%list.elem_of_cons.
  - intros _. by apply H4.
  (* R1 *)
  - done.
  - done.
  - done.
  - intros _. destruct (H3 eq_refl) as [?|[-> Hr]]; [by left|right]. split; [done|]. intros j Hj Hn. case_decide.
    + subst. apply H1; [done|apply list.not_elem_of_nil].
    + apply Hr; [done|]. by intros [->|?]%list.elem_of_cons.
  - done.
Qed.

Lemma hinv_starts old new s : starts old s → hinv old new s.
Proof.
  intros (E0 & E1 & Hc). split.
  - done.
  - intros i Hi Hn. by destruct Hn; apply Hc.
  - intros _ i Hi Hn. by destruct Hn; apply Hc.
  - intros E. exfalso. destruct (Hc 0%nat) as (_ & _ & H & _); [unfold nword; lia|]. rewrite E in H. by apply list.elem_of_nil in H.
  - intros _ i Hi. by apply Hc.
Qed.

(** C23: A reader never accepts a mixture of two headers: whatever the order in which
    the two processes store and load the words and however their steps
    interleave, if the two copies that [walIndexTryHdr] read agree, they are the
    whole old header or the whole new one. *)
Theorem walIndexTryHdr_not_torn old new s s' : starts old s → rtc (hstep new) s s' → pr0 s' = [] → pr1 s' = [] →
  (∀ i, (i < nword)%nat → h1 s' i = h2 s' i) →
  (∀ i, (i < nword)%nat → h1 s' i = old i) ∨ (∀ i, (i < nword)%nat → h1 s' i = new i).
Proof.
  intros Hs Hr E0 E1 Heq. assert (hinv old new s') as [_ _ _ H3 _].
  { pose proof (hinv_starts old new s Hs) as Hi. clear Hs E0 E1 Heq. induction Hr as [|s1 s2 s3 H12 _ IH]; [done|].
    by apply IH, (hinv_step _ _ s1). }
  destruct (H3 E0) as [?|[_ Hn]]; [by left|right]. intros i Hi. rewrite Heq by done. apply Hn; [done|]. rewrite E1. apply list.not_elem_of_nil.
Qed.

(** A run in which the writer stores everything before the reader starts. *)
Lemma run_w1 new a b l pw0 r0 r1 x y : rtc (hstep new) (HState a b l pw0 r0 r1 x y) (HState a (foldl (λ f i, upd f i (new i)) b l) [] pw0 r0 r1 x y).
Proof. revert b. induction l as [|i l IH]; intros b; [apply rtc_refl|]. eapply rtc_l; [apply W1|]. apply IH. Qed.
Lemma run_w0 new a b l r0 r1 x y : rtc (hstep new) (HState a b [] l r0 r1 x y) (HState (foldl (λ f i, upd f i (new i)) a l) b [] [] r0 r1 x y).
Proof. revert a. induction l as [|i l IH]; intros a; [apply rtc_refl|]. eapply rtc_l; [apply W0|]. apply IH. Qed.
Lemma run_r0 new a b l r1 x y : rtc (hstep new) (HState a b [] [] l r1 x y) (HState a b [] [] [] r1 (foldl (λ f i, upd f i (a i)) x l) y).
Proof. revert x. induction l as [|i l IH]; intros x; [apply rtc_refl|]. eapply rtc_l; [apply R0|]. apply IH. Qed.
Lemma run_r1 new a b l x y : rtc (hstep new) (HState a b [] [] [] l x y) (HState a b [] [] [] [] x (foldl (λ f i, upd f i (b i)) y l)).
Proof. revert y. induction l as [|i l IH]; intros y; [apply rtc_refl|]. eapply rtc_l; [apply R1|]. apply IH. Qed.

Lemma walIndexTryHdr_not_torn_witness :
  let c k := foldl (λ f i, upd f i k) (λ _, 0) (seq 0 nword) in
  (∀ i, (i < nword)%nat → c 5 i = 0) ∨ (∀ i, (i < nword)%nat → c 5 i = 5).
Proof.
  set (l := seq 0 nword). set (z := λ _ : nat, 0). set (new := λ _ : nat, 5).
  apply (walIndexTryHdr_not_torn z new (HState z z l l l l z z)
    (HState (foldl (λ f i, upd f i (new i)) z l) (foldl (λ f i, upd f i (new i)) z l) [] [] [] []
      (foldl (λ f i, upd f i 5) z l) (foldl (λ f i, upd f i 5) z l))).
  - split; [done|]. split; [done|]. intros i Hi. assert (i ∈ l) by (apply elem_of_seq; lia). done.
  - etrans; [apply run_w1|]. etrans; [apply run_w0|]. etrans; [apply run_r0|].
    etrans; [apply run_r1|]. apply rtc_refl.
  - done.
  - done.
  - done.
Defined.
