(* ===== verification/WalSort.v ===== *)
(** * Sorting the frames of the write-ahead log

    [walMerge] and [walMergesort] of src/wal.c, which a checkpoint uses to go
    through the pages of the log in order. The lists are parts of one array,
    sorted in place. *)

From S2P Require Import Prelude WalIndex.
From Stdlib Require Import Sorting.Sorted.
#[local] Open Scope Z_scope.
#[local] Open Scope c_scope.
#[local] Open Scope list_scope.

(** [while( iRight<nRight || iLeft<nLeft )]: the entries written to [aTmp]. The
    lists are what is left of [aLeft] and [aRight]. *)
Fixpoint merge_loop (fuel : nat) (aContent aLeft aRight : list Z) : outcome (list Z) :=
  match aLeft, aRight with
  | [], [] => Ret []
  | _, _ =>
      match fuel with
      | O => Undef OutOfFuel
      | S fuel' =>
          '(logpage, aLeft, aRight) ←
            match aLeft, aRight with
            | l :: aLeft', r :: aRight' =>
                a ← get aContent l; b ← get aContent r;
                Ret (if a <? b then (l, aLeft', aRight) else (r, aLeft, aRight'))
            | l :: aLeft', [] => Ret (l, aLeft', [])
            | [], r :: aRight' => Ret (r, [], aRight')
            | [], [] => Undef OutOfBounds
            end;
          dbpage ← get aContent logpage;
          aLeft ← match aLeft with
                  | l :: aLeft' => a ← get aContent l; Ret (if a =? dbpage then aLeft' else aLeft)
                  | [] => Ret []
                  end;
          _ ← match aLeft with l :: _ => a ← get aContent l; c_assert (dbpage <? a) | [] => Ret () end;
          _ ← match aRight with r :: _ => a ← get aContent r; c_assert (dbpage <? a) | [] => Ret () end;
          aTmp ← merge_loop fuel' aContent aLeft aRight;
          Ret (logpage :: aTmp)
      end
  end.

(** The array, and the place and the length of the merged list in it; [nTmp] is
    the size of the temporary buffer. *)
Definition walMerge (aContent a : list Z) (nTmp aLeft nLeft aRight nRight : Z) : outcome (list Z * Z * Z) :=
  _ ← c_assert ((0 <? nLeft) && (0 <? nRight));
  l ← get_slice a aLeft nLeft;
  r ← get_slice a aRight nRight;
  aTmp ← merge_loop (length l + length r) aContent l r;
  let iOut := Z.of_nat (length aTmp) in
  _ ← (if nTmp <? iOut then Undef OutOfBounds else Ret ());
  a ← put_slice a aLeft aTmp;
  Ret (a, aLeft, iOut).

Definition nSub : nat := 13.

(** One entry of [aSub]: the place and the length of its list. *)
Definition sublist : Type := option (Z * Z).

(** The sub-list [aSub[iSub]] is merged into [aMerge], with the assertions on it;
    [n] is [iList] or [nList]. *)
Definition merge_sub (aContent : list Z) (nTmp n : Z) (aSub : list sublist) (iSub : Z) (a : list Z) (aMerge nMerge : Z)
    : outcome (list Z * Z * Z) :=
  p ← match zlookup aSub iSub with Some p => Ret p | None => Undef OutOfBounds end;
  '(pList, pn) ← deref p;
  _ ← c_assert (pn <=? 1 .<< iSub);
  _ ← c_assert (pList =? (n .& Z.lnot ((2 .<< iSub) - 1)));
  walMerge aContent a nTmp pList pn aMerge nMerge.

(** [for(iSub=0; iList & (1<<iSub); iSub++)] *)
Fixpoint carry_loop (fuel : nat) (aContent : list Z) (nTmp iList : Z) (aSub : list sublist) (iSub : Z) (a : list Z) (aMerge nMerge : Z)
    : outcome (Z * list Z * Z * Z) :=
  if iList .& (1 .<< iSub) =? 0 then Ret (iSub, a, aMerge, nMerge) else
  match fuel with
  | O => Undef OutOfFuel
  | S fuel' =>
      '(a, aMerge, nMerge) ← merge_sub aContent nTmp iList aSub iSub a aMerge nMerge;
      carry_loop fuel' aContent nTmp iList aSub (iSub + 1) a aMerge nMerge
  end.

(** [for(iList=0; iList<nList; iList++)] with [left] rounds left. *)
Fixpoint sort_loop (left : nat) (aContent : list Z) (nTmp iList : Z) (aSub : list sublist) (iSub : Z) (a : list Z) (aMerge nMerge : Z)
    : outcome (list sublist * Z * list Z * Z * Z) :=
  match left with
  | O => Ret (aSub, iSub, a, aMerge, nMerge)
  | S left' =>
      '(iSub, a, aMerge, nMerge) ← carry_loop nSub aContent nTmp iList aSub 0 a iList 1;
      _ ← (if iSub <? Z.of_nat (length aSub) then Ret () else Undef OutOfBounds);
      sort_loop left' aContent nTmp (iList + 1) (zinsert aSub iSub (Some (aMerge, nMerge))) iSub a aMerge nMerge
  end.

(** [for(iSub++; iSub<ArraySize(aSub); iSub++)] with [left] rounds left. *)
Fixpoint final_loop (left : nat) (aContent : list Z) (nTmp nList : Z) (aSub : list sublist) (iSub : Z) (a : list Z) (aMerge nMerge : Z)
    : outcome (list Z * Z * Z) :=
  match left with
  | O => Ret (a, aMerge, nMerge)
  | S left' =>
      '(a, aMerge, nMerge) ← (if negb (nList .& (1 .<< iSub) =? 0) then merge_sub aContent nTmp nList aSub iSub a aMerge nMerge
                              else Ret (a, aMerge, nMerge));
      final_loop left' aContent nTmp nList aSub (iSub + 1) a aMerge nMerge
  end.

(** The array and [*pnList]. *)
Definition walMergesort (aContent : list Z) (nTmp : Z) (aList : list Z) (nList : Z) : outcome (list Z * Z) :=
  _ ← c_assert ((nList <=? HASHTABLE_NPAGE) && (0 <? nList));
  '(aSub, iSub, a, aMerge, nMerge) ← sort_loop (Z.to_nat nList) aContent nTmp 0 (replicate nSub None) 0 aList 0 0;
  '(a, aMerge, nMerge) ← final_loop (nSub - Z.to_nat (iSub + 1)) aContent nTmp nList aSub (iSub + 1) a aMerge nMerge;
  _ ← c_assert (aMerge =? 0);
  Ret (a, nMerge).

(** ** Merging *)

Definition by_key (c : list Z) (i j : Z) : Prop := hget c i < hget c j.

Definition in_content (c : list Z) (l : list Z) : Prop := Forall (λ i, 0 ≤ i < Z.of_nat (length c)) l.

Section Merge.
Context (c : list Z).

Lemma head_assert d l : in_content c l → Forall (λ i, d < hget c i) l →
  match l with i :: _ => a ← get c i; c_assert (d <? a) | [] => Ret () end = Ret ().
Proof.
  destruct l as [|i l]; [done|]. intros [Hi _]%list.Forall_cons [Hd _]%list.Forall_cons.
  rewrite get_hget by done. cbn. by rewrite (proj2 (Z.ltb_lt _ _) Hd).
Qed.

Lemma head_kept d l : in_content c l → Forall (λ i, d < hget c i) l →
  match l with i :: l' => a ← get c i; Ret (if a =? d then l' else l) | [] => Ret [] end = Ret l.
Proof.
  destruct l as [|i l]; [done|]. intros [Hi _]%list.Forall_cons [Hd _]%list.Forall_cons.
  rewrite get_hget by done. cbn. by rewrite (proj2 (Z.eqb_neq _ _)) by lia.
Qed.

Lemma sorted_above i l d : StronglySorted (by_key c) (i :: l) → d ≤ hget c i → Forall (λ j, d < hget c j) l.
Proof. intros [_ H]%StronglySorted_inv Hd. eapply list.Forall_impl; [exact H|]. unfold by_key. cbn. lia. Qed.

(** What merging gives: the entries on the right, and those on the left whose key
    is not on the right. *)
Record merged (l r out : list Z) : Prop := {
  mg_sorted : StronglySorted (by_key c) out;
  mg_elem : ∀ i, i ∈ out ↔ i ∈ r ∨ (i ∈ l ∧ ∀ j, j ∈ r → hget c j ≠ hget c i);
  mg_length : (length out ≤ length l + length r)%nat }.

Lemma merged_left x l r out : merged l r out → Forall (λ j, hget c x < hget c j) l → Forall (λ j, hget c x < hget c j) r →
  merged (x :: l) r (x :: out).
Proof.
  intros [Hs He Hl] Hxl Hxr. rewrite list.Forall_forall in Hxl, Hxr. split.
  - constructor; [done|]. apply list.Forall_forall. intros j [Hj|[Hj _]]%He; [by apply Hxr|by apply Hxl].
  - intros i. rewrite !list.elem_of_cons, He. split.
    + intros [->|[?|[? ?]]]; [|by left|by right; split; [right|]]. right. split; [by left|]. intros j ?%Hxr. lia.
    + intros [?|[[->|?] ?]]; [by right; left|by left|by right; right].
  - cbn. lia.
Qed.

Lemma merged_right y l r out : merged l r out → Forall (λ j, hget c y < hget c j) l → Forall (λ j, hget c y < hget c j) r →
  merged l (y :: r) (y :: out).
Proof.
  intros [Hs He Hl] Hyl Hyr. rewrite list.Forall_forall in Hyl, Hyr. split.
  - constructor; [done|]. apply list.Forall_forall. intros j [Hj|[Hj _]]%He; [by apply Hyr|by apply Hyl].
  - intros i. rewrite !list.elem_of_cons, He. split.
    + intros [->|[?|[Hi Hn]]]; [by left; left|by left; right|]. right. split; [done|].
      intros j [->|?]%list.elem_of_cons; [|by apply Hn]. pose proof (Hyl _ Hi). lia.
    + intros [[->|?]|[? Hn]]; [by left|by right; left|]. right; right. split; [done|].
      intros j Hj. apply Hn. by right.
  - cbn. lia.
Qed.

Lemma merged_drop x y l r out : hget c x = hget c y → merged l (y :: r) out → merged (x :: l) (y :: r) out.
Proof.
  intros E [Hs He Hl]. split; [done| |cbn; cbn in Hl; lia].
  intros i. rewrite He. split; [intros [?|[? ?]]; [by left|by right; split; [right|]]|].
  intros [?|[[->|?]%list.elem_of_cons Hn]]; [by left| |by right].
  destruct (Hn y); [by left|done].
Qed.

Lemma merge_loop_ok : ∀ fuel l r, (length l + length r ≤ fuel)%nat → in_content c l → in_content c r →
  StronglySorted (by_key c) l → StronglySorted (by_key c) r →
  ∃ out, merge_loop fuel c l r = Ret out ∧ merged l r out.
Proof.
  assert (∀ p l r, in_content c l → in_content c r → Forall (λ j, hget c p < hget c j) r →
    Forall (λ j, hget c p < hget c j) l → 0 ≤ p < Z.of_nat (length c) → ∀ fuel out, merge_loop fuel c l r = Ret out →
    (dbpage ← get c p;
     aLeft ← match l with i :: l' => a ← get c i; Ret (if a =? dbpage then l' else l) | [] => Ret [] end;
     _ ← match aLeft with i :: _ => a ← get c i; c_assert (dbpage <? a) | [] => Ret () end;
     _ ← match r with i :: _ => a ← get c i; c_assert (dbpage <? a) | [] => Ret () end;
     aTmp ← merge_loop fuel c aLeft r; Ret (p :: aTmp)) = Ret (p :: out)) as Hrest.
  { intros p l r Hl Hr Hpr Hpl Hp fuel out E. rewrite get_hget by done. cbn [mbind outcome_bind].
    rewrite head_kept by done. cbn [mbind outcome_bind]. rewrite !head_assert by done. cbn [mbind outcome_bind]. by rewrite E. }
  induction fuel as [|fuel IH]; intros l r Hf Hl Hr Hsl Hsr.
  { destruct l, r; cbn in Hf; try lia. exists []. split; [done|]. split; [constructor| |done].
    intros i. rewrite list.elem_of_nil. naive_solver. }
  destruct l as [|x l], r as [|y r]; cbn in Hf; cbn [merge_loop].
  { exists []. split; [done|]. split; [constructor| |done]. intros i. rewrite list.elem_of_nil. naive_solver. }
  - pose proof (sorted_above _ _ _ Hsr (Z.le_refl _)) as Hy. apply list.Forall_cons in Hr as [Hy0 Hr]. apply StronglySorted_inv in Hsr as [Hsr _].
    destruct (IH [] r) as (out & E & Hm); try done; [cbn; lia|]. exists (y :: out). split; [|by apply merged_right].
    cbn [mbind outcome_bind]. apply (Hrest y [] r); done.
  - pose proof (sorted_above _ _ _ Hsl (Z.le_refl _)) as Hx. apply list.Forall_cons in Hl as [Hx0 Hl]. apply StronglySorted_inv in Hsl as [Hsl _].
    destruct (IH l []) as (out & E & Hm); try done; [cbn; lia|]. exists (x :: out). split; [|by apply merged_left].
    cbn [mbind outcome_bind]. apply (Hrest x l []); done.
  - pose proof (sorted_above _ _ (hget c x) Hsl ltac:(lia)) as Hx. pose proof (sorted_above _ _ (hget c y) Hsr ltac:(lia)) as Hy.
    pose proof Hl as [Hx0 Hl']%list.Forall_cons. pose proof Hr as [Hy0 Hr']%list.Forall_cons.
    pose proof (StronglySorted_inv Hsl) as [Hsl' _]. pose proof (StronglySorted_inv Hsr) as [Hsr' _].
    rewrite (get_hget c x), (get_hget c y) by done. cbn [mbind outcome_bind].
    destruct (Z.ltb_spec (hget c x) (hget c y)) as [Hlt|Hge].
    + assert (Forall (λ j, hget c x < hget c j) (y :: r)) as Hxr.
      { constructor; [done|]. eapply list.Forall_impl; [exact Hy|]. cbn. lia. }
      destruct (IH l (y :: r)) as (out & E & Hm); try done; [cbn; lia|]. exists (x :: out). split; [|by apply merged_left].
      apply (Hrest x l (y :: r)); done.
    + destruct (Z.eq_dec (hget c x) (hget c y)) as [He|Hne].
      * assert (Forall (λ j, hget c y < hget c j) l) as Hyl by (rewrite <- He; done).
        destruct (IH l r) as (out & E & Hm); try done; [lia|]. exists (y :: out).
        split; [|apply merged_drop; [done|by apply merged_right]].
        pose proof (Hrest y l r Hl' Hr' Hy Hyl Hy0 fuel out E) as H. rewrite (get_hget c y) in H |- * by done. cbn [mbind outcome_bind] in H |- *.
        rewrite (get_hget c x) by done. cbn [mbind outcome_bind]. rewrite (proj2 (Z.eqb_eq _ _) He).
        rewrite head_kept in H by done. exact H.
      * assert (Forall (λ j, hget c y < hget c j) (x :: l)) as Hyl.
        { constructor; [lia|]. eapply list.Forall_impl; [exact Hx|]. cbn. lia. }
        destruct (IH (x :: l) r) as (out & E & Hm); try done; [cbn; lia|]. exists (y :: out). split; [|by apply merged_right].
        apply (Hrest y (x :: l) r); done.
Qed.

(** ** Last occurrences *)

(** The indices of the range [lo, hi) whose key does not occur later in the range,
    in the order of their keys. *)
Record latest (lo hi : Z) (l : list Z) : Prop := {
  la_sorted : StronglySorted (by_key c) l;
  la_elem : ∀ i, i ∈ l ↔ lo ≤ i < hi ∧ ∀ j, i < j < hi → hget c j ≠ hget c i }.

Lemma latest_has lo hi l i : latest lo hi l → lo ≤ i < hi → ∃ j, j ∈ l ∧ i ≤ j ∧ hget c j = hget c i.
Proof.
  intros [_ He]. remember (Z.to_nat (hi - i)) as n eqn:En. revert i En.
  induction n as [n IH] using lt_wf_ind. intros i -> Hi.
  destruct (decide (Exists (λ j, hget c j = hget c i) (seqZ (i + 1) (hi - i - 1)))) as [(j & Hj%list.elem_of_seqZ & E)%list.Exists_exists|Hno].
  - destruct (IH (Z.to_nat (hi - j)) ltac:(lia) j eq_refl ltac:(lia)) as (k & ? & ? & ?). exists k. split; [done|]. split; [lia|congruence].
  - exists i. split; [|done]. apply He. split; [done|]. intros j Hj E. apply Hno. apply list.Exists_exists. exists j.
    split; [apply list.elem_of_seqZ; lia|done].
Qed.

Lemma latest_merged lo mid hi l r out : lo ≤ mid ≤ hi → latest lo mid l → latest mid hi r → merged l r out → latest lo hi out.
Proof.
  intros Hm Hl Hr [Hs He _]. split; [done|]. intros i. rewrite He, (la_elem _ _ _ Hl), (la_elem _ _ _ Hr). split.
  - intros [[? Hn]|[[? Hn] Hk]]; [split; [lia|done]|]. split; [lia|]. intros j Hj.
    destruct (decide (j < mid)); [apply Hn; lia|].
    destruct (latest_has _ _ _ j Hr ltac:(lia)) as (k & Hkr & _ & <-). by apply Hk.
  - intros [Hi Hn]. destruct (decide (mid ≤ i)); [left; split; [lia|done]|]. right. split; [split; [lia|intros; apply Hn; lia]|].
    intros j Hj. apply (la_elem _ _ _ Hr) in Hj. apply Hn. lia.
Qed.

Lemma latest_one i : latest i (i + 1) [i].
Proof.
  split; [repeat constructor|]. intros j. rewrite list_elem_of_singleton. split; [intros ->; split; lia|lia].
Qed.

Lemma latest_in lo hi l : latest lo hi l → 0 ≤ lo → hi ≤ Z.of_nat (length c) → in_content c l.
Proof. intros H Hlo Hhi. apply list.Forall_forall. intros i Hi%(la_elem _ _ _ H). lia. Qed.

(** ** The array *)

Definition slice_is (a : list Z) (off : Z) (l : list Z) : Prop :=
  ∀ k : nat, (k < length l)%nat → a !! (Z.to_nat off + k)%nat = l !! k.

Lemma slice_is_le a off l : slice_is a off l → l ≠ [] → 0 ≤ off → off + Z.of_nat (length l) ≤ Z.of_nat (length a).
Proof.
  intros H Hne Hoff. destruct l as [|x l]; [done|]. specialize (H (length l)). cbn in H.
  destruct (lookup_lt_is_Some_2 (x :: l) (length l) ltac:(cbn; lia)) as [y Hy].
  rewrite Hy in H. specialize (H ltac:(lia)). apply lookup_lt_Some in H. cbn. lia.
Qed.

Lemma slice_is_get a off l : slice_is a off l → l ≠ [] → 0 ≤ off → get_slice a off (Z.of_nat (length l)) = Ret l.
Proof.
  intros H Hne Hoff. pose proof (slice_is_le _ _ _ H Hne Hoff) as Hle. unfold get_slice.
  rewrite (proj2 (Z.leb_le 0 off)), (proj2 (Z.leb_le 0 _)), (proj2 (Z.leb_le _ _) Hle) by lia. cbn [andb]. f_equal.
  rewrite Nat2Z.id. apply list_eq. intros k. destruct (decide (k < length l)%nat) as [Hk|Hk].
  - rewrite lookup_take_lt, lookup_drop by done. by apply H.
  - rewrite lookup_take_ge by lia. symmetry. apply lookup_ge_None. lia.
Qed.

Lemma slice_is_put a off l : 0 ≤ off → off + Z.of_nat (length l) ≤ Z.of_nat (length a) →
  ∃ a', put_slice a off l = Ret a' ∧ length a' = length a ∧ slice_is a' off l ∧
    ∀ j : nat, (Z.of_nat j < off ∨ off + Z.of_nat (length l) ≤ Z.of_nat j) → a' !! j = a !! j.
Proof.
  intros Hoff Hle. unfold put_slice. rewrite (proj2 (Z.leb_le 0 off)), (proj2 (Z.leb_le _ _) Hle) by lia. cbn [andb].
  eexists. split; [done|]. split; [rewrite !length_app, length_take, length_drop; lia|]. split.
  - intros k Hk. rewrite lookup_app_r by (rewrite length_take; lia). rewrite length_take, lookup_app_l by lia. f_equal. lia.
  - intros j Hj. destruct (decide (Z.of_nat j < off)).
    + rewrite lookup_app_l by (rewrite length_take; lia). apply lookup_take_lt. lia.
    + rewrite lookup_app_r by (rewrite length_take; lia). rewrite length_take, lookup_app_r, lookup_drop by lia. f_equal. lia.
Qed.

(** The array holds at [lo] the last occurrences of the range [lo, hi). *)
Definition block (a : list Z) (lo hi n : Z) : Prop :=
  ∃ l, n = Z.of_nat (length l) ∧ n ≤ hi - lo ∧ slice_is a lo l ∧ latest lo hi l.

Lemma block_pos a lo hi n : block a lo hi n → lo < hi → 0 < n.
Proof.
  intros (l & -> & _ & _ & Hl) Hlt. destruct (latest_has _ _ _ lo Hl ltac:(lia)) as (j & Hj & _). destruct l; [by apply list.elem_of_nil in Hj|cbn; lia].
Qed.

Lemma block_ext a a' lo hi n : 0 ≤ lo → (∀ j : nat, lo ≤ Z.of_nat j < hi → a' !! j = a !! j) → block a lo hi n → block a' lo hi n.
Proof. intros Hlo He (l & -> & Hn & Hs & Hl). exists l. do 2 (split; [done|]). split; [|done]. intros k Hk. rewrite He by lia. by apply Hs. Qed.

Lemma walMerge_ok a nTmp lo mid hi n1 n2 : 0 ≤ lo → lo < mid < hi → hi ≤ Z.of_nat (length c) → hi ≤ Z.of_nat (length a) → hi - lo ≤ nTmp →
  block a lo mid n1 → block a mid hi n2 →
  ∃ a' n, walMerge c a nTmp lo n1 mid n2 = Ret (a', lo, n) ∧ block a' lo hi n ∧ length a' = length a ∧
    ∀ j : nat, (Z.of_nat j < lo ∨ hi ≤ Z.of_nat j) → a' !! j = a !! j.
Proof.
  intros Hlo Hm Hc Ha Ht B1 B2. pose proof (block_pos _ _ _ _ B1 ltac:(lia)) as P1. pose proof (block_pos _ _ _ _ B2 ltac:(lia)) as P2.
  destruct B1 as (l & -> & N1 & S1 & L1), B2 as (r & -> & N2 & S2 & L2).
  unfold walMerge. rewrite (proj2 (Z.ltb_lt 0 _) P1), (proj2 (Z.ltb_lt 0 _) P2). cbn [andb c_assert mbind outcome_bind].
  rewrite (slice_is_get a lo l), (slice_is_get a mid r) by (try done; try lia; intros ->; cbn in *; lia). cbn [mbind outcome_bind].
  destruct (merge_loop_ok (length l + length r) l r) as (out & E & Hmg); [done|by eapply latest_in; [done|lia|lia]..|by apply L1|by apply L2|].
  rewrite E. cbn [mbind outcome_bind]. pose proof (mg_length _ _ _ Hmg) as Hlen. rewrite (proj2 (Z.ltb_ge nTmp _)) by lia. cbn [mbind outcome_bind].
  destruct (slice_is_put a lo out) as (a' & -> & Hla & Hs & Hj); [done|lia|]. cbn [mbind outcome_bind].
  eexists _, _. split; [done|]. split; [|split; [done|intros j Hjj; apply Hj; lia]].
  exists out. split; [done|]. split; [lia|]. split; [done|]. apply (latest_merged lo mid hi l r); try done. lia.
Qed.

(** ** The binary counter of sub-lists *)

Definition sub_off (n i : Z) : Z := n / 2 ^ (i + 1) * 2 ^ (i + 1).

Definition sub_ok (n : Z) (aSub : list sublist) (a : list Z) (i : Z) : Prop :=
  ∃ k, zlookup aSub i = Some (Some (sub_off n i, k)) ∧ block a (sub_off n i) (sub_off n i + 2 ^ i) k.

Lemma sub_off_mask n i : 0 ≤ i → n .& Z.lnot ((2 .<< i) - 1) = sub_off n i.
Proof.
  intros Hi. rewrite <- Z.ldiff_land. replace (2 .<< i) with (1 .<< (i + 1)).
  - unfold sub_off. rewrite <- Z.shiftr_div_pow2, <- Z.shiftl_mul_pow2 by lia.
    rewrite <- Z.ldiff_ones_r by lia. unfold Z.ones. by rewrite Z.sub_1_r.
  - rewrite !Z.shiftl_mul_pow2, Z.pow_add_r by lia. lia.
Qed.

Lemma bit_test n i : 0 ≤ i → (n .& (1 .<< i) =? 0) = negb (n / 2 ^ i mod 2 =? 1).
Proof.
  intros Hi. rewrite Z.shiftl_1_l. pose proof (Z.mod_pos_bound (n / 2 ^ i) 2 ltac:(lia)) as Hb.
  rewrite <- (Z.testbit_spec' n i Hi) in *.
  destruct (Z.testbit n i) eqn:E; cbn [Z.b2z Z.eqb negb].
  - apply Z.eqb_neq. intros E0. assert (Z.testbit (n .& 2 ^ i) i = true) as H by (by rewrite Z.land_spec, E, Z.pow2_bits_true).
    by rewrite E0, Z.bits_0 in H.
  - apply Z.eqb_eq. apply Z.bits_inj'. intros j Hj. rewrite Z.land_spec, Z.bits_0, Z.pow2_bits_eqb by done.
    destruct (Z.eqb_spec i j) as [->|]; [by rewrite E|by rewrite andb_false_r].
Qed.

(** A set bit: its block ends where the block of the lower bits begins. *)
Lemma sub_off_set n i : 0 ≤ i → n / 2 ^ i mod 2 = 1 → sub_off n i + 2 ^ i = n / 2 ^ i * 2 ^ i.
Proof.
  intros Hi Hb. unfold sub_off. rewrite Z.pow_add_r, <- Z.div_div by lia. change (2 ^ 1) with 2. pose proof (Z.div_mod (n / 2 ^ i) 2 ltac:(lia)). nia.
Qed.

Lemma sub_off_clear n i : 0 ≤ i → n / 2 ^ i mod 2 = 0 → sub_off n i = n / 2 ^ i * 2 ^ i.
Proof.
  intros Hi Hb. unfold sub_off. rewrite Z.pow_add_r, <- Z.div_div by lia. change (2 ^ 1) with 2. pose proof (Z.div_mod (n / 2 ^ i) 2 ltac:(lia)). nia.
Qed.

Lemma floor_le n i j : 0 ≤ n → 0 ≤ i ≤ j → n / 2 ^ j * 2 ^ j ≤ n / 2 ^ i * 2 ^ i.
Proof.
  intros Hn Hi. replace j with (i + (j - i)) by lia. rewrite Z.pow_add_r, <- Z.div_div by lia.
  pose proof (Z.mul_div_le (n / 2 ^ i) (2 ^ (j - i)) ltac:(lia)). nia.
Qed.

Lemma sub_ok_ext n aSub a a' i lim : 0 ≤ n → 0 ≤ i → n / 2 ^ i mod 2 = 1 → n / 2 ^ i * 2 ^ i ≤ lim →
  (∀ j : nat, Z.of_nat j < lim → a' !! j = a !! j) → sub_ok n aSub a i → sub_ok n aSub a' i.
Proof.
  intros Hn Hi Hb Hlim He (k & Hk & Hbl). exists k. split; [done|]. eapply block_ext; [| |exact Hbl].
  - unfold sub_off. apply Z.mul_nonneg_nonneg; [apply Z.div_pos|]; lia.
  - intros j Hj. apply He. rewrite sub_off_set in Hj by done. lia.
Qed.

Section Sort.
Context (nTmp N : Z).
Hypothesis (HN : 0 < N ≤ HASHTABLE_NPAGE) (HT : N ≤ nTmp) (Hc : N ≤ Z.of_nat (length c)).

Lemma merge_sub_ok n hi aSub a i cur nM : 0 ≤ n → 0 ≤ i → n / 2 ^ i mod 2 = 1 → sub_ok n aSub a i → cur = n / 2 ^ i * 2 ^ i → cur < hi ≤ N →
  N = Z.of_nat (length a) → block a cur hi nM →
  ∃ a' k, merge_sub c nTmp n aSub i a cur nM = Ret (a', sub_off n i, k) ∧ block a' (sub_off n i) hi k ∧ N = Z.of_nat (length a') ∧
    ∀ j : nat, (Z.of_nat j < sub_off n i ∨ hi ≤ Z.of_nat j) → a' !! j = a !! j.
Proof.
  intros Hn Hi Hb (k & Hk & Hbl) Hcur Hhi Ha HM. pose proof (sub_off_set n i Hi Hb) as Hoff.
  assert (0 ≤ sub_off n i) as H0 by (unfold sub_off; apply Z.mul_nonneg_nonneg; [apply Z.div_pos|]; lia).
  unfold merge_sub. rewrite Hk. cbn [mbind outcome_bind deref]. rewrite sub_off_mask, Z.eqb_refl, Z.shiftl_1_l by done.
  assert (k ≤ 2 ^ i) as Hle by (destruct Hbl as (? & ? & ? & _); lia). rewrite (proj2 (Z.leb_le _ _) Hle). cbn [c_assert mbind outcome_bind].
  rewrite Hcur, <- Hoff in *. pose proof (Z.pow_pos_nonneg 2 i).
  destruct (walMerge_ok a nTmp (sub_off n i) (sub_off n i + 2 ^ i) hi k nM) as (a' & n' & -> & ? & Hla & ?); try lia; try done.
  exists a', n'. split; [done|]. split; [done|]. split; [lia|done].
Qed.

Definition counter (n : Z) (aSub : list sublist) (a : list Z) : Prop :=
  length aSub = nSub ∧ ∀ i, 0 ≤ i → n / 2 ^ i mod 2 = 1 → sub_ok n aSub a i.

Lemma small_bit n i : 0 ≤ n ≤ N → 0 ≤ i → n / 2 ^ i mod 2 = 1 → i < 13.
Proof.
  intros Hn Hi Hb. destruct (decide (i < 13)); [done|]. rewrite Z.div_small in Hb; [done|].
  pose proof (Z.pow_le_mono_r 2 13 i ltac:(lia) ltac:(lia)) as Hp. unfold HASHTABLE_NPAGE in HN. lia.
Qed.

Lemma carry_loop_ok n aSub : 0 ≤ n < N → ∀ fuel s a k, 0 ≤ s → 13 ≤ s + Z.of_nat fuel → n / 2 ^ s * 2 ^ s = n + 1 - 2 ^ s →
  (∀ i, s ≤ i → n / 2 ^ i mod 2 = 1 → sub_ok n aSub a i) → N = Z.of_nat (length a) → block a (n + 1 - 2 ^ s) (n + 1) k →
  ∃ s' a' k', carry_loop fuel c nTmp n aSub s a (n + 1 - 2 ^ s) k = Ret (s', a', n + 1 - 2 ^ s', k') ∧ s ≤ s' ∧ n / 2 ^ s' mod 2 = 0 ∧
    n / 2 ^ s' * 2 ^ s' = n + 1 - 2 ^ s' ∧ block a' (n + 1 - 2 ^ s') (n + 1) k' ∧ N = Z.of_nat (length a') ∧
    ∀ j : nat, (Z.of_nat j < n + 1 - 2 ^ s' ∨ n + 1 ≤ Z.of_nat j) → a' !! j = a !! j.
Proof.
  intros Hn. induction fuel as [|fuel IH]; intros s a k Hs Hf Hlow Hcnt Ha Hb; cbn [carry_loop];
    rewrite bit_test by done; pose proof (Z.mod_pos_bound (n / 2 ^ s) 2 ltac:(lia)) as Hmod; destruct (Z.eqb_spec (n / 2 ^ s mod 2) 1) as [E|E]; cbn [negb].
  - pose proof (small_bit n s ltac:(lia) Hs E). lia.
  - exists s, a, k. repeat split; try done; lia.
  - rename Hcnt into Hsub.
    assert (sub_off n s = n + 1 - 2 ^ (s + 1)) as Eo by (pose proof (sub_off_set n s Hs E); rewrite Z.pow_add_r by lia; lia).
    destruct (merge_sub_ok n (n + 1) aSub a s (n + 1 - 2 ^ s) k) as (a1 & k1 & -> & Hb1 & Ha1 & Hsame); [lia|done|done|by apply Hsub|done|pose proof (Z.pow_pos_nonneg 2 s); lia|done|done|].
    cbn [mbind outcome_bind]. rewrite Eo in *.
    destruct (IH (s + 1) a1 k1) as (s' & a' & k' & -> & Hs' & Hz & Hlow' & Hb' & Ha' & Hsame'); try lia; try done.
    + intros i Hi Hbi. eapply sub_ok_ext; [lia|lia|done|apply (floor_le n (s + 1) i); lia| |apply Hsub; [lia|done]].
      intros j Hj. apply Hsame. fold (sub_off n s) in Hj. lia.
    + exists s', a', k'. split; [done|]. split; [lia|]. split; [done|]. split; [done|]. split; [done|]. split; [done|].
      intros j Hj. rewrite Hsame', Hsame; [done| |done]. pose proof (Z.pow_le_mono_r 2 (s + 1) s'). lia.
  - exists s, a, k. repeat split; try done; lia.
Qed.

(** Incrementing the counter. *)
Lemma next_high n s i : 0 ≤ s < i → n / 2 ^ s mod 2 = 0 → n / 2 ^ s * 2 ^ s = n + 1 - 2 ^ s → (n + 1) / 2 ^ i = n / 2 ^ i.
Proof.
  intros Hs Hz Hlow. assert ((n + 1) / 2 ^ s = n / 2 ^ s + 1) as E.
  { replace (n + 1) with ((n / 2 ^ s + 1) * 2 ^ s) by lia. apply Z.div_mul. lia. }
  replace i with (s + (1 + (i - s - 1))) by lia. rewrite Z.pow_add_r, <- !(Z.div_div _ (2 ^ s)), E by lia.
  rewrite Z.pow_add_r, <- !(Z.div_div _ (2 ^ 1)) by lia. change (2 ^ 1) with 2. f_equal.
  pose proof (Z.div_mod (n / 2 ^ s) 2 ltac:(lia)). symmetry. apply (Z.div_unique _ 2 _ 1); lia.
Qed.

Lemma next_low n s i : 0 ≤ i < s → n / 2 ^ s * 2 ^ s = n + 1 - 2 ^ s → (n + 1) / 2 ^ i mod 2 = 0.
Proof.
  intros Hi Hlow. replace (n + 1) with ((n / 2 ^ s + 1) * 2 ^ (s - i - 1) * 2 * 2 ^ i).
  - rewrite Z.div_mul by lia. apply Z.mod_mul. lia.
  - replace (2 ^ s) with (2 ^ (s - i - 1) * 2 * 2 ^ i) in * by (rewrite <- (Z.pow_1_r 2) at 2; rewrite <- !Z.pow_add_r by lia; f_equal; lia). lia.
Qed.

Lemma counter_next n s aSub a a' k : 0 ≤ n → 0 ≤ s < 13 → n / 2 ^ s mod 2 = 0 → n / 2 ^ s * 2 ^ s = n + 1 - 2 ^ s → counter n aSub a →
  (∀ j : nat, Z.of_nat j < n + 1 - 2 ^ s → a' !! j = a !! j) → block a' (n + 1 - 2 ^ s) (n + 1) k →
  sub_off (n + 1) s = n + 1 - 2 ^ s ∧ counter (n + 1) (zinsert aSub s (Some (n + 1 - 2 ^ s, k))) a'.
Proof.
  intros Hn Hs Hz Hlow [Hl Hsub] Hsame Hb.
  assert (sub_off (n + 1) s = n + 1 - 2 ^ s) as Eo.
  { unfold sub_off. rewrite (next_high n s (s + 1)) by (done || lia). fold (sub_off n s). rewrite sub_off_clear by (done || lia). lia. }
  split; [done|]. split; [by rewrite zinsert_length|]. intros i Hi Hbi. destruct (decide (i < s)) as [?|?].
  { rewrite (next_low n s i) in Hbi by (done || lia). done. }
  unfold sub_ok. rewrite zlookup_zinsert by (rewrite Hl; unfold nSub; lia). case_decide as E.
  - subst i. rewrite Eo. exists k. split; [done|]. by replace (n + 1 - 2 ^ s + 2 ^ s) with (n + 1) by lia.
  - rewrite (next_high n s i) in Hbi by (done || lia). unfold sub_off. rewrite (next_high n s (i + 1)) by (done || lia). fold (sub_off n i).
    apply (sub_ok_ext n aSub a a' i (n + 1 - 2 ^ s)); try done; [|by apply Hsub].
    rewrite <- Hlow. apply floor_le; lia.
Qed.

Definition last_merge (n iSub : Z) (a : list Z) (aMerge nMerge : Z) : Prop :=
  n = 0 ∨ (0 ≤ iSub < 13 ∧ aMerge = sub_off n iSub ∧ aMerge < n ∧ block a aMerge n nMerge).

Lemma sort_loop_ok : ∀ left n aSub iSub a aM nM, 0 ≤ n → n + Z.of_nat left = N → counter n aSub a → N = Z.of_nat (length a) →
  (∀ j : nat, n ≤ Z.of_nat j < N → a !! j = Some (Z.of_nat j)) → last_merge n iSub a aM nM →
  ∃ aSub' iSub' a' aM' nM', sort_loop left c nTmp n aSub iSub a aM nM = Ret (aSub', iSub', a', aM', nM') ∧ counter N aSub' a' ∧
    N = Z.of_nat (length a') ∧ last_merge N iSub' a' aM' nM'.
Proof.
  induction left as [|left IH]; intros n aSub iSub a aM nM Hn Hl Hcnt Ha Htail Hlast; cbn [sort_loop].
  { replace N with n in * by lia. eexists _, _, _, _, _. done. }
  destruct (carry_loop_ok n aSub ltac:(lia) nSub 0 a 1) as (s & a' & k & E & Hs & Hz & Hlow & Hb & Ha' & Hsame).
  - done.
  - done.
  - change (2 ^ 0) with 1. rewrite Z.div_1_r. lia.
  - intros i Hi. by apply Hcnt.
  - done.
  - replace (n + 1 - 2 ^ 0) with n by lia. exists [n]. split; [done|]. split; [lia|]. split; [|apply latest_one].
    intros [|?] ?; cbn in *; [|lia]. rewrite Htail by lia. cbn. f_equal. lia.
  - replace (n + 1 - 2 ^ 0) with n in E by lia. rewrite E. cbn [mbind outcome_bind].
    assert (s < 13) as Hs13.
    { destruct (decide (s < 13)); [done|]. pose proof (Z.pow_le_mono_r 2 13 s ltac:(lia) ltac:(lia)).
      pose proof (Z.mul_nonneg_nonneg (n / 2 ^ s) (2 ^ s) ltac:(apply Z.div_pos; lia) ltac:(lia)). unfold HASHTABLE_NPAGE in HN. lia. }
    destruct (counter_next n s aSub a a' k) as [Eo Hcnt']; try done; [intros j Hj; apply Hsame; lia|].
    rewrite (proj1 Hcnt). rewrite (proj2 (Z.ltb_lt s _)) by (unfold nSub; lia). cbn [mbind outcome_bind].
    apply IH; try done; try lia.
    + intros j Hj. rewrite Hsame by lia. apply Htail. lia.
    + right. pose proof (Z.pow_pos_nonneg 2 s). rewrite Eo. split; [done|]. split; [done|]. split; [lia|done].
Qed.

Lemma final_loop_ok aSub : ∀ left i a cur nM, 0 ≤ i → i + Z.of_nat left = 13 → cur = N / 2 ^ i * 2 ^ i → cur < N →
  (∀ j, i ≤ j → N / 2 ^ j mod 2 = 1 → sub_ok N aSub a j) → N = Z.of_nat (length a) → block a cur N nM →
  ∃ a' k, final_loop left c nTmp N aSub i a cur nM = Ret (a', 0, k) ∧ block a' 0 N k.
Proof.
  induction left as [|left IH]; intros i a cur nM Hi Hl Hcur Hlt Hcnt Ha Hb; cbn [final_loop].
  { rewrite Z.div_small in Hcur; [|replace i with 13 by lia; unfold HASHTABLE_NPAGE in HN; lia]. subst cur. exists a, nM. done. }
  rewrite bit_test by done. pose proof (Z.mod_pos_bound (N / 2 ^ i) 2 ltac:(lia)) as Hmod.
  destruct (Z.eqb_spec (N / 2 ^ i mod 2) 1) as [E|E]; cbn [negb].
  - destruct (merge_sub_ok N N aSub a i cur nM) as (a1 & k1 & -> & Hb1 & Ha1 & Hsame); [lia|done|done|by apply Hcnt|done|lia|done|done|].
    cbn [mbind outcome_bind]. apply IH; try done; try lia.
    + pose proof (sub_off_set N i Hi E). pose proof (Z.pow_pos_nonneg 2 i). lia.
    + intros j Hj Hbj. eapply sub_ok_ext; [lia|lia|done|apply (floor_le N (i + 1) j); lia| |apply Hcnt; [lia|done]].
      intros m Hm. apply Hsame. fold (sub_off N i) in Hm. lia.
  - cbn [mbind outcome_bind]. apply IH; try done; try lia; [rewrite Hcur; symmetry; apply sub_off_clear; lia|].
    intros j Hj. apply Hcnt. lia.
Qed.
End Sort.
End Merge.

(** ** Sorting *)

Lemma walMergesort_ok c nTmp N : 0 < N ≤ HASHTABLE_NPAGE → N ≤ nTmp → N ≤ Z.of_nat (length c) →
  ∃ a n, walMergesort c nTmp (seqZ 0 N) N = Ret (a, n) ∧ 0 ≤ n ∧ n ≤ Z.of_nat (length a) ∧ latest c 0 N (take (Z.to_nat n) a).
Proof.
  intros HN HT Hc. unfold walMergesort. rewrite (proj2 (Z.leb_le N _)), (proj2 (Z.ltb_lt 0 N)) by lia. cbn [andb c_assert mbind outcome_bind].
  assert (Z.of_nat (length (seqZ 0 N)) = N) as Hlen by (rewrite length_seqZ; lia).
  destruct (sort_loop_ok c nTmp N HN HT Hc (Z.to_nat N) 0 (replicate nSub None) 0 (seqZ 0 N) 0 0) as (aSub & iSub & a & aM & nM & -> & Hcnt & Ha & Hlast).
  - done.
  - lia.
  - split; [by rewrite length_replicate|]. intros i Hi. rewrite Z.div_0_l by lia. done.
  - done.
  - intros j Hj. apply lookup_seqZ. lia.
  - by left.
  - cbn [mbind outcome_bind]. destruct Hlast as [?|(Hi & EM & Hlt & Hb)]; [lia|].
    destruct (final_loop_ok c nTmp N HN HT Hc aSub (nSub - Z.to_nat (iSub + 1)) (iSub + 1) a aM nM) as (a' & k & -> & l & -> & Hk & Hs & Hl); try done.
    + lia.
    + unfold nSub. lia.
    + intros j Hj. apply Hcnt. lia.
    + cbn. exists a', (Z.of_nat (length l)). split; [done|]. split; [lia|].
      pose proof (slice_is_get a' 0 l Hs) as Hg. destruct l as [|x l].
      { cbn; split; [lia|done]. }
      specialize (Hg ltac:(done) ltac:(lia)). unfold get_slice in Hg. destruct (_ <=? Z.of_nat (length a')) eqn:E; [|by rewrite andb_false_r in Hg].
      apply Z.leb_le in E. split; [lia|]. rewrite andb_true_r in Hg. rewrite (proj2 (Z.leb_le 0 _)) in Hg by lia. cbn [andb Z.leb Z.compare] in Hg.
      injection Hg as Hg. change (Z.to_nat 0) with 0%nat in Hg. rewrite drop_0 in Hg.
      assert (take (Z.to_nat (Z.of_nat (length (x :: l)))) a' = x :: l) as -> by exact Hg. done.
Qed.

(** C40: Sorting the frames of one page of the wal-index, in place and with a
    temporary buffer, stays inside its arrays, satisfies the assertions of the
    code, and leaves the indices in the order of their page numbers, for each
    page number the index of its last frame and no other. *)
Theorem walMergesort_latest c nTmp N : 0 < N ≤ HASHTABLE_NPAGE → N ≤ nTmp → N ≤ Z.of_nat (length c) →
  ∃ a n, walMergesort c nTmp (seqZ 0 N) N = Ret (a, n) ∧
    let l := take (Z.to_nat n) a in
    StronglySorted (λ i j, hget c i < hget c j) l ∧
    ∀ i, i ∈ l ↔ 0 ≤ i < N ∧ ∀ j, i < j < N → hget c j ≠ hget c i.
Proof.
  intros HN HT Hc. destruct (walMergesort_ok c nTmp N HN HT Hc) as (a & n & E & _ & _ & [Hs He]). by exists a, n.
Qed.

Lemma walMergesort_latest_witness :
  ∃ a n, walMergesort [5; 3; 5; 1; 3] 5 (seqZ 0 5) 5 = Ret (a, n) ∧
    let l := take (Z.to_nat n) a in
    StronglySorted (λ i j, hget [5; 3; 5; 1; 3] i < hget [5; 3; 5; 1; 3] j) l ∧
    ∀ i, i ∈ l ↔ 0 ≤ i < 5 ∧ ∀ j, i < j < 5 → hget [5; 3; 5; 1; 3] j ≠ hget [5; 3; 5; 1; 3] i.
Proof. apply (walMergesort_latest [5; 3; 5; 1; 3] 5 5); [unfold HASHTABLE_NPAGE; lia|lia|cbn; lia]. Defined.
