(* ===== verification/WalIter.v ===== *)
(** * Iterating over the pages of the log

    [walIteratorInit] and [walIteratorNext] of src/wal.c: the pages of the
    write-ahead log in increasing order, each with its last frame. An iterator
    has one sorted segment for each page of the wal-index. *)

From S2P Require Import Prelude WalIndex WalFrame Wal WalSort.
From Stdlib Require Import Sorting.Sorted.
#[local] Open Scope Z_scope.
#[local] Open Scope c_scope.
#[local] Open Scope list_scope.

(** [struct WalSegment]; [sg_aPgno] is the array of page numbers it sorts. *)
Record WalSegment := MkSegment { iNext : Z; aIndex : list Z; sg_aPgno : list Z; nEntry : Z; sg_iZero : Z }.

Record WalIterator := MkIterator { iPrior : Z; aSegment : list WalSegment }.

Definition set_iNext (i : Z) (s : WalSegment) : WalSegment := MkSegment i (aIndex s) (sg_aPgno s) (nEntry s) (sg_iZero s).

(** [while( pSegment->iNext<pSegment->nEntry )]: the segment, and the page and
    the frame at which the loop stops. *)
Fixpoint seg_scan (fuel : nat) (iMin : Z) (s : WalSegment) : outcome (WalSegment * option (Z * Z)) :=
  if iNext s <? nEntry s then
    match fuel with
    | O => Undef OutOfFuel
    | S fuel' =>
        j ← get (aIndex s) (iNext s);
        iPg ← get (sg_aPgno s) j;
        if iMin <? iPg then Ret (s, Some (iPg, u32 (sg_iZero s + j)))
        else seg_scan fuel' iMin (set_iNext (iNext s + 1) s)
    end
  else Ret (s, None).

(** [for(i=p->nSegment-1; i>=0; i--)], from the last segment to the first: the
    segments, [iRet] and [*piFrame]. *)
Fixpoint scan_segments (iMin : Z) (l : list WalSegment) (piFrame : Z) : outcome (list WalSegment * Z * Z) :=
  match l with
  | [] => Ret ([], 0xFFFFFFFF, piFrame)
  | s :: l' =>
      '(l', iRet, piFrame) ← scan_segments iMin l' piFrame;
      '(s, r) ← seg_scan (Z.to_nat (nEntry s - iNext s)) iMin s;
      match r with
      | Some (iPg, f) => if iPg <? iRet then Ret (s :: l', iPg, f) else Ret (s :: l', iRet, piFrame)
      | None => Ret (s :: l', iRet, piFrame)
      end
  end.

(** The result, [*piPage], [*piFrame] and the iterator. *)
Definition walIteratorNext (p : WalIterator) (piFrame : Z) : outcome (bool * Z * Z * WalIterator) :=
  let iMin := iPrior p in
  _ ← c_assert (iMin <? 0xffffffff);
  '(l, iRet, piFrame) ← scan_segments iMin (aSegment p) piFrame;
  Ret (iRet =? 0xFFFFFFFF, iRet, piFrame, MkIterator iRet l).

(** [for(i=0; rc==SQLITE_OK && i<nSegment; i++)] with [left] rounds left: the
    result code, the pages of the wal-index and the segments. [nTmp] is the size
    of [aTmp]. *)
Fixpoint init_segments (left : nat) (can_map : Z → bool) (nTmp nSegment iLast i : Z) (pages : list wi_page)
    : outcome (Z * list wi_page * list WalSegment) :=
  match left with
  | O => Ret (SQLITE_OK, pages, [])
  | S left' =>
      let '(rc, pages) := walIndexPage (can_map (block_zero i + 1)) pages i in
      if negb (rc =? SQLITE_OK) then Ret (rc, pages, []) else
      '(p, iZero) ← walHashGet pages i;
      let nEntry := if i + 1 =? nSegment then i32 (iLast - iZero) else Z.of_nat (length (aPgno p)) in
      '(aIndex, nEntry) ← walMergesort (aPgno p) nTmp ((λ j, u16 j) <$> seqZ 0 nEntry) nEntry;
      '(rc, pages, segs) ← init_segments left' can_map nTmp nSegment iLast (i + 1) pages;
      Ret (rc, pages, MkSegment 0 aIndex (aPgno p) nEntry (iZero + 1) :: segs)
  end.

(** [walIteratorInit]: the result code, and the iterator. *)
Definition walIteratorInit : sm Wal (Z * option WalIterator) :=
  _ ← sm_gets (λ w, c_assert (negb (ckptLock w =? 0) && (0 <? mxFrame (hdr w))));
  iLast ← sm_get (λ w, mxFrame (hdr w));
  nSegment ← sm_lift (walFramePage iLast);
  let nSegment := nSegment + 1 in
  p ← sqlite3_malloc;
  if negb p then mret (SQLITE_NOMEM, None) else
  aTmp ← sqlite3_malloc;
  if negb aTmp then mret (SQLITE_NOMEM, None) else
  let nTmp := if HASHTABLE_NPAGE <? iLast then HASHTABLE_NPAGE else iLast in
  '(rc, pages, segs) ← sm_gets (λ w, init_segments (Z.to_nat nSegment) (can_map (conf w)) nTmp nSegment iLast 0 (wiPages w));
  _ ← sm_mod (set_wiPages pages);
  mret (rc, if rc =? SQLITE_OK then Some (MkIterator 0 segs) else None).

(** ** The next page *)

(** Among the frames [lo + 1] to [hi] with the page numbers [all], [iRet] is the
    smallest page number above [iMin] and [fr] its last frame. *)
Definition next_page (all : list Z) (iMin lo hi iRet fr : Z) : Prop :=
  (iRet = 0xFFFFFFFF ∧ ∀ j, lo ≤ j < hi → hget all j ≤ iMin) ∨
  (iMin < iRet < 0xFFFFFFFF ∧ lo ≤ fr - 1 < hi ∧ hget all (fr - 1) = iRet ∧
     ∀ j, lo ≤ j < hi → iMin < hget all j → iRet ≤ hget all j ∧ (hget all j = iRet → j ≤ fr - 1)).

Lemma next_page_join all iMin lo mid hi a f b g : lo ≤ mid ≤ hi → next_page all iMin lo mid a f → next_page all iMin mid hi b g →
  if a <? b then next_page all iMin lo hi a f else next_page all iMin lo hi b g.
Proof.
  intros Hm H1 H2. destruct (Z.ltb_spec a b) as [Hlt|Hge].
  - destruct H1 as [[-> _]|(Ha & Hf & Ef & Hj)]; [destruct H2 as [[-> _]|(Hb & _)]; lia|].
    right. split; [done|]. split; [lia|]. split; [done|]. intros j Hjr Hjm. destruct (decide (j < mid)); [apply Hj; lia|].
    destruct H2 as [[-> H2]|(_ & _ & _ & H2)]; [specialize (H2 j ltac:(lia)); lia|]. specialize (H2 j ltac:(lia) Hjm). lia.
  - destruct H2 as [[-> H2]|(Hb & Hf & Ef & Hj)].
    + destruct H1 as [[-> H1]|(Ha & _)]; [|lia]. left. split; [done|]. intros j Hj. destruct (decide (j < mid)); [apply H1|apply H2]; lia.
    + right. split; [done|]. split; [lia|]. split; [done|]. intros j Hjr Hjm. destruct (decide (mid ≤ j)); [apply Hj; lia|].
      destruct H1 as [[-> H1]|(_ & _ & _ & H1)]; [specialize (H1 j ltac:(lia)); lia|]. specialize (H1 j ltac:(lia) Hjm). lia.
Qed.

Section Iterator.
Context (all : list Z) (iLast : Z).
Hypothesis (Hall : Forall (λ x, 0 < x < 0xFFFFFFFF) all) (HiLast : 0 < iLast ≤ Z.of_nat (length all)) (Hbound : iLast + HASHTABLE_NPAGE < 2 ^ 32).

Lemma all_range j : 0 ≤ j < iLast → 0 < hget all j < 0xFFFFFFFF.
Proof.
  intros Hj. unfold hget. destruct (zlookup_is_Some all j ltac:(lia)) as [x Hx]. rewrite Hx. cbn.
  unfold zlookup in Hx. rewrite (proj2 (Z.ltb_ge j 0)) in Hx by lia. by apply (Forall_lookup_1 _ _ _ _ Hall Hx).
Qed.

(** The number of frames up to [iLast] that page [b] of the wal-index records. *)
Definition count (b : nat) : Z := Z.min (page_cap (Z.of_nat b)) (iLast - block_zero (Z.of_nat b)).

(** The segment of page [b], when pages up to [iMin] have been returned. *)
Record seg_ok (iMin : Z) (b : nat) (s : WalSegment) : Prop := {
  sg_zero : sg_iZero s = block_zero (Z.of_nat b) + 1;
  sg_pgno : ∀ j, 0 ≤ j < count b → get (sg_aPgno s) j = Ret (hget all (block_zero (Z.of_nat b) + j));
  sg_entry : 0 ≤ nEntry s ≤ Z.of_nat (length (aIndex s));
  sg_latest : latest (sg_aPgno s) 0 (count b) (take (Z.to_nat (nEntry s)) (aIndex s));
  sg_next : 0 ≤ iNext s ≤ nEntry s;
  sg_past : ∀ k j, Z.of_nat k < iNext s → aIndex s !! k = Some j → hget (sg_aPgno s) j ≤ iMin }.

Lemma seg_key b iMin s j : seg_ok iMin b s → 0 ≤ j < count b → hget (sg_aPgno s) j = hget all (block_zero (Z.of_nat b) + j).
Proof.
  intros Hs Hj. pose proof (sg_pgno _ _ _ Hs j Hj) as E. unfold get in E. unfold hget at 1. destruct (zlookup _ _); [by simplify_eq|done].
Qed.

Lemma seg_weaken iMin iMin' b s : iMin ≤ iMin' → seg_ok iMin b s → seg_ok iMin' b s.
Proof. intros Hle []. split; try done. intros k j Hk Hj. specialize (sg_past0 k j Hk Hj). lia. Qed.

Lemma sorted_lookup c l (i j : nat) x y : StronglySorted (by_key c) l → l !! i = Some x → l !! j = Some y → (i < j)%nat → hget c x < hget c y.
Proof.
  intros Hs. revert i j. induction Hs as [|a l Hs IH Hf]; intros i j Hi Hj Hlt; [done|].
  destruct j as [|j]; [lia|]. cbn in Hj. destruct i as [|i]; cbn in Hi.
  - simplify_eq. rewrite list.Forall_forall in Hf. apply Hf. by eapply list_elem_of_lookup_2.
  - eapply IH; [done|done|lia].
Qed.

Lemma entry_in iMin b s (k : nat) j : seg_ok iMin b s → aIndex s !! k = Some j → Z.of_nat k < nEntry s →
  take (Z.to_nat (nEntry s)) (aIndex s) !! k = Some j ∧ 0 ≤ j < count b.
Proof.
  intros Hs Hj Hk. assert (take (Z.to_nat (nEntry s)) (aIndex s) !! k = Some j) as Ht by (rewrite lookup_take_lt by lia; done).
  split; [done|]. apply list_elem_of_lookup_2, (la_elem _ _ _ _ (sg_latest _ _ _ Hs)) in Ht. lia.
Qed.

(** The segment ends at its first entry above [iMin], which is the next page. *)
Lemma seg_scan_ok b iMin : 0 ≤ iMin → block_zero (Z.of_nat b) + count b ≤ iLast → ∀ fuel s, seg_ok iMin b s →
  nEntry s - iNext s ≤ Z.of_nat fuel →
  ∃ s' r, seg_scan fuel iMin s = Ret (s', r) ∧ seg_ok iMin b s' ∧
    let '(iPg, f) := default (0xFFFFFFFF, 0) r in
    next_page all iMin (block_zero (Z.of_nat b)) (block_zero (Z.of_nat b) + count b) iPg f ∧ (r = None ↔ iPg = 0xFFFFFFFF).
Proof.
  intros Hmin Hb. induction fuel as [|fuel IH]; intros s Hs Hf; cbn [seg_scan]; destruct (Z.ltb_spec (iNext s) (nEntry s)) as [Hlt|Hge]; [lia| | |].
  1,3: exists s, None; split; [done|]; split; [done|]; split; [|done]; left; split; [done|]; intros j Hj;
    destruct (latest_has _ _ _ _ (j - block_zero (Z.of_nat b)) (sg_latest _ _ _ Hs) ltac:(lia)) as (i & Hi & _ & E);
    pose proof (seg_key b iMin s (j - block_zero (Z.of_nat b)) Hs ltac:(lia)) as E2;
    replace (block_zero (Z.of_nat b) + (j - block_zero (Z.of_nat b))) with j in E2 by lia; rewrite <- E2, <- E;
    apply list_elem_of_lookup_1 in Hi as [k Hk]; pose proof (lookup_lt_Some _ _ _ Hk) as Hkl; rewrite length_take in Hkl; rewrite lookup_take_lt in Hk by lia;
    apply (sg_past _ _ _ Hs k); [lia|done].
  pose proof (sg_next _ _ _ Hs) as Hn. pose proof (sg_entry _ _ _ Hs) as He.
  destruct (lookup_lt_is_Some_2 (aIndex s) (Z.to_nat (iNext s)) ltac:(lia)) as [j Hj].
  assert (get (aIndex s) (iNext s) = Ret j) as -> by (unfold get, zlookup; by rewrite (proj2 (Z.ltb_ge (iNext s) 0)), Hj by lia).
  cbn [mbind outcome_bind].
  destruct (entry_in _ _ _ _ _ Hs Hj ltac:(lia)) as [Ht Hjr]. rewrite (sg_pgno _ _ _ Hs j Hjr). cbn [mbind outcome_bind].
  rewrite <- (seg_key b iMin s j Hs Hjr). set (iPg := hget (sg_aPgno s) j). destruct (Z.ltb_spec iMin iPg) as [Hgt|Hle].
  - eexists s, _. split; [done|]. split; [done|]. cbn [default from_option id]. pose proof (block_zero_nonneg (Z.of_nat b) ltac:(lia)) as Hz.
    rewrite (sg_zero _ _ _ Hs), uw_small by (unfold in_uw, HASHTABLE_NPAGE in *; lia).
    assert (iPg < 0xFFFFFFFF) as Hr. { subst iPg. rewrite (seg_key b iMin s j Hs Hjr). apply all_range. lia. }
    split; [|split; [done|lia]]. right. split; [lia|].
    replace (block_zero (Z.of_nat b) + 1 + j - 1) with (block_zero (Z.of_nat b) + j) by lia. split; [lia|]. split; [by rewrite <- (seg_key b iMin s j Hs Hjr)|].
    intros i Hi Him. set (i' := i - block_zero (Z.of_nat b)).
    pose proof (seg_key b iMin s i' Hs ltac:(lia)) as Ei. replace (block_zero (Z.of_nat b) + i') with i in Ei by (subst i'; lia).
    destruct (latest_has _ _ _ _ i' (sg_latest _ _ _ Hs) ltac:(lia)) as (m & Hm & Him' & E).
    apply list_elem_of_lookup_1 in Hm as [k Hk]. pose proof (lookup_lt_Some _ _ _ Hk) as Hkl. rewrite length_take in Hkl.
    assert (Z.to_nat (iNext s) ≤ k)%nat as Hkn.
    { destruct (decide (Z.to_nat (iNext s) ≤ k)%nat); [done|]. pose proof Hk as Hk'. rewrite lookup_take_lt in Hk' by lia.
      pose proof (sg_past _ _ _ Hs k m ltac:(lia) Hk'). lia. }
    destruct (decide (k = Z.to_nat (iNext s))) as [->|].
    + assert (m = j) as -> by congruence. subst iPg. split; lia.
    + pose proof (sorted_lookup _ _ _ _ _ _ (la_sorted _ _ _ _ (sg_latest _ _ _ Hs)) Ht Hk ltac:(lia)). subst iPg. split; lia.
  - apply IH; [|cbn; lia]. destruct Hs as [? ? ? ? ? Hp]. split; cbn; try done; [lia|].
    intros k i Hk Hi. destruct (decide (k = Z.to_nat (iNext s))) as [->|]; [|apply (Hp k); [lia|done]].
    assert (i = j) as -> by congruence. done.
Qed.

(** The segments of the pages of the wal-index from [b] on. *)
Definition segs_ok (iMin : Z) (b : nat) (l : list WalSegment) : Prop := ∀ i s, l !! i = Some s → seg_ok iMin (b + i) s.

Lemma segs_ok_cons iMin b s l : segs_ok iMin b (s :: l) ↔ seg_ok iMin b s ∧ segs_ok iMin (S b) l.
Proof.
  split.
  - intros H. split; [specialize (H 0%nat s eq_refl); by rewrite Nat.add_0_r in H|]. intros i t Ht. specialize (H (S i) t Ht). by replace (S b + i)%nat with (b + S i)%nat by lia.
  - intros [H1 H2] [|i] t Ht; cbn in Ht; [simplify_eq; by rewrite Nat.add_0_r|]. replace (b + S i)%nat with (S b + i)%nat by lia. by apply H2.
Qed.

Definition nSeg (n : nat) : Prop := (n ≠ 0)%nat ∧ block_zero (Z.of_nat n - 1) < iLast ≤ block_zero (Z.of_nat n).
Definition seg_lo (b : nat) : Z := Z.min (block_zero (Z.of_nat b)) iLast.

Lemma seg_range n b : nSeg n → (b < n)%nat → block_zero (Z.of_nat b) < iLast ∧ seg_lo b = block_zero (Z.of_nat b) ∧
  block_zero (Z.of_nat b) + count b = seg_lo (S b) ∧ 0 < count b.
Proof.
  intros (Hn & H1 & H2) Hb. unfold seg_lo, count. replace (Z.of_nat (S b)) with (Z.of_nat b + 1) by lia.
  rewrite block_zero_next by lia. pose proof (page_cap_pos (Z.of_nat b)).
  assert (block_zero (Z.of_nat b) < iLast).
  { destruct (decide (b = n - 1)%nat) as [->|]; [by replace (Z.of_nat (n - 1)) with (Z.of_nat n - 1) by lia|].
    pose proof (block_zero_mono (Z.of_nat b) (Z.of_nat n - 1) ltac:(lia)). lia. }
  lia.
Qed.

Lemma scan_segments_ok n iMin fr : nSeg n → 0 ≤ iMin → ∀ l b, (b + length l = n)%nat → segs_ok iMin b l →
  ∃ l' iRet fr', scan_segments iMin l fr = Ret (l', iRet, fr') ∧ length l' = length l ∧ segs_ok iMin b l' ∧ next_page all iMin (seg_lo b) iLast iRet fr'.
Proof.
  intros Hn Hmin. induction l as [|s l IH]; intros b Hb Hs; cbn [scan_segments].
  - exists [], 0xFFFFFFFF, fr. do 3 (split; [done|]). left. split; [done|]. intros j Hj. destruct Hn as (_ & _ & Hn). cbn in Hb.
    replace b with n in Hj by lia. unfold seg_lo in Hj. lia.
  - cbn in Hb. apply segs_ok_cons in Hs as [Hs Hl]. destruct (seg_range n b Hn ltac:(lia)) as (H1 & H2 & H3 & H4).
    destruct (IH (S b) ltac:(lia) Hl) as (l' & iRet & fr' & -> & Hlen & Hl' & Hnext). cbn [mbind outcome_bind].
    destruct (seg_scan_ok b iMin Hmin ltac:(unfold seg_lo in H3; lia) (Z.to_nat (nEntry s - iNext s)) s Hs ltac:(lia)) as (s' & r & -> & Hs' & Hr). cbn [mbind outcome_bind].
    assert (segs_ok iMin b (s' :: l')) as Hok by (by apply segs_ok_cons).
    destruct r as [[iPg f]|]; cbn [default from_option id] in Hr; destruct Hr as [Hp Hnone]; rewrite H3 in Hp; rewrite <- H2 in Hp.
    + pose proof (next_page_join all iMin (seg_lo b) (seg_lo (S b)) iLast iPg f iRet fr' ltac:(unfold seg_lo in *; lia) Hp Hnext) as Hj.
      destruct (iPg <? iRet); eexists _, _, _; (split; [done|]); (split; [cbn; lia|]); done.
    + eexists _, _, _. split; [done|]. split; [cbn; lia|]. split; [done|].
      pose proof (next_page_join all iMin (seg_lo b) (seg_lo (S b)) iLast _ _ iRet fr' ltac:(unfold seg_lo in *; lia) Hp Hnext) as Hj.
      rewrite (proj2 (Z.ltb_ge _ _)) in Hj; [done|]. destruct Hnext as [[-> _]|[? _]]; lia.
Qed.

(** The iterator after the pages up to [iPrior] were returned. *)
Record iter_ok (it : WalIterator) : Prop := {
  it_prior : 0 ≤ iPrior it < 0xFFFFFFFF;
  it_len : nSeg (length (aSegment it));
  it_segs : segs_ok (iPrior it) 0 (aSegment it) }.

Lemma walIteratorNext_ok it fr : iter_ok it → ∃ pg fr' it', walIteratorNext it fr = Ret (pg =? 0xFFFFFFFF, pg, fr', it') ∧
  next_page all (iPrior it) 0 iLast pg fr' ∧ iPrior it' = pg ∧ (pg ≠ 0xFFFFFFFF → iter_ok it').
Proof.
  intros [Hp Hl Hs]. unfold walIteratorNext. rewrite (proj2 (Z.ltb_lt _ 0xffffffff)) by lia. cbn [c_assert mbind outcome_bind].
  destruct (scan_segments_ok _ (iPrior it) fr Hl ltac:(lia) _ 0 eq_refl Hs) as (l' & pg & fr' & -> & Hlen & Hs' & Hn). cbn [mbind outcome_bind].
  eexists _, _, _. split; [done|]. replace (seg_lo 0) with 0 in Hn by (unfold seg_lo; change (block_zero (Z.of_nat 0)) with 0; lia).
  split; [done|]. split; [done|]. intros Hne. destruct Hn as [[? _]|(Hr & _)]; [done|]. split; cbn; [lia|by rewrite Hlen|].
  intros i s Hi. apply (seg_weaken (iPrior it)); [lia|]. by apply Hs'.
Qed.

(** ** Building the iterator *)

Lemma fmap_u16 N : 0 ≤ N ≤ HASHTABLE_NPAGE → (λ j, u16 j) <$> seqZ 0 N = seqZ 0 N.
Proof.
  intros HN. rewrite <- (list_fmap_id (seqZ 0 N)) at 2. apply list_fmap_ext. intros i j Hj%list_elem_of_lookup_2%list.elem_of_seqZ.
  unfold HASHTABLE_NPAGE in HN. change (id j) with j. apply uw_small. unfold in_uw. lia.
Qed.

Lemma init_segments_ok can_map nTmp n pages : nSeg n → index_ok pages all → Z.min HASHTABLE_NPAGE iLast ≤ nTmp → ∀ left b, (b + left = n)%nat →
  ∃ l, init_segments left can_map nTmp (Z.of_nat n) iLast (Z.of_nat b) pages = Ret (SQLITE_OK, pages, l) ∧ length l = left ∧ segs_ok 0 b l.
Proof.
  intros Hn Hix HT. induction left as [|left IH]; intros b Hb; cbn [init_segments]; [by exists []|].
  destruct (seg_range n b Hn ltac:(lia)) as (H1 & H2 & H3 & H4).
  destruct (ix_pages _ _ Hix b ltac:(lia)) as (p & Ep & Hp). pose proof (lookup_lt_Some _ _ _ Ep) as Hbl.
  unfold walIndexPage. rewrite (proj2 (Z.ltb_lt _ _)) by lia. cbn [negb Z.eqb]. rewrite (walHashGet_ok _ _ _ Ep). cbn [mbind outcome_bind].
  pose proof (block_zero_nonneg (Z.of_nat b) ltac:(lia)) as Hz. pose proof (page_cap_pos (Z.of_nat b)) as Hcap. destruct (ix_bound _ _ Hix).
  assert (length (aPgno p) = Z.to_nat (page_cap (Z.of_nat b))) as Hlen.
  { rewrite (ok_pgno _ _ _ Hp), length_app, length_replicate. pose proof (ok_cap _ _ _ Hp). lia. }
  assert ((if Z.of_nat b + 1 =? Z.of_nat n then i32 (iLast - block_zero (Z.of_nat b)) else Z.of_nat (length (aPgno p))) = count b) as ->.
  { unfold count. destruct (Z.eqb_spec (Z.of_nat b + 1) (Z.of_nat n)) as [E|E].
    - destruct Hn as (_ & _ & Hn). rewrite <- E, block_zero_next in Hn by lia.
      rewrite sw_small; [lia|lia|]. unfold in_sw, HASHTABLE_NPAGE in *. cbn. lia.
    - destruct (seg_range n (S b) Hn ltac:(lia)) as (H5 & _). replace (Z.of_nat (S b)) with (Z.of_nat b + 1) in H5 by lia. rewrite block_zero_next in H5 by lia. lia. }
  assert (count b ≤ page_cap (Z.of_nat b) ∧ count b ≤ iLast) as [Hc1 Hc2] by (unfold count; lia). rewrite fmap_u16 by lia.
  destruct (walMergesort_ok (aPgno p) nTmp (count b)) as (a & k & -> & Hk0 & Hk & Hl); [lia|lia|lia|]. cbn [mbind outcome_bind].
  replace (Z.of_nat b + 1) with (Z.of_nat (S b)) by lia. destruct (IH (S b) ltac:(lia)) as (l & -> & Hll & Hs). cbn [mbind outcome_bind].
  eexists. split; [done|]. split; [cbn; lia|]. apply segs_ok_cons. split; [|done]. split; cbn; try done; try lia.
  intros j Hj. unfold count in Hj. unfold get, hget.
  assert (zlookup (aPgno p) j = zlookup all (block_zero (Z.of_nat b) + j)) as ->.
  { unfold zlookup. rewrite !(proj2 (Z.ltb_ge _ 0)) by lia. rewrite (ok_pgno _ _ _ Hp).
    rewrite lookup_app_l.
    - rewrite lookup_slice, decide_True by lia. f_equal. lia.
    - apply lookup_lt_is_Some. rewrite lookup_slice, decide_True by lia. apply lookup_lt_is_Some. lia. }
  destruct (zlookup_is_Some all (block_zero (Z.of_nat b) + j)) as [x ->]; [lia|done].
Qed.
End Iterator.
