(* ===== verification/WalCkpt.v ===== *)
(** * Checkpoints and the life of a connection

    [walCheckpoint] and [sqlite3WalCheckpoint] of src/wal.c, which copy pages of
    the write-ahead log into the database file, and the functions that open and
    close a log and change its settings. The state is the connection of the file
    Wal and the database file. *)

From S2P Require Import Prelude Varint WalIndex WalFrame Wal WalTxn WalSort WalIter.
#[local] Open Scope Z_scope.
#[local] Open Scope c_scope.
#[local] Open Scope list_scope.

Definition SQLITE_CHECKPOINT_PASSIVE : Z := 0.
Definition SQLITE_CHECKPOINT_FULL : Z := 1.
Definition SQLITE_CHECKPOINT_RESTART : Z := 2.

Record Db := MkDb { wal : Wal; dbFile : list Z }.

Definition on_wal {A} (m : sm Wal A) : sm Db A := λ d,
  match m (wal d) with Ret (a, w) => Ret (a, MkDb w (dbFile d)) | Undef f => Undef f end.

Definition set_dbFile (f : list Z) (d : Db) : Db := MkDb (wal d) f.

(** ** The database file *)

(** [sqlite3OsWrite(pWal->pDbFd, ...)]: a write that fails may have written a
    part. *)
Definition dbWrite (a : list Z) (iOffset : Z) : sm Db Z :=
  '(rc, n) ← on_wal next_event;
  let a := if rc =? SQLITE_OK then a else take (Z.to_nat n) a in
  _ ← sm_mod (λ d, set_dbFile (write_at (dbFile d) (Z.to_nat iOffset) a) d);
  mret rc.

Definition dbFileSize : sm Db (Z * Z) :=
  '(rc, _) ← on_wal next_event;
  f ← sm_get dbFile;
  mret (rc, if rc =? SQLITE_OK then Z.of_nat (length f) else 0).

(** A file that is too short is extended by zeros. *)
Definition dbTruncate (n : Z) : sm Db Z :=
  '(rc, _) ← on_wal next_event;
  _ ← (if rc =? SQLITE_OK
       then sm_mod (λ d, set_dbFile (take (Z.to_nat n) (dbFile d ++ replicate (Z.to_nat n - length (dbFile d)) 0)) d)
       else mret ());
  mret rc.

Definition dbSync : sm Db Z := on_wal sqlite3OsSync.

(** ** Waiting for locks *)

(** [do{ rc = walLockExclusive(...); }while( xBusy && rc==SQLITE_BUSY &&
    xBusy(pBusyArg) )]; [xBusy] tells whether there is a handler, whose answer is
    the next event. *)
Fixpoint busy_loop (fuel : nat) (xBusy : bool) (lockIdx n : Z) : sm Wal Z :=
  rc ← walLockExclusive lockIdx n;
  if xBusy && (rc =? SQLITE_BUSY) then
    '(again, _) ← next_event;
    if again =? 0 then mret rc else
    match fuel with
    | O => sm_lift (Undef OutOfFuel)
    | S fuel' => busy_loop fuel' xBusy lockIdx n
    end
  else mret rc.

Definition walBusyLock (xBusy : bool) (lockIdx n : Z) : sm Wal Z := λ w, busy_loop (length (events w)) xBusy lockIdx n w.

(** ** The checkpoint *)

(** [for(i=1; i<WAL_NREADER; i++)] with [left] marks left: the result code,
    [mxSafeFrame], whether [xBusy] is still set, and whether the function goes to
    its end. *)
Fixpoint safe_frame (left : nat) (i rc mxSafeFrame : Z) (xBusy : bool) : sm Wal (Z * Z * bool * bool) :=
  match left with
  | O => mret (rc, mxSafeFrame, xBusy, false)
  | S left' =>
      y ← sm_gets (λ w, get (aReadMark w) i);
      if y <? mxSafeFrame then
        _ ← sm_gets (λ w, c_assert (y <=? mxFrame (hdr w)));
        rc ← walBusyLock xBusy (WAL_READ_LOCK i) 1;
        if rc =? SQLITE_OK then
          _ ← sm_mod (λ w, set_aReadMark (zinsert (aReadMark w) i (if i =? 1 then mxSafeFrame else READMARK_NOT_USED)) w);
          safe_frame left' (i + 1) rc mxSafeFrame xBusy
        else if rc =? SQLITE_BUSY then safe_frame left' (i + 1) rc y false
        else mret (rc, mxSafeFrame, xBusy, true)
      else safe_frame left' (i + 1) rc mxSafeFrame xBusy
  end.

(** [while( rc==SQLITE_OK && 0==walIteratorNext(pIter, &iDbpage, &iFrame) )] *)
Fixpoint copy_loop (fuel : nat) (sz nBackfill mxSafeFrame mxPage : Z) (pIter : WalIterator) (iFrame : Z) : sm Db Z :=
  '(done, iDbpage, iFrame, pIter) ← sm_lift (walIteratorNext pIter iFrame);
  if done : bool then mret SQLITE_OK else
  match fuel with
  | O => sm_lift (Undef OutOfFuel)
  | S fuel' =>
      _ ← sm_gets (λ d, g ← walFramePgno (wiPages (wal d)) iFrame; c_assert (g =? iDbpage));
      if (iFrame <=? nBackfill) || (mxSafeFrame <? iFrame) || (mxPage <? iDbpage)
      then copy_loop fuel' sz nBackfill mxSafeFrame mxPage pIter iFrame
      else
      '(rc, zBuf) ← on_wal (sqlite3OsRead sz (walFrameOffset iFrame sz + WAL_FRAME_HDRSIZE));
      if negb (rc =? SQLITE_OK) then mret rc else
      rc ← dbWrite zBuf ((iDbpage - 1) * sz);
      if negb (rc =? SQLITE_OK) then mret rc else
      copy_loop fuel' sz nBackfill mxSafeFrame mxPage pIter iFrame
  end.

(** The work done under the lock on [WAL_READ_LOCK(0)]. *)
Definition backfill (sz mxSafeFrame mxPage sync_flags : Z) (pIter : WalIterator) : sm Db Z :=
  bf ← sm_get (λ d, nBackfill (wal d));
  rc ← (if negb (sync_flags =? 0) then on_wal sqlite3OsSync else mret SQLITE_OK);
  rc ← (if rc =? SQLITE_OK then
          let nReq := mxPage * sz in
          '(rc, nSize) ← dbFileSize;
          if (rc =? SQLITE_OK) && (nSize <? nReq) then _ ← on_wal next_event; mret rc else mret rc
        else mret rc);
  mx ← sm_get (λ d, mxFrame (hdr (wal d)));
  rc ← (if rc =? SQLITE_OK then copy_loop (Z.to_nat mx) sz bf mxSafeFrame mxPage pIter 0 else mret rc);
  if negb (rc =? SQLITE_OK) then mret rc else
  shm ← sm_get (λ d, mxFrame (shmHdr0 (wal d)));
  rc ← (if mxSafeFrame =? shm then
          n ← sm_get (λ d, nPage (hdr (wal d)));
          rc ← dbTruncate (n * sz);
          if (rc =? SQLITE_OK) && negb (sync_flags =? 0) then dbSync else mret rc
        else mret rc);
  _ ← (if rc =? SQLITE_OK then on_wal (sm_mod (set_nBackfill mxSafeFrame)) else mret ());
  mret rc.

Definition walCheckpoint (eMode : Z) (xBusyCall : bool) (sync_flags : Z) : sm Db Z :=
  sz ← sm_get (λ d, walPagesize (hdr (wal d)));
  _ ← sm_gets (λ d, c_assert (page0_mapped (wal d)));
  mx ← sm_get (λ d, mxFrame (hdr (wal d)));
  bf ← sm_get (λ d, nBackfill (wal d));
  if mx <=? bf then mret SQLITE_OK else
  '(rc, pIter) ← on_wal walIteratorInit;
  if negb (rc =? SQLITE_OK) then mret rc else
  pIter ← sm_lift (deref pIter);
  let xBusy := if negb (eMode =? SQLITE_CHECKPOINT_PASSIVE) then xBusyCall else false in
  mxPage ← sm_get (λ d, nPage (hdr (wal d)));
  '(rc, mxSafeFrame, xBusy, out) ← on_wal (safe_frame (Z.to_nat (WAL_NREADER - 1)) 1 rc mx xBusy);
  if out : bool then mret rc else
  rc ← (if bf <? mxSafeFrame then
          rc ← on_wal (walBusyLock xBusy (WAL_READ_LOCK 0) 1);
          if rc =? SQLITE_OK then backfill sz mxSafeFrame mxPage sync_flags pIter else mret rc
        else mret rc);
  let rc := if rc =? SQLITE_BUSY then SQLITE_OK else rc in
  if (rc =? SQLITE_OK) && negb (eMode =? SQLITE_CHECKPOINT_PASSIVE) then
    _ ← sm_gets (λ d, c_assert (negb (writeLock (wal d) =? 0)));
    bf ← sm_get (λ d, nBackfill (wal d));
    if bf <? mx then mret SQLITE_BUSY
    else if eMode =? SQLITE_CHECKPOINT_RESTART then
      _ ← sm_lift (c_assert (mxSafeFrame =? mx));
      on_wal (walBusyLock xBusy (WAL_READ_LOCK 1) (WAL_NREADER - 1))
    else mret rc
  else mret rc.

(** [sqlite3WalCheckpoint]: the result code, and [*pnLog] and [*pnCkpt] if they
    are set. The cached mapping of the database file that [sqlite3OsUnfetch] drops
    is not part of the state. *)
Definition sqlite3WalCheckpoint (be : bool) (eMode : Z) (xBusy : bool) (sync_flags nBuf : Z) : sm Db (Z * option (Z * Z)) :=
  _ ← sm_gets (λ d, c_assert (ckptLock (wal d) =? 0));
  _ ← sm_gets (λ d, c_assert (writeLock (wal d) =? 0));
  ro ← sm_get (λ d, readOnly (wal d));
  if negb (ro =? 0) then mret (SQLITE_READONLY, None) else
  rc ← on_wal (walLockExclusive WAL_ALL_BUT_WRITE 1);
  if negb (rc =? SQLITE_OK) then mret (rc, None) else
  _ ← on_wal (sm_mod (set_ckptLock 1));
  '(rc, eMode2) ← (if negb (eMode =? SQLITE_CHECKPOINT_PASSIVE) then
                     rc ← on_wal (walBusyLock xBusy WAL_WRITE_LOCK 1);
                     if rc =? SQLITE_OK then _ ← on_wal (sm_mod (set_writeLock 1)); mret (rc, eMode)
                     else if rc =? SQLITE_BUSY then mret (SQLITE_OK, SQLITE_CHECKPOINT_PASSIVE)
                     else mret (rc, eMode)
                   else mret (rc, eMode));
  '(rc, isChanged) ← (if rc =? SQLITE_OK then on_wal (walIndexReadHdr be) else mret (rc, false));
  '(rc, out) ← (if rc =? SQLITE_OK then
                  mx ← sm_get (λ d, mxFrame (hdr (wal d)));
                  ps ← sm_get (λ d, walPagesize (hdr (wal d)));
                  rc ← (if negb (mx =? 0) && negb (ps =? nBuf) then mret SQLITE_CORRUPT else walCheckpoint eMode2 xBusy sync_flags);
                  if (rc =? SQLITE_OK) || (rc =? SQLITE_BUSY) then
                    bf ← sm_get (λ d, nBackfill (wal d)); mret (rc, Some (i32 mx, i32 bf))
                  else mret (rc, None)
                else mret (rc, None));
  _ ← (if isChanged : bool then on_wal (sm_mod (set_hdr zero_hdr)) else mret ());
  _ ← on_wal sqlite3WalEndWriteTransaction;
  _ ← on_wal (sm_mod (set_ckptLock 0));
  mret (if (rc =? SQLITE_OK) && negb (eMode =? eMode2) then SQLITE_BUSY else rc, out).

(** ** Opening and closing *)

Definition set_conf (c : config) (w : Wal) : Wal :=
  MkWal (szPage w) (nCkpt w) (hdr w) (readLock w) (writeLock w) (ckptLock w) (readOnly w) (truncateOnCommit w)
    (iCallback w) (wiPages w) (shmHdr0 w) (shmHdr1 w) (nBackfill w) (aReadMark w) (walFile w) (events w) (random w) c.

Definition set_exclusiveMode (m : Z) (w : Wal) : Wal :=
  set_conf (Config m (syncHeader (conf w)) (padToSectorBoundary (conf w)) (mxWalSize (conf w)) (sectorSize (conf w)) (can_map (conf w))) w.

Definition WAL_NORMAL_MODE : Z := 0.
Definition WAL_EXCLUSIVE_MODE : Z := 1.
Definition WAL_HEAPMEMORY_MODE : Z := 2.
Definition SQLITE_IOCAP_SEQUENTIAL : Z := 0x400.
Definition SQLITE_IOCAP_POWERSAFE_OVERWRITE : Z := 0x1000.
Definition SQLITE_OPEN_READONLY : Z := 1.

(** A new connection to the log and the shared memory of [w]: the result code.
    [iDC] are the device characteristics; the flags that [sqlite3OsOpen] gives
    back are the second part of its event. *)
Definition sqlite3WalOpen (bNoShm : bool) (mxWalSize iDC ss : Z) (cm : Z → bool) : sm Wal Z :=
  ok ← sqlite3_malloc;
  if negb ok then mret SQLITE_NOMEM else
  '(rc, flags) ← next_event;
  if negb (rc =? SQLITE_OK) then mret rc else
  _ ← sm_mod (λ w, MkWal 0 0 zero_hdr (-1) 0 0 (if negb (flags .& SQLITE_OPEN_READONLY =? 0) then 1 else 0) 0 0
        (if bNoShm then [] else wiPages w) (shmHdr0 w) (shmHdr1 w) (nBackfill w) (aReadMark w) (walFile w) (events w) (random w)
        (Config (if bNoShm then WAL_HEAPMEMORY_MODE else WAL_NORMAL_MODE)
                (if negb (iDC .& SQLITE_IOCAP_SEQUENTIAL =? 0) then 0 else 1)
                (if negb (iDC .& SQLITE_IOCAP_POWERSAFE_OVERWRITE =? 0) then 0 else 1) mxWalSize ss cm));
  mret rc.

Definition sqlite3WalLimit (iLimit : Z) : sm Wal () :=
  sm_mod (λ w, set_conf (Config (exclusiveMode (conf w)) (syncHeader (conf w)) (padToSectorBoundary (conf w)) iLimit (sectorSize (conf w)) (can_map (conf w))) w).

(** The pages in heap memory are freed; shared memory goes with [isDelete]. *)
Definition walIndexClose (isDelete : bool) : sm Wal () :=
  m ← sm_get (λ w, exclusiveMode (conf w));
  if (m =? WAL_HEAPMEMORY_MODE) || isDelete then sm_mod (λ w, set_wiPages [] (set_index_hdr zero_hdr w)) else mret ().

(** [sqlite3WalClose]: the answer to SQLITE_FCNTL_PERSIST_WAL is an event; a
    deleted log is an empty file. *)
Definition sqlite3WalClose (be : bool) (sync_flags nBuf : Z) : sm Db Z :=
  '(rc, _) ← on_wal next_event;
  '(rc, isDelete) ←
    (if rc =? SQLITE_OK then
       _ ← on_wal (sm_mod (λ w, if exclusiveMode (conf w) =? WAL_NORMAL_MODE then set_exclusiveMode WAL_EXCLUSIVE_MODE w else w));
       '(rc, _) ← sqlite3WalCheckpoint be SQLITE_CHECKPOINT_PASSIVE false sync_flags nBuf;
       if rc =? SQLITE_OK then
         '(rx, b) ← on_wal next_event;
         let bPersist := if rx =? SQLITE_OK then b else -1 in
         if negb (bPersist =? 1) then mret (rc, true) else
         m ← sm_get (λ d, mxWalSize (conf (wal d)));
         if 0 <=? m then _ ← on_wal (walLimitSize 0); mret (rc, false) else mret (rc, false)
       else mret (rc, false)
     else mret (rc, false));
  _ ← on_wal (walIndexClose isDelete);
  _ ← (if isDelete : bool then
         '(rx, _) ← on_wal next_event;
         if rx =? SQLITE_OK then on_wal (sm_mod (set_walFile [])) else mret ()
       else mret ());
  mret rc.

Definition sqlite3WalCallback : sm Wal Z :=
  ret ← sm_get iCallback;
  _ ← sm_mod (set_iCallback 0);
  mret (i32 ret).

Definition sqlite3WalExclusiveMode (op : Z) : sm Wal Z :=
  _ ← sm_gets (λ w, c_assert (writeLock w =? 0));
  _ ← sm_gets (λ w, c_assert (negb (exclusiveMode (conf w) =? WAL_HEAPMEMORY_MODE) || (op =? -1)));
  _ ← sm_gets (λ w, c_assert ((0 <=? readLock w) || ((op <=? 0) && (exclusiveMode (conf w) =? 0))));
  m ← sm_get (λ w, exclusiveMode (conf w));
  if op =? 0 then
    if negb (m =? 0) then
      _ ← sm_mod (set_exclusiveMode 0);
      l ← sm_get readLock;
      rc ← walLockShared (WAL_READ_LOCK l);
      if negb (rc =? SQLITE_OK) then _ ← sm_mod (set_exclusiveMode 1); mret 0 else mret 1
    else mret 0
  else if 0 <? op then
    _ ← sm_gets (λ w, c_assert (exclusiveMode (conf w) =? 0));
    _ ← sm_gets (λ w, c_assert (0 <=? readLock w));
    _ ← sm_mod (set_exclusiveMode 1);
    mret 1
  else mret (if m =? 0 then 1 else 0).

Definition sqlite3WalHeapMemory (w : Wal) : bool := exclusiveMode (conf w) =? WAL_HEAPMEMORY_MODE.
