(* ===== verification/WalBackfill.v ===== *)
(** * What a checkpoint preserves

    A checkpoint moves pages from the log to the database file while readers go
    on reading. Whatever fails, no reader sees a page change, no committed page is
    lost, and the log is deleted only when the database has all of it. *)

From S2P Require Import Prelude Varint WalIndex WalFrame Wal WalTxn WalDurable WalCrash WalSort WalIter WalCkpt.
#[local] Open Scope Z_scope.
#[local] Open Scope c_scope.
#[local] Open Scope list_scope.

(** ** Pages of the database file *)

(** A file reads as zeros past its end. *)
Definition byte_at (f : list Z) (k : nat) : Z := default 0 (f !! k).

Definition db_page (sz : Z) (f : list Z) (q : Z) : list Z :=
  byte_at f <$> seq (Z.to_nat ((q - 1) * sz)) (Z.to_nat sz).

(** A page as a reader sees it whose snapshot has [y] frames. *)
Definition view (sz : Z) (fs : list frame) (y : nat) (f : list Z) (q : Z) : list Z :=
  default (db_page sz f q) (page_of (take y fs) q).

Lemma byte_at_write f off a k : byte_at (write_at f off a) k = if decide (off ≤ k < off + length a)%nat then byte_at a (k - off) else byte_at f k.
Proof.
  unfold byte_at, write_at. destruct a as [|x a]; [case_decide; [cbn in *; lia|done]|]. set (l := x :: a).
  case_decide as Hk.
  - rewrite lookup_app_r by (rewrite length_take, length_app, length_replicate; lia).
    rewrite length_take, length_app, length_replicate, lookup_app_l by lia. do 2 f_equal. lia.
  - destruct (decide (k < off)%nat) as [Hlt|Hge].
    + rewrite lookup_app_l by (rewrite length_take, length_app, length_replicate; lia). rewrite lookup_take_lt by lia.
      destruct (decide (k < length f)%nat); [by rewrite lookup_app_l|].
      rewrite lookup_app_r by lia. rewrite (lookup_ge_None_2 f) by lia. rewrite lookup_replicate_2 by lia. done.
    + rewrite lookup_app_r by (rewrite length_take, length_app, length_replicate; lia).
      rewrite length_take, length_app, length_replicate, lookup_app_r, lookup_drop by lia. do 2 f_equal. lia.
Qed.

Lemma byte_at_truncate f n k : (k < n)%nat → byte_at (take n (f ++ replicate (n - length f) 0)) k = byte_at f k.
Proof.
  intros Hk. unfold byte_at. rewrite lookup_take_lt by done. destruct (decide (k < length f)%nat); [by rewrite lookup_app_l|].
  rewrite lookup_app_r by lia. rewrite (lookup_ge_None_2 f) by lia. rewrite lookup_replicate_2 by lia. done.
Qed.

Lemma db_page_ext sz f g q : (∀ k, (Z.to_nat ((q - 1) * sz) ≤ k < Z.to_nat ((q - 1) * sz) + Z.to_nat sz)%nat → byte_at f k = byte_at g k) →
  db_page sz f q = db_page sz g q.
Proof. intros H. apply list_fmap_ext. intros i k Hk%list_elem_of_lookup_2%elem_of_seq. by apply H. Qed.

Lemma db_page_write_other sz f p q a : 0 < sz → 1 ≤ p → 1 ≤ q → p ≠ q → Z.of_nat (length a) ≤ sz →
  db_page sz (write_at f (Z.to_nat ((p - 1) * sz)) a) q = db_page sz f q.
Proof.
  intros Hs Hp Hq Hne Ha. apply db_page_ext. intros k Hk. rewrite byte_at_write, decide_False; [done|].
  destruct (decide (p < q)); nia.
Qed.

Lemma db_page_write sz f p a : 0 < sz → 1 ≤ p → Z.of_nat (length a) = sz → db_page sz (write_at f (Z.to_nat ((p - 1) * sz)) a) p = a.
Proof.
  intros Hs Hp Ha. unfold db_page. apply list_eq. intros i. rewrite list_lookup_fmap. destruct (decide (i < length a)%nat) as [Hi|Hi].
  - rewrite lookup_seq_lt by lia. cbn. rewrite byte_at_write, decide_True by lia. unfold byte_at.
    replace (Z.to_nat ((p - 1) * sz) + i - Z.to_nat ((p - 1) * sz))%nat with i by lia.
    destruct (lookup_lt_is_Some_2 a i Hi) as [x Hx]. by rewrite Hx.
  - rewrite lookup_seq_ge by lia. symmetry. apply lookup_ge_None. lia.
Qed.

(** ** The frames of a page *)

(** [fr] is the last frame of page [q]. *)
Definition last_frame (fs : list frame) (q fr : Z) : Prop := fr ≠ 0 ∧ is_last (f_pgno <$> fs) 1 (Z.of_nat (length fs)) q fr.

Lemma last_frame_page fs q fr : last_frame fs q fr → ∃ j f, fr = Z.of_nat (S j) ∧ fs !! j = Some f ∧ f_pgno f = q ∧ page_of fs q = Some (f_data f).
Proof.
  intros [Hne Hl]. pose proof (is_last_page_of fs (length fs) q fr ltac:(lia) Hl) as H. rewrite take_ge in H by lia.
  destruct Hl as [[? _]|(j & Hj & -> & _)]; [done|]. rewrite list_lookup_fmap in Hj. destruct (fs !! j) as [f|] eqn:Ef; [|done]. cbn in Hj. simplify_eq.
  exists j, f. split; [lia|]. split; [done|]. split; [done|]. destruct (page_of fs (f_pgno f)) as [d|]; [|lia].
  destruct H as (j' & f' & E & _ & Hf' & <-). assert (j' = j) as -> by lia. by simplify_eq.
Qed.

Lemma last_frame_exists fs q d : page_of fs q = Some d → ∃ fr, last_frame fs q fr.
Proof.
  intros Hd. assert (∃ r, is_last (f_pgno <$> fs) 1 (Z.of_nat (length fs)) q r) as [r Hr].
  { clear Hd. induction fs as [|f fs IH] using rev_ind.
    - exists 0. left. split; [done|]. intros j Hj. done.
    - rewrite fmap_app, length_app. cbn [fmap list_fmap length]. destruct (decide (f_pgno f = q)) as [E|E].
      + exists (Z.of_nat (length fs) + 1). right. exists (length fs). split; [|split; [lia|split; [lia|intros; lia]]].
        rewrite lookup_app_r by (by rewrite length_fmap). rewrite length_fmap, Nat.sub_diag. cbn. by rewrite E.
      + destruct IH as [r Hr]. assert (∀ j, (f_pgno <$> fs ++ [f]) !! j = Some q → (f_pgno <$> fs) !! j = Some q) as Hin.
        { intros j Hj. rewrite fmap_app in Hj. apply lookup_app_Some in Hj as [Hj|[_ Hj]]; [done|]. cbn in Hj. apply list_lookup_singleton_Some in Hj as [_ Hj]. congruence. }
        rewrite fmap_app in Hin. exists r. destruct Hr as [[-> H]|(j & Hj & -> & Hle & H)].
        * left. split; [done|]. intros j Hj Hlt. apply (H j); [by apply Hin|]. apply Hin, lookup_lt_Some in Hj. rewrite length_fmap in Hj. lia.
        * right. exists j. split; [by apply lookup_app_l_Some|]. split; [done|]. split; [lia|].
          intros j' Hj' Hlt. apply H; [by apply Hin|]. apply Hin, lookup_lt_Some in Hj'. rewrite length_fmap in Hj'. lia. }
  exists r. split; [|done]. intros ->. pose proof (is_last_page_of fs (length fs) q 0 ltac:(lia) Hr) as H. rewrite take_ge, Hd in H by lia.
  destruct H as (j & _ & ? & _). lia.
Qed.

Lemma last_frame_unique fs q a b : last_frame fs q a → last_frame fs q b → a = b.
Proof. intros [_ Ha] [_ Hb]. eapply is_last_unique; [|exact Ha|exact Hb]; lia. Qed.

(** A snapshot that covers the last frame of a page has the page from the log. *)
Lemma last_frame_taken fs q fr y : last_frame fs q fr → fr ≤ Z.of_nat y → page_of (take y fs) q ≠ None.
Proof.
  intros Hl Hy. destruct (last_frame_page _ _ _ Hl) as (j & f & -> & Hf & Hq & _). unfold page_of.
  intros E%fmap_None%last_None. assert (f ∈ filter (λ f, f_pgno f = q) (take y fs)) as Hin; [|by rewrite E in Hin; apply list.elem_of_nil in Hin].
  apply list_elem_of_filter. split; [done|]. apply (list_elem_of_lookup_2 _ j). rewrite lookup_take_lt by lia. done.
Qed.

(** ** Runs of a checkpoint *)

(** The log that is copied: its file holds the frames [fs], the wal-index the page
    numbers [all] of these frames and possibly of later ones. *)
Record has_log (w : Wal) (fs : list frame) (sz : Z) (all : list Z) : Prop := {
  hl_size : page_size sz;
  hl_frames : Forall (frame_ok sz) fs;
  hl_file : ∃ bw n salt tail, salt_ok salt ∧ walFile w = log_file bw sz n salt fs ++ tail;
  hl_index : index_ok (wiPages w) all;
  hl_all : take (length fs) all = f_pgno <$> fs;
  hl_pgno : Forall (λ x, 0 < x < 0xFFFFFFFF) all;
  hl_marks : length (aReadMark w) = 5%nat }.

Section Run.
Context (w0 : Wal).

Definition quiet : Prop := events w0 = [].
(** Every lock is granted. *)
Definition granted : Prop := exclusiveMode (conf w0) ≠ 0 ∨ quiet.

(** No call is answered with SQLITE_BUSY. *)
Definition polite : Prop := Forall (λ e, e.1 ≠ SQLITE_BUSY) (events w0).

(** What is known of the result code of a call. *)
Definition io (rc : Z) : Prop := (quiet → rc = SQLITE_OK) ∧ (polite → rc ≠ SQLITE_BUSY).

Definition at_wal (marks : list Z) (bf : Z) (w : Wal) : Prop :=
  (∃ es, w = set_events es (set_aReadMark marks (set_nBackfill bf w0))) ∧ (quiet → events w = []) ∧
  (polite → Forall (λ e, e.1 ≠ SQLITE_BUSY) (events w)).

Lemma event_any m b w : at_wal m b w → ∃ e w', next_event w = Ret (e, w') ∧ at_wal m b w' ∧ io e.1 ∧
  (length (events w') ≤ length (events w))%nat ∧ (e ≠ (SQLITE_OK, 0) → (length (events w') < length (events w))%nat).
Proof.
  intros ([es ->] & Hq & Hp). unfold next_event. destruct (events _) as [|e es'] eqn:E; cbn in E; subst es.
  - eexists _, _. split; [done|]. split; [split; [by exists []|done]|]. split; [done|]. split; [done|]. by intros [].
  - eexists _, _. split; [done|]. cbn in *. split; [split; [by exists es'|split]|].
    + intros H. by specialize (Hq H).
    + intros H. by apply list.Forall_cons in Hp as [_ ?]; [|done].
    + split; [split; [intros H; by specialize (Hq H)|intros H; by apply list.Forall_cons in Hp as [? _]; [|done]]|]. lia.
Qed.

Lemma ckpt_event_total m b : total (at_wal m b) next_event (λ e w, at_wal m b w ∧ io e.1).
Proof. intros w Hw. destruct (event_any m b w Hw) as (e & w' & E & H & Hq & _). by exists e, w'. Qed.

Lemma at_wal_conf m b w : at_wal m b w → conf w = conf w0 ∧ hdr w = hdr w0 ∧ shmHdr0 w = shmHdr0 w0 ∧ wiPages w = wiPages w0 ∧ walFile w = walFile w0 ∧
  writeLock w = writeLock w0 ∧ nBackfill w = b ∧ aReadMark w = m ∧ ckptLock w = ckptLock w0.
Proof. by intros ([es ->] & _). Qed.

Lemma lock_any m b w : at_wal m b w → ∃ rc w', walLock w = Ret (rc, w') ∧ at_wal m b w' ∧ (granted → rc = SQLITE_OK) ∧
  (length (events w') ≤ length (events w))%nat ∧ (rc ≠ SQLITE_OK → (length (events w') < length (events w))%nat).
Proof.
  intros Hw. pose proof (at_wal_conf _ _ _ Hw) as [Hc _]. unfold walLock. erewrite sm_bind_run; [|done]. cbn beta. rewrite Hc.
  destruct (Z.eqb_spec (exclusiveMode (conf w0)) 0) as [E|E]; cbn [negb]; [|by exists SQLITE_OK, w].
  destruct (event_any m b w Hw) as ([rc k] & w' & Ev & H & Hq & Hle & Hlt). exists rc, w'. erewrite sm_bind_run; [|exact Ev].
  split; [done|]. split; [done|]. split; [|split; [done|]].
  - intros [?|Hqq]; [done|]. by apply Hq.
  - intros Hne. apply Hlt. intros ?. by simplify_eq.
Qed.

Lemma walBusyLock_total m b xBusy i n : total (at_wal m b) (walBusyLock xBusy i n) (λ rc w, at_wal m b w ∧ (granted → rc = SQLITE_OK)).
Proof.
  intros w Hw. unfold walBusyLock. remember (length (events w)) as fuel eqn:Ef. assert (length (events w) ≤ fuel)%nat as Hf by lia. clear Ef.
  revert w Hw Hf. induction fuel as [|fuel IH]; intros w Hw Hf; cbn [busy_loop];
    destruct (lock_any m b w Hw) as (rc & w' & E & H & Hg & Hle & Hlt); (erewrite sm_bind_run; [|exact E]);
    (destruct (xBusy && (rc =? SQLITE_BUSY)) eqn:Eb; [|by exists rc, w']); b2p; subst rc; specialize (Hlt ltac:(done)); [lia|].
  destruct (event_any m b w' H) as ([again k] & w2 & E2 & H2 & Hq2 & Hle2 & _). erewrite sm_bind_run; [|exact E2]. cbn beta iota.
  destruct (again =? 0); [by exists SQLITE_BUSY, w2|]. apply IH; [done|lia].
Qed.

Definition at_db (m : list Z) (b : Z) (f : list Z) (d : Db) : Prop := at_wal m b (wal d) ∧ dbFile d = f.

Lemma total_on_wal {A} (P : Wal → Prop) (m : sm Wal A) (Q : A → Wal → Prop) f : total P m Q →
  total (λ d, P (wal d) ∧ dbFile d = f) (on_wal m) (λ a d, Q a (wal d) ∧ dbFile d = f).
Proof. intros H [w g] [Hw E]. destruct (H w Hw) as (a & w' & Er & Hq). exists a, (MkDb w' g). unfold on_wal. cbn. by rewrite Er. Qed.

Lemma db_event m b f : total (at_db m b f) (on_wal next_event) (λ e d, at_db m b f d ∧ io e.1).
Proof. eapply total_conseq; [apply total_on_wal, ckpt_event_total|done|]. intros e d [[? ?] ?]. by split. Qed.

Lemma sync_total m b f : total (at_db m b f) (on_wal sqlite3OsSync) (λ rc d, at_db m b f d ∧ io rc).
Proof.
  eapply total_conseq; [apply (total_on_wal (at_wal m b) _ (λ rc w, at_wal m b w ∧ io rc))|done|by intros rc d [[? ?] ?]].
  eapply total_bind; [apply ckpt_event_total|]. intros [rc k]. apply total_ret. done.
Qed.

Lemma dbFileSize_total m b f : total (at_db m b f) dbFileSize (λ r d, at_db m b f d ∧ io r.1).
Proof.
  eapply total_bind; [apply db_event|]. intros [rc k]. cbn beta iota. eapply total_bind; [apply total_get|]. intros g. apply total_ret. by intros d [[? ?] _].
Qed.

Lemma io_ok : io SQLITE_OK.
Proof. by split. Qed.

Context (f0 : list Z) (fs : list frame) (sz : Z) (all : list Z).
Hypothesis (HL : has_log w0 fs sz all) (Hmx : mxFrame (hdr w0) = Z.of_nat (length fs)) (Hshm : mxFrame (shmHdr0 w0) = Z.of_nat (length fs)).

(** Read marks that stay as they are do not lie before [mxSafeFrame]. *)
Lemma safe_frame_total : ∀ left i m b rc mx xBusy, length m = 5%nat → 1 ≤ i → i + Z.of_nat left = 5 → mx ≤ Z.of_nat (length fs) →
  total (at_wal m b) (safe_frame left i rc mx xBusy) (λ '(rc', mx', _, out) w, ∃ m', at_wal m' b w ∧ length m' = 5%nat ∧ mx' ≤ mx ∧
    (∀ k : nat, Z.of_nat k < i → m' !! k = m !! k) ∧
    (out = false → ∀ (k : nat) y, i ≤ Z.of_nat k → m !! k = Some y → m' !! k = Some y → mx' ≤ y) ∧
    (granted → mx' = mx ∧ out = false ∧ (rc = SQLITE_OK → rc' = SQLITE_OK))).
Proof.
  assert (Z.of_nat (length fs) < READMARK_NOT_USED) as Hnu.
  { pose proof (ix_bound _ _ (hl_index _ _ _ _ HL)) as Hb. pose proof (f_equal length (hl_all _ _ _ _ HL)) as Hl.
    rewrite length_take, length_fmap in Hl. unfold READMARK_NOT_USED, HASHTABLE_NPAGE in *. lia. }
  induction left as [|left IH]; intros i m b rc mx xBusy Hm Hi Hl Hle; cbn [safe_frame].
  { apply total_ret. intros w Hw. exists m. do 3 (split; [done|]). split; [done|]. split; [|done].
    intros _ k y Hk Hy. apply lookup_lt_Some in Hy. lia. }
  destruct (lookup_lt_is_Some_2 m (Z.to_nat i) ltac:(lia)) as [y Hy].
  eapply total_bind.
  { apply (total_gets _ _ (λ a w, at_wal m b w ∧ a = y)). intros w Hw. exists y. split; [|done]. destruct (at_wal_conf _ _ _ Hw) as (_ & _ & _ & _ & _ & _ & _ & -> & _).
    unfold get, zlookup. by rewrite (proj2 (Z.ltb_ge i 0)), Hy by lia. }
  intros a. apply total_pure. intros ->. destruct (Z.ltb_spec y mx) as [Hlt|Hge].
  - eapply total_bind; [apply total_assert; intros w Hw; destruct (at_wal_conf _ _ _ Hw) as (_ & -> & _); rewrite Hmx; apply Z.leb_le; lia|].
    intros u; cbn beta; clear u. eapply total_bind; [apply walBusyLock_total|]. intros rc1. cbn beta. destruct (Z.eqb_spec rc1 SQLITE_OK) as [->|Hne].
    + set (v := if i =? 1 then mx else READMARK_NOT_USED).
      apply (total_bind _ _ (λ _, at_wal (zinsert m i v) b)).
      { apply total_mod. intros w [([es ->] & Hq) _]. split; [by exists es|exact Hq]. }
      intros u; cbn beta; clear u.
      eapply total_conseq; [apply IH; [by rewrite zinsert_length|lia|lia|done]|done|].
      intros [[[rc' mx'] xb'] out] w (m' & H1 & H2 & H3 & H4 & H5 & H6). exists m'. do 3 (split; [done|]). split; [|split; [|intros Hg; specialize (H6 Hg); naive_solver]].
      * intros k Hk. rewrite H4 by lia. unfold zinsert. rewrite (proj2 (Z.ltb_ge i 0)) by lia. apply list_lookup_insert_ne. lia.
      * intros Ho k z Hk Hz Hz'. destruct (decide (Z.of_nat k = i)) as [E|E].
        -- exfalso. rewrite H4 in Hz' by lia. unfold zinsert in Hz'. rewrite (proj2 (Z.ltb_ge i 0)) in Hz' by lia.
           replace k with (Z.to_nat i) in * by lia. rewrite list_lookup_insert_eq in Hz' by lia. assert (z = y) as -> by congruence. injection Hz' as Hv. unfold v in Hv. destruct (i =? 1); lia.
        -- apply (H5 Ho k z); [lia| |done]. unfold zinsert. rewrite (proj2 (Z.ltb_ge i 0)), list_lookup_insert_ne by lia. done.
    + destruct (Z.eqb_spec rc1 SQLITE_BUSY) as [->|Hnb].
      * intros w [Hw Hg]. destruct (IH (i + 1) m b SQLITE_BUSY y false Hm ltac:(lia) ltac:(lia) ltac:(lia) w Hw) as ([[[rc' mx'] xb'] out] & w' & E & m' & H1 & H2 & H3 & H4 & H5 & H6).
        eexists _, _. split; [exact E|]. exists m'. split; [done|]. split; [done|]. split; [lia|]. split; [intros k Hk; apply H4; lia|]. split.
        -- intros Ho k z Hk Hz Hz'. destruct (decide (Z.of_nat k = i)) as [E'|E']; [|apply (H5 Ho k z); [lia|done|done]].
           replace k with (Z.to_nat i) in * by lia. simplify_eq. lia.
        -- intros Hgr. by specialize (Hg Hgr).
      * apply total_ret. intros w [Hw Hg]. exists m. do 3 (split; [done|]). split; [done|]. split; [done|]. intros Hgr. by specialize (Hg Hgr).
  - eapply total_conseq; [apply IH; [done|lia|lia|done]|done|].
    intros [[[rc' mx'] xb'] out] w (m' & H1 & H2 & H3 & H4 & H5 & H6). exists m'. do 3 (split; [done|]). split; [intros k Hk; apply H4; lia|]. split; [|done].
    intros Ho k z Hk Hz Hz'. destruct (decide (Z.of_nat k = i)) as [E'|E']; [|apply (H5 Ho k z); [lia|done|done]].
    replace k with (Z.to_nat i) in * by lia. simplify_eq. lia.
Qed.

(** ** Copying *)

Lemma frames_length : (length fs ≤ length all)%nat.
Proof. pose proof (f_equal length (hl_all _ _ _ _ HL)) as H. rewrite length_take, length_fmap in H. lia. Qed.

Lemma pgno_lookup (j : nat) q : 0 < q → ((f_pgno <$> fs) !! j = Some q ↔ (j < length fs)%nat ∧ hget all (Z.of_nat j) = q).
Proof.
  intros Hq. rewrite <- (hl_all _ _ _ _ HL). unfold hget, zlookup. rewrite (proj2 (Z.ltb_ge _ 0)), Nat2Z.id by lia. split.
  - intros H. pose proof (lookup_lt_Some _ _ _ H) as Hl. rewrite length_take in Hl. rewrite lookup_take_lt in H by lia. rewrite H. split; [lia|done].
  - intros [Hj H]. rewrite lookup_take_lt by lia. pose proof frames_length. destruct (lookup_lt_is_Some_2 all j ltac:(lia)) as [x Hx]. rewrite Hx in *. cbn in H. by subst.
Qed.

Lemma next_page_last iMin pg fr : 0 ≤ iMin → next_page all iMin 0 (Z.of_nat (length fs)) pg fr → pg ≠ 0xFFFFFFFF → last_frame fs pg fr ∧ iMin < pg < 0xFFFFFFFF.
Proof.
  intros Hmin [[? _]|(Hr & Hfr & Hpg & Hj)] Hne; [done|]. split; [|lia]. split; [lia|]. right. exists (Z.to_nat (fr - 1)).
  split; [|split; [lia|split; [lia|]]].
  - apply pgno_lookup; [lia|]. rewrite Z2Nat.id by lia. split; [lia|done].
  - intros j' Hj'%pgno_lookup Hle; [|lia]. destruct Hj' as [? E]. destruct (Hj (Z.of_nat j') ltac:(lia) ltac:(lia)) as [_ Hle2]. specialize (Hle2 E). lia.
Qed.

Lemma next_page_least iMin pg fr q fr' : 0 ≤ iMin → next_page all iMin 0 (Z.of_nat (length fs)) pg fr → last_frame fs q fr' → iMin < q → pg ≤ q.
Proof.
  intros Hmin Hn Hl Hq. destruct (last_frame_page _ _ _ Hl) as (j & f & -> & Hf & Hfq & _).
  assert ((f_pgno <$> fs) !! j = Some q) as Hj by (rewrite list_lookup_fmap, Hf; cbn; by rewrite Hfq).
  apply pgno_lookup in Hj as [Hjl Hj]; [|lia]. destruct Hn as [[-> Hn]|(_ & _ & _ & Hn)].
  - specialize (Hn (Z.of_nat j) ltac:(lia)). lia.
  - destruct (Hn (Z.of_nat j) ltac:(lia) ltac:(lia)). lia.
Qed.

(** Pages still to come, for the number of rounds. *)
Definition remaining (k : Z) : nat := length (filter (λ x, k < x) (take (length fs) all)).

Lemma remaining_less iMin pg fr : 0 ≤ iMin → last_frame fs pg fr → iMin < pg → (remaining pg < remaining iMin)%nat.
Proof.
  intros Hmin Hl Hlt. unfold remaining. rewrite (hl_all _ _ _ _ HL).
  destruct (last_frame_page _ _ _ Hl) as (j & f & _ & Hf & Hq & _).
  assert (pg ∈ f_pgno <$> fs) as Hin by (apply list_elem_of_fmap; exists f; split; [done|by eapply list_elem_of_lookup_2]).
  clear Hf Hl. induction (f_pgno <$> fs) as [|x l IH]; [by apply list.elem_of_nil in Hin|].
  assert (length (filter (λ x : Z, (pg < x)%Z) l) ≤ length (filter (λ x : Z, (iMin < x)%Z) l))%nat as Hle.
  { clear IH Hin. induction l as [|y l IH]; [done|]. rewrite !filter_cons. repeat case_decide; cbn; lia. }
  rewrite !filter_cons. apply list.elem_of_cons in Hin as [<-|Hin].
  - rewrite decide_False, decide_True by lia. cbn. lia.
  - specialize (IH Hin). repeat case_decide; cbn; lia.
Qed.

Context (bf mxS : Z).
Abbreviation mxPage := (nPage (hdr w0)).

(** The pages that are copied, and their last frames. *)
Definition eligible (q fr : Z) : Prop := last_frame fs q fr ∧ bf < fr ≤ mxS ∧ q ≤ mxPage.

Definition kept (f : list Z) : Prop := ∀ q, 1 ≤ q → (∀ fr, ¬ eligible q fr) → db_page sz f q = db_page sz f0 q.
Definition copied (iMin : Z) (f : list Z) : Prop := ∀ q fr, 1 ≤ q → q ≤ iMin → eligible q fr → page_of fs q = Some (db_page sz f q).

Lemma sz_pos : 0 < sz.
Proof. destruct (page_size_spec _ (hl_size _ _ _ _ HL)). lia. Qed.

Lemma dbWrite_total m b f a q : 1 ≤ q → Z.of_nat (length a) = sz →
  total (at_db m b f) (dbWrite a ((q - 1) * sz)) (λ rc d, ∃ f', at_db m b f' d ∧ (∀ p, 1 ≤ p → p ≠ q → db_page sz f' p = db_page sz f p) ∧
    (rc = SQLITE_OK → db_page sz f' q = a) ∧ io rc).
Proof.
  intros Hq Ha. pose proof sz_pos. unfold dbWrite. eapply total_bind; [apply db_event|]. intros [rc n]. cbn beta iota.
  intros [w g] [[Hw E] Hqu]. cbn in E. subst g. set (a' := if rc =? SQLITE_OK then a else take (Z.to_nat n) a).
  erewrite sm_bind_run; [|done]. eexists _, _. split; [done|]. exists (write_at f (Z.to_nat ((q - 1) * sz)) a'). split; [done|]. split; [|split].
  - intros p Hp Hne. apply db_page_write_other; try done. unfold a'. destruct (rc =? SQLITE_OK); [lia|]. rewrite length_take. lia.
  - intros ->. unfold a'. cbn. by apply db_page_write.
  - exact Hqu.
Qed.

Lemma read_frame_total m b (j : nat) fr : fs !! j = Some fr →
  total (at_wal m b) (sqlite3OsRead sz (walFrameOffset (Z.of_nat (S j)) sz + WAL_FRAME_HDRSIZE))
    (λ '(rc, a) w, at_wal m b w ∧ (rc = SQLITE_OK → a = f_data fr) ∧ io rc).
Proof.
  intros Hj. destruct (hl_file _ _ _ _ HL) as (bw & n & salt & tail & Hs & Hf). unfold sqlite3OsRead.
  eapply total_bind; [apply ckpt_event_total|]. intros [rc k]. cbn beta iota. destruct (Z.eqb_spec rc SQLITE_OK) as [->|Hne]; cbn [negb].
  - intros w [Hw _]. erewrite sm_bind_run; [|done]. destruct (at_wal_conf _ _ _ Hw) as (_ & _ & _ & _ & -> & _). rewrite Hf.
    pose proof (hl_frames _ _ _ _ HL) as Hfs. pose proof (fok_len _ _ (proj1 (list.Forall_forall _ _) Hfs fr (list_elem_of_lookup_2 _ _ _ Hj))) as Hfl.
    destruct (log_file_frame bw sz n salt fs tail j fr Hs Hfs Hj) as [Ht Hle]. pose proof sz_pos. pose proof (frame_offset_pos sz j ltac:(lia)) as Hop.
    replace (Z.to_nat (walFrameOffset (Z.of_nat (S j)) sz + WAL_FRAME_HDRSIZE)) with (Z.to_nat (frame_offset sz j) + 24)%nat
      by (unfold walFrameOffset, frame_offset, WAL_FRAME_HDRSIZE, WAL_HDRSIZE in *; lia).
    replace (Z.to_nat sz) with (length (f_data fr)) by lia. rewrite Ht, (proj2 (Z.ltb_ge _ sz)) by lia. by eexists _, _.
  - apply total_ret. by intros w [Hw Hq].
Qed.

Lemma all_bound : Z.of_nat (length fs) + HASHTABLE_NPAGE < 2 ^ 32.
Proof. pose proof (ix_bound _ _ (hl_index _ _ _ _ HL)). pose proof frames_length. lia. Qed.

Lemma last_frame_pgno q fr : 0 < q → last_frame fs q fr → all !! Z.to_nat (fr - 1) = Some q ∧ 0 < fr.
Proof.
  intros Hq Hl. destruct (last_frame_page _ _ _ Hl) as (j & f & -> & Hf & Hfq & _). replace (Z.to_nat (Z.of_nat (S j) - 1)) with j by lia.
  split; [|lia]. pose proof (lookup_lt_Some _ _ _ Hf) as Hj. rewrite <- (lookup_take_lt _ _ _ Hj), (hl_all _ _ _ _ HL), list_lookup_fmap, Hf. cbn. by rewrite Hfq.
Qed.

Lemma copied_next iMin pg fr f : 0 ≤ iMin → next_page all iMin 0 (Z.of_nat (length fs)) pg fr → copied iMin f →
  (∀ fr', eligible pg fr' → page_of fs pg = Some (db_page sz f pg)) → copied pg f.
Proof.
  intros Hmin Hn Hc Hp q fr' Hq Hle He. destruct (decide (q ≤ iMin)); [by apply (Hc q fr')|].
  pose proof (next_page_least iMin pg fr q fr' Hmin Hn (proj1 He) ltac:(lia)). assert (q = pg) as -> by lia. by apply (Hp fr').
Qed.

Lemma not_eligible q fr : last_frame fs q fr → (fr <=? bf) || (mxS <? fr) || (mxPage <? q) = true → ∀ fr', ¬ eligible q fr'.
Proof.
  intros Hl Hb fr' [Hl' He]. rewrite (last_frame_unique _ _ _ _ Hl' Hl) in He. repeat (apply orb_true_iff in Hb as [Hb|Hb]); b2p; lia.
Qed.

Lemma copy_loop_total m b : fs ≠ [] → ∀ fuel it fr0 f, iter_ok all (Z.of_nat (length fs)) it → (remaining (iPrior it) ≤ fuel)%nat →
  kept f → copied (iPrior it) f →
  total (at_db m b f) (copy_loop fuel sz bf mxS mxPage it fr0) (λ rc d, ∃ f', at_db m b f' d ∧ kept f' ∧
    (rc = SQLITE_OK → copied 0xFFFFFFFF f') ∧ io rc).
Proof.
  intros Hne fuel. assert (0 < Z.of_nat (length fs) ≤ Z.of_nat (length all)) as Hil.
  { pose proof frames_length. assert (length fs ≠ 0)%nat by (intros ?%length_zero_iff_nil; done). lia. }
  induction fuel as [|fuel IH]; intros it fr0 f Hit Hrem Hk Hc; pose proof (it_prior _ _ _ Hit) as Hp;
    destruct (walIteratorNext_ok all _ (hl_pgno _ _ _ _ HL) Hil all_bound it fr0 Hit) as (pg & fr & it' & E & Hn & Hp' & Hit');
    cbn [copy_loop]; intros d Hd; (erewrite sm_bind_run; [|unfold sm_lift, sm_gets; rewrite E; done]); cbn beta iota;
    (destruct (Z.eqb_spec pg 0xFFFFFFFF) as [->|Hpg];
      [eexists _, _; split; [done|]; exists f; split; [done|]; split; [done|]; split; [|done]; intros _;
       apply (copied_next (iPrior it) 0xFFFFFFFF fr); try done; try lia;
       intros fr' [Hl _]; destruct (last_frame_pgno 0xFFFFFFFF fr' ltac:(lia) Hl) as [Ha _];
       pose proof (Forall_lookup_1 _ _ _ _ (hl_pgno _ _ _ _ HL) Ha); cbn in *; lia|]);
    destruct (next_page_last (iPrior it) pg fr ltac:(lia) Hn Hpg) as [Hl Hr]; pose proof (remaining_less _ _ _ (proj1 Hp) Hl (proj1 Hr)) as Hless; [lia|].
  specialize (Hit' Hpg). destruct (last_frame_pgno pg fr ltac:(lia) Hl) as [Ha Hfr].
  erewrite sm_bind_run; [|unfold sm_gets; destruct (at_wal_conf _ _ _ (proj1 Hd)) as (_ & _ & _ & -> & _);
    rewrite (walFramePgno_ok _ _ _ _ (hl_index _ _ _ _ HL) Ha Hfr); cbn [mbind outcome_bind]; rewrite Z.eqb_refl; done].
  destruct (_ || _) eqn:Eb.
  { apply (IH it' fr f Hit'); try done; rewrite Hp'; [lia|]. apply (copied_next (iPrior it) pg fr); try done; try lia.
    intros fr' He. by destruct (not_eligible _ _ Hl Eb fr'). }
  assert (eligible pg fr) as He by (b2p; split; [done|lia]).
  destruct (last_frame_page _ _ _ Hl) as (j & g & -> & Hg & Hgq & Hpo).
  revert d Hd. apply (total_bind _ _ (λ '(rc, a) d, at_db m b f d ∧ (rc = SQLITE_OK → a = f_data g) ∧ io rc)).
  { eapply total_conseq; [apply total_on_wal, (read_frame_total m b j g Hg)|done|]. intros [rc a] d [(? & ? & ?) ?]. done. }
  intros [rc a]. destruct (Z.eqb_spec rc SQLITE_OK) as [->|Hrc]; cbn [negb].
  2: { apply total_ret. intros d (Hd & _ & Hq). exists f. split; [done|]. split; [done|]. split; [done|]. done. }
  intros d (Hd & Hdata & _). specialize (Hdata eq_refl). subst a. revert d Hd.
  assert (Z.of_nat (length (f_data g)) = sz) as Hlen.
  { by apply fok_len, (proj1 (list.Forall_forall _ _) (hl_frames _ _ _ _ HL)), (list_elem_of_lookup_2 _ j). }
  eapply total_bind; [apply (dbWrite_total m b f (f_data g) pg); [lia|done]|]. intros rc. cbn beta.
  intros d (f' & Hd & Hother & Hthis & Hq).
  assert (kept f') as Hk'. { intros q Hqq Hno. rewrite Hother; [by apply Hk|done|]. intros ->. by apply (Hno (Z.of_nat (S j))). }
  destruct (Z.eqb_spec rc SQLITE_OK) as [->|Hrc]; cbn [negb].
  2: { eexists _, _. split; [done|]. exists f'. done. }
  specialize (Hthis eq_refl). apply (IH it' (Z.of_nat (S j)) f' Hit'); try done; [rewrite Hp'; lia|]. rewrite Hp'.
  apply (copied_next (iPrior it) pg (Z.of_nat (S j))); try done; [lia| |intros fr' _; by rewrite Hthis].
  intros q fr' Hqq Hle Heq. rewrite Hother; [by apply (Hc q fr')|done|lia].
Qed.

(** ** The work under the lock *)

(** Every page is as before, except the pages that were copied and the pages past
    the end of the database when it is cut. *)
Definition kept_to (f : list Z) : Prop := ∀ q, 1 ≤ q → (∀ fr, ¬ eligible q fr) →
  q ≤ mxPage ∨ mxS < Z.of_nat (length fs) → db_page sz f q = db_page sz f0 q.

Definition filled (b : Z) (f : list Z) : Prop := b = bf ∨ (b = mxS ∧ copied 0xFFFFFFFF f).

Lemma db_page_truncate f n q : 1 ≤ q ≤ n → db_page sz (take (Z.to_nat (n * sz)) (f ++ replicate (Z.to_nat (n * sz) - length f) 0)) q = db_page sz f q.
Proof. intros Hq. pose proof sz_pos. apply db_page_ext. intros k Hk. apply byte_at_truncate. nia. Qed.

Lemma kept_kept_to f : kept f → kept_to f.
Proof. intros H q Hq Hno _. by apply H. Qed.

Lemma dbTruncate_total m b f n : total (at_db m b f) (dbTruncate (n * sz)) (λ rc d, ∃ f', at_db m b f' d ∧ io rc ∧ ∀ q, 1 ≤ q ≤ n → db_page sz f' q = db_page sz f q).
Proof.
  eapply total_bind; [apply db_event|]. intros [rc k]. cbn beta iota. intros [w g] [[Hw E] Hio]. cbn in E. subst g. destruct (rc =? SQLITE_OK).
  - eexists _, _. split; [done|]. eexists. split; [done|]. split; [done|]. intros q Hq. by apply db_page_truncate.
  - eexists _, _. split; [done|]. by exists f.
Qed.

Lemma backfill_total m sync_flags it : fs ≠ [] → iPrior it = 0 → iter_ok all (Z.of_nat (length fs)) it → mxS ≤ Z.of_nat (length fs) →
  total (at_db m bf f0) (backfill sz mxS mxPage sync_flags it)
    (λ rc d, ∃ f' b', at_db m b' f' d ∧ kept_to f' ∧ filled b' f' ∧ (rc = SQLITE_OK → b' = mxS) ∧ io rc).
Proof.
  intros Hne Hp Hit Hle. unfold backfill.
  eapply total_bind; [apply total_get|]. intros bf'. cbn beta. intros d [Hd ->]. destruct (at_wal_conf _ _ _ (proj1 Hd)) as (_ & _ & _ & _ & _ & _ & -> & _).
  revert d Hd. apply (total_bind _ _ (λ rc d, at_db m bf f0 d ∧ io rc)).
  { case_match; [apply sync_total|apply total_ret; intros d Hd; split; [done|apply io_ok]]. }
  intros rc. apply (total_bind _ _ (λ rc d, at_db m bf f0 d ∧ io rc)).
  { case_match; [|by apply total_ret]. eapply total_bind; [eapply total_pre; [apply dbFileSize_total|by intros d [? _]]|]. intros [rc' n]. cbn beta iota.
    case_match; [|by apply total_ret]. intros d [Hd Hio]. revert d Hd. eapply total_bind; [apply db_event|]. intros e. apply total_ret. intros d [? _]. done. }
  clear rc. intros rc. eapply total_bind; [apply total_get|]. intros mx. cbn beta.
  apply (total_bind _ _ (λ rc d, ∃ f', at_db m bf f' d ∧ kept f' ∧ (rc = SQLITE_OK → copied 0xFFFFFFFF f') ∧ io rc)).
  { intros d [[Hd Hio] ->]. destruct (at_wal_conf _ _ _ (proj1 Hd)) as (_ & -> & _). rewrite Hmx. revert d Hd.
    destruct (Z.eqb_spec rc SQLITE_OK) as [->|Hrc].
    - eapply total_conseq; [apply (copy_loop_total m bf Hne _ it 0 f0); try done|done|done].
      + rewrite Hp, Nat2Z.id. unfold remaining. rewrite (hl_all _ _ _ _ HL). etrans; [apply length_filter|]. by rewrite length_fmap.
      + rewrite Hp. intros q fr ? ?. lia.
    - apply total_ret. intros d Hd. exists f0. split; [done|]. split; [done|]. done. }
  clear rc. intros rc. cbn beta. destruct (Z.eqb_spec rc SQLITE_OK) as [->|Hrc]; cbn [negb].
  2: { apply total_ret. intros d (f' & Hd & Hk & _ & Hio). exists f', bf. split; [done|]. split; [by apply kept_kept_to|]. split; [by left|]. done. }
  eapply total_bind; [apply total_get|]. intros shm. cbn beta.
  apply (total_bind _ _ (λ rc d, ∃ f', at_db m bf f' d ∧ kept_to f' ∧ copied 0xFFFFFFFF f' ∧ io rc)).
  { intros d [(f' & Hd & Hk & Hc & Hio) ->]. specialize (Hc eq_refl). destruct (at_wal_conf _ _ _ (proj1 Hd)) as (_ & _ & -> & _). rewrite Hshm. revert d Hd.
    destruct (Z.eqb_spec mxS (Z.of_nat (length fs))) as [E|E].
    - eapply total_bind; [apply total_get|]. intros n. cbn beta. intros d [Hd ->]. destruct (at_wal_conf _ _ _ (proj1 Hd)) as (_ & -> & _).
      revert d Hd. eapply total_bind; [apply dbTruncate_total|]. intros rc. cbn beta. intros d (f2 & Hd & Hio2 & Hpg).
      assert (kept_to f2) as Hk2 by (intros q Hq Hno [?|?]; [rewrite Hpg by lia; by apply Hk|lia]).
      assert (copied 0xFFFFFFFF f2) as Hc2 by (intros q fr Hq Hql He; rewrite Hpg by (destruct He; lia); by apply (Hc q fr)).
      revert d Hd. case_match.
      + eapply total_conseq; [apply sync_total|done|]. intros rc' d [? ?]. by exists f2.
      + apply total_ret. intros d Hd. by exists f2.
    - apply total_ret. intros d Hd. exists f'. split; [done|]. split; [by apply kept_kept_to|]. done. }
  intros rc. cbn beta. apply (total_bind _ _ (λ _ d, ∃ f' b', at_db m b' f' d ∧ kept_to f' ∧ filled b' f' ∧ (rc = SQLITE_OK → b' = mxS) ∧ io rc)); [|intros u; cbn beta; by apply total_ret].
  intros [w g] (f' & [Hw Eg] & Hk & Hc & Hio). cbn in Eg. subst g. destruct (Z.eqb_spec rc SQLITE_OK) as [->|Hrc].
  - eexists _, _. split; [done|]. exists f', mxS. split; [|split; [done|split; [by right|done]]]. destruct Hw as ([es ->] & Hq). split; [|done]. split; [by exists es|exact Hq].
  - eexists _, _. split; [done|]. exists f', bf. split; [done|]. split; [done|]. split; [by left|]. done.
Qed.
End Run.

(** ** The checkpoint *)

(** The database has the pages whose last frames are among the first [b]. *)
Definition backfilled (fs : list frame) (sz n b : Z) (f : list Z) : Prop :=
  ∀ q fr, 1 ≤ q ≤ n → last_frame fs q fr → fr ≤ b → page_of fs q = Some (db_page sz f q).

(** The snapshot of [y] frames reads the same pages from [f] and [f']; a page past
    the end of the database may go from the file in the newest snapshot. *)
Definition same_view (fs : list frame) (sz n y : Z) (f f' : list Z) : Prop :=
  ∀ q, 1 ≤ q → q ≤ n ∨ y < Z.of_nat (length fs) → view sz fs (Z.to_nat y) f' q = view sz fs (Z.to_nat y) f q.

Lemma kept_to_view w0 f0 fs sz bf mxS f' y : kept_to w0 f0 fs sz bf mxS f' → mxS ≤ y ≤ Z.of_nat (length fs) → 0 ≤ y → same_view fs sz (nPage (hdr w0)) y f0 f'.
Proof.
  intros Hk Hy H0 q Hq Hor. unfold view. destruct (page_of (take (Z.to_nat y) fs) q) eqn:E; [done|]. cbn. apply Hk; [done| |lia].
  intros fr (Hl & Hfr & _). by destruct (last_frame_taken _ _ _ (Z.to_nat y) Hl ltac:(lia)).
Qed.

Lemma filled_backfilled w0 f0 fs sz bf mxS b f' : kept_to w0 f0 fs sz bf mxS f' → filled w0 fs sz bf mxS b f' →
  Forall (λ f, f_pgno f < 0xFFFFFFFF) fs → backfilled fs sz (nPage (hdr w0)) bf f0 → backfilled fs sz (nPage (hdr w0)) b f'.
Proof.
  intros Hk Hf Hall Hb q fr Hq Hl Hfr. destruct (decide (fr ≤ bf)) as [Hle|Hgt].
  - rewrite (Hb q fr) by done. f_equal. symmetry. apply Hk; [lia| |lia]. intros fr' (Hl' & Hfr' & _). rewrite (last_frame_unique _ _ _ _ Hl' Hl) in *. lia.
  - destruct Hf as [->|[-> Hc]]; [lia|]. apply (Hc q fr); [lia| |split; [done|lia]].
    destruct (last_frame_page _ _ _ Hl) as (j & g & _ & Hg & <- & _). pose proof (Forall_lookup_1 _ _ _ _ Hall Hg). cbn in *. lia.
Qed.

Section Checkpoint.
Context (w0 : Wal) (f0 : list Z) (fs : list frame) (sz : Z) (all : list Z).
Hypothesis (HL : has_log w0 fs sz all) (Hmx : mxFrame (hdr w0) = Z.of_nat (length fs)) (Hshm : mxFrame (shmHdr0 w0) = Z.of_nat (length fs)).
Hypothesis (Hpsz : fs ≠ [] → h_szPage (hdr w0) = hdr_page_size sz) (Hck : ckptLock w0 ≠ 0).
Hypothesis (Hbf : 0 ≤ nBackfill w0) (Hback : backfilled fs sz (nPage (hdr w0)) (nBackfill w0) f0).

Lemma fs_pgno : Forall (λ f, f_pgno f < 0xFFFFFFFF) fs.
Proof.
  assert (Forall (λ x, x < 0xFFFFFFFF) (f_pgno <$> fs)) as H; [|by apply list.Forall_fmap in H].
  rewrite <- (hl_all _ _ _ _ HL). apply Forall_take. eapply list.Forall_impl; [apply (hl_pgno _ _ _ _ HL)|]. cbn. lia.
Qed.

Lemma ckpt_malloc_total m b : total (at_wal w0 m b) sqlite3_malloc (λ ok w, at_wal w0 m b w ∧ (quiet w0 → ok = true)).
Proof.
  unfold sqlite3_malloc. eapply total_bind; [apply ckpt_event_total|]. intros [rc k]. apply total_ret. intros w [Hw [Hq _]]. split; [done|]. intros H. cbn in Hq. by rewrite (Hq H).
Qed.

Lemma walIteratorInit_total m b : fs ≠ [] →
  total (at_wal w0 m b) walIteratorInit (λ '(rc, it) w, at_wal w0 m b w ∧ io w0 rc ∧
    (rc = SQLITE_OK → ∃ i, it = Some i ∧ iPrior i = 0 ∧ iter_ok all (Z.of_nat (length fs)) i)).
Proof.
  intros Hne. assert (0 < Z.of_nat (length fs) ≤ Z.of_nat (length all)) as Hil.
  { pose proof (frames_length w0 fs sz all HL). assert (length fs ≠ 0)%nat by (intros ?%length_zero_iff_nil; done). lia. }
  assert (∀ (ok : bool) w, at_wal w0 m b w → (quiet w0 → ok = true) → ok = false → at_wal w0 m b w ∧ io w0 SQLITE_NOMEM ∧
    (SQLITE_NOMEM = SQLITE_OK → ∃ i, @None WalIterator = Some i ∧ iPrior i = 0 ∧ iter_ok all (Z.of_nat (length fs)) i)) as Hfail.
  { intros ok w Hw Hq ->. split; [done|]. split; [|done]. split; [|done]. intros H. by specialize (Hq H). }
  destruct (walFramePage_spec (Z.of_nat (length fs)) ltac:(lia) (all_bound _ _ _ _ HL)) as (b0 & Eb & Hb0).
  intros w Hw. destruct (at_wal_conf _ _ _ _ Hw) as (_ & Eh & _ & _ & _ & _ & _ & _ & Ec). unfold walIteratorInit.
  erewrite sm_bind_run; [|unfold sm_gets; rewrite Eh, Ec, (proj2 (Z.eqb_neq _ _) Hck), Hmx, (proj2 (Z.ltb_lt 0 _)) by lia; done].
  erewrite sm_bind_run; [|done]. rewrite Eh, Hmx. erewrite sm_bind_run; [|unfold sm_lift, sm_gets; rewrite Eb; done]. cbn zeta.
  destruct (ckpt_malloc_total m b w Hw) as (ok1 & w1 & E1 & Hw1 & Hq1). erewrite sm_bind_run; [|exact E1]. cbn beta.
  destruct ok1; [|eexists _, _; split; [done|]; by apply (Hfail false)]. cbn [negb].
  destruct (ckpt_malloc_total m b w1 Hw1) as (ok2 & w2 & E2 & Hw2 & Hq2). erewrite sm_bind_run; [|exact E2]. cbn beta.
  destruct ok2; [|eexists _, _; split; [done|]; by apply (Hfail false)]. cbn [negb]. clear E1 E2 Hq1 Hq2 Hw1 w1 Hw Eh Ec.
  destruct (at_wal_conf _ _ _ _ Hw2) as (_ & _ & _ & Ep & _).
  assert (nSeg (Z.of_nat (length fs)) (S b0)) as Hns.
  { split; [done|]. replace (Z.of_nat (S b0)) with (Z.of_nat b0 + 1) by lia. rewrite block_zero_next by lia. replace (Z.of_nat b0 + 1 - 1) with (Z.of_nat b0) by lia. lia. }
  destruct (init_segments_ok all (Z.of_nat (length fs)) Hil (can_map (conf w2)) (if HASHTABLE_NPAGE <? Z.of_nat (length fs) then HASHTABLE_NPAGE else Z.of_nat (length fs))
    (S b0) (wiPages w0) Hns (hl_index _ _ _ _ HL)) with (left := S b0) (b := 0%nat) as (l & Es & Hll & Hsegs); [destruct (Z.ltb_spec HASHTABLE_NPAGE (Z.of_nat (length fs))); lia|done|].
  erewrite sm_bind_run; [|unfold sm_gets; rewrite Ep; replace (Z.to_nat (Z.of_nat b0 + 1)) with (S b0) by lia;
    replace (Z.of_nat b0 + 1) with (Z.of_nat (S b0)) by lia; change 0 with (Z.of_nat 0) at 1; rewrite Es; done].
  cbn beta iota. erewrite sm_bind_run; [|done]. eexists _, _. split; [done|]. split; [|split; [apply io_ok|]].
  - destruct Hw2 as ([es ->] & Hq). split; [by exists es|exact Hq].
  - intros _. eexists. split; [done|]. split; [done|]. split; cbn; [lia|by rewrite Hll|done].
Qed.

(** A checkpoint from the marks [aReadMark w0] and the file [f0] to [m'], [f'] with
    [b'] frames copied. A read mark that a reader holds cannot be changed; the
    snapshots of such readers and of new ones see the same pages. *)
Record ckpt_result (m' : list Z) (b' : Z) (f' : list Z) : Prop := {
  cr_view : ∀ y, 0 ≤ y ≤ Z.of_nat (length fs) →
    y = Z.of_nat (length fs) ∨ (∃ k : nat, (1 ≤ k)%nat ∧ aReadMark w0 !! k = Some y ∧ m' !! k = Some y) →
    same_view fs sz (nPage (hdr w0)) y f0 f';
  cr_back : backfilled fs sz (nPage (hdr w0)) b' f';
  cr_bf : nBackfill w0 ≤ b' ∧ (b' = nBackfill w0 ∨ b' ≤ Z.of_nat (length fs)) }.

Definition complete (rc b' : Z) : Prop := granted w0 → polite w0 → rc = SQLITE_OK → Z.of_nat (length fs) ≤ b'.

Lemma ckpt_result_refl m' : ckpt_result m' (nBackfill w0) f0.
Proof. split; [by intros y _ _ q _ _|done|]. split; [lia|by left]. Qed.

Lemma ckpt_result_filled mxS m' b' f' : nBackfill w0 < mxS ≤ Z.of_nat (length fs) →
  (∀ (k : nat) y, 1 ≤ Z.of_nat k → aReadMark w0 !! k = Some y → m' !! k = Some y → mxS ≤ y) →
  kept_to w0 f0 fs sz (nBackfill w0) mxS f' → filled w0 fs sz (nBackfill w0) mxS b' f' → ckpt_result m' b' f'.
Proof.
  intros Hle Hm Hk Hf. split.
  - intros y Hy Hor. apply (kept_to_view w0 f0 fs sz (nBackfill w0) mxS); [done| |lia]. split; [|lia].
    destruct Hor as [->|(k & Hk1 & H1 & H2)]; [lia|]. apply (Hm k y); [lia|done|done].
  - eapply filled_backfilled; [done|done|apply fs_pgno|done].
  - destruct Hf as [->|[-> _]]; split; lia.
Qed.

(** After the work under the lock, with the marks [m']. *)
Definition stage (mxS : Z) (m' : list Z) (rc : Z) (d : Db) : Prop :=
  ∃ b' f', at_db w0 m' b' f' d ∧ ckpt_result m' b' f' ∧ (quiet w0 → rc = SQLITE_OK) ∧ complete rc b' ∧
    (rc = SQLITE_BUSY → granted w0 → polite w0 → False) ∧ (b' = nBackfill w0 ∨ b' = mxS).

Lemma backfill_stage rc mxS xBusy m' sync_flags i : fs ≠ [] → iPrior i = 0 → iter_ok all (Z.of_nat (length fs)) i → mxS ≤ Z.of_nat (length fs) →
  nBackfill w0 < Z.of_nat (length fs) →
  (∀ (k : nat) y, 1 ≤ Z.of_nat k → aReadMark w0 !! k = Some y → m' !! k = Some y → mxS ≤ y) →
  (granted w0 → mxS = Z.of_nat (length fs) ∧ rc = SQLITE_OK) →
  total (at_db w0 m' (nBackfill w0) f0)
    (if nBackfill w0 <? mxS then
       rc ← on_wal (walBusyLock xBusy (WAL_READ_LOCK 0) 1);
       if rc =? SQLITE_OK then backfill sz mxS (nPage (hdr w0)) sync_flags i else mret rc
     else mret rc) (stage mxS m').
Proof.
  intros Hne Hi0 Hiok Hms Hgt Hmk Hg. destruct (Z.ltb_spec (nBackfill w0) mxS) as [Hlt|Hge].
  - eapply total_bind; [apply total_on_wal, walBusyLock_total|]. intros rc1. cbn beta. destruct (Z.eqb_spec rc1 SQLITE_OK) as [->|Hrc1].
    + eapply total_conseq; [apply (backfill_total w0 f0 fs sz all HL Hmx Hshm (nBackfill w0) mxS m' sync_flags i Hne Hi0 Hiok); lia|by intros d [[? _] ?]|].
      intros rc2 d (f' & b' & Hd & Hk & Hfl & Hok & [Hio1 Hio2]). exists b', f'. split; [done|]. split; [by apply (ckpt_result_filled mxS)|].
      split; [done|]. split; [intros H _ E; specialize (Hok E); destruct (Hg H) as (E1 & _); lia|]. split; [intros E _ H; by apply (Hio2 H)|].
      destruct Hfl as [->|[-> _]]; [by left|by right].
    + apply total_ret. intros d [[Hw Hgr] Hf]. eexists _, _. split; [split; [exact Hw|exact Hf]|]. split; [apply ckpt_result_refl|].
      split; [intros H; destruct Hrc1; apply Hgr; by right|]. split; [intros H; by specialize (Hgr H)|]. split; [intros E H; by specialize (Hgr H)|by left].
  - apply total_ret. intros d Hd. eexists _, _. split; [exact Hd|]. split; [apply ckpt_result_refl|].
    split; [intros H; by apply (Hg (or_intror H))|]. split; [intros H; destruct (Hg H) as (E & _); lia|]. split; [intros E H; destruct (Hg H) as (? & _); lia|by left].
Qed.

(** What a checkpoint guarantees, in all runs. *)
Definition ckpt_post (rc : Z) (d : Db) : Prop :=
  ∃ m' b' f', at_db w0 m' b' f' d ∧ ckpt_result m' b' f' ∧ (quiet w0 → rc = SQLITE_OK) ∧ complete rc b'.

Lemma restart_stage eMode mxS m' rc xBusy : (eMode ≠ SQLITE_CHECKPOINT_PASSIVE → writeLock w0 ≠ 0) → mxS ≤ Z.of_nat (length fs) → nBackfill w0 < Z.of_nat (length fs) →
  total (stage mxS m' rc)
    (let rc := if rc =? SQLITE_BUSY then SQLITE_OK else rc in
     if (rc =? SQLITE_OK) && negb (eMode =? SQLITE_CHECKPOINT_PASSIVE) then
       _ ← sm_gets (λ d, c_assert (negb (writeLock (wal d) =? 0)));
       bf ← sm_get (λ d, nBackfill (wal d));
       if bf <? Z.of_nat (length fs) then mret SQLITE_BUSY
       else if eMode =? SQLITE_CHECKPOINT_RESTART then
         _ ← sm_lift (c_assert (mxS =? Z.of_nat (length fs)));
         on_wal (walBusyLock xBusy (WAL_READ_LOCK 1) (WAL_NREADER - 1))
       else mret rc
     else mret rc) ckpt_post.
Proof.
  intros HwL Hms Hgt d (b' & f' & Hd & Hres & Hq & Hcm & Hnb & Hb'). cbn zeta.
  set (rc' := if rc =? SQLITE_BUSY then SQLITE_OK else rc).
  assert ((quiet w0 → rc' = SQLITE_OK) ∧ complete rc' b') as [Hq' Hcm'].
  { subst rc'. destruct (Z.eqb_spec rc SQLITE_BUSY) as [->|]; [|done]. split; [done|]. intros H1 H2. by destruct (Hnb eq_refl H1 H2). }
  destruct ((rc' =? SQLITE_OK) && negb (eMode =? SQLITE_CHECKPOINT_PASSIVE)) eqn:Em; [|by eexists _, _; split; [done|]; exists m', b', f'].
  b2p. destruct (at_wal_conf _ _ _ _ (proj1 Hd)) as (_ & _ & _ & _ & _ & El & Eb & _).
  erewrite sm_bind_run; [|unfold sm_gets; rewrite El, (proj2 (Z.eqb_neq _ _) (HwL ltac:(done))); done].
  erewrite sm_bind_run; [|done]. rewrite Eb. destruct (Z.ltb_spec b' (Z.of_nat (length fs))) as [Hlt|Hge].
  { eexists _, _. split; [done|]. exists m', b', f'. split; [done|]. split; [done|].
    assert (granted w0 → polite w0 → False) as Hno by (intros H1 H2; specialize (Hcm' H1 H2 ltac:(done)); lia).
    split; [intros Hqq; destruct Hno; [by right|unfold polite; by rewrite Hqq]|intros H1 H2; by destruct (Hno H1 H2)]. }
  assert (∀ rc, complete rc b') as Hcomp by (by intros rc0 _ _ _).
  destruct (eMode =? SQLITE_CHECKPOINT_RESTART); [|by eexists _, _; split; [done|]; exists m', b', f'].
  assert (mxS = Z.of_nat (length fs)) as -> by (destruct Hb'; lia).
  erewrite sm_bind_run; [|unfold sm_lift, sm_gets; rewrite Z.eqb_refl; done].
  destruct (total_on_wal _ _ _ f' (walBusyLock_total w0 m' b' xBusy (WAL_READ_LOCK 1) (WAL_NREADER - 1)) d Hd) as (rc2 & d2 & E2 & [[Hw2 Hg2] Hf2]).
  exists rc2, d2. split; [exact E2|]. exists m', b', f'. split; [done|]. split; [done|]. split; [intros Hqq; apply Hg2; by right|done].
Qed.

Lemma walCheckpoint_total eMode xBusyCall sync_flags : (eMode ≠ SQLITE_CHECKPOINT_PASSIVE → writeLock w0 ≠ 0) → wiPages w0 ≠ [] →
  total (at_db w0 (aReadMark w0) (nBackfill w0) f0) (walCheckpoint eMode xBusyCall sync_flags) ckpt_post.
Proof.
  intros HwL Hpg. unfold walCheckpoint. intros d Hd. destruct (at_wal_conf _ _ _ _ (proj1 Hd)) as (_ & Eh & _ & Ep & _ & _ & Eb & _).
  erewrite sm_bind_run; [|done]. erewrite sm_bind_run; [|unfold sm_gets, page0_mapped; rewrite Ep; destruct (wiPages w0); done].
  erewrite sm_bind_run; [|done]. erewrite sm_bind_run; [|done]. rewrite Eh, Eb, Hmx. clear Eh Ep Eb.
  destruct (Z.leb_spec (Z.of_nat (length fs)) (nBackfill w0)) as [Hle|Hgt].
  { eexists _, _. split; [done|]. eexists _, _, _. split; [done|]. split; [apply ckpt_result_refl|]. split; [done|]. by intros _ _ _. }
  assert (fs ≠ []) as Hne by (intros E; rewrite E in Hgt; cbn in Hgt; lia).
  rewrite (walPagesize_hdr_page_size sz) by (by apply (hl_size _ _ _ _ HL) || by apply Hpsz).
  revert d Hd. eapply total_bind; [apply total_on_wal, (walIteratorInit_total _ _ Hne)|]. intros [rc it]. cbn beta iota.
  destruct (Z.eqb_spec rc SQLITE_OK) as [->|Hrc]; cbn [negb].
  2: { apply total_ret. intros d [(Hw & Hio & _) Hf]. eexists _, _, _. split; [split; [exact Hw|done]|]. split; [apply ckpt_result_refl|].
       split; [apply Hio|]. by intros _ _ ?. }
  intros d [(Hw & _ & Hit) Hf]. destruct (Hit eq_refl) as (i & -> & Hi0 & Hiok). clear Hit. assert (at_db w0 (aReadMark w0) (nBackfill w0) f0 d) as Hd by done.
  erewrite sm_bind_run; [|done]. cbn zeta. erewrite sm_bind_run; [|done]. destruct (at_wal_conf _ _ _ _ Hw) as (_ & -> & _).
  set (xb := if negb (eMode =? SQLITE_CHECKPOINT_PASSIVE) then xBusyCall else false). clear Hw Hf. revert d Hd.
  eapply total_bind.
  { apply total_on_wal. apply (safe_frame_total w0 fs sz all HL Hmx (Z.to_nat (WAL_NREADER - 1)) 1 (aReadMark w0) (nBackfill w0) SQLITE_OK);
      [apply (hl_marks _ _ _ _ HL)|lia|done|lia]. }
  intros [[[rc mxS] xb'] out]. cbn beta iota. intros d [(m' & Hw & Hml & Hms & Hm0 & Hmk & Hg) Hf]. assert (at_db w0 m' (nBackfill w0) f0 d) as Hd by done. clear Hw Hf.
  destruct out.
  { eexists _, _. split; [done|]. eexists _, _, _. split; [exact Hd|]. split; [apply ckpt_result_refl|].
    assert (granted w0 → False) as Hng by (intros H; by destruct (Hg H) as (_ & ? & _)).
    split; [intros H; destruct Hng; by right|intros H; by destruct (Hng H)]. }
  revert d Hd. apply (total_bind _ _ (stage mxS m')).
  - apply backfill_stage; try done; [by apply Hmk|]. intros H. destruct (Hg H) as (? & _ & ?). auto.
  - intros rc1. by apply (restart_stage eMode mxS m' rc1 xb').
Qed.
End Checkpoint.

(** ** A whole checkpoint *)

Definition valid_hdr (be : bool) (h : WalIndexHdr) : Prop :=
  isInit h ≠ 0 ∧ walChecksumBytes be true (hdr_bytes be h) None = Ret (aCksum h) ∧ iVersion h = WALINDEX_MAX_VERSION.

Definition read_hdr (h : WalIndexHdr) (w : Wal) : Wal := if decide (hdr w = h) then w else set_szPage (walPagesize h) (set_hdr h w).

Lemma walIndexReadHdr_ok be w h : wiPages w ≠ [] → shmHdr0 w = h → shmHdr1 w = h → valid_hdr be h →
  walIndexReadHdr be w = Ret ((SQLITE_OK, negb (bool_decide (hdr w = h))), read_hdr h w).
Proof.
  intros Hp E0 E1 (Hi & Hc & Hv). assert (page0_mapped w = true) as Hm by (unfold page0_mapped; destruct (wiPages w); done).
  assert (walIndexTryHdr be w = Ret ((0, negb (bool_decide (hdr w = h))), read_hdr h w)) as Ht.
  { unfold walIndexTryHdr. erewrite sm_bind_run; [|unfold sm_gets; by rewrite Hm]. do 2 (erewrite sm_bind_run; [|done]). rewrite E0, E1, bool_decide_eq_true_2 by done.
    cbn [negb]. rewrite (proj2 (Z.eqb_neq _ _) Hi). erewrite sm_bind_run; [|unfold sm_lift, sm_gets; rewrite Hc; done]. rewrite !Z.eqb_refl. cbn [negb orb].
    erewrite sm_bind_run; [|done]. unfold read_hdr. destruct (decide (hdr w = h)) as [E|E]; [by rewrite bool_decide_eq_true_2|].
    rewrite bool_decide_eq_false_2 by done. done. }
  unfold walIndexReadHdr, walIndexPage0. erewrite sm_bind_run; [|erewrite sm_bind_run; [|done]; by rewrite Hm]. cbn [Z.eqb SQLITE_OK negb].
  erewrite sm_bind_run; [|unfold sm_gets; by rewrite Hm]. erewrite sm_bind_run; [|done]. rewrite Hm. erewrite sm_bind_run; [|exact Ht]. cbn beta iota.
  erewrite sm_bind_run; [|done]. erewrite sm_bind_run; [|done]. erewrite sm_bind_run; [|done]. cbn beta iota.
  erewrite sm_bind_run; [|done]. cbn [andb]. assert (hdr (read_hdr h w) = h) as -> by (unfold read_hdr; destruct (decide (hdr w = h)); done).
  by rewrite Hv.
Qed.

(** The state in which a checkpoint begins. *)
Record checkpointable (be : bool) (d : Db) (fs : list frame) (sz : Z) (all : list Z) (h : WalIndexHdr) : Prop := {
  ck_log : has_log (wal d) fs sz all;
  ck_mapped : wiPages (wal d) ≠ [];
  ck_hdr0 : shmHdr0 (wal d) = h;
  ck_hdr1 : shmHdr1 (wal d) = h;
  ck_valid : valid_hdr be h;
  ck_mx : mxFrame h = Z.of_nat (length fs);
  ck_size : fs ≠ [] → h_szPage h = hdr_page_size sz;
  ck_ckpt : ckptLock (wal d) = 0;
  ck_write : writeLock (wal d) = 0;
  ck_bf : 0 ≤ nBackfill (wal d);
  ck_back : backfilled fs sz (nPage h) (nBackfill (wal d)) (dbFile d) }.

(** What does not change. *)
Record unchanged (w w' : Wal) : Prop := {
  uc_file : walFile w' = walFile w;
  uc_pages : wiPages w' = wiPages w;
  uc_hdr0 : shmHdr0 w' = shmHdr0 w;
  uc_hdr1 : shmHdr1 w' = shmHdr1 w;
  uc_conf : conf w' = conf w;
  uc_quiet : events w = [] → events w' = [];
  uc_polite : Forall (λ e, e.1 ≠ SQLITE_BUSY) (events w) → Forall (λ e, e.1 ≠ SQLITE_BUSY) (events w') }.

Lemma unchanged_trans w1 w2 w3 : unchanged w1 w2 → unchanged w2 w3 → unchanged w1 w3.
Proof. intros [] []. split; try congruence; auto. Qed.

Lemma at_wal_unchanged w0 m b w : at_wal w0 m b w → unchanged w0 w.
Proof. intros ([es ->] & Hq & Hp). by split. Qed.

Section Whole.
Context (be : bool) (fs : list frame) (sz : Z) (all : list Z) (h : WalIndexHdr).

(** The result of a checkpoint of [d]. *)
Record ckpt_done (d : Db) (rc : Z) (d' : Db) : Prop := {
  cd_same : unchanged (wal d) (wal d');
  cd_locks : ckptLock (wal d') = 0 ∧ writeLock (wal d') = 0;
  cd_view : ∀ y, 0 ≤ y ≤ Z.of_nat (length fs) →
    y = Z.of_nat (length fs) ∨ (∃ k : nat, (1 ≤ k)%nat ∧ aReadMark (wal d) !! k = Some y ∧ aReadMark (wal d') !! k = Some y) →
    same_view fs sz (nPage h) y (dbFile d) (dbFile d');
  cd_back : backfilled fs sz (nPage h) (nBackfill (wal d')) (dbFile d');
  cd_bf : nBackfill (wal d) ≤ nBackfill (wal d');
  cd_full : exclusiveMode (conf (wal d)) ≠ 0 ∨ events (wal d) = [] → Forall (λ e, e.1 ≠ SQLITE_BUSY) (events (wal d)) → rc = SQLITE_OK →
    Z.of_nat (length fs) ≤ nBackfill (wal d') }.

Lemma ckpt_done_early d rc d' : checkpointable be d fs sz all h → unchanged (wal d) (wal d') → ckptLock (wal d') = 0 → writeLock (wal d') = 0 → dbFile d' = dbFile d →
  nBackfill (wal d') = nBackfill (wal d) → rc ≠ SQLITE_OK → ckpt_done d rc d'.
Proof.
  intros Hc Hu Hl1 Hl2 Hf Hb Hrc. split; [done|done| |rewrite Hb, Hf; apply Hc|lia|done]. intros y _ _ q _ _. by rewrite Hf.
Qed.

(** The end of [sqlite3WalCheckpoint], with the header [pWal->hdr] dropped or not. *)
Definition release (ch : bool) (w : Wal) : Wal :=
  let w := if ch then set_hdr zero_hdr w else w in
  set_ckptLock 0 (if writeLock w =? 0 then w else set_truncateOnCommit 0 (set_writeLock 0 w)).

Lemma release_run (ch : bool) {A} (r : A) d :
  (_ ← (if ch then on_wal (sm_mod (set_hdr zero_hdr)) else mret ());
   _ ← on_wal sqlite3WalEndWriteTransaction;
   _ ← on_wal (sm_mod (set_ckptLock 0));
   mret r) d = Ret (r, MkDb (release ch (wal d)) (dbFile d)).
Proof.
  destruct d as [w f]. unfold release. assert (∀ w, on_wal sqlite3WalEndWriteTransaction (MkDb w f) =
    Ret ((), MkDb (if writeLock w =? 0 then w else set_truncateOnCommit 0 (set_writeLock 0 w)) f)) as He.
  { intros w1. unfold on_wal, sqlite3WalEndWriteTransaction, mbind, sm_bind, sm_get. cbn. by destruct (writeLock w1 =? 0). }
  destruct ch; (erewrite sm_bind_run; [|done]); cbn beta iota; (erewrite sm_bind_run; [|apply He]); done.
Qed.

Lemma release_unchanged ch w : unchanged w (release ch w) ∧ nBackfill (release ch w) = nBackfill w ∧ aReadMark (release ch w) = aReadMark w ∧
  ckptLock (release ch w) = 0 ∧ writeLock (release ch w) = 0.
Proof.
  unfold release. destruct ch; cbn; destruct (Z.eqb_spec (writeLock w) 0) as [E|E]; cbn; (split; [by split|done]).
Qed.

Lemma at_wal_refl w : at_wal w (aReadMark w) (nBackfill w) w.
Proof. split; [exists (events w); by destruct w|done]. Qed.

(** The state before the header is read. *)
Record begun (w w' : Wal) : Prop := {
  bg_same : unchanged w w';
  bg_bf : nBackfill w' = nBackfill w;
  bg_marks : aReadMark w' = aReadMark w }.

Lemma begun_at w w' : at_wal w (aReadMark w) (nBackfill w) w' → begun w w'.
Proof. intros H. split; [by apply (at_wal_unchanged w _ _ _ H)|by apply (at_wal_conf _ _ _ _ H)..]. Qed.

Lemma begun_trans w1 w2 w3 : begun w1 w2 → begun w2 w3 → begun w1 w3.
Proof. intros [? ? ?] [? ? ?]. split; [by eapply unchanged_trans|congruence..]. Qed.

Definition full_access (w : Wal) : Prop := exclusiveMode (conf w) ≠ 0 ∨ events w = [].

Lemma begun_access w w' : begun w w' → full_access w → full_access w'.
Proof. intros [Hu _ _] [H|H]; [left; by rewrite (uc_conf _ _ Hu)|right; by apply (uc_quiet _ _ Hu)]. Qed.

Lemma write_lock_step (eMode : Z) (xBusy : bool) w f : ckptLock w = 1 → writeLock w = 0 →
  ∃ rc eMode2 w', (if negb (eMode =? SQLITE_CHECKPOINT_PASSIVE) then
     rc ← on_wal (walBusyLock xBusy WAL_WRITE_LOCK 1);
     if rc =? SQLITE_OK then _ ← on_wal (sm_mod (set_writeLock 1)); mret (rc, eMode)
     else if rc =? SQLITE_BUSY then mret (SQLITE_OK, SQLITE_CHECKPOINT_PASSIVE)
     else mret (rc, eMode)
   else mret (SQLITE_OK, eMode)) (MkDb w f) = Ret ((rc, eMode2), MkDb w' f) ∧ begun w w' ∧ ckptLock w' = 1 ∧
   (rc = SQLITE_OK → eMode2 ≠ SQLITE_CHECKPOINT_PASSIVE → writeLock w' ≠ 0) ∧ (full_access w → rc = SQLITE_OK ∧ eMode2 = eMode).
Proof.
  intros Hk Hl. destruct (Z.eqb_spec eMode SQLITE_CHECKPOINT_PASSIVE) as [->|Hne]; cbn [negb].
  { eexists _, _, _. split; [done|]. split; [apply begun_at, at_wal_refl|]. split; [done|]. split; [done|]. done. }
  destruct (walBusyLock_total w _ _ xBusy WAL_WRITE_LOCK 1 w (at_wal_refl w)) as (rc & w1 & E & Hw1 & Hg).
  pose proof (begun_at _ _ Hw1) as Hb. destruct (at_wal_conf _ _ _ _ Hw1) as (_ & _ & _ & _ & _ & El & _ & _ & Ek).
  erewrite sm_bind_run; [|unfold on_wal; cbn; rewrite E; done]. destruct (Z.eqb_spec rc SQLITE_OK) as [->|Hrc].
  { erewrite sm_bind_run; [|done]. eexists _, _, _. split; [done|]. split; [eapply begun_trans; [exact Hb|by split; [by split|..]]|]. split; [by cbn; rewrite Ek|]. done. }
  assert (full_access w → False) as Hno by (intros H; by specialize (Hg H)).
  destruct (Z.eqb_spec rc SQLITE_BUSY) as [->|Hbz]; eexists _, _, _; (split; [done|]); (split; [done|]); (split; [congruence|]); (split; [done|]); intros H; by destruct (Hno H).
Qed.

Lemma has_log_same w w' : unchanged w w' → aReadMark w' = aReadMark w → has_log w fs sz all → has_log w' fs sz all.
Proof. intros [Hf Hp _ _ _ _ _] Hm []. split; try done; rewrite ?Hf, ?Hp, ?Hm; done. Qed.

Lemma read_hdr_begun w : begun w (read_hdr h w) ∧ hdr (read_hdr h w) = h ∧ ckptLock (read_hdr h w) = ckptLock w ∧ writeLock (read_hdr h w) = writeLock w.
Proof. unfold read_hdr. destruct (decide (hdr w = h)) as [E|E]; (split; [by split; [by split|..]|done]). Qed.

(** The checkpoint proper, after the locks were taken. *)
Lemma checkpoint_locked (eMode2 : Z) (xBusy : bool) (sync_flags nBuf : Z) d w : checkpointable be d fs sz all h → begun (wal d) w → ckptLock w = 1 →
  (eMode2 ≠ SQLITE_CHECKPOINT_PASSIVE → writeLock w ≠ 0) →
  ∃ rc out ch d2, ('(rc, isChanged) ← on_wal (walIndexReadHdr be);
     '(rc, out) ← (if rc =? SQLITE_OK then
        mx ← sm_get (λ d, mxFrame (hdr (wal d)));
        ps ← sm_get (λ d, walPagesize (hdr (wal d)));
        rc ← (if negb (mx =? 0) && negb (ps =? nBuf) then mret SQLITE_CORRUPT else walCheckpoint eMode2 xBusy sync_flags);
        if (rc =? SQLITE_OK) || (rc =? SQLITE_BUSY) then
          bf ← sm_get (λ d, nBackfill (wal d)); mret (rc, Some (i32 mx, i32 bf))
        else mret (rc, None)
      else mret (rc, None));
     mret (rc, out, isChanged)) (MkDb w (dbFile d)) = Ret ((rc, out, ch), d2) ∧ ckpt_done d rc (MkDb (release ch (wal d2)) (dbFile d2)) ∧
    (events (wal d) = [] → fs = [] ∨ nBuf = sz → rc = SQLITE_OK).
Proof.
  intros Hc Hb Hk Hl. pose proof (bg_same _ _ Hb) as Hu. destruct (read_hdr_begun w) as (Hb2 & Eh & Ek & El).
  set (w0 := read_hdr h w) in *. pose proof (begun_trans _ _ _ Hb Hb2) as Hb3. pose proof (bg_same _ _ Hb3) as Hu3.
  assert (has_log w0 fs sz all) as HL by (eapply has_log_same; [exact Hu3|apply (bg_marks _ _ Hb3)|apply Hc]).
  erewrite sm_bind_run; [|unfold on_wal; cbn; rewrite (walIndexReadHdr_ok be w h); [done|rewrite (uc_pages _ _ Hu); apply Hc|
    rewrite (uc_hdr0 _ _ Hu); apply Hc|rewrite (uc_hdr1 _ _ Hu); apply Hc|apply Hc]].
  fold w0. cbn beta iota. change (SQLITE_OK =? SQLITE_OK) with true. cbn beta iota. set (ch := negb (bool_decide (hdr w = h))).
  assert (∀ rc, rc ≠ SQLITE_OK → ckpt_done d rc (MkDb (release ch w0) (dbFile d))) as Hearly.
  { intros rc Hrc. destruct (release_unchanged ch w0) as (Hur & E1 & E2 & E3 & E4). apply ckpt_done_early; cbn [wal dbFile]; try done; [by eapply unchanged_trans|].
    rewrite E1. apply Hb3. }
  destruct (negb (mxFrame h =? 0) && negb (walPagesize h =? nBuf)) eqn:Ecor.
  { exists SQLITE_CORRUPT, None, ch, (MkDb w0 (dbFile d)). split; [|split; [by apply Hearly|]].
    - erewrite sm_bind_run; [|do 2 (erewrite sm_bind_run; [|done]); cbn [wal]; rewrite Eh, Ecor; erewrite sm_bind_run; [|done]; done]. done.
    - intros _ Hor. exfalso. b2p. rewrite (ck_mx _ _ _ _ _ _ Hc) in *. assert (fs ≠ []) as Hne by (by intros ->).
      destruct Hor as [?|<-]; [done|]. by rewrite (walPagesize_hdr_page_size nBuf) in *; [|apply Hc|by apply Hc]. }
  destruct (walCheckpoint_total w0 (dbFile d) fs sz all HL) with (eMode := eMode2) (xBusyCall := xBusy) (sync_flags := sync_flags) (w := MkDb w0 (dbFile d))
    as (rc & d2 & Erun & m' & b' & f' & Hd2 & Hres & Hq & Hcm).
  - rewrite Eh. apply Hc.
  - rewrite (uc_hdr0 _ _ Hu3), (ck_hdr0 _ _ _ _ _ _ Hc). apply Hc.
  - rewrite Eh. apply Hc.
  - lia.
  - rewrite (bg_bf _ _ Hb3). apply Hc.
  - rewrite Eh, (bg_bf _ _ Hb3). apply Hc.
  - rewrite El. done.
  - rewrite (uc_pages _ _ Hu3). apply Hc.
  - split; [apply at_wal_refl|done].
  - exists rc, (if (rc =? SQLITE_OK) || (rc =? SQLITE_BUSY) then Some (i32 (mxFrame h), i32 (nBackfill (wal d2))) else None), ch, d2. split; [|split].
    + erewrite sm_bind_run; [|do 2 (erewrite sm_bind_run; [|done]); cbn [wal]; rewrite Eh, Ecor; erewrite sm_bind_run; [|exact Erun]; instantiate (1 := d2);
        instantiate (1 := (rc, if (rc =? SQLITE_OK) || (rc =? SQLITE_BUSY) then Some (i32 (mxFrame h), i32 (nBackfill (wal d2))) else None));
        destruct ((rc =? SQLITE_OK) || (rc =? SQLITE_BUSY)); done]. done.
    + destruct Hd2 as [Hw2 Hf2]. destruct (release_unchanged ch (wal d2)) as (Hur & E1 & E2 & E3 & E4). destruct (at_wal_conf _ _ _ _ Hw2) as (_ & _ & _ & _ & _ & _ & Eb & Em & _).
      destruct Hres as [Hv Hbk Hbf]. rewrite Eh, (bg_marks _ _ Hb3), (bg_bf _ _ Hb3) in *.
      split; cbn [wal dbFile]; rewrite ?E1, ?E2, ?Eb, ?Em, ?Hf2; try done.
      * eapply unchanged_trans; [exact Hu3|]. eapply unchanged_trans; [exact (at_wal_unchanged _ _ _ _ Hw2)|done].
      * lia.
      * intros Ha Hp Hr. apply Hcm; [by apply (begun_access _ _ Hb3)|by apply (uc_polite _ _ Hu3)|done].
    + intros Hev _. apply Hq. by apply (uc_quiet _ _ Hu3).
Qed.

Lemma run_pairs {A B C E} (m1 : sm Db (A * C)) (m2 : A → sm Db (A * B)) (k : A → B → C → sm Db E) d a b c d' :
  ('(x, z) ← m1; '(x, y) ← m2 x; mret (x, y, z)) d = Ret ((a, b, c), d') →
  ('(x, z) ← m1; '(x, y) ← m2 x; k x y z) d = k a b c d'.
Proof.
  unfold mbind, sm_bind, mret, sm_ret. destruct (m1 d) as [[[x z] d1]|]; [|done]. destruct (m2 x d1) as [[[x' y] d2]|]; [|done]. intros E0. by injection E0 as -> -> -> ->.
Qed.

Lemma sqlite3WalCheckpoint_run (eMode : Z) (xBusy : bool) (sync_flags nBuf : Z) d : checkpointable be d fs sz all h →
  ∃ rc out d', sqlite3WalCheckpoint be eMode xBusy sync_flags nBuf d = Ret ((rc, out), d') ∧ ckpt_done d rc d' ∧
    (events (wal d) = [] → readOnly (wal d) = 0 → fs = [] ∨ nBuf = sz → rc = SQLITE_OK).
Proof.
  intros Hc. destruct d as [w f]. pose proof (at_wal_refl w) as Hw. unfold sqlite3WalCheckpoint.
  erewrite sm_bind_run; [|unfold sm_gets; rewrite (ck_ckpt _ _ _ _ _ _ Hc); done]. erewrite sm_bind_run; [|unfold sm_gets; rewrite (ck_write _ _ _ _ _ _ Hc); done].
  erewrite sm_bind_run; [|done]. cbn [wal]. destruct (Z.eqb_spec (readOnly w) 0) as [Ero|Ero]; cbn [negb].
  2: { eexists _, _, _. split; [done|]. split; [|done]. apply ckpt_done_early; try done; (by apply (at_wal_unchanged w _ _ _ Hw)) || apply Hc. }
  destruct (lock_any w _ _ w Hw) as (rc & w1 & E1 & Hw1 & Hg1 & _). pose proof (begun_at _ _ Hw1) as Hb1.
  destruct (at_wal_conf _ _ _ _ Hw1) as (_ & _ & _ & _ & _ & El & _ & _ & Ek).
  erewrite sm_bind_run; [|unfold on_wal, walLockExclusive; cbn [wal]; rewrite E1; done]. cbn beta.
  destruct (Z.eqb_spec rc SQLITE_OK) as [->|Hrc]; cbn [negb].
  2: { eexists _, _, _. split; [done|]. split; [|intros H; destruct Hrc; apply Hg1; by right].
       apply ckpt_done_early; cbn [wal dbFile]; try done; [apply Hb1|rewrite Ek; apply Hc|rewrite El; apply Hc|apply Hb1]. }
  erewrite sm_bind_run; [|done]. cbn [wal dbFile].
  destruct (write_lock_step eMode xBusy (set_ckptLock 1 w1) f) as (rc2 & eMode2 & w2 & E2 & Hb2 & Hk2 & Hl2 & Hg2); [done|cbn; rewrite El; apply Hc|].
  assert (begun w w2) as Hb by (eapply begun_trans; [exact Hb1|]; eapply begun_trans; [|exact Hb2]; by split; [by split|..]).
  erewrite sm_bind_run; [|exact E2]. cbn beta iota. assert (events w = [] → rc2 = SQLITE_OK ∧ eMode2 = eMode) as Hq2.
  { intros H. apply Hg2. right. cbn. by apply (uc_quiet _ _ (bg_same _ _ Hb1)). }
  destruct (Z.eqb_spec rc2 SQLITE_OK) as [->|Hrc2].
  - destruct (checkpoint_locked eMode2 xBusy sync_flags nBuf (MkDb w f) w2 Hc Hb Hk2 (Hl2 eq_refl)) as (rc3 & out & ch & d3 & E3 & Hd3 & Hq3).
    erewrite run_pairs; [|exact E3]. rewrite release_run. eexists _, _, _. split; [done|]. split.
    + destruct Hd3 as [? ? ? ? ? Hfull]. split; try done. intros Ha Hp Hr. apply Hfull; try done. destruct (Z.eqb_spec rc3 SQLITE_OK); [done|]. by cbn in Hr.
    + intros Hev _ Hor. specialize (Hq3 Hev Hor). subst rc3. destruct (Hq2 Hev) as [_ ->]. by rewrite !Z.eqb_refl.
  - erewrite sm_bind_run; [|done]. cbn beta iota. rewrite (proj2 (Z.eqb_neq _ _) Hrc2).
    erewrite sm_bind_run; [|done]. cbn beta iota. rewrite (release_run false). cbn [andb wal dbFile]. rewrite (proj2 (Z.eqb_neq _ _) Hrc2).
    eexists _, _, _. split; [done|]. split; [|intros H; by destruct (Hq2 H)].
    destruct (release_unchanged false w2) as (Hur & E3 & E4 & E5 & E6). apply ckpt_done_early; cbn [wal dbFile]; try done.
    + eapply unchanged_trans; [apply Hb|done].
    + rewrite E3. apply Hb.
Qed.
End Whole.

(** A database that has every frame shows what the log and the old file showed. *)
Lemma backfilled_view fs sz n b f f' q : backfilled fs sz n b f' → Z.of_nat (length fs) ≤ b → same_view fs sz n (Z.of_nat (length fs)) f f' → 1 ≤ q ≤ n →
  db_page sz f' q = view sz fs (length fs) f q.
Proof.
  intros Hb Hle Hv Hq. specialize (Hv q ltac:(lia) ltac:(lia)). rewrite Nat2Z.id in Hv. rewrite <- Hv. unfold view. rewrite take_ge by lia.
  destruct (page_of fs q) as [d|] eqn:E; [|done]. destruct (last_frame_exists _ _ _ E) as [fr Hl]. destruct (last_frame_page _ _ _ Hl) as (j & g & -> & Hj & _).
  apply lookup_lt_Some in Hj. pose proof (Hb q _ Hq Hl ltac:(lia)) as Hd. rewrite E in Hd. by injection Hd as ->.
Qed.


(** C14: A checkpoint that meets no failure and no other connection succeeds, in
    every mode, and afterwards the database file alone has every page of the
    newest snapshot. *)
Theorem sqlite3WalCheckpoint_complete be d fs sz all h eMode xBusy sync_flags nBuf : checkpointable be d fs sz all h →
  events (wal d) = [] → readOnly (wal d) = 0 → fs = [] ∨ nBuf = sz →
  ∃ out d', sqlite3WalCheckpoint be eMode xBusy sync_flags nBuf d = Ret ((SQLITE_OK, out), d') ∧ Z.of_nat (length fs) ≤ nBackfill (wal d') ∧
    ∀ q, 1 ≤ q ≤ nPage h → db_page sz (dbFile d') q = view sz fs (length fs) (dbFile d) q.
Proof.
  intros Hc He Hro Hn. destruct (sqlite3WalCheckpoint_run be fs sz all h eMode xBusy sync_flags nBuf d Hc) as (rc & out & d' & E & [_ _ Hv Hb _ Hf] & Hok).
  rewrite (Hok He Hro Hn) in *. exists out, d'. assert (Z.of_nat (length fs) ≤ nBackfill (wal d')) as Hle by (apply Hf; [by right|by rewrite He|done]).
  split; [done|]. split; [done|]. intros q Hq. eapply backfilled_view; [done|done| |done]. apply Hv; [lia|by left].
Qed.

(** ** Closing *)

Section Close.
Context (be : bool) (fs : list frame) (sz : Z) (all : list Z) (h : WalIndexHdr).

(** What the file and the log show together, when the log may have been removed. *)
Definition keeps (d d' : Db) : Prop := ∀ q, 1 ≤ q ≤ nPage h →
  (walFile (wal d') = walFile (wal d) ∧ view sz fs (length fs) (dbFile d') q = view sz fs (length fs) (dbFile d) q) ∨
  (walFile (wal d') = [] ∧ db_page sz (dbFile d') q = view sz fs (length fs) (dbFile d) q).

Lemma keeps_any d w f : walFile w = walFile (wal d) → same_view fs sz (nPage h) (Z.of_nat (length fs)) (dbFile d) f → keeps d (MkDb w f).
Proof. intros E Hv q Hq. left. split; [done|]. specialize (Hv q ltac:(lia) ltac:(lia)). by rewrite Nat2Z.id in Hv. Qed.

Lemma walLimitSize_zero w : ∃ w', walLimitSize 0 w = Ret ((), w') ∧ (walFile w' = walFile w ∨ walFile w' = []).
Proof.
  unfold walLimitSize, sqlite3OsFileSize, sqlite3OsTruncate. destruct (event_any w _ _ w (at_wal_refl w)) as ([rc k] & w1 & E1 & Hw1 & _).
  pose proof (uc_file _ _ (at_wal_unchanged _ _ _ _ Hw1)) as Hf1.
  erewrite sm_bind_run; [|erewrite sm_bind_run; [|exact E1]; done]. cbn beta iota. case_match; [|exists w1; auto].
  destruct (event_any w1 _ _ w1 (at_wal_refl w1)) as ([rc2 k2] & w2 & E2 & Hw2 & _). pose proof (uc_file _ _ (at_wal_unchanged _ _ _ _ Hw2)) as Hf2.
  destruct (rc2 =? SQLITE_OK) eqn:Erc.
  - erewrite sm_bind_run; [|erewrite sm_bind_run; [|exact E2]; cbn beta iota; rewrite Erc; done]. eexists. split; [done|]. by right.
  - erewrite sm_bind_run; [|erewrite sm_bind_run; [|exact E2]; cbn beta iota; rewrite Erc; done]. eexists. split; [done|]. left. congruence.
Qed.

Lemma close_end isDelete (rc : Z) d :
  ∃ w', (_ ← on_wal (walIndexClose isDelete);
    _ ← (if isDelete : bool then
           '(rx, _) ← on_wal next_event;
           if rx =? SQLITE_OK then on_wal (sm_mod (set_walFile [])) else mret ()
         else mret ());
    mret rc) d = Ret (rc, MkDb w' (dbFile d)) ∧ (walFile w' = walFile (wal d) ∨ (isDelete = true ∧ walFile w' = [])).
Proof.
  destruct d as [w f]. assert (∃ w1, walIndexClose isDelete w = Ret ((), w1) ∧ walFile w1 = walFile w) as (w1 & E1 & Hf1).
  { unfold walIndexClose. erewrite sm_bind_run; [|done]. case_match; by eexists. }
  erewrite sm_bind_run; [|unfold on_wal; cbn; rewrite E1; done]. destruct isDelete; [|by eexists; split; [|by left]].
  destruct (event_any w1 _ _ w1 (at_wal_refl w1)) as ([rx k] & w2 & E2 & Hw2 & _). pose proof (uc_file _ _ (at_wal_unchanged _ _ _ _ Hw2)) as Hf2.
  destruct (rx =? SQLITE_OK) eqn:Erx.
  - erewrite sm_bind_run; [|erewrite sm_bind_run; [|unfold on_wal; cbn; rewrite E2; done]; cbn beta iota; rewrite Erx; done]. eexists. split; [done|]. by right.
  - erewrite sm_bind_run; [|erewrite sm_bind_run; [|unfold on_wal; cbn; rewrite E2; done]; cbn beta iota; rewrite Erx; done]. eexists. split; [done|]. left. cbn. congruence.
Qed.

Lemma checkpointable_same d w : checkpointable be d fs sz all h → walFile w = walFile (wal d) → wiPages w = wiPages (wal d) →
  shmHdr0 w = shmHdr0 (wal d) → shmHdr1 w = shmHdr1 (wal d) → nBackfill w = nBackfill (wal d) → aReadMark w = aReadMark (wal d) →
  ckptLock w = ckptLock (wal d) → writeLock w = writeLock (wal d) → checkpointable be (MkDb w (dbFile d)) fs sz all h.
Proof.
  intros [[]] E1 E2 E3 E4 E5 E6 E7 E8. split; cbn; rewrite ?E1, ?E2, ?E3, ?E4, ?E5, ?E6, ?E7, ?E8; try done. split; rewrite ?E1, ?E2, ?E6; done.
Qed.

(** Removing the log after a checkpoint that succeeded in exclusive mode. *)
Lemma close_run sync_flags nBuf d : checkpointable be d fs sz all h → Forall (λ e, e.1 ≠ SQLITE_BUSY) (events (wal d)) →
  ∃ rc d', sqlite3WalClose be sync_flags nBuf d = Ret (rc, d') ∧ keeps d d'.
Proof.
  intros Hc Hp. destruct d as [w f]. unfold sqlite3WalClose. destruct (event_any w _ _ w (at_wal_refl w)) as ([rc k] & w1 & E1 & Hw1 & _).
  pose proof (at_wal_unchanged _ _ _ _ Hw1) as Hu1. destruct (at_wal_conf _ _ _ _ Hw1) as (_ & _ & _ & _ & _ & El & Eb & Em & Ek).
  erewrite sm_bind_run; [|unfold on_wal; cbn; rewrite E1; done]. cbn beta iota. destruct (Z.eqb_spec rc SQLITE_OK) as [->|Hrc].
  2: { erewrite sm_bind_run; [|done]. cbn beta iota. destruct (close_end false rc (MkDb w1 f)) as (w' & -> & Hf). exists rc, (MkDb w' f). split; [done|].
       apply keeps_any; [|by intros q _ _]. cbn. destruct Hf as [->|[? _]]; [|done]. apply Hu1. }
  set (w2 := if exclusiveMode (conf w1) =? WAL_NORMAL_MODE then set_exclusiveMode WAL_EXCLUSIVE_MODE w1 else w1).
  assert (checkpointable be (MkDb w2 f) fs sz all h) as Hc2.
  { apply (checkpointable_same (MkDb w f)); [done|..]; cbn; subst w2; destruct (_ =? WAL_NORMAL_MODE); cbn; try apply Hu1; done. }
  assert (exclusiveMode (conf w2) ≠ 0 ∧ events w2 = events w1 ∧ walFile w2 = walFile w) as (Hx & Hev & Hwf).
  { subst w2. pose proof (uc_file _ _ Hu1). destruct (Z.eqb_spec (exclusiveMode (conf w1)) WAL_NORMAL_MODE); done. }
  destruct (sqlite3WalCheckpoint_run be fs sz all h SQLITE_CHECKPOINT_PASSIVE false sync_flags nBuf _ Hc2) as (rc & out & [w3 f3] & E3 & [Hu3 _ Hv3 Hb3 _ Hf3] & _).
  cbn [wal dbFile] in *. assert (rc = SQLITE_OK → Z.of_nat (length fs) ≤ nBackfill w3) as Hfull.
  { intros Hr. apply Hf3; [by left| |done]. rewrite Hev. by apply (uc_polite _ _ Hu1). }
  assert (same_view fs sz (nPage h) (Z.of_nat (length fs)) f f3) as Hsv by (apply Hv3; [lia|by left]).
  (* the answer to the persistence question, and the log after it *)
  assert (∃ rc' del w4, ('(rc, _) ← sqlite3WalCheckpoint be SQLITE_CHECKPOINT_PASSIVE false sync_flags nBuf;
       if rc =? SQLITE_OK then
         '(rx, b) ← on_wal next_event;
         let bPersist := if rx =? SQLITE_OK then b else -1 in
         if negb (bPersist =? 1) then mret (rc, true) else
         m ← sm_get (λ d, mxWalSize (conf (wal d)));
         if 0 <=? m then _ ← on_wal (walLimitSize 0); mret (rc, false) else mret (rc, false)
       else mret (rc, false)) (MkDb w2 f) = Ret ((rc', del), MkDb w4 f3) ∧
     (walFile w4 = walFile w ∨ (walFile w4 = [] ∧ rc = SQLITE_OK)) ∧ (del = true → rc = SQLITE_OK)) as (rc' & del & w4 & E4 & Hf4 & Hdel).
  { pose proof (uc_file _ _ Hu3) as Hfu. cbn in Hfu. erewrite sm_bind_run; [|exact E3]. cbn beta iota.
    destruct (Z.eqb_spec rc SQLITE_OK) as [->|Hrc]; [|eexists _, _, _; split; [done|]; split; [left; congruence|done]].
    destruct (event_any w3 _ _ w3 (at_wal_refl w3)) as ([rx b] & w4 & E4 & Hw4 & _). pose proof (uc_file _ _ (at_wal_unchanged _ _ _ _ Hw4)) as Hf4.
    erewrite sm_bind_run; [|unfold on_wal; cbn; rewrite E4; done]. cbn beta iota zeta. destruct (negb _); [eexists _, _, _; split; [done|]; split; [left; congruence|done]|].
    erewrite sm_bind_run; [|done]. destruct (0 <=? _); [|eexists _, _, _; split; [done|]; split; [left; congruence|done]].
    destruct (walLimitSize_zero w4) as (w5 & E5 & Hf5). erewrite sm_bind_run; [|unfold on_wal; cbn [wal]; rewrite E5; done].
    eexists _, _, _. split; [done|]. split; [|done]. destruct Hf5 as [-> | ->]; [left; congruence|by right]. }
  erewrite sm_bind_run; [|erewrite sm_bind_run; [|unfold on_wal; cbn; fold w2; done]; exact E4]. cbn beta iota.
  destruct (close_end del rc' (MkDb w4 f3)) as (w' & -> & Hf'). exists rc', (MkDb w' f3). split; [done|]. cbn [wal dbFile] in Hf'.
  assert (walFile w' = walFile w ∨ (walFile w' = [] ∧ rc = SQLITE_OK)) as [Hsame|[Hnil Hr]].
  { destruct Hf' as [->|[H1 -> ]]; [done|]. right. split; [done|by apply Hdel]. }
  - by apply keeps_any.
  - intros q Hq. right. split; [done|]. eapply backfilled_view; [done|by apply Hfull|done|done].
Qed.
End Close.


(** ** A log of one frame, for the witnesses *)

Definition ckpt_hdr : WalIndexHdr := init_hdr false (MkHdr 0 1 0 0 512 1 9 (0, 0) (replicate 8 0) (0, 0)).
Definition ckpt_db (evs : list (Z * Z)) : Db :=
  MkDb (MkWal 512 0 ckpt_hdr (-1) 0 0 0 0 0 demo_pages1 ckpt_hdr ckpt_hdr 0
         [0; READMARK_NOT_USED; READMARK_NOT_USED; READMARK_NOT_USED; READMARK_NOT_USED]
         (log_file false 512 0 (replicate 8 0) [demo_frame]) evs [] demo_config) [].

Lemma ckpt_hdr_fields : isInit ckpt_hdr = 1 ∧ iVersion ckpt_hdr = WALINDEX_MAX_VERSION ∧ mxFrame ckpt_hdr = 1 ∧ nPage ckpt_hdr = 9 ∧ h_szPage ckpt_hdr = 512.
Proof. unfold ckpt_hdr, init_hdr. generalize (init_cksum false (MkHdr 0 1 0 0 512 1 9 (0, 0) (replicate 8 0) (0, 0))). done. Qed.

Lemma ckpt_hdr_valid : valid_hdr false ckpt_hdr.
Proof.
  destruct ckpt_hdr_fields as (E1 & E2 & _). split; [by rewrite E1|]. split; [|done]. unfold ckpt_hdr, init_hdr.
  rewrite init_cksum_run by (split; [by left|apply demo_salt]). f_equal.
Qed.

Lemma ckpt_db_ok evs : checkpointable false (ckpt_db evs) [demo_frame] 512 [7] ckpt_hdr.
Proof.
  destruct ckpt_hdr_fields as (_ & _ & E3 & E4 & E5). assert (index_ok demo_pages1 [7] ∧ demo_pages1 ≠ []) as [Hix Hne].
  { destruct demo_started_knows as (_ & l & Hix & E). destruct (append_frames_ok [] [] 0 [7]) as (p & Ep & Hixp); [apply index_ok_nil|simpl; lia|repeat constructor|done|done|].
    split; [|by vm_compute]. unfold demo_pages1. change (Z.of_nat 0) with 0 in Ep. by rewrite Ep. }
  split; [|done|done|done|apply ckpt_hdr_valid|done|by rewrite E5|done|done|done|].
  - split; [apply page_size_512|constructor; [apply demo_frame_ok|constructor]| |done|done|repeat constructor; lia|done].
    exists false, 0, (replicate 8 0), []. split; [apply demo_salt|]. by rewrite app_nil_r.
  - intros q fr Hq [Hnz Hl] Hle. cbn in Hle. destruct Hl as [[-> _]|(j & _ & -> & _)]; [done|lia].
Qed.


Lemma sqlite3WalCheckpoint_complete_witness :
  ∃ out d', sqlite3WalCheckpoint false SQLITE_CHECKPOINT_FULL true 2 512 (ckpt_db []) = Ret ((SQLITE_OK, out), d') ∧
    db_page 512 (dbFile d') 7 = replicate 512 3.
Proof.
  destruct (sqlite3WalCheckpoint_complete false (ckpt_db []) [demo_frame] 512 [7] ckpt_hdr SQLITE_CHECKPOINT_FULL true 2 512 (ckpt_db_ok []))
    as (out & d' & R & _ & V); [done|done|by right|].
  exists out, d'. split; [exact R|]. destruct ckpt_hdr_fields as (_ & _ & _ & E4 & _). rewrite (V 7) by (rewrite E4; lia). done.
Defined.

